(* ===== verification/_CoqProject ===== *)
-Q . S2P
Prelude.v
JsMap.v
Types.v
Amm.v
Vesting.v
Codec.v
JsonText.v
Crypto.v
Activity.v
Transaction.v
ByteText.v
TxShape.v
ShapeRead.v
Oracle.v
Ledger.v
LedgerHistory.v
SparseTree.v
StateV2.v
StateV2Root.v
Mining.v
Portable.v
Block.v
Genesis.v
Governance.v
Priority.v
ConsensusV6.v
Scheduler.v
BlockEnvelope.v
Mempool.v
Chain.v
Selection.v
ChainGovernance.v
ChainHistory.v
LaunchChain.v
TrustedSnapshot.v
Checkpoint.v
LightClient.v
AnchoredStream.v
PortableView.v
PortableBundle.v
PeerAuth.v
FrameText.v
Frame.v
RateLimit.v
Journal.v
JournalReplay.v
Compaction.v
Recovery.v
Votes.v
Budget.v
Node.v
Handlers.v
Admission.v
VotingLog.v
ConsensusSafety.v
Agreement.v
