(* ===== verification/Prelude.v ===== *)
(** * ZyronChain: a verification library of the L1 node

    ZyronChain is a fixed-supply proof-of-authority chain written in TypeScript
    under l1/src.  A node keeps a chain of finalized blocks and the ledger they
    lead to, a pool of pending transactions, and, when it is a validator, a
    signing journal on disk.  Blocks are proposed by a rotating leader and
    finalized by certificates of more than two thirds of the validators; from
    protocol v2 on every header commits to the root of an authenticated state
    tree, and from protocol v6 on blocks are decided by a two-phase vote with
    locks.  Other nodes follow by replaying blocks, by a checkpoint, by a
    portable bundle of the state, or as light clients from headers alone.

    This library models those parts as executable definitions, one file per
    part, and proves what each part promises to the next.  Names are those of
    the source wherever Rocq allows it.

    ** How the parts fit together

    A transaction enters as an untrusted JSON value.  [validateTransactionShape]
    (TxShape.v) turns it into a typed transaction or refuses it; [Mempool.add]
    (Mempool.v) keeps it within the pool's limits; [orderPendingByFeePriority]
    (Priority.v) and [selectValidPending] (Chain.v) choose a block body; the
    block is validated (BlockEnvelope.v) and replayed by [LedgerState.apply]
    (Ledger.v) or by [applyStateV2Transaction] on the state tree (StateV2.v,
    SparseTree.v).  [acceptBlock] (Chain.v) appends it and records what the
    transactions decide about future validators, oracle and protocol version
    (Governance.v).  The finality evidence of a v6 block comes from the handlers
    of the validators (Node.v), which reserve every vote in the journal
    (Journal.v) before they sign it.

    ** Modelling conventions

    - An error is a value: [res A] is [Ok] or [Throw] with the source's message.
      A method of a mutable object is a [meth S A]: it returns the state reached
      together with the result, also when it throws, because a JavaScript throw
      undoes nothing.
    - A JavaScript number that holds an integer is a [Z], kept in range by the
      source's own [Number.isSafeInteger] checks ([isSafeInteger]); a [bigint] is
      a [Z].  Text is [string] where it is ASCII or bytes, and a list of UTF-16
      code units in the codec, where the order and the escapes depend on them.
    - A [Map] or [Set] whose enumeration order matters is the ordered map of
      JsMap.v or a list; one that is only looked up is stdpp's [gmap].
    - SHA-256 and secp256k1 are code outside the repository: the operations of
      the class [Crypto] (Crypto.v).  What the protocol relies on is the class
      [CryptoLaws]; [ToyCrypto] is an instance that shows the laws can hold and
      in which the witnesses compute.  Collision resistance is never assumed as
      such.  That two inputs with one hash exist is plain counting, so a theorem
      never offers that as its other case: a theorem about hashes of data names the
      byte strings that were hashed, as an explicit list computed from the data
      ([tree_inputs], [proof_inputs], [record_inputs], ...), and holds unless two of
      that list collide ([collision_among]); or it takes as a hypothesis that the
      keys in use have different hashes ([hashes_apart]).
    - The clock, the outcome of a write to disk and what a peer sends are
      arguments, so a theorem holds for all of them.
    - [await] points: a class whose methods run one at a time (the node's
      [exclusive]) is a function of its state; where the interleaving matters
      (Scheduler.v, ConsensusSafety.v, Frame.v) the turns are explicit steps.

    ** Files

    Foundations.
    - Prelude.v (this file): errors, methods, safe integers, sums, quorums and
      their intersection, stable sort; the tactics [res_inv], [res_split],
      [breflect], [case_if].
    - JsMap.v: maps in insertion order.
    - Types.v: types.ts.  Codec.v, JsonText.v: codec.ts and the JSON text read
      back.  Crypto.v: crypto.ts, merkle.ts, address-checksum.ts.  ByteText.v:
      canonical bytes determine the value.

    Rules of the ledger.
    - Amm.v: amm-math.ts.  Vesting.v: founder-vesting.ts, allocation-locks.ts.
      Activity.v: activity.ts, fee-policy.ts.  Mining.v: mining.ts (retired).
      Oracle.v: activity-oracle.ts.  Genesis.v: network-class.ts, tokenomics.ts,
      public-distribution-release.ts, validator-admission.ts and [validateGenesis]
      of chain.ts.
    - Transaction.v, TxShape.v, ShapeRead.v: transaction.ts.
    - Ledger.v, LedgerHistory.v: state.ts.

    Authenticated state.
    - SparseTree.v, StateV2.v, StateV2Root.v, Portable.v: state-v2.ts.  The
      handlers of StateV2.v use a store through the class [StateStore]; the laws
      [StateStoreLaws] are discharged by the sparse tree.
    - PortableView.v, PortableBundle.v, AnchoredStream.v: state-v2-portable.ts,
      the streams of state-v2.ts and the download loops of p2p-state.ts.

    Blocks and the chain.
    - Block.v, BlockEnvelope.v: block.ts.
    - Mempool.v: mempool.ts.  Priority.v, Governance.v, Chain.v, Selection.v,
      ChainGovernance.v, ChainHistory.v, LaunchChain.v, TrustedSnapshot.v,
      Checkpoint.v: chain.ts, its definitions first and then what holds of every
      chain built by them ([grows] of ChainGovernance.v, [history] of
      ChainHistory.v).
    - LightClient.v: light-client.ts.
    - Admission.v: the transaction half of NodeService (node-base.ts): submission,
      parked and deferred transactions, finalized blocks; commitFinalizedBlock of
      class ChainStore (storage.ts).

    Consensus.
    - ConsensusV6.v: consensus-v6.ts.  Scheduler.v: v6-scheduler.ts.
    - Journal.v: class SigningJournal of storage.ts, compaction included.
      JournalReplay.v: what replaying a file gives, and the outcomes of each
      operation; Compaction.v: what [compactThrough] leaves; Recovery.v: lives of
      the journal.
    - Budget.v: proposal-validation-budget.ts.  Votes.v: signed bytes of votes.
    - Node.v, Handlers.v: the v6 handlers of node-base.ts, validator-signer.ts,
      consensus-state-store.ts.
    - VotingLog.v, ConsensusSafety.v, Agreement.v: the system of validators.

    Peers.
    - PeerAuth.v: peer-identity.ts.  FrameText.v, Frame.v: p2p-frame.ts.
    - RateLimit.v: p2p-rate.ts and rpc-rate-limit.ts; what both promise is the class
      [WindowLimiterLaws].

    ** What the theorems show

    - Agreement.  [agreement]: in a system of validators that run the v6 handlers
      with restarts, failed appends, compactions of earlier heights and lost
      files, and with fewer than a third of them doing anything at all, no two
      commit certificates of one height decide different blocks.  (A validator
      that compacts this very height has finalized it and signs for later heights
      only: it retires from the system of this height.)  It rests on the journal ([journal_never_equivocates],
      [journal_recovers]) and on the pacemaker and scheduler ([clockRound_spec],
      [leader_never_oversleeps], [scheduler_watches]).
    - The ledger.  Supply is conserved ([apply_conserves_supply]), a failed
      transaction changes nothing, or, for a transfer with a fixed fee that does
      not fit, exactly what was moved before the fee was checked ([apply_atomic]);
      block validation pairs a transfer with a fee that fits.  Locked allocations stay
      ([locked_allocations_stay]); on a launched chain all of it holds at every
      height ([launch_chain_safe], [launch_genesis_sound]), and the tree-based
      ledger refines the plain one, per transaction and over a whole chain
      ([stateV2_refines_ledger], [chain_refines_ledger]).
    - The authenticated tree is a map with sound proofs ([sparse_tree_is_map],
      [sparse_proof_sound]) and its root is a function of the ledger
      ([stateV2_root_reproducible]).
    - The chain.  What a proposer selects replays ([selection_replays]), in
      greedy fee order ([order_is_greedy_merge]); governance needs a quorum and
      works only ahead of time ([governance_needs_quorum], [schedules_fixed_ahead],
      [no_downgrade_from_v6], [validators_hold_their_keys]); an accepted block was
      authenticated ([finalized_block_sound]).
    - Untrusted input.  The shape gate is sound ([validateTransactionShape_sound])
      and accepts what the constructors make exactly when its fields are in range,
      which the constructors do not check ([created_transaction_validates]); the streaming digest is the digest
      ([canonicalJsonDigest_correct]) but for member names that are array indexes
      ([index_keys_diverge]); settlements carry the approvals their policy asks for
      ([settlement_authorized_sound]); checkpoints, bundles, streams and headers
      are bound to what the client already trusts ([checkpoint_sound],
      [checkpoint_continues], [portable_bundle_exact], [anchored_transfer_sound],
      [light_header_sound], [light_transition_sound]); requests are accepted once
      ([request_accepted_once], [honest_request_accepted]); frames are read within
      a budget, and read back as written where their structure passes the scan
      that only the reader makes ([frame_read_sound], [frame_roundtrip],
      [frames_share_budget]); requests are limited per peer and for all peers that
      share the overflow lane ([peer_rate_limited]).
    - The pool.  [mempool_add]: every branch of admission, replacement and
      eviction keeps the counters exact and the limits; the byte reserve for
      protocol transactions is no invariant, because an eviction makes room without
      it ([reserved_bytes_taken]).
      [pool_follows_chain], [admission_covered], [retry_terminates]: on a node the
      pool stays consistent with the chain through any interleaving of
      submissions and blocks, admitted transfers are covered, and the updates
      that wait are few and tried again in bounded work.

    Most statements carry hypotheses; each such property has a witness next to it
    that applies it to a concrete run.

    ** Bounds and fuel

    Recursion that is not structural has fuel, with a lemma that the fuel given
    is enough: the JSON parser gets twice the length of the text plus two; the
    Merkle root the number of leaves (every level halves it); the streaming
    digest and the frame writer the length of the text; the pacemaker's two
    searches the estimate they start from and the distance to the capped round; the retired issuance one unit per era;
    the heap of Priority.v its size and the merge the number of transactions; the batches
    of tree records three visits per record.  The tree has the constant depth
    256 of the source.
    Trying the deferred updates again gets one pass per update and one more.

    ** Not modelled

    Sockets, HTTP, libp2p streams and peer scoring; SQLite, file leases, bounded
    file reads and the persistence of tree records; encrypted key files; command
    line, RPC client and node assembly: these call the modelled parts and the
    operating system, and have no logic of the protocol of their own that could
    be stated without a model of the platform.  RemoteValidatorSigner is an HTTP
    client of the modelled signer interface.  Signed peer records depend on the
    platform's URL parser.  The websites, the wallet snap, the Telegram game, the
    Python prototype, the Python light client and the repository's scripts are
    other programs. *)

(** * Prelude *)

From Stdlib Require Export Ascii ZArith Lia Bool.
From stdpp Require Export base tactics option list numbers strings pretty gmap sorting.

#[global] Open Scope Z_scope.

Lemma sub_app_l {A} (l k i : list A) : l ++ k ⊆ i → l ⊆ i.
Proof. intros Hs x Hx. apply Hs, elem_of_app. by left. Qed.
Lemma sub_app_r {A} (l k i : list A) : l ++ k ⊆ i → k ⊆ i.
Proof. intros Hs x Hx. apply Hs, elem_of_app. by right. Qed.
Lemma sub_cons_r {A} (x : A) (l i : list A) : x :: l ⊆ i → l ⊆ i.
Proof. intros Hs y Hy. apply Hs. by right. Qed.

(** ** JavaScript errors as values

    [throw new Error(msg)] is [Throw msg]; a value returned normally is [Ok v].
    The error text is kept, because the source treats it as part of several
    contracts (RPC answers, the mempool and the tests compare it). *)

Inductive res (A : Type) : Type :=
| Ok (a : A)
| Throw (msg : string).
Arguments Ok {A} a.
Arguments Throw {A} msg.

#[global] Instance res_ret : MRet res := @Ok.
#[global] Instance res_bind : MBind res := λ A B f r,
  match r with Ok a => f a | Throw m => Throw m end.
#[global] Instance res_fmap : FMap res := λ A B f r,
  match r with Ok a => Ok (f a) | Throw m => Throw m end.

(** [if (b) throw new Error(msg);] *)
Definition throw_if (b : bool) (msg : string) : res unit :=
  if b then Throw msg else Ok ().

(** [const x = o; if (x === undefined) throw new Error(msg);] *)
Definition unwrap {A} (o : option A) (msg : string) : res A :=
  match o with Some a => Ok a | None => Throw msg end.

Definition isOk {A} (r : res A) : bool :=
  match r with Ok _ => true | Throw _ => false end.

(** A [for (const x of l)] loop whose body may throw and updates the local
    variables [s]. *)
Fixpoint res_fold {A S} (body : S → A → res S) (s : S) (l : list A) : res S :=
  match l with
  | [] => Ok s
  | x :: l' => s' ← body s x; res_fold body s' l'
  end.

(** The same loop with no local state. *)
Fixpoint res_forall {A} (body : A → res unit) (l : list A) : res unit :=
  match l with
  | [] => Ok ()
  | x :: l' => body x;; res_forall body l'
  end.

(** ** Methods of a mutable object

    A method of a class is a function of the object's state.  A throw does not
    roll the object back: the state reached so far is returned beside it. *)
Definition meth (S A : Type) : Type := S → S * res A.

#[global] Instance meth_ret {S} : MRet (meth S) := λ A a s, (s, Ok a).
#[global] Instance meth_bind {S} : MBind (meth S) := λ A B f m s,
  match m s with
  | (s', Ok a) => f a s'
  | (s', Throw e) => (s', Throw e)
  end.

Definition m_get {S} : meth S S := λ s, (s, Ok s).
Definition m_modify {S} (f : S → S) : meth S unit := λ s, (f s, Ok ()).
Definition m_lift {S A} (r : res A) : meth S A := λ s, (s, r).
Definition m_throw_if {S} (b : bool) (msg : string) : meth S unit :=
  m_lift (throw_if b msg).

(** [for (const x of l) body(x)] inside a method. *)
Fixpoint m_for {S A} (body : A → meth S unit) (l : list A) : meth S unit :=
  match l with
  | [] => mret ()
  | x :: l' => body x;; m_for body l'
  end.

(** ** Numbers

    A JavaScript number that holds an integer is a [Z].  Every number the
    protocol computes with is checked with [Number.isSafeInteger]; on safe
    integers the sums, products and floors of the source are exact as long as
    the checked result is safe (a result out of the safe range stays out of it
    after rounding to a double), so the check on [Z] decides as the check on
    the double does.  [bigint] is [Z] with truncated division. *)
Definition MAX_SAFE_INTEGER : Z := 9007199254740991.
Definition isSafeInteger (z : Z) : bool :=
  (- MAX_SAFE_INTEGER <=? z) && (z <=? MAX_SAFE_INTEGER).

(** [array.length] *)
Definition zlen {A} (l : list A) : Z := Z.of_nat (length l).

(** [Math.floor(a / b)] for safe integers with [b > 0]. *)
Definition math_floor_div (a b : Z) : Z := a / b.

(** ** Regular expressions of the source over ASCII text *)
Definition isLowerHex (c : Ascii.ascii) : bool :=
  let n := Ascii.N_of_ascii c in
  ((48 <=? n)%N && (n <=? 57)%N) || ((97 <=? n)%N && (n <=? 102)%N).

(** [/^[0-9a-f]{n}$/] *)
Definition isLowerHexOf (n : nat) (s : string) : bool :=
  Nat.eqb (String.length s) n && forallb isLowerHex (String.list_ascii_of_string s).

(** [assertHex(value, bytes, name)] (codec.ts). *)
Definition assertHex (value : string) (bytes : nat) (name : string) : res unit :=
  throw_if (negb (isLowerHexOf (2 * bytes) value))
    (name +:+ " must be " +:+ pretty (Z.of_nat bytes) +:+ " bytes of lowercase hex").

(** ** Laws of the error monad *)

Lemma res_bind_Ok {A B} (r : res A) (f : A → res B) (b : B) :
  (r ≫= f) = Ok b ↔ ∃ a, r = Ok a ∧ f a = Ok b.
Proof. destruct r; simpl; naive_solver. Qed.

Lemma Ok_inj {A} (a b : A) : Ok a = Ok b → a = b.
Proof. by intros [= ->]. Qed.

Lemma throw_if_Ok (b : bool) (m : string) (u : unit) : throw_if b m = Ok u ↔ b = false.
Proof. destruct b, u; simpl; naive_solver. Qed.

Lemma unwrap_Ok {A} (o : option A) (m : string) (a : A) : unwrap o m = Ok a ↔ o = Some a.
Proof. destruct o; simpl; naive_solver. Qed.

Lemma isOk_spec {A} (r : res A) : isOk r = true ↔ ∃ a, r = Ok a.
Proof. destruct r; simpl; naive_solver. Qed.

Lemma res_forall_Ok {A} (body : A → res unit) (l : list A) (u : unit) :
  res_forall body l = Ok u ↔ ∀ x, x ∈ l → body x = Ok ().
Proof.
  destruct u. induction l as [|x l IH]; simpl; [set_solver|].
  rewrite res_bind_Ok. setoid_rewrite elem_of_cons. split.
  - intros ([] & Hx & Hl) y [->|Hy]; [done|]. by apply IH.
  - intros H. exists (). split; [by apply H; left|]. apply IH. auto.
Qed.

(** Rule for a loop that finishes: an invariant of the body holds at the end. *)
Lemma res_fold_inv {A S} (I : list A → S → Prop) (body : S → A → res S) (l : list A) (s s' : S) :
  res_fold body s l = Ok s' → I [] s →
  (∀ pre x s1 s2, I pre s1 → x ∈ l → body s1 x = Ok s2 → I (pre ++ [x]) s2) →
  I l s'.
Proof.
  intros Hf H0 Hstep.
  assert (∀ pre rest s1, pre ++ rest = l → I pre s1 → res_fold body s1 rest = Ok s' → I l s') as G.
  { intros pre rest. revert pre. induction rest as [|x rest IH]; intros pre s1 Heq HI Hr; simpl in Hr.
    - rewrite app_nil_r in Heq. naive_solver.
    - apply res_bind_Ok in Hr as (s2 & Hb & Hr).
      apply (IH (pre ++ [x]) s2); [by rewrite <-app_assoc | | done].
      eapply Hstep; [done| | done]. subst l. set_solver. }
  by apply (G [] l s).
Qed.

(** A loop over votes that refuses a second vote of the same voter: at the end
    the voters are distinct and every vote passed its checks [Q].  [seen] is the
    set of voters among the local variables of the loop. *)
Lemma seen_loop {V S} (who : V → string) (seen : S → list string) (Q : V → Prop)
    (body : S → V → res S) (votes : list V) (s s' : S) :
  (∀ s1 v s2, body s1 v = Ok s2 → who v ∉ seen s1 ∧ seen s2 = who v :: seen s1 ∧ Q v) →
  res_fold body s votes = Ok s' → seen s = [] →
  NoDup (who <$> votes) ∧ Forall Q votes.
Proof.
  intros Hb Hf H0.
  assert (seen s' ≡ₚ (who <$> votes) ∧ NoDup (seen s') ∧ Forall Q votes) as (Hp & Hnd & HQ).
  { refine (res_fold_inv (λ pre s1, seen s1 ≡ₚ (who <$> pre) ∧ NoDup (seen s1) ∧ Forall Q pre)
      body votes s s' Hf _ _).
    - rewrite H0. repeat constructor.
    - intros pre v s1 s2 (Hp & Hnd & HQ) _ (Hn & Hs & Hv)%Hb. rewrite Hs. split_and!.
      + rewrite fmap_app, Hp. csimpl. by rewrite Permutation_cons_append.
      + by constructor.
      + apply Forall_app; auto. }
  split; [|done]. by rewrite <-Hp.
Qed.

Lemma meth_bind_run {S A B} (m : meth S A) (f : A → meth S B) (s : S) :
  (m ≫= f) s = match m s with (s', Ok a) => f a s' | (s', Throw e) => (s', Throw e) end.
Proof. done. Qed.

Lemma meth_bind_Ok {S A B} (m : meth S A) (k : A → meth S B) (s s' : S) (b : B) :
  (m ≫= k) s = (s', Ok b) ↔ ∃ s1 a, m s = (s1, Ok a) ∧ k a s1 = (s', Ok b).
Proof. rewrite meth_bind_run. destruct (m s) as [s1 [a|e]]; naive_solver. Qed.

Lemma m_lift_Ok {S A} (r : res A) (s s' : S) (a : A) : m_lift r s = (s', Ok a) ↔ s' = s ∧ r = Ok a.
Proof. unfold m_lift. naive_solver. Qed.

Lemma m_throw_if_Ok {S} (b : bool) (msg : string) (s s' : S) (u : unit) :
  m_throw_if b msg s = (s', Ok u) ↔ s' = s ∧ b = false.
Proof. unfold m_throw_if. rewrite m_lift_Ok, throw_if_Ok. done. Qed.

Lemma mret_Ok {S A} (a a' : A) (s s' : S) : (mret a : meth S A) s = (s', Ok a') ↔ s' = s ∧ a = a'.
Proof. unfold mret, meth_ret. naive_solver. Qed.

(** ** Numbers *)

Lemma isSafeInteger_spec (z : Z) :
  isSafeInteger z = true ↔ - MAX_SAFE_INTEGER ≤ z ≤ MAX_SAFE_INTEGER.
Proof. unfold isSafeInteger. lia. Qed.

Lemma isSafeInteger_false (z : Z) :
  isSafeInteger z = false ↔ z < - MAX_SAFE_INTEGER ∨ MAX_SAFE_INTEGER < z.
Proof. unfold isSafeInteger. lia. Qed.

(** ** Automation

    [res_inv] turns "this code returned" into the facts its guards checked;
    [breflect] turns boolean tests into propositions. *)

Create Rewrite HintDb breflect.
#[export] Hint Rewrite andb_true_iff orb_true_iff andb_false_iff orb_false_iff negb_true_iff
  negb_false_iff bool_decide_eq_true bool_decide_eq_false isSafeInteger_spec isSafeInteger_false
  Z.ltb_lt Z.ltb_ge Z.leb_le Z.leb_gt Z.eqb_eq Z.eqb_neq Nat.eqb_eq Nat.leb_le : breflect.

Ltac breflect := autorewrite with breflect in *.

Ltac res_inv_step :=
  match goal with
  | H : Throw _ = Ok _ |- _ => discriminate H
  | H : Ok _ = Throw _ |- _ => discriminate H
  | H : Ok _ = Ok _ |- _ => injection H as H; try subst
  | H : mret _ = Ok _ |- _ => injection H as H; try subst
  | H : (_ ≫= _) = Ok _ |- _ => apply res_bind_Ok in H as (? & ? & H)
  | H : throw_if _ _ = Ok _ |- _ => apply throw_if_Ok in H
  | H : unwrap _ _ = Ok _ |- _ => apply unwrap_Ok in H
  | H : (if ?b then _ else _) = Ok _ |- _ => destruct b eqn:?
  | H : (match ?o with Some _ => _ | None => _ end) = Ok _ |- _ => destruct o eqn:?
  | u : unit |- _ => destruct u
  end.
Ltac res_inv := repeat (res_inv_step; simpl in *).

(** Splitting a sequence of statements without reducing them. *)
Ltac res_split :=
  repeat match goal with
  | H : (_ ≫= _) = Ok _ |- _ => apply res_bind_Ok in H as (? & ? & H)
  | H : throw_if _ _ = Ok _ |- _ => apply throw_if_Ok in H
  | H : Ok _ = Ok _ |- _ => apply Ok_inj in H
  | u : unit |- _ => destruct u
  end.

(** Case analysis on a conditional of the code. *)
Ltac case_if :=
  match goal with
  | |- context [if ?b then _ else _] => destruct b eqn:?
  | H : context [if ?b then _ else _] |- _ => destruct b eqn:?
  end.

(** ** Sums *)

Definition sumZ {A} (f : A → Z) (l : list A) : Z := foldr (λ x acc, f x + acc) 0 l.

Lemma sumZ_app {A} (f : A → Z) (l k : list A) : sumZ f (l ++ k) = sumZ f l + sumZ f k.
Proof. induction l; simpl; lia. Qed.

Lemma sumZ_nonneg {A} (f : A → Z) (l : list A) : (∀ x, x ∈ l → 0 ≤ f x) → 0 ≤ sumZ f l.
Proof.
  induction l as [|x l IH]; simpl; intros H; [lia|].
  pose proof (H x ltac:(set_solver)). assert (0 ≤ sumZ f l) by (apply IH; set_solver). lia.
Qed.

Lemma sumZ_elem_le {A} (f : A → Z) (l : list A) (x : A) :
  (∀ y, y ∈ l → 0 ≤ f y) → x ∈ l → f x ≤ sumZ f l.
Proof.
  intros Hn Hx. induction l as [|y l IH]; [set_solver|]. simpl.
  assert (0 ≤ sumZ f l) by (apply sumZ_nonneg; set_solver).
  apply elem_of_cons in Hx as [->|Hx]; [lia|].
  specialize (IH ltac:(set_solver) Hx). pose proof (Hn y ltac:(set_solver)). lia.
Qed.

#[global] Instance sumZ_Permutation {A} (f : A → Z) : Proper ((≡ₚ) ==> (=)) (sumZ f).
Proof. intros l k Hp. induction Hp; simpl; lia. Qed.

Lemma sumZ_ext {A} (f g : A → Z) (l : list A) : (∀ x, x ∈ l → f x = g x) → sumZ f l = sumZ g l.
Proof.
  induction l as [|x l IH]; simpl; intros H; [done|].
  rewrite (H x) by set_solver. rewrite IH; [done|]. set_solver.
Qed.

(** The sum of [f] over the values of a finite map, the way a total is taken
    over the entries of a [Map]. *)
Definition map_sum {K V} `{Countable K} (f : V → Z) (m : gmap K V) : Z :=
  sumZ (λ kv, f kv.2) (map_to_list m).

Section map_sum.
Context {K V : Type} `{Countable K} (f : V → Z).

Lemma map_sum_empty : map_sum f (∅ : gmap K V) = 0.
Proof. unfold map_sum. by rewrite map_to_list_empty. Qed.

Lemma map_sum_insert_None (m : gmap K V) (k : K) (v : V) :
  m !! k = None → map_sum f (<[k:=v]> m) = f v + map_sum f m.
Proof. intros Hk. unfold map_sum. by rewrite map_to_list_insert. Qed.

Lemma map_sum_delete (m : gmap K V) (k : K) (v : V) :
  m !! k = Some v → map_sum f m = f v + map_sum f (delete k m).
Proof.
  intros Hk. rewrite <-(map_sum_insert_None (delete k m) k v) by apply lookup_delete_eq.
  by rewrite insert_delete_id.
Qed.

(** Overwriting an entry moves the total by the difference. *)
Lemma map_sum_insert (m : gmap K V) (k : K) (v : V) :
  map_sum f (<[k:=v]> m) = map_sum f m + f v - from_option f 0 (m !! k).
Proof.
  destruct (m !! k) as [w|] eqn:E; simpl.
  - rewrite (map_sum_delete (<[k:=v]> m) k v) by apply lookup_insert_eq.
    rewrite delete_insert_eq. rewrite (map_sum_delete m k w E). lia.
  - rewrite map_sum_insert_None by done. lia.
Qed.

Lemma map_sum_nonneg (m : gmap K V) :
  (∀ k v, m !! k = Some v → 0 ≤ f v) → 0 ≤ map_sum f m.
Proof. intros Hn. apply sumZ_nonneg. intros [k v] Hin. apply elem_of_map_to_list in Hin. eauto. Qed.

Lemma map_sum_lookup_le (m : gmap K V) (k : K) (v : V) :
  (∀ k' v', m !! k' = Some v' → 0 ≤ f v') → m !! k = Some v → f v ≤ map_sum f m.
Proof.
  intros Hn Hk. rewrite (map_sum_delete m k v Hk).
  assert (0 ≤ map_sum f (delete k m)); [|lia].
  apply map_sum_nonneg. intros k' v' [_ H']%lookup_delete_Some. eauto.
Qed.

End map_sum.

(** ** Quorums *)

(** [Math.floor((n * 2) / 3) + 1] (block.ts, validatorQuorumSize). *)
Definition quorum (n : Z) : Z := (n * 2) / 3 + 1.

Lemma quorum_bounds (n : Z) : 1 ≤ n → 1 ≤ quorum n ≤ n.
Proof. unfold quorum. intros. Z.div_mod_to_equations. lia. Qed.

(** Two lists without duplicates drawn from [n] members that reach [a] and [b]
    entries share at least [a + b - n] of them. *)
Lemma pigeonhole_overlap {A} `{EqDecision A} (members l k : list A) :
  NoDup l → NoDup k → l ⊆ members → k ⊆ members →
  (length l + length k ≤ length members + length (filter (.∈ k) l))%nat.
Proof.
  intros Hl Hk Hlm Hkm.
  assert (NoDup (filter (.∉ k) l ++ k)) as Hnd.
  { apply NoDup_app. split; [by apply NoDup_filter|]. split; [|done].
    intros x Hx. apply list_elem_of_filter in Hx. tauto. }
  assert (length (filter (.∉ k) l ++ k) ≤ length members)%nat as Hle.
  { apply submseteq_length, NoDup_submseteq; [done|].
    intros x [Hx|Hx]%elem_of_app; [|by apply Hkm]. apply list_elem_of_filter in Hx as [_ Hx]. by apply Hlm. }
  rewrite length_app in Hle.
  assert (length l = length (filter (.∈ k) l) + length (filter (.∉ k) l))%nat; [|lia].
  clear. induction l as [|x l IH]; [done|].
  rewrite !filter_cons. repeat case_decide; simpl; try contradiction; lia.
Qed.

(** Two quorums of a set of [n] members share more than a third of it, so they
    share a member outside any faulty set of at most [(n - 1) / 3]. *)
Lemma quorum_intersection {A} `{EqDecision A} (members l k faulty : list A) :
  NoDup l → NoDup k → l ⊆ members → k ⊆ members →
  quorum (zlen members) ≤ zlen l → quorum (zlen members) ≤ zlen k →
  3 * zlen faulty < zlen members →
  ∃ x, x ∈ l ∧ x ∈ k ∧ x ∉ faulty.
Proof.
  intros Hl Hk Hlm Hkm Hql Hqk Hf.
  pose proof (pigeonhole_overlap members l k Hl Hk Hlm Hkm) as Hov.
  destruct (decide (Forall (.∈ faulty) (filter (.∈ k) l))) as [Hall|Hex].
  - exfalso.
    assert (length (filter (.∈ k) l) ≤ length faulty)%nat as Hle.
    { apply submseteq_length, NoDup_submseteq; [by apply NoDup_filter|].
      by apply Forall_forall. }
    unfold quorum, zlen in *. Z.div_mod_to_equations. lia.
  - apply not_Forall_Exists in Hex; [|apply _]. apply Exists_exists in Hex as (x & Hx & Hnf).
    apply list_elem_of_filter in Hx. naive_solver.
Qed.

(** ** [Array.prototype.sort]

    ECMAScript's sort is stable, so for a comparator that is a total preorder
    its result is the one of any stable sort; insertion sort is the simplest.
    [le x y] is [compare(x, y) <= 0]. *)
Section sort.
Context {A : Type} (le : A → A → bool).

Fixpoint sort_insert (x : A) (l : list A) : list A :=
  match l with
  | [] => [x]
  | y :: l' => if le x y then x :: y :: l' else y :: sort_insert x l'
  end.
Definition js_sort (l : list A) : list A := foldr sort_insert [] l.

Lemma sort_insert_perm (x : A) (l : list A) : sort_insert x l ≡ₚ x :: l.
Proof.
  induction l as [|y l IH]; simpl; [done|]. destruct (le x y); [done|].
  rewrite IH. by apply Permutation_swap.
Qed.

Lemma js_sort_perm (l : list A) : js_sort l ≡ₚ l.
Proof. induction l as [|x l IH]; simpl; [done|]. by rewrite sort_insert_perm, IH. Qed.

Context (Htotal : ∀ x y, le x y = false → le y x = true)
        (Htrans : ∀ x y z, le x y = true → le y z = true → le x z = true).

Lemma sort_insert_sorted (x : A) (l : list A) :
  StronglySorted (λ a b, le a b = true) l → StronglySorted (λ a b, le a b = true) (sort_insert x l).
Proof using Htotal Htrans.
  induction 1 as [|y l Hs IH Hall]; simpl; [repeat constructor|].
  destruct (le x y) eqn:E.
  - constructor; [by constructor|]. constructor; [done|].
    eapply Forall_impl; [exact Hall|]. eauto.
  - constructor; [done|]. rewrite sort_insert_perm. constructor; eauto.
Qed.

Lemma js_sort_sorted (l : list A) : StronglySorted (λ a b, le a b = true) (js_sort l).
Proof using Htotal Htrans. induction l; simpl; [constructor|]. by apply sort_insert_sorted. Qed.

Lemma sort_insert_head (x : A) (l : list A) :
  Forall (λ y, le x y = true) l → sort_insert x l = x :: l.
Proof. destruct 1 as [|y l Hy]; simpl; [done|]. by rewrite Hy. Qed.

Lemma js_sort_id (l : list A) : StronglySorted (λ a b, le a b = true) l → js_sort l = l.
Proof. induction 1 as [|x l Hs IH Hall]; simpl; [done|]. rewrite IH. by apply sort_insert_head. Qed.

(** Sorting commutes with dropping elements. *)
Lemma filter_sort_insert (P : A → Prop) `{∀ x, Decision (P x)} (x : A) (l : list A) :
  StronglySorted (λ a b, le a b = true) l →
  filter P (sort_insert x l) = if decide (P x) then sort_insert x (filter P l) else filter P l.
Proof using Htrans.
  induction 1 as [|y l Hs IH Hall]; simpl.
  - rewrite filter_cons. by case_decide.
  - destruct (le x y) eqn:E.
    + rewrite filter_cons. case_decide; [|done]. symmetry. apply sort_insert_head.
      apply Forall_forall. intros z [_ Hz]%list_elem_of_filter.
      apply elem_of_cons in Hz as [->|Hz]; [done|]. rewrite Forall_forall in Hall. eauto.
    + rewrite !filter_cons, IH. repeat case_decide; simpl; by rewrite ?E.
Qed.

Lemma filter_js_sort (P : A → Prop) `{∀ x, Decision (P x)} (l : list A) :
  filter P (js_sort l) = js_sort (filter P l).
Proof using Htotal Htrans.
  induction l as [|x l IH]; simpl; [done|].
  rewrite filter_sort_insert by apply js_sort_sorted. rewrite filter_cons.
  case_decide; simpl; by rewrite IH.
Qed.
End sort.

(** Sorting by a key commutes with a map that keeps the key. *)
Lemma js_sort_fmap {A B} (leA : A → A → bool) (leB : B → B → bool) (f : A → B) (l : list A) :
  (∀ x y, leB (f x) (f y) = leA x y) → js_sort leB (f <$> l) = f <$> js_sort leA l.
Proof.
  intros Hf. induction l as [|x l IH]; [done|]. csimpl. rewrite IH.
  generalize (js_sort leA l). intros k. induction k as [|y k IHk]; [done|].
  csimpl. rewrite Hf. destruct (leA x y); [done|]. csimpl. by rewrite IHk.
Qed.

(** Running effects collected in a list, in order. *)
Fixpoint res_seq {A} (l : list (res A)) : res (list A) :=
  match l with
  | [] => Ok []
  | r :: l' => x ← r; xs ← res_seq l'; Ok (x :: xs)
  end.
