(* ===== verification/JsMap.v ===== *)
(** JavaScript [Map] and [Set] with string keys: insertion order is part of the
    value, [set] on a key that is present keeps its place. *)

From S2P Require Import Prelude.

Definition js_map (V : Type) : Type := list (string * V).

Fixpoint jm_get {V} (k : string) (m : js_map V) : option V :=
  match m with
  | [] => None
  | (x, v) :: rest => if String.eqb x k then Some v else jm_get k rest
  end.
Fixpoint jm_set {V} (k : string) (v : V) (m : js_map V) : js_map V :=
  match m with
  | [] => [(k, v)]
  | (x, w) :: rest => if String.eqb x k then (x, v) :: rest else (x, w) :: jm_set k v rest
  end.
Fixpoint jm_delete {V} (k : string) (m : js_map V) : js_map V :=
  match m with
  | [] => []
  | (x, w) :: rest => if String.eqb x k then jm_delete k rest else (x, w) :: jm_delete k rest
  end.
Definition jm_keys {V} (m : js_map V) : list string := m.*1.

Section facts.
Context {V : Type}.
Implicit Types (m : js_map V) (k : string) (v : V).

Lemma jm_get_elem m k v : jm_get k m = Some v → (k, v) ∈ m.
Proof. induction m as [|[x w] m IH]; cbn; [done|]. destruct (String.eqb_spec x k) as [->|]; [intros [= ->]; by left|right; auto]. Qed.
Lemma jm_get_None m k : jm_get k m = None ↔ k ∉ jm_keys m.
Proof.
  unfold jm_keys. induction m as [|[x w] m IH]; cbn; [split; [|done]; intros _ Hk; by apply not_elem_of_nil in Hk|].
  destruct (String.eqb_spec x k) as [->|Hne]; rewrite not_elem_of_cons; [by split; [|intros []]|]. rewrite IH. naive_solver.
Qed.
Lemma jm_get_Some_keys m k : is_Some (jm_get k m) ↔ k ∈ jm_keys m.
Proof. rewrite <-not_eq_None_Some, jm_get_None. split; [apply dec_stable|auto]. Qed.
Lemma jm_elem_get m k v : NoDup (jm_keys m) → (k, v) ∈ m → jm_get k m = Some v.
Proof.
  unfold jm_keys. induction m as [|[x w] m IH]; cbn; intros Hnd Hin; [by apply not_elem_of_nil in Hin|].
  apply NoDup_cons in Hnd as [Hx Hnd]. apply elem_of_cons in Hin as [[= <- <-]|Hin]; [by rewrite String.eqb_refl|].
  destruct (String.eqb_spec x k) as [->|]; [|by apply IH]. destruct Hx. apply list_elem_of_fmap. by exists (k, v).
Qed.

Lemma jm_get_set m k v k' : jm_get k' (jm_set k v m) = if String.eqb k k' then Some v else jm_get k' m.
Proof.
  induction m as [|[x w] m IH]; cbn; [done|]. destruct (String.eqb_spec x k) as [->|Hne]; cbn.
  - by destruct (String.eqb_spec k k').
  - rewrite IH. destruct (String.eqb_spec x k') as [->|]; [|done]. by destruct (String.eqb_spec k k').
Qed.
Lemma jm_set_new m k v : jm_get k m = None → jm_set k v m = m ++ [(k, v)].
Proof. induction m as [|[x w] m IH]; cbn; [done|]. destruct (String.eqb x k); [done|]. intros Hn. by rewrite IH. Qed.
Lemma jm_set_same m k v : jm_get k m = Some v → jm_set k v m = m.
Proof.
  induction m as [|[x w] m IH]; cbn; [done|]. destruct (String.eqb x k); [by intros [= ->]|]. intros Hg. by rewrite IH.
Qed.
Lemma jm_set_keys m k v : jm_keys (jm_set k v m) = if bool_decide (is_Some (jm_get k m)) then jm_keys m else jm_keys m ++ [k].
Proof.
  unfold jm_keys. induction m as [|[x w] m IH]; cbn; [done|]. destruct (String.eqb_spec x k) as [->|]; cbn; [done|]. rewrite IH.
  by case_bool_decide.
Qed.

Lemma jm_delete_elem m k e : e ∈ jm_delete k m ↔ e ∈ m ∧ e.1 ≠ k.
Proof.
  induction m as [|[x w] m IH]; cbn; [split; [|by intros []]; intros He; by apply not_elem_of_nil in He|].
  destruct (String.eqb_spec x k) as [->|Hne]; rewrite !elem_of_cons, IH; [naive_solver|]. split; [|naive_solver]. intros [->|[? ?]]; auto.
Qed.
Lemma jm_delete_keys m k k' : k' ∈ jm_keys (jm_delete k m) ↔ k' ∈ jm_keys m ∧ k' ≠ k.
Proof.
  unfold jm_keys. rewrite !list_elem_of_fmap. setoid_rewrite jm_delete_elem. split.
  - intros (e & -> & ? & ?). split; [by exists e|done].
  - intros [(e & -> & ?) ?]. by exists e.
Qed.
Lemma jm_get_delete m k k' : jm_get k' (jm_delete k m) = if String.eqb k k' then None else jm_get k' m.
Proof.
  induction m as [|[x w] m IH]; cbn; [by case_match|]. destruct (String.eqb_spec x k) as [->|Hne]; cbn; rewrite IH.
  - by destruct (String.eqb k k').
  - destruct (String.eqb_spec x k') as [->|]; [|done]. by destruct (String.eqb_spec k k').
Qed.
Lemma jm_keys_delete_NoDup m k : NoDup (jm_keys m) → NoDup (jm_keys (jm_delete k m)).
Proof.
  induction m as [|[x w] m IH]; cbn; [done|]. intros [Hx Hnd]%NoDup_cons. destruct (String.eqb_spec x k) as [->|]; [by apply IH|].
  apply NoDup_cons. split; [|by apply IH]. intros Hin. apply Hx. by apply jm_delete_keys in Hin as [? _].
Qed.
Lemma jm_delete_absent m k : k ∉ jm_keys m → jm_delete k m = m.
Proof.
  induction m as [|[x w] m IH]; cbn; [done|]. rewrite not_elem_of_cons. intros [Hx Hm]. rewrite (proj2 (String.eqb_neq _ _)) by done.
  by rewrite IH.
Qed.

(** Taking an entry out: the rest, up to order. *)
Lemma jm_delete_perm m k v : NoDup (jm_keys m) → jm_get k m = Some v → m ≡ₚ (k, v) :: jm_delete k m.
Proof.
  induction m as [|[x w] m IH]; cbn; intros Hnd Hg; [done|]. apply NoDup_cons in Hnd as [Hx Hnd].
  destruct (String.eqb_spec x k) as [->|Hne].
  - injection Hg as ->. by rewrite jm_delete_absent.
  - rewrite (IH Hnd Hg) at 1. constructor.
Qed.
End facts.
