(* ===== verification/Types.v ===== *)
(** The protocol's data (l1/src/types.ts): constants, addresses, the genesis
    configuration, the six transaction kinds and blocks.  An optional property
    ([field?: T]) is an [option]; [None] is the absent property. *)

From S2P Require Import Prelude.

Definition ATOMS_PER_ZYN : Z := 100000000.
Definition MAX_SUPPLY_ATOMS : Z := 50000000 * ATOMS_PER_ZYN.

(** [type Address = `ZYN${string}`]; the lexical rule is [assertAddress]. *)
Abbreviation Address := string (only parsing).

Record Validator := mkValidator { v_address : Address; v_publicKey : string }.
Record Allocation := mkAllocation { al_address : Address; al_amountAtoms : Z }.

#[global] Instance Validator_eq_dec : EqDecision Validator.
Proof. solve_decision. Defined.
#[global] Instance Allocation_eq_dec : EqDecision Allocation.
Proof. solve_decision. Defined.

Record AllocationLocks := mkAllocationLocks {
  founderVesting : Address;
  permanentLiquidity : Address }.

Record PublicDistributionRelease := mkPublicDistributionRelease {
  pdr_address : Address;
  pdr_cliffMs : Z;
  pdr_linearMs : Z }.

Record FeePolicyV1 := mkFeePolicyV1 {
  fp_version : string;
  fp_fixedTransferFeeAtoms : Z }.

Record ValidatorPossessionProof := mkPossessionProof {
  pp_address : Address;
  pp_signature : string }.

Record ValidatorAdmission := mkValidatorAdmission {
  va_policy : string;
  va_genesisProofs : list ValidatorPossessionProof }.

Record GenesisConfig := mkGenesis {
  g_chainId : string;
  g_timestampMs : Z;
  g_validators : list Validator;
  g_activityOracles : list string;
  g_activityPool : Address;
  g_allocations : list Allocation;
  g_allocationLocks : option AllocationLocks;
  g_activityOracleThreshold : option Z;
  g_activityOraclePolicy : option string;
  g_activitySettlementCapAtoms : option Z;
  g_launchProfile : option string;
  g_networkClass : option string;
  g_publicDistributionRelease : option PublicDistributionRelease;
  g_feePolicy : option FeePolicyV1;
  g_validatorAdmission : option ValidatorAdmission }.

(** ** Transactions *)

Record TransferTx := mkTransfer {
  tr_version : Z; tr_chainId : string; tr_nonce : Z;
  tr_sender : Address; tr_receiver : Address;
  tr_amountAtoms : Z; tr_feeAtoms : Z; tr_timestampMs : Z;
  tr_publicKey : string; tr_signature : string; tr_txid : string }.

Record ActivityEntry := mkEntry { e_receiver : Address; e_amountAtoms : Z }.
Record ActivityOracleApproval := mkOracleApproval { oa_publicKey : string; oa_signature : string }.

Record ActivitySettlementTx := mkSettlement {
  as_version : Z; as_chainId : string; as_nonce : Z; as_sender : Address;
  as_epoch : Z; as_entries : list ActivityEntry; as_receiptRoot : string;
  as_oracleApprovals : option (list ActivityOracleApproval);
  as_attestationExpiresAtMs : option Z;
  as_feeAtoms : Z; as_timestampMs : Z;
  as_publicKey : string; as_signature : string; as_txid : string }.

Record MiningClaimTx := mkMiningClaim {
  mc_version : Z; mc_chainId : string; mc_nonce : Z; mc_sender : Address;
  mc_height : Z; mc_previousHash : string; mc_rewardAtoms : Z; mc_workNonce : string;
  mc_feeAtoms : Z; mc_timestampMs : Z;
  mc_publicKey : string; mc_signature : string; mc_txid : string }.

Record ValidatorApproval := mkApproval {
  ap_validator : Address; ap_publicKey : string; ap_signature : string }.

Record ValidatorSetUpdateTx := mkValidatorUpdate {
  vu_version : Z; vu_chainId : string; vu_nonce : Z; vu_sender : Address;
  vu_activationHeight : Z; vu_validators : list Validator;
  vu_approvals : list ValidatorApproval;
  vu_possessionProofs : option (list ValidatorPossessionProof);
  vu_feeAtoms : Z; vu_timestampMs : Z;
  vu_publicKey : string; vu_signature : string; vu_txid : string }.

Inductive ActivityOracleGovernanceAction := Pause | Resume | Revoke.

Record ActivityOracleGovernanceTx := mkOracleGovernance {
  og_version : Z; og_chainId : string; og_nonce : Z; og_sender : Address;
  og_activationHeight : Z; og_action : ActivityOracleGovernanceAction;
  og_publicKeys : list string; og_approvals : list ValidatorApproval;
  og_feeAtoms : Z; og_timestampMs : Z;
  og_publicKey : string; og_signature : string; og_txid : string }.

Record ProtocolUpgradeTx := mkProtocolUpgrade {
  pu_version : Z; pu_chainId : string; pu_nonce : Z; pu_sender : Address;
  pu_activationHeight : Z; pu_protocolVersion : Z; pu_approvals : list ValidatorApproval;
  pu_feeAtoms : Z; pu_timestampMs : Z;
  pu_publicKey : string; pu_signature : string; pu_txid : string }.

(** [Transaction], discriminated by [kind]. *)
Inductive Transaction :=
| Transfer (t : TransferTx)
| ActivitySettlement (t : ActivitySettlementTx)
| MiningClaim (t : MiningClaimTx)
| ValidatorUpdate (t : ValidatorSetUpdateTx)
| ActivityOracleGovernance (t : ActivityOracleGovernanceTx)
| ProtocolUpgrade (t : ProtocolUpgradeTx).

#[global] Instance ActivityOracleGovernanceAction_eq_dec : EqDecision ActivityOracleGovernanceAction.
Proof. solve_decision. Defined.
#[global] Instance ActivityEntry_eq_dec : EqDecision ActivityEntry.
Proof. solve_decision. Defined.
#[global] Instance ActivityOracleApproval_eq_dec : EqDecision ActivityOracleApproval.
Proof. solve_decision. Defined.
#[global] Instance ValidatorApproval_eq_dec : EqDecision ValidatorApproval.
Proof. solve_decision. Defined.
#[global] Instance ValidatorPossessionProof_eq_dec : EqDecision ValidatorPossessionProof.
Proof. solve_decision. Defined.
#[global] Instance TransferTx_eq_dec : EqDecision TransferTx.
Proof. solve_decision. Defined.
#[global] Instance ActivitySettlementTx_eq_dec : EqDecision ActivitySettlementTx.
Proof. solve_decision. Defined.
#[global] Instance MiningClaimTx_eq_dec : EqDecision MiningClaimTx.
Proof. solve_decision. Defined.
#[global] Instance ValidatorSetUpdateTx_eq_dec : EqDecision ValidatorSetUpdateTx.
Proof. solve_decision. Defined.
#[global] Instance ActivityOracleGovernanceTx_eq_dec : EqDecision ActivityOracleGovernanceTx.
Proof. solve_decision. Defined.
#[global] Instance ProtocolUpgradeTx_eq_dec : EqDecision ProtocolUpgradeTx.
Proof. solve_decision. Defined.
#[global] Instance Transaction_eq_dec : EqDecision Transaction.
Proof. solve_decision. Defined.

(** The properties every transaction kind has. *)
Definition tx_txid (tx : Transaction) : string :=
  match tx with
  | Transfer t => tr_txid t | ActivitySettlement t => as_txid t | MiningClaim t => mc_txid t
  | ValidatorUpdate t => vu_txid t | ActivityOracleGovernance t => og_txid t | ProtocolUpgrade t => pu_txid t
  end.
Definition tx_sender (tx : Transaction) : Address :=
  match tx with
  | Transfer t => tr_sender t | ActivitySettlement t => as_sender t | MiningClaim t => mc_sender t
  | ValidatorUpdate t => vu_sender t | ActivityOracleGovernance t => og_sender t | ProtocolUpgrade t => pu_sender t
  end.
Definition tx_nonce (tx : Transaction) : Z :=
  match tx with
  | Transfer t => tr_nonce t | ActivitySettlement t => as_nonce t | MiningClaim t => mc_nonce t
  | ValidatorUpdate t => vu_nonce t | ActivityOracleGovernance t => og_nonce t | ProtocolUpgrade t => pu_nonce t
  end.
Definition tx_feeAtoms (tx : Transaction) : Z :=
  match tx with
  | Transfer t => tr_feeAtoms t | ActivitySettlement t => as_feeAtoms t | MiningClaim t => mc_feeAtoms t
  | ValidatorUpdate t => vu_feeAtoms t | ActivityOracleGovernance t => og_feeAtoms t | ProtocolUpgrade t => pu_feeAtoms t
  end.
Definition tx_timestampMs (tx : Transaction) : Z :=
  match tx with
  | Transfer t => tr_timestampMs t | ActivitySettlement t => as_timestampMs t | MiningClaim t => mc_timestampMs t
  | ValidatorUpdate t => vu_timestampMs t | ActivityOracleGovernance t => og_timestampMs t
  | ProtocolUpgrade t => pu_timestampMs t
  end.
Definition tx_chainId (tx : Transaction) : string :=
  match tx with
  | Transfer t => tr_chainId t | ActivitySettlement t => as_chainId t | MiningClaim t => mc_chainId t
  | ValidatorUpdate t => vu_chainId t | ActivityOracleGovernance t => og_chainId t | ProtocolUpgrade t => pu_chainId t
  end.
Definition tx_version (tx : Transaction) : Z :=
  match tx with
  | Transfer t => tr_version t | ActivitySettlement t => as_version t | MiningClaim t => mc_version t
  | ValidatorUpdate t => vu_version t | ActivityOracleGovernance t => og_version t | ProtocolUpgrade t => pu_version t
  end.

(** ** Blocks *)

Record BlockHeader := mkHeader {
  h_version : Z; h_chainId : string; h_height : Z; h_round : Z; h_previousHash : string;
  h_timestampMs : Z; h_transactionRoot : string; h_stateRoot : string;
  h_proposer : string (* an address, or "GENESIS" *) }.

Record BlockAttestation := mkAttestation {
  at_validator : Address; at_publicKey : string; at_signature : string }.

Record RoundSkipVote := mkRoundSkipVote {
  rs_validator : Address; rs_publicKey : string; rs_chainId : string; rs_height : Z;
  rs_round : Z; rs_previousHash : string; rs_signature : string }.

(** [commitRound?: number | null]: absent before protocol v6, [null] on a v6
    proposal, a round on a finalized v6 block. *)
Inductive CommitRound := NoCommitRound | NullCommitRound | CommitAt (round : Z).

(** A block with its transactions of type [T]: [Transaction] in a block that was
    verified, untrusted values before that. *)
Record BlockOf (T : Type) := mkBlock {
  b_header : BlockHeader; b_transactions : list T; b_hash : string;
  b_proposerPublicKey : option string; b_signature : option string;
  b_roundCertificate : list RoundSkipVote; b_attestations : list BlockAttestation;
  b_commitRound : CommitRound }.
Arguments mkBlock {T}.
Arguments b_header {T}.
Arguments b_transactions {T}.
Arguments b_hash {T}.
Arguments b_proposerPublicKey {T}.
Arguments b_signature {T}.
Arguments b_roundCertificate {T}.
Arguments b_attestations {T}.
Arguments b_commitRound {T}.
Definition Block : Type := BlockOf Transaction.

#[global] Instance BlockHeader_eq_dec : EqDecision BlockHeader.
Proof. solve_decision. Defined.
#[global] Instance BlockAttestation_eq_dec : EqDecision BlockAttestation.
Proof. solve_decision. Defined.
#[global] Instance RoundSkipVote_eq_dec : EqDecision RoundSkipVote.
Proof. solve_decision. Defined.
#[global] Instance CommitRound_eq_dec : EqDecision CommitRound.
Proof. solve_decision. Defined.

(** [`ZYN${"0".repeat(40)}`] (mining.ts). *)
Definition MINING_TRACKER_ADDRESS : Address := "ZYN0000000000000000000000000000000000000000".
Definition MINING_RETIRED_MESSAGE : string :=
  "Mining is retired: mining_claim transactions are rejected by consensus".

(** [/^ZYN[0-9a-f]{40}$/.test(address)] (transaction.ts, tokenomics.ts). *)
Definition isAddress (address : string) : bool :=
  match address with
  | String "Z"%char (String "Y"%char (String "N"%char body)) => isLowerHexOf 40 body
  | _ => false
  end.
Definition assertAddress (address : string) : res unit :=
  throw_if (negb (isAddress address)) "Invalid address".

(** [rejectRetiredMiningClaim] (mining.ts). *)
Definition rejectRetiredMiningClaim {A} : res A := Throw MINING_RETIRED_MESSAGE.
