(* ===== verification/Amm.v ===== *)
(** Constant-product swap arithmetic (l1/src/amm-math.ts).  [bigint] division
    truncates; both operands of the divisions here are positive or zero, where
    truncation is [Z.div]. *)

From S2P Require Import Prelude.

Definition AMM_BASIS_POINTS : Z := 10000.
Definition DEFAULT_SWAP_FEE_BPS : Z := 30.
Definition MAX_SWAP_FEE_BPS : Z := 1000.

Record ExactInputQuote := mkQuote {
  q_amountIn : Z; q_amountOut : Z; q_feeBps : Z;
  q_reserveInBefore : Z; q_reserveOutBefore : Z;
  q_reserveInAfter : Z; q_reserveOutAfter : Z;
  q_kBefore : Z; q_kAfter : Z }.

Definition assertPositive (value : Z) (name : string) : res unit :=
  throw_if (value <=? 0) ("Invalid " +:+ name).

Definition assertFee (feeBps : Z) : res unit :=
  throw_if ((feeBps <? 0) || (MAX_SWAP_FEE_BPS <? feeBps)) "Invalid AMM fee".

Definition quoteExactInput (reserveIn reserveOut amountIn feeBps : Z) : res ExactInputQuote :=
  assertPositive reserveIn "reserveIn";;
  assertPositive reserveOut "reserveOut";;
  assertPositive amountIn "amountIn";;
  assertFee feeBps;;
  let feeMultiplier := AMM_BASIS_POINTS - feeBps in
  let amountInWithFee := amountIn * feeMultiplier in
  let numerator := amountInWithFee * reserveOut in
  let denominator := reserveIn * AMM_BASIS_POINTS + amountInWithFee in
  throw_if (denominator <=? 0) "Invalid AMM denominator";;
  let amountOut := numerator `quot` denominator in
  throw_if (amountOut <=? 0) "Swap output rounds to zero";;
  throw_if (reserveOut <=? amountOut) "Swap would exhaust output reserve";;
  let reserveInAfter := reserveIn + amountIn in
  let reserveOutAfter := reserveOut - amountOut in
  let kBefore := reserveIn * reserveOut in
  let kAfter := reserveInAfter * reserveOutAfter in
  throw_if (kAfter <? kBefore) "Constant-product invariant decreased";;
  Ok {| q_amountIn := amountIn; q_amountOut := amountOut; q_feeBps := feeBps;
        q_reserveInBefore := reserveIn; q_reserveOutBefore := reserveOut;
        q_reserveInAfter := reserveInAfter; q_reserveOutAfter := reserveOutAfter;
        q_kBefore := kBefore; q_kAfter := kAfter |}.

Definition minimumAmountOut (quotedOut slippageBps : Z) : res Z :=
  assertPositive quotedOut "quotedOut";;
  throw_if ((slippageBps <? 0) || (AMM_BASIS_POINTS <=? slippageBps)) "Invalid slippage tolerance";;
  Ok ((quotedOut * (AMM_BASIS_POINTS - slippageBps)) `quot` AMM_BASIS_POINTS).

Definition spotPriceRatio (reserveBase reserveQuote : Z) : res (Z * Z) :=
  assertPositive reserveBase "reserveBase";;
  assertPositive reserveQuote "reserveQuote";;
  Ok (reserveQuote, reserveBase).

(** ** The swap curve *)

(** Output of the curve before rounding guards. *)
Definition curve (reserveIn reserveOut amountIn feeBps : Z) : Z :=
  (amountIn * (AMM_BASIS_POINTS - feeBps) * reserveOut)
    / (reserveIn * AMM_BASIS_POINTS + amountIn * (AMM_BASIS_POINTS - feeBps)).

Section curve.
Context (ri ro ai fee : Z) (Hri : 0 < ri) (Hro : 0 < ro) (Hai : 0 < ai) (Hfee : 0 ≤ fee ≤ MAX_SWAP_FEE_BPS).

Lemma curve_denominator_pos : 0 < ri * AMM_BASIS_POINTS + ai * (AMM_BASIS_POINTS - fee).
Proof using Hri Hai Hfee. unfold AMM_BASIS_POINTS, MAX_SWAP_FEE_BPS in *. nia. Qed.

Lemma curve_nonneg : 0 ≤ curve ri ro ai fee.
Proof using Hri Hro Hai Hfee.
  apply Z.div_pos; [|apply curve_denominator_pos].
  unfold AMM_BASIS_POINTS, MAX_SWAP_FEE_BPS in *. nia.
Qed.

(** The curve never pays out the whole reserve. *)
Lemma curve_lt_reserve : curve ri ro ai fee < ro.
Proof using Hri Hro Hai Hfee.
  apply Z.div_lt_upper_bound; [apply curve_denominator_pos|].
  unfold AMM_BASIS_POINTS, MAX_SWAP_FEE_BPS in *. nia.
Qed.

(** Rounding down and the fee both leave value in the pool. *)
Lemma curve_product : ri * ro ≤ (ri + ai) * (ro - curve ri ro ai fee).
Proof using Hri Hro Hai Hfee.
  pose proof curve_denominator_pos as Hd. pose proof curve_nonneg as Hn.
  pose proof (Z.mul_div_le (ai * (AMM_BASIS_POINTS - fee) * ro) _ Hd) as Hle.
  fold (curve ri ro ai fee) in Hle.
  set (o := curve ri ro ai fee) in *.
  assert (o * ((ri + ai) * AMM_BASIS_POINTS) ≤ ai * ro * AMM_BASIS_POINTS + o * (ai * fee) - ai * fee * ro).
  { nia. }
  assert (o ≤ ro) by (pose proof curve_lt_reserve; lia).
  assert (o * (ai * fee) ≤ ro * (ai * fee)) by (apply Z.mul_le_mono_nonneg_r; nia).
  unfold AMM_BASIS_POINTS in *. nia.
Qed.
End curve.

(** Bigger swaps pay out at least as much. *)
Lemma curve_mono_amount (ri ro ai ai' fee : Z) :
  0 < ri → 0 < ro → 0 < ai ≤ ai' → 0 ≤ fee ≤ MAX_SWAP_FEE_BPS →
  curve ri ro ai fee ≤ curve ri ro ai' fee.
Proof.
  intros Hri Hro Hai Hfee.
  pose proof (curve_denominator_pos ri ai fee Hri ltac:(lia) Hfee) as Hd.
  pose proof (curve_denominator_pos ri ai' fee Hri ltac:(lia) Hfee) as Hd'.
  apply Z.div_le_lower_bound; [done|].
  pose proof (Z.mul_div_le (ai * (AMM_BASIS_POINTS - fee) * ro) _ Hd) as Hle.
  fold (curve ri ro ai fee) in Hle. set (o := curve ri ro ai fee) in *.
  set (m := AMM_BASIS_POINTS - fee) in *.
  assert (0 < m) by (unfold m, AMM_BASIS_POINTS, MAX_SWAP_FEE_BPS in *; lia).
  assert (o < ro) by (apply curve_lt_reserve; lia).
  assert (0 ≤ (ai' - ai) * m * (ro - o)) by (apply Z.mul_nonneg_nonneg; nia).
  nia.
Qed.

Lemma assertPositive_Ok (v : Z) (n : string) (u : unit) : assertPositive v n = Ok u ↔ 0 < v.
Proof. unfold assertPositive. rewrite throw_if_Ok. lia. Qed.

Lemma assertFee_Ok (f : Z) (u : unit) : assertFee f = Ok u ↔ 0 ≤ f ≤ MAX_SWAP_FEE_BPS.
Proof. unfold assertFee. rewrite throw_if_Ok. lia. Qed.

(** What a returned quote says, and that on every valid input the routine
    returns unless the output rounds to zero: the "exhausts the reserve" and
    "invariant decreased" guards never fire. *)
Lemma quoteExactInput_valid (ri ro ai fee : Z) :
  0 < ri → 0 < ro → 0 < ai → 0 ≤ fee ≤ MAX_SWAP_FEE_BPS →
  quoteExactInput ri ro ai fee =
    if curve ri ro ai fee <=? 0 then Throw "Swap output rounds to zero"
    else Ok (mkQuote ai (curve ri ro ai fee) fee ri ro (ri + ai) (ro - curve ri ro ai fee)
               (ri * ro) ((ri + ai) * (ro - curve ri ro ai fee))).
Proof.
  intros Hri Hro Hai Hfee. unfold quoteExactInput.
  rewrite (proj2 (assertPositive_Ok ri "reserveIn" ())), (proj2 (assertPositive_Ok ro "reserveOut" ())),
    (proj2 (assertPositive_Ok ai "amountIn" ())), (proj2 (assertFee_Ok fee ())) by done. simpl.
  pose proof (curve_denominator_pos ri ai fee Hri Hai Hfee) as Hd.
  rewrite Z.quot_div_nonneg by (first [done | unfold AMM_BASIS_POINTS, MAX_SWAP_FEE_BPS in *; nia]).
  fold (curve ri ro ai fee).
  rewrite (proj2 (Z.leb_gt _ _) Hd). simpl.
  destruct (curve ri ro ai fee <=? 0) eqn:E; [done|]. simpl.
  pose proof (curve_lt_reserve ri ro ai fee Hri Hro Hai Hfee).
  rewrite (proj2 (Z.leb_gt _ _)) by done. simpl.
  pose proof (curve_product ri ro ai fee Hri Hro Hai Hfee).
  by rewrite (proj2 (Z.ltb_ge _ _)).
Qed.

Lemma quoteExactInput_args (ri ro ai fee : Z) (q : ExactInputQuote) :
  quoteExactInput ri ro ai fee = Ok q →
  0 < ri ∧ 0 < ro ∧ 0 < ai ∧ 0 ≤ fee ≤ MAX_SWAP_FEE_BPS.
Proof.
  intros H. unfold quoteExactInput in H. res_inv.
  repeat match goal with
  | H : assertPositive _ _ = Ok _ |- _ => apply assertPositive_Ok in H
  | H : assertFee _ = Ok _ |- _ => apply assertFee_Ok in H
  end. auto.
Qed.

(** ** Properties *)

(** A returned quote accounts for both reserves, pays out a positive amount
    strictly below the output reserve, never lowers the product of the
    reserves, and pays exactly the largest integer amount that keeps the
    fee-adjusted product. *)
Theorem quoteExactInput_sound (ri ro ai fee : Z) (q : ExactInputQuote) :
  quoteExactInput ri ro ai fee = Ok q →
  let d := ri * AMM_BASIS_POINTS + ai * (AMM_BASIS_POINTS - fee) in
  0 < q_amountOut q < ro ∧
  q_reserveInAfter q = ri + ai ∧ q_reserveOutAfter q = ro - q_amountOut q ∧
  q_kBefore q ≤ q_kAfter q ∧
  ri * AMM_BASIS_POINTS * ro ≤ d * (ro - q_amountOut q) ∧
  d * (ro - (q_amountOut q + 1)) < ri * AMM_BASIS_POINTS * ro.
Proof.
  intros H d. pose proof (quoteExactInput_args _ _ _ _ _ H) as (Hri & Hro & Hai & Hfee).
  rewrite quoteExactInput_valid in H by done. res_inv.
  pose proof (curve_lt_reserve ri ro ai fee Hri Hro Hai Hfee).
  pose proof (curve_product ri ro ai fee Hri Hro Hai Hfee).
  pose proof (curve_denominator_pos ri ai fee Hri Hai Hfee) as Hd. fold d in Hd.
  pose proof (Z.mul_div_le (ai * (AMM_BASIS_POINTS - fee) * ro) d Hd) as Hlo.
  pose proof (Z.mul_succ_div_gt (ai * (AMM_BASIS_POINTS - fee) * ro) d Hd) as Hhi.
  fold (curve ri ro ai fee) in Hlo, Hhi. change (_ / d) with (curve ri ro ai fee) in Hlo, Hhi.
  unfold d in *. repeat split; try lia; nia.
Qed.

Lemma quoteExactInput_sound_witness :
  ∃ q, quoteExactInput 1000000 2000000 5000 30 = Ok q ∧ 0 < q_amountOut q < 2000000.
Proof.
  exists (mkQuote 5000 9920 30 1000000 2000000 1005000 1990080 2000000000000 2000030400000).
  split; [reflexivity|]. apply (quoteExactInput_sound 1000000 2000000 5000 30). reflexivity.
Defined.

(** Totality: on positive reserves and input and a fee of at most 10%, the
    routine returns the curve's amount unless that amount rounds to zero; it
    fails in no other way. *)
Theorem quoteExactInput_total (ri ro ai fee : Z) :
  0 < ri → 0 < ro → 0 < ai → 0 ≤ fee ≤ MAX_SWAP_FEE_BPS →
  if bool_decide (ri * AMM_BASIS_POINTS + ai * (AMM_BASIS_POINTS - fee) ≤ ai * (AMM_BASIS_POINTS - fee) * ro)
  then ∃ q, quoteExactInput ri ro ai fee = Ok q ∧ q_amountOut q = curve ri ro ai fee
  else quoteExactInput ri ro ai fee = Throw "Swap output rounds to zero".
Proof.
  intros Hri Hro Hai Hfee. rewrite quoteExactInput_valid by done.
  pose proof (curve_denominator_pos ri ai fee Hri Hai Hfee) as Hd.
  pose proof (Z.mul_div_le (ai * (AMM_BASIS_POINTS - fee) * ro) _ Hd) as Hlo.
  pose proof (Z.mul_succ_div_gt (ai * (AMM_BASIS_POINTS - fee) * ro) _ Hd) as Hhi.
  fold (curve ri ro ai fee) in Hlo, Hhi.
  case_bool_decide; destruct (Z.leb_spec (curve ri ro ai fee) 0); try (by eauto); exfalso; nia.
Qed.

Lemma quoteExactInput_total_witness : quoteExactInput 1000000 10 5 30 = Throw "Swap output rounds to zero".
Proof.
  exact (quoteExactInput_total 1000000 10 5 30 ltac:(lia) ltac:(lia) ltac:(lia)
           ltac:(unfold MAX_SWAP_FEE_BPS; lia)).
Defined.

(** Swapping into the pool and straight back, at any two legal fees, never
    returns more than was put in. *)
Theorem swap_back_no_gain (ri ro ai fee fee' : Z) (q q' : ExactInputQuote) :
  quoteExactInput ri ro ai fee = Ok q →
  quoteExactInput (q_reserveOutAfter q) (q_reserveInAfter q) (q_amountOut q) fee' = Ok q' →
  q_amountOut q' ≤ ai.
Proof.
  intros H1 H2.
  pose proof (quoteExactInput_args _ _ _ _ _ H1) as (Hri & Hro & Hai & Hfee).
  pose proof (quoteExactInput_args _ _ _ _ _ H2) as (Hri' & Hro' & Hai' & Hfee').
  rewrite quoteExactInput_valid in H2 by done. res_inv. clear Heqb.
  pose proof (curve_product _ _ _ _ Hri' Hro' Hai' Hfee') as Hk'.
  rewrite quoteExactInput_valid in H1 by done. res_inv.
  pose proof (curve_product ri ro ai fee Hri Hro Hai Hfee) as Hk.
  set (o := curve ri ro ai fee) in *. set (o' := curve _ _ o fee') in *.
  replace (ro - o + o) with ro in Hk' by lia. nia.
Qed.

Lemma swap_back_no_gain_witness :
  let q := mkQuote 5000 9920 30 1000000 2000000 1005000 1990080 2000000000000 2000030400000 in
  ∃ q', quoteExactInput 1990080 1005000 9920 30 = Ok q' ∧ q_amountOut q' ≤ 5000.
Proof.
  exists (mkQuote 9920 4969 30 1990080 1005000 2000000 1000031 2000030400000 2000062000000).
  split; [reflexivity|].
  apply (swap_back_no_gain 1000000 2000000 5000 30 30
    (mkQuote 5000 9920 30 1000000 2000000 1005000 1990080 2000000000000 2000030400000)); reflexivity.
Defined.

(** The slippage bound never exceeds the quote, is monotone in the tolerance
    and is the quote itself at tolerance 0. *)
Theorem minimumAmountOut_bounds (quoted s s' m m' : Z) :
  minimumAmountOut quoted s = Ok m → minimumAmountOut quoted s' = Ok m' → s ≤ s' →
  0 ≤ m' ≤ m ∧ m ≤ quoted ∧ (s = 0 → m = quoted).
Proof.
  unfold minimumAmountOut, assertPositive, AMM_BASIS_POINTS. intros H H' Hs. res_inv. breflect.
  rewrite !Z.quot_div_nonneg by nia.
  repeat split.
  - apply Z.div_pos; nia.
  - apply Z.div_le_mono; nia.
  - apply Z.div_le_upper_bound; nia.
  - intros ->. rewrite Z.sub_0_r. by apply Z.div_mul.
Qed.

Lemma minimumAmountOut_bounds_witness : 0 ≤ 900 ≤ 995 ∧ 995 ≤ 1000 ∧ (50 = 0 → 995 = 1000).
Proof. apply (minimumAmountOut_bounds 1000 50 1000); [reflexivity | reflexivity | lia]. Defined.
