(* ===== verification/Vesting.v ===== *)
(** Vesting schedules and on-chain allocation locks (l1/src/founder-vesting.ts,
    l1/src/allocation-locks.ts). *)

From S2P Require Import Prelude Types.

(** ** founder-vesting.ts *)

Definition FOUNDER_ALLOCATION_ATOMS : Z := 5000000 * ATOMS_PER_ZYN.
Definition TARGET_BLOCK_INTERVAL_SECONDS : Z := 30.
Definition BLOCKS_PER_DAY : Z := (24 * 60 * 60) / TARGET_BLOCK_INTERVAL_SECONDS.
Definition FOUNDER_CLIFF_BLOCKS : Z := 365 * BLOCKS_PER_DAY.
Definition FOUNDER_LINEAR_VESTING_BLOCKS : Z := 3 * 365 * BLOCKS_PER_DAY.

Definition linearCliffVestedAtoms (elapsed cliff linear total : Z) : res Z :=
  throw_if ((cliff <? 0) || (linear <=? 0) || (total <? 0)) "Invalid vesting schedule";;
  if elapsed <=? cliff then Ok 0
  else
    let released := if elapsed - cliff <? linear then elapsed - cliff else linear in
    Ok ((total * released) `quot` linear).

Definition assertHeight (value : Z) (name : string) : res unit :=
  throw_if (negb (isSafeInteger value) || (value <? 0)) ("Invalid " +:+ name).

(** [assertAtoms] of founder-vesting.ts (no supply ceiling there). *)
Definition assertAtomsUnbounded (value : Z) : res unit :=
  throw_if (negb (isSafeInteger value) || (value <? 0)) "Invalid atom amount".

Definition founderVestedAtomsAtHeight (height startHeight totalAtoms : Z) : res Z :=
  assertHeight height "height";;
  assertHeight startHeight "startHeight";;
  assertAtomsUnbounded totalAtoms;;
  let cliffHeight := startHeight + FOUNDER_CLIFF_BLOCKS in
  throw_if (negb (isSafeInteger cliffHeight)) "Founder cliff height overflow";;
  result ← linearCliffVestedAtoms (height - startHeight) FOUNDER_CLIFF_BLOCKS
    FOUNDER_LINEAR_VESTING_BLOCKS totalAtoms;
  throw_if (negb (isSafeInteger result) || (result <? 0) || (totalAtoms <? result))
    "Founder vested amount overflow";;
  Ok result.

Definition founderAvailableAtomsAtHeight (height claimedAtoms startHeight totalAtoms : Z) : res Z :=
  assertAtomsUnbounded claimedAtoms;;
  assertAtomsUnbounded totalAtoms;;
  throw_if (totalAtoms <? claimedAtoms) "Founder claimed amount exceeds allocation";;
  vested ← founderVestedAtomsAtHeight height startHeight totalAtoms;
  Ok (Z.max 0 (vested - claimedAtoms)).

(** ** allocation-locks.ts *)

Definition MS_PER_DAY : Z := 86400000.
Definition FOUNDER_VESTING_CLIFF_MS : Z := 365 * MS_PER_DAY.
Definition FOUNDER_VESTING_LINEAR_MS : Z := 1095 * MS_PER_DAY.
Definition FOUNDER_VESTING_LOCKED_MESSAGE : string := "Founder allocation is still vesting".
Definition PERMANENT_LIQUIDITY_LOCKED_MESSAGE : string := "Permanent-liquidity reserve is locked".
Definition PUBLIC_DISTRIBUTION_LOCKED_MESSAGE : string := "Public distribution allocation is still vesting".

Record PublicDistributionLockState := mkPdLock {
  pd_address : Address; pd_allocationAtoms : Z; pd_cliffMs : Z; pd_linearMs : Z }.

Record AllocationLockContext := mkLockContext {
  lc_founderVesting : option Address;
  lc_permanentLiquidity : option Address;
  lc_founderAllocationAtoms : Z;
  lc_genesisTimestampMs : Z;
  lc_blockTimestampMs : Z;
  lc_publicDistribution : option PublicDistributionLockState }.

Definition assertTimestamp (value : Z) (name : string) : res unit :=
  throw_if (negb (isSafeInteger value) || (value <? 0)) ("Invalid " +:+ name).

Definition assertAtoms (value : Z) : res unit :=
  throw_if (negb (isSafeInteger value) || (value <? 0) || (MAX_SUPPLY_ATOMS <? value)) "Invalid atom amount".

(** [genesis.allocations.find((allocation) => allocation.address === address)] *)
Definition findAllocation (allocations : list Allocation) (address : Address) : option Allocation :=
  snd <$> list_find (λ al, al_address al = address) allocations.

Definition validateAllocationLocks (genesis : GenesisConfig) : res unit :=
  match g_allocationLocks genesis with
  | None => Ok ()
  | Some locks =>
    let founder := founderVesting locks in
    let liquidity := permanentLiquidity locks in
    assertAddress founder;;
    assertAddress liquidity;;
    throw_if (bool_decide (founder = liquidity)) "Invalid allocation locks: roles must use distinct addresses";;
    res_forall (λ address,
      throw_if (bool_decide (address = MINING_TRACKER_ADDRESS))
        "Invalid allocation lock: mining tracker is protocol-reserved";;
      throw_if (bool_decide (address = g_activityPool genesis))
        "Invalid allocation lock: the activity pool cannot be locked";;
      throw_if (negb (existsb (λ al, bool_decide (al_address al = address)) (g_allocations genesis)))
        "Invalid allocation lock: the locked account needs a genesis allocation")
      [founder; liquidity]
  end.

(** The founder's genesis allocation, 0 without locks (lines 86-92). *)
Definition founderAllocationOf (genesis : GenesisConfig) : res Z :=
  match g_allocationLocks genesis with
  | None => Ok 0
  | Some locks =>
    founderAllocation ← unwrap (findAllocation (g_allocations genesis) (founderVesting locks))
      "Invalid allocation lock: the locked account needs a genesis allocation";
    assertAtoms (al_amountAtoms founderAllocation);;
    Ok (al_amountAtoms founderAllocation)
  end.

(** The public-distribution schedule with its allocation (lines 93-104). *)
Definition publicDistributionOf (genesis : GenesisConfig) : res (option PublicDistributionLockState) :=
  match g_publicDistributionRelease genesis with
  | None => Ok None
  | Some release =>
    allocation ← unwrap (findAllocation (g_allocations genesis) (pdr_address release))
      "Invalid public distribution release: the account needs a genesis allocation";
    assertAtoms (al_amountAtoms allocation);;
    Ok (Some (mkPdLock (pdr_address release) (al_amountAtoms allocation) (pdr_cliffMs release) (pdr_linearMs release)))
  end.

Definition allocationLockContext (genesis : GenesisConfig) (blockTimestampMs : Z)
  : res (option AllocationLockContext) :=
  if bool_decide (g_allocationLocks genesis = None) && bool_decide (g_publicDistributionRelease genesis = None) then Ok None
  else
    assertTimestamp blockTimestampMs "block timestamp";;
    assertTimestamp (g_timestampMs genesis) "genesis timestamp";;
    founderAllocationAtoms ← founderAllocationOf genesis;
    publicDistribution ← publicDistributionOf genesis;
    Ok (Some {| lc_founderVesting := founderVesting <$> g_allocationLocks genesis;
                lc_permanentLiquidity := permanentLiquidity <$> g_allocationLocks genesis;
                lc_founderAllocationAtoms := founderAllocationAtoms;
                lc_genesisTimestampMs := g_timestampMs genesis;
                lc_blockTimestampMs := blockTimestampMs;
                lc_publicDistribution := publicDistribution |}).

Definition founderVestedAtomsAtTimestamp (genesisTimestampMs blockTimestampMs totalAtoms : Z) : res Z :=
  assertTimestamp genesisTimestampMs "genesis timestamp";;
  assertTimestamp blockTimestampMs "block timestamp";;
  assertAtoms totalAtoms;;
  result ← linearCliffVestedAtoms (blockTimestampMs - genesisTimestampMs) FOUNDER_VESTING_CLIFF_MS
    FOUNDER_VESTING_LINEAR_MS totalAtoms;
  throw_if (negb (isSafeInteger result) || (result <? 0) || (totalAtoms <? result))
    "Founder vested amount overflow";;
  Ok result.

Definition founderLockedAtomsAtTimestamp (genesisTimestampMs blockTimestampMs totalAtoms : Z) : res Z :=
  vested ← founderVestedAtomsAtTimestamp genesisTimestampMs blockTimestampMs totalAtoms;
  Ok (totalAtoms - vested).

Definition lockedAtoms (context : option AllocationLockContext) (address : Address) (balanceAtoms : Z) : res Z :=
  assertAtoms balanceAtoms;;
  match context with
  | None => Ok 0
  | Some ctx =>
    if bool_decide (lc_permanentLiquidity ctx = Some address) then Ok balanceAtoms
    else if bool_decide (lc_founderVesting ctx = Some address) then
      founderLockedAtomsAtTimestamp (lc_genesisTimestampMs ctx) (lc_blockTimestampMs ctx)
        (lc_founderAllocationAtoms ctx)
    else match lc_publicDistribution ctx with
      | Some release =>
        if bool_decide (address = pd_address release) then
          vested ← linearCliffVestedAtoms (lc_blockTimestampMs ctx - lc_genesisTimestampMs ctx)
            (pd_cliffMs release) (pd_linearMs release) (pd_allocationAtoms release);
          let locked := pd_allocationAtoms release - vested in
          throw_if (negb (isSafeInteger locked) || (locked <? 0) || (pd_allocationAtoms release <? locked))
            "Public distribution locked amount overflow";;
          Ok locked
        else Ok 0
      | None => Ok 0
      end
  end.

Definition spendableAtoms (context : option AllocationLockContext) (address : Address) (balanceAtoms : Z) : res Z :=
  locked ← lockedAtoms context address balanceAtoms;
  Ok (if locked <? balanceAtoms then balanceAtoms - locked else 0).

Definition assertAllocationLockOutflow (context : option AllocationLockContext) (sender : Address)
    (balanceAtoms outflowAtoms : Z) : res unit :=
  match context with
  | None => Ok ()
  | Some ctx =>
    assertAtoms balanceAtoms;;
    assertAtoms outflowAtoms;;
    throw_if (bool_decide (lc_permanentLiquidity ctx = Some sender)) PERMANENT_LIQUIDITY_LOCKED_MESSAGE;;
    (if bool_decide (lc_founderVesting ctx = Some sender) then
       locked ← lockedAtoms context sender balanceAtoms;
       throw_if (balanceAtoms - outflowAtoms <? locked) FOUNDER_VESTING_LOCKED_MESSAGE
     else Ok ());;
    match lc_publicDistribution ctx with
    | Some release =>
      if bool_decide (sender = pd_address release) then
        locked ← lockedAtoms context sender balanceAtoms;
        throw_if (balanceAtoms - outflowAtoms <? locked) PUBLIC_DISTRIBUTION_LOCKED_MESSAGE
      else Ok ()
    | None => Ok ()
    end
  end.

(** ** The release curve *)

(** What has been released of [total]: nothing up to the cliff, then linear,
    then everything. *)
Definition released (elapsed cliff linear total : Z) : Z :=
  total * Z.max 0 (Z.min (elapsed - cliff) linear) / linear.

Section released.
Context (cliff linear total : Z) (Hc : 0 ≤ cliff) (Hl : 0 < linear) (Ht : 0 ≤ total).

Lemma linearCliff_released (elapsed : Z) :
  linearCliffVestedAtoms elapsed cliff linear total = Ok (released elapsed cliff linear total).
Proof using Hc Hl Ht.
  unfold linearCliffVestedAtoms, released.
  replace ((cliff <? 0) || (linear <=? 0) || (total <? 0)) with false by lia. simpl.
  destruct (Z.leb_spec elapsed cliff) as [H|H].
  - rewrite Z.max_l, Z.mul_0_r by lia. by rewrite Z.div_0_l by lia.
  - replace (if _ <? _ then _ else _) with (Z.max 0 (Z.min (elapsed - cliff) linear)).
    + rewrite Z.quot_div_nonneg by nia. done.
    + destruct (Z.ltb_spec (elapsed - cliff) linear); lia.
Qed.

Lemma released_bounds (elapsed : Z) : 0 ≤ released elapsed cliff linear total ≤ total.
Proof using Hc Hl Ht.
  unfold released. split; [apply Z.div_pos; nia|]. apply Z.div_le_upper_bound; nia.
Qed.

Lemma released_mono (e e' : Z) :
  e ≤ e' → released e cliff linear total ≤ released e' cliff linear total.
Proof using Hc Hl Ht. intros. unfold released. apply Z.div_le_mono; [done|]. nia. Qed.

Lemma released_before (e : Z) : e ≤ cliff → released e cliff linear total = 0.
Proof using Hc Hl Ht. intros. unfold released. rewrite Z.max_l by lia. by rewrite Z.mul_0_r, Z.div_0_l by lia. Qed.

Lemma released_after (e : Z) : cliff + linear ≤ e → released e cliff linear total = total.
Proof using Hc Hl Ht. intros. unfold released. rewrite Z.min_r, Z.max_r by lia. by apply Z.div_mul; lia. Qed.
End released.

(** Rescaling the unit of time does not change the release. *)
Lemma released_rescale (k e cliff linear total : Z) :
  0 < k → 0 < linear →
  released (k * e) (k * cliff) (k * linear) total = released e cliff linear total.
Proof.
  intros Hk Hl. unfold released.
  replace (Z.max 0 (Z.min (k * e - k * cliff) (k * linear))) with (k * Z.max 0 (Z.min (e - cliff) linear)).
  - rewrite Z.mul_shuffle3. by apply Z.div_mul_cancel_l; lia.
  - rewrite <-Z.mul_max_distr_nonneg_l, <-Z.mul_min_distr_nonneg_l by lia. f_equal; [lia|]. f_equal; lia.
Qed.

Lemma assertAtoms_Ok (v : Z) (u : unit) : assertAtoms v = Ok u ↔ 0 ≤ v ≤ MAX_SUPPLY_ATOMS.
Proof.
  unfold assertAtoms. rewrite throw_if_Ok. breflect.
  unfold MAX_SUPPLY_ATOMS, ATOMS_PER_ZYN, MAX_SAFE_INTEGER. lia.
Qed.

Lemma assertTimestamp_Ok (v : Z) (n : string) (u : unit) :
  assertTimestamp v n = Ok u ↔ 0 ≤ v ≤ MAX_SAFE_INTEGER.
Proof. unfold assertTimestamp. rewrite throw_if_Ok. breflect. unfold MAX_SAFE_INTEGER. lia. Qed.

Lemma founderVestedAtTimestamp_released (g b total : Z) :
  0 ≤ g ≤ MAX_SAFE_INTEGER → 0 ≤ b ≤ MAX_SAFE_INTEGER → 0 ≤ total ≤ MAX_SUPPLY_ATOMS →
  founderVestedAtomsAtTimestamp g b total
    = Ok (released (b - g) FOUNDER_VESTING_CLIFF_MS FOUNDER_VESTING_LINEAR_MS total).
Proof.
  intros Hg Hb Ht. unfold founderVestedAtomsAtTimestamp.
  rewrite (proj2 (assertTimestamp_Ok g "genesis timestamp" ())), (proj2 (assertTimestamp_Ok b "block timestamp" ())),
    (proj2 (assertAtoms_Ok total ())) by done. simpl.
  rewrite linearCliff_released by (first [done | lia]). simpl.
  pose proof (released_bounds FOUNDER_VESTING_CLIFF_MS FOUNDER_VESTING_LINEAR_MS total
                ltac:(done) ltac:(done) ltac:(lia) (b - g)).
  rewrite (proj2 (throw_if_Ok _ _ ())); [done|]. breflect.
  unfold MAX_SUPPLY_ATOMS, ATOMS_PER_ZYN, MAX_SAFE_INTEGER in *. lia.
Qed.

(** ** Locks as an amount *)

(** A context as genesis validation produces it. *)
Record lock_context_wf (ctx : AllocationLockContext) : Prop := {
  wf_founder : 0 ≤ lc_founderAllocationAtoms ctx ≤ MAX_SUPPLY_ATOMS;
  wf_genesis : 0 ≤ lc_genesisTimestampMs ctx ≤ MAX_SAFE_INTEGER;
  wf_block : 0 ≤ lc_blockTimestampMs ctx ≤ MAX_SAFE_INTEGER;
  wf_release : ∀ r, lc_publicDistribution ctx = Some r →
    0 ≤ pd_allocationAtoms r ≤ MAX_SUPPLY_ATOMS ∧ 0 ≤ pd_cliffMs r ∧ 0 < pd_linearMs r }.

Definition founder_locked (ctx : AllocationLockContext) : Z :=
  lc_founderAllocationAtoms ctx -
  released (lc_blockTimestampMs ctx - lc_genesisTimestampMs ctx)
    FOUNDER_VESTING_CLIFF_MS FOUNDER_VESTING_LINEAR_MS (lc_founderAllocationAtoms ctx).

Definition release_locked (ctx : AllocationLockContext) (r : PublicDistributionLockState) : Z :=
  pd_allocationAtoms r -
  released (lc_blockTimestampMs ctx - lc_genesisTimestampMs ctx) (pd_cliffMs r) (pd_linearMs r)
    (pd_allocationAtoms r).

(** The part of [address]'s balance [b] that must stay in place. *)
Definition locked_amount (ctx : AllocationLockContext) (address : Address) (b : Z) : Z :=
  if bool_decide (lc_permanentLiquidity ctx = Some address) then b
  else if bool_decide (lc_founderVesting ctx = Some address) then founder_locked ctx
  else match lc_publicDistribution ctx with
    | Some r => if bool_decide (address = pd_address r) then release_locked ctx r else 0
    | None => 0
    end.

Section locked_amount.
Context (ctx : AllocationLockContext) (Hwf : lock_context_wf ctx).

Lemma founder_locked_bounds : 0 ≤ founder_locked ctx ≤ lc_founderAllocationAtoms ctx.
Proof using Hwf.
  destruct Hwf. unfold founder_locked.
  pose proof (released_bounds FOUNDER_VESTING_CLIFF_MS FOUNDER_VESTING_LINEAR_MS (lc_founderAllocationAtoms ctx)
    ltac:(done) ltac:(done) ltac:(lia) (lc_blockTimestampMs ctx - lc_genesisTimestampMs ctx)). lia.
Qed.

Lemma release_locked_bounds (r : PublicDistributionLockState) :
  lc_publicDistribution ctx = Some r → 0 ≤ release_locked ctx r ≤ pd_allocationAtoms r.
Proof using Hwf.
  intros Hr. pose proof (wf_release _ Hwf r Hr) as (Ha & Hc & Hl). unfold release_locked.
  pose proof (released_bounds (pd_cliffMs r) (pd_linearMs r) (pd_allocationAtoms r) Hc Hl ltac:(lia)
    (lc_blockTimestampMs ctx - lc_genesisTimestampMs ctx)). lia.
Qed.

Lemma lockedAtoms_amount (address : Address) (b : Z) :
  0 ≤ b ≤ MAX_SUPPLY_ATOMS →
  lockedAtoms (Some ctx) address b = Ok (locked_amount ctx address b).
Proof using Hwf.
  intros Hb. unfold lockedAtoms, locked_amount. rewrite (proj2 (assertAtoms_Ok b ())) by done. simpl.
  case_bool_decide; [done|]. case_bool_decide.
  - unfold founderLockedAtomsAtTimestamp. destruct Hwf.
    by rewrite founderVestedAtTimestamp_released.
  - destruct (lc_publicDistribution ctx) as [r|] eqn:Hr; [|done]. case_bool_decide; [|done].
    pose proof (wf_release _ Hwf r Hr) as (Ha & Hc & Hl).
    rewrite linearCliff_released by lia. simpl. fold (release_locked ctx r).
    pose proof (release_locked_bounds r Hr).
    rewrite (proj2 (throw_if_Ok _ _ ())); [done|]. breflect.
    unfold MAX_SUPPLY_ATOMS, ATOMS_PER_ZYN, MAX_SAFE_INTEGER in *. lia.
Qed.

Lemma locked_amount_bounds (address : Address) (b : Z) : 0 ≤ b → 0 ≤ locked_amount ctx address b.
Proof using Hwf.
  intros. unfold locked_amount. repeat case_bool_decide; try lia.
  - apply founder_locked_bounds.
  - destruct (lc_publicDistribution ctx) eqn:Hr; [|done]. case_bool_decide; [|done].
    by apply release_locked_bounds.
Qed.

(** The consensus check, as one inequality on the amount that stays. *)
Lemma outflow_Ok (sender : Address) (b out : Z) :
  0 ≤ b ≤ MAX_SUPPLY_ATOMS → 0 ≤ out ≤ MAX_SUPPLY_ATOMS →
  assertAllocationLockOutflow (Some ctx) sender b out = Ok () ↔
  lc_permanentLiquidity ctx ≠ Some sender ∧
  (locked_amount ctx sender b ≤ b - out ∨
   (lc_founderVesting ctx ≠ Some sender ∧ pd_address <$> lc_publicDistribution ctx ≠ Some sender)).
Proof using Hwf.
  intros Hb Ho. unfold assertAllocationLockOutflow.
  rewrite (proj2 (assertAtoms_Ok b ())), (proj2 (assertAtoms_Ok out ())) by done. cbn [mbind res_bind].
  rewrite !(lockedAtoms_amount sender b Hb). cbn [mbind res_bind].
  unfold locked_amount.
  destruct (lc_publicDistribution ctx) as [r|]; repeat case_bool_decide; simpl;
    repeat (match goal with |- context [throw_if ?c] => destruct c eqn:? end; simpl);
    breflect; simplify_eq; naive_solver lia.
Qed.
End locked_amount.

(** The same genesis at a later block: less is locked, for every account. *)
Definition at_time (ctx : AllocationLockContext) (t : Z) : AllocationLockContext :=
  mkLockContext (lc_founderVesting ctx) (lc_permanentLiquidity ctx) (lc_founderAllocationAtoms ctx)
    (lc_genesisTimestampMs ctx) t (lc_publicDistribution ctx).

Lemma locked_amount_at_time (ctx : AllocationLockContext) (t : Z) (a : Address) (b : Z) :
  lock_context_wf ctx → lc_blockTimestampMs ctx ≤ t ≤ MAX_SAFE_INTEGER →
  locked_amount (at_time ctx t) a b ≤ locked_amount ctx a b.
Proof.
  intros Hwf Ht. unfold locked_amount, founder_locked, release_locked. simpl.
  repeat case_bool_decide; try done.
  - pose proof (released_mono FOUNDER_VESTING_CLIFF_MS FOUNDER_VESTING_LINEAR_MS (lc_founderAllocationAtoms ctx)
      ltac:(done) ltac:(done) ltac:(by apply wf_founder) (lc_blockTimestampMs ctx - lc_genesisTimestampMs ctx)
      (t - lc_genesisTimestampMs ctx) ltac:(lia)). lia.
  - destruct (lc_publicDistribution ctx) as [r|] eqn:Hr; [|done]. case_bool_decide; [|done].
    pose proof (wf_release _ Hwf r Hr) as (Ha & Hc & Hl).
    pose proof (released_mono (pd_cliffMs r) (pd_linearMs r) (pd_allocationAtoms r) Hc Hl ltac:(lia)
      (lc_blockTimestampMs ctx - lc_genesisTimestampMs ctx) (t - lc_genesisTimestampMs ctx) ltac:(lia)). lia.
Qed.

Lemma at_time_wf (ctx : AllocationLockContext) (t : Z) :
  lock_context_wf ctx → 0 ≤ t ≤ MAX_SAFE_INTEGER → lock_context_wf (at_time ctx t).
Proof. intros []. by split. Qed.

(** An accepted outflow leaves the locked amount behind. *)
Lemma outflow_leaves_locked (ctx : AllocationLockContext) (sender : Address) (b out : Z) :
  lock_context_wf ctx → 0 ≤ out ≤ b → b ≤ MAX_SUPPLY_ATOMS →
  assertAllocationLockOutflow (Some ctx) sender b out = Ok () →
  lc_permanentLiquidity ctx ≠ Some sender ∧ locked_amount ctx sender b ≤ b - out.
Proof.
  intros Hwf Ho Hb H. apply outflow_Ok in H as [Hp H]; [|done|lia|lia]. split; [done|].
  destruct H as [H|[Hf Hr]]; [done|]. unfold locked_amount. rewrite !bool_decide_eq_false_2 by done.
  destruct (lc_publicDistribution ctx); [|lia]. rewrite bool_decide_eq_false_2 by naive_solver. lia.
Qed.

(** ** Properties *)

(** The cliff-then-linear schedule returns for every legal schedule, is
    monotone in time, pays nothing up to and including the cliff, exactly the
    total from cliff + linear on, and in between the floor of the linear
    share. *)
Theorem linearCliffVestedAtoms_schedule (cliff linear total e e' : Z) :
  0 ≤ cliff → 0 < linear → 0 ≤ total → e ≤ e' →
  ∃ v v', linearCliffVestedAtoms e cliff linear total = Ok v ∧
    linearCliffVestedAtoms e' cliff linear total = Ok v' ∧
    0 ≤ v ≤ v' ∧ v' ≤ total ∧ (e ≤ cliff → v = 0) ∧ (cliff + linear ≤ e' → v' = total) ∧
    (cliff ≤ e ≤ cliff + linear → v * linear ≤ total * (e - cliff) < (v + 1) * linear).
Proof.
  intros Hc Hl Ht He.
  exists (released e cliff linear total), (released e' cliff linear total).
  rewrite !linearCliff_released by done.
  pose proof (released_bounds cliff linear total Hc Hl Ht e).
  pose proof (released_bounds cliff linear total Hc Hl Ht e').
  pose proof (released_mono cliff linear total Hc Hl Ht e e' He).
  repeat split; try lia; intros.
  - by apply released_before.
  - by apply released_after.
  - unfold released. rewrite Z.min_l, Z.max_r by lia.
    pose proof (Z.mul_div_le (total * (e - cliff)) linear Hl). lia.
  - unfold released. rewrite Z.min_l, Z.max_r by lia.
    pose proof (Z.mul_succ_div_gt (total * (e - cliff)) linear Hl). lia.
Qed.

Lemma linearCliffVestedAtoms_schedule_witness :
  ∃ v v', linearCliffVestedAtoms 15 10 100 1000 = Ok v ∧ linearCliffVestedAtoms 200 10 100 1000 = Ok v'.
Proof.
  destruct (linearCliffVestedAtoms_schedule 10 100 1000 15 200) as (v & v' & H & H' & _);
    [lia | lia | lia | lia |]. by exists v, v'.
Defined.

(** The block-height schedule and the timestamp schedule agree exactly at the
    30-second target cadence. *)
Theorem founder_height_timestamp_agree (height start total genesisMs v : Z) :
  founderVestedAtomsAtHeight height start total = Ok v →
  total ≤ MAX_SUPPLY_ATOMS → 0 ≤ genesisMs ≤ MAX_SAFE_INTEGER →
  0 ≤ genesisMs + (height - start) * (TARGET_BLOCK_INTERVAL_SECONDS * 1000) ≤ MAX_SAFE_INTEGER →
  founderVestedAtomsAtTimestamp genesisMs
    (genesisMs + (height - start) * (TARGET_BLOCK_INTERVAL_SECONDS * 1000)) total = Ok v.
Proof.
  intros H Ht Hg Hb.
  assert (0 ≤ total ∧ v = released (height - start) FOUNDER_CLIFF_BLOCKS FOUNDER_LINEAR_VESTING_BLOCKS total)
    as [Ht0 ->].
  { unfold founderVestedAtomsAtHeight, assertAtomsUnbounded in H. res_inv. breflect.
    assert (0 ≤ total) by lia. split; [done|].
    match goal with H : linearCliffVestedAtoms _ _ _ _ = Ok _ |- _ =>
      rewrite linearCliff_released in H by (first [done | lia]); by injection H as <- end. }
  rewrite founderVestedAtTimestamp_released by lia. f_equal.
  replace (genesisMs + _ - genesisMs) with (30000 * (height - start))
    by (unfold TARGET_BLOCK_INTERVAL_SECONDS; lia).
  change FOUNDER_VESTING_CLIFF_MS with (30000 * FOUNDER_CLIFF_BLOCKS).
  change FOUNDER_VESTING_LINEAR_MS with (30000 * FOUNDER_LINEAR_VESTING_BLOCKS).
  by apply released_rescale.
Qed.

Lemma founder_height_timestamp_agree_witness :
  founderVestedAtomsAtTimestamp 1700000000000 (1700000000000 + 2000000 * (TARGET_BLOCK_INTERVAL_SECONDS * 1000))
    FOUNDER_ALLOCATION_ATOMS = Ok 150431253170979.
Proof.
  apply (founder_height_timestamp_agree 2000000 0);
    [vm_compute; reflexivity | done | done | done].
Defined.

(** An outflow the consensus check accepts leaves at least the locked amount
    behind, never comes from the permanent-liquidity account, and stays
    acceptable in every later block. *)
Theorem lock_outflow_safe (ctx : AllocationLockContext) (sender : Address) (b out t : Z) :
  lock_context_wf ctx → 0 ≤ out ≤ b → b ≤ MAX_SUPPLY_ATOMS →
  lc_blockTimestampMs ctx ≤ t ≤ MAX_SAFE_INTEGER →
  assertAllocationLockOutflow (Some ctx) sender b out = Ok () →
  lc_permanentLiquidity ctx ≠ Some sender ∧ locked_amount ctx sender b ≤ b - out ∧
  assertAllocationLockOutflow (Some (at_time ctx t)) sender b out = Ok ().
Proof.
  intros Hwf Ho Hb Ht H. apply outflow_leaves_locked in H as [Hp H]; [|done..].
  assert (0 ≤ t ≤ MAX_SAFE_INTEGER) by (pose proof (wf_block _ Hwf); lia).
  pose proof (locked_amount_at_time ctx t sender b Hwf Ht) as Hmono.
  split; [done|]. split; [done|].
  apply outflow_Ok; [by apply at_time_wf|lia|lia|]. simpl. split; [done|]. left. lia.
Qed.

Lemma lock_outflow_safe_witness :
  let ctx := mkLockContext (Some "F") (Some "L") FOUNDER_ALLOCATION_ATOMS 0 (2 * FOUNDER_VESTING_CLIFF_MS) None in
  lc_permanentLiquidity ctx ≠ Some "F" ∧
  locked_amount ctx "F" FOUNDER_ALLOCATION_ATOMS ≤ FOUNDER_ALLOCATION_ATOMS - 100 ∧
  assertAllocationLockOutflow (Some (at_time ctx (3 * FOUNDER_VESTING_CLIFF_MS))) "F" FOUNDER_ALLOCATION_ATOMS 100 = Ok ().
Proof.
  apply lock_outflow_safe; [|vm_compute; split; discriminate|vm_compute; discriminate|vm_compute; split; discriminate|].
  - split; simpl; [vm_compute; split; discriminate|done|vm_compute; split; discriminate|discriminate].
  - vm_compute. reflexivity.
Defined.

(** For a positive outflow within the balance, the consensus check accepts
    exactly the amounts up to what [spendableAtoms] reports to wallets. *)
Theorem spendable_iff_outflow (ctx : AllocationLockContext) (sender : Address) (b out : Z) :
  lock_context_wf ctx → 0 < out ≤ b → b ≤ MAX_SUPPLY_ATOMS →
  assertAllocationLockOutflow (Some ctx) sender b out = Ok () ↔
  ∃ s, spendableAtoms (Some ctx) sender b = Ok s ∧ out ≤ s.
Proof.
  intros Hwf Ho Hb. rewrite outflow_Ok by (done || lia).
  unfold spendableAtoms. rewrite lockedAtoms_amount by (done || lia). cbn [mbind res_bind].
  assert (locked_amount ctx sender b ≤ b - out ↔
          ∃ s, Ok (if locked_amount ctx sender b <? b then b - locked_amount ctx sender b else 0) = Ok s ∧ out ≤ s)
    as <-.
  { split; [intros; eexists; split; [done|]; case_if; lia|]. intros (s & [= <-] & Hs). case_if; lia. }
  unfold locked_amount. destruct (lc_publicDistribution ctx); repeat case_bool_decide; simpl; naive_solver lia.
Qed.

Lemma spendable_iff_outflow_witness :
  let ctx := mkLockContext (Some "F") (Some "L") FOUNDER_ALLOCATION_ATOMS 0 (2 * FOUNDER_VESTING_CLIFF_MS) None in
  assertAllocationLockOutflow (Some ctx) "F" FOUNDER_ALLOCATION_ATOMS 100 = Ok () ↔
  ∃ s, spendableAtoms (Some ctx) "F" FOUNDER_ALLOCATION_ATOMS = Ok s ∧ 100 ≤ s.
Proof.
  apply spendable_iff_outflow; [|vm_compute; split; [reflexivity|discriminate]|vm_compute; discriminate].
  split; simpl; [vm_compute; split; discriminate|done|vm_compute; split; discriminate|discriminate].
Defined.
