(* ===== verification/Codec.v ===== *)
(** Canonical JSON (l1/src/codec.ts): the encoding every hash and signature of
    the protocol is taken over, and the streaming digest that must agree with
    it. *)

From S2P Require Import Prelude.

(** ** JavaScript values

    A value is a tree: what [JSON.parse] or an object literal produces (no
    cycles, no getters, no [toJSON]).  Numbers are integers ([JInt], possibly
    outside the safe range), [-0], or anything else ([JFrac]: fractions, NaN,
    infinities).  The type of text is a parameter: the codec works on UTF-16
    code units, the validators of untrusted records on [string].  The entries
    of an object are in enumeration order. *)
Inductive jsnum := JInt (z : Z) | JNegZero | JFrac.

Inductive jsval (S : Type) : Type :=
| JUndefined
| JFunction (* a function or a symbol *)
| JNull
| JBool (b : bool)
| JNum (n : jsnum)
| JStr (s : S)
| JArr (items : list (jsval S))
| JObj (entries : list (S * jsval S)).
Arguments JUndefined {S}.
Arguments JFunction {S}.
Arguments JNull {S}.
Arguments JBool {S} b.
Arguments JNum {S} n.
Arguments JStr {S} s.
Arguments JArr {S} items.
Arguments JObj {S} entries.

(** [Number.isSafeInteger] on any number. *)
Definition num_isSafe (n : jsnum) : bool :=
  match n with JInt z => isSafeInteger z | JNegZero => true | JFrac => false end.

(** ** UTF-16 text *)

Abbreviation units := (list Z) (only parsing).

(** Text written in the source as an ASCII literal. *)
Definition lit (s : string) : units :=
  (λ c, Z.of_N (Ascii.N_of_ascii c)) <$> String.list_ascii_of_string s.

(** [left <= right] for JavaScript strings: lexicographic on code units. *)
Fixpoint units_le (left right : units) : bool :=
  match left, right with
  | [], _ => true
  | _ :: _, [] => false
  | a :: l, b :: r => if a <? b then true else if b <? a then false else units_le l r
  end.

Definition units_lt (left right : units) : bool := negb (units_le right left).

Definition compareCanonicalStrings (left right : units) : Z :=
  if units_lt left right then -1 else if units_lt right left then 1 else 0.

Definition isLead (u : Z) : bool := (55296 <=? u) && (u <=? 56319).
Definition isTrail (u : Z) : bool := (56320 <=? u) && (u <=? 57343).

(** ** [JSON.stringify] of a string (ECMA-262 QuoteJSONString) *)

Definition hex_digit (d : Z) : Z := if d <? 10 then 48 + d else 87 + d.
Definition unicode_escape (u : Z) : units :=
  lit "\u" ++ [hex_digit (u / 4096 mod 16); hex_digit (u / 256 mod 16); hex_digit (u / 16 mod 16); hex_digit (u mod 16)].

Definition quote_unit (u : Z) : units :=
  if u =? 8 then lit "\b" else if u =? 9 then lit "\t" else if u =? 10 then lit "\n"
  else if u =? 12 then lit "\f" else if u =? 13 then lit "\r"
  else if u =? 34 then [92; 34] else if u =? 92 then [92; 92]
  else if u <? 32 then unicode_escape u
  else if isLead u || isTrail u then unicode_escape u
  else [u].

(** A function of text that treats surrogate pairs as one character. *)
Fixpoint per_char {A} (single : Z → list A) (pair : Z → Z → list A) (s : units) : list A :=
  match s with
  | [] => []
  | u :: s' =>
    match s' with
    | v :: s'' => if isLead u && isTrail v then pair u v ++ per_char single pair s''
                  else single u ++ per_char single pair s'
    | [] => single u
    end
  end.

(** The text between the quotes: a surrogate pair is copied, a lone surrogate
    is escaped. *)
Definition quote_body : units → units := per_char quote_unit (λ u v, [u; v]).
Definition json_quote (s : units) : units := [34] ++ quote_body s ++ [34].

(** ** UTF-8 ([Buffer.byteLength(s, "utf8")], [hash.update(s, "utf8")]) *)

Definition utf8_unit (u : Z) : list Z :=
  if u <? 128 then [u]
  else if u <? 2048 then [192 + u / 64; 128 + u mod 64]
  else if isLead u || isTrail u then [239; 191; 189]
  else [224 + u / 4096; 128 + u / 64 mod 64; 128 + u mod 64].
Definition utf8_pair (u v : Z) : list Z :=
  let c := 65536 + (u - 55296) * 1024 + (v - 56320) in
  [240 + c / 262144; 128 + c / 4096 mod 64; 128 + c / 64 mod 64; 128 + c mod 64].
Definition utf8 : units → list Z := per_char utf8_unit utf8_pair.

(** ** Object construction

    [Object.fromEntries] builds an object whose enumeration order is: array
    index keys in ascending numeric order, then the other keys in insertion
    order (ECMA-262 OrdinaryOwnPropertyKeys). *)
Definition isDigit (u : Z) : bool := (48 <=? u) && (u <=? 57).
Definition digits_value (s : units) : Z := fold_left (λ acc d, acc * 10 + (d - 48)) s 0.
Definition isArrayIndex (key : units) : bool :=
  match key with
  | [] => false
  | d :: rest =>
    forallb isDigit key && (negb (d =? 48) || bool_decide (rest = []))
    && (zlen key <=? 10) && (digits_value key <? 4294967295)
  end.

Definition fromEntries {V} (entries : list (units * V)) : list (units * V) :=
  js_sort (λ a b, digits_value a.1 <=? digits_value b.1) (filter (λ e, isArrayIndex e.1 = true) entries)
  ++ filter (λ e, isArrayIndex e.1 = false) entries.

(** [.sort(([left], [right]) => compareCanonicalStrings(left, right))] *)
Definition key_le {V} (a b : units * V) : bool := compareCanonicalStrings a.1 b.1 <=? 0.
Definition sortEntries {V} (entries : list (units * V)) : list (units * V) := js_sort key_le entries.

Definition MAX_CANONICAL_JSON_DEPTH : Z := 64.

Definition assertCanonicalContainerBoundary (depth : Z) : res unit :=
  throw_if (MAX_CANONICAL_JSON_DEPTH <? depth) "Canonical JSON nesting depth exceeded".

(** The loop over sorted entries: results are produced in sorted order, so the
    first failing entry in that order decides the error. *)
Definition seq_entries {V} (entries : list (units * res V)) : res (list (units * V)) :=
  res_seq (map (λ e, v ← e.2; Ok (e.1, v)) entries).

Fixpoint normalize (value : jsval units) (depth : Z) {struct value} : res (jsval units) :=
  match value with
  | JArr items =>
    assertCanonicalContainerBoundary depth;;
    items' ← res_seq (map (λ item, normalize item (depth + 1)) items);
    Ok (JArr items')
  | JObj entries =>
    assertCanonicalContainerBoundary depth;;
    entries' ← seq_entries (sortEntries (map (λ e, (e.1, normalize e.2 (depth + 1))) entries));
    Ok (JObj (fromEntries entries'))
  | JNum n => throw_if (negb (num_isSafe n)) "Consensus numbers must be safe integers";; Ok value
  | _ => Ok value
  end.

(** [String(z)] for an integer in the safe range. *)
Definition number_units (n : jsnum) : units :=
  match n with JInt z => lit (pretty z) | JNegZero => lit "0" | JFrac => lit "null" end.

(** Joining with a separator, as serializers do. *)
Fixpoint join (sep : units) (parts : list units) : units :=
  match parts with
  | [] => []
  | [p] => p
  | p :: parts' => p ++ sep ++ join sep parts'
  end.

(** [JSON.stringify(value)]; [None] is the result [undefined]. *)
Fixpoint stringify (value : jsval units) : option units :=
  match value with
  | JUndefined | JFunction => None
  | JNull => Some (lit "null")
  | JBool b => Some (lit (if b then "true" else "false"))
  | JNum n => Some (number_units n)
  | JStr s => Some (json_quote s)
  | JArr items => Some (lit "[" ++ join (lit ",") (map (λ item, default (lit "null") (stringify item)) items) ++ lit "]")
  | JObj entries =>
    Some (lit "{" ++ join (lit ",")
      (omap (λ p, (λ t, json_quote p.1 ++ lit ":" ++ t) <$> p.2) (map (λ e, (e.1, stringify e.2)) entries)) ++ lit "}")
  end.

Definition canonicalJson (value : jsval units) : res (option units) :=
  n ← normalize value 0; Ok (stringify n).

(** ** The streaming digest *)

Definition CANONICAL_STRING_CHUNK_CODE_UNITS : nat := Z.to_nat (16 * 1024).

(** The fragments [writeCanonicalString] writes between the quotes.  [fuel] is
    the number of code units left, which every chunk lowers. *)
Fixpoint write_chunks (fuel : nat) (value : units) : list units :=
  match fuel, value with
  | _, [] => []
  | O, _ => []
  | S fuel', _ =>
    let end0 := Nat.min (length value) CANONICAL_STRING_CHUNK_CODE_UNITS in
    let end1 :=
      match value !! (end0 - 1)%nat, value !! end0 with
      | Some last, Some next => if isLead last && isTrail next then S end0 else end0
      | _, _ => end0
      end in
    quote_body (take end1 value) :: write_chunks fuel' (drop end1 value)
  end.
Definition writeCanonicalString (value : units) : list units :=
  [[34]] ++ write_chunks (length value) value ++ [[34]].

Inductive position := RootPos | ArrayPos | ObjectPos.

Definition isOmitted (v : jsval units) : bool :=
  match v with JUndefined | JFunction => true | _ => false end.

(** Writing [","] between consecutive groups of fragments. *)
Fixpoint comma_separated (groups : list (list units)) : list units :=
  match groups with
  | [] => []
  | [g] => g
  | g :: groups' => g ++ [lit ","] ++ comma_separated groups'
  end.

(** The fragments passed to [write], in order. *)
Fixpoint emitCanonicalJson (value : jsval units) (depth : Z) (pos : position) {struct value} : res (list units) :=
  match value with
  | JArr items =>
    assertCanonicalContainerBoundary depth;;
    parts ← res_seq (map (λ item,
      if isOmitted item then Ok [lit "null"] else emitCanonicalJson item (depth + 1) ArrayPos) items);
    Ok ([lit "["] ++ comma_separated parts ++ [lit "]"])
  | JObj entries =>
    assertCanonicalContainerBoundary depth;;
    parts ← seq_entries (sortEntries
      (map (λ e, (e.1, e.2.2))
        (filter (λ e, e.2.1 = false)
          (map (λ e, (e.1, (isOmitted e.2, emitCanonicalJson e.2 (depth + 1) ObjectPos))) entries))));
    Ok ([lit "{"]
        ++ comma_separated (map (λ p, writeCanonicalString p.1 ++ [lit ":"] ++ p.2) parts)
        ++ [lit "}"])
  | JNum n =>
    throw_if (negb (num_isSafe n)) "Consensus numbers must be safe integers";;
    Ok [number_units n]
  | JStr s => Ok (writeCanonicalString s)
  | JBool b => Ok [lit (if b then "true" else "false")]
  | JNull => Ok [lit "null"]
  | JUndefined | JFunction =>
    match pos with
    | ArrayPos => Ok [lit "null"]
    | _ => Throw "Canonical JSON digest requires a JSON-compatible value"
    end
  end.

(** [canonicalJsonDigest]: [write] adds the UTF-8 length of each fragment and
    feeds it to the hash.  [sha256] is node:crypto's hash of the concatenation
    of the updates, in lower-case hex. *)
Definition canonicalJsonDigest (sha256 : list Z → string) (value : jsval units) : res (Z * string) :=
  fragments ← emitCanonicalJson value 0 RootPos;
  Ok (foldl (λ n fragment, n + zlen (utf8 fragment)) 0 fragments,
      sha256 (concat (map utf8 fragments))).

(** ** Induction over values *)

Lemma jsval_ind' {S} (P : jsval S → Prop) :
  P JUndefined → P JFunction → P JNull → (∀ b, P (JBool b)) → (∀ n, P (JNum n)) → (∀ s, P (JStr s)) →
  (∀ items, Forall P items → P (JArr items)) →
  (∀ entries, Forall (λ e, P e.2) entries → P (JObj entries)) →
  ∀ v, P v.
Proof.
  intros H1 H2 H3 H4 H5 H6 Harr Hobj.
  fix IH 1. intros [| | |b|n|s|items|entries];
    [exact H1|exact H2|exact H3|apply H4|apply H5|apply H6|apply Harr|apply Hobj].
  - induction items as [|x items IHl]; constructor; [apply IH|exact IHl].
  - induction entries as [|[k x] entries IHl]; constructor; [apply IH|exact IHl].
Qed.

(** No object of the value, at any depth, has an array-index key. *)
Fixpoint noIndexKeys (v : jsval units) : bool :=
  match v with
  | JArr items => forallb noIndexKeys items
  | JObj entries => forallb (λ e, negb (isArrayIndex e.1) && noIndexKeys e.2) entries
  | _ => true
  end.

(** ** Text that does not split a surrogate pair *)

Definition splits (a b : units) : bool :=
  match last a, head b with Some u, Some v => isLead u && isTrail v | _, _ => false end.

Section per_char.
Context {A : Type} (single : Z → list A) (pair : Z → Z → list A).

Lemma per_char_app (a b : units) :
  splits a b = false → per_char single pair (a ++ b) = per_char single pair a ++ per_char single pair b.
Proof.
  remember (length a) as n eqn:Hn. revert a b Hn.
  induction n as [n IH] using lt_wf_ind. intros a b -> Hs.
  destruct a as [|u [|v a]]; [done| |].
  - destruct b as [|w b]; simpl; [by rewrite app_nil_r|]. unfold splits in Hs. simpl in Hs. by rewrite Hs.
  - assert (splits (v :: a) b = false) as Hs' by done.
    simpl. destruct (isLead u && isTrail v) eqn:E.
    + rewrite (IH (length a)) with (a := a); [by rewrite app_assoc|simpl; lia|done|].
      destruct a as [|w a]; [|done]. unfold splits. simpl. by destruct (head b).
    + pose proof (IH (length (v :: a)) ltac:(simpl; lia) (v :: a) b eq_refl Hs') as IH'.
      simpl in IH'. rewrite IH'. by rewrite app_assoc.
Qed.
End per_char.

(** Fragments that start with a complete character. *)
Definition starts_char (f : units) : Prop := ∀ v, head f = Some v → isTrail v = false.

Lemma splits_starts (a b : units) : starts_char b → splits a b = false.
Proof.
  unfold splits, starts_char. intros H. destruct (last a), (head b); try done.
  rewrite (H _ eq_refl). apply andb_false_r.
Qed.

Lemma starts_concat (fs : list units) : Forall starts_char fs → starts_char (concat fs).
Proof.
  induction 1 as [|f fs Hf Hfs IH]; simpl; [intros v [=]|].
  destruct f as [|u f]; [exact IH|]. intros v Hv. apply Hf. exact Hv.
Qed.

Lemma utf8_concat (fs : list units) :
  Forall starts_char fs → utf8 (concat fs) = concat (map utf8 fs).
Proof.
  induction 1 as [|f fs Hf Hfs IH]; simpl; [done|].
  unfold utf8 in *. rewrite per_char_app; [by rewrite IH|]. by apply splits_starts, starts_concat.
Qed.

Lemma lead_not_trail (u : Z) : isLead u = true → isTrail u = false.
Proof. unfold isLead, isTrail. lia. Qed.

Lemma quote_unit_starts (u : Z) (rest : units) : starts_char (quote_unit u ++ rest).
Proof.
  intros v. unfold quote_unit.
  repeat (match goal with |- context [if ?c then _ else _] => destruct c eqn:? end);
    try (intros [= <-]; reflexivity).
  intros [= <-]. breflect. tauto.
Qed.

Lemma quote_body_starts (s : units) : starts_char (quote_body s).
Proof.
  destruct s as [|u [|v s]]; unfold quote_body; simpl.
  - intros v [=].
  - rewrite <-(app_nil_r (quote_unit u)). apply quote_unit_starts.
  - destruct (isLead u && isTrail v) eqn:E; [|apply quote_unit_starts].
    intros w [= <-]. apply andb_true_iff in E as [E _]. by apply lead_not_trail.
Qed.

(** ** Chunked strings equal quoted strings *)

Lemma last_take {A} (l : list A) (n : nat) : (0 < n ≤ length l)%nat → last (take n l) = l !! (n - 1)%nat.
Proof.
  intros Hn. rewrite last_lookup, length_take, Nat.min_l by lia.
  rewrite lookup_take_lt by lia. f_equal. lia.
Qed.

Lemma head_drop {A} (l : list A) (n : nat) : head (drop n l) = l !! n.
Proof. by rewrite head_lookup, lookup_drop, Nat.add_0_r. Qed.

Lemma chunk_units_pos : (0 < CANONICAL_STRING_CHUNK_CODE_UNITS)%nat.
Proof. unfold CANONICAL_STRING_CHUNK_CODE_UNITS. change O with (Z.to_nat 0). by apply Z2Nat.inj_lt. Qed.

(** The end of a chunk, as the loop of [writeCanonicalString] computes it. *)
Definition chunk_end (value : units) : nat :=
  let end0 := Nat.min (length value) CANONICAL_STRING_CHUNK_CODE_UNITS in
  match value !! (end0 - 1)%nat, value !! end0 with
  | Some last, Some next => if isLead last && isTrail next then S end0 else end0
  | _, _ => end0
  end.

Lemma chunk_end_bounds (value : units) : value ≠ [] → (0 < chunk_end value ≤ length value)%nat.
Proof.
  intros Hv. unfold chunk_end.
  assert (0 < Nat.min (length value) CANONICAL_STRING_CHUNK_CODE_UNITS ≤ length value)%nat as Hb.
  { pose proof chunk_units_pos. destruct value; [done|]. simpl length. lia. }
  destruct (value !! (_ - 1)%nat); [|done]. destruct (value !! Nat.min _ _) eqn:E; [|done].
  apply lookup_lt_Some in E. destruct (_ && _); lia.
Qed.

Lemma chunk_end_splits (value : units) :
  value ≠ [] → splits (take (chunk_end value) value) (drop (chunk_end value) value) = false.
Proof.
  intros Hv. pose proof (chunk_end_bounds value Hv) as Hb. unfold splits.
  rewrite last_take, head_drop by done. revert Hb. unfold chunk_end.
  destruct (value !! (Nat.min _ _ - 1)%nat) as [u|] eqn:E1; [|by rewrite E1].
  destruct (value !! Nat.min _ _) as [v|] eqn:E2.
  - destruct (isLead u && isTrail v) eqn:E3; intros Hb; [|by rewrite E1, E2, E3].
    replace (S (Nat.min (length value) CANONICAL_STRING_CHUNK_CODE_UNITS) - 1)%nat
      with (Nat.min (length value) CANONICAL_STRING_CHUNK_CODE_UNITS) by lia.
    rewrite E2. apply andb_true_iff in E3 as [_ E3].
    assert (isLead v = false) as -> by (revert E3; unfold isLead, isTrail; lia). by case_match.
  - intros _. by rewrite E1, E2.
Qed.

Lemma write_chunks_cons (fuel : nat) (w : units) :
  w ≠ [] →
  write_chunks (S fuel) w = quote_body (take (chunk_end w) w) :: write_chunks fuel (drop (chunk_end w) w).
Proof. by destruct w. Qed.

Lemma write_chunks_concat (fuel : nat) (value : units) :
  (length value ≤ fuel)%nat → concat (write_chunks fuel value) = quote_body value.
Proof.
  revert value. induction fuel as [|fuel IH]; intros [|u value] Hf; try done; [simpl in Hf; lia|].
  rewrite write_chunks_cons by done. remember (u :: value) as w eqn:Hw.
  assert (w ≠ []) as Hne by (intros ->; discriminate).
  pose proof (chunk_end_bounds w Hne). simpl. rewrite IH by (rewrite length_drop; lia).
  unfold quote_body. rewrite <-per_char_app by by apply chunk_end_splits. by rewrite take_drop.
Qed.

Lemma write_chunks_starts (fuel : nat) (value : units) : Forall starts_char (write_chunks fuel value).
Proof.
  revert value. induction fuel as [|fuel IH]; intros [|u value]; [constructor..|].
  rewrite write_chunks_cons by done. constructor; [apply quote_body_starts|apply IH].
Qed.

Lemma writeCanonicalString_concat (s : units) : concat (writeCanonicalString s) = json_quote s.
Proof.
  unfold writeCanonicalString, json_quote. rewrite concat_app. simpl. rewrite concat_app.
  rewrite write_chunks_concat by done. done.
Qed.

Lemma writeCanonicalString_starts (s : units) : Forall starts_char (writeCanonicalString s).
Proof.
  unfold writeCanonicalString. rewrite !Forall_app. repeat split; [|apply write_chunks_starts|];
    repeat constructor; by intros v [= <-].
Qed.

(** ** The order on keys *)

Lemma units_le_refl (a : units) : units_le a a = true.
Proof. induction a as [|x a IH]; simpl; [done|]. by rewrite Z.ltb_irrefl. Qed.

Lemma units_le_total (a b : units) : units_le a b = false → units_le b a = true.
Proof.
  revert b. induction a as [|x a IH]; intros [|y b]; simpl; try done.
  destruct (Z.ltb_spec x y), (Z.ltb_spec y x); try done; try lia. apply IH.
Qed.

Lemma units_le_trans (a b c : units) : units_le a b = true → units_le b c = true → units_le a c = true.
Proof.
  revert b c. induction a as [|x a IH]; intros [|y b] [|z c]; simpl; try done.
  destruct (Z.ltb_spec x y), (Z.ltb_spec y x), (Z.ltb_spec y z), (Z.ltb_spec z y),
    (Z.ltb_spec x z), (Z.ltb_spec z x); try done; try lia. apply IH.
Qed.

Lemma units_le_antisym (a b : units) : units_le a b = true → units_le b a = true → a = b.
Proof.
  revert b. induction a as [|x a IH]; intros [|y b]; simpl; try done.
  destruct (Z.ltb_spec x y), (Z.ltb_spec y x); try done; try lia. intros. f_equal; [lia|auto].
Qed.

Lemma key_le_units {V} (a b : units * V) : key_le a b = units_le a.1 b.1.
Proof.
  unfold key_le, compareCanonicalStrings, units_lt.
  destruct (units_le b.1 a.1) eqn:E; simpl.
  - by destruct (units_le a.1 b.1).
  - by rewrite (units_le_total _ _ E).
Qed.

Lemma key_le_total {V} (a b : units * V) : key_le a b = false → key_le b a = true.
Proof. rewrite !key_le_units. apply units_le_total. Qed.
Lemma key_le_trans {V} (a b c : units * V) : key_le a b = true → key_le b c = true → key_le a c = true.
Proof. rewrite !key_le_units. apply units_le_trans. Qed.

(** Sorting entries looks only at the keys. *)
Lemma sortEntries_map {V W} (f : V → W) (l : list (units * V)) :
  sortEntries (map (λ e, (e.1, f e.2)) l) = map (λ e, (e.1, f e.2)) (sortEntries l).
Proof. apply (js_sort_fmap key_le key_le (λ e, (e.1, f e.2))). intros x y. by rewrite !key_le_units. Qed.

Lemma sortEntries_filter {V} (P : units * V → Prop) `{∀ x, Decision (P x)} (l : list (units * V)) :
  sortEntries (filter P l) = filter P (sortEntries l).
Proof. symmetry. apply filter_js_sort; [apply key_le_total|apply key_le_trans]. Qed.

Lemma sortEntries_perm {V} (l : list (units * V)) : sortEntries l ≡ₚ l.
Proof. apply js_sort_perm. Qed.

(** Two lists with the same entries and no repeated key sort to the same list. *)
Lemma sorted_keys_unique {V} (l k : list (units * V)) :
  NoDup l.*1 → l ≡ₚ k → StronglySorted (λ a b, key_le a b = true) l →
  StronglySorted (λ a b, key_le a b = true) k → l = k.
Proof.
  intros Hnd Hp Hl. revert k Hp. induction Hl as [|x l Hs IH Hall]; intros k Hp Hk.
  - by apply Permutation_nil in Hp.
  - destruct Hk as [|y k Hk Hally].
    { symmetry in Hp. by apply Permutation_nil in Hp. }
    rewrite Forall_forall in Hall, Hally. csimpl in Hnd. apply NoDup_cons in Hnd as [Hx Hnd].
    assert (x = y) as ->.
    { assert (y ∈ x :: l) as Hy by (rewrite Hp; left).
      assert (x ∈ y :: k) as Hx' by (rewrite <-Hp; left).
      apply elem_of_cons in Hy as [->|Hy]; [done|]. apply elem_of_cons in Hx' as [->|Hx']; [done|].
      specialize (Hall _ Hy). specialize (Hally _ Hx'). rewrite !key_le_units in *.
      exfalso. apply Hx. rewrite (units_le_antisym _ _ Hall Hally). by apply list_elem_of_fmap_2. }
    f_equal. apply IH; [done|by apply Permutation_cons_inv in Hp|done].
Qed.

Lemma sortEntries_unique {V} (l k : list (units * V)) :
  NoDup l.*1 → l ≡ₚ k → sortEntries l = sortEntries k.
Proof.
  intros Hnd Hp. apply sorted_keys_unique.
  - by rewrite sortEntries_perm.
  - by rewrite !sortEntries_perm.
  - apply js_sort_sorted; [apply key_le_total|apply key_le_trans].
  - apply js_sort_sorted; [apply key_le_total|apply key_le_trans].
Qed.

(** ** Digest equals encoding *)

Lemma res_fmap_bind {A B C} (f : B → C) (r : res A) (k : A → res B) :
  f <$> (r ≫= k) = r ≫= (λ a, f <$> k a).
Proof. by destruct r. Qed.

Lemma res_seq_map_fmap {A B} (f : A → B) (l : list (res A)) :
  map f <$> res_seq l = res_seq (map (λ r, f <$> r) l).
Proof.
  induction l as [|[x|m] l IH]; simpl; [done| |done].
  rewrite <-IH. by destruct (res_seq l).
Qed.

Lemma concat_comma (groups : list (list units)) :
  concat (comma_separated groups) = join (lit ",") (map (@concat Z) groups).
Proof.
  induction groups as [|g [|h groups] IH]; simpl; [done|done|].
  rewrite concat_app. f_equal. simpl in IH. by rewrite <-IH.
Qed.

(** The text a fragment list writes. *)
Definition text_of (r : res (list units)) : res units := (λ fs, concat fs) <$> r.
(** The text [JSON.stringify] gives a normalized member of an array. *)
Definition norm_text (v : jsval units) (depth : Z) : res units :=
  (λ n, default (lit "null") (stringify n)) <$> normalize v depth.

Lemma normalize_omitted (v n : jsval units) (d : Z) :
  normalize v d = Ok n → isOmitted n = isOmitted v.
Proof. destruct v; simpl; intros H; res_inv; done. Qed.

Lemma omitted_stringify (v : jsval units) : stringify v = None ↔ isOmitted v = true.
Proof. by destruct v. Qed.

Lemma fromEntries_id {V} (l : list (units * V)) :
  Forall (λ e, isArrayIndex e.1 = false) l → fromEntries l = l.
Proof.
  intros H. unfold fromEntries.
  assert (filter (λ e : units * V, isArrayIndex e.1 = true) l = []) as ->.
  { induction H; [done|]. rewrite filter_cons_False; [done|congruence]. }
  simpl. induction H; [done|]. rewrite filter_cons_True by done. by f_equal.
Qed.

Lemma seq_entries_cons {V} (k : units) (r : res V) (l : list (units * res V)) :
  seq_entries ((k, r) :: l) = (v ← r; xs ← seq_entries l; Ok ((k, v) :: xs)).
Proof. unfold seq_entries. simpl. by destruct r. Qed.

(** The members of an object, written in sorted order. *)
Lemma seq_entries_text (d : Z) (L : list (units * jsval units)) :
  Forall (λ e, isOmitted e.2 = false → text_of (emitCanonicalJson e.2 (d + 1) ObjectPos) = norm_text e.2 (d + 1)) L →
  (λ parts, join (lit ",") (map (λ p, json_quote p.1 ++ lit ":" ++ concat p.2) parts)) <$>
    seq_entries (map (λ e, (e.1, emitCanonicalJson e.2 (d + 1) ObjectPos)) (filter (λ e, isOmitted e.2 = false) L)) =
  (λ es, join (lit ",") (omap (λ p, (λ t, json_quote p.1 ++ lit ":" ++ t) <$> p.2) (map (λ e, (e.1, stringify e.2)) es))) <$>
    seq_entries (map (λ e, (e.1, normalize e.2 (d + 1))) L).
Proof.
  intros HL.
  enough ((map (λ p, json_quote p.1 ++ lit ":" ++ concat p.2)) <$>
    seq_entries (map (λ e, (e.1, emitCanonicalJson e.2 (d + 1) ObjectPos)) (filter (λ e, isOmitted e.2 = false) L)) =
    (λ es, omap (λ p, (λ t, json_quote p.1 ++ lit ":" ++ t) <$> p.2) (map (λ e, (e.1, stringify e.2)) es)) <$>
    seq_entries (map (λ e, (e.1, normalize e.2 (d + 1))) L)) as G.
  { revert G. destruct (seq_entries (map _ (filter _ _))), (seq_entries (map _ L)); simpl; congruence. }
  induction HL as [|[k v] L Hv HL IH]; [done|]. revert IH.
  rewrite filter_cons, (map_cons _ (k, v) L), seq_entries_cons. cbn [fst snd] in *.
  destruct (isOmitted v) eqn:Ho.
  - rewrite decide_False by congruence.
    assert (normalize v (d + 1) = Ok v) as -> by by destruct v. apply omitted_stringify in Ho.
    destruct (seq_entries (map _ (filter _ _))), (seq_entries (map _ L));
      cbn [mbind res_bind fmap res_fmap]; try congruence.
    intros IH%Ok_inj. rewrite IH. simpl. by rewrite Ho.
  - rewrite decide_True by congruence. rewrite map_cons, seq_entries_cons. cbn [fst snd].
    specialize (Hv eq_refl). unfold text_of, norm_text in Hv. revert Hv.
    destruct (emitCanonicalJson v _ _) as [fs|m] eqn:Ee, (normalize v (d + 1)) as [n|m'] eqn:En;
      cbn [mbind res_bind fmap res_fmap]; try congruence.
    intros Hv%Ok_inj. pose proof (normalize_omitted v n _ En) as Hn. rewrite Ho in Hn.
    destruct (stringify n) as [t|] eqn:Es; [|by apply omitted_stringify in Es; congruence].
    destruct (seq_entries (map _ (filter _ _))), (seq_entries (map _ L));
      cbn [mbind res_bind fmap res_fmap]; try congruence.
    intros IH%Ok_inj. rewrite map_cons, IH. simpl. rewrite Es. simpl in *. by rewrite Hv.
Qed.

#[local] Arguments writeCanonicalString : simpl never.
#[local] Arguments json_quote : simpl never.
#[local] Arguments lit : simpl never.

Lemma emit_normalize (v : jsval units) (d : Z) (pos : position) :
  noIndexKeys v = true → isOmitted v = false →
  text_of (emitCanonicalJson v d pos) = norm_text v d.
Proof.
  revert d pos. induction v as [| | |b|n|s|items IH|entries IH] using jsval_ind'; intros d pos Hk Ho;
    try done; unfold text_of, norm_text;
    cbn [emitCanonicalJson normalize mbind res_bind fmap res_fmap stringify default].
  - simpl. by rewrite app_nil_r.
  - destruct (num_isSafe n); simpl; [|done]. by rewrite app_nil_r.
  - f_equal. apply writeCanonicalString_concat.
  - destruct (assertCanonicalContainerBoundary d); simpl; [|done].
    set (E := λ item, if isOmitted item then _ else _).
    assert (map (@concat Z) <$> res_seq (map E items) =
            map (λ n, default (lit "null") (stringify n)) <$> res_seq (map (λ item, normalize item (d + 1)) items)) as G.
    { rewrite !res_seq_map_fmap, !map_map. f_equal. simpl in Hk.
      clear Ho. induction IH as [|x items Hx Hall IHl]; [done|]. simpl in Hk. apply andb_true_iff in Hk as [Hkx Hk].
      simpl. f_equal; [|by apply IHl]. unfold E. destruct (isOmitted x) eqn:Hox; [by destruct x|].
      by apply Hx. }
    revert G. destruct (res_seq (map E items)), (res_seq (map _ items)); simpl; try congruence.
    intros G%Ok_inj. f_equal. rewrite !concat_app, concat_comma, G. done.
  - destruct (assertCanonicalContainerBoundary d); cbn [mbind res_bind fmap res_fmap]; [|done].
    assert (sortEntries (map (λ e : units * (bool * res (list units)), (e.1, e.2.2))
        (filter (λ e, e.2.1 = false)
          (map (λ e : units * jsval units, (e.1, (isOmitted e.2, emitCanonicalJson e.2 (d + 1) ObjectPos))) entries)))
      = map (λ e, (e.1, emitCanonicalJson e.2 (d + 1) ObjectPos))
          (filter (λ e, isOmitted e.2 = false) (sortEntries entries))) as ->.
    { rewrite <-sortEntries_filter, <-(sortEntries_map (λ x, emitCanonicalJson x (d + 1) ObjectPos)). f_equal.
      clear. induction entries as [|[k x] entries IHl]; [done|]. simpl. rewrite !filter_cons. simpl.
      case_decide; simpl; by rewrite IHl. }
    rewrite (sortEntries_map (λ x, normalize x (d + 1)) entries).
    assert (Forall (λ e, negb (isArrayIndex e.1) && noIndexKeys e.2 = true) (sortEntries entries)) as Hks.
    { rewrite sortEntries_perm. apply Forall_forall. intros e He.
      simpl in Hk. rewrite forallb_forall in Hk. apply Hk. by apply list_elem_of_In. }
    opose proof (seq_entries_text d (sortEntries entries) _) as G.
    { rewrite sortEntries_perm. rewrite sortEntries_perm in Hks. rewrite Forall_forall in *.
      intros e He Hoe. apply IH; [done| |done]. specialize (Hks e He). by apply andb_true_iff in Hks as [_ ?]. }
    revert G. destruct (seq_entries (map _ (filter _ _))) as [parts|] eqn:Ep,
      (seq_entries (map _ (sortEntries entries))) as [es|] eqn:Ees;
      cbn [fmap res_fmap mbind res_bind]; try congruence.
    intros G%Ok_inj. f_equal. cbn [stringify default]. 
    rewrite fromEntries_id.
    + rewrite !concat_app, concat_comma, map_map.
      erewrite map_ext with (l := parts); [by rewrite G|].
      intros p. cbn beta. rewrite concat_app, writeCanonicalString_concat. done.
    + clear - Ees Hks. revert es Ees. unfold seq_entries.
      induction Hks as [|[k x] L Hx HL IHl]; intros es Ees; simpl in Ees; res_inv; [constructor|].
      constructor; [|by apply IHl]. apply andb_true_iff in Hx as [Hx _]. by apply negb_true_iff in Hx.
Qed.

(** ** Every fragment starts at a character boundary *)

Lemma lit_starts (s : string) : starts_char (lit s).
Proof.
  destruct s as [|c s]; intros v; [done|].
  change (lit (String c s)) with (Z.of_N (Ascii.N_of_ascii c) :: lit s). cbn [head].
  intros Hv. apply (inj Some) in Hv as <-. pose proof (Ascii.N_ascii_bounded c). unfold isTrail. lia.
Qed.

Lemma comma_separated_starts (groups : list (list units)) :
  Forall (Forall starts_char) groups → Forall starts_char (comma_separated groups).
Proof.
  induction 1 as [|g groups Hg Hgs IH]; [constructor|].
  destruct groups as [|h groups]; [done|]. change (comma_separated (g :: h :: groups))
    with (g ++ [lit ","] ++ comma_separated (h :: groups)).
  rewrite !Forall_app. repeat split; try done. constructor; [apply lit_starts|constructor].
Qed.

Lemma number_units_starts (n : jsnum) : starts_char (number_units n).
Proof. destruct n; apply lit_starts. Qed.

Lemma res_seq_Forall {A} (P : A → Prop) (l : list (res A)) (xs : list A) :
  Forall (λ r, ∀ x, r = Ok x → P x) l → res_seq l = Ok xs → Forall P xs.
Proof.
  intros Hl. revert xs. induction Hl as [|r l Hr Hl IH]; intros xs Hs; simpl in Hs; res_inv.
  - constructor.
  - constructor; eauto.
Qed.

Lemma emit_starts (v : jsval units) (d : Z) (pos : position) (fs : list units) :
  emitCanonicalJson v d pos = Ok fs → Forall starts_char fs.
Proof.
  revert d pos fs. induction v as [| | |b|n|s|items IH|entries IH] using jsval_ind'; intros d pos fs;
    cbn [emitCanonicalJson]; intros Hv.
  - destruct pos; res_inv. repeat constructor. apply lit_starts.
  - destruct pos; res_inv. repeat constructor. apply lit_starts.
  - apply Ok_inj in Hv as <-. repeat constructor. apply lit_starts.
  - apply Ok_inj in Hv as <-. repeat constructor. apply lit_starts.
  - apply res_bind_Ok in Hv as (? & _ & Hv). apply Ok_inj in Hv as <-.
    repeat constructor. apply number_units_starts.
  - apply Ok_inj in Hv as <-. apply writeCanonicalString_starts.
  - apply res_bind_Ok in Hv as (? & _ & Hv). apply res_bind_Ok in Hv as (parts & Hp & Hv).
    apply Ok_inj in Hv as <-. rewrite !Forall_app. repeat split; try (constructor; [apply lit_starts|constructor]).
    apply comma_separated_starts. eapply res_seq_Forall; [|exact Hp].
    apply Forall_map. eapply Forall_impl; [exact IH|]. intros y Hy fs Hfs.
    destruct (isOmitted y); [|by eapply Hy]. apply Ok_inj in Hfs as <-. repeat constructor. apply lit_starts.
  - apply res_bind_Ok in Hv as (? & _ & Hv). apply res_bind_Ok in Hv as (parts & Hp & Hv).
    apply Ok_inj in Hv as <-. rewrite !Forall_app. repeat split; try (constructor; [apply lit_starts|constructor]).
    apply comma_separated_starts. apply Forall_map.
    assert (Forall (λ p : units * list units, Forall starts_char p.2) parts) as Hps.
    { eapply res_seq_Forall; [|exact Hp]. apply Forall_map. unfold compose. rewrite sortEntries_perm.
      apply Forall_forall. intros e He. apply list_elem_of_fmap in He as (e1 & -> & He).
      apply list_elem_of_filter in He as [_ He]. apply list_elem_of_fmap in He as ([k v] & -> & He).
      rewrite Forall_forall in IH. specialize (IH _ He). intros [k' fs] Hfs. cbn [fst snd] in *.
      apply res_bind_Ok in Hfs as (fs' & Hfs & Heq). apply Ok_inj in Heq as [= <- <-]. eauto. }
    eapply Forall_impl; [exact Hps|]. intros [k fs] Hfs. unfold compose. cbn [fst snd] in *.
    rewrite !Forall_app. repeat split; [apply writeCanonicalString_starts| |done].
    constructor; [apply lit_starts|constructor].
Qed.

Lemma foldl_length_concat {A} (g : A → list Z) (l : list A) (n : Z) :
  foldl (λ n x, n + zlen (g x)) n l = n + zlen (concat (map g l)).
Proof.
  revert n. induction l as [|x l IH]; intros n; simpl; [unfold zlen; simpl; lia|].
  rewrite IH. unfold zlen. rewrite length_app. lia.
Qed.

(** C38. The streaming digest of a value is the length and the hash of the UTF-8 bytes
    of its canonical JSON, and it fails exactly when canonical JSON fails, with
    the same error. This is for values that JSON does not omit (undefined and the
    like) and whose objects, at any depth, have no member named by an array index:
    such members JSON puts in front while the digest keeps them sorted, and the
    two differ ([index_keys_diverge]). *)
Theorem canonicalJsonDigest_correct (sha256 : list Z → string) (v : jsval units) :
  noIndexKeys v = true → isOmitted v = false →
  canonicalJsonDigest sha256 v =
    (text ← canonicalJson v;
     let bytes := utf8 (default [] text) in Ok (zlen bytes, sha256 bytes)).
Proof.
  intros Hk Ho. pose proof (emit_normalize v 0 RootPos Hk Ho) as H.
  unfold canonicalJsonDigest, canonicalJson. unfold text_of, norm_text in H. revert H.
  destruct (emitCanonicalJson v 0 RootPos) as [fs|m] eqn:Ee, (normalize v 0) as [n|m'] eqn:En;
    cbn [fmap res_fmap mbind res_bind]; try congruence.
  intros H%Ok_inj. pose proof (normalize_omitted v n 0 En) as Hn. rewrite Ho in Hn.
  destruct (stringify n) as [t|] eqn:Es; [|by apply omitted_stringify in Es; congruence].
  cbn [default] in *. rewrite foldl_length_concat, <-utf8_concat by (by eapply emit_starts).
  by rewrite H.
Qed.

Lemma canonicalJsonDigest_correct_witness :
  canonicalJsonDigest (λ b, pretty (zlen b)) (JObj [(lit "b", JNum (JInt 2)); (lit "a", JStr [55357; 56832; 10])])
  = Ok (20, "20").
Proof. rewrite canonicalJsonDigest_correct; vm_compute; reflexivity. Defined.

(** ** The encoding does not depend on the order of object members *)

(** [reordered v w]: [w] is [v] with the members of its objects, at any depth,
    in another order.  The keys of a JavaScript object are distinct. *)
Inductive reordered : jsval units → jsval units → Prop :=
| reordered_refl v : reordered v v
| reordered_arr items items' :
    Forall2 reordered items items' → reordered (JArr items) (JArr items')
| reordered_obj entries shuffled entries' :
    NoDup entries.*1 → entries ≡ₚ shuffled →
    Forall2 (λ e e', e.1 = e'.1 ∧ reordered e.2 e'.2) shuffled entries' →
    reordered (JObj entries) (JObj entries').

Lemma normalize_reordered (v w : jsval units) (d : Z) :
  reordered v w → normalize v d = normalize w d.
Proof.
  revert w d. induction v as [| | |b|n|s|items IH|entries IH] using jsval_ind'; intros w d Hr;
    inversion Hr as [|? items' Hi|? shuffled entries' Hnd Hp Hf]; subst; try done; cbn [normalize].
  - destruct (assertCanonicalContainerBoundary d); [|done].
    cbn [mbind res_bind]. f_equal. f_equal. clear Hr.
    revert items' Hi. induction IH as [|x items Hx HIH IHl]; intros items' Hi; inversion Hi; subst; [done|].
    simpl. f_equal; eauto.
  - destruct (assertCanonicalContainerBoundary d); [|done]. cbn [mbind res_bind]. f_equal. f_equal.
    transitivity (sortEntries (map (λ e, (e.1, normalize e.2 (d + 1))) shuffled)).
    + apply sortEntries_unique; [|by apply Permutation_map].
      rewrite <-list_fmap_compose. exact Hnd.
    + f_equal. rewrite Hp in IH. clear - IH Hf. induction Hf as [|[k x] [k' y] l l' [Hk Hxy] Hf IHl]; [done|].
      apply Forall_cons in IH as [Hx IH]. simpl in *. subst k'. f_equal; [|by apply IHl].
      f_equal. by apply Hx.
Qed.

(** Two values that differ only in the order in which the members of their
    objects were added have the same canonical JSON, errors included. *)
Theorem canonicalJson_order_independent (v w : jsval units) :
  reordered v w → canonicalJson v = canonicalJson w.
Proof. intros H. unfold canonicalJson. by rewrite (normalize_reordered v w 0 H). Qed.

Lemma canonicalJson_order_independent_witness :
  canonicalJson (JObj [(lit "nonce", JNum (JInt 1)); (lit "from", JNull)]) =
  canonicalJson (JObj [(lit "from", JNull); (lit "nonce", JNum (JInt 1))]).
Proof.
  apply canonicalJson_order_independent.
  eapply reordered_obj; [|apply Permutation_swap|].
  - cbn. repeat constructor; set_solver.
  - repeat constructor.
Defined.

(** ** Array-index keys

    [Object.fromEntries] enumerates array-index keys first and in numeric
    order, so for an object with the keys "10" and "2" the text that is hashed
    by [canonicalJson] and the text hashed by [canonicalJsonDigest] differ. *)
Definition index_key_object : jsval units :=
  JObj [(lit "10", JNum (JInt 1)); (lit "2", JNum (JInt 2))].

Lemma index_keys_diverge :
  canonicalJson index_key_object = Ok (Some ([123] ++ json_quote (lit "2") ++ lit ":2," ++ json_quote (lit "10") ++ lit ":1}"))
  ∧ (λ fs, concat fs) <$> emitCanonicalJson index_key_object 0 RootPos
    = Ok ([123] ++ json_quote (lit "10") ++ lit ":1," ++ json_quote (lit "2") ++ lit ":2}").
Proof. split; vm_compute; reflexivity. Qed.
