(* ===== verification/JsonText.v ===== *)
(** [JSON.parse] as the storage layers use it (ECMA-262 25.5.1): reading back the
    text that [canonicalJson] (l1/src/codec.ts) wrote.

    The parser works on UTF-16 code units.  A number literal is read exactly:
    what a double cannot hold exactly is outside the safe range, or has a
    fraction, and every reader of stored text refuses it. *)

From S2P Require Import Prelude Codec.

Definition SYNTAX_ERROR : string := "SyntaxError: JSON.parse".

(** ** Lexical elements *)

Definition isJsonSpace (u : Z) : bool := (u =? 32) || (u =? 9) || (u =? 10) || (u =? 13).

Fixpoint skip_space (t : units) : units :=
  match t with
  | u :: t' => if isJsonSpace u then skip_space t' else t
  | [] => []
  end.

(** [t] without the literal [p] in front. *)
Fixpoint strip (p t : units) : option units :=
  match p, t with
  | [], _ => Some t
  | a :: p', b :: t' => if a =? b then strip p' t' else None
  | _ :: _, [] => None
  end.

Definition hexUnit (u : Z) : option Z :=
  if (48 <=? u) && (u <=? 57) then Some (u - 48)
  else if (97 <=? u) && (u <=? 102) then Some (u - 87)
  else if (65 <=? u) && (u <=? 70) then Some (u - 55)
  else None.

Definition escape_unit (u : Z) : option Z :=
  if u =? 98 then Some 8 else if u =? 116 then Some 9 else if u =? 110 then Some 10
  else if u =? 102 then Some 12 else if u =? 114 then Some 13
  else if (u =? 34) || (u =? 92) || (u =? 47) then Some u else None.

(** The rest of a string literal, after the opening quote. *)
Fixpoint string_body (t : units) : option (units * units) :=
  match t with
  | [] => None
  | u :: t1 =>
    if u =? 34 then Some ([], t1)
    else if u =? 92 then
      match t1 with
      | e :: t2 =>
        if e =? 117 then
          match t2 with
          | a :: b :: c :: d :: t3 =>
            match hexUnit a, hexUnit b, hexUnit c, hexUnit d with
            | Some a, Some b, Some c, Some d =>
              prod_map (cons (a * 4096 + b * 256 + c * 16 + d)) id <$> string_body t3
            | _, _, _, _ => None
            end
          | _ => None
          end
        else match escape_unit e with
             | Some x => prod_map (cons x) id <$> string_body t2
             | None => None
             end
      | [] => None
      end
    else if u <? 32 then None
    else prod_map (cons u) id <$> string_body t1
  end.

Fixpoint span_digits (t : units) : units * units :=
  match t with
  | u :: t' => if isDigit u then prod_map (cons u) id (span_digits t') else ([], t)
  | [] => ([], [])
  end.

(** The integer part: ["0"] or digits without a leading zero. *)
Definition int_part (t : units) : option (units * units) :=
  match span_digits t with
  | ([], _) => None
  | (d :: ds, rest) => if d =? 48 then Some ([48], ds ++ rest) else Some (d :: ds, rest)
  end.

Definition frac_part (t : units) : option (units * units) :=
  match t with
  | 46 :: t' => match span_digits t' with ([], _) => None | (ds, rest) => Some (ds, rest) end
  | _ => Some ([], t)
  end.

Definition exp_part (t : units) : option (Z * units) :=
  match t with
  | u :: t1 =>
    if (u =? 101) || (u =? 69) then
      let '(sign, t2) := match t1 with
                         | 43 :: t2 => (1, t2)
                         | 45 :: t2 => (-1, t2)
                         | _ => (1, t1)
                         end in
      match span_digits t2 with ([], _) => None | (ds, rest) => Some (sign * digits_value ds, rest) end
    else Some (0, t)
  | [] => Some (0, [])
  end.

(** [mantissa * 10 ^ exponent]; above the range of a double it is infinite. *)
Definition number_value (negative : bool) (mantissa exponent : Z) : jsnum :=
  if mantissa =? 0 then (if negative then JNegZero else JInt 0)
  else
    let sign := if negative then -1 else 1 in
    if 0 <=? exponent then (if 400 <? exponent then JFrac else JInt (sign * mantissa * 10 ^ exponent))
    else if (exponent <? -400) || negb (mantissa mod 10 ^ (- exponent) =? 0) then JFrac
    else JInt (sign * (mantissa / 10 ^ (- exponent))).

Definition parse_number (t : units) : option (jsnum * units) :=
  let '(negative, t1) := match t with 45 :: t' => (true, t') | _ => (false, t) end in
  '(ds, t2) ← int_part t1;
  '(fs, t3) ← frac_part t2;
  '(e, t4) ← exp_part t3;
  Some (number_value negative (digits_value (ds ++ fs)) (e - zlen fs), t4).

(** ** Values *)

(** [CreateDataProperty]: a repeated name keeps its place and takes the new value. *)
Fixpoint set_member {V} (entries : list (units * V)) (k : units) (v : V) : list (units * V) :=
  match entries with
  | [] => [(k, v)]
  | e :: rest => if bool_decide (e.1 = k) then (k, v) :: rest else e :: set_member rest k v
  end.
Definition make_object (members : list (units * jsval units)) : jsval units :=
  JObj (fromEntries (foldl (λ o m, set_member o m.1 m.2) [] members)).

(** A value, the elements after [\[] or [,], and the members after [{] or [,];
    [fuel] is at least the number of code units left. *)
Fixpoint parse_value (fuel : nat) (t : units) : option (jsval units * units) :=
  match fuel with
  | O => None
  | S fuel' =>
    match skip_space t with
    | 34 :: t1 => '(s, r) ← string_body t1; Some (JStr s, r)
    | 91 :: t1 =>
      match skip_space t1 with
      | 93 :: r => Some (JArr [], r)
      | t2 => '(items, r) ← parse_items fuel' t2; Some (JArr items, r)
      end
    | 123 :: t1 =>
      match skip_space t1 with
      | 125 :: r => Some (make_object [], r)
      | t2 => '(members, r) ← parse_members fuel' t2; Some (make_object members, r)
      end
    | t1 =>
      match strip (lit "null") t1, strip (lit "true") t1, strip (lit "false") t1 with
      | Some r, _, _ => Some (JNull, r)
      | _, Some r, _ => Some (JBool true, r)
      | _, _, Some r => Some (JBool false, r)
      | _, _, _ => '(n, r) ← parse_number t1; Some (JNum n, r)
      end
    end
  end
with parse_items (fuel : nat) (t : units) : option (list (jsval units) * units) :=
  match fuel with
  | O => None
  | S fuel' =>
    '(v, r) ← parse_value fuel' t;
    match skip_space r with
    | 93 :: r' => Some ([v], r')
    | 44 :: r' => '(vs, r'') ← parse_items fuel' r'; Some (v :: vs, r'')
    | _ => None
    end
  end
with parse_members (fuel : nat) (t : units) : option (list (units * jsval units) * units) :=
  match fuel with
  | O => None
  | S fuel' =>
    match skip_space t with
    | 34 :: t1 =>
      '(k, r) ← string_body t1;
      match skip_space r with
      | 58 :: r1 =>
        '(v, r2) ← parse_value fuel' r1;
        match skip_space r2 with
        | 125 :: r3 => Some ([(k, v)], r3)
        | 44 :: r3 => '(ms, r4) ← parse_members fuel' r3; Some ((k, v) :: ms, r4)
        | _ => None
        end
      | _ => None
      end
    | _ => None
    end
  end.

Definition JSON_parse (t : units) : res (jsval units) :=
  match parse_value (2 * length t + 2) t with
  | Some (v, r) => match skip_space r with [] => Ok v | _ => Throw SYNTAX_ERROR end
  | None => Throw SYNTAX_ERROR
  end.

(** ** Reading back what was written *)

(** A code unit. *)
Definition unit_range (u : Z) : Prop := 0 ≤ u < 65536.

(** What may follow a value inside a text. *)
Definition ends (r : units) : Prop := head r = None ∨ head r = Some 44 ∨ head r = Some 93 ∨ head r = Some 125.

Lemma strip_app (p r : units) : strip p (p ++ r) = Some r.
Proof. induction p as [|a p IH]; simpl; [done|]. by rewrite Z.eqb_refl. Qed.

Lemma hexUnit_digit (d : Z) : 0 ≤ d < 16 → hexUnit (hex_digit d) = Some d.
Proof. intros Hd. unfold hexUnit, hex_digit. repeat case_if; breflect; try lia; f_equal; lia. Qed.

Lemma string_body_escape (u : Z) (t : units) :
  unit_range u → string_body (unicode_escape u ++ t) = prod_map (cons u) id <$> string_body t.
Proof.
  intros Hu. unfold unit_range in Hu.
  change (unicode_escape u ++ t) with
    (92 :: 117 :: hex_digit (u / 4096 mod 16) :: hex_digit (u / 256 mod 16) :: hex_digit (u / 16 mod 16)
      :: hex_digit (u mod 16) :: t).
  cbn [string_body]. rewrite !hexUnit_digit by (apply Z.mod_pos_bound; lia). cbn.
  replace (_ + _) with u; [done|]. Z.div_mod_to_equations. lia.
Qed.

Lemma string_body_plain (u : Z) (t : units) :
  32 ≤ u → u ≠ 34 → u ≠ 92 → string_body (u :: t) = prod_map (cons u) id <$> string_body t.
Proof.
  intros ? ? ?. cbn [string_body].
  rewrite (proj2 (Z.eqb_neq u 34)), (proj2 (Z.eqb_neq u 92)) by done. by rewrite (proj2 (Z.ltb_ge u 32)) by lia.
Qed.

Lemma string_body_unit (u : Z) (t : units) :
  unit_range u → string_body (quote_unit u ++ t) = prod_map (cons u) id <$> string_body t.
Proof.
  intros Hu. unfold quote_unit. repeat case_if; breflect; subst; try done.
  - by apply string_body_escape.
  - by apply string_body_escape.
  - by apply string_body_plain.
Qed.

Lemma string_body_quote (s r : units) :
  Forall unit_range s → string_body (quote_body s ++ 34 :: r) = Some (s, r).
Proof.
  remember (length s) as n eqn:Hn. assert (length s ≤ n)%nat as Hle by lia. clear Hn. revert s Hle.
  induction n as [|n IH]; intros [|u [|v s]] Hle Hs; try done; simpl in Hle; try lia.
  - apply Forall_cons in Hs as [Hu _]. change (quote_body [u]) with (quote_unit u). by rewrite string_body_unit.
  - apply Forall_cons in Hs as [Hu Hs].
    change (quote_body (u :: v :: s)) with
      (if isLead u && isTrail v then [u; v] ++ quote_body s else quote_unit u ++ quote_body (v :: s)).
    destruct (isLead u && isTrail v) eqn:E.
    + apply Forall_cons in Hs as [Hv Hs]. unfold isLead, isTrail in E. breflect.
      cbn [app]. rewrite !string_body_plain by lia. rewrite IH by (done || lia). done.
    + rewrite <-app_assoc, string_body_unit by done. rewrite IH by (done || (simpl; lia)). done.
Qed.

(** *** Decimal text *)

Lemma digits_value_from (s : units) (acc : Z) :
  fold_left (λ acc d, acc * 10 + (d - 48)) s acc = acc * 10 ^ zlen s + digits_value s.
Proof.
  unfold digits_value. revert acc. induction s as [|d s IH]; intros acc; cbn [fold_left].
  - unfold zlen. simpl. lia.
  - rewrite IH, (IH (0 * 10 + _)). unfold zlen. cbn [length].
    rewrite Nat2Z.inj_succ, Z.pow_succ_r by lia. lia.
Qed.

Lemma pretty_char_unit (x : N) :
  (x < 10)%N → Z.of_N (Ascii.N_of_ascii (pretty_N_char x)) = 48 + Z.of_N x.
Proof.
  intros Hx. assert (x = 0 ∨ x = 1 ∨ x = 2 ∨ x = 3 ∨ x = 4 ∨ x = 5 ∨ x = 6 ∨ x = 7 ∨ x = 8 ∨ x = 9)%N as H by lia.
  naive_solver.
Qed.

(** The digits of a positive number, with no leading zero. *)
Definition decimal_of (z : Z) (t : units) : Prop :=
  digits_value t = z ∧ Forall (λ u, isDigit u = true) t ∧ ∃ d t', t = d :: t' ∧ d ≠ 48.

Lemma pretty_go_decimal (x : N) (s : string) :
  (0 < x)%N → ∃ t, lit (pretty_N_go x s) = t ++ lit s ∧ decimal_of (Z.of_N x) t.
Proof.
  revert s. induction (N.lt_wf_0 x) as [x _ IH]; intros s Hx.
  rewrite pretty_N_go_step by done.
  assert (x mod 10 < 10)%N as Hm by (apply N.mod_lt; lia).
  pose proof (pretty_char_unit _ Hm) as Hc.
  assert (isDigit (48 + Z.of_N (x mod 10)) = true) as Hd.
  { unfold isDigit. generalize dependent (x mod 10)%N. intros y Hy _. apply andb_true_iff. split; apply Z.leb_le; lia. }
  destruct (decide (x < 10)%N) as [Hs|Hs].
  - rewrite N.div_small by done. rewrite pretty_N_go_0. exists [48 + Z.of_N (x mod 10)].
    rewrite N.mod_small in * by done. split; [|split_and!].
    + unfold lit. cbn. by rewrite Hc.
    + unfold digits_value. cbn [fold_left]. lia.
    + by constructor.
    + eexists _, _. split; [done|]. lia.
  - destruct (IH (x / 10)%N) with (s := String (pretty_N_char (x mod 10)) s) as (t & Ht & Hv & Hall & d & t' & -> & Hd0).
    { apply N.div_lt; lia. }
    { apply N.div_str_pos. lia. }
    rewrite Ht. exists ((d :: t') ++ [48 + Z.of_N (x mod 10)]). split; [|split_and!].
    + unfold lit. cbn. rewrite Hc. by rewrite <-app_assoc.
    + unfold digits_value in *. rewrite fold_left_app, Hv. cbn [fold_left].
      rewrite N2Z.inj_div, N2Z.inj_mod. change (Z.of_N 10) with 10. Z.div_mod_to_equations. lia.
    + apply Forall_app. split; [done|by constructor].
    + eexists _, _. split; [done|]. done.
Qed.

Lemma span_digits_app (ds r : units) :
  Forall (λ u, isDigit u = true) ds → from_option isDigit false (head r) = false → span_digits (ds ++ r) = (ds, r).
Proof.
  intros Hds Hr. induction Hds as [|d ds Hd _ IH]; cbn.
  - destruct r as [|u r]; [done|]. cbn in *. by rewrite Hr.
  - by rewrite Hd, IH.
Qed.

(** The number token [ds], which is ["0"] or has no leading zero. *)
Lemma parse_number_token (negative : bool) (ds r : units) :
  Forall (λ u, isDigit u = true) ds → ds = [48] ∨ (∃ d t, ds = d :: t ∧ d ≠ 48) → ends r →
  parse_number ((if negative then [45] else []) ++ ds ++ r) = Some (number_value negative (digits_value ds) 0, r).
Proof.
  intros Hds Hz Hr.
  assert (from_option isDigit false (head r) = false) as Hnd by (by destruct Hr as [->|[->|[->| ->]]]).
  assert (int_part (ds ++ r) = Some (ds, r)) as Hint.
  { unfold int_part. rewrite span_digits_app by done. destruct Hz as [->|(d & t & -> & Hd)]; [done|].
    by rewrite (proj2 (Z.eqb_neq d 48)) by done. }
  assert (frac_part r = Some ([], r) ∧ exp_part r = Some (0, r)) as [Hf He].
  { destruct r as [|u r]; [done|]. cbn in Hr. destruct Hr as [[=]|[[= ->]|[[= ->]|[= ->]]]]; done. }
  unfold parse_number. destruct negative; cbn [app].
  - rewrite Hint. cbn. rewrite Hf. cbn. rewrite He. cbn. by rewrite app_nil_r.
  - assert (match ds ++ r with 45 :: t' => (true, t') | _ => (false, ds ++ r) end = (false, ds ++ r)) as ->.
    { destruct Hz as [->|(d & t & -> & _)]; [done|]. apply Forall_cons in Hds as [Hd _].
      cbn. unfold isDigit in Hd. breflect. destruct d as [|d|d]; try done. do 6 (destruct d; try done); lia. }
    rewrite Hint. cbn. rewrite Hf. cbn. rewrite He. cbn. by rewrite app_nil_r.
Qed.

Lemma number_value_0 (negative : bool) (m : Z) :
  0 < m → number_value negative m 0 = JInt (if negative then - m else m).
Proof.
  intros Hm. unfold number_value. rewrite (proj2 (Z.eqb_neq m 0)) by lia. cbn. f_equal. destruct negative; lia.
Qed.

Lemma parse_number_units (z : Z) (r : units) :
  ends r → parse_number (number_units (JInt z) ++ r) = Some (JInt z, r).
Proof.
  intros Hr. cbn [number_units]. destruct z as [|p|p].
  - apply (parse_number_token false [48] r); [by constructor|by left|done].
  - destruct (pretty_go_decimal (N.pos p) "") as (t & Ht & Hv & Hall & Hd); [lia|]. rewrite app_nil_r in Ht.
    change (lit (pretty (Z.pos p))) with (lit (pretty_N_go (N.pos p) "")). rewrite Ht.
    change (t ++ r) with ([] ++ t ++ r).
    etrans; [exact (parse_number_token false t r Hall (or_intror Hd) Hr)|]. rewrite Hv. by rewrite number_value_0 by lia.
  - destruct (pretty_go_decimal (N.pos p) "") as (t & Ht & Hv & Hall & Hd); [lia|]. rewrite app_nil_r in Ht.
    change (lit (pretty (Z.neg p))) with ([45] ++ lit (pretty_N_go (N.pos p) "")). rewrite Ht, <-app_assoc.
    etrans; [exact (parse_number_token true t r Hall (or_intror Hd) Hr)|]. rewrite Hv. by rewrite number_value_0 by lia.
Qed.

(** *** Values *)

(** What the text of a value keeps of it: members and elements that are
    [undefined], and the sign of zero, are lost. *)
Fixpoint erase (v : jsval units) : jsval units :=
  match v with
  | JNum JNegZero => JNum (JInt 0)
  | JArr items => JArr (map (λ i, if isOmitted i then JNull else erase i) items)
  | JObj entries => JObj (filter (λ e, isOmitted e.2 = false) (map (λ e, (e.1, erase e.2)) entries))
  | _ => v
  end.

(** A value as [normalize] leaves it: safe numbers, code units, members in
    enumeration order with distinct names. *)
Fixpoint normal (v : jsval units) : Prop :=
  match v with
  | JNum n => num_isSafe n = true
  | JStr s => Forall unit_range s
  | JArr items => foldr (λ i P, normal i ∧ P) True items
  | JObj entries =>
    NoDup entries.*1 ∧ fromEntries entries = entries ∧ foldr (λ e P, Forall unit_range e.1 ∧ normal e.2 ∧ P) True entries
  | _ => True
  end.

Lemma set_member_fresh {V} (o : list (units * V)) (k : units) (v : V) :
  k ∉ o.*1 → set_member o k v = o ++ [(k, v)].
Proof.
  induction o as [|[k' v'] o IH]; [done|]. csimpl. intros Hn. apply not_elem_of_cons in Hn as [Hk Hn].
  rewrite bool_decide_eq_false_2 by done. by rewrite IH.
Qed.

Lemma foldl_set_member {V} (l o : list (units * V)) :
  NoDup (o ++ l).*1 → foldl (λ o m, set_member o m.1 m.2) o l = o ++ l.
Proof.
  revert o. induction l as [|[k v] l IH]; intros o Hnd; cbn [foldl fst snd].
  - by rewrite app_nil_r.
  - rewrite set_member_fresh.
    + rewrite IH; [by rewrite <-app_assoc|]. by rewrite <-app_assoc.
    + rewrite fmap_app in Hnd. apply NoDup_app in Hnd as (_ & Hd & _). intros Hin. apply (Hd k Hin). csimpl. left.
Qed.

Lemma fromEntries_map {V W} (f : V → W) (l : list (units * V)) :
  fromEntries (map (λ e, (e.1, f e.2)) l) = map (λ e, (e.1, f e.2)) (fromEntries l).
Proof.
  unfold fromEntries. rewrite map_app. f_equal.
  - rewrite <-(js_sort_fmap (λ a b, digits_value a.1 <=? digits_value b.1) (λ a b, digits_value a.1 <=? digits_value b.1)) by done.
    f_equal. induction l as [|e l IH]; [done|]. cbn [map]. rewrite !filter_cons. cbn [fst].
    destruct (decide (isArrayIndex e.1 = true)); csimpl; [by f_equal|done].
  - induction l as [|e l IH]; [done|]. cbn [map]. rewrite !filter_cons. cbn [fst].
    destruct (decide (isArrayIndex e.1 = false)); csimpl; [by f_equal|done].
Qed.

Lemma filter_comm {A} (P Q : A → Prop) `{∀ x, Decision (P x)} `{∀ x, Decision (Q x)} (l : list A) :
  filter P (filter Q l) = filter Q (filter P l).
Proof.
  induction l as [|x l IH]; [done|]. rewrite !filter_cons.
  destruct (decide (P x)), (decide (Q x)); rewrite ?filter_cons; repeat case_decide; try done; by rewrite IH.
Qed.

Lemma fromEntries_filter {V} (P : units * V → Prop) `{∀ x, Decision (P x)} (l : list (units * V)) :
  fromEntries (filter P l) = filter P (fromEntries l).
Proof.
  unfold fromEntries. rewrite filter_app. f_equal; [|apply filter_comm].
  rewrite filter_js_sort; [by rewrite filter_comm| |].
  - intros x y. rewrite !Z.leb_gt, Z.leb_le. lia.
  - intros x y z. rewrite !Z.leb_le. lia.
Qed.

Lemma filter_map_members (f : jsval units → jsval units) (l : list (units * jsval units)) :
  (∀ v, isOmitted (f v) = isOmitted v) →
  filter (λ e, isOmitted e.2 = false) (map (λ e, (e.1, f e.2)) l) =
  map (λ e, (e.1, f e.2)) (filter (λ e, isOmitted e.2 = false) l).
Proof.
  intros Hf. induction l as [|e l IH]; [done|]. cbn [map]. rewrite !filter_cons. cbn [snd fst]. rewrite Hf, IH.
  by case_decide.
Qed.

Lemma erase_omitted (v : jsval units) : isOmitted (erase v) = isOmitted v.
Proof. by destruct v as [| | | |[]| | |]. Qed.

Lemma filter_keys_NoDup {V} (P : units * V → Prop) `{∀ x, Decision (P x)} (l : list (units * V)) :
  NoDup l.*1 → NoDup (filter P l).*1.
Proof.
  induction l as [|e l IH]; [done|]. csimpl. intros [Hn Hnd]%NoDup_cons.
  rewrite filter_cons. case_decide; csimpl; [|auto]. constructor; [|auto].
  intros (x & Hx & Hin)%list_elem_of_fmap. apply list_elem_of_filter in Hin as [_ Hin].
  apply Hn. rewrite Hx. by apply list_elem_of_fmap_2.
Qed.

Lemma map_keys {V W} (f : V → W) (l : list (units * V)) : (map (λ e, (e.1, f e.2)) l).*1 = l.*1.
Proof. induction l as [|e l IH]; [done|]. csimpl. by f_equal. Qed.

Lemma normal_members (entries : list (units * jsval units)) :
  normal (JObj entries) →
  make_object (filter (λ e, isOmitted e.2 = false) (map (λ e, (e.1, erase e.2)) entries)) = erase (JObj entries).
Proof.
  intros (Hnd & Hid & _). unfold make_object.
  rewrite (foldl_set_member _ []) by (apply filter_keys_NoDup; by rewrite map_keys).
  cbn [app]. by rewrite fromEntries_filter, fromEntries_map, Hid.
Qed.

(** The texts joined inside a container. *)
Lemma skip_space_head (u : Z) (t : units) : isJsonSpace u = false → skip_space (u :: t) = u :: t.
Proof. cbn. by intros ->. Qed.

(** The first code unit of the text of a value. *)
Definition opens (u : Z) : Prop :=
  u ∈ [34; 91; 123; 110; 116; 102; 45] ∨ 48 ≤ u ≤ 57.

Lemma text_opens (v : jsval units) (t : units) :
  normal v → stringify v = Some t → ∃ u t', t = u :: t' ∧ opens u.
Proof.
  destruct v as [| | |b|n|s|items|entries]; intros Hn [= <-].
  - exists 110. eexists. split; [done|]. left. set_solver.
  - destruct b; [exists 116|exists 102]; (eexists; split; [done|]; left; set_solver).
  - destruct n as [z| |]; [|exists 48; eexists; split; [done|]; right; lia|done].
    destruct z as [|p|p].
    + exists 48. eexists. split; [done|]. right. lia.
    + destruct (pretty_go_decimal (N.pos p) "") as (t & Ht & Hv & Hall & d & t' & -> & Hd); [lia|].
      change (number_units (JInt (Z.pos p))) with (lit (pretty_N_go (N.pos p) "")). rewrite Ht.
      eexists _, _. split; [done|]. right. apply Forall_cons in Hall as [Hdig _]. unfold isDigit in Hdig. breflect. lia.
    + exists 45. eexists. split; [done|]. left. set_solver.
  - exists 34. eexists. split; [done|]. left. set_solver.
  - exists 91. eexists. split; [done|]. left. set_solver.
  - exists 123. eexists. split; [done|]. left. set_solver.
Qed.

Lemma opens_cases (u : Z) : opens u →
  isJsonSpace u = false ∧ u ≠ 93 ∧ u ≠ 125.
Proof.
  unfold opens, isJsonSpace. rewrite !elem_of_cons, elem_of_nil. intros Hu. split; [|lia].
  repeat rewrite orb_false_iff. repeat rewrite Z.eqb_neq. lia.
Qed.

(** [t] is read as [v] in front of whatever may follow a value. *)
Definition reads (t : units) (v : jsval units) : Prop :=
  (∃ u t', t = u :: t' ∧ opens u) ∧
  ∀ f r, (length t ≤ f)%nat → ends r → parse_value f (t ++ r) = Some (v, r).

Lemma reads_null : reads (lit "null") JNull.
Proof.
  split; [exists 110; eexists; split; [done|]; left; set_solver|].
  intros [|f] r Hf _; [cbn in Hf; lia|]. done.
Qed.

Lemma reads_number (z : Z) : reads (number_units (JInt z)) (JNum (JInt z)).
Proof.
  assert (∃ u t', number_units (JInt z) = u :: t' ∧ (u = 45 ∨ 48 ≤ u ≤ 57)) as (u & t' & E & Hu).
  { destruct z as [|p|p]; [exists 48; eexists; split; [done|]; lia| |exists 45; eexists; split; [done|]; lia].
    destruct (pretty_go_decimal (N.pos p) "") as (t & Ht & Hv & Hall & d & t' & -> & Hd); [lia|].
    change (number_units (JInt (Z.pos p))) with (lit (pretty_N_go (N.pos p) "")). rewrite Ht.
    eexists _, _. split; [done|]. right. apply Forall_cons in Hall as [Hdig _]. unfold isDigit in Hdig. breflect. lia. }
  split. { exists u, t'. split; [done|]. unfold opens. set_unfold. lia. }
  intros f r Hf Hr. pose proof (parse_number_units z r Hr) as Hp. revert Hp. rewrite E in Hf |- *. cbn [length app] in Hf |- *.
  destruct f as [|f]; [lia|]. intros Hp.
  assert (parse_value (S f) (u :: t' ++ r) = ('(n, r0) ← parse_number (u :: t' ++ r); Some (JNum n, r0))) as ->.
  { assert (u = 45 ∨ u = 48 ∨ u = 49 ∨ u = 50 ∨ u = 51 ∨ u = 52 ∨ u = 53 ∨ u = 54 ∨ u = 55 ∨ u = 56 ∨ u = 57) as Hc by lia.
    clear -Hc. repeat (destruct Hc as [->|Hc]; [reflexivity|]). by subst u. }
  by rewrite Hp.
Qed.

Lemma reads_string (s : units) : Forall unit_range s → reads (json_quote s) (JStr s).
Proof.
  intros Hs. split. { exists 34. eexists. split; [done|]. left. set_solver. }
  intros [|f] r Hf _; [cbn in Hf; lia|].
  change (parse_value (S f) (json_quote s ++ r)) with
    ('(x, r0) ← string_body ((quote_body s ++ [34]) ++ r); Some (JStr x, r0)).
  rewrite <-app_assoc. change ([34] ++ r) with (34 :: r). by rewrite string_body_quote.
Qed.

Lemma ends_comma (r : units) : ends (44 :: r).
Proof. right. by left. Qed.
Lemma ends_bracket (r : units) : ends (93 :: r).
Proof. do 2 right. by left. Qed.
Lemma ends_brace (r : units) : ends (125 :: r).
Proof. by do 3 right. Qed.

Lemma join_cons (p q : units) (ps : list units) : join (lit ",") (p :: q :: ps) = p ++ 44 :: join (lit ",") (q :: ps).
Proof. done. Qed.

Lemma parse_items_join (ps : list (units * jsval units)) (f : nat) (r : units) :
  ps ≠ [] → Forall (λ p, reads p.1 p.2) ps → (length (join (lit ",") ps.*1) < f)%nat →
  parse_items f (join (lit ",") ps.*1 ++ 93 :: r) = Some (ps.*2, r).
Proof.
  revert f. induction ps as [|[t v] ps IH]; intros f Hne Hps Hf; [done|]. clear Hne.
  apply Forall_cons in Hps as [[_ Ht] Hps]. cbn [fst snd] in Ht.
  destruct f as [|f]; [lia|]. destruct ps as [|[t2 v2] ps].
  - cbn [fmap list_fmap join fst] in Hf |- *. cbn [parse_items]. rewrite Ht by (lia || apply ends_bracket). done.
  - cbn [fmap list_fmap fst] in Hf |- *. rewrite join_cons in Hf |- *. rewrite length_app in Hf. cbn [length] in Hf.
    rewrite <-app_assoc. cbn [app]. cbn [parse_items]. rewrite Ht by (lia || apply ends_comma).
    specialize (IH f). cbn [fmap list_fmap fst snd] in IH. 
    transitivity ('(vs, r'') ← parse_items f (join (lit ",") (t2 :: ps.*1) ++ 93 :: r); Some (v :: vs, r'')); [done|].
    by rewrite IH by (done || lia).
Qed.

Definition member_text (k t : units) : units := json_quote k ++ lit ":" ++ t.

Lemma parse_members_join (ps : list (units * (units * jsval units))) (f : nat) (r : units) :
  ps ≠ [] → Forall (λ p, Forall unit_range p.1 ∧ reads p.2.1 p.2.2) ps →
  (length (join (lit ",") (map (λ p, member_text p.1 p.2.1) ps)) < f)%nat →
  parse_members f (join (lit ",") (map (λ p, member_text p.1 p.2.1) ps) ++ 125 :: r) = Some (map (λ p, (p.1, p.2.2)) ps, r).
Proof.
  revert f. induction ps as [|[k [t v]] ps IH]; intros f Hne Hps Hf; [done|]. clear Hne.
  apply Forall_cons in Hps as [[Hk [_ Ht]] Hps]. cbn [fst snd] in Hk, Ht.
  destruct f as [|f]; [lia|].
  assert (∀ rest, parse_members (S f) (member_text k t ++ rest) =
    match parse_value f (t ++ rest) with
    | Some (v, r2) => match skip_space r2 with
        | 125 :: r3 => Some ([(k, v)], r3)
        | 44 :: r3 => '(ms, r4) ← parse_members f r3; Some ((k, v) :: ms, r4)
        | _ => None
        end
    | None => None end) as Hstep.
  { intros rest. unfold member_text. rewrite <-app_assoc.
    change (parse_members (S f) (json_quote k ++ ?x)) with
      ('(k, r) ← string_body ((quote_body k ++ [34]) ++ x);
      match skip_space r with
      | 58 :: r1 =>
        '(v, r2) ← parse_value f r1;
        match skip_space r2 with
        | 125 :: r3 => Some ([(k, v)], r3)
        | 44 :: r3 => '(ms, r4) ← parse_members f r3; Some ((k, v) :: ms, r4)
        | _ => None
        end
      | _ => None
      end).
    rewrite <-app_assoc. change ([34] ++ ?x) with (34 :: x). rewrite string_body_quote by done. cbn [mbind option_bind].
    rewrite <-app_assoc. change (skip_space (lit ":" ++ ?x)) with (58 :: x). reflexivity. }
  assert (length t ≤ length (member_text k t) - 3)%nat as Hlen.
  { unfold member_text, json_quote. rewrite !length_app. cbn. lia. }
  assert (3 ≤ length (member_text k t))%nat as Hlen3.
  { unfold member_text, json_quote. rewrite !length_app. cbn. lia. }
  destruct ps as [|[k2 [t2 v2]] ps].
  - cbn [map fst snd join] in Hf |- *. rewrite Hstep, Ht by (lia || apply ends_brace). done.
  - cbn [map fst snd] in Hf |- *. rewrite join_cons in Hf |- *. rewrite length_app in Hf. cbn [length] in Hf.
    rewrite <-app_assoc. cbn [app]. rewrite Hstep, Ht by (lia || apply ends_comma).
    specialize (IH f). cbn [map fst snd] in IH. 
    transitivity ('(ms, r4) ← parse_members f (join (lit ",") (member_text k2 t2 :: map (λ p, member_text p.1 p.2.1) ps) ++ 125 :: r);
      Some ((k, v) :: ms, r4)); [done|].
    by rewrite IH by (done || lia).
Qed.

Lemma reads_array (ps : list (units * jsval units)) :
  Forall (λ p, reads p.1 p.2) ps → reads (lit "[" ++ join (lit ",") ps.*1 ++ lit "]") (JArr ps.*2).
Proof.
  intros Hps. split. { exists 91. eexists. split; [done|]. left. set_solver. }
  intros [|f] r Hf Hr; [cbn in Hf; lia|].
  rewrite !length_app in Hf. change (length (lit "[")) with 1%nat in Hf. change (length (lit "]")) with 1%nat in Hf.
  rewrite <-!app_assoc. change (lit "]" ++ r) with (93 :: r).
  destruct ps as [|[t v] ps]; [reflexivity|].
  assert (∃ u t', join (lit ",") ((t, v) :: ps).*1 = u :: t' ∧ opens u) as (u & t' & E & Hu).
  { apply Forall_cons in Hps as [[(u & t' & E & Hu) _] _]. cbn [fst] in E. subst t.
    destruct ps as [|[t2 v2] ps]; (eexists _, _; split; [reflexivity|done]). }
  pose proof (parse_items_join ((t, v) :: ps) f r ltac:(discriminate) Hps ltac:(lia)) as Hp. rewrite E in Hp |- *.
  destruct (opens_cases u Hu) as (Hsp & Hu1 & _).
  change (parse_value (S f) (lit "[" ++ ?x)) with
    (match skip_space x with
     | 93 :: r => Some (JArr [], r)
     | t2 => '(items, r) ← parse_items f t2; Some (JArr items, r)
     end).
  cbn [app] in Hp |- *. rewrite skip_space_head by done.
  transitivity ('(items, r) ← parse_items f (u :: t' ++ 93 :: r); Some (JArr items, r)); [|by rewrite Hp].
  clear -Hu1. destruct u as [|u|u]; try done. do 7 (destruct u as [u|u|]; try done).
Qed.

Lemma reads_object (ps : list (units * (units * jsval units))) :
  Forall (λ p, Forall unit_range p.1 ∧ reads p.2.1 p.2.2) ps →
  reads (lit "{" ++ join (lit ",") (map (λ p, member_text p.1 p.2.1) ps) ++ lit "}") (make_object (map (λ p, (p.1, p.2.2)) ps)).
Proof.
  intros Hps. split. { exists 123. eexists. split; [done|]. left. set_solver. }
  intros [|f] r Hf Hr; [cbn in Hf; lia|].
  rewrite !length_app in Hf. change (length (lit "{")) with 1%nat in Hf. change (length (lit "}")) with 1%nat in Hf.
  rewrite <-!app_assoc. change (lit "}" ++ r) with (125 :: r).
  destruct ps as [|[k [t v]] ps]; [reflexivity|].
  assert (∃ t', join (lit ",") (map (λ p, member_text p.1 p.2.1) ((k, (t, v)) :: ps)) = 34 :: t') as (t' & E).
  { destruct ps as [|[k2 [t2 v2]] ps]; (eexists; reflexivity). }
  pose proof (parse_members_join ((k, (t, v)) :: ps) f r ltac:(discriminate) Hps ltac:(lia)) as Hp. rewrite E in Hp |- *.
  transitivity ('(ms, r) ← parse_members f ((34 :: t') ++ 125 :: r); Some (make_object ms, r)); [done|by rewrite Hp].
Qed.

(** The text of a normal value reads back as what the text keeps of it. *)
Lemma stringify_reads (v : jsval units) (t : units) : normal v → stringify v = Some t → reads t (erase v).
Proof.
  revert t. induction v as [| | |b|n|s|items IH|entries IH] using jsval_ind'; intros t Hn Ht; try discriminate Ht.
  - injection Ht as <-. apply reads_null.
  - injection Ht as <-. split; [by apply (text_opens (JBool b))|]. intros [|f] r Hf _; [destruct b; cbn in Hf; lia|]. by destruct b.
  - injection Ht as <-. destruct n as [z| |]; [apply reads_number|apply (reads_number 0)|done].
  - injection Ht as <-. by apply reads_string.
  - set (ps := map (λ i, (default (lit "null") (stringify i), if isOmitted i then JNull else erase i)) items).
    assert (Forall (λ p, reads p.1 p.2) ps) as Hps.
    { unfold ps. clear -IH Hn. induction IH as [|i items Hi _ IHl]; [constructor|]. destruct Hn as [Hni Hn].
      constructor; [|by apply IHl]. cbn [fst snd]. destruct (stringify i) as [t|] eqn:E.
      - assert (isOmitted i = false) as ->; [|by apply Hi].
        destruct (isOmitted i) eqn:Eo; [|done]. apply omitted_stringify in Eo. congruence.
      - apply omitted_stringify in E. rewrite E. apply reads_null. }
    apply reads_array in Hps. unfold ps in Hps. change (map ?f ?l).*1 with (fst <$> (f <$> l)) in Hps.
    change (map ?f ?l).*2 with (snd <$> (f <$> l)) in Hps. rewrite <-!list_fmap_compose in Hps.
    cbn [stringify] in Ht. apply Some_inj in Ht. rewrite <-Ht. exact Hps.
  - set (ps := omap (λ e, (λ t, (e.1, (t, erase e.2))) <$> stringify e.2) entries).
    assert (Forall (λ p, Forall unit_range p.1 ∧ reads p.2.1 p.2.2) ps) as Hps.
    { unfold ps. destruct Hn as (_ & _ & Hn). clear -IH Hn. induction IH as [|[k v] entries Hi _ IHl]; [constructor|].
      destruct Hn as (Hk & Hv & Hn). csimpl. destruct (stringify v) as [t|] eqn:E; csimpl; [|by apply IHl].
      constructor; [|by apply IHl]. split; [done|]. by apply Hi. }
    apply reads_object in Hps.
    replace (map (λ p, (p.1, p.2.2)) ps) with
      (filter (λ e, isOmitted e.2 = false) (map (λ e, (e.1, erase e.2)) entries)) in Hps.
    + rewrite normal_members in Hps by done. cbn [stringify] in Ht. apply Some_inj in Ht. rewrite <-Ht.
      replace (omap _ _) with (map (λ p, member_text p.1 p.2.1) ps); [done|].
      unfold ps. clear. induction entries as [|[k v] entries IHl]; [done|]. csimpl. destruct (stringify v); csimpl; by rewrite IHl.
    + unfold ps. clear. induction entries as [|[k v] entries IHl]; [done|]. csimpl. rewrite filter_cons. csimpl.
      rewrite erase_omitted. destruct (stringify v) as [t|] eqn:E; csimpl.
      * rewrite decide_True; [by f_equal|]. destruct (isOmitted v) eqn:Eo; [|done]. apply omitted_stringify in Eo. congruence.
      * apply omitted_stringify in E. rewrite E. by rewrite decide_False.
Qed.

(** ** The round trip of canonical JSON *)

(** A JavaScript value: texts of code units, objects with distinct member names. *)
Fixpoint js_value (v : jsval units) : Prop :=
  match v with
  | JStr s => Forall unit_range s
  | JArr items => foldr (λ i P, js_value i ∧ P) True items
  | JObj entries => NoDup entries.*1 ∧ foldr (λ e P, Forall unit_range e.1 ∧ js_value e.2 ∧ P) True entries
  | _ => True
  end.

Lemma js_value_items (items : list (jsval units)) : js_value (JArr items) ↔ Forall js_value items.
Proof. cbn. induction items as [|i items IH]; cbn; [done|]. rewrite IH. by rewrite Forall_cons. Qed.
Lemma normal_items (items : list (jsval units)) : normal (JArr items) ↔ Forall normal items.
Proof. cbn. induction items as [|i items IH]; cbn; [done|]. rewrite IH. by rewrite Forall_cons. Qed.

Lemma js_value_entries (entries : list (units * jsval units)) :
  js_value (JObj entries) ↔ NoDup entries.*1 ∧ Forall (λ e, Forall unit_range e.1 ∧ js_value e.2) entries.
Proof. cbn. f_equiv. induction entries as [|i items IH]; cbn; [done|]. rewrite IH, Forall_cons. naive_solver. Qed.
Lemma normal_entries (entries : list (units * jsval units)) :
  normal (JObj entries) ↔
    NoDup entries.*1 ∧ fromEntries entries = entries ∧ Forall (λ e, Forall unit_range e.1 ∧ normal e.2) entries.
Proof. cbn. do 2 f_equiv. induction entries as [|i items IH]; cbn; [done|]. rewrite IH, Forall_cons. naive_solver. Qed.

Lemma res_seq_map_Forall2 {A B} (f : A → res B) (l : list A) (k : list B) :
  res_seq (map f l) = Ok k ↔ Forall2 (λ a b, f a = Ok b) l k.
Proof.
  split.
  - revert k. induction l as [|a l IH]; intros k; cbn.
    + intros [= <-]. constructor.
    + intros (b & Hb & (k' & Hk & Hr)%res_bind_Ok)%res_bind_Ok. apply Ok_inj in Hr as <-. constructor; [done|by apply IH].
  - induction 1 as [|a b l k Hb _ IH]; [done|]. cbn. by rewrite Hb, IH.
Qed.

Lemma seq_entries_Forall2 (f : jsval units → res (jsval units)) (l k : list (units * jsval units)) :
  seq_entries (map (λ e, (e.1, f e.2)) l) = Ok k ↔ Forall2 (λ a b, b.1 = a.1 ∧ f a.2 = Ok b.2) l k.
Proof.
  unfold seq_entries. rewrite map_map.
  change (res_seq (map (λ e, v ← f e.2; Ok (e.1, v)) l) = Ok k ↔ Forall2 (λ a b, b.1 = a.1 ∧ f a.2 = Ok b.2) l k).
  rewrite (res_seq_map_Forall2 (λ e, v ← f e.2; Ok (e.1, v))).
  split; (intros HF; eapply Forall2_impl; [exact HF|]); intros [a x] [b y]; cbn.
  - intros (v & Hv & Hr)%res_bind_Ok. by injection Hr as -> ->.
  - intros [-> Hf]. by rewrite Hf.
Qed.

Lemma fromEntries_perm {V} (l : list (units * V)) : fromEntries l ≡ₚ l.
Proof.
  unfold fromEntries. rewrite js_sort_perm. induction l as [|e l IH]; [done|]. rewrite !filter_cons.
  destruct (isArrayIndex e.1) eqn:E.
  - rewrite decide_True, decide_False by congruence. cbn. by constructor.
  - rewrite decide_False, decide_True by congruence. by rewrite <-Permutation_middle, IH.
Qed.

Lemma fromEntries_idemp {V} (l : list (units * V)) : fromEntries (fromEntries l) = fromEntries l.
Proof.
  unfold fromEntries at 2. set (le := λ a b : units * V, digits_value a.1 <=? digits_value b.1).
  set (a := js_sort le (filter (λ e, isArrayIndex e.1 = true) l)). set (b := filter (λ e, isArrayIndex e.1 = false) l).
  assert (Forall (λ e, isArrayIndex e.1 = true) a) as Ha.
  { unfold a. rewrite js_sort_perm. apply Forall_forall. intros e [He _]%list_elem_of_filter. done. }
  assert (Forall (λ e, isArrayIndex e.1 = false) b) as Hb.
  { apply Forall_forall. intros e [He _]%list_elem_of_filter. done. }
  assert (∀ (c : bool) (k : list (units * V)), Forall (λ e, isArrayIndex e.1 = c) k →
    filter (λ e, isArrayIndex e.1 = c) k = k ∧ filter (λ e, isArrayIndex e.1 = negb c) k = []) as Hf.
  { intros c k Hk. induction Hk as [|e k He _ [IH1 IH2]]; [done|]. rewrite !filter_cons, IH1, IH2.
    rewrite decide_True, decide_False; [done| |done]. rewrite He. by destruct c. }
  destruct (Hf _ _ Ha) as [Ha1 Ha2], (Hf _ _ Hb) as [Hb1 Hb2]. cbn [negb] in Ha2, Hb2.
  unfold fromEntries at 1. fold le. rewrite !filter_app, Ha1, Ha2, Hb1, Hb2, app_nil_r. cbn [app].
  change (fromEntries l) with (a ++ b). f_equal. apply js_sort_id. apply js_sort_sorted.
  - intros x y. unfold le. rewrite Z.leb_gt, Z.leb_le. lia.
  - intros x y z. unfold le. rewrite !Z.leb_le. lia.
Qed.

(** The members a normalized object has. *)
Lemma normalize_object (entries : list (units * jsval units)) (d : Z) (n : jsval units) :
  normalize (JObj entries) d = Ok n ↔
  ∃ es, assertCanonicalContainerBoundary d = Ok () ∧ n = JObj (fromEntries es) ∧
    Forall2 (λ a b, b.1 = a.1 ∧ normalize a.2 (d + 1) = Ok b.2) (sortEntries entries) es.
Proof.
  cbn [normalize]. rewrite (sortEntries_map (λ v, normalize v (d + 1))). split.
  - intros ([] & Hd & (es & Hes & Hn)%res_bind_Ok)%res_bind_Ok. apply Ok_inj in Hn as <-.
    exists es. split_and!; [done..|]. by apply (seq_entries_Forall2 (λ v, normalize v (d + 1))).
  - intros (es & Hd & -> & Hes). rewrite Hd. cbn [mbind res_bind].
    apply (seq_entries_Forall2 (λ v, normalize v (d + 1))) in Hes. by rewrite Hes.
Qed.

Lemma Forall2_keys {A B} (R : units * A → units * B → Prop) (l : list (units * A)) (k : list (units * B)) :
  Forall2 R l k → (∀ a b, R a b → b.1 = a.1) → k.*1 = l.*1.
Proof. intros Hf HR. induction Hf as [|a b l k Hab _ IH]; [done|]. csimpl. rewrite (HR _ _ Hab). by f_equal. Qed.

Lemma normalize_normal (v : jsval units) (d : Z) (n : jsval units) :
  js_value v → normalize v d = Ok n → normal n.
Proof.
  revert d n. induction v as [| | |b|m|s|items IH|entries IH] using jsval_ind'; intros d n Hv Hn;
    try (apply Ok_inj in Hn; subst n; done).
  - cbn [normalize] in Hn. apply res_bind_Ok in Hn as (u & Hs & Hn). apply Ok_inj in Hn as <-.
    apply throw_if_Ok in Hs. cbn. by destruct (num_isSafe m).
  - cbn [normalize] in Hn. apply res_bind_Ok in Hn as (u & Hs & Hn). apply res_bind_Ok in Hn as (items' & Hi & Hn).
    apply Ok_inj in Hn as <-. apply normal_items. apply js_value_items in Hv.
    apply (res_seq_map_Forall2 (λ i, normalize i (d + 1))) in Hi. clear Hs.
    induction Hi as [|i i' items items' Hi _ IHl]; constructor; apply Forall_cons in IH as [Hx IH], Hv as [Hv1 Hv]; eauto.
  - apply normalize_object in Hn as (es & _ & -> & Hes). apply js_value_entries in Hv as [Hnd Hv].
    assert (es.*1 = (sortEntries entries).*1) as Hk by (eapply Forall2_keys; [exact Hes|naive_solver]).
    apply normal_entries. split_and!.
    + rewrite fromEntries_perm, Hk. by rewrite sortEntries_perm.
    + apply fromEntries_idemp.
    + rewrite fromEntries_perm. rewrite <-(sortEntries_perm entries) in IH, Hv. clear Hk Hnd.
      induction Hes as [|a b l k [Hk Hab] _ IHl]; constructor; apply Forall_cons in IH as [Hx IH], Hv as [[Hr Hv1] Hv]; [|eauto].
      rewrite Hk. eauto.
Qed.

(** Normalizing what was read back changes nothing. *)
Lemma normalize_erase (v : jsval units) (d : Z) (n : jsval units) :
  js_value v → normalize v d = Ok n → normalize (erase n) d = Ok (erase n).
Proof.
  revert d n. induction v as [| | |b|m|s|items IH|entries IH] using jsval_ind'; intros d n Hv Hn;
    try (apply Ok_inj in Hn; subst n; done).
  - cbn [normalize] in Hn. apply res_bind_Ok in Hn as (u & Hs & Hn). apply Ok_inj in Hn as <-.
    apply throw_if_Ok in Hs. destruct m as [z| |]; [|done|done]. cbn [erase normalize]. by rewrite Hs.
  - cbn [normalize] in Hn. apply res_bind_Ok in Hn as ([] & Hs & Hn). apply res_bind_Ok in Hn as (items' & Hi & Hn).
    apply Ok_inj in Hn as <-. apply js_value_items in Hv. apply (res_seq_map_Forall2 (λ i, normalize i (d + 1))) in Hi.
    cbn [erase normalize]. rewrite Hs. cbn [mbind res_bind]. clear Hs.
    assert (res_seq (map (λ i, normalize i (d + 1)) (map (λ i, if isOmitted i then JNull else erase i) items')) =
      Ok (map (λ i, if isOmitted i then JNull else erase i) items')) as ->; [|done].
    apply (res_seq_map_Forall2 (λ i, normalize i (d + 1))).
    induction Hi as [|i i' items items' Hi _ IHl]; constructor; apply Forall_cons in IH as [Hx IH], Hv as [Hv1 Hv]; [|eauto].
    destruct (isOmitted i'); [done|]. eauto.
  - apply normalize_object in Hn as (es & Hd & -> & Hes). apply js_value_entries in Hv as [Hnd Hv].
    assert (es.*1 = (sortEntries entries).*1) as Hk by (eapply Forall2_keys; [exact Hes|naive_solver]).
    set (E' := filter (λ e, isOmitted e.2 = false) (map (λ e, (e.1, erase e.2)) es)).
    assert (NoDup (map (λ e, (e.1, erase e.2)) es).*1) as Hnd'.
    { by rewrite map_keys, Hk, sortEntries_perm. }
    cbn [erase]. rewrite <-fromEntries_map, <-fromEntries_filter. fold E'.
    apply normalize_object. exists E'. split_and!; [done..|].
    assert (sortEntries (fromEntries E') = E') as ->.
    { transitivity (sortEntries E').
      - apply sortEntries_unique; [|apply fromEntries_perm]. rewrite fromEntries_perm. by apply filter_keys_NoDup.
      - unfold E'. rewrite sortEntries_filter, sortEntries_map. f_equal. f_equal.
        apply js_sort_id. clear -Hk.
        pose proof (js_sort_sorted key_le key_le_total key_le_trans entries) as Hs. fold (sortEntries entries) in Hs.
        revert es Hk. induction Hs as [|x l Hs IH Hall]; intros [|e es] Hk; try discriminate Hk; [constructor|].
        csimpl in Hk. injection Hk as He Hk. constructor; [by apply IH|]. clear IH Hs.
        revert es Hk. induction Hall as [|y l Hy _ IHl]; intros [|e' es] Hk; try discriminate Hk; constructor;
          csimpl in Hk; injection Hk as He' Hk; [|by apply IHl].
        rewrite key_le_units in *. by rewrite He, He'. }
    unfold E'. clear E' Hnd Hnd' Hk. rewrite <-(sortEntries_perm entries) in IH, Hv.
    induction Hes as [|a b l k [Hk Hab] _ IHl]; [constructor|]. apply Forall_cons in IH as [Hx IH], Hv as [[Hr Hv1] Hv].
    cbn [map]. rewrite filter_cons. case_decide; [|eauto]. constructor; [|eauto]. split; [done|]. cbn [fst snd]. eauto.
Qed.

Lemma omap_member {A B} (g : A → option B) (a : A) (l : list A) :
  omap g (a :: l) = match g a with Some b => b :: omap g l | None => omap g l end.
Proof. done. Qed.

Lemma stringify_erase (v : jsval units) : stringify (erase v) = stringify v.
Proof.
  induction v as [| | |b|n|s|items IH|entries IH] using jsval_ind'; try done.
  - by destruct n.
  - cbn [erase stringify]. do 4 f_equal. rewrite map_map. apply map_ext_in. intros i Hi.
    rewrite Forall_forall in IH. specialize (IH i). rewrite list_elem_of_In in IH.
    destruct (isOmitted i) eqn:E; [by destruct i|]. by rewrite IH.
  - cbn [erase stringify]. do 4 f_equal. induction IH as [|[k v] entries Hv _ IHl]; [done|]. cbn [map].
    rewrite filter_cons. cbn [fst snd] in *. rewrite erase_omitted. destruct (isOmitted v) eqn:E.
    + rewrite decide_False by done. rewrite IHl, omap_member. by rewrite (proj2 (omitted_stringify v) E).
    + rewrite decide_True by done. cbn [map]. rewrite !omap_member. cbn [fst snd]. rewrite Hv.
      destruct (stringify v); by rewrite IHl.
Qed.

(** What the canonical text of [v] keeps of it. *)
Lemma canonicalJson_parse (v n : jsval units) (t : units) :
  js_value v → normalize v 0 = Ok n → stringify n = Some t →
  JSON_parse t = Ok (erase n) ∧ canonicalJson (erase n) = Ok (Some t).
Proof.
  intros Hv Hn Ht. split.
  - destruct (stringify_reads n t (normalize_normal _ _ _ Hv Hn) Ht) as [_ Hr].
    unfold JSON_parse. specialize (Hr (2 * length t + 2)%nat [] ltac:(lia) (or_introl eq_refl)).
    rewrite app_nil_r in Hr. by rewrite Hr.
  - unfold canonicalJson. rewrite (normalize_erase v 0 n Hv Hn). cbn [mbind res_bind]. by rewrite stringify_erase, Ht.
Qed.

(** Canonical JSON reads back: the text of any value whose objects have
    distinct member names parses, and the value read has the same canonical text, so
    the text is a fixed point of parsing and writing. *)
Theorem canonicalJson_roundtrip (v : jsval units) (t : units) :
  js_value v → canonicalJson v = Ok (Some t) →
  ∃ w, JSON_parse t = Ok w ∧ canonicalJson w = Ok (Some t).
Proof.
  intros Hv (n & Hn & Ht)%res_bind_Ok. apply Ok_inj in Ht. exists (erase n). by apply (canonicalJson_parse v).
Qed.

Lemma canonicalJson_roundtrip_witness :
  let v := JObj [(lit "nonce", JNum (JInt 7)); (lit "10", JArr [JUndefined; JBool true]); (lit "balance", JStr [34; 55357; 56832; 7])] in
  ∃ t w, canonicalJson v = Ok (Some t) ∧ JSON_parse t = Ok w ∧ canonicalJson w = Ok (Some t).
Proof.
  set (v := JObj _). cbv zeta. eexists.
  destruct (canonicalJson_roundtrip v (match canonicalJson v with Ok (Some t) => t | _ => [] end)) as (w & Hw & Hc).
  - split; [|repeat (split; [repeat constructor; done|])].
    + repeat (constructor; [set_solver|]). constructor.
    + repeat split; repeat constructor; done.
  - vm_compute. reflexivity.
  - exists w. split; [|split; [exact Hw|exact Hc]]. vm_compute. reflexivity.
Defined.
