(* ===== verification/Crypto.v ===== *)
(** Hashes and signatures (l1/src/crypto.ts), the Merkle root of a list of
    values (l1/src/merkle.ts) and the display checksum of an address
    (l1/src/address-checksum.ts).  SHA-256 and secp256k1 are code outside the
    repository: they are the operations of the class [Crypto], and what the
    protocol relies on about them is the class [CryptoLaws]. *)

From S2P Require Import Prelude Types Codec.

(** ** Third-party operations *)

Class Crypto := {
  (** [createHash("sha256").update(bytes).digest("hex")] *)
  sha256 : list Z → string;
  (** [secp256k1.verify(signature, message, publicKey, { format: "compact" })]
      on hex texts; a throw of the library is [false] for every caller. *)
  secp_verify : string → list Z → string → bool;
  (** [secp256k1.sign]; throws on an invalid private key. *)
  secp_sign : list Z → string → res string;
  (** [secp256k1.getPublicKey] without the leading 04. *)
  secp_getPublicKey : string → res string;
  (** [secp256k1.Point.fromHex(`04${key}`).assertValidity()] returns. *)
  secp_isPoint : string → bool }.

(** Documented behaviour of the two libraries: the widths of their outputs, and
    that a signature verifies under the key that made it. *)
Class CryptoLaws `{Crypto} := {
  sha256_hex b : isLowerHexOf 64 (sha256 b) = true;
  secp_sign_hex m k s : secp_sign m k = Ok s → isLowerHexOf 128 s = true;
  secp_sign_verify m k s pk :
    secp_sign m k = Ok s → secp_getPublicKey k = Ok pk → secp_verify s m ("04" +:+ pk) = true;
  secp_getPublicKey_hex k pk : secp_getPublicKey k = Ok pk → isLowerHexOf 128 pk = true;
  secp_getPublicKey_point k pk : secp_getPublicKey k = Ok pk → secp_isPoint pk = true }.

(** ** [Buffer.from(text, "hex")]: pairs of hex digits up to the first that is
    not one. *)
Definition hexValue (c : Ascii.ascii) : option Z :=
  let n := Z.of_N (Ascii.N_of_ascii c) in
  if (48 <=? n) && (n <=? 57) then Some (n - 48)
  else if (97 <=? n) && (n <=? 102) then Some (n - 87)
  else if (65 <=? n) && (n <=? 70) then Some (n - 55)
  else None.
Fixpoint hexBytes (s : string) : list Z :=
  match s with
  | String a (String b s') =>
    match hexValue a, hexValue b with
    | Some x, Some y => (x * 16 + y) :: hexBytes s'
    | _, _ => []
    end
  | _ => []
  end.

Section crypto.
Context `{Crypto}.

(** [sha256Hex(text)]: a string is hashed as UTF-8. *)
Definition sha256Hex_text (text : units) : string := sha256 (utf8 text).
Definition sha256Hex_bytes (bytes : list Z) : string := sha256 bytes.

(** [canonicalJson] is [undefined] only for an omitted value, which
    [encoder.encode] reads as the empty text. *)
Definition canonicalBytes (payload : jsval units) : res (list Z) :=
  text ← canonicalJson payload; Ok (utf8 (default [] text)).

Definition publicKeyFromPrivate (privateKeyHex : string) : res string := secp_getPublicKey privateKeyHex.

Definition addressFromPublicKey (publicKeyHex : string) : Address :=
  let digest := sha256Hex_bytes (hexBytes publicKeyHex) in
  "ZYN" +:+ String.substring 0 40 digest.

Definition isValidPublicKey (publicKeyHex : string) : bool :=
  if negb (isLowerHexOf 128 publicKeyHex) then false else secp_isPoint publicKeyHex.

Definition assertValidPublicKey (publicKeyHex label : string) : res unit :=
  throw_if (negb (isValidPublicKey publicKeyHex)) (label +:+ " is not a valid secp256k1 point").

(** The rest of [s] after the literal prefix [p] of a regular expression. *)
Fixpoint stripPrefix (p s : string) : option string :=
  match p, s with
  | EmptyString, _ => Some s
  | String a p', String b s' => if Ascii.eqb a b then stripPrefix p' s' else None
  | _, _ => None
  end.

(** [/^zyronchain\/[a-z0-9][a-z0-9._/-]{0,95}$/] *)
Definition isDomainHead (c : Ascii.ascii) : bool :=
  let n := Ascii.N_of_ascii c in
  ((97 <=? n)%N && (n <=? 122)%N) || ((48 <=? n)%N && (n <=? 57)%N).
Definition isDomainChar (c : Ascii.ascii) : bool :=
  let n := Ascii.N_of_ascii c in
  isDomainHead c || (n =? 46)%N || (n =? 95)%N || (n =? 47)%N || (n =? 45)%N.
Definition isSigningDomain (domain : string) : bool :=
  match stripPrefix "zyronchain/" domain with
  | Some (String c rest) =>
    isDomainHead c && forallb isDomainChar (String.list_ascii_of_string rest) && Nat.leb (String.length rest) 95
  | _ => false
  end.
Definition assertSigningDomain (domain : string) : res unit :=
  throw_if (negb (isSigningDomain domain)) "Invalid canonical signing domain".

Definition signCanonical (payload : jsval units) (privateKeyHex : string) : res string :=
  message ← canonicalBytes payload;
  secp_sign message privateKeyHex.

Definition domainEnvelope (domain : string) (payload : jsval units) : jsval units :=
  JObj [(lit "domain", JStr (lit domain)); (lit "payload", payload)].

Definition signCanonicalDomain (domain : string) (payload : jsval units) (privateKeyHex : string) : res string :=
  assertSigningDomain domain;;
  signCanonical (domainEnvelope domain payload) privateKeyHex.

Definition verifyCanonical (payload : jsval units) (signatureHex publicKeyHex : string) : bool :=
  match canonicalBytes payload with
  | Ok message => secp_verify signatureHex message ("04" +:+ publicKeyHex)
  | Throw _ => false
  end.

Definition verifyCanonicalDomain (domain : string) (payload : jsval units) (signatureHex publicKeyHex : string) : bool :=
  if negb (isOk (assertSigningDomain domain)) then false
  else verifyCanonical (domainEnvelope domain payload) signatureHex publicKeyHex.

(** ** merkle.ts *)

(** One round of the [for (let i = 0; i < level.length; i += 2)] loop. *)
Fixpoint merkle_pairs (level : list string) : list string :=
  match level with
  | a :: b :: rest => sha256Hex_bytes (hexBytes (a +:+ b)) :: merkle_pairs rest
  | _ => []
  end.

Definition merkle_pad (level : list string) : list string :=
  if Nat.eqb (length level mod 2) 1 then level ++ option_list (last level) else level.

(** The [while (level.length > 1)] loop; every round at least halves the level
    rounded up, so its length is fuel enough. *)
Fixpoint merkle_loop (fuel : nat) (level : list string) : res string :=
  match level with
  | [] => Throw "undefined"
  | [root] => Ok root
  | _ =>
    match fuel with
    | O => Throw "out of fuel"
    | S fuel' => merkle_loop fuel' (merkle_pairs (merkle_pad level))
    end
  end.

(** [sha256Hex(canonicalJson(value))] *)
Definition merkle_leaf (value : jsval units) : res string :=
  bytes ← canonicalBytes value; Ok (sha256Hex_bytes bytes).

Definition merkleRoot (values : list (jsval units)) : res string :=
  match values with
  | [] => Ok (sha256Hex_text [])
  | _ =>
    level ← res_seq (map merkle_leaf values);
    merkle_loop (length level) level
  end.

(** ** address-checksum.ts *)

Definition ADDRESS_CHECKSUM_DOMAIN : string := "zyronchain/address-checksum/v1:".

Definition isLowerHexLetter (c : Ascii.ascii) : bool :=
  let n := Ascii.N_of_ascii c in (97 <=? n)%N && (n <=? 102)%N.
Definition isUpperHexLetter (c : Ascii.ascii) : bool :=
  let n := Ascii.N_of_ascii c in (65 <=? n)%N && (n <=? 70)%N.
Definition toUpper (c : Ascii.ascii) : Ascii.ascii :=
  if isLowerHexLetter c then Ascii.ascii_of_N (Ascii.N_of_ascii c - 32) else c.
Definition toLower (c : Ascii.ascii) : Ascii.ascii :=
  if isUpperHexLetter c then Ascii.ascii_of_N (Ascii.N_of_ascii c + 32) else c.

(** [/^ZYN[0-9a-fA-F]{40}$/] *)
Definition isAddressInput (input : string) : bool :=
  match input with
  | String "Z"%char (String "Y"%char (String "N"%char body)) =>
    Nat.eqb (String.length body) 40 &&
    forallb (λ c, isLowerHex c || isUpperHexLetter c) (String.list_ascii_of_string body)
  | _ => false
  end.

Definition addressBody (address : string) : list Ascii.ascii :=
  drop 3 (String.list_ascii_of_string address).

Definition toChecksumAddress (address : string) : res string :=
  throw_if (negb (isAddress address)) "Address must be canonical: ZYN + 40 lower-case hex";;
  let hash := sha256 (utf8 (lit (ADDRESS_CHECKSUM_DOMAIN +:+ address))) in
  Ok ("ZYN" +:+ String.string_of_list_ascii
    (imap (λ index c,
      if isLowerHexLetter c && (8 <=? default 0 (String.list_ascii_of_string hash !! index ≫= hexValue))
      then toUpper c else c) (addressBody address))).

Record ParsedAddressInput := mkParsedAddress {
  pa_canonical : Address; pa_checksummed : string; pa_checksumVerified : bool }.

Definition parseAddressInput (input : string) : res ParsedAddressInput :=
  throw_if (negb (isAddressInput input)) "Invalid address: expected ZYN followed by 40 hex characters";;
  let canonical := "ZYN" +:+ String.string_of_list_ascii (toLower <$> addressBody input) in
  checksummed ← toChecksumAddress canonical;
  if String.eqb input canonical then Ok (mkParsedAddress canonical checksummed false)
  else
    throw_if (negb (String.eqb input checksummed))
      "Address checksum mismatch: the mixed-case letters do not match (likely a typo)";;
    Ok (mkParsedAddress canonical checksummed true).

End crypto.

(** ** Signing and verifying *)

Lemma signed_domain_verifies `{CryptoLaws} (domain key sig pk : string) (payload : jsval units) :
  signCanonicalDomain domain payload key = Ok sig → publicKeyFromPrivate key = Ok pk →
  verifyCanonicalDomain domain payload sig pk = true ∧ isLowerHexOf 128 sig = true.
Proof.
  unfold signCanonicalDomain, verifyCanonicalDomain, signCanonical, verifyCanonical, publicKeyFromPrivate.
  intros Hs Hpk. apply res_bind_Ok in Hs as ([] & Hd & Hs). apply res_bind_Ok in Hs as (m & Hm & Hs).
  rewrite Hd. simpl. rewrite Hm. split; [by eapply secp_sign_verify|by eapply secp_sign_hex].
Qed.

Lemma signed_plain_verifies `{CryptoLaws} (key sig pk : string) (payload : jsval units) :
  signCanonical payload key = Ok sig → publicKeyFromPrivate key = Ok pk →
  verifyCanonical payload sig pk = true ∧ isLowerHexOf 128 sig = true.
Proof.
  unfold verifyCanonical, signCanonical, publicKeyFromPrivate.
  intros Hs Hpk. apply res_bind_Ok in Hs as (m & Hm & Hs).
  rewrite Hm. split; [by eapply secp_sign_verify|by eapply secp_sign_hex].
Qed.

(** ** Domain separation *)

Definition ascii_units (s : units) : Prop := Forall (λ u, 0 ≤ u < 128) s.

Lemma utf8_ascii_app (a b : units) : ascii_units a → utf8 (a ++ b) = a ++ utf8 b.
Proof.
  induction 1 as [|u a Hu Ha IH]; [done|]. unfold utf8 in *.
  assert (per_char utf8_unit utf8_pair ([u] ++ (a ++ b)) = utf8_unit u ++ per_char utf8_unit utf8_pair (a ++ b)) as E.
  { rewrite (per_char_app utf8_unit utf8_pair [u]); [done|]. unfold splits. simpl. destruct (head (a ++ b)); [|done].
    unfold isLead. destruct (Z.leb_spec 55296 u); [lia|done]. }
  simpl app in *. rewrite E, IH. unfold utf8_unit. by destruct (Z.ltb_spec u 128); [|lia].
Qed.

Lemma stripPrefix_Some (p s r : string) : stripPrefix p s = Some r → s = p +:+ r.
Proof.
  revert s. induction p as [|a p IH]; intros s Hs; simpl in Hs; [by injection Hs as ->|].
  destruct s as [|b s]; [done|]. destruct (Ascii.eqb_spec a b) as [->|]; [|done].
  change (String b p +:+ r) with (String b (p +:+ r)). f_equal. by apply IH.
Qed.

Lemma list_ascii_app (s t : string) :
  String.list_ascii_of_string (s +:+ t) = String.list_ascii_of_string s ++ String.list_ascii_of_string t.
Proof. induction s as [|c s IH]; [done|]. exact (f_equal (cons c) IH). Qed.

Lemma domain_chars (domain : string) :
  isSigningDomain domain = true → forallb isDomainChar (String.list_ascii_of_string domain) = true.
Proof.
  unfold isSigningDomain. destruct (stripPrefix _ _) as [[|c rest]|] eqn:E; try done.
  apply stripPrefix_Some in E as ->. rewrite !andb_true_iff. intros [[Hc Hr] _].
  rewrite list_ascii_app, forallb_app. change (String.list_ascii_of_string (String c rest))
    with (c :: String.list_ascii_of_string rest).
  cbn [forallb]. unfold isDomainChar at 2. rewrite Hc, Hr. reflexivity.
Qed.

Lemma domain_units (domain : string) :
  isSigningDomain domain = true → Forall (λ u, 32 ≤ u < 128 ∧ u ≠ 34 ∧ u ≠ 92) (lit domain).
Proof.
  intros Hd%domain_chars. rewrite forallb_forall in Hd. apply Forall_forall. intros u Hu.
  apply list_elem_of_fmap in Hu as (c & -> & Hc). apply list_elem_of_In, Hd in Hc.
  unfold isDomainChar, isDomainHead in Hc. cbv zeta in Hc. rewrite !orb_true_iff, !andb_true_iff, !N.leb_le, !N.eqb_eq in Hc. lia.
Qed.

(** Text without characters that need escaping is quoted as it is. *)
Lemma quote_body_plain (s : units) :
  Forall (λ u, 32 ≤ u < 128 ∧ u ≠ 34 ∧ u ≠ 92) s → quote_body s = s.
Proof.
  unfold quote_body. induction 1 as [|u s Hu Hs IH]; [done|].
  assert (quote_unit u = [u]) as Hq.
  { unfold quote_unit. repeat (match goal with |- context [?a =? ?b] => destruct (Z.eqb_spec a b); [lia|] end).
    destruct (Z.ltb_spec u 32); [lia|]. unfold isLead, isTrail.
    destruct (Z.leb_spec 55296 u); [lia|]. destruct (Z.leb_spec 56320 u); [lia|]. done. }
  change (per_char quote_unit (λ u v, [u; v]) ([u] ++ s) = [u] ++ s).
  rewrite per_char_app; [simpl; by rewrite Hq, IH|].
  unfold splits. simpl. destruct (head s); [|done]. unfold isLead. destruct (Z.leb_spec 55296 u); [lia|done].
Qed.

(** The message of an envelope starts with its domain, closed by a quote. *)
Lemma envelope_bytes (domain : string) (payload : jsval units) (m : list Z) :
  isSigningDomain domain = true → canonicalBytes (domainEnvelope domain payload) = Ok m →
  ∃ rest, m = ([123] ++ json_quote (lit "domain") ++ [58; 34]) ++ lit domain ++ 34 :: rest.
Proof.
  intros Hd Hm. pose proof (domain_units domain Hd) as Hu.
  unfold canonicalBytes, canonicalJson, domainEnvelope in Hm.
  apply res_bind_Ok in Hm as (t & Ht & Hm). apply Ok_inj in Hm as <-.
  apply res_bind_Ok in Ht as (n & Hn & Ht). apply Ok_inj in Ht as <-.
  apply res_bind_Ok in Hn as ([] & _ & Hn). apply res_bind_Ok in Hn as (es & Hes & Hn). apply Ok_inj in Hn as <-.
  change (sortEntries _) with [(lit "domain", Ok (JStr (lit domain))); (lit "payload", normalize payload (0 + 1))] in Hes.
  rewrite !seq_entries_cons in Hes. cbn [mbind res_bind] in Hes.
  apply res_bind_Ok in Hes as (xs & Hxs & Hes). apply Ok_inj in Hes as <-.
  apply res_bind_Ok in Hxs as (p & Hp & Hxs). apply Ok_inj in Hxs as <-.
  rewrite fromEntries_id by (repeat constructor).
  assert (∃ tail, stringify (JObj [(lit "domain", JStr (lit domain)); (lit "payload", p)])
    = Some ((([123] ++ json_quote (lit "domain") ++ [58; 34]) ++ lit domain ++ [34]) ++ tail)) as [tail ->].
  { assert (json_quote (lit domain) = [34] ++ lit domain ++ [34]) as Hq.
    { unfold json_quote. by rewrite (quote_body_plain _ Hu). }
    cbn [stringify map omap list_omap fst snd fmap option_fmap option_map]. rewrite Hq.
    generalize ((λ t, json_quote (lit "payload") ++ lit ":" ++ t) <$> stringify p).
    intros [tp|]; cbn [join]; eexists; f_equal;
      change (lit "{") with [123]; change (lit ":") with [58]; rewrite <-!app_assoc; reflexivity. }
  exists (utf8 tail). unfold default, id. rewrite utf8_ascii_app.
  - by rewrite <-!app_assoc.
  - unfold ascii_units. rewrite !Forall_app. repeat split; [vm_compute; repeat constructor; congruence..| |].
    + eapply Forall_impl; [exact Hu|]. simpl. lia.
    + repeat constructor; lia.
Qed.

Lemma split_at_quote (a b x y : list Z) :
  34 ∉ a → 34 ∉ b → a ++ 34 :: x = b ++ 34 :: y → a = b.
Proof.
  revert b. induction a as [|u a IH]; intros [|v b] Ha Hb E; simplify_eq/=; [done|set_solver|set_solver|].
  f_equal. eapply IH; set_solver.
Qed.

Lemma lit_inj (s t : string) : lit s = lit t → s = t.
Proof.
  revert t. induction s as [|a s IH]; intros [|b t] E; try done.
  change (lit (String a s)) with (Z.of_N (Ascii.N_of_ascii a) :: lit s) in E.
  change (lit (String b t)) with (Z.of_N (Ascii.N_of_ascii b) :: lit t) in E.
  injection E as Hab E. f_equal; [|by apply IH]. apply N2Z.inj in Hab.
  rewrite <-(Ascii.ascii_N_embedding a), <-(Ascii.ascii_N_embedding b). by f_equal.
Qed.

(** A message signed in one signing domain is never a message of another: if
    two envelopes encode to the same bytes, their domains are equal. *)
Theorem signing_domains_separate (d1 d2 : string) (p1 p2 : jsval units) (m : list Z) :
  isSigningDomain d1 = true → isSigningDomain d2 = true →
  canonicalBytes (domainEnvelope d1 p1) = Ok m → canonicalBytes (domainEnvelope d2 p2) = Ok m → d1 = d2.
Proof.
  intros H1 H2 Hm1 Hm2. apply (envelope_bytes _ _ _ H1) in Hm1 as [r1 ->]. apply (envelope_bytes _ _ _ H2) in Hm2 as [r2 E].
  apply app_inv_head, split_at_quote in E; [by apply lit_inj|..].
  - pose proof (domain_units d1 H1) as Hu. rewrite Forall_forall in Hu. intros Hin. specialize (Hu _ Hin). simpl in Hu. lia.
  - pose proof (domain_units d2 H2) as Hu. rewrite Forall_forall in Hu. intros Hin. specialize (Hu _ Hin). simpl in Hu. lia.
Qed.

Lemma signing_domains_separate_witness :
  ∃ m, canonicalBytes (domainEnvelope "zyronchain/vote/v1" JNull) = Ok m ∧
       "zyronchain/vote/v1" = "zyronchain/vote/v1".
Proof.
  eexists. split; [vm_compute; reflexivity|].
  eapply (signing_domains_separate _ _ JNull JNull); vm_compute; reflexivity.
Defined.

(** ** A concrete instance

    A checksum in place of SHA-256 and a keyed checksum in place of secp256k1:
    enough to run the definitions on concrete inputs and to show that
    [CryptoLaws] can hold. *)
Module ToyCrypto.

Definition hexChar (d : Z) : Ascii.ascii := Ascii.ascii_of_N (Z.to_N (hex_digit d)).
Fixpoint hexFixed (n : nat) (z : Z) : string :=
  match n with O => EmptyString | S n' => String (hexChar (z mod 16)) (hexFixed n' (z / 16)) end.
Definition checksum (bytes : list Z) : Z :=
  fold_left (λ acc x, Z.land (acc * 257 + x + 1) 0xffffffffffffffff) bytes 7.
Definition digest (bytes : list Z) : string :=
  let quarter := hexFixed 16 (checksum bytes) in (quarter +:+ quarter) +:+ (quarter +:+ quarter).
Definition pub (k : string) : res string := if isLowerHexOf 64 k then Ok (k +:+ k) else Throw "invalid key".

#[global] Instance toy : Crypto := {|
  sha256 := digest;
  secp_verify s m pk := String.eqb s (digest m +:+ String.substring 2 64 pk);
  secp_sign m k := if isLowerHexOf 64 k then Ok (digest m +:+ k) else Throw "invalid key";
  secp_getPublicKey := pub;
  secp_isPoint k := isLowerHexOf 128 k |}.

Lemma isLowerHexOf_app (n m : nat) (s t : string) :
  isLowerHexOf n s = true → isLowerHexOf m t = true → isLowerHexOf (n + m) (s +:+ t) = true.
Proof.
  unfold isLowerHexOf. rewrite !andb_true_iff, !Nat.eqb_eq. intros [Hn Hs] [Hm Ht]. split.
  - subst. clear. induction s as [|c s IH]; [done|]. exact (f_equal S IH).
  - by rewrite list_ascii_app, forallb_app, Hs, Ht.
Qed.

Lemma hexFixed_hex (n : nat) (z : Z) : isLowerHexOf n (hexFixed n z) = true.
Proof.
  revert z. induction n as [|n IH]; intros z; [done|].
  assert (isLowerHex (hexChar (z mod 16)) = true) as Hc.
  { assert (0 ≤ z mod 16 < 16) as Hb by (apply Z.mod_pos_bound; lia).
    assert (forallb (λ d, isLowerHex (hexChar d)) (seqZ 0 16) = true) as Hall by (vm_compute; reflexivity).
    rewrite forallb_forall in Hall. apply Hall, list_elem_of_In, elem_of_seqZ. lia. }
  specialize (IH (z / 16)). unfold isLowerHexOf in *. cbn. rewrite Hc. exact IH.
Qed.

Lemma digest_hex (bytes : list Z) : isLowerHexOf 64 (digest bytes) = true.
Proof. apply (isLowerHexOf_app 32 32); apply (isLowerHexOf_app 16 16); apply hexFixed_hex. Qed.

Lemma substring_app (s t : string) : String.substring 0 (String.length s) (s +:+ t) = s.
Proof. induction s as [|c s IH]; [by destruct t|]. exact (f_equal (String c) IH). Qed.

#[global] Instance toy_laws : CryptoLaws.
Proof.
  split.
  - intros b. apply digest_hex.
  - intros m k s. cbn [sha256 secp_sign secp_verify secp_getPublicKey secp_isPoint toy]. destruct (isLowerHexOf 64 k) eqn:E; [|done]. intros <-%Ok_inj.
    apply (isLowerHexOf_app 64 64); [apply digest_hex|done].
  - intros m k s pk. cbn [sha256 secp_sign secp_verify secp_getPublicKey secp_isPoint toy]. unfold pub. destruct (isLowerHexOf 64 k) eqn:E; [|done].
    intros <-%Ok_inj <-%Ok_inj. apply String.eqb_eq. f_equal.
    apply andb_true_iff in E as [E%Nat.eqb_eq _]. rewrite <-E. symmetry. exact (substring_app k k).
  - intros k pk. cbn [sha256 secp_sign secp_verify secp_getPublicKey secp_isPoint toy]. unfold pub. destruct (isLowerHexOf 64 k) eqn:E; [|done].
    intros <-%Ok_inj. by apply (isLowerHexOf_app 64 64).
  - intros k pk. cbn [sha256 secp_sign secp_verify secp_getPublicKey secp_isPoint toy]. unfold pub. destruct (isLowerHexOf 64 k) eqn:E; [|done].
    intros <-%Ok_inj. by apply (isLowerHexOf_app 64 64).
Qed.

(** A private key. *)
Definition key : string := "1111111111111111111111111111111111111111111111111111111111111111".
Definition key2 : string := "2222222222222222222222222222222222222222222222222222222222222222".

End ToyCrypto.

(** ** Collisions among given inputs

    SHA-256 is not injective, so that some two inputs collide says nothing.  What
    a commitment gives is that a deviation shows two colliding inputs in a list
    that is computed from the data at hand: the byte strings hashed by the party
    that committed and by the one that checks. *)

(** Two of the byte strings [inputs] have one SHA-256. *)
Definition collision_among `{Crypto} (inputs : list (list Z)) : Prop :=
  ∃ a b, a ∈ inputs ∧ b ∈ inputs ∧ a ≠ b ∧ sha256 a = sha256 b.

Definition collision_free `{Crypto} (inputs : list (list Z)) : Prop :=
  ∀ a b, a ∈ inputs → b ∈ inputs → sha256 a = sha256 b → a = b.

Lemma free_or_collision `{Crypto} (inputs : list (list Z)) : collision_free inputs ∨ collision_among inputs.
Proof.
  destruct (decide (Forall (λ a, Forall (λ b, sha256 a = sha256 b → a = b) inputs) inputs)) as [Hall|Hnot].
  - left. intros a b Ha Hb. rewrite Forall_forall in Hall. specialize (Hall a Ha). rewrite Forall_forall in Hall. by apply Hall.
  - right. apply not_Forall_Exists in Hnot; [|apply _]. apply Exists_exists in Hnot as (a & Ha & Hnot).
    apply not_Forall_Exists in Hnot; [|apply _]. apply Exists_exists in Hnot as (b & Hb & Hnot). exists a, b.
    destruct (decide (sha256 a = sha256 b)); [|by destruct Hnot]. split_and!; [done|done|by intros <-; destruct Hnot|done].
Qed.

Lemma collision_free_sub `{Crypto} (inputs inputs' : list (list Z)) :
  inputs ⊆ inputs' → collision_free inputs' → collision_free inputs.
Proof. intros Hs Hf a b Ha Hb. apply Hf; by apply Hs. Qed.

(** ** The Merkle root *)

Lemma hexValue_inj (a b : Ascii.ascii) :
  isLowerHex a = true → isLowerHex b = true → hexValue a = hexValue b → a = b.
Proof.
  unfold isLowerHex, hexValue. intros Ha Hb E.
  rewrite <-(Ascii.ascii_N_embedding a), <-(Ascii.ascii_N_embedding b). f_equal. revert E.
  rewrite !orb_true_iff, !andb_true_iff, !N.leb_le in Ha, Hb.
  repeat case_if; intros E; simplify_eq; lia.
Qed.

Lemma hexValue_lower (a : Ascii.ascii) : isLowerHex a = true → ∃ x, hexValue a = Some x ∧ 0 ≤ x < 16.
Proof.
  unfold isLowerHex, hexValue. intros Ha. rewrite !orb_true_iff, !andb_true_iff, !N.leb_le in Ha.
  repeat case_if; try (eexists; split; [reflexivity|lia]); exfalso; lia.
Qed.

Lemma hexBytes_inj (n : nat) (s t : string) :
  isLowerHexOf (2 * n) s = true → isLowerHexOf (2 * n) t = true → hexBytes s = hexBytes t → s = t.
Proof.
  revert s t. induction n as [|n IH]; intros s t Hs Ht E.
  - destruct s, t; try done; cbn in *; try discriminate.
  - replace (2 * S n)%nat with (S (S (2 * n))) in * by lia.
    destruct s as [|a [|b s]]; [discriminate Hs..|]. destruct t as [|c [|d t]]; [discriminate Ht..|].
    unfold isLowerHexOf in Hs, Ht. cbn in Hs, Ht. rewrite !andb_true_iff in Hs, Ht.
    destruct Hs as (Hl & Ha & Hb & Hs), Ht as (Hl' & Hc & Hd & Ht).
    pose proof (hexValue_inj a c Ha Hc) as Hac. pose proof (hexValue_inj b d Hb Hd) as Hbd.
    destruct (hexValue_lower a Ha) as (x & Ex & Hx), (hexValue_lower b Hb) as (y & Ey & Hy),
      (hexValue_lower c Hc) as (z & Ez & Hz), (hexValue_lower d Hd) as (w & Ew & Hw).
    cbn in E. rewrite Ex, Ey, Ez, Ew in E. injection E as E1 E2.
    assert (x = z ∧ y = w) as [-> ->] by lia.
    rewrite Hac, Hbd by congruence. do 2 f_equal.
    apply IH; [| |done]; unfold isLowerHexOf; apply andb_true_iff; done.
Qed.

Section merkle.
Context `{CryptoLaws}.

Abbreviation hex64 := (λ s, isLowerHexOf 64 s = true).

Lemma merkle_pairs_hex (l : list string) : Forall hex64 (merkle_pairs l).
Proof.
  remember (length l) as n eqn:Hn. revert l Hn. induction n as [n IH] using lt_wf_ind; intros [|a [|b l]] ->;
    [constructor..|]. constructor; [apply sha256_hex|]. eapply IH; [|reflexivity]. simpl. lia.
Qed.

Lemma string_app_inv (a b c d : string) :
  String.length a = String.length c → a +:+ b = c +:+ d → a = c ∧ b = d.
Proof.
  revert c. induction a as [|x a IH]; intros [|y c] Hl E; try done.
  injection E as -> E. injection Hl as Hl. destruct (IH c Hl E) as [-> ->]. done.
Qed.

(** The byte strings hashed by a round, by the loop and for the leaves. *)
Fixpoint pair_inputs (level : list string) : list (list Z) :=
  match level with
  | a :: b :: rest => hexBytes (a +:+ b) :: pair_inputs rest
  | _ => []
  end.
Fixpoint level_inputs (fuel : nat) (level : list string) : list (list Z) :=
  match fuel, level with
  | S fuel', _ :: _ :: _ => pair_inputs (merkle_pad level) ++ level_inputs fuel' (merkle_pairs (merkle_pad level))
  | _, _ => []
  end.
Definition leaf_input (value : jsval units) : list Z := match canonicalBytes value with Ok b => b | Throw _ => [] end.
Definition merkle_inputs (values : list (jsval units)) : list (list Z) :=
  map leaf_input values ++ level_inputs (length values) (map (λ v, sha256 (leaf_input v)) values).

(** A round of the loop is injective on levels of the same even length as long
    as no two of its inputs collide. *)
Lemma merkle_pairs_inj (inputs : list (list Z)) (n : nat) (l k : list string) :
  collision_free inputs → pair_inputs l ⊆ inputs → pair_inputs k ⊆ inputs →
  length l = (2 * n)%nat → length k = (2 * n)%nat → Forall hex64 l → Forall hex64 k →
  merkle_pairs l = merkle_pairs k → l = k.
Proof.
  intros Hfree. revert l k. induction n as [|n IH]; intros l k Il Ik Hl Hk Hhl Hhk E.
  - by destruct l, k.
  - replace (2 * S n)%nat with (S (S (2 * n))) in * by lia.
    destruct l as [|a [|b l]]; [done..|]. destruct k as [|c [|d k]]; [done..|].
    cbn in Hl, Hk. injection Hl as Hl. injection Hk as Hk. cbn in E. injection E as E1 E2.
    apply Forall_cons in Hhl as [Ha Hhl]. apply Forall_cons in Hhl as [Hb Hhl].
    apply Forall_cons in Hhk as [Hc Hhk]. apply Forall_cons in Hhk as [Hd Hhk].
    cbn [pair_inputs] in Il, Ik.
    apply Hfree in E1; [|apply Il; left|apply Ik; left].
    apply (hexBytes_inj 64) in E1; [|by apply (ToyCrypto.isLowerHexOf_app 64 64)..].
    apply andb_true_iff in Ha as [Ha%Nat.eqb_eq _]. apply andb_true_iff in Hc as [Hc%Nat.eqb_eq _].
    apply string_app_inv in E1 as [-> ->]; [|congruence].
    f_equal. f_equal. apply IH; try done; intros x Hx; [apply Il|apply Ik]; by right.
Qed.

Lemma half_up (n : nat) : (2 * ((n + 1) / 2) ≤ n + 1 < 2 * ((n + 1) / 2) + 2)%nat.
Proof. pose proof (Nat.div_mod_eq (n + 1) 2). pose proof (Nat.mod_upper_bound (n + 1) 2 ltac:(lia)). lia. Qed.

Lemma merkle_pad_length (l : list string) :
  l ≠ [] → length (merkle_pad l) = (2 * ((length l + 1) / 2))%nat.
Proof.
  intros Hl. unfold merkle_pad.
  pose proof (Nat.div_mod_eq (length l) 2). pose proof (Nat.mod_upper_bound (length l) 2 ltac:(lia)).
  destruct (Nat.eqb_spec (length l mod 2) 1) as [E|E].
  - rewrite length_app. destruct (last l) as [x|] eqn:El; [change (length (option_list (Some x))) with 1%nat|by apply last_None in El].
    pose proof (Nat.div_mod_eq (length l + 1) 2). pose proof (Nat.mod_upper_bound (length l + 1) 2 ltac:(lia)). lia.
  - pose proof (Nat.div_mod_eq (length l + 1) 2). pose proof (Nat.mod_upper_bound (length l + 1) 2 ltac:(lia)). lia.
Qed.

Lemma merkle_pad_hex (l : list string) : Forall hex64 l → Forall hex64 (merkle_pad l).
Proof.
  intros Hl. unfold merkle_pad. destruct (Nat.eqb _ _); [|done]. apply Forall_app. split; [done|].
  destruct (last l) eqn:E; [|constructor]. repeat constructor. apply last_Some_elem_of in E.
  by rewrite Forall_forall in Hl; apply Hl.
Qed.

Lemma merkle_pad_inj (l k : list string) :
  length l = length k → merkle_pad l = merkle_pad k → l = k.
Proof.
  intros Hl. unfold merkle_pad. rewrite Hl. destruct (Nat.eqb _ _); [|done]. by intros [? _]%app_inj_1.
Qed.

Lemma merkle_pairs_length (n : nat) (l : list string) :
  length l = (2 * n)%nat → length (merkle_pairs l) = n.
Proof.
  revert l. induction n as [|n IH]; intros l Hl; [by destruct l|].
  replace (2 * S n)%nat with (S (S (2 * n))) in * by lia.
  destruct l as [|a [|b l]]; [done..|]. cbn in *. f_equal. apply IH. lia.
Qed.

Lemma merkle_round_length (l : list string) :
  l ≠ [] → length (merkle_pairs (merkle_pad l)) = ((length l + 1) / 2)%nat.
Proof. intros Hl. by apply merkle_pairs_length, merkle_pad_length. Qed.

Lemma merkle_loop_step (fuel : nat) (a b : string) (l : list string) :
  merkle_loop (S fuel) (a :: b :: l) = merkle_loop fuel (merkle_pairs (merkle_pad (a :: b :: l))).
Proof. done. Qed.

Lemma merkle_loop_total (fuel : nat) (l : list string) :
  l ≠ [] → (length l ≤ S fuel)%nat → ∃ root, merkle_loop fuel l = Ok root.
Proof.
  revert l. induction fuel as [|fuel IH]; intros [|a [|b l]] Hne Hl; try done; [by eexists..| |by eexists|].
  - simpl in Hl. lia.
  - rewrite merkle_loop_step.
    pose proof (merkle_round_length (a :: b :: l) ltac:(done)) as Hr.
    pose proof (half_up (length (a :: b :: l))) as Hh. revert Hr Hh. cbn [length] in Hl |- *.
    generalize ((S (S (length l)) + 1) / 2)%nat. intros h Hr Hh.
    apply IH; [intros E; rewrite E in Hr; cbn [length] in Hr; lia|lia].
Qed.

Lemma merkle_loop_inj (inputs : list (list Z)) (fuel : nat) (l k : list string) (root : string) :
  collision_free inputs → level_inputs fuel l ⊆ inputs → level_inputs fuel k ⊆ inputs →
  length l = length k → Forall hex64 l → Forall hex64 k →
  merkle_loop fuel l = Ok root → merkle_loop fuel k = Ok root → l = k.
Proof.
  intros Hfree. revert l k. induction fuel as [|fuel IH]; intros l k Il Ik Hlen Hl Hk El Ek.
  - destruct l as [|a [|b l]], k as [|c [|d k]]; try done. cbn in *. congruence.
  - destruct l as [|a [|b l]], k as [|c [|d k]]; try done; [cbn in *; congruence|].
    rewrite merkle_loop_step in El, Ek. cbn [level_inputs] in Il, Ik.
    assert (length (merkle_pairs (merkle_pad (a :: b :: l))) = length (merkle_pairs (merkle_pad (c :: d :: k)))) as Hr.
    { rewrite !merkle_round_length by done. by rewrite Hlen. }
    assert (merkle_pairs (merkle_pad (a :: b :: l)) = merkle_pairs (merkle_pad (c :: d :: k))) as E.
    { apply IH; [set_solver..|done|apply merkle_pairs_hex|apply merkle_pairs_hex|done|done]. }
    apply (merkle_pairs_inj inputs ((length (a :: b :: l) + 1) / 2)) in E; [|done|set_solver|set_solver|..].
    + by apply merkle_pad_inj.
    + by apply merkle_pad_length.
    + rewrite Hlen. by apply merkle_pad_length.
    + by apply merkle_pad_hex.
    + by apply merkle_pad_hex.
Qed.

Lemma res_seq_leaves (values : list (jsval units)) (level : list string) :
  res_seq (map merkle_leaf values) = Ok level →
  Forall hex64 level ∧ Forall2 (λ v h, ∃ b, canonicalBytes v = Ok b ∧ h = sha256 b) values level.
Proof.
  revert level. induction values as [|v values IH]; intros level E; simpl in E.
  - apply Ok_inj in E as <-. repeat constructor.
  - apply res_bind_Ok in E as (h & Eh & E). apply res_bind_Ok in E as (hs & Ehs & E). apply Ok_inj in E as <-.
    destruct (IH hs Ehs) as [IH1 IH2]. unfold merkle_leaf in Eh. apply res_bind_Ok in Eh as (b & Eb & Eh).
    apply Ok_inj in Eh as <-. split; constructor; eauto. apply sha256_hex.
Qed.

Lemma leaves_computed (vs : list (jsval units)) (level : list string) :
  Forall2 (λ v h, ∃ b, canonicalBytes v = Ok b ∧ h = sha256 b) vs level → level = map (λ v, sha256 (leaf_input v)) vs.
Proof.
  induction 1 as [|v h vs level (b & Eb & ->) _ IH]; [done|]. cbn [map]. rewrite <-IH. unfold leaf_input. by rewrite Eb.
Qed.

Lemma leaves_agree (inputs : list (list Z)) (vs ws : list (jsval units)) (level : list string) :
  collision_free inputs → map leaf_input vs ⊆ inputs → map leaf_input ws ⊆ inputs →
  Forall2 (λ v h, ∃ b, canonicalBytes v = Ok b ∧ h = sha256 b) vs level →
  Forall2 (λ v h, ∃ b, canonicalBytes v = Ok b ∧ h = sha256 b) ws level →
  Forall2 (λ v w, canonicalBytes v = canonicalBytes w) vs ws.
Proof.
  intros Hfree Iv Iw Hv. revert ws Iw. induction Hv as [|v h vs level (b & Eb & ->) Hv IH]; intros ws Iw Hw;
    inversion Hw as [|w h' ws' level' (b' & Eb' & Eh) Hw']; subst; constructor.
  - rewrite Eb, Eb'. f_equal. assert (leaf_input v = b ∧ leaf_input w = b') as [Lv Lw] by (unfold leaf_input; by rewrite Eb, Eb').
    rewrite <-Lv, <-Lw in Eh. rewrite <-Lv, <-Lw. apply Hfree; [apply Iv|apply Iw|done]; by left.
  - apply IH; [intros x Hx; apply Iv; by right|intros x Hx; apply Iw; by right|done].
Qed.

Lemma merkleRoot_inv (values : list (jsval units)) (root : string) :
  values ≠ [] → merkleRoot values = Ok root →
  ∃ level, res_seq (map merkle_leaf values) = Ok level ∧ merkle_loop (length level) level = Ok root.
Proof. destruct values; [done|]. intros _ E. by apply res_bind_Ok in E. Qed.

(** A Merkle root binds a list of known length: two lists of values of the same
    length with the same root have, entry by entry, the same canonical
    encoding, or two of the byte strings hashed for the two lists collide. *)
Theorem merkleRoot_binding (vs ws : list (jsval units)) (root : string) :
  length vs = length ws → merkleRoot vs = Ok root → merkleRoot ws = Ok root →
  Forall2 (λ v w, canonicalBytes v = canonicalBytes w) vs ws ∨ collision_among (merkle_inputs vs ++ merkle_inputs ws).
Proof.
  intros Hlen Hv Hw. destruct (free_or_collision (merkle_inputs vs ++ merkle_inputs ws)) as [Hfree|]; [left|by right].
  destruct (decide (vs = [])) as [->|Hne]; [destruct ws; [by repeat constructor|done]|].
  assert (ws ≠ []) as Hne' by (intros ->; by destruct vs).
  apply merkleRoot_inv in Hv as (lv & Elv & Hv); [|done]. apply merkleRoot_inv in Hw as (lw & Elw & Hw); [|done].
  apply res_seq_leaves in Elv as [Hhv Hlv], Elw as [Hhw Hlw].
  pose proof (leaves_computed vs lv Hlv) as Cv. pose proof (leaves_computed ws lw Hlw) as Cw.
  assert (length lv = length lw) as Hll.
  { apply Forall2_length in Hlv, Hlw. congruence. }
  rewrite <-Hll in Hw. assert (lv = lw) as <-.
  { apply (merkle_loop_inj (merkle_inputs vs ++ merkle_inputs ws) (length lv) lv lw root); try done; unfold merkle_inputs.
    - rewrite <-Cv, <-(Forall2_length _ _ _ Hlv). set_solver.
    - rewrite <-Cw, <-(Forall2_length _ _ _ Hlv), Hlen. set_solver. }
  apply (leaves_agree (merkle_inputs vs ++ merkle_inputs ws) vs ws lv); unfold merkle_inputs; set_solver.
Qed.

(** The loop of [merkleRoot] terminates: the root exists whenever every value
    has a canonical encoding. *)
Theorem merkleRoot_total (values : list (jsval units)) :
  (∀ v, v ∈ values → isOk (canonicalBytes v) = true) → ∃ root, merkleRoot values = Ok root.
Proof.
  intros Hv. destruct values as [|v values]; [by eexists|].
  assert (∃ level, res_seq (map merkle_leaf (v :: values)) = Ok level) as [level El].
  { revert Hv. generalize (v :: values). clear. induction l as [|v l IH]; intros Hv; [by eexists|].
    pose proof (Hv v ltac:(set_solver)) as Hv0. apply isOk_spec in Hv0 as [b Eb].
    destruct IH as [hs Ehs]; [set_solver|]. 
    assert (merkle_leaf v = Ok (sha256 b)) as Hb by (unfold merkle_leaf; by rewrite Eb).
    cbn [map res_seq]. rewrite Hb. cbn [mbind res_bind]. rewrite Ehs. by eexists. }
  unfold merkleRoot. rewrite El. cbn [mbind res_bind].
  apply merkle_loop_total; [|lia]. apply res_seq_leaves in El as [_ El].
  intros ->. inversion El.
Qed.

(** An odd level repeats its last entry, so a list of odd length and the list
    with its last entry repeated have the same root. *)
Lemma merkleRoot_repeated_last (values : list (jsval units)) (v : jsval units) :
  Nat.Even (length values) → values ≠ [] → merkleRoot (values ++ [v; v]) = merkleRoot (values ++ [v]).
Proof.
  intros [n Hn] Hne.
  assert (∀ l, l ≠ [] → merkleRoot l = (level ← res_seq (map merkle_leaf l); merkle_loop (length level) level)) as Hm.
  { by intros [|]. }
  rewrite !Hm by (by destruct values). rewrite !map_app.
  assert (∀ a b : list (res string), res_seq (a ++ b) = (x ← res_seq a; y ← res_seq b; Ok (x ++ y))) as Happ.
  { clear. induction a as [|r a IH]; intros b; simpl; [by destruct (res_seq b)|].
    destruct r; simpl; [|done]. rewrite IH. destruct (res_seq a); simpl; [|done]. by destruct (res_seq b). }
  rewrite !Happ. destruct (res_seq (map merkle_leaf values)) as [lv|] eqn:El; cbn [mbind res_bind]; [|done].
  cbn [map res_seq]. destruct (merkle_leaf v) as [h|]; cbn [mbind res_bind]; [|done].
  apply res_seq_leaves in El as [_ El]. apply Forall2_length in El.
  destruct lv as [|a [|b lv]]; [destruct values; done|simpl in El; lia|].
  assert (merkle_pad ((a :: b :: lv) ++ [h]) = merkle_pad ((a :: b :: lv) ++ [h; h])) as Hp.
  { unfold merkle_pad. rewrite !length_app, <-El, Hn. cbn [length].
    replace (2 * n + 1)%nat with (1 + n * 2)%nat by lia. rewrite Nat.Div0.mod_add.
    replace (2 * n + 2)%nat with (0 + (n + 1) * 2)%nat by lia. rewrite Nat.Div0.mod_add.
    rewrite last_snoc. simpl. by rewrite <-app_assoc. }
  set (k := length ((a :: b :: lv) ++ [h])).
  replace (length ((a :: b :: lv) ++ [h; h])) with (S k) by (unfold k; rewrite !length_app; simpl; lia).
  assert (∃ k', k = S k') as [k' Hk] by (unfold k; rewrite length_app; simpl; by eexists).
  rewrite Hk. cbn [app]. rewrite !merkle_loop_step. cbn [app] in Hp. rewrite Hp.
  assert (∀ f l r, merkle_loop f l = Ok r → merkle_loop (S f) l = Ok r) as Hmono.
  { clear. induction f as [|f IH]; intros [|a [|b l]] r Hr; try done.
    rewrite merkle_loop_step. rewrite merkle_loop_step in Hr. by apply IH. }
  destruct (merkle_loop_total k' (merkle_pairs (merkle_pad (a :: b :: lv ++ [h; h])))) as [r Hr].
  - intros E. pose proof (merkle_round_length (a :: b :: lv ++ [h; h]) ltac:(done)) as Hl. rewrite E in Hl.
    pose proof (half_up (length (a :: b :: lv ++ [h; h]))) as Hh. rewrite <-Hl in Hh. cbn [length] in Hh. lia.
  - rewrite merkle_round_length by done. pose proof (half_up (length (a :: b :: lv ++ [h; h]))) as Hh.
    revert Hh. generalize ((length (a :: b :: lv ++ [h; h]) + 1) / 2)%nat. intros j Hh.
    unfold k in Hk. rewrite !length_app in Hk. cbn [length] in *. rewrite length_app in Hh. cbn [length] in Hh. lia.
  - rewrite Hr. by apply Hmono.
Qed.

End merkle.

Lemma merkleRoot_binding_witness :
  Forall2 (λ v w, canonicalBytes v = canonicalBytes w)
    [JNum (JInt 1); JObj [(lit "a", JNull); (lit "b", JNull)]]
    [JNum (JInt 1); JObj [(lit "b", JNull); (lit "a", JNull)]] ∨
  collision_among (H := ToyCrypto.toy) (merkle_inputs (H := ToyCrypto.toy) [JNum (JInt 1); JObj [(lit "a", JNull); (lit "b", JNull)]] ++
    merkle_inputs (H := ToyCrypto.toy) [JNum (JInt 1); JObj [(lit "b", JNull); (lit "a", JNull)]]).
Proof.
  eapply merkleRoot_binding; [reflexivity|vm_compute; reflexivity|vm_compute; reflexivity].
Defined.

Lemma merkleRoot_total_witness : ∃ root, merkleRoot [JNull; JStr (lit "tx"); JBool true] = Ok root.
Proof.
  apply merkleRoot_total. intros v Hv. repeat (apply elem_of_cons in Hv as [->|Hv]; [reflexivity|]).
  by apply elem_of_nil in Hv.
Defined.

(** ** Checksummed addresses *)

Lemma string_list_inv (s : string) : String.string_of_list_ascii (String.list_ascii_of_string s) = s.
Proof. apply String.string_of_list_ascii_of_string. Qed.
Lemma list_string_inv (l : list Ascii.ascii) : String.list_ascii_of_string (String.string_of_list_ascii l) = l.
Proof. apply String.list_ascii_of_string_of_list_ascii. Qed.

(** The two shapes an address text can have. *)
Lemma isAddress_body (a : string) :
  isAddress a = true ↔ a = "ZYN" +:+ String.string_of_list_ascii (addressBody a) ∧
    length (addressBody a) = 40%nat ∧ forallb isLowerHex (addressBody a) = true.
Proof.
  unfold addressBody. split.
  - unfold isAddress. intros Ha. destruct a as [|x [|y [|z body]]]; try (by repeat case_match).
    assert (x = "Z"%char ∧ y = "Y"%char ∧ z = "N"%char ∧ isLowerHexOf 40 body = true) as (-> & -> & -> & Hb).
    { repeat case_match; simplify_eq; done. }
    change (drop 3 _) with (String.list_ascii_of_string body). rewrite string_list_inv.
    apply andb_true_iff in Hb as [Hl Hb].
    split; [done|]. split; [|done]. apply Nat.eqb_eq in Hl. rewrite <-Hl. clear.
    induction body; cbn; congruence.
  - intros (Ha & Hl & Hb). set (l := drop 3 _) in *. rewrite Ha. clearbody l. clear Ha.
    change (isLowerHexOf 40 (String.string_of_list_ascii l) = true). unfold isLowerHexOf.
    rewrite list_string_inv, Hb, andb_true_r. apply Nat.eqb_eq. rewrite <-Hl. clear.
    induction l; cbn; congruence.
Qed.

Lemma isAddressInput_body (l : list Ascii.ascii) :
  length l = 40%nat → forallb (λ c, isLowerHex c || isUpperHexLetter c) l = true →
  isAddressInput ("ZYN" +:+ String.string_of_list_ascii l) = true.
Proof.
  intros Hl Hb. change (Nat.eqb (String.length (String.string_of_list_ascii l)) 40 &&
    forallb (λ c, isLowerHex c || isUpperHexLetter c) (String.list_ascii_of_string (String.string_of_list_ascii l)) = true).
  rewrite list_string_inv, Hb, andb_true_r. apply Nat.eqb_eq. rewrite <-Hl. clear. induction l; cbn; congruence.
Qed.

Lemma toLower_cases (c : Ascii.ascii) :
  isLowerHex c = true → toLower c = c ∧ toLower (toUpper c) = c ∧ (isUpperHexLetter (toUpper c) || isLowerHex (toUpper c) = true).
Proof. by destruct c as [[] [] [] [] [] [] [] []]; vm_compute. Qed.

(** The checksummed body of a canonical address. *)
Definition mixed `{Crypto} (hash : list Ascii.ascii) (body : list Ascii.ascii) : list Ascii.ascii :=
  imap (λ index c, if isLowerHexLetter c && (8 <=? default 0 (hash !! index ≫= hexValue)) then toUpper c else c) body.

Lemma mixed_lower `{Crypto} (hash body : list Ascii.ascii) :
  forallb isLowerHex body = true →
  toLower <$> mixed hash body = body ∧ length (mixed hash body) = length body ∧
  forallb (λ c, isLowerHex c || isUpperHexLetter c) (mixed hash body) = true.
Proof.
  unfold mixed. revert hash. induction body as [|c body IH]; intros hash Hb; [done|].
  cbn in Hb. apply andb_true_iff in Hb as [Hc Hb]. destruct (toLower_cases c Hc) as (H1 & H2 & H3).
  rewrite imap_cons. specialize (IH (tail hash) Hb).
  assert (imap ((λ index c, if isLowerHexLetter c && (8 <=? default 0 (hash !! index ≫= hexValue)) then toUpper c else c) ∘ S) body
    = imap (λ index c, if isLowerHexLetter c && (8 <=? default 0 (tail hash !! index ≫= hexValue)) then toUpper c else c) body) as ->.
  { apply imap_ext. intros i x _. unfold compose. by rewrite lookup_tail. }
  destruct IH as (IH1 & IH2 & IH3). csimpl. rewrite IH1, IH2, IH3, andb_true_r.
  repeat split; destruct (isLowerHexLetter c && _); rewrite ?H1, ?H2, ?Hc; try done. by rewrite orb_comm.
Qed.

Lemma toChecksumAddress_mixed `{Crypto} (a : string) :
  isAddress a = true →
  toChecksumAddress a = Ok ("ZYN" +:+ String.string_of_list_ascii
    (mixed (String.list_ascii_of_string (sha256 (utf8 (lit (ADDRESS_CHECKSUM_DOMAIN +:+ a))))) (addressBody a))).
Proof. intros Ha. unfold toChecksumAddress. by rewrite Ha. Qed.

(** [parseAddressInput] accepts exactly two spellings of an address: the
    canonical lower-case one, without a verified checksum, and the one
    [toChecksumAddress] prints, with it; it returns the same address for both.
    Every other mix of upper and lower case is refused. *)
Theorem parseAddressInput_spec `{Crypto} (a c input : string) :
  isAddress a = true → toChecksumAddress a = Ok c →
  parseAddressInput a = Ok (mkParsedAddress a c false) ∧
  parseAddressInput c = Ok (mkParsedAddress a c (negb (String.eqb c a))) ∧
  (∀ p, parseAddressInput input = Ok p → pa_canonical p = a → input = a ∨ input = c).
Proof.
  intros Ha Hc. pose proof Hc as Hc0. rewrite (toChecksumAddress_mixed a Ha) in Hc.
  apply Ok_inj in Hc. apply isAddress_body in Ha as Hb. destruct Hb as (Hb1 & Hb2 & Hb3).
  set (m := mixed _ (addressBody a)) in Hc. destruct (mixed_lower _ _ Hb3 : _ ∧ length m = _ ∧ forallb _ m = _) as (Hm1 & Hm2 & Hm3).
  change (toLower <$> m = addressBody a) in Hm1.
  assert (addressBody c = m) as Hbody by (rewrite <-Hc; unfold addressBody; cbn; apply list_string_inv).
  assert (isAddressInput c = true) as Hin.
  { rewrite <-Hc. apply isAddressInput_body; [|done]. congruence. }
  assert (isAddressInput a = true ∧ toLower <$> addressBody a = addressBody a) as [Hina Hlow].
  { split.
    - rewrite Hb1. apply isAddressInput_body; [done|].
      rewrite forallb_forall in *. intros x Hx. by rewrite (Hb3 x Hx).
    - clear - Hb3. induction (addressBody a) as [|x l IH]; [done|]. cbn in Hb3. apply andb_true_iff in Hb3 as [Hx Hb3].
      csimpl. destruct (toLower_cases x Hx) as [-> _]. by rewrite IH. }
  split; [|split].
  - unfold parseAddressInput. rewrite Hina, Hlow. cbn [negb throw_if mbind res_bind]. rewrite <-Hb1, Hc0.
    cbn [mbind res_bind]. by rewrite String.eqb_refl.
  - unfold parseAddressInput. rewrite Hin, Hbody, Hm1. cbn [negb throw_if mbind res_bind]. rewrite <-Hb1, Hc0.
    cbn [mbind res_bind]. destruct (String.eqb c a); [done|]. by rewrite String.eqb_refl.
  - intros p. unfold parseAddressInput. intros Hp. apply res_bind_Ok in Hp as ([] & _ & Hp).
    apply res_bind_Ok in Hp as (c' & Hc' & Hp). revert Hp.
    set (can := "ZYN" +:+ String.string_of_list_ascii (toLower <$> addressBody input)) in *.
    destruct (String.eqb_spec input can) as [E|E].
    + intros <-%Ok_inj. cbn [pa_canonical]. left. congruence.
    + intros Hp. apply res_bind_Ok in Hp as ([] & Ht & Hp). apply Ok_inj in Hp as <-. cbn [pa_canonical].
      apply throw_if_Ok, negb_false_iff, String.eqb_eq in Ht. intros Hcan. right.
      rewrite Hcan, Hc0 in Hc'. apply Ok_inj in Hc' as <-. done.
Qed.

Lemma parseAddressInput_spec_witness :
  let a := "ZYNabcdefabcdefabcdefabcdefabcdefabcdefabcd" in
  ∃ c, toChecksumAddress (H := ToyCrypto.toy) a = Ok c ∧
    parseAddressInput (H := ToyCrypto.toy) c = Ok (mkParsedAddress a c (negb (String.eqb c a))).
Proof.
  intros a. destruct (toChecksumAddress a) as [c|] eqn:E; [|by vm_compute in E].
  exists c. split; [done|]. apply (parseAddressInput_spec a c "" eq_refl E).
Defined.
