(* ===== verification/Activity.v ===== *)
(** Activity settlement limits (l1/src/activity.ts), the fixed-fee policy
    (l1/src/fee-policy.ts) and retired mining (the rejection of l1/src/mining.ts
    is in Types.v). *)

From S2P Require Import Prelude Types.

(** ** activity.ts *)

Definition ACTIVITY_EPOCH_MS : Z := 86400000.
Definition MAX_ACTIVITY_SETTLEMENT_ATOMS : Z := 10000 * ATOMS_PER_ZYN.
Definition PUBLIC_LAUNCH_ACTIVITY_CAP_ATOMS : Z := 1000 * ATOMS_PER_ZYN.

Definition ACTIVITY_CAP_MESSAGE : string := "Activity settlement exceeds the per-epoch activity cap".
Definition ACTIVITY_NOT_CLOSED_MESSAGE : string := "Activity epoch is not closed yet".
Definition ACTIVITY_WINDOW_CLOSED_MESSAGE : string := "Activity epoch settlement window has closed".
Definition ACTIVITY_ORDER_MESSAGE : string := "Activity epochs must settle in increasing order".

(** The oracle authorization context of activity-oracle.ts; a genesis is read
    through it with [genesisOracles]. *)
Record ActivityOracleSet := mkOracleSet {
  os_activityOracles : list string;
  os_activityOracleThreshold : option Z;
  os_activityOraclePolicy : option string;
  os_activitySettlementCapAtoms : option Z;
  os_launchProfile : option string;
  os_timestampMs : option Z;
  os_paused : bool;
  os_revokedPublicKeys : list string }.

Definition genesisOracles (g : GenesisConfig) : ActivityOracleSet :=
  mkOracleSet (g_activityOracles g) (g_activityOracleThreshold g) (g_activityOraclePolicy g)
    (g_activitySettlementCapAtoms g) (g_launchProfile g) (Some (g_timestampMs g)) false [].

(** [genesis?.activityOraclePolicy === policy] *)
Definition hasPolicy (genesis : option ActivityOracleSet) (policy : string) : bool :=
  bool_decide ((genesis ≫= os_activityOraclePolicy) = Some policy).

Definition activitySettlementCapAtoms (genesis : option ActivityOracleSet) : Z :=
  if hasPolicy genesis "threshold-v1" then
    default PUBLIC_LAUNCH_ACTIVITY_CAP_ATOMS (genesis ≫= os_activitySettlementCapAtoms)
  else if hasPolicy genesis "test-single-v1" then
    default MAX_ACTIVITY_SETTLEMENT_ATOMS (genesis ≫= os_activitySettlementCapAtoms)
  else MAX_ACTIVITY_SETTLEMENT_ATOMS.

Definition assertActivitySettlementWithinCap (entries : list ActivityEntry) (capAtoms : Z) : res Z :=
  throw_if (negb (isSafeInteger capAtoms) || (capAtoms <? 1)) "Invalid activity cap";;
  res_fold (λ total entry,
    throw_if (negb (isSafeInteger (e_amountAtoms entry)) || (e_amountAtoms entry <? 0)) "Invalid activity amount";;
    let total := total + e_amountAtoms entry in
    throw_if (capAtoms <? total) ACTIVITY_CAP_MESSAGE;;
    Ok total) 0 entries.

Definition activityEpochAt (genesisTimestampMs timestampMs : Z) : res Z :=
  throw_if (negb (isSafeInteger genesisTimestampMs) || negb (isSafeInteger timestampMs))
    "Invalid activity epoch timestamp";;
  if timestampMs <? genesisTimestampMs then Ok (-1)
  else Ok (math_floor_div (timestampMs - genesisTimestampMs) ACTIVITY_EPOCH_MS).

Definition assertActivityEpochWindow (epoch genesisTimestampMs blockTimestampMs : Z) : res unit :=
  throw_if (negb (isSafeInteger epoch) || (epoch <? 0)) "Invalid activity epoch";;
  current ← activityEpochAt genesisTimestampMs blockTimestampMs;
  throw_if (current <=? epoch) ACTIVITY_NOT_CLOSED_MESSAGE;;
  throw_if (epoch <? current - 1) ACTIVITY_WINDOW_CLOSED_MESSAGE.

Definition activityEpochWindowExpired (epoch genesisTimestampMs earliestBlockTimestampMs : Z) : res bool :=
  current ← activityEpochAt genesisTimestampMs earliestBlockTimestampMs;
  Ok (epoch <? current - 1).

Definition ACTIVITY_ROLLING_WINDOW_MS : Z := 86400000.
Definition ACTIVITY_WINDOW_TIME_ADDRESS : Address := "ZYN0000000000000000000000000000000000000001".
Definition ACTIVITY_WINDOW_AMOUNT_ADDRESS : Address := "ZYN0000000000000000000000000000000000000002".
Definition ACTIVITY_ROLLING_CAP_MESSAGE : string :=
  "Activity settlements exceed the activity cap in a rolling 24-hour window".
Definition ACTIVITY_WINDOW_RESERVED_MESSAGE : string := "Activity window record address is protocol-reserved".
Definition ACTIVITY_ROLLING_WINDOW_PROFILE : string := "fixed-supply-v1".

Definition activityRollingWindowEnforced (genesis : option ActivityOracleSet) : bool :=
  bool_decide ((genesis ≫= os_launchProfile) = Some ACTIVITY_ROLLING_WINDOW_PROFILE).

Definition ACTIVITY_POOL_DEBIT_MESSAGE : string := "Activity pool can only be debited by activity settlements".

Definition assertNoActivityPoolDirectDebit (sender activityPool : Address) (genesis : option ActivityOracleSet) : res unit :=
  throw_if (activityRollingWindowEnforced genesis && String.eqb sender activityPool) ACTIVITY_POOL_DEBIT_MESSAGE.

Definition isActivityWindowAddress (address : string) : bool :=
  String.eqb address ACTIVITY_WINDOW_TIME_ADDRESS || String.eqb address ACTIVITY_WINDOW_AMOUNT_ADDRESS.

Record ActivityWindowRecord := mkWindowRecord { wr_timestampMs : Z; wr_amountAtoms : Z }.

Definition assertActivityRollingWindow (previous : ActivityWindowRecord) (blockTimestampMs : option Z)
    (totalAtoms capAtoms : Z) : res unit :=
  throw_if (negb (isSafeInteger capAtoms) || (capAtoms <? 1) || (MAX_ACTIVITY_SETTLEMENT_ATOMS <? capAtoms))
    "Invalid activity cap";;
  match blockTimestampMs with
  | None => Throw "Activity rolling window requires the block timestamp"
  | Some now =>
    throw_if (negb (isSafeInteger now) || (now <? 0)) "Activity rolling window requires the block timestamp";;
    throw_if (negb (isSafeInteger (wr_timestampMs previous)) || (wr_timestampMs previous <? 0)
              || negb (isSafeInteger (wr_amountAtoms previous)) || (wr_amountAtoms previous <? 0)
              || (capAtoms <? wr_amountAtoms previous) || (now <? wr_timestampMs previous))
      "Corrupt activity window state";;
    throw_if (negb (isSafeInteger totalAtoms) || (totalAtoms <? 0)) "Invalid activity amount";;
    throw_if ((now - wr_timestampMs previous <? ACTIVITY_ROLLING_WINDOW_MS)
              && (capAtoms <? wr_amountAtoms previous + totalAtoms))
      ACTIVITY_ROLLING_CAP_MESSAGE
  end.

(** ** fee-policy.ts *)

Definition FEE_POLICY_V1 : string := "fixed-fee-v1".
Definition FIXED_TRANSFER_FEE_ATOMS : Z := ATOMS_PER_ZYN / 1000.
Definition FIXED_FEE_MISMATCH_MESSAGE : string := "Transfer fee must equal the fixed protocol fee".
Definition MAX_MEMPOOL_PENDING_PER_SENDER : Z := 64.

Record FixedFeeApplication := mkFixedFee { ff_producer : Address; ff_fixedTransferFeeAtoms : Z }.

Definition splitFixedFee (feeAtoms : Z) : res (Z * Z) (* burnAtoms, producerAtoms *) :=
  throw_if (negb (isSafeInteger feeAtoms) || (feeAtoms <? 0)) "Invalid fixed transfer fee";;
  let producerAtoms := math_floor_div feeAtoms 2 in
  Ok (feeAtoms - producerAtoms, producerAtoms).

Definition readFeePolicy (genesis : GenesisConfig) : option FeePolicyV1 := g_feePolicy genesis.

Definition feePolicyActive (genesis : GenesisConfig) : bool :=
  match readFeePolicy genesis with Some p => String.eqb (fp_version p) FEE_POLICY_V1 | None => false end.

(** The record type already has exactly the two keys the source checks for. *)
Definition validateGenesisFeePolicy (genesis : GenesisConfig) : res unit :=
  match g_feePolicy genesis with
  | None => Ok ()
  | Some policy =>
    throw_if (negb (String.eqb (fp_version policy) FEE_POLICY_V1)) "Unsupported fixed-fee policy version";;
    throw_if (negb (bool_decide (g_launchProfile genesis = Some "fixed-supply-v1")))
      "fixed-fee-v1 requires launchProfile fixed-supply-v1";;
    let fee := fp_fixedTransferFeeAtoms policy in
    throw_if (negb (isSafeInteger fee) || (fee <? 1) || (MAX_SUPPLY_ATOMS <? fee)) "Invalid fixed transfer fee"
  end.

Definition assertMempoolSenderNonce (txNonce stateNonce : Z) : res unit :=
  throw_if (negb (isSafeInteger txNonce) || negb (isSafeInteger stateNonce)
            || (stateNonce + MAX_MEMPOOL_PENDING_PER_SENDER <? txNonce))
    "Transaction nonce outside mempool window";;
  throw_if (txNonce <=? stateNonce)
    ("Transaction nonce already used (nonce " +:+ pretty txNonce +:+ ", account nonce " +:+ pretty stateNonce
     +:+ "): replayed or stale transaction").

(** ** Caps and windows *)

Lemma settlement_total (entries : list ActivityEntry) (cap total : Z) :
  assertActivitySettlementWithinCap entries cap = Ok total →
  total = sumZ e_amountAtoms entries ∧ total ≤ Z.max 0 cap ∧ 1 ≤ cap ∧ ∀ e, e ∈ entries → 0 ≤ e_amountAtoms e.
Proof.
  unfold assertActivitySettlementWithinCap. intros Hr. apply res_bind_Ok in Hr as ([] & Hc & Hr).
  apply throw_if_Ok in Hc. breflect.
  apply (res_fold_inv (λ pre t, t = sumZ e_amountAtoms pre ∧ t ≤ Z.max 0 cap ∧ 1 ≤ cap ∧ ∀ e, e ∈ pre → 0 ≤ e_amountAtoms e)) in Hr.
  - done.
  - split; [done|]. split; [lia|]. split; [lia|]. set_solver.
  - intros pre e t t' (-> & Ht & H1 & Hpre) He Hb. res_inv. breflect.
    split; [rewrite sumZ_app; simpl; lia|]. split; [lia|]. split; [lia|].
    intros e' [He'|He'%list_elem_of_singleton]%elem_of_app; [auto|]. subst. lia.
Qed.

(** A settlement passes the cap check exactly when every amount is a
    non-negative safe integer and the exact sum is within the cap. *)
Lemma settlement_total_intro (entries : list ActivityEntry) (cap : Z) :
  1 ≤ cap ≤ MAX_SAFE_INTEGER → (∀ e, e ∈ entries → 0 ≤ e_amountAtoms e) →
  sumZ e_amountAtoms entries ≤ cap →
  assertActivitySettlementWithinCap entries cap = Ok (sumZ e_amountAtoms entries).
Proof.
  intros Hc He Hs. unfold assertActivitySettlementWithinCap.
  replace (negb (isSafeInteger cap) || (cap <? 1)) with false
    by (symmetry; breflect; unfold MAX_SAFE_INTEGER in *; lia). cbn [throw_if mbind res_bind].
  assert (∀ t, 0 ≤ t → t + sumZ e_amountAtoms entries ≤ cap →
    res_fold (λ total entry, throw_if (negb (isSafeInteger (e_amountAtoms entry)) || (e_amountAtoms entry <? 0)) "Invalid activity amount";;
      let total := total + e_amountAtoms entry in throw_if (cap <? total) ACTIVITY_CAP_MESSAGE;; Ok total) t entries
    = Ok (t + sumZ e_amountAtoms entries)) as G; [|apply G; lia].
  clear Hs. induction entries as [|e entries IH]; intros t Ht Hs; [simpl; by rewrite Z.add_0_r|].
  assert (0 ≤ e_amountAtoms e) by (apply He; set_solver).
  assert (0 ≤ sumZ e_amountAtoms entries) by (apply sumZ_nonneg; intros; apply He; set_solver).
  cbn [res_fold sumZ foldr] in *. fold (sumZ e_amountAtoms entries) in *.
  replace (negb (isSafeInteger (e_amountAtoms e)) || (e_amountAtoms e <? 0)) with false
    by (symmetry; breflect; unfold MAX_SAFE_INTEGER in *; lia). cbn [throw_if mbind res_bind].
  replace (cap <? t + e_amountAtoms e) with false by (symmetry; lia). cbn [throw_if mbind res_bind].
  rewrite IH; [f_equal; lia|intros; apply He; set_solver|lia|lia].
Qed.

(** The window of an epoch: block time in the 24 hours after the epoch. *)
Lemma epoch_window_spec (epoch genesis now : Z) (u : unit) :
  assertActivityEpochWindow epoch genesis now = Ok u →
  genesis + (epoch + 1) * ACTIVITY_EPOCH_MS ≤ now < genesis + (epoch + 2) * ACTIVITY_EPOCH_MS ∧ 0 ≤ epoch.
Proof.
  unfold assertActivityEpochWindow, activityEpochAt, math_floor_div. intros Hr.
  apply res_bind_Ok in Hr as ([] & He & Hr). apply res_bind_Ok in Hr as (cur & Hcur & Hr).
  apply res_bind_Ok in Hcur as ([] & _ & Hcur). res_inv; breflect; [lia|].
  unfold ACTIVITY_EPOCH_MS in *. Z.div_mod_to_equations. lia.
Qed.

(** Splitting the fixed fee loses no atom: burn and producer share add up to
    the fee, and the burn is the larger half. *)
Lemma splitFixedFee_spec (fee burn prod : Z) :
  splitFixedFee fee = Ok (burn, prod) → burn + prod = fee ∧ 0 ≤ prod ≤ burn ∧ burn - prod ≤ 1.
Proof.
  unfold splitFixedFee, math_floor_div. intros Hr. apply res_bind_Ok in Hr as ([] & Hr & Hs).
  apply throw_if_Ok in Hr. breflect. apply Ok_inj in Hs as [= <- <-].
  Z.div_mod_to_equations. lia.
Qed.
