(* ===== verification/Transaction.v ===== *)
(** Transactions (l1/src/transaction.ts): signing payloads, approvals, the
    constructors of every transaction kind and [validateTransactionShape], the
    gate every untrusted transaction passes.

    An untrusted value is a [jsval string].  [validateTransactionShape] narrows
    it: where the source asserts [value is Transaction], the model returns the
    typed transaction.  [-0] is read as [0] (both encode as "0"). *)

From S2P Require Import Prelude Types Codec Crypto Activity.

Definition VALIDATOR_SET_APPROVAL_DOMAIN : string := "zyronchain/validator-set-approval/v1".
Definition PROTOCOL_UPGRADE_APPROVAL_DOMAIN : string := "zyronchain/protocol-upgrade-approval/v1".
Definition ACTIVITY_SETTLEMENT_APPROVAL_DOMAIN : string := "zyronchain/activity-settlement-approval/v1".
Definition ACTIVITY_SETTLEMENT_APPROVAL_DOMAIN_V2 : string := "zyronchain/activity-settlement-approval/v2".
Definition ACTIVITY_ORACLE_GOVERNANCE_APPROVAL_DOMAIN : string := "zyronchain/activity-oracle-governance-approval/v1".
Definition MAX_ACTIVITY_ORACLE_APPROVALS : Z := 100.

(** ** Records as JavaScript values *)

Abbreviation json := (jsval string) (only parsing).

Fixpoint to_units (v : json) : jsval units :=
  match v with
  | JUndefined => JUndefined | JFunction => JFunction | JNull => JNull
  | JBool b => JBool b | JNum n => JNum n | JStr s => JStr (lit s)
  | JArr items => JArr (map to_units items)
  | JObj entries => JObj (map (λ e, (lit e.1, to_units e.2)) entries)
  end.

Definition jint (z : Z) : json := JNum (JInt z).

Definition validator_json (v : Validator) : json :=
  JObj [("address", JStr (v_address v)); ("publicKey", JStr (v_publicKey v))].
Definition approval_json (a : ValidatorApproval) : json :=
  JObj [("validator", JStr (ap_validator a)); ("publicKey", JStr (ap_publicKey a)); ("signature", JStr (ap_signature a))].
Definition proof_json (p : ValidatorPossessionProof) : json :=
  JObj [("address", JStr (pp_address p)); ("signature", JStr (pp_signature p))].
Definition oracle_approval_json (a : ActivityOracleApproval) : json :=
  JObj [("publicKey", JStr (oa_publicKey a)); ("signature", JStr (oa_signature a))].
Definition entry_json (e : ActivityEntry) : json :=
  JObj [("receiver", JStr (e_receiver e)); ("amountAtoms", jint (e_amountAtoms e))].
Definition action_text (a : ActivityOracleGovernanceAction) : string :=
  match a with Pause => "pause" | Resume => "resume" | Revoke => "revoke" end.

(** A property that is present only when the value is. *)
Definition optional {A} (name : string) (f : A → json) (o : option A) : list (string * json) :=
  match o with Some a => [(name, f a)] | None => [] end.

(** The properties of a transaction without [signature] and [txid], in the order
    the constructors write them. *)
Definition tx_fields (tx : Transaction) : list (string * json) :=
  match tx with
  | Transfer t =>
    [("kind", JStr "transfer"); ("version", jint (tr_version t)); ("chainId", JStr (tr_chainId t));
     ("nonce", jint (tr_nonce t)); ("sender", JStr (tr_sender t)); ("receiver", JStr (tr_receiver t));
     ("amountAtoms", jint (tr_amountAtoms t)); ("feeAtoms", jint (tr_feeAtoms t));
     ("timestampMs", jint (tr_timestampMs t)); ("publicKey", JStr (tr_publicKey t))]
  | ActivitySettlement t =>
    [("kind", JStr "activity_settlement"); ("version", jint (as_version t)); ("chainId", JStr (as_chainId t));
     ("nonce", jint (as_nonce t)); ("sender", JStr (as_sender t)); ("epoch", jint (as_epoch t));
     ("entries", JArr (map entry_json (as_entries t))); ("receiptRoot", JStr (as_receiptRoot t))]
    ++ optional "oracleApprovals" (λ l, JArr (map oracle_approval_json l)) (as_oracleApprovals t)
    ++ optional "attestationExpiresAtMs" jint (as_attestationExpiresAtMs t)
    ++ [("feeAtoms", jint (as_feeAtoms t)); ("timestampMs", jint (as_timestampMs t)); ("publicKey", JStr (as_publicKey t))]
  | MiningClaim t =>
    [("kind", JStr "mining_claim"); ("version", jint (mc_version t)); ("chainId", JStr (mc_chainId t));
     ("nonce", jint (mc_nonce t)); ("sender", JStr (mc_sender t)); ("height", jint (mc_height t));
     ("previousHash", JStr (mc_previousHash t)); ("rewardAtoms", jint (mc_rewardAtoms t));
     ("workNonce", JStr (mc_workNonce t)); ("feeAtoms", jint (mc_feeAtoms t));
     ("timestampMs", jint (mc_timestampMs t)); ("publicKey", JStr (mc_publicKey t))]
  | ValidatorUpdate t =>
    [("kind", JStr "validator_update"); ("version", jint (vu_version t)); ("chainId", JStr (vu_chainId t));
     ("nonce", jint (vu_nonce t)); ("sender", JStr (vu_sender t)); ("activationHeight", jint (vu_activationHeight t));
     ("validators", JArr (map validator_json (vu_validators t))); ("approvals", JArr (map approval_json (vu_approvals t)))]
    ++ optional "possessionProofs" (λ l, JArr (map proof_json l)) (vu_possessionProofs t)
    ++ [("feeAtoms", jint (vu_feeAtoms t)); ("timestampMs", jint (vu_timestampMs t)); ("publicKey", JStr (vu_publicKey t))]
  | ActivityOracleGovernance t =>
    [("kind", JStr "activity_oracle_governance"); ("version", jint (og_version t)); ("chainId", JStr (og_chainId t));
     ("nonce", jint (og_nonce t)); ("sender", JStr (og_sender t)); ("activationHeight", jint (og_activationHeight t));
     ("action", JStr (action_text (og_action t))); ("publicKeys", JArr (map JStr (og_publicKeys t)));
     ("approvals", JArr (map approval_json (og_approvals t))); ("feeAtoms", jint (og_feeAtoms t));
     ("timestampMs", jint (og_timestampMs t)); ("publicKey", JStr (og_publicKey t))]
  | ProtocolUpgrade t =>
    [("kind", JStr "protocol_upgrade"); ("version", jint (pu_version t)); ("chainId", JStr (pu_chainId t));
     ("nonce", jint (pu_nonce t)); ("sender", JStr (pu_sender t)); ("activationHeight", jint (pu_activationHeight t));
     ("protocolVersion", jint (pu_protocolVersion t)); ("approvals", JArr (map approval_json (pu_approvals t)));
     ("feeAtoms", jint (pu_feeAtoms t)); ("timestampMs", jint (pu_timestampMs t)); ("publicKey", JStr (pu_publicKey t))]
  end.

Definition tx_signature (tx : Transaction) : string :=
  match tx with
  | Transfer t => tr_signature t | ActivitySettlement t => as_signature t | MiningClaim t => mc_signature t
  | ValidatorUpdate t => vu_signature t | ActivityOracleGovernance t => og_signature t | ProtocolUpgrade t => pu_signature t
  end.
Definition tx_publicKey (tx : Transaction) : string :=
  match tx with
  | Transfer t => tr_publicKey t | ActivitySettlement t => as_publicKey t | MiningClaim t => mc_publicKey t
  | ValidatorUpdate t => vu_publicKey t | ActivityOracleGovernance t => og_publicKey t | ProtocolUpgrade t => pu_publicKey t
  end.

(** The transaction as the value that is sent, stored and hashed. *)
Definition tx_json (tx : Transaction) : json :=
  JObj (tx_fields tx ++ [("signature", JStr (tx_signature tx)); ("txid", JStr (tx_txid tx))]).

(** [const { signature, txid, ...payload } = tx] *)
Definition txSigningPayload (entries : list (string * json)) : json :=
  JObj (filter (λ e, e.1 ≠ "signature" ∧ e.1 ≠ "txid") entries).
(** [const { txid, ...payload } = tx] *)
Definition signedPayload (entries : list (string * json)) : json :=
  JObj (filter (λ e, e.1 ≠ "txid") entries).

Definition transactionSigningDomain (kind : string) : string :=
  if String.eqb kind "transfer" then "zyronchain/transaction/transfer/v2"
  else if String.eqb kind "activity_settlement" then "zyronchain/transaction/activity-settlement/v2"
  else if String.eqb kind "mining_claim" then "zyronchain/transaction/mining-claim/v2"
  else if String.eqb kind "validator_update" then "zyronchain/transaction/validator-update/v2"
  else if String.eqb kind "activity_oracle_governance" then "zyronchain/transaction/activity-oracle-governance/v1"
  else "zyronchain/transaction/protocol-upgrade/v2".

Definition governanceApprovalPayload (payload : json) (version : Z) : json :=
  if version =? 2 then JObj [("transactionVersion", jint 2); ("payload", payload)] else payload.

Definition protocolUpgradeApprovalPayload (chainId : string) (nonce : Z) (sender : Address)
    (activationHeight protocolVersion : Z) : json :=
  JObj [("chainId", JStr chainId); ("nonce", jint nonce); ("sender", JStr sender);
        ("activationHeight", jint activationHeight); ("protocolVersion", jint protocolVersion)].

Definition validatorUpdateApprovalPayload (chainId : string) (nonce : Z) (sender : Address)
    (activationHeight : Z) (validators : list Validator) : json :=
  JObj [("chainId", JStr chainId); ("nonce", jint nonce); ("sender", JStr sender);
        ("activationHeight", jint activationHeight); ("validators", JArr (map validator_json validators))].

Definition activityOracleGovernanceApprovalPayload (chainId : string) (nonce : Z) (sender : Address)
    (activationHeight : Z) (action : ActivityOracleGovernanceAction) (publicKeys : list string) : json :=
  JObj [("chainId", JStr chainId); ("nonce", jint nonce); ("sender", JStr sender);
        ("activationHeight", jint activationHeight); ("action", JStr (action_text action));
        ("publicKeys", JArr (map JStr publicKeys))].

Definition settlement_approval_fields (chainId : string) (sender : Address) (epoch : Z)
    (entries : list ActivityEntry) (receiptRoot : string) : list (string * json) :=
  [("chainId", JStr chainId); ("sender", JStr sender); ("epoch", jint epoch);
   ("entries", JArr (map entry_json entries)); ("receiptRoot", JStr receiptRoot)].
Definition activitySettlementApprovalPayload (chainId : string) (sender : Address) (epoch : Z)
    (entries : list ActivityEntry) (receiptRoot : string) : json :=
  JObj (settlement_approval_fields chainId sender epoch entries receiptRoot).
Definition activitySettlementApprovalPayloadV2 (chainId : string) (sender : Address) (epoch : Z)
    (entries : list ActivityEntry) (receiptRoot : string) (expiresAtMs : Z) : json :=
  JObj (settlement_approval_fields chainId sender epoch entries receiptRoot ++ [("expiresAtMs", jint expiresAtMs)]).

Section transaction.
Context `{Crypto}.

Definition signForTransactionVersion (version : Z) (domain : string) (payload : json) (privateKeyHex : string) : res string :=
  if version =? 2 then signCanonicalDomain domain (to_units payload) privateKeyHex
  else signCanonical (to_units payload) privateKeyHex.

Definition verifyForTransactionVersion (version : Z) (domain : string) (payload : json)
    (signatureHex publicKeyHex : string) : bool :=
  if version =? 2 then verifyCanonicalDomain domain (to_units payload) signatureHex publicKeyHex
  else verifyCanonical (to_units payload) signatureHex publicKeyHex.

(** ** Approvals *)

Definition createProtocolUpgradeApproval (chainId : string) (nonce : Z) (sender : Address)
    (activationHeight protocolVersion : Z) (privateKey publicKey : string) (version : Z) : res ValidatorApproval :=
  let payload := governanceApprovalPayload
    (protocolUpgradeApprovalPayload chainId nonce sender activationHeight protocolVersion) version in
  signature ← signForTransactionVersion version PROTOCOL_UPGRADE_APPROVAL_DOMAIN payload privateKey;
  Ok (mkApproval (addressFromPublicKey publicKey) publicKey signature).

Definition createValidatorApproval (chainId : string) (nonce : Z) (sender : Address)
    (activationHeight : Z) (validators : list Validator) (privateKey publicKey : string) (version : Z) : res ValidatorApproval :=
  let payload := governanceApprovalPayload
    (validatorUpdateApprovalPayload chainId nonce sender activationHeight validators) version in
  signature ← signForTransactionVersion version VALIDATOR_SET_APPROVAL_DOMAIN payload privateKey;
  Ok (mkApproval (addressFromPublicKey publicKey) publicKey signature).

Definition createActivityOracleGovernanceApproval (chainId : string) (nonce : Z) (sender : Address)
    (activationHeight : Z) (action : ActivityOracleGovernanceAction) (publicKeys : list string)
    (privateKey publicKey : string) (version : Z) : res ValidatorApproval :=
  let payload := governanceApprovalPayload
    (activityOracleGovernanceApprovalPayload chainId nonce sender activationHeight action publicKeys) version in
  signature ← signForTransactionVersion version ACTIVITY_ORACLE_GOVERNANCE_APPROVAL_DOMAIN payload privateKey;
  Ok (mkApproval (addressFromPublicKey publicKey) publicKey signature).

Definition createActivityOracleApproval (chainId : string) (sender : Address) (epoch : Z)
    (entries : list ActivityEntry) (receiptRoot privateKey publicKey : string) : res ActivityOracleApproval :=
  signature ← signCanonicalDomain ACTIVITY_SETTLEMENT_APPROVAL_DOMAIN
    (to_units (activitySettlementApprovalPayload chainId sender epoch entries receiptRoot)) privateKey;
  Ok (mkOracleApproval publicKey signature).

Definition createActivityOracleApprovalV2 (chainId : string) (sender : Address) (epoch : Z)
    (entries : list ActivityEntry) (receiptRoot : string) (expiresAtMs : Z) (privateKey publicKey : string)
    : res ActivityOracleApproval :=
  signature ← signCanonicalDomain ACTIVITY_SETTLEMENT_APPROVAL_DOMAIN_V2
    (to_units (activitySettlementApprovalPayloadV2 chainId sender epoch entries receiptRoot expiresAtMs)) privateKey;
  Ok (mkOracleApproval publicKey signature).

Inductive ApprovalPolicy := PolicyV1 | PolicyV2.

Definition verifyActivityOracleApprovalSignature (tx : ActivitySettlementTx) (approval : ActivityOracleApproval)
    (policy : ApprovalPolicy) : bool :=
  match policy with
  | PolicyV2 =>
    match as_attestationExpiresAtMs tx with
    | Some expiresAtMs =>
      if negb (isSafeInteger expiresAtMs) then false else
      verifyCanonicalDomain ACTIVITY_SETTLEMENT_APPROVAL_DOMAIN_V2
        (to_units (activitySettlementApprovalPayloadV2 (as_chainId tx) (as_sender tx) (as_epoch tx) (as_entries tx)
          (as_receiptRoot tx) expiresAtMs))
        (oa_signature approval) (oa_publicKey approval)
    | None => false
    end
  | PolicyV1 =>
    verifyCanonicalDomain ACTIVITY_SETTLEMENT_APPROVAL_DOMAIN
      (to_units (activitySettlementApprovalPayload (as_chainId tx) (as_sender tx) (as_epoch tx) (as_entries tx)
        (as_receiptRoot tx)))
      (oa_signature approval) (oa_publicKey approval)
  end.

Definition verifyValidatorUpdateApprovalSignature (tx : ValidatorSetUpdateTx) (approval : ValidatorApproval) : bool :=
  verifyForTransactionVersion (vu_version tx) VALIDATOR_SET_APPROVAL_DOMAIN
    (governanceApprovalPayload (validatorUpdateApprovalPayload (vu_chainId tx) (vu_nonce tx) (vu_sender tx)
      (vu_activationHeight tx) (vu_validators tx)) (vu_version tx))
    (ap_signature approval) (ap_publicKey approval).

Definition verifyActivityOracleGovernanceApprovalSignature (tx : ActivityOracleGovernanceTx) (approval : ValidatorApproval) : bool :=
  verifyForTransactionVersion (og_version tx) ACTIVITY_ORACLE_GOVERNANCE_APPROVAL_DOMAIN
    (governanceApprovalPayload (activityOracleGovernanceApprovalPayload (og_chainId tx) (og_nonce tx) (og_sender tx)
      (og_activationHeight tx) (og_action tx) (og_publicKeys tx)) (og_version tx))
    (ap_signature approval) (ap_publicKey approval).

Definition verifyProtocolUpgradeApprovalSignature (tx : ProtocolUpgradeTx) (approval : ValidatorApproval) : bool :=
  verifyForTransactionVersion (pu_version tx) PROTOCOL_UPGRADE_APPROVAL_DOMAIN
    (governanceApprovalPayload (protocolUpgradeApprovalPayload (pu_chainId tx) (pu_nonce tx) (pu_sender tx)
      (pu_activationHeight tx) (pu_protocolVersion tx)) (pu_version tx))
    (ap_signature approval) (ap_publicKey approval).

(** ** Constructors *)

Definition tx_kind (tx : Transaction) : string :=
  match tx with
  | Transfer _ => "transfer" | ActivitySettlement _ => "activity_settlement" | MiningClaim _ => "mining_claim"
  | ValidatorUpdate _ => "validator_update" | ActivityOracleGovernance _ => "activity_oracle_governance"
  | ProtocolUpgrade _ => "protocol_upgrade"
  end.

(** [signTransactionPayload(unsigned, privateKeyHex)] *)
Definition signTransactionPayload (unsigned : Transaction) (privateKeyHex : string) : res string :=
  signForTransactionVersion (tx_version unsigned) (transactionSigningDomain (tx_kind unsigned))
    (JObj (tx_fields unsigned)) privateKeyHex.

(** [sha256Hex(canonicalJson(withSignature))] *)
Definition txid_of (payload : json) : res string :=
  bytes ← canonicalBytes (to_units payload); Ok (sha256Hex_bytes bytes).

(** The end of every constructor: sign, then hash the signed payload. *)
Definition seal (unsigned : Transaction) (privateKeyHex : string) : res (string * string) :=
  signature ← signTransactionPayload unsigned privateKeyHex;
  txid ← txid_of (JObj (tx_fields unsigned ++ [("signature", JStr signature)]));
  Ok (signature, txid).

Definition createTransfer (chainId : string) (nonce : Z) (sender receiver : Address)
    (amountAtoms feeAtoms timestampMs : Z) (privateKeyHex publicKey : string) (version : Z) : res TransferTx :=
  let mk := mkTransfer version chainId nonce sender receiver amountAtoms feeAtoms timestampMs publicKey in
  sealed ← seal (Transfer (mk "" "")) privateKeyHex;
  Ok (mk sealed.1 sealed.2).

Definition createActivitySettlement (chainId : string) (nonce : Z) (sender : Address) (epoch : Z)
    (entries : list ActivityEntry) (receiptRoot : string) (oracleApprovals : option (list ActivityOracleApproval))
    (attestationExpiresAtMs : option Z) (timestampMs : Z) (privateKeyHex publicKey : string) (version : Z)
    : res ActivitySettlementTx :=
  let mk := mkSettlement version chainId nonce sender epoch entries receiptRoot oracleApprovals
    attestationExpiresAtMs 0 timestampMs publicKey in
  sealed ← seal (ActivitySettlement (mk "" "")) privateKeyHex;
  Ok (mk sealed.1 sealed.2).

Definition createMiningClaim (chainId : string) (nonce : Z) (sender : Address) (height : Z) (previousHash : string)
    (rewardAtoms : Z) (workNonce : string) (timestampMs : Z) (privateKeyHex publicKey : string) : res MiningClaimTx :=
  let mk := mkMiningClaim 2 chainId nonce sender height previousHash rewardAtoms workNonce 0 timestampMs publicKey in
  sealed ← seal (MiningClaim (mk "" "")) privateKeyHex;
  Ok (mk sealed.1 sealed.2).

Definition createValidatorSetUpdate (chainId : string) (nonce : Z) (sender : Address) (activationHeight : Z)
    (validators : list Validator) (approvals : list ValidatorApproval)
    (possessionProofs : option (list ValidatorPossessionProof)) (timestampMs : Z)
    (privateKeyHex publicKey : string) (version : Z) : res ValidatorSetUpdateTx :=
  let mk := mkValidatorUpdate version chainId nonce sender activationHeight validators approvals possessionProofs 0
    timestampMs publicKey in
  sealed ← seal (ValidatorUpdate (mk "" "")) privateKeyHex;
  Ok (mk sealed.1 sealed.2).

Definition createActivityOracleGovernance (chainId : string) (nonce : Z) (sender : Address) (activationHeight : Z)
    (action : ActivityOracleGovernanceAction) (publicKeys : list string) (approvals : list ValidatorApproval)
    (timestampMs : Z) (privateKeyHex publicKey : string) (version : Z) : res ActivityOracleGovernanceTx :=
  let mk := mkOracleGovernance version chainId nonce sender activationHeight action publicKeys approvals 0
    timestampMs publicKey in
  sealed ← seal (ActivityOracleGovernance (mk "" "")) privateKeyHex;
  Ok (mk sealed.1 sealed.2).

Definition createProtocolUpgrade (chainId : string) (nonce : Z) (sender : Address)
    (activationHeight protocolVersion : Z) (approvals : list ValidatorApproval) (timestampMs : Z)
    (privateKeyHex publicKey : string) (version : Z) : res ProtocolUpgradeTx :=
  let mk := mkProtocolUpgrade version chainId nonce sender activationHeight protocolVersion approvals 0
    timestampMs publicKey in
  sealed ← seal (ProtocolUpgrade (mk "" "")) privateKeyHex;
  Ok (mk sealed.1 sealed.2).

End transaction.
