(* ===== verification/ByteText.v ===== *)
(** Canonical bytes of the program's values: they are made of texts whose
    characters are bytes, and on such values the UTF-8 bytes determine the text. *)

From S2P Require Import Prelude Types Codec Transaction.

Definition byte_units (s : units) : Prop := Forall (λ u, 0 ≤ u < 256) s.

Lemma lit_byte_units (s : string) : byte_units (lit s).
Proof. apply Forall_forall. intros u (c & -> & _)%list_elem_of_fmap. pose proof (Ascii.N_ascii_bounded c). lia. Qed.

Lemma byte_units_app (a b : units) : byte_units a → byte_units b → byte_units (a ++ b).
Proof. intros. by apply Forall_app. Qed.

Lemma per_char_byte {A} (single : Z → list A) (pair : Z → Z → list A) (u : Z) (s : units) :
  u < 256 → per_char single pair (u :: s) = single u ++ per_char single pair s.
Proof.
  intros Hu. destruct s as [|v s]; cbn [per_char]; [by rewrite app_nil_r|].
  unfold isLead. destruct (Z.leb_spec 55296 u); [lia|done].
Qed.

Lemma utf8_byte_inj (a b : units) : byte_units a → byte_units b → utf8 a = utf8 b → a = b.
Proof.
  intros Ha. revert b. induction Ha as [|u a Hu Ha IH]; intros [|v b] Hb E; [done|..].
  - apply Forall_cons in Hb as [Hv _]. unfold utf8 in E. rewrite per_char_byte in E by lia. unfold utf8_unit in E.
    destruct (v <? 128), (v <? 2048); try discriminate; destruct (isLead v || isTrail v); discriminate.
  - unfold utf8 in E. rewrite per_char_byte in E by lia. unfold utf8_unit in E.
    destruct (u <? 128), (u <? 2048); try discriminate; destruct (isLead u || isTrail u); discriminate.
  - apply Forall_cons in Hb as [Hv Hb]. unfold utf8 in E. rewrite !per_char_byte in E by lia. fold utf8 in E.
    assert (∀ w, 0 ≤ w < 256 → utf8_unit w = if w <? 128 then [w] else [192 + w / 64; 128 + w mod 64]) as Hw.
    { intros w Hw. unfold utf8_unit. destruct (w <? 128); [done|]. by destruct (Z.ltb_spec w 2048); [|lia]. }
    rewrite !Hw in E by lia. destruct (Z.ltb_spec u 128), (Z.ltb_spec v 128); cbn [app] in E.
    + injection E as -> E. by rewrite (IH b Hb E).
    + injection E as E0 _. pose proof (Z.div_pos v 64). lia.
    + injection E as E0 _. pose proof (Z.div_pos u 64). lia.
    + injection E as E1 E2 E. rewrite (IH b Hb E). f_equal. pose proof (Z.div_mod u 64). pose proof (Z.div_mod v 64). lia.
Qed.

Lemma quote_byte (s : units) : byte_units s → byte_units (json_quote s).
Proof.
  intros Hs. unfold json_quote. apply byte_units_app; [by repeat constructor|]. apply byte_units_app; [|by repeat constructor].
  unfold quote_body. induction Hs as [|u s Hu Hs IH]; [constructor|]. rewrite per_char_byte by lia. apply byte_units_app; [|done].
  unfold quote_unit. repeat (match goal with |- context [?a =? ?b] => destruct (a =? b); [first [apply lit_byte_units | by repeat constructor]|] end).
  assert (byte_units (unicode_escape u)) as He.
  { unfold unicode_escape. apply byte_units_app; [apply lit_byte_units|]. assert (∀ d, 0 ≤ d < 16 → 0 ≤ hex_digit d < 256) as Hd.
    { intros d Hd. unfold hex_digit. destruct (d <? 10); lia. }
    repeat constructor; try (apply Hd, Z.mod_pos_bound; lia). all: apply Hd, Z.mod_pos_bound; lia. }
  destruct (u <? 32); [done|]. destruct (isLead u || isTrail u); [done|]. by constructor.
Qed.

Lemma join_byte (sep : units) (parts : list units) : byte_units sep → Forall byte_units parts → byte_units (join sep parts).
Proof.
  intros Hsep Hp. induction Hp as [|p parts Hp Hps IH]; [constructor|]. destruct parts as [|q parts]; [done|].
  change (byte_units (p ++ sep ++ join sep (q :: parts))). by repeat apply byte_units_app.
Qed.

(** The text of a value whose texts are made of bytes. *)
Lemma stringify_byte (v : json) (t : units) : stringify (to_units v) = Some t → byte_units t.
Proof.
  revert t. induction v as [| | |b|n|s|items IH|entries IH] using jsval_ind'; intros t E; cbn [to_units stringify] in E; try discriminate.
  - apply Some_inj in E as <-. apply lit_byte_units.
  - apply Some_inj in E as <-. apply lit_byte_units.
  - apply Some_inj in E as <-. destruct n; apply lit_byte_units.
  - apply Some_inj in E as <-. apply quote_byte, lit_byte_units.
  - apply Some_inj in E as <-. apply byte_units_app; [apply lit_byte_units|]. apply byte_units_app; [|apply lit_byte_units].
    apply join_byte; [apply lit_byte_units|]. rewrite Forall_forall in IH. apply Forall_forall. intros x Hx. apply list_elem_of_In, in_map_iff in Hx as (y & <- & Hy).
    apply in_map_iff in Hy as (i & <- & Hi). destruct (stringify (to_units i)) as [r|] eqn:Er; [|apply lit_byte_units].
    by apply (IH i); [apply list_elem_of_In|].
  - apply Some_inj in E as <-. apply byte_units_app; [apply lit_byte_units|]. apply byte_units_app; [|apply lit_byte_units].
    apply join_byte; [apply lit_byte_units|]. rewrite Forall_forall in IH. apply Forall_forall. intros x Hx.
    apply list_elem_of_omap in Hx as (y & Hy & Hx). apply list_elem_of_In, in_map_iff in Hy as (e & <- & He).
    apply in_map_iff in He as ([k w] & <- & Hk). cbn [fst snd] in Hx. destruct (stringify (to_units w)) as [r|] eqn:Er; [|discriminate]. cbn [fmap option_fmap option_map] in Hx.
    apply Some_inj in Hx as <-. apply byte_units_app; [apply quote_byte, lit_byte_units|]. apply byte_units_app; [apply lit_byte_units|].
    by apply (IH (k, w)); [apply list_elem_of_In|].
Qed.
