(* ===== verification/TxShape.v ===== *)
(** [validateTransactionShape] and the record checks it uses
    (l1/src/transaction.ts, lines 421-764), on untrusted values. *)

From S2P Require Import Prelude Types Codec Crypto Activity Transaction.

Abbreviation record := (list (string * jsval string)) (only parsing).

(** [value.name]: [undefined] when there is no such property. *)
Fixpoint get (value : record) (name : string) : jsval string :=
  match value with
  | [] => JUndefined
  | (k, v) :: rest => if String.eqb k name then v else get rest name
  end.

(** [Object.prototype.hasOwnProperty.call(value, name)] *)
Definition has (value : record) (name : string) : bool := existsb (λ e, String.eqb e.1 name) value.

(** The integer a number holds; [None] for a fraction, NaN, an infinity and
    every value that is not a number. *)
Definition as_int (v : jsval string) : option Z :=
  match v with JNum (JInt z) => Some z | JNum JNegZero => Some 0 | _ => None end.

(** [if (!Number.isSafeInteger(v) || bad(v)) throw new Error(msg);] *)
Definition safe_int (v : jsval string) (bad : Z → bool) (msg : string) : res Z :=
  match as_int v with
  | Some z => throw_if (negb (isSafeInteger z) || bad z) msg;; Ok z
  | None => Throw msg
  end.

Definition as_text (v : jsval string) (msg : string) : res string :=
  match v with JStr s => Ok s | _ => Throw msg end.

(** [if (!Array.isArray(v) || bad(v)) throw new Error(msg);] *)
Definition as_array (v : jsval string) (bad : list (jsval string) → bool) (msg : string) : res (list (jsval string)) :=
  match v with JArr l => throw_if (bad l) msg;; Ok l | _ => Throw msg end.

(** A value that is a tree has no prototype but [Object.prototype]. *)
Definition assertPlainRecord (value : jsval string) (name : string) : res record :=
  match value with JObj entries => Ok entries | _ => Throw ("Invalid " +:+ name) end.

Definition sort_keys (keys : list string) : list string := js_sort (λ a b, units_le (lit a) (lit b)) keys.

Definition assertExactKeys (value : record) (expected : list string) (name : string) : res unit :=
  throw_if (negb (bool_decide (sort_keys value.*1 = sort_keys expected))) ("Invalid " +:+ name +:+ " fields").

Definition assertAddressValue (v : jsval string) : res Address :=
  match v with JStr s => assertAddress s;; Ok s | _ => Throw "Invalid address" end.

(** [RegExp.test] turns its argument into text; of the values that are not text,
    only an array around one element has text that can be 64 hex digits. *)
Fixpoint coerced (v : jsval string) : string :=
  match v with JStr s => s | JArr [x] => coerced x | _ => "" end.

Definition assertAmount (v : jsval string) (name : string) (allowZero : bool) : res Z :=
  z ← safe_int v (λ z, (z <? 0) || (MAX_SUPPLY_ATOMS <? z)) ("Invalid " +:+ name);
  throw_if (negb allowZero && (z =? 0)) (name +:+ " must be positive");;
  Ok z.

Definition RESERVED_MESSAGE : string := "Mining tracker address is protocol-reserved".

(** Converting every element of an array, in order. *)
Definition each {A} (f : jsval string → res A) (l : list (jsval string)) : res (list A) := res_seq (map f l).

Section shape.
Context `{Crypto}.

Definition validateActivityEntry (v : jsval string) : res ActivityEntry :=
  entry ← assertPlainRecord v "activity entry";
  assertExactKeys entry ["receiver"; "amountAtoms"] "activity entry";;
  receiver ← assertAddressValue (get entry "receiver");
  throw_if (String.eqb receiver MINING_TRACKER_ADDRESS) RESERVED_MESSAGE;;
  amountAtoms ← assertAmount (get entry "amountAtoms") "activity amount" false;
  Ok (mkEntry receiver amountAtoms).

Definition validateActivityOracleApproval (v : jsval string) : res ActivityOracleApproval :=
  value ← assertPlainRecord v "activity oracle approval";
  assertExactKeys value ["publicKey"; "signature"] "activity oracle approval";;
  publicKey ← as_text (get value "publicKey") "Invalid activity oracle approval";
  signature ← as_text (get value "signature") "Invalid activity oracle approval";
  assertHex publicKey 64 "activity oracle approval publicKey";;
  assertHex signature 64 "activity oracle approval signature";;
  Ok (mkOracleApproval publicKey signature).

Definition validateValidatorPossessionProofShape (v : jsval string) : res ValidatorPossessionProof :=
  value ← assertPlainRecord v "validator possession proof";
  assertExactKeys value ["address"; "signature"] "validator possession proof";;
  address ← assertAddressValue (get value "address");
  signature ← as_text (get value "signature") "Invalid validator possession proof signature";
  assertHex signature 64 "validator possession proof signature";;
  Ok (mkPossessionProof address signature).

Definition validateValidatorApproval (v : jsval string) : res ValidatorApproval :=
  value ← assertPlainRecord v "validator approval";
  assertExactKeys value ["validator"; "publicKey"; "signature"] "validator approval";;
  validator ← assertAddressValue (get value "validator");
  publicKey ← as_text (get value "publicKey") "Invalid validator approval";
  signature ← as_text (get value "signature") "Invalid validator approval";
  assertHex publicKey 64 "validator approval publicKey";;
  assertHex signature 64 "validator approval signature";;
  throw_if (negb (String.eqb (addressFromPublicKey publicKey) validator)) "Validator approval address mismatch";;
  Ok (mkApproval validator publicKey signature).

(** [validateValidator(value, seenAddresses, seenKeys)]; the two sets hold the
    addresses and keys of the validators before this one. *)
Definition validateValidator (seen : list Validator) (v : jsval string) : res (list Validator) :=
  value ← assertPlainRecord v "validator";
  assertExactKeys value ["address"; "publicKey"] "validator";;
  address ← assertAddressValue (get value "address");
  publicKey ← as_text (get value "publicKey") "Invalid validator public key";
  assertHex publicKey 64 "validator publicKey";;
  throw_if (negb (String.eqb (addressFromPublicKey publicKey) address)) "Validator address/public key mismatch";;
  assertValidPublicKey publicKey "Validator public key";;
  throw_if (bool_decide (publicKey ∈ v_publicKey <$> seen)) "Duplicate validator public key";;
  throw_if (bool_decide (address ∈ v_address <$> seen)) "Duplicate validator address";;
  Ok (seen ++ [mkValidator address publicKey]).

(** The properties every transaction carries, checked at lines 465-475. *)
Record CommonFields := mkCommon {
  c_version : Z; c_chainId : string; c_sender : Address; c_nonce : Z; c_timestampMs : Z;
  c_publicKey : string; c_signature : string; c_txid : string }.

Definition validateCommon (value : record) : res CommonFields :=
  version ← match as_int (get value "version") with
            | Some z => throw_if (negb (z =? 1) && negb (z =? 2)) "Unsupported transaction version";; Ok z
            | None => Throw "Unsupported transaction version"
            end;
  chainId ← as_text (get value "chainId") "Invalid transaction chain ID";
  sender ← assertAddressValue (get value "sender");
  nonce ← safe_int (get value "nonce") (λ z, z <? 1) "Invalid nonce";
  timestampMs ← safe_int (get value "timestampMs") (λ z, z <? 0) "Invalid timestamp";
  publicKey ← as_text (get value "publicKey") "Invalid transaction cryptographic fields";
  signature ← as_text (get value "signature") "Invalid transaction cryptographic fields";
  txid ← as_text (get value "txid") "Invalid transaction cryptographic fields";
  assertHex publicKey 64 "publicKey";;
  assertHex signature 64 "signature";;
  assertHex txid 32 "txid";;
  Ok (mkCommon version chainId sender nonce timestampMs publicKey signature txid).

(** [if (tx.feeAtoms !== 0) throw new Error(msg);] *)
Definition zero_fee (value : record) (msg : string) : res unit :=
  throw_if (negb (bool_decide (as_int (get value "feeAtoms") = Some 0))) msg.

Definition sender_matches (c : CommonFields) : res unit :=
  throw_if (negb (String.eqb (addressFromPublicKey (c_publicKey c)) (c_sender c))) "Public key does not match sender".

Definition not_reserved (c : CommonFields) : res unit :=
  throw_if (String.eqb (c_sender c) MINING_TRACKER_ADDRESS) RESERVED_MESSAGE.

Definition size_out_of {A} (lo hi : Z) (l : list A) : bool := (zlen l <? lo) || (hi <? zlen l).

Definition approvals_of (value : record) (msg : string) : res (list ValidatorApproval) :=
  l ← as_array (get value "approvals") (size_out_of 1 100) msg;
  each validateValidatorApproval l.

Definition shapeTransfer (value : record) (c : CommonFields) (fixedTransferFeeAtoms : option Z) : res Transaction :=
  receiver ← assertAddressValue (get value "receiver");
  throw_if (String.eqb (c_sender c) MINING_TRACKER_ADDRESS || String.eqb receiver MINING_TRACKER_ADDRESS) RESERVED_MESSAGE;;
  amountAtoms ← assertAmount (get value "amountAtoms") "amountAtoms" false;
  feeAtoms ← assertAmount (get value "feeAtoms") "feeAtoms" true;
  throw_if (match fixedTransferFeeAtoms with Some f => negb (feeAtoms =? f) | None => false end)
    FIXED_FEE_MISMATCH_MESSAGE;;
  sender_matches c;;
  Ok (Transfer (mkTransfer (c_version c) (c_chainId c) (c_nonce c) (c_sender c) receiver amountAtoms feeAtoms
    (c_timestampMs c) (c_publicKey c) (c_signature c) (c_txid c))).

Definition shapeSettlement (value : record) (c : CommonFields) : res Transaction :=
  not_reserved c;;
  epoch ← safe_int (get value "epoch") (λ z, z <? 0) "Invalid activity epoch";
  zero_fee value "Activity settlement fee must be zero";;
  let receiptRoot := coerced (get value "receiptRoot") in
  assertHex receiptRoot 32 "receiptRoot";;
  raw ← as_array (get value "entries") (size_out_of 1 10000) "Invalid activity settlement size";
  entries ← each validateActivityEntry raw;
  assertActivitySettlementWithinCap entries MAX_ACTIVITY_SETTLEMENT_ATOMS;;
  oracleApprovals ←
    (if has value "oracleApprovals" then
       rawApprovals ← as_array (get value "oracleApprovals") (size_out_of 1 MAX_ACTIVITY_ORACLE_APPROVALS)
         "Invalid activity oracle approvals";
       approvals ← each validateActivityOracleApproval rawApprovals;
       Ok (Some approvals)
     else Ok None);
  expires ←
    (if has value "attestationExpiresAtMs" then
       z ← safe_int (get value "attestationExpiresAtMs") (λ _, false) "Invalid activity oracle attestation expiry";
       Ok (Some z)
     else Ok None);
  Ok (ActivitySettlement (mkSettlement (c_version c) (c_chainId c) (c_nonce c) (c_sender c) epoch entries receiptRoot
    oracleApprovals expires 0 (c_timestampMs c) (c_publicKey c) (c_signature c) (c_txid c))).

Definition shapeValidatorUpdate (value : record) (c : CommonFields) : res Transaction :=
  not_reserved c;;
  zero_fee value "Validator update fee must be zero";;
  activationHeight ← safe_int (get value "activationHeight") (λ z, z <? 1) "Invalid validator activation height";
  sender_matches c;;
  rawValidators ← as_array (get value "validators") (size_out_of 1 100) "Invalid validator set size";
  validators ← res_fold validateValidator [] rawValidators;
  approvals ← approvals_of value "Invalid validator approvals";
  proofs ←
    (if has value "possessionProofs" then
       rawProofs ← as_array (get value "possessionProofs") (size_out_of 0 100) "Invalid validator possession proofs";
       proofs ← each validateValidatorPossessionProofShape rawProofs;
       Ok (Some proofs)
     else Ok None);
  Ok (ValidatorUpdate (mkValidatorUpdate (c_version c) (c_chainId c) (c_nonce c) (c_sender c) activationHeight
    validators approvals proofs 0 (c_timestampMs c) (c_publicKey c) (c_signature c) (c_txid c))).

Definition action_of (v : jsval string) : res ActivityOracleGovernanceAction :=
  match v with
  | JStr s =>
    if String.eqb s "pause" then Ok Pause else if String.eqb s "resume" then Ok Resume
    else if String.eqb s "revoke" then Ok Revoke else Throw "Invalid activity oracle governance action"
  | _ => Throw "Invalid activity oracle governance action"
  end.

Definition governance_key (v : jsval string) : res string :=
  publicKey ← as_text v "Invalid activity oracle governance key";
  assertHex publicKey 64 "activity oracle governance publicKey";;
  Ok publicKey.

Definition shapeOracleGovernance (value : record) (c : CommonFields) : res Transaction :=
  not_reserved c;;
  zero_fee value "Activity oracle governance fee must be zero";;
  activationHeight ← safe_int (get value "activationHeight") (λ z, z <? 1)
    "Invalid activity oracle governance activation height";
  action ← action_of (get value "action");
  sender_matches c;;
  rawKeys ← as_array (get value "publicKeys") (size_out_of 0 MAX_ACTIVITY_ORACLE_APPROVALS)
    "Invalid activity oracle governance keys";
  publicKeys ← each governance_key rawKeys;
  approvals ← approvals_of value "Invalid activity oracle governance approvals";
  Ok (ActivityOracleGovernance (mkOracleGovernance (c_version c) (c_chainId c) (c_nonce c) (c_sender c)
    activationHeight action publicKeys approvals 0 (c_timestampMs c) (c_publicKey c) (c_signature c) (c_txid c))).

Definition shapeProtocolUpgrade (value : record) (c : CommonFields) : res Transaction :=
  not_reserved c;;
  zero_fee value "Protocol upgrade fee must be zero";;
  activationHeight ← safe_int (get value "activationHeight") (λ z, z <? 1) "Invalid protocol activation height";
  protocolVersion ← safe_int (get value "protocolVersion") (λ z, (z <? 1) || (65535 <? z)) "Invalid protocol version";
  sender_matches c;;
  approvals ← approvals_of value "Invalid protocol upgrade approvals";
  Ok (ProtocolUpgrade (mkProtocolUpgrade (c_version c) (c_chainId c) (c_nonce c) (c_sender c)
    activationHeight protocolVersion approvals 0 (c_timestampMs c) (c_publicKey c) (c_signature c) (c_txid c))).

Definition optional_key (value : record) (name : string) : list string :=
  if has value name then [name] else [].

Definition validateTransactionShape (v : jsval string) (fixedTransferFeeAtoms : option Z) : res Transaction :=
  value ← assertPlainRecord v "transaction";
  let kind := match get value "kind" with JStr s => s | _ => "" end in
  let tail := ["feeAtoms"; "timestampMs"; "publicKey"; "signature"; "txid"] in
  let head := ["kind"; "version"; "chainId"; "nonce"; "sender"] in
  shape ←
    (if String.eqb kind "transfer" then
       assertExactKeys value (head ++ ["receiver"; "amountAtoms"] ++ tail) "transfer transaction";;
       Ok (λ c, shapeTransfer value c fixedTransferFeeAtoms)
     else if String.eqb kind "activity_settlement" then
       assertExactKeys value (head ++ ["epoch"; "entries"; "receiptRoot"] ++ optional_key value "oracleApprovals"
         ++ optional_key value "attestationExpiresAtMs" ++ tail) "activity settlement";;
       Ok (shapeSettlement value)
     else if String.eqb kind "mining_claim" then
       assertExactKeys value (head ++ ["height"; "previousHash"; "rewardAtoms"; "workNonce"] ++ tail) "mining claim";;
       Throw MINING_RETIRED_MESSAGE
     else if String.eqb kind "validator_update" then
       assertExactKeys value (head ++ ["activationHeight"; "validators"; "approvals"]
         ++ optional_key value "possessionProofs" ++ tail) "validator update";;
       Ok (shapeValidatorUpdate value)
     else if String.eqb kind "activity_oracle_governance" then
       assertExactKeys value (head ++ ["activationHeight"; "action"; "publicKeys"; "approvals"] ++ tail)
         "activity oracle governance";;
       Ok (shapeOracleGovernance value)
     else if String.eqb kind "protocol_upgrade" then
       assertExactKeys value (head ++ ["activationHeight"; "protocolVersion"; "approvals"] ++ tail) "protocol upgrade";;
       Ok (shapeProtocolUpgrade value)
     else Throw "Unsupported transaction kind");
  common ← validateCommon value;
  tx ← shape common;
  expectedTxid ← txid_of (signedPayload value);
  throw_if (negb (String.eqb (c_txid common) expectedTxid)) "Transaction ID mismatch";;
  throw_if (negb (verifyForTransactionVersion (c_version common) (transactionSigningDomain kind)
      (txSigningPayload value) (c_signature common) (c_publicKey common))) "Invalid transaction signature";;
  Ok tx.

End shape.

(** ** What the checks establish *)

Lemma safe_int_Ok (v : jsval string) (bad : Z → bool) (msg : string) (z : Z) :
  safe_int v bad msg = Ok z ↔ as_int v = Some z ∧ isSafeInteger z = true ∧ bad z = false.
Proof.
  unfold safe_int. destruct (as_int v) as [w|]; [|naive_solver].
  rewrite res_bind_Ok. split.
  - intros (u & Hu%throw_if_Ok & <-%Ok_inj). apply orb_false_iff in Hu as [Hs Hb].
    by rewrite negb_false_iff in Hs.
  - intros ([= ->] & Hs & Hb). exists (). by rewrite Hs, Hb.
Qed.

Lemma as_text_Ok (v : jsval string) (msg s : string) : as_text v msg = Ok s ↔ v = JStr s.
Proof. destruct v; simpl; naive_solver. Qed.

Lemma as_array_Ok (v : jsval string) (bad : list (jsval string) → bool) (msg : string) (l : list (jsval string)) :
  as_array v bad msg = Ok l ↔ v = JArr l ∧ bad l = false.
Proof.
  destruct v; simpl; try naive_solver. rewrite res_bind_Ok. split.
  - intros (u & Hu%throw_if_Ok & <-%Ok_inj). done.
  - intros [[= ->] Hb]. exists (). by rewrite Hb.
Qed.

Lemma assertAddressValue_Ok (v : jsval string) (s : string) :
  assertAddressValue v = Ok s ↔ v = JStr s ∧ isAddress s = true.
Proof.
  destruct v; simpl; try naive_solver. unfold assertAddress. rewrite res_bind_Ok. split.
  - intros (u & Hu%throw_if_Ok & <-%Ok_inj). by rewrite negb_false_iff in Hu.
  - intros [[= ->] Ha]. exists (). by rewrite Ha.
Qed.

Lemma assertAmount_Ok (v : jsval string) (name : string) (allowZero : bool) (z : Z) :
  assertAmount v name allowZero = Ok z ↔
    as_int v = Some z ∧ (if allowZero then 0 else 1) ≤ z ≤ MAX_SUPPLY_ATOMS.
Proof.
  unfold assertAmount. rewrite res_bind_Ok. split.
  - intros (w & Hw%safe_int_Ok & Hr). apply res_bind_Ok in Hr as (u & Hu%throw_if_Ok & <-%Ok_inj).
    destruct Hw as (Hw & Hs & Hb). breflect. destruct allowZero; simpl in Hu; breflect; split; [done|lia|done|lia].
  - intros [Hv Hz]. exists z. rewrite safe_int_Ok. split; [split; [done|]|].
    + rewrite isSafeInteger_spec. unfold MAX_SAFE_INTEGER, MAX_SUPPLY_ATOMS, ATOMS_PER_ZYN in *.
      destruct allowZero; lia.
    + destruct allowZero; simpl; [done|]. destruct (Z.eqb_spec z 0); [lia|done].
Qed.

Lemma assertHex_Ok (s : string) (n : nat) (name : string) (u : unit) :
  assertHex s n name = Ok u ↔ isLowerHexOf (2 * n) s = true.
Proof. unfold assertHex. rewrite throw_if_Ok. apply negb_false_iff. Qed.

Lemma each_Ok {A} (f : jsval string → res A) (l : list (jsval string)) (xs : list A) :
  each f l = Ok xs ↔ Forall2 (λ v x, f v = Ok x) l xs.
Proof.
  unfold each. revert xs. induction l as [|v l IH]; intros xs; simpl.
  - split; [intros <-%Ok_inj; constructor|intros Hf; by inversion Hf].
  - split.
    + intros Hr. apply res_bind_Ok in Hr as (x & Hx & Hr). apply res_bind_Ok in Hr as (xs' & Hxs & <-%Ok_inj).
      constructor; [done|]. by apply IH.
    + intros Hf. inversion Hf as [|? x ? xs' Hx Hxs]; subst. rewrite Hx. simpl.
      apply IH in Hxs. by rewrite Hxs.
Qed.

(** ** Well-formed transactions *)

(** From "this check returned" to what it checked. *)
Ltac shape_inv :=
  repeat (res_split; match goal with
  | H : safe_int _ _ _ = Ok _ |- _ => apply safe_int_Ok in H as (? & ? & ?)
  | H : as_text _ _ = Ok _ |- _ => apply as_text_Ok in H
  | H : as_array _ _ _ = Ok _ |- _ => apply as_array_Ok in H as [? ?]
  | H : assertAddressValue _ = Ok _ |- _ => apply assertAddressValue_Ok in H as [? ?]
  | H : assertAmount _ _ _ = Ok _ |- _ => apply assertAmount_Ok in H as [? ?]
  | H : assertHex _ _ _ = Ok _ |- _ => apply assertHex_Ok in H
  | H : negb _ = false |- _ => apply negb_false_iff in H
  | H : _ || _ = false |- _ => apply orb_false_iff in H as [? ?]
  | H : String.eqb _ _ = true |- _ => apply String.eqb_eq in H
  | H : String.eqb _ _ = false |- _ => apply String.eqb_neq in H
  | H : bool_decide _ = true |- _ => apply bool_decide_eq_true in H
  | H : bool_decide _ = false |- _ => apply bool_decide_eq_false in H
  | H : isSafeInteger _ = true |- _ => apply isSafeInteger_spec in H
  | H : (_ <? _) = false |- _ => apply Z.ltb_ge in H
  end); subst.

Section wf.
Context `{Crypto}.

Definition approval_wf (a : ValidatorApproval) : Prop :=
  isAddress (ap_validator a) = true ∧ isLowerHexOf 128 (ap_publicKey a) = true ∧
  isLowerHexOf 128 (ap_signature a) = true ∧ addressFromPublicKey (ap_publicKey a) = ap_validator a.
Definition validator_wf (v : Validator) : Prop :=
  isAddress (v_address v) = true ∧ isValidPublicKey (v_publicKey v) = true ∧
  addressFromPublicKey (v_publicKey v) = v_address v.
Definition validator_set_wf (l : list Validator) : Prop :=
  Forall validator_wf l ∧ NoDup (v_publicKey <$> l) ∧ NoDup (v_address <$> l).
Definition entry_wf (e : ActivityEntry) : Prop :=
  isAddress (e_receiver e) = true ∧ e_receiver e ≠ MINING_TRACKER_ADDRESS ∧ 1 ≤ e_amountAtoms e ≤ MAX_SUPPLY_ATOMS.
Definition oracle_approval_wf (a : ActivityOracleApproval) : Prop :=
  isLowerHexOf 128 (oa_publicKey a) = true ∧ isLowerHexOf 128 (oa_signature a) = true.
Definition proof_wf (p : ValidatorPossessionProof) : Prop :=
  isAddress (pp_address p) = true ∧ isLowerHexOf 128 (pp_signature p) = true.

(** The fields every kind has. *)
Definition common_wf (tx : Transaction) : Prop :=
  (tx_version tx = 1 ∨ tx_version tx = 2) ∧ isAddress (tx_sender tx) = true ∧
  tx_sender tx ≠ MINING_TRACKER_ADDRESS ∧
  1 ≤ tx_nonce tx ≤ MAX_SAFE_INTEGER ∧ 0 ≤ tx_timestampMs tx ≤ MAX_SAFE_INTEGER ∧
  isLowerHexOf 128 (tx_publicKey tx) = true.

Definition owns_sender (tx : Transaction) : Prop := addressFromPublicKey (tx_publicKey tx) = tx_sender tx.

Definition kind_wf (tx : Transaction) : Prop :=
  match tx with
  | Transfer t =>
    isAddress (tr_receiver t) = true ∧ tr_receiver t ≠ MINING_TRACKER_ADDRESS ∧
    1 ≤ tr_amountAtoms t ≤ MAX_SUPPLY_ATOMS ∧ 0 ≤ tr_feeAtoms t ≤ MAX_SUPPLY_ATOMS ∧ owns_sender tx
  | ActivitySettlement t =>
    0 ≤ as_epoch t ≤ MAX_SAFE_INTEGER ∧ as_feeAtoms t = 0 ∧ isLowerHexOf 64 (as_receiptRoot t) = true ∧
    1 ≤ zlen (as_entries t) ≤ 10000 ∧ Forall entry_wf (as_entries t) ∧
    sumZ e_amountAtoms (as_entries t) ≤ MAX_ACTIVITY_SETTLEMENT_ATOMS ∧
    from_option (λ l, 1 ≤ zlen l ≤ MAX_ACTIVITY_ORACLE_APPROVALS ∧ Forall oracle_approval_wf l) True (as_oracleApprovals t) ∧
    from_option (λ z, isSafeInteger z = true) True (as_attestationExpiresAtMs t)
  | MiningClaim _ => False
  | ValidatorUpdate t =>
    1 ≤ vu_activationHeight t ≤ MAX_SAFE_INTEGER ∧ vu_feeAtoms t = 0 ∧ owns_sender tx ∧
    1 ≤ zlen (vu_validators t) ≤ 100 ∧ validator_set_wf (vu_validators t) ∧
    1 ≤ zlen (vu_approvals t) ≤ 100 ∧ Forall approval_wf (vu_approvals t) ∧
    from_option (λ l, zlen l ≤ 100 ∧ Forall proof_wf l) True (vu_possessionProofs t)
  | ActivityOracleGovernance t =>
    1 ≤ og_activationHeight t ≤ MAX_SAFE_INTEGER ∧ og_feeAtoms t = 0 ∧ owns_sender tx ∧
    zlen (og_publicKeys t) ≤ MAX_ACTIVITY_ORACLE_APPROVALS ∧
    Forall (λ k, isLowerHexOf 128 k = true) (og_publicKeys t) ∧
    1 ≤ zlen (og_approvals t) ≤ 100 ∧ Forall approval_wf (og_approvals t)
  | ProtocolUpgrade t =>
    1 ≤ pu_activationHeight t ≤ MAX_SAFE_INTEGER ∧ pu_feeAtoms t = 0 ∧ owns_sender tx ∧
    1 ≤ pu_protocolVersion t ≤ 65535 ∧
    1 ≤ zlen (pu_approvals t) ≤ 100 ∧ Forall approval_wf (pu_approvals t)
  end.

Definition tx_wf (tx : Transaction) : Prop := common_wf tx ∧ kind_wf tx.

(** ** What each check returns is well formed *)

Lemma validateActivityEntry_wf (v : jsval string) (e : ActivityEntry) :
  validateActivityEntry v = Ok e → entry_wf e.
Proof. unfold validateActivityEntry. intros Hv. by shape_inv. Qed.

Lemma validateActivityOracleApproval_wf (v : jsval string) (a : ActivityOracleApproval) :
  validateActivityOracleApproval v = Ok a → oracle_approval_wf a.
Proof. unfold validateActivityOracleApproval. intros Hv. by shape_inv. Qed.

Lemma validateValidatorPossessionProofShape_wf (v : jsval string) (p : ValidatorPossessionProof) :
  validateValidatorPossessionProofShape v = Ok p → proof_wf p.
Proof. unfold validateValidatorPossessionProofShape. intros Hv. by shape_inv. Qed.

Lemma validateValidatorApproval_wf (v : jsval string) (a : ValidatorApproval) :
  validateValidatorApproval v = Ok a → approval_wf a.
Proof. unfold validateValidatorApproval. intros Hv. by shape_inv. Qed.

Lemma each_wf {A} (f : jsval string → res A) (P : A → Prop) (l : list (jsval string)) (xs : list A) :
  (∀ v x, f v = Ok x → P x) → each f l = Ok xs → Forall P xs ∧ zlen xs = zlen l.
Proof.
  intros Hf He. apply each_Ok in He. split.
  - induction He; constructor; eauto.
  - unfold zlen. f_equal. symmetry. by eapply Forall2_length.
Qed.

Lemma validateValidator_wf (seen seen' : list Validator) (v : jsval string) :
  validator_set_wf seen → validateValidator seen v = Ok seen' →
  validator_set_wf seen' ∧ length seen' = S (length seen).
Proof.
  intros (Hw & Hk & Ha) Hv. unfold validateValidator, assertValidPublicKey in Hv. shape_inv.
  split; [|rewrite length_app; simpl; lia]. repeat split.
  - apply Forall_app. split; [done|]. repeat constructor; done.
  - rewrite fmap_app. apply NoDup_app. split; [done|]. split; [|apply NoDup_singleton].
    intros k Hin Hk'. csimpl in Hk'. apply list_elem_of_singleton in Hk' as ->. done.
  - rewrite fmap_app. apply NoDup_app. split; [done|]. split; [|apply NoDup_singleton].
    intros k Hin Hk'. csimpl in Hk'. apply list_elem_of_singleton in Hk' as ->. done.
Qed.

Lemma validateValidators_wf (l : list (jsval string)) (vs : list Validator) :
  res_fold validateValidator [] l = Ok vs → validator_set_wf vs ∧ zlen vs = zlen l.
Proof.
  intros Hf.
  apply (res_fold_inv (λ pre s, validator_set_wf s ∧ zlen s = zlen pre)) in Hf; [done| |].
  - split; [|done]. repeat split; constructor.
  - intros pre v s s' [Hw Hl] _ Hv. apply validateValidator_wf in Hv as [Hw' Hl']; [|done].
    split; [done|]. unfold zlen in *. rewrite length_app. simpl. lia.
Qed.

Lemma size_out_of_false {A} (lo hi : Z) (l : list A) : size_out_of lo hi l = false ↔ lo ≤ zlen l ≤ hi.
Proof. unfold size_out_of. breflect. lia. Qed.

Lemma approvals_of_wf (value : record) (msg : string) (l : list ValidatorApproval) :
  approvals_of value msg = Ok l → 1 ≤ zlen l ≤ 100 ∧ Forall approval_wf l.
Proof.
  unfold approvals_of. intros Hv. shape_inv. apply (each_wf _ approval_wf) in Hv as [Hw Hl].
  - rewrite size_out_of_false in *. by rewrite Hl.
  - apply validateValidatorApproval_wf.
Qed.

(** ** The whole gate *)

Record common_ok (c : CommonFields) : Prop := {
  co_version : c_version c = 1 ∨ c_version c = 2;
  co_sender : isAddress (c_sender c) = true;
  co_nonce : 1 ≤ c_nonce c ≤ MAX_SAFE_INTEGER;
  co_time : 0 ≤ c_timestampMs c ≤ MAX_SAFE_INTEGER;
  co_key : isLowerHexOf 128 (c_publicKey c) = true;
  co_sig : isLowerHexOf 128 (c_signature c) = true;
  co_txid : isLowerHexOf 64 (c_txid c) = true }.

Lemma validateCommon_ok (value : record) (c : CommonFields) : validateCommon value = Ok c → common_ok c.
Proof.
  unfold validateCommon. intros Hv. apply res_bind_Ok in Hv as (ver & Hver & Hv).
  assert (ver = 1 ∨ ver = 2) as Hver'.
  { destruct (as_int _) as [z|]; [|done]. apply res_bind_Ok in Hver as (? & Hz & <-%Ok_inj).
    apply throw_if_Ok, andb_false_iff in Hz as [Hz|Hz]; apply negb_false_iff, Z.eqb_eq in Hz; auto. }
  clear Hver. shape_inv. split; simpl; try done; lia.
Qed.

(** A transaction made from the common fields [c]. *)
Definition built_from (c : CommonFields) (kind : string) (tx : Transaction) : Prop :=
  tx_version tx = c_version c ∧ tx_publicKey tx = c_publicKey c ∧ tx_signature tx = c_signature c ∧
  tx_txid tx = c_txid c ∧ tx_kind tx = kind.

Definition fee_matches (fixedFee : option Z) (tx : Transaction) : Prop :=
  match tx, fixedFee with Transfer t, Some f => tr_feeAtoms t = f | _, _ => True end.

Lemma shapeTransfer_wf (value : record) (c : CommonFields) (fee : option Z) (tx : Transaction) :
  common_ok c → shapeTransfer value c fee = Ok tx →
  tx_wf tx ∧ built_from c "transfer" tx ∧ fee_matches fee tx.
Proof.
  intros [] Hv. unfold shapeTransfer, sender_matches in Hv. shape_inv.
  split; [|split; [done|]].
  - repeat split; simpl; try done; lia.
  - simpl. destruct fee; [|done]. shape_inv. by apply Z.eqb_eq.
Qed.

Lemma shapeSettlement_wf (value : record) (c : CommonFields) (fee : option Z) (tx : Transaction) :
  common_ok c → shapeSettlement value c = Ok tx →
  tx_wf tx ∧ built_from c "activity_settlement" tx ∧ fee_matches fee tx.
Proof.
  intros [] Hv. unfold shapeSettlement, not_reserved, zero_fee in Hv.
  apply res_bind_Ok in Hv as ([] & ? & Hv). apply res_bind_Ok in Hv as (epoch & ? & Hv).
  apply res_bind_Ok in Hv as ([] & ? & Hv). apply res_bind_Ok in Hv as ([] & ? & Hv).
  apply res_bind_Ok in Hv as (raw & ? & Hv). apply res_bind_Ok in Hv as (entries & He & Hv).
  apply res_bind_Ok in Hv as (total & Ht & Hv). apply res_bind_Ok in Hv as (oa & Hoa & Hv).
  apply res_bind_Ok in Hv as (ex & Hex & Hv). shape_inv.
  apply settlement_total in Ht as (-> & Hle & _ & _).
  apply (each_wf _ _ _ _ validateActivityEntry_wf) in He as [Hw Hl]. rewrite size_out_of_false in *.
  split; [|done]. split; [repeat split; simpl; try done; lia|]. repeat split; simpl; try done; try lia.
  - destruct (has value "oracleApprovals"); [|by apply Ok_inj in Hoa as <-]. shape_inv. simpl.
    select (each _ _ = Ok _) (fun He => apply (each_wf _ _ _ _ validateActivityOracleApproval_wf) in He as [Hwa Hla]).
    rewrite size_out_of_false in *. by rewrite Hla.
  - destruct (has value "attestationExpiresAtMs"); [|by apply Ok_inj in Hex as <-]. shape_inv. simpl.
    by apply isSafeInteger_spec.
Qed.

Lemma shapeValidatorUpdate_wf (value : record) (c : CommonFields) (fee : option Z) (tx : Transaction) :
  common_ok c → shapeValidatorUpdate value c = Ok tx →
  tx_wf tx ∧ built_from c "validator_update" tx ∧ fee_matches fee tx.
Proof.
  intros [] Hv. unfold shapeValidatorUpdate, not_reserved, zero_fee, sender_matches in Hv.
  apply res_bind_Ok in Hv as ([] & ? & Hv). apply res_bind_Ok in Hv as ([] & ? & Hv).
  apply res_bind_Ok in Hv as (h & ? & Hv). apply res_bind_Ok in Hv as ([] & ? & Hv).
  apply res_bind_Ok in Hv as (raw & ? & Hv). apply res_bind_Ok in Hv as (vs & Hvs & Hv).
  apply res_bind_Ok in Hv as (aps & Haps & Hv). apply res_bind_Ok in Hv as (pf & Hpf & Hv). shape_inv.
  apply validateValidators_wf in Hvs as [Hw Hl]. apply approvals_of_wf in Haps as [Hal Haw].
  rewrite size_out_of_false in *.
  split; [|done]. split; [repeat split; simpl; try done; lia|].
  split; [simpl; lia|]. split; [done|]. split; [done|]. split; [simpl; lia|]. split; [done|].
  split; [done|]. split; [done|]. simpl.
  destruct (has value "possessionProofs"); [|by apply Ok_inj in Hpf as <-]. shape_inv. simpl.
  select (each _ _ = Ok _) (fun He => apply (each_wf _ _ _ _ validateValidatorPossessionProofShape_wf) in He as [Hwp Hlp]).
  rewrite size_out_of_false in *. split; [lia|done].
Qed.

Lemma governance_key_wf (v : jsval string) (k : string) :
  governance_key v = Ok k → isLowerHexOf 128 k = true.
Proof. unfold governance_key. intros Hv. by shape_inv. Qed.

Lemma shapeOracleGovernance_wf (value : record) (c : CommonFields) (fee : option Z) (tx : Transaction) :
  common_ok c → shapeOracleGovernance value c = Ok tx →
  tx_wf tx ∧ built_from c "activity_oracle_governance" tx ∧ fee_matches fee tx.
Proof.
  intros [] Hv. unfold shapeOracleGovernance, not_reserved, zero_fee, sender_matches in Hv.
  apply res_bind_Ok in Hv as ([] & ? & Hv). apply res_bind_Ok in Hv as ([] & ? & Hv).
  apply res_bind_Ok in Hv as (h & ? & Hv). apply res_bind_Ok in Hv as (act & _ & Hv).
  apply res_bind_Ok in Hv as ([] & ? & Hv). apply res_bind_Ok in Hv as (raw & ? & Hv).
  apply res_bind_Ok in Hv as (ks & Hks & Hv). apply res_bind_Ok in Hv as (aps & Haps & Hv). shape_inv.
  apply (each_wf _ _ _ _ governance_key_wf) in Hks as [Hkw Hkl]. apply approvals_of_wf in Haps as [Hal Haw].
  rewrite size_out_of_false in *.
  split; [|done]. split; [repeat split; simpl; try done; lia|].
  repeat split; simpl; try done; lia.
Qed.

Lemma shapeProtocolUpgrade_wf (value : record) (c : CommonFields) (fee : option Z) (tx : Transaction) :
  common_ok c → shapeProtocolUpgrade value c = Ok tx →
  tx_wf tx ∧ built_from c "protocol_upgrade" tx ∧ fee_matches fee tx.
Proof.
  intros [] Hv. unfold shapeProtocolUpgrade, not_reserved, zero_fee, sender_matches in Hv.
  apply res_bind_Ok in Hv as ([] & ? & Hv). apply res_bind_Ok in Hv as ([] & ? & Hv).
  apply res_bind_Ok in Hv as (h & ? & Hv). apply res_bind_Ok in Hv as (pv & ? & Hv).
  apply res_bind_Ok in Hv as ([] & ? & Hv). apply res_bind_Ok in Hv as (aps & Haps & Hv). shape_inv.
  apply approvals_of_wf in Haps as [Hal Haw].
  split; [|done]. split; [repeat split; simpl; try done; lia|].
  repeat split; simpl; try done; lia.
Qed.

(** What the gate establishes about the transaction it returns. *)
Lemma shape_gate (v : jsval string) (fee : option Z) (tx : Transaction) :
  validateTransactionShape v fee = Ok tx →
  tx_wf tx ∧ fee_matches fee tx ∧
  isLowerHexOf 64 (tx_txid tx) = true ∧ isLowerHexOf 128 (tx_signature tx) = true ∧
  ∃ value, v = JObj value ∧ txid_of (signedPayload value) = Ok (tx_txid tx) ∧
    verifyForTransactionVersion (tx_version tx) (transactionSigningDomain (tx_kind tx))
      (txSigningPayload value) (tx_signature tx) (tx_publicKey tx) = true.
Proof.
  unfold validateTransactionShape. intros Hv.
  apply res_bind_Ok in Hv as (value & Hval & Hv). destruct v as [| | | | | | |entries]; try discriminate Hval.
  apply Ok_inj in Hval as <-. set (kind := match get entries "kind" with JStr s => s | _ => "" end) in Hv.
  cbv zeta in Hv. apply res_bind_Ok in Hv as (shape & Hshape & Hv). apply res_bind_Ok in Hv as (c & Hc & Hv).
  apply res_bind_Ok in Hv as (tx' & Htx & Hv). apply res_bind_Ok in Hv as (id & Hid & Hv).
  apply res_bind_Ok in Hv as (? & Hideq & Hv). apply res_bind_Ok in Hv as (? & Hsig & Hv).
  apply Ok_inj in Hv as ->. apply throw_if_Ok, negb_false_iff in Hideq, Hsig. apply String.eqb_eq in Hideq.
  apply validateCommon_ok in Hc.
  assert (tx_wf tx ∧ built_from c kind tx ∧ fee_matches fee tx) as (Hw & (Hb1 & Hb2 & Hb3 & Hb4 & Hb5) & Hf).
  { revert Hshape. clear Hsig Hideq Hid.
    repeat (match goal with |- context [if String.eqb kind ?k then _ else _] =>
      destruct (String.eqb_spec kind k) as [->|]; [intros Hs; apply res_bind_Ok in Hs as (? & _ & Hs)|] end);
      try discriminate; apply Ok_inj in Hs as <-.
    - by eapply shapeTransfer_wf.
    - by eapply shapeSettlement_wf.
    - by eapply shapeValidatorUpdate_wf.
    - by eapply shapeOracleGovernance_wf.
    - by eapply shapeProtocolUpgrade_wf. }
  destruct Hc. rewrite Hb1, Hb2, Hb3, Hb4, Hb5. repeat split; try done; [apply Hw..|].
  exists entries. by rewrite <-Hideq in Hid.
Qed.

(** C35. What [validateTransactionShape] lets through: a transaction of one of the
    five live kinds whose every field is in range, with no reserved sender, a
    validator set without duplicates, a payout within the historical cap, the
    genesis fee where one is fixed, whose id is the hash of its signed payload
    and whose signature verifies in the domain of its kind. *)
Theorem validateTransactionShape_sound (v : jsval string) (fee : option Z) (tx : Transaction) :
  validateTransactionShape v fee = Ok tx →
  tx_wf tx ∧ fee_matches fee tx ∧
  isLowerHexOf 64 (tx_txid tx) = true ∧ isLowerHexOf 128 (tx_signature tx) = true ∧
  ∃ value, v = JObj value ∧ txid_of (signedPayload value) = Ok (tx_txid tx) ∧
    verifyForTransactionVersion (tx_version tx) (transactionSigningDomain (tx_kind tx))
      (txSigningPayload value) (tx_signature tx) (tx_publicKey tx) = true.
Proof. apply shape_gate. Qed.

End wf.

(** ** Everything the constructors make is accepted *)

Section roundtrip.
Context `{CryptoLaws}.

Ltac safe_lia := unfold MAX_SAFE_INTEGER in *; simpl; lia.

(** Running one statement of the gate on a value that passes it. *)
Ltac shape_run :=
  apply res_bind_Ok; first [exists () | eexists]; split;
  [first
    [ reflexivity
    | apply assertAddressValue_Ok; split; [reflexivity|eassumption]
    | apply as_text_Ok; reflexivity
    | apply assertHex_Ok; eassumption
    | apply assertAmount_Ok; split; [reflexivity|simpl; lia]
    | apply safe_int_Ok; split; [reflexivity|]; split; [apply isSafeInteger_spec; safe_lia|first [reflexivity|cbn beta; safe_lia]]
    | apply throw_if_Ok, negb_false_iff, String.eqb_eq; eassumption
    | apply throw_if_Ok, String.eqb_neq; eassumption
    | apply throw_if_Ok, orb_false_iff; split; apply String.eqb_neq; eassumption ]
  |].

Lemma validateActivityEntry_json (e : ActivityEntry) : entry_wf e → validateActivityEntry (entry_json e) = Ok e.
Proof. destruct e as [r a]. intros (Ha & Hne & Hz); simpl in *. unfold validateActivityEntry. by repeat shape_run. Qed.

Lemma validateActivityOracleApproval_json (a : ActivityOracleApproval) :
  oracle_approval_wf a → validateActivityOracleApproval (oracle_approval_json a) = Ok a.
Proof. destruct a as [k s]. intros (Hk & Hs); simpl in *. unfold validateActivityOracleApproval. by repeat shape_run. Qed.

Lemma validateValidatorPossessionProofShape_json (p : ValidatorPossessionProof) :
  proof_wf p → validateValidatorPossessionProofShape (proof_json p) = Ok p.
Proof. destruct p as [a s]. intros (Ha & Hs); simpl in *. unfold validateValidatorPossessionProofShape. by repeat shape_run. Qed.

Lemma validateValidatorApproval_json (a : ValidatorApproval) :
  approval_wf a → validateValidatorApproval (approval_json a) = Ok a.
Proof. destruct a as [v k s]. intros (Hv & Hk & Hs & Ha); simpl in *. unfold validateValidatorApproval. by repeat shape_run. Qed.

Lemma governance_key_json (k : string) : isLowerHexOf 128 k = true → governance_key (JStr k) = Ok k.
Proof. intros Hk. unfold governance_key. by repeat shape_run. Qed.

Lemma each_map {A} (f : jsval string → res A) (g : A → jsval string) (P : A → Prop) (l : list A) :
  (∀ x, P x → f (g x) = Ok x) → Forall P l → each f (map g l) = Ok l.
Proof. intros Hf Hl. apply each_Ok. induction Hl; constructor; auto. Qed.

Lemma validateValidator_json (seen : list Validator) (v : Validator) :
  validator_wf v → v_publicKey v ∉ v_publicKey <$> seen → v_address v ∉ v_address <$> seen →
  validateValidator seen (validator_json v) = Ok (seen ++ [v]).
Proof.
  destruct v as [a k]. intros (Ha & Hk & Hak) Hnk Hna; simpl in *. unfold validateValidator.
  assert (isLowerHexOf 128 k = true) as Hhex.
  { unfold isValidPublicKey in Hk. by destruct (isLowerHexOf 128 k). }
  repeat shape_run. unfold assertValidPublicKey. simpl v_publicKey. rewrite Hk. simpl.
  by rewrite !bool_decide_false.
Qed.

Lemma validateValidators_json (l : list Validator) :
  validator_set_wf l → res_fold validateValidator [] (map validator_json l) = Ok l.
Proof.
  assert (∀ seen rest, validator_set_wf (seen ++ rest) →
    res_fold validateValidator seen (map validator_json rest) = Ok (seen ++ rest)) as G; [|apply (G [])].
  intros seen rest. revert seen. induction rest as [|v rest IH]; intros seen Hw; [by rewrite app_nil_r|].
  cbn [map res_fold]. destruct Hw as (Hw & Hk & Ha).
  rewrite validateValidator_json.
  - cbn [mbind res_bind]. rewrite IH; rewrite <-app_assoc; done.
  - rewrite Forall_app, Forall_cons in Hw. tauto.
  - rewrite fmap_app in Hk. csimpl in Hk. apply NoDup_app in Hk as (_ & Hk & _). intros Hin. apply (Hk _ Hin). left.
  - rewrite fmap_app in Ha. csimpl in Ha. apply NoDup_app in Ha as (_ & Ha & _). intros Hin. apply (Ha _ Hin). left.
Qed.

Lemma size_in {A} (lo hi : Z) (l : list A) : lo ≤ zlen l ≤ hi → size_out_of lo hi l = false.
Proof. apply size_out_of_false. Qed.

Lemma zlen_map {A B} (f : A → B) (l : list A) : zlen (map f l) = zlen l.
Proof. unfold zlen. by rewrite length_map. Qed.

Lemma approvals_of_json (value : record) (msg : string) (l : list ValidatorApproval) :
  get value "approvals" = JArr (map approval_json l) → 1 ≤ zlen l ≤ 100 → Forall approval_wf l →
  approvals_of value msg = Ok l.
Proof.
  intros Hg Hl Hw. unfold approvals_of. rewrite Hg. simpl.
  rewrite size_in by by rewrite zlen_map. simpl. by apply (each_map _ _ approval_wf); [apply validateValidatorApproval_json|].
Qed.

(** The sealed common part of [tx_json tx]. *)
Lemma seal_hex (tx : Transaction) (key s i : string) :
  seal tx key = Ok (s, i) → isLowerHexOf 128 s = true ∧ isLowerHexOf 64 i = true.
Proof.
  unfold seal, signTransactionPayload, txid_of, signForTransactionVersion. intros Hs.
  apply res_bind_Ok in Hs as (sig & Hsig & Hs). apply res_bind_Ok in Hs as (txid & Hid & Hs).
  apply Ok_inj in Hs as [= -> ->]. apply res_bind_Ok in Hid as (b & _ & <-%Ok_inj). split; [|apply sha256_hex].
  unfold signCanonicalDomain, signCanonical in Hsig.
  destruct (_ =? 2); res_split; eauto using secp_sign_hex.
Qed.

Lemma seal_verifies (tx : Transaction) (key s i : string) :
  seal tx key = Ok (s, i) → publicKeyFromPrivate key = Ok (tx_publicKey tx) →
  verifyForTransactionVersion (tx_version tx) (transactionSigningDomain (tx_kind tx))
    (JObj (tx_fields tx)) s (tx_publicKey tx) = true ∧
  txid_of (JObj (tx_fields tx ++ [("signature", JStr s)])) = Ok i.
Proof.
  unfold seal, signTransactionPayload, signForTransactionVersion, verifyForTransactionVersion. intros Hs Hk.
  apply res_bind_Ok in Hs as (sig & Hsig & Hs). apply res_bind_Ok in Hs as (txid & Hid & Hs).
  apply Ok_inj in Hs as [= -> ->]. split; [|done].
  destruct (_ =? 2); [by eapply signed_domain_verifies|by eapply signed_plain_verifies].
Qed.

(** Removing [signature] and [txid] from the sent value gives back what was
    signed. *)
Lemma tx_json_payloads (tx : Transaction) :
  txSigningPayload (tx_fields tx ++ [("signature", JStr (tx_signature tx)); ("txid", JStr (tx_txid tx))]) = JObj (tx_fields tx) ∧
  signedPayload (tx_fields tx ++ [("signature", JStr (tx_signature tx)); ("txid", JStr (tx_txid tx))])
    = JObj (tx_fields tx ++ [("signature", JStr (tx_signature tx))]).
Proof.
  destruct tx as [t|t|t|t|t|t]; [split; reflexivity| |split; reflexivity| |split; reflexivity..].
  - destruct t as [? ? ? ? ? ? ? [oa|] [ex|]]; split; reflexivity.
  - destruct t as [? ? ? ? ? ? ? [pf|]]; split; reflexivity.
Qed.

(** The common fields of the sent value. *)
Definition common_of (tx : Transaction) : CommonFields :=
  mkCommon (tx_version tx) (tx_chainId tx) (tx_sender tx) (tx_nonce tx) (tx_timestampMs tx)
    (tx_publicKey tx) (tx_signature tx) (tx_txid tx).

Definition tx_entries (tx : Transaction) : record :=
  tx_fields tx ++ [("signature", JStr (tx_signature tx)); ("txid", JStr (tx_txid tx))].

Lemma validateCommon_run (value : record) (ver nonce time : Z) (chain sender k s i : string) :
  get value "version" = jint ver → get value "chainId" = JStr chain → get value "sender" = JStr sender →
  get value "nonce" = jint nonce → get value "timestampMs" = jint time → get value "publicKey" = JStr k →
  get value "signature" = JStr s → get value "txid" = JStr i →
  common_ok (mkCommon ver chain sender nonce time k s i) →
  validateCommon value = Ok (mkCommon ver chain sender nonce time k s i).
Proof.
  intros E1 E2 E3 E4 E5 E6 E7 E8 []; simpl in *. unfold validateCommon. rewrite E1, E2, E3, E4, E5, E6, E7, E8.
  apply res_bind_Ok. exists ver. split; [simpl; by destruct co_version0 as [-> | ->]|].
  by repeat shape_run.
Qed.

Lemma validateCommon_json (tx : Transaction) :
  common_ok (common_of tx) → validateCommon (tx_entries tx) = Ok (common_of tx).
Proof.
  intros Hc. unfold common_of in *. apply validateCommon_run; try done;
    destruct tx as [t|t|t|t|t|t]; try reflexivity.
  all: try (destruct t as [? ? ? ? ? ? ? [oa|] [ex|]]; reflexivity).
  all: destruct t as [? ? ? ? ? ? ? [pf|]]; reflexivity.
Qed.

Ltac json_run :=
  first [ shape_run
  | apply res_bind_Ok; eexists; split;
    [first
      [ apply as_array_Ok; split; [reflexivity|apply size_in; rewrite ?zlen_map; simpl in *; lia]
      | apply (each_map _ _ entry_wf); [apply validateActivityEntry_json|eassumption]
      | apply (each_map _ _ (λ k, isLowerHexOf 128 k = true)); [apply governance_key_json|eassumption]
      | apply validateValidators_json; eassumption
      | apply approvals_of_json; [reflexivity|simpl in *; lia|eassumption]
      | apply settlement_total_intro; [done|eassumption|eassumption] ]
    |]].

Lemma shapeTransfer_json (t : TransferTx) (fee : option Z) :
  tx_wf (Transfer t) → fee_matches fee (Transfer t) →
  shapeTransfer (tx_entries (Transfer t)) (common_of (Transfer t)) fee = Ok (Transfer t).
Proof.
  destruct t. intros [(Hver & Hs & Hns & Hn & Ht & Hk) (Ha & Hna & Hamt & Hfee & Ho)] Hf; simpl in *.
  unfold owns_sender in Ho; simpl in *. unfold shapeTransfer, sender_matches.
  do 4 json_run. apply res_bind_Ok. exists (). split.
  { apply throw_if_Ok. destruct fee; [|done]. apply negb_false_iff, Z.eqb_eq. done. }
  by repeat json_run.
Qed.

Lemma shapeSettlement_json (t : ActivitySettlementTx) :
  tx_wf (ActivitySettlement t) →
  shapeSettlement (tx_entries (ActivitySettlement t)) (common_of (ActivitySettlement t)) = Ok (ActivitySettlement t).
Proof.
  destruct t as [? ? ? ? ? ? ? oa ex fee]. intros [(Hver & Hs & Hns & Hn & Ht & Hk) (He & Hfee & Hr & Hl & Hen & Hsum & Hoa & Hex)].
  simpl in *. subst fee.
  assert (∀ e, e ∈ as_entries → 0 ≤ e_amountAtoms e) as Hpos.
  { intros e Hin. rewrite Forall_forall in Hen. destruct (Hen e Hin) as (_ & _ & ?). lia. }
  unfold shapeSettlement, not_reserved, zero_fee.
  destruct oa as [oa|], ex as [ex|]; simpl in Hoa, Hex; try destruct Hoa as [Hoal Hoaw];
    try rewrite isSafeInteger_spec in Hex; do 7 json_run.
  - apply res_bind_Ok. exists (Some oa). split.
    { change (has _ _) with true. cbn iota. json_run.
      by rewrite (each_map _ _ oracle_approval_wf); [|apply validateActivityOracleApproval_json|]. }
    apply res_bind_Ok. exists (Some ex). split; [|done]. change (has _ _) with true. cbn iota. by repeat json_run.
  - apply res_bind_Ok. exists (Some oa). split.
    { change (has _ _) with true. cbn iota. json_run.
      by rewrite (each_map _ _ oracle_approval_wf); [|apply validateActivityOracleApproval_json|]. }
    done.
  - apply res_bind_Ok. exists None. split; [done|].
    apply res_bind_Ok. exists (Some ex). split; [|done]. change (has _ _) with true. cbn iota. by repeat json_run.
  - done.
Qed.

Lemma shapeValidatorUpdate_json (t : ValidatorSetUpdateTx) :
  tx_wf (ValidatorUpdate t) →
  shapeValidatorUpdate (tx_entries (ValidatorUpdate t)) (common_of (ValidatorUpdate t)) = Ok (ValidatorUpdate t).
Proof.
  destruct t as [? ? ? ? ? ? ? pf fee].
  intros [(Hver & Hs & Hns & Hn & Ht & Hk) (Hh & Hfee & Ho & Hl & Hvs & Hal & Haw & Hpf)].
  simpl in *. unfold owns_sender in Ho; simpl in *. subst fee.
  unfold shapeValidatorUpdate, not_reserved, zero_fee, sender_matches.
  destruct pf as [pf|]; simpl in Hpf; try destruct Hpf as [Hpfl Hpfw]; do 7 json_run; [|done].
  apply res_bind_Ok. exists (Some pf). split; [|done].
  change (has _ _) with true. cbn iota. pose proof (Nat2Z.is_nonneg (length pf)).
  assert (0 ≤ zlen pf ≤ 100) by (unfold zlen; unfold zlen in Hpfl; lia). json_run.
  by rewrite (each_map _ _ proof_wf); [|apply validateValidatorPossessionProofShape_json|].
Qed.

Lemma shapeOracleGovernance_json (t : ActivityOracleGovernanceTx) :
  tx_wf (ActivityOracleGovernance t) →
  shapeOracleGovernance (tx_entries (ActivityOracleGovernance t)) (common_of (ActivityOracleGovernance t))
    = Ok (ActivityOracleGovernance t).
Proof.
  destruct t as [? ? ? ? ? act ks ? fee].
  intros [(Hver & Hs & Hns & Hn & Ht & Hk) (Hh & Hfee & Ho & Hkl & Hkw & Hal & Haw)].
  simpl in *. unfold owns_sender in Ho; simpl in *. subst fee.
  assert (0 ≤ zlen ks) by (unfold zlen; lia).
  unfold shapeOracleGovernance, not_reserved, zero_fee, sender_matches.
  do 3 json_run. apply res_bind_Ok. exists act. split; [by destruct act|]. by repeat json_run.
Qed.

Lemma shapeProtocolUpgrade_json (t : ProtocolUpgradeTx) :
  tx_wf (ProtocolUpgrade t) →
  shapeProtocolUpgrade (tx_entries (ProtocolUpgrade t)) (common_of (ProtocolUpgrade t)) = Ok (ProtocolUpgrade t).
Proof.
  destruct t as [? ? ? ? ? pv ? fee].
  intros [(Hver & Hs & Hns & Hn & Ht & Hk) (Hh & Hfee & Ho & Hpv & Hal & Haw)].
  simpl in *. unfold owns_sender in Ho; simpl in *. subst fee.
  unfold shapeProtocolUpgrade, not_reserved, zero_fee, sender_matches. by repeat json_run.
Qed.

Lemma kind_keys (tx : Transaction) : get (tx_entries tx) "kind" = JStr (tx_kind tx).
Proof. by destruct tx. Qed.

(** The end of the gate, once the shape has been decided. *)
Lemma gate_tail (tx : Transaction) (key : string) (shape : CommonFields → res Transaction) :
  tx_wf tx → seal tx key = Ok (tx_signature tx, tx_txid tx) → publicKeyFromPrivate key = Ok (tx_publicKey tx) →
  shape (common_of tx) = Ok tx →
  (common ← validateCommon (tx_entries tx);
   tx' ← shape common;
   expectedTxid ← txid_of (signedPayload (tx_entries tx));
   throw_if (negb (String.eqb (c_txid common) expectedTxid)) "Transaction ID mismatch";;
   throw_if (negb (verifyForTransactionVersion (c_version common) (transactionSigningDomain (tx_kind tx))
      (txSigningPayload (tx_entries tx)) (c_signature common) (c_publicKey common))) "Invalid transaction signature";;
   Ok tx') = Ok tx.
Proof.
  intros [(Hver & Hs & Hns & Hn & Ht & Hk) _] Hseal Hkey Hshape.
  destruct (seal_hex _ _ _ _ Hseal) as [Hsig Hid]. destruct (seal_verifies _ _ _ _ Hseal Hkey) as [Hv Hi].
  destruct (tx_json_payloads tx) as [Hp1 Hp2]. fold (tx_entries tx) in Hp1, Hp2.
  rewrite validateCommon_json by by split. cbn [mbind res_bind]. rewrite Hshape. cbn [mbind res_bind].
  rewrite Hp2, Hi, Hp1. cbn [mbind res_bind common_of c_txid c_version c_signature c_publicKey].
  by rewrite String.eqb_refl, Hv.
Qed.

Lemma sealed_validates (tx : Transaction) (key : string) (fee : option Z) :
  tx_wf tx → fee_matches fee tx → seal tx key = Ok (tx_signature tx, tx_txid tx) →
  publicKeyFromPrivate key = Ok (tx_publicKey tx) →
  validateTransactionShape (tx_json tx) fee = Ok tx.
Proof.
  intros Hw Hf Hs Hk. unfold validateTransactionShape, tx_json. fold (tx_entries tx).
  cbn [assertPlainRecord mbind res_bind]. rewrite kind_keys. cbv zeta.
  destruct tx as [t|t|t|t|t|t]; apply res_bind_Ok.
  - exists (λ c, shapeTransfer (tx_entries (Transfer t)) c fee). split; [reflexivity|].
    exact (gate_tail _ _ _ Hw Hs Hk (shapeTransfer_json _ _ Hw Hf)).
  - exists (shapeSettlement (tx_entries (ActivitySettlement t))).
    split; [destruct t as [? ? ? ? ? ? ? [oa|] [ex|]]; reflexivity|].
    exact (gate_tail _ _ _ Hw Hs Hk (shapeSettlement_json _ Hw)).
  - by destruct Hw as [_ []].
  - exists (shapeValidatorUpdate (tx_entries (ValidatorUpdate t))).
    split; [destruct t as [? ? ? ? ? ? ? [pf|]]; reflexivity|].
    exact (gate_tail _ _ _ Hw Hs Hk (shapeValidatorUpdate_json _ Hw)).
  - exists (shapeOracleGovernance (tx_entries (ActivityOracleGovernance t))). split; [reflexivity|].
    exact (gate_tail _ _ _ Hw Hs Hk (shapeOracleGovernance_json _ Hw)).
  - exists (shapeProtocolUpgrade (tx_entries (ProtocolUpgrade t))). split; [reflexivity|].
    exact (gate_tail _ _ _ Hw Hs Hk (shapeProtocolUpgrade_json _ Hw)).
Qed.

(** [created key tx]: [tx] is what one of the constructors returned for the
    private key [key]. *)
Inductive created (key : string) : Transaction → Prop :=
| created_transfer chainId nonce sender receiver amount fee time pk version t :
    createTransfer chainId nonce sender receiver amount fee time key pk version = Ok t → created key (Transfer t)
| created_settlement chainId nonce sender epoch entries root oa ex time pk version t :
    createActivitySettlement chainId nonce sender epoch entries root oa ex time key pk version = Ok t →
    created key (ActivitySettlement t)
| created_mining chainId nonce sender height prev reward work time pk t :
    createMiningClaim chainId nonce sender height prev reward work time key pk = Ok t → created key (MiningClaim t)
| created_update chainId nonce sender height vs aps pf time pk version t :
    createValidatorSetUpdate chainId nonce sender height vs aps pf time key pk version = Ok t → created key (ValidatorUpdate t)
| created_governance chainId nonce sender height action ks aps time pk version t :
    createActivityOracleGovernance chainId nonce sender height action ks aps time key pk version = Ok t →
    created key (ActivityOracleGovernance t)
| created_upgrade chainId nonce sender height pv aps time pk version t :
    createProtocolUpgrade chainId nonce sender height pv aps time key pk version = Ok t → created key (ProtocolUpgrade t).

Lemma created_sealed (key : string) (tx : Transaction) :
  created key tx → seal tx key = Ok (tx_signature tx, tx_txid tx).
Proof.
  destruct 1; select (_ = Ok _) (fun Hc =>
    apply res_bind_Ok in Hc as ([s i] & Hs & Heq); apply Ok_inj in Heq as <-; exact Hs).
Qed.

(** A well-formed mining claim is refused on every chain: no value whose kind
    is [mining_claim] passes the gate. *)
Theorem mining_claims_rejected (value : record) (fee : option Z) :
  get value "kind" = JStr "mining_claim" →
  ∃ msg, validateTransactionShape (JObj value) fee = Throw msg ∧
    (assertExactKeys value ["kind"; "version"; "chainId"; "nonce"; "sender"; "height"; "previousHash"; "rewardAtoms";
       "workNonce"; "feeAtoms"; "timestampMs"; "publicKey"; "signature"; "txid"] "mining claim" = Ok () →
     msg = MINING_RETIRED_MESSAGE).
Proof.
  intros Hk. unfold validateTransactionShape. cbn [assertPlainRecord mbind res_bind]. rewrite Hk. cbv zeta.
  cbn [String.eqb Ascii.eqb Bool.eqb app].
  destruct (assertExactKeys value _ "mining claim") as [u|m]; cbn [mbind res_bind]; eexists; split; done.
Qed.

End roundtrip.

(** ** Concrete transactions *)
Module Example.
Import ToyCrypto.

Definition pk : string := key +:+ key.
Definition alice : Address := addressFromPublicKey pk.
Definition bob : Address := "ZYN1234567890123456789012345678901234567890".
Definition transfer_of (sealed : res TransferTx) : TransferTx :=
  match sealed with Ok t => t | Throw _ => mkTransfer 0 "" 0 "" "" 0 0 0 "" "" "" end.
Definition transfer : TransferTx :=
  Eval vm_compute in transfer_of (createTransfer "zyron-test" 1 alice bob 500 100 1700000000000 key pk 2).
End Example.

Lemma validateTransactionShape_sound_witness :
  tx_wf (H := ToyCrypto.toy) (Transfer Example.transfer).
Proof.
  eapply (validateTransactionShape_sound (tx_json (Transfer Example.transfer)) None).
  vm_compute. reflexivity.
Defined.

Lemma mining_claims_rejected_witness :
  ∃ msg, validateTransactionShape (H := ToyCrypto.toy) (JObj [("kind", JStr "mining_claim")]) None = Throw msg.
Proof. edestruct (mining_claims_rejected [("kind", JStr "mining_claim")] None) as (m & Hm & _); [reflexivity|]. by exists m. Defined.
