(* ===== verification/ShapeRead.v ===== *)
(** What the shape gate reads from the JSON value of a transaction is that
    transaction (l1/src/transaction.ts, [validateTransactionShape]). *)

From S2P Require Import Prelude Types Codec Crypto Transaction TxShape.

Lemma each_back {A} (f : jsval string → res A) (g : A → jsval string) (l l' : list A) :
  (∀ x y, f (g x) = Ok y → y = x) → each f (map g l) = Ok l' → l' = l.
Proof.
  intros Hfg. unfold each. revert l'. induction l as [|x l IH]; intros l'; cbn [map res_seq].
  - by intros <-%Ok_inj.
  - intros Hr. apply res_bind_Ok in Hr as (y & Hy & Hr). apply res_bind_Ok in Hr as (ys & Hys & Hr). apply Ok_inj in Hr as <-.
    by rewrite (Hfg _ _ Hy), (IH _ Hys).
Qed.

Lemma safe_int_back (z w : Z) (bad : Z → bool) (msg : string) : safe_int (jint z) bad msg = Ok w → w = z.
Proof. rewrite safe_int_Ok. simpl. intros ([= ->] & _). done. Qed.
Lemma as_text_back (s t msg : string) : as_text (JStr s) msg = Ok t → t = s.
Proof. by intros [= ->]%as_text_Ok. Qed.
Lemma address_back (s t : string) : assertAddressValue (JStr s) = Ok t → t = s.
Proof. simpl. intros Hr. apply res_bind_Ok in Hr as (_ & _ & Hr). by apply Ok_inj in Hr. Qed.
Lemma amount_back (z w : Z) (name : string) (zero : bool) : assertAmount (jint z) name zero = Ok w → w = z.
Proof.
  unfold assertAmount. intros Hr. apply res_bind_Ok in Hr as (v & Hv%safe_int_back & Hr). apply res_bind_Ok in Hr as (_ & _ & Hr).
  apply Ok_inj in Hr. congruence.
Qed.
Lemma array_back (l l' : list (jsval string)) (bad : list (jsval string) → bool) (msg : string) :
  as_array (JArr l) bad msg = Ok l' → l' = l.
Proof. rewrite as_array_Ok. intros [[= ->] _]. done. Qed.

Ltac read_back := repeat match goal with
  | E : (_ ≫= _) = Ok _ |- _ => apply res_bind_Ok in E as (? & ? & E)
  | E : Ok _ = Ok _ |- _ => apply Ok_inj in E; subst
  | E : safe_int (jint _) _ _ = Ok _ |- _ => apply safe_int_back in E; subst
  | E : as_text (JStr _) _ = Ok _ |- _ => apply as_text_back in E; subst
  | E : assertAddressValue (JStr _) = Ok _ |- _ => apply address_back in E; subst
  | E : assertAmount (jint _) _ _ = Ok _ |- _ => apply amount_back in E; subst
  | E : as_array (JArr _) _ _ = Ok _ |- _ => apply array_back in E; subst
  | E : assertPlainRecord (JObj _) _ = Ok _ |- _ => apply Ok_inj in E; subst
  | E : context [get ?r ?k] |- _ => let v := eval lazy [get] in (get r k) in progress change (get r k) with v in E; cbn in E
  end.

Section back.
Context `{Crypto}.

Lemma entry_back (x y : ActivityEntry) : validateActivityEntry (entry_json x) = Ok y → y = x.
Proof. destruct x. unfold validateActivityEntry, entry_json. intros E. by read_back. Qed.
Lemma oracle_approval_back (x y : ActivityOracleApproval) : validateActivityOracleApproval (oracle_approval_json x) = Ok y → y = x.
Proof. destruct x. unfold validateActivityOracleApproval, oracle_approval_json. intros E. by read_back. Qed.
Lemma proof_back (x y : ValidatorPossessionProof) : validateValidatorPossessionProofShape (proof_json x) = Ok y → y = x.
Proof. destruct x. unfold validateValidatorPossessionProofShape, proof_json. intros E. by read_back. Qed.
Lemma approval_back (x y : ValidatorApproval) : validateValidatorApproval (approval_json x) = Ok y → y = x.
Proof. destruct x. unfold validateValidatorApproval, approval_json. intros E. by read_back. Qed.
Lemma governance_key_back (x y : string) : governance_key (JStr x) = Ok y → y = x.
Proof. unfold governance_key. intros E. by read_back. Qed.
Lemma validator_back (seen l : list Validator) (v : Validator) : validateValidator seen (validator_json v) = Ok l → l = seen ++ [v].
Proof. destruct v. unfold validateValidator, validator_json. intros E. by read_back. Qed.
Lemma validators_back (seen l l' : list Validator) : res_fold validateValidator seen (map validator_json l) = Ok l' → l' = seen ++ l.
Proof.
  revert seen. induction l as [|v l IH]; intros seen; cbn [map res_fold].
  - intros <-%Ok_inj. by rewrite app_nil_r.
  - intros E. apply res_bind_Ok in E as (s & ->%validator_back & E). apply IH in E as ->. by rewrite <-app_assoc.
Qed.
Lemma approvals_back (value : record) (l l' : list ValidatorApproval) (msg : string) :
  get value "approvals" = JArr (map approval_json l) → approvals_of value msg = Ok l' → l' = l.
Proof. unfold approvals_of. intros -> E. read_back. eapply each_back; [apply approval_back|eassumption]. Qed.

Lemma common_back (tx : Transaction) (c : CommonFields) : validateCommon (tx_entries tx) = Ok c → c = common_of tx.
Proof.
  unfold validateCommon. destruct tx as [t|t|t|t|t|t]; destruct t.
  2: destruct as_oracleApprovals, as_attestationExpiresAtMs.
  7: destruct vu_possessionProofs.
  all: intros E; by read_back.
Qed.

(** The text of a value that is already text. *)
Lemma coerced_text (s : string) : coerced (JStr s) = s.
Proof. done. Qed.

Lemma zero_fee_back (value : record) (z : Z) (msg : string) (u : unit) :
  get value "feeAtoms" = jint z → zero_fee value msg = Ok u → z = 0.
Proof. unfold zero_fee. intros -> E%throw_if_Ok. apply negb_false_iff, bool_decide_eq_true in E. by injection E. Qed.

Ltac read_arrays := repeat match goal with
  | E : each validateActivityEntry _ = Ok _ |- _ => apply (each_back _ _ _ _ entry_back) in E; subst
  | E : each validateActivityOracleApproval _ = Ok _ |- _ => apply (each_back _ _ _ _ oracle_approval_back) in E; subst
  | E : each validateValidatorPossessionProofShape _ = Ok _ |- _ => apply (each_back _ _ _ _ proof_back) in E; subst
  | E : each governance_key _ = Ok _ |- _ => apply (each_back _ _ _ _ governance_key_back) in E; subst
  | E : res_fold validateValidator _ _ = Ok _ |- _ => apply validators_back in E; subst
  | E : approvals_of _ _ = Ok _ |- _ => eapply approvals_back in E; [|reflexivity]; subst
  | E : zero_fee _ _ = Ok _ |- _ => eapply zero_fee_back in E; [|reflexivity]; cbn in E; subst
  | E : action_of (JStr (action_text ?a)) = Ok _ |- _ => destruct a; apply Ok_inj in E; subst
  end.

Lemma shapes_back (tx tx' : Transaction) (fee : option Z) :
  match tx with
  | Transfer _ => shapeTransfer (tx_entries tx) (common_of tx) fee
  | ActivitySettlement _ => shapeSettlement (tx_entries tx) (common_of tx)
  | MiningClaim _ => Throw ""
  | ValidatorUpdate _ => shapeValidatorUpdate (tx_entries tx) (common_of tx)
  | ActivityOracleGovernance _ => shapeOracleGovernance (tx_entries tx) (common_of tx)
  | ProtocolUpgrade _ => shapeProtocolUpgrade (tx_entries tx) (common_of tx)
  end = Ok tx' → tx' = tx.
Proof.
  destruct tx as [t|t|t|t|t|t]; destruct t;
    unfold shapeTransfer, shapeSettlement, shapeValidatorUpdate, shapeOracleGovernance, shapeProtocolUpgrade; intros E.
  - by read_back.
  - destruct as_oracleApprovals, as_attestationExpiresAtMs; read_back; by read_arrays.
  - done.
  - destruct vu_possessionProofs; read_back; by read_arrays.
  - destruct og_action; read_back; by read_arrays.
  - read_back. by read_arrays.
Qed.
(** The gate returns the transaction whose value it was given. *)
Lemma shape_reads_back (tx tx' : Transaction) (fee : option Z) : validateTransactionShape (tx_json tx) fee = Ok tx' → tx' = tx.
Proof.
  unfold validateTransactionShape, tx_json. fold (tx_entries tx). cbn [assertPlainRecord mbind res_bind]. rewrite kind_keys. cbv zeta.
  intros E. apply res_bind_Ok in E as (shape & Hshape & E). apply res_bind_Ok in E as (c & ->%common_back & E).
  apply res_bind_Ok in E as (tx0 & Htx & E). do 3 (apply res_bind_Ok in E as (? & _ & E)). apply Ok_inj in E as <-.
  revert Htx. destruct tx as [t|t|t|t|t|t]; cbn [tx_kind String.eqb Ascii.eqb Bool.eqb] in Hshape;
    apply res_bind_Ok in Hshape as (_ & _ & Hshape); try discriminate Hshape; apply Ok_inj in Hshape as <-;
    match goal with |- _ → _ = ?tx => exact (shapes_back tx tx0 fee) end.
Qed.
End back.

(** C36. The gate on what the constructors make.  The constructors do not validate
    their fields; a transaction that one of them made with the sender's own key
    passes [validateTransactionShape], and is read back as the transaction that was
    made, exactly when its fields are well formed (in range, the sender the key's own
    address where the kind asks for it, a live kind) and, for a transfer where the
    genesis fixes a fee, its fee is that one; otherwise the gate throws.  So the
    payloads that were signed and hashed are the ones the gate verifies: signature
    and id are never the reason for a refusal, and a retired mining claim is always
    refused. *)
Theorem created_transaction_validates `{CryptoLaws} (key : string) (tx : Transaction) (fee : option Z) :
  created key tx → publicKeyFromPrivate key = Ok (tx_publicKey tx) →
  match validateTransactionShape (tx_json tx) fee with
  | Ok tx' => tx' = tx ∧ tx_wf tx ∧ fee_matches fee tx
  | Throw _ => ¬ (tx_wf tx ∧ fee_matches fee tx)
  end.
Proof.
  intros Hc Hk. destruct (validateTransactionShape (tx_json tx) fee) as [tx'|e] eqn:E.
  - pose proof (shape_reads_back _ _ _ E) as ->. apply shape_gate in E as (? & ? & _). done.
  - intros [Hw Hf]. by rewrite (sealed_validates tx key fee Hw Hf (created_sealed key tx Hc) Hk) in E.
Qed.

(** Two transfers that were created: one in range, and one of the amount 0. *)
Module CreatedExample.
Import ToyCrypto.
Definition empty_transfer : TransferTx :=
  Eval vm_compute in Example.transfer_of (createTransfer "zyron-test" 1 Example.alice Example.bob 0 100 1700000000000 key Example.pk 2).
Definition verdict (t : TransferTx) : bool := isOk (validateTransactionShape (H := toy) (tx_json (Transfer t)) (Some 100)).
End CreatedExample.

Lemma created_transaction_validates_witness :
  (CreatedExample.verdict Example.transfer = true ∧ tx_wf (H := ToyCrypto.toy) (Transfer Example.transfer)) ∧
  CreatedExample.verdict CreatedExample.empty_transfer = false ∧ ¬ tx_wf (H := ToyCrypto.toy) (Transfer CreatedExample.empty_transfer).
Proof.
  assert (created (H := ToyCrypto.toy) ToyCrypto.key (Transfer Example.transfer)) as C1
    by (eapply (created_transfer _ "zyron-test" 1 Example.alice Example.bob 500 100 1700000000000 Example.pk 2); vm_compute; reflexivity).
  assert (created (H := ToyCrypto.toy) ToyCrypto.key (Transfer CreatedExample.empty_transfer)) as C2
    by (eapply (created_transfer _ "zyron-test" 1 Example.alice Example.bob 0 100 1700000000000 Example.pk 2); vm_compute; reflexivity).
  assert (publicKeyFromPrivate (H := ToyCrypto.toy) ToyCrypto.key = Ok Example.pk) as Hk by (vm_compute; reflexivity).
  pose proof (created_transaction_validates (H := ToyCrypto.toy) ToyCrypto.key (Transfer Example.transfer) (Some 100) C1 Hk) as H1.
  pose proof (created_transaction_validates (H := ToyCrypto.toy) ToyCrypto.key (Transfer CreatedExample.empty_transfer) (Some 100) C2 Hk) as H2.
  assert (CreatedExample.verdict Example.transfer = true) as E1 by (vm_compute; reflexivity).
  assert (CreatedExample.verdict CreatedExample.empty_transfer = false) as E2 by (vm_compute; reflexivity).
  unfold CreatedExample.verdict in E1, E2. split; [split; [exact E1|]|split; [exact E2|]].
  - destruct (validateTransactionShape (tx_json (Transfer Example.transfer)) (Some 100)) as [tx|e]; [|discriminate]. by destruct H1 as (_ & Hw & _).
  - destruct (validateTransactionShape (tx_json (Transfer CreatedExample.empty_transfer)) (Some 100)) as [tx|e]; [discriminate|].
    intros Hw. apply H2. split; [exact Hw|]. vm_compute. reflexivity.
Defined.
