(* ===== verification/Oracle.v ===== *)
(** Activity-oracle authorization (l1/src/activity-oracle.ts): the versioned
    genesis policy and the m-of-n approval of a settlement. *)

From S2P Require Import Prelude Types Codec Crypto Activity Transaction.

Definition ACTIVITY_ORACLE_POLICY_TEST_SINGLE : string := "test-single-v1".
Definition ACTIVITY_ORACLE_POLICY_THRESHOLD : string := "threshold-v1".
Definition UNAUTHORIZED_ACTIVITY_ORACLE_MESSAGE : string := "Unauthorized activity oracle".
Definition ACTIVITY_APPROVALS_WITHOUT_THRESHOLD_MESSAGE : string :=
  "Activity oracle approvals require a genesis activityOracleThreshold".
Definition INVALID_ACTIVITY_APPROVAL_MESSAGE : string := "Invalid activity oracle approval signature".
Definition DUPLICATE_ACTIVITY_ORACLE_SIGNER_MESSAGE : string := "Duplicate activity oracle signer".
Definition UNKNOWN_ACTIVITY_ORACLE_MESSAGE : string := "Unknown activity oracle".
Definition REVOKED_ACTIVITY_ORACLE_MESSAGE : string := "Revoked activity oracle".
Definition ACTIVITY_ORACLE_APPROVAL_REPLAY_MESSAGE : string := "Activity oracle approval replay".
Definition STALE_ACTIVITY_ORACLE_ATTESTATION_MESSAGE : string := "Stale activity oracle attestation".
Definition EXPIRED_ACTIVITY_ORACLE_ATTESTATION_MESSAGE : string := "Expired activity oracle attestation".
Definition WRONG_ACTIVITY_ORACLE_CHAIN_MESSAGE : string := "Wrong activity oracle chain ID".
Definition ACTIVITY_ORACLE_PAUSED_MESSAGE : string := "Activity oracle settlements are paused".
Definition ACTIVITY_ATTESTATION_EXPIRY_REQUIRED_MESSAGE : string := "Activity oracle attestation expiry is required".
Definition ACTIVITY_ATTESTATION_EXPIRY_WITHOUT_POLICY_MESSAGE : string :=
  "Activity oracle attestation expiry requires activity oracle policy threshold-v1".
Definition ACTIVITY_ORACLE_POLICY_REQUIRED_MESSAGE : string :=
  "Launch profile fixed-supply-v1 requires activity oracle policy threshold-v1".
Definition ACTIVITY_ORACLE_THRESHOLD_TOO_WEAK_MESSAGE : string :=
  "Activity oracle policy threshold-v1 requires 2-of-3 or stricter (at least two-thirds of at least three keys, with one spare)".

Record ActivityOracleAuthContext := mkAuthContext {
  ax_chainId : option string;
  ax_blockTimestampMs : option Z;
  ax_genesisTimestampMs : option Z }.

Definition isTwoOfThreeOrStricter (threshold oracleCount : Z) : bool :=
  isSafeInteger threshold && isSafeInteger oracleCount && (3 <=? oracleCount) && (2 <=? threshold)
  && (threshold <=? oracleCount) && (1 <=? oracleCount - threshold) && (oracleCount * 2 <=? threshold * 3).

Definition validateActivityOracleThreshold (genesis : ActivityOracleSet) : res unit :=
  match os_activityOracleThreshold genesis with
  | None => Ok ()
  | Some threshold =>
    throw_if (negb (isSafeInteger threshold) || (threshold <? 1)
              || (zlen (os_activityOracles genesis) <? threshold)
              || (MAX_ACTIVITY_ORACLE_APPROVALS <? threshold))
      "Invalid activity oracle threshold"
  end.

Definition thresholdMessage (threshold : Z) : string :=
  "Activity settlement requires approvals from " +:+ pretty threshold +:+ " distinct registered activity oracles".

Section oracle.
Context `{Crypto}.

Definition validateActivityOraclePolicy (genesis : ActivityOracleSet) : res unit :=
  let cap := os_activitySettlementCapAtoms genesis in
  let fixedSupply := bool_decide (os_launchProfile genesis = Some "fixed-supply-v1") in
  throw_if (bool_decide (is_Some cap) && negb (bool_decide (is_Some (os_activityOraclePolicy genesis))))
    "activitySettlementCapAtoms requires an activity oracle policy";;
  throw_if (fixedSupply && negb (bool_decide (os_activityOraclePolicy genesis = Some ACTIVITY_ORACLE_POLICY_THRESHOLD)))
    ACTIVITY_ORACLE_POLICY_REQUIRED_MESSAGE;;
  match os_activityOraclePolicy genesis with
  | None => Ok ()
  | Some policy =>
    let isThreshold := String.eqb policy ACTIVITY_ORACLE_POLICY_THRESHOLD in
    throw_if (negb (String.eqb policy ACTIVITY_ORACLE_POLICY_TEST_SINGLE) && negb isThreshold)
      "Unsupported activity oracle policy";;
    throw_if (match cap with
      | Some cap =>
        let max := if isThreshold then PUBLIC_LAUNCH_ACTIVITY_CAP_ATOMS else MAX_ACTIVITY_SETTLEMENT_ATOMS in
        negb (isSafeInteger cap) || (cap <? 1) || (max <? cap)
      | None => false
      end) "Invalid activity settlement cap";;
    if String.eqb policy ACTIVITY_ORACLE_POLICY_TEST_SINGLE then
      throw_if (bool_decide (is_Some (os_activityOracleThreshold genesis)))
        "Activity oracle policy test-single-v1 cannot declare activityOracleThreshold";;
      throw_if fixedSupply ACTIVITY_ORACLE_POLICY_REQUIRED_MESSAGE
    else
      throw_if (match os_activityOracleThreshold genesis with
        | Some threshold => negb (isTwoOfThreeOrStricter threshold (zlen (os_activityOracles genesis)))
        | None => true
        end) ACTIVITY_ORACLE_THRESHOLD_TOO_WEAK_MESSAGE;;
      res_forall (λ oracle, assertValidPublicKey oracle "Genesis activity oracle public key") (os_activityOracles genesis)
  end.

Definition activityOracleGovernancePublicKeysValid (action : ActivityOracleGovernanceAction)
    (publicKeys registered alreadyRevoked : list string) : res unit :=
  match action with
  | Pause | Resume => throw_if (negb (zlen publicKeys =? 0)) "Activity oracle pause and resume name no keys"
  | Revoke =>
    throw_if ((zlen publicKeys =? 0) || (MAX_ACTIVITY_ORACLE_APPROVALS <? zlen publicKeys))
      "Invalid activity oracle revoke set";;
    res_fold (λ seen publicKey,
      throw_if (bool_decide (publicKey ∈ seen)) "Duplicate revoked activity oracle";;
      throw_if (negb (bool_decide (publicKey ∈ registered))) UNKNOWN_ACTIVITY_ORACLE_MESSAGE;;
      throw_if (bool_decide (publicKey ∈ alreadyRevoked)) REVOKED_ACTIVITY_ORACLE_MESSAGE;;
      assertValidPublicKey publicKey "Revoked activity oracle public key";;
      Ok (publicKey :: seen)) [] publicKeys;;
    Ok ()
  end.

(** The loop of [assertThresholdV1Authorized]; the state is [approvers] and
    [signatures]. *)
Definition threshold_step (tx : ActivitySettlementTx) (registered revoked : list string)
    (acc : list string * list string) (approval : ActivityOracleApproval) : res (list string * list string) :=
  let '(approvers, signatures) := acc in
  throw_if (bool_decide (oa_publicKey approval ∈ approvers) || String.eqb (oa_publicKey approval) (as_publicKey tx))
    DUPLICATE_ACTIVITY_ORACLE_SIGNER_MESSAGE;;
  throw_if (bool_decide (oa_signature approval ∈ signatures)) ACTIVITY_ORACLE_APPROVAL_REPLAY_MESSAGE;;
  throw_if (bool_decide (oa_publicKey approval ∈ revoked)) REVOKED_ACTIVITY_ORACLE_MESSAGE;;
  throw_if (negb (bool_decide (oa_publicKey approval ∈ registered))) UNKNOWN_ACTIVITY_ORACLE_MESSAGE;;
  throw_if (negb (verifyActivityOracleApprovalSignature tx approval PolicyV2)) INVALID_ACTIVITY_APPROVAL_MESSAGE;;
  Ok (oa_publicKey approval :: approvers, oa_signature approval :: signatures).

Definition assertThresholdV1Authorized (tx : ActivitySettlementTx) (registered revoked : list string)
    (context : ActivityOracleAuthContext) (oracles : ActivityOracleSet) : res unit :=
  let genesisTimestampMs := match ax_genesisTimestampMs context with Some t => Some t | None => os_timestampMs oracles end in
  expiresAtMs ← unwrap (as_attestationExpiresAtMs tx) ACTIVITY_ATTESTATION_EXPIRY_REQUIRED_MESSAGE;
  throw_if (negb (isSafeInteger expiresAtMs)) ACTIVITY_ATTESTATION_EXPIRY_REQUIRED_MESSAGE;;
  genesisTimestampMs ← unwrap genesisTimestampMs ACTIVITY_ATTESTATION_EXPIRY_REQUIRED_MESSAGE;
  throw_if (negb (isSafeInteger genesisTimestampMs)) ACTIVITY_ATTESTATION_EXPIRY_REQUIRED_MESSAGE;;
  let windowOpen := genesisTimestampMs + (as_epoch tx + 1) * ACTIVITY_EPOCH_MS in
  let windowClose := windowOpen + ACTIVITY_EPOCH_MS in
  throw_if (negb (isSafeInteger windowOpen) || negb (isSafeInteger windowClose)
            || (expiresAtMs <? windowOpen) || (windowClose <=? expiresAtMs))
    STALE_ACTIVITY_ORACLE_ATTESTATION_MESSAGE;;
  throw_if (match ax_blockTimestampMs context with Some t => expiresAtMs <? t | None => false end)
    EXPIRED_ACTIVITY_ORACLE_ATTESTATION_MESSAGE;;
  let approvals := default [] (as_oracleApprovals tx) in
  throw_if (MAX_ACTIVITY_ORACLE_APPROVALS <? zlen approvals) "Invalid activity oracle approvals";;
  acc ← res_fold (threshold_step tx registered revoked) ([], []) approvals;
  (* [approvers.add(tx.publicKey)]: no approval carries the submitter's key. *)
  let approvers := as_publicKey tx :: acc.1 in
  (* [approvers.size < undefined] is false. *)
  throw_if (match os_activityOracleThreshold oracles with Some threshold => zlen approvers <? threshold | None => false end)
    (thresholdMessage (default 0 (os_activityOracleThreshold oracles))).

(** The loop of the lenient threshold; the state is [approvers]. *)
Definition legacy_step (tx : ActivitySettlementTx) (registered revoked : list string)
    (approvers : list string) (approval : ActivityOracleApproval) : res (list string) :=
  if negb (bool_decide (oa_publicKey approval ∈ registered)) || bool_decide (oa_publicKey approval ∈ revoked)
  then Ok approvers
  else
    throw_if (negb (verifyActivityOracleApprovalSignature tx approval PolicyV1)) INVALID_ACTIVITY_APPROVAL_MESSAGE;;
    Ok (if bool_decide (oa_publicKey approval ∈ approvers) then approvers else oa_publicKey approval :: approvers).

Definition assertActivitySettlementAuthorized (tx : ActivitySettlementTx) (oracles : ActivityOracleSet)
    (context : ActivityOracleAuthContext) : res unit :=
  let registered := os_activityOracles oracles in
  let revoked := os_revokedPublicKeys oracles in
  throw_if (os_paused oracles) ACTIVITY_ORACLE_PAUSED_MESSAGE;;
  throw_if (match ax_chainId context with Some c => negb (String.eqb (as_chainId tx) c) | None => false end)
    WRONG_ACTIVITY_ORACLE_CHAIN_MESSAGE;;
  throw_if (bool_decide (as_publicKey tx ∈ revoked)) REVOKED_ACTIVITY_ORACLE_MESSAGE;;
  throw_if (negb (bool_decide (as_publicKey tx ∈ registered))) UNAUTHORIZED_ACTIVITY_ORACLE_MESSAGE;;
  if negb (hasPolicy (Some oracles) ACTIVITY_ORACLE_POLICY_THRESHOLD) then
    throw_if (bool_decide (is_Some (as_attestationExpiresAtMs tx))) ACTIVITY_ATTESTATION_EXPIRY_WITHOUT_POLICY_MESSAGE;;
    match os_activityOracleThreshold oracles with
    | None =>
      throw_if (bool_decide (is_Some (as_oracleApprovals tx))) ACTIVITY_APPROVALS_WITHOUT_THRESHOLD_MESSAGE
    | Some threshold =>
      let approvals := default [] (as_oracleApprovals tx) in
      throw_if (MAX_ACTIVITY_ORACLE_APPROVALS <? zlen approvals) "Invalid activity oracle approvals";;
      approvers ← res_fold (legacy_step tx registered revoked) [as_publicKey tx] approvals;
      throw_if (zlen approvers <? threshold) (thresholdMessage threshold)
    end
  else assertThresholdV1Authorized tx registered revoked context oracles.

(** ** m-of-n authorization *)

(** [signed_by tx policy k]: key [k] stands behind the settlement: it submitted
    it, or one of its approvals is a valid signature by [k] over the payout. *)
Definition signed_by (tx : ActivitySettlementTx) (policy : ApprovalPolicy) (k : string) : Prop :=
  k = as_publicKey tx ∨
  ∃ a, a ∈ default [] (as_oracleApprovals tx) ∧ oa_publicKey a = k ∧ verifyActivityOracleApprovalSignature tx a policy = true.

Definition oracle_policy (oracles : ActivityOracleSet) : ApprovalPolicy :=
  if hasPolicy (Some oracles) ACTIVITY_ORACLE_POLICY_THRESHOLD then PolicyV2 else PolicyV1.

(** The invariant of both loops: the approvers seen so far are distinct live
    oracles that signed. *)
Definition approvers_ok (tx : ActivitySettlementTx) (policy : ApprovalPolicy) (registered revoked approvers : list string) : Prop :=
  NoDup approvers ∧ ∀ k, k ∈ approvers → k ∈ registered ∧ k ∉ revoked ∧ signed_by tx policy k.

Lemma threshold_loop (tx : ActivitySettlementTx) (registered revoked : list string) (acc : list string * list string) :
  res_fold (threshold_step tx registered revoked) ([], []) (default [] (as_oracleApprovals tx)) = Ok acc →
  approvers_ok tx PolicyV2 registered revoked acc.1 ∧ as_publicKey tx ∉ acc.1.
Proof.
  intros Hf.
  apply (res_fold_inv (λ _ acc, approvers_ok tx PolicyV2 registered revoked acc.1 ∧ as_publicKey tx ∉ acc.1)) in Hf; [done| |].
  - split; [split; [constructor|set_solver]|set_solver].
  - intros pre a [ks ss] [ks' ss'] [[Hnd Hks] Hnot] Ha Hstep. unfold threshold_step in Hstep. res_split.
    apply orb_false_iff in H0 as [Hd Hself]. breflect. injection Hstep as <- <-. cbn [fst] in *.
    apply String.eqb_neq in Hself. split; [split|].
    + by constructor.
    + intros k [->|Hk]%elem_of_cons; [|by apply Hks]. split; [done|]. split; [done|]. right. eauto.
    + intros [E|E]%elem_of_cons; [by symmetry in E|done].
Qed.

Lemma legacy_loop (tx : ActivitySettlementTx) (registered revoked approvers : list string) :
  as_publicKey tx ∈ registered → as_publicKey tx ∉ revoked →
  res_fold (legacy_step tx registered revoked) [as_publicKey tx] (default [] (as_oracleApprovals tx)) = Ok approvers →
  approvers_ok tx PolicyV1 registered revoked approvers.
Proof.
  intros Hreg Hrev Hf.
  apply (res_fold_inv (λ _ acc, approvers_ok tx PolicyV1 registered revoked acc)) in Hf; [done| |].
  - split; [apply NoDup_singleton|]. intros k ->%list_elem_of_singleton. split; [done|]. split; [done|]. by left.
  - intros pre a ks ks' [Hnd Hks] Ha Hstep. unfold legacy_step in Hstep.
    destruct (negb _ || _) eqn:E; [by apply Ok_inj in Hstep as <-|]. res_split. breflect. subst ks'.
    destruct E as [Er Erv]. case_bool_decide as Hin; [done|]. split; [by constructor|].
    intros k [->|Hk]%elem_of_cons; [|by apply Hks]. split; [done|]. split; [done|]. right. eauto.
Qed.

Lemma authorized_submitter (tx : ActivitySettlementTx) (oracles : ActivityOracleSet) (ctx : ActivityOracleAuthContext) (u : unit) :
  assertActivitySettlementAuthorized tx oracles ctx = Ok u →
  os_paused oracles = false ∧ as_publicKey tx ∈ os_activityOracles oracles ∧ as_publicKey tx ∉ os_revokedPublicKeys oracles.
Proof.
  unfold assertActivitySettlementAuthorized. intros Hr. cbv zeta in Hr.
  apply res_bind_Ok in Hr as (? & Hp & Hr). apply res_bind_Ok in Hr as (? & _ & Hr).
  apply res_bind_Ok in Hr as (? & Hrv & Hr). apply res_bind_Ok in Hr as (? & Hrg & Hr).
  apply throw_if_Ok in Hp, Hrv, Hrg. breflect. done.
Qed.

(** The distinct keys behind an authorized settlement. *)
Lemma settlement_authorized_keys (tx : ActivitySettlementTx) (oracles : ActivityOracleSet)
    (ctx : ActivityOracleAuthContext) (u : unit) (m : Z) :
  assertActivitySettlementAuthorized tx oracles ctx = Ok u → os_activityOracleThreshold oracles = Some m →
  ∃ keys, NoDup keys ∧ m ≤ zlen keys ∧
    ∀ k, k ∈ keys → k ∈ os_activityOracles oracles ∧ k ∉ os_revokedPublicKeys oracles ∧
                    signed_by tx (oracle_policy oracles) k.
Proof.
  intros Hauth Em. pose proof (authorized_submitter _ _ _ _ Hauth) as (_ & Hreg & Hrev).
  unfold assertActivitySettlementAuthorized in Hauth. cbv zeta in Hauth.
  do 4 (apply res_bind_Ok in Hauth as (? & _ & Hauth)). unfold oracle_policy.
  destruct (hasPolicy (Some oracles) ACTIVITY_ORACLE_POLICY_THRESHOLD) eqn:Hpol; cbn [negb] in Hauth.
  - unfold assertThresholdV1Authorized in Hauth. cbv zeta in Hauth.
    do 7 (apply res_bind_Ok in Hauth as (? & _ & Hauth)). apply res_bind_Ok in Hauth as (acc & Hloop & Hm%throw_if_Ok).
    apply threshold_loop in Hloop as [[Hnd Hks] Hnot]. rewrite Em in Hm.
    exists (as_publicKey tx :: acc.1). split; [by constructor|].
    split; [by apply Z.ltb_ge|]. intros k [->|Hk]%elem_of_cons; [|by apply Hks]. split; [done|]. split; [done|]. by left.
  - apply res_bind_Ok in Hauth as (? & _ & Hauth). rewrite Em in Hauth.
    apply res_bind_Ok in Hauth as (? & _ & Hauth). apply res_bind_Ok in Hauth as (ks & Hloop & Hm%throw_if_Ok).
    apply (legacy_loop _ _ _ _ Hreg Hrev) in Hloop as [Hnd Hks]. exists ks. split; [done|]. split; [by apply Z.ltb_ge|done].
Qed.

Lemma authorized_chain (tx : ActivitySettlementTx) (oracles : ActivityOracleSet) (ctx : ActivityOracleAuthContext) (u : unit) (c : string) :
  assertActivitySettlementAuthorized tx oracles ctx = Ok u → ax_chainId ctx = Some c → as_chainId tx = c.
Proof.
  unfold assertActivitySettlementAuthorized. cbv zeta. intros Hauth Hc. apply res_bind_Ok in Hauth as (? & _ & Hauth).
  apply res_bind_Ok in Hauth as (? & Hch%throw_if_Ok & _). rewrite Hc in Hch. by apply negb_false_iff, String.eqb_eq in Hch.
Qed.

(** C37. Who authorizes a settlement, under each policy.  An authorized settlement names
    the chain of the context where one is given, the oracle is not paused, and the
    submitter is registered and not revoked.  Where the genesis sets a threshold m,
    there are at least m distinct registered, unrevoked keys that each submitted the
    settlement or validly signed this payout (in the encoding of the policy).  Under
    threshold-v1 (which launch validation allows only with a threshold) it also carries
    an attestation that expires inside the settlement window of its epoch and has not
    expired at the block's time, where one is given.  Under the older policies it
    carries no expiry; and without a threshold it carries no approvals either: the
    submitter authorizes it alone. *)
Theorem settlement_authorized_sound (tx : ActivitySettlementTx) (oracles : ActivityOracleSet)
    (ctx : ActivityOracleAuthContext) (u : unit) :
  assertActivitySettlementAuthorized tx oracles ctx = Ok u →
  os_paused oracles = false ∧ (∀ c, ax_chainId ctx = Some c → as_chainId tx = c) ∧
  as_publicKey tx ∈ os_activityOracles oracles ∧ as_publicKey tx ∉ os_revokedPublicKeys oracles ∧
  (∀ m, os_activityOracleThreshold oracles = Some m →
     ∃ keys, NoDup keys ∧ m ≤ zlen keys ∧
       ∀ k, k ∈ keys → k ∈ os_activityOracles oracles ∧ k ∉ os_revokedPublicKeys oracles ∧
                       signed_by tx (oracle_policy oracles) k) ∧
  if hasPolicy (Some oracles) ACTIVITY_ORACLE_POLICY_THRESHOLD then
     ∃ e g, as_attestationExpiresAtMs tx = Some e ∧
       (ax_genesisTimestampMs ctx = Some g ∨ ax_genesisTimestampMs ctx = None ∧ os_timestampMs oracles = Some g) ∧
       g + (as_epoch tx + 1) * ACTIVITY_EPOCH_MS ≤ e < g + (as_epoch tx + 2) * ACTIVITY_EPOCH_MS ∧
       ∀ t, ax_blockTimestampMs ctx = Some t → t ≤ e
  else as_attestationExpiresAtMs tx = None ∧ (os_activityOracleThreshold oracles = None → as_oracleApprovals tx = None).
Proof.
  intros Hauth. pose proof (authorized_submitter _ _ _ _ Hauth) as (Hp & Hreg & Hrev).
  split; [done|]. split; [intros c; by apply (authorized_chain tx oracles ctx u)|]. split; [done|]. split; [done|].
  split; [intros m; by apply (settlement_authorized_keys tx oracles ctx u)|].
  unfold assertActivitySettlementAuthorized in Hauth. cbv zeta in Hauth.
  do 4 (apply res_bind_Ok in Hauth as (? & _ & Hauth)).
  destruct (hasPolicy (Some oracles) ACTIVITY_ORACLE_POLICY_THRESHOLD) eqn:Hpol; cbn [negb] in Hauth.
  - unfold assertThresholdV1Authorized in Hauth. cbv zeta in Hauth.
    apply res_bind_Ok in Hauth as (e & He%unwrap_Ok & Hauth). apply res_bind_Ok in Hauth as (? & _ & Hauth).
    apply res_bind_Ok in Hauth as (g & Hg%unwrap_Ok & Hauth). apply res_bind_Ok in Hauth as (? & _ & Hauth).
    apply res_bind_Ok in Hauth as (? & Hw%throw_if_Ok & Hauth). apply res_bind_Ok in Hauth as (? & Hexp%throw_if_Ok & _).
    exists e, g. split; [done|]. split; [destruct (ax_genesisTimestampMs ctx); auto|].
    split; [breflect; unfold ACTIVITY_EPOCH_MS in *; lia|].
    intros t Et. rewrite Et in Hexp. by apply Z.ltb_ge.
  - apply res_bind_Ok in Hauth as (? & He%throw_if_Ok%bool_decide_eq_false & Hauth). rewrite <-eq_None_not_Some in He. split; [done|].
    intros Em. rewrite Em in Hauth. by apply throw_if_Ok, bool_decide_eq_false, eq_None_not_Some in Hauth.
Qed.

(** ** Overlap of authorizations *)

Lemma policy_threshold (oracles : ActivityOracleSet) (u : unit) :
  os_launchProfile oracles = Some "fixed-supply-v1" → validateActivityOraclePolicy oracles = Ok u →
  hasPolicy (Some oracles) ACTIVITY_ORACLE_POLICY_THRESHOLD = true ∧
  ∃ m, os_activityOracleThreshold oracles = Some m ∧ isTwoOfThreeOrStricter m (zlen (os_activityOracles oracles)) = true.
Proof.
  intros Hl Hv. unfold validateActivityOraclePolicy in Hv. cbv zeta in Hv.
  apply res_bind_Ok in Hv as (? & _ & Hv). apply res_bind_Ok in Hv as (? & Hp & Hv).
  apply throw_if_Ok in Hp. rewrite bool_decide_true in Hp by done. cbn [andb] in Hp.
  apply negb_false_iff, bool_decide_eq_true in Hp. unfold hasPolicy. cbn [mbind option_bind].
  split; [by apply bool_decide_eq_true|]. rewrite Hp in Hv.
  do 2 (apply res_bind_Ok in Hv as (? & _ & Hv)).
  change (String.eqb ACTIVITY_ORACLE_POLICY_THRESHOLD ACTIVITY_ORACLE_POLICY_TEST_SINGLE) with false in Hv. cbn iota in Hv.
  apply res_bind_Ok in Hv as (? & Hm & _). apply throw_if_Ok in Hm.
  destruct (os_activityOracleThreshold oracles) as [m|]; [|done]. exists m. split; [done|]. by apply negb_false_iff.
Qed.

(** Under the launch profile no two settlements can be authorized by disjoint
    groups of oracles: any two authorized settlements have a registered oracle
    behind both. *)
Theorem settlements_share_an_oracle (oracles : ActivityOracleSet) (tx1 tx2 : ActivitySettlementTx)
    (c1 c2 : ActivityOracleAuthContext) (u u1 u2 : unit) :
  os_launchProfile oracles = Some "fixed-supply-v1" → validateActivityOraclePolicy oracles = Ok u →
  assertActivitySettlementAuthorized tx1 oracles c1 = Ok u1 →
  assertActivitySettlementAuthorized tx2 oracles c2 = Ok u2 →
  ∃ k, k ∈ os_activityOracles oracles ∧ k ∉ os_revokedPublicKeys oracles ∧
       signed_by tx1 PolicyV2 k ∧ signed_by tx2 PolicyV2 k.
Proof.
  intros Hl Hv H1 H2. destruct (policy_threshold _ _ Hl Hv) as (Hp & m & Em & Hm).
  apply settlement_authorized_keys with (m := m) in H1 as (k1 & N1 & L1 & K1), H2 as (k2 & N2 & L2 & K2); [|done..].
  unfold oracle_policy in K1, K2. rewrite Hp in K1, K2.
  pose proof (pigeonhole_overlap (os_activityOracles oracles) k1 k2 N1 N2
    (λ k Hk, proj1 (K1 k Hk)) (λ k Hk, proj1 (K2 k Hk))) as Hov.
  unfold isTwoOfThreeOrStricter in Hm. breflect.
  destruct (filter (.∈ k2) k1) as [|k rest] eqn:Ef.
  { exfalso. simpl in Hov. unfold zlen in *. lia. }
  assert (k ∈ filter (.∈ k2) k1) as [Hk2 Hk1]%list_elem_of_filter by (rewrite Ef; left).
  exists k. destruct (K1 k Hk1) as (? & ? & ?), (K2 k Hk2) as (_ & _ & ?). done.
Qed.

End oracle.

(** ** A 2-of-3 settlement *)
Module OracleExample.
Import ToyCrypto.

Definition key3 : string := "3333333333333333333333333333333333333333333333333333333333333333".
Definition oracles : ActivityOracleSet :=
  mkOracleSet [key +:+ key; key2 +:+ key2; key3 +:+ key3] (Some 2) (Some "threshold-v1") None (Some "fixed-supply-v1")
    (Some 1700000000000) false [key3 +:+ key3].
Definition pool : Address := "ZYNaaaaaaaaaaaaaaaaaaaaaaaaaaaaaaaaaaaaaaaa".
Definition expires : Z := 1700000000000 + 86400000 + 5000.
Definition entries : list ActivityEntry := [mkEntry "ZYN1234567890123456789012345678901234567890" 700].
Definition root : string := hexFixed 64 99.
Definition approval : ActivityOracleApproval :=
  match createActivityOracleApprovalV2 "zyron-test" pool 0 entries root expires key2 (key2 +:+ key2) with
  | Ok a => a | Throw _ => mkOracleApproval "" "" end.
Definition settlement : ActivitySettlementTx :=
  match createActivitySettlement "zyron-test" 1 pool 0 entries root (Some [approval]) (Some expires) expires key (key +:+ key) 2 with
  | Ok t => t | Throw _ => mkSettlement 0 "" 0 "" 0 [] "" None None 0 0 "" "" "" end.
Definition context : ActivityOracleAuthContext := mkAuthContext (Some "zyron-test") (Some expires) None.
(** An older genesis without a threshold, and a settlement of its one oracle. *)
Definition legacy : ActivityOracleSet := mkOracleSet [key +:+ key] None None None None None false [].
Definition alone : ActivitySettlementTx :=
  match createActivitySettlement "zyron-test" 1 pool 0 entries root None None expires key (key +:+ key) 2 with
  | Ok t => t | Throw _ => mkSettlement 0 "" 0 "" 0 [] "" None None 0 0 "" "" "" end.
End OracleExample.

Lemma settlement_authorized_sound_witness :
  (∃ e, as_attestationExpiresAtMs OracleExample.settlement = Some e ∧ OracleExample.expires ≤ e) ∧
  (∃ keys : list string, NoDup keys ∧ 2 ≤ zlen keys) ∧
  as_oracleApprovals OracleExample.alone = None.
Proof.
  pose proof (settlement_authorized_sound (H := ToyCrypto.toy) OracleExample.settlement OracleExample.oracles OracleExample.context () ltac:(vm_compute; reflexivity))
    as (_ & _ & _ & _ & Hm & (e & g & He & _ & _ & Ht)).
  pose proof (settlement_authorized_sound (H := ToyCrypto.toy) OracleExample.alone OracleExample.legacy OracleExample.context () ltac:(vm_compute; reflexivity))
    as (_ & _ & _ & _ & _ & (_ & Hnone)).
  split; [exists e; split; [exact He|by apply (Ht OracleExample.expires)]|]. split; [|by apply Hnone].
  destruct (Hm 2 eq_refl) as (keys & Hnd & Hlen & _). by exists keys.
Defined.

Lemma settlements_share_an_oracle_witness :
  ∃ k, signed_by OracleExample.settlement PolicyV2 k.
Proof.
  edestruct (settlements_share_an_oracle OracleExample.oracles OracleExample.settlement OracleExample.settlement
    OracleExample.context OracleExample.context () () ()) as (k & _ & _ & Hk & _).
  - reflexivity.
  - vm_compute. reflexivity.
  - vm_compute. reflexivity.
  - vm_compute. reflexivity.
  - exists k. exact Hk.
Defined.
