(* ===== verification/Ledger.v ===== *)
(** The ledger (l1/src/state.ts, class [LedgerState]): account balances and
    nonces, the settled activity epochs, and [apply], which every block's
    transactions go through.

    A method is a [meth]: it returns the state it reached together with its
    result, also when it throws.  Each account object is owned by the map that
    holds it ([clone] copies it), so overwriting the map entry is what the
    source's in-place update does. *)

From S2P Require Import Prelude Types Codec Crypto Vesting Activity Transaction TxShape Oracle.

Record AccountState := mkAccount { balanceAtoms : Z; nonce : Z }.
#[global] Instance AccountState_eq_dec : EqDecision AccountState.
Proof. solve_decision. Defined.

Record LedgerState := mkLedger {
  accounts : gmap Address AccountState;
  settledActivityEpochs : gset Z }.

Definition emptyAccount : AccountState := mkAccount 0 0.
Definition emptyLedger : LedgerState := mkLedger ∅ ∅.

Definition accountOf (st : LedgerState) (address : Address) : AccountState := default emptyAccount (accounts st !! address).
Definition balance (st : LedgerState) (address : Address) : Z := balanceAtoms (accountOf st address).
Definition nonceOf (st : LedgerState) (address : Address) : Z := nonce (accountOf st address).

Definition setAccount (st : LedgerState) (address : Address) (account : AccountState) : LedgerState :=
  mkLedger (<[address := account]> (accounts st)) (settledActivityEpochs st).

(** ** Private helpers *)

Definition requireNonce (address : Address) (n : Z) : meth LedgerState unit := λ st,
  (st, throw_if (negb (n =? nonceOf st address + 1)) "Invalid nonce").

Definition credit (address : Address) (amount : Z) : meth LedgerState unit := λ st,
  let next := balance st address + amount in
  if negb (isSafeInteger next) || (MAX_SUPPLY_ATOMS <? next) then (st, Throw "Balance overflow")
  else (setAccount st address (mkAccount next (nonceOf st address)), Ok ()).

Definition debit (address : Address) (amount : Z) : meth LedgerState unit := λ st,
  if balance st address <? amount then (st, Throw "Insufficient balance")
  else (setAccount st address (mkAccount (balance st address - amount) (nonceOf st address)), Ok ()).

Definition setNonce (address : Address) (n : Z) : meth LedgerState unit := λ st,
  (setAccount st address (mkAccount (balance st address) n), Ok ()).

Definition addEpoch (epoch : Z) : meth LedgerState unit := λ st,
  (mkLedger (accounts st) ({[epoch]} ∪ settledActivityEpochs st), Ok ()).

Definition assertNoActivityPoolInflow (receiver activityPool : Address) : res unit :=
  throw_if (String.eqb receiver activityPool) "Activity pool cannot receive funds".

(** ** Handlers *)

Definition creditProducerFee (feeAtoms : Z) (fee : FixedFeeApplication) (activityPool : Address) : meth LedgerState unit :=
  m_throw_if (negb (feeAtoms =? ff_fixedTransferFeeAtoms fee)) FIXED_FEE_MISMATCH_MESSAGE;;
  split ← m_lift (splitFixedFee feeAtoms);
  let producerAtoms := split.2 in
  if producerAtoms <=? 0 then mret () else
  m_throw_if (String.eqb (ff_producer fee) MINING_TRACKER_ADDRESS) "Mining tracker address is protocol-reserved";;
  m_lift (assertNoActivityPoolInflow (ff_producer fee) activityPool);;
  credit (ff_producer fee) producerAtoms.

Definition applyTransfer (tx : TransferTx) (locks : option AllocationLockContext) (activityPool : Address)
    (fee : option FixedFeeApplication) : meth LedgerState unit :=
  m_throw_if (String.eqb (tr_sender tx) MINING_TRACKER_ADDRESS || String.eqb (tr_receiver tx) MINING_TRACKER_ADDRESS)
    "Mining tracker address is protocol-reserved";;
  requireNonce (tr_sender tx) (tr_nonce tx);;
  let total := tr_amountAtoms tx + tr_feeAtoms tx in
  st ← m_get;
  m_throw_if (negb (isSafeInteger total) || (balance st (tr_sender tx) <? total)) "Insufficient balance";;
  m_lift (assertAllocationLockOutflow locks (tr_sender tx) (balance st (tr_sender tx)) total);;
  debit (tr_sender tx) total;;
  credit (tr_receiver tx) (tr_amountAtoms tx);;
  (match fee with Some f => creditProducerFee (tr_feeAtoms tx) f activityPool | None => mret () end);;
  setNonce (tr_sender tx) (tr_nonce tx).

Definition applyActivity (tx : ActivitySettlementTx) (activityPool : Address) (locks : option AllocationLockContext)
    (rollingWindow : bool) (capAtoms : Z) : meth LedgerState unit :=
  m_throw_if (negb (String.eqb (as_sender tx) activityPool)) "Invalid activity pool sender";;
  m_lift (res_forall (λ entry, assertNoActivityPoolInflow (e_receiver entry) activityPool) (as_entries tx));;
  m_throw_if (existsb (λ entry, String.eqb (e_receiver entry) MINING_TRACKER_ADDRESS) (as_entries tx))
    "Mining tracker address is protocol-reserved";;
  st ← m_get;
  m_throw_if (bool_decide (as_epoch tx ∈ settledActivityEpochs st)) "Activity epoch already settled";;
  m_throw_if (bool_decide (as_epoch tx + 1 ∈ settledActivityEpochs st)) ACTIVITY_ORDER_MESSAGE;;
  requireNonce activityPool (as_nonce tx);;
  total ← m_lift (assertActivitySettlementWithinCap (as_entries tx) capAtoms);
  (if rollingWindow then
     m_throw_if (existsb (λ entry, isActivityWindowAddress (e_receiver entry)) (as_entries tx))
       ACTIVITY_WINDOW_RESERVED_MESSAGE;;
     m_lift (assertActivityRollingWindow
       (mkWindowRecord (nonceOf st ACTIVITY_WINDOW_TIME_ADDRESS) (nonceOf st ACTIVITY_WINDOW_AMOUNT_ADDRESS))
       (lc_blockTimestampMs <$> locks) total capAtoms)
   else mret ());;
  m_throw_if (balance st activityPool <? total) "Activity pool exhausted";;
  m_lift (assertAllocationLockOutflow locks activityPool (balance st activityPool) total);;
  debit activityPool total;;
  m_for (λ entry, credit (e_receiver entry) (e_amountAtoms entry)) (as_entries tx);;
  setNonce activityPool (as_nonce tx);;
  addEpoch (as_epoch tx);;
  (if rollingWindow then
     (* [locks!.blockTimestampMs]: the window check above has read it. *)
     setNonce ACTIVITY_WINDOW_TIME_ADDRESS (from_option lc_blockTimestampMs 0 locks);;
     setNonce ACTIVITY_WINDOW_AMOUNT_ADDRESS total
   else mret ()).

Definition applyMining (tx : MiningClaimTx) : meth LedgerState unit := m_lift rejectRetiredMiningClaim.

(** The three governance kinds change nothing but the sender's nonce. *)
Definition applyNonceOnly (sender : Address) (n : Z) : meth LedgerState unit :=
  m_throw_if (String.eqb sender MINING_TRACKER_ADDRESS) "Mining tracker address is protocol-reserved";;
  requireNonce sender n;;
  setNonce sender n.
Definition applyActivityOracleGovernance (tx : ActivityOracleGovernanceTx) : meth LedgerState unit :=
  applyNonceOnly (og_sender tx) (og_nonce tx).
Definition applyValidatorUpdate (tx : ValidatorSetUpdateTx) : meth LedgerState unit :=
  applyNonceOnly (vu_sender tx) (vu_nonce tx).
Definition applyProtocolUpgrade (tx : ProtocolUpgradeTx) : meth LedgerState unit :=
  applyNonceOnly (pu_sender tx) (pu_nonce tx).

Section apply.
Context `{Crypto}.

Definition apply (tx : Transaction) (activityPool : Address) (locks : option AllocationLockContext)
    (oracles : option ActivityOracleSet) (fee : option FixedFeeApplication) : meth LedgerState unit :=
  let rollingWindow := activityRollingWindowEnforced oracles in
  match tx with
  | Transfer t =>
    m_lift (assertNoActivityPoolInflow (tr_receiver t) activityPool);;
    m_lift (assertNoActivityPoolDirectDebit (tr_sender t) activityPool oracles);;
    m_throw_if (rollingWindow && isActivityWindowAddress (tr_receiver t)) ACTIVITY_WINDOW_RESERVED_MESSAGE;;
    applyTransfer t locks activityPool fee
  | ActivitySettlement t =>
    (match oracles with
     | Some o =>
       m_lift (assertActivitySettlementAuthorized t o
         (mkAuthContext (Some (as_chainId t)) (lc_blockTimestampMs <$> locks) (os_timestampMs o)))
     | None => mret ()
     end);;
    applyActivity t activityPool locks rollingWindow (activitySettlementCapAtoms oracles)
  | MiningClaim t => applyMining t
  | ValidatorUpdate t => applyValidatorUpdate t
  | ActivityOracleGovernance t => applyActivityOracleGovernance t
  | ProtocolUpgrade t => applyProtocolUpgrade t
  end.

End apply.

(** ** Construction *)

(** One iteration of the loop over the allocations: the ledger and the supply. *)
Definition genesis_credit (acc : LedgerState * Z) (allocation : Allocation) : res (LedgerState * Z) :=
  let '(st, supply) := acc in
  throw_if (negb (isSafeInteger (al_amountAtoms allocation)) || (al_amountAtoms allocation <? 0)) "Invalid genesis allocation";;
  let supply := supply + al_amountAtoms allocation in
  throw_if (negb (isSafeInteger supply) || (MAX_SUPPLY_ATOMS <? supply)) "Genesis supply exceeds maximum supply";;
  match credit (al_address allocation) (al_amountAtoms allocation) st with
  | (st', Ok _) => Ok (st', supply)
  | (_, Throw m) => Throw m
  end.

Definition fromGenesis (genesis : GenesisConfig) : res LedgerState :=
  sum ← res_fold genesis_credit (emptyLedger, 0) (g_allocations genesis);
  Ok sum.1.

Definition totalSupplyAtoms (st : LedgerState) : res Z :=
  res_fold (λ supply kv,
    let supply := supply + balanceAtoms kv.2 in
    throw_if (negb (isSafeInteger supply) || (MAX_SUPPLY_ATOMS <? supply)) "Ledger supply exceeds maximum";;
    Ok supply) 0 (map_to_list (accounts st)).

Definition miningClaimCount (st : LedgerState) : Z := nonceOf st MINING_TRACKER_ADDRESS.
Definition isActivityEpochSettled (st : LedgerState) (epoch : Z) : bool := bool_decide (epoch ∈ settledActivityEpochs st).

(** ** Snapshots *)

Record AccountRecord := mkAccountRecord { ar_address : Address; ar_balanceAtoms : Z; ar_nonce : Z }.
Record LedgerSnapshot := mkSnapshot {
  sn_accounts : list AccountRecord;
  sn_settledActivityEpochs : list Z }.

Definition text_le (a b : string) : bool := compareCanonicalStrings (lit a) (lit b) <=? 0.

Definition snapshot (st : LedgerState) : LedgerSnapshot :=
  mkSnapshot
    ((λ kv, mkAccountRecord kv.1 (balanceAtoms kv.2) (nonce kv.2)) <$>
       js_sort (λ x y : Address * AccountState, text_le x.1 y.1) (map_to_list (accounts st)))
    (js_sort Z.leb (elements (settledActivityEpochs st))).

(** The snapshot as the value that is hashed and sent. *)
Definition snapshot_json (s : LedgerSnapshot) : jsval string :=
  JObj [("accounts", JArr (map (λ a, JObj [("address", JStr (ar_address a)); ("balanceAtoms", jint (ar_balanceAtoms a));
                                           ("nonce", jint (ar_nonce a))]) (sn_accounts s)));
        ("settledActivityEpochs", JArr (map jint (sn_settledActivityEpochs s)))].

Definition root `{Crypto} (st : LedgerState) : res string :=
  bytes ← canonicalBytes (to_units (snapshot_json (snapshot st))); Ok (sha256Hex_bytes bytes).

(** [candidate.address <= previousAddress] *)
Definition text_leb (a b : string) : bool := units_le (lit a) (lit b).

(** One iteration of the loop over [value.accounts]: the map, the supply and the
    previous address. *)
Definition snapshot_account (acc : gmap Address AccountState * Z * string) (v : jsval string)
    : res (gmap Address AccountState * Z * string) :=
  let '(m, supply, previousAddress) := acc in
  candidate ← assertPlainRecord v "ledger snapshot account";
  assertExactKeys candidate ["address"; "balanceAtoms"; "nonce"] "ledger snapshot account";;
  address ← as_text (get candidate "address") "Invalid ledger snapshot address";
  assertAddress address;;
  throw_if (text_leb address previousAddress) "Ledger snapshot accounts are not canonical";;
  b ← safe_int (get candidate "balanceAtoms") (λ z, z <? 0) "Invalid ledger snapshot account state";
  n ← safe_int (get candidate "nonce") (λ z, z <? 0) "Invalid ledger snapshot account state";
  let supply := supply + b in
  throw_if (negb (isSafeInteger supply) || (MAX_SUPPLY_ATOMS <? supply)) "Ledger snapshot supply exceeds maximum";;
  Ok (<[address := mkAccount b n]> m, supply, address).

Definition snapshot_epoch (acc : gset Z * Z) (v : jsval string) : res (gset Z * Z) :=
  let '(epochs, previousEpoch) := acc in
  z ← safe_int v (λ z, (z <? 0) || (z <=? previousEpoch)) "Invalid ledger snapshot activity epochs";
  Ok ({[z]} ∪ epochs, z).

Definition fromSnapshot (v : jsval string) : res LedgerState :=
  value ← assertPlainRecord v "ledger snapshot";
  assertExactKeys value ["accounts"; "settledActivityEpochs"] "ledger snapshot";;
  rawAccounts ← as_array (get value "accounts") (λ _, false) "Invalid ledger snapshot";
  rawEpochs ← as_array (get value "settledActivityEpochs") (λ _, false) "Invalid ledger snapshot";
  acc ← res_fold snapshot_account (∅, 0, "") rawAccounts;
  ep ← res_fold snapshot_epoch (∅, -1) rawEpochs;
  Ok (mkLedger acc.1.1 ep.1).

(** ** Running methods *)

Lemma requireNonce_Ok (a : Address) (n : Z) (st st' : LedgerState) (u : unit) :
  requireNonce a n st = (st', Ok u) ↔ st' = st ∧ n = nonceOf st a + 1.
Proof.
  destruct u. unfold requireNonce. destruct (Z.eqb_spec n (nonceOf st a + 1)); cbn [negb throw_if];
    split; try naive_solver; by intros [= _].
Qed.

Definition credited (st : LedgerState) (a : Address) (x : Z) : LedgerState :=
  setAccount st a (mkAccount (balance st a + x) (nonceOf st a)).
Definition with_nonce (st : LedgerState) (a : Address) (n : Z) : LedgerState :=
  setAccount st a (mkAccount (balance st a) n).

Lemma credit_Ok (a : Address) (x : Z) (st st' : LedgerState) (u : unit) :
  credit a x st = (st', Ok u) → st' = credited st a x.
Proof. unfold credit. case_if; naive_solver. Qed.

Lemma debit_Ok (a : Address) (x : Z) (st st' : LedgerState) (u : unit) :
  debit a x st = (st', Ok u) ↔ st' = credited st a (- x) ∧ x ≤ balance st a.
Proof.
  unfold debit, credited. destruct (Z.ltb_spec (balance st a) x); [split; [naive_solver|lia]|].
  destruct u. replace (balance st a + - x) with (balance st a - x) by lia. naive_solver.
Qed.

Lemma setNonce_Ok (a : Address) (n : Z) (st st' : LedgerState) (u : unit) :
  setNonce a n st = (st', Ok u) ↔ st' = with_nonce st a n.
Proof. unfold setNonce, with_nonce. destruct u. naive_solver. Qed.

Definition credit_all (st : LedgerState) (entries : list ActivityEntry) : LedgerState :=
  foldl (λ st e, credited st (e_receiver e) (e_amountAtoms e)) st entries.

Lemma m_for_credit_Ok (entries : list ActivityEntry) (st st' : LedgerState) (u : unit) :
  m_for (λ e, credit (e_receiver e) (e_amountAtoms e)) entries st = (st', Ok u) → st' = credit_all st entries.
Proof.
  revert st. induction entries as [|e entries IH]; intros st Hr; [by apply mret_Ok in Hr as [-> _]|].
  apply meth_bind_Ok in Hr as (st1 & [] & Hc%credit_Ok & Hr). subst st1. by apply IH.
Qed.

Ltac meth_inv :=
  repeat match goal with
  | H : (_ ≫= _) _ = (_, Ok _) |- _ => apply meth_bind_Ok in H as (? & ? & ? & H)
  | H : m_lift _ _ = (_, Ok _) |- _ => apply m_lift_Ok in H as [? ?]
  | H : m_throw_if _ _ _ = (_, Ok _) |- _ => apply m_throw_if_Ok in H as [? ?]
  | H : m_get _ = (_, Ok _) |- _ => apply pair_eq in H as [? ?]
  | H : mret _ _ = (_, Ok _) |- _ => apply mret_Ok in H as [? ?]
  | H : requireNonce _ _ _ = (_, Ok _) |- _ => apply requireNonce_Ok in H as [? ?]
  | H : debit _ _ _ = (_, Ok _) |- _ => apply debit_Ok in H as [? ?]
  | H : credit _ _ _ = (_, Ok _) |- _ => apply credit_Ok in H
  | H : setNonce _ _ _ = (_, Ok _) |- _ => apply setNonce_Ok in H
  | H : Ok _ = Ok _ |- _ => apply Ok_inj in H
  | u : unit |- _ => destruct u
  | _ => progress subst
  end.

(** ** Observing the state *)

Definition supply (st : LedgerState) : Z := map_sum balanceAtoms (accounts st).

(** Balances and nonces are non-negative and the supply is within the maximum. *)
Record ledger_wf (st : LedgerState) : Prop := {
  lw_accounts : ∀ a acc, accounts st !! a = Some acc → 0 ≤ balanceAtoms acc ∧ 0 ≤ nonce acc;
  lw_supply : supply st ≤ MAX_SUPPLY_ATOMS }.

Lemma accountOf_set (st : LedgerState) (a b : Address) (acc : AccountState) :
  accountOf (setAccount st a acc) b = if decide (a = b) then acc else accountOf st b.
Proof. unfold accountOf, setAccount; simpl. destruct (decide (a = b)) as [->|]; by rewrite ?lookup_insert_eq, ?lookup_insert_ne. Qed.

Lemma balance_credited (st : LedgerState) (a b : Address) (x : Z) :
  balance (credited st a x) b = balance st b + if decide (a = b) then x else 0.
Proof. unfold balance at 1, credited. rewrite accountOf_set. case_decide; subst; simpl; [done|]. by rewrite Z.add_0_r. Qed.
Lemma nonce_credited (st : LedgerState) (a b : Address) (x : Z) : nonceOf (credited st a x) b = nonceOf st b.
Proof. unfold nonceOf at 1, credited. rewrite accountOf_set. by case_decide; subst. Qed.
Lemma balance_with_nonce (st : LedgerState) (a b : Address) (n : Z) : balance (with_nonce st a n) b = balance st b.
Proof. unfold balance at 1, with_nonce. rewrite accountOf_set. by case_decide; subst. Qed.
Lemma nonce_with_nonce (st : LedgerState) (a b : Address) (n : Z) :
  nonceOf (with_nonce st a n) b = if decide (a = b) then n else nonceOf st b.
Proof. unfold nonceOf at 1, with_nonce. rewrite accountOf_set. by case_decide; subst. Qed.

Lemma supply_set (st : LedgerState) (a : Address) (acc : AccountState) :
  supply (setAccount st a acc) = supply st + balanceAtoms acc - balance st a.
Proof.
  unfold supply, setAccount; simpl. rewrite map_sum_insert. unfold balance, accountOf.
  destruct (accounts st !! a); simpl; lia.
Qed.
Lemma supply_credited (st : LedgerState) (a : Address) (x : Z) : supply (credited st a x) = supply st + x.
Proof. unfold credited. rewrite supply_set. simpl. lia. Qed.
Lemma supply_with_nonce (st : LedgerState) (a : Address) (n : Z) : supply (with_nonce st a n) = supply st.
Proof. unfold with_nonce. rewrite supply_set. simpl. lia. Qed.

Lemma supply_credit_all (st : LedgerState) (l : list ActivityEntry) :
  supply (credit_all st l) = supply st + sumZ e_amountAtoms l.
Proof.
  unfold credit_all. revert st. induction l as [|e l IH]; intros st; simpl; [lia|].
  rewrite IH, supply_credited. lia.
Qed.
Lemma nonce_credit_all (st : LedgerState) (l : list ActivityEntry) (b : Address) :
  nonceOf (credit_all st l) b = nonceOf st b.
Proof. unfold credit_all. revert st. induction l as [|e l IH]; intros st; simpl; [done|]. by rewrite IH, nonce_credited. Qed.

(** What the entries pay to [a]. *)
Definition paid_to (l : list ActivityEntry) (a : Address) : Z :=
  sumZ (λ e, if decide (e_receiver e = a) then e_amountAtoms e else 0) l.
Lemma balance_credit_all (st : LedgerState) (l : list ActivityEntry) (b : Address) :
  balance (credit_all st l) b = balance st b + paid_to l b.
Proof.
  unfold credit_all, paid_to. revert st. induction l as [|e l IH]; intros st; simpl; [lia|].
  rewrite IH, balance_credited. lia.
Qed.

Lemma epochs_credit_all (st : LedgerState) (l : list ActivityEntry) :
  settledActivityEpochs (credit_all st l) = settledActivityEpochs st.
Proof. unfold credit_all. revert st. induction l as [|e l IH]; intros st; simpl; [done|]. by rewrite IH. Qed.

Create Rewrite HintDb ledger.
#[export] Hint Rewrite balance_credited nonce_credited balance_with_nonce nonce_with_nonce supply_credited
  supply_with_nonce supply_credit_all nonce_credit_all balance_credit_all epochs_credit_all : ledger.

Lemma balance_nonneg (st : LedgerState) (a : Address) : ledger_wf st → 0 ≤ balance st a.
Proof.
  intros [Ha _]. unfold balance, accountOf. destruct (accounts st !! a) eqn:E; simpl; [|done]. by apply Ha in E as [? _].
Qed.
Lemma nonce_nonneg (st : LedgerState) (a : Address) : ledger_wf st → 0 ≤ nonceOf st a.
Proof.
  intros [Ha _]. unfold nonceOf, accountOf. destruct (accounts st !! a) eqn:E; simpl; [|done]. by apply Ha in E as [_ ?].
Qed.
Lemma balance_le_supply (st : LedgerState) (a : Address) : ledger_wf st → balance st a ≤ supply st.
Proof.
  intros [Ha _]. unfold balance, accountOf, supply. destruct (accounts st !! a) eqn:E; simpl.
  - apply (map_sum_lookup_le balanceAtoms) in E; [done|]. intros k v Hk. by apply Ha in Hk as [? _].
  - apply map_sum_nonneg. intros k v Hk. by apply Ha in Hk as [? _].
Qed.

Lemma set_wf (st : LedgerState) (a : Address) (acc : AccountState) :
  ledger_wf st → 0 ≤ balanceAtoms acc → 0 ≤ nonce acc → supply (setAccount st a acc) ≤ MAX_SUPPLY_ATOMS →
  ledger_wf (setAccount st a acc).
Proof.
  intros [Ha Hs] Hb Hn Hsup. split; [|done]. intros b acc' Hl. unfold setAccount in Hl; simpl in Hl.
  apply lookup_insert_Some in Hl as [[-> <-]|[_ Hl]]; [done|]. by apply Ha in Hl.
Qed.

Lemma credited_wf (st : LedgerState) (a : Address) (x : Z) :
  ledger_wf st → 0 ≤ balance st a + x → supply st + x ≤ MAX_SUPPLY_ATOMS → ledger_wf (credited st a x).
Proof.
  intros Hw Hb Hs. apply set_wf; [done|done|by apply nonce_nonneg|].
  pose proof (supply_credited st a x) as E. unfold credited in E. rewrite E. lia.
Qed.
Lemma with_nonce_wf (st : LedgerState) (a : Address) (n : Z) : ledger_wf st → 0 ≤ n → ledger_wf (with_nonce st a n).
Proof.
  intros Hw Hn. apply set_wf; [done|by apply balance_nonneg|done|].
  pose proof (supply_with_nonce st a n) as E. unfold with_nonce in E. rewrite E. apply Hw.
Qed.
Lemma credit_all_wf (st : LedgerState) (l : list ActivityEntry) :
  ledger_wf st → (∀ e, e ∈ l → 0 ≤ e_amountAtoms e) → supply st + sumZ e_amountAtoms l ≤ MAX_SUPPLY_ATOMS →
  ledger_wf (credit_all st l).
Proof.
  unfold credit_all. revert st. induction l as [|e l IH]; intros st Hw He Hs; simpl in *; [done|].
  assert (0 ≤ e_amountAtoms e) by (apply He; set_solver).
  assert (0 ≤ sumZ e_amountAtoms l) by (apply sumZ_nonneg; intros; apply He; set_solver).
  apply IH; [apply credited_wf; [done| |lia]|intros; apply He; set_solver|rewrite supply_credited; lia].
  pose proof (balance_nonneg st (e_receiver e) Hw). lia.
Qed.

(** A credit that keeps the supply within the maximum never overflows. *)
Lemma credit_run (st : LedgerState) (a : Address) (x : Z) :
  ledger_wf st → 0 ≤ x → supply st + x ≤ MAX_SUPPLY_ATOMS → credit a x st = (credited st a x, Ok ()).
Proof.
  intros Hw Hx Hs. pose proof (balance_nonneg st a Hw). pose proof (balance_le_supply st a Hw).
  unfold credit. replace (negb _ || _) with false; [done|]. symmetry. breflect.
  unfold MAX_SAFE_INTEGER, MAX_SUPPLY_ATOMS, ATOMS_PER_ZYN in *. lia.
Qed.
Lemma m_for_credit_run (st : LedgerState) (l : list ActivityEntry) :
  ledger_wf st → (∀ e, e ∈ l → 0 ≤ e_amountAtoms e) → supply st + sumZ e_amountAtoms l ≤ MAX_SUPPLY_ATOMS →
  m_for (λ e, credit (e_receiver e) (e_amountAtoms e)) l st = (credit_all st l, Ok ()).
Proof.
  revert st. induction l as [|e l IH]; intros st Hw He Hs; [done|]. simpl in Hs.
  assert (0 ≤ e_amountAtoms e) by (apply He; set_solver).
  assert (0 ≤ sumZ e_amountAtoms l) by (apply sumZ_nonneg; intros; apply He; set_solver).
  cbn [m_for]. rewrite meth_bind_run, credit_run by (done || lia).
  apply IH; [apply credited_wf; [done| |lia]|intros; apply He; set_solver|rewrite supply_credited; lia].
  pose proof (balance_nonneg st (e_receiver e) Hw). lia.
Qed.

(** ** What a successful [apply] did *)

(** The producer's share of a fixed fee. *)
Definition producer_share (fee : option FixedFeeApplication) (feeAtoms : Z) : Z :=
  match fee with Some _ => feeAtoms / 2 | None => 0 end.
Definition producer_paid (st : LedgerState) (fee : option FixedFeeApplication) (feeAtoms : Z) : LedgerState :=
  match fee with
  | Some f => if feeAtoms / 2 <=? 0 then st else credited st (ff_producer f) (feeAtoms / 2)
  | None => st
  end.

Definition after_transfer (st : LedgerState) (tx : TransferTx) (fee : option FixedFeeApplication) : LedgerState :=
  with_nonce (producer_paid (credited (credited st (tr_sender tx) (- (tr_amountAtoms tx + tr_feeAtoms tx)))
    (tr_receiver tx) (tr_amountAtoms tx)) fee (tr_feeAtoms tx)) (tr_sender tx) (tr_nonce tx).

(** The conditions under which the fixed fee can be credited.  [creditProducerFee]
    checks them, after the transfer has been debited and credited. *)
Definition fee_ok (fee : option FixedFeeApplication) (feeAtoms : Z) (pool : Address) : Prop :=
  match fee with
  | Some f => feeAtoms = ff_fixedTransferFeeAtoms f ∧ isSafeInteger feeAtoms = true ∧ 0 ≤ feeAtoms ∧
              (0 < feeAtoms / 2 → ff_producer f ≠ MINING_TRACKER_ADDRESS ∧ ff_producer f ≠ pool)
  | None => True
  end.

#[global] Instance fee_ok_dec (fee : option FixedFeeApplication) (feeAtoms : Z) (pool : Address) : Decision (fee_ok fee feeAtoms pool).
Proof. unfold fee_ok. destruct fee; apply _. Defined.

Lemma creditProducerFee_Ok (feeAtoms : Z) (f : FixedFeeApplication) (pool : Address) (st st' : LedgerState) (u : unit) :
  creditProducerFee feeAtoms f pool st = (st', Ok u) →
  fee_ok (Some f) feeAtoms pool ∧ st' = producer_paid st (Some f) feeAtoms.
Proof.
  unfold creditProducerFee, splitFixedFee, math_floor_div, assertNoActivityPoolInflow. intros Hr.
  apply meth_bind_Ok in Hr as (? & [] & [-> Heq]%m_throw_if_Ok & Hr).
  apply meth_bind_Ok in Hr as (? & sp & [-> Hsp]%m_lift_Ok & Hr).
  apply res_bind_Ok in Hsp as ([] & Hs%throw_if_Ok & <-%Ok_inj). cbn [snd] in Hr. breflect.
  cbn [fee_ok producer_paid]. destruct (Z.leb_spec (feeAtoms / 2) 0) as [Hle|Hlt].
  - apply mret_Ok in Hr as [-> _]. split; [|done]. split; [lia|]. split; [apply isSafeInteger_spec; lia|]. split; [lia|]. lia.
  - apply meth_bind_Ok in Hr as (? & [] & [-> Ht]%m_throw_if_Ok & Hr).
    apply meth_bind_Ok in Hr as (? & [] & [-> Hp]%m_lift_Ok & ->%credit_Ok). apply throw_if_Ok in Hp.
    split; [|done]. split; [lia|]. split; [apply isSafeInteger_spec; lia|]. split; [lia|].
    intros _. split; by apply String.eqb_neq.
Qed.

Lemma applyTransfer_Ok (tx : TransferTx) (locks : option AllocationLockContext) (pool : Address)
    (fee : option FixedFeeApplication) (st st' : LedgerState) (u : unit) :
  applyTransfer tx locks pool fee st = (st', Ok u) →
  st' = after_transfer st tx fee ∧ fee_ok fee (tr_feeAtoms tx) pool ∧
  tr_sender tx ≠ MINING_TRACKER_ADDRESS ∧ tr_receiver tx ≠ MINING_TRACKER_ADDRESS ∧
  tr_nonce tx = nonceOf st (tr_sender tx) + 1 ∧
  tr_amountAtoms tx + tr_feeAtoms tx ≤ balance st (tr_sender tx) ∧
  assertAllocationLockOutflow locks (tr_sender tx) (balance st (tr_sender tx)) (tr_amountAtoms tx + tr_feeAtoms tx) = Ok ().
Proof.
  unfold applyTransfer. intros Hr.
  apply meth_bind_Ok in Hr as (? & [] & [-> Htr]%m_throw_if_Ok & Hr).
  apply orb_false_iff in Htr as [Ht1%String.eqb_neq Ht2%String.eqb_neq].
  apply meth_bind_Ok in Hr as (? & [] & [-> Hn]%requireNonce_Ok & Hr). cbv zeta in Hr.
  apply meth_bind_Ok in Hr as (? & st0 & Hg & Hr). injection Hg as <- <-.
  apply meth_bind_Ok in Hr as (? & [] & [-> Hb]%m_throw_if_Ok & Hr).
  apply meth_bind_Ok in Hr as (? & [] & [-> Hlk]%m_lift_Ok & Hr).
  apply meth_bind_Ok in Hr as (? & [] & [-> Hd]%debit_Ok & Hr).
  apply meth_bind_Ok in Hr as (? & [] & ->%credit_Ok & Hr).
  apply meth_bind_Ok in Hr as (st3 & [] & Hf & ->%setNonce_Ok).
  assert (fee_ok fee (tr_feeAtoms tx) pool ∧ st3 = producer_paid (credited (credited st (tr_sender tx)
    (- (tr_amountAtoms tx + tr_feeAtoms tx))) (tr_receiver tx) (tr_amountAtoms tx)) fee (tr_feeAtoms tx)) as [Hfo ->].
  { destruct fee as [f|]; [by apply creditProducerFee_Ok in Hf|]. by apply mret_Ok in Hf as [-> _]. }
  done.
Qed.

Definition after_settlement (st : LedgerState) (tx : ActivitySettlementTx) (pool : Address)
    (window : option Z) : LedgerState :=
  let total := sumZ e_amountAtoms (as_entries tx) in
  let st1 := with_nonce (credit_all (credited st pool (- total)) (as_entries tx)) pool (as_nonce tx) in
  let st2 := mkLedger (accounts st1) ({[as_epoch tx]} ∪ settledActivityEpochs st1) in
  match window with
  | Some t => with_nonce (with_nonce st2 ACTIVITY_WINDOW_TIME_ADDRESS t) ACTIVITY_WINDOW_AMOUNT_ADDRESS total
  | None => st2
  end.

(** The time recorded by a settlement, if the rolling window is enforced. *)
Definition window_time (rolling : bool) (locks : option AllocationLockContext) : option Z :=
  if rolling then Some (from_option lc_blockTimestampMs 0 locks) else None.

Lemma applyActivity_Ok (tx : ActivitySettlementTx) (pool : Address) (locks : option AllocationLockContext)
    (rolling : bool) (cap : Z) (st st' : LedgerState) (u : unit) :
  applyActivity tx pool locks rolling cap st = (st', Ok u) →
  let total := sumZ e_amountAtoms (as_entries tx) in
  st' = after_settlement st tx pool (window_time rolling locks) ∧
  as_sender tx = pool ∧ (∀ e, e ∈ as_entries tx → e_receiver e ≠ pool ∧ e_receiver e ≠ MINING_TRACKER_ADDRESS ∧ 0 ≤ e_amountAtoms e) ∧
  as_epoch tx ∉ settledActivityEpochs st ∧ as_nonce tx = nonceOf st pool + 1 ∧
  total ≤ Z.max 0 cap ∧ total ≤ balance st pool ∧
  assertAllocationLockOutflow locks pool (balance st pool) total = Ok () ∧
  (rolling = true →
    assertActivityRollingWindow
      (mkWindowRecord (nonceOf st ACTIVITY_WINDOW_TIME_ADDRESS) (nonceOf st ACTIVITY_WINDOW_AMOUNT_ADDRESS))
      (lc_blockTimestampMs <$> locks) total cap = Ok ()).
Proof.
  unfold applyActivity. intros Hr.
  apply meth_bind_Ok in Hr as (? & [] & [-> Hs]%m_throw_if_Ok & Hr). apply negb_false_iff, String.eqb_eq in Hs.
  apply meth_bind_Ok in Hr as (? & [] & [-> Hin]%m_lift_Ok & Hr).
  apply meth_bind_Ok in Hr as (? & [] & [-> Htr]%m_throw_if_Ok & Hr).
  apply meth_bind_Ok in Hr as (? & st0 & Hg & Hr). injection Hg as <- <-.
  apply meth_bind_Ok in Hr as (? & [] & [-> He]%m_throw_if_Ok & Hr). apply bool_decide_eq_false in He.
  apply meth_bind_Ok in Hr as (? & [] & [-> _]%m_throw_if_Ok & Hr).
  apply meth_bind_Ok in Hr as (? & [] & [-> Hn]%requireNonce_Ok & Hr).
  apply meth_bind_Ok in Hr as (? & total & [-> Htot]%m_lift_Ok & Hr).
  apply settlement_total in Htot as (-> & Hcap & _ & Hpos).
  apply meth_bind_Ok in Hr as (st1 & [] & Hwin & Hr).
  assert (st1 = st ∧ (rolling = true → assertActivityRollingWindow
      (mkWindowRecord (nonceOf st ACTIVITY_WINDOW_TIME_ADDRESS) (nonceOf st ACTIVITY_WINDOW_AMOUNT_ADDRESS))
      (lc_blockTimestampMs <$> locks) (sumZ e_amountAtoms (as_entries tx)) cap = Ok ())) as [-> Hw].
  { destruct rolling; [|by apply mret_Ok in Hwin as [-> _]].
    apply meth_bind_Ok in Hwin as (? & [] & [-> _]%m_throw_if_Ok & [-> ?]%m_lift_Ok). done. }
  clear Hwin. apply meth_bind_Ok in Hr as (? & [] & [-> Hb]%m_throw_if_Ok & Hr).
  apply meth_bind_Ok in Hr as (? & [] & [-> Hlk]%m_lift_Ok & Hr).
  apply meth_bind_Ok in Hr as (? & [] & [-> Hd]%debit_Ok & Hr).
  apply meth_bind_Ok in Hr as (? & [] & ->%m_for_credit_Ok & Hr).
  apply meth_bind_Ok in Hr as (? & [] & ->%setNonce_Ok & Hr).
  apply meth_bind_Ok in Hr as (? & [] & Hep & Hr). injection Hep as <-.
  cbv zeta. split; [|split; [done|split; [|done]]].
  - unfold after_settlement, window_time. destruct rolling.
    + apply meth_bind_Ok in Hr as (? & [] & ->%setNonce_Ok & ->%setNonce_Ok). done.
    + by apply mret_Ok in Hr as [-> _].
  - intros e Hel. rewrite res_forall_Ok in Hin. specialize (Hin e Hel). unfold assertNoActivityPoolInflow in Hin.
    apply throw_if_Ok, String.eqb_neq in Hin. split; [done|]. split; [|by apply Hpos].
    intros Heq. assert (existsb (λ e, String.eqb (e_receiver e) MINING_TRACKER_ADDRESS) (as_entries tx) = true); [|congruence].
    apply existsb_exists. exists e. split; [by apply list_elem_of_In|]. rewrite Heq. apply String.eqb_refl.
Qed.

Lemma applyNonceOnly_Ok (sender : Address) (n : Z) (st st' : LedgerState) (u : unit) :
  applyNonceOnly sender n st = (st', Ok u) →
  st' = with_nonce st sender n ∧ sender ≠ MINING_TRACKER_ADDRESS ∧ n = nonceOf st sender + 1.
Proof. unfold applyNonceOnly. intros Hr. meth_inv. repeat split; try done. by apply String.eqb_neq. Qed.

(** ** Supply *)

Definition burned (fee : option FixedFeeApplication) (tx : Transaction) : Z :=
  match tx with Transfer t => tr_feeAtoms t - producer_share fee (tr_feeAtoms t) | _ => 0 end.

Lemma producer_paid_supply (st : LedgerState) (fee : option FixedFeeApplication) (x : Z) :
  0 ≤ x → supply (producer_paid st fee x) = supply st + producer_share fee x.
Proof.
  intros Hx. destruct fee as [f|]; simpl; [|lia]. pose proof (Z.div_pos x 2 Hx ltac:(lia)).
  destruct (Z.leb_spec (x / 2) 0); [|by rewrite supply_credited]. lia.
Qed.

Lemma producer_share_bounds (fee : option FixedFeeApplication) (x : Z) : 0 ≤ x → 0 ≤ producer_share fee x ≤ x.
Proof. intros Hx. destruct fee; simpl; [|lia]. Z.div_mod_to_equations. lia. Qed.

Lemma producer_paid_wf (st : LedgerState) (fee : option FixedFeeApplication) (x : Z) :
  ledger_wf st → 0 ≤ x → supply st + x ≤ MAX_SUPPLY_ATOMS → ledger_wf (producer_paid st fee x).
Proof.
  intros Hw Hx Hs. destruct fee as [f|]; simpl; [|done]. destruct (Z.leb_spec (x / 2) 0); [done|].
  pose proof (balance_nonneg st (ff_producer f) Hw). apply credited_wf; [done|lia|].
  pose proof (producer_share_bounds (Some f) x Hx) as Hb. simpl in Hb. lia.
Qed.

Lemma after_transfer_supply (st : LedgerState) (tx : TransferTx) (fee : option FixedFeeApplication) :
  0 ≤ tr_feeAtoms tx → supply (after_transfer st tx fee) = supply st - burned fee (Transfer tx).
Proof.
  intros Hf. unfold after_transfer. rewrite supply_with_nonce, producer_paid_supply by done.
  rewrite !supply_credited. simpl. lia.
Qed.

Lemma after_transfer_wf (st : LedgerState) (tx : TransferTx) (fee : option FixedFeeApplication) :
  ledger_wf st → 0 ≤ tr_amountAtoms tx → 0 ≤ tr_feeAtoms tx → 0 ≤ tr_nonce tx →
  tr_amountAtoms tx + tr_feeAtoms tx ≤ balance st (tr_sender tx) → ledger_wf (after_transfer st tx fee).
Proof.
  intros Hw Ha Hf Hn Hb. pose proof (lw_supply _ Hw).
  assert (ledger_wf (credited st (tr_sender tx) (- (tr_amountAtoms tx + tr_feeAtoms tx)))) as Hw1.
  { apply credited_wf; [done|lia|lia]. }
  assert (ledger_wf (credited (credited st (tr_sender tx) (- (tr_amountAtoms tx + tr_feeAtoms tx)))
    (tr_receiver tx) (tr_amountAtoms tx))) as Hw2.
  { pose proof (balance_nonneg _ (tr_receiver tx) Hw1). apply credited_wf; [done|lia|rewrite supply_credited; lia]. }
  apply with_nonce_wf; [|done]. apply producer_paid_wf; [done|done|]. rewrite !supply_credited. lia.
Qed.

Lemma supply_epochs (m : gmap Address AccountState) (e : gset Z) (st : LedgerState) :
  accounts st = m → supply (mkLedger m e) = supply st.
Proof. by intros <-. Qed.

Lemma epochs_wf (st : LedgerState) (e : gset Z) : ledger_wf st → ledger_wf (mkLedger (accounts st) e).
Proof. intros []. by split. Qed.

Lemma after_settlement_supply (st : LedgerState) (tx : ActivitySettlementTx) (pool : Address) (w : option Z) :
  supply (after_settlement st tx pool w) = supply st.
Proof.
  unfold after_settlement. cbv zeta. set (st1 := with_nonce (credit_all _ _) _ _).
  assert (supply st1 = supply st) as E.
  { unfold st1. autorewrite with ledger. lia. }
  destruct w; rewrite ?supply_with_nonce; by rewrite (supply_epochs _ _ st1).
Qed.

Lemma after_settlement_wf (st : LedgerState) (tx : ActivitySettlementTx) (pool : Address) (w : option Z) :
  ledger_wf st → (∀ e, e ∈ as_entries tx → 0 ≤ e_amountAtoms e) → 0 ≤ as_nonce tx → from_option (λ t, 0 ≤ t) True w →
  sumZ e_amountAtoms (as_entries tx) ≤ balance st pool → ledger_wf (after_settlement st tx pool w).
Proof.
  intros Hw He Hn Ht Hb. pose proof (lw_supply _ Hw).
  pose proof (sumZ_nonneg e_amountAtoms (as_entries tx) He).
  assert (ledger_wf (credited st pool (- sumZ e_amountAtoms (as_entries tx)))) as Hw1 by (apply credited_wf; [done|lia|lia]).
  assert (ledger_wf (with_nonce (credit_all (credited st pool (- sumZ e_amountAtoms (as_entries tx))) (as_entries tx)) pool (as_nonce tx))) as Hw2.
  { apply with_nonce_wf; [|done]. apply credit_all_wf; [done|done|rewrite supply_credited; lia]. }
  unfold after_settlement. cbv zeta. destruct w as [t|]; [|by apply epochs_wf].
  apply with_nonce_wf; [apply with_nonce_wf; [by apply epochs_wf|done]|done].
Qed.

Section theorems.
Context `{Crypto}.

Lemma apply_Transfer_Ok (t : TransferTx) (pool : Address) (locks : option AllocationLockContext)
    (oracles : option ActivityOracleSet) (fee : option FixedFeeApplication) (st st' : LedgerState) (u : unit) :
  apply (Transfer t) pool locks oracles fee st = (st', Ok u) →
  tr_receiver t ≠ pool ∧ (activityRollingWindowEnforced oracles = true → tr_sender t ≠ pool) ∧
  applyTransfer t locks pool fee st = (st', Ok u).
Proof.
  unfold apply. intros Hr. apply meth_bind_Ok in Hr as (? & [] & [-> Hi]%m_lift_Ok & Hr).
  apply meth_bind_Ok in Hr as (? & [] & [-> Hd]%m_lift_Ok & Hr).
  apply meth_bind_Ok in Hr as (? & [] & [-> _]%m_throw_if_Ok & Hr).
  apply throw_if_Ok, String.eqb_neq in Hi. apply throw_if_Ok in Hd. split; [done|]. split; [|done].
  intros E. rewrite E in Hd. by apply String.eqb_neq.
Qed.

Lemma apply_Settlement_Ok (t : ActivitySettlementTx) (pool : Address) (locks : option AllocationLockContext)
    (oracles : option ActivityOracleSet) (fee : option FixedFeeApplication) (st st' : LedgerState) (u : unit) :
  apply (ActivitySettlement t) pool locks oracles fee st = (st', Ok u) →
  (∀ o, oracles = Some o → isOk (assertActivitySettlementAuthorized t o
     (mkAuthContext (Some (as_chainId t)) (lc_blockTimestampMs <$> locks) (os_timestampMs o))) = true) ∧
  applyActivity t pool locks (activityRollingWindowEnforced oracles) (activitySettlementCapAtoms oracles) st = (st', Ok u).
Proof.
  unfold apply. intros Hr. apply meth_bind_Ok in Hr as (st1 & [] & Ha & Hr).
  destruct oracles as [o|].
  - apply m_lift_Ok in Ha as [-> Ha]. split; [|done]. intros o' [= <-]. by rewrite Ha.
  - apply mret_Ok in Ha as [-> _]. done.
Qed.

Lemma window_time_nonneg (locks : option AllocationLockContext) (oracles : option ActivityOracleSet)
    (prev : ActivityWindowRecord) (total cap : Z) :
  (activityRollingWindowEnforced oracles = true →
    assertActivityRollingWindow prev (lc_blockTimestampMs <$> locks) total cap = Ok ()) →
  from_option (λ t, 0 ≤ t) True (window_time (activityRollingWindowEnforced oracles) locks).
Proof.
  unfold window_time. destruct (activityRollingWindowEnforced oracles); [|done]. intros Hw.
  specialize (Hw eq_refl). unfold assertActivityRollingWindow in Hw. apply res_bind_Ok in Hw as (? & _ & Hw).
  destruct locks as [lk|]; [|done]. cbn [fmap option_fmap option_map] in Hw.
  apply res_bind_Ok in Hw as (? & Hn%throw_if_Ok & _). breflect. simpl. lia.
Qed.

Lemma apply_supply_wf (tx : Transaction) (pool : Address) (locks : option AllocationLockContext)
    (oracles : option ActivityOracleSet) (fee : option FixedFeeApplication) (st st' : LedgerState) (u : unit) :
  ledger_wf st → tx_wf tx → apply tx pool locks oracles fee st = (st', Ok u) →
  ledger_wf st' ∧ supply st' = supply st - burned fee tx ∧ 0 ≤ burned fee tx ≤ tx_feeAtoms tx.
Proof.
  intros Hw [(_ & _ & _ & Hnonce & _) Hk] Ha. destruct tx as [t|t|t|t|t|t].
  - apply apply_Transfer_Ok in Ha as (_ & _ & Ha). apply applyTransfer_Ok in Ha as (-> & _ & _ & _ & _ & Hb & _).
    destruct Hk as (_ & _ & Hamt & Hfee & _). simpl in Hnonce.
    split; [apply after_transfer_wf; done || lia|]. split; [apply after_transfer_supply; lia|].
    pose proof (producer_share_bounds fee (tr_feeAtoms t)). simpl. lia.
  - apply apply_Settlement_Ok in Ha as [_ Ha]. apply applyActivity_Ok in Ha as (-> & _ & He & _ & _ & _ & Hb & _ & Hwin).
    simpl in Hnonce. split; [|split; [apply eq_trans with (supply st); [apply after_settlement_supply|simpl; lia]|]].
    + apply after_settlement_wf; [done|intros e Hin; by apply He|lia|by eapply window_time_nonneg|done].
    + destruct Hk as (_ & Hfee & _). simpl. lia.
  - destruct Hk.
  - apply applyNonceOnly_Ok in Ha as (-> & _ & Hn). simpl in Hnonce. split; [apply with_nonce_wf; done || lia|].
    rewrite supply_with_nonce. destruct Hk as (_ & Hfee & _). simpl. lia.
  - apply applyNonceOnly_Ok in Ha as (-> & _ & Hn). simpl in Hnonce. split; [apply with_nonce_wf; done || lia|].
    rewrite supply_with_nonce. destruct Hk as (_ & Hfee & _). simpl. lia.
  - apply applyNonceOnly_Ok in Ha as (-> & _ & Hn). simpl in Hnonce. split; [apply with_nonce_wf; done || lia|].
    rewrite supply_with_nonce. destruct Hk as (_ & Hfee & _). simpl. lia.
Qed.

(** C26. Supply is conserved to the atom: on a well-formed ledger, a transaction with
    the fields that the shape gate lets through that applies keeps every balance
    and nonce non-negative and the supply within the maximum, and lowers the
    supply by exactly the burned part of its fee, so no transaction of any kind
    ever creates an atom. *)
Theorem apply_conserves_supply (tx : Transaction) (pool : Address) (locks : option AllocationLockContext)
    (oracles : option ActivityOracleSet) (fee : option FixedFeeApplication) (st st' : LedgerState) (u : unit) :
  ledger_wf st → tx_wf tx → apply tx pool locks oracles fee st = (st', Ok u) →
  ledger_wf st' ∧ supply st' = supply st - burned fee tx ∧ 0 ≤ burned fee tx ≤ tx_feeAtoms tx.
Proof. apply apply_supply_wf. Qed.

(** ** Nonces *)

Lemma nonce_producer_paid (st : LedgerState) (fee : option FixedFeeApplication) (x : Z) (a : Address) :
  nonceOf (producer_paid st fee x) a = nonceOf st a.
Proof. destruct fee; simpl; [|done]. destruct (_ <=? 0); [done|]. apply nonce_credited. Qed.

Lemma nonce_after_settlement (st : LedgerState) (tx : ActivitySettlementTx) (pool : Address) (w : option Z) (a : Address) :
  isActivityWindowAddress a = false →
  nonceOf (after_settlement st tx pool w) a = if decide (pool = a) then as_nonce tx else nonceOf st a.
Proof.
  unfold isActivityWindowAddress. rewrite orb_false_iff, !String.eqb_neq. intros [H1 H2].
  unfold after_settlement. cbv zeta. set (st1 := with_nonce (credit_all _ _) _ _).
  assert (∀ e, nonceOf (mkLedger (accounts st1) e) a = nonceOf st1 a) as He by done.
  transitivity (nonceOf st1 a).
  - destruct w; [|apply He]. rewrite !nonce_with_nonce, !decide_False by congruence. apply He.
  - unfold st1. autorewrite with ledger. by destruct (decide (pool = a)).
Qed.

(** The nonces after a transaction: the sender's is the transaction's nonce,
    every other account's is unchanged. *)
Lemma apply_nonces (tx : Transaction) (pool : Address) (locks : option AllocationLockContext)
    (oracles : option ActivityOracleSet) (fee : option FixedFeeApplication) (st st' : LedgerState) (u : unit) (a : Address) :
  isActivityWindowAddress a = false → apply tx pool locks oracles fee st = (st', Ok u) →
  tx_nonce tx = nonceOf st (tx_sender tx) + 1 ∧
  nonceOf st' a = if decide (tx_sender tx = a) then tx_nonce tx else nonceOf st a.
Proof.
  intros Hwin Ha. destruct tx as [t|t|t|t|t|t].
  - apply apply_Transfer_Ok in Ha as (_ & _ & Ha). apply applyTransfer_Ok in Ha as (-> & _ & _ & _ & Hn & _).
    split; [done|]. unfold after_transfer. rewrite nonce_with_nonce, nonce_producer_paid, !nonce_credited. done.
  - apply apply_Settlement_Ok in Ha as [_ Ha]. apply applyActivity_Ok in Ha as (-> & Hs & _ & _ & Hn & _).
    simpl. rewrite Hs. split; [done|]. by apply nonce_after_settlement.
  - discriminate.
  - apply applyNonceOnly_Ok in Ha as (-> & _ & Hn). split; [done|]. by rewrite nonce_with_nonce.
  - apply applyNonceOnly_Ok in Ha as (-> & _ & Hn). split; [done|]. by rewrite nonce_with_nonce.
  - apply applyNonceOnly_Ok in Ha as (-> & _ & Hn). split; [done|]. by rewrite nonce_with_nonce.
Qed.

(** A transaction applies at most once: it raises its sender's nonce by one,
    to its own nonce, leaves all other nonces alone, and can never apply again
    to the state it produced, whatever block applies it. *)
Theorem apply_nonce_exact (tx : Transaction) (pool : Address) (locks : option AllocationLockContext)
    (oracles : option ActivityOracleSet) (fee : option FixedFeeApplication) (st st' : LedgerState) (u : unit) :
  isActivityWindowAddress (tx_sender tx) = false → apply tx pool locks oracles fee st = (st', Ok u) →
  nonceOf st' (tx_sender tx) = nonceOf st (tx_sender tx) + 1 ∧
  (∀ a, a ≠ tx_sender tx → isActivityWindowAddress a = false → nonceOf st' a = nonceOf st a) ∧
  (∀ pool' locks' oracles' fee', isOk (apply tx pool' locks' oracles' fee' st').2 = false).
Proof.
  intros Hwin Ha. destruct (apply_nonces _ _ _ _ _ _ _ _ (tx_sender tx) Hwin Ha) as [Hn Hs].
  rewrite decide_True in Hs by done. split; [lia|]. split.
  - intros a Hne Hw. destruct (apply_nonces _ _ _ _ _ _ _ _ a Hw Ha) as [_ ->]. by rewrite decide_False.
  - intros pool' locks' oracles' fee'. destruct (apply tx pool' locks' oracles' fee' st') as [st2 [u2|e]] eqn:E; [|done].
    destruct (apply_nonces _ _ _ _ _ _ _ _ (tx_sender tx) Hwin E) as [Hn2 _]. lia.
Qed.

(** ** Exceptions *)

Lemma meth_throw_keeps {S A B} (m : meth S A) (k : A → meth S B) (s : S) :
  ((m s).1 = s) → (∀ a, m s = (s, Ok a) → ∀ e s', k a s = (s', Throw e) → s' = s) →
  ∀ e s', (m ≫= k) s = (s', Throw e) → s' = s.
Proof.
  intros Hm Hk e s' Hr. rewrite meth_bind_run in Hr. destruct (m s) as [s1 [a|e1]]; simpl in Hm; subst s1.
  - by apply (Hk a eq_refl e).
  - congruence.
Qed.

Lemma requireNonce_keeps (a : Address) (n : Z) (st : LedgerState) : (requireNonce a n st).1 = st.
Proof. done. Qed.

(** Statements that only check. *)
Ltac keeps_step := apply meth_throw_keeps; [done|intros ? ?%symmetry]; cbv zeta.

Lemma applyTransfer_keeps (tx : TransferTx) (locks : option AllocationLockContext) (pool : Address)
    (fee : option FixedFeeApplication) (st st' : LedgerState) (e : string) :
  ledger_wf st → 0 ≤ tr_amountAtoms tx → 0 ≤ tr_feeAtoms tx → fee_ok fee (tr_feeAtoms tx) pool →
  applyTransfer tx locks pool fee st = (st', Throw e) → st' = st.
Proof.
  intros Hw Ha Hf Hfee. unfold applyTransfer. revert e st'.
  apply meth_throw_keeps; [done|]. intros [] _. apply meth_throw_keeps; [done|]. intros [] _. cbv zeta.
  apply meth_throw_keeps; [done|]. intros st0 Hg. injection Hg as <-.
  apply meth_throw_keeps; [done|]. intros [] Hb. apply m_throw_if_Ok in Hb as [_ Hb].
  apply meth_throw_keeps; [done|]. intros [] _. intros e st' Hr. exfalso. revert Hr. breflect. pose proof (lw_supply _ Hw).
  set (total := tr_amountAtoms tx + tr_feeAtoms tx) in *.
  assert (debit (tr_sender tx) total st = (credited st (tr_sender tx) (- total), Ok ())) as Hd by (apply debit_Ok; split; [done|lia]).
  rewrite meth_bind_run, Hd.
  assert (ledger_wf (credited st (tr_sender tx) (- total))) as Hw1 by (apply credited_wf; [done|lia|lia]).
  rewrite meth_bind_run, credit_run; [|done|done|rewrite supply_credited; lia].
  set (st2 := credited (credited _ _ _) _ _).
  assert (ledger_wf st2) as Hw2.
  { pose proof (balance_nonneg _ (tr_receiver tx) Hw1). apply credited_wf; [done|lia|rewrite supply_credited; lia]. }
  assert ((match fee with Some f => creditProducerFee (tr_feeAtoms tx) f pool | None => mret () end) st2
    = (producer_paid st2 fee (tr_feeAtoms tx), Ok ())) as Hp.
  { destruct fee as [f|]; [|done]. destruct Hfee as (Heq & Hs & Hnn & Hprod).
    unfold creditProducerFee, splitFixedFee, math_floor_div, assertNoActivityPoolInflow.
    rewrite meth_bind_run. unfold m_throw_if at 1. rewrite <-Heq, Z.eqb_refl. cbn [negb throw_if m_lift].
    rewrite meth_bind_run, Hs. destruct (Z.ltb_spec (tr_feeAtoms tx) 0); [lia|].
    cbn [negb orb throw_if mbind res_bind m_lift snd]. unfold producer_paid.
    destruct (Z.leb_spec (tr_feeAtoms tx / 2) 0); [done|]. destruct (Hprod ltac:(lia)) as [Hp1 Hp2].
    rewrite meth_bind_run. unfold m_throw_if. apply String.eqb_neq in Hp1, Hp2. rewrite Hp1. cbn [throw_if m_lift].
    rewrite meth_bind_run. unfold m_lift. rewrite Hp2. cbn [throw_if]. apply credit_run; [done|lia|].
    unfold st2. rewrite !supply_credited. pose proof (producer_share_bounds (Some f) (tr_feeAtoms tx)) as Hb2.
    simpl in Hb2. unfold total. lia. }
  rewrite meth_bind_run, Hp. unfold setNonce. congruence.
Qed.

Lemma creditProducerFee_keeps (feeAtoms : Z) (f : FixedFeeApplication) (pool : Address) (st st' : LedgerState) (e : string) :
  creditProducerFee feeAtoms f pool st = (st', Throw e) → st' = st.
Proof.
  unfold creditProducerFee. revert e st'.
  apply meth_throw_keeps; [done|]. intros [] _. apply meth_throw_keeps; [done|]. intros sp _. cbv zeta.
  destruct (sp.2 <=? 0); [done|]. do 2 (apply meth_throw_keeps; [done|]; intros [] _).
  unfold credit. intros e st'. destruct (_ || _); congruence.
Qed.

(** The ledger between the payment of a transfer and the fixed fee's credit. *)
Definition moved (st : LedgerState) (tx : TransferTx) : LedgerState :=
  credited (credited st (tr_sender tx) (- (tr_amountAtoms tx + tr_feeAtoms tx))) (tr_receiver tx) (tr_amountAtoms tx).

Lemma meth_throw_cases {S A B} (m : meth S A) (k : A → meth S B) (s s' : S) (e : string) :
  (m s).1 = s → (m ≫= k) s = (s', Throw e) → s' = s ∨ ∃ a, m s = (s, Ok a) ∧ k a s = (s', Throw e).
Proof.
  intros Hm Hr. rewrite meth_bind_run in Hr. destruct (m s) as [s1 [a|e1]]; cbn [fst] in Hm; subst s1; [right; eauto|left; congruence].
Qed.

Lemma applyTransfer_throw (tx : TransferTx) (locks : option AllocationLockContext) (pool : Address)
    (fee : option FixedFeeApplication) (st st' : LedgerState) (e : string) :
  ledger_wf st → 0 ≤ tr_amountAtoms tx → 0 ≤ tr_feeAtoms tx →
  applyTransfer tx locks pool fee st = (st', Throw e) → st' = st ∨ ¬ fee_ok fee (tr_feeAtoms tx) pool ∧ st' = moved st tx.
Proof.
  intros Hw Ha Hf. destruct (decide (fee_ok fee (tr_feeAtoms tx) pool)) as [Hfee|Hfee].
  { intros Hr. left. by eapply applyTransfer_keeps. }
  intros Hr. destruct fee as [f|]; [|by exfalso; apply Hfee]. unfold applyTransfer in Hr.
  do 2 (apply meth_throw_cases in Hr as [->|([] & _ & Hr)]; [by left| |done]). cbv zeta in Hr.
  apply meth_throw_cases in Hr as [->|(st0 & Hg & Hr)]; [by left| |done]. injection Hg as <-.
  apply meth_throw_cases in Hr as [->|([] & Hb & Hr)]; [by left| |done]. apply m_throw_if_Ok in Hb as [_ Hb]. breflect.
  apply meth_throw_cases in Hr as [->|([] & _ & Hr)]; [by left| |done]. pose proof (lw_supply _ Hw).
  set (total := tr_amountAtoms tx + tr_feeAtoms tx) in *.
  assert (debit (tr_sender tx) total st = (credited st (tr_sender tx) (- total), Ok ())) as Hd by (apply debit_Ok; split; [done|lia]).
  rewrite meth_bind_run, Hd in Hr.
  assert (ledger_wf (credited st (tr_sender tx) (- total))) as Hw1 by (apply credited_wf; [done|lia|lia]).
  rewrite meth_bind_run, credit_run in Hr; [|done|done|rewrite supply_credited; lia].
  rewrite meth_bind_run in Hr. destruct (creditProducerFee _ _ _ _) as [st3 [u|e1]] eqn:Ec; [by apply creditProducerFee_Ok in Ec as [? _]|].
  injection Hr as <- <-. right. split; [done|]. by eapply creditProducerFee_keeps.
Qed.

Lemma applyActivity_throw (tx : ActivitySettlementTx) (pool : Address) (locks : option AllocationLockContext)
    (rolling : bool) (cap : Z) (st st' : LedgerState) (e : string) :
  ledger_wf st → applyActivity tx pool locks rolling cap st = (st', Throw e) → st' = st.
Proof.
  intros Hw. unfold applyActivity. revert e st'.
  do 3 (apply meth_throw_keeps; [done|]; intros [] _).
  apply meth_throw_keeps; [done|]. intros st0 Hg. injection Hg as <-.
  do 3 (apply meth_throw_keeps; [done|]; intros [] _).
  apply meth_throw_keeps; [done|]. intros total Ht. apply m_lift_Ok in Ht as [_ Ht].
  apply settlement_total in Ht as (-> & _ & _ & Hpos). pose proof (sumZ_nonneg e_amountAtoms _ Hpos).
  apply meth_throw_keeps.
  { destruct rolling; [|done]. rewrite meth_bind_run. unfold m_throw_if, m_lift. by destruct (throw_if _ _). }
  intros [] _. apply meth_throw_keeps; [done|]. intros [] Hb. apply m_throw_if_Ok in Hb as [_ Hb].
  apply meth_throw_keeps; [done|]. intros [] _. intros e st' Hr. exfalso. revert Hr. breflect. pose proof (lw_supply _ Hw).
  assert (debit pool (sumZ e_amountAtoms (as_entries tx)) st = (credited st pool (- sumZ e_amountAtoms (as_entries tx)), Ok ())) as Hd
    by (apply debit_Ok; split; [done|lia]).
  rewrite meth_bind_run, Hd, meth_bind_run, m_for_credit_run.
  - rewrite !meth_bind_run. unfold setNonce at 1. rewrite meth_bind_run. unfold addEpoch at 1.
    destruct rolling; [|unfold mret, meth_ret; congruence]. rewrite meth_bind_run. unfold setNonce. congruence.
  - apply credited_wf; [done|lia|lia].
  - done.
  - rewrite supply_credited. lia.
Qed.

Lemma applyNonceOnly_throw (sender : Address) (n : Z) (st st' : LedgerState) (e : string) :
  applyNonceOnly sender n st = (st', Throw e) → st' = st.
Proof.
  unfold applyNonceOnly. revert e st'. do 2 (apply meth_throw_keeps; [done|]; intros [] _).
  unfold setNonce. congruence.
Qed.

(** What a transaction that throws leaves behind. *)
Lemma apply_throw_cases (tx : Transaction) (pool : Address) (locks : option AllocationLockContext)
    (oracles : option ActivityOracleSet) (fee : option FixedFeeApplication) (st st' : LedgerState) (e : string) :
  ledger_wf st → tx_wf tx → apply tx pool locks oracles fee st = (st', Throw e) →
  st' = st ∨ ∃ t, tx = Transfer t ∧ ¬ fee_ok fee (tr_feeAtoms t) pool ∧ st' = moved st t.
Proof.
  intros Hw [_ Hk] Hr. destruct tx as [t|t|t|t|t|t]; unfold apply in Hr; [|left; revert Hr..].
  - do 3 (apply meth_throw_cases in Hr as [->|([] & _ & Hr)]; [by left| |done]).
    destruct Hk as (_ & _ & Hamt & Hf & _). apply applyTransfer_throw in Hr; [|done|lia|lia]. destruct Hr as [?|?]; [by left|right; by exists t].
  - revert e st'. apply meth_throw_keeps; [by destruct oracles|]. intros [] _ e st'. by apply applyActivity_throw.
  - destruct Hk.
  - apply applyNonceOnly_throw.
  - apply applyNonceOnly_throw.
  - apply applyNonceOnly_throw.
Qed.

Lemma apply_throw_keeps (tx : Transaction) (pool : Address) (locks : option AllocationLockContext)
    (oracles : option ActivityOracleSet) (fee : option FixedFeeApplication) (st st' : LedgerState) (e : string) :
  ledger_wf st → tx_wf tx → (∀ t, tx = Transfer t → fee_ok fee (tr_feeAtoms t) pool) →
  apply tx pool locks oracles fee st = (st', Throw e) → st' = st.
Proof.
  intros Hw Hk Hfee Hr. destruct (apply_throw_cases _ _ _ _ _ _ _ _ Hw Hk Hr) as [?|(t & -> & Hn & _)]; [done|]. destruct Hn. by apply Hfee.
Qed.

(** C34. What a throwing [apply] leaves behind.  On a well-formed ledger, a well-formed
    transaction that throws leaves the ledger as it was, with one exception: a transfer
    is debited and credited before its fixed fee is checked, so when the caller paired
    it with a fee that does not fit (the fee is not the fixed fee, or a positive
    producer's share would go to the pool or the mining tracker) and the checks before
    pass, the ledger keeps exactly that debit and credit: no nonce is spent and no
    producer is paid.  With a fee that fits, [apply] is atomic. *)
Theorem apply_atomic (tx : Transaction) (pool : Address) (locks : option AllocationLockContext)
    (oracles : option ActivityOracleSet) (fee : option FixedFeeApplication) (st st' : LedgerState) (e : string) :
  ledger_wf st → tx_wf tx → apply tx pool locks oracles fee st = (st', Throw e) →
  st' = st ∨ ∃ t, tx = Transfer t ∧ ¬ fee_ok fee (tr_feeAtoms t) pool ∧ st' = moved st t.
Proof. apply apply_throw_cases. Qed.

(** ** The activity pool *)

Definition payout (tx : Transaction) : Z :=
  match tx with ActivitySettlement t => sumZ e_amountAtoms (as_entries t) | _ => 0 end.

Lemma balance_producer_paid (st : LedgerState) (fee : option FixedFeeApplication) (x : Z) (a : Address) :
  0 ≤ x → balance st a ≤ balance (producer_paid st fee x) a ∧
  (from_option ff_producer "" fee ≠ a ∨ x / 2 ≤ 0 ∨ fee = None → balance (producer_paid st fee x) a = balance st a).
Proof.
  intros Hx. destruct fee as [f|]; simpl; [|split; [lia|done]]. destruct (Z.leb_spec (x / 2) 0) as [Hle|Hlt]; [split; [lia|done]|].
  rewrite balance_credited. case_decide; split; try lia; intros [Hne|[?|?]]; done || lia.
Qed.

Lemma balance_after_transfer (st : LedgerState) (tx : TransferTx) (fee : option FixedFeeApplication) (a : Address) :
  0 ≤ tr_amountAtoms tx → 0 ≤ tr_feeAtoms tx →
  balance st a - (if decide (tr_sender tx = a) then tr_amountAtoms tx + tr_feeAtoms tx else 0) ≤ balance (after_transfer st tx fee) a.
Proof.
  intros Ha Hf. unfold after_transfer. rewrite balance_with_nonce.
  destruct (balance_producer_paid (credited (credited st (tr_sender tx) (- (tr_amountAtoms tx + tr_feeAtoms tx)))
    (tr_receiver tx) (tr_amountAtoms tx)) fee (tr_feeAtoms tx) a Hf) as [Hle _].
  rewrite !balance_credited in Hle. repeat case_decide; lia.
Qed.

Lemma paid_to_nonneg (l : list ActivityEntry) (a : Address) : (∀ e, e ∈ l → 0 ≤ e_amountAtoms e) → 0 ≤ paid_to l a.
Proof. intros He. apply sumZ_nonneg. intros e Hin. case_decide; [by apply He|done]. Qed.

Lemma balance_after_settlement (st : LedgerState) (tx : ActivitySettlementTx) (pool : Address) (w : option Z) (a : Address) :
  balance (after_settlement st tx pool w) a =
    balance st a - (if decide (pool = a) then sumZ e_amountAtoms (as_entries tx) else 0) + paid_to (as_entries tx) a.
Proof.
  unfold after_settlement. cbv zeta. set (st1 := with_nonce (credit_all _ _) _ _).
  assert (balance st1 a = balance st a - (if decide (pool = a) then sumZ e_amountAtoms (as_entries tx) else 0) + paid_to (as_entries tx) a) as E.
  { unfold st1. autorewrite with ledger. case_decide; lia. }
  destruct w; rewrite ?balance_with_nonce; exact E.
Qed.

Lemma paid_to_absent (l : list ActivityEntry) (a : Address) : (∀ e, e ∈ l → e_receiver e ≠ a) → paid_to l a = 0.
Proof.
  intros He. unfold paid_to. induction l as [|e l IH]; simpl; [done|].
  rewrite decide_False by (apply He; set_solver). rewrite IH; [done|]. intros e' Hin. apply He. set_solver.
Qed.

Lemma epochs_after_transfer (st : LedgerState) (tx : TransferTx) (fee : option FixedFeeApplication) :
  settledActivityEpochs (after_transfer st tx fee) = settledActivityEpochs st.
Proof. unfold after_transfer. destruct fee; simpl; [|done]. by destruct (_ <=? 0). Qed.

Lemma epochs_after_settlement (st : LedgerState) (tx : ActivitySettlementTx) (pool : Address) (w : option Z) :
  settledActivityEpochs (after_settlement st tx pool w) = {[as_epoch tx]} ∪ settledActivityEpochs st.
Proof.
  unfold after_settlement. cbv zeta. destruct w; simpl; by rewrite epochs_credit_all.
Qed.

(** Under the launch profile the activity pool only pays settlements: its
    balance falls by exactly the payout of a settlement and by nothing else, no
    transaction can pay into it, a payout is within the cap, and each epoch is
    settled once. *)
Theorem activity_pool_outflow_only (tx : Transaction) (pool : Address) (locks : option AllocationLockContext)
    (oracles : ActivityOracleSet) (fee : option FixedFeeApplication) (st st' : LedgerState) (u : unit) :
  tx_wf tx → os_launchProfile oracles = Some ACTIVITY_ROLLING_WINDOW_PROFILE →
  apply tx pool locks (Some oracles) fee st = (st', Ok u) →
  balance st' pool = balance st pool - payout tx ∧
  0 ≤ payout tx ≤ Z.max 0 (activitySettlementCapAtoms (Some oracles)) ∧
  match tx with
  | ActivitySettlement t => as_epoch t ∉ settledActivityEpochs st ∧
      settledActivityEpochs st' = {[as_epoch t]} ∪ settledActivityEpochs st
  | _ => settledActivityEpochs st' = settledActivityEpochs st
  end.
Proof.
  intros [_ Hk] Hprof Ha.
  assert (activityRollingWindowEnforced (Some oracles) = true) as Hroll by (by apply bool_decide_eq_true).
  destruct tx as [t|t|t|t|t|t].
  - apply apply_Transfer_Ok in Ha as (Hr & Hs & Ha). specialize (Hs Hroll).
    apply applyTransfer_Ok in Ha as (-> & Hf & _). destruct Hk as (_ & _ & Hamt & Hfee & _).
    split; [|split; [simpl; lia|by apply epochs_after_transfer]].
    unfold after_transfer. rewrite balance_with_nonce.
    destruct (balance_producer_paid (credited (credited st (tr_sender t) (- (tr_amountAtoms t + tr_feeAtoms t)))
      (tr_receiver t) (tr_amountAtoms t)) fee (tr_feeAtoms t) pool ltac:(lia)) as [_ ->].
    + rewrite !balance_credited, !decide_False by done. simpl. lia.
    + destruct fee as [f|]; [|auto]. destruct Hf as (_ & _ & _ & Hp). simpl.
      destruct (Z.le_gt_cases (tr_feeAtoms t / 2) 0); [auto|]. left. apply Hp. lia.
  - apply apply_Settlement_Ok in Ha as [_ Ha]. rewrite Hroll in Ha.
    apply applyActivity_Ok in Ha as (-> & Hs & He & Hep & _ & Hcap & _).
    split; [|split; [split; [apply sumZ_nonneg; intros e Hin; by apply He|done]|]].
    + rewrite balance_after_settlement, decide_True, paid_to_absent by (done || intros e Hin; by apply He). simpl. lia.
    + split; [done|]. apply epochs_after_settlement.
  - destruct Hk.
  - apply applyNonceOnly_Ok in Ha as (-> & _). rewrite balance_with_nonce. simpl. split; [lia|]. split; [lia|done].
  - apply applyNonceOnly_Ok in Ha as (-> & _). rewrite balance_with_nonce. simpl. split; [lia|]. split; [lia|done].
  - apply applyNonceOnly_Ok in Ha as (-> & _). rewrite balance_with_nonce. simpl. split; [lia|]. split; [lia|done].
Qed.

(** ** Allocation locks over the life of the chain *)

(** What [apply] can take from an account: nothing, or an outflow the lock check
    accepted. *)
Lemma apply_outflow (tx : Transaction) (pool : Address) (locks : option AllocationLockContext)
    (oracles : option ActivityOracleSet) (fee : option FixedFeeApplication) (st st' : LedgerState) (u : unit) (a : Address) :
  tx_wf tx → apply tx pool locks oracles fee st = (st', Ok u) →
  balance st a ≤ balance st' a ∨
  ∃ out, 0 ≤ out ≤ balance st a ∧ assertAllocationLockOutflow locks a (balance st a) out = Ok () ∧
         balance st a - out ≤ balance st' a.
Proof.
  intros [_ Hk] Ha. destruct tx as [t|t|t|t|t|t].
  - apply apply_Transfer_Ok in Ha as (_ & _ & Ha). apply applyTransfer_Ok in Ha as (-> & _ & _ & _ & _ & Hb & Hl).
    destruct Hk as (_ & _ & Hamt & Hfee & _).
    pose proof (balance_after_transfer st t fee a ltac:(lia) ltac:(lia)) as Hle. case_decide as Heq; [subst a|left; lia].
    right. exists (tr_amountAtoms t + tr_feeAtoms t). split; [lia|done].
  - apply apply_Settlement_Ok in Ha as [_ Ha]. apply applyActivity_Ok in Ha as (-> & Hs & He & _ & _ & _ & Hb & Hl & _).
    assert (∀ e, e ∈ as_entries t → 0 ≤ e_amountAtoms e) as Hpos by (intros e Hin; by apply He).
    rewrite balance_after_settlement. pose proof (paid_to_nonneg (as_entries t) a Hpos).
    pose proof (sumZ_nonneg e_amountAtoms (as_entries t) Hpos).
    case_decide as Heq; [subst a|left; lia]. right. exists (sumZ e_amountAtoms (as_entries t)). split; [lia|]. split; [done|lia].
  - destruct Hk.
  - apply applyNonceOnly_Ok in Ha as (-> & _). left. rewrite balance_with_nonce. lia.
  - apply applyNonceOnly_Ok in Ha as (-> & _). left. rewrite balance_with_nonce. lia.
  - apply applyNonceOnly_Ok in Ha as (-> & _). left. rewrite balance_with_nonce. lia.
Qed.

(** Every account holds at least what the locks of [ctx] require of it. *)
Definition locks_held (ctx : AllocationLockContext) (st : LedgerState) : Prop :=
  ∀ a, locked_amount ctx a (balance st a) ≤ balance st a.

Lemma locked_amount_grow (ctx : AllocationLockContext) (a : Address) (b b' : Z) :
  locked_amount ctx a b ≤ b → b ≤ b' → locked_amount ctx a b' ≤ b'.
Proof. unfold locked_amount. destruct (lc_publicDistribution ctx); repeat case_bool_decide; lia. Qed.

Lemma apply_locks_held (tx : Transaction) (pool : Address) (ctx : AllocationLockContext)
    (oracles : option ActivityOracleSet) (fee : option FixedFeeApplication) (st st' : LedgerState) (u : unit) :
  lock_context_wf ctx → ledger_wf st → tx_wf tx → locks_held ctx st →
  apply tx pool (Some ctx) oracles fee st = (st', Ok u) →
  locks_held ctx st' ∧ ∀ a, lc_permanentLiquidity ctx = Some a → balance st a ≤ balance st' a.
Proof.
  intros Hc Hw Ht Hl Ha.
  assert (∀ a, balance st a ≤ MAX_SUPPLY_ATOMS) as Hmax.
  { intros a. pose proof (balance_le_supply st a Hw). pose proof (lw_supply _ Hw). lia. }
  split.
  - intros a. destruct (apply_outflow _ _ _ _ _ _ _ _ a Ht Ha) as [Hge|(out & Ho & Hok & Hge)].
    + by apply (locked_amount_grow _ _ (balance st a)).
    + apply outflow_leaves_locked in Hok as [Hp Hlk]; [|done|done|done].
      apply (locked_amount_grow _ _ (balance st a - out)); [|done]. revert Hlk. unfold locked_amount.
      rewrite bool_decide_eq_false_2 by done. done.
  - intros a Hp. destruct (apply_outflow _ _ _ _ _ _ _ _ a Ht Ha) as [Hge|(out & Ho & Hok & Hge)]; [done|].
    by apply outflow_leaves_locked in Hok as [Hp' _].
Qed.

(** A sequence of transactions, each applied at its block's time. *)
Record Step := mkStep {
  sp_time : Z; sp_tx : Transaction; sp_oracles : option ActivityOracleSet; sp_fee : option FixedFeeApplication }.

Definition applySteps (pool : Address) (ctx : AllocationLockContext) (steps : list Step) : meth LedgerState unit :=
  m_for (λ s, apply (sp_tx s) pool (Some (at_time ctx (sp_time s))) (sp_oracles s) (sp_fee s)) steps.

(** Block times never go back. *)
Fixpoint times_from (t : Z) (steps : list Step) : Prop :=
  match steps with
  | [] => True
  | s :: rest => t ≤ sp_time s ≤ MAX_SAFE_INTEGER ∧ times_from (sp_time s) rest
  end.

Lemma at_time_at_time (ctx : AllocationLockContext) (t t' : Z) : at_time (at_time ctx t) t' = at_time ctx t'.
Proof. done. Qed.

Lemma locks_held_later (ctx : AllocationLockContext) (st : LedgerState) (t : Z) :
  lock_context_wf ctx → lc_blockTimestampMs ctx ≤ t ≤ MAX_SAFE_INTEGER → locks_held ctx st → locks_held (at_time ctx t) st.
Proof. intros Hc Ht Hl a. pose proof (locked_amount_at_time ctx t a (balance st a) Hc Ht). specialize (Hl a). lia. Qed.

Lemma steps_keep_locks (pool : Address) (steps : list Step) (ctx : AllocationLockContext)
    (st st' : LedgerState) (t : Z) (u : unit) :
  lock_context_wf ctx → ledger_wf st → Forall (λ s, tx_wf (sp_tx s)) steps →
  times_from (lc_blockTimestampMs ctx) steps → locks_held ctx st →
  applySteps pool ctx steps st = (st', Ok u) →
  Forall (λ s, sp_time s ≤ t) steps → lc_blockTimestampMs ctx ≤ t ≤ MAX_SAFE_INTEGER →
  locks_held (at_time ctx t) st' ∧ ∀ a, lc_permanentLiquidity ctx = Some a → balance st a ≤ balance st' a.
Proof.
  intros Hc Hw Htx Htimes Hl Hr Hts Ht. revert ctx st Hc Hw Htimes Hl Hr Ht.
  induction steps as [|s steps IH]; intros ctx st Hc Hw Htimes Hl Hr Ht.
  - apply mret_Ok in Hr as [-> _]. split; [by apply locks_held_later|done].
  - apply Forall_cons in Htx as [Htx0 Htx]. apply Forall_cons in Hts as [Hts0 Hts]. destruct Htimes as [Ht0 Htimes].
    apply meth_bind_Ok in Hr as (st1 & [] & Ha & Hr).
    assert (lock_context_wf (at_time ctx (sp_time s))) as Hc1 by (apply at_time_wf; [done|pose proof (wf_block _ Hc); lia]).
    assert (ledger_wf st1) as Hw1.
    { destruct (apply_supply_wf _ _ _ _ _ _ _ _ Hw Htx0 Ha) as [? _]. done. }
    destruct (apply_locks_held _ _ _ _ _ _ _ _ Hc1 Hw Htx0 (locks_held_later _ _ _ Hc Ht0 Hl) Ha) as [Hl1 Hp1].
    destruct (IH Htx Hts (at_time ctx (sp_time s)) st1) as [IH1 IH2]; try done; [simpl; lia|].
    split; [done|]. intros a Hp. specialize (Hp1 a Hp). specialize (IH2 a Hp). lia.
Qed.

(** C33. Locked allocations stay locked for the life of the chain: from a well-formed
    ledger and lock context under which the locks hold, after any sequence of
    applied transactions that passed the shape gate, with non-decreasing block
    times, and at every later time, the founder and public-distribution accounts
    still hold what their schedule requires at that time, and the permanent-
    liquidity account never holds less than at the start. *)
Theorem locked_allocations_stay (pool : Address) (steps : list Step) (ctx : AllocationLockContext)
    (st st' : LedgerState) (t : Z) (u : unit) :
  lock_context_wf ctx → ledger_wf st → Forall (λ s, tx_wf (sp_tx s)) steps →
  times_from (lc_blockTimestampMs ctx) steps → locks_held ctx st →
  applySteps pool ctx steps st = (st', Ok u) →
  Forall (λ s, sp_time s ≤ t) steps → lc_blockTimestampMs ctx ≤ t ≤ MAX_SAFE_INTEGER →
  locks_held (at_time ctx t) st' ∧ ∀ a, lc_permanentLiquidity ctx = Some a → balance st a ≤ balance st' a.
Proof. apply steps_keep_locks. Qed.

End theorems.

(** ** A concrete ledger *)
Module LedgerExample.
Import TxShape.Example.

Definition pool : Address := "ZYNaaaaaaaaaaaaaaaaaaaaaaaaaaaaaaaaaaaaaaaa".
Definition producer : Address := "ZYNbbbbbbbbbbbbbbbbbbbbbbbbbbbbbbbbbbbbbbbb".
Definition tx : Transaction := Transfer transfer.
Definition fee : option FixedFeeApplication := Some (mkFixedFee producer 100).
(** A fee the transfer does not pay. *)
Definition wrong_fee : FixedFeeApplication := mkFixedFee producer 99.
Definition ledger : LedgerState := mkLedger {[tr_sender transfer := mkAccount 1000 0]} ∅.
Definition ledger' : LedgerState := after_transfer ledger transfer fee.
Definition oracles : ActivityOracleSet := mkOracleSet [] None None None (Some "fixed-supply-v1") None false [].
(** A founder lock on the sender: nothing of 300 atoms vested yet. *)
Definition ctx : AllocationLockContext := mkLockContext (Some (tr_sender transfer)) (Some pool) 300 0 0 None.

Lemma tx_ok : tx_wf (H := ToyCrypto.toy) tx.
Proof. split; [split; [right; reflexivity|]|]; repeat split; try (vm_compute; reflexivity); vm_compute; congruence. Qed.

Lemma ledger_ok : ledger_wf ledger.
Proof.
  split; [|vm_compute; congruence]. intros a acc Ha. unfold ledger in Ha; cbn [accounts] in Ha.
  apply lookup_singleton_Some in Ha as [_ <-]. done.
Qed.

Lemma ctx_ok : lock_context_wf ctx.
Proof. split; simpl; [vm_compute; split; congruence|done|done|discriminate]. Qed.

Lemma ctx_held : locks_held ctx ledger.
Proof.
  intros a. unfold locked_amount. case_bool_decide; [lia|]. case_bool_decide as Hf; [|apply (balance_nonneg _ _ ledger_ok)].
  cbn in Hf. injection Hf as <-. vm_compute. congruence.
Qed.
End LedgerExample.

Lemma apply_conserves_supply_witness :
  ledger_wf LedgerExample.ledger' ∧ supply LedgerExample.ledger' = supply LedgerExample.ledger - burned LedgerExample.fee LedgerExample.tx
  ∧ 0 ≤ burned LedgerExample.fee LedgerExample.tx ≤ 100.
Proof.
  apply (apply_conserves_supply (H := ToyCrypto.toy) LedgerExample.tx LedgerExample.pool None None LedgerExample.fee
    LedgerExample.ledger LedgerExample.ledger' ()); [apply LedgerExample.ledger_ok|apply LedgerExample.tx_ok|].
  vm_compute. reflexivity.
Defined.

Lemma apply_nonce_exact_witness :
  isOk (apply (H := ToyCrypto.toy) LedgerExample.tx LedgerExample.pool None None LedgerExample.fee LedgerExample.ledger').2 = false.
Proof.
  apply (apply_nonce_exact LedgerExample.tx LedgerExample.pool None None LedgerExample.fee LedgerExample.ledger LedgerExample.ledger' ());
    vm_compute; reflexivity.
Defined.

Lemma apply_atomic_witness :
  let '(st', r) := apply (H := ToyCrypto.toy) LedgerExample.tx LedgerExample.pool None None (Some LedgerExample.wrong_fee) LedgerExample.ledger in
  r = Throw FIXED_FEE_MISMATCH_MESSAGE ∧ st' ≠ LedgerExample.ledger ∧
  (st' = LedgerExample.ledger ∨ ∃ t, LedgerExample.tx = Transfer t ∧ ¬ fee_ok (Some LedgerExample.wrong_fee) (tr_feeAtoms t) LedgerExample.pool ∧
    st' = moved LedgerExample.ledger t).
Proof.
  split; [vm_compute; reflexivity|]. split; [vm_compute; discriminate|].
  eapply (apply_atomic (H := ToyCrypto.toy) LedgerExample.tx LedgerExample.pool None None (Some LedgerExample.wrong_fee) LedgerExample.ledger _ FIXED_FEE_MISMATCH_MESSAGE).
  - apply LedgerExample.ledger_ok.
  - apply LedgerExample.tx_ok.
  - vm_compute. reflexivity.
Defined.

Lemma activity_pool_outflow_only_witness :
  balance LedgerExample.ledger' LedgerExample.pool = balance LedgerExample.ledger LedgerExample.pool - payout LedgerExample.tx.
Proof.
  eapply (activity_pool_outflow_only (H := ToyCrypto.toy) LedgerExample.tx LedgerExample.pool None LedgerExample.oracles
    LedgerExample.fee LedgerExample.ledger LedgerExample.ledger' ()); [apply LedgerExample.tx_ok|reflexivity|].
  vm_compute. reflexivity.
Defined.

Lemma locked_allocations_stay_witness :
  locks_held (at_time LedgerExample.ctx 2000) LedgerExample.ledger'.
Proof.
  eapply (locked_allocations_stay (H := ToyCrypto.toy) LedgerExample.pool
    [mkStep 1000 LedgerExample.tx (Some LedgerExample.oracles) LedgerExample.fee]
    LedgerExample.ctx LedgerExample.ledger LedgerExample.ledger' 2000 ()).
  - apply LedgerExample.ctx_ok.
  - apply LedgerExample.ledger_ok.
  - constructor; [apply LedgerExample.tx_ok|constructor].
  - vm_compute. repeat split; congruence.
  - apply LedgerExample.ctx_held.
  - vm_compute. reflexivity.
  - repeat constructor. vm_compute. congruence.
  - vm_compute. split; congruence.
Defined.
