(* ===== verification/LedgerHistory.v ===== *)
(** Properties of the ledger over whole histories: the state built from genesis,
    the rolling 24-hour cap on activity payouts, and ledger snapshots
    (l1/src/state.ts, l1/src/activity.ts). *)

From S2P Require Import Prelude Types Codec Crypto Vesting Activity Transaction TxShape Oracle Ledger.

(** ** Genesis *)

(** What genesis allocates to [a]. *)
Definition allocated (l : list Allocation) (a : Address) : Z :=
  sumZ (λ al, if decide (al_address al = a) then al_amountAtoms al else 0) l.

Lemma emptyLedger_wf : ledger_wf emptyLedger.
Proof.
  split; [|by vm_compute]. intros a acc Hl. unfold emptyLedger in Hl; cbn [accounts] in Hl.
  by rewrite lookup_empty in Hl.
Qed.

Lemma genesis_fold (l : list Allocation) (st : LedgerState) (sup : Z) :
  res_fold genesis_credit (emptyLedger, 0) l = Ok (st, sup) →
  ledger_wf st ∧ supply st = sup ∧ sup = sumZ al_amountAtoms l ∧ settledActivityEpochs st = ∅ ∧
  (∀ a, nonceOf st a = 0) ∧ (∀ al, al ∈ l → 0 ≤ al_amountAtoms al) ∧ ∀ a, balance st a = allocated l a.
Proof.
  intros Hr. set (P := λ (pre : list Allocation) (acc : LedgerState * Z),
    ledger_wf acc.1 ∧ supply acc.1 = acc.2 ∧ acc.2 = sumZ al_amountAtoms pre ∧ settledActivityEpochs acc.1 = ∅ ∧
    (∀ a, nonceOf acc.1 a = 0) ∧ (∀ al, al ∈ pre → 0 ≤ al_amountAtoms al) ∧ ∀ a, balance acc.1 a = allocated pre a).
  apply (res_fold_inv P) in Hr; [exact Hr| |].
  - split; [apply emptyLedger_wf|]. repeat split; try done. set_solver.
  - intros pre al [s1 x1] [s2 x2] (Hw & Hs & Hsum & He & Hn & Hpos & Hb) _ Hstep. cbn [fst snd] in *. unfold genesis_credit in Hstep.
    apply res_bind_Ok in Hstep as (? & Hp%throw_if_Ok & Hstep). cbv zeta in Hstep.
    apply res_bind_Ok in Hstep as (? & Hm%throw_if_Ok & Hstep). breflect.
    destruct (credit (al_address al) (al_amountAtoms al) s1) as [s3 [u|m]] eqn:Ec; [|done].
    apply Ok_inj in Hstep as [= <- <-]. apply credit_Ok in Ec as ->. pose proof (balance_nonneg s1 (al_address al) Hw).
    split; [apply credited_wf; [done|lia|lia]|]. unfold P; cbn [fst snd].
    split; [rewrite supply_credited; lia|]. split; [rewrite sumZ_app; simpl; lia|]. split; [done|].
    split; [intros a; by rewrite nonce_credited|]. split.
    + intros al' [Hin|Hin]%elem_of_app; [by apply Hpos|]. apply list_elem_of_singleton in Hin as ->. lia.
    + intros a. rewrite balance_credited, Hb. unfold allocated. rewrite sumZ_app. simpl. lia.
Qed.

Lemma genesis_keys (l : list Allocation) (st : LedgerState) (sup : Z) :
  res_fold genesis_credit (emptyLedger, 0) l = Ok (st, sup) → ∀ a, is_Some (accounts st !! a) → a ∈ al_address <$> l.
Proof.
  intros Hr. set (P := λ (pre : list Allocation) (acc : LedgerState * Z), ∀ a, is_Some (accounts acc.1 !! a) → a ∈ al_address <$> pre).
  apply (res_fold_inv P) in Hr; [exact Hr| |].
  - intros a [x Hx]. cbn in Hx. by rewrite lookup_empty in Hx.
  - intros pre al [s1 x1] [s2 x2] IH _ Hstep a Ha. cbn [fst] in *. unfold genesis_credit in Hstep.
    apply res_bind_Ok in Hstep as (? & _ & Hstep). cbv zeta in Hstep. apply res_bind_Ok in Hstep as (? & _ & Hstep).
    destruct (credit (al_address al) (al_amountAtoms al) s1) as [s3 [u|m]] eqn:Ec; [|done].
    apply Ok_inj in Hstep as [= <- <-]. apply credit_Ok in Ec as ->. rewrite fmap_app. apply elem_of_app.
    destruct (decide (al_address al = a)) as [<-|Hne]; [right; by left|left]. apply IH.
    unfold credited, setAccount in Ha. cbn [accounts] in Ha. by rewrite lookup_insert_ne in Ha.
Qed.

Lemma fromGenesis_facts (g : GenesisConfig) (st : LedgerState) :
  fromGenesis g = Ok st →
  ledger_wf st ∧ supply st = sumZ al_amountAtoms (g_allocations g) ∧ settledActivityEpochs st = ∅ ∧
  (∀ a, nonceOf st a = 0) ∧ (∀ a, balance st a = allocated (g_allocations g) a) ∧ ∀ a, is_Some (accounts st !! a) → a ∈ al_address <$> g_allocations g.
Proof.
  unfold fromGenesis. intros Hr. apply res_bind_Ok in Hr as ([st1 sup] & Hr & <-%Ok_inj). pose proof (genesis_keys _ _ _ Hr).
  apply genesis_fold in Hr as (Hw & Hs & Hsum & He & Hn & _ & Hb). cbn [fst] in *. split_and!; try done. congruence.
Qed.

(** A ledger built from genesis is well formed, every account holds exactly what
    genesis allocates to it and has nonce 0, and the supply is the sum of the
    allocations and within the maximum. *)
Theorem fromGenesis_spec (g : GenesisConfig) (st : LedgerState) :
  fromGenesis g = Ok st →
  ledger_wf st ∧ supply st = sumZ al_amountAtoms (g_allocations g) ∧ supply st ≤ MAX_SUPPLY_ATOMS ∧
  (∀ a, balance st a = allocated (g_allocations g) a ∧ nonceOf st a = 0) ∧ settledActivityEpochs st = ∅.
Proof.
  intros (Hw & Hs & He & Hn & Hb & _)%fromGenesis_facts. split_and!; try done. apply Hw.
Qed.

(** ** The rolling 24-hour cap *)

Record Settlement := mkSettled { sd_epoch : Z; sd_time : Z; sd_amount : Z }.

Definition settlement_of (s : Step) : option Settlement :=
  match sp_tx s with
  | ActivitySettlement t => Some (mkSettled (as_epoch t) (sp_time s) (sumZ e_amountAtoms (as_entries t)))
  | _ => None
  end.

(** The settlements of a history, in order. *)
Definition settlements (steps : list Step) : list Settlement := omap settlement_of steps.

(** What the settlements inside [w, w + 24 h) paid. *)
Definition paid_in_window (w : Z) (l : list Settlement) : Z :=
  sumZ (λ s, if (w <=? sd_time s) && (sd_time s <? w + ACTIVITY_ROLLING_WINDOW_MS) then sd_amount s else 0) l.

Section window.
Context (genesis cap : Z).

(** A settlement in its epoch's window, within the cap. *)
Definition settled_ok (s : Settlement) : Prop :=
  genesis + (sd_epoch s + 1) * ACTIVITY_EPOCH_MS ≤ sd_time s < genesis + (sd_epoch s + 2) * ACTIVITY_EPOCH_MS ∧
  0 ≤ sd_amount s ≤ cap.

(** Two consecutive settlements. *)
Definition follows (p s : Settlement) : Prop :=
  sd_epoch p < sd_epoch s ∧ (sd_time s - sd_time p < ACTIVITY_ROLLING_WINDOW_MS → sd_amount p + sd_amount s ≤ cap).

Fixpoint linked (prev : option Settlement) (l : list Settlement) : Prop :=
  match l with
  | [] => True
  | s :: l' => settled_ok s ∧ from_option (λ p, follows p s) True prev ∧ linked (Some s) l'
  end.

Lemma linked_later (p : Settlement) (l : list Settlement) :
  linked (Some p) l → ∀ s, s ∈ l → sd_epoch p < sd_epoch s ∧ settled_ok s.
Proof.
  revert p. induction l as [|x l IH]; intros p Hl s Hs; [set_solver|]. destruct Hl as (Hx & [Hlt _] & Hl).
  apply elem_of_cons in Hs as [->|Hs]; [done|]. destruct (IH x Hl s Hs). split; [lia|done].
Qed.

Lemma paid_in_window_none (w : Z) (l : list Settlement) :
  (∀ s, s ∈ l → w + ACTIVITY_ROLLING_WINDOW_MS ≤ sd_time s) → paid_in_window w l = 0.
Proof.
  unfold paid_in_window. induction l as [|s l IH]; intros Hs; simpl; [done|]. rewrite IH by set_solver.
  specialize (Hs s ltac:(set_solver)). destruct (Z.ltb_spec (sd_time s) (w + ACTIVITY_ROLLING_WINDOW_MS)); [lia|].
  by rewrite andb_false_r.
Qed.

Lemma linked_window (prev : option Settlement) (l : list Settlement) (w : Z) :
  0 ≤ cap → linked prev l → paid_in_window w l ≤ cap.
Proof.
  intros Hcap. revert prev. induction l as [|x l IH]; intros prev Hl; [done|].
  destruct Hl as (Hx & _ & Hl). unfold paid_in_window in *. cbn [sumZ foldr].
  fold (sumZ (λ s, if (w <=? sd_time s) && (sd_time s <? w + ACTIVITY_ROLLING_WINDOW_MS) then sd_amount s else 0) l).
  destruct ((w <=? sd_time x) && (sd_time x <? w + ACTIVITY_ROLLING_WINDOW_MS)) eqn:Ein; [|specialize (IH _ Hl); lia].
  breflect. destruct l as [|y l]; [simpl; destruct Hx; lia|]. destruct Hl as (Hy & [Hxy Hsum] & Hl).
  cbn [sumZ foldr]. fold (paid_in_window w l). pose proof (linked_later y l Hl) as Hlater.
  assert (paid_in_window w l = 0) as Hzero.
  { apply paid_in_window_none. intros s Hs. destruct (Hlater s Hs) as [He [Hst _]]. destruct Hx as [Hxt _].
    unfold ACTIVITY_EPOCH_MS, ACTIVITY_ROLLING_WINDOW_MS in *. nia. }
  unfold paid_in_window in Hzero. unfold sumZ in Hzero. rewrite Hzero. destruct Hx as [Hxt Hxa], Hy as [Hyt Hya].
  case_if; [|lia]. breflect. specialize (Hsum ltac:(lia)). lia.
Qed.

Context `{Crypto} (pool : Address) (ctx : AllocationLockContext).

(** A step of a launch-profile chain: the profile and the cap are those of the
    genesis, the settlement of an epoch happens in the epoch's window (checked
    by the chain), and the two record accounts, whose addresses are not hashes
    of any known key, send nothing. *)
Definition launch_step (s : Step) : Prop :=
  (∃ o, sp_oracles s = Some o ∧ os_launchProfile o = Some ACTIVITY_ROLLING_WINDOW_PROFILE ∧
        activitySettlementCapAtoms (Some o) = cap) ∧
  isActivityWindowAddress (tx_sender (sp_tx s)) = false ∧
  (∀ t, sp_tx s = ActivitySettlement t → assertActivityEpochWindow (as_epoch t) genesis (sp_time s) = Ok ()).

(** The state remembers the last settlement. *)
Definition remembers (st : LedgerState) (p : Settlement) : Prop :=
  nonceOf st ACTIVITY_WINDOW_TIME_ADDRESS = sd_time p ∧ nonceOf st ACTIVITY_WINDOW_AMOUNT_ADDRESS = sd_amount p ∧
  sd_epoch p ∈ settledActivityEpochs st ∧ settled_ok p.

Lemma other_step_remembers (s : Step) (st st' : LedgerState) (p : Settlement) (u : unit) (locks : option AllocationLockContext) :
  launch_step s → settlement_of s = None →
  apply (sp_tx s) pool locks (sp_oracles s) (sp_fee s) st = (st', Ok u) → remembers st p → remembers st' p.
Proof.
  intros (_ & Hsend & _) Hno Ha (H1 & H2 & H3 & H4). unfold isActivityWindowAddress in Hsend.
  apply orb_false_iff in Hsend as [Hs1%String.eqb_neq Hs2%String.eqb_neq]. unfold settlement_of in Hno.
  destruct (sp_tx s) as [t|t|t|t|t|t]; simpl in Hs1, Hs2.
  - apply apply_Transfer_Ok in Ha as (_ & _ & Ha). apply applyTransfer_Ok in Ha as (-> & _).
    unfold remembers. rewrite epochs_after_transfer. unfold after_transfer.
    rewrite !nonce_with_nonce, !nonce_producer_paid, !nonce_credited, !decide_False by done. done.
  - done.
  - discriminate.
  - apply applyNonceOnly_Ok in Ha as (-> & _). unfold remembers. by rewrite !nonce_with_nonce, !decide_False by done.
  - apply applyNonceOnly_Ok in Ha as (-> & _). unfold remembers. by rewrite !nonce_with_nonce, !decide_False by done.
  - apply applyNonceOnly_Ok in Ha as (-> & _). unfold remembers. by rewrite !nonce_with_nonce, !decide_False by done.
Qed.

Lemma settlement_step (s : Step) (st st' : LedgerState) (x : Settlement) (u : unit) :
  0 ≤ cap → launch_step s → settlement_of s = Some x →
  apply (sp_tx s) pool (Some (at_time ctx (sp_time s))) (sp_oracles s) (sp_fee s) st = (st', Ok u) →
  remembers st' x ∧ ∀ p, remembers st p → follows p x.
Proof.
  intros Hcap ((o & Ho & Hprof & Hc) & _ & Hwin) Hx Ha. unfold settlement_of in Hx.
  destruct (sp_tx s) as [t|t|t|t|t|t]; simplify_eq. rewrite Ho in Ha.
  assert (activityRollingWindowEnforced (Some o) = true) as Hroll by (by apply bool_decide_eq_true).
  apply apply_Settlement_Ok in Ha as [_ Ha]. rewrite Hroll, Hc in Ha.
  apply applyActivity_Ok in Ha as (-> & _ & He & Hep & _ & Hle & _ & _ & Hrw).
  specialize (Hrw eq_refl). specialize (Hwin t eq_refl). apply epoch_window_spec in Hwin as [Hwin _].
  assert (0 ≤ sumZ e_amountAtoms (as_entries t)) by (apply sumZ_nonneg; intros e Hin; by apply He).
  assert (settled_ok (mkSettled (as_epoch t) (sp_time s) (sumZ e_amountAtoms (as_entries t)))) as Hok.
  { split; [exact Hwin|]. simpl. lia. }
  split.
  - split; [|split; [|split; [|done]]]; unfold after_settlement, window_time; cbn [from_option].
    + rewrite nonce_with_nonce, decide_False by done. rewrite nonce_with_nonce, decide_True by done. done.
    + rewrite nonce_with_nonce, decide_True by done. done.
    + simpl. set_solver.
  - intros p (H1 & H2 & H3 & [Hpt Hpa]).
    unfold assertActivityRollingWindow in Hrw. apply res_bind_Ok in Hrw as (? & _ & Hrw).
    cbn [fmap option_fmap option_map lc_blockTimestampMs at_time] in Hrw.
    apply res_bind_Ok in Hrw as (? & _ & Hrw). apply res_bind_Ok in Hrw as (? & Hcor%throw_if_Ok & Hrw).
    apply res_bind_Ok in Hrw as (? & _ & Hroll2%throw_if_Ok). cbn [wr_timestampMs wr_amountAtoms] in *.
    rewrite H1, H2 in *. breflect. split; cbn [sd_epoch sd_time sd_amount].
    + assert (sd_epoch p ≠ as_epoch t) by (intros E; rewrite E in H3; done).
      assert (sd_time p ≤ sp_time s) by lia. unfold ACTIVITY_EPOCH_MS in *. nia.
    + intros Hlt. destruct Hroll2 as [?|?]; lia.
Qed.

Lemma run_linked (steps : list Step) (st st' : LedgerState) (prev : option Settlement) (u : unit) :
  0 ≤ cap → Forall launch_step steps → from_option (remembers st) True prev →
  applySteps pool ctx steps st = (st', Ok u) → linked prev (settlements steps).
Proof.
  intros Hcap Hl. revert st prev. induction Hl as [|s steps Hs Hl IH]; intros st prev Hprev Hr; [done|].
  apply meth_bind_Ok in Hr as (st1 & [] & Ha & Hr). unfold settlements. simpl.
  destruct (settlement_of s) as [x|] eqn:Ex.
  - destruct (settlement_step s st st1 x () Hcap Hs Ex Ha) as [Hrem Hfol].
    split; [apply Hrem|]. split; [destruct prev; [by apply Hfol|done]|]. by apply (IH st1 (Some x)).
  - apply (IH st1 prev); [|done]. destruct prev; [|done]. by eapply other_step_remembers.
Qed.

End window.

(** On a launch-profile chain the activity pool pays at most the cap in any 24
    hours: in any history of applied transactions, the settlements whose block
    times lie in any window of 24 hours sum to at most the cap. *)
Theorem rolling_window_cap `{Crypto} (genesis cap w : Z) (pool : Address) (ctx : AllocationLockContext)
    (steps : list Step) (st st' : LedgerState) (u : unit) :
  0 ≤ cap → Forall (launch_step genesis cap) steps → applySteps pool ctx steps st = (st', Ok u) →
  paid_in_window w (settlements steps) ≤ cap.
Proof. intros Hcap Hl Hr. eapply linked_window; [done|]. by eapply (run_linked genesis cap pool ctx steps st st' None). Qed.

(** ** Snapshots *)

(** A ledger whose contents a snapshot can carry: canonical addresses, safe
    nonces and epochs. *)
Record snapshot_wf (st : LedgerState) : Prop := {
  sw_ledger : ledger_wf st;
  sw_accounts : ∀ a acc, accounts st !! a = Some acc → isAddress a = true ∧ nonce acc ≤ MAX_SAFE_INTEGER;
  sw_epochs : ∀ e, e ∈ settledActivityEpochs st → 0 ≤ e ≤ MAX_SAFE_INTEGER }.

Definition account_json (kv : Address * AccountState) : jsval string :=
  JObj [("address", JStr kv.1); ("balanceAtoms", jint (balanceAtoms kv.2)); ("nonce", jint (nonce kv.2))].

(** The loop's order check along a list. *)
Fixpoint canonical_from (prev : string) (l : list (Address * AccountState)) : Prop :=
  match l with [] => True | kv :: l' => text_leb kv.1 prev = false ∧ canonical_from kv.1 l' end.

Lemma snapshot_account_run (m : gmap Address AccountState) (sup : Z) (prev : string) (kv : Address * AccountState) :
  isAddress kv.1 = true → text_leb kv.1 prev = false → 0 ≤ balanceAtoms kv.2 → 0 ≤ nonce kv.2 ≤ MAX_SAFE_INTEGER →
  0 ≤ sup → sup + balanceAtoms kv.2 ≤ MAX_SUPPLY_ATOMS →
  snapshot_account (m, sup, prev) (account_json kv) = Ok (<[kv.1 := kv.2]> m, sup + balanceAtoms kv.2, kv.1).
Proof.
  destruct kv as [a [b n]]; simpl fst; simpl snd. intros Ha Hc Hb Hn Hs Hm. simpl in Hb, Hn, Hm.
  assert (isSafeInteger b = true ∧ isSafeInteger n = true ∧ isSafeInteger (sup + b) = true) as (Hb' & Hn' & Hs').
  { rewrite !isSafeInteger_spec. unfold MAX_SAFE_INTEGER, MAX_SUPPLY_ATOMS, ATOMS_PER_ZYN in *. lia. }
  unfold snapshot_account, account_json. apply res_bind_Ok. eexists. split; [reflexivity|].
  apply res_bind_Ok. exists (). split; [reflexivity|]. apply res_bind_Ok. exists a. split; [reflexivity|].
  apply res_bind_Ok. exists (). split; [unfold assertAddress; by rewrite Ha|].
  apply res_bind_Ok. exists (). split; [by rewrite Hc|].
  apply res_bind_Ok. exists b. split; [apply safe_int_Ok; split; [done|split; [done|lia]]|].
  apply res_bind_Ok. exists n. split; [apply safe_int_Ok; split; [done|split; [done|lia]]|].
  cbv zeta. rewrite Hs'. destruct (Z.ltb_spec MAX_SUPPLY_ATOMS (sup + b)); [lia|]. done.
Qed.

Lemma snapshot_accounts_run (l : list (Address * AccountState)) (m : gmap Address AccountState) (sup : Z) (prev : string) :
  (∀ kv, kv ∈ l → isAddress kv.1 = true ∧ 0 ≤ balanceAtoms kv.2 ∧ 0 ≤ nonce kv.2 ≤ MAX_SAFE_INTEGER) →
  canonical_from prev l → 0 ≤ sup → sup + sumZ (λ kv, balanceAtoms kv.2) l ≤ MAX_SUPPLY_ATOMS →
  ∃ last, res_fold snapshot_account (m, sup, prev) (map account_json l) =
    Ok (foldl (λ m kv, <[kv.1 := kv.2]> m) m l, sup + sumZ (λ kv, balanceAtoms kv.2) l, last).
Proof.
  revert m sup prev. induction l as [|kv l IH]; intros m sup prev Hl Hc Hs Hm.
  - exists prev. simpl. by rewrite Z.add_0_r.
  - destruct (Hl kv ltac:(set_solver)) as (Ha & Hb & Hn). destruct Hc as [Hc0 Hc].
    assert (0 ≤ sumZ (λ kv, balanceAtoms kv.2) l) by (apply sumZ_nonneg; intros x Hx; apply Hl; set_solver).
    simpl in Hm. cbn [map res_fold]. rewrite snapshot_account_run by (done || lia). cbn [mbind res_bind].
    destruct (IH (<[kv.1:=kv.2]> m) (sup + balanceAtoms kv.2) kv.1) as [last ->]; [set_solver|done|lia|lia|].
    exists last. simpl. do 3 f_equal. lia.
Qed.

Lemma text_leb_antisym (a b : string) : text_leb a b = true → text_leb b a = true → a = b.
Proof. unfold text_leb. intros H1 H2. by apply lit_inj, units_le_antisym. Qed.

Lemma text_le_leb (a b : string) : text_le a b = text_leb a b.
Proof. apply (key_le_units (lit a, ()) (lit b, ())). Qed.

Lemma sorted_canonical (l : list (Address * AccountState)) (prev : string) :
  StronglySorted (λ x y, text_le x.1 y.1 = true) l → NoDup l.*1 → (∀ kv, kv ∈ l → text_leb kv.1 prev = false) →
  canonical_from prev l.
Proof.
  intros Hs. revert prev. induction Hs as [|kv l Hs IH Hall]; intros prev Hnd Hp; [done|].
  csimpl in Hnd. apply NoDup_cons in Hnd as [Hni Hnd]. split; [apply Hp; set_solver|].
  apply IH; [done|]. intros kv' Hin. destruct (text_leb kv'.1 kv.1) eqn:E; [|done].
  exfalso. rewrite Forall_forall in Hall. specialize (Hall _ Hin). rewrite text_le_leb in Hall.
  apply Hni. rewrite (text_leb_antisym _ _ Hall E). by apply list_elem_of_fmap_2.
Qed.

Lemma foldl_insert_map (l : list (Address * AccountState)) (m : gmap Address AccountState) :
  NoDup l.*1 → foldl (λ m kv, <[kv.1 := kv.2]> m) m l = list_to_map l ∪ m.
Proof.
  revert m. induction l as [|[k v] l IH]; intros m Hnd; simpl; [by rewrite map_empty_union|].
  csimpl in Hnd. apply NoDup_cons in Hnd as [Hni Hnd]. rewrite IH by done.
  rewrite <-insert_union_l, insert_union_r; [done|]. by apply not_elem_of_list_to_map_1.
Qed.

Lemma text_le_total (x y : Address * AccountState) : text_le x.1 y.1 = false → text_le y.1 x.1 = true.
Proof. rewrite !text_le_leb. apply units_le_total. Qed.
Lemma text_le_trans (x y z : Address * AccountState) : text_le x.1 y.1 = true → text_le y.1 z.1 = true → text_le x.1 z.1 = true.
Proof. rewrite !text_le_leb. apply units_le_trans. Qed.

(** The sorted epochs, read back. *)
Fixpoint increasing_from (prev : Z) (l : list Z) : Prop :=
  match l with [] => True | e :: l' => prev < e ∧ increasing_from e l' end.

Lemma snapshot_epochs_run (l : list Z) (s : gset Z) (prev : Z) :
  (∀ e, e ∈ l → 0 ≤ e ≤ MAX_SAFE_INTEGER) → increasing_from prev l →
  ∃ last, res_fold snapshot_epoch (s, prev) (map jint l) = Ok (list_to_set l ∪ s, last).
Proof.
  revert s prev. induction l as [|e l IH]; intros s prev Hl Hi; [exists prev; simpl; by rewrite union_empty_l_L|].
  destruct Hi as [He Hi]. pose proof (Hl e ltac:(set_solver)) as Hb. cbn [map res_fold].
  assert (snapshot_epoch (s, prev) (jint e) = Ok ({[e]} ∪ s, e)) as ->.
  { unfold snapshot_epoch. apply res_bind_Ok. exists e. split; [|done]. apply safe_int_Ok. split; [done|].
    split; [apply isSafeInteger_spec; lia|lia]. }
  cbn [mbind res_bind]. destruct (IH ({[e]} ∪ s) e) as [last ->]; [set_solver|done|]. exists last. simpl. do 2 f_equal. set_solver.
Qed.

Lemma sorted_increasing (l : list Z) (prev : Z) :
  StronglySorted (λ a b, (a <=? b) = true) l → NoDup l → (∀ e, e ∈ l → prev < e) → increasing_from prev l.
Proof.
  intros Hs. revert prev. induction Hs as [|e l Hs IH Hall]; intros prev Hnd Hp; [done|].
  apply NoDup_cons in Hnd as [Hni Hnd]. split; [apply Hp; set_solver|]. apply IH; [done|].
  intros e' Hin. rewrite Forall_forall in Hall. specialize (Hall _ Hin). simpl in Hall.
  assert (e ≠ e') by (intros ->; done). lia.
Qed.

Lemma isAddress_nonempty (a : string) : isAddress a = true → text_leb a "" = false.
Proof. destruct a as [|c a]; done. Qed.

(** A ledger can be rebuilt from its snapshot: reading back the value that
    [snapshot] writes gives the same balances, nonces and settled epochs.  In
    particular two ledgers with the same snapshot are the same. *)
Theorem snapshot_roundtrip (st : LedgerState) :
  snapshot_wf st → fromSnapshot (snapshot_json (snapshot st)) = Ok st.
Proof.
  intros [Hw Ha He]. destruct st as [m ep]. unfold fromSnapshot, snapshot_json, snapshot; cbn [accounts settledActivityEpochs sn_accounts sn_settledActivityEpochs] in *.
  set (L := js_sort _ (map_to_list m)).
  assert (L ≡ₚ map_to_list m) as HL by apply js_sort_perm.
  assert (NoDup L.*1) as Hnd by (rewrite HL; apply NoDup_fst_map_to_list).
  assert (∀ kv, kv ∈ L → isAddress kv.1 = true ∧ 0 ≤ balanceAtoms kv.2 ∧ 0 ≤ nonce kv.2 ≤ MAX_SAFE_INTEGER) as Hkv.
  { intros [a acc] Hin. rewrite HL in Hin. apply elem_of_map_to_list in Hin. destruct (Ha a acc Hin) as [Ha1 Ha2].
    destruct (lw_accounts _ Hw a acc Hin). done. }
  assert (StronglySorted (λ x y, text_le x.1 y.1 = true) L) as Hs
    by (apply (js_sort_sorted (λ x y : Address * AccountState, text_le x.1 y.1)); [apply text_le_total|apply text_le_trans]).
  assert (canonical_from "" L) as Hc.
  { apply sorted_canonical; [done|done|]. intros kv Hin. by apply isAddress_nonempty, Hkv. }
  assert (sumZ (λ kv, balanceAtoms kv.2) L = supply (mkLedger m ep)) as Hsum by (rewrite HL; done).
  destruct (snapshot_accounts_run L ∅ 0 "" Hkv Hc ltac:(done)) as [last Hacc].
  { rewrite Hsum. apply (lw_supply _ Hw). }
  set (E := js_sort Z.leb (elements ep)). assert (E ≡ₚ elements ep) as HE by apply js_sort_perm.
  destruct (snapshot_epochs_run E ∅ (-1)) as [last2 Hep].
  { intros e Hin. rewrite HE in Hin. by apply He, elem_of_elements. }
  { apply sorted_increasing.
    - apply (js_sort_sorted Z.leb); intros; lia.
    - rewrite HE. apply NoDup_elements.
    - intros e Hin. rewrite HE in Hin. apply elem_of_elements, He in Hin. lia. }
  assert (map (λ a, JObj [("address", JStr (ar_address a)); ("balanceAtoms", jint (ar_balanceAtoms a)); ("nonce", jint (ar_nonce a))])
    ((λ kv : Address * AccountState, mkAccountRecord kv.1 (balanceAtoms kv.2) (nonce kv.2)) <$> L) = map account_json L) as Hmap.
  { clearbody L. clear. induction L as [|kv L IH]; [done|]. csimpl. by rewrite IH. }
  rewrite Hmap. apply res_bind_Ok. eexists. split; [reflexivity|]. apply res_bind_Ok. exists (). split; [reflexivity|].
  apply res_bind_Ok. eexists. split; [reflexivity|]. apply res_bind_Ok. eexists. split; [reflexivity|].
  rewrite Hacc. cbn [mbind res_bind]. rewrite Hep. cbn [mbind res_bind fst]. do 2 f_equal.
  - rewrite foldl_insert_map, map_union_empty by done.
    rewrite <-(list_to_map_to_list m). by apply list_to_map_proper.
  - rewrite union_empty_r_L. apply set_eq. intros e. rewrite elem_of_list_to_set, HE. apply elem_of_elements.
Qed.

(** ** Concrete histories *)

Lemma fromGenesis_spec_witness :
  let al := [mkAllocation "ZYNaaaaaaaaaaaaaaaaaaaaaaaaaaaaaaaaaaaaaaaa" 500; mkAllocation "ZYNaaaaaaaaaaaaaaaaaaaaaaaaaaaaaaaaaaaaaaaa" 7] in
  ∃ st, fromGenesis (mkGenesis "t" 0 [] [] "" al None None None None None None None None None) = Ok st ∧ supply st = 507.
Proof.
  intros al. destruct (fromGenesis _) as [st|] eqn:E; [|by vm_compute in E].
  exists st. split; [reflexivity|]. destruct (fromGenesis_spec _ _ E) as (_ & Hs & _). rewrite Hs. reflexivity.
Defined.

Lemma snapshot_roundtrip_witness :
  fromSnapshot (snapshot_json (snapshot (mkLedger {[MINING_TRACKER_ADDRESS := mkAccount 5 2]} {[3; 1; 2]})))
  = Ok (mkLedger {[MINING_TRACKER_ADDRESS := mkAccount 5 2]} {[3; 1; 2]}).
Proof.
  apply snapshot_roundtrip. split.
  - split; [|vm_compute; congruence]. intros a acc Ha. cbn [accounts] in Ha.
    apply lookup_singleton_Some in Ha as [_ <-]. done.
  - intros a acc Ha. cbn [accounts] in Ha. apply lookup_singleton_Some in Ha as [<- <-]. vm_compute. split; congruence.
  - intros e He. cbn [settledActivityEpochs] in He. unfold MAX_SAFE_INTEGER. set_solver by lia.
Defined.

(** A settlement of 700 atoms for epoch 0, by two of three oracles, in its
    window. *)
Module HistoryExample.
Import OracleExample.
Definition ctx : AllocationLockContext := mkLockContext None None 0 1700000000000 expires None.
Definition step : Step := mkStep expires (ActivitySettlement settlement) (Some oracles) None.
Definition ledger : LedgerState := mkLedger {[pool := mkAccount 5000 0]} ∅.
End HistoryExample.

Lemma rolling_window_cap_witness :
  paid_in_window (OracleExample.expires - 10) (settlements [HistoryExample.step]) ≤ PUBLIC_LAUNCH_ACTIVITY_CAP_ATOMS.
Proof.
  eapply (rolling_window_cap (H := ToyCrypto.toy) 1700000000000 PUBLIC_LAUNCH_ACTIVITY_CAP_ATOMS (OracleExample.expires - 10)
    OracleExample.pool HistoryExample.ctx [HistoryExample.step] HistoryExample.ledger _ ()).
  - vm_compute. congruence.
  - constructor; [|constructor]. split; [|split].
    + exists OracleExample.oracles. repeat split; reflexivity.
    + vm_compute. reflexivity.
    + intros t [= <-]. vm_compute. reflexivity.
  - vm_compute. reflexivity.
Defined.
