(* ===== verification/SparseTree.v ===== *)
(** The authenticated key/value tree of protocol v2 and later
    (l1/src/state-v2.ts, lines 24-340 and 923-1134): an immutable sparse Merkle
    tree of depth 256 whose one-key subtrees are kept as a single leaf, with
    nodes in memory or behind a resolver of stored records.

    A link that is [undefined] is [Undef]. *)

From S2P Require Import Prelude Types Codec JsonText Crypto.

Definition TREE_DEPTH : nat := 256.
Definition KEY_DOMAIN : list Z := lit "ZyronChain/state-v2/key" ++ [0].
Definition VALUE_DOMAIN : list Z := lit "ZyronChain/state-v2/value" ++ [0].
Definition LEAF_DOMAIN : list Z := lit "ZyronChain/state-v2/leaf" ++ [0].
Definition EMPTY_LEAF_DOMAIN : list Z := lit "ZyronChain/state-v2/empty-leaf" ++ [0].
Definition BRANCH_DOMAIN : list Z := lit "ZyronChain/state-v2/branch" ++ [0].

Inductive NodeLink :=
| Undef
| LeafNode (hash keyHash valueHash : string) (valueJson : units)
| BranchNode (hash : string) (left right : NodeLink)
| NodeRef (hash : string).

Inductive StateV2NodeRecord :=
| LeafRecord (hash keyHash valueHash : string) (valueJson : units)
| BranchRecord (hash : string) (leftHash rightHash : option string).

Abbreviation StateV2NodeResolver := (string → option StateV2NodeRecord) (only parsing).

#[global] Instance NodeLink_eq_dec : EqDecision NodeLink.
Proof. solve_decision. Defined.

(** [pendingRecordHead] is the list of chunks, newest first. *)
Record SparseMerkleState := mkSparse {
  rootNode : NodeLink;
  pendingRecords : list (list StateV2NodeRecord);
  nodeResolver : option StateV2NodeResolver }.

Record SparseMerkleProof := mkSparseProof {
  sp_version : Z; sp_keyHash : string; sp_valueHash : option string; sp_siblings : list string }.

Definition recordHash (r : StateV2NodeRecord) : string :=
  match r with LeafRecord h _ _ _ => h | BranchRecord h _ _ => h end.

Definition linkHash (link : NodeLink) : option string :=
  match link with
  | Undef => None
  | LeafNode h _ _ _ => Some h
  | BranchNode h _ _ => Some h
  | NodeRef h => Some h
  end.

(** Bit [depth] of a key, most significant first. *)
Definition bitAt (bytes : list Z) (depth : nat) : Z :=
  let byte := default 0 (bytes !! Nat.div depth 8) in
  Z.land (Z.shiftr byte (7 - Z.of_nat (Nat.modulo depth 8))) 1.

Section tree.
Context `{Crypto}.

Definition hashWithDomain (domain : list Z) (parts : list (list Z)) : string := sha256 (domain ++ concat parts).
Definition leafHash (keyHash valueHash : string) : string :=
  hashWithDomain LEAF_DOMAIN [hexBytes keyHash; hexBytes valueHash].
Definition branchHash (left right : string) : string := hashWithDomain BRANCH_DOMAIN [hexBytes left; hexBytes right].

(** [EMPTY_HASHES[TREE_DEPTH - n]]: the hash of an empty subtree of height [n]. *)
Fixpoint emptyHash (n : nat) : string :=
  match n with
  | O => hashWithDomain EMPTY_LEAF_DOMAIN []
  | S n' => let h := emptyHash n' in branchHash h h
  end.
Definition EMPTY_HASHES (depth : nat) : string := emptyHash (TREE_DEPTH - depth).

Definition keyHashOf (key : string) : string := hashWithDomain KEY_DOMAIN [utf8 (lit key)].
Definition stateV2KeyHash (key : string) : res string :=
  throw_if (Nat.ltb (String.length key) 1 || Nat.ltb 256 (String.length key)) "Invalid State v2 key";;
  Ok (keyHashOf key).

(** [hashWithDomain(VALUE_DOMAIN, Buffer.from(valueJson, "utf8"))] *)
Definition valueHashOf (valueJson : units) : string := hashWithDomain VALUE_DOMAIN [utf8 valueJson].

(** [canonicalJson(value)] as an argument of [Buffer.from], which throws on [undefined]. *)
Definition valueText (value : jsval units) : res units :=
  text ← canonicalJson value;
  unwrap text "The first argument must be of type string or an instance of Buffer".

(** The loop of [leafNodeAtDepth] for the cursors [depth .. TREE_DEPTH - 1],
    where [n] is their number. *)
Fixpoint leaf_climb (keyBytes : list Z) (hash : string) (n depth : nat) : string :=
  match n with
  | O => hash
  | S n' =>
    let below := leaf_climb keyBytes hash n' (S depth) in
    if bitAt keyBytes depth =? 0 then branchHash below (EMPTY_HASHES (S depth)) else branchHash (EMPTY_HASHES (S depth)) below
  end.
Definition leafNodeAtDepth (keyHash valueHash : string) (valueJson : units) (depth : nat) : NodeLink :=
  LeafNode (leaf_climb (hexBytes keyHash) (leafHash keyHash valueHash) (TREE_DEPTH - depth) depth) keyHash valueHash valueJson.

Definition branchNode (left right : NodeLink) (depth : nat) : NodeLink :=
  BranchNode (branchHash (default (EMPTY_HASHES (S depth)) (linkHash left)) (default (EMPTY_HASHES (S depth)) (linkHash right)))
    left right.

(** The record pushed for a created node. *)
Definition recordCreated (node : NodeLink) : list StateV2NodeRecord :=
  match node with
  | LeafNode h k v x => [LeafRecord h k v x]
  | BranchNode h l r => [BranchRecord h (linkHash l) (linkHash r)]
  | _ => []
  end.

Definition nodeFromRecord (record : StateV2NodeRecord) (depth : nat) : res NodeLink :=
  node ← match record with
         | LeafRecord _ keyHash valueHash valueJson =>
           throw_if (negb (isLowerHexOf 64 keyHash) || negb (isLowerHexOf 64 valueHash)) "Invalid State v2 leaf record";;
           parsed ← JSON_parse valueJson;
           text ← canonicalJson parsed;
           throw_if (negb (bool_decide (text = Some valueJson)) || negb (String.eqb (valueHashOf valueJson) valueHash))
             "Corrupt State v2 leaf value";;
           Ok (leafNodeAtDepth keyHash valueHash valueJson depth)
         | BranchRecord _ leftHash rightHash =>
           throw_if (Nat.leb TREE_DEPTH depth) "State v2 branch below tree depth";;
           Ok (branchNode (from_option NodeRef Undef leftHash) (from_option NodeRef Undef rightHash) depth)
         end;
  throw_if (negb (bool_decide (linkHash node = Some (recordHash record)))) "State v2 node hash mismatch";;
  Ok node.

Definition resolveNode (resolver : option StateV2NodeResolver) (link : NodeLink) (depth : nat) : res NodeLink :=
  match link with
  | NodeRef hash =>
    record ← unwrap (resolver ≫= λ f, f hash) "Missing State v2 node record";
    throw_if (negb (String.eqb (recordHash record) hash)) "State v2 resolver returned wrong node hash";;
    nodeFromRecord record depth
  | _ => Ok link
  end.

(** [findLeaf]: the loop over [depth], with [n] iterations left. *)
Fixpoint findLeaf (resolver : option StateV2NodeResolver) (n : nat) (current : NodeLink) (keyHash : string) (depth : nat)
    : res (option (string * units)) :=
  match n with
  | O => Ok None
  | S n' =>
    match current with
    | Undef => Ok None
    | _ =>
      node ← resolveNode resolver current depth;
      match node with
      | LeafNode _ k v x => Ok (if String.eqb k keyHash then Some (v, x) else None)
      | BranchNode _ l r =>
        if Nat.eqb depth TREE_DEPTH then Ok None
        else findLeaf resolver n' (if bitAt (hexBytes keyHash) depth =? 0 then l else r) keyHash (S depth)
      | _ => Ok None
      end
    end
  end.

(** [mergeLeaves], where [n] is the number of levels below [depth]. *)
Fixpoint mergeLeaves (n : nat) (exKey exValueHash : string) (exValueJson : units) (keyHash valueHash : string)
    (valueJson : units)
    (depth : nat) : res (NodeLink * list StateV2NodeRecord) :=
  match n with
  | O => Throw "State v2 key hash collision"
  | S n' =>
    let existingBit := bitAt (hexBytes exKey) depth in
    let incomingBit := bitAt (hexBytes keyHash) depth in
    if negb (existingBit =? incomingBit) then
      let existingLeaf := leafNodeAtDepth exKey exValueHash exValueJson (S depth) in
      let incomingLeaf := leafNodeAtDepth keyHash valueHash valueJson (S depth) in
      let node := branchNode (if existingBit =? 0 then existingLeaf else incomingLeaf)
        (if existingBit =? 1 then existingLeaf else incomingLeaf) depth in
      Ok (node, recordCreated existingLeaf ++ recordCreated incomingLeaf ++ recordCreated node)
    else
      '(child, created) ← mergeLeaves n' exKey exValueHash exValueJson keyHash valueHash valueJson (S depth);
      let node := branchNode (if existingBit =? 0 then child else Undef) (if existingBit =? 0 then Undef else child) depth in
      Ok (node, created ++ recordCreated node)
  end.

(** [updateNode], with the records it creates; [n] is [TREE_DEPTH - depth]. *)
Fixpoint updateNode (resolver : option StateV2NodeResolver) (n : nat) (link : NodeLink) (keyHash valueHash : string) (valueJson : units)
    (depth : nat) : res (NodeLink * list StateV2NodeRecord) :=
  node ← match link with Undef => Ok Undef | _ => resolveNode resolver link depth end;
  let fresh := leafNodeAtDepth keyHash valueHash valueJson depth in
  match node with
  | LeafNode _ k v x =>
    if String.eqb k keyHash then Ok (fresh, recordCreated fresh)
    else mergeLeaves n k v x keyHash valueHash valueJson depth
  | BranchNode _ l r =>
    match n with
    | O => Throw "Corrupt State v2 branch depth"
    | S n' =>
      let goLeft := bitAt (hexBytes keyHash) depth =? 0 in
      '(child, created) ← updateNode resolver n' (if goLeft then l else r) keyHash valueHash valueJson (S depth);
      let branch := branchNode (if goLeft then child else l) (if goLeft then r else child) depth in
      Ok (branch, created ++ recordCreated branch)
    end
  | _ => Ok (fresh, recordCreated fresh)
  end.

(** ** The methods of [SparseMerkleState] *)

Definition sparse_empty : SparseMerkleState := mkSparse Undef [] None.

Definition sparse_root (s : SparseMerkleState) : string := default (EMPTY_HASHES 0) (linkHash (rootNode s)).

Definition sparse_set (s : SparseMerkleState) (key : string) (value : jsval units) : res SparseMerkleState :=
  throw_if (Nat.eqb (String.length key) 0) "State v2 key must not be empty";;
  valueJson ← valueText value;
  '(node, created) ← updateNode (nodeResolver s) TREE_DEPTH (rootNode s) (keyHashOf key) (valueHashOf valueJson) valueJson 0;
  Ok (mkSparse node (created :: pendingRecords s) (nodeResolver s)).

(** [undefined] for an absent key. *)
Definition sparse_get (s : SparseMerkleState) (key : string) : res (option (jsval units)) :=
  throw_if (Nat.eqb (String.length key) 0) "State v2 key must not be empty";;
  leaf ← findLeaf (nodeResolver s) (S TREE_DEPTH) (rootNode s) (keyHashOf key) 0;
  match leaf with
  | Some (_, valueJson) => value ← JSON_parse valueJson; Ok (Some value)
  | None => Ok None
  end.

Definition fromNodeResolver (rootHash : string) (resolver : StateV2NodeResolver) : res SparseMerkleState :=
  throw_if (negb (isLowerHexOf 64 rootHash)) "Invalid State v2 root hash";;
  if String.eqb rootHash (EMPTY_HASHES 0) then Ok sparse_empty else
  let state := mkSparse (NodeRef rootHash) [] (Some resolver) in
  resolveNode (nodeResolver state) (rootNode state) 0;;
  Ok state.

Definition persistenceCheckpoint (s : SparseMerkleState) : SparseMerkleState := mkSparse (rootNode s) [] (nodeResolver s).

(** [appendCompressedLeafProof]: the siblings of the cursors [depth ..]; [seen]
    is that the keys diverged above. *)
Fixpoint compressed_siblings (n : nat) (leafKey leafValueHash : string) (leafValueJson : units) (keyHash : string) (seen : bool)
    (depth : nat) : list string :=
  match n with
  | O => []
  | S n' =>
    let diverges := negb seen && negb (bitAt (hexBytes leafKey) depth =? bitAt (hexBytes keyHash) depth) in
    (if diverges then default "" (linkHash (leafNodeAtDepth leafKey leafValueHash leafValueJson (S depth))) else EMPTY_HASHES (S depth))
      :: compressed_siblings n' leafKey leafValueHash leafValueJson keyHash (seen || diverges) (S depth)
  end.

(** The loop of [prove] over the levels below [depth]. *)
Fixpoint prove_siblings (resolver : option StateV2NodeResolver) (n : nat) (link : NodeLink) (keyHash : string) (depth : nat)
    : res (list string) :=
  match n with
  | O => Ok []
  | S n' =>
    match link with
    | Undef => Ok (map (λ i, EMPTY_HASHES (S (depth + i))) (seq 0 n))
    | _ =>
      node ← resolveNode resolver link depth;
      match node with
      | LeafNode _ k v x => Ok (compressed_siblings n k v x keyHash false depth)
      | BranchNode _ l r =>
        let goLeft := bitAt (hexBytes keyHash) depth =? 0 in
        rest ← prove_siblings resolver n' (if goLeft then l else r) keyHash (S depth);
        Ok (default (EMPTY_HASHES (S depth)) (linkHash (if goLeft then r else l)) :: rest)
      | _ => Ok []
      end
    end
  end.

Definition prove (s : SparseMerkleState) (key : string) : res SparseMerkleProof :=
  throw_if (Nat.eqb (String.length key) 0) "State v2 key must not be empty";;
  let keyHash := keyHashOf key in
  siblings ← prove_siblings (nodeResolver s) TREE_DEPTH (rootNode s) keyHash 0;
  leaf ← findLeaf (nodeResolver s) (S TREE_DEPTH) (rootNode s) keyHash 0;
  Ok (mkSparseProof 1 keyHash (option_map fst leaf) siblings).

(** The loop of [verifySparseMerkleProof], from the last level to the first. *)
Fixpoint proof_climb (keyBytes : list Z) (current : string) (siblings : list string) (depth : nat) : string :=
  match siblings with
  | [] => current
  | sibling :: rest =>
    let below := proof_climb keyBytes current rest (S depth) in
    if bitAt keyBytes depth =? 0 then branchHash below sibling else branchHash sibling below
  end.

(** The value [null] asks for absence; a throw of [canonicalJson] is [false]. *)
Definition verifySparseMerkleProof (root key : string) (value : jsval units) (proof : SparseMerkleProof) : bool :=
  isLowerHexOf 64 root && (sp_version proof =? 1) && Nat.eqb (length (sp_siblings proof)) TREE_DEPTH &&
  (let keyHash := keyHashOf key in
   String.eqb (sp_keyHash proof) keyHash && forallb (isLowerHexOf 64) (sp_siblings proof) &&
   let climb current := String.eqb (proof_climb (hexBytes keyHash) current (sp_siblings proof) 0) root in
   match value with
   | JNull => negb (bool_decide (is_Some (sp_valueHash proof))) && climb (EMPTY_HASHES TREE_DEPTH)
   | _ =>
     match valueText value with
     | Ok text =>
       let valueHash := valueHashOf text in
       bool_decide (sp_valueHash proof = Some valueHash) && climb (leafHash keyHash valueHash)
     | Throw _ => false
     end
   end).

End tree.

(** ** Keys as bit strings *)

Abbreviation hex64 k := (isLowerHexOf 64 k = true) (only parsing).
Definition bitOf (k : string) (d : nat) : Z := bitAt (hexBytes k) d.

Lemma bitAt_01 (bytes : list Z) (d : nat) : bitAt bytes d = 0 ∨ bitAt bytes d = 1.
Proof.
  unfold bitAt. change 1 with (Z.ones 1). rewrite Z.land_ones by lia.
  match goal with |- context [?x mod 2 ^ 1] => generalize (Z.mod_pos_bound x (2 ^ 1) eq_refl); generalize (x mod 2 ^ 1) end.
  change (2 ^ 1) with 2. change (Z.ones 1) with 1. lia.
Qed.

Lemma bitAt_testbit (bytes : list Z) (i j : nat) :
  (j < 8)%nat → bitAt bytes (8 * i + (7 - j)) = Z.b2z (Z.testbit (default 0 (bytes !! i)) (Z.of_nat j)).
Proof.
  intros Hj. unfold bitAt.
  rewrite (Nat.mul_comm 8 i), Nat.div_add_l, Nat.div_small, Nat.add_0_r by lia.
  rewrite Nat.add_comm, Nat.Div0.mod_add, Nat.mod_small by lia.
  replace (7 - Z.of_nat (7 - j)) with (Z.of_nat j) by lia.
  rewrite Z.testbit_spec', <-Z.shiftr_div_pow2 by lia.
  change 1 with (Z.ones 1) at 1. by rewrite Z.land_ones by lia.
Qed.

Lemma byte_bits (x y : Z) :
  0 ≤ x < 256 → 0 ≤ y < 256 → (∀ j, (j < 8)%nat → Z.testbit x (Z.of_nat j) = Z.testbit y (Z.of_nat j)) → x = y.
Proof.
  intros Hx Hy Hb. apply Z.bits_inj'. intros j Hj.
  destruct (decide (j < 8)) as [Hlt|Hge].
  - rewrite <-(Z2Nat.id j) by lia. apply Hb. lia.
  - assert (∀ z, 0 ≤ z < 256 → Z.testbit z j = false) as Hz; [|by rewrite !Hz].
    intros z Hz. destruct (decide (z = 0)) as [->|]; [apply Z.bits_0|].
    apply Z.bits_above_log2; [lia|]. assert (Z.log2 z < 8); [|lia]. apply Z.log2_lt_pow2; lia.
Qed.

Lemma hexBytes_bytes (n : nat) (s : string) :
  isLowerHexOf (2 * n) s = true → length (hexBytes s) = n ∧ Forall (λ x, 0 ≤ x < 256) (hexBytes s).
Proof.
  revert s. induction n as [|n IH]; intros s Hs.
  - destruct s; [by split|discriminate Hs].
  - replace (2 * S n)%nat with (S (S (2 * n))) in * by lia.
    destruct s as [|a [|b s]]; [discriminate Hs..|]. unfold isLowerHexOf in Hs. cbn in Hs.
    rewrite !andb_true_iff in Hs. destruct Hs as (Hl & Ha & Hb & Hs).
    destruct (hexValue_lower a Ha) as (x & Ex & Hx), (hexValue_lower b Hb) as (y & Ey & Hy).
    cbn. rewrite Ex, Ey. destruct (IH s) as [IH1 IH2].
    { unfold isLowerHexOf. apply andb_true_iff. split; [exact Hl|exact Hs]. }
    split; [cbn; by rewrite IH1|]. constructor; [lia|done].
Qed.

(** A key hash is determined by its 256 bits. *)
Lemma bits_inj (k1 k2 : string) :
  hex64 k1 → hex64 k2 → (∀ i, (i < TREE_DEPTH)%nat → bitOf k1 i = bitOf k2 i) → k1 = k2.
Proof.
  intros H1 H2 Hb. apply (hexBytes_inj 32 k1 k2 H1 H2).
  destruct (hexBytes_bytes 32 k1 H1) as [Hl1 Hr1], (hexBytes_bytes 32 k2 H2) as [Hl2 Hr2].
  apply list_eq_same_length with (n := 32%nat); [done..|].
  intros i x y Hi Hx Hy. rewrite Forall_lookup in Hr1, Hr2.
  apply byte_bits; [by eapply Hr1|by eapply Hr2|].
  intros j Hj. specialize (Hb (8 * i + (7 - j))%nat). unfold bitOf in Hb.
  rewrite !bitAt_testbit, Hx, Hy in Hb by done. cbn [default] in Hb. unfold TREE_DEPTH in Hb.
  specialize (Hb ltac:(lia)). by apply Z.b2z_inj.
Qed.

(** ** What a tree holds

    [view] relates a link at a depth to the map from key hashes to canonical
    texts it stands for.  A leaf stands for one entry, a branch for at least two. *)

Abbreviation content := (gmap string units) (only parsing).

Definition side (b : Z) (d : nat) (m : content) : content := filter (λ e, bitOf e.1 d = b) m.

(** The keys of [m] share their first [d] bits. *)
Definition agree (d : nat) (m : content) : Prop :=
  ∀ k1 k2, is_Some (m !! k1) → is_Some (m !! k2) → ∀ i, (i < d)%nat → bitOf k1 i = bitOf k2 i.
Definition hex_keys (m : content) : Prop := ∀ k, is_Some (m !! k) → hex64 k.

Lemma side_lookup (b : Z) (d : nat) (m : content) (k : string) :
  side b d m !! k = if decide (bitOf k d = b) then m !! k else None.
Proof.
  unfold side. apply option_eq. intros t. rewrite map_lookup_filter_Some. cbn. case_decide; naive_solver.
Qed.

Lemma side_Some (b : Z) (d : nat) (m : content) (k : string) :
  is_Some (side b d m !! k) ↔ bitOf k d = b ∧ is_Some (m !! k).
Proof. rewrite side_lookup. case_decide; [naive_solver|]. split; [by intros [? ?]|naive_solver]. Qed.

Lemma agree_side (b : Z) (d : nat) (m : content) : agree d m → agree (S d) (side b d m).
Proof.
  intros Ha k1 k2 [H1 H1']%side_Some [H2 H2']%side_Some i Hi.
  destruct (decide (i = d)) as [->|]; [congruence|]. apply Ha; [done..|lia].
Qed.
Lemma hex_keys_side (b : Z) (d : nat) (m : content) : hex_keys m → hex_keys (side b d m).
Proof. intros Hk k [_ Hs]%side_Some. auto. Qed.

Lemma side_insert (b : Z) (d : nat) (m : content) (k : string) (t : units) :
  side b d (<[k:=t]> m) = if decide (bitOf k d = b) then <[k:=t]> (side b d m) else side b d m.
Proof.
  apply map_eq. intros k'. rewrite side_lookup. destruct (decide (k = k')) as [->|Hne].
  - rewrite lookup_insert_eq. case_decide; [by rewrite lookup_insert_eq|]. rewrite side_lookup. by rewrite decide_False.
  - rewrite lookup_insert_ne by done. case_decide; case_decide; rewrite ?lookup_insert_ne by done; rewrite side_lookup;
      by repeat case_decide.
Qed.

Lemma side_empty (b : Z) (d : nat) : side b d ∅ = ∅.
Proof. apply map_eq. intros k. rewrite side_lookup. by case_decide. Qed.

Lemma side_singleton (b : Z) (d : nat) (k : string) (t : units) :
  side b d {[k := t]} = if decide (bitOf k d = b) then {[k := t]} else ∅.
Proof. unfold singletonM, map_singleton. rewrite side_insert, side_empty. by case_decide. Qed.

(** At the bottom of the tree at most one key is left. *)
Lemma agree_bottom (m : content) (k1 k2 : string) (d : nat) :
  (TREE_DEPTH ≤ d)%nat → hex_keys m → agree d m → is_Some (m !! k1) → is_Some (m !! k2) → k1 = k2.
Proof. intros Hd Hk Ha H1 H2. apply bits_inj; [auto..|]. intros i Hi. apply Ha; [done..|lia]. Qed.

Section view.
Context `{Crypto}.

Inductive view (resolver : option StateV2NodeResolver) : nat → NodeLink → content → Prop :=
| view_undef d : view resolver d Undef ∅
| view_leaf d k t : hex64 k → view resolver d (leafNodeAtDepth k (valueHashOf t) t d) {[k := t]}
| view_branch d l r m :
    (d < TREE_DEPTH)%nat → view resolver (S d) l (side 0 d m) → view resolver (S d) r (side 1 d m) → (2 ≤ size m)%nat →
    view resolver d (branchNode l r d) m
| view_ref d h node m :
    resolveNode resolver (NodeRef h) d = Ok node → view resolver d node m → view resolver d (NodeRef h) m.

(** The reference: the hash of the full tree of height [n], with every level. *)
Fixpoint reference_root (n d : nat) (m : content) : string :=
  match n with
  | O => match map_to_list m with
         | (k, t) :: _ => leafHash k (valueHashOf t)
         | [] => emptyHash 0
         end
  | S n' => branchHash (reference_root n' (S d) (side 0 d m)) (reference_root n' (S d) (side 1 d m))
  end.

Lemma reference_empty (n d : nat) : reference_root n d ∅ = emptyHash n.
Proof.
  revert d. induction n as [|n IH]; intros d; cbn [reference_root emptyHash].
  - by rewrite map_to_list_empty.
  - by rewrite !side_empty, IH.
Qed.

Lemma reference_singleton (n d : nat) (k : string) (t : units) :
  (n + d = TREE_DEPTH)%nat →
  reference_root n d {[k := t]} = leaf_climb (hexBytes k) (leafHash k (valueHashOf t)) n d.
Proof.
  revert d. induction n as [|n IH]; intros d Hd; cbn [reference_root leaf_climb].
  - by rewrite map_to_list_singleton.
  - rewrite !side_singleton. unfold EMPTY_HASHES. replace (TREE_DEPTH - S d)%nat with n by lia. fold (bitOf k d).
    destruct (bitAt_01 (hexBytes k) d) as [E|E]; fold (bitOf k d) in E; rewrite E;
      repeat case_decide; try done; cbn [Z.eqb]; rewrite reference_empty, IH by lia; done.
Qed.

Lemma resolve_link (resolver : option StateV2NodeResolver) (h : string) (d : nat) (node : NodeLink) :
  resolveNode resolver (NodeRef h) d = Ok node → linkHash node = Some h ∧ ∀ h', node ≠ NodeRef h'.
Proof.
  cbn [resolveNode]. intros (record & Hr & Hn)%res_bind_Ok. apply res_bind_Ok in Hn as ([] & He & Hn).
  apply throw_if_Ok, negb_false_iff, String.eqb_eq in He. subst h. unfold nodeFromRecord in Hn.
  apply res_bind_Ok in Hn as (node' & Hd & Hn). apply res_bind_Ok in Hn as ([] & Hh & Hn). apply Ok_inj in Hn as <-.
  apply throw_if_Ok, negb_false_iff, bool_decide_eq_true in Hh. split; [done|].
  destruct record; res_split; subst; done.
Qed.

(** The hash of a compressed tree is the hash of the full tree. *)
Lemma view_hash (resolver : option StateV2NodeResolver) (d : nat) (link : NodeLink) (m : content) :
  view resolver d link m → (d ≤ TREE_DEPTH)%nat →
  default (EMPTY_HASHES d) (linkHash link) = reference_root (TREE_DEPTH - d) d m.
Proof.
  induction 1 as [d|d k t Hk|d l r m Hd _ IHl _ IHr Hm|d h node m Hres _ IH]; intros Hle.
  - by rewrite reference_empty.
  - rewrite reference_singleton by lia. done.
  - cbn [branchNode linkHash default]. rewrite IHl, IHr by lia.
    replace (TREE_DEPTH - d)%nat with (S (TREE_DEPTH - S d)) by lia. done.
  - destruct (resolve_link _ _ _ _ Hres) as [Hh _]. rewrite Hh in IH. by apply IH.
Qed.

(** A view is of the resolved node too. *)
Lemma view_resolve (resolver : option StateV2NodeResolver) (d : nat) (link : NodeLink) (m : content) :
  view resolver d link m → link ≠ Undef →
  ∃ node, resolveNode resolver link d = Ok node ∧
    ((∃ k t, hex64 k ∧ node = leafNodeAtDepth k (valueHashOf t) t d ∧ m = {[k := t]}) ∨
     (∃ l r, node = branchNode l r d ∧ (d < TREE_DEPTH)%nat ∧ view resolver (S d) l (side 0 d m) ∧
        view resolver (S d) r (side 1 d m) ∧ (2 ≤ size m)%nat)).
Proof.
  induction 1 as [d|d k t Hk|d l r m Hd Hl _ Hr _ Hm|d h node m Hres Hv IH]; intros Hu; [done| | |].
  - eexists. split; [done|]. left. eauto.
  - eexists. split; [done|]. right. naive_solver.
  - destruct (resolve_link _ _ _ _ Hres) as [Hh Hnr]. exists node. split; [done|].
    destruct IH as (node' & Hn' & Hcase); [by intros ->|].
    assert (resolveNode resolver node d = Ok node) as Hself by (destruct node; try done; by destruct (Hnr hash)).
    rewrite Hself in Hn'. apply Ok_inj in Hn' as ->. exact Hcase.
Qed.

Lemma view_pick (resolver : option StateV2NodeResolver) (d : nat) (l r : NodeLink) (m : content) (k : string) :
  view resolver (S d) l (side 0 d m) → view resolver (S d) r (side 1 d m) →
  view resolver (S d) (if bitAt (hexBytes k) d =? 0 then l else r) (side (bitOf k d) d m).
Proof. intros Hl Hr. unfold bitOf. by destruct (bitAt_01 (hexBytes k) d) as [-> | ->]. Qed.

Lemma findLeaf_view (resolver : option StateV2NodeResolver) (n d : nat) (link : NodeLink) (m : content) (k : string) :
  view resolver d link m → (n + d = S TREE_DEPTH)%nat → (d ≤ TREE_DEPTH)%nat →
  findLeaf resolver n link k d = Ok ((λ t, (valueHashOf t, t)) <$> m !! k).
Proof.
  revert d link m. induction n as [|n IH]; intros d link m Hv Hn Hd; [lia|].
  destruct (decide (link = Undef)) as [->|Hne].
  { inversion Hv; subst. cbn [findLeaf]. by rewrite lookup_empty. }
  destruct (view_resolve _ _ _ _ Hv Hne) as (node & Hres & Hcase). cbn [findLeaf].
  transitivity (node ← resolveNode resolver link d;
    match node with
      | LeafNode _ k' v x => Ok (if String.eqb k' k then Some (v, x) else None)
      | BranchNode _ l r =>
        if Nat.eqb d TREE_DEPTH then Ok None
        else findLeaf resolver n (if bitAt (hexBytes k) d =? 0 then l else r) k (S d)
      | _ => Ok None
      end); [by destruct link|].
  rewrite Hres. cbn [mbind res_bind]. destruct Hcase as [(k' & t & Hk & -> & ->)|(l & r & -> & Hlt & Hl & Hr & _)].
  - cbn [leafNodeAtDepth]. destruct (String.eqb_spec k' k) as [->|Hkk].
    + by rewrite lookup_singleton_eq.
    + by rewrite lookup_singleton_ne.
  - cbn [branchNode]. rewrite (proj2 (Nat.eqb_neq d TREE_DEPTH)) by lia.
    rewrite (IH (S d) _ (side (bitOf k d) d m)); [|by apply view_pick|lia|lia].
    rewrite side_lookup. by rewrite decide_True.
Qed.

Lemma size_pair (k1 k2 : string) (t1 t2 : units) : k1 ≠ k2 → size (<[k2:=t2]> {[k1 := t1]} : content) = 2%nat.
Proof. intros Hne. rewrite map_size_insert_None by (by apply lookup_singleton_ne). by rewrite map_size_singleton. Qed.

Lemma mergeLeaves_view (resolver : option StateV2NodeResolver) (n d : nat) (k1 k2 : string) (t1 t2 : units) :
  (n + d = TREE_DEPTH)%nat → hex64 k1 → hex64 k2 → k1 ≠ k2 → (∀ i, (i < d)%nat → bitOf k1 i = bitOf k2 i) →
  ∃ node created, mergeLeaves n k1 (valueHashOf t1) t1 k2 (valueHashOf t2) t2 d = Ok (node, created) ∧
    view resolver d node (<[k2:=t2]> {[k1 := t1]}).
Proof.
  revert d. induction n as [|n IH]; intros d Hd H1 H2 Hne Ha.
  { destruct Hne. apply bits_inj; [done..|]. intros i Hi. apply Ha. lia. }
  cbn [mergeLeaves]. fold (bitOf k1 d) (bitOf k2 d).
  pose proof (size_pair k1 k2 t1 t2 Hne) as Hsize.
  assert (∀ b, side b d (<[k2:=t2]> {[k1 := t1]}) =
    let m1 := if decide (bitOf k1 d = b) then {[k1 := t1]} else ∅ in
    if decide (bitOf k2 d = b) then <[k2:=t2]> m1 else m1) as Hside.
  { intros b. rewrite side_insert, side_singleton. done. }
  destruct (Z.eqb_spec (bitOf k1 d) (bitOf k2 d)) as [Eb|Eb]; cbn [negb].
  - destruct (IH (S d)) as (child & created & Hm & Hv); [lia|done|done|done| |].
    { intros i Hi. destruct (decide (i = d)) as [->|]; [done|]. apply Ha. lia. }
    rewrite Hm. cbn [mbind res_bind]. eexists _, _. split; [reflexivity|].
    destruct (bitAt_01 (hexBytes k1) d) as [E|E]; fold (bitOf k1 d) in E; rewrite E; cbn [Z.eqb];
      apply view_branch; try lia; rewrite Hside, E, <-Eb, E; repeat case_decide; try done; apply view_undef.
  - eexists _, _. split; [reflexivity|].
    destruct (bitAt_01 (hexBytes k1) d) as [E1|E1], (bitAt_01 (hexBytes k2) d) as [E2|E2];
      fold (bitOf k1 d) in E1; fold (bitOf k2 d) in E2; rewrite E1, E2 in *; try done; cbn [Z.eqb];
      apply view_branch; try lia; rewrite Hside; repeat case_decide; try done; by apply view_leaf.
Qed.

Lemma updateNode_view (resolver : option StateV2NodeResolver) (n d : nat) (link : NodeLink) (m : content) (k : string) (t : units) :
  view resolver d link m → (n + d = TREE_DEPTH)%nat → hex64 k → hex_keys m → agree d (<[k:=t]> m) →
  ∃ node created, updateNode resolver n link k (valueHashOf t) t d = Ok (node, created) ∧ view resolver d node (<[k:=t]> m).
Proof.
  revert d link m. induction n as [|n IH]; intros d link m Hv Hd Hk Hm Ha.
  all: destruct (decide (link = Undef)) as [->|Hne];
    [inversion Hv; subst; eexists _, _; split; [reflexivity|]; by apply view_leaf|].
  all: destruct (view_resolve _ _ _ _ Hv Hne) as (node & Hres & Hcase);
    assert (match link with Undef => Ok Undef | _ => resolveNode resolver link d end = Ok node) as Hr by (by destruct link);
    cbn [updateNode]; rewrite Hr; cbn [mbind res_bind].
  all: destruct Hcase as [(k' & t' & Hk' & -> & ->)|(l & r & -> & Hlt & Hl & Hr' & Hsz)]; [|try lia].
  1,2: cbn [leafNodeAtDepth]; destruct (String.eqb_spec k' k) as [->|Hkk];
    [eexists _, _; split; [reflexivity|]; rewrite insert_singleton_eq; by apply view_leaf|].
  1,2: apply mergeLeaves_view; try done; intros i Hi; apply Ha; try done;
    [rewrite lookup_insert_ne by done; by rewrite lookup_singleton_eq|by rewrite lookup_insert_eq].
  cbn [branchNode]. fold (bitOf k d).
  destruct (IH (S d) (if bitAt (hexBytes k) d =? 0 then l else r) (side (bitOf k d) d m))
    as (child & created & Hu & Hv'); [by apply view_pick|lia|done|by apply hex_keys_side| |].
  { assert (<[k:=t]> (side (bitOf k d) d m) = side (bitOf k d) d (<[k:=t]> m)) as ->.
    { rewrite side_insert. by rewrite decide_True. }
    by apply agree_side. }
  fold (bitOf k d) in Hu. rewrite Hu. cbn [mbind res_bind]. eexists _, _. split; [reflexivity|].
  assert (2 ≤ size (<[k:=t]> m))%nat as Hsz'.
  { destruct (m !! k) as [x|] eqn:E; [rewrite map_size_insert_Some by done; lia|].
    rewrite map_size_insert_None by done. lia. }
  apply view_branch; [done| | |done]; rewrite side_insert;
    destruct (bitAt_01 (hexBytes k) d) as [E|E]; fold (bitOf k d) in E; rewrite E in *; cbn [Z.eqb]; by repeat case_decide.
Qed.

End view.

(** ** The tree as a map *)

#[local] Opaque TREE_DEPTH.

Section map.
Context `{CryptoLaws}.

(** A text that parses to a value it is the canonical text of. *)
Definition canonical_text (t : units) : Prop := ∃ w, JSON_parse t = Ok w ∧ canonicalJson w = Ok (Some t).

(** The tree [s] stands for the content [m]. *)
Definition holds (s : SparseMerkleState) (m : content) : Prop :=
  view (nodeResolver s) 0 (rootNode s) m ∧ hex_keys m ∧ map_Forall (λ _ t, canonical_text t) m.

Lemma agree_0 (m : content) : agree 0 m.
Proof. intros k1 k2 _ _ i Hi. lia. Qed.

Lemma hashWithDomain_hex (domain : list Z) (parts : list (list Z)) : hex64 (hashWithDomain domain parts).
Proof. apply sha256_hex. Qed.

Lemma holds_empty : holds sparse_empty ∅.
Proof. split; [constructor|]. split; [|apply map_Forall_empty]. intros k []%lookup_empty_is_Some. Qed.

Lemma holds_root (s : SparseMerkleState) (m : content) : holds s m → sparse_root s = reference_root TREE_DEPTH 0 m.
Proof. intros (Hv & _). exact (view_hash _ 0 _ _ Hv ltac:(lia)). Qed.

Lemma view_set (s : SparseMerkleState) (m : content) (key : string) (value : jsval units) (t : units) :
  view (nodeResolver s) 0 (rootNode s) m → hex_keys m → key ≠ "" → valueText value = Ok t →
  ∃ s', sparse_set s key value = Ok s' ∧
    view (nodeResolver s') 0 (rootNode s') (<[keyHashOf key := t]> m) ∧ hex_keys (<[keyHashOf key := t]> m).
Proof.
  intros Hv Hk Hne Ht. unfold sparse_set.
  assert (Nat.eqb (String.length key) 0 = false) as -> by (by destruct key). cbn [throw_if mbind res_bind]. rewrite Ht.
  assert (hex_keys (<[keyHashOf key := t]> m)) as Hk'.
  { intros k'. destruct (decide (keyHashOf key = k')) as [<-|Hn].
    - intros _. apply hashWithDomain_hex.
    - rewrite lookup_insert_ne by done. apply Hk. }
  destruct (updateNode_view (nodeResolver s) TREE_DEPTH 0 (rootNode s) m (keyHashOf key) t)
    as (node & created & Hu & Hv'); [done|lia|apply hashWithDomain_hex|done|apply agree_0|].
  cbn [mbind res_bind]. rewrite Hu. cbn [mbind res_bind]. eexists. split; [reflexivity|]. by split.
Qed.

Lemma holds_set (s : SparseMerkleState) (m : content) (key : string) (value : jsval units) (t : units) :
  holds s m → key ≠ "" → js_value value → valueText value = Ok t →
  ∃ s', sparse_set s key value = Ok s' ∧ holds s' (<[keyHashOf key := t]> m).
Proof.
  intros (Hv & Hk & Hc) Hne Hjs Ht. destruct (view_set s m key value t Hv Hk Hne Ht) as (s' & Hs & Hv' & Hk'). exists s'. split; [done|].
  split; [done|]. split; [done|]. apply map_Forall_insert_2; [|done].
  apply res_bind_Ok in Ht as (o & Ho & Ht). apply unwrap_Ok in Ht as ->. apply res_bind_Ok in Ho as (w & Hw & Ho).
  apply Ok_inj in Ho. exists (erase w). by apply (canonicalJson_parse value).
Qed.

Lemma holds_find (s : SparseMerkleState) (m : content) (k : string) :
  holds s m → findLeaf (nodeResolver s) (S TREE_DEPTH) (rootNode s) k 0 = Ok ((λ t, (valueHashOf t, t)) <$> m !! k).
Proof. intros (Hv & _). apply findLeaf_view; [done|lia|lia]. Qed.

Lemma holds_get (s : SparseMerkleState) (m : content) (key : string) :
  holds s m → key ≠ "" →
  sparse_get s key = match m !! keyHashOf key with Some t => Some <$> JSON_parse t | None => Ok None end.
Proof.
  intros Hh Hne. unfold sparse_get. assert (Nat.eqb (String.length key) 0 = false) as -> by (by destruct key).
  cbn [throw_if mbind res_bind]. rewrite (holds_find _ _ _ Hh). cbn [mbind res_bind].
  destruct (m !! keyHashOf key) as [t|]; [|done]. cbn [fmap option_fmap option_map]. by destruct (JSON_parse t).
Qed.

(** C29. The authenticated tree is a map: reading a key that is not empty gives the
    last text written under its key hash, writing succeeds for every value with a
    canonical text and changes that entry only, and the root is the hash of the
    full tree of 2^256 leaves over the content, so that it does not depend on the
    order of the writes nor on which nodes are in memory. *)
Theorem sparse_tree_is_map (s : SparseMerkleState) (m : content) (key : string) :
  holds s m → key ≠ "" →
  sparse_get s key = match m !! keyHashOf key with Some t => Some <$> JSON_parse t | None => Ok None end ∧
  (∀ value t, js_value value → valueText value = Ok t →
    ∃ s', sparse_set s key value = Ok s' ∧ holds s' (<[keyHashOf key := t]> m)) ∧
  sparse_root s = reference_root TREE_DEPTH 0 m.
Proof.
  intros Hh Hne. split; [by apply holds_get|]. split; [|by apply holds_root].
  intros value t Hjs Ht. by apply holds_set.
Qed.

(** *** Hashes as commitments

    The byte strings a tree and a proof are hashed from: a tree commits to its
    content as far as no two of them have one SHA-256. *)

Definition preimage (domain : list Z) (parts : list (list Z)) : list Z := domain ++ concat parts.
Definition branch_input (left right : string) : list Z := preimage BRANCH_DOMAIN [hexBytes left; hexBytes right].

(** The entry at the bottom of a path. *)
Definition entry_inputs (k : string) (entry : option units) : list (list Z) :=
  match entry with
  | Some t => [preimage LEAF_DOMAIN [hexBytes k; hexBytes (valueHashOf t)]; preimage VALUE_DOMAIN [utf8 t]]
  | None => [preimage EMPTY_LEAF_DOMAIN []]
  end.

(** The table [EMPTY_HASHES] up to the height [n]. *)
Fixpoint empty_inputs (n : nat) : list (list Z) :=
  match n with
  | O => entry_inputs "" None
  | S n' => branch_input (emptyHash n') (emptyHash n') :: empty_inputs n'
  end.

(** The branches above entries, and the entries. *)
Fixpoint tree_inputs (n d : nat) (m : content) : list (list Z) :=
  if decide (m = ∅) then []
  else match n with
       | O => match map_to_list m with (k, t) :: _ => entry_inputs k (Some t) | [] => [] end
       | S n' => branch_input (reference_root n' (S d) (side 0 d m)) (reference_root n' (S d) (side 1 d m)) ::
                 tree_inputs n' (S d) (side 0 d m) ++ tree_inputs n' (S d) (side 1 d m)
       end.
Definition content_inputs (m : content) : list (list Z) := empty_inputs TREE_DEPTH ++ tree_inputs TREE_DEPTH 0 m.

(** The climb of a proof. *)
Fixpoint climb_inputs (keyBytes : list Z) (current : string) (siblings : list string) (depth : nat) : list (list Z) :=
  match siblings with
  | [] => []
  | sibling :: rest =>
    let below := proof_climb keyBytes current rest (S depth) in
    (if bitAt keyBytes depth =? 0 then branch_input below sibling else branch_input sibling below) ::
    climb_inputs keyBytes current rest (S depth)
  end.

(** The hash at the bottom for the entry of [k]. *)
Definition entry_hash (k : string) (entry : option units) : string :=
  match entry with Some t => leafHash k (valueHashOf t) | None => emptyHash 0 end.

(** The entry that a value claims: [null] stands for an absent key. *)
Definition claimed_entry (value : jsval units) : option units :=
  match value with JNull => None | _ => match valueText value with Ok t => Some t | Throw _ => None end end.

(** The byte strings [verifySparseMerkleProof] hashes, but for the key. *)
Definition proof_inputs (key : string) (value : jsval units) (proof : SparseMerkleProof) : list (list Z) :=
  entry_inputs (keyHashOf key) (claimed_entry value) ++
  climb_inputs (hexBytes (keyHashOf key)) (entry_hash (keyHashOf key) (claimed_entry value)) (sp_siblings proof) 0.

Lemma reference_hex (n d : nat) (m : content) : hex64 (reference_root n d m).
Proof. destruct n as [|n]; cbn [reference_root]; [destruct (map_to_list m) as [|[k t] ?]|]; apply hashWithDomain_hex. Qed.

Lemma bottom_entry (m : content) (d : nat) (k : string) :
  (TREE_DEPTH ≤ d)%nat → hex64 k → hex_keys m → agree d m → (∀ k' i, is_Some (m !! k') → (i < d)%nat → bitOf k' i = bitOf k i) →
  m !! k = snd <$> head (map_to_list m) ∧ (∀ k' t, head (map_to_list m) = Some (k', t) → k' = k).
Proof.
  intros Hd Hk Hm Ha Hkm.
  assert (∀ k', is_Some (m !! k') → k' = k) as Honly.
  { intros k' Hk'. apply bits_inj; [by apply Hm|done|]. intros i Hi. apply Hkm; [done|lia]. }
  destruct (map_to_list m) as [|[k' t] l] eqn:E.
  - apply map_to_list_empty_iff in E as ->. by rewrite lookup_empty.
  - assert (m !! k' = Some t) as Hk' by (apply elem_of_map_to_list; rewrite E; left).
    assert (k' = k) as <- by (by apply Honly). cbn. split; [done|]. by intros ? ? [= <- <-].
Qed.

Lemma reference_bottom (m : content) (d : nat) (k : string) :
  (TREE_DEPTH ≤ d)%nat → hex64 k → hex_keys m → agree d m → (∀ k' i, is_Some (m !! k') → (i < d)%nat → bitOf k' i = bitOf k i) →
  reference_root 0 d m = entry_hash k (m !! k).
Proof.
  intros Hd Hk Hm Ha Hkm. destruct (bottom_entry m d k) as [-> Hb]; [done..|]. cbn [reference_root].
  destruct (map_to_list m) as [|[k' t] l]; [done|]. cbn in *. by rewrite (Hb k' t).
Qed.

(** Every key of [m] shares its first [d] bits with [k]. *)
Definition on_path (k : string) (d : nat) (m : content) : Prop :=
  ∀ k' i, is_Some (m !! k') → (i < d)%nat → bitOf k' i = bitOf k i.

Lemma on_path_side (k : string) (d : nat) (m : content) : on_path k d m → on_path k (S d) (side (bitOf k d) d m).
Proof.
  intros Hp k' i [Hb Hs]%side_Some Hi. destruct (decide (i = d)) as [->|]; [done|]. apply Hp; [done|lia].
Qed.
Lemma on_path_agree (k : string) (d : nat) (m : content) : on_path k d m → agree d m.
Proof. intros Hp k1 k2 H1 H2 i Hi. by rewrite (Hp k1), (Hp k2). Qed.

Lemma empty_inputs_le (n n' : nat) : (n ≤ n')%nat → empty_inputs n ⊆ empty_inputs n'.
Proof. induction 1 as [|n' _ IH]; [done|]. intros x Hx. right. by apply IH. Qed.

(** [inputs] has what the tree of height [n] for [m] is hashed from. *)
Definition covers (inputs : list (list Z)) (n d : nat) (m : content) : Prop :=
  empty_inputs TREE_DEPTH ⊆ inputs ∧ tree_inputs n d m ⊆ inputs.

Lemma covers_content (inputs : list (list Z)) (m : content) : content_inputs m ⊆ inputs → covers inputs TREE_DEPTH 0 m.
Proof. unfold content_inputs. intros Hi. split; [by eapply sub_app_l|by eapply sub_app_r]. Qed.

Lemma covers_empty (inputs : list (list Z)) (n d : nat) : empty_inputs TREE_DEPTH ⊆ inputs → covers inputs n d ∅.
Proof. intros Hi. split; [done|]. destruct n; cbn [tree_inputs]; rewrite decide_True by done; apply list_subseteq_nil. Qed.

Lemma covers_branch (inputs : list (list Z)) (n d : nat) (m : content) :
  (S n ≤ TREE_DEPTH)%nat → covers inputs (S n) d m →
  branch_input (reference_root n (S d) (side 0 d m)) (reference_root n (S d) (side 1 d m)) ∈ inputs ∧
  covers inputs n (S d) (side 0 d m) ∧ covers inputs n (S d) (side 1 d m).
Proof.
  intros Hn [He Ht]. destruct (decide (m = ∅)) as [->|Hne].
  - rewrite !side_empty, !reference_empty. split_and!; [|by apply covers_empty..].
    apply He, (empty_inputs_le (S n)); [done|left].
  - cbn [tree_inputs] in Ht. rewrite decide_False in Ht by done. split_and!; [apply Ht; left|split; [done|]..];
      intros x Hx; apply Ht; right; apply elem_of_app; auto.
Qed.

Lemma covers_pick (inputs : list (list Z)) (n d : nat) (m : content) (k : string) :
  (S n ≤ TREE_DEPTH)%nat → covers inputs (S n) d m → covers inputs n (S d) (side (bitOf k d) d m).
Proof. intros Hn Hc. destruct (covers_branch _ _ _ _ Hn Hc) as (_ & H0' & H1'). unfold bitOf. by destruct (bitAt_01 (hexBytes k) d) as [-> | ->]. Qed.

Lemma covers_entry (inputs : list (list Z)) (d : nat) (m : content) (k : string) :
  covers inputs 0 d m → m !! k = snd <$> head (map_to_list m) → (∀ k' t, head (map_to_list m) = Some (k', t) → k' = k) →
  entry_inputs k (m !! k) ⊆ inputs.
Proof.
  intros [He Ht] -> Hk. destruct (map_to_list m) as [|[k' t] l] eqn:E.
  - cbn. intros x Hx. apply He, (empty_inputs_le 0); [lia|done].
  - rewrite <-(Hk k' t) by done. cbn [tree_inputs] in Ht. rewrite E, decide_False in Ht; [done|]. intros ->. by rewrite map_to_list_empty in E.
Qed.

Section free.
Context (inputs : list (list Z)) (Hfree : collision_free inputs).

Lemma domain_free (d1 d2 : list Z) (p q : list (list Z)) :
  preimage d1 p ∈ inputs → preimage d2 q ∈ inputs → hashWithDomain d1 p = hashWithDomain d2 q → preimage d1 p = preimage d2 q.
Proof using All. apply Hfree. Qed.

Lemma two_hashes_free (domain : list Z) (a b c d : string) :
  hex64 a → hex64 b → hex64 c → hex64 d →
  preimage domain [hexBytes a; hexBytes b] ∈ inputs → preimage domain [hexBytes c; hexBytes d] ∈ inputs →
  hashWithDomain domain [hexBytes a; hexBytes b] = hashWithDomain domain [hexBytes c; hexBytes d] → a = c ∧ b = d.
Proof using All.
  intros Ha Hb Hc Hd I1 I2 E%domain_free; [|done..]. unfold preimage in E. apply app_inv_head in E. cbn [concat] in E. rewrite !app_nil_r in E.
  apply app_inj_1 in E as [E1 E2]; [|by rewrite (proj1 (hexBytes_bytes 32 a Ha)), (proj1 (hexBytes_bytes 32 c Hc))].
  split; by apply (hexBytes_inj 32).
Qed.

Lemma leaf_not_empty (k k' : string) (t : units) :
  entry_inputs k (Some t) ⊆ inputs → entry_inputs k' None ⊆ inputs → leafHash k (valueHashOf t) ≠ emptyHash 0.
Proof using All.
  intros I1 I2 E. apply domain_free in E; [|apply I1; left|apply I2; left].
  apply (f_equal (take 21)) in E. unfold preimage in E. rewrite !take_app_le in E by (vm_compute; lia). revert E. vm_compute. discriminate.
Qed.

Lemma leaf_free (k1 k2 : string) (t1 t2 : units) :
  hex64 k1 → hex64 k2 → entry_inputs k1 (Some t1) ⊆ inputs → entry_inputs k2 (Some t2) ⊆ inputs →
  leafHash k1 (valueHashOf t1) = leafHash k2 (valueHashOf t2) → k1 = k2 ∧ utf8 t1 = utf8 t2.
Proof using All.
  intros H1 H2 I1 I2 E. apply two_hashes_free in E as [-> E]; [|done|apply hashWithDomain_hex|done|apply hashWithDomain_hex|apply I1; left|apply I2; left].
  split; [done|]. apply domain_free in E; [|apply I1; right; left|apply I2; right; left].
  unfold preimage in E. apply app_inv_head in E. cbn [concat] in E. by rewrite !app_nil_r in E.
Qed.

Lemma entry_free (k : string) (e1 e2 : option units) :
  hex64 k → entry_inputs k e1 ⊆ inputs → entry_inputs k e2 ⊆ inputs → entry_hash k e1 = entry_hash k e2 → utf8 <$> e1 = utf8 <$> e2.
Proof using All.
  intros Hk I1 I2. destruct e1 as [t1|], e2 as [t2|]; cbn [entry_hash]; intros E; [| | |done].
  - apply leaf_free in E as [_ E]; [cbn; by rewrite E|done..].
  - by destruct (leaf_not_empty k k t1 I1 I2).
  - by destruct (leaf_not_empty k k t2 I2 I1).
Qed.

Lemma climb_sound (n d : nat) (m : content) (k current : string) (siblings : list string) :
  (n + d = TREE_DEPTH)%nat → hex64 k → hex64 current → hex_keys m → on_path k d m →
  length siblings = n → Forall (λ h, hex64 h) siblings →
  covers inputs n d m → climb_inputs (hexBytes k) current siblings d ⊆ inputs →
  proof_climb (hexBytes k) current siblings d = reference_root n d m →
  current = entry_hash k (m !! k) ∧ entry_inputs k (m !! k) ⊆ inputs.
Proof using All.
  revert d m siblings. induction n as [|n IH]; intros d m [|s siblings] Hd Hk Hc Hm Hp Hl Hs Hcov Hci E; try discriminate Hl.
  - cbn [proof_climb] in E. rewrite E. destruct (bottom_entry m d k) as [Hb1 Hb2]; [lia|done|done|by eapply on_path_agree|done|].
    split; [apply reference_bottom; [lia|done|done|by eapply on_path_agree|done]|by eapply covers_entry].
  - apply Forall_cons in Hs as [Hs1 Hs]. injection Hl as Hl. cbn [proof_climb reference_root] in E. cbn [climb_inputs] in Hci. fold (bitOf k d) in E, Hci.
    assert (hex64 (proof_climb (hexBytes k) current siblings (S d))) as Hbelow.
    { destruct siblings as [|s' rest]; [done|]. cbn [proof_climb].
      destruct (bitAt (hexBytes k) (S d) =? 0); apply hashWithDomain_hex. }
    assert (m !! k = side (bitOf k d) d m !! k) as Hlk by (rewrite side_lookup; by rewrite decide_True).
    rewrite Hlk. pose proof (on_path_side k d m Hp) as Hp'. pose proof (covers_pick _ n d m k ltac:(lia) Hcov) as Hcov'.
    destruct (covers_branch _ n d m ltac:(lia) Hcov) as (Hbr & _).
    assert (climb_inputs (hexBytes k) current siblings (S d) ⊆ inputs) as Hci' by (intros x Hx; apply Hci; by right).
    assert (∀ x, x = (if bitOf k d =? 0 then branch_input (proof_climb (hexBytes k) current siblings (S d)) s
      else branch_input s (proof_climb (hexBytes k) current siblings (S d))) → x ∈ inputs) as Hci0 by (intros x ->; apply Hci; left).
    destruct (bitAt_01 (hexBytes k) d) as [Eb|Eb]; fold (bitOf k d) in Eb; rewrite Eb in *; cbn [Z.eqb] in E, Hci0;
      (apply two_hashes_free in E as [E1 E2]; [|done|done|apply reference_hex|apply reference_hex|by apply Hci0|exact Hbr]).
    + eapply IH; [|done..| |done|done|done|done|exact Hci'|exact E1]; [lia|by apply hex_keys_side].
    + eapply IH; [|done..| |done|done|done|done|exact Hci'|exact E2]; [lia|by apply hex_keys_side].
Qed.

(** Equal roots mean equal content. *)
Lemma reference_binding (n d : nat) (m1 m2 : content) :
  (n + d = TREE_DEPTH)%nat → hex_keys m1 → hex_keys m2 → agree d m1 → agree d m2 → covers inputs n d m1 → covers inputs n d m2 →
  reference_root n d m1 = reference_root n d m2 → ∀ k, utf8 <$> m1 !! k = utf8 <$> m2 !! k.
Proof using All.
  revert d m1 m2. induction n as [|n IH]; intros d m1 m2 Hd Hk1 Hk2 Ha1 Ha2 Hc1 Hc2 E.
  - assert (∀ m : content, agree d m → hex_keys m → ∀ k t, m !! k = Some t → m = {[k := t]}) as Hone.
    { intros m Ha Hk k t Ht. apply map_eq. intros k'. destruct (decide (k = k')) as [<-|Hne].
      - by rewrite lookup_singleton_eq.
      - rewrite lookup_singleton_ne by done. destruct (m !! k') eqn:E'; [|done].
        destruct Hne. eapply agree_bottom; [|done|done|by rewrite Ht|by rewrite E']. lia. }
    assert (∀ m k t l, covers inputs 0 d m → map_to_list m = (k, t) :: l → entry_inputs k (Some t) ⊆ inputs) as Hentry.
    { intros m k t l [_ Ht] El. cbn [tree_inputs] in Ht. rewrite El, decide_False in Ht; [done|]. intros ->. by rewrite map_to_list_empty in El. }
    assert (entry_inputs "" None ⊆ inputs) as Hnone by (intros x Hx; apply (proj1 Hc1), (empty_inputs_le 0); [lia|done]).
    cbn [reference_root] in E. revert E.
    destruct (map_to_list m1) as [|[k1 t1] l1] eqn:E1, (map_to_list m2) as [|[k2 t2] l2] eqn:E2; intros E.
    + apply map_to_list_empty_iff in E1 as ->, E2 as ->. done.
    + by destruct (leaf_not_empty k2 "" t2 (Hentry m2 k2 t2 l2 Hc2 E2) Hnone).
    + by destruct (leaf_not_empty k1 "" t1 (Hentry m1 k1 t1 l1 Hc1 E1) Hnone).
    + assert (m1 !! k1 = Some t1) as H1 by (apply elem_of_map_to_list; rewrite E1; left).
      assert (m2 !! k2 = Some t2) as H2 by (apply elem_of_map_to_list; rewrite E2; left).
      apply leaf_free in E as [-> E]; [|apply Hk1; by eexists|apply Hk2; by eexists|exact (Hentry m1 k1 t1 l1 Hc1 E1)|exact (Hentry m2 k2 t2 l2 Hc2 E2)].
      intros k. rewrite (Hone m1 Ha1 Hk1 k2 t1 H1), (Hone m2 Ha2 Hk2 k2 t2 H2).
      destruct (decide (k2 = k)) as [->|Hne]; [rewrite !lookup_singleton_eq; cbn; by rewrite E|by rewrite !lookup_singleton_ne].
  - destruct (covers_branch _ n d m1 ltac:(lia) Hc1) as (Hb1 & Hc10 & Hc11), (covers_branch _ n d m2 ltac:(lia) Hc2) as (Hb2 & Hc20 & Hc21).
    cbn [reference_root] in E. apply two_hashes_free in E as [E1 E2]; [|apply reference_hex..|exact Hb1|exact Hb2].
    pose proof (IH (S d) (side 0 d m1) (side 0 d m2) ltac:(lia) (hex_keys_side _ _ _ Hk1) (hex_keys_side _ _ _ Hk2)
      (agree_side _ _ _ Ha1) (agree_side _ _ _ Ha2) Hc10 Hc20 E1) as I1.
    pose proof (IH (S d) (side 1 d m1) (side 1 d m2) ltac:(lia) (hex_keys_side _ _ _ Hk1) (hex_keys_side _ _ _ Hk2)
      (agree_side _ _ _ Ha1) (agree_side _ _ _ Ha2) Hc11 Hc21 E2) as I2.
    intros k. specialize (I1 k). specialize (I2 k). rewrite !side_lookup in I1, I2.
    destruct (bitAt_01 (hexBytes k) d) as [Eb|Eb]; fold (bitOf k d) in Eb; rewrite Eb in *; repeat case_decide; done.
Qed.

End free.

(** *** Proofs the tree produces *)

Lemma emptyHash_hex (n : nat) : hex64 (emptyHash n).
Proof. destruct n; apply hashWithDomain_hex. Qed.

Lemma EMPTY_below (n d : nat) : (S n + d = TREE_DEPTH)%nat → EMPTY_HASHES (S d) = emptyHash n.
Proof. intros Hd. unfold EMPTY_HASHES. f_equal. lia. Qed.

Lemma empty_climb (n d : nat) (keyBytes : list Z) :
  (n + d = TREE_DEPTH)%nat →
  proof_climb keyBytes (emptyHash 0) (map (λ i, EMPTY_HASHES (S (d + i))) (seq 0 n)) d = emptyHash n.
Proof.
  revert d. induction n as [|n IH]; intros d Hd; [done|].
  rewrite <-cons_seq, <-seq_shift, map_cons, map_map. cbn [proof_climb].
  assert (map (λ i, EMPTY_HASHES (S (d + S i))) (seq 0 n) = map (λ i, EMPTY_HASHES (S (S d + i))) (seq 0 n)) as ->.
  { apply map_ext. intros i. f_equal. lia. }
  rewrite IH by lia. rewrite Nat.add_0_r, (EMPTY_below n) by done. by destruct (bitAt keyBytes d =? 0).
Qed.

Lemma compressed_length (n : nat) (k' v : string) (t : units) (k : string) (seen : bool) (d : nat) :
  length (compressed_siblings n k' v t k seen d) = n ∧ Forall (λ h, hex64 h) (compressed_siblings n k' v t k seen d).
Proof.
  revert seen d. induction n as [|n IH]; intros seen d; [by split|]. cbn [compressed_siblings].
  destruct (IH (seen || negb seen && negb (bitAt (hexBytes k') d =? bitAt (hexBytes k) d)) (S d)) as [Hl Hf].
  split; [cbn [length]; by rewrite Hl|]. constructor; [|done].
  case_match; [|apply emptyHash_hex]. cbn [leafNodeAtDepth linkHash default from_option].
  destruct (TREE_DEPTH - S d)%nat; cbn [leaf_climb]; [apply hashWithDomain_hex|]. case_match; apply hashWithDomain_hex.
Qed.

Lemma compressed_seen (n d : nat) (k' v : string) (t : units) (k : string) :
  compressed_siblings n k' v t k true d = map (λ i, EMPTY_HASHES (S (d + i))) (seq 0 n).
Proof.
  revert d. induction n as [|n IH]; intros d; [done|]. cbn [compressed_siblings negb andb orb]. rewrite IH.
  rewrite <-cons_seq, <-seq_shift, map_cons, map_map, Nat.add_0_r. f_equal. apply map_ext. intros i. f_equal. lia.
Qed.

Lemma compressed_climb (n d : nat) (k k' : string) (t : units) :
  (n + d = TREE_DEPTH)%nat → hex64 k → hex64 k' → (∀ i, (i < d)%nat → bitOf k' i = bitOf k i) →
  proof_climb (hexBytes k) (entry_hash k (({[k' := t]} : content) !! k)) (compressed_siblings n k' (valueHashOf t) t k false d) d
  = reference_root n d {[k' := t]}.
Proof.
  revert d. induction n as [|n IH]; intros d Hd Hk Hk' Hb.
  { assert (k' = k) as -> by (apply bits_inj; [done..|]; intros i Hi; apply Hb; lia).
    rewrite lookup_singleton_eq. cbn [compressed_siblings proof_climb]. by rewrite reference_singleton. }
  cbn [compressed_siblings proof_climb reference_root negb andb orb]. fold (bitOf k' d) (bitOf k d). rewrite !side_singleton.
  destruct (Z.eqb_spec (bitOf k' d) (bitOf k d)) as [Eb|Eb]; cbn [negb].
  - rewrite IH; [|lia|done|done|]; [|intros i Hi; destruct (decide (i = d)) as [->|]; [done|]; apply Hb; lia].
    rewrite (EMPTY_below n), <-Eb by done.
    destruct (bitAt_01 (hexBytes k') d) as [E|E]; fold (bitOf k' d) in E; rewrite E; cbn [Z.eqb]; repeat case_decide; try done;
      by rewrite reference_empty.
  - assert (k' ≠ k) as Hne by congruence. rewrite lookup_singleton_ne by done. cbn [entry_hash].
    rewrite compressed_seen, empty_climb by lia. cbn [leafNodeAtDepth linkHash default from_option].
    rewrite <-reference_singleton by lia. replace (TREE_DEPTH - S d)%nat with n by lia.
    destruct (bitAt_01 (hexBytes k') d) as [E|E], (bitAt_01 (hexBytes k) d) as [E'|E']; fold (bitOf k' d) in E; fold (bitOf k d) in E';
      rewrite E, E' in *; try done; cbn [Z.eqb]; repeat case_decide; try done; by rewrite reference_empty.
Qed.

Lemma prove_siblings_view (resolver : option StateV2NodeResolver) (n d : nat) (link : NodeLink) (m : content) (k : string) :
  view resolver d link m → (n + d = TREE_DEPTH)%nat → hex64 k → hex_keys m → on_path k d m →
  ∃ siblings, prove_siblings resolver n link k d = Ok siblings ∧ length siblings = n ∧ Forall (λ h, hex64 h) siblings ∧
    proof_climb (hexBytes k) (entry_hash k (m !! k)) siblings d = reference_root n d m.
Proof.
  revert d link m. induction n as [|n IH]; intros d link m Hv Hd Hk Hm Hp.
  { exists []. split_and!; [done..|]. cbn [proof_climb]. symmetry. apply reference_bottom; [lia|done|done|by eapply on_path_agree|done]. }
  destruct (decide (link = Undef)) as [->|Hne].
  { inversion Hv; subst. eexists. split; [reflexivity|]. rewrite lookup_empty, reference_empty. split_and!.
    - by rewrite length_map, length_seq.
    - apply Forall_forall. intros h Hh%list_elem_of_fmap. destruct Hh as (i & -> & _). apply emptyHash_hex.
    - by apply empty_climb. }
  destruct (view_resolve _ _ _ _ Hv Hne) as (node & Hres & Hcase).
  assert (prove_siblings resolver (S n) link k d =
    (node ← resolveNode resolver link d;
      match node with
      | LeafNode _ k' v x => Ok (compressed_siblings (S n) k' v x k false d)
      | BranchNode _ l r =>
        let goLeft := bitAt (hexBytes k) d =? 0 in
        rest ← prove_siblings resolver n (if goLeft then l else r) k (S d);
        Ok (default (EMPTY_HASHES (S d)) (linkHash (if goLeft then r else l)) :: rest)
      | _ => Ok []
      end)) as -> by (by destruct link).
  rewrite Hres. cbn [mbind res_bind]. destruct Hcase as [(k' & t & Hk' & -> & ->)|(l & r & -> & Hlt & Hl & Hr & _)].
  - cbn [leafNodeAtDepth]. eexists. split; [reflexivity|].
    destruct (compressed_length (S n) k' (valueHashOf t) t k false d). split_and!; [done..|].
    apply compressed_climb; [done..|]. intros i Hi. apply Hp; [by rewrite lookup_singleton_eq|done].
  - cbn [branchNode]. cbv zeta.
    destruct (IH (S d) _ _ (view_pick _ d l r m k Hl Hr) ltac:(lia) Hk (hex_keys_side _ _ _ Hm) (on_path_side _ _ _ Hp))
      as (rest & Hrest & Hlen & Hhex & Hclimb).
    rewrite Hrest. cbn [mbind res_bind]. eexists. split; [reflexivity|].
    pose proof (view_hash _ _ _ _ Hl ltac:(lia)) as El. pose proof (view_hash _ _ _ _ Hr ltac:(lia)) as Er.
    replace (TREE_DEPTH - S d)%nat with n in El, Er by lia.
    assert (m !! k = side (bitOf k d) d m !! k) as Hlk by (rewrite side_lookup; by rewrite decide_True).
    rewrite Hlk. cbn [length proof_climb reference_root]. rewrite Hlen, Hclimb. fold (bitOf k d).
    destruct (bitAt_01 (hexBytes k) d) as [E|E]; fold (bitOf k d) in E; rewrite E; cbn [Z.eqb].
    + rewrite Er. split_and!; [done| |done]. constructor; [apply reference_hex|done].
    + rewrite El. split_and!; [done| |done]. constructor; [apply reference_hex|done].
Qed.

Lemma on_path_0 (k : string) (m : content) : on_path k 0 m.
Proof. intros k' i _ Hi. lia. Qed.

(** The checks of [verifySparseMerkleProof] with the entry hash they climb from. *)
Lemma verify_cases (root key : string) (value : jsval units) (proof : SparseMerkleProof) :
  verifySparseMerkleProof root key value proof = true ↔
  hex64 root ∧ sp_version proof = 1 ∧ length (sp_siblings proof) = TREE_DEPTH ∧ sp_keyHash proof = keyHashOf key ∧
  Forall (λ h, hex64 h) (sp_siblings proof) ∧
  ∃ entry, (value = JNull ∧ entry = None ∨ value ≠ JNull ∧ ∃ t, valueText value = Ok t ∧ entry = Some t) ∧
    sp_valueHash proof = valueHashOf <$> entry ∧
    proof_climb (hexBytes (keyHashOf key)) (entry_hash (keyHashOf key) entry) (sp_siblings proof) 0 = root.
Proof.
  unfold verifySparseMerkleProof. cbv zeta. rewrite !andb_true_iff, Z.eqb_eq, Nat.eqb_eq, String.eqb_eq, forallb_forall.
  setoid_rewrite <-list_elem_of_In. rewrite <-Forall_forall.
  assert ((∃ entry, (value = JNull ∧ entry = None ∨ value ≠ JNull ∧ ∃ t, valueText value = Ok t ∧ entry = Some t) ∧
    sp_valueHash proof = valueHashOf <$> entry ∧
    proof_climb (hexBytes (keyHashOf key)) (entry_hash (keyHashOf key) entry) (sp_siblings proof) 0 = root) ↔
    match value with
    | JNull => negb (bool_decide (is_Some (sp_valueHash proof))) &&
        String.eqb (proof_climb (hexBytes (keyHashOf key)) (EMPTY_HASHES TREE_DEPTH) (sp_siblings proof) 0) root
    | _ => match valueText value with
           | Ok text => bool_decide (sp_valueHash proof = Some (valueHashOf text)) &&
               String.eqb (proof_climb (hexBytes (keyHashOf key)) (leafHash (keyHashOf key) (valueHashOf text)) (sp_siblings proof) 0) root
           | Throw _ => false
           end
    end = true) as ->; [|tauto].
  assert (value = JNull ∨ value ≠ JNull) as [->|Hnn] by (destruct value; auto; right; discriminate).
  - rewrite andb_true_iff, negb_true_iff, bool_decide_eq_false, String.eqb_eq, <-eq_None_not_Some. split.
    + intros (entry & [[_ ->]|[? _]] & Hv & Hc); [done|congruence].
    + intros [Hv Hc]. exists None. naive_solver.
  - transitivity (match valueText value with
           | Ok text => bool_decide (sp_valueHash proof = Some (valueHashOf text)) &&
               String.eqb (proof_climb (hexBytes (keyHashOf key)) (leafHash (keyHashOf key) (valueHashOf text)) (sp_siblings proof) 0) root
           | Throw _ => false
           end = true); [|by destruct value].
    destruct (valueText value) as [text|e]; [|naive_solver].
    rewrite andb_true_iff, bool_decide_eq_true, String.eqb_eq. split.
    + intros (entry & [[? _]|(_ & t & Ht & ->)] & Hv & Hc); [done|]. apply Ok_inj in Ht as ->. done.
    + intros [Hv Hc]. exists (Some text). naive_solver.
Qed.

Lemma proof_content (inputs : list (list Z)) (s : SparseMerkleState) (m : content) (key : string) (value : jsval units) (proof : SparseMerkleProof) :
  collision_free inputs → proof_inputs key value proof ++ content_inputs m ⊆ inputs →
  holds s m → verifySparseMerkleProof (sparse_root s) key value proof = true →
  (value = JNull ∧ m !! keyHashOf key = None) ∨
  (∃ t t', valueText value = Ok t ∧ utf8 t' = utf8 t ∧ m !! keyHashOf key = Some t').
Proof.
  intros Hfree Hin Hh (_ & _ & Hlen & _ & Hhex & entry & Hentry & _ & Hc)%verify_cases. rewrite (holds_root s m Hh) in Hc.
  assert (claimed_entry value = entry) as Hcl.
  { destruct Hentry as [[-> ->]|(Hnn & t & Ht & ->)]; [done|]. unfold claimed_entry. rewrite Ht. by destruct value. }
  unfold proof_inputs in Hin. rewrite Hcl in Hin. destruct Hh as (Hv & Hk & _).
  apply (climb_sound inputs Hfree) in Hc as [Hc Hi]; [|lia|apply hashWithDomain_hex|destruct entry; apply hashWithDomain_hex|done|apply on_path_0|done|done|
    apply covers_content; by eapply sub_app_r|eapply sub_app_r, sub_app_l; exact Hin].
  apply (entry_free inputs Hfree) in Hc; [|apply hashWithDomain_hex|eapply sub_app_l, sub_app_l; exact Hin|done].
  destruct Hentry as [[-> ->]|(_ & t & Ht & ->)]; destruct (m !! keyHashOf key) as [t'|]; try done; [by left|right].
  injection Hc as Hc. eauto.
Qed.

(** C30. A proof that verifies against the root of a tree tells the truth about
    it, for a key that is not empty: with the value [null] the key is absent,
    otherwise the key holds a text with the bytes of the claimed value's text.  The
    only way out is a collision among the byte strings hashed to check this proof
    and to build this tree (a list computed from the two), not the mere existence
    of one. *)
Theorem sparse_proof_sound (s : SparseMerkleState) (m : content) (key : string) (value : jsval units) (proof : SparseMerkleProof) :
  holds s m → key ≠ "" → verifySparseMerkleProof (sparse_root s) key value proof = true →
  (value = JNull ∧ sparse_get s key = Ok None) ∨
  (∃ t t', valueText value = Ok t ∧ utf8 t' = utf8 t ∧ sparse_get s key = Some <$> JSON_parse t') ∨
  collision_among (proof_inputs key value proof ++ content_inputs m).
Proof.
  intros Hh Hne Hv. rewrite (holds_get s m key Hh Hne).
  destruct (free_or_collision (proof_inputs key value proof ++ content_inputs m)) as [Hfree|]; [|eauto].
  destruct (proof_content _ s m key value proof Hfree ltac:(done) Hh Hv) as [[-> ->]|(t & t' & Ht & Hu & ->)]; eauto 10.
Qed.

(** What [prove] returns. *)
Lemma prove_holds (s : SparseMerkleState) (m : content) (key : string) :
  holds s m → key ≠ "" →
  ∃ siblings, prove s key = Ok (mkSparseProof 1 (keyHashOf key) (valueHashOf <$> m !! keyHashOf key) siblings) ∧
    length siblings = TREE_DEPTH ∧ Forall (λ h, hex64 h) siblings ∧
    proof_climb (hexBytes (keyHashOf key)) (entry_hash (keyHashOf key) (m !! keyHashOf key)) siblings 0 = sparse_root s.
Proof.
  intros Hh Hne. rewrite (holds_root s m Hh). pose proof (holds_find s m (keyHashOf key) Hh) as Hfind.
  destruct Hh as (Hv & Hk & _).
  destruct (prove_siblings_view (nodeResolver s) TREE_DEPTH 0 (rootNode s) m (keyHashOf key))
    as (siblings & Hs & Hlen & Hhex & Hclimb); [done|lia|apply hashWithDomain_hex|done|apply on_path_0|].
  exists siblings. split; [|done]. unfold prove. rewrite Hs. cbn [mbind res_bind]. rewrite Hfind.
  assert (Nat.eqb (String.length key) 0 = false) as -> by (by destruct key). by destruct (m !! keyHashOf key).
Qed.

Lemma prove_verifies (s : SparseMerkleState) (m : content) (key : string) :
  holds s m → key ≠ "" →
  ∃ proof, prove s key = Ok proof ∧
    ((sparse_get s key = Ok None ∧ verifySparseMerkleProof (sparse_root s) key JNull proof = true) ∨
     ∃ w, sparse_get s key = Ok (Some w) ∧ (w ≠ JNull → verifySparseMerkleProof (sparse_root s) key w proof = true)).
Proof.
  intros Hh Hne. destruct (prove_holds s m key Hh Hne) as (siblings & Hp & Hlen & Hhex & Hclimb).
  eexists. split; [exact Hp|]. rewrite (holds_get s m key Hh Hne).
  assert (hex64 (sparse_root s)) as Hroot by (rewrite (holds_root s m Hh); apply reference_hex).
  destruct Hh as (_ & _ & Hcan). destruct (m !! keyHashOf key) as [t|] eqn:E.
  - destruct (Hcan _ _ E) as (w & Hw & Hcw). right. exists w. rewrite Hw. split; [done|]. intros Hnn.
    apply verify_cases. do 5 (split; [first [reflexivity|assumption]|]). exists (Some t).
    split; [|split; [reflexivity|exact Hclimb]]. right. split; [done|]. exists t. split; [|done]. unfold valueText. by rewrite Hcw.
  - left. split; [done|]. apply verify_cases. do 5 (split; [first [reflexivity|assumption]|]). exists None.
    split; [by left|split; [reflexivity|exact Hclimb]].
Qed.

(** The tree can prove every entry: [prove] returns for every key, the
    value read under the key verifies against the root with it, and [null] does
    when the key is absent. *)
Theorem sparse_proof_complete (s : SparseMerkleState) (m : content) (key : string) :
  holds s m → key ≠ "" →
  ∃ proof, prove s key = Ok proof ∧
    ((sparse_get s key = Ok None ∧ verifySparseMerkleProof (sparse_root s) key JNull proof = true) ∨
     ∃ w, sparse_get s key = Ok (Some w) ∧ (w ≠ JNull → verifySparseMerkleProof (sparse_root s) key w proof = true)).
Proof. apply prove_verifies. Qed.

(** The root commits to the whole state: two trees with one root hold texts
    with the same bytes under every key, whatever writes led to them and whichever
    nodes they keep in memory; or two of the byte strings the trees are hashed from
    collide. *)
Theorem sparse_root_binding (s1 s2 : SparseMerkleState) (m1 m2 : content) :
  holds s1 m1 → holds s2 m2 → sparse_root s1 = sparse_root s2 →
  (∀ k, utf8 <$> m1 !! k = utf8 <$> m2 !! k) ∨ collision_among (content_inputs m1 ++ content_inputs m2).
Proof.
  intros H1 H2 E. destruct (free_or_collision (content_inputs m1 ++ content_inputs m2)) as [Hfree|]; [left|by right]. rewrite (holds_root _ _ H1), (holds_root _ _ H2) in E.
  destruct H1 as (_ & Hk1 & _), H2 as (_ & Hk2 & _).
  apply (reference_binding _ Hfree TREE_DEPTH 0 m1 m2); [lia|done|done|apply agree_0|apply agree_0|apply covers_content; by eapply sub_app_l|apply covers_content; by eapply sub_app_r|exact E].
Qed.

End map.

(** ** A tree of two entries *)

Module TreeExample.
Import ToyCrypto.

Definition va : jsval units := JObj [(lit "nonce", JNum (JInt 1)); (lit "balanceAtoms", JStr (lit "500"))].
Definition vb : jsval units := JBool true.
Definition text (v : jsval units) : units := match canonicalJson v with Ok (Some t) => t | _ => [] end.
Definition ma : content := {[ keyHashOf (H := toy) "account:a" := text va ]}.
Definition mab : content := <[ keyHashOf (H := toy) "epoch:7" := text vb ]> ma.

Lemma va_text : js_value va ∧ valueText va = Ok (text va).
Proof.
  split; [|vm_compute; reflexivity].
  split; [repeat (constructor; [set_solver|]); constructor|]. repeat split; repeat constructor; done.
Qed.
Lemma vb_text : js_value vb ∧ valueText vb = Ok (text vb).
Proof. split; [done|vm_compute; reflexivity]. Qed.

Lemma tree_a : ∃ s, sparse_set (H := toy) sparse_empty "account:a" va = Ok s ∧ holds s ma.
Proof. destruct va_text. apply (holds_set sparse_empty ∅); [apply holds_empty|done..]. Qed.
Lemma tree_ab : ∃ s, holds s mab.
Proof.
  destruct tree_a as (s & _ & Hs), vb_text as [Hj Ht].
  destruct (holds_set s ma "epoch:7" vb _ Hs ltac:(done) Hj Ht) as (s' & _ & Hs'). by exists s'.
Qed.
Lemma tree_ba : ∃ s, holds s mab.
Proof.
  destruct va_text as [Ha Hta], vb_text as [Hb Htb].
  destruct (holds_set sparse_empty ∅ "epoch:7" vb _ holds_empty ltac:(done) Hb Htb) as (s & _ & Hs).
  destruct (holds_set s _ "account:a" va _ Hs ltac:(done) Ha Hta) as (s' & _ & Hs'). exists s'.
  unfold mab, ma. rewrite insert_insert_ne in Hs'; [exact Hs'|]. vm_compute. discriminate.
Qed.

End TreeExample.

Lemma sparse_tree_is_map_witness :
  ∃ s, sparse_set (H := ToyCrypto.toy) sparse_empty "account:a" TreeExample.va = Ok s ∧
    sparse_get s "account:a" = Some <$> JSON_parse (TreeExample.text TreeExample.va).
Proof.
  destruct TreeExample.tree_a as (s & Hset & Hs). exists s. split; [exact Hset|].
  destruct (sparse_tree_is_map s TreeExample.ma "account:a" Hs ltac:(discriminate)) as (Hg & _).
  rewrite Hg. unfold TreeExample.ma. by rewrite lookup_singleton_eq.
Defined.

Lemma sparse_proof_sound_witness :
  ∃ (s : SparseMerkleState) proof, verifySparseMerkleProof (H := ToyCrypto.toy) (sparse_root s) "epoch:7" JNull proof = true ∧
    ((JNull = (JNull : jsval units) ∧ sparse_get s "epoch:7" = Ok None) ∨
     (∃ t t', valueText JNull = Ok t ∧ utf8 t' = utf8 t ∧ sparse_get s "epoch:7" = Some <$> JSON_parse t') ∨
     collision_among (proof_inputs "epoch:7" JNull proof ++ content_inputs TreeExample.ma)).
Proof.
  destruct TreeExample.tree_a as (s & _ & Hs). exists s.
  destruct (prove_verifies s TreeExample.ma "epoch:7" Hs ltac:(discriminate)) as (proof & _ & [[_ Hv]|(w & Hg & _)]).
  - exists proof. split; [exact Hv|]. exact (sparse_proof_sound s TreeExample.ma "epoch:7" JNull proof Hs ltac:(discriminate) Hv).
  - exfalso. rewrite (holds_get s TreeExample.ma "epoch:7" Hs ltac:(discriminate)) in Hg. revert Hg.
    unfold TreeExample.ma. rewrite lookup_singleton_ne; [discriminate|]. vm_compute. discriminate.
Defined.

Lemma sparse_proof_complete_witness :
  ∃ (s : SparseMerkleState) proof, prove (H := ToyCrypto.toy) s "account:a" = Ok proof ∧
    ((sparse_get s "account:a" = Ok None ∧ verifySparseMerkleProof (sparse_root s) "account:a" JNull proof = true) ∨
     ∃ w, sparse_get s "account:a" = Ok (Some w) ∧
       (w ≠ JNull → verifySparseMerkleProof (sparse_root s) "account:a" w proof = true)).
Proof.
  destruct TreeExample.tree_a as (s & _ & Hs). exists s.
  exact (sparse_proof_complete s TreeExample.ma "account:a" Hs ltac:(discriminate)).
Defined.

Lemma sparse_root_binding_witness :
  ∃ s1 s2 : SparseMerkleState, sparse_root (H := ToyCrypto.toy) s1 = sparse_root s2 ∧
    ((∀ k : string, utf8 <$> TreeExample.mab !! k = utf8 <$> TreeExample.mab !! k) ∨
     collision_among (content_inputs TreeExample.mab ++ content_inputs TreeExample.mab)).
Proof.
  destruct TreeExample.tree_ab as (s1 & H1), TreeExample.tree_ba as (s2 & H2). exists s1, s2.
  assert (sparse_root s1 = sparse_root s2) as E by (by rewrite (holds_root _ _ H1), (holds_root _ _ H2)).
  split; [exact E|]. exact (sparse_root_binding s1 s2 _ _ H1 H2 E).
Defined.
