(* ===== verification/StateV2.v ===== *)
(** Protocol-v2 ledger state on the authenticated tree (l1/src/state-v2.ts, lines
    340-770): semantic keys, account records, the transaction handlers and the
    rebuilding of the tree from a ledger snapshot.

    The handlers use the tree through its [get] and [set] only.  They are written
    against the class [StateStore], whose laws [StateStoreLaws] say that a store
    behaves as a map on the keys in use; the sparse Merkle tree is an instance as
    long as no two of those keys have the same hash. *)

From S2P Require Import Prelude Types Codec JsonText Crypto Vesting Activity Transaction TxShape Oracle Ledger SparseTree.

(** ** Semantic keys *)

Definition accountKey (address : Address) : string := "account:" +:+ address.
Definition activityEpochKey (epoch : Z) : string := "activity-epoch:" +:+ pretty epoch.
Definition validatorScheduleKey (activationHeight : Z) : string := "validator-schedule:" +:+ pretty activationHeight.
Definition protocolScheduleKey (activationHeight : Z) : string := "protocol-schedule:" +:+ pretty activationHeight.
Definition activityOracleGovernanceKey (activationHeight : Z) : string :=
  "activity-oracle-governance:" +:+ pretty activationHeight.

(** ** Values *)

Definition account_value (balanceAtoms nonce : Z) : jsval units :=
  to_units (JObj [("balanceAtoms", jint balanceAtoms); ("nonce", jint nonce)]).
Definition settled_value : jsval units := to_units (JObj [("settled", JBool true)]).
Definition validators_value (validators : list Validator) : jsval units :=
  to_units (JObj [("validators", JArr (map validator_json validators))]).
Definition oracle_governance_value (action : ActivityOracleGovernanceAction) (publicKeys : list string) : jsval units :=
  to_units (JObj [("action", JStr (action_text action)); ("publicKeys", JArr (map JStr publicKeys))]).
Definition protocol_value (protocolVersion : Z) : jsval units := to_units (JObj [("protocolVersion", jint protocolVersion)]).

(** [value.name]; an absent member is [undefined]. *)
Definition member (value : jsval units) (name : string) : jsval units :=
  match value with
  | JObj entries => match find (λ e, bool_decide (e.1 = lit name)) entries with Some e => e.2 | None => JUndefined end
  | _ => JUndefined
  end.

(** [Number.isSafeInteger(value)] with the integer. *)
Definition safe_member (value : jsval units) : option Z :=
  match value with
  | JNum (JInt z) => if isSafeInteger z then Some z else None
  | JNum JNegZero => Some 0
  | _ => None
  end.

Definition MINING_RETIRED : bool := true.
Definition assertMiningNotRetired : res unit := throw_if MINING_RETIRED MINING_RETIRED_MESSAGE.

(** Schedules as lists of activation heights with their entries; [V] is the
    type of a validator, the values of a JSON text where it was not checked. *)
Record GovernanceOf (V : Type) := mkGovernance {
  gs_validatorSchedule : list (Z * list V);
  gs_protocolSchedule : list (Z * Z);
  gs_activityOracleGovernance : option (list (Z * ActivityOracleGovernanceAction * list string)) }.
Arguments mkGovernance {V}.
Arguments gs_validatorSchedule {V}.
Arguments gs_protocolSchedule {V}.
Arguments gs_activityOracleGovernance {V}.
Definition StateV2GovernanceSnapshot : Type := GovernanceOf Validator.

(** ** The store interface *)

Class StateStore (S : Type) := {
  store_get : S → string → res (option (jsval units));
  store_set : S → string → jsval units → res S }.

#[global] Instance sparse_store `{Crypto} : StateStore SparseMerkleState := {|
  store_get := sparse_get;
  store_set := sparse_set |}.

Section handlers.
Context {S : Type} `{StateStore S}.

Definition CORRUPT_ACCOUNT : string := "Corrupt protocol v2 account state".

Definition stateV2Account (state : S) (address : Address) : res AccountState :=
  value ← store_get state (accountKey address);
  match value with
  | None => Ok (mkAccount 0 0)
  | Some v =>
    match safe_member (member v "balanceAtoms"), safe_member (member v "nonce") with
    | Some b, Some n =>
      throw_if ((b <? 0) || (MAX_SUPPLY_ATOMS <? b) || (n <? 0)) CORRUPT_ACCOUNT;;
      Ok (mkAccount b n)
    | _, _ => Throw CORRUPT_ACCOUNT
    end
  end.

Definition stateV2Balance (state : S) (address : Address) : res Z :=
  account ← stateV2Account state address; Ok (balanceAtoms account).
Definition stateV2Nonce (state : S) (address : Address) : res Z :=
  account ← stateV2Account state address; Ok (nonce account).

Definition requireStateV2Nonce (state : S) (address : Address) (n : Z) : res unit :=
  account ← stateV2Account state address;
  throw_if (negb (n =? nonce account + 1)) "Invalid nonce".

Definition debitStateV2 (state : S) (address : Address) (amount : Z) : res S :=
  account ← stateV2Account state address;
  throw_if (balanceAtoms account <? amount) "Insufficient balance";;
  store_set state (accountKey address) (account_value (balanceAtoms account - amount) (nonce account)).

Definition creditStateV2 (state : S) (address : Address) (amount : Z) : res S :=
  account ← stateV2Account state address;
  let next := balanceAtoms account + amount in
  throw_if (negb (isSafeInteger next) || (MAX_SUPPLY_ATOMS <? next)) "Balance overflow";;
  store_set state (accountKey address) (account_value next (nonce account)).

Definition setStateV2Nonce (state : S) (address : Address) (n : Z) : res S :=
  account ← stateV2Account state address;
  store_set state (accountKey address) (account_value (balanceAtoms account) n).

Definition creditStateV2ProducerFee (state : S) (feeAtoms : Z) (fee : FixedFeeApplication) (activityPool : Address) : res S :=
  throw_if (negb (feeAtoms =? ff_fixedTransferFeeAtoms fee)) FIXED_FEE_MISMATCH_MESSAGE;;
  split ← splitFixedFee feeAtoms;
  let producerAtoms := split.2 in
  if producerAtoms <=? 0 then Ok state else
  throw_if (String.eqb (ff_producer fee) MINING_TRACKER_ADDRESS) "Mining tracker address is protocol-reserved";;
  assertNoActivityPoolInflow (ff_producer fee) activityPool;;
  creditStateV2 state (ff_producer fee) producerAtoms.

(** The branches of [applyStateV2Transaction]. *)
Definition transferStateV2 (state : S) (tx : TransferTx) (activityPool : Address) (locks : option AllocationLockContext)
    (oracles : option ActivityOracleSet) (fee : option FixedFeeApplication) (rollingWindow : bool) : res S :=
  assertNoActivityPoolInflow (tr_receiver tx) activityPool;;
  assertNoActivityPoolDirectDebit (tr_sender tx) activityPool oracles;;
  throw_if (rollingWindow && isActivityWindowAddress (tr_receiver tx)) ACTIVITY_WINDOW_RESERVED_MESSAGE;;
  throw_if (String.eqb (tr_sender tx) MINING_TRACKER_ADDRESS || String.eqb (tr_receiver tx) MINING_TRACKER_ADDRESS)
    "Mining tracker address is protocol-reserved";;
  requireStateV2Nonce state (tr_sender tx) (tr_nonce tx);;
  let total := tr_amountAtoms tx + tr_feeAtoms tx in
  throw_if (negb (isSafeInteger total)) "Insufficient balance";;
  senderBalance ← stateV2Balance state (tr_sender tx);
  throw_if (senderBalance <? total) "Insufficient balance";;
  assertAllocationLockOutflow locks (tr_sender tx) senderBalance total;;
  next ← debitStateV2 state (tr_sender tx) total;
  next ← creditStateV2 next (tr_receiver tx) (tr_amountAtoms tx);
  next ← match fee with
         | Some f => creditStateV2ProducerFee next (tr_feeAtoms tx) f activityPool
         | None => Ok next
         end;
  setStateV2Nonce next (tr_sender tx) (tr_nonce tx).

Definition settleStateV2 (state : S) (tx : ActivitySettlementTx) (activityPool : Address) (locks : option AllocationLockContext)
    (oracles : option ActivityOracleSet) (rollingWindow : bool) : res S :=
  throw_if (negb (String.eqb (as_sender tx) activityPool)) "Invalid activity pool sender";;
  res_forall (λ entry, assertNoActivityPoolInflow (e_receiver entry) activityPool) (as_entries tx);;
  throw_if (existsb (λ entry, String.eqb (e_receiver entry) MINING_TRACKER_ADDRESS) (as_entries tx))
    "Mining tracker address is protocol-reserved";;
  settled ← store_get state (activityEpochKey (as_epoch tx));
  throw_if (bool_decide (is_Some settled)) "Activity epoch already settled";;
  later ← store_get state (activityEpochKey (as_epoch tx + 1));
  throw_if (bool_decide (is_Some later)) ACTIVITY_ORDER_MESSAGE;;
  requireStateV2Nonce state activityPool (as_nonce tx);;
  let capAtoms := activitySettlementCapAtoms oracles in
  total ← assertActivitySettlementWithinCap (as_entries tx) capAtoms;
  (if rollingWindow then
     throw_if (existsb (λ entry, isActivityWindowAddress (e_receiver entry)) (as_entries tx)) ACTIVITY_WINDOW_RESERVED_MESSAGE;;
     timestampMs ← stateV2Nonce state ACTIVITY_WINDOW_TIME_ADDRESS;
     amountAtoms ← stateV2Nonce state ACTIVITY_WINDOW_AMOUNT_ADDRESS;
     assertActivityRollingWindow (mkWindowRecord timestampMs amountAtoms) (lc_blockTimestampMs <$> locks) total capAtoms
   else Ok ());;
  poolBalance ← stateV2Balance state activityPool;
  throw_if (poolBalance <? total) "Insufficient balance";;
  assertAllocationLockOutflow locks activityPool poolBalance total;;
  next ← debitStateV2 state activityPool total;
  next ← res_fold (λ next entry, creditStateV2 next (e_receiver entry) (e_amountAtoms entry)) next (as_entries tx);
  next ← setStateV2Nonce next activityPool (as_nonce tx);
  next ← (if rollingWindow then
            (* [locks!.blockTimestampMs]: the window check above has read it. *)
            next ← setStateV2Nonce next ACTIVITY_WINDOW_TIME_ADDRESS (from_option lc_blockTimestampMs 0 locks);
            setStateV2Nonce next ACTIVITY_WINDOW_AMOUNT_ADDRESS total
          else Ok next);
  store_set next (activityEpochKey (as_epoch tx)) settled_value.

(** The last three kinds: the nonce, then one schedule entry. *)
Definition governStateV2 (state : S) (sender : Address) (n : Z) (key : string) (value : jsval units) : res S :=
  throw_if (String.eqb sender MINING_TRACKER_ADDRESS) "Mining tracker address is protocol-reserved";;
  requireStateV2Nonce state sender n;;
  next ← setStateV2Nonce state sender n;
  store_set next key value.

Definition applyStateV2Transaction `{Crypto} (state : S) (tx : Transaction) (activityPool : Address)
    (locks : option AllocationLockContext) (oracles : option ActivityOracleSet) (fee : option FixedFeeApplication) : res S :=
  let rollingWindow := activityRollingWindowEnforced oracles in
  match tx with
  | Transfer t => transferStateV2 state t activityPool locks oracles fee rollingWindow
  | ActivitySettlement t =>
    (match oracles with
     | Some o =>
       assertActivitySettlementAuthorized t o
         (mkAuthContext (Some (as_chainId t)) (lc_blockTimestampMs <$> locks) (os_timestampMs o))
     | None => Ok ()
     end);;
    settleStateV2 state t activityPool locks oracles rollingWindow
  | MiningClaim t =>
    assertMiningNotRetired;;
    Throw "Mining claim requires chain-context State-v2 application"
  | ValidatorUpdate t =>
    governStateV2 state (vu_sender t) (vu_nonce t) (validatorScheduleKey (vu_activationHeight t)) (validators_value (vu_validators t))
  | ActivityOracleGovernance t =>
    governStateV2 state (og_sender t) (og_nonce t) (activityOracleGovernanceKey (og_activationHeight t))
      (oracle_governance_value (og_action t) (og_publicKeys t))
  | ProtocolUpgrade t =>
    governStateV2 state (pu_sender t) (pu_nonce t) (protocolScheduleKey (pu_activationHeight t)) (protocol_value (pu_protocolVersion t))
  end.

(** ** Rebuilding the state from a ledger snapshot *)

(** One of the loops of [stateV2FromLedgerSnapshotSteps]: an entry per item. *)
Definition set_each {A} (key : A → string) (value : A → jsval units) (state : S) (items : list A) : res S :=
  res_fold (λ state item, store_set state (key item) (value item)) state items.

Definition stateV2FromLedgerSnapshotSteps {V} (validatorsValue : list V → jsval units) (empty : S) (snapshot : LedgerSnapshot)
    (governance : option (GovernanceOf V)) : res S :=
  state ← set_each (λ a, accountKey (ar_address a)) (λ a, account_value (ar_balanceAtoms a) (ar_nonce a)) empty
    (js_sort (λ a b, text_le (ar_address a) (ar_address b)) (sn_accounts snapshot));
  state ← set_each activityEpochKey (λ _, settled_value) state (js_sort Z.leb (sn_settledActivityEpochs snapshot));
  match governance with
  | None => Ok state
  | Some g =>
    state ← set_each (λ e, validatorScheduleKey e.1) (λ e, validatorsValue e.2) state
      (js_sort (λ a b, a.1 <=? b.1) (gs_validatorSchedule g));
    state ← set_each (λ e, protocolScheduleKey e.1) (λ e, protocol_value e.2) state
      (js_sort (λ a b, a.1 <=? b.1) (gs_protocolSchedule g));
    set_each (λ e, activityOracleGovernanceKey e.1.1) (λ e, oracle_governance_value e.1.2 e.2) state
      (js_sort (λ a b, a.1.1 <=? b.1.1) (default [] (gs_activityOracleGovernance g)))
  end.

End handlers.

(** The generator run to its end. *)
Definition stateV2FromLedgerSnapshot `{Crypto} (snapshot : LedgerSnapshot) (governance : option StateV2GovernanceSnapshot)
    : res SparseMerkleState :=
  stateV2FromLedgerSnapshotSteps validators_value sparse_empty snapshot governance.

(** ** Values that are their own canonical form *)

Fixpoint keys_ascend (l : list (units * jsval units)) : bool :=
  match l with
  | e :: ((e' :: _) as l') => units_lt e.1 e'.1 && keys_ascend l'
  | _ => true
  end.

(** Safe numbers, sorted members, nothing omitted. *)
Fixpoint tidy (v : jsval units) (d : Z) : bool :=
  match v with
  | JUndefined | JFunction | JNum JNegZero | JNum JFrac => false
  | JNull | JBool _ => true
  | JNum (JInt z) => isSafeInteger z
  | JStr s => forallb (λ u, (0 <=? u) && (u <? 65536)) s
  | JArr items => (d <=? MAX_CANONICAL_JSON_DEPTH) && forallb (λ i, tidy i (d + 1)) items
  | JObj entries => (d <=? MAX_CANONICAL_JSON_DEPTH) && keys_ascend entries &&
      forallb (λ e, negb (isArrayIndex e.1) && forallb (λ u, (0 <=? u) && (u <? 65536)) e.1 && tidy e.2 (d + 1)) entries
  end.

Lemma unit_range_forallb (s : units) : forallb (λ u, (0 <=? u) && (u <? 65536)) s = true → Forall unit_range s.
Proof.
  rewrite forallb_forall. intros Hs. apply Forall_forall. intros u Hu. apply list_elem_of_In, Hs in Hu.
  apply andb_true_iff in Hu as [?%Z.leb_le ?%Z.ltb_lt]. by split.
Qed.

Lemma units_lt_trans (a b c : units) : units_lt a b = true → units_le b c = true → units_lt a c = true.
Proof.
  unfold units_lt. rewrite !negb_true_iff. intros Hab Hbc. destruct (units_le c a) eqn:E; [|done].
  by rewrite (units_le_trans b c a) in Hab.
Qed.

Lemma keys_ascend_sorted (l : list (units * jsval units)) :
  keys_ascend l = true → StronglySorted (λ a b, units_lt a.1 b.1 = true) l.
Proof.
  induction l as [|e [|e' l] IH]; intros Hl; [constructor|by repeat constructor|].
  cbn [keys_ascend] in Hl. apply andb_true_iff in Hl as [Hlt Hl]. specialize (IH Hl).
  constructor; [done|]. inversion IH as [|? ? Hs Hall]; subst. constructor; [done|].
  eapply Forall_impl; [exact Hall|]. intros x Hx. cbn in Hx. eapply units_lt_trans; [done|].
  unfold units_lt in Hx. apply negb_true_iff, units_le_total in Hx. done.
Qed.

Lemma tidy_normalize (v : jsval units) (d : Z) :
  tidy v d = true → normalize v d = Ok v ∧ erase v = v ∧ js_value v ∧ isOmitted v = false.
Proof.
  revert d. induction v as [| | |b|n|s|items IH|entries IH] using jsval_ind'; intros d Ht; try done.
  - destruct n as [z| |]; try done. cbn in Ht |- *. by rewrite Ht.
  - split_and!; try done. by apply unit_range_forallb.
  - cbn [tidy] in Ht. apply andb_true_iff in Ht as [Hd Ht]. rewrite forallb_forall in Ht.
    assert (Forall (λ i, normalize i (d + 1) = Ok i ∧ erase i = i ∧ js_value i ∧ isOmitted i = false) items) as Hi.
    { rewrite Forall_forall in IH |- *. intros i Hi. apply IH; [done|]. by apply Ht, list_elem_of_In. }
    assert (assertCanonicalContainerBoundary d = Ok ()) as Hb.
    { unfold assertCanonicalContainerBoundary. apply throw_if_Ok. apply Z.leb_le in Hd. by apply Z.ltb_ge. }
    clear IH Ht. cbn [normalize erase isOmitted]. rewrite Hb. cbn [mbind res_bind].
    assert (res_seq (map (λ i, normalize i (d + 1)) items) = Ok items ∧
      map (λ i, if isOmitted i then JNull else erase i) items = items ∧ Forall js_value items) as (E1 & E2 & E3).
    { induction Hi as [|i items (H1 & H2 & H3 & H4) _ (E1 & E2 & E3)]; [by repeat split|].
      cbn [map res_seq]. rewrite H1, H4, E2, H2. cbn [mbind res_bind]. rewrite E1. repeat split. by constructor. }
    rewrite E1, E2. split_and!; try done. by apply js_value_items.
  - cbn [tidy] in Ht. rewrite !andb_true_iff, forallb_forall in Ht. destruct Ht as [[Hd Hs] Ht].
    apply keys_ascend_sorted in Hs.
    assert (Forall (λ e, isArrayIndex e.1 = false ∧ Forall unit_range e.1 ∧
      normalize e.2 (d + 1) = Ok e.2 ∧ erase e.2 = e.2 ∧ js_value e.2 ∧ isOmitted e.2 = false) entries) as He.
    { rewrite Forall_forall in IH |- *. intros e He. specialize (IH e He (d + 1)). apply list_elem_of_In, Ht in He.
      rewrite !andb_true_iff, negb_true_iff in He. destruct He as [[Hx Hr] Hty]. split; [done|].
      split; [by apply unit_range_forallb|]. by apply IH. }
    clear IH Ht.
    assert (NoDup entries.*1) as Hnd.
    { clear He. induction Hs as [|e l Hs IH Hall]; csimpl; constructor; [|done].
      intros (x & Hx & Hin)%list_elem_of_fmap. rewrite Forall_forall in Hall. specialize (Hall x Hin).
      unfold units_lt in Hall. rewrite Hx, units_le_refl in Hall. done. }
    assert (fromEntries entries = entries) as Hfe.
    { apply fromEntries_id. eapply Forall_impl; [exact He|]. naive_solver. }
    assert (map (λ e, (e.1, erase e.2)) entries = entries) as Her.
    { clear Hs Hnd Hfe. induction He as [|[k v] l (_ & _ & _ & E & _) _ IH]; [done|]. cbn in *. by rewrite E, IH. }
    assert (filter (λ e, isOmitted e.2 = false) entries = entries) as Hfi.
    { clear Hs Hnd Hfe Her. induction He as [|[k v] l (_ & _ & _ & _ & _ & E) _ IH]; [done|]. rewrite filter_cons, IH. cbn. by rewrite decide_True. }
    split_and!.
    + apply normalize_object. exists entries. rewrite Hfe. split_and!; [|done|].
      { unfold assertCanonicalContainerBoundary. apply throw_if_Ok. apply Z.leb_le in Hd. by apply Z.ltb_ge. }
      assert (sortEntries entries = entries) as ->.
      { apply js_sort_id. clear -Hs. induction Hs as [|x l _ IH Hall]; constructor; [done|].
        eapply Forall_impl; [exact Hall|]. intros y Hy. rewrite key_le_units. unfold units_lt in Hy.
        by apply negb_true_iff, units_le_total in Hy. }
      clear -He. induction He as [|e l (_ & _ & E & _) _ IH]; by constructor.
    + cbn [erase]. by rewrite Her, Hfi.
    + apply js_value_entries. split; [done|]. eapply Forall_impl; [exact He|]. naive_solver.
    + done.
Qed.

Lemma lit_tidy (s : string) : forallb (λ u, (0 <=? u) && (u <? 65536)) (lit s) = true.
Proof.
  apply forallb_forall. intros u Hu. apply list_elem_of_In, list_elem_of_fmap in Hu as (c & -> & _).
  pose proof (Ascii.N_ascii_bounded c). apply andb_true_iff. split; [apply Z.leb_le|apply Z.ltb_lt]; lia.
Qed.

Lemma tidy_account (b n : Z) :
  isSafeInteger b = true → isSafeInteger n = true → tidy (account_value b n) 0 = true.
Proof. intros Hb Hn. cbn. by rewrite Hb, Hn. Qed.

Lemma tidy_protocol (v : Z) : isSafeInteger v = true → tidy (protocol_value v) 0 = true.
Proof. intros Hv. cbn. by rewrite Hv. Qed.

Lemma tidy_strings (l : list string) (d : Z) :
  d ≤ MAX_CANONICAL_JSON_DEPTH → tidy (to_units (JArr (map JStr l))) d = true.
Proof.
  intros Hd. cbn [to_units tidy]. apply andb_true_iff. split; [by apply Z.leb_le|].
  induction l as [|s l IH]; [done|]. cbn [map forallb to_units tidy]. by rewrite lit_tidy, IH.
Qed.

Lemma tidy_oracle_governance (action : ActivityOracleGovernanceAction) (keys : list string) :
  tidy (oracle_governance_value action keys) 0 = true.
Proof.
  pose proof (tidy_strings keys 1 ltac:(unfold MAX_CANONICAL_JSON_DEPTH; lia)) as Hk.
  change (oracle_governance_value action keys) with
    (JObj [(lit "action", JStr (lit (action_text action))); (lit "publicKeys", to_units (JArr (map JStr keys)))]).
  revert Hk. generalize (to_units (JArr (map JStr keys))). intros x Hx. cbn [tidy forallb fst snd]. change (0 + 1) with 1.
  rewrite Hx. by destruct action.
Qed.

Lemma tidy_validators (l : list Validator) : tidy (validators_value l) 0 = true.
Proof.
  assert (tidy (to_units (JArr (map validator_json l))) 1 = true) as Hl.
  { cbn [to_units tidy]. apply andb_true_iff. split; [done|]. induction l as [|v l IH]; [done|].
    cbn [map forallb]. rewrite IH, andb_true_r. cbn [validator_json to_units map tidy forallb fst snd].
    by rewrite !lit_tidy. }
  change (validators_value l) with (JObj [(lit "validators", to_units (JArr (map validator_json l)))]).
  revert Hl. generalize (to_units (JArr (map validator_json l))). intros x Hx. cbn [tidy forallb fst snd]. change (0 + 1) with 1.
  by rewrite Hx.
Qed.

(** ** The laws of a store, and the tree as an instance *)

(** On the keys [K] the store is a map; [stands_for s m] says which. *)
Class StateStoreLaws (S : Type) `{StateStore S} (K : gset string) := {
  stands_for : S → gmap string (jsval units) → Prop;
  store_get_law s m key : stands_for s m → key ∈ K → store_get s key = Ok (m !! key);
  store_set_law s m key v : stands_for s m → key ∈ K → tidy v 0 = true →
    ∃ s', store_set s key v = Ok s' ∧ stands_for s' (<[key := v]> m) }.

Definition value_text (v : jsval units) : units := match canonicalJson v with Ok (Some t) => t | _ => [] end.

Lemma tidy_text (v : jsval units) :
  tidy v 0 = true → valueText v = Ok (value_text v) ∧ JSON_parse (value_text v) = Ok v.
Proof.
  intros Ht. destruct (tidy_normalize v 0 Ht) as (Hn & He & Hj & Ho).
  destruct (stringify v) as [t|] eqn:E; [|by apply omitted_stringify in E; congruence].
  destruct (canonicalJson_parse v v t Hj Hn E) as [Hp Hc]. rewrite He in Hp, Hc.
  unfold valueText, value_text. by rewrite Hc.
Qed.

(** No two keys in use have the same hash. *)
Definition hashes_apart `{Crypto} (K : gset string) : Prop :=
  "" ∉ K ∧ ∀ k1 k2, k1 ∈ K → k2 ∈ K → keyHashOf k1 = keyHashOf k2 → k1 = k2.

(** The content of the tree for the values [m]. *)
Definition hashed `{Crypto} (m : gmap string (jsval units)) (c : gmap string units) : Prop :=
  ∀ h t, c !! h = Some t ↔ ∃ k v, m !! k = Some v ∧ keyHashOf k = h ∧ t = value_text v.

(** The content computed from the values, and the byte strings hashed for the keys
    and for the tree of the values. *)
Definition content_of `{Crypto} (m : gmap string (jsval units)) : gmap string units :=
  list_to_map ((λ kv, (keyHashOf kv.1, value_text kv.2)) <$> map_to_list m).
Definition key_inputs (K : gset string) : list (list Z) := (λ k, preimage KEY_DOMAIN [utf8 (lit k)]) <$> elements K.
Definition values_inputs `{Crypto} (m : gmap string (jsval units)) : list (list Z) :=
  key_inputs (dom m) ++ content_inputs (content_of m).

Lemma hashed_content_of `{Crypto} (K : gset string) (m : gmap string (jsval units)) :
  hashes_apart K → dom m ⊆ K → hashed m (content_of m).
Proof.
  intros [_ Hap] Hd h t. unfold content_of.
  assert (NoDup (((λ kv, (keyHashOf kv.1, value_text kv.2)) <$> map_to_list m).*1)) as Hnd.
  { assert (∀ k v, (k, v) ∈ map_to_list m → k ∈ K) as Hin by (intros k v Hkv; apply Hd; apply elem_of_map_to_list in Hkv; by eapply elem_of_dom_2).
    pose proof (NoDup_fst_map_to_list m) as Hn. revert Hin Hn. induction (map_to_list m) as [|[k v] l IH]; intros Hin Hn; [constructor|].
    cbn in Hn |- *. apply NoDup_cons in Hn as [Hk Hn]. apply NoDup_cons. split; [|apply IH; [intros k' v' Hk'; eapply Hin; by right|done]].
    rewrite <-list_fmap_compose. intros ([k' v'] & E & Hk')%list_elem_of_fmap. cbn in E. apply Hk.
    rewrite (Hap k k'); [apply list_elem_of_fmap; by exists (k', v')|eapply Hin; by left|eapply Hin; by right|done]. }
  rewrite <-elem_of_list_to_map by done. rewrite list_elem_of_fmap. split.
  - intros ([k v] & [= -> ->] & Hkv%elem_of_map_to_list). by exists k, v.
  - intros (k & v & Hkv & <- & ->). exists (k, v). split; [done|by apply elem_of_map_to_list].
Qed.

Lemma hashed_unique `{Crypto} (m : gmap string (jsval units)) (c c' : gmap string units) : hashed m c → hashed m c' → c = c'.
Proof. intros Hc Hc'. apply map_eq. intros h. apply option_eq. intros t. by rewrite (Hc h t), (Hc' h t). Qed.

Lemma hashed_is `{Crypto} (K : gset string) (m : gmap string (jsval units)) (c : gmap string units) :
  hashes_apart K → dom m ⊆ K → hashed m c → c = content_of m.
Proof. intros Hap Hd Hc. eapply hashed_unique; [done|by eapply hashed_content_of]. Qed.

Definition sparse_stands `{Crypto} (K : gset string) (s : SparseMerkleState) (m : gmap string (jsval units)) : Prop :=
  dom m ⊆ K ∧ map_Forall (λ _ v, tidy v 0 = true) m ∧ ∃ c, holds s c ∧ hashed m c.

Section sparse_laws.
Context `{CryptoLaws} (K : gset string) (Hapart : hashes_apart K).

Lemma hashed_lookup (m : gmap string (jsval units)) (c : gmap string units) (key : string) :
  dom m ⊆ K → hashed m c → key ∈ K → c !! keyHashOf key = value_text <$> m !! key.
Proof using Hapart.
  intros Hd Hh Hk. apply option_eq. intros t. rewrite (Hh (keyHashOf key) t). rewrite fmap_Some. split.
  - intros (k & v & Hm & E & ->). assert (k = key) as ->; [|eauto]. apply Hapart; [|done|done].
    apply Hd. by eapply elem_of_dom_2.
  - intros (v & Hm & ->). eauto.
Qed.

Lemma hashed_insert (m : gmap string (jsval units)) (c : gmap string units) (key : string) (v : jsval units) :
  dom m ⊆ K → hashed m c → key ∈ K → hashed (<[key := v]> m) (<[keyHashOf key := value_text v]> c).
Proof using Hapart.
  intros Hd Hh Hk h t. destruct (decide (keyHashOf key = h)) as [<-|Hn].
  - rewrite lookup_insert_eq. split.
    + intros [= <-]. exists key, v. by rewrite lookup_insert_eq.
    + intros (k & w & Hw & E & ->). apply lookup_insert_Some in Hw as [[<- <-]|[Hkk Hw]]; [done|].
      destruct Hkk. symmetry. apply Hapart; [|done|done]. apply Hd. by eapply elem_of_dom_2.
  - rewrite lookup_insert_ne by done. rewrite (Hh h t). split.
    + intros (k & w & Hw & E & ->). exists k, w. rewrite lookup_insert_ne; [done|]. congruence.
    + intros (k & w & Hw & E & ->). exists k, w. rewrite lookup_insert_ne in Hw; [done|]. congruence.
Qed.

#[global] Program Instance sparse_laws : StateStoreLaws SparseMerkleState K := {| stands_for := sparse_stands K |}.
Next Obligation.
  intros s m key (Hd & Ht & c & Hc & Hh) Hk. cbn [store_get sparse_store].
  assert (key ≠ "") as Hne by (intros ->; by destruct Hapart).
  rewrite (holds_get s c key Hc Hne), (hashed_lookup m c key Hd Hh Hk).
  destruct (m !! key) as [v|] eqn:E; [|done]. cbn. destruct (tidy_text v (Ht _ _ E)) as [_ ->]. done.
Qed.
Next Obligation.
  intros s m key v (Hd & Ht & c & Hc & Hh) Hk Hv. cbn [store_set sparse_store].
  assert (key ≠ "") as Hne by (intros ->; by destruct Hapart).
  destruct (tidy_text v Hv) as [Htext _], (tidy_normalize v 0 Hv) as (_ & _ & Hj & _).
  destruct (holds_set s c key v _ Hc Hne Hj Htext) as (s' & Hs & Hc'). exists s'. split; [done|].
  split; [|split].
  - intros k. rewrite dom_insert, elem_of_union, elem_of_singleton. intros [->|Hin]; [done|by apply Hd].
  - by apply map_Forall_insert_2.
  - exists (<[keyHashOf key := value_text v]> c). split; [done|]. by apply hashed_insert.
Qed.

End sparse_laws.

(** ** Simulation of the ledger *)

Lemma accountKey_inj (a b : Address) : accountKey a = accountKey b → a = b.
Proof. intros E. by injection E. Qed.
Lemma activityEpochKey_inj (x y : Z) : activityEpochKey x = activityEpochKey y → x = y.
Proof. intros E. injection E as E. by apply (inj pretty). Qed.
Lemma account_epoch (a : Address) (e : Z) : accountKey a ≠ activityEpochKey e.
Proof. discriminate. Qed.

(** A key of neither of the two ledger families. *)
Definition other_key (key : string) : Prop := (∀ a, key ≠ accountKey a) ∧ ∀ e, key ≠ activityEpochKey e.

(** The values the ledger [st] and the schedule entries [g] have in the store. *)
Record mirrors (st : LedgerState) (g m : gmap string (jsval units)) : Prop := {
  mi_account a : m !! accountKey a = (λ acc, account_value (balanceAtoms acc) (nonce acc)) <$> accounts st !! a;
  mi_epoch e : m !! activityEpochKey e = if decide (e ∈ settledActivityEpochs st) then Some settled_value else None;
  mi_other key : other_key key → m !! key = g !! key }.

Lemma mirrors_account (st : LedgerState) (g m : gmap string (jsval units)) (a : Address) (acc : AccountState) :
  mirrors st g m → mirrors (setAccount st a acc) g (<[accountKey a := account_value (balanceAtoms acc) (nonce acc)]> m).
Proof.
  intros [Ha He Ho]. split.
  - intros b. cbn [setAccount accounts]. destruct (decide (a = b)) as [->|Hne]; [by rewrite !lookup_insert_eq|].
    rewrite !lookup_insert_ne; [apply Ha|done|]. by intros ?%accountKey_inj.
  - intros e. rewrite lookup_insert_ne; [apply He|]. apply account_epoch.
  - intros key Hk. rewrite lookup_insert_ne; [by apply Ho|]. intros <-. by destruct (proj1 Hk a).
Qed.

Lemma mirrors_epoch (st : LedgerState) (g m : gmap string (jsval units)) (e : Z) :
  mirrors st g m →
  mirrors (mkLedger (accounts st) ({[e]} ∪ settledActivityEpochs st)) g (<[activityEpochKey e := settled_value]> m).
Proof.
  intros [Ha He Ho]. split.
  - intros a. rewrite lookup_insert_ne; [apply Ha|]. intros E. by destruct (account_epoch a e).
  - intros e'. cbn [settledActivityEpochs]. destruct (decide (e = e')) as [->|Hne].
    + rewrite lookup_insert_eq, decide_True; [done|]. set_solver.
    + rewrite lookup_insert_ne by (by intros ?%activityEpochKey_inj). rewrite He.
      destruct (decide (e' ∈ settledActivityEpochs st)); [rewrite decide_True; [done|set_solver]|].
      rewrite decide_False; [done|set_solver].
  - intros key Hk. rewrite lookup_insert_ne; [by apply Ho|]. intros <-. by destruct (proj2 Hk e).
Qed.

Lemma mirrors_other (st : LedgerState) (g m : gmap string (jsval units)) (key : string) (v : jsval units) :
  mirrors st g m → other_key key → mirrors st (<[key := v]> g) (<[key := v]> m).
Proof.
  intros [Ha He Ho] Hk. split.
  - intros a. rewrite lookup_insert_ne; [apply Ha|]. apply Hk.
  - intros e. rewrite lookup_insert_ne; [apply He|]. apply Hk.
  - intros key' Hk'. destruct (decide (key = key')) as [->|Hne]; [by rewrite !lookup_insert_eq|].
    rewrite !lookup_insert_ne by done. by apply Ho.
Qed.

(** Balances and nonces in the range the store accepts. *)
Definition in_range (st : LedgerState) : Prop :=
  map_Forall (λ _ acc, 0 ≤ balanceAtoms acc ≤ MAX_SUPPLY_ATOMS ∧ 0 ≤ nonce acc ≤ MAX_SAFE_INTEGER) (accounts st).

Lemma in_range_account (st : LedgerState) (a : Address) :
  in_range st → 0 ≤ balance st a ≤ MAX_SUPPLY_ATOMS ∧ 0 ≤ nonceOf st a ≤ MAX_SAFE_INTEGER.
Proof.
  intros Hr. unfold balance, nonceOf, accountOf. destruct (accounts st !! a) as [acc|] eqn:E; [by apply (Hr a acc)|]. done.
Qed.

Lemma in_range_set (st : LedgerState) (a : Address) (acc : AccountState) :
  in_range st → 0 ≤ balanceAtoms acc ≤ MAX_SUPPLY_ATOMS → 0 ≤ nonce acc ≤ MAX_SAFE_INTEGER → in_range (setAccount st a acc).
Proof. intros Hr Hb Hn. by apply map_Forall_insert_2. Qed.

Lemma supply_safe (b : Z) : 0 ≤ b ≤ MAX_SUPPLY_ATOMS → isSafeInteger b = true.
Proof. intros Hb. apply isSafeInteger_spec. unfold MAX_SUPPLY_ATOMS, ATOMS_PER_ZYN, MAX_SAFE_INTEGER in *. lia. Qed.

(** The errors of the two ledgers: the same message, except that a pool that cannot
    pay ([short]) is worded differently by them. *)
Definition same_error (short : Prop) (e e' : string) : Prop :=
  e' = e ∨ (short ∧ e = "Activity pool exhausted" ∧ e' = "Insufficient balance").

(** The transaction is a settlement that pays more than the pool has. *)
Definition pool_short (st : LedgerState) (tx : Transaction) (pool : Address) : Prop :=
  match tx with ActivitySettlement t => balance st pool < sumZ e_amountAtoms (as_entries t) | _ => False end.

Lemma settlement_cap_bounds (entries : list ActivityEntry) (cap total : Z) :
  assertActivitySettlementWithinCap entries cap = Ok total →
  0 ≤ total ≤ MAX_SAFE_INTEGER ∧ ∀ e, e ∈ entries → 0 ≤ e_amountAtoms e.
Proof.
  intros Ht. pose proof (settlement_total _ _ _ Ht) as (-> & Hcap & Hc1 & Hpos). split; [|done].
  unfold assertActivitySettlementWithinCap in Ht. apply res_bind_Ok in Ht as ([] & Hc%throw_if_Ok & _).
  pose proof (sumZ_nonneg e_amountAtoms entries Hpos). breflect. destruct Hc as [Hc _]. lia.
Qed.

Lemma rolling_timestamp (previous : ActivityWindowRecord) (locks : option AllocationLockContext) (total cap : Z) :
  assertActivityRollingWindow previous (lc_blockTimestampMs <$> locks) total cap = Ok () →
  0 ≤ from_option lc_blockTimestampMs 0 locks ≤ MAX_SAFE_INTEGER.
Proof.
  unfold assertActivityRollingWindow. intros Hr. apply res_bind_Ok in Hr as ([] & _ & Hr).
  destruct locks as [l|]; [|done]. cbn [fmap option_fmap option_map] in Hr.
  apply res_bind_Ok in Hr as ([] & Ht%throw_if_Ok & _). cbn. breflect. lia.
Qed.

Section simulation.
Context {S : Type} `{StateStore S} (K : gset string) `{!StateStoreLaws S K} (short : Prop).

Definition sim_state (st : LedgerState) (g : gmap string (jsval units)) (s : S) : Prop :=
  in_range st ∧ ∃ m, stands_for s m ∧ mirrors st g m.

(** A method of the ledger and a function of the store with the same effect. *)
Definition sim (g : gmap string (jsval units)) (r : LedgerState * res unit) (r' : res S) : Prop :=
  match r with
  | (st', Ok _) => ∃ s', r' = Ok s' ∧ sim_state st' g s'
  | (_, Throw e) => ∃ e', r' = Throw e' ∧ same_error short e e'
  end.

Lemma sim_bind (g : gmap string (jsval units)) (M : meth LedgerState unit) (k : unit → meth LedgerState unit)
    (F : res S) (k' : S → res S) (st : LedgerState) :
  sim g (M st) F → (∀ st' s', M st = (st', Ok ()) → sim_state st' g s' → sim g (k () st') (k' s')) →
  sim g ((M ≫= k) st) (F ≫= k').
Proof.
  intros HM Hk. rewrite meth_bind_run. unfold sim in HM. destruct (M st) as [st' [[]|e]] eqn:E.
  - destruct HM as (s' & -> & Hs). by apply Hk.
  - destruct HM as (e' & -> & He). exists e'. by split.
Qed.

Lemma sim_lift {A} (g : gmap string (jsval units)) (r : res A) (k : A → meth LedgerState unit) (k' : A → res S) (st : LedgerState) :
  (∀ a, r = Ok a → sim g (k a st) (k' a)) → sim g ((m_lift r ≫= k) st) (r ≫= k').
Proof.
  intros Hk. rewrite meth_bind_run. unfold m_lift. destruct r as [a|e]; [by apply Hk|].
  exists e. split; [done|by left].
Qed.

Lemma sim_guard (g : gmap string (jsval units)) (b : bool) (e e' : string) (k : unit → meth LedgerState unit) (k' : unit → res S) (st : LedgerState) :
  same_error short e e' → (b = false → sim g (k () st) (k' ())) → sim g ((m_throw_if b e ≫= k) st) (throw_if b e' ≫= k').
Proof.
  intros He Hk. rewrite meth_bind_run. unfold m_throw_if, m_lift. destruct b; cbn; [by exists e'|by apply Hk].
Qed.

Lemma sim_guard' (g : gmap string (jsval units)) (b : bool) (e e' : string) (k : unit → meth LedgerState unit) (k' : unit → res S) (st : LedgerState) :
  (b = true → same_error short e e') → (b = false → sim g (k () st) (k' ())) → sim g ((m_throw_if b e ≫= k) st) (throw_if b e' ≫= k').
Proof. destruct b; intros He Hk; [apply sim_guard; [by apply He|done]|]. rewrite meth_bind_run. by apply Hk. Qed.

Lemma same_error_refl (e : string) : same_error short e e.
Proof. by left. Qed.

Lemma sim_throw (g : gmap string (jsval units)) (st : LedgerState) (e : string) : sim g (st, Throw e) (Throw e).
Proof. exists e. split; [done|by left]. Qed.

Lemma account_sim (st : LedgerState) (g : gmap string (jsval units)) (s : S) (a : Address) :
  sim_state st g s → accountKey a ∈ K → stateV2Account s a = Ok (mkAccount (balance st a) (nonceOf st a)).
Proof.
  intros (Hr & m & Hm & Hmi) Hk. destruct (in_range_account st a Hr) as [Hb Hn]. revert Hb Hn.
  unfold stateV2Account. rewrite (store_get_law s m _ Hm Hk), (mi_account _ _ _ Hmi). unfold balance, nonceOf, accountOf.
  destruct (accounts st !! a) as [[b n]|]; [|done]. cbn [fmap option_fmap option_map mbind res_bind balanceAtoms nonce default from_option id].
  intros Hb Hn. change (member (account_value b n) "balanceAtoms") with (JNum (JInt b) : jsval units).
  change (member (account_value b n) "nonce") with (JNum (JInt n) : jsval units). cbn [safe_member].
  rewrite (supply_safe b Hb). rewrite (proj2 (isSafeInteger_spec n)) by (unfold MAX_SAFE_INTEGER in *; lia).
  replace ((b <? 0) || (MAX_SUPPLY_ATOMS <? b) || (n <? 0)) with false; [done|]. symmetry.
  rewrite !orb_false_iff, !Z.ltb_ge. lia.
Qed.

Lemma balance_sim (st : LedgerState) (g : gmap string (jsval units)) (s : S) (a : Address) :
  sim_state st g s → accountKey a ∈ K → stateV2Balance s a = Ok (balance st a).
Proof. intros Hs Hk. unfold stateV2Balance. by rewrite (account_sim st g s a Hs Hk). Qed.
Lemma nonce_sim (st : LedgerState) (g : gmap string (jsval units)) (s : S) (a : Address) :
  sim_state st g s → accountKey a ∈ K → stateV2Nonce s a = Ok (nonceOf st a).
Proof. intros Hs Hk. unfold stateV2Nonce. by rewrite (account_sim st g s a Hs Hk). Qed.

Lemma set_sim (st : LedgerState) (g : gmap string (jsval units)) (s : S) (a : Address) (b n : Z) :
  sim_state st g s → accountKey a ∈ K → 0 ≤ b ≤ MAX_SUPPLY_ATOMS → 0 ≤ n ≤ MAX_SAFE_INTEGER →
  ∃ s', store_set s (accountKey a) (account_value b n) = Ok s' ∧ sim_state (setAccount st a (mkAccount b n)) g s'.
Proof.
  intros (Hr & m & Hm & Hmi) Hk Hb Hn.
  destruct (store_set_law s m (accountKey a) (account_value b n) Hm Hk) as (s' & Hs & Hm').
  { apply tidy_account; [by apply supply_safe|]. apply isSafeInteger_spec. unfold MAX_SAFE_INTEGER in *. lia. }
  exists s'. split; [done|]. split; [by apply in_range_set|]. eexists. split; [exact Hm'|].
  exact (mirrors_account st g m a (mkAccount b n) Hmi).
Qed.

Lemma debit_sim (st : LedgerState) (g : gmap string (jsval units)) (s : S) (a : Address) (x : Z) :
  sim_state st g s → accountKey a ∈ K → 0 ≤ x → sim g (debit a x st) (debitStateV2 s a x).
Proof.
  intros Hs Hk Hx. unfold debitStateV2, debit. rewrite (account_sim st g s a Hs Hk). cbn [mbind res_bind balanceAtoms nonce].
  destruct (in_range_account st a (proj1 Hs)) as [Hb Hn].
  destruct (Z.ltb_spec (balance st a) x); [eexists; split; [done|by left]|].
  apply set_sim; [done|done|lia|done].
Qed.

Lemma credit_sim (st : LedgerState) (g : gmap string (jsval units)) (s : S) (a : Address) (x : Z) :
  sim_state st g s → accountKey a ∈ K → 0 ≤ x → sim g (credit a x st) (creditStateV2 s a x).
Proof.
  intros Hs Hk Hx. unfold creditStateV2, credit. rewrite (account_sim st g s a Hs Hk). cbn [mbind res_bind balanceAtoms nonce]. cbv zeta.
  destruct (in_range_account st a (proj1 Hs)) as [Hb Hn].
  destruct (negb (isSafeInteger (balance st a + x)) || (MAX_SUPPLY_ATOMS <? balance st a + x)) eqn:E; [eexists; split; [done|by left]|].
  apply orb_false_iff in E as [_ E%Z.ltb_ge]. apply set_sim; [done|done|lia|done].
Qed.

Lemma setNonce_sim (st : LedgerState) (g : gmap string (jsval units)) (s : S) (a : Address) (n : Z) :
  sim_state st g s → accountKey a ∈ K → 0 ≤ n ≤ MAX_SAFE_INTEGER → sim g (setNonce a n st) (setStateV2Nonce s a n).
Proof.
  intros Hs Hk Hn. unfold setStateV2Nonce, setNonce. rewrite (account_sim st g s a Hs Hk). cbn [mbind res_bind balanceAtoms nonce].
  destruct (in_range_account st a (proj1 Hs)) as [Hb _]. by apply set_sim.
Qed.

Lemma requireNonce_sim (st : LedgerState) (g : gmap string (jsval units)) (s : S) (a : Address) (n : Z)
    (k : unit → meth LedgerState unit) (k' : unit → res S) :
  sim_state st g s → accountKey a ∈ K → (n = nonceOf st a + 1 → sim g (k () st) (k' ())) →
  sim g ((requireNonce a n ≫= k) st) (requireStateV2Nonce s a n ≫= k').
Proof.
  intros Hs Hk Hc. unfold requireStateV2Nonce. rewrite (account_sim st g s a Hs Hk), meth_bind_run.
  unfold requireNonce. cbn [mbind res_bind nonce]. destruct (Z.eqb_spec n (nonceOf st a + 1)); cbn; [by apply Hc|].
  eexists. split; [done|by left].
Qed.

Lemma epoch_get_sim (st : LedgerState) (g : gmap string (jsval units)) (s : S) (e : Z) :
  sim_state st g s → activityEpochKey e ∈ K →
  ∃ o, store_get s (activityEpochKey e) = Ok o ∧ bool_decide (is_Some o) = bool_decide (e ∈ settledActivityEpochs st).
Proof.
  intros (_ & m & Hm & Hmi) Hk. eexists. split; [by apply (store_get_law s m)|]. rewrite (mi_epoch _ _ _ Hmi).
  destruct (decide (e ∈ settledActivityEpochs st)).
  - rewrite !bool_decide_eq_true_2; [done|done|by eexists].
  - rewrite !bool_decide_eq_false_2; [done|done|by intros []].
Qed.

Lemma epoch_set_sim (st : LedgerState) (g : gmap string (jsval units)) (s : S) (e : Z) :
  sim_state st g s → activityEpochKey e ∈ K →
  ∃ s', store_set s (activityEpochKey e) settled_value = Ok s' ∧
    sim_state (mkLedger (accounts st) ({[e]} ∪ settledActivityEpochs st)) g s'.
Proof.
  intros (Hr & m & Hm & Hmi) Hk.
  destruct (store_set_law s m (activityEpochKey e) settled_value Hm Hk eq_refl) as (s' & Hs & Hm').
  exists s'. split; [done|]. split; [done|]. eexists. split; [exact Hm'|]. by apply mirrors_epoch.
Qed.

Lemma producer_sim (st : LedgerState) (g : gmap string (jsval units)) (s : S) (feeAtoms : Z) (f : FixedFeeApplication) (pool : Address) :
  sim_state st g s → accountKey (ff_producer f) ∈ K →
  sim g (creditProducerFee feeAtoms f pool st) (creditStateV2ProducerFee s feeAtoms f pool).
Proof.
  intros Hs Hk. unfold creditProducerFee, creditStateV2ProducerFee.
  apply sim_guard; [apply same_error_refl|]. intros _. apply sim_lift. intros [burnt producer] _. cbn [snd].
  destruct (Z.leb_spec producer 0); [by exists s|].
  apply sim_guard; [apply same_error_refl|]. intros _. apply sim_lift. intros [] _. apply credit_sim; [done|done|lia].
Qed.

Lemma transfer_sim (st : LedgerState) (g : gmap string (jsval units)) (s : S) (tx : TransferTx) (pool : Address)
    (locks : option AllocationLockContext) (oracles : option ActivityOracleSet) (fee : option FixedFeeApplication) (rolling : bool) :
  sim_state st g s → accountKey (tr_sender tx) ∈ K → accountKey (tr_receiver tx) ∈ K →
  (∀ f, fee = Some f → accountKey (ff_producer f) ∈ K) →
  0 ≤ tr_amountAtoms tx → 0 ≤ tr_feeAtoms tx → isSafeInteger (tr_nonce tx) = true →
  sim g ((m_lift (assertNoActivityPoolInflow (tr_receiver tx) pool);;
          m_lift (assertNoActivityPoolDirectDebit (tr_sender tx) pool oracles);;
          m_throw_if (rolling && isActivityWindowAddress (tr_receiver tx)) ACTIVITY_WINDOW_RESERVED_MESSAGE;;
          applyTransfer tx locks pool fee) st)
    (transferStateV2 s tx pool locks oracles fee rolling).
Proof.
  intros Hs Hks Hkr Hkf Ha Hf Hn. unfold transferStateV2, applyTransfer.
  apply sim_lift. intros [] _. apply sim_lift. intros [] _. apply sim_guard; [apply same_error_refl|]. intros _.
  apply sim_guard; [apply same_error_refl|]. intros _. apply requireNonce_sim; [done|done|]. intros Hnonce. cbv zeta.
  change ((m_get ≫= ?k) st) with (k st st). cbv beta.
  rewrite (balance_sim st g s _ Hs Hks).
  rewrite meth_bind_run. unfold m_throw_if, m_lift at 1.
  destruct (isSafeInteger (tr_amountAtoms tx + tr_feeAtoms tx)); cbn [negb throw_if mbind res_bind orb]; [|apply sim_throw].
  destruct (balance st (tr_sender tx) <? tr_amountAtoms tx + tr_feeAtoms tx); cbn [throw_if mbind res_bind]; [apply sim_throw|].
  apply sim_lift. intros [] _. apply sim_bind; [apply debit_sim; [done|done|lia]|]. intros st1 s1 Hd1 Hs1.
  apply sim_bind; [by apply credit_sim|]. intros st2 s2 Hd2 Hs2.
  apply sim_bind; [destruct fee as [f|]; [by apply producer_sim; [|apply Hkf]|by exists s2]|]. intros st3 s3 Hd3 Hs3.
  apply setNonce_sim; [done|done|]. destruct (in_range_account st (tr_sender tx) (proj1 Hs)) as [_ ?].
  apply isSafeInteger_spec in Hn. lia.
Qed.

Lemma credits_sim (entries : list ActivityEntry) (st : LedgerState) (g : gmap string (jsval units)) (s : S) :
  sim_state st g s → (∀ e, e ∈ entries → accountKey (e_receiver e) ∈ K ∧ 0 ≤ e_amountAtoms e) →
  sim g (m_for (λ e, credit (e_receiver e) (e_amountAtoms e)) entries st)
    (res_fold (λ next e, creditStateV2 next (e_receiver e) (e_amountAtoms e)) s entries).
Proof.
  revert st s. induction entries as [|e entries IH]; intros st s Hs He; [by exists s|].
  cbn [m_for res_fold]. destruct (He e ltac:(left)) as [Hk Hx].
  apply sim_bind; [by apply credit_sim|]. intros st1 s1 _ Hs1. apply IH; [done|]. intros e' He'. apply He. by right.
Qed.

(** The end of a settlement: the ledger marks the epoch before the window, the
    store after it. *)
Lemma settle_end_sim (st : LedgerState) (g : gmap string (jsval units)) (s : S) (epoch total t : Z) (rolling : bool) :
  sim_state st g s → activityEpochKey epoch ∈ K → 0 ≤ t ≤ MAX_SAFE_INTEGER → 0 ≤ total ≤ MAX_SAFE_INTEGER →
  (rolling = true → accountKey ACTIVITY_WINDOW_TIME_ADDRESS ∈ K ∧ accountKey ACTIVITY_WINDOW_AMOUNT_ADDRESS ∈ K) →
  sim g ((addEpoch epoch;;
          (if rolling then setNonce ACTIVITY_WINDOW_TIME_ADDRESS t;; setNonce ACTIVITY_WINDOW_AMOUNT_ADDRESS total else mret ())) st)
    (next ← (if rolling then
               next ← setStateV2Nonce s ACTIVITY_WINDOW_TIME_ADDRESS t;
               setStateV2Nonce next ACTIVITY_WINDOW_AMOUNT_ADDRESS total
             else Ok s);
     store_set next (activityEpochKey epoch) settled_value).
Proof.
  intros Hs Hk Ht Htot Hw. rewrite meth_bind_run. unfold addEpoch. destruct rolling.
  - destruct (Hw eq_refl) as [Hk1 Hk2].
    destruct (setNonce_sim st g s ACTIVITY_WINDOW_TIME_ADDRESS t Hs Hk1 Ht) as (s1 & -> & Hs1). cbn [mbind res_bind].
    destruct (setNonce_sim _ g s1 ACTIVITY_WINDOW_AMOUNT_ADDRESS total Hs1 Hk2 Htot) as (s2 & -> & Hs2).
    exact (epoch_set_sim _ g s2 epoch Hs2 Hk).
  - exact (epoch_set_sim _ g s epoch Hs Hk).
Qed.

Lemma settle_sim (st : LedgerState) (g : gmap string (jsval units)) (s : S) (tx : ActivitySettlementTx) (pool : Address)
    (locks : option AllocationLockContext) (oracles : option ActivityOracleSet) :
  let rolling := activityRollingWindowEnforced oracles in
  sim_state st g s → accountKey pool ∈ K → (∀ e, e ∈ as_entries tx → accountKey (e_receiver e) ∈ K) →
  activityEpochKey (as_epoch tx) ∈ K → activityEpochKey (as_epoch tx + 1) ∈ K →
  (rolling = true → accountKey ACTIVITY_WINDOW_TIME_ADDRESS ∈ K ∧ accountKey ACTIVITY_WINDOW_AMOUNT_ADDRESS ∈ K) →
  isSafeInteger (as_nonce tx) = true → (balance st pool < sumZ e_amountAtoms (as_entries tx) → short) →
  sim g (applyActivity tx pool locks rolling (activitySettlementCapAtoms oracles) st) (settleStateV2 s tx pool locks oracles rolling).
Proof.
  intros rolling Hs Hkp Hke Hk1 Hk2 Hkw Hn Hshort. unfold applyActivity, settleStateV2.
  apply sim_guard; [apply same_error_refl|]. intros _. apply sim_lift. intros [] _.
  apply sim_guard; [apply same_error_refl|]. intros _. change ((m_get ≫= ?k) st) with (k st st). cbv beta.
  destruct (epoch_get_sim st g s _ Hs Hk1) as (o1 & -> & E1). cbn [mbind res_bind]. rewrite E1.
  apply sim_guard; [apply same_error_refl|]. intros _.
  destruct (epoch_get_sim st g s _ Hs Hk2) as (o2 & -> & E2). cbn [mbind res_bind]. rewrite E2.
  apply sim_guard; [apply same_error_refl|]. intros _. apply requireNonce_sim; [done|done|]. intros Hnonce. cbv zeta.
  apply sim_lift. intros total Htot. pose proof (settlement_cap_bounds _ _ _ Htot) as [Hrange Hpos].
  pose proof (settlement_total _ _ _ Htot) as (Etot & _).
  rewrite (balance_sim st g s pool Hs Hkp).
  assert (∀ k : unit → meth LedgerState unit, ∀ k' : unit → res S,
    ((rolling = true → 0 ≤ from_option lc_blockTimestampMs 0 locks ≤ MAX_SAFE_INTEGER) → sim g (k () st) (k' ())) →
    sim g (((if rolling then
       m_throw_if (existsb (λ entry, isActivityWindowAddress (e_receiver entry)) (as_entries tx)) ACTIVITY_WINDOW_RESERVED_MESSAGE;;
       m_lift (assertActivityRollingWindow
         (mkWindowRecord (nonceOf st ACTIVITY_WINDOW_TIME_ADDRESS) (nonceOf st ACTIVITY_WINDOW_AMOUNT_ADDRESS))
         (lc_blockTimestampMs <$> locks) total (activitySettlementCapAtoms oracles)) else mret ()) ≫= k) st)
      ((if rolling then
         throw_if (existsb (λ entry, isActivityWindowAddress (e_receiver entry)) (as_entries tx)) ACTIVITY_WINDOW_RESERVED_MESSAGE;;
         timestampMs ← stateV2Nonce s ACTIVITY_WINDOW_TIME_ADDRESS;
         amountAtoms ← stateV2Nonce s ACTIVITY_WINDOW_AMOUNT_ADDRESS;
         assertActivityRollingWindow (mkWindowRecord timestampMs amountAtoms) (lc_blockTimestampMs <$> locks) total
           (activitySettlementCapAtoms oracles)
       else Ok ()) ≫= k')) as Hwin.
  { intros k k' Hc. destruct rolling eqn:Er; [|by apply Hc].
    destruct (Hkw eq_refl) as [Hw1 Hw2]. rewrite (nonce_sim st g s _ Hs Hw1), (nonce_sim st g s _ Hs Hw2).
    rewrite !meth_bind_run. unfold m_throw_if, m_lift. destruct (existsb _ (as_entries tx)); cbn [throw_if mbind res_bind]; [apply sim_throw|].
    destruct (assertActivityRollingWindow _ _ total _) as [[]|e] eqn:Ew; cbn [mbind res_bind]; [|apply sim_throw].
    apply Hc. intros _. exact (rolling_timestamp _ _ _ _ Ew). }
  apply Hwin. intros Htime. clear Hwin. cbn [mbind res_bind].
  apply sim_guard'. { intros Hlt%Z.ltb_lt. right. split; [|done]. apply Hshort. congruence. }
  intros _. apply sim_lift. intros [] _.
  apply sim_bind; [apply debit_sim; [done|done|lia]|]. intros st1 s1 _ Hs1.
  apply sim_bind; [apply credits_sim; [done|]; intros e He; split; [by apply Hke|by apply Hpos]|]. intros st2 s2 _ Hs2.
  apply sim_bind; [apply setNonce_sim; [done|done|]|].
  { destruct (in_range_account st pool (proj1 Hs)) as [_ ?]. apply isSafeInteger_spec in Hn. lia. }
  intros st3 s3 _ Hs3. destruct rolling eqn:Er.
  - apply (settle_end_sim st3 g s3 (as_epoch tx) total _ true); [done|done|by apply Htime|done|done].
  - apply (settle_end_sim st3 g s3 (as_epoch tx) total 0 false); [done|done|done|done|done].
Qed.

Lemma govern_sim (st : LedgerState) (g : gmap string (jsval units)) (s : S) (sender : Address) (n : Z) (key : string) (v : jsval units) :
  sim_state st g s → accountKey sender ∈ K → key ∈ K → other_key key → tidy v 0 = true → isSafeInteger n = true →
  sim (<[key := v]> g) (applyNonceOnly sender n st) (governStateV2 s sender n key v).
Proof.
  intros Hs Hk Hkey Ho Hv Hn. unfold applyNonceOnly, governStateV2.
  rewrite meth_bind_run. unfold m_throw_if, m_lift. destruct (String.eqb sender MINING_TRACKER_ADDRESS); cbn [throw_if mbind res_bind]; [apply sim_throw|].
  rewrite meth_bind_run. unfold requireNonce, requireStateV2Nonce. rewrite (account_sim st g s sender Hs Hk). cbn [mbind res_bind nonce].
  destruct (Z.eqb_spec n (nonceOf st sender + 1)) as [E|E]; cbn [negb throw_if mbind res_bind]; [|apply sim_throw].
  destruct (in_range_account st sender (proj1 Hs)) as [_ Hb]. apply isSafeInteger_spec in Hn.
  destruct (setNonce_sim st g s sender n Hs Hk ltac:(lia)) as (s1 & -> & (Hr1 & m1 & Hm1 & Hmi1)). cbn [mbind res_bind].
  destruct (store_set_law s1 m1 key v Hm1 Hkey Hv) as (s2 & -> & Hm2). exists s2. split; [done|].
  split; [done|]. eexists. split; [exact Hm2|]. by apply mirrors_other.
Qed.

End simulation.

(** ** Refinement *)

(** The keys a transaction reads or writes. *)
Definition used_keys (tx : Transaction) (pool : Address) (fee : option FixedFeeApplication) : list string :=
  accountKey (tx_sender tx) :: accountKey pool :: accountKey ACTIVITY_WINDOW_TIME_ADDRESS :: accountKey ACTIVITY_WINDOW_AMOUNT_ADDRESS ::
  (match fee with Some f => [accountKey (ff_producer f)] | None => [] end) ++
  match tx with
  | Transfer t => [accountKey (tr_receiver t)]
  | ActivitySettlement t =>
    activityEpochKey (as_epoch t) :: activityEpochKey (as_epoch t + 1) :: map (λ e, accountKey (e_receiver e)) (as_entries t)
  | MiningClaim _ => []
  | ValidatorUpdate t => [validatorScheduleKey (vu_activationHeight t)]
  | ActivityOracleGovernance t => [activityOracleGovernanceKey (og_activationHeight t)]
  | ProtocolUpgrade t => [protocolScheduleKey (pu_activationHeight t)]
  end.

(** What the shape gate guarantees of the numbers. *)
Definition fields_ok (tx : Transaction) : Prop :=
  isSafeInteger (tx_nonce tx) = true ∧
  match tx with
  | Transfer t => 0 ≤ tr_amountAtoms t ∧ 0 ≤ tr_feeAtoms t
  | ProtocolUpgrade t => isSafeInteger (pu_protocolVersion t) = true
  | _ => True
  end.

(** The schedule entry a transaction adds. *)
Definition governed (tx : Transaction) (g : gmap string (jsval units)) : gmap string (jsval units) :=
  match tx with
  | ValidatorUpdate t => <[validatorScheduleKey (vu_activationHeight t) := validators_value (vu_validators t)]> g
  | ActivityOracleGovernance t =>
    <[activityOracleGovernanceKey (og_activationHeight t) := oracle_governance_value (og_action t) (og_publicKeys t)]> g
  | ProtocolUpgrade t => <[protocolScheduleKey (pu_activationHeight t) := protocol_value (pu_protocolVersion t)]> g
  | _ => g
  end.

Lemma other_validator (h : Z) : other_key (validatorScheduleKey h).
Proof. split; discriminate. Qed.
Lemma other_protocol (h : Z) : other_key (protocolScheduleKey h).
Proof. split; discriminate. Qed.
Lemma other_oracle (h : Z) : other_key (activityOracleGovernanceKey h).
Proof. split; discriminate. Qed.

Lemma apply_sim `{Crypto} {S : Type} `{StateStore S} (K : gset string) `{!StateStoreLaws S K}
    (st : LedgerState) (g : gmap string (jsval units)) (s : S) (tx : Transaction) (pool : Address)
    (locks : option AllocationLockContext) (oracles : option ActivityOracleSet) (fee : option FixedFeeApplication) :
  sim_state K st g s → (∀ key, key ∈ used_keys tx pool fee → key ∈ K) → fields_ok tx →
  sim K (pool_short st tx pool) (governed tx g) (apply tx pool locks oracles fee st) (applyStateV2Transaction s tx pool locks oracles fee).
Proof.
  intros Hs HK [Hn Hf]. unfold used_keys in HK.
  assert (accountKey (tx_sender tx) ∈ K) as Hks by (apply HK; by left).
  assert (accountKey pool ∈ K) as Hkp by (apply HK; right; by left).
  assert (accountKey ACTIVITY_WINDOW_TIME_ADDRESS ∈ K) as Hkt by (apply HK; do 2 right; by left).
  assert (accountKey ACTIVITY_WINDOW_AMOUNT_ADDRESS ∈ K) as Hka by (apply HK; do 3 right; by left).
  destruct tx as [t|t|t|t|t|t]; cbn [governed tx_nonce tx_sender] in *; unfold apply, applyStateV2Transaction; cbv zeta.
  - apply transfer_sim; [done|done| | |apply Hf|apply Hf|done].
    + apply HK. do 4 right. apply elem_of_app. right. by left.
    + intros f ->. apply HK. do 4 right. by left.
  - assert (∀ k', sim K (pool_short st (ActivitySettlement t) pool) g (applyActivity t pool locks (activityRollingWindowEnforced oracles) (activitySettlementCapAtoms oracles) st) (k' ()) →
      sim K (pool_short st (ActivitySettlement t) pool) g (((match oracles with
        | Some o => m_lift (assertActivitySettlementAuthorized t o
             (mkAuthContext (Some (as_chainId t)) (lc_blockTimestampMs <$> locks) (os_timestampMs o)))
        | None => mret () end);; applyActivity t pool locks (activityRollingWindowEnforced oracles) (activitySettlementCapAtoms oracles)) st)
      ((match oracles with
        | Some o => assertActivitySettlementAuthorized t o
             (mkAuthContext (Some (as_chainId t)) (lc_blockTimestampMs <$> locks) (os_timestampMs o))
        | None => Ok () end) ≫= k')) as Hauth.
    { intros k' Hk'. destruct oracles as [o|]; [|exact Hk']. apply sim_lift. by intros []. }
    apply Hauth. apply settle_sim; [done|done| | | |done|done|done].
    + intros e He. apply HK. do 4 right. apply elem_of_app. right. do 2 right. by apply (list_elem_of_fmap_2 (λ e, accountKey (e_receiver e))).
    + apply HK. do 4 right. apply elem_of_app. right. by left.
    + apply HK. do 4 right. apply elem_of_app. right. right. by left.
  - apply sim_throw.
  - apply govern_sim; [done|done| |apply other_validator|apply tidy_validators|done].
    apply HK. do 4 right. apply elem_of_app. right. by left.
  - apply govern_sim; [done|done| |apply other_oracle|apply tidy_oracle_governance|done].
    apply HK. do 4 right. apply elem_of_app. right. by left.
  - apply govern_sim; [done|done| |apply other_protocol|by apply tidy_protocol|done].
    apply HK. do 4 right. apply elem_of_app. right. by left.
Qed.

Section refinement.
Context `{CryptoLaws} (K : gset string) (Hapart : hashes_apart K).

(** The tree [s] is the ledger [st] with the schedule entries [g]. *)
Definition refines (st : LedgerState) (g : gmap string (jsval units)) (s : SparseMerkleState) : Prop :=
  in_range st ∧ ∃ m, sparse_stands K s m ∧ mirrors st g m.

(** The successful runs of the ledger and of the tree over a history. *)
Definition applyStepsV2 (pool : Address) (ctx : AllocationLockContext) (s : SparseMerkleState) (steps : list Step)
    : res SparseMerkleState :=
  res_fold (λ s x, applyStateV2Transaction s (sp_tx x) pool (Some (at_time ctx (sp_time x))) (sp_oracles x) (sp_fee x)) s steps.
Definition step_ok (pool : Address) (x : Step) : Prop :=
  fields_ok (sp_tx x) ∧ ∀ key, key ∈ used_keys (sp_tx x) pool (sp_fee x) → key ∈ K.

Lemma refines_step (st : LedgerState) (g : gmap string (jsval units)) (s : SparseMerkleState) (tx : Transaction) (pool : Address)
    (locks : option AllocationLockContext) (oracles : option ActivityOracleSet) (fee : option FixedFeeApplication) :
  refines st g s → (∀ key, key ∈ used_keys tx pool fee → key ∈ K) → fields_ok tx →
  match apply tx pool locks oracles fee st with
  | (st', Ok _) => ∃ s', applyStateV2Transaction s tx pool locks oracles fee = Ok s' ∧ refines st' (governed tx g) s'
  | (_, Throw e) => ∃ e', applyStateV2Transaction s tx pool locks oracles fee = Throw e' ∧ same_error (pool_short st tx pool) e e'
  end.
Proof. intros Hr HK Hf. exact (apply_sim (StateStoreLaws0 := sparse_laws K Hapart) K st g s tx pool locks oracles fee Hr HK Hf). Qed.

Lemma refines_steps (pool : Address) (ctx : AllocationLockContext) (steps : list Step) (st st' : LedgerState)
    (g : gmap string (jsval units)) (s : SparseMerkleState) :
  refines st g s → Forall (step_ok pool) steps → applySteps pool ctx steps st = (st', Ok ()) →
  ∃ s', applyStepsV2 pool ctx s steps = Ok s' ∧ refines st' (foldl (λ g x, governed (sp_tx x) g) g steps) s'.
Proof.
  revert st g s. induction steps as [|x steps IH]; intros st g s Hr Hok Ha.
  - apply mret_Ok in Ha as [-> _]. by exists s.
  - apply Forall_cons in Hok as [[Hf HK] Hok]. apply meth_bind_Ok in Ha as (st1 & [] & Hx & Ha).
    pose proof (refines_step st g s _ pool (Some (at_time ctx (sp_time x))) (sp_oracles x) (sp_fee x) Hr HK Hf) as Hs.
    rewrite Hx in Hs. destruct Hs as (s1 & Hs1 & Hr1). unfold applyStepsV2. cbn [res_fold foldl]. rewrite Hs1. cbn [mbind res_bind].
    by apply (IH st1).
Qed.

End refinement.

(** *** One state, one root *)

(** [key] as an epoch key, if it is one. *)
Definition epoch_of_key (key : string) : option Z :=
  match stripPrefix "activity-epoch:" key with
  | Some digits => match parse_number (lit digits) with Some (JInt z, _) => Some z | _ => None end
  | None => None
  end.

Lemma stripPrefix_app (p s : string) : stripPrefix p (p +:+ s) = Some s.
Proof.
  induction p as [|c p IH]; [done|].
  change (stripPrefix (String c p) (String c p +:+ s)) with (if Ascii.eqb c c then stripPrefix p (p +:+ s) else None).
  by rewrite Ascii.eqb_refl.
Qed.

Lemma epoch_of_key_spec (e : Z) : epoch_of_key (activityEpochKey e) = Some e.
Proof.
  unfold epoch_of_key, activityEpochKey. rewrite stripPrefix_app.
  pose proof (parse_number_units e [] (or_introl eq_refl)) as Hp. rewrite app_nil_r in Hp. cbn [number_units] in Hp. by rewrite Hp.
Qed.

Lemma key_family (key : string) : (∃ a, key = accountKey a) ∨ (∃ e, key = activityEpochKey e) ∨ other_key key.
Proof.
  destruct (stripPrefix "account:" key) as [a|] eqn:Ea.
  { left. exists a. by apply stripPrefix_Some in Ea. }
  right. destruct (decide (activityEpochKey <$> epoch_of_key key = Some key)) as [(e & _ & ->)%fmap_Some|Hne].
  - left. by exists e.
  - right. split.
    + intros a ->. unfold accountKey in Ea. by rewrite stripPrefix_app in Ea.
    + intros e ->. apply Hne. by rewrite epoch_of_key_spec.
Qed.

Lemma mirrors_unique (st : LedgerState) (g m1 m2 : gmap string (jsval units)) :
  mirrors st g m1 → mirrors st g m2 → m1 = m2.
Proof.
  intros [A1 E1 O1] [A2 E2 O2]. apply map_eq. intros key.
  destruct (key_family key) as [[a ->]|[[e ->]|Ho]]; [by rewrite A1, A2|by rewrite E1, E2|by rewrite O1, O2].
Qed.
