(* ===== verification/StateV2Root.v ===== *)
(** The root of the protocol-v2 state as a function of the ledger: applying
    transactions to the tree and rebuilding the tree from the ledger's snapshot
    give the same root (l1/src/state-v2.ts, [applyStateV2Transaction] and
    [stateV2FromLedgerSnapshot]). *)

From S2P Require Import Prelude Types Codec JsonText Crypto Vesting Activity Transaction TxShape Oracle Ledger LedgerHistory SparseTree StateV2.

Abbreviation values := (gmap string (jsval units)) (only parsing).

Definition insert_each {A} (key : A → string) (value : A → jsval units) (m : values) (items : list A) : values :=
  foldl (λ m i, <[key i := value i]> m) m items.

Section rebuild.
Context {S : Type} `{StateStore S} (K : gset string) `{!StateStoreLaws S K}.

Lemma set_each_stands {A} (key : A → string) (value : A → jsval units) (items : list A) (s : S) (m : values) :
  stands_for s m → (∀ i, i ∈ items → key i ∈ K ∧ tidy (value i) 0 = true) →
  ∃ s', set_each key value s items = Ok s' ∧ stands_for s' (insert_each key value m items).
Proof.
  unfold set_each, insert_each. revert s m. induction items as [|i items IH]; intros s m Hs Hi; [by exists s|].
  destruct (Hi i ltac:(left)) as [Hk Hv]. destruct (store_set_law s m (key i) (value i) Hs Hk Hv) as (s1 & Hs1 & Hm1).
  cbn [res_fold foldl]. rewrite Hs1. cbn [mbind res_bind]. apply IH; [done|]. intros j Hj. apply Hi. by right.
Qed.

Lemma set_each_then {A} (key : A → string) (value : A → jsval units) (items : list A) (s : S) (m : values)
    (k : S → res S) (P : S → Prop) :
  stands_for s m → (∀ i, i ∈ items → key i ∈ K ∧ tidy (value i) 0 = true) →
  (∀ s', stands_for s' (insert_each key value m items) → ∃ s'', k s' = Ok s'' ∧ P s'') →
  ∃ s'', (set_each key value s items ≫= k) = Ok s'' ∧ P s''.
Proof. intros Hs Hi Hk. destruct (set_each_stands key value items s m Hs Hi) as (s' & -> & Hs'). by apply Hk. Qed.

End rebuild.

Lemma mirrors_accounts (items : list AccountRecord) (st : LedgerState) (g m : values) :
  mirrors st g m →
  mirrors (mkLedger (foldl (λ acc a, <[ar_address a := mkAccount (ar_balanceAtoms a) (ar_nonce a)]> acc) (accounts st) items)
      (settledActivityEpochs st)) g
    (insert_each (λ a, accountKey (ar_address a)) (λ a, account_value (ar_balanceAtoms a) (ar_nonce a)) m items).
Proof.
  unfold insert_each. revert st m. induction items as [|a items IH]; intros st m Hm; [by destruct st|]. cbn [foldl].
  exact (IH _ _ (mirrors_account st g m (ar_address a) (mkAccount (ar_balanceAtoms a) (ar_nonce a)) Hm)).
Qed.

Lemma mirrors_epochs (items : list Z) (st : LedgerState) (g m : values) :
  mirrors st g m →
  mirrors (mkLedger (accounts st) (list_to_set items ∪ settledActivityEpochs st)) g
    (insert_each activityEpochKey (λ _, settled_value) m items).
Proof.
  unfold insert_each. revert st m. induction items as [|e items IH]; intros st m Hm; cbn [foldl].
  - replace (list_to_set [] ∪ settledActivityEpochs st) with (settledActivityEpochs st) by set_solver. by destruct st.
  - specialize (IH _ _ (mirrors_epoch st g m e Hm)). cbn [accounts settledActivityEpochs] in IH.
    replace (list_to_set (e :: items) ∪ settledActivityEpochs st) with
      (list_to_set items ∪ ({[e]} ∪ settledActivityEpochs st)) by set_solver. exact IH.
Qed.

Lemma mirrors_entries {A} (key : A → string) (value : A → jsval units) (items : list A) (st : LedgerState) (g m : values) :
  mirrors st g m → (∀ i, other_key (key i)) → mirrors st (insert_each key value g items) (insert_each key value m items).
Proof.
  unfold insert_each. intros Hm Ho. revert g m Hm. induction items as [|i items IH]; intros g m Hm; [done|]. cbn [foldl].
  apply IH. by apply mirrors_other.
Qed.

(** The schedule entries of a governance snapshot. *)
Definition governance_map (g : StateV2GovernanceSnapshot) : values :=
  insert_each (λ e, activityOracleGovernanceKey e.1.1) (λ e, oracle_governance_value e.1.2 e.2)
    (insert_each (λ e, protocolScheduleKey e.1) (λ e, protocol_value e.2)
      (insert_each (λ e, validatorScheduleKey e.1) (λ e, validators_value e.2) ∅
        (js_sort (λ a b, a.1 <=? b.1) (gs_validatorSchedule g)))
      (js_sort (λ a b, a.1 <=? b.1) (gs_protocolSchedule g)))
    (js_sort (λ a b, a.1.1 <=? b.1.1) (default [] (gs_activityOracleGovernance g))).

Definition governance_ok (g : StateV2GovernanceSnapshot) : Prop :=
  ∀ e, e ∈ gs_protocolSchedule g → isSafeInteger e.2 = true.

Lemma insert_each_dom {A} (key : A → string) (value : A → jsval units) (m : values) (items : list A) (k : string) :
  k ∈ dom (insert_each key value m items) ↔ k ∈ dom m ∨ ∃ i, i ∈ items ∧ k = key i.
Proof.
  unfold insert_each. revert m. induction items as [|i items IH]; intros m; cbn [foldl]; [set_solver|].
  rewrite IH, dom_insert. set_solver.
Qed.

Lemma mirrors_empty : mirrors emptyLedger ∅ ∅.
Proof.
  split; [intros a; by rewrite lookup_empty|intros e; rewrite lookup_empty, decide_False by set_solver; done|done].
Qed.

(** The records of a snapshot give the ledger's accounts back. *)
Lemma snapshot_accounts_map (st : LedgerState) :
  foldl (λ acc a, <[ar_address a := mkAccount (ar_balanceAtoms a) (ar_nonce a)]> acc) ∅
    (js_sort (λ a b, text_le (ar_address a) (ar_address b)) (sn_accounts (snapshot st))) = accounts st.
Proof.
  set (L := js_sort _ _). set (pair := λ a, (ar_address a, mkAccount (ar_balanceAtoms a) (ar_nonce a))).
  assert (pair <$> L ≡ₚ map_to_list (accounts st)) as HL.
  { unfold L. rewrite js_sort_perm. unfold snapshot. cbn [sn_accounts]. rewrite js_sort_perm, <-list_fmap_compose.
    rewrite <-(list_fmap_id (map_to_list (accounts st))) at 2. apply reflexive_eq, list_fmap_ext. intros i [a [b n]] _. done. }
  assert (∀ m, foldl (λ acc a, <[ar_address a := mkAccount (ar_balanceAtoms a) (ar_nonce a)]> acc) m L =
    foldl (λ m kv, <[kv.1 := kv.2]> m) m (pair <$> L)) as ->.
  { clearbody L. clear HL. induction L as [|a L IH]; intros m; [done|]. csimpl. apply IH. }
  rewrite foldl_insert_map, map_union_empty by (rewrite HL; apply NoDup_fst_map_to_list).
  rewrite <-(list_to_map_to_list (accounts st)). apply list_to_map_proper; [|done].
  rewrite HL. apply NoDup_fst_map_to_list.
Qed.

Lemma snapshot_epochs_set (st : LedgerState) :
  list_to_set (js_sort Z.leb (sn_settledActivityEpochs (snapshot st))) ∪ ∅ = settledActivityEpochs st.
Proof.
  apply set_eq. intros e. rewrite union_empty_r_L, elem_of_list_to_set, js_sort_perm. unfold snapshot.
  cbn [sn_settledActivityEpochs]. rewrite js_sort_perm. apply elem_of_elements.
Qed.

(** The values the rebuilt store holds. *)
Definition snapshot_map (st : LedgerState) (g : StateV2GovernanceSnapshot) : values :=
  insert_each (λ e, activityOracleGovernanceKey e.1.1) (λ e, oracle_governance_value e.1.2 e.2)
    (insert_each (λ e, protocolScheduleKey e.1) (λ e, protocol_value e.2)
      (insert_each (λ e, validatorScheduleKey e.1) (λ e, validators_value e.2)
        (insert_each activityEpochKey (λ _, settled_value)
          (insert_each (λ a, accountKey (ar_address a)) (λ a, account_value (ar_balanceAtoms a) (ar_nonce a)) ∅
            (js_sort (λ a b, text_le (ar_address a) (ar_address b)) (sn_accounts (snapshot st))))
          (js_sort Z.leb (sn_settledActivityEpochs (snapshot st))))
        (js_sort (λ a b, a.1 <=? b.1) (gs_validatorSchedule g)))
      (js_sort (λ a b, a.1 <=? b.1) (gs_protocolSchedule g)))
    (js_sort (λ a b, a.1.1 <=? b.1.1) (default [] (gs_activityOracleGovernance g))).

Lemma snapshot_map_mirrors (st : LedgerState) (g : StateV2GovernanceSnapshot) : mirrors st (governance_map g) (snapshot_map st g).
Proof.
  unfold snapshot_map, governance_map.
  do 3 (apply mirrors_entries; [|intros i; first [apply other_oracle|apply other_protocol|apply other_validator]]).
  pose proof (mirrors_epochs (js_sort Z.leb (sn_settledActivityEpochs (snapshot st))) _ ∅ _
    (mirrors_accounts (js_sort (λ a b, text_le (ar_address a) (ar_address b)) (sn_accounts (snapshot st))) emptyLedger ∅ ∅ mirrors_empty)) as Hm.
  cbn [accounts settledActivityEpochs emptyLedger] in Hm. rewrite snapshot_accounts_map, snapshot_epochs_set in Hm.
  by destruct st.
Qed.

Lemma snapshot_account_ok (st : LedgerState) (K : gset string) (i : AccountRecord) :
  in_range st → (∀ a, is_Some (accounts st !! a) → accountKey a ∈ K) →
  i ∈ js_sort (λ a b, text_le (ar_address a) (ar_address b)) (sn_accounts (snapshot st)) →
  accountKey (ar_address i) ∈ K ∧ tidy (account_value (ar_balanceAtoms i) (ar_nonce i)) 0 = true.
Proof.
  intros Hr Ha. rewrite js_sort_perm. unfold snapshot. cbn [sn_accounts]. rewrite js_sort_perm.
  intros ([a acc] & -> & Hin)%list_elem_of_fmap. apply elem_of_map_to_list in Hin. cbn [ar_address ar_balanceAtoms ar_nonce fst snd].
  destruct (Hr _ _ Hin) as [Hb Hn]. split; [apply Ha; by eexists|]. apply tidy_account; [by apply supply_safe|].
  apply isSafeInteger_spec. unfold MAX_SAFE_INTEGER in *. lia.
Qed.

Lemma rebuild_stands {S : Type} `{StateStore S} (K : gset string) `{!StateStoreLaws S K} (empty : S) (st : LedgerState) (g : StateV2GovernanceSnapshot) :
  stands_for empty ∅ → in_range st → governance_ok g → (∀ a, is_Some (accounts st !! a) → accountKey a ∈ K) →
  (∀ e, e ∈ settledActivityEpochs st → activityEpochKey e ∈ K) → dom (governance_map g) ⊆ K →
  ∃ s, stateV2FromLedgerSnapshotSteps validators_value empty (snapshot st) (Some g) = Ok s ∧ stands_for s (snapshot_map st g).
Proof.
  intros H0 Hr Hg Ha He Hk. unfold stateV2FromLedgerSnapshotSteps, snapshot_map, governance_map in *.
  eapply (set_each_then K); [exact H0|by intros i; apply snapshot_account_ok|intros s1 H1].
  eapply (set_each_then K); [exact H1| |intros s2 H2].
  { intros i. rewrite js_sort_perm. unfold snapshot. cbn [sn_settledActivityEpochs]. rewrite js_sort_perm, elem_of_elements. auto. }
  eapply (set_each_then K); [exact H2| |intros s3 H3].
  { intros i Hi. split; [|apply tidy_validators]. apply Hk. rewrite !insert_each_dom. left. left. right. eauto. }
  eapply (set_each_then K); [exact H3| |intros s4 H4].
  { intros i Hi. split.
    - apply Hk. rewrite !insert_each_dom. left. right. eauto.
    - apply tidy_protocol, Hg. by rewrite js_sort_perm in Hi. }
  apply set_each_stands; [exact H4|]. intros i Hi. split; [|apply tidy_oracle_governance].
  apply Hk. rewrite insert_each_dom. right. eauto.
Qed.

Section root.
Context `{CryptoLaws} (K : gset string) (Hapart : hashes_apart K).

Lemma empty_stands : sparse_stands K sparse_empty ∅.
Proof.
  split; [set_solver|]. split; [apply map_Forall_empty|]. exists ∅. split; [apply holds_empty|].
  intros h t. rewrite lookup_empty. split; [done|]. intros (k & v & Hv & _). by rewrite lookup_empty in Hv.
Qed.

Lemma stands_root (s1 s2 : SparseMerkleState) (m : values) :
  sparse_stands K s1 m → sparse_stands K s2 m → sparse_root s1 = sparse_root s2.
Proof.
  intros (_ & _ & c1 & H1 & E1) (_ & _ & c2 & H2 & E2). rewrite (holds_root _ _ H1), (holds_root _ _ H2). f_equal.
  apply map_eq. intros h. apply option_eq. intros t. by rewrite (E1 h t), (E2 h t).
Qed.

Lemma rebuild_refines (st : LedgerState) (g : StateV2GovernanceSnapshot) :
  in_range st → governance_ok g → (∀ a, is_Some (accounts st !! a) → accountKey a ∈ K) →
  (∀ e, e ∈ settledActivityEpochs st → activityEpochKey e ∈ K) → dom (governance_map g) ⊆ K →
  ∃ s, stateV2FromLedgerSnapshot (snapshot st) (Some g) = Ok s ∧ refines K st (governance_map g) s.
Proof.
  intros Hr Hg Ha He Hk.
  destruct (rebuild_stands (StateStoreLaws0 := sparse_laws K Hapart) K sparse_empty st g empty_stands Hr Hg Ha He Hk) as (s & Hs & Hst).
  exists s. split; [exact Hs|]. split; [done|]. exists (snapshot_map st g). split; [exact Hst|]. apply snapshot_map_mirrors.
Qed.

(** A state that refines the ledger can be rebuilt from its snapshot. *)
Lemma refines_rebuild (st : LedgerState) (g : StateV2GovernanceSnapshot) (s : SparseMerkleState) :
  refines K st (governance_map g) s → governance_ok g →
  ∃ s', stateV2FromLedgerSnapshot (snapshot st) (Some g) = Ok s' ∧ sparse_root s' = sparse_root s.
Proof.
  intros (Hr & m & Hs & Hm) Hg.
  rewrite (mirrors_unique _ _ _ _ Hm (snapshot_map_mirrors st g)) in Hs. clear Hm m.
  pose proof (snapshot_map_mirrors st g) as [Ma Me Mo]. pose proof (proj1 Hs) as Hd.
  assert (∀ key v, snapshot_map st g !! key = Some v → key ∈ K) as HK by (intros key v Hv; apply Hd; by eapply elem_of_dom_2).
  destruct (rebuild_refines st g) as (s' & Hs' & _ & m' & Hst & Hmi); [done|done| | | |].
  - intros a [acc Hacc]. specialize (Ma a). rewrite Hacc in Ma. by eapply HK.
  - intros e Hin. specialize (Me e). rewrite decide_True in Me by done. by eapply HK.
  - intros key Hin. destruct (governance_map g !! key) as [v|] eqn:E; [|by apply not_elem_of_dom in E].
    destruct (key_family key) as [[a ->]|[[e ->]|Ho]].
    + exfalso. revert Hin. unfold governance_map. rewrite !insert_each_dom. set_unfold. intros [[[?|(?&?&?)]|(?&?&?)]|(?&?&?)]; done.
    + exfalso. revert Hin. unfold governance_map. rewrite !insert_each_dom. set_unfold. intros [[[?|(?&?&?)]|(?&?&?)]|(?&?&?)]; done.
    + eapply HK. rewrite (Mo key Ho). exact E.
  - exists s'. split; [exact Hs'|]. rewrite (mirrors_unique _ _ _ _ Hmi (snapshot_map_mirrors st g)) in Hst.
    by apply (stands_root s' s (snapshot_map st g)).
Qed.

End root.

(** C27. The protocol-v2 state refines the ledger: on a tree that holds the ledger
    [st], [applyStateV2Transaction] succeeds exactly when [LedgerState.apply]
    does, and then the new tree holds the new ledger with the schedule entry the
    transaction adds.  When the ledger throws, the tree throws too, with the same
    message, except for a settlement that pays more than the pool has: there the
    ledger may say "Activity pool exhausted" where the tree says "Insufficient
    balance".  The keys in use must have different hashes, and the transaction the
    numbers the shape gate lets through. *)
Theorem stateV2_refines_ledger `{CryptoLaws} (K : gset string) (st : LedgerState) (g : values) (s : SparseMerkleState)
    (tx : Transaction) (pool : Address) (locks : option AllocationLockContext) (oracles : option ActivityOracleSet)
    (fee : option FixedFeeApplication) :
  hashes_apart K → refines K st g s → (∀ key, key ∈ used_keys tx pool fee → key ∈ K) → fields_ok tx →
  match apply tx pool locks oracles fee st with
  | (st', Ok _) => ∃ s', applyStateV2Transaction s tx pool locks oracles fee = Ok s' ∧ refines K st' (governed tx g) s'
  | (_, Throw e) => ∃ e', applyStateV2Transaction s tx pool locks oracles fee = Throw e' ∧ same_error (pool_short st tx pool) e e'
  end.
Proof. intros Hapart. by apply refines_step. Qed.

(** C28. The root is a function of the ledger: after any history that the ledger
    accepts, of transactions with the numbers the shape gate lets through, the
    tree the transactions were applied to and the tree rebuilt from the ledger's
    snapshot and the schedules that the history leaves have the same root. The
    keys in use must have different hashes. *)
Theorem stateV2_root_reproducible `{CryptoLaws} (K : gset string) (pool : Address) (ctx : AllocationLockContext) (steps : list Step)
    (st st' : LedgerState) (g : values) (gov : StateV2GovernanceSnapshot) (s : SparseMerkleState) :
  hashes_apart K → refines K st g s → Forall (step_ok K pool) steps → applySteps pool ctx steps st = (st', Ok ()) →
  foldl (λ g x, governed (sp_tx x) g) g steps = governance_map gov → governance_ok gov →
  ∃ s1 s2, applyStepsV2 pool ctx s steps = Ok s1 ∧ stateV2FromLedgerSnapshot (snapshot st') (Some gov) = Ok s2 ∧
    sparse_root s2 = sparse_root s1.
Proof.
  intros Hapart Hr Hok Ha Hg Hgo. destruct (refines_steps K Hapart pool ctx steps st st' g s Hr Hok Ha) as (s1 & Hs1 & Hr1).
  rewrite Hg in Hr1. destruct (refines_rebuild K Hapart st' gov s1 Hr1 Hgo) as (s2 & Hs2 & E). eauto.
Qed.

(** A list of keys with distinct hashes. *)
Lemma list_apart `{Crypto} (keys : list string) : NoDup (keyHashOf <$> keys) → "" ∉ keys → hashes_apart (list_to_set keys).
Proof.
  intros Hnd Hne. split; [by rewrite elem_of_list_to_set|]. intros k1 k2 H1 H2 E.
  apply elem_of_list_to_set, list_elem_of_lookup in H1 as [i Hi], H2 as [j Hj].
  assert (i = j) as <-; [|congruence]. apply (NoDup_lookup _ i j (keyHashOf k1)) in Hnd; [done| |].
  - by rewrite list_lookup_fmap, Hi.
  - by rewrite list_lookup_fmap, Hj, E.
Qed.

(** ** A transfer on a small tree *)

Module StateExample.
Import ToyCrypto.

Definition alice : Address := "ZYNaaaaaaaaaaaaaaaaaaaaaaaaaaaaaaaaaaaaaaaa".
Definition bob : Address := "ZYNbbbbbbbbbbbbbbbbbbbbbbbbbbbbbbbbbbbbbbbb".
Definition pool : Address := "ZYNcccccccccccccccccccccccccccccccccccccccc".
Definition tx : Transaction := Transfer (mkTransfer 2 "zyron" 1 alice bob 30 1 0 "" "" "").
Definition ledger : LedgerState := mkLedger {[alice := mkAccount 100 0]} ∅.
Definition keys : list string := used_keys tx pool None.
Definition K : gset string := list_to_set keys.
Definition gov : StateV2GovernanceSnapshot := mkGovernance [] [] None.
Definition ctx : AllocationLockContext := mkLockContext None None 0 1700000000000 5 None.

Lemma apart : hashes_apart (H := toy) K.
Proof. apply list_apart; apply (bool_decide_unpack _); vm_compute; exact I. Qed.

Lemma tree : ∃ s, refines (H := toy) K ledger (governance_map gov) s.
Proof.
  destruct (rebuild_refines K apart ledger gov) as (s & _ & Hs); [| | | | |by exists s].
  - intros a acc Ha. cbn [accounts ledger] in Ha. apply lookup_singleton_Some in Ha as [_ <-]. unfold MAX_SUPPLY_ATOMS, ATOMS_PER_ZYN, MAX_SAFE_INTEGER. cbn. lia.
  - intros e He. set_solver.
  - intros a [acc Ha]. cbn [accounts ledger] in Ha. apply lookup_singleton_Some in Ha as [<- _]. unfold K, keys. apply elem_of_list_to_set. left.
  - intros e He. set_solver.
  - set_solver.
Qed.

End StateExample.

Lemma stateV2_refines_ledger_witness :
  ∃ s s', applyStateV2Transaction s StateExample.tx StateExample.pool None None None = Ok s' ∧
    refines (H := ToyCrypto.toy) StateExample.K
      (fst (apply StateExample.tx StateExample.pool None None None StateExample.ledger)) (governance_map StateExample.gov) s'.
Proof.
  destruct StateExample.tree as [s Hs].
  pose proof (stateV2_refines_ledger StateExample.K StateExample.ledger (governance_map StateExample.gov) s StateExample.tx
    StateExample.pool None None None StateExample.apart Hs) as Hr.
  destruct (apply StateExample.tx StateExample.pool None None None StateExample.ledger) as [st' [[]|e]] eqn:E.
  - destruct Hr as (s' & Hs' & Hr); [|split; [reflexivity|cbn; lia]|by exists s, s'].
    intros key Hk. by apply elem_of_list_to_set.
  - exfalso. apply (f_equal (λ r, isOk r.2)) in E. vm_compute in E. discriminate.
Defined.

Lemma stateV2_root_reproducible_witness :
  let steps := [mkStep 5 StateExample.tx None None] in
  ∃ s s1 s2 st', applySteps (H := ToyCrypto.toy) StateExample.pool StateExample.ctx steps StateExample.ledger = (st', Ok ()) ∧
    applyStepsV2 StateExample.pool StateExample.ctx s steps = Ok s1 ∧
    stateV2FromLedgerSnapshot (snapshot st') (Some StateExample.gov) = Ok s2 ∧ sparse_root s2 = sparse_root s1.
Proof.
  intros steps. destruct StateExample.tree as [s Hs].
  destruct (applySteps StateExample.pool StateExample.ctx steps StateExample.ledger) as [st' [[]|e]] eqn:E.
  - destruct (stateV2_root_reproducible StateExample.K StateExample.pool StateExample.ctx steps StateExample.ledger st'
      (governance_map StateExample.gov) StateExample.gov s StateExample.apart Hs) as (s1 & s2 & H1 & H2 & H3).
    + apply Forall_cons_2; [|constructor]. split; [split; [reflexivity|cbn; lia]|]. intros key Hk. by apply elem_of_list_to_set.
    + exact E.
    + reflexivity.
    + intros e He. set_solver.
    + exists s, s1, s2, st'. split; [reflexivity|]. by split_and!.
  - exfalso. apply (f_equal (λ r, isOk r.2)) in E. vm_compute in E. discriminate.
Defined.
