(* ===== verification/Mining.v ===== *)
(** The retired issuance (l1/src/mining.ts): the work challenge and its target,
    the historical reward schedule, and the fail-closed checks that reject every
    claim. *)

From S2P Require Import Prelude Types Codec Crypto Transaction StateV2.

Definition MINING_DIFFICULTY_BITS : Z := 20.
(** [6.25 * ATOMS_PER_ZYN] *)
Definition INITIAL_MINING_REWARD_ATOMS : Z := 625 * ATOMS_PER_ZYN / 100.
Definition MINING_ERA_TARGET_CLAIMS : Z := 4000000.

Definition miningWorkPayload (tx : MiningClaimTx) : jsval string :=
  JObj [("domain", JStr "zyronchain/mining-work/v1"); ("chainId", JStr (mc_chainId tx)); ("nonce", jint (mc_nonce tx));
        ("sender", JStr (mc_sender tx)); ("height", jint (mc_height tx)); ("previousHash", JStr (mc_previousHash tx));
        ("rewardAtoms", jint (mc_rewardAtoms tx)); ("workNonce", JStr (mc_workNonce tx)); ("publicKey", JStr (mc_publicKey tx))].

Definition miningWorkHash `{Crypto} (tx : MiningClaimTx) : res string :=
  bytes ← canonicalBytes (to_units (miningWorkPayload tx)); Ok (sha256Hex_bytes bytes).

(** [BigInt(`0x${hashHex}`)] *)
Definition hexInteger (hashHex : string) : Z := fold_left (λ acc b, acc * 256 + b) (hexBytes hashHex) 0.

Definition meetsMiningDifficulty (hashHex : string) (bits : Z) : bool :=
  if negb (isLowerHexOf 64 hashHex) then false
  else if negb (isSafeInteger bits) || (bits <? 1) || (255 <? bits) then false
  else hexInteger hashHex <? Z.shiftl 1 (256 - bits).

Definition validateMiningWork `{Crypto} (tx : MiningClaimTx) : res unit :=
  hash ← miningWorkHash tx;
  throw_if (negb (meetsMiningDifficulty hash MINING_DIFFICULTY_BITS))
    ("Mining proof does not meet " +:+ pretty MINING_DIFFICULTY_BITS +:+ "-bit target").

Definition assertClaimCount (value : Z) : res unit :=
  throw_if (negb (isSafeInteger value) || (value <? 0)) "Invalid finalized mining claim count".
Definition assertGenesisSupply (value : Z) : res unit :=
  throw_if (negb (isSafeInteger value) || (value <? 0) || (MAX_SUPPLY_ATOMS <? value)) "Invalid genesis ZYN supply".

Definition miningEraForClaimCount (claimCount : Z) : res Z :=
  assertClaimCount claimCount;;
  Ok (math_floor_div claimCount MINING_ERA_TARGET_CLAIMS).

(** The loop of [cumulativeMiningIssuanceAtoms]; [fuel] bounds the eras. *)
Fixpoint issuance_loop (fuel : nat) (miningBudget remainingClaims reward issued : Z) : res Z :=
  if (0 <? remainingClaims) && (issued <? miningBudget) then
    match fuel with
    | O => Throw "out of fuel"
    | S fuel' =>
      let claimsInEra := Z.min remainingClaims MINING_ERA_TARGET_CLAIMS in
      let boundedReward := Z.max 1 reward in
      let eraPotential := claimsInEra * boundedReward in
      throw_if (negb (isSafeInteger eraPotential)) "Mining issuance overflow";;
      let accepted := Z.min eraPotential (miningBudget - issued) in
      issuance_loop fuel' miningBudget (remainingClaims - claimsInEra) (math_floor_div reward 2) (issued + accepted)
    end
  else Ok issued.

(** An era has 4,000,000 claims. *)
Definition issuance_fuel (claimCount : Z) : nat := Z.to_nat (claimCount / MINING_ERA_TARGET_CLAIMS + 1).

Definition cumulativeMiningIssuanceAtoms (claimCount genesisSupplyAtoms : Z) : res Z :=
  assertClaimCount claimCount;;
  assertGenesisSupply genesisSupplyAtoms;;
  issuance_loop (issuance_fuel claimCount) (MAX_SUPPLY_ATOMS - genesisSupplyAtoms) claimCount INITIAL_MINING_REWARD_ATOMS 0.

Definition historicalMiningRewardAtoms (claimCount genesisSupplyAtoms : Z) : res Z :=
  assertClaimCount claimCount;;
  assertGenesisSupply genesisSupplyAtoms;;
  issued ← cumulativeMiningIssuanceAtoms claimCount genesisSupplyAtoms;
  let remaining := MAX_SUPPLY_ATOMS - genesisSupplyAtoms - issued in
  if remaining <=? 0 then Ok 0
  else
    era ← miningEraForClaimCount claimCount;
    let scheduled := Z.max 1 (INITIAL_MINING_REWARD_ATOMS / 2 ^ era) in
    Ok (Z.min scheduled remaining).

Definition miningRewardAtoms (claimCount genesisSupplyAtoms : Z) : res Z :=
  assertClaimCount claimCount;;
  assertGenesisSupply genesisSupplyAtoms;;
  if MINING_RETIRED then Ok 0 else historicalMiningRewardAtoms claimCount genesisSupplyAtoms.

Definition assertMiningClaimContext `{Crypto} (tx : MiningClaimTx) (nextHeight : Z) (previousHash : string)
    (claimCount genesisSupplyAtoms : Z) : res unit :=
  assertMiningNotRetired;;
  throw_if (negb (mc_height tx =? nextHeight)) "Mining claim targets wrong block height";;
  throw_if (negb (String.eqb (mc_previousHash tx) previousHash)) "Mining claim targets stale previous hash";;
  expectedReward ← miningRewardAtoms claimCount genesisSupplyAtoms;
  throw_if (expectedReward <=? 0) "ZYN maximum historical issuance has been reached";;
  throw_if (negb (mc_rewardAtoms tx =? expectedReward)) "Mining claim reward does not match issuance schedule";;
  validateMiningWork tx.

(** ** The schedule *)

(** What the first [claims] claims earn by the schedule, with no budget. *)
Fixpoint scheduled_total (eras : nat) (claims reward : Z) : Z :=
  match eras with
  | O => 0
  | S eras' =>
    if 0 <? claims then
      let era := Z.min claims MINING_ERA_TARGET_CLAIMS in
      era * Z.max 1 reward + scheduled_total eras' (claims - era) (reward / 2)
    else 0
  end.

Lemma scheduled_total_none (eras : nat) (reward : Z) : scheduled_total eras 0 reward = 0.
Proof. by destruct eras. Qed.

Lemma scheduled_total_nonneg (eras : nat) (claims reward : Z) : 0 ≤ scheduled_total eras claims reward.
Proof.
  revert claims reward. induction eras as [|eras IH]; intros claims reward; cbn [scheduled_total]; [lia|].
  destruct (Z.ltb_spec 0 claims); [|lia]. cbv zeta. specialize (IH (claims - Z.min claims MINING_ERA_TARGET_CLAIMS) (reward / 2)).
  unfold MINING_ERA_TARGET_CLAIMS in *. nia.
Qed.

(** The loop is the scheduled total cut off at the budget, and never runs out of
    fuel. *)
Lemma issuance_loop_total (fuel : nat) (budget claims reward issued : Z) :
  claims ≤ Z.of_nat fuel * MINING_ERA_TARGET_CLAIMS → 0 ≤ reward ≤ 625000000 → issued ≤ budget →
  issuance_loop fuel budget claims reward issued = Ok (Z.min budget (issued + scheduled_total fuel claims reward)).
Proof.
  revert claims reward issued. induction fuel as [|fuel IH]; intros claims reward issued Hc Hr Hi;
    cbn [issuance_loop scheduled_total]; destruct (Z.ltb_spec 0 claims) as [H0|H0]; cbn [andb]; cbv zeta;
    [lia|f_equal; lia| |f_equal; lia].
  unfold MINING_ERA_TARGET_CLAIMS in *. pose proof (scheduled_total_nonneg fuel (claims - Z.min claims 4000000) (reward / 2)).
  assert (1 ≤ Z.min claims 4000000 ≤ 4000000) by lia. assert (1 ≤ Z.max 1 reward ≤ 625000000) by lia.
  assert (0 ≤ Z.min claims 4000000 * Z.max 1 reward ≤ 4000000 * 625000000) by nia.
  destruct (Z.ltb_spec issued budget) as [Hb|Hb]; [|f_equal; lia].
  assert (isSafeInteger (Z.min claims 4000000 * Z.max 1 reward) = true) as ->
    by (apply isSafeInteger_spec; unfold MAX_SAFE_INTEGER; lia).
  cbn [negb throw_if]. cbn [mbind res_bind]. unfold math_floor_div. set (P := Z.min claims 4000000 * Z.max 1 reward) in *. rewrite IH; [f_equal; lia|lia| |lia].
  split; [apply Z.div_pos; lia|]. apply Z.div_le_upper_bound; lia.
Qed.

(** One more claim adds the reward of its era. *)
Lemma scheduled_total_step (fuel fuel' : nat) (claims reward : Z) :
  0 ≤ claims ≤ Z.of_nat fuel * MINING_ERA_TARGET_CLAIMS → claims < Z.of_nat fuel' * MINING_ERA_TARGET_CLAIMS → 0 ≤ reward →
  scheduled_total fuel' (claims + 1) reward =
    scheduled_total fuel claims reward + Z.max 1 (reward / 2 ^ (claims / MINING_ERA_TARGET_CLAIMS)).
Proof.
  revert fuel claims reward. induction fuel' as [|fuel' IH]; intros fuel claims reward Hc Hc' Hr; [lia|].
  cbn [scheduled_total]. unfold MINING_ERA_TARGET_CLAIMS in *. rewrite (proj2 (Z.ltb_lt 0 (claims + 1))) by lia. cbv zeta.
  destruct (Z.lt_ge_cases claims 4000000) as [Hl|Hg].
  - rewrite (Z.div_small claims) by lia. rewrite Z.pow_0_r, Z.div_1_r, (Z.min_l (claims + 1)) by lia.
    rewrite Z.sub_diag, scheduled_total_none. destruct fuel as [|fuel]; cbn [scheduled_total]; [replace claims with 0 by lia; lia|].
    destruct (Z.ltb_spec 0 claims); [|lia]. cbv zeta. unfold MINING_ERA_TARGET_CLAIMS. rewrite Z.min_l by lia. rewrite Z.sub_diag, scheduled_total_none. lia.
  - destruct fuel as [|fuel]; [lia|]. cbn [scheduled_total]. rewrite (proj2 (Z.ltb_lt 0 claims)) by lia. cbv zeta.
    unfold MINING_ERA_TARGET_CLAIMS. rewrite (Z.min_r (claims + 1)), (Z.min_r claims) by lia.
    replace (claims + 1 - 4000000) with (claims - 4000000 + 1) by lia.
    rewrite (IH fuel) by (first [lia | apply Z.div_pos; lia]).
    replace (claims / 4000000) with (Z.succ ((claims - 4000000) / 4000000))
      by (replace claims with (claims - 4000000 + 1 * 4000000) at 2 by lia; rewrite Z.div_add by lia; lia).
    rewrite Z.pow_succ_r, <-Z.div_div by (first [lia | apply Z.div_pos; lia | apply Z.pow_pos_nonneg; [lia|apply Z.div_pos; lia]]).
    lia.
Qed.

Lemma issuance_fuel_enough (claims : Z) :
  0 ≤ claims → claims < Z.of_nat (issuance_fuel claims) * MINING_ERA_TARGET_CLAIMS.
Proof. intros Hc. unfold issuance_fuel, MINING_ERA_TARGET_CLAIMS. pose proof (Z.div_pos claims 4000000). Z.div_mod_to_equations. lia. Qed.

Lemma assertClaimCount_Ok (v : Z) : 0 ≤ v ≤ MAX_SAFE_INTEGER → assertClaimCount v = Ok ().
Proof. intros Hv. apply throw_if_Ok. breflect. unfold MAX_SAFE_INTEGER in *. lia. Qed.
Lemma assertGenesisSupply_Ok (v : Z) : 0 ≤ v ≤ MAX_SUPPLY_ATOMS → assertGenesisSupply v = Ok ().
Proof. intros Hv. apply throw_if_Ok. breflect. unfold MAX_SAFE_INTEGER, MAX_SUPPLY_ATOMS, ATOMS_PER_ZYN in *. lia. Qed.

Lemma cumulative_closed (claims genesis : Z) :
  0 ≤ claims ≤ MAX_SAFE_INTEGER → 0 ≤ genesis ≤ MAX_SUPPLY_ATOMS →
  cumulativeMiningIssuanceAtoms claims genesis =
    Ok (Z.min (MAX_SUPPLY_ATOMS - genesis) (scheduled_total (issuance_fuel claims) claims INITIAL_MINING_REWARD_ATOMS)).
Proof.
  intros Hc Hg. unfold cumulativeMiningIssuanceAtoms. rewrite assertClaimCount_Ok, assertGenesisSupply_Ok by lia.
  cbn [mbind res_bind]. pose proof (issuance_fuel_enough claims). rewrite issuance_loop_total; [done|lia|done|lia].
Qed.

(** The historical schedule accounts for every atom: issuance starts at 0, the
    loop always ends, one more claim issues exactly the reward of that claim, and
    genesis and issuance together never exceed the maximum supply. *)
Theorem issuance_accounts (claims genesis : Z) :
  0 ≤ claims < MAX_SAFE_INTEGER → 0 ≤ genesis ≤ MAX_SUPPLY_ATOMS →
  ∃ issued reward,
    cumulativeMiningIssuanceAtoms claims genesis = Ok issued ∧ historicalMiningRewardAtoms claims genesis = Ok reward ∧
    cumulativeMiningIssuanceAtoms (claims + 1) genesis = Ok (issued + reward) ∧
    0 ≤ issued ∧ 0 ≤ reward ∧ genesis + issued + reward ≤ MAX_SUPPLY_ATOMS ∧ (claims = 0 → issued = 0).
Proof.
  intros Hc Hg. rewrite !cumulative_closed by lia. set (T := scheduled_total (issuance_fuel claims) claims INITIAL_MINING_REWARD_ATOMS).
  pose proof (issuance_fuel_enough claims ltac:(lia)). pose proof (issuance_fuel_enough (claims + 1) ltac:(lia)).
  rewrite (scheduled_total_step (issuance_fuel claims)) by (done || lia). fold T.
  assert (0 ≤ T) by apply scheduled_total_nonneg.
  set (R := Z.max 1 (INITIAL_MINING_REWARD_ATOMS / 2 ^ (claims / MINING_ERA_TARGET_CLAIMS))). assert (1 ≤ R) by (unfold R; lia).
  assert (historicalMiningRewardAtoms claims genesis =
    Ok (if MAX_SUPPLY_ATOMS - genesis - Z.min (MAX_SUPPLY_ATOMS - genesis) T <=? 0 then 0
        else Z.min R (MAX_SUPPLY_ATOMS - genesis - Z.min (MAX_SUPPLY_ATOMS - genesis) T))) as ->.
  { unfold historicalMiningRewardAtoms, miningEraForClaimCount. rewrite cumulative_closed by lia. fold T.
    rewrite !assertClaimCount_Ok, assertGenesisSupply_Ok by lia.
    cbn [mbind res_bind]. cbv zeta. by destruct (_ <=? 0). }
  eexists _, _. split; [reflexivity|]. split; [reflexivity|]. destruct (Z.leb_spec (MAX_SUPPLY_ATOMS - genesis - Z.min (MAX_SUPPLY_ATOMS - genesis) T) 0).
  all: split; [f_equal; lia|]; split; [lia|]; split; [lia|]; split; [lia|].
  all: intros ->; unfold T; rewrite scheduled_total_none; lia.
Qed.

(** Claims are rejected whatever the context. *)
Lemma mining_context_rejected `{Crypto} (tx : MiningClaimTx) (nextHeight claimCount supply : Z) (previousHash : string) :
  assertMiningClaimContext tx nextHeight previousHash claimCount supply = Throw MINING_RETIRED_MESSAGE.
Proof. done. Qed.

Lemma issuance_accounts_witness :
  ∃ reward, historicalMiningRewardAtoms 8000000 1000 = Ok reward ∧ 0 ≤ reward.
Proof.
  destruct (issuance_accounts 8000000 1000) as (issued & reward & _ & Hr & _ & _ & Hpos & _);
    [unfold MAX_SAFE_INTEGER; lia|unfold MAX_SUPPLY_ATOMS, ATOMS_PER_ZYN; lia|].
  by exists reward.
Defined.
