(* ===== verification/Portable.v ===== *)
(** The portable view of the authenticated state (l1/src/state-v2.ts, lines
    144-275, 366-490, 556-585, 690-698 and 770-922): the traversals of the tree,
    the semantic keys of a snapshot and of a transaction, the value schemas, and
    [reconstructStateV2PortableView], which reads the ledger and the schedules
    back from the tree and the untrusted list of its keys. *)

From S2P Require Import Prelude Types Codec JsonText Crypto Vesting Activity Transaction TxShape Oracle Ledger LedgerHistory SparseTree StateV2 StateV2Root.

(** ** Semantic keys *)

(** [[...keys].sort()]: strings by UTF-16 code units. *)
Definition sort_texts (l : list string) : list string := js_sort text_leb l.

Definition stateV2KeyPreimages {V} (snapshot : LedgerSnapshot) (governance : GovernanceOf V) : list string :=
  sort_texts (map (λ a, accountKey (ar_address a)) (sn_accounts snapshot) ++
    map activityEpochKey (sn_settledActivityEpochs snapshot) ++
    map (λ e, validatorScheduleKey e.1) (gs_validatorSchedule governance) ++
    map (λ e, protocolScheduleKey e.1) (gs_protocolSchedule governance) ++
    map (λ e, activityOracleGovernanceKey e.1.1) (default [] (gs_activityOracleGovernance governance))).

(** [[...keys].sort()] of a [Set] of texts. *)
Definition sort_set (keys : gset string) : list string := sort_texts (elements keys).

Definition stateV2TransactionKeyPreimages (tx : Transaction) : list string :=
  sort_set ({[accountKey (tx_sender tx)]} ∪
    match tx with
    | Transfer t => {[accountKey (tr_receiver t)]}
    | ActivitySettlement t => {[activityEpochKey (as_epoch t)]} ∪ list_to_set (map (λ e, accountKey (e_receiver e)) (as_entries t))
    | MiningClaim t => {[accountKey MINING_TRACKER_ADDRESS]}
    | ValidatorUpdate t => {[validatorScheduleKey (vu_activationHeight t)]}
    | ActivityOracleGovernance t => {[activityOracleGovernanceKey (og_activationHeight t)]}
    | ProtocolUpgrade t => {[protocolScheduleKey (pu_activationHeight t)]}
    end).

(** A canonical decimal: [0], or digits that do not start with [0]. *)
Definition isDecimal (s : string) : bool :=
  match lit s with
  | [] => false
  | c :: rest => forallb isDigit (c :: rest) && (negb (c =? 48) || bool_decide (rest = []))
  end.

Definition parseSemanticHeight (value name : string) : res Z :=
  throw_if (negb (isDecimal value)) ("Invalid State v2 " +:+ name);;
  let parsed := digits_value (lit value) in
  throw_if (negb (isSafeInteger parsed) || (parsed <? 0)) ("Invalid State v2 " +:+ name);;
  Ok parsed.

(** The family of a key, by [key.startsWith(prefix)], and the rest of it. *)
Inductive KeyFamily :=
| AccountFamily (rest : string) | EpochFamily (rest : string) | ValidatorFamily (rest : string)
| ProtocolFamily (rest : string) | OracleFamily (rest : string) | UnknownFamily.

Definition family_of (key : string) : KeyFamily :=
  match stripPrefix "account:" key with Some r => AccountFamily r | None =>
  match stripPrefix "activity-epoch:" key with Some r => EpochFamily r | None =>
  match stripPrefix "validator-schedule:" key with Some r => ValidatorFamily r | None =>
  match stripPrefix "protocol-schedule:" key with Some r => ProtocolFamily r | None =>
  match stripPrefix "activity-oracle-governance:" key with Some r => OracleFamily r | None => UnknownFamily
  end end end end end.

Definition assertStateV2SemanticKeyShape (key : string) : res unit :=
  match family_of key with
  | AccountFamily rest => throw_if (String.eqb rest "") "Invalid State v2 account key"
  | EpochFamily rest => parseSemanticHeight rest "activity epoch";; Ok ()
  | ValidatorFamily rest => parseSemanticHeight rest "validator activation height";; Ok ()
  | ProtocolFamily rest => parseSemanticHeight rest "protocol activation height";; Ok ()
  | OracleFamily rest => parseSemanticHeight rest "activity oracle governance height";; Ok ()
  | UnknownFamily => Throw "Unknown State v2 semantic key"
  end.

(** ** Value schemas *)

(** [Object.keys(value).sort()] *)
Definition sorted_keys (value : jsval units) : option (list units) :=
  match value with JObj entries => Some (js_sort units_le (map fst entries)) | _ => None end.

Definition assertExactPortableRecord (value : jsval units) (keys : list string) (name : string) : res unit :=
  match sorted_keys value with
  | None => Throw ("Invalid " +:+ name)
  | Some actual =>
    throw_if (negb (bool_decide (actual = js_sort units_le (map lit keys)))) ("Invalid " +:+ name +:+ " fields")
  end.

Definition assertStateV2AccountValue (value : jsval units) : res AccountState :=
  assertExactPortableRecord value ["balanceAtoms"; "nonce"] "State v2 account value";;
  match safe_member (member value "balanceAtoms"), safe_member (member value "nonce") with
  | Some b, Some n =>
    throw_if ((b <? 0) || (n <? 0)) "Invalid State v2 account value";;
    Ok (mkAccount b n)
  | _, _ => Throw "Invalid State v2 account value"
  end.

Definition assertStateV2ActivityValue (value : jsval units) : res unit :=
  assertExactPortableRecord value ["settled"] "State v2 activity value";;
  match member value "settled" with JBool true => Ok () | _ => Throw "Invalid State v2 activity value" end.

(** The list stays unchecked. *)
Definition assertStateV2ValidatorScheduleValue (value : jsval units) : res (list (jsval units)) :=
  assertExactPortableRecord value ["validators"] "State v2 validator schedule value";;
  match member value "validators" with JArr items => Ok items | _ => Throw "Invalid State v2 validator schedule value" end.

Definition text_of_units (u : units) : string :=
  String.string_of_list_ascii (map (λ c, Ascii.ascii_of_N (Z.to_N c)) u).
(** [/^[0-9a-f]{n}$/.test(text)] on code units. *)
Definition isLowerHexUnits (n : nat) (u : units) : bool :=
  Nat.eqb (length u) n && forallb (λ c, ((48 <=? c) && (c <=? 57)) || ((97 <=? c) && (c <=? 102))) u.

Definition action_of_units (value : jsval units) : option ActivityOracleGovernanceAction :=
  match value with
  | JStr t =>
    if bool_decide (t = lit "pause") then Some Pause
    else if bool_decide (t = lit "resume") then Some Resume
    else if bool_decide (t = lit "revoke") then Some Revoke else None
  | _ => None
  end.

Definition INVALID_ORACLE_VALUE : string := "Invalid State v2 activity oracle governance value".

(** One iteration over [value.publicKeys]: the keys seen, newest first. *)
Definition oracle_value_key (seen : list string) (item : jsval units) : res (list string) :=
  match item with
  | JStr t =>
    throw_if (negb (isLowerHexUnits 128 t) || bool_decide (text_of_units t ∈ seen)) INVALID_ORACLE_VALUE;;
    Ok (text_of_units t :: seen)
  | _ => Throw INVALID_ORACLE_VALUE
  end.

Definition assertStateV2ActivityOracleGovernanceValue (value : jsval units)
    : res (ActivityOracleGovernanceAction * list string) :=
  assertExactPortableRecord value ["action"; "publicKeys"] "State v2 activity oracle governance value";;
  action ← unwrap (action_of_units (member value "action")) INVALID_ORACLE_VALUE;
  match member value "publicKeys" with
  | JArr items =>
    throw_if (100 <? zlen items) INVALID_ORACLE_VALUE;;
    seen ← res_fold oracle_value_key [] items;
    throw_if ((bool_decide (action = Pause) || bool_decide (action = Resume)) && negb (zlen items =? 0)) INVALID_ORACLE_VALUE;;
    throw_if (bool_decide (action = Revoke) && (zlen items =? 0)) INVALID_ORACLE_VALUE;;
    Ok (action, rev seen)
  | _ => Throw INVALID_ORACLE_VALUE
  end.

Definition assertStateV2ProtocolScheduleValue (value : jsval units) : res Z :=
  assertExactPortableRecord value ["protocolVersion"] "State v2 protocol schedule value";;
  match safe_member (member value "protocolVersion") with
  | Some v => throw_if (v <? 1) "Invalid State v2 protocol schedule value";; Ok v
  | None => Throw "Invalid State v2 protocol schedule value"
  end.

(** [stateV2ActivityEpochSettled] *)
Definition stateV2ActivityEpochSettled {S} `{StateStore S} (state : S) (epoch : Z) : res bool :=
  throw_if (negb (isSafeInteger epoch) || (epoch <? 0)) "Invalid activity epoch";;
  value ← store_get state (activityEpochKey epoch);
  match value with
  | None => Ok false
  | Some v =>
    assertExactPortableRecord v ["settled"] "State v2 activity value";;
    match member v "settled" with JBool true => Ok true | _ => Throw "Corrupt protocol v2 activity state" end
  end.

(** ** The schema of a leaf before its key is known *)

Definition MAX_PORTABLE_PROTOCOL_VERSION : Z := 65535.
Definition MAX_PORTABLE_SCHEDULE_VALIDATORS : Z := 100.

(** [/^ZYN[0-9a-f]{40}$/] on code units. *)
Definition isAddressUnits (u : units) : bool :=
  match u with 90 :: 89 :: 78 :: body => isLowerHexUnits 40 body | _ => false end.

(** One iteration of [assertPortableValidatorList]: the addresses seen. *)
Definition portable_validator `{Crypto} (seen : list string) (item : jsval units) : res (list string) :=
  assertExactPortableRecord item ["address"; "publicKey"] "State v2 validator";;
  match member item "address", member item "publicKey" with
  | JStr a, JStr k =>
    throw_if (negb (isAddressUnits a) || negb (isLowerHexUnits 128 k) ||
        negb (String.eqb (addressFromPublicKey (text_of_units k)) (text_of_units a)) || bool_decide (text_of_units a ∈ seen))
      "Invalid State v2 validator";;
    Ok (text_of_units a :: seen)
  | _, _ => Throw "Invalid State v2 validator"
  end.

Definition assertPortableValidatorList `{Crypto} (validators : list (jsval units)) : res unit :=
  throw_if ((zlen validators <? 1) || (MAX_PORTABLE_SCHEDULE_VALIDATORS <? zlen validators)) "validator count out of range";;
  res_fold portable_validator [] validators;;
  Ok ().

(** The schema selected by the field set; the outer [catch] turns every error
    into one message. *)
Definition leaf_schema `{Crypto} (value : jsval units) : res unit :=
  let fields_are keys := bool_decide (sorted_keys value = Some (js_sort units_le (map lit keys))) in
  if fields_are ["balanceAtoms"; "nonce"] then assertStateV2AccountValue value;; Ok ()
  else if fields_are ["settled"] then assertStateV2ActivityValue value
  else if fields_are ["validators"] then
    validators ← assertStateV2ValidatorScheduleValue value;
    assertPortableValidatorList validators
  else if fields_are ["protocolVersion"] then
    version ← assertStateV2ProtocolScheduleValue value;
    throw_if (MAX_PORTABLE_PROTOCOL_VERSION <? version) "protocol version out of range"
  else if fields_are ["action"; "publicKeys"] then assertStateV2ActivityOracleGovernanceValue value;; Ok ()
  else Throw "unknown field set".

Definition assertStateV2LeafValueSchema `{Crypto} (value : jsval units) : res unit :=
  match leaf_schema value with
  | Ok u => Ok u
  | Throw _ => Throw "Invalid portable State v2 leaf value schema"
  end.

(** ** Traversals *)

Section traversal.
Context `{Crypto}.

(** [leafKeyHashes]: the recursive [visit] with [hashes] and [seenNodes]; [n] is
    the number of levels below [depth], which a branch never exceeds. *)
Fixpoint leaf_visit (resolver : option StateV2NodeResolver) (n : nat) (link : NodeLink) (depth : nat)
    (acc : gset string * gset string) : res (gset string * gset string) :=
  match linkHash link with
  | None => Ok acc
  | Some hash =>
    if bool_decide (hash ∈ acc.2) then Ok acc
    else
      node ← resolveNode resolver link depth;
      let seenNodes := {[default "" (linkHash node)]} ∪ acc.2 in
      match node with
      | BranchNode _ l r =>
        match n with
        | O => Throw "State v2 branch below tree depth"
        | S n' =>
          acc ← leaf_visit resolver n' l (S depth) (acc.1, seenNodes);
          leaf_visit resolver n' r (S depth) acc
        end
      | LeafNode _ keyHash _ _ => Ok ({[keyHash]} ∪ acc.1, seenNodes)
      | _ => Ok (acc.1, seenNodes)
      end
  end.

Definition leafKeyHashes (s : SparseMerkleState) : res (gset string) :=
  acc ← leaf_visit (nodeResolver s) TREE_DEPTH (rootNode s) 0 (∅, ∅);
  Ok acc.1.

(** [validateReachable] with the index of [reachableNodeHashes]: the depth at
    which each hash was met. *)
Fixpoint reach_visit (resolver : option StateV2NodeResolver) (n : nat) (link : NodeLink) (depth : nat) (depths : gmap string nat)
    : res (gmap string nat) :=
  match linkHash link with
  | None => Ok depths
  | Some hash =>
    match depths !! hash with
    | Some previousDepth =>
      throw_if (negb (Nat.eqb previousDepth depth)) "State v2 node reused at inconsistent depth";;
      Ok depths
    | None =>
      node ← resolveNode resolver link depth;
      let depths := <[hash := depth]> depths in
      match node with
      | BranchNode _ l r =>
        match n with
        | O => Throw "State v2 branch below tree depth"
        | S n' =>
          depths ← reach_visit resolver n' l (S depth) depths;
          reach_visit resolver n' r (S depth) depths
        end
      | _ => Ok depths
      end
    end
  end.

Definition reachableNodeHashes (s : SparseMerkleState) : res (gset string) :=
  depths ← reach_visit (nodeResolver s) TREE_DEPTH (rootNode s) 0 ∅;
  Ok (dom depths).

(** [fromNodeRecords]: the records by hash, then the whole reachable graph. *)
Definition record_map (records : list StateV2NodeRecord) : res (gmap string StateV2NodeRecord) :=
  res_fold (λ byHash record,
    throw_if (bool_decide (is_Some (byHash !! recordHash record))) "Duplicate State v2 node record";;
    Ok (<[recordHash record := record]> byHash)) ∅ records.

Definition fromNodeRecords (rootHash : string) (records : list StateV2NodeRecord) : res SparseMerkleState :=
  throw_if (negb (isLowerHexOf 64 rootHash)) "Invalid State v2 root hash";;
  if String.eqb rootHash (EMPTY_HASHES 0) then Ok sparse_empty else
  byHash ← record_map records;
  state ← fromNodeResolver rootHash (λ hash, byHash !! hash);
  reachableNodeHashes state;;
  Ok state.

(** [pendingNodeRecords]: chunks newest first, one record per hash. *)
Definition pendingNodeRecords (s : SparseMerkleState) : list StateV2NodeRecord :=
  rev (fold_left (λ acc record,
    if bool_decide (recordHash record ∈ (recordHash <$> acc)) then acc else record :: acc) (concat (pendingRecords s)) []).

(** ** The portable view *)

(** What the loop over the keys collects, newest first, and [seenHashes]. *)
Record Collected := mkCollected {
  co_seen : gset string;
  co_accounts : list AccountRecord;
  co_epochs : list Z;
  co_validatorSchedule : list (Z * list (jsval units));
  co_protocolSchedule : list (Z * Z);
  co_oracleGovernance : list (Z * ActivityOracleGovernanceAction * list string) }.
Definition no_entries : Collected := mkCollected ∅ [] [] [] [] [].

(** The entry of one key with its value. *)
Definition collect_value (acc : Collected) (key : string) (value : jsval units) : res Collected :=
  let '(mkCollected seen accounts epochs validators protocols oracles) := acc in
  match family_of key with
  | AccountFamily address =>
    account ← assertStateV2AccountValue value;
    Ok (mkCollected seen (mkAccountRecord address (balanceAtoms account) (nonce account) :: accounts) epochs validators protocols oracles)
  | EpochFamily rest =>
    epoch ← parseSemanticHeight rest "activity epoch";
    assertStateV2ActivityValue value;;
    Ok (mkCollected seen accounts (epoch :: epochs) validators protocols oracles)
  | ValidatorFamily rest =>
    activationHeight ← parseSemanticHeight rest "validator activation height";
    items ← assertStateV2ValidatorScheduleValue value;
    Ok (mkCollected seen accounts epochs ((activationHeight, items) :: validators) protocols oracles)
  | ProtocolFamily rest =>
    activationHeight ← parseSemanticHeight rest "protocol activation height";
    version ← assertStateV2ProtocolScheduleValue value;
    Ok (mkCollected seen accounts epochs validators ((activationHeight, version) :: protocols) oracles)
  | OracleFamily rest =>
    activationHeight ← parseSemanticHeight rest "activity oracle governance height";
    entry ← assertStateV2ActivityOracleGovernanceValue value;
    Ok (mkCollected seen accounts epochs validators protocols ((activationHeight, entry.1, entry.2) :: oracles))
  | UnknownFamily => Throw "Unknown State v2 semantic key"
  end.

Definition see_hash (acc : Collected) (keyHash : string) : Collected :=
  mkCollected ({[keyHash]} ∪ co_seen acc) (co_accounts acc) (co_epochs acc) (co_validatorSchedule acc)
    (co_protocolSchedule acc) (co_oracleGovernance acc).

Definition collect_key (state : SparseMerkleState) (leafHashes : gset string) (acc : Collected) (key : string) : res Collected :=
  throw_if (Nat.ltb (String.length key) 1 || Nat.ltb 256 (String.length key)) "Invalid State v2 key preimage";;
  keyHash ← stateV2KeyHash key;
  throw_if (bool_decide (keyHash ∈ co_seen acc)) "Duplicate State v2 key preimage";;
  throw_if (negb (bool_decide (keyHash ∈ leafHashes))) "State v2 key preimage is not committed by the root";;
  value ← sparse_get state key;
  value ← unwrap value "State v2 key preimage has no committed value";
  collect_value (see_hash acc keyHash) key value.

Fixpoint assertUniqueSemanticNumbers (values : list Z) (name : string) : res unit :=
  match values with
  | a :: (b :: _) as rest => throw_if (b =? a) ("Duplicate State v2 " +:+ name);; assertUniqueSemanticNumbers rest name
  | _ => Ok ()
  end.

(** A schedule value from entries that were not checked. *)
Definition raw_validators_value (items : list (jsval units)) : jsval units := JObj [(lit "validators", JArr items)].

Record StateV2PortableView := mkPortableView {
  pv_ledger : LedgerSnapshot;
  pv_governance : GovernanceOf (jsval units) }.

(** [validatorSchedule[0]?.activationHeight !== 0] *)
Definition starts_at_genesis {A} (schedule : list (Z * A)) : bool :=
  match schedule with (h, _) :: _ => h =? 0 | [] => false end.

(** From the entries to the view: sorting, the checks on the schedules, the
    ledger snapshot and the comparison of roots. *)
Definition portable_view_of (acc : Collected) (root : string) : res StateV2PortableView :=
  let accounts := js_sort (λ a b, text_le (ar_address a) (ar_address b)) (rev (co_accounts acc)) in
  let epochs := js_sort Z.leb (rev (co_epochs acc)) in
  let validatorSchedule := js_sort (λ a b, a.1 <=? b.1) (rev (co_validatorSchedule acc)) in
  let protocolSchedule := js_sort (λ a b, a.1 <=? b.1) (rev (co_protocolSchedule acc)) in
  let activityOracleGovernance := js_sort (λ a b, a.1.1 <=? b.1.1) (rev (co_oracleGovernance acc)) in
  assertUniqueSemanticNumbers epochs "activity epoch";;
  assertUniqueSemanticNumbers (map fst validatorSchedule) "validator activation height";;
  assertUniqueSemanticNumbers (map fst protocolSchedule) "protocol activation height";;
  assertUniqueSemanticNumbers (map (λ e, e.1.1) activityOracleGovernance) "activity oracle governance height";;
  throw_if (negb (starts_at_genesis validatorSchedule) || negb (starts_at_genesis protocolSchedule))
    "State v2 governance schedule must start at genesis";;
  st ← fromSnapshot (snapshot_json (mkSnapshot accounts epochs));
  let ledger := snapshot st in
  let governance := mkGovernance validatorSchedule protocolSchedule
    (if bool_decide (activityOracleGovernance = []) then None else Some activityOracleGovernance) in
  rebuilt ← stateV2FromLedgerSnapshotSteps raw_validators_value sparse_empty ledger (Some governance);
  throw_if (negb (String.eqb (sparse_root rebuilt) root)) "Reconstructed State v2 portable view root mismatch";;
  Ok (mkPortableView ledger governance).

Definition reconstructStateV2PortableView (state : SparseMerkleState) (keyPreimages : list string) : res StateV2PortableView :=
  leafHashes ← leafKeyHashes state;
  throw_if (negb (zlen keyPreimages =? Z.of_nat (size leafHashes))) "State v2 key preimage count mismatch";;
  acc ← res_fold (collect_key state leafHashes) no_entries keyPreimages;
  throw_if (negb (Nat.eqb (size (co_seen acc)) (size leafHashes))) "Incomplete State v2 key preimage set";;
  portable_view_of acc (sparse_root state).

End traversal.
