(* ===== verification/Block.v ===== *)
(** Blocks before protocol v6 (l1/src/block.ts): header hash, the genesis block
    and the genesis-configuration commitment, signed blocks, round-skip votes
    and finality attestations with their quorums, the proposer rotation. *)

From S2P Require Import Prelude Types Codec Crypto Activity Transaction TxShape.

Definition MAX_VALIDATOR_COUNT : Z := 100.
Definition MAX_BLOCK_TRANSACTIONS : Z := 10000.
Definition MAX_BLOCK_BYTES : Z := 2000000.
Definition GENESIS_CONFIG_COMMITMENT_DOMAIN : string := "zyronchain/genesis-config/v1".
Definition BLOCK_PROPOSAL_DOMAIN : string := "zyronchain/block-proposal/v1".
Definition ROUND_SKIP_DOMAIN : string := "zyronchain/round-skip/v1".
Definition FINALITY_ATTESTATION_DOMAIN : string := "zyronchain/finality-attestation/v1".
(** [CONSENSUS_V6_PROTOCOL_VERSION] (consensus-v6.ts). *)
Definition CONSENSUS_V6_PROTOCOL_VERSION : Z := 6.
(** ["0".repeat(64)] *)
Definition ZERO_HASH : string := "0000000000000000000000000000000000000000000000000000000000000000".

(** ** Blocks as JavaScript values *)

Definition header_json (h : BlockHeader) : json :=
  JObj [("version", jint (h_version h)); ("chainId", JStr (h_chainId h)); ("height", jint (h_height h));
        ("round", jint (h_round h)); ("previousHash", JStr (h_previousHash h)); ("timestampMs", jint (h_timestampMs h));
        ("transactionRoot", JStr (h_transactionRoot h)); ("stateRoot", JStr (h_stateRoot h));
        ("proposer", JStr (h_proposer h))].
Definition attestation_json (a : BlockAttestation) : json :=
  JObj [("validator", JStr (at_validator a)); ("publicKey", JStr (at_publicKey a)); ("signature", JStr (at_signature a))].
Definition roundSkipPayload (vote : RoundSkipVote) : json :=
  JObj [("validator", JStr (rs_validator vote)); ("publicKey", JStr (rs_publicKey vote)); ("chainId", JStr (rs_chainId vote));
        ("height", jint (rs_height vote)); ("round", jint (rs_round vote)); ("previousHash", JStr (rs_previousHash vote))].
Definition round_skip_json (vote : RoundSkipVote) : json :=
  JObj [("validator", JStr (rs_validator vote)); ("publicKey", JStr (rs_publicKey vote)); ("chainId", JStr (rs_chainId vote));
        ("height", jint (rs_height vote)); ("round", jint (rs_round vote)); ("previousHash", JStr (rs_previousHash vote));
        ("signature", JStr (rs_signature vote))].
Definition nullable (o : option string) : json := match o with Some s => JStr s | None => JNull end.
Definition commit_round_fields (c : CommitRound) : list (string * json) :=
  match c with
  | NoCommitRound => []
  | NullCommitRound => [("commitRound", JNull)]
  | CommitAt r => [("commitRound", jint r)]
  end.
(** A block whose transactions are values already. *)
Definition RawBlock : Type := BlockOf json.
Definition raw_block_json (b : RawBlock) : json :=
  JObj ([("header", header_json (b_header b)); ("transactions", JArr (b_transactions b)); ("hash", JStr (b_hash b));
         ("proposerPublicKey", nullable (b_proposerPublicKey b)); ("signature", nullable (b_signature b));
         ("roundCertificate", JArr (map round_skip_json (b_roundCertificate b)));
         ("attestations", JArr (map attestation_json (b_attestations b)))]
        ++ commit_round_fields (b_commitRound b)).
(** The same block with its transactions written out as values. *)
Definition raw_of (b : Block) : RawBlock :=
  mkBlock (b_header b) (map tx_json (b_transactions b)) (b_hash b) (b_proposerPublicKey b) (b_signature b)
    (b_roundCertificate b) (b_attestations b) (b_commitRound b).

Definition allocation_json (a : Allocation) : json :=
  JObj [("address", JStr (al_address a)); ("amountAtoms", jint (al_amountAtoms a))].
Definition genesis_json (g : GenesisConfig) : json :=
  JObj ([("chainId", JStr (g_chainId g)); ("timestampMs", jint (g_timestampMs g));
         ("validators", JArr (map validator_json (g_validators g)));
         ("activityOracles", JArr (map JStr (g_activityOracles g))); ("activityPool", JStr (g_activityPool g));
         ("allocations", JArr (map allocation_json (g_allocations g)))]
    ++ optional "allocationLocks" (λ l, JObj [("founderVesting", JStr (founderVesting l));
         ("permanentLiquidity", JStr (permanentLiquidity l))]) (g_allocationLocks g)
    ++ optional "activityOracleThreshold" jint (g_activityOracleThreshold g)
    ++ optional "activityOraclePolicy" JStr (g_activityOraclePolicy g)
    ++ optional "activitySettlementCapAtoms" jint (g_activitySettlementCapAtoms g)
    ++ optional "launchProfile" JStr (g_launchProfile g)
    ++ optional "networkClass" JStr (g_networkClass g)
    ++ optional "publicDistributionRelease" (λ r, JObj [("address", JStr (pdr_address r));
         ("cliffMs", jint (pdr_cliffMs r)); ("linearMs", jint (pdr_linearMs r))]) (g_publicDistributionRelease g)
    ++ optional "feePolicy" (λ f, JObj [("version", JStr (fp_version f));
         ("fixedTransferFeeAtoms", jint (fp_fixedTransferFeeAtoms f))]) (g_feePolicy g)
    ++ optional "validatorAdmission" (λ a, JObj [("policy", JStr (va_policy a));
         ("genesisProofs", JArr (map proof_json (va_genesisProofs a)))]) (g_validatorAdmission g)).

(** ** Proposer rotation and quorum size *)

Definition expectedValidator (validators : list Validator) (height round : Z) : res Validator :=
  throw_if (zlen validators =? 0) "Validator set is empty";;
  throw_if (negb (isSafeInteger height) || (height <? 1) || negb (isSafeInteger round) || (round <? 0))
    "Invalid proposer height or round";;
  let validatorCount := zlen validators in
  let index := (Z.rem (height - 1) validatorCount + Z.rem round validatorCount) `rem` validatorCount in
  unwrap (validators !! Z.to_nat index) "undefined".

Definition validatorQuorumSize (validatorCount : Z) : res Z :=
  throw_if (negb (isSafeInteger validatorCount) || (validatorCount <? 1)) "Invalid validator count";;
  Ok (math_floor_div (validatorCount * 2) 3 + 1).

(** [new Map(validators.map((validator) => [validator.address, validator.publicKey]))]:
    of two entries with one key the later stays. *)
Definition address_map (validators : list Validator) : gmap string string :=
  fold_left (λ m v, <[v_address v := v_publicKey v]> m) validators ∅.

Section block.
Context `{Crypto}.

(** [sha256Hex(canonicalJson(header))] *)
Definition blockHash (header : BlockHeader) : res string := txid_of (header_json header).

Definition genesisCommitmentView (genesis : GenesisConfig) : GenesisConfig :=
  match g_validatorAdmission genesis with
  | None => genesis
  | Some admission =>
    mkGenesis (g_chainId genesis) (g_timestampMs genesis) (g_validators genesis) (g_activityOracles genesis)
      (g_activityPool genesis) (g_allocations genesis) (g_allocationLocks genesis) (g_activityOracleThreshold genesis)
      (g_activityOraclePolicy genesis) (g_activitySettlementCapAtoms genesis) (g_launchProfile genesis)
      (g_networkClass genesis) (g_publicDistributionRelease genesis) (g_feePolicy genesis)
      (Some (mkValidatorAdmission (va_policy admission) []))
  end.

Definition genesisConfigCommitment (genesis : GenesisConfig) : res string :=
  txid_of (JObj [("domain", JStr GENESIS_CONFIG_COMMITMENT_DOMAIN);
                 ("genesis", genesis_json (genesisCommitmentView genesis))]).

Definition txs_root (transactions : list json) : res string := merkleRoot (map to_units transactions).

Definition createGenesisBlock (genesis : GenesisConfig) (stateRoot : string) : res Block :=
  let bindConfig := bool_decide (is_Some (g_launchProfile genesis)) ||
    bool_decide (is_Some (g_activityOracleThreshold genesis)) ||
    bool_decide (is_Some (g_activityOraclePolicy genesis)) ||
    bool_decide (is_Some (g_activitySettlementCapAtoms genesis)) ||
    bool_decide (is_Some (g_networkClass genesis)) ||
    bool_decide (is_Some (g_publicDistributionRelease genesis)) ||
    bool_decide (is_Some (g_feePolicy genesis)) ||
    bool_decide (is_Some (g_validatorAdmission genesis)) in
  previousHash ← (if bindConfig then genesisConfigCommitment genesis else Ok ZERO_HASH);
  transactionRoot ← txs_root [];
  let header := mkHeader 1 (g_chainId genesis) 0 0 previousHash (g_timestampMs genesis) transactionRoot stateRoot "GENESIS" in
  hash ← blockHash header;
  Ok (mkBlock header [] hash None None [] [] NoCommitRound).

(** ** Signatures by protocol version *)

Definition signForProtocol (protocolVersion : Z) (domain : string) (payload : json) (privateKeyHex : string) : res string :=
  if 3 <=? protocolVersion then signCanonicalDomain domain (to_units payload) privateKeyHex
  else signCanonical (to_units payload) privateKeyHex.

Definition verifyForProtocol (protocolVersion : Z) (domain : string) (payload : json)
    (signatureHex publicKeyHex : string) : bool :=
  if 3 <=? protocolVersion then verifyCanonicalDomain domain (to_units payload) signatureHex publicKeyHex
  else verifyCanonical (to_units payload) signatureHex publicKeyHex.

Definition assertExplicitProtocolVersion (protocolVersion : Z) : res unit :=
  throw_if (negb (isSafeInteger protocolVersion) || (protocolVersion <? 1))
    "Round skip verification requires an explicit protocol version".

(** ** Creating blocks *)

Definition createUnsignedBlock (version : Z) (chainId : string) (height round : Z) (previousHash : string)
    (timestampMs : Z) (transactions : list Transaction) (stateRoot proposerPublicKey : string)
    (roundCertificate : list RoundSkipVote) : res Block :=
  transactionRoot ← txs_root (map tx_json transactions);
  let header := mkHeader version chainId height round previousHash timestampMs transactionRoot stateRoot
    (addressFromPublicKey proposerPublicKey) in
  hash ← blockHash header;
  Ok (mkBlock header transactions hash (Some proposerPublicKey) None roundCertificate []
    (if version =? CONSENSUS_V6_PROTOCOL_VERSION then NullCommitRound else NoCommitRound)).

Definition attachBlockSignature {T} (block : BlockOf T) (signature : string) : res (BlockOf T) :=
  throw_if (h_height (b_header block) =? 0) "Cannot sign genesis block as validator proposal";;
  match b_proposerPublicKey block with
  | None => Throw "Cannot sign genesis block as validator proposal"
  | Some proposerPublicKey =>
    throw_if (String.eqb proposerPublicKey "") "Cannot sign genesis block as validator proposal";;
    assertHex signature 64 "block signature";;
    throw_if (negb (verifyForProtocol (h_version (b_header block)) BLOCK_PROPOSAL_DOMAIN (header_json (b_header block))
      signature proposerPublicKey)) "Invalid proposer signature";;
    Ok (mkBlock (b_header block) (b_transactions block) (b_hash block) (b_proposerPublicKey block) (Some signature)
      (b_roundCertificate block) (b_attestations block) (b_commitRound block))
  end.

Definition createSignedBlock (version : Z) (chainId : string) (height round : Z) (previousHash : string)
    (timestampMs : Z) (transactions : list Transaction) (stateRoot proposerPrivateKey proposerPublicKey : string)
    (roundCertificate : list RoundSkipVote) : res Block :=
  unsigned ← createUnsignedBlock version chainId height round previousHash timestampMs transactions stateRoot
    proposerPublicKey roundCertificate;
  signature ← signForProtocol version BLOCK_PROPOSAL_DOMAIN (header_json (b_header unsigned)) proposerPrivateKey;
  attachBlockSignature unsigned signature.

Definition createRoundSkipVote (chainId : string) (height round : Z)
    (previousHash validatorPrivateKey validatorPublicKey : string) (protocolVersion : Z) : res RoundSkipVote :=
  assertExplicitProtocolVersion protocolVersion;;
  let unsigned := mkRoundSkipVote (addressFromPublicKey validatorPublicKey) validatorPublicKey chainId height round
    previousHash in
  signature ← signForProtocol protocolVersion ROUND_SKIP_DOMAIN (roundSkipPayload (unsigned "")) validatorPrivateKey;
  Ok (unsigned signature).

Definition attestationPayload {T} (block : BlockOf T) : json :=
  JObj [("chainId", JStr (h_chainId (b_header block))); ("height", jint (h_height (b_header block)));
        ("blockHash", JStr (b_hash block))].

Definition createBlockAttestation {T} (block : BlockOf T) (validatorPrivateKey validatorPublicKey : string)
    : res BlockAttestation :=
  signature ← signForProtocol (h_version (b_header block)) FINALITY_ATTESTATION_DOMAIN (attestationPayload block)
    validatorPrivateKey;
  Ok (mkAttestation (addressFromPublicKey validatorPublicKey) validatorPublicKey signature).

(** ** Round-skip certificates *)

Definition validateRoundSkipVote (value : json) (allowed : gmap string string) (chainId : string)
    (height round : Z) (previousHash : string) (protocolVersion : Z) : res RoundSkipVote :=
  assertExplicitProtocolVersion protocolVersion;;
  vote ← assertPlainRecord value "round skip vote";
  assertExactKeys vote ["validator"; "publicKey"; "chainId"; "height"; "round"; "previousHash"; "signature"] "round skip vote";;
  validator ← as_text (get vote "validator") "Invalid round skip vote";
  publicKey ← as_text (get vote "publicKey") "Invalid round skip vote";
  vChainId ← as_text (get vote "chainId") "Invalid round skip vote";
  vPreviousHash ← as_text (get vote "previousHash") "Invalid round skip vote";
  signature ← as_text (get vote "signature") "Invalid round skip vote";
  vHeight ← safe_int (get vote "height") (λ _, false) "Invalid round skip vote";
  vRound ← safe_int (get vote "round") (λ _, false) "Invalid round skip vote";
  assertAddress validator;;
  assertHex publicKey 64 "round skip publicKey";;
  assertHex vPreviousHash 32 "round skip previousHash";;
  assertHex signature 64 "round skip signature";;
  throw_if (negb (bool_decide (allowed !! validator = Some publicKey))) "Unknown round skip voter";;
  throw_if (negb (String.eqb vChainId chainId) || negb (vHeight =? height) || negb (vRound =? round) ||
    negb (String.eqb vPreviousHash previousHash)) "Round skip vote does not match proposal";;
  let result := mkRoundSkipVote validator publicKey vChainId vHeight vRound vPreviousHash signature in
  throw_if (negb (verifyForProtocol protocolVersion ROUND_SKIP_DOMAIN (roundSkipPayload result) signature publicKey))
    "Invalid round skip signature";;
  Ok result.

(** One vote of the loop of [validateRoundSkipQuorum]; [seen] is the set of
    voters so far, [valid] its size. *)
Definition skip_step (allowed : gmap string string) (chainId : string) (height round : Z) (previousHash : string)
    (protocolVersion : Z) (acc : list string * Z) (vote : RoundSkipVote) : res (list string * Z) :=
  throw_if (bool_decide (rs_validator vote ∈ acc.1)) "Duplicate round skip vote";;
  validateRoundSkipVote (round_skip_json vote) allowed chainId height round previousHash protocolVersion;;
  Ok (rs_validator vote :: acc.1, acc.2 + 1).

Definition validateRoundSkipQuorum (votes : list RoundSkipVote) (validators : list Validator) (chainId : string)
    (height round : Z) (previousHash : string) (protocolVersion : Z) : res unit :=
  assertExplicitProtocolVersion protocolVersion;;
  throw_if (zlen validators <? zlen votes) "Round skip certificate exceeds active validator set";;
  let allowed := address_map validators in
  acc ← res_fold (skip_step allowed chainId height round previousHash protocolVersion) ([], 0) votes;
  quorum ← validatorQuorumSize (zlen validators);
  throw_if (acc.2 <? quorum) ("Round skip quorum not reached: " +:+ pretty acc.2 +:+ "/" +:+ pretty quorum).

Definition validateRoundCertificate {T} (block : BlockOf T) (validators : list Validator) : res unit :=
  if h_round (b_header block) =? 0 then
    throw_if (negb (zlen (b_roundCertificate block) =? 0)) "Round 0 must not contain a skip certificate"
  else
    validateRoundSkipQuorum (b_roundCertificate block) validators (h_chainId (b_header block))
      (h_height (b_header block)) (h_round (b_header block) - 1) (h_previousHash (b_header block))
      (h_version (b_header block)).

(** ** Finality attestations *)

Definition validateBlockAttestation {T} (block : BlockOf T) (value : json) (allowed : gmap string string)
    : res BlockAttestation :=
  attestation ← assertPlainRecord value "block attestation";
  assertExactKeys attestation ["validator"; "publicKey"; "signature"] "block attestation";;
  validator ← as_text (get attestation "validator") "Invalid block attestation";
  publicKey ← as_text (get attestation "publicKey") "Invalid block attestation";
  signature ← as_text (get attestation "signature") "Invalid block attestation";
  assertAddress validator;;
  assertHex publicKey 64 "attestation publicKey";;
  assertHex signature 64 "attestation signature";;
  throw_if (negb (bool_decide (allowed !! validator = Some publicKey))) "Unknown validator attestation";;
  throw_if (negb (verifyForProtocol (h_version (b_header block)) FINALITY_ATTESTATION_DOMAIN (attestationPayload block)
    signature publicKey)) "Invalid validator attestation";;
  Ok (mkAttestation validator publicKey signature).

Definition attestation_step {T} (block : BlockOf T) (allowed : gmap string string) (acc : list string * Z)
    (attestation : BlockAttestation) : res (list string * Z) :=
  throw_if (bool_decide (at_validator attestation ∈ acc.1)) "Duplicate validator attestation";;
  validateBlockAttestation block (attestation_json attestation) allowed;;
  Ok (at_validator attestation :: acc.1, acc.2 + 1).

Definition validateAttestationQuorum {T} (block : BlockOf T) (validators : list Validator) : res unit :=
  throw_if (zlen validators <? zlen (b_attestations block)) "Finality certificate exceeds active validator set";;
  let allowed := address_map validators in
  acc ← res_fold (attestation_step block allowed) ([], 0) (b_attestations block);
  quorum ← validatorQuorumSize (zlen validators);
  throw_if (acc.2 <? quorum) ("Finality quorum not reached: " +:+ pretty acc.2 +:+ "/" +:+ pretty quorum).

(** ** Self-authentication *)

Definition validateBlockSelfAuthentication (block : RawBlock) : res unit :=
  hash ← blockHash (b_header block);
  throw_if (negb (String.eqb (b_hash block) hash)) "Block hash mismatch";;
  root ← txs_root (b_transactions block);
  throw_if (negb (String.eqb (h_transactionRoot (b_header block)) root)) "Transaction Merkle root mismatch";;
  if h_height (b_header block) =? 0 then Ok () else
  match b_proposerPublicKey block, b_signature block with
  | Some publicKey, Some signature =>
    throw_if (String.eqb publicKey "" || String.eqb signature "") "Missing proposer signature";;
    assertHex publicKey 64 "proposerPublicKey";;
    assertHex signature 64 "block signature";;
    throw_if (negb (String.eqb (addressFromPublicKey publicKey) (h_proposer (b_header block)))) "Unexpected proposer public key";;
    throw_if (negb (verifyForProtocol (h_version (b_header block)) BLOCK_PROPOSAL_DOMAIN (header_json (b_header block))
      signature publicKey)) "Invalid proposer signature"
  | _, _ => Throw "Missing proposer signature"
  end.

End block.

(** ** Facts about member sets and quorums *)

Lemma address_map_member (validators : list Validator) (a k : string) :
  address_map validators !! a = Some k → mkValidator a k ∈ validators.
Proof.
  unfold address_map.
  assert (∀ m : gmap string string, fold_left (λ m v, <[v_address v := v_publicKey v]> m) validators m !! a = Some k →
    mkValidator a k ∈ validators ∨ m !! a = Some k) as G.
  { induction validators as [|[a' k'] vs IH]; simpl; intros m Hm; [by right|].
    destruct (IH _ Hm) as [?|Hi]; [left; by right|].
    apply lookup_insert_Some in Hi as [[-> ->]|[_ ?]]; [left; by left|by right]. }
  intros Hm. destruct (G ∅ Hm) as [?|He]; [done|]. by rewrite lookup_empty in He.
Qed.

Lemma address_map_lookup (validators : list Validator) (v : Validator) :
  NoDup (v_address <$> validators) → v ∈ validators → address_map validators !! v_address v = Some (v_publicKey v).
Proof.
  unfold address_map.
  assert (∀ vs (m : gmap string string), v_address v ∉ v_address <$> vs →
    fold_left (λ m v, <[v_address v := v_publicKey v]> m) vs m !! v_address v = m !! v_address v) as Hskip.
  { induction vs as [|w vs IH]; intros m Hn; csimpl in *; [done|]. rewrite IH by set_solver.
    apply lookup_insert_ne. set_solver. }
  generalize (∅ : gmap string string).
  induction validators as [|w vs IH]; csimpl; intros m Hnd Hv; [by apply not_elem_of_nil in Hv|].
  apply NoDup_cons in Hnd as [Hn Hnd]. apply elem_of_cons in Hv as [->|Hv]; [|by apply IH].
  rewrite Hskip by done. apply lookup_insert_eq.
Qed.

Lemma validatorQuorumSize_Ok (n q : Z) :
  validatorQuorumSize n = Ok q → q = quorum n ∧ 1 ≤ n.
Proof. unfold validatorQuorumSize, quorum, math_floor_div. intros Hq. res_inv. breflect. lia. Qed.

(** The voters of an accepted certificate. *)
Record quorum_of (validators : list Validator) (voters : list string) : Prop := {
  qo_distinct : NoDup voters;
  qo_members : voters ⊆ (v_address <$> validators);
  qo_size : quorum (zlen validators) ≤ zlen voters }.

(** With fewer than a third of the set faulty, two quorums share a member that
    is not. *)
Lemma quorums_share (validators : list Validator) (l k faulty : list string) :
  quorum_of validators l → quorum_of validators k → 3 * zlen faulty < zlen validators →
  ∃ x, x ∈ l ∧ x ∈ k ∧ x ∉ faulty.
Proof.
  intros [Hl Hlm Hlq] [Hk Hkm Hkq] Hf.
  assert (zlen (v_address <$> validators) = zlen validators) as Hz by (unfold zlen; by rewrite length_fmap).
  apply (quorum_intersection (v_address <$> validators)); rewrite ?Hz; auto.
Qed.

Lemma counted_loop {V} (step : list string * Z → V → res (list string * Z)) (votes : list V) (acc : list string * Z) :
  (∀ s1 v s2, step s1 v = Ok s2 → s2.2 = s1.2 + 1) →
  res_fold step ([], 0) votes = Ok acc → acc.2 = zlen votes.
Proof.
  intros Hs Hf. refine (res_fold_inv (λ pre s, s.2 = zlen pre) step votes _ _ Hf _ _); [done|].
  intros pre x s1 s2 Hi _ Hb. rewrite (Hs _ _ _ Hb), Hi. unfold zlen. rewrite length_app. simpl. lia.
Qed.

(** Reading back the properties of a record of this model: what [shape_inv]
    leaves as [get (fields) name = JStr x] gives [x]. *)
Lemma JStr_inj (a b : string) : JStr a = JStr b → a = b.
Proof. congruence. Qed.
Lemma JArr_inj (a b : list json) : JArr a = JArr b → a = b.
Proof. congruence. Qed.
Ltac own_inv :=
  shape_inv;
  repeat match goal with
  | H : assertPlainRecord _ _ = Ok _ |- _ => apply Ok_inj in H; subst
  | H : get _ _ = JStr _ |- _ => apply JStr_inj in H; subst
  | H : get _ _ = JArr _ |- _ => apply JArr_inj in H; subst
  | H : as_int (get _ _) = Some _ |- _ => apply Some_inj in H; subst
  end.

Section theorems.
Context `{Crypto}.

(** What one accepted attestation says. *)
Definition attested {T} (block : BlockOf T) (validators : list Validator) (a : BlockAttestation) : Prop :=
  mkValidator (at_validator a) (at_publicKey a) ∈ validators ∧
  verifyForProtocol (h_version (b_header block)) FINALITY_ATTESTATION_DOMAIN (attestationPayload block)
    (at_signature a) (at_publicKey a) = true.

Lemma attestation_step_Ok {T} (block : BlockOf T) (validators : list Validator) (s1 s2 : list string * Z)
    (a : BlockAttestation) :
  attestation_step block (address_map validators) s1 a = Ok s2 →
  at_validator a ∉ s1.1 ∧ s2 = (at_validator a :: s1.1, s1.2 + 1) ∧ attested block validators a.
Proof.
  unfold attestation_step, validateBlockAttestation, attested. intros Hs.
  own_inv. split_and!; try done. by apply address_map_member.
Qed.

Lemma attestation_quorum_sound {T} (block : BlockOf T) (validators : list Validator) (u : unit) :
  validateAttestationQuorum block validators = Ok u →
  quorum_of validators (at_validator <$> b_attestations block) ∧ Forall (attested block validators) (b_attestations block).
Proof.
  unfold validateAttestationQuorum. intros Hq. res_split.
  match goal with Hf : res_fold _ _ _ = Ok ?acc |- _ => rename Hf into Hloop; rename acc into st end.
  pose proof (counted_loop _ _ _ (λ s1 v s2 E, f_equal snd (proj1 (proj2 (attestation_step_Ok block validators s1 s2 v E)))) Hloop) as Hn.
  destruct (seen_loop at_validator fst (attested block validators) _ _ _ _
    (λ s1 v s2 E, ltac:(destruct (attestation_step_Ok block validators s1 s2 v E) as (? & -> & ?); auto)) Hloop eq_refl) as [Hnd HQ].
  match goal with Hs : validatorQuorumSize _ = Ok _ |- _ => apply validatorQuorumSize_Ok in Hs as [-> _] end.
  breflect. split; [|done]. constructor; [done| |unfold zlen in *; rewrite length_fmap; lia].
  intros x (a & -> & Ha)%list_elem_of_fmap. rewrite Forall_forall in HQ. destruct (HQ a Ha) as [Hm _].
  by apply (list_elem_of_fmap_2 v_address) in Hm.
Qed.

(** Two finality certificates of one validator set, however the blocks differ,
    carry valid signatures of one and the same validator outside any faulty
    third: below protocol v6 a fork can only be finalized if a non-faulty
    validator attests to two blocks of one height. *)
Theorem finality_certificates_share_a_signer {T U} (b1 : BlockOf T) (b2 : BlockOf U)
    (validators : list Validator) (faulty : list string) (u1 u2 : unit) :
  validateAttestationQuorum b1 validators = Ok u1 →
  validateAttestationQuorum b2 validators = Ok u2 →
  3 * zlen faulty < zlen validators →
  ∃ a1 a2, a1 ∈ b_attestations b1 ∧ a2 ∈ b_attestations b2 ∧ at_validator a1 = at_validator a2 ∧
    at_validator a1 ∉ faulty ∧ attested b1 validators a1 ∧ attested b2 validators a2.
Proof.
  intros [Q1 F1]%attestation_quorum_sound [Q2 F2]%attestation_quorum_sound Hf.
  destruct (quorums_share _ _ _ _ Q1 Q2 Hf) as (x & (a1 & -> & H1)%list_elem_of_fmap & (a2 & E & H2)%list_elem_of_fmap & Hx).
  rewrite Forall_forall in F1, F2. exists a1, a2. eauto 10.
Qed.

Lemma skip_step_Ok (validators : list Validator) (chainId previousHash : string) (height round version : Z)
    (s1 s2 : list string * Z) (v : RoundSkipVote) :
  skip_step (address_map validators) chainId height round previousHash version s1 v = Ok s2 →
  rs_validator v ∉ s1.1 ∧ s2 = (rs_validator v :: s1.1, s1.2 + 1) ∧
  mkValidator (rs_validator v) (rs_publicKey v) ∈ validators ∧
  (rs_chainId v = chainId ∧ rs_height v = height ∧ rs_round v = round ∧ rs_previousHash v = previousHash) ∧
  verifyForProtocol version ROUND_SKIP_DOMAIN (roundSkipPayload v) (rs_signature v) (rs_publicKey v) = true.
Proof.
  unfold skip_step, validateRoundSkipVote. intros Hs.
  own_inv. breflect. destruct v. split_and!; try done; by apply address_map_member.
Qed.

End theorems.

(** ** The proposer rotation *)

Lemma expectedValidator_index (validators : list Validator) (height round : Z) :
  validators ≠ [] → 1 ≤ height ≤ MAX_SAFE_INTEGER → 0 ≤ round ≤ MAX_SAFE_INTEGER →
  expectedValidator validators height round =
    unwrap (validators !! Z.to_nat ((height - 1 + round) mod zlen validators)) "undefined".
Proof.
  intros Hne Hh Hr. unfold expectedValidator.
  assert (0 < zlen validators) as Hz by (unfold zlen; destruct validators; [done|simpl; lia]).
  rewrite (proj2 (Z.eqb_neq _ 0)) by lia. simpl throw_if. cbn [mbind res_bind].
  rewrite (proj2 (isSafeInteger_spec height)), (proj2 (isSafeInteger_spec round)) by (unfold MAX_SAFE_INTEGER in *; lia).
  rewrite (proj2 (Z.ltb_ge height 1)), (proj2 (Z.ltb_ge round 0)) by lia. cbn [negb orb throw_if].
  rewrite (Z.rem_mod_nonneg (height - 1)), (Z.rem_mod_nonneg round) by lia.
  pose proof (Z.mod_pos_bound (height - 1) (zlen validators) Hz). pose proof (Z.mod_pos_bound round (zlen validators) Hz).
  rewrite Z.rem_mod_nonneg by lia.
  by rewrite <-Z.add_mod by lia.
Qed.

(** The leaders of any [n] consecutive rounds of a height are the [n] validators,
    each exactly once: a failing leader is passed over, and every validator gets
    its turn. *)
Theorem leader_rotation (validators : list Validator) (v : Validator) (height round : Z) :
  NoDup validators → v ∈ validators →
  1 ≤ height ≤ MAX_SAFE_INTEGER → 0 ≤ round → round + zlen validators ≤ MAX_SAFE_INTEGER →
  ∃ r, (round ≤ r < round + zlen validators ∧ expectedValidator validators height r = Ok v) ∧
    ∀ r', round ≤ r' < round + zlen validators → expectedValidator validators height r' = Ok v → r' = r.
Proof.
  intros Hnd Hv Hh Hr Hmax.
  assert (validators ≠ []) as Hne by (intros ->; by apply not_elem_of_nil in Hv).
  assert (0 < zlen validators) as Hz by (unfold zlen; destruct validators; [done|simpl; lia]).
  apply list_elem_of_lookup in Hv as [i Hi].
  pose proof (lookup_lt_Some _ _ _ Hi) as Hlt.
  set (n := zlen validators) in *. assert (0 ≤ Z.of_nat i < n) as Hin by (unfold n, zlen; lia).
  set (d := (Z.of_nat i - (height - 1 + round)) mod n).
  assert (0 ≤ d < n) as Hd by (apply Z.mod_pos_bound; lia).
  assert (∀ r, round ≤ r < round + n → expectedValidator validators height r = Ok v → (height - 1 + r) mod n = Z.of_nat i) as Hidx.
  { intros r Hrr He. rewrite expectedValidator_index in He by (auto; lia). apply unwrap_Ok in He.
    pose proof (NoDup_lookup _ _ _ _ Hnd He Hi) as E.
    pose proof (Z.mod_pos_bound (height - 1 + r) n ltac:(lia)). fold n in E. lia. }
  assert ((height - 1 + (round + d)) mod n = Z.of_nat i) as Hmod.
  { replace (height - 1 + (round + d)) with (d + (height - 1 + round)) by lia. unfold d.
    rewrite Z.add_mod_idemp_l by lia. replace (Z.of_nat i - (height - 1 + round) + (height - 1 + round)) with (Z.of_nat i) by lia.
    by apply Z.mod_small. }
  exists (round + d). split.
  - split; [lia|]. rewrite expectedValidator_index by (auto; lia). fold n. rewrite Hmod, Nat2Z.id, Hi. done.
  - intros r Hrr He. apply Hidx in He; [|lia].
    assert (n * ((height - 1 + r) / n - (height - 1 + (round + d)) / n) = r - (round + d)) as Heq.
    { rewrite (Z.mod_eq (height - 1 + r)) in He by lia. rewrite (Z.mod_eq (height - 1 + (round + d))) in Hmod by lia. lia. }
    assert (- n < r - (round + d) < n) as Hb by lia. rewrite <-Heq in Hb.
    set (q := (height - 1 + r) / n - (height - 1 + (round + d)) / n) in *.
    assert (q = 0) as Hq; [|rewrite Hq in Heq; lia].
    assert (- 1 < q) by (apply (Z.mul_lt_mono_pos_l n); lia).
    assert (q < 1) by (apply (Z.mul_lt_mono_pos_l n); lia). lia.
Qed.

Lemma leader_rotation_witness :
  let vs := [mkValidator "a" "1"; mkValidator "b" "2"; mkValidator "c" "3"] in
  ∃ r, (5 ≤ r < 5 + zlen vs ∧ expectedValidator vs 8 r = Ok (mkValidator "b" "2")) ∧
    ∀ r', 5 ≤ r' < 5 + zlen vs → expectedValidator vs 8 r' = Ok (mkValidator "b" "2") → r' = r.
Proof.
  intros vs. apply leader_rotation; try (unfold MAX_SAFE_INTEGER; vm_compute; intuition congruence).
  - apply (bool_decide_unpack _). vm_compute. exact I.
  - apply (bool_decide_unpack _). vm_compute. exact I.
Defined.

(** Two competing blocks of one height, each attested by three of four
    validators. *)
Module BlockExample.
#[local] Existing Instance ToyCrypto.toy.
Definition keys : list string :=
  [ToyCrypto.key; ToyCrypto.key2; ToyCrypto.hexFixed 64 3; ToyCrypto.hexFixed 64 4].
Definition pk (k : string) : string := k +:+ k.
Definition validators : list Validator := Eval vm_compute in map (λ k, mkValidator (addressFromPublicKey (pk k)) (pk k)) keys.
Definition header (time : Z) : BlockHeader :=
  mkHeader 5 "zyron-test" 7 0 ZERO_HASH time ZERO_HASH ZERO_HASH (addressFromPublicKey (pk ToyCrypto.key)).
Definition bare (time : Z) : Block :=
  mkBlock (header time) [] (match blockHash (header time) with Ok h => h | Throw _ => "" end)
    (Some (pk ToyCrypto.key)) None [] [] NoCommitRound.
Definition attested_by (time : Z) (ks : list string) : Block :=
  let b := bare time in
  mkBlock (b_header b) [] (b_hash b) (b_proposerPublicKey b) None []
    (omap (λ k, match createBlockAttestation b k (pk k) with Ok a => Some a | Throw _ => None end) ks) NoCommitRound.
Definition first : Block := Eval vm_compute in attested_by 1700000000000 (take 3 keys).
Definition second : Block := Eval vm_compute in attested_by 1700000000001 (drop 1 keys).
Definition faulty : list string := Eval vm_compute in v_address <$> take 1 (drop 1 validators).
End BlockExample.

Lemma finality_certificates_share_a_signer_witness :
  ∃ a1 a2, a1 ∈ b_attestations BlockExample.first ∧ a2 ∈ b_attestations BlockExample.second ∧
    at_validator a1 = at_validator a2 ∧ at_validator a1 ∉ BlockExample.faulty ∧
    attested (H := ToyCrypto.toy) BlockExample.first BlockExample.validators a1 ∧
    attested (H := ToyCrypto.toy) BlockExample.second BlockExample.validators a2.
Proof.
  apply (finality_certificates_share_a_signer (H := ToyCrypto.toy) _ _ _ _ () ()); vm_compute; reflexivity.
Defined.
