(* ===== verification/Genesis.v ===== *)
(** The genesis rules: network classes (l1/src/network-class.ts), the fixed
    supply plan (l1/src/tokenomics.ts), the public-distribution release
    (l1/src/public-distribution-release.ts), validator admission by possession
    proofs (l1/src/validator-admission.ts) and [validateGenesis]
    (l1/src/chain.ts).  A genesis is the typed record of Types.v: the checks
    that a value is a plain record with exactly its keys are its type.  Quote
    characters inside an error text are left out. *)

From S2P Require Import Prelude Types Codec Crypto Vesting Activity Transaction TxShape Oracle Ledger LedgerHistory Block.

(** ** network-class.ts *)

Definition TEST_NETWORK_CLASSES : list string :=
  ["devnet"; "local-devnet"; "testnet"; "private-testnet"; "open-testnet"; "wallet-testnet"].
Definition STRICT_NETWORK_CLASSES : list string := ["public-launch"; "value-bearing"; "mainnet"].
Definition FIXED_SUPPLY_LAUNCH_PROFILE : string := "fixed-supply-v1".
Definition STRICT_MIN_VALIDATORS : Z := 4.
Definition MAX_VALIDATORS : Z := 100.

Definition isTestNetworkClass (value : option string) : bool :=
  match value with Some c => bool_decide (c ∈ TEST_NETWORK_CLASSES) | None => false end.
Definition isStrictNetworkClass (value : option string) : bool :=
  match value with Some c => bool_decide (c ∈ STRICT_NETWORK_CLASSES) | None => false end.

Definition readNetworkClass (genesis : GenesisConfig) : res (option string) :=
  match g_networkClass genesis with
  | None => Ok None
  | Some value =>
    throw_if (negb (bool_decide (value ∈ TEST_NETWORK_CLASSES)) && negb (bool_decide (value ∈ STRICT_NETWORK_CLASSES)))
      "Unsupported genesis network class";;
    Ok (Some value)
  end.

Definition isLaunchProfile (genesis : GenesisConfig) : bool :=
  bool_decide (g_launchProfile genesis = Some FIXED_SUPPLY_LAUNCH_PROFILE).

Definition minimumValidatorCount (genesis : GenesisConfig) : res Z :=
  networkClass ← readNetworkClass genesis;
  Ok (if isStrictNetworkClass networkClass || isLaunchProfile genesis then STRICT_MIN_VALIDATORS else 1).

(** [(?:-|$)] at the head of the rest of the text. *)
Definition segment_ends (rest : string) : bool :=
  match rest with EmptyString => true | String c _ => Ascii.eqb c "-"%char end.
Definition strict_segment (s : string) : bool :=
  existsb (λ name, match stripPrefix name s with Some rest => segment_ends rest | None => false end)
    ["mainnet"; "public-launch"; "value-bearing"].
(** The match may start after any hyphen. *)
Fixpoint strict_after_hyphen (s : string) : bool :=
  match s with
  | EmptyString => false
  | String c s' => (Ascii.eqb c "-"%char && strict_segment s') || strict_after_hyphen s'
  end.
Definition chainIdRequiresStrictNetworkClass (chainId : string) : bool :=
  strict_segment chainId || strict_after_hyphen chainId.

Definition assertValueBearingClassRequiresFixedSupplyProfile (genesis : GenesisConfig) : res unit :=
  networkClass ← readNetworkClass genesis;
  let namedStrict := chainIdRequiresStrictNetworkClass (g_chainId genesis) in
  if bool_decide (networkClass = None) && negb namedStrict then Ok ()
  else
    throw_if (namedStrict && negb (isStrictNetworkClass networkClass))
      "A chain ID that names mainnet, public-launch, or value-bearing requires networkClass public-launch, value-bearing, or mainnet";;
    throw_if (isStrictNetworkClass networkClass && negb (isLaunchProfile genesis))
      "Value-bearing, public-launch, and mainnet genesis must declare launchProfile fixed-supply-v1 so founder vesting and the permanent-liquidity lock are consensus rules".

Definition assertLaunchCeremonyNetworkClass (genesis : GenesisConfig) : res unit :=
  networkClass ← readNetworkClass genesis;
  throw_if (negb (isStrictNetworkClass networkClass))
    "Launch ceremony genesis must declare networkClass public-launch, value-bearing, or mainnet".

(** ** tokenomics.ts *)

Definition FIXED_SUPPLY_TOTAL_ZYN : Z := 50000000.
Definition PUBLIC_DISTRIBUTION_ATOMS : Z := 20000000 * ATOMS_PER_ZYN.
Definition LIQUIDITY_RESERVE_ATOMS : Z := 20000000 * ATOMS_PER_ZYN.
Definition ECOSYSTEM_RESERVE_ATOMS : Z := 5000000 * ATOMS_PER_ZYN.

Record FixedSupplyAddresses := mkFixedSupplyAddresses {
  fs_founder : Address; fs_publicDistribution : Address;
  fs_liquidityReserve : Address; fs_ecosystemReserve : Address }.

Definition assertZynAddress (address : string) : res unit :=
  throw_if (negb (isAddress address)) "Invalid fixed-supply ZYN address".

Definition assertFixedSupplyAddresses (addresses : FixedSupplyAddresses) : res unit :=
  res_fold (λ seen '(role, address),
    assertZynAddress address;;
    throw_if (String.eqb address MINING_TRACKER_ADDRESS)
      ("Fixed-supply " +:+ role +:+ " address cannot be the reserved mining tracker");;
    throw_if (bool_decide (address ∈ seen)) "Fixed-supply allocation roles must use distinct addresses";;
    Ok (address :: seen)) []
    [("founder", fs_founder addresses); ("publicDistribution", fs_publicDistribution addresses);
     ("liquidityReserve", fs_liquidityReserve addresses); ("ecosystemReserve", fs_ecosystemReserve addresses)];;
  Ok ().

(** [new Map([...])] of the four roles. *)
Definition fixed_supply_expected (addresses : FixedSupplyAddresses) : gmap string Z :=
  <[fs_ecosystemReserve addresses := ECOSYSTEM_RESERVE_ATOMS]>
    (<[fs_liquidityReserve addresses := LIQUIDITY_RESERVE_ATOMS]>
      (<[fs_publicDistribution addresses := PUBLIC_DISTRIBUTION_ATOMS]>
        {[fs_founder addresses := FOUNDER_ALLOCATION_ATOMS]})).

(** One iteration of the loop over the allocations: [seen] and [total]. *)
Definition fixed_supply_step (expected : gmap string Z) (acc : list Address * Z) (allocation : Allocation)
    : res (list Address * Z) :=
  let '(seen, total) := acc in
  assertZynAddress (al_address allocation);;
  throw_if (negb (isSafeInteger (al_amountAtoms allocation)) || (al_amountAtoms allocation <? 0))
    "Invalid fixed-supply allocation amount";;
  throw_if (bool_decide (al_address allocation ∈ seen)) "Duplicate fixed-supply allocation address";;
  throw_if (negb (bool_decide (expected !! al_address allocation = Some (al_amountAtoms allocation))))
    "Genesis allocation does not match the frozen fixed-supply plan";;
  let total := total + al_amountAtoms allocation in
  throw_if (negb (isSafeInteger total)) "Fixed-supply allocation total overflow";;
  Ok (al_address allocation :: seen, total).

Definition assertFixedSupplyAllocations (allocations : list Allocation) (addresses : FixedSupplyAddresses) : res unit :=
  assertFixedSupplyAddresses addresses;;
  throw_if (negb (zlen allocations =? 4)) "Fixed-supply genesis requires exactly four disclosed allocation accounts";;
  let expected := fixed_supply_expected addresses in
  acc ← res_fold (fixed_supply_step expected) ([], 0) allocations;
  throw_if (negb (zlen acc.1 =? Z.of_nat (size expected))) "Fixed-supply allocation role is missing";;
  throw_if (negb (acc.2 =? MAX_SUPPLY_ATOMS) || negb (acc.2 =? FIXED_SUPPLY_TOTAL_ZYN * ATOMS_PER_ZYN))
    "Fixed-supply genesis must allocate exactly 50,000,000 ZYN".

Definition buildFixedSupplyAllocations (addresses : FixedSupplyAddresses) : res (list Allocation) :=
  assertFixedSupplyAddresses addresses;;
  let allocations :=
    [mkAllocation (fs_founder addresses) FOUNDER_ALLOCATION_ATOMS;
     mkAllocation (fs_publicDistribution addresses) PUBLIC_DISTRIBUTION_ATOMS;
     mkAllocation (fs_liquidityReserve addresses) LIQUIDITY_RESERVE_ATOMS;
     mkAllocation (fs_ecosystemReserve addresses) ECOSYSTEM_RESERVE_ATOMS] in
  assertFixedSupplyAllocations allocations addresses;;
  Ok allocations.

Definition assertFixedSupplyGenesis (genesis : GenesisConfig) (addresses : FixedSupplyAddresses) : res unit :=
  assertFixedSupplyAllocations (g_allocations genesis) addresses;;
  let pool := g_activityPool genesis in
  throw_if (String.eqb pool (fs_founder addresses) || String.eqb pool (fs_publicDistribution addresses) ||
      String.eqb pool (fs_liquidityReserve addresses))
    "Fixed-supply activity pool must not be the founder, public-distribution, or permanent-liquidity allocation";;
  throw_if (negb (String.eqb pool (fs_ecosystemReserve addresses)))
    "Fixed-supply activity pool must be the ecosystem/community allocation";;
  locks ← unwrap (g_allocationLocks genesis)
    "Fixed-supply genesis must declare allocationLocks for the founder and permanent-liquidity allocations";
  throw_if (negb (String.eqb (founderVesting locks) (fs_founder addresses)) ||
      negb (String.eqb (permanentLiquidity locks) (fs_liquidityReserve addresses)))
    "Fixed-supply allocationLocks must name exactly the founder (founderVesting) and permanent-liquidity (permanentLiquidity) allocations".

Definition assertFixedSupplyLaunchProfile (genesis : GenesisConfig) : res unit :=
  locks ← unwrap (g_allocationLocks genesis)
    "Fixed-supply genesis must declare allocationLocks for the founder and permanent-liquidity allocations";
  let roleAddresses : gset string := {[founderVesting locks; permanentLiquidity locks; g_activityPool genesis]} in
  let remaining := filter (λ allocation, al_address allocation ∉ roleAddresses) (g_allocations genesis) in
  match remaining with
  | [last] =>
    throw_if (negb (Z.of_nat (size roleAddresses) =? 3) || negb (zlen (g_allocations genesis) =? 4))
      "Fixed-supply genesis requires exactly four disclosed allocation accounts";;
    assertFixedSupplyGenesis genesis
      (mkFixedSupplyAddresses (founderVesting locks) (al_address last) (permanentLiquidity locks) (g_activityPool genesis))
  | _ => Throw "Fixed-supply genesis requires exactly four disclosed allocation accounts"
  end.

(** ** public-distribution-release.ts *)

Definition PUBLIC_DISTRIBUTION_MIN_CLIFF_MS : Z := 0.
Definition PUBLIC_DISTRIBUTION_MIN_LINEAR_MS : Z := 365 * MS_PER_DAY.
Definition PUBLIC_DISTRIBUTION_MAX_CLIFF_MS : Z := 100 * 365 * MS_PER_DAY.
Definition PUBLIC_DISTRIBUTION_MAX_LINEAR_MS : Z := 100 * 365 * MS_PER_DAY.

Definition defaultPublicDistributionRelease (address : Address) : res PublicDistributionRelease :=
  assertAddress address;;
  Ok (mkPublicDistributionRelease address (0 * MS_PER_DAY) (365 * MS_PER_DAY)).

Definition assertScheduleBound (value : Z) (name : string) (minimum maximum : Z) : res unit :=
  throw_if (negb (isSafeInteger value) || (value <? minimum) || (maximum <? value))
    ("Invalid public distribution release " +:+ name).

Definition validatePublicDistributionRelease (genesis : GenesisConfig) : res unit :=
  match g_publicDistributionRelease genesis with
  | None =>
    networkClass ← readNetworkClass genesis;
    throw_if (isStrictNetworkClass networkClass || isLaunchProfile genesis)
      "fixed-supply-v1, public-launch, value-bearing, and mainnet genesis must declare publicDistributionRelease so the 20,000,000 ZYN allocation cannot be spent in full on day one"
  | Some release =>
    assertAddress (pdr_address release);;
    throw_if (String.eqb (pdr_address release) MINING_TRACKER_ADDRESS)
      "Invalid public distribution release: mining tracker is protocol-reserved";;
    throw_if (String.eqb (pdr_address release) (g_activityPool genesis))
      "Invalid public distribution release: the activity pool cannot be the public-distribution account";;
    throw_if match g_allocationLocks genesis with
             | Some locks => String.eqb (pdr_address release) (founderVesting locks) ||
                 String.eqb (pdr_address release) (permanentLiquidity locks)
             | None => false
             end
      "Invalid public distribution release: the address must not be the founder or permanent-liquidity allocation";;
    allocation ← unwrap (findAllocation (g_allocations genesis) (pdr_address release))
      "Invalid public distribution release: the account needs a genesis allocation";
    assertScheduleBound (pdr_cliffMs release) "cliffMs" PUBLIC_DISTRIBUTION_MIN_CLIFF_MS PUBLIC_DISTRIBUTION_MAX_CLIFF_MS;;
    assertScheduleBound (pdr_linearMs release) "linearMs" PUBLIC_DISTRIBUTION_MIN_LINEAR_MS PUBLIC_DISTRIBUTION_MAX_LINEAR_MS;;
    throw_if (isLaunchProfile genesis && negb (al_amountAtoms allocation =? PUBLIC_DISTRIBUTION_ATOMS))
      "Public distribution release must cover the 20,000,000 ZYN public-distribution allocation"
  end.

(** ** validator-admission.ts *)

Definition POSSESSION_PROOF_DOMAIN : string := "zyronchain/validator-possession/v1".
Definition POSSESSION_PROOF_POLICY_V1 : string := "possession-proof-v1".

Record PossessionProofStatement := mkStatement {
  ps_chainId : string; ps_chainBinding : string; ps_activationHeight : Z; ps_address : Address; ps_publicKey : string }.

Definition possessionProofPayload (statement : PossessionProofStatement) : json :=
  JObj [("chainId", JStr (ps_chainId statement)); ("chainBinding", JStr (ps_chainBinding statement));
        ("activationHeight", jint (ps_activationHeight statement)); ("address", JStr (ps_address statement));
        ("publicKey", JStr (ps_publicKey statement))].

Definition hasValidatorAdmission (genesis : GenesisConfig) : bool := bool_decide (is_Some (g_validatorAdmission genesis)).

(** [{ ...genesis, validatorAdmission }] *)
Definition with_admission (genesis : GenesisConfig) (admission : ValidatorAdmission) : GenesisConfig :=
  mkGenesis (g_chainId genesis) (g_timestampMs genesis) (g_validators genesis) (g_activityOracles genesis)
    (g_activityPool genesis) (g_allocations genesis) (g_allocationLocks genesis) (g_activityOracleThreshold genesis)
    (g_activityOraclePolicy genesis) (g_activitySettlementCapAtoms genesis) (g_launchProfile genesis)
    (g_networkClass genesis) (g_publicDistributionRelease genesis) (g_feePolicy genesis) (Some admission).

(** What a [validator_update] is judged against. *)
Record ValidatorUpdateAdmissionContext := mkAdmissionContext {
  ac_optedIn : bool; ac_chainId : string; ac_genesisHash : string; ac_replacedValidators : list Validator }.

Section admission.
Context `{Crypto}.

Definition signPossessionProof (statement : PossessionProofStatement) (privateKeyHex : string) : res string :=
  publicKey ← publicKeyFromPrivate privateKeyHex;
  throw_if (negb (String.eqb publicKey (ps_publicKey statement)))
    "Possession proof private key does not match the validator public key";;
  signCanonicalDomain POSSESSION_PROOF_DOMAIN (to_units (possessionProofPayload statement)) privateKeyHex.

Definition verifyPossessionProof (statement : PossessionProofStatement) (signatureHex : string) : bool :=
  verifyCanonicalDomain POSSESSION_PROOF_DOMAIN (to_units (possessionProofPayload statement)) signatureHex (ps_publicKey statement).

Definition genesisPossessionChainBinding (genesis : GenesisConfig) : res string := genesisConfigCommitment genesis.

Definition validateValidatorAdmissionShape (genesis : GenesisConfig) : res unit :=
  match g_validatorAdmission genesis with
  | None => Ok ()
  | Some admission =>
    throw_if (negb (String.eqb (va_policy admission) POSSESSION_PROOF_POLICY_V1)) "Unsupported validatorAdmission policy";;
    res_forall (λ proof, assertHex (pp_signature proof) 64 "genesis possession proof signature") (va_genesisProofs admission)
  end.

Definition assertValueBearingClassRequiresValidatorAdmission (genesis : GenesisConfig) : res unit :=
  networkClass ← readNetworkClass genesis;
  throw_if (isStrictNetworkClass networkClass && negb (hasValidatorAdmission genesis))
    "Value-bearing, public-launch, and mainnet genesis require validatorAdmission (policy possession-proof-v1) with one possession proof per genesis validator".

(** [{ chainId, chainBinding, activationHeight, address, publicKey }] of a validator's slot. *)
Definition slot_statement (chainId chainBinding : string) (activationHeight : Z) (validator : Validator) : PossessionProofStatement :=
  mkStatement chainId chainBinding activationHeight (v_address validator) (v_publicKey validator).

(** The body of the two loops over proofs and validators at one index. *)
Definition check_slot (order_message what chainId chainBinding : string) (activationHeight : Z)
    (slot : ValidatorPossessionProof * Validator) : res unit :=
  let '(proof, validator) := slot in
  throw_if (negb (String.eqb (pp_address proof) (v_address validator))) order_message;;
  throw_if (negb (verifyPossessionProof (slot_statement chainId chainBinding activationHeight validator) (pp_signature proof)))
    (what +:+ v_address validator).

Definition assertGenesisPossessionProofs (genesis : GenesisConfig) : res unit :=
  match g_validatorAdmission genesis with
  | None => Ok ()
  | Some admission =>
    let proofs := va_genesisProofs admission in
    throw_if (negb (zlen proofs =? zlen (g_validators genesis)))
      "validatorAdmission requires exactly one possession proof per genesis validator";;
    chainBinding ← genesisPossessionChainBinding genesis;
    res_forall (check_slot "Genesis possession proof does not match the genesis validator order"
      "Invalid genesis validator possession proof for " (g_chainId genesis) chainBinding 0) (zip proofs (g_validators genesis))
  end.

(** The loop of [genesis.validators.map((validator, index) => ...)]. *)
Fixpoint sign_slots (chainId chainBinding : string) (validators : list Validator) (privateKeys : list string)
    : res (list ValidatorPossessionProof) :=
  match validators, privateKeys with
  | validator :: validators', privateKey :: privateKeys' =>
    throw_if (negb (String.eqb (addressFromPublicKey (v_publicKey validator)) (v_address validator)))
      "Validator address/public key mismatch";;
    signature ← signPossessionProof (slot_statement chainId chainBinding 0 validator) privateKey;
    rest ← sign_slots chainId chainBinding validators' privateKeys';
    Ok (mkPossessionProof (v_address validator) signature :: rest)
  | _, _ => Ok []
  end.

Definition signGenesisPossessionProofs (genesis : GenesisConfig) (privateKeys : list string) : res GenesisConfig :=
  throw_if (negb (zlen privateKeys =? zlen (g_validators genesis))) "Provide exactly one private key per genesis validator";;
  chainBinding ← genesisPossessionChainBinding (with_admission genesis (mkValidatorAdmission POSSESSION_PROOF_POLICY_V1 []));
  genesisProofs ← sign_slots (g_chainId genesis) chainBinding (g_validators genesis) privateKeys;
  Ok (with_admission genesis (mkValidatorAdmission POSSESSION_PROOF_POLICY_V1 genesisProofs)).

Definition signValidatorUpdatePossessionProof (chainId genesisHash : string) (activationHeight : Z) (validator : Validator)
    (privateKeyHex : string) : res ValidatorPossessionProof :=
  signature ← signPossessionProof (slot_statement chainId genesisHash activationHeight validator) privateKeyHex;
  Ok (mkPossessionProof (v_address validator) signature).

(** [`${validator.address}:${validator.publicKey}`] *)
Definition validator_slot (validator : Validator) : string := v_address validator +:+ ":" +:+ v_publicKey validator.

(** The validators of an update that the replaced set does not have. *)
Definition incoming (replaced validators : list Validator) : list Validator :=
  let continuing : list string := map validator_slot replaced in
  filter (λ validator, validator_slot validator ∉ continuing) validators.

Definition assertValidatorUpdatePossessionProofs (tx : ValidatorSetUpdateTx) (context : ValidatorUpdateAdmissionContext) : res unit :=
  if negb (ac_optedIn context) then
    throw_if (bool_decide (is_Some (vu_possessionProofs tx)))
      "Validator update possessionProofs require validatorAdmission in the genesis"
  else
    proofs ← unwrap (vu_possessionProofs tx)
      "Validator update requires possessionProofs (one possession proof per incoming validator) under validatorAdmission";
    let validators := incoming (ac_replacedValidators context) (vu_validators tx) in
    throw_if (negb (zlen proofs =? zlen validators))
      "Validator update requires exactly one possession proof per incoming validator";;
    res_forall (check_slot "Validator possession proof does not match the incoming validator order"
      "Invalid validator possession proof for " (ac_chainId context) (ac_genesisHash context) (vu_activationHeight tx))
      (zip proofs validators).

(** [while (index < tx.validators.length && tx.validators[index].address !== proof.address) index += 1]
    from [next]: the validator found and the validators after it. *)
Fixpoint seek_slot (address : Address) (validators : list Validator) : option (Validator * list Validator) :=
  match validators with
  | [] => None
  | validator :: rest => if String.eqb (v_address validator) address then Some (validator, rest) else seek_slot address rest
  end.

Definition assertValidatorUpdatePossessionProofSignatures (tx : ValidatorSetUpdateTx) (chainId genesisHash : string) : res unit :=
  proofs ← unwrap (vu_possessionProofs tx)
    "Validator update requires possessionProofs (one possession proof per incoming validator) under validatorAdmission";
  res_fold (λ remaining proof,
    found ← unwrap (seek_slot (pp_address proof) remaining) "Validator possession proof does not match the incoming validator order";
    let '(validator, rest) := found in
    throw_if (negb (verifyPossessionProof (slot_statement chainId genesisHash (vu_activationHeight tx) validator) (pp_signature proof)))
      ("Invalid validator possession proof for " +:+ v_address validator);;
    Ok rest) (vu_validators tx) proofs;;
  Ok ().

(** ** validateGenesis (chain.ts) *)

(** [/^[a-z0-9-]{3,64}$/] *)
Definition isChainIdChar (c : Ascii.ascii) : bool := isDomainHead c || Ascii.eqb c "-"%char.
Definition isChainId (chainId : string) : bool :=
  Nat.leb 3 (String.length chainId) && Nat.leb (String.length chainId) 64 &&
  forallb isChainIdChar (String.list_ascii_of_string chainId).

(** One iteration over the validators: the addresses and keys seen. *)
Definition genesis_validator (acc : list Address * list string) (validator : Validator) : res (list Address * list string) :=
  let '(validatorAddresses, validatorKeys) := acc in
  assertAddress (v_address validator);;
  assertHex (v_publicKey validator) 64 "validator publicKey";;
  throw_if (negb (String.eqb (addressFromPublicKey (v_publicKey validator)) (v_address validator)))
    "Validator address/public key mismatch";;
  assertValidPublicKey (v_publicKey validator) "Genesis validator public key";;
  throw_if (bool_decide (v_publicKey validator ∈ validatorKeys)) "Duplicate validator public key";;
  throw_if (bool_decide (v_address validator ∈ validatorAddresses)) "Duplicate validator address";;
  Ok (v_address validator :: validatorAddresses, v_publicKey validator :: validatorKeys).

Definition genesis_oracle (oracles : list string) (oracle : string) : res (list string) :=
  assertHex oracle 64 "activity oracle";;
  throw_if (bool_decide (oracle ∈ oracles)) "Duplicate activity oracle";;
  Ok (oracle :: oracles).

(** One iteration over the allocations: [allocated] and [genesisSupply]. *)
Definition genesis_allocation (hasLaunchProfile : bool) (acc : list Address * Z) (allocation : Allocation)
    : res (list Address * Z) :=
  let '(allocated, genesisSupply) := acc in
  assertAddress (al_address allocation);;
  throw_if (String.eqb (al_address allocation) MINING_TRACKER_ADDRESS) "Mining tracker cannot receive a genesis allocation";;
  throw_if (hasLaunchProfile && isActivityWindowAddress (al_address allocation))
    "Activity window record address cannot receive a genesis allocation";;
  throw_if (negb (isSafeInteger (al_amountAtoms allocation)) || (al_amountAtoms allocation <? 0)) "Invalid genesis allocation";;
  let genesisSupply := genesisSupply + al_amountAtoms allocation in
  throw_if (negb (isSafeInteger genesisSupply) || (MAX_SUPPLY_ATOMS <? genesisSupply)) "Genesis supply exceeds maximum supply";;
  throw_if (bool_decide (al_address allocation ∈ allocated)) "Duplicate genesis allocation";;
  Ok (al_address allocation :: allocated, genesisSupply).

Definition validateGenesis (genesis : GenesisConfig) (beforePossessionProofs : bool) : res unit :=
  let hasLaunchProfile := bool_decide (is_Some (g_launchProfile genesis)) in
  throw_if (hasLaunchProfile && negb (isLaunchProfile genesis)) "Unsupported genesis launch profile";;
  throw_if (negb (isChainId (g_chainId genesis))) "Invalid chain ID";;
  assertValueBearingClassRequiresFixedSupplyProfile genesis;;
  throw_if (negb (isSafeInteger (g_timestampMs genesis)) || (g_timestampMs genesis <? 0)) "Invalid genesis timestamp";;
  minimumValidators ← minimumValidatorCount genesis;
  throw_if ((zlen (g_validators genesis) <? minimumValidators) || (100 <? zlen (g_validators genesis)))
    (if 1 <? minimumValidators
     then "fixed-supply-v1, public-launch, value-bearing, and mainnet genesis require at least 4 and at most 100 distinct validators"
     else "Genesis validator count must be between 1 and 100");;
  res_fold genesis_validator ([], []) (g_validators genesis);;
  throw_if (zlen (g_activityOracles genesis) =? 0) "At least one activity oracle is required";;
  res_fold genesis_oracle [] (g_activityOracles genesis);;
  validateActivityOracleThreshold (genesisOracles genesis);;
  validateActivityOraclePolicy (genesisOracles genesis);;
  (if bool_decide (is_Some (g_activityOracleThreshold genesis)) then
     res_forall (λ oracle, assertValidPublicKey oracle "Genesis activity oracle public key") (g_activityOracles genesis)
   else Ok ());;
  assertAddress (g_activityPool genesis);;
  throw_if (String.eqb (g_activityPool genesis) MINING_TRACKER_ADDRESS) "Mining tracker cannot be the activity pool";;
  throw_if (zlen (g_allocations genesis) =? 0) "Invalid allocations";;
  res_fold (genesis_allocation hasLaunchProfile) ([], 0) (g_allocations genesis);;
  validateAllocationLocks genesis;;
  (if hasLaunchProfile then assertFixedSupplyLaunchProfile genesis else Ok ());;
  validatePublicDistributionRelease genesis;;
  validateGenesisFeePolicy genesis;;
  validateValidatorAdmissionShape genesis;;
  assertValueBearingClassRequiresValidatorAdmission genesis;;
  if beforePossessionProofs then
    throw_if (negb (hasValidatorAdmission genesis)) "The possession-proof precheck requires validatorAdmission";;
    throw_if match g_validatorAdmission genesis with Some a => negb (zlen (va_genesisProofs a) =? 0) | None => false end
      "The possession-proof precheck requires an empty validatorAdmission.genesisProofs"
  else assertGenesisPossessionProofs genesis.

Definition validateGenesisBeforePossessionProofs (genesis : GenesisConfig) : res unit := validateGenesis genesis true.

End admission.

(** ** The fixed-supply plan *)

Definition plan (a : FixedSupplyAddresses) : list Allocation :=
  [mkAllocation (fs_founder a) FOUNDER_ALLOCATION_ATOMS; mkAllocation (fs_publicDistribution a) PUBLIC_DISTRIBUTION_ATOMS;
   mkAllocation (fs_liquidityReserve a) LIQUIDITY_RESERVE_ATOMS; mkAllocation (fs_ecosystemReserve a) ECOSYSTEM_RESERVE_ATOMS].

Lemma expected_plan (a : FixedSupplyAddresses) (address : Address) (amount : Z) :
  fixed_supply_expected a !! address = Some amount → mkAllocation address amount ∈ plan a.
Proof.
  unfold fixed_supply_expected, plan. rewrite !elem_of_cons.
  intros [[-> ->]|[_ [[-> ->]|[_ [[-> ->]|[_ [-> ->]%lookup_singleton_Some]]%lookup_insert_Some]]%lookup_insert_Some]]%lookup_insert_Some;
    tauto.
Qed.

Lemma fixed_supply_loop (expected : gmap string Z) (l : list Allocation) (acc : list Address * Z) :
  res_fold (fixed_supply_step expected) ([], 0) l = Ok acc →
  NoDup (al_address <$> l) ∧ Forall (λ al, expected !! al_address al = Some (al_amountAtoms al)) l.
Proof.
  intros Hf. refine (seen_loop al_address fst _ _ _ _ _ _ Hf eq_refl).
  intros [seen total] al [seen' total'] Hs. unfold fixed_supply_step in Hs. res_split.
  injection Hs as [= <- <-]. breflect. naive_solver.
Qed.

Lemma fixed_supply_plan (l : list Allocation) (a : FixedSupplyAddresses) (u : unit) :
  assertFixedSupplyAllocations l a = Ok u → l ≡ₚ plan a.
Proof.
  unfold assertFixedSupplyAllocations. intros Hf. res_split. cbv zeta in *. res_split. breflect.
  match goal with E : res_fold _ _ _ = Ok _ |- _ => apply fixed_supply_loop in E as [Hnd Hall] end.
  apply submseteq_length_Permutation.
  - apply NoDup_submseteq; [by apply NoDup_fmap_1 in Hnd|]. intros al Hin.
    rewrite Forall_forall in Hall. specialize (Hall al Hin). apply expected_plan in Hall. by destruct al.
  - match goal with E : zlen l = 4 |- _ => unfold zlen in E end. simpl. lia.
Qed.

(** What the launch profile makes of the allocations of a genesis. *)
Record launch_plan (g : GenesisConfig) (a : FixedSupplyAddresses) : Prop := {
  lp_allocations : g_allocations g ≡ₚ plan a;
  lp_distinct : NoDup [fs_founder a; fs_publicDistribution a; fs_liquidityReserve a; fs_ecosystemReserve a];
  lp_locks : g_allocationLocks g = Some (mkAllocationLocks (fs_founder a) (fs_liquidityReserve a));
  lp_pool : g_activityPool g = fs_ecosystemReserve a }.

Lemma fixed_supply_distinct (a : FixedSupplyAddresses) (u : unit) :
  assertFixedSupplyAddresses a = Ok u →
  NoDup [fs_founder a; fs_publicDistribution a; fs_liquidityReserve a; fs_ecosystemReserve a].
Proof.
  unfold assertFixedSupplyAddresses. intros Hf. apply res_bind_Ok in Hf as (seen & Hf & _).
  refine (proj1 (seen_loop (snd : string * string → string) id (λ _, True) _ _ _ _ _ Hf eq_refl)).
  intros s [role ad] s' Hs. res_split. subst s'. breflect. done.
Qed.

Lemma launch_profile_plan (g : GenesisConfig) (u : unit) :
  assertFixedSupplyLaunchProfile g = Ok u → ∃ a, launch_plan g a.
Proof.
  unfold assertFixedSupplyLaunchProfile. intros Hf. res_split.
  match goal with E : unwrap _ _ = Ok ?x |- _ => apply unwrap_Ok in E; rename E into Hl, x into locks end.
  destruct (filter _ _) as [|last [|]]; try done. res_split. exists (mkFixedSupplyAddresses (founderVesting locks) (al_address last)
    (permanentLiquidity locks) (g_activityPool g)).
  match goal with E : assertFixedSupplyGenesis _ _ = Ok _ |- _ => unfold assertFixedSupplyGenesis in E; rename E into Hg end.
  res_split. cbv zeta in Hg. res_split. cbn [fs_founder fs_publicDistribution fs_liquidityReserve fs_ecosystemReserve] in *.
  match goal with E : assertFixedSupplyAllocations _ _ = Ok _ |- _ => pose proof (fixed_supply_plan _ _ _ E) as Hp; rename E into Ha end.
  split; [done| | |done].
  - unfold assertFixedSupplyAllocations in Ha. apply res_bind_Ok in Ha as (u' & Ha & _). by apply fixed_supply_distinct in Ha.
  - rewrite Hl. by destruct locks.
Qed.

(** ** What an accepted genesis has *)

Section sound.
Context `{Crypto}.

Definition validator_ok (v : Validator) : Prop :=
  isAddress (v_address v) = true ∧ addressFromPublicKey (v_publicKey v) = v_address v ∧ isValidPublicKey (v_publicKey v) = true.

Record genesis_valid (g : GenesisConfig) : Prop := {
  gv_profile : g_launchProfile g = None ∨ g_launchProfile g = Some FIXED_SUPPLY_LAUNCH_PROFILE;
  gv_time : 0 ≤ g_timestampMs g ≤ MAX_SAFE_INTEGER;
  gv_count : ∃ n, minimumValidatorCount g = Ok n ∧ n ≤ zlen (g_validators g) ≤ 100;
  gv_addresses : NoDup (v_address <$> g_validators g);
  gv_keys : NoDup (v_publicKey <$> g_validators g);
  gv_validators : Forall validator_ok (g_validators g);
  gv_oracles : NoDup (g_activityOracles g);
  gv_policy : validateActivityOraclePolicy (genesisOracles g) = Ok ();
  gv_allocated : NoDup (al_address <$> g_allocations g);
  gv_supply : ∃ acc, res_fold (genesis_allocation (bool_decide (is_Some (g_launchProfile g)))) ([], 0) (g_allocations g) = Ok acc;
  gv_locks : validateAllocationLocks g = Ok ();
  gv_launch : g_launchProfile g ≠ None → assertFixedSupplyLaunchProfile g = Ok ();
  gv_release : validatePublicDistributionRelease g = Ok ();
  gv_fee : validateGenesisFeePolicy g = Ok ();
  gv_admission : assertValueBearingClassRequiresValidatorAdmission g = Ok () }.

Lemma genesis_validator_loop (l : list Validator) (acc : list Address * list string) :
  res_fold genesis_validator ([], []) l = Ok acc →
  NoDup (v_address <$> l) ∧ NoDup (v_publicKey <$> l) ∧ Forall validator_ok l.
Proof.
  intros Hf.
  assert (∀ s1 v s2, genesis_validator s1 v = Ok s2 → v_address v ∉ s1.1 ∧ v_publicKey v ∉ s1.2 ∧
    s2 = (v_address v :: s1.1, v_publicKey v :: s1.2) ∧ validator_ok v) as Hb.
  { intros [s1 k1] v s2 Hs. unfold genesis_validator in Hs. res_split. subst s2.
    match goal with E : assertAddress _ = Ok _ |- _ => apply throw_if_Ok in E end.
    match goal with E : assertValidPublicKey _ _ = Ok _ |- _ => apply throw_if_Ok in E end.
    rewrite ?negb_false_iff, ?String.eqb_eq, ?bool_decide_eq_false in *. done. }
  split_and!.
  - refine (proj1 (seen_loop v_address fst (λ _, True) _ _ _ _ _ Hf eq_refl)).
    intros s1 v s2 (Ha & _ & -> & _)%Hb. done.
  - refine (proj1 (seen_loop v_publicKey snd (λ _, True) _ _ _ _ _ Hf eq_refl)).
    intros s1 v s2 (_ & Hk & -> & _)%Hb. done.
  - refine (proj2 (seen_loop v_address fst validator_ok _ _ _ _ _ Hf eq_refl)).
    intros s1 v s2 (Ha & _ & -> & Hv)%Hb. done.
Qed.

Lemma genesis_oracle_loop (l acc : list string) : res_fold genesis_oracle [] l = Ok acc → NoDup l.
Proof.
  intros Hf. rewrite <-(list_fmap_id l).
  refine (proj1 (seen_loop id id (λ _, True) _ _ _ _ _ Hf eq_refl)).
  intros s o s' Hs. unfold genesis_oracle in Hs. res_split. subst s'. by breflect.
Qed.

Lemma genesis_allocation_loop (launch : bool) (l : list Allocation) (acc : list Address * Z) :
  res_fold (genesis_allocation launch) ([], 0) l = Ok acc → NoDup (al_address <$> l).
Proof.
  intros Hf. refine (proj1 (seen_loop al_address fst (λ _, True) _ _ _ _ _ Hf eq_refl)).
  intros [s1 x] v s2 Hs. unfold genesis_allocation in Hs. res_split. cbv zeta in Hs. res_split. subst s2. by breflect.
Qed.

Lemma validateGenesis_valid (g : GenesisConfig) (before : bool) (u : unit) :
  validateGenesis g before = Ok u → genesis_valid g ∧ (before = false → assertGenesisPossessionProofs g = Ok ()).
Proof.
  unfold validateGenesis. intros Hg. cbv zeta in Hg. res_split.
  repeat match goal with
  | E : res_fold genesis_validator _ _ = Ok _ |- _ => apply genesis_validator_loop in E
  | E : res_fold genesis_oracle _ _ = Ok _ |- _ => apply genesis_oracle_loop in E
  end.
  destruct_and?. split; [|intros ->; exact Hg].
  match goal with E : res_fold (genesis_allocation _) _ _ = Ok _ |- _ => pose proof (genesis_allocation_loop _ _ _ E) as Hal; rename E into Hsum end.
  match goal with E : minimumValidatorCount g = Ok ?n |- _ => rename E into Hmin, n into minimum end.
  split; eauto; unfold isLaunchProfile in *.
  - destruct (g_launchProfile g) as [p|]; [|by left]. right.
    match goal with E : bool_decide (is_Some (Some p)) && _ = false |- _ => rename E into Hp end.
    rewrite bool_decide_eq_true_2 in Hp by eauto. cbn [andb] in Hp. by breflect.
  - breflect. lia.
  - exists minimum. split; [done|]. breflect. lia.
  - intros Hn. match goal with E : (if bool_decide (is_Some (g_launchProfile g)) then _ else _) = Ok _ |- _ => revert E end.
    rewrite bool_decide_eq_true_2; [done|]. by apply not_eq_None_Some.
Qed.

(** The ledger the constructor builds. *)
Lemma genesis_allocation_run (launch : bool) (l : list Allocation) (seen : list Address) (sup : Z) (st : LedgerState) acc :
  ledger_wf st → supply st = sup →
  res_fold (genesis_allocation launch) (seen, sup) l = Ok acc →
  ∃ r, res_fold genesis_credit (st, sup) l = Ok r.
Proof.
  revert seen sup st. induction l as [|al l IH]; intros seen sup st Hw Hs Hf; [by eexists|].
  cbn [res_fold] in *. apply res_bind_Ok in Hf as ([seen' sup'] & Hal & Hf). unfold genesis_allocation in Hal. res_split.
  cbv zeta in Hal. res_split. injection Hal as <- <-.
  match goal with E : negb (isSafeInteger (al_amountAtoms al)) || _ = false |- _ => rename E into Hpos end.
  match goal with E : negb (isSafeInteger (sup + _)) || _ = false |- _ => rename E into Hmax end.
  assert (genesis_credit (st, sup) al = Ok (credited st (al_address al) (al_amountAtoms al), sup + al_amountAtoms al)) as ->.
  { unfold genesis_credit. rewrite Hpos. change (throw_if false ?m) with (Ok () (A:=unit)). cbn -[isSafeInteger MAX_SUPPLY_ATOMS credit].
    rewrite Hmax. breflect. rewrite credit_run by (done || lia). done. }
  breflect. pose proof (balance_nonneg st (al_address al) Hw).
  refine (IH _ _ (credited st (al_address al) (al_amountAtoms al)) _ _ Hf); [apply credited_wf; [done|lia|lia]|rewrite supply_credited; lia].
Qed.

Lemma genesis_ledger (g : GenesisConfig) :
  genesis_valid g → ∃ st, fromGenesis g = Ok st ∧ ledger_wf st ∧ supply st = sumZ al_amountAtoms (g_allocations g) ∧
    (∀ a, nonceOf st a = 0) ∧ settledActivityEpochs st = ∅ ∧ ∀ a, balance st a = allocated (g_allocations g) a.
Proof.
  intros Hg. destruct (gv_supply g Hg) as [acc Hf].
  destruct (genesis_allocation_run _ _ _ 0 emptyLedger _ emptyLedger_wf ltac:(done) Hf) as [[st sup] Hr].
  exists st. split; [unfold fromGenesis; by rewrite Hr|].
  apply genesis_fold in Hr as (Hw & Hs & Hsum & He & Hn & _ & Hb). split_and!; try done. congruence.
Qed.

Lemma allocated_unique (l : list Allocation) (a : Address) (al : Allocation) :
  NoDup (al_address <$> l) → findAllocation l a = Some al → allocated l a = al_amountAtoms al ∧ al ∈ l ∧ al_address al = a.
Proof.
  intros Hnd Hf. apply fmap_Some in Hf as ([i x] & Hf & ->). apply list_find_Some in Hf as (Hi & Ha & _). cbn [snd].
  assert (x ∈ l) as Hin by (by eapply list_elem_of_lookup_2). split; [|done]. clear i Hi. subst a. unfold allocated.
  induction l as [|y l IH]; [by apply not_elem_of_nil in Hin|]. csimpl. apply NoDup_cons in Hnd as [Hy Hnd].
  apply elem_of_cons in Hin as [->|Hin].
  - rewrite decide_True by done. replace (sumZ _ l) with 0; [lia|]. clear IH Hnd.
    induction l as [|z l IH]; [done|]. csimpl in *. apply not_elem_of_cons in Hy as [Hz Hy].
    rewrite decide_False by congruence. rewrite <-IH by done. done.
  - rewrite decide_False; [by rewrite IH|]. intros Heq. apply Hy. rewrite Heq. by apply list_elem_of_fmap_2.
Qed.

Lemma find_allocation_some (l : list Allocation) (a : Address) :
  existsb (λ al, bool_decide (al_address al = a)) l = true → ∃ al, findAllocation l a = Some al.
Proof.
  intros He. apply existsb_exists in He as (al & Hin & Heq%bool_decide_eq_true). apply list_elem_of_In in Hin.
  unfold findAllocation. destruct (list_find_elem_of (λ al, al_address al = a) l al Hin Heq) as [[i x] ->]. by eexists.
Qed.

Lemma find_allocation_balance (g : GenesisConfig) (st : LedgerState) (a : Address) (al : Allocation) :
  genesis_valid g → fromGenesis g = Ok st → findAllocation (g_allocations g) a = Some al →
  al_amountAtoms al = balance st a ∧ 0 ≤ al_amountAtoms al ≤ MAX_SUPPLY_ATOMS.
Proof.
  intros Hg Hst Hf. destruct (genesis_ledger g Hg) as (st' & Hst' & Hw & _ & _ & _ & Hb).
  assert (st' = st) as -> by congruence. destruct (allocated_unique _ _ _ (gv_allocated g Hg) Hf) as (Heq & _ & _).
  pose proof (balance_nonneg st a Hw). pose proof (balance_le_supply st a Hw). pose proof (lw_supply _ Hw).
  rewrite Hb, Heq in *. lia.
Qed.

Lemma founder_allocation_ok (g : GenesisConfig) (lk : AllocationLocks) :
  genesis_valid g → g_allocationLocks g = Some lk → ∃ al, findAllocation (g_allocations g) (founderVesting lk) = Some al.
Proof.
  intros Hg Hl. pose proof (gv_locks g Hg) as Hv. unfold validateAllocationLocks in Hv. rewrite Hl in Hv. cbv zeta in Hv. res_split.
  rewrite res_forall_Ok in Hv. specialize (Hv (founderVesting lk) ltac:(set_solver)). res_split.
  apply find_allocation_some. by breflect.
Qed.

Lemma release_ok (g : GenesisConfig) (rl : PublicDistributionRelease) :
  genesis_valid g → g_publicDistributionRelease g = Some rl →
  (∃ al, findAllocation (g_allocations g) (pdr_address rl) = Some al ∧
    (isLaunchProfile g = true → al_amountAtoms al = PUBLIC_DISTRIBUTION_ATOMS)) ∧
  0 ≤ pdr_cliffMs rl ∧ PUBLIC_DISTRIBUTION_MIN_LINEAR_MS ≤ pdr_linearMs rl ∧ pdr_address rl ≠ g_activityPool g ∧
  ∀ lk, g_allocationLocks g = Some lk → pdr_address rl ≠ founderVesting lk ∧ pdr_address rl ≠ permanentLiquidity lk.
Proof.
  intros Hg Hr. pose proof (gv_release g Hg) as Hv. unfold validatePublicDistributionRelease in Hv. rewrite Hr in Hv. res_split.
  match goal with E : unwrap _ _ = Ok ?x |- _ => apply unwrap_Ok in E; rename E into Hal, x into al end.
  repeat match goal with E : assertScheduleBound _ _ _ _ = Ok _ |- _ => apply throw_if_Ok in E end.
  unfold PUBLIC_DISTRIBUTION_MIN_CLIFF_MS in *.
  split; [exists al; split; [done|]|]. { intros HL. rewrite HL in Hv. cbn [andb] in Hv. by breflect. }
  rewrite ?orb_false_iff, ?Z.ltb_ge, ?String.eqb_neq in *. split_and!; try tauto; try lia.
  intros lk Hlk. match goal with E : match g_allocationLocks g with _ => _ end = false |- _ => rewrite Hlk in E; rename E into Hn end.
  by rewrite orb_false_iff, !String.eqb_neq in Hn.
Qed.

Lemma founderAllocationOf_ok (g : GenesisConfig) (st : LedgerState) :
  genesis_valid g → fromGenesis g = Ok st →
  ∃ fa, founderAllocationOf g = Ok fa ∧ 0 ≤ fa ≤ MAX_SUPPLY_ATOMS ∧
    ∀ a, founderVesting <$> g_allocationLocks g = Some a → fa = balance st a.
Proof.
  intros Hg Hst. unfold founderAllocationOf. destruct (g_allocationLocks g) as [lk|] eqn:El; [|by exists 0].
  destruct (founder_allocation_ok g lk Hg El) as [al Hal]. destruct (find_allocation_balance g st _ al Hg Hst Hal) as [Hb Hr].
  exists (al_amountAtoms al). rewrite Hal. cbn [unwrap]. cbn [mbind res_bind]. rewrite (proj2 (assertAtoms_Ok _ ()) Hr).
  split; [done|]. split; [done|]. by intros a [= <-].
Qed.

Lemma publicDistributionOf_ok (g : GenesisConfig) (st : LedgerState) :
  genesis_valid g → fromGenesis g = Ok st →
  ∃ pd, publicDistributionOf g = Ok pd ∧ ∀ r, pd = Some r →
    0 ≤ pd_allocationAtoms r ≤ MAX_SUPPLY_ATOMS ∧ 0 ≤ pd_cliffMs r ∧ 0 < pd_linearMs r ∧
    pd_allocationAtoms r = balance st (pd_address r).
Proof.
  intros Hg Hst. unfold publicDistributionOf. destruct (g_publicDistributionRelease g) as [rl|] eqn:Er; [|by exists None].
  destruct (release_ok g rl Hg Er) as ((al & Hal & _) & Hc & Hl & _). destruct (find_allocation_balance g st _ al Hg Hst Hal) as [Hb Hr].
  eexists. rewrite Hal. cbn [unwrap]. cbn [mbind res_bind]. rewrite (proj2 (assertAtoms_Ok _ ()) Hr).
  split; [done|]. intros r [= <-]. cbn [pd_allocationAtoms pd_cliffMs pd_linearMs pd_address].
  unfold PUBLIC_DISTRIBUTION_MIN_LINEAR_MS, MS_PER_DAY in Hl. split_and!; try done; lia.
Qed.

(** The lock context of a block exists at every time, is well formed, and the
    genesis ledger satisfies it. *)
Lemma genesis_lock_context (g : GenesisConfig) (st : LedgerState) (t : Z) :
  genesis_valid g → fromGenesis g = Ok st → 0 ≤ t ≤ MAX_SAFE_INTEGER →
  ∃ locks, allocationLockContext g t = Ok locks ∧
    (g_allocationLocks g ≠ None → locks ≠ None) ∧
    ∀ ctx, locks = Some ctx → lock_context_wf ctx ∧ lc_blockTimestampMs ctx = t ∧ locks_held ctx st ∧
      lc_permanentLiquidity ctx = permanentLiquidity <$> g_allocationLocks g ∧
      lc_founderVesting ctx = founderVesting <$> g_allocationLocks g.
Proof.
  intros Hg Hst Ht. pose proof (gv_time g Hg) as Htime.
  destruct (founderAllocationOf_ok g st Hg Hst) as (fa & Hfa & Hfr & Hfb).
  destruct (publicDistributionOf_ok g st Hg Hst) as (pd & Hpd & Hpr).
  set (c := {| lc_founderVesting := founderVesting <$> g_allocationLocks g;
    lc_permanentLiquidity := permanentLiquidity <$> g_allocationLocks g; lc_founderAllocationAtoms := fa;
    lc_genesisTimestampMs := g_timestampMs g; lc_blockTimestampMs := t; lc_publicDistribution := pd |}).
  assert (lock_context_wf c) as Hwf
    by (split; simpl; try done; intros r Hr; destruct (Hpr r Hr) as (? & ? & ? & _); done).
  assert (locks_held c st) as Hheld.
  { intros a. unfold locked_amount. case_bool_decide; [done|]. case_bool_decide as Hf.
    - destruct (founder_locked_bounds _ Hwf) as [_ Hle]. change (lc_founderAllocationAtoms c) with fa in Hle. by rewrite <-(Hfb a Hf).
    - destruct (genesis_ledger g Hg) as (st' & Hst' & Hw & _). assert (st' = st) as -> by congruence.
      pose proof (balance_nonneg st a Hw). cbn [c lc_publicDistribution]. destruct pd as [r|]; [|done].
      case_bool_decide as Hpa; [subst a|done]. destruct (Hpr r eq_refl) as (_ & _ & _ & Hb).
      pose proof (release_locked_bounds _ Hwf r eq_refl). lia. }
  unfold allocationLockContext. rewrite (proj2 (assertTimestamp_Ok t _ ()) Ht), (proj2 (assertTimestamp_Ok (g_timestampMs g) _ ()) Htime), Hfa, Hpd.
  destruct (bool_decide (g_allocationLocks g = None) && _) eqn:El; [exists None|exists (Some c)]; (split; [done|]).
  - split; [breflect; naive_solver|done].
  - split; [done|]. by intros ctx [= <-].
Qed.

Lemma plan_balances (g : GenesisConfig) (a : FixedSupplyAddresses) (st : LedgerState) :
  genesis_valid g → launch_plan g a → fromGenesis g = Ok st →
  supply st = MAX_SUPPLY_ATOMS ∧ balance st (fs_founder a) = FOUNDER_ALLOCATION_ATOMS ∧
  balance st (fs_publicDistribution a) = PUBLIC_DISTRIBUTION_ATOMS ∧
  balance st (fs_liquidityReserve a) = LIQUIDITY_RESERVE_ATOMS ∧ balance st (fs_ecosystemReserve a) = ECOSYSTEM_RESERVE_ATOMS.
Proof.
  intros Hg Hp Hst. destruct (genesis_ledger g Hg) as (st' & Hst' & _ & Hs & _ & _ & Hb). assert (st' = st) as -> by congruence.
  rewrite Hs, !Hb. unfold allocated. rewrite (lp_allocations g a Hp).
  pose proof (lp_distinct g a Hp) as Hd. rewrite !NoDup_cons, !elem_of_cons in Hd.
  split; [done|]. unfold plan. cbn [sumZ foldr al_address al_amountAtoms].
  split_and!; repeat case_decide; try tauto; lia || naive_solver.
Qed.

(** The allocation of a launch genesis at an address that is not one of the
    three other roles is the public distribution. *)
Lemma plan_remaining (g : GenesisConfig) (a : FixedSupplyAddresses) (x : Address) (al : Allocation) :
  launch_plan g a → findAllocation (g_allocations g) x = Some al → NoDup (al_address <$> g_allocations g) →
  x ≠ fs_founder a → x ≠ fs_liquidityReserve a → x ≠ fs_ecosystemReserve a → x = fs_publicDistribution a.
Proof.
  intros Hp Hf Hnd H1 H2 H3. destruct (allocated_unique _ _ _ Hnd Hf) as (_ & Hin & <-).
  rewrite (lp_allocations g a Hp) in Hin. unfold plan in Hin. rewrite !elem_of_cons in Hin.
  destruct Hin as [->|[->|[->|[->|Hin]]]]; try done. by apply not_elem_of_nil in Hin.
Qed.

(** Every proof of an accepted list verifies under its validator's own key. *)
Lemma check_slots_sound (order what chainId binding : string) (h : Z) (proofs : list ValidatorPossessionProof) (vs : list Validator) (u : unit) :
  zlen proofs = zlen vs → res_forall (check_slot order what chainId binding h) (zip proofs vs) = Ok u →
  Forall2 (λ p v, pp_address p = v_address v ∧ verifyPossessionProof (slot_statement chainId binding h v) (pp_signature p) = true) proofs vs.
Proof.
  intros Hl Hr. rewrite res_forall_Ok in Hr. apply Forall2_same_length_lookup_2; [unfold zlen in Hl; lia|].
  intros i p v Hp Hv. assert ((p, v) ∈ zip proofs vs) as Hin.
  { apply list_elem_of_lookup. exists i. rewrite lookup_zip_with. by rewrite Hp, Hv. }
  specialize (Hr _ Hin). unfold check_slot in Hr. res_split. breflect. by rewrite String.eqb_eq in *.
Qed.

Lemma launch_release (g : GenesisConfig) (a : FixedSupplyAddresses) :
  genesis_valid g → launch_plan g a → g_launchProfile g = Some FIXED_SUPPLY_LAUNCH_PROFILE →
  ∃ r, g_publicDistributionRelease g = Some r ∧ pdr_address r = fs_publicDistribution a ∧ 365 * MS_PER_DAY ≤ pdr_linearMs r.
Proof.
  intros Hg Hp HL. assert (isLaunchProfile g = true) as Hi by (unfold isLaunchProfile; by rewrite HL, bool_decide_eq_true_2).
  destruct (g_publicDistributionRelease g) as [r|] eqn:Er.
  - exists r. destruct (release_ok g r Hg Er) as ((al & Hal & _) & _ & Hl & Hpool & Hlocks). split; [done|]. split; [|done].
    destruct (Hlocks _ (lp_locks g a Hp)) as [Hf Hq]. rewrite (lp_pool g a Hp) in Hpool.
    eapply plan_remaining; eauto. by apply gv_allocated.
  - pose proof (gv_release g Hg) as Hv. unfold validatePublicDistributionRelease in Hv. rewrite Er in Hv. res_split.
    by rewrite Hi, orb_true_r in Hv.
Qed.

Lemma launch_validator_count (g : GenesisConfig) :
  genesis_valid g → g_launchProfile g = Some FIXED_SUPPLY_LAUNCH_PROFILE → 4 ≤ zlen (g_validators g) ≤ 100.
Proof.
  intros Hg HL. destruct (gv_count g Hg) as (n & Hn & Hc). unfold minimumValidatorCount, isLaunchProfile in Hn. res_split.
  rewrite HL, (bool_decide_eq_true_2 (Some _ = Some _)), orb_true_r in Hn by done. subst n. unfold STRICT_MIN_VALIDATORS in Hc. lia.
Qed.

Lemma launch_policy (g : GenesisConfig) :
  genesis_valid g → g_launchProfile g = Some FIXED_SUPPLY_LAUNCH_PROFILE → g_activityOraclePolicy g = Some ACTIVITY_ORACLE_POLICY_THRESHOLD.
Proof.
  intros Hg HL. pose proof (gv_policy g Hg) as Hv. unfold validateActivityOraclePolicy in Hv. cbv zeta in Hv. res_split.
  match goal with E : bool_decide (os_launchProfile _ = _) && _ = false |- _ => rename E into Hl end.
  cbn [genesisOracles os_launchProfile os_activityOraclePolicy] in Hl. rewrite HL, (bool_decide_eq_true_2 (Some _ = Some _)) in Hl by done.
  cbn [andb] in Hl. by breflect.
Qed.

Lemma genesis_proofs_of (g : GenesisConfig) (admission : ValidatorAdmission) :
  g_validatorAdmission g = Some admission → assertGenesisPossessionProofs g = Ok () →
  ∃ binding, genesisConfigCommitment g = Ok binding ∧
    Forall2 (λ p v, pp_address p = v_address v ∧ verifyPossessionProof (slot_statement (g_chainId g) binding 0 v) (pp_signature p) = true)
      (va_genesisProofs admission) (g_validators g).
Proof.
  intros Hadm Ha. unfold assertGenesisPossessionProofs in Ha. rewrite Hadm in Ha. cbv zeta in Ha. res_split.
  match goal with E : genesisPossessionChainBinding g = Ok ?b |- _ => exists b; split; [done|] end.
  eapply check_slots_sound; [by breflect|done].
Qed.

Lemma genesis_proofs_sound (g : GenesisConfig) :
  genesis_valid g → assertGenesisPossessionProofs g = Ok () → isStrictNetworkClass (g_networkClass g) = true →
  ∃ admission binding, g_validatorAdmission g = Some admission ∧ genesisConfigCommitment g = Ok binding ∧
    Forall2 (λ p v, pp_address p = v_address v ∧ verifyPossessionProof (slot_statement (g_chainId g) binding 0 v) (pp_signature p) = true)
      (va_genesisProofs admission) (g_validators g).
Proof.
  intros Hg Ha Hs. pose proof (gv_admission g Hg) as Hv. unfold assertValueBearingClassRequiresValidatorAdmission in Hv. res_split.
  assert (x = g_networkClass g) as ->.
  { match goal with E : readNetworkClass g = Ok _ |- _ => unfold readNetworkClass in E; revert E end.
    destruct (g_networkClass g); intros E; res_split; done. }
  rewrite Hs in Hv. cbn [andb] in Hv. unfold hasValidatorAdmission in Hv. breflect. destruct Hv as [admission Hadm].
  destruct (genesis_proofs_of g admission Hadm Ha) as (binding & Hb & Hp). by exists admission, binding.
Qed.

Lemma launch_locks (g : GenesisConfig) (a : FixedSupplyAddresses) (st : LedgerState) (t : Z) :
  genesis_valid g → launch_plan g a → fromGenesis g = Ok st → 0 ≤ t ≤ MAX_SAFE_INTEGER →
  ∃ ctx, allocationLockContext g t = Ok (Some ctx) ∧ lock_context_wf ctx ∧ locks_held ctx st ∧
    lc_founderVesting ctx = Some (fs_founder a) ∧ lc_permanentLiquidity ctx = Some (fs_liquidityReserve a).
Proof.
  intros Hg Hp Hst Ht. destruct (genesis_lock_context g st t Hg Hst Ht) as (locks & Hl & Hsome & Hc).
  rewrite (lp_locks g a Hp) in *. destruct locks as [ctx|]; [|by destruct Hsome].
  exists ctx. by destruct (Hc ctx eq_refl) as (? & _ & ? & ? & ?).
Qed.

(** C31. The rules of a launch: a genesis the node accepts under the launch profile
    allocates exactly 50,000,000 ZYN as 5M, 20M, 20M and 5M to four distinct
    accounts, locks the founder and the permanent-liquidity account, pays activity
    only from the ecosystem account, releases the public distribution over at
    least 365 days, has between 4 and 100 validators with distinct valid keys,
    requires threshold oracle approval, and under a value-bearing class every
    validator signed its own slot.  The ledger is built from it without error, and
    at every block time the locks are in force and hold. *)
Theorem launch_genesis_sound (g : GenesisConfig) :
  validateGenesis g false = Ok () → g_launchProfile g = Some FIXED_SUPPLY_LAUNCH_PROFILE →
  ∃ a st,
    launch_plan g a ∧
    (∃ r, g_publicDistributionRelease g = Some r ∧ pdr_address r = fs_publicDistribution a ∧ 365 * MS_PER_DAY ≤ pdr_linearMs r) ∧
    4 ≤ zlen (g_validators g) ≤ 100 ∧ NoDup (v_address <$> g_validators g) ∧ NoDup (v_publicKey <$> g_validators g) ∧
    Forall validator_ok (g_validators g) ∧
    g_activityOraclePolicy g = Some ACTIVITY_ORACLE_POLICY_THRESHOLD ∧
    (isStrictNetworkClass (g_networkClass g) = true → ∃ admission binding,
      g_validatorAdmission g = Some admission ∧ genesisConfigCommitment g = Ok binding ∧
      Forall2 (λ p v, pp_address p = v_address v ∧
        verifyPossessionProof (slot_statement (g_chainId g) binding 0 v) (pp_signature p) = true)
        (va_genesisProofs admission) (g_validators g)) ∧
    fromGenesis g = Ok st ∧ ledger_wf st ∧ supply st = MAX_SUPPLY_ATOMS ∧
    balance st (fs_founder a) = FOUNDER_ALLOCATION_ATOMS ∧ balance st (fs_liquidityReserve a) = LIQUIDITY_RESERVE_ATOMS ∧
    balance st (g_activityPool g) = ECOSYSTEM_RESERVE_ATOMS ∧
    (∀ t, 0 ≤ t ≤ MAX_SAFE_INTEGER → ∃ ctx, allocationLockContext g t = Ok (Some ctx) ∧ lock_context_wf ctx ∧ locks_held ctx st ∧
      lc_founderVesting ctx = Some (fs_founder a) ∧ lc_permanentLiquidity ctx = Some (fs_liquidityReserve a)).
Proof.
  intros (Hg & Hproofs)%validateGenesis_valid HL. specialize (Hproofs eq_refl).
  destruct (launch_profile_plan g ()) as [a Hp]; [apply gv_launch; [done|by rewrite HL]|].
  destruct (genesis_ledger g Hg) as (st & Hst & Hw & _). exists a, st.
  destruct (plan_balances g a st Hg Hp Hst) as (Hs & Hf & _ & Hliq & Heco). rewrite (lp_pool g a Hp).
  split; [done|]. split; [by apply launch_release|]. split; [by apply launch_validator_count|].
  split; [by apply gv_addresses|]. split; [by apply gv_keys|]. split; [by apply gv_validators|].
  split; [by apply launch_policy|]. split; [by apply genesis_proofs_sound|].
  split_and!; try done. intros t Ht. by apply launch_locks.
Qed.

End sound.

(** ** The signing ceremony *)

Section ceremony.
Context `{CryptoLaws}.

Lemma signed_proof_verifies (statement : PossessionProofStatement) (key sig : string) :
  signPossessionProof statement key = Ok sig → verifyPossessionProof statement sig = true ∧ isLowerHexOf 128 sig = true.
Proof.
  unfold signPossessionProof, verifyPossessionProof. intros Hs. res_split. breflect.
  match goal with E : publicKeyFromPrivate key = Ok _ |- _ => rename E into Hk end.
  match goal with E : (_ =? _)%string = true |- _ => apply String.eqb_eq in E; subst end.
  by eapply signed_domain_verifies.
Qed.

Lemma sign_slots_checked (chainId binding order what : string) (vs : list Validator) (keys : list string) (proofs : list ValidatorPossessionProof) :
  length keys = length vs → sign_slots chainId binding vs keys = Ok proofs →
  length proofs = length vs ∧ res_forall (check_slot order what chainId binding 0) (zip proofs vs) = Ok () ∧
  Forall (λ p, isLowerHexOf 128 (pp_signature p) = true) proofs.
Proof.
  revert keys proofs. induction vs as [|v vs IH]; intros [|key keys] proofs Hl Hs; try done; cbn [sign_slots] in Hs.
  - by apply Ok_inj in Hs as <-.
  - res_split. subst proofs. match goal with E : sign_slots _ _ _ _ = Ok _ |- _ => apply IH in E as (IH1 & IH2 & IH3); [|by injection Hl] end.
    match goal with E : signPossessionProof _ _ = Ok _ |- _ => apply signed_proof_verifies in E as [Hv Hh] end.
    split; [by rewrite !length_cons, IH1|]. split; [|by constructor]. cbn [zip_with zip res_forall].
    apply res_bind_Ok. exists (). split; [|exact IH2]. unfold check_slot. cbn [pp_address pp_signature].
    by rewrite String.eqb_refl, Hv.
Qed.

(** The launch ceremony ends well: when the configuration passes the check before
    the proofs and each operator signs its slot with its own key, the genesis with
    the proofs is accepted, and its genesis block is the one that was checked, for
    every state root. *)
Theorem possession_ceremony (g g' : GenesisConfig) (keys : list string) :
  let unsigned := with_admission g (mkValidatorAdmission POSSESSION_PROOF_POLICY_V1 []) in
  validateGenesisBeforePossessionProofs unsigned = Ok () →
  signGenesisPossessionProofs g keys = Ok g' →
  validateGenesis g' false = Ok () ∧ ∀ root, createGenesisBlock g' root = createGenesisBlock unsigned root.
Proof.
  intros unsigned Hv Hs. unfold signGenesisPossessionProofs in Hs. res_split. breflect.
  match goal with E : genesisPossessionChainBinding _ = Ok ?b |- _ => rename E into Hb, b into binding end.
  match goal with E : sign_slots _ _ _ _ = Ok ?b |- _ => rename E into Hp, b into proofs end.
  match goal with E : zlen keys = _ |- _ => unfold zlen in E; rename E into Hl end.
  destruct (sign_slots_checked (g_chainId g) binding "Genesis possession proof does not match the genesis validator order"
      "Invalid genesis validator possession proof for " (g_validators g) keys proofs ltac:(lia) Hp) as (Hlen & Hchk & Hhex).
  split; [|intros root; by subst g']. subst g'.
  unfold validateGenesisBeforePossessionProofs, validateGenesis in Hv |- *. cbv zeta in Hv |- *.
  do 20 (let x := fresh in let Hx := fresh in apply res_bind_Ok in Hv as (x & Hx & Hv); apply res_bind_Ok; exists x; split; [exact Hx|clear Hx]).
  apply res_bind_Ok in Hv as (x & _ & Hv). apply res_bind_Ok. exists (). split.
  { cbn [validateValidatorAdmissionShape with_admission g_validatorAdmission va_policy va_genesisProofs].
    apply res_bind_Ok. exists (). split; [done|]. apply res_forall_Ok. intros p Hin. rewrite Forall_forall in Hhex.
    unfold assertHex. change (2 * 64)%nat with 128%nat. by rewrite (Hhex p Hin). }
  apply res_bind_Ok in Hv as (y & Hy & _). apply res_bind_Ok. exists (). split; [by destruct y|].
  cbn [assertGenesisPossessionProofs with_admission g_validatorAdmission va_genesisProofs g_validators g_chainId].
  apply res_bind_Ok. exists (). split; [apply throw_if_Ok; breflect; unfold zlen; lia|].
  apply res_bind_Ok. exists binding. split; [exact Hb|exact Hchk].
Qed.

End ceremony.

(** ** A concrete launch *)
Module GenesisExample.
Import ToyCrypto BlockExample.
#[local] Existing Instance ToyCrypto.toy.

Definition roles : FixedSupplyAddresses :=
  mkFixedSupplyAddresses "ZYNaaaaaaaaaaaaaaaaaaaaaaaaaaaaaaaaaaaaaaaa" "ZYNbbbbbbbbbbbbbbbbbbbbbbbbbbbbbbbbbbbbbbbb"
    "ZYNcccccccccccccccccccccccccccccccccccccccc" "ZYNdddddddddddddddddddddddddddddddddddddddd".
Definition config : GenesisConfig :=
  mkGenesis "zyron-mainnet-1" 1700000000000 validators (pk <$> take 3 keys) (fs_ecosystemReserve roles) (plan roles)
    (Some (mkAllocationLocks (fs_founder roles) (fs_liquidityReserve roles))) (Some 2) (Some "threshold-v1") (Some 100000000)
    (Some "fixed-supply-v1") (Some "mainnet")
    (Some (mkPublicDistributionRelease (fs_publicDistribution roles) 0 (365 * MS_PER_DAY)))
    (Some (mkFeePolicyV1 "fixed-fee-v1" 100000)) None.
Definition signed : GenesisConfig := Eval vm_compute in
  match signGenesisPossessionProofs config keys with Ok g => g | Throw _ => config end.

Lemma launch_genesis_sound_witness :
  validateGenesis signed false = Ok () ∧ ∃ a, launch_plan signed a.
Proof.
  assert (validateGenesis signed false = Ok ()) as Hv by (vm_compute; reflexivity). split; [exact Hv|].
  destruct (launch_genesis_sound signed Hv eq_refl) as (a & st & Hp & _). by exists a.
Defined.

Lemma possession_ceremony_witness : validateGenesis signed false = Ok ().
Proof.
  refine (proj1 (possession_ceremony config signed keys _ _)); vm_compute; reflexivity.
Defined.

End GenesisExample.
