(* ===== verification/Governance.v ===== *)
(** On-chain governance (l1/src/chain.ts, lines 1199-1539 and 1085-1190): which
    validator updates, oracle pauses and protocol upgrades the validators may
    schedule, the schedules themselves and what they say about a height, and the
    checks of schedules that come with a checkpoint.

    A schedule is a [Map] from activation heights; every loop over it either
    sorts the entries or takes a maximum or a union, so it is a finite map. *)

From S2P Require Import Prelude Types Codec Crypto Vesting Activity Transaction TxShape Oracle Ledger StateV2 Block Genesis.

Definition MIN_VALIDATOR_UPDATE_DELAY : Z := 100.
Definition MIN_PROTOCOL_UPDATE_DELAY : Z := 100.
Definition SUPPORTED_PROTOCOL_VERSIONS : list Z := [1; 2; 3; 5; 6].
Definition MINING_PROTOCOL_VERSION : Z := 5.

Definition protocolUsesStateV2 (protocolVersion : Z) : bool :=
  (protocolVersion =? 2) || (protocolVersion =? 3) || (protocolVersion =? 5) || (protocolVersion =? 6).

Definition assertSupportedProtocolVersion (version : Z) : res unit :=
  throw_if (negb (bool_decide (version ∈ SUPPORTED_PROTOCOL_VERSIONS)))
    ("Protocol version " +:+ pretty version +:+ " is not supported by this binary").

(** ** Authorization of a governance transaction *)

(** One iteration of the loop over [tx.approvals]: [seen] and [valid]. *)
Definition approval_step (allowed : gmap string string) (what : string) (verify : ValidatorApproval → bool)
    (acc : list string * Z) (approval : ValidatorApproval) : res (list string * Z) :=
  let '(seen, valid) := acc in
  throw_if (bool_decide (ap_validator approval ∈ seen)) ("Duplicate " +:+ what +:+ " approval");;
  throw_if (negb (bool_decide (allowed !! ap_validator approval = Some (ap_publicKey approval)))) ("Unknown " +:+ what +:+ " approver");;
  throw_if (negb (verify approval)) ("Invalid " +:+ what +:+ " approval");;
  Ok (ap_validator approval :: seen, valid + 1).

(** The part the three authorizations share: the initiator is active and a
    quorum of the current validators approves.  [What] starts a sentence. *)
Definition approvals_quorum (currentValidators : list Validator) (What what : string) (sender : Address)
    (approvals : list ValidatorApproval) (verify : ValidatorApproval → bool) : res unit :=
  let allowed := address_map currentValidators in
  throw_if (negb (bool_decide (is_Some (allowed !! sender)))) (What +:+ " initiator is not active");;
  acc ← res_fold (approval_step allowed what verify) ([], 0) approvals;
  let quorum := math_floor_div (zlen currentValidators * 2) 3 + 1 in
  throw_if (acc.2 <? quorum) (What +:+ " quorum not reached: " +:+ pretty acc.2 +:+ "/" +:+ pretty quorum).

Section authorization.
Context `{Crypto}.

Definition validateValidatorUpdateQuorum (tx : ValidatorSetUpdateTx) (currentValidators : list Validator)
    (blockHeight lastActivationHeight minimumValidators : Z) : res unit :=
  throw_if ((zlen (vu_validators tx) <? minimumValidators) || (100 <? zlen (vu_validators tx)))
    (if 1 <? minimumValidators
     then "fixed-supply-v1, public-launch, value-bearing, and mainnet chains require at least 4 and at most 100 distinct validators"
     else "Invalid validator set size");;
  throw_if (vu_activationHeight tx <? blockHeight + MIN_VALIDATOR_UPDATE_DELAY) "Validator update activation is too soon";;
  throw_if (vu_activationHeight tx <=? lastActivationHeight) "Validator activation height must increase";;
  approvals_quorum currentValidators "Validator update" "validator update" (vu_sender tx) (vu_approvals tx)
    (verifyValidatorUpdateApprovalSignature tx).

Definition validateValidatorUpdateAuthorization (tx : ValidatorSetUpdateTx) (currentValidators : list Validator)
    (blockHeight lastActivationHeight minimumValidators : Z) (admission : ValidatorUpdateAdmissionContext) : res unit :=
  validateValidatorUpdateQuorum tx currentValidators blockHeight lastActivationHeight minimumValidators;;
  assertValidatorUpdatePossessionProofs tx admission.

Definition validateActivityOracleGovernanceAuthorization (tx : ActivityOracleGovernanceTx) (currentValidators : list Validator)
    (blockHeight lastActivationHeight : Z) (genesis : GenesisConfig) (alreadyRevoked : list string) (pauseScheduled : bool) : res unit :=
  throw_if (og_activationHeight tx <? blockHeight + MIN_VALIDATOR_UPDATE_DELAY)
    "Activity oracle governance activation is too soon";;
  throw_if (og_activationHeight tx <=? lastActivationHeight) "Activity oracle governance activation height must increase";;
  match og_action tx with
  | Pause => throw_if pauseScheduled ACTIVITY_ORACLE_PAUSED_MESSAGE
  | Resume => throw_if (negb pauseScheduled) "Activity oracle settlements are not paused"
  | Revoke => Ok ()
  end;;
  activityOracleGovernancePublicKeysValid (og_action tx) (og_publicKeys tx) (g_activityOracles genesis) alreadyRevoked;;
  approvals_quorum currentValidators "Activity oracle governance" "activity oracle governance" (og_sender tx) (og_approvals tx)
    (verifyActivityOracleGovernanceApprovalSignature tx).

Definition assertNoProtocolDowngradeFromV6 (scheduledVersion nextVersion : Z) (error : string) : res unit :=
  throw_if ((CONSENSUS_V6_PROTOCOL_VERSION <=? scheduledVersion) && (nextVersion <? scheduledVersion)) error.

Definition validateProtocolUpgradeAuthorization (tx : ProtocolUpgradeTx) (currentValidators : list Validator)
    (blockHeight lastActivationHeight lastScheduledVersion : Z) : res unit :=
  throw_if (pu_activationHeight tx <? blockHeight + MIN_PROTOCOL_UPDATE_DELAY) "Protocol upgrade activation is too soon";;
  throw_if (pu_activationHeight tx <=? lastActivationHeight) "Protocol activation height must increase";;
  assertNoProtocolDowngradeFromV6 lastScheduledVersion (pu_protocolVersion tx)
    ("Protocol downgrade refused: version " +:+ pretty (pu_protocolVersion tx) +:+ " after protocol v" +:+
     pretty lastScheduledVersion +:+ " is scheduled");;
  approvals_quorum currentValidators "Protocol upgrade" "protocol upgrade" (pu_sender tx) (pu_approvals tx)
    (verifyProtocolUpgradeApprovalSignature tx).

End authorization.

Definition assertTransactionVersionForProtocol (tx : Transaction) (protocolVersion : Z) : res unit :=
  let expected := if 3 <=? protocolVersion then 2 else 1 in
  throw_if (negb (tx_version tx =? expected))
    ("Transaction version " +:+ pretty (tx_version tx) +:+ " is not valid under protocol version " +:+ pretty protocolVersion);;
  match tx with
  | MiningClaim _ =>
    assertMiningNotRetired;;
    throw_if (protocolVersion <? MINING_PROTOCOL_VERSION) ("Mining claims require protocol version " +:+ pretty MINING_PROTOCOL_VERSION)
  | _ => Ok ()
  end.

(** ** Schedules *)

Abbreviation ValidatorSchedule := (gmap Z (list Validator)) (only parsing).
Abbreviation ProtocolSchedule := (gmap Z Z) (only parsing).
Abbreviation OracleSchedule := (gmap Z (ActivityOracleGovernanceAction * list string)) (only parsing).

(** One iteration of the loops of [validatorsAt] and [protocolVersionAt]: the
    selected entry and its height. *)
Definition select_entry {A} (height : Z) (acc : A * Z) (entry : Z * A) : A * Z :=
  let '(selected, selectedHeight) := acc in
  let '(activationHeight, value) := entry in
  if (activationHeight <=? height) && (selectedHeight <=? activationHeight) then (value, activationHeight)
  else (selected, selectedHeight).

Definition entry_at {A} (first : A) (schedule : gmap Z A) (height : Z) : A :=
  (fold_left (select_entry height) (map_to_list schedule) (first, 0)).1.

(** [[...schedule.entries()].sort(([a], [b]) => a - b)] *)
Definition sorted_entries {A} (schedule : gmap Z A) : list (Z * A) := js_sort (λ a b, a.1 <=? b.1) (map_to_list schedule).

(** [Math.max(...schedule.keys())]: [None] is [-Infinity]. *)
Definition max_key {A} (schedule : gmap Z A) : option Z :=
  fold_left (λ acc e, Some match acc with Some m => Z.max m e.1 | None => e.1 end) (map_to_list schedule) None.

(** [activityOracleControlAt]: the loop over the sorted entries, which stops at
    the first one above the height. *)
Fixpoint control_loop (height : Z) (entries : list (Z * (ActivityOracleGovernanceAction * list string))) (acc : bool * list string)
    : bool * list string :=
  match entries with
  | [] => acc
  | (activationHeight, (action, publicKeys)) :: rest =>
    if height <? activationHeight then acc
    else control_loop height rest
      match action with
      | Pause => (true, acc.2)
      | Resume => (false, acc.2)
      | Revoke => (acc.1, acc.2 ++ filter (λ k, k ∉ acc.2) publicKeys)
      end
  end.

Definition activityOracleControlAt (schedule : OracleSchedule) (height : Z) : bool * list string :=
  control_loop height (sorted_entries schedule) (false, []).

(** The set the source spreads into [revokedPublicKeys]. *)
Definition oracleSetAt (genesis : GenesisConfig) (schedule : OracleSchedule) (height : Z) : ActivityOracleSet :=
  let '(paused, revoked) := activityOracleControlAt schedule height in
  mkOracleSet (g_activityOracles genesis) (g_activityOracleThreshold genesis) (g_activityOraclePolicy genesis)
    (g_activitySettlementCapAtoms genesis) (g_launchProfile genesis) (Some (g_timestampMs genesis)) paused revoked.

Definition scheduledOracleRevocations (schedule : OracleSchedule) : list string :=
  concat (map (λ e, match e.2.1 with Revoke => e.2.2 | _ => [] end) (map_to_list schedule)).

Definition oraclePauseScheduled (schedule : OracleSchedule) : bool :=
  fold_left (λ paused e, match e.2.1 with Pause => true | Resume => false | Revoke => paused end) (sorted_entries schedule) false.

(** ** What an authorization proves *)

(** An active validator proposed it and a quorum of the current validators
    signed it. *)
Record approved (validators : list Validator) (sender : Address) (approvals : list ValidatorApproval)
    (verify : ValidatorApproval → bool) : Prop := {
  ap_initiator : sender ∈ (v_address <$> validators);
  ap_quorum : quorum_of validators (ap_validator <$> approvals);
  ap_signed : Forall (λ a, address_map validators !! ap_validator a = Some (ap_publicKey a) ∧ verify a = true) approvals }.

Lemma address_map_address (validators : list Validator) (a k : string) :
  address_map validators !! a = Some k → a ∈ (v_address <$> validators).
Proof. intros Hm%address_map_member. by apply (list_elem_of_fmap_2 v_address) in Hm. Qed.

Lemma approvals_quorum_sound (validators : list Validator) (What what : string) (sender : Address)
    (approvals : list ValidatorApproval) (verify : ValidatorApproval → bool) (u : unit) :
  approvals_quorum validators What what sender approvals verify = Ok u → approved validators sender approvals verify.
Proof.
  unfold approvals_quorum. cbv zeta. intros E. apply res_bind_Ok in E as (u1 & Hs%throw_if_Ok & E). clear u1.
  apply res_bind_Ok in E as (acc & Hf & Hq%throw_if_Ok). apply negb_false_iff, bool_decide_eq_true in Hs as [k Hk].
  assert (∀ s1 a s2, approval_step (address_map validators) what verify s1 a = Ok s2 →
    (ap_validator a ∉ s1.1 ∧ s2.1 = ap_validator a :: s1.1 ∧
     address_map validators !! ap_validator a = Some (ap_publicKey a) ∧ verify a = true) ∧ s2.2 = s1.2 + 1) as Hstep.
  { intros [seen n] a s2 E. unfold approval_step in E.
    apply res_bind_Ok in E as ([] & H1%throw_if_Ok & E). apply res_bind_Ok in E as ([] & H2%throw_if_Ok & E).
    apply res_bind_Ok in E as ([] & H3%throw_if_Ok & E). apply Ok_inj in E as <-. breflect. done. }
  destruct (seen_loop ap_validator fst (λ a, address_map validators !! ap_validator a = Some (ap_publicKey a) ∧ verify a = true)
    (approval_step (address_map validators) what verify) approvals ([], 0) acc) as [Hnd Hall]; [|done|done|].
  { intros s1 a s2 E. exact (proj1 (Hstep s1 a s2 E)). }
  split; [by eapply address_map_address| |done]. split; [done| |].
  - intros x Hx. apply list_elem_of_fmap in Hx as (a & -> & Ha). rewrite Forall_forall in Hall. destruct (Hall a Ha) as [Hm _].
    by eapply address_map_address.
  - assert (acc.2 = zlen approvals) as Hlen.
    { eapply counted_loop; [|exact Hf]. intros s1 a s2 E. exact (proj2 (Hstep s1 a s2 E)). }
    apply Z.ltb_ge in Hq. rewrite Hlen in Hq. unfold zlen in *. rewrite length_fmap. exact Hq.
Qed.

Section authorized.
Context `{Crypto}.

Lemma update_authorized (tx : ValidatorSetUpdateTx) (validators : list Validator) (height last minimum : Z)
    (admission : ValidatorUpdateAdmissionContext) (u : unit) :
  validateValidatorUpdateAuthorization tx validators height last minimum admission = Ok u →
  minimum ≤ zlen (vu_validators tx) ≤ 100 ∧ height + 100 ≤ vu_activationHeight tx ∧ last < vu_activationHeight tx ∧
  approved validators (vu_sender tx) (vu_approvals tx) (verifyValidatorUpdateApprovalSignature tx) ∧
  assertValidatorUpdatePossessionProofs tx admission = Ok ().
Proof.
  unfold validateValidatorUpdateAuthorization, validateValidatorUpdateQuorum, MIN_VALIDATOR_UPDATE_DELAY. intros E.
  apply res_bind_Ok in E as ([] & E & Hp). apply res_bind_Ok in E as ([] & H1%throw_if_Ok & E).
  apply res_bind_Ok in E as ([] & H2%throw_if_Ok & E). apply res_bind_Ok in E as ([] & H3%throw_if_Ok & E).
  apply approvals_quorum_sound in E. breflect. destruct u. split_and!; (done || lia).
Qed.

Lemma oracle_authorized (tx : ActivityOracleGovernanceTx) (validators : list Validator) (height last : Z) (genesis : GenesisConfig)
    (revoked : list string) (paused : bool) (u : unit) :
  validateActivityOracleGovernanceAuthorization tx validators height last genesis revoked paused = Ok u →
  height + 100 ≤ og_activationHeight tx ∧ last < og_activationHeight tx ∧
  approved validators (og_sender tx) (og_approvals tx) (verifyActivityOracleGovernanceApprovalSignature tx).
Proof.
  unfold validateActivityOracleGovernanceAuthorization, MIN_VALIDATOR_UPDATE_DELAY. intros E.
  apply res_bind_Ok in E as ([] & H1%throw_if_Ok & E). apply res_bind_Ok in E as ([] & H2%throw_if_Ok & E).
  apply res_bind_Ok in E as ([] & _ & E). apply res_bind_Ok in E as ([] & _ & E). apply approvals_quorum_sound in E.
  breflect. split_and!; (done || lia).
Qed.

Lemma upgrade_authorized (tx : ProtocolUpgradeTx) (validators : list Validator) (height last lastVersion : Z) (u : unit) :
  validateProtocolUpgradeAuthorization tx validators height last lastVersion = Ok u →
  height + 100 ≤ pu_activationHeight tx ∧ last < pu_activationHeight tx ∧
  (6 ≤ lastVersion → lastVersion ≤ pu_protocolVersion tx) ∧
  approved validators (pu_sender tx) (pu_approvals tx) (verifyProtocolUpgradeApprovalSignature tx).
Proof.
  unfold validateProtocolUpgradeAuthorization, MIN_PROTOCOL_UPDATE_DELAY, assertNoProtocolDowngradeFromV6, CONSENSUS_V6_PROTOCOL_VERSION. intros E.
  apply res_bind_Ok in E as ([] & H1%throw_if_Ok & E). apply res_bind_Ok in E as ([] & H2%throw_if_Ok & E).
  apply res_bind_Ok in E as ([] & H3%throw_if_Ok & E). apply approvals_quorum_sound in E.
  breflect. split_and!; (done || lia).
Qed.

End authorized.

(** ** Reading a schedule *)

(** The entry in force at a height: the one with the largest activation height
    that is not above it. *)
Definition in_force {A} (schedule : gmap Z A) (height k : Z) (v : A) : Prop :=
  schedule !! k = Some v ∧ 0 ≤ k ≤ height ∧ ∀ k', is_Some (schedule !! k') → k' ≤ height → k' ≤ k.

Lemma in_force_unique {A} (schedule : gmap Z A) (height k k' : Z) (v v' : A) :
  in_force schedule height k v → in_force schedule height k' v' → v = v' ∧ k = k'.
Proof.
  intros (H1 & H2 & H3) (H1' & H2' & H3'). assert (k = k') as ->; [|split; [congruence|done]].
  apply Z.le_antisymm; [apply H3'|apply H3]; eauto; lia.
Qed.

Lemma select_fold {A} (height : Z) (entries : list (Z * A)) (first : A * Z) :
  0 ≤ first.2 → NoDup entries.*1 →
  let r := fold_left (select_entry height) entries first in
  (r = first ∨ ((r.2, r.1) ∈ entries ∧ r.2 ≤ height)) ∧ first.2 ≤ r.2 ∧
  (∀ e, e ∈ entries → e.1 ≤ height → e.1 ≤ r.2 ∨ e.1 < first.2).
Proof.
  revert first. induction entries as [|[k v] entries IH]; intros [a m] Hm Hnd; cbn [fold_left].
  { split; [by left|]. split; [done|]. intros e He. by apply not_elem_of_nil in He. }
  cbn [fmap list_fmap fst] in Hnd. apply NoDup_cons in Hnd as [Hk Hnd].
  cbn [select_entry]. destruct (Z.leb_spec k height) as [Hkh|Hkh], (Z.leb_spec m k) as [Hmk|Hmk]; cbn [andb]; cbn [snd] in *.
  - destruct (IH (v, k)) as (H1 & H2 & H3); [cbn; lia|done|]. cbv zeta. cbn [snd fst] in *.
    set (r := fold_left _ entries (v, k)) in *. split_and!; [|lia|].
    + right. destruct H1 as [-> | [H1 H1']]; [split; [by left|done]|split; [by right|done]].
    + intros e [->|He]%elem_of_cons Heh; cbn; [lia|]. destruct (H3 e He Heh); lia.
  - destruct (IH (a, m)) as (H1 & H2 & H3); [cbn; lia|done|]. cbv zeta. set (r := fold_left _ entries (a, m)) in *.
    split_and!; [|done|].
    + destruct H1 as [-> | [H1 H1']]; [by left|right; split; [by right|done]].
    + intros e [->|He]%elem_of_cons Heh; cbn; [lia|]. by apply H3.
  - destruct (IH (a, m)) as (H1 & H2 & H3); [cbn; lia|done|]. cbv zeta. set (r := fold_left _ entries (a, m)) in *.
    split_and!; [|done|].
    + destruct H1 as [-> | [H1 H1']]; [by left|right; split; [by right|done]].
    + intros e [->|He]%elem_of_cons Heh; cbn in *; [lia|]. by apply H3.
  - destruct (IH (a, m)) as (H1 & H2 & H3); [cbn; lia|done|]. cbv zeta. set (r := fold_left _ entries (a, m)) in *.
    split_and!; [|done|].
    + destruct H1 as [-> | [H1 H1']]; [by left|right; split; [by right|done]].
    + intros e [->|He]%elem_of_cons Heh; cbn in *; [lia|]. by apply H3.
Qed.

(** [validatorsAt] and [protocolVersionAt] return the entry in force. *)
Lemma entry_at_in_force {A} (first : A) (schedule : gmap Z A) (height : Z) :
  schedule !! 0 = Some first → 0 ≤ height → ∃ k, in_force schedule height k (entry_at first schedule height).
Proof.
  intros H0 Hh. unfold entry_at.
  destruct (select_fold height (map_to_list schedule) (first, 0)) as (H1 & H2 & H3); [done|apply NoDup_fst_map_to_list|].
  cbv zeta in *. set (r := fold_left _ _ _) in *. exists r.2.
  assert (∀ k', is_Some (schedule !! k') → k' ≤ height → k' ≤ r.2) as Hmax.
  { intros k' [v Hv] Hk. destruct (H3 (k', v)) as [?|?]; [by apply elem_of_map_to_list|done|done|]. cbn in *. lia. }
  destruct H1 as [-> | [H1 H1']].
  - cbn in *. split_and!; [done|lia|done|done].
  - split_and!; [by apply elem_of_map_to_list|exact H2|done|done].
Qed.

Lemma entry_at_eq {A} (first : A) (schedule : gmap Z A) (height k : Z) (v : A) :
  schedule !! 0 = Some first → 0 ≤ height → in_force schedule height k v → entry_at first schedule height = v.
Proof. intros H0 Hh Hf. destruct (entry_at_in_force first schedule height H0 Hh) as [k' Hf']. by eapply in_force_unique. Qed.

(** Two schedules that agree up to a height say the same about it. *)
Definition agree_to {A} (height : Z) (s s' : gmap Z A) : Prop := ∀ k, k ≤ height → s !! k = s' !! k.

Lemma entry_at_agree {A} (first : A) (s s' : gmap Z A) (height : Z) :
  s !! 0 = Some first → 0 ≤ height → agree_to height s s' → entry_at first s height = entry_at first s' height.
Proof.
  intros H0 Hh Ha. destruct (entry_at_in_force first s height H0 Hh) as (k & H1 & H2 & H3). symmetry.
  eapply (entry_at_eq _ _ _ k); [by rewrite <-(Ha 0)|done|]. split_and!; [by rewrite <-Ha by lia|lia|lia|].
  intros k' Hk' Hle. apply H3; [by rewrite Ha|done].
Qed.

(** [Math.max] of the keys. *)
Lemma max_key_fold {A} (entries : list (Z * A)) (acc : option Z) :
  match fold_left (λ acc e, Some match acc with Some m => Z.max m e.1 | None => e.1 end) entries acc with
  | Some m => (acc = Some m ∨ m ∈ entries.*1) ∧ (∀ k, k ∈ entries.*1 → k ≤ m) ∧ (∀ a, acc = Some a → a ≤ m)
  | None => entries = [] ∧ acc = None
  end.
Proof.
  revert acc. induction entries as [|[k v] entries IH]; intros acc; cbn [fold_left].
  { destruct acc as [m|]; [|done]. split_and!; [by left| |intros a [= ->]; lia]. intros k Hk. by apply not_elem_of_nil in Hk. }
  cbn [fst fmap list_fmap]. specialize (IH (Some match acc with Some m => Z.max m k | None => k end)). destruct (fold_left _ entries _) as [m|]; [|by destruct IH].
  destruct IH as (H1 & H2 & H3). specialize (H3 _ eq_refl). split_and!.
  - destruct H1 as [[= E]|H1]; [|right; by right]. destruct acc as [a|]; [|right; rewrite E; by left].
    destruct (Z.max_spec a k) as [[_ Hx]|[_ Hx]]; rewrite Hx in E; [right; rewrite E; by left|left; congruence].
  - intros k' [->|Hk']%elem_of_cons; [destruct acc; lia|by apply H2].
  - intros a ->. lia.
Qed.

Lemma max_key_spec {A} (schedule : gmap Z A) (k : Z) (v : A) :
  schedule !! k = Some v → ∃ m, max_key schedule = Some m ∧ is_Some (schedule !! m) ∧ ∀ k', is_Some (schedule !! k') → k' ≤ m.
Proof.
  intros Hk%elem_of_map_to_list. unfold max_key. pose proof (max_key_fold (map_to_list schedule) None) as Hm.
  destruct (fold_left _ _ None) as [m|].
  - destruct Hm as (H1 & H2 & _). exists m. split; [done|]. split.
    + destruct H1 as [[=]|H1]. apply list_elem_of_fmap in H1 as ([k' v'] & -> & H1). apply elem_of_map_to_list in H1. by eauto.
    + intros k' [v' Hk']. apply H2. apply elem_of_map_to_list in Hk'. by apply (list_elem_of_fmap_2 fst) in Hk'.
  - destruct Hm as [Hm _]. rewrite Hm in Hk. by apply not_elem_of_nil in Hk.
Qed.

(** ** The oracle controls *)

Lemma sorted_entries_facts {A} (s : gmap Z A) :
  sorted_entries s ≡ₚ map_to_list s ∧ StronglySorted (λ a b, (a.1 <=? b.1) = true) (sorted_entries s).
Proof.
  split; [apply js_sort_perm|]. apply js_sort_sorted.
  - intros a b. lia.
  - intros a b c. lia.
Qed.

Lemma sorted_unique {A} (s : gmap Z A) (l1 l2 : list (Z * A)) :
  (∀ e, e ∈ l1 → s !! e.1 = Some e.2) → (∀ e, e ∈ l2 → s !! e.1 = Some e.2) →
  StronglySorted (λ a b, (a.1 <=? b.1) = true) l1 → StronglySorted (λ a b, (a.1 <=? b.1) = true) l2 → l1 ≡ₚ l2 → l1 = l2.
Proof.
  intros H1 H2. apply StronglySorted_unique_strong. intros [k1 v1] [k2 v2] E1 E2 L1 L2. cbn in *.
  assert (k1 = k2) as -> by lia. pose proof (H1 _ E1) as A1. pose proof (H2 _ E2) as A2. cbn in *. congruence.
Qed.

Lemma filter_sorted {A} (R : A → A → Prop) (P : A → Prop) `{∀ x, Decision (P x)} (l : list A) :
  StronglySorted R l → StronglySorted R (filter P l).
Proof.
  induction 1 as [|x l Hs IH Hall]; [constructor|]. rewrite filter_cons. case_decide; [|done]. constructor; [done|].
  apply Forall_forall. intros y [_ Hy]%list_elem_of_filter. rewrite Forall_forall in Hall. by apply Hall.
Qed.

Lemma sorted_entries_agree {A} (h : Z) (s s' : gmap Z A) :
  agree_to h s s' → filter (λ e, e.1 ≤ h) (sorted_entries s) = filter (λ e, e.1 ≤ h) (sorted_entries s').
Proof.
  intros Ha. destruct (sorted_entries_facts s) as [P1 S1], (sorted_entries_facts s') as [P2 S2].
  assert (∀ e, e ∈ filter (λ e, e.1 ≤ h) (sorted_entries s) → s !! e.1 = Some e.2) as E1.
  { intros e [_ He]%list_elem_of_filter. rewrite P1 in He. by apply elem_of_map_to_list'. }
  assert (∀ e, e ∈ filter (λ e, e.1 ≤ h) (sorted_entries s') → s !! e.1 = Some e.2) as E2.
  { intros e [Hle He]%list_elem_of_filter. rewrite P2 in He. rewrite Ha by done. by apply elem_of_map_to_list'. }
  apply (sorted_unique s); [done|done|by apply filter_sorted|by apply filter_sorted|].
  rewrite P1, P2. apply NoDup_Permutation; [apply NoDup_filter, NoDup_map_to_list..|].
  intros e. rewrite !list_elem_of_filter, !elem_of_map_to_list'. split; intros [Hle He]; (split; [done|]); [by rewrite <-Ha|by rewrite Ha].
Qed.

Lemma list_eq_nil_no_elem {A} (l : list A) : (∀ x, x ∉ l) → l = [].
Proof. destruct l as [|x l]; [done|]. intros Hx. exfalso. apply (Hx x). by left. Qed.

Lemma control_loop_filter (h : Z) (l : list (Z * (ActivityOracleGovernanceAction * list string))) (acc : bool * list string) :
  StronglySorted (λ a b, (a.1 <=? b.1) = true) l → control_loop h l acc = control_loop h (filter (λ e, e.1 ≤ h) l) acc.
Proof.
  intros Hs. revert acc. induction Hs as [|[k [a ks]] l Hs IH Hall]; intros acc; [done|]. rewrite filter_cons. cbn [fst control_loop].
  destruct (Z.ltb_spec h k) as [Hk|Hk].
  - rewrite decide_False by lia. assert (filter (λ e, e.1 ≤ h) l = []) as ->; [|done].
    apply list_eq_nil_no_elem. intros e [Hle He]%list_elem_of_filter. rewrite Forall_forall in Hall. specialize (Hall e He). cbn in Hall. lia.
  - rewrite decide_True by lia. cbn [control_loop]. destruct (Z.ltb_spec h k); [lia|]. apply IH.
Qed.

(** The controls at a height depend on the entries up to it. *)
Lemma oracleSetAt_agree (genesis : GenesisConfig) (s s' : OracleSchedule) (h : Z) :
  agree_to h s s' → oracleSetAt genesis s h = oracleSetAt genesis s' h.
Proof.
  intros Ha. unfold oracleSetAt, activityOracleControlAt.
  rewrite (control_loop_filter h (sorted_entries s)), (control_loop_filter h (sorted_entries s')) by apply sorted_entries_facts.
  by rewrite (sorted_entries_agree h s s' Ha).
Qed.
