(* ===== verification/Priority.v ===== *)
(** The order in which a proposer tries pending transactions
    ([orderPendingByFeePriority], l1/src/chain.ts lines 1722-1836): a queue per
    sender in nonce order, and a binary heap of the queues keyed by their heads.

    An index that is out of range in the source reads [undefined]; here it reads
    the transaction list's end, and the theorems show it never happens. *)

From S2P Require Import Prelude Types Codec Crypto Transaction.

(** ** The keys of a queue's head *)

Definition protocolRank (tx : Transaction) : Z :=
  match tx with
  | ActivitySettlement _ => 0 | ValidatorUpdate _ => 1 | ProtocolUpgrade _ => 2 | ActivityOracleGovernance _ => 3 | _ => 4
  end.
Definition activationOf (tx : Transaction) : Z :=
  match tx with
  | ValidatorUpdate t => vu_activationHeight t
  | ProtocolUpgrade t => pu_activationHeight t
  | ActivityOracleGovernance t => og_activationHeight t
  | _ => 0
  end.
Definition isTransfer (tx : Transaction) : bool := match tx with Transfer _ => true | _ => false end.

(** [liftTarget[i]] is [None] for [-1]. *)
Record Lane := mkLane { ln_queue : list Transaction; ln_index : nat; ln_liftTarget : list (option nat) }.

Definition lane_head (lane : Lane) : option Transaction := ln_queue lane !! ln_index lane.

Section order.
Context (feePriority : bool) (isAuthorizedProtocolTx : Transaction → bool) (transactions : list Transaction).

(** [arrival.get(tx.txid) ?? 0]: the first index of the txid. *)
Definition arrivalOf (tx : Transaction) : Z :=
  if feePriority then 0
  else match list_find (λ t, tx_txid t = tx_txid tx) transactions with Some (i, _) => Z.of_nat i | None => 0 end.

Definition headKey (lane : Lane) (head : Transaction) : Z * Z * Z :=
  if negb (isTransfer head) then (0, protocolRank head, activationOf head)
  else match ln_liftTarget lane !! ln_index lane with
       | Some (Some target) =>
         match ln_queue lane !! target with
         | Some lifter => (0, protocolRank lifter, activationOf lifter)
         | None => (1, 0, 0)
         end
       | _ => (1, 0, 0)
       end.

Definition headBefore (leftLane rightLane : Lane) : bool :=
  match lane_head leftLane, lane_head rightLane with
  | Some a, Some b =>
    let '(lc, lr, la) := headKey leftLane a in
    let '(rc, rr, ra) := headKey rightLane b in
    if negb (lc =? rc) then lc <? rc
    else if negb (lr =? rr) then lr <? rr
    else if negb (la =? ra) then la <? ra
    else if feePriority && negb (tx_feeAtoms a =? tx_feeAtoms b) then tx_feeAtoms b <? tx_feeAtoms a
    else if negb feePriority && negb (arrivalOf a =? arrivalOf b) then arrivalOf a <? arrivalOf b
    else if negb (tx_timestampMs a =? tx_timestampMs b) then tx_timestampMs a <? tx_timestampMs b
    else
      let byTxid := compareCanonicalStrings (lit (tx_txid a)) (lit (tx_txid b)) in
      if negb (byTxid =? 0) then byTxid <? 0
      else compareCanonicalStrings (lit (tx_sender a)) (lit (tx_sender b)) <? 0
  | _, _ => false
  end.

(** ** The queues *)

(** [queues.get(tx.sender)?.push(tx)], or a new queue at the end of the map. *)
Fixpoint push_queue (queues : list (Address * list Transaction)) (tx : Transaction) : list (Address * list Transaction) :=
  match queues with
  | [] => [(tx_sender tx, [tx])]
  | (sender, queue) :: rest =>
    if String.eqb sender (tx_sender tx) then (sender, queue ++ [tx]) :: rest else (sender, queue) :: push_queue rest tx
  end.
Definition queues : list (Address * list Transaction) := fold_left push_queue transactions [].

(** The comparator of [queue.sort] is not positive. *)
Definition queue_le (left right : Transaction) : bool :=
  let byNonce := tx_nonce left - tx_nonce right in
  let byFee := if feePriority then tx_feeAtoms right - tx_feeAtoms left else arrivalOf left - arrivalOf right in
  let byTime := tx_timestampMs left - tx_timestampMs right in
  if negb (byNonce =? 0) then byNonce <? 0
  else if negb (byFee =? 0) then byFee <? 0
  else if negb (byTime =? 0) then byTime <? 0
  else compareCanonicalStrings (lit (tx_txid left)) (lit (tx_txid right)) <=? 0.

(** The loop from the end of the queue: the first authorized protocol
    transaction at or after each index, which is counted from [i]. *)
Fixpoint lift_targets (i : nat) (queue : list Transaction) : list (option nat) :=
  match queue with
  | [] => []
  | tx :: rest =>
    let targets := lift_targets (S i) rest in
    (if negb (isTransfer tx) && isAuthorizedProtocolTx tx then Some i else default None (head targets)) :: targets
  end.

Definition make_lane (entry : Address * list Transaction) : Lane :=
  let queue := js_sort queue_le entry.2 in
  mkLane queue 0 (lift_targets 0 queue).

(** ** The heap *)

Definition before (lanes : list Lane) (a b : nat) : bool :=
  match lanes !! a, lanes !! b with Some x, Some y => headBefore x y | _, _ => false end.

Definition swap (heap : list nat) (i j : nat) : list nat :=
  match heap !! i, heap !! j with Some a, Some b => <[j := a]> (<[i := b]> heap) | _, _ => heap end.

(** [before(heap[i], heap[j])] *)
Definition heap_before (lanes : list Lane) (heap : list nat) (i j : nat) : bool :=
  match heap !! i, heap !! j with Some a, Some b => before lanes a b | _, _ => false end.

(** [up(i)]: at most [i] steps. *)
Fixpoint up (lanes : list Lane) (fuel : nat) (heap : list nat) (i : nat) : list nat :=
  match fuel with
  | O => heap
  | S fuel' =>
    if Nat.eqb i 0 then heap
    else
      let parent := Nat.div2 (i - 1) in
      if negb (heap_before lanes heap i parent) then heap
      else up lanes fuel' (swap heap i parent) parent
  end.

(** [down(i)]: at most as many steps as the heap has entries. *)
Fixpoint down (lanes : list Lane) (fuel : nat) (heap : list nat) (i : nat) : list nat :=
  match fuel with
  | O => heap
  | S fuel' =>
    let l := (2 * i + 1)%nat in
    let r := S l in
    let best := if Nat.ltb l (length heap) && heap_before lanes heap l i then l else i in
    let best := if Nat.ltb r (length heap) && heap_before lanes heap r best then r else best in
    if Nat.eqb best i then heap else down lanes fuel' (swap heap i best) best
  end.

(** [for (lane ...) { heap.push(lane); up(heap.length - 1); }] *)
Definition build_heap (lanes : list Lane) : list nat :=
  fold_left (λ heap lane, up lanes (S (length heap)) (heap ++ [lane]) (length heap)) (seq 0 (length lanes)) [].

(** [const last = heap.pop(); if (heap.length) heap[0] = last;] *)
Definition replace_top (heap : list nat) : list nat :=
  match last heap, removelast heap with
  | Some last, _ :: tail => last :: tail
  | _, _ => []
  end.

(** One iteration of [while (heap.length)]: the lane at the top gives its head. *)
Definition merge_step (lanes : list Lane) (heap : list nat) : option (Transaction * list Lane * list nat) :=
  top ← head heap;
  lane ← lanes !! top;
  tx ← lane_head lane;
  let lane' := mkLane (ln_queue lane) (S (ln_index lane)) (ln_liftTarget lane) in
  let lanes' := <[top := lane']> lanes in
  Some (tx, lanes',
    if Nat.ltb (ln_index lane') (length (ln_queue lane')) then down lanes' (length heap) heap 0
    else down lanes' (length (replace_top heap)) (replace_top heap) 0).

Fixpoint merge_loop (fuel : nat) (lanes : list Lane) (heap : list nat) : list Transaction :=
  match fuel, heap with
  | S fuel', _ :: _ =>
    match merge_step lanes heap with
    | Some (tx, lanes', heap') => tx :: merge_loop fuel' lanes' heap'
    | None => []
    end
  | _, _ => []
  end.

Definition orderPendingByFeePriority : list Transaction :=
  let lanes := map make_lane queues in
  merge_loop (length transactions) lanes (build_heap lanes).

End order.

(** ** Heads in order of one key *)

(** The key of a head as one list of numbers: class, rank, activation, fee or
    arrival, time, then the texts, which end in [-1]. *)
Definition order_key (feePriority : bool) (transactions : list Transaction) (lane : Lane) (tx : Transaction) : list Z :=
  let '(c, r, a) := headKey lane tx in
  c :: r :: a :: (if feePriority then - tx_feeAtoms tx else arrivalOf feePriority transactions tx) :: tx_timestampMs tx ::
  lit (tx_txid tx) ++ -1 :: lit (tx_sender tx).

Lemma units_le_cons (x y : Z) (a b : list Z) :
  units_le (x :: a) (y :: b) = if negb (x =? y) then x <? y else units_le a b.
Proof.
  cbn [units_le]. destruct (Z.ltb_spec x y), (Z.ltb_spec y x), (Z.eqb_spec x y); try lia; done.
Qed.

Lemma units_lt_cons (x y : Z) (a b : list Z) :
  units_lt (x :: a) (y :: b) = if negb (x =? y) then x <? y else units_lt a b.
Proof.
  unfold units_lt. rewrite units_le_cons, (Z.eqb_sym y x). destruct (Z.eqb_spec x y); cbn [negb]; [done|].
  destruct (Z.ltb_spec y x), (Z.ltb_spec x y); try lia; done.
Qed.

(** Texts that end in a mark below every unit compare one after the other. *)
Lemma units_lt_marked (s t a b : list Z) :
  Forall (λ u, 0 ≤ u) s → Forall (λ u, 0 ≤ u) t →
  units_lt (s ++ -1 :: a) (t ++ -1 :: b) =
    let c := compareCanonicalStrings s t in if negb (c =? 0) then c <? 0 else units_lt a b.
Proof.
  intros Hs. revert t. induction Hs as [|x s Hx Hs IH]; intros t Ht; destruct Ht as [|y t Hy Ht]; cbn [app].
  - rewrite units_lt_cons. done.
  - rewrite units_lt_cons. rewrite (proj2 (Z.eqb_neq (-1) y)) by lia. cbn [negb]. rewrite (proj2 (Z.ltb_lt _ _)) by lia. done.
  - rewrite units_lt_cons. rewrite (proj2 (Z.eqb_neq x (-1))) by lia. cbn [negb]. rewrite (proj2 (Z.ltb_ge _ _)) by lia. done.
  - rewrite units_lt_cons. unfold compareCanonicalStrings. rewrite !units_lt_cons, (Z.eqb_sym y x).
    destruct (Z.eqb_spec x y); cbn [negb].
    + rewrite (IH t) by done. done.
    + destruct (Z.ltb_spec x y), (Z.ltb_spec y x); try lia; done.
Qed.

Lemma lit_nonneg (s : string) : Forall (λ u, 0 ≤ u) (lit s).
Proof. unfold lit. apply Forall_fmap, Forall_forall. intros c _. simpl. lia. Qed.

Lemma headBefore_key (feePriority : bool) (txs : list Transaction) (x y : Lane) (a b : Transaction) :
  lane_head x = Some a → lane_head y = Some b →
  headBefore feePriority txs x y = units_lt (order_key feePriority txs x a) (order_key feePriority txs y b).
Proof.
  intros Hx Hy. unfold headBefore, order_key. rewrite Hx, Hy. destruct (headKey x a) as [[lc lr] la], (headKey y b) as [[rc rr] ra].
  rewrite !units_lt_cons. destruct (lc =? rc); [|done]. cbn [negb]. destruct (lr =? rr); [|done]. cbn [negb].
  destruct (la =? ra); [|done]. cbn [negb]. rewrite units_lt_marked by apply lit_nonneg.
  assert (∀ s t : list Z, (compareCanonicalStrings s t <? 0) = units_lt s t) as Hc.
  { intros s t. unfold compareCanonicalStrings. destruct (units_lt s t) eqn:E; [done|]. by destruct (units_lt t s). }
  cbv zeta. rewrite !Hc. destruct feePriority; cbn [andb negb].
  - destruct (Z.eqb_spec (tx_feeAtoms a) (tx_feeAtoms b)) as [->|Hn]; cbn [negb].
    + by rewrite Z.eqb_refl.
    + rewrite (proj2 (Z.eqb_neq (- tx_feeAtoms a) _)) by lia. cbn [negb]. destruct (Z.ltb_spec (tx_feeAtoms b) (tx_feeAtoms a)), (Z.ltb_spec (- tx_feeAtoms a) (- tx_feeAtoms b)); lia || done.
  - destruct (arrivalOf false txs a =? arrivalOf false txs b); done.
Qed.

(** ** The heap *)

Section heap.
Context (lt : nat → nat → bool).
Hypothesis lt_asym : ∀ a b, lt a b = true → lt b a = false.
Hypothesis le_trans : ∀ a b c, lt b a = false → lt c b = false → lt c a = false.

Definition at_before (heap : list nat) (i j : nat) : bool :=
  match heap !! i, heap !! j with Some a, Some b => lt a b | _, _ => false end.

Definition parent (i : nat) : nat := Nat.div2 (i - 1).

(** No entry is before its parent. *)
Definition heap_ordered (heap : list nat) : Prop := ∀ i, (0 < i)%nat → at_before heap i (parent i) = false.

(** The same except possibly at [j], whose children are not before its parent. *)
Definition ordered_above (heap : list nat) (j : nat) : Prop :=
  (∀ i, (0 < i)%nat → i ≠ j → at_before heap i (parent i) = false) ∧
  (∀ i, (0 < i)%nat → parent i = j → (0 < j)%nat → at_before heap i (parent j) = false).

(** The same except possibly between [j] and its children. *)
Definition ordered_below (heap : list nat) (j : nat) : Prop :=
  (∀ i, (0 < i)%nat → parent i ≠ j → at_before heap i (parent i) = false) ∧
  (∀ i, (0 < i)%nat → parent i = j → (0 < j)%nat → at_before heap i (parent j) = false).

Lemma parent_lt (i : nat) : (0 < i)%nat → (parent i < i)%nat.
Proof. intros Hi. unfold parent. rewrite Nat.div2_div. apply Nat.Div0.div_lt_upper_bound. lia. Qed.

Lemma parent_children (i j : nat) : (0 < i)%nat → parent i = j ↔ i = (2 * j + 1)%nat ∨ i = (2 * j + 2)%nat.
Proof.
  intros Hi. unfold parent. rewrite Nat.div2_div. split.
  - intros <-. pose proof (Nat.div_mod_eq (i - 1) 2). pose proof (Nat.mod_upper_bound (i - 1) 2). lia.
  - intros [-> | ->].
    + replace (2 * j + 1 - 1)%nat with (j * 2)%nat by lia. by apply Nat.div_mul.
    + replace (2 * j + 2 - 1)%nat with (1 + j * 2)%nat by lia. by rewrite Nat.div_add by lia.
Qed.

Lemma swap_lookup (heap : list nat) (i j k : nat) (a b : nat) :
  heap !! i = Some a → heap !! j = Some b →
  swap heap i j !! k = if decide (k = j) then Some a else if decide (k = i) then Some b else heap !! k.
Proof.
  intros Hi Hj. unfold swap. rewrite Hi, Hj. apply lookup_lt_Some in Hi as Hli. apply lookup_lt_Some in Hj as Hlj.
  destruct (decide (k = j)) as [->|Hkj]; [by rewrite list_lookup_insert_eq by (rewrite length_insert; done)|].
  rewrite list_lookup_insert_ne by done. destruct (decide (k = i)) as [->|Hki]; [by rewrite list_lookup_insert_eq|].
  by rewrite list_lookup_insert_ne.
Qed.

Lemma swap_perm (heap : list nat) (i j : nat) : swap heap i j ≡ₚ heap.
Proof.
  unfold swap. destruct (heap !! i) as [a|] eqn:Hi; [|done]. destruct (heap !! j) as [b|] eqn:Hj; [|done].
  by apply Permutation_insert_swap.
Qed.

Lemma at_before_in (heap : list nat) (i j : nat) :
  at_before heap i j = true → ∃ a b, heap !! i = Some a ∧ heap !! j = Some b ∧ lt a b = true.
Proof. unfold at_before. destruct (heap !! i), (heap !! j); naive_solver. Qed.

Lemma at_before_swap (heap : list nat) (i j a b x y : nat) :
  heap !! i = Some a → heap !! j = Some b →
  at_before (swap heap i j) x y =
    match (if decide (x = j) then Some a else if decide (x = i) then Some b else heap !! x),
          (if decide (y = j) then Some a else if decide (y = i) then Some b else heap !! y) with
    | Some c, Some d => lt c d | _, _ => false end.
Proof. intros Hi Hj. unfold at_before. by rewrite !(swap_lookup heap i j _ a b). Qed.

(** The loop of [up], with the order as a parameter. *)
Fixpoint sift_up (fuel : nat) (heap : list nat) (i : nat) : list nat :=
  match fuel with
  | O => heap
  | S fuel' =>
    if Nat.eqb i 0 then heap
    else if negb (at_before heap i (parent i)) then heap
    else sift_up fuel' (swap heap i (parent i)) (parent i)
  end.

Lemma sift_up_ordered (fuel : nat) (heap : list nat) (i : nat) :
  (i < fuel)%nat → ordered_above heap i → heap_ordered (sift_up fuel heap i) ∧ sift_up fuel heap i ≡ₚ heap.
Proof.
  revert heap i. induction fuel as [|fuel IH]; intros heap i Hf [Ho Hg]; [lia|]. cbn [sift_up].
  destruct (Nat.eqb_spec i 0) as [->|Hi].
  { split; [|done]. intros k Hk. apply Ho; lia. }
  destruct (at_before heap i (parent i)) eqn:E; cbn [negb].
  2: { split; [|done]. intros k Hk. destruct (decide (k = i)) as [->|]; [done|by apply Ho]. }
  pose proof (parent_lt i ltac:(lia)) as Hp.
  destruct (at_before_in _ _ _ E) as (a & b & Ha & Hb & Hab).
  assert (ordered_above (swap heap i (parent i)) (parent i)) as Hw.
  { pose proof (λ x y, at_before_swap heap i (parent i) a b x y Ha Hb) as Hsw.
    split.
    - intros k Hk Hkp. rewrite Hsw. rewrite (decide_False (P := k = parent i)) by done.
      destruct (decide (k = i)) as [->|Hki].
      + rewrite decide_True by done. by apply lt_asym.
      + destruct (decide (parent k = parent i)) as [Hpk|Hpk].
        * (* a sibling of i, or i: was not before b, and a is before b *)
          specialize (Ho k Hk Hki). unfold at_before in Ho. rewrite Hpk, Hb in Ho. destruct (heap !! k) as [c|]; [|done].
          apply (le_trans a b c); [by apply lt_asym|done].
        * destruct (decide (parent k = i)) as [Hki'|Hki'].
          -- specialize (Hg k Hk Hki' ltac:(lia)). unfold at_before in Hg. rewrite Hb in Hg. done.
          -- by apply Ho.
    - intros k Hk Hkp Hpos. rewrite Hsw.
      rewrite (decide_False (P := k = parent i)) by (intros ->; pose proof (parent_lt (parent i) Hk); lia).
      assert (at_before heap (parent i) (parent (parent i)) = false) as Hpp by (apply Ho; lia).
      unfold at_before in Hpp. rewrite Hb in Hpp. pose proof (parent_lt (parent i) Hpos).
      rewrite (decide_False (P := parent (parent i) = parent i)), (decide_False (P := parent (parent i) = i)) by lia.
      destruct (decide (k = i)) as [->|Hki]; [done|].
      specialize (Ho k Hk Hki). unfold at_before in Ho. rewrite Hkp, Hb in Ho.
      destruct (heap !! k) as [c|], (heap !! parent (parent i)) as [d|]; try done. by apply (le_trans d b c). }
  destruct (IH (swap heap i (parent i)) (parent i) ltac:(lia) Hw) as [IH1 IH2]. split; [done|].
  by rewrite IH2, swap_perm.
Qed.

(** The loop of [down]. *)
Definition best_child (heap : list nat) (i : nat) : nat :=
  let l := (2 * i + 1)%nat in
  let r := S l in
  let best := if Nat.ltb l (length heap) && at_before heap l i then l else i in
  if Nat.ltb r (length heap) && at_before heap r best then r else best.
Fixpoint sift_down (fuel : nat) (heap : list nat) (i : nat) : list nat :=
  match fuel with
  | O => heap
  | S fuel' => if Nat.eqb (best_child heap i) i then heap else sift_down fuel' (swap heap i (best_child heap i)) (best_child heap i)
  end.

(** The chosen child is before the parent, and the other child is not before it. *)
Lemma best_child_spec (heap : list nat) (i : nat) :
  (best_child heap i = i ∧ ∀ k, (0 < k)%nat → parent k = i → at_before heap k i = false) ∨
  (parent (best_child heap i) = i ∧ (i < best_child heap i)%nat ∧ at_before heap (best_child heap i) i = true ∧
    ∀ k, (0 < k)%nat → parent k = i → k ≠ best_child heap i → at_before heap k (best_child heap i) = false).
Proof.
  assert (∀ k j, Nat.ltb k (length heap) && at_before heap k j = at_before heap k j) as Hlen.
  { intros k j. destruct (Nat.ltb_spec k (length heap)) as [Hk|Hk]; [done|]. unfold at_before. by rewrite (lookup_ge_None_2 heap k). }
  unfold best_child. rewrite !Hlen. set (l := (2 * i + 1)%nat).
  assert (parent l = i) as Hl by (apply parent_children; lia). assert (parent (S l) = i) as Hr by (apply parent_children; lia).
  assert (∀ k, (0 < k)%nat → parent k = i → k = l ∨ k = S l) as Hch by (intros k Hk Hp; apply parent_children in Hp; lia).
  destruct (at_before heap l i) eqn:E1; [destruct (at_before heap (S l) l) eqn:E2|destruct (at_before heap (S l) i) eqn:E2].
  - right. split; [done|]. split; [lia|]. split.
    + destruct (at_before_in _ _ _ E1) as (a & b & Ha & Hb & Hab). destruct (at_before_in _ _ _ E2) as (c & d & Hc & Hd & Hcd).
      assert (d = a) as -> by congruence. unfold at_before. rewrite Hc, Hb.
      destruct (lt c b) eqn:E; [done|]. by rewrite (le_trans b c a E (lt_asym _ _ Hcd)) in Hab.
    + intros k Hk Hp Hne. destruct (Hch k Hk Hp) as [-> | ->]; [|done].
      destruct (at_before_in _ _ _ E2) as (c & d & Hc & Hd & Hcd). unfold at_before. rewrite Hd, Hc. by apply lt_asym.
  - right. split; [done|]. split; [lia|]. split; [done|]. intros k Hk Hp Hne. by destruct (Hch k Hk Hp) as [-> | ->].
  - right. split; [done|]. split; [lia|]. split; [done|]. intros k Hk Hp Hne. destruct (Hch k Hk Hp) as [-> | ->]; [|done].
    destruct (at_before_in _ _ _ E2) as (c & b & Hc & Hb & Hcb). unfold at_before in *. rewrite Hc, Hb in *.
    destruct (heap !! l) as [d|]; [|done]. apply (le_trans c b d); [by apply lt_asym|done].
  - left. split; [done|]. intros k Hk Hp. by destruct (Hch k Hk Hp) as [-> | ->].
Qed.

Lemma sift_down_ordered (fuel : nat) (heap : list nat) (i : nat) :
  (length heap ≤ fuel + i)%nat → ordered_below heap i → heap_ordered (sift_down fuel heap i) ∧ sift_down fuel heap i ≡ₚ heap.
Proof.
  revert heap i. induction fuel as [|fuel IH]; intros heap i Hf [Ho Hg]; cbn [sift_down].
  { split; [|done]. intros k Hk. destruct (decide (parent k = i)) as [Hp|Hp]; [|by apply Ho].
    unfold at_before. pose proof (parent_lt k Hk). by rewrite (lookup_ge_None_2 heap k) by lia. }
  destruct (best_child_spec heap i) as [[-> Hch]|(Hp & Hlt & Hb & Hch)].
  { rewrite Nat.eqb_refl. split; [|done]. intros k Hk. destruct (decide (parent k = i)) as [Hpk|Hpk]; [rewrite Hpk; auto|by apply Ho]. }
  set (best := best_child heap i) in *. rewrite (proj2 (Nat.eqb_neq best i)) by lia.
  destruct (at_before_in _ _ _ Hb) as (c & b & Hc & Hbi & Hcb).
  assert (ordered_below (swap heap i best) best) as Hw.
  { pose proof (λ x y, at_before_swap heap i best b c x y Hbi Hc) as Hsw. split.
    - intros k Hk Hkp. rewrite Hsw. rewrite (decide_False (P := parent k = best)) by done.
      destruct (decide (k = best)) as [->|Hkb].
      + rewrite (decide_True (P := parent best = i)) by done. by apply lt_asym.
      + destruct (decide (parent k = i)) as [Hpk|Hpk].
        * rewrite (decide_False (P := k = i)) by (intros ->; pose proof (parent_lt i Hk); lia).
          specialize (Hch k Hk Hpk Hkb). unfold at_before in Hch. rewrite Hc in Hch. done.
        * destruct (decide (k = i)) as [->|Hki].
          -- specialize (Hg best ltac:(lia) Hp Hk). unfold at_before in Hg. rewrite Hc in Hg. done.
          -- by apply Ho.
    - intros k Hk Hkp _. rewrite Hsw, Hp. rewrite (decide_False (P := i = best)), (decide_True (P := i = i)) by lia.
      pose proof (parent_lt k Hk). rewrite (decide_False (P := k = best)), (decide_False (P := k = i)) by lia.
      specialize (Ho k Hk ltac:(lia)). unfold at_before in Ho. rewrite Hkp, Hc in Ho. done. }
  destruct (IH (swap heap i best) best) as [IH1 IH2]; [rewrite swap_perm; lia|done|].
  split; [done|]. by rewrite IH2, swap_perm.
Qed.

Lemma heap_root_first (heap : list nat) (i a b : nat) :
  heap_ordered heap → heap !! 0%nat = Some a → heap !! i = Some b → lt b a = false.
Proof.
  intros Ho Ha. revert b. induction (lt_wf i) as [i _ IH]. intros b Hb. destruct (decide (i = 0%nat)) as [->|Hi].
  - assert (b = a) as -> by congruence. destruct (lt a a) eqn:E; [|done]. by rewrite (lt_asym a a E) in E.
  - pose proof (parent_lt i ltac:(lia)) as Hp. apply lookup_lt_Some in Hb as Hl.
    destruct (lookup_lt_is_Some_2 heap (parent i)) as [c Hc]; [lia|].
    specialize (Ho i ltac:(lia)). unfold at_before in Ho. rewrite Hb, Hc in Ho. by apply (le_trans a c b); [apply (IH (parent i))|].
Qed.

(** Pushing an entry, replacing the first one, and dropping the last. *)
Lemma push_ordered (heap : list nat) (x : nat) : heap_ordered heap → ordered_above (heap ++ [x]) (length heap).
Proof.
  intros Ho. assert (∀ i j, (i ≠ length heap)%nat → (j < i)%nat → at_before (heap ++ [x]) i j = at_before heap i j) as Heq.
  { intros i j Hi Hj. unfold at_before. destruct (decide (i < length heap)%nat) as [Hl|Hl].
    - by rewrite !lookup_app_l by lia.
    - rewrite (lookup_ge_None_2 (heap ++ [x]) i) by (rewrite length_app; simpl; lia). by rewrite (lookup_ge_None_2 heap i) by lia. }
  split.
  - intros i Hi Hne. rewrite Heq; [by apply Ho|done|by apply parent_lt].
  - intros i Hi Hp Hpos. pose proof (parent_lt i Hi). unfold at_before.
    by rewrite (lookup_ge_None_2 (heap ++ [x]) i) by (rewrite length_app; simpl; lia).
Qed.

End heap.

(** ** The merge *)

Section merge.
Context (feePriority : bool) (transactions : list Transaction).

(** The head's key of lane [a]; a lane is live while its queue has a head. *)
Definition key_at (lanes : list Lane) (a : nat) : option (list Z) :=
  lane ← lanes !! a;
  tx ← lane_head lane;
  Some (order_key feePriority transactions lane tx).
Definition live (lanes : list Lane) (a : nat) : Prop := is_Some (key_at lanes a).

(** The order of heads, total on all numbers. *)
Definition head_lt (lanes : list Lane) (a b : nat) : bool :=
  units_lt (default [] (key_at lanes a)) (default [] (key_at lanes b)).

Lemma head_lt_asym (lanes : list Lane) (a b : nat) : head_lt lanes a b = true → head_lt lanes b a = false.
Proof. unfold head_lt, units_lt. intros Hl. apply negb_true_iff in Hl. apply negb_false_iff. by apply units_le_total. Qed.

Lemma head_le_trans (lanes : list Lane) (a b c : nat) :
  head_lt lanes b a = false → head_lt lanes c b = false → head_lt lanes c a = false.
Proof. unfold head_lt, units_lt. rewrite !negb_false_iff. intros Hab Hbc. by apply (units_le_trans _ _ _ Hab). Qed.

Lemma before_head_lt (lanes : list Lane) (a b : nat) :
  live lanes a → live lanes b → before feePriority transactions lanes a b = head_lt lanes a b.
Proof.
  unfold live, key_at, head_lt, before, key_at. intros [x Ha] [y Hb].
  destruct (lanes !! a) as [la|]; [|done]. destruct (lanes !! b) as [lb|]; [|done]. cbn [mbind option_bind] in *.
  destruct (lane_head la) as [ta|] eqn:Ea; [|done]. destruct (lane_head lb) as [tb|] eqn:Eb; [|done].
  by apply headBefore_key.
Qed.

Lemma heap_before_live (lanes : list Lane) (heap : list nat) (i j : nat) :
  Forall (live lanes) heap → heap_before feePriority transactions lanes heap i j = at_before (head_lt lanes) heap i j.
Proof.
  intros Hl. unfold heap_before, at_before. destruct (heap !! i) as [a|] eqn:Ha; [|done]. destruct (heap !! j) as [b|] eqn:Hb; [|done].
  rewrite Forall_lookup in Hl. apply before_head_lt; eauto.
Qed.

Lemma swap_live (lanes : list Lane) (heap : list nat) (i j : nat) : Forall (live lanes) heap → Forall (live lanes) (swap heap i j).
Proof. by rewrite swap_perm. Qed.

Lemma up_sift (lanes : list Lane) (fuel : nat) (heap : list nat) (i : nat) :
  Forall (live lanes) heap → up feePriority transactions lanes fuel heap i = sift_up (head_lt lanes) fuel heap i.
Proof.
  revert heap i. induction fuel as [|fuel IH]; intros heap i Hl; [done|]. cbn [up sift_up]. fold (parent i).
  rewrite heap_before_live by done. destruct (Nat.eqb i 0); [done|]. destruct (negb _); [done|]. by apply IH, swap_live.
Qed.

Lemma down_sift (lanes : list Lane) (fuel : nat) (heap : list nat) (i : nat) :
  Forall (live lanes) heap → down feePriority transactions lanes fuel heap i = sift_down (head_lt lanes) fuel heap i.
Proof.
  revert heap i. induction fuel as [|fuel IH]; intros heap i Hl; [done|]. cbn [down sift_down]. cbv zeta.
  rewrite !heap_before_live by done. fold (best_child (head_lt lanes) heap i). destruct (Nat.eqb _ i); [done|]. by apply IH, swap_live.
Qed.

(** The heap holds exactly the live lanes, in order. *)
Record heap_inv (lanes : list Lane) (heap : list nat) : Prop := {
  hi_nodup : NoDup heap;
  hi_live : ∀ a, a ∈ heap ↔ live lanes a;
  hi_ordered : heap_ordered (head_lt lanes) heap }.

Lemma heap_inv_Forall (lanes : list Lane) (heap : list nat) : heap_inv lanes heap → Forall (live lanes) heap.
Proof. intros Hi. apply Forall_forall. intros a. apply Hi. Qed.

(** Restoring the order from the root. *)
Lemma down_inv (lanes lanes' : list Lane) (heap heap' : list nat) :
  heap_ordered (head_lt lanes) heap → Forall (live lanes') heap' → NoDup heap' → (∀ a, live lanes' a → a ∈ heap') →
  (∀ i, (0 < i < length heap')%nat → heap' !! i = heap !! i) →
  (∀ i a, (0 < i)%nat → heap' !! i = Some a → key_at lanes' a = key_at lanes a) →
  heap_inv lanes' (down feePriority transactions lanes' (length heap') heap' 0).
Proof.
  intros Ho Hl Hnd Hall Heq Hkey. rewrite down_sift by done.
  assert (ordered_below (head_lt lanes') heap' 0) as Hb.
  { split; [|lia]. intros i Hi Hp. specialize (Ho i Hi). pose proof (parent_lt i Hi).
    unfold at_before in *. destruct (heap' !! i) as [a|] eqn:Ea; [|done]. apply lookup_lt_Some in Ea as Hlen.
    destruct (heap' !! parent i) as [b|] eqn:Eb; [|done]. rewrite <-Heq, Ea in Ho by lia. rewrite <-Heq, Eb in Ho by lia.
    unfold head_lt in *. rewrite (Hkey i a), (Hkey (parent i) b) by (done || lia). done. }
  destruct (sift_down_ordered (head_lt lanes') (head_lt_asym lanes') (head_le_trans lanes') (length heap') heap' 0 ltac:(lia) Hb) as [Hs Hp].
  split; [by rewrite Hp| |done]. intros a. rewrite Hp. split; [|apply Hall]. rewrite Forall_forall in Hl. apply Hl.
Qed.

Lemma build_heap_inv (lanes : list Lane) :
  (∀ a, (a < length lanes)%nat → live lanes a) → heap_inv lanes (build_heap feePriority transactions lanes).
Proof.
  intros Hl. unfold build_heap.
  assert (∀ n, (n ≤ length lanes)%nat →
    let h := fold_left (λ heap lane, up feePriority transactions lanes (S (length heap)) (heap ++ [lane]) (length heap)) (seq 0 n) [] in
    h ≡ₚ seq 0 n ∧ heap_ordered (head_lt lanes) h) as Hn.
  { induction n as [|n IH]; intros Hle; cbv zeta; [split; [done|by intros i _]|].
    destruct (IH ltac:(lia)) as [IH1 IH2]. rewrite seq_S, fold_left_app. cbn [fold_left plus].
    set (h := fold_left _ (seq 0 n) []) in *.
    assert (Forall (live lanes) (h ++ [n])) as Hall.
    { apply Forall_app. split; [|constructor; [apply Hl; lia|constructor]]. rewrite IH1. apply Forall_forall.
      intros a Ha. apply elem_of_seq in Ha. apply Hl. lia. }
    rewrite up_sift by done.
    destruct (sift_up_ordered (head_lt lanes) (head_lt_asym lanes) (head_le_trans lanes) (S (length h)) (h ++ [n]) (length h) ltac:(lia)
      (push_ordered (head_lt lanes) h n IH2)) as [Hs Hp]. split; [|done]. by rewrite Hp, IH1. }
  destruct (Hn (length lanes) ltac:(lia)) as [Hp Ho]. split; [rewrite Hp; apply NoDup_seq| |done].
  intros a. rewrite Hp, elem_of_seq. split; [intros Ha; apply Hl; lia|]. intros [k Hk]. unfold key_at in Hk.
  apply bind_Some in Hk as (lane & Ha & _). apply lookup_lt_Some in Ha. lia.
Qed.

(** The lane with its head taken. *)
Definition advance (lanes : list Lane) (a : nat) : list Lane :=
  match lanes !! a with
  | Some lane => <[a := mkLane (ln_queue lane) (S (ln_index lane)) (ln_liftTarget lane)]> lanes
  | None => lanes
  end.

Lemma key_at_advance (lanes : list Lane) (a b : nat) : a ≠ b → key_at (advance lanes a) b = key_at lanes b.
Proof. intros Hn. unfold advance, key_at. destruct (lanes !! a); [|done]. by rewrite list_lookup_insert_ne. Qed.

Section step.
Context (lanes : list Lane) (top : nat) (tail : list nat) (lane : Lane).
Hypothesis Hi : heap_inv lanes (top :: tail).
Hypothesis Hlane : lanes !! top = Some lane.

Lemma advance_lookup : advance lanes top !! top = Some (mkLane (ln_queue lane) (S (ln_index lane)) (ln_liftTarget lane)).
Proof. unfold advance. rewrite Hlane. apply list_lookup_insert_eq. by eapply lookup_lt_Some. Qed.

Lemma advance_tail : top ∉ tail ∧ NoDup tail ∧ Forall (live (advance lanes top)) tail ∧
  ∀ a, live (advance lanes top) a → a ≠ top → a ∈ tail.
Proof.
  pose proof (hi_nodup _ _ Hi) as Hnd. apply NoDup_cons in Hnd as [Htop Hndt]. split; [done|]. split; [done|]. split.
  - apply Forall_forall. intros a Hat. unfold live. rewrite key_at_advance by (intros ->; done). apply (hi_live _ _ Hi). by right.
  - intros a Hl Hat. unfold live in Hl. rewrite key_at_advance in Hl by done. apply (hi_live _ _ Hi) in Hl.
    by apply elem_of_cons in Hl as [?|?].
Qed.

Lemma advance_live : live (advance lanes top) top ↔ (S (ln_index lane) < length (ln_queue lane))%nat.
Proof.
  unfold live, key_at. rewrite advance_lookup. cbn [mbind option_bind]. unfold lane_head. cbn [ln_queue ln_index].
  rewrite <-lookup_lt_is_Some. destruct (ln_queue lane !! S (ln_index lane)); cbn; split; intros Hs; eauto; by destruct Hs.
Qed.

Lemma tail_keys (i a : nat) : (0 < i)%nat → (top :: tail) !! i = Some a → key_at (advance lanes top) a = key_at lanes a.
Proof.
  intros Hpos Hlk. destruct advance_tail as (Htop & _). apply key_at_advance. intros ->. destruct i; [lia|].
  apply Htop. by eapply list_elem_of_lookup_2.
Qed.

Lemma step_more : (S (ln_index lane) < length (ln_queue lane))%nat →
  heap_inv (advance lanes top) (down feePriority transactions (advance lanes top) (length (top :: tail)) (top :: tail) 0).
Proof.
  intros Hlt. destruct advance_tail as (Htop & Hnd & Htl & Hin).
  apply (down_inv lanes (advance lanes top) (top :: tail) (top :: tail)).
  - apply Hi.
  - constructor; [by apply advance_live|done].
  - by constructor.
  - intros a Hl. destruct (decide (a = top)) as [->|]; [by left|right; auto].
  - done.
  - apply tail_keys.
Qed.

Lemma replace_top_tail : replace_top (top :: tail) ≡ₚ tail ∧
  ∀ i, (0 < i < length (replace_top (top :: tail)))%nat → replace_top (top :: tail) !! i = (top :: tail) !! i.
Proof.
  clear Hi. destruct tail as [|x tail0 _] using rev_ind; [split; [done|intros i; cbn; lia]|]. unfold replace_top. rewrite app_comm_cons, last_snoc, removelast_last. split.
  - by rewrite Permutation_cons_append.
  - intros [|i] Hl; [lia|]. simpl in Hl |- *. by rewrite lookup_app_l by lia.
Qed.

Lemma step_last : (length (ln_queue lane) ≤ S (ln_index lane))%nat →
  heap_inv (advance lanes top)
    (down feePriority transactions (advance lanes top) (length (replace_top (top :: tail))) (replace_top (top :: tail)) 0).
Proof.
  intros Hge. destruct advance_tail as (Htop & Hnd & Htl & Hin). destruct replace_top_tail as [Hp Hlk].
  apply (down_inv lanes (advance lanes top) (top :: tail)).
  - apply Hi.
  - by rewrite Hp.
  - by rewrite Hp.
  - intros a Hl. rewrite Hp. apply Hin; [done|]. intros ->. apply advance_live in Hl. lia.
  - done.
  - intros i a Hpos Hl. apply lookup_lt_Some in Hl as Hlen. rewrite Hlk in Hl by lia. by apply (tail_keys i).
Qed.

End step.

Lemma merge_step_inv (lanes : list Lane) (top : nat) (tail : list nat) :
  heap_inv lanes (top :: tail) →
  ∃ lane tx heap', lanes !! top = Some lane ∧ lane_head lane = Some tx ∧
    merge_step feePriority transactions lanes (top :: tail) = Some (tx, advance lanes top, heap') ∧
    heap_inv (advance lanes top) heap' ∧ ∀ b, live lanes b → head_lt lanes b top = false.
Proof.
  intros Hi. assert (live lanes top) as [k Hk] by (apply Hi; left). unfold key_at in Hk.
  apply bind_Some in Hk as (lane & Hlane & Hk). apply bind_Some in Hk as (tx & Htx & _).
  exists lane, tx. eexists. split; [done|]. split; [done|]. split.
  { unfold merge_step, advance. cbn [head]. cbn [mbind option_bind]. rewrite Hlane. cbn [mbind option_bind]. rewrite Htx. reflexivity. }
  split.
  - pose proof (step_more lanes top tail lane Hi Hlane) as H1. pose proof (step_last lanes top tail lane Hi Hlane) as H2.
    unfold advance in *. rewrite Hlane in *. cbn [ln_index ln_queue].
    destruct (Nat.ltb_spec (S (ln_index lane)) (length (ln_queue lane))); auto.
  - intros b Hb. apply (hi_live _ _ Hi) in Hb. apply list_elem_of_lookup in Hb as [i Hb].
    apply (heap_root_first (head_lt lanes) (head_lt_asym lanes) (head_le_trans lanes) (top :: tail) i top b); [apply Hi|done|done].
Qed.

(** ** The reference: take the best head, again and again *)

Definition better (lanes : list Lane) (best : option nat) (a : nat) : option nat :=
  match key_at lanes a, best with
  | None, _ => best
  | Some _, None => Some a
  | Some _, Some b => if head_lt lanes a b then Some a else Some b
  end.
Definition best_lane (lanes : list Lane) : option nat := fold_left (better lanes) (seq 0 (length lanes)) None.

Fixpoint greedy (fuel : nat) (lanes : list Lane) : list Transaction :=
  match fuel with
  | O => []
  | S fuel' =>
    match best_lane lanes with
    | Some a =>
      match lanes !! a ≫= lane_head with
      | Some tx => tx :: greedy fuel' (advance lanes a)
      | None => []
      end
    | None => []
    end
  end.

Lemma best_lane_spec (lanes : list Lane) :
  match best_lane lanes with
  | Some a => live lanes a ∧ ∀ b, live lanes b → head_lt lanes b a = false
  | None => ∀ b, ¬ live lanes b
  end.
Proof.
  assert (∀ n, (n ≤ length lanes)%nat →
    match fold_left (better lanes) (seq 0 n) None with
    | Some a => live lanes a ∧ ∀ b, (b < n)%nat → live lanes b → head_lt lanes b a = false
    | None => ∀ b, (b < n)%nat → ¬ live lanes b
    end) as Hn.
  { induction n as [|n IH]; intros Hle; [cbn; lia|]. specialize (IH ltac:(lia)). rewrite seq_S, fold_left_app. cbn [fold_left plus].
    set (best := fold_left _ (seq 0 n) None) in *. unfold better.
    destruct (key_at lanes n) as [k|] eqn:Ek; destruct best as [a|].
    - destruct IH as [Ha Hb]. destruct (head_lt lanes n a) eqn:E.
      + split; [by exists k|]. intros b Hbn Hl. destruct (decide (b = n)) as [->|].
        * destruct (head_lt lanes n n) eqn:E'; [by rewrite (head_lt_asym _ _ _ E') in E'|done].
        * apply (head_le_trans lanes n a b); [by apply head_lt_asym|apply Hb; [lia|done]].
      + split; [done|]. intros b Hbn Hl. destruct (decide (b = n)) as [->|]; [done|apply Hb; [lia|done]].
    - split; [by exists k|]. intros b Hbn Hl. destruct (decide (b = n)) as [->|]; [|by destruct (IH b ltac:(lia))].
      destruct (head_lt lanes n n) eqn:E'; [by rewrite (head_lt_asym _ _ _ E') in E'|done].
    - destruct IH as [Ha Hb]. split; [done|]. intros b Hbn Hl. destruct (decide (b = n)) as [->|]; [|apply Hb; [lia|done]].
      destruct Hl as [? Hl]. congruence.
    - intros b Hbn Hl. destruct (decide (b = n)) as [->|]; [destruct Hl; congruence|by destruct (IH b ltac:(lia))]. }
  assert (∀ b, live lanes b → (b < length lanes)%nat) as Hlt.
  { intros b [k Hk]. unfold key_at in Hk. apply bind_Some in Hk as (lane & Hl & _). by eapply lookup_lt_Some. }
  specialize (Hn (length lanes) ltac:(lia)). unfold best_lane. destruct (fold_left _ _ _) as [a|].
  - destruct Hn as [Ha Hb]. split; [done|]. auto.
  - intros b Hb. by destruct (Hn b (Hlt b Hb)).
Qed.

(** ** Senders *)

(** Lane [a] holds transactions of the [a]-th sender only, and no sender has two
    lanes. *)
Record lanes_of (senders : list Address) (lanes : list Lane) : Prop := {
  lo_nodup : NoDup senders;
  lo_length : length senders = length lanes;
  lo_sender : ∀ a lane s, lanes !! a = Some lane → senders !! a = Some s → Forall (λ t, tx_sender t = s) (ln_queue lane) }.

Lemma lanes_of_advance (senders : list Address) (lanes : list Lane) (a : nat) : lanes_of senders lanes → lanes_of senders (advance lanes a).
Proof.
  intros [Hn Hl Hs]. unfold advance. destruct (lanes !! a) as [lane|] eqn:Ea; [|done]. split; [done|by rewrite length_insert|].
  intros b lane' s Hb Hsb. apply list_lookup_insert_Some in Hb as [(-> & <- & _)|[_ Hb]]; eauto.
  cbn [ln_queue]. eauto.
Qed.

Lemma mark_split (s t a b : list Z) :
  Forall (λ u, 0 ≤ u) s → Forall (λ u, 0 ≤ u) t → s ++ -1 :: a = t ++ -1 :: b → a = b.
Proof.
  intros Hs. revert t. induction Hs as [|x s Hx Hs IH]; intros t Ht; destruct Ht as [|y t Hy Ht]; cbn [app]; intros Heq.
  - by injection Heq.
  - injection Heq as <- _. lia.
  - injection Heq as -> _. lia.
  - injection Heq as _ Heq. by apply (IH t).
Qed.

(** Two live lanes that are not before each other are one lane. *)
Lemma live_total (senders : list Address) (lanes : list Lane) (a b : nat) :
  lanes_of senders lanes → live lanes a → live lanes b → head_lt lanes a b = false → head_lt lanes b a = false → a = b.
Proof.
  intros Ho [k Hk] [k' Hk'] Hab Hba. unfold head_lt, units_lt in Hab, Hba. rewrite Hk, Hk' in Hab, Hba. cbn [default] in Hab, Hba.
  apply negb_false_iff in Hab, Hba. assert (k = k') as <- by (by apply units_le_antisym).
  unfold key_at in Hk, Hk'. apply bind_Some in Hk as (la & Hla & Hk). apply bind_Some in Hk as (ta & Hta & Hk).
  apply bind_Some in Hk' as (lb & Hlb & Hk'). apply bind_Some in Hk' as (tb & Htb & Hk').
  assert (tx_sender ta = tx_sender tb) as Heq.
  { revert Hk Hk'. unfold order_key. destruct (headKey la ta) as [[??]?], (headKey lb tb) as [[??]?]. intros [= <-] [= _ _ _ _ _ Hl].
    apply mark_split in Hl; [|apply lit_nonneg|apply lit_nonneg]. symmetry. by apply lit_inj. }
  apply lookup_lt_Some in Hla as Hna. apply lookup_lt_Some in Hlb as Hnb.
  destruct (lookup_lt_is_Some_2 senders a) as [sa Hsa]; [rewrite (lo_length _ _ Ho); lia|].
  destruct (lookup_lt_is_Some_2 senders b) as [sb Hsb]; [rewrite (lo_length _ _ Ho); lia|].
  assert (tx_sender ta = sa) as Ea by (pose proof (lo_sender _ _ Ho a la sa Hla Hsa) as Hf; rewrite Forall_lookup in Hf; by eapply Hf).
  assert (tx_sender tb = sb) as Eb by (pose proof (lo_sender _ _ Ho b lb sb Hlb Hsb) as Hf; rewrite Forall_lookup in Hf; by eapply Hf).
  eapply NoDup_lookup; [apply (lo_nodup _ _ Ho)|exact Hsa|congruence].
Qed.

(** What is left in the lanes. *)
Definition remaining (lanes : list Lane) : nat := sum_list_with (λ l, (length (ln_queue l) - ln_index l)%nat) lanes.

Lemma remaining_advance (lanes : list Lane) (a : nat) (lane : Lane) (tx : Transaction) :
  lanes !! a = Some lane → lane_head lane = Some tx → remaining lanes = S (remaining (advance lanes a)).
Proof.
  intros Ha Htx. unfold advance. rewrite Ha. apply lookup_lt_Some in Htx as Hl. unfold remaining.
  rewrite insert_take_drop by (by eapply lookup_lt_Some). rewrite <-(take_drop_middle lanes a lane Ha) at 1.
  rewrite !sum_list_with_app. cbn [sum_list_with ln_queue ln_index]. lia.
Qed.

Lemma not_live_done (lanes : list Lane) (a : nat) (lane : Lane) :
  lanes !! a = Some lane → ¬ live lanes a → drop (ln_index lane) (ln_queue lane) = [].
Proof.
  intros Ha Hn. apply drop_ge. destruct (le_lt_dec (length (ln_queue lane)) (ln_index lane)) as [|Hl]; [done|].
  destruct Hn. unfold live, key_at, lane_head. rewrite Ha. cbn [mbind option_bind].
  destruct (lookup_lt_is_Some_2 _ _ Hl) as [tx ->]. by eexists.
Qed.

Lemma merge_loop_spec (senders : list Address) (fuel : nat) (lanes : list Lane) (heap : list nat) :
  lanes_of senders lanes → heap_inv lanes heap → (remaining lanes ≤ fuel)%nat →
  let out := merge_loop feePriority transactions fuel lanes heap in
  out = greedy fuel lanes ∧ Forall (λ t, tx_sender t ∈ senders) out ∧
  ∀ a lane s, lanes !! a = Some lane → senders !! a = Some s → filter (λ t, tx_sender t = s) out = drop (ln_index lane) (ln_queue lane).
Proof.
  revert lanes heap. induction fuel as [|fuel IH]; intros lanes heap Ho Hi Hf; cbv zeta; cbn [merge_loop greedy].
  - split; [done|]. split; [constructor|]. intros a lane s Ha Hs. symmetry. apply (not_live_done lanes a lane Ha).
    intros [k Hk]. unfold key_at in Hk. apply bind_Some in Hk as (lane' & Hl & Hk). apply bind_Some in Hk as (tx & Htx & _).
    rewrite (remaining_advance lanes a lane' tx Hl Htx) in Hf. lia.
  - pose proof (best_lane_spec lanes) as Hbest. destruct heap as [|top tail].
    + assert (∀ b, ¬ live lanes b) as Hdead by (intros b Hb; apply (hi_live _ _ Hi) in Hb; by apply not_elem_of_nil in Hb).
      destruct (best_lane lanes) as [a|]; [by destruct (Hdead a), Hbest|]. split; [done|]. split; [constructor|].
      intros a lane s Ha Hs. symmetry. by apply (not_live_done lanes a lane Ha).
    + destruct (merge_step_inv lanes top tail Hi) as (lane & tx & heap' & Hlane & Htx & -> & Hi' & Hfirst).
      assert (live lanes top) as Hlt by (apply (hi_live _ _ Hi); left).
      destruct (best_lane lanes) as [a|]; [|by destruct (Hbest top)]. destruct Hbest as [Ha Hab].
      assert (a = top) as -> by (apply (live_total senders lanes); auto). rewrite Hlane. cbn [mbind option_bind]. rewrite Htx.
      destruct (IH (advance lanes top) heap') as (IH1 & IH2 & IH3).
      { by apply lanes_of_advance. } { done. } { rewrite (remaining_advance lanes top lane tx Hlane Htx) in Hf. lia. }
      apply lookup_lt_Some in Hlane as Hlen.
      destruct (lookup_lt_is_Some_2 senders top) as [st Hst]; [rewrite (lo_length _ _ Ho); lia|].
      assert (tx_sender tx = st) as Hsend.
      { pose proof (lo_sender _ _ Ho top lane st Hlane Hst) as Hall. rewrite Forall_lookup in Hall. by eapply Hall. }
      split; [by rewrite IH1|]. split; [constructor; [rewrite Hsend; by eapply list_elem_of_lookup_2|done]|].
      intros b lane' s Hb Hs. rewrite filter_cons. destruct (decide (b = top)) as [->|Hbt].
      * assert (lane' = lane) as -> by congruence. assert (s = st) as -> by congruence. rewrite decide_True by done.
        rewrite (IH3 top _ st (advance_lookup lanes top lane Hlane) Hst). cbn [ln_index ln_queue].
        symmetry. by apply drop_S.
      * rewrite decide_False.
        -- apply (IH3 b); [|done]. unfold advance. rewrite Hlane. by rewrite list_lookup_insert_ne.
        -- rewrite Hsend. intros ->. apply Hbt. eapply NoDup_lookup; [apply (lo_nodup _ _ Ho)|exact Hs|exact Hst].
Qed.

End merge.

(** ** The queues *)

Definition of_sender (s : Address) (l : list Transaction) : list Transaction := filter (λ t, tx_sender t = s) l.

Lemma of_sender_none (s : Address) (l : list Transaction) : (∀ t, t ∈ l → tx_sender t ≠ s) → of_sender s l = [].
Proof.
  unfold of_sender. induction l as [|x l IH]; intros Hn; [done|]. rewrite filter_cons, decide_False by (apply Hn; left).
  apply IH. intros t Ht. apply Hn. by right.
Qed.

(** The queues after a prefix of the pending transactions. *)
Record queues_ok (pre : list Transaction) (qs : list (Address * list Transaction)) : Prop := {
  qk_nodup : NoDup qs.*1;
  qk_queue : ∀ e, e ∈ qs → e.2 = of_sender e.1 pre ∧ e.2 ≠ [];
  qk_senders : ∀ t, t ∈ pre → tx_sender t ∈ qs.*1 }.

Lemma push_queue_new (qs : list (Address * list Transaction)) (tx : Transaction) :
  tx_sender tx ∉ qs.*1 → push_queue qs tx = qs ++ [(tx_sender tx, [tx])].
Proof.
  induction qs as [|[s q] qs IH]; intros Hn; [done|]. csimpl in Hn. apply not_elem_of_cons in Hn as [Hs Hn]. cbn [push_queue].
  rewrite (proj2 (String.eqb_neq s (tx_sender tx))) by congruence. by rewrite IH.
Qed.

Lemma push_queue_old (qs : list (Address * list Transaction)) (tx : Transaction) :
  NoDup qs.*1 → tx_sender tx ∈ qs.*1 →
  (push_queue qs tx).*1 = qs.*1 ∧
  ∀ e, e ∈ push_queue qs tx ↔ (e ∈ qs ∧ e.1 ≠ tx_sender tx) ∨ ∃ q, (tx_sender tx, q) ∈ qs ∧ e = (tx_sender tx, q ++ [tx]).
Proof.
  induction qs as [|[s q] qs IH]; intros Hnd Hin; [by apply not_elem_of_nil in Hin|]. csimpl in *. apply NoDup_cons in Hnd as [Hs Hnd].
  destruct (String.eqb_spec s (tx_sender tx)) as [->|Hne].
  - split; [done|]. intros e. rewrite !elem_of_cons.
    assert (∀ x, x ∈ qs → x.1 ≠ tx_sender tx) as Hx by (intros x Hxin Heq; apply Hs; rewrite <-Heq; by apply list_elem_of_fmap_2).
    setoid_rewrite elem_of_cons. split.
    + intros [->|He]; [right; exists q; auto|left; auto].
    + intros [[[->|He] Hn]|(q' & [[= ->]|Hq] & ->)]; [by destruct Hn|by right|by left|by destruct (Hx _ Hq)].
  - apply elem_of_cons in Hin as [Hin|Hin]; [by destruct Hne|]. destruct (IH Hnd Hin) as [IH1 IH2]. split; [csimpl; by rewrite IH1|].
    intros e. setoid_rewrite elem_of_cons. rewrite IH2. split.
    + intros [->|[[He Hn]|(q' & Hq & ->)]]; [left; auto|left; auto|right; eauto].
    + intros [[[->|He] Hn]|(q' & [Heq|Hq] & ->)]; [by left|right; left; auto|by injection Heq as <- _|right; right; eauto].
Qed.

Lemma push_queue_ok (pre : list Transaction) (qs : list (Address * list Transaction)) (tx : Transaction) :
  queues_ok pre qs → queues_ok (pre ++ [tx]) (push_queue qs tx).
Proof.
  intros [Hnd Hq Hs]. assert (∀ s, of_sender s (pre ++ [tx]) = of_sender s pre ++ if decide (tx_sender tx = s) then [tx] else []) as Hf.
  { intros s. unfold of_sender. by rewrite filter_app. }
  destruct (decide (tx_sender tx ∈ qs.*1)) as [Hin|Hin].
  - destruct (push_queue_old qs tx Hnd Hin) as [H1 H2]. split; [by rewrite H1| |].
    + intros e He. apply H2 in He as [[He Hn]|(q & Hqin & ->)].
      * destruct (Hq e He) as [Heq Hne]. rewrite Hf, decide_False, app_nil_r by congruence. done.
      * destruct (Hq _ Hqin) as [Heq Hne]. cbn [fst snd] in *. rewrite Hf, decide_True by done. rewrite <-Heq. split; [done|].
        intros Hnil. by apply app_nil in Hnil as [_ [=]].
    + intros t [Ht|Ht]%elem_of_app; rewrite H1; [by apply Hs|]. apply list_elem_of_singleton in Ht as ->. done.
  - rewrite push_queue_new by done. split.
    + rewrite fmap_app. apply NoDup_app. split; [done|]. split; [|apply NoDup_singleton]. intros x Hx Hx'.
      csimpl in Hx'. apply list_elem_of_singleton in Hx' as ->. done.
    + intros e [He|He]%elem_of_app.
      * destruct (Hq e He) as [Heq Hne]. rewrite Hf, decide_False, app_nil_r; [done|]. intros Hs'. apply Hin. rewrite Hs'. by apply list_elem_of_fmap_2.
      * apply list_elem_of_singleton in He as ->. cbn [fst snd]. rewrite Hf, decide_True by done. split; [|done].
        rewrite of_sender_none; [done|]. intros t Ht Heq. apply Hin. rewrite <-Heq. by apply Hs.
    + intros t [Ht|Ht]%elem_of_app; rewrite fmap_app; apply elem_of_app; [left; by apply Hs|right].
      apply list_elem_of_singleton in Ht as ->. csimpl. by left.
Qed.

Lemma queues_are_ok (txs : list Transaction) : queues_ok txs (queues txs).
Proof.
  unfold queues. induction txs as [|tx txs IH] using rev_ind; [split; cbn; [constructor|set_solver|set_solver]|].
  rewrite fold_left_app. cbn [fold_left]. by apply push_queue_ok.
Qed.

Lemma perm_by_sender (l k : list Transaction) : (∀ s, of_sender s l ≡ₚ of_sender s k) → l ≡ₚ k.
Proof.
  revert k. induction l as [|t l IH]; intros k Hs.
  - destruct k as [|x k]; [done|]. specialize (Hs (tx_sender x)). unfold of_sender in Hs. rewrite filter_cons, decide_True in Hs by done.
    by apply Permutation_nil_l in Hs.
  - assert (t ∈ k) as (k1 & k2 & ->)%list_elem_of_split.
    { specialize (Hs (tx_sender t)). unfold of_sender in Hs. rewrite filter_cons, decide_True in Hs by done.
      assert (t ∈ filter (λ t', tx_sender t' = tx_sender t) k) as Hin by (rewrite <-Hs; by left). by apply list_elem_of_filter in Hin as [_ Hin]. }
    rewrite <-Permutation_middle. f_equiv. apply IH. intros s. specialize (Hs s). unfold of_sender in *.
    rewrite <-Permutation_middle in Hs. rewrite !filter_cons in Hs. case_decide; [|done]. by apply Permutation_cons_inv in Hs.
Qed.

Lemma sum_queues (qs : list (Address * list Transaction)) (fp : bool) (auth : Transaction → bool) (txs : list Transaction) :
  remaining (map (make_lane fp auth txs) qs) = sum_list_with (λ e, length e.2) qs.
Proof.
  unfold remaining. induction qs as [|e qs IH]; [done|]. cbn [map sum_list_with make_lane ln_queue ln_index]. rewrite IH.
  rewrite js_sort_perm. lia.
Qed.

Lemma push_queue_total (qs : list (Address * list Transaction)) (tx : Transaction) :
  sum_list_with (λ e, length e.2) (push_queue qs tx) = S (sum_list_with (λ e, length e.2) qs).
Proof.
  induction qs as [|[s q] qs IH]; [done|]. cbn [push_queue sum_list_with snd]. destruct (String.eqb s (tx_sender tx)); cbn [sum_list_with snd].
  - rewrite length_app. simpl. lia.
  - rewrite IH. lia.
Qed.

Lemma queues_total (txs : list Transaction) : sum_list_with (λ e, length e.2) (queues txs) = length txs.
Proof.
  unfold queues. induction txs as [|tx txs IH] using rev_ind; [done|]. rewrite fold_left_app, length_app. cbn [fold_left].
  rewrite push_queue_total, IH. simpl. lia.
Qed.

Lemma lanes_ready (fp : bool) (auth : Transaction → bool) (txs : list Transaction) :
  let lanes := map (make_lane fp auth txs) (queues txs) in
  lanes_of (queues txs).*1 lanes ∧ ∀ a, (a < length lanes)%nat → live fp txs lanes a.
Proof.
  cbv zeta. change (map (make_lane fp auth txs) (queues txs)) with (make_lane fp auth txs <$> queues txs).
  destruct (queues_are_ok txs) as [Hnd Hq _]. split; [split|].
  - done.
  - by rewrite !length_fmap.
  - intros a lane s Ha Hs. rewrite list_lookup_fmap in Hs. rewrite list_lookup_fmap in Ha. apply fmap_Some in Hs as (e & He & ->). rewrite He in Ha. injection Ha as <-.
    cbn [make_lane ln_queue]. rewrite js_sort_perm. destruct (Hq e) as [-> _]; [by eapply list_elem_of_lookup_2|].
    apply Forall_forall. intros t Ht. by apply list_elem_of_filter in Ht as [? _].
  - intros a Ha. rewrite length_fmap in Ha. destruct (lookup_lt_is_Some_2 _ _ Ha) as [e He]. destruct (Hq e) as [_ Hne]; [by eapply list_elem_of_lookup_2|].
    unfold live, key_at. rewrite list_lookup_fmap, He. cbn [fmap option_fmap option_map mbind option_bind lane_head make_lane ln_queue ln_index].
    unfold lane_head. cbn [make_lane ln_queue ln_index]. destruct (js_sort (queue_le fp txs) e.2) as [|t q] eqn:E; [|by eexists].
    exfalso. apply Hne. apply Permutation_nil_r. rewrite <-E. symmetry. apply js_sort_perm.
Qed.

(** The comparator of a queue orders by one key. *)
Definition queue_key (fp : bool) (txs : list Transaction) (t : Transaction) : list Z :=
  tx_nonce t :: (if fp then - tx_feeAtoms t else arrivalOf fp txs t) :: tx_timestampMs t :: lit (tx_txid t).

Lemma queue_le_key (fp : bool) (txs : list Transaction) (a b : Transaction) :
  queue_le fp txs a b = units_le (queue_key fp txs a) (queue_key fp txs b).
Proof.
  assert (∀ x y : Z, (x - y =? 0) = (x =? y) ∧ (x - y <? 0) = (x <? y)) as Hz.
  { intros x y. split; [destruct (Z.eqb_spec (x - y) 0), (Z.eqb_spec x y)|destruct (Z.ltb_spec (x - y) 0), (Z.ltb_spec x y)]; lia || done. }
  unfold queue_le, queue_key. rewrite !units_le_cons. cbv zeta. destruct (Hz (tx_nonce a) (tx_nonce b)) as [-> ->].
  destruct (Hz (tx_timestampMs a) (tx_timestampMs b)) as [-> ->]. destruct (tx_nonce a =? tx_nonce b); [|done]. cbn [negb].
  assert ((compareCanonicalStrings (lit (tx_txid a)) (lit (tx_txid b)) <=? 0) = units_le (lit (tx_txid a)) (lit (tx_txid b))) as ->.
  { exact (key_le_units (lit (tx_txid a), ()) (lit (tx_txid b), ())). }
  destruct fp.
  - destruct (Hz (tx_feeAtoms b) (tx_feeAtoms a)) as [-> ->]. rewrite (Z.eqb_sym (tx_feeAtoms b)).
    destruct (Z.eqb_spec (tx_feeAtoms a) (tx_feeAtoms b)) as [->|Hn]; [by rewrite Z.eqb_refl|].
    rewrite (proj2 (Z.eqb_neq (- tx_feeAtoms a) _)) by lia. cbn [negb].
    destruct (Z.ltb_spec (tx_feeAtoms b) (tx_feeAtoms a)), (Z.ltb_spec (- tx_feeAtoms a) (- tx_feeAtoms b)); lia || done.
  - destruct (Hz (arrivalOf false txs a) (arrivalOf false txs b)) as [-> ->]. done.
Qed.

Lemma queue_sorted (fp : bool) (txs l : list Transaction) :
  StronglySorted (λ a b, tx_nonce a ≤ tx_nonce b) (js_sort (queue_le fp txs) l).
Proof.
  assert (StronglySorted (λ a b, queue_le fp txs a b = true) (js_sort (queue_le fp txs) l)) as Hs.
  { apply js_sort_sorted.
    - intros x y. rewrite !queue_le_key. apply units_le_total.
    - intros x y z. rewrite !queue_le_key. apply units_le_trans. }
  induction Hs as [|x q Hs IH Hall]; constructor; [done|]. eapply Forall_impl; [exact Hall|]. intros y Hxy. cbv beta in Hxy |- *.
  rewrite queue_le_key in Hxy. unfold queue_key in Hxy. rewrite units_le_cons in Hxy.
  destruct (Z.eqb_spec (tx_nonce x) (tx_nonce y)); [lia|]. cbn [negb] in Hxy. lia.
Qed.

(** The ordering as a merge of the senders' queues. *)
Lemma order_facts (fp : bool) (auth : Transaction → bool) (txs : list Transaction) :
  let out := orderPendingByFeePriority fp auth txs in
  out = greedy fp txs (length txs) (map (make_lane fp auth txs) (queues txs)) ∧
  out ≡ₚ txs ∧
  (∀ s, of_sender s out = js_sort (queue_le fp txs) (of_sender s txs)) ∧
  ∀ s, StronglySorted (λ a b, tx_nonce a ≤ tx_nonce b) (of_sender s out).
Proof.
  intros out. destruct (lanes_ready fp auth txs) as [Ho Hl]. destruct (queues_are_ok txs) as [Hnd Hq Hsend].
  destruct (merge_loop_spec fp txs (queues txs).*1 (length txs) (map (make_lane fp auth txs) (queues txs)) (build_heap fp txs _)
    Ho (build_heap_inv fp txs _ Hl)) as (Hgreedy & Hall & Hlane).
  { by rewrite sum_queues, queues_total. }
  assert (∀ s, of_sender s out = js_sort (queue_le fp txs) (of_sender s txs)) as Hsorted.
  { intros s. destruct (decide (s ∈ (queues txs).*1)) as [Hin|Hin].
    - apply list_elem_of_lookup in Hin as [a Ha]. rewrite list_lookup_fmap in Ha. apply fmap_Some in Ha as (e & He & ->).
      destruct (Hq e) as [Heq _]; [by eapply list_elem_of_lookup_2|]. rewrite <-Heq.
      refine (Hlane a (make_lane fp auth txs e) e.1 _ _).
      + change (map ?f ?l) with (f <$> l). by rewrite list_lookup_fmap, He.
      + by rewrite list_lookup_fmap, He.
    - rewrite !of_sender_none; [done| |].
      + intros t Ht <-. apply Hin. by apply Hsend.
      + intros t Ht <-. apply Hin. rewrite Forall_forall in Hall. by apply Hall. }
  split; [done|]. split; [|split; [done|]].
  - apply perm_by_sender. intros s. rewrite Hsorted. apply js_sort_perm.
  - intros s. rewrite Hsorted. apply queue_sorted.
Qed.

Lemma order_perm (fp : bool) (auth : Transaction → bool) (txs : list Transaction) : orderPendingByFeePriority fp auth txs ≡ₚ txs.
Proof. exact (proj1 (proj2 (order_facts fp auth txs))). Qed.

(** C32. Transaction ordering is the greedy merge: the heap-based routine returns
    exactly what taking the best head of all queues again and again returns; every
    pending transaction appears exactly once; and the transactions of a sender
    appear in the order of its sorted queue, lower nonces first. *)
Theorem order_is_greedy_merge (fp : bool) (auth : Transaction → bool) (txs : list Transaction) :
  let out := orderPendingByFeePriority fp auth txs in
  out = greedy fp txs (length txs) (map (make_lane fp auth txs) (queues txs)) ∧
  out ≡ₚ txs ∧
  (∀ s, of_sender s out = js_sort (queue_le fp txs) (of_sender s txs)) ∧
  ∀ s, StronglySorted (λ a b, tx_nonce a ≤ tx_nonce b) (of_sender s out).
Proof. apply order_facts. Qed.
