(* ===== verification/ConsensusV6.v ===== *)
(** Protocol v6 consensus primitives (l1/src/consensus-v6.ts): pacemaker
    arithmetic, signed messages, certificate validation and SAFE-VOTE. *)

From S2P Require Import Prelude Types Codec Crypto Activity Transaction TxShape Block.

#[export] Hint Rewrite String.eqb_eq String.eqb_neq : breflect.

Definition V6_BLOCK_INTERVAL_MS : Z := 30000.
Definition V6_ROUND_BASE_MS : Z := 30000.
Definition V6_ROUND_STEP_MS : Z := 5000.
Definition V6_ROUND_MAX_MS : Z := 120000.
Definition V6_TIMEOUT_GUARD_MS : Z := 2000.
Definition V6_MAX_ROUND : Z := 1000000.

Definition V6_PROPOSAL_DOMAIN : string := "zyronchain/consensus-proposal/v1".
Definition V6_PREPARE_VOTE_DOMAIN : string := "zyronchain/prepare-vote/v1".
Definition V6_COMMIT_VOTE_DOMAIN : string := "zyronchain/commit-vote/v1".
Definition V6_TIMEOUT_DOMAIN : string := "zyronchain/round-timeout/v1".

Definition isConsensusV6 (protocolVersion : Z) : bool := protocolVersion =? CONSENSUS_V6_PROTOCOL_VERSION.

(** ** Pacemaker *)

Definition assertRound (round : Z) : res unit :=
  throw_if (negb (isSafeInteger round) || (round <? 0) || (V6_MAX_ROUND <? round)) "Invalid v6 round".

Definition roundDuration (round : Z) : res Z :=
  assertRound round;;
  Ok (Z.min (V6_ROUND_BASE_MS + round * V6_ROUND_STEP_MS) V6_ROUND_MAX_MS).

(** [Math.ceil(a / b)] *)
Definition CAP_ROUND : Z := (V6_ROUND_MAX_MS - V6_ROUND_BASE_MS + (V6_ROUND_STEP_MS - 1)) / V6_ROUND_STEP_MS.

(** The division is exact: of [linear] and [linear - 1] one is even. *)
Definition roundOffset (round : Z) : res Z :=
  assertRound round;;
  let linear := Z.min round CAP_ROUND in
  let linearPart := linear * V6_ROUND_BASE_MS + (V6_ROUND_STEP_MS * linear * (linear - 1)) / 2 in
  Ok (linearPart + Z.max 0 (round - CAP_ROUND) * V6_ROUND_MAX_MS).

Definition roundStart (tipTimestampMs round : Z) : res Z :=
  offset ← roundOffset round;
  Ok (tipTimestampMs + V6_BLOCK_INTERVAL_MS + offset).

Definition roundEnd (tipTimestampMs round : Z) : res Z :=
  start ← roundStart tipTimestampMs round;
  duration ← roundDuration round;
  Ok (start + duration).

Definition timeoutAllowedAt (tipTimestampMs round : Z) : res Z :=
  roundEnd ← roundEnd tipTimestampMs round;
  Ok (roundEnd - V6_TIMEOUT_GUARD_MS).

(** [while (round > 0 && roundOffset(round) > elapsed) round -= 1;] *)
Fixpoint clock_down (fuel : nat) (elapsed round : Z) : res Z :=
  if negb (0 <? round) then Ok round else
  offset ← roundOffset round;
  if negb (elapsed <? offset) then Ok round else
  match fuel with O => Throw "fuel" | S f => clock_down f elapsed (round - 1) end.

(** [while (round + 1 <= CAP_ROUND && roundOffset(round + 1) <= elapsed) round += 1;] *)
Fixpoint clock_up (fuel : nat) (elapsed round : Z) : res Z :=
  if negb (round + 1 <=? CAP_ROUND) then Ok round else
  offset ← roundOffset (round + 1);
  if negb (offset <=? elapsed) then Ok round else
  match fuel with O => Throw "fuel" | S f => clock_up f elapsed (round + 1) end.

(** The estimate the correction loops start from:
    [Math.floor((-b + Math.sqrt(b * b + 4 * a * elapsed)) / (2 * a))]. *)
Definition sqrt_estimate (elapsed : Z) : Z :=
  let a2 := V6_ROUND_STEP_MS in (* 2 a *)
  let b := V6_ROUND_BASE_MS - V6_ROUND_STEP_MS / 2 in
  (- b + Z.sqrt (b * b + 2 * a2 * elapsed)) / a2.

Definition clockRound (tipTimestampMs nowMs : Z) : res (option Z) :=
  let elapsed := nowMs - (tipTimestampMs + V6_BLOCK_INTERVAL_MS) in
  if elapsed <? 0 then Ok None else
  capOffset ← roundOffset CAP_ROUND;
  round ← (if capOffset <=? elapsed then Ok (CAP_ROUND + math_floor_div (elapsed - capOffset) V6_ROUND_MAX_MS)
           else let estimate := sqrt_estimate elapsed in
                down ← clock_down (Z.to_nat estimate) elapsed estimate;
                clock_up (Z.to_nat CAP_ROUND) elapsed down);
  if negb (isSafeInteger round) || (V6_MAX_ROUND <? round) then Ok None else Ok (Some round).

(** ** Messages *)

Record V6ProposalPayload := mkProposalPayload {
  pr_chainId : string; pr_height : Z; pr_round : Z; pr_blockHash : string; pr_justifyRound : Z }.
Record V6Proposal := mkProposal { pr_payload : V6ProposalPayload; pr_signature : string }.

(** A prepare or commit vote has the shape of a block attestation. *)
Abbreviation V6Vote := BlockAttestation (only parsing).

Record PrepareQC := mkPrepareQC {
  qc_chainId : string; qc_height : Z; qc_round : Z; qc_blockHash : string; qc_votes : list V6Vote }.

Record V6TimeoutPayload := mkTimeoutPayload {
  to_chainId : string; to_height : Z; to_round : Z; to_highQCRound : Z; to_highQCHash : string }.
Record V6TimeoutVote := mkTimeoutVote {
  tv_payload : V6TimeoutPayload; tv_validator : Address; tv_publicKey : string; tv_signature : string }.

Record TimeoutCertificate := mkTimeoutCertificate {
  tc_chainId : string; tc_height : Z; tc_round : Z; tc_votes : list V6TimeoutVote; tc_highQC : option PrepareQC }.

(** A prepare request after [validateBlockStructure]. *)
Record V6PrepareRequest := mkPrepareRequest {
  pq_proposal : json; pq_block : RawBlock; pq_tc : json }.

Record V6TimeoutResponse := mkTimeoutResponse { tr_vote : V6TimeoutVote; tr_highQC : option PrepareQC }.
Record V6Lock := mkLock { lk_round : Z; lk_blockHash : string }.

#[global] Instance V6Lock_eq_dec : EqDecision V6Lock.
Proof. solve_decision. Defined.
#[global] Instance PrepareQC_eq_dec : EqDecision PrepareQC.
Proof. solve_decision. Defined.

Definition proposalPayload (p : V6ProposalPayload) : json :=
  JObj [("chainId", JStr (pr_chainId p)); ("height", jint (pr_height p)); ("round", jint (pr_round p));
        ("blockHash", JStr (pr_blockHash p)); ("justifyRound", jint (pr_justifyRound p))].
Definition votePayload (chainId : string) (height round : Z) (blockHash : string) : json :=
  JObj [("chainId", JStr chainId); ("height", jint height); ("round", jint round); ("blockHash", JStr blockHash)].
Definition timeoutPayload (p : V6TimeoutPayload) : json :=
  JObj [("chainId", JStr (to_chainId p)); ("height", jint (to_height p)); ("round", jint (to_round p));
        ("highQCRound", jint (to_highQCRound p)); ("highQCHash", JStr (to_highQCHash p))].

Definition qc_json (qc : PrepareQC) : json :=
  JObj [("chainId", JStr (qc_chainId qc)); ("height", jint (qc_height qc)); ("round", jint (qc_round qc));
        ("blockHash", JStr (qc_blockHash qc)); ("votes", JArr (map attestation_json (qc_votes qc)))].
Definition high_qc_json (qc : option PrepareQC) : json := match qc with Some q => qc_json q | None => JNull end.
Definition timeout_vote_json (v : V6TimeoutVote) : json :=
  JObj [("validator", JStr (tv_validator v)); ("publicKey", JStr (tv_publicKey v));
        ("chainId", JStr (to_chainId (tv_payload v))); ("height", jint (to_height (tv_payload v)));
        ("round", jint (to_round (tv_payload v))); ("highQCRound", jint (to_highQCRound (tv_payload v)));
        ("highQCHash", JStr (to_highQCHash (tv_payload v))); ("signature", JStr (tv_signature v))].
Definition tc_json (tc : TimeoutCertificate) : json :=
  JObj [("chainId", JStr (tc_chainId tc)); ("height", jint (tc_height tc)); ("round", jint (tc_round tc));
        ("votes", JArr (map timeout_vote_json (tc_votes tc))); ("highQC", high_qc_json (tc_highQC tc))].
Definition proposal_json (p : V6Proposal) : json :=
  JObj [("chainId", JStr (pr_chainId (pr_payload p))); ("height", jint (pr_height (pr_payload p)));
        ("round", jint (pr_round (pr_payload p))); ("blockHash", JStr (pr_blockHash (pr_payload p)));
        ("justifyRound", jint (pr_justifyRound (pr_payload p))); ("signature", JStr (pr_signature p))].

(** ** Shape validation *)

Definition assertHeight (value : json) (name : string) : res Z :=
  safe_int value (λ z, z <? 1) ("Invalid v6 " +:+ name +:+ " height").
Definition assertRoundValue (value : json) (name : string) : res Z :=
  safe_int value (λ z, (z <? 0) || (V6_MAX_ROUND <? z)) ("Invalid v6 " +:+ name +:+ " round").
Definition assertChainId (value : json) (name : string) : res string :=
  s ← as_text value ("Invalid v6 " +:+ name +:+ " chain ID");
  throw_if (Nat.ltb (String.length s) 1 || Nat.ltb 128 (String.length s)) ("Invalid v6 " +:+ name +:+ " chain ID");;
  Ok s.
Definition assertHash (value : json) (name : string) : res string :=
  s ← as_text value ("Invalid v6 " +:+ name);
  assertHex s 32 name;;
  Ok s.

Definition validateV6VoteShape (v : json) : res V6Vote :=
  value ← assertPlainRecord v "v6 vote";
  assertExactKeys value ["validator"; "publicKey"; "signature"] "v6 vote";;
  validator ← as_text (get value "validator") "Invalid v6 vote";
  publicKey ← as_text (get value "publicKey") "Invalid v6 vote";
  signature ← as_text (get value "signature") "Invalid v6 vote";
  assertAddress validator;;
  assertHex publicKey 64 "v6 vote publicKey";;
  assertHex signature 64 "v6 vote signature";;
  Ok (mkAttestation validator publicKey signature).

Definition validateProposalShape (v : json) : res V6Proposal :=
  value ← assertPlainRecord v "v6 proposal";
  assertExactKeys value ["chainId"; "height"; "round"; "blockHash"; "justifyRound"; "signature"] "v6 proposal";;
  chainId ← assertChainId (get value "chainId") "proposal";
  height ← assertHeight (get value "height") "proposal";
  round ← assertRoundValue (get value "round") "proposal";
  blockHash ← assertHash (get value "blockHash") "proposal blockHash";
  justifyRound ← safe_int (get value "justifyRound") (λ z, (z <? -1) || (round <=? z)) "Invalid v6 proposal justifyRound";
  signature ← as_text (get value "signature") "Invalid v6 proposal signature";
  assertHex signature 64 "v6 proposal signature";;
  Ok (mkProposal (mkProposalPayload chainId height round blockHash justifyRound) signature).

Definition validatePrepareQCShape (v : json) : res PrepareQC :=
  value ← assertPlainRecord v "prepare QC";
  assertExactKeys value ["chainId"; "height"; "round"; "blockHash"; "votes"] "prepare QC";;
  chainId ← assertChainId (get value "chainId") "prepare QC";
  height ← assertHeight (get value "height") "prepare QC";
  round ← assertRoundValue (get value "round") "prepare QC";
  blockHash ← assertHash (get value "blockHash") "prepare QC blockHash";
  items ← as_array (get value "votes") (λ l, 100 <? zlen l) "Invalid prepare QC votes";
  votes ← each validateV6VoteShape items;
  Ok (mkPrepareQC chainId height round blockHash votes).

Definition validateTimeoutVoteShape (v : json) : res V6TimeoutVote :=
  value ← assertPlainRecord v "timeout vote";
  assertExactKeys value ["validator"; "publicKey"; "chainId"; "height"; "round"; "highQCRound"; "highQCHash"; "signature"]
    "timeout vote";;
  validator ← as_text (get value "validator") "Invalid timeout vote";
  publicKey ← as_text (get value "publicKey") "Invalid timeout vote";
  signature ← as_text (get value "signature") "Invalid timeout vote";
  assertAddress validator;;
  assertHex publicKey 64 "timeout vote publicKey";;
  assertHex signature 64 "timeout vote signature";;
  chainId ← assertChainId (get value "chainId") "timeout vote";
  height ← assertHeight (get value "height") "timeout vote";
  round ← assertRoundValue (get value "round") "timeout vote";
  highQCRound ← safe_int (get value "highQCRound") (λ z, (z <? -1) || (round <? z)) "Invalid timeout vote highQCRound";
  highQCHash ← assertHash (get value "highQCHash") "timeout vote highQCHash";
  throw_if (negb (Bool.eqb (highQCRound =? -1) (String.eqb highQCHash ZERO_HASH))) "Invalid timeout vote highQC report";;
  Ok (mkTimeoutVote (mkTimeoutPayload chainId height round highQCRound highQCHash) validator publicKey signature).

(** [value === null] *)
Definition isNull (v : json) : bool := match v with JNull => true | _ => false end.

(** [if (value.highQC !== null) validatePrepareQCShape(value.highQC);] *)
Definition highQC_shape (v : json) : res (option PrepareQC) :=
  match v with JNull => Ok None | _ => qc ← validatePrepareQCShape v; Ok (Some qc) end.

Definition validateTimeoutCertificateShape (v : json) : res TimeoutCertificate :=
  value ← assertPlainRecord v "timeout certificate";
  assertExactKeys value ["chainId"; "height"; "round"; "votes"; "highQC"] "timeout certificate";;
  chainId ← assertChainId (get value "chainId") "timeout certificate";
  height ← assertHeight (get value "height") "timeout certificate";
  round ← assertRoundValue (get value "round") "timeout certificate";
  items ← as_array (get value "votes") (λ l, 100 <? zlen l) "Invalid timeout certificate votes";
  votes ← each validateTimeoutVoteShape items;
  highQC ← highQC_shape (get value "highQC");
  Ok (mkTimeoutCertificate chainId height round votes highQC).

Definition validateTimeoutResponseShape (v : json) : res V6TimeoutResponse :=
  value ← assertPlainRecord v "timeout response";
  assertExactKeys value ["vote"; "highQC"] "timeout response";;
  vote ← validateTimeoutVoteShape (get value "vote");
  highQC ← highQC_shape (get value "highQC");
  Ok (mkTimeoutResponse vote highQC).

(** [Validator[] | Map<string, string>] *)
Inductive Members := MemberList (validators : list Validator) | MemberMap (allowed : gmap string string).
Definition memberMap (m : Members) : gmap string string :=
  match m with MemberMap allowed => allowed | MemberList validators => address_map validators end.

(** SAFE-VOTE *)
Definition safeVote (lock : option V6Lock) (blockHash : string) (justifyRound : Z) : bool :=
  match lock with
  | None => true
  | Some lock => String.eqb (lk_blockHash lock) blockHash || (lk_round lock <? justifyRound)
  end.

Definition maxQC (candidates : list (option PrepareQC)) : option PrepareQC :=
  fold_left (λ best candidate,
    match candidate with
    | None => best
    | Some c => match best with
                | None => Some c
                | Some b => if qc_round b <? qc_round c then Some c else Some b
                end
    end) candidates None.

Section v6.
Context `{Crypto}.

(** [sha256Hex(canonicalJson(...))] *)
Definition proposalDigest (p : V6ProposalPayload) : res string := txid_of (proposalPayload p).
Definition timeoutDigest (p : V6TimeoutPayload) : res string := txid_of (timeoutPayload p).
Definition signV6 (domain : string) (payload : json) (privateKeyHex : string) : res string :=
  signCanonicalDomain domain (to_units payload) privateKeyHex.

(** ** Signature and certificate validation *)

Definition verifyProposalSignature (proposal : V6Proposal) (validators : list Validator) : res unit :=
  leader ← expectedValidator validators (pr_height (pr_payload proposal)) (pr_round (pr_payload proposal));
  throw_if (negb (verifyCanonicalDomain V6_PROPOSAL_DOMAIN (to_units (proposalPayload (pr_payload proposal)))
    (pr_signature proposal) (v_publicKey leader))) "Invalid v6 proposal signature".

Definition vote_step (allowed : gmap string string) (domain : string) (payload : json) (label : string)
    (seen : list string) (vote : V6Vote) : res (list string) :=
  validateV6VoteShape (attestation_json vote);;
  throw_if (bool_decide (at_validator vote ∈ seen)) ("Duplicate " +:+ label +:+ " vote");;
  throw_if (negb (bool_decide (allowed !! at_validator vote = Some (at_publicKey vote)))) ("Unknown " +:+ label +:+ " validator");;
  throw_if (negb (verifyCanonicalDomain domain (to_units payload) (at_signature vote) (at_publicKey vote)))
    ("Invalid " +:+ label +:+ " signature");;
  Ok (at_validator vote :: seen).

Definition validateVoteSet (votes : list V6Vote) (validators : list Validator) (domain : string) (payload : json)
    (label : string) : res unit :=
  throw_if (zlen validators <? zlen votes) (label +:+ " exceeds active validator set");;
  let allowed := memberMap (MemberList validators) in
  res_fold (vote_step allowed domain payload label) [] votes;;
  quorum ← validatorQuorumSize (zlen validators);
  throw_if (zlen votes <? quorum) (label +:+ " quorum not reached: " +:+ pretty (zlen votes) +:+ "/" +:+ pretty quorum).

Definition validateV6Vote (value : json) (validators : Members) (domain chainId : string) (height round : Z)
    (blockHash : string) : res V6Vote :=
  vote ← validateV6VoteShape value;
  throw_if (negb (bool_decide (memberMap validators !! at_validator vote = Some (at_publicKey vote)))) "Unknown v6 vote validator";;
  throw_if (negb (verifyCanonicalDomain domain (to_units (votePayload chainId height round blockHash))
    (at_signature vote) (at_publicKey vote))) "Invalid v6 vote signature";;
  Ok vote.

Definition validatePrepareQC (value : json) (validators : list Validator) (chainId : string) (height : Z) : res PrepareQC :=
  qc ← validatePrepareQCShape value;
  throw_if (negb (String.eqb (qc_chainId qc) chainId)) "Prepare QC chain ID mismatch";;
  throw_if (negb (qc_height qc =? height)) "Prepare QC height mismatch";;
  validateVoteSet (qc_votes qc) validators V6_PREPARE_VOTE_DOMAIN
    (votePayload chainId height (qc_round qc) (qc_blockHash qc)) "Prepare QC";;
  Ok qc.

Definition validateTimeoutVote (value : json) (validators : Members) (chainId : string) (height round : Z)
    : res V6TimeoutVote :=
  vote ← validateTimeoutVoteShape value;
  let p := tv_payload vote in
  throw_if (negb (String.eqb (to_chainId p) chainId) || negb (to_height p =? height) || negb (to_round p =? round))
    "Timeout vote target mismatch";;
  throw_if (negb (bool_decide (memberMap validators !! tv_validator vote = Some (tv_publicKey vote))))
    "Unknown timeout vote validator";;
  throw_if (negb (verifyCanonicalDomain V6_TIMEOUT_DOMAIN (to_units (timeoutPayload p)) (tv_signature vote) (tv_publicKey vote)))
    "Invalid timeout vote signature";;
  Ok vote.

Definition validateTimeoutResponse (value : json) (validators : list Validator) (chainId : string) (height round : Z)
    : res V6TimeoutResponse :=
  response ← validateTimeoutResponseShape value;
  let vote := tr_vote response in
  validateTimeoutVote (timeout_vote_json vote) (MemberList validators) chainId height round;;
  if to_highQCRound (tv_payload vote) =? -1 then
    throw_if (bool_decide (is_Some (tr_highQC response))) "Timeout response carries an unreported QC";;
    Ok response
  else
    highQC ← unwrap (tr_highQC response) "Timeout response is missing its reported QC";
    validatePrepareQC (qc_json highQC) validators chainId height;;
    throw_if (negb (qc_round highQC =? to_highQCRound (tv_payload vote)) ||
      negb (String.eqb (qc_blockHash highQC) (to_highQCHash (tv_payload vote))))
      "Timeout response QC does not match the signed report";;
    Ok response.

(** One vote of the first loop of [validateTimeoutCertificate]; the local
    variables are [seen] and [maxReported]. *)
Definition timeout_step (allowed : gmap string string) (chainId : string) (height round : Z)
    (acc : list string * Z) (vote : V6TimeoutVote) : res (list string * Z) :=
  throw_if (bool_decide (tv_validator vote ∈ acc.1)) "Duplicate timeout vote";;
  validateTimeoutVote (timeout_vote_json vote) (MemberMap allowed) chainId height round;;
  Ok (tv_validator vote :: acc.1, Z.max acc.2 (to_highQCRound (tv_payload vote))).

(** Returns the certificate that the value was narrowed to, with the maximum. *)
Definition validateTimeoutCertificate (value : json) (validators : list Validator) (chainId : string)
    (height round : Z) : res (TimeoutCertificate * Z) :=
  tc ← validateTimeoutCertificateShape value;
  throw_if (negb (String.eqb (tc_chainId tc) chainId) || negb (tc_height tc =? height) || negb (tc_round tc =? round))
    "Timeout certificate target mismatch";;
  throw_if (zlen validators <? zlen (tc_votes tc)) "Timeout certificate exceeds active validator set";;
  let allowed := memberMap (MemberList validators) in
  acc ← res_fold (timeout_step allowed chainId height round) ([], -1) (tc_votes tc);
  let maxReported := acc.2 in
  quorum ← validatorQuorumSize (zlen validators);
  throw_if (zlen (tc_votes tc) <? quorum)
    ("Timeout certificate quorum not reached: " +:+ pretty (zlen (tc_votes tc)) +:+ "/" +:+ pretty quorum);;
  if maxReported <? 0 then
    throw_if (bool_decide (is_Some (tc_highQC tc))) "Timeout certificate carries an unreported QC";;
    Ok (tc, -1)
  else
    highQC ← unwrap (tc_highQC tc) "Timeout certificate is missing the highest reported QC";
    validatePrepareQC (qc_json highQC) validators chainId height;;
    throw_if (negb (qc_round highQC =? maxReported)) "Timeout certificate QC is not the highest reported QC";;
    res_forall (λ vote, throw_if ((to_highQCRound (tv_payload vote) =? maxReported) &&
      negb (String.eqb (to_highQCHash (tv_payload vote)) (qc_blockHash highQC)))
      "Timeout certificate QC does not match a highest-round report") (tc_votes tc);;
    Ok (tc, maxReported).

(** Returns the proposal the request was narrowed to, beside the justify QC. *)
Definition validatePrepareRequestCertificates (request : V6PrepareRequest) (validators : list Validator)
    (chainId : string) (height : Z) (options_verifyProposalSignature : bool) : res (V6Proposal * option PrepareQC) :=
  let block := pq_block request in
  proposal ← validateProposalShape (pq_proposal request);
  let p := pr_payload proposal in
  throw_if (negb (String.eqb (pr_chainId p) chainId)) "v6 proposal chain ID mismatch";;
  throw_if (negb (pr_height p =? height)) "v6 proposal height mismatch";;
  (if options_verifyProposalSignature then verifyProposalSignature proposal validators else Ok ());;
  throw_if (negb (String.eqb (b_hash block) (pr_blockHash p))) "v6 proposal block hash mismatch";;
  throw_if (negb (h_height (b_header block) =? height) || negb (String.eqb (h_chainId (b_header block)) chainId))
    "v6 proposal block target mismatch";;
  throw_if (pr_round p <? h_round (b_header block)) "v6 proposal block is from a later round";;
  if pr_round p =? 0 then
    throw_if (negb (isNull (pq_tc request))) "Round 0 v6 proposal must not carry a timeout certificate";;
    throw_if (negb (pr_justifyRound p =? -1)) "Round 0 v6 proposal must not carry a justification";;
    throw_if (negb (h_round (b_header block) =? 0)) "Round 0 v6 proposal must carry a fresh block";;
    Ok (proposal, None)
  else
    throw_if (isNull (pq_tc request)) "v6 proposal is missing the timeout certificate for the previous round";;
    '(tc, maxReported) ← validateTimeoutCertificate (pq_tc request) validators chainId height (pr_round p - 1);
    throw_if (negb (pr_justifyRound p =? maxReported)) "v6 proposal does not extend the highest reported QC";;
    if maxReported =? -1 then
      throw_if (negb (h_round (b_header block) =? pr_round p)) "Unjustified v6 proposal must carry a fresh block";;
      Ok (proposal, None)
    else
      justify ← unwrap (tc_highQC tc) "undefined";
      throw_if (negb (String.eqb (qc_blockHash justify) (b_hash block))) "v6 proposal block does not match its justification";;
      throw_if (qc_round justify <? h_round (b_header block)) "v6 justified block is newer than its QC";;
      Ok (proposal, Some justify).

Definition validateCommitCertificate {T} (block : BlockOf T) (validators : list Validator) : res unit :=
  commitRound ← match b_commitRound block with
                | CommitAt r => throw_if (negb (isSafeInteger r) || (r <? 0) || (V6_MAX_ROUND <? r)) "v6 block requires a commit round";; Ok r
                | _ => Throw "v6 block requires a commit round"
                end;
  throw_if (commitRound <? h_round (b_header block)) "v6 commit round precedes the block's origin round";;
  validateVoteSet (b_attestations block) validators V6_COMMIT_VOTE_DOMAIN
    (votePayload (h_chainId (b_header block)) (h_height (b_header block)) commitRound (b_hash block)) "Finality".

Definition assertV6ProposalBlockIntegrity (block : RawBlock) (height : Z) (hash : string)
    (validators : option (list Validator)) : res unit :=
  throw_if (negb (String.eqb (b_hash block) hash)) "v6 block does not match the requested hash";;
  headerHash ← blockHash (b_header block);
  throw_if (negb (String.eqb headerHash hash) || negb (h_height (b_header block) =? height) ||
    negb (h_version (b_header block) =? CONSENSUS_V6_PROTOCOL_VERSION)) "v6 block does not match the requested hash";;
  root ← txs_root (b_transactions block);
  throw_if (negb (String.eqb (h_transactionRoot (b_header block)) root)) "v6 block body does not match its header";;
  throw_if (negb (zlen (b_roundCertificate block) =? 0) || negb (zlen (b_attestations block) =? 0) ||
    negb (bool_decide (b_commitRound block = NullCommitRound))) "v6 block is not in proposal form";;
  match b_signature block, b_proposerPublicKey block with
  | Some signature, Some proposerPublicKey =>
    assertHex signature 64 "v6 block signature";;
    assertHex proposerPublicKey 64 "v6 block proposerPublicKey";;
    throw_if (negb (String.eqb (addressFromPublicKey proposerPublicKey) (h_proposer (b_header block)))) "v6 block proposer key mismatch";;
    match validators with
    | Some validators =>
      leader ← expectedValidator validators height (h_round (b_header block));
      throw_if (negb (String.eqb (v_publicKey leader) proposerPublicKey)) "v6 block proposer is not the origin-round leader"
    | None => Ok ()
    end;;
    throw_if (negb (verifyCanonicalDomain BLOCK_PROPOSAL_DOMAIN (to_units (header_json (b_header block))) signature proposerPublicKey))
      "Invalid v6 block proposer signature"
  | _, _ => Throw "v6 block is unsigned"
  end.

End v6.

(** ** The pacemaker

    Rounds tile the time after the tip's block interval, and [clockRound]
    inverts [roundStart]. *)

(** [roundOffset] where it does not throw. *)
Definition offset (round : Z) : Z :=
  let linear := Z.min round CAP_ROUND in
  linear * V6_ROUND_BASE_MS + 2500 * linear * (linear - 1) + Z.max 0 (round - CAP_ROUND) * V6_ROUND_MAX_MS.

Lemma assertRound_Ok (round : Z) (u : unit) : assertRound round = Ok u ↔ 0 ≤ round ≤ V6_MAX_ROUND.
Proof.
  unfold assertRound. rewrite throw_if_Ok. unfold V6_MAX_ROUND, isSafeInteger, MAX_SAFE_INTEGER. lia.
Qed.

Lemma CAP_ROUND_value : CAP_ROUND = 18.
Proof. reflexivity. Qed.

Lemma roundOffset_Ok (round z : Z) : roundOffset round = Ok z ↔ 0 ≤ round ≤ V6_MAX_ROUND ∧ z = offset round.
Proof.
  unfold roundOffset. rewrite res_bind_Ok. setoid_rewrite assertRound_Ok.
  replace (V6_ROUND_STEP_MS * Z.min round CAP_ROUND * (Z.min round CAP_ROUND - 1) / 2)
    with (2500 * Z.min round CAP_ROUND * (Z.min round CAP_ROUND - 1)).
  - unfold offset. split; [intros ([] & ? & E%Ok_inj)|intros [? ->]; exists ()]; auto.
  - apply Z.div_unique_exact; [lia|]. unfold V6_ROUND_STEP_MS. ring.
Qed.

Lemma roundDuration_Ok (round z : Z) :
  roundDuration round = Ok z ↔ 0 ≤ round ≤ V6_MAX_ROUND ∧ z = Z.min (V6_ROUND_BASE_MS + round * V6_ROUND_STEP_MS) V6_ROUND_MAX_MS.
Proof.
  unfold roundDuration. rewrite res_bind_Ok. setoid_rewrite assertRound_Ok.
  split; [intros ([] & ? & E%Ok_inj)|intros [? ->]; exists ()]; auto.
Qed.

Lemma offset_succ (round : Z) :
  0 ≤ round → offset (round + 1) = offset round + Z.min (V6_ROUND_BASE_MS + round * V6_ROUND_STEP_MS) V6_ROUND_MAX_MS.
Proof.
  intros Hr. unfold offset. rewrite CAP_ROUND_value. unfold V6_ROUND_BASE_MS, V6_ROUND_STEP_MS, V6_ROUND_MAX_MS.
  destruct (Z.ltb_spec round 18).
  - rewrite !Z.min_l, !Z.max_l by lia. ring.
  - rewrite (Z.min_r (round + 1)), (Z.min_r round 18), !Z.max_r, Z.min_r by lia. lia.
Qed.

Lemma offset_mono (a b : Z) : 0 ≤ a ≤ b → offset a + 30000 * (b - a) ≤ offset b.
Proof.
  intros Hab. replace b with (a + Z.of_nat (Z.to_nat (b - a))) by lia.
  generalize (Z.to_nat (b - a)). intros n. induction n as [|n IH]; [rewrite Z.add_0_r; lia|].
  replace (a + Z.of_nat (S n)) with (a + Z.of_nat n + 1) by lia. rewrite offset_succ by lia.
  unfold V6_ROUND_BASE_MS, V6_ROUND_STEP_MS, V6_ROUND_MAX_MS in *. lia.
Qed.

Lemma roundStart_Ok (tip round s : Z) :
  roundStart tip round = Ok s ↔ 0 ≤ round ≤ V6_MAX_ROUND ∧ s = tip + V6_BLOCK_INTERVAL_MS + offset round.
Proof.
  unfold roundStart. rewrite res_bind_Ok. setoid_rewrite roundOffset_Ok. split.
  - intros (o & [? ->] & E%Ok_inj). auto.
  - intros [? ->]. eauto.
Qed.

(** A round ends where the next one starts. *)
Lemma roundEnd_Ok (tip round e : Z) :
  roundEnd tip round = Ok e ↔ 0 ≤ round ≤ V6_MAX_ROUND ∧ e = tip + V6_BLOCK_INTERVAL_MS + offset (round + 1).
Proof.
  unfold roundEnd. rewrite res_bind_Ok. setoid_rewrite roundStart_Ok. setoid_rewrite res_bind_Ok.
  setoid_rewrite roundDuration_Ok. split.
  - intros (s & [? ->] & d & [_ ->] & E%Ok_inj). rewrite offset_succ by lia. lia.
  - intros [? ->]. do 2 eexists; [auto|]. eexists. split; [auto|]. f_equal. rewrite offset_succ by lia. lia.
Qed.

Lemma clock_down_spec (fuel : nat) (elapsed round : Z) :
  0 ≤ elapsed → 0 ≤ round ≤ V6_MAX_ROUND → round ≤ Z.of_nat fuel →
  ∃ r, clock_down fuel elapsed round = Ok r ∧ 0 ≤ r ≤ round ∧ offset r ≤ elapsed.
Proof.
  revert round. induction fuel as [|fuel IH]; intros round He Hr Hf; simpl;
    (destruct (Z.ltb_spec 0 round); cbn [negb]; [|exists round; replace round with 0 by lia; split_and!; try done; lia]).
  - lia.
  - rewrite (proj2 (roundOffset_Ok round (offset round))) by auto. cbn [mbind res_bind].
    destruct (Z.ltb_spec elapsed (offset round)); cbn [negb]; [|exists round; auto with lia].
    destruct (IH (round - 1)) as (r & -> & ? & ?); [lia..|]. exists r. auto with lia.
Qed.

Lemma clock_up_spec (fuel : nat) (elapsed round : Z) :
  0 ≤ round ≤ CAP_ROUND → CAP_ROUND - round ≤ Z.of_nat fuel → offset round ≤ elapsed → elapsed < offset CAP_ROUND →
  ∃ r, clock_up fuel elapsed round = Ok r ∧ 0 ≤ r < CAP_ROUND ∧ offset r ≤ elapsed < offset (r + 1).
Proof.
  revert round. induction fuel as [|fuel IH]; intros round Hr Hf Ho He; simpl;
    (destruct (Z.leb_spec (round + 1) CAP_ROUND); cbn [negb];
      [|assert (round = CAP_ROUND) by lia; subst; lia]).
  - lia.
  - rewrite (proj2 (roundOffset_Ok (round + 1) (offset (round + 1))))
      by (split; [rewrite CAP_ROUND_value in *; unfold V6_MAX_ROUND; lia|done]). cbn [mbind res_bind].
    destruct (Z.leb_spec (offset (round + 1)) elapsed); cbn [negb]; [|exists round; auto with lia].
    apply IH; lia.
Qed.

Lemma sqrt_estimate_bounds (elapsed : Z) : 0 ≤ elapsed < offset CAP_ROUND → 0 ≤ sqrt_estimate elapsed ≤ CAP_ROUND.
Proof.
  intros He. change (offset CAP_ROUND) with 1305000 in He. unfold sqrt_estimate. rewrite CAP_ROUND_value.
  unfold V6_ROUND_STEP_MS, V6_ROUND_BASE_MS. change (30000 - 5000 / 2) with 27500.
  assert (27500 ≤ Z.sqrt (27500 * 27500 + 2 * 5000 * elapsed) ≤ 117500) as Hs.
  { split.
    - change 27500 with (Z.sqrt 756250000) at 1. apply Z.sqrt_le_mono. lia.
    - change 117500 with (Z.sqrt 13806250000). apply Z.sqrt_le_mono. lia. }
  split; [apply Z.div_pos; lia|]. apply Z.div_le_upper_bound; lia.
Qed.

(** The round that contains an instant, before the bound on rounds. *)
Definition in_round (elapsed round : Z) : Prop := 0 ≤ round ∧ offset round ≤ elapsed < offset (round + 1).

Lemma capped_round (elapsed : Z) :
  offset CAP_ROUND ≤ elapsed → in_round elapsed (CAP_ROUND + (elapsed - offset CAP_ROUND) / V6_ROUND_MAX_MS).
Proof.
  change (offset CAP_ROUND) with 1305000. intros He. rewrite CAP_ROUND_value.
  change V6_ROUND_MAX_MS with 120000. set (q := (elapsed - 1305000) / 120000).
  assert (0 ≤ q) by (apply Z.div_pos; lia).
  assert (120000 * q ≤ elapsed - 1305000 < 120000 * q + 120000) by (unfold q; Z.div_mod_to_equations; lia).
  assert (offset (18 + q) = 1305000 + 120000 * q) as E.
  { unfold offset. rewrite CAP_ROUND_value, Z.min_r, Z.max_r by lia.
    unfold V6_ROUND_BASE_MS, V6_ROUND_MAX_MS. lia. }
  split; [lia|]. rewrite offset_succ by lia. rewrite E.
  unfold V6_ROUND_BASE_MS, V6_ROUND_STEP_MS, V6_ROUND_MAX_MS. lia.
Qed.

(** The value [clockRound] computes before its last check. *)
Lemma clockRound_raw (tip now : Z) :
  let elapsed := now - (tip + V6_BLOCK_INTERVAL_MS) in
  0 ≤ elapsed →
  ∃ round, in_round elapsed round ∧
    clockRound tip now = if negb (isSafeInteger round) || (V6_MAX_ROUND <? round) then Ok None else Ok (Some round).
Proof.
  intros elapsed He. unfold clockRound. fold elapsed. rewrite (proj2 (Z.ltb_ge elapsed 0)) by lia.
  rewrite (proj2 (roundOffset_Ok CAP_ROUND (offset CAP_ROUND))) by (split; [by vm_compute|done]). cbn [mbind res_bind].
  destruct (Z.leb_spec (offset CAP_ROUND) elapsed) as [Hc|Hc].
  - eexists. split; [by apply capped_round|done].
  - pose proof (sqrt_estimate_bounds elapsed ltac:(lia)) as Hb.
    destruct (clock_down_spec (Z.to_nat (sqrt_estimate elapsed)) elapsed (sqrt_estimate elapsed)) as (d & -> & Hd & Ho);
      [lia|rewrite CAP_ROUND_value in Hb; unfold V6_MAX_ROUND; lia|lia|].
    destruct (clock_up_spec (Z.to_nat CAP_ROUND) elapsed d) as (r & Hr & ? & ?); [lia|lia|lia|lia|].
    cbn [mbind res_bind] in *. rewrite Hr. exists r. split; [|done]. split; lia.
Qed.

(** The time [now] lies in round [r] after the tip. *)
Definition round_at (tip now r : Z) : Prop := ∃ s e, roundStart tip r = Ok s ∧ roundEnd tip r = Ok e ∧ s ≤ now < e.
(** It lies before the first round, or past the last one. *)
Definition outside_rounds (tip now : Z) : Prop :=
  (∃ s, roundStart tip 0 = Ok s ∧ now < s) ∨ ∃ e, roundEnd tip V6_MAX_ROUND = Ok e ∧ e ≤ now.

Lemma round_at_iff (tip now r : Z) :
  round_at tip now r ↔ r ≤ V6_MAX_ROUND ∧ in_round (now - (tip + V6_BLOCK_INTERVAL_MS)) r.
Proof.
  unfold round_at, in_round. setoid_rewrite roundStart_Ok. setoid_rewrite roundEnd_Ok. split.
  - intros (s & e & [Hr ->] & [_ ->] & Hn). lia.
  - intros (Hr & H0 & Hn). do 2 eexists. split; [split; [lia|reflexivity]|]. split; [split; [lia|reflexivity]|]. lia.
Qed.

Lemma outside_rounds_iff (tip now : Z) (elapsed := now - (tip + V6_BLOCK_INTERVAL_MS)) :
  outside_rounds tip now ↔ elapsed < 0 ∨ offset (V6_MAX_ROUND + 1) ≤ elapsed.
Proof.
  unfold outside_rounds, elapsed. setoid_rewrite roundStart_Ok. setoid_rewrite roundEnd_Ok. change (offset 0) with 0. split.
  - intros [(s & [_ ->] & ?)|(e & [_ ->] & ?)]; [left|right]; lia.
  - intros [?|?]; [left|right]; (eexists; split; [split; [unfold V6_MAX_ROUND; lia|reflexivity]|lia]).
Qed.

Lemma in_round_unique (elapsed r r' : Z) : in_round elapsed r → in_round elapsed r' → r = r'.
Proof.
  intros [H1 H2] [H3 H4]. destruct (Z.lt_total r r') as [Hlt|[->|Hlt]]; [exfalso|done|exfalso].
  - pose proof (offset_mono (r + 1) r' ltac:(lia)). lia.
  - pose proof (offset_mono (r' + 1) r ltac:(lia)). lia.
Qed.

(** C40. [clockRound] is the round of the clock: it always returns; it returns a round,
    from 0 to the last one, exactly when the time lies from the start of that round
    until before its end, and [null] exactly when the time lies before the start of
    round 0 or not before the end of the last round.  (Times are integers; the square
    root that the search starts from is taken exactly.) *)
Theorem clockRound_spec (tip now : Z) :
  isOk (clockRound tip now) = true ∧
  (∀ r, clockRound tip now = Ok (Some r) ↔ round_at tip now r) ∧
  (clockRound tip now = Ok None ↔ outside_rounds tip now).
Proof.
  setoid_rewrite round_at_iff. rewrite outside_rounds_iff.
  destruct (Z.ltb_spec (now - (tip + V6_BLOCK_INTERVAL_MS)) 0) as [Hn|Hn].
  - assert (clockRound tip now = Ok None) as -> by (unfold clockRound; by rewrite (proj2 (Z.ltb_lt _ 0)) by lia).
    split; [done|]. split; [|split; [by left|done]]. intros r. split; [done|]. intros (_ & H0 & Hlo & _).
    pose proof (offset_mono 0 r ltac:(lia)) as Hm. change (offset 0) with 0 in Hm. lia.
  - destruct (clockRound_raw tip now Hn) as (r & Hr & ->). destruct (Z.ltb_spec V6_MAX_ROUND r) as [Hmax|Hmax].
    + rewrite orb_true_r. split; [done|]. split; [|split; [|done]].
      * intros r'. split; [done|]. intros [Hle Hr']. pose proof (in_round_unique _ _ _ Hr Hr'). lia.
      * intros _. right. destruct Hr as (H0 & Hlo & _). pose proof (offset_mono (V6_MAX_ROUND + 1) r ltac:(unfold V6_MAX_ROUND in *; lia)). lia.
    + assert (isSafeInteger r = true) as -> by (destruct Hr; apply isSafeInteger_spec; unfold V6_MAX_ROUND, MAX_SAFE_INTEGER in *; lia).
      cbn [negb orb]. split; [done|]. split; [|split; [done|]].
      * intros r'. split; [intros [= <-]; done|]. intros [_ Hr']. by rewrite (in_round_unique _ _ _ Hr Hr').
      * destruct Hr as (H0 & Hlo & Hhi). pose proof (offset_mono (r + 1) (V6_MAX_ROUND + 1) ltac:(lia)). intros [?|?]; lia.
Qed.

(** ** Certificates *)

Section certificates.
Context `{Crypto}.

(** One accepted vote: a member's valid signature over the payload. *)
Definition signed_vote (validators : list Validator) (domain : string) (payload : json) (v : V6Vote) : Prop :=
  mkValidator (at_validator v) (at_publicKey v) ∈ validators ∧
  verifyCanonicalDomain domain (to_units payload) (at_signature v) (at_publicKey v) = true.

(** An accepted set of votes for one payload. *)
Record vote_certificate (validators : list Validator) (domain : string) (payload : json) (votes : list V6Vote) : Prop := {
  vc_quorum : quorum_of validators (at_validator <$> votes);
  vc_signed : Forall (signed_vote validators domain payload) votes }.

Lemma vote_step_Ok (validators : list Validator) (domain label : string) (payload : json) (s1 s2 : list string) (v : V6Vote) :
  vote_step (memberMap (MemberList validators)) domain payload label s1 v = Ok s2 →
  at_validator v ∉ s1 ∧ s2 = at_validator v :: s1 ∧ signed_vote validators domain payload v.
Proof.
  unfold vote_step, signed_vote. intros Hs. own_inv. breflect. split_and!; try done.
  by apply address_map_member.
Qed.

Lemma voters_members (validators : list Validator) (domain : string) (payload : json) (votes : list V6Vote) :
  Forall (signed_vote validators domain payload) votes → (at_validator <$> votes) ⊆ (v_address <$> validators).
Proof.
  intros HQ x (a & -> & Ha)%list_elem_of_fmap. rewrite Forall_forall in HQ. destruct (HQ a Ha) as [Hm _].
  by apply (list_elem_of_fmap_2 v_address) in Hm.
Qed.

Lemma validateVoteSet_sound (votes : list V6Vote) (validators : list Validator) (domain label : string) (payload : json) (u : unit) :
  validateVoteSet votes validators domain payload label = Ok u → vote_certificate validators domain payload votes.
Proof.
  unfold validateVoteSet. intros Hq. res_split.
  match goal with Hf : res_fold _ _ _ = Ok _ |- _ => rename Hf into Hloop end.
  destruct (seen_loop at_validator id (signed_vote validators domain payload) _ _ _ _
    (λ s1 v s2, vote_step_Ok validators domain label payload s1 s2 v) Hloop eq_refl) as [Hnd HQ].
  match goal with Hs : validatorQuorumSize _ = Ok _ |- _ => apply validatorQuorumSize_Ok in Hs as [-> _] end.
  breflect. constructor; [|done]. constructor; [done|by eapply voters_members|].
  unfold zlen in *. rewrite length_fmap. lia.
Qed.

(** A prepare certificate for a block at a round. *)
Definition prepare_certificate (validators : list Validator) (chainId : string) (height round : Z) (hash : string)
    (votes : list V6Vote) : Prop :=
  vote_certificate validators V6_PREPARE_VOTE_DOMAIN (votePayload chainId height round hash) votes.

Definition hash_ok (hash : string) : Prop := isLowerHexOf 64 hash = true.

Lemma assertHash_Ok (v : json) (name s : string) : assertHash v name = Ok s → v = JStr s ∧ hash_ok s.
Proof. unfold assertHash. intros Hv. by shape_inv. Qed.

Lemma assertChainId_Ok (v : json) (name s : string) : assertChainId v name = Ok s → v = JStr s.
Proof. unfold assertChainId. intros Hv. by shape_inv. Qed.

Lemma assertRoundValue_Ok (v : json) (name : string) (z : Z) :
  assertRoundValue v name = Ok z → as_int v = Some z ∧ 0 ≤ z ≤ V6_MAX_ROUND.
Proof. unfold assertRoundValue. intros Hv. shape_inv. split; [done|lia]. Qed.

Lemma validatePrepareQC_sound (value : json) (validators : list Validator) (chainId : string) (height : Z) (qc : PrepareQC) :
  validatePrepareQC value validators chainId height = Ok qc →
  prepare_certificate validators chainId height (qc_round qc) (qc_blockHash qc) (qc_votes qc) ∧
  qc_chainId qc = chainId ∧ qc_height qc = height ∧ 0 ≤ qc_round qc ≤ V6_MAX_ROUND ∧ hash_ok (qc_blockHash qc).
Proof.
  unfold validatePrepareQC, validatePrepareQCShape. intros Hq. shape_inv.
  repeat match goal with
  | Hr : assertRoundValue _ _ = Ok _ |- _ => apply assertRoundValue_Ok in Hr as [_ ?]
  | Hh : assertHash _ _ = Ok _ |- _ => apply assertHash_Ok in Hh as [_ ?]
  end. cbn [qc_chainId qc_height qc_round qc_blockHash qc_votes] in *. breflect.
  split_and!; try done; try lia. by eapply validateVoteSet_sound.
Qed.

(** Reading a certificate of the model back gives the certificate. *)
Lemma vote_reparse (v w : V6Vote) : validateV6VoteShape (attestation_json v) = Ok w → w = v.
Proof. unfold validateV6VoteShape. intros Hv. own_inv. by destruct v. Qed.

Lemma qc_reparse (qc qc' : PrepareQC) : validatePrepareQCShape (qc_json qc) = Ok qc' → qc' = qc.
Proof.
  unfold validatePrepareQCShape. intros Hv. own_inv.
  repeat match goal with
  | H : assertChainId _ _ = Ok _ |- _ => apply assertChainId_Ok in H
  | H : assertHash _ _ = Ok _ |- _ => apply assertHash_Ok in H as [H _]
  | H : assertRoundValue _ _ = Ok _ |- _ => apply assertRoundValue_Ok in H as [H _]
  | H : assertHeight _ _ = Ok _ |- _ => apply safe_int_Ok in H as (H & _ & _)
  | H : get _ _ = JStr _ |- _ => apply JStr_inj in H; subst
  | H : as_int (get _ _) = Some _ |- _ => apply Some_inj in H; subst
  end.
  match goal with H' : each _ _ = Ok ?vs |- _ => assert (vs = qc_votes qc) as -> end; [|by destruct qc].
  match goal with H' : each _ _ = Ok _ |- _ => apply each_Ok in H'; rewrite Forall2_fmap_l in H'; rename H' into Hall end.
  clear -Hall. induction Hall as [|v w vs ws Hv Hall IH]; [done|]. f_equal; [by apply vote_reparse|done].
Qed.

Lemma validatePrepareQC_own (qc qc' : PrepareQC) (validators : list Validator) (chainId : string) (height : Z) :
  validatePrepareQC (qc_json qc) validators chainId height = Ok qc' → qc' = qc.
Proof. unfold validatePrepareQC. intros Hq. res_split. subst. by apply qc_reparse. Qed.

(** ** Timeout certificates *)

Definition signed_timeout (validators : list Validator) (chainId : string) (height round : Z) (v : V6TimeoutVote) : Prop :=
  mkValidator (tv_validator v) (tv_publicKey v) ∈ validators ∧
  (to_chainId (tv_payload v) = chainId ∧ to_height (tv_payload v) = height ∧ to_round (tv_payload v) = round) ∧
  -1 ≤ to_highQCRound (tv_payload v) ≤ round ∧
  verifyCanonicalDomain V6_TIMEOUT_DOMAIN (to_units (timeoutPayload (tv_payload v))) (tv_signature v) (tv_publicKey v) = true.

Ltac v6_shape_inv :=
  own_inv;
  repeat match goal with
  | H : assertChainId _ _ = Ok _ |- _ => apply assertChainId_Ok in H
  | H : assertHash _ _ = Ok _ |- _ => apply assertHash_Ok in H as [H ?]
  | H : assertRoundValue _ _ = Ok _ |- _ => apply assertRoundValue_Ok in H as [H ?]
  | H : assertHeight _ _ = Ok _ |- _ => apply safe_int_Ok in H as (H & ? & ?)
  | H : get _ _ = JStr _ |- _ => apply JStr_inj in H; subst
  | H : as_int (get _ _) = Some _ |- _ => apply Some_inj in H; subst
  end.

Lemma timeout_reparse (v w : V6TimeoutVote) :
  validateTimeoutVoteShape (timeout_vote_json v) = Ok w →
  w = v ∧ -1 ≤ to_highQCRound (tv_payload v) ≤ to_round (tv_payload v).
Proof.
  unfold validateTimeoutVoteShape. intros Hv. v6_shape_inv. split; [by destruct v as [[]]|lia].
Qed.

Lemma timeout_step_Ok (validators : list Validator) (chainId : string) (height round : Z)
    (s1 s2 : list string * Z) (v : V6TimeoutVote) :
  timeout_step (memberMap (MemberList validators)) chainId height round s1 v = Ok s2 →
  tv_validator v ∉ s1.1 ∧ s2 = (tv_validator v :: s1.1, Z.max s1.2 (to_highQCRound (tv_payload v))) ∧
  signed_timeout validators chainId height round v.
Proof.
  unfold timeout_step, validateTimeoutVote, signed_timeout. intros Hs. res_split.
  match goal with Hv : validateTimeoutVoteShape _ = Ok _ |- _ => apply timeout_reparse in Hv as [-> ?] end.
  subst. own_inv. breflect. split_and!; try done; try lia. by apply address_map_member.
Qed.

(** The maximum the loop keeps is the maximum of the reports. *)
Lemma timeout_loop_max (validators : list Validator) (chainId : string) (height round : Z) (votes : list V6TimeoutVote)
    (acc : list string * Z) :
  res_fold (timeout_step (memberMap (MemberList validators)) chainId height round) ([], -1) votes = Ok acc →
  Forall (λ v, to_highQCRound (tv_payload v) ≤ acc.2) votes ∧ -1 ≤ acc.2 ∧
  (acc.2 = -1 ∨ Exists (λ v, to_highQCRound (tv_payload v) = acc.2) votes).
Proof.
  intros Hf. refine (res_fold_inv (λ pre s, Forall (λ v, to_highQCRound (tv_payload v) ≤ s.2) pre ∧ -1 ≤ s.2 ∧
    (s.2 = -1 ∨ Exists (λ v, to_highQCRound (tv_payload v) = s.2) pre)) _ votes _ _ Hf _ _).
  - split_and!; [constructor|simpl; lia|by left].
  - intros pre x s1 s2 (Ha & Hn & He) _ (_ & -> & _)%timeout_step_Ok. cbn [fst snd]. split_and!.
    + apply Forall_app. split; [|constructor; [lia|constructor]]. eapply Forall_impl; [exact Ha|]. simpl. lia.
    + lia.
    + destruct (Z.max_spec s1.2 (to_highQCRound (tv_payload x))) as [[? ->]|[? ->]].
      * right. apply Exists_app. right. by constructor.
      * destruct He as [->|He]; [by left|]. right. apply Exists_app. by left.
Qed.

(** What an accepted timeout certificate says of round [round] with maximum
    report [m]. *)
Record timeout_certificate (validators : list Validator) (chainId : string) (height round m : Z)
    (tc : TimeoutCertificate) : Prop := {
  tcert_quorum : quorum_of validators (tv_validator <$> tc_votes tc);
  tcert_signed : Forall (signed_timeout validators chainId height round) (tc_votes tc);
  tcert_upper : Forall (λ v, to_highQCRound (tv_payload v) ≤ m) (tc_votes tc);
  tcert_round : -1 ≤ m ≤ round;
  tcert_none : m = -1 → tc_highQC tc = None;
  tcert_high : 0 ≤ m → ∃ qc, tc_highQC tc = Some qc ∧ qc_round qc = m ∧
    prepare_certificate validators chainId height m (qc_blockHash qc) (qc_votes qc) ∧ hash_ok (qc_blockHash qc) ∧
    Exists (λ v, to_highQCRound (tv_payload v) = m) (tc_votes tc) ∧
    Forall (λ v, to_highQCRound (tv_payload v) = m → to_highQCHash (tv_payload v) = qc_blockHash qc) (tc_votes tc) }.

Lemma timeout_voters_members (validators : list Validator) (chainId : string) (height round : Z) (votes : list V6TimeoutVote) :
  Forall (signed_timeout validators chainId height round) votes → (tv_validator <$> votes) ⊆ (v_address <$> validators).
Proof.
  intros HQ x (a & -> & Ha)%list_elem_of_fmap. rewrite Forall_forall in HQ. destruct (HQ a Ha) as [Hm _].
  by apply (list_elem_of_fmap_2 v_address) in Hm.
Qed.

Lemma report_le_round (validators : list Validator) (chainId : string) (height round m : Z) (votes : list V6TimeoutVote) :
  Forall (signed_timeout validators chainId height round) votes →
  Exists (λ v, to_highQCRound (tv_payload v) = m) votes → m ≤ round.
Proof.
  rewrite Forall_forall, Exists_exists. intros HQ (v & Hv & <-). destruct (HQ v Hv) as (_ & _ & ? & _). lia.
Qed.

Lemma validateTimeoutCertificate_sound (value : json) (validators : list Validator) (chainId : string)
    (height round m : Z) (tc : TimeoutCertificate) :
  validateTimeoutCertificate value validators chainId height round = Ok (tc, m) →
  0 ≤ round → timeout_certificate validators chainId height round m tc.
Proof.
  unfold validateTimeoutCertificate. intros Hq Hround. res_split.
  match goal with Hf : res_fold _ _ _ = Ok ?a |- _ => rename Hf into Hloop; rename a into acc end.
  destruct (seen_loop tv_validator fst (signed_timeout validators chainId height round) _ _ _ _
    (λ s1 v s2 E, ltac:(destruct (timeout_step_Ok validators chainId height round s1 s2 v E) as (? & -> & ?); auto))
    Hloop eq_refl) as [Hnd HQ].
  destruct (timeout_loop_max _ _ _ _ _ _ Hloop) as (Hup & Hlow & Hex).
  match goal with Hs : validatorQuorumSize _ = Ok _ |- _ => apply validatorQuorumSize_Ok in Hs as [-> _] end.
  assert (quorum_of validators (tv_validator <$> tc_votes x)) as Hquorum.
  { constructor; [done|by eapply timeout_voters_members|]. breflect. unfold zlen in *. rewrite length_fmap. lia. }
  case_if; res_split.
  - injection Hq as -> <-. breflect. constructor; try done; try lia.
    + eapply Forall_impl; [exact Hup|]. simpl. lia.
    + intros _. destruct (tc_highQC tc) as [qc|]; [|done]. exfalso. eauto.
  - injection Hq as -> <-. breflect. destruct Hex as [?|Hex]; [lia|].
    match goal with Hu : unwrap _ _ = Ok ?q |- _ => apply unwrap_Ok in Hu; rename q into qc end.
    match goal with Hv : validatePrepareQC _ _ _ _ = Ok _ |- _ =>
      pose proof (validatePrepareQC_own _ _ _ _ _ Hv); subst; apply validatePrepareQC_sound in Hv as (Hc & _ & _ & _ & Hh) end.
    match goal with Hr : res_forall _ _ = Ok _ |- _ => rewrite res_forall_Ok in Hr; rename Hr into Hall end.
    constructor; try done; try lia.
    + pose proof (report_le_round _ _ _ _ _ _ HQ Hex). lia.
    + intros _. exists qc. split_and!; try done; [congruence|].
      apply Forall_forall. intros v Hv Hm. specialize (Hall v Hv). apply throw_if_Ok in Hall.
      rewrite Hm, Z.eqb_refl in Hall. cbn [andb] in Hall. by apply negb_false_iff, String.eqb_eq in Hall.
Qed.

(** ** Prepare requests *)

(** What the certificate checks of an accepted request establish. *)
Record request_certified (validators : list Validator) (chainId : string) (height : Z) (request : V6PrepareRequest)
    (p : V6ProposalPayload) (justify : option PrepareQC) : Prop := {
  rc_target : pr_chainId p = chainId ∧ pr_height p = height ∧ 0 ≤ pr_round p ≤ V6_MAX_ROUND;
  rc_block : b_hash (pq_block request) = pr_blockHash p ∧ hash_ok (pr_blockHash p) ∧
    h_height (b_header (pq_block request)) = height ∧ h_chainId (b_header (pq_block request)) = chainId ∧
    h_round (b_header (pq_block request)) ≤ pr_round p;
  rc_justify_round : -1 ≤ pr_justifyRound p < pr_round p;
  rc_first : pr_round p = 0 → justify = None ∧ pr_justifyRound p = -1 ∧ h_round (b_header (pq_block request)) = 0;
  rc_timeout : 0 < pr_round p →
    ∃ tc, timeout_certificate validators chainId height (pr_round p - 1) (pr_justifyRound p) tc ∧ justify = tc_highQC tc;
  rc_justify : 0 ≤ pr_justifyRound p → ∃ qc, justify = Some qc ∧ qc_round qc = pr_justifyRound p ∧
    qc_blockHash qc = pr_blockHash p ∧
    prepare_certificate validators chainId height (pr_justifyRound p) (pr_blockHash p) (qc_votes qc) ∧
    h_round (b_header (pq_block request)) ≤ pr_justifyRound p;
  rc_fresh : pr_justifyRound p = -1 → h_round (b_header (pq_block request)) = pr_round p }.

Lemma validateProposalShape_sound (v : json) (p : V6Proposal) :
  validateProposalShape v = Ok p →
  0 ≤ pr_round (pr_payload p) ≤ V6_MAX_ROUND ∧ hash_ok (pr_blockHash (pr_payload p)) ∧
  -1 ≤ pr_justifyRound (pr_payload p) < pr_round (pr_payload p).
Proof.
  unfold validateProposalShape. intros Hv. v6_shape_inv. breflect.
  cbn [pr_payload pr_round pr_blockHash pr_justifyRound]. split_and!; try done; lia.
Qed.

Lemma prepare_request_sound (request : V6PrepareRequest) (validators : list Validator) (chainId : string) (height : Z)
    (verify : bool) (proposal : V6Proposal) (justify : option PrepareQC) :
  validatePrepareRequestCertificates request validators chainId height verify = Ok (proposal, justify) →
  request_certified validators chainId height request (pr_payload proposal) justify.
Proof.
  unfold validatePrepareRequestCertificates. intros Hq.
  apply res_bind_Ok in Hq as (pr & Hshape & Hq). apply validateProposalShape_sound in Hshape as (Hr & Hh & Hj).
  case_if; res_split; breflect.
  - injection Hq as -> <-. constructor; try lia; auto; try intuition congruence.
  - match goal with tm : TimeoutCertificate * Z |- _ => destruct tm as [tc m] end. case_if; res_split; breflect;
      match goal with Ht : validateTimeoutCertificate _ _ _ _ _ = Ok _ |- _ =>
        apply validateTimeoutCertificate_sound in Ht; [|lia]; rename Ht into Htc end.
    + injection Hq as -> <-. replace m with (pr_justifyRound (pr_payload proposal)) in * by lia.
      constructor; try lia; auto; try intuition congruence.
      intros _. exists tc. split; [done|]. symmetry. apply (tcert_none _ _ _ _ _ _ Htc). lia.
    + match goal with Hu : unwrap _ _ = Ok ?q |- _ => apply unwrap_Ok in Hu; rename Hu into Hhigh; rename q into qc end.
      injection Hq as -> <-. replace m with (pr_justifyRound (pr_payload proposal)) in * by lia.
      destruct (tcert_high _ _ _ _ _ _ Htc) as (qc' & Hqc & Hround & Hcert & _); [lia|].
      assert (qc' = qc) as -> by congruence.
      assert (qc_blockHash qc = pr_blockHash (pr_payload proposal)) as Hb by congruence.
      constructor; try lia; auto; try intuition congruence.
      * intros _. exists tc. by split.
      * intros _. exists qc. rewrite <-Hb. split_and!; try done. lia.
Qed.

(** A leader cannot pass over a block that may have been locked: whatever
    quorum of validators one looks at, an accepted proposal of a round after the
    first carries the timeout vote of a non-faulty member of that quorum, the
    proposal's justification is at least as high as the QC that member reported,
    and where it is exactly that QC, the proposed block is the reported one. *)
Theorem proposal_extends_reported_qc (request : V6PrepareRequest) (validators : list Validator) (chainId : string)
    (height : Z) (proposal : V6Proposal) (justify : option PrepareQC) (members faulty : list string) :
  validatePrepareRequestCertificates request validators chainId height true = Ok (proposal, justify) →
  0 < pr_round (pr_payload proposal) →
  quorum_of validators members → 3 * zlen faulty < zlen validators →
  ∃ vote, tv_validator vote ∈ members ∧ tv_validator vote ∉ faulty ∧
    signed_timeout validators chainId height (pr_round (pr_payload proposal) - 1) vote ∧
    to_highQCRound (tv_payload vote) ≤ pr_justifyRound (pr_payload proposal) ∧
    (0 ≤ to_highQCRound (tv_payload vote) → to_highQCRound (tv_payload vote) = pr_justifyRound (pr_payload proposal) →
     to_highQCHash (tv_payload vote) = b_hash (pq_block request)).
Proof.
  intros Hrc%prepare_request_sound Hround Hm Hf.
  destruct (rc_timeout _ _ _ _ _ _ Hrc Hround) as (tc & Htc & Hj).
  destruct (quorums_share _ _ _ _ (tcert_quorum _ _ _ _ _ _ Htc) Hm Hf) as (x & (v & -> & Hv)%list_elem_of_fmap & Hx & Hnf).
  pose proof (tcert_signed _ _ _ _ _ _ Htc) as Hs. pose proof (tcert_upper _ _ _ _ _ _ Htc) as Hu.
  rewrite Forall_forall in Hs, Hu. exists v. split_and!; auto.
  intros H0 Heq. destruct (tcert_high _ _ _ _ _ _ Htc) as (qc & Hqc & Hr & _ & _ & _ & Hall); [lia|].
  rewrite Forall_forall in Hall. rewrite (Hall v Hv Heq).
  destruct (rc_justify _ _ _ _ _ _ Hrc) as (qc' & Hj' & _ & Hb & _); [lia|].
  destruct (rc_block _ _ _ _ _ _ Hrc) as [-> _]. congruence.
Qed.

End certificates.

(** A proposed and a finalized block of four validators, three of which
    committed; and a second round that proposes the prepared block again. *)
Module V6Example.
#[local] Existing Instance ToyCrypto.toy.
Definition keys : list string := BlockExample.keys.
Definition pk : string → string := BlockExample.pk.
Definition validators : list Validator := BlockExample.validators.
Definition previous : Block := Eval vm_compute in
  mkBlock (mkHeader 6 "zyron-test" 6 0 ZERO_HASH 1700000000000 ZERO_HASH ZERO_HASH "GENESIS") [] (ToyCrypto.hexFixed 64 6)
    None None [] [] NoCommitRound.
Definition get_ok {A} (d : A) (r : res A) : A := match r with Ok a => a | Throw _ => d end.
(** The leader of height 7 and round 0 is the third validator. *)
Definition leaderKey : string := ToyCrypto.hexFixed 64 3.
Definition proposed : Block := Eval vm_compute in
  get_ok previous (createSignedBlock 6 "zyron-test" 7 0 (b_hash previous) 1700000030000 [] ZERO_HASH leaderKey (pk leaderKey) []).
Definition vote (domain : string) (round : Z) (hash k : string) : V6Vote :=
  mkAttestation (addressFromPublicKey (pk k)) (pk k)
    (get_ok "" (signV6 domain (votePayload "zyron-test" 7 round hash) k)).
Definition finalized : Block := Eval vm_compute in
  mkBlock (b_header proposed) [] (b_hash proposed) (b_proposerPublicKey proposed) (b_signature proposed) []
    (map (vote V6_COMMIT_VOTE_DOMAIN 0 (b_hash proposed)) (take 3 keys)) (CommitAt 0).

(** Round 0 prepared the block and timed out; the leader of round 1 proposes it
    with the timeout certificate. *)
Definition qc : PrepareQC := Eval vm_compute in
  mkPrepareQC "zyron-test" 7 0 (b_hash proposed) (map (vote V6_PREPARE_VOTE_DOMAIN 0 (b_hash proposed)) (take 3 keys)).
Definition timeout (high : Z * string) (k : string) : V6TimeoutVote :=
  let p := mkTimeoutPayload "zyron-test" 7 0 high.1 high.2 in
  mkTimeoutVote p (addressFromPublicKey (pk k)) (pk k) (get_ok "" (signV6 V6_TIMEOUT_DOMAIN (timeoutPayload p) k)).
Definition tc : TimeoutCertificate := Eval vm_compute in
  mkTimeoutCertificate "zyron-test" 7 0
    (map (timeout (-1, ZERO_HASH)) (take 2 keys) ++ map (timeout (0, b_hash proposed)) (drop 2 keys)) (Some qc).
Definition round1 : V6ProposalPayload := Eval vm_compute in mkProposalPayload "zyron-test" 7 1 (b_hash proposed) 0.
Definition reproposal : V6Proposal := Eval vm_compute in
  mkProposal round1 (get_ok "" (signV6 V6_PROPOSAL_DOMAIN (proposalPayload round1) (ToyCrypto.hexFixed 64 4))).
Definition request : V6PrepareRequest := mkPrepareRequest (proposal_json reproposal) (raw_of proposed) (tc_json tc).
Definition members : list string := Eval vm_compute in v_address <$> take 3 validators.
Definition faulty : list string := Eval vm_compute in v_address <$> take 1 validators.

Lemma members_quorum : quorum_of validators members.
Proof.
  constructor.
  - apply (bool_decide_eq_true _). vm_compute. reflexivity.
  - intros x Hx. assert (forallb (λ m, bool_decide (m ∈ v_address <$> validators)) members = true) as Hall by (vm_compute; reflexivity).
    rewrite forallb_forall in Hall. apply list_elem_of_In, Hall, bool_decide_eq_true in Hx. exact Hx.
  - vm_compute. intuition congruence.
Qed.
End V6Example.

Lemma proposal_extends_reported_qc_witness :
  ∃ vote, tv_validator vote ∈ V6Example.members ∧ tv_validator vote ∉ V6Example.faulty ∧
    signed_timeout (H := ToyCrypto.toy) V6Example.validators "zyron-test" 7 (1 - 1) vote ∧
    to_highQCRound (tv_payload vote) ≤ 0 ∧
    (0 ≤ to_highQCRound (tv_payload vote) → to_highQCRound (tv_payload vote) = 0 →
     to_highQCHash (tv_payload vote) = b_hash (pq_block V6Example.request)).
Proof.
  refine (proposal_extends_reported_qc (H := ToyCrypto.toy) V6Example.request V6Example.validators "zyron-test" 7
    V6Example.reproposal (Some V6Example.qc) V6Example.members V6Example.faulty _ _ V6Example.members_quorum _).
  - vm_compute. reflexivity.
  - vm_compute. reflexivity.
  - vm_compute. reflexivity.
Defined.
