(* ===== verification/Scheduler.v ===== *)
(** The protocol-v6 leader scheduler (l1/src/v6-scheduler.ts): the plan of the next
    wake-up, and [V6LeaderScheduler] with its timers as a state machine.

    Times are integer milliseconds.  A step of the scheduler is a turn of the event
    loop: a call of [start] or [stop], a timer that fires, or the end of an attempt
    that was awaited. *)

From S2P Require Import Prelude Types Block ConsensusV6.

Definition V6_LEADER_JITTER_MAX_MS : Z := 250.
Definition V6_LEADER_RETRY_MS : Z := 1000.
Definition V6_FALLBACK_POLL_MS : Z := V6_ROUND_BASE_MS / 10.

Record V6LeaderSlot := mkSlot { ls_height : Z; ls_round : Z }.

(** [Omit<V6WakePlanInput, "nowMs" | "jitterMs">] *)
Record V6WakeContext := mkWakeContext {
  wc_tipTimestampMs : Z; wc_height : Z; wc_validators : list Validator; wc_publicKey : string }.

Record V6WakePlan := mkPlan { wp_act : option V6LeaderSlot; wp_delayMs : Z }.

Definition v6LeaderStart (tipTimestampMs round : Z) : res Z :=
  if round =? 0 then roundStart tipTimestampMs 0
  else start ← roundStart tipTimestampMs round; Ok (start - V6_TIMEOUT_GUARD_MS).

Definition isLeader (c : V6WakeContext) (round : Z) : res bool :=
  leader ← expectedValidator (wc_validators c) (wc_height c) round;
  Ok (String.eqb (v_publicKey leader) (wc_publicKey c)).

(** The loop over the rounds from [round] on, [rounds] of them at most. *)
Fixpoint wake_scan (rounds : nat) (c : V6WakeContext) (current : option Z) (nowMs jitterMs round : Z) : res V6WakePlan :=
  match rounds with
  | O => Ok (mkPlan None V6_FALLBACK_POLL_MS)
  | S rounds' =>
    leader ← isLeader c round;
    if negb leader then wake_scan rounds' c current nowMs jitterMs (round + 1)
    else
      leaderStart ← v6LeaderStart (wc_tipTimestampMs c) round;
      let start := leaderStart + jitterMs in
      if bool_decide (current = Some round) && (start <=? nowMs) then Ok (mkPlan (Some (mkSlot (wc_height c) round)) 0)
      else Ok (mkPlan None (Z.max 1 (Z.min (start - nowMs) V6_FALLBACK_POLL_MS)))
  end.

(** [current === null && nowMs + V6_TIMEOUT_GUARD_MS >= roundStart(tipTimestampMs, 0)] *)
Definition beyond_last (c : V6WakeContext) (current : option Z) (nowMs : Z) : res bool :=
  match current with
  | Some _ => Ok false
  | None => start ← roundStart (wc_tipTimestampMs c) 0; Ok (start <=? nowMs + V6_TIMEOUT_GUARD_MS)
  end.

(** [jitterMs] is an integer, so [Math.floor] leaves it. *)
Definition planV6Wake (c : V6WakeContext) (nowMs jitterMs : Z) : res V6WakePlan :=
  let jitter := Z.max 0 (Z.min V6_LEADER_JITTER_MAX_MS jitterMs) in
  if negb (isSafeInteger nowMs) || negb (existsb (λ v, String.eqb (v_publicKey v) (wc_publicKey c)) (wc_validators c))
  then Ok (mkPlan None V6_FALLBACK_POLL_MS)
  else
    current ← clockRound (wc_tipTimestampMs c) (nowMs + V6_TIMEOUT_GUARD_MS);
    over ← beyond_last c current nowMs;
    if over : bool then Ok (mkPlan None V6_FALLBACK_POLL_MS)
    else
      let first := default 0 current in
      let last := Z.min V6_MAX_ROUND (first + zlen (wc_validators c)) in
      wake_scan (Z.to_nat (last - first + 1)) c current nowMs jitter first.

(** ** The scheduler and its timers *)

(** [this.attempts]: a slot with the time of the attempt and its outcome. *)
Record V6Attempt := mkAttempt { va_slot : V6LeaderSlot; va_atMs : Z; va_finalized : bool }.

(** [sc_pending] are the timers the clock holds, by handle, with their delays;
    [sc_awaiting] are the ticks suspended at [await this.options.attempt(nowMs)]. *)
Record V6LeaderScheduler := mkScheduler {
  sc_timer : option nat;
  sc_running : bool;
  sc_stopped : bool;
  sc_jitter : option (Z * Z);
  sc_attempts : list V6Attempt;
  sc_pending : list (nat * Z);
  sc_handles : nat;
  sc_awaiting : list (V6LeaderSlot * Z) }.

Definition new_scheduler : V6LeaderScheduler := mkScheduler None false true None [] [] 0 [].

Definition set_timers (timer : option nat) (pending : list (nat * Z)) (handles : nat) (s : V6LeaderScheduler) : V6LeaderScheduler :=
  mkScheduler timer (sc_running s) (sc_stopped s) (sc_jitter s) (sc_attempts s) pending handles (sc_awaiting s).
Definition set_running (running : bool) (awaiting : list (V6LeaderSlot * Z)) (s : V6LeaderScheduler) : V6LeaderScheduler :=
  mkScheduler (sc_timer s) running (sc_stopped s) (sc_jitter s) (sc_attempts s) (sc_pending s) (sc_handles s) awaiting.
Definition set_stopped (stopped : bool) (s : V6LeaderScheduler) : V6LeaderScheduler :=
  mkScheduler (sc_timer s) (sc_running s) stopped (sc_jitter s) (sc_attempts s) (sc_pending s) (sc_handles s) (sc_awaiting s).
Definition set_jitter (jitter : Z * Z) (s : V6LeaderScheduler) : V6LeaderScheduler :=
  mkScheduler (sc_timer s) (sc_running s) (sc_stopped s) (Some jitter) (sc_attempts s) (sc_pending s) (sc_handles s) (sc_awaiting s).
Definition push_attempt (a : V6Attempt) (s : V6LeaderScheduler) : V6LeaderScheduler :=
  mkScheduler (sc_timer s) (sc_running s) (sc_stopped s) (sc_jitter s) (sc_attempts s ++ [a]) (sc_pending s) (sc_handles s) (sc_awaiting s).

Definition arm (delayMs : Z) (s : V6LeaderScheduler) : V6LeaderScheduler :=
  if sc_stopped s then s
  else set_timers (Some (sc_handles s)) (sc_pending s ++ [(sc_handles s, Z.max 0 delayMs)]) (S (sc_handles s)) s.

Definition start_scheduler (s : V6LeaderScheduler) : V6LeaderScheduler :=
  if negb (sc_stopped s) then s else arm 0 (set_stopped false s).

Definition stop_scheduler (s : V6LeaderScheduler) : V6LeaderScheduler :=
  let s := set_stopped true s in
  set_timers None
    (match sc_timer s with Some h => filter (λ t, t.1 ≠ h) (sc_pending s) | None => sc_pending s end) (sc_handles s) s.

(** The [finally] of a tick. *)
Definition end_tick (delayMs : Z) (s : V6LeaderScheduler) : V6LeaderScheduler := arm delayMs (set_running false (sc_awaiting s) s).

(** A tick up to its end or to the awaited attempt.  [context] is what
    [options.context()] gives or throws, [nowMs] the clock and [drawMs] the number
    [Math.floor(random() * 251)] drawn for a new height. *)
Definition tick (context : res (option V6WakeContext)) (nowMs drawMs : Z) (s : V6LeaderScheduler) : V6LeaderScheduler :=
  if sc_stopped s || sc_running s then s
  else
    let s := set_running true (sc_awaiting s) s in
    match context with
    | Ok (Some c) =>
      let jitter := match sc_jitter s with
                    | Some (height, ms) => if height =? wc_height c then (height, ms) else (wc_height c, drawMs)
                    | None => (wc_height c, drawMs)
                    end in
      let s := set_jitter jitter s in
      match planV6Wake c nowMs jitter.2 with
      | Ok plan =>
        match wp_act plan with
        | Some slot => set_running true (sc_awaiting s ++ [(slot, nowMs)]) s
        | None => end_tick (wp_delayMs plan) s
        end
      | Throw _ => end_tick V6_FALLBACK_POLL_MS s
      end
    | _ => end_tick V6_FALLBACK_POLL_MS s
    end.

(** A timer fires: the clock forgets it and calls [tick]. *)
Definition fire (handle : nat) (context : res (option V6WakeContext)) (nowMs drawMs : Z) (s : V6LeaderScheduler) : V6LeaderScheduler :=
  tick context nowMs drawMs (set_timers (sc_timer s) (filter (λ t, t.1 ≠ handle) (sc_pending s)) (sc_handles s) s).

(** The awaited attempt of a tick ends; [after] and [afterMs] are the context and the
    clock read then.  A context or a plan that throws leaves the delay of the plan,
    which is 0. *)
Definition finish_attempt (slot : V6LeaderSlot) (atMs : Z) (finalized : bool) (after : res (option V6WakeContext)) (afterMs : Z)
    (s : V6LeaderScheduler) : V6LeaderScheduler :=
  let s := push_attempt (mkAttempt slot atMs finalized) s in
  let stillLeader :=
    match after with
    | Ok (Some c) =>
      negb finalized && (wc_height c =? ls_height slot) &&
      match planV6Wake c afterMs 0 with
      | Ok plan => match wp_act plan with Some s => ls_round s =? ls_round slot | None => false end
      | Throw _ => false
      end
    | _ => false
    end in
  end_tick (if stillLeader then V6_LEADER_RETRY_MS else 0) s.

(** ** What a plan promises *)

Definition leads (c : V6WakeContext) (round : Z) : Prop :=
  0 ≤ round ≤ V6_MAX_ROUND ∧ isLeader c round = Ok true.

(** The time in which the leader of a round acts: from its start, with the jitter, to
    the moment from which validators may time the round out. *)
Definition acts_at (c : V6WakeContext) (round jitterMs t : Z) : Prop :=
  ∃ start over, v6LeaderStart (wc_tipTimestampMs c) round = Ok start ∧
    timeoutAllowedAt (wc_tipTimestampMs c) round = Ok over ∧ start + jitterMs ≤ t < over.

(** [v6LeaderStart] from the tip's interval. *)
Definition leader_offset (round : Z) : Z := if round =? 0 then 0 else offset round - V6_TIMEOUT_GUARD_MS.

Lemma v6LeaderStart_Ok (tip round s : Z) :
  v6LeaderStart tip round = Ok s ↔ 0 ≤ round ≤ V6_MAX_ROUND ∧ s = tip + V6_BLOCK_INTERVAL_MS + leader_offset round.
Proof.
  unfold v6LeaderStart, leader_offset. destruct (Z.eqb_spec round 0) as [-> |Hr].
  - rewrite roundStart_Ok. change (offset 0) with 0. done.
  - rewrite res_bind_Ok. setoid_rewrite roundStart_Ok. split.
    + intros (s1 & [? ->] & E%Ok_inj). split; [done|lia].
    + intros [? ->]. eexists. split; [done|]. f_equal. lia.
Qed.

Lemma acts_at_spec (c : V6WakeContext) (round jitter t : Z) :
  acts_at c round jitter t ↔ 0 ≤ round ≤ V6_MAX_ROUND ∧
    leader_offset round + jitter ≤ t - (wc_tipTimestampMs c + V6_BLOCK_INTERVAL_MS) < offset (round + 1) - V6_TIMEOUT_GUARD_MS.
Proof.
  unfold acts_at, timeoutAllowedAt. setoid_rewrite v6LeaderStart_Ok. setoid_rewrite res_bind_Ok. setoid_rewrite roundEnd_Ok. split.
  - intros (s & o & [? ->] & (e & [_ ->] & <-%Ok_inj) & ?). split; [done|lia].
  - intros [? ?]. do 2 eexists. split; [split; done|]. split; [eexists; split; [split; done|done]|]. lia.
Qed.

Lemma leader_offset_mono (a b : Z) : 0 ≤ a ≤ b → leader_offset a ≤ leader_offset b.
Proof.
  intros Hab. pose proof (offset_mono a b Hab) as Hm. unfold leader_offset.
  destruct (Z.eqb_spec a 0) as [-> |Ha], (Z.eqb_spec b 0) as [-> |Hb]; unfold V6_TIMEOUT_GUARD_MS; try lia.
  change (offset 0) with 0 in Hm. lia.
Qed.

Lemma leader_offset_bounds (a : Z) : 0 ≤ a → offset a - V6_TIMEOUT_GUARD_MS ≤ leader_offset a ≤ offset a.
Proof. intros Ha. unfold leader_offset, V6_TIMEOUT_GUARD_MS. destruct (Z.eqb_spec a 0) as [-> |]; [change (offset 0) with 0|]; lia. Qed.

(** Every member leads one of any [n] rounds in a row. *)
Lemma member_leads (c : V6WakeContext) (round : Z) (v : Validator) :
  v ∈ wc_validators c → v_publicKey v = wc_publicKey c → 1 ≤ wc_height c ≤ MAX_SAFE_INTEGER →
  0 ≤ round → round + zlen (wc_validators c) ≤ MAX_SAFE_INTEGER →
  ∃ r, round ≤ r < round + zlen (wc_validators c) ∧ isLeader c r = Ok true.
Proof.
  intros Hv Hk Hh Hr Hmax. assert (wc_validators c ≠ []) as Hne by (intros E; rewrite E in Hv; by apply not_elem_of_nil in Hv).
  apply list_elem_of_lookup in Hv as [i Hi]. pose proof (lookup_lt_Some _ _ _ Hi) as Hlt.
  set (n := zlen (wc_validators c)) in *. assert (0 ≤ Z.of_nat i < n) as Hin by (unfold n, zlen; lia).
  set (d := (Z.of_nat i - (wc_height c - 1 + round)) mod n). assert (0 ≤ d < n) as Hd by (apply Z.mod_pos_bound; lia).
  exists (round + d). split; [lia|]. unfold isLeader. rewrite expectedValidator_index by (auto; lia). fold n.
  replace ((wc_height c - 1 + (round + d)) mod n) with (Z.of_nat i).
  - rewrite Nat2Z.id, Hi. cbn [unwrap mbind res_bind]. by rewrite Hk, String.eqb_refl.
  - symmetry. replace (wc_height c - 1 + (round + d)) with (d + (wc_height c - 1 + round)) by lia. unfold d.
    rewrite Z.add_mod_idemp_l by lia. replace (Z.of_nat i - (wc_height c - 1 + round) + (wc_height c - 1 + round)) with (Z.of_nat i) by lia.
    by apply Z.mod_small.
Qed.

Lemma isLeader_total (c : V6WakeContext) (round : Z) :
  wc_validators c ≠ [] → 1 ≤ wc_height c ≤ MAX_SAFE_INTEGER → 0 ≤ round ≤ MAX_SAFE_INTEGER → ∃ b, isLeader c round = Ok b.
Proof.
  intros Hne Hh Hr. unfold isLeader. rewrite expectedValidator_index by done.
  assert (0 < zlen (wc_validators c)) as Hz by (unfold zlen; destruct (wc_validators c); [done|cbn [length]; lia]).
  pose proof (Z.mod_pos_bound (wc_height c - 1 + round) (zlen (wc_validators c)) Hz) as Hm.
  destruct (lookup_lt_is_Some_2 (wc_validators c) (Z.to_nat ((wc_height c - 1 + round) mod zlen (wc_validators c)))) as [v ->].
  - unfold zlen in *. lia.
  - by eexists.
Qed.

(** The scan stops at the first round of the range this validator leads. *)
Lemma wake_scan_spec (rounds : nat) (c : V6WakeContext) (current : option Z) (now jitter round : Z) :
  wc_validators c ≠ [] → 1 ≤ wc_height c ≤ MAX_SAFE_INTEGER → 0 ≤ round → round + Z.of_nat rounds ≤ V6_MAX_ROUND + 1 →
  (∀ r, round ≤ r < round + Z.of_nat rounds → isLeader c r = Ok false) ∧
    wake_scan rounds c current now jitter round = Ok (mkPlan None V6_FALLBACK_POLL_MS) ∨
  ∃ r, round ≤ r < round + Z.of_nat rounds ∧ isLeader c r = Ok true ∧ (∀ r', round ≤ r' < r → isLeader c r' = Ok false) ∧
    let start := wc_tipTimestampMs c + V6_BLOCK_INTERVAL_MS + leader_offset r + jitter in
    wake_scan rounds c current now jitter round =
      Ok (if bool_decide (current = Some r) && (start <=? now) then mkPlan (Some (mkSlot (wc_height c) r)) 0
          else mkPlan None (Z.max 1 (Z.min (start - now) V6_FALLBACK_POLL_MS))).
Proof.
  intros Hne Hh. revert round. induction rounds as [|n IH]; intros round Hr Hmax; cbn [wake_scan]; [left; split; [lia|done]|].
  destruct (isLeader_total c round Hne Hh) as [b Hb]; [unfold V6_MAX_ROUND, MAX_SAFE_INTEGER in *; lia|].
  rewrite Hb. cbn [mbind res_bind]. destruct b; cbn [negb].
  - right. exists round. split; [lia|]. split; [done|]. split; [lia|].
    rewrite (proj2 (v6LeaderStart_Ok _ round _)) by (split; [lia|done]). cbn [mbind res_bind]. cbv zeta. by case_match.
  - destruct (IH (round + 1)) as [[Hn E]|(r & Hrr & Hl & Hn & E)]; [lia..| |]; rewrite E.
    + left. split; [|done]. intros r Hrr. destruct (decide (r = round)) as [-> |]; [done|]. apply Hn. lia.
    + right. exists r. split; [lia|]. split; [done|]. split; [|done]. intros r' Hr'.
      destruct (decide (r' = round)) as [-> |]; [done|]. apply Hn. lia.
Qed.

(** No round of this validator is to be acted in during the next [delay] ms. *)
Definition quiet (c : V6WakeContext) (jitter now delay : Z) : Prop :=
  ∀ t r, now ≤ t < now + delay → leads c r → ¬ acts_at c r jitter t.

Definition plan_ok (c : V6WakeContext) (jitter now : Z) (plan : V6WakePlan) : Prop :=
  match wp_act plan with
  | Some slot => ls_height slot = wc_height c ∧ leads c (ls_round slot) ∧ acts_at c (ls_round slot) jitter now ∧ wp_delayMs plan = 0
  | None => 1 ≤ wp_delayMs plan ≤ V6_FALLBACK_POLL_MS ∧ quiet c jitter now (wp_delayMs plan)
  end.

Definition member (c : V6WakeContext) : Prop := ∃ v, v ∈ wc_validators c ∧ v_publicKey v = wc_publicKey c.

Definition clamp (jitterMs : Z) : Z := Z.max 0 (Z.min V6_LEADER_JITTER_MAX_MS jitterMs).

Lemma poll_positive : 1 ≤ V6_FALLBACK_POLL_MS ≤ V6_FALLBACK_POLL_MS.
Proof. by vm_compute. Qed.

(** The round the clock is in, or the time before the first one. *)
Definition clock_at (c : V6WakeContext) (now : Z) (current : option Z) (first : Z) : Prop :=
  let early := now + V6_TIMEOUT_GUARD_MS - (wc_tipTimestampMs c + V6_BLOCK_INTERVAL_MS) in
  0 ≤ first ≤ V6_MAX_ROUND ∧ ((current = None ∧ first = 0 ∧ early < 0) ∨ (current = Some first ∧ offset first ≤ early < offset (first + 1))).

(** A round before the current one is over, and one after it has not begun. *)
Lemma clock_at_past (c : V6WakeContext) (now jitter first r t : Z) (current : option Z) :
  clock_at c now current first → now ≤ t → acts_at c r jitter t → first ≤ r.
Proof.
  intros (Hf & Hcl) Ht (Hr & Hlo & Hhi)%acts_at_spec. destruct (Z.leb_spec first r) as [|Hlt]; [done|]. exfalso.
  destruct Hcl as [(_ & -> & _)|(_ & Hcl & _)]; [lia|]. pose proof (offset_mono (r + 1) first ltac:(lia)). lia.
Qed.

Lemma wake_scan_plan (c : V6WakeContext) (current : option Z) (now jitter first : Z) :
  member c → 1 ≤ wc_height c ≤ MAX_SAFE_INTEGER → 0 ≤ jitter → clock_at c now current first →
  let last := Z.min V6_MAX_ROUND (first + zlen (wc_validators c)) in
  ∃ plan, wake_scan (Z.to_nat (last - first + 1)) c current now jitter first = Ok plan ∧ plan_ok c jitter now plan.
Proof.
  intros (v & Hv & Hk) Hh Hj Hcl last. pose proof Hcl as (Hf & Hc).
  assert (wc_validators c ≠ []) as Hne by (intros E; rewrite E in Hv; by apply not_elem_of_nil in Hv).
  assert (0 ≤ zlen (wc_validators c)) as Hz by (unfold zlen; lia).
  assert (first ≤ last ≤ V6_MAX_ROUND) as Hlast by (unfold last; lia).
  destruct (wake_scan_spec (Z.to_nat (last - first + 1)) c current now jitter first Hne Hh) as [[Hn ->]|(r & Hr & Hl & Hn & E)];
    [lia|lia| |].
  - eexists. split; [done|]. cbn. split; [exact poll_positive|]. intros t r Ht [Hr Hl] Ha.
    pose proof (clock_at_past _ _ _ _ _ _ _ Hcl (proj1 Ht) Ha) as Hfr.
    destruct (Z.leb_spec r last) as [Hrl|Hrl]; [rewrite Hn in Hl by lia; done|].
    destruct (member_leads c first v Hv Hk Hh) as (q & Hq & Hlq); [lia|unfold V6_MAX_ROUND, MAX_SAFE_INTEGER in *; lia|].
    rewrite Hn in Hlq by lia. done.
  - cbv zeta in E. rewrite E. eexists. split; [done|]. set (start := wc_tipTimestampMs c + V6_BLOCK_INTERVAL_MS + leader_offset r + jitter) in *.
    destruct (bool_decide (current = Some r) && (start <=? now)) eqn:Hact; cbn.
    + apply andb_true_iff in Hact as [Hcur%bool_decide_eq_true Hs%Z.leb_le]. destruct Hc as [(-> & _)|(E1 & Hlo & Hhi)]; [done|].
      assert (r = first) as -> by congruence. split; [done|]. split; [split; [lia|done]|]. split; [|done].
      apply acts_at_spec. unfold start in Hs. split; [lia|]. lia.
    + assert (now < start) as Hns.
      { apply andb_false_iff in Hact as [Hcur%bool_decide_eq_false|Hs%Z.leb_gt]; [|done].
        unfold start. pose proof (leader_offset_bounds r ltac:(lia)). destruct Hc as [(-> & -> & He)|(E1 & Hlo & Hhi)].
        - pose proof (leader_offset_mono 0 r ltac:(lia)). change (leader_offset 0) with 0 in *. unfold V6_TIMEOUT_GUARD_MS in *. lia.
        - assert (first < r) by (destruct (decide (r = first)) as [-> |]; [done|lia]).
          pose proof (offset_mono (first + 1) r ltac:(lia)). unfold V6_TIMEOUT_GUARD_MS in *. lia. }
      split; [pose proof poll_positive; lia|]. intros t q Ht [Hq Hlq] Ha.
      pose proof (clock_at_past _ _ _ _ _ _ _ Hcl (proj1 Ht) Ha) as Hfq. apply acts_at_spec in Ha as (_ & Hlo & _).
      destruct (Z.leb_spec r q) as [Hrq|Hrq]; [|rewrite Hn in Hlq by lia; done].
      pose proof (leader_offset_mono r q ltac:(lia)). unfold start in *. lia.
Qed.

(** The plan is total and right, whatever the time is. *)
Lemma planV6Wake_ok (c : V6WakeContext) (now jitterMs : Z) :
  member c → 1 ≤ wc_height c ≤ MAX_SAFE_INTEGER → isSafeInteger now = true →
  ∃ plan, planV6Wake c now jitterMs = Ok plan ∧ plan_ok c (clamp jitterMs) now plan.
Proof.
  intros Hm Hh Hnow. unfold planV6Wake. rewrite Hnow.
  assert (existsb (λ v, String.eqb (v_publicKey v) (wc_publicKey c)) (wc_validators c) = true) as ->.
  { destruct Hm as (v & Hv & Hk). apply existsb_exists. exists v. split; [by apply list_elem_of_In|]. by apply String.eqb_eq. }
  cbn [negb orb]. cbv zeta. fold (clamp jitterMs). assert (0 ≤ clamp jitterMs) as Hj by (unfold clamp; lia).
  set (early := now + V6_TIMEOUT_GUARD_MS - (wc_tipTimestampMs c + V6_BLOCK_INTERVAL_MS)).
  assert (roundStart (wc_tipTimestampMs c) 0 = Ok (wc_tipTimestampMs c + V6_BLOCK_INTERVAL_MS)) as Hs0.
  { apply roundStart_Ok. split; [by vm_compute|]. change (offset 0) with 0. lia. }
  destruct (Z.ltb_spec early 0) as [He|He].
  - assert (clockRound (wc_tipTimestampMs c) (now + V6_TIMEOUT_GUARD_MS) = Ok None) as ->.
    { unfold clockRound. fold early. by rewrite (proj2 (Z.ltb_lt early 0)). }
    cbn [mbind res_bind beyond_last default]. rewrite Hs0. cbn [mbind res_bind].
    rewrite (proj2 (Z.leb_gt _ _)) by (unfold early in He; lia).
    apply (wake_scan_plan c None now (clamp jitterMs) 0); try done. split; [by vm_compute|]. by left.
  - destruct (clockRound_raw (wc_tipTimestampMs c) (now + V6_TIMEOUT_GUARD_MS) He) as (r & (Hr & Hlo & Hhi) & E). rewrite E. clear E.
    destruct (negb (isSafeInteger r) || (V6_MAX_ROUND <? r)) eqn:Hbig; cbn [mbind res_bind beyond_last default].
    + rewrite Hs0. cbn [mbind res_bind]. rewrite (proj2 (Z.leb_le _ _)) by (unfold early in He; lia). eexists. split; [done|].
      split; [exact poll_positive|]. intros t q Ht _ (Hq & _ & Ha)%acts_at_spec.
      assert (V6_MAX_ROUND < r) as Hmax.
      { apply orb_true_iff in Hbig as [Hs%negb_true_iff|Hx%Z.ltb_lt]; [|done]. apply isSafeInteger_false in Hs.
        unfold V6_MAX_ROUND, MAX_SAFE_INTEGER in *. lia. }
      pose proof (offset_mono (q + 1) r ltac:(lia)). lia.
    + apply orb_false_iff in Hbig as [_ Hx%Z.ltb_ge].
      apply (wake_scan_plan c (Some r) now (clamp jitterMs) r); try done. split; [lia|]. right. split; [done|]. done.
Qed.

Lemma wake_scan_bounds (rounds : nat) (c : V6WakeContext) (current : option Z) (now jitter round : Z) (plan : V6WakePlan) :
  wake_scan rounds c current now jitter round = Ok plan →
  0 ≤ wp_delayMs plan ≤ V6_FALLBACK_POLL_MS ∧ (is_Some (wp_act plan) → 1 ≤ wc_height c ≤ MAX_SAFE_INTEGER).
Proof.
  revert round. induction rounds as [|n IH]; intros round; cbn [wake_scan].
  - intros <-%Ok_inj. cbn. split; [by vm_compute|by intros [? ?]].
  - intros (b & Hb & E)%res_bind_Ok. destruct b; cbn [negb] in E; [|by eapply IH]. apply res_bind_Ok in E as (s & _ & E).
    cbv zeta in E. destruct (_ && _); apply Ok_inj in E as <-; cbn [wp_act wp_delayMs];
      (split; [first [by vm_compute|pose proof poll_positive; lia]|]); [|by intros [? ?]]. intros _.
    unfold isLeader, expectedValidator in Hb. apply res_bind_Ok in Hb as (v & Hv & _). apply res_bind_Ok in Hv as ([] & _ & Hv).
    apply res_bind_Ok in Hv as ([] & Hv%throw_if_Ok & _). apply orb_false_iff in Hv as [[[Hs%negb_false_iff Hl%Z.ltb_ge]%orb_false_iff _]%orb_false_iff _].
    apply isSafeInteger_spec in Hs. unfold MAX_SAFE_INTEGER in *. lia.
Qed.

(** Any plan keeps the delay within the poll, and one that acts is for a leader in
    its window. *)
Lemma planV6Wake_sound (c : V6WakeContext) (now jitterMs : Z) (plan : V6WakePlan) :
  planV6Wake c now jitterMs = Ok plan →
  0 ≤ wp_delayMs plan ≤ V6_FALLBACK_POLL_MS ∧
  (∀ slot, wp_act plan = Some slot → ls_height slot = wc_height c ∧ leads c (ls_round slot) ∧ acts_at c (ls_round slot) (clamp jitterMs) now).
Proof.
  intros E. pose proof E as E0. unfold planV6Wake in E. cbv zeta in E.
  assert (∀ p, Ok (mkPlan None V6_FALLBACK_POLL_MS) = Ok p → 0 ≤ wp_delayMs p ≤ V6_FALLBACK_POLL_MS ∧ wp_act p = None) as Hpoll.
  { intros p <-%Ok_inj. split; [by vm_compute|done]. }
  destruct (negb (isSafeInteger now) || _) eqn:Hgate; [apply Hpoll in E as [? Ha]; split; [done|]; intros slot; by rewrite Ha|].
  apply orb_false_iff in Hgate as [Hsafe%negb_false_iff Hmem%negb_false_iff].
  apply res_bind_Ok in E as (cur & _ & E). apply res_bind_Ok in E as (over & _ & E).
  destruct over; [apply Hpoll in E as [? Ha]; split; [done|]; intros slot; by rewrite Ha|].
  apply wake_scan_bounds in E as [Hd Hh]. split; [done|]. intros slot Ha. rewrite Ha in Hh.
  assert (member c) as Hm.
  { apply existsb_exists in Hmem as (v & Hv%list_elem_of_In & Hk%String.eqb_eq). by exists v. }
  destruct (planV6Wake_ok c now jitterMs Hm (Hh ltac:(done)) Hsafe) as (plan' & E' & Hok). rewrite E0 in E'. apply Ok_inj in E' as <-.
  unfold plan_ok in Hok. rewrite Ha in Hok. naive_solver.
Qed.

(** ** Steps of the event loop *)

Inductive SchedulerEvent :=
| EvStart
| EvStop
| EvFire (handle : nat) (context : res (option V6WakeContext)) (nowMs drawMs : Z)
| EvTick (context : res (option V6WakeContext)) (nowMs drawMs : Z)
| EvFinish (slot : V6LeaderSlot) (atMs : Z) (finalized : bool) (after : res (option V6WakeContext)) (afterMs : Z).

(** Any timer that is pending may fire, any awaited attempt may end, and [start],
    [stop] and [tick] may be called at any time. *)
Inductive scheduler_step : V6LeaderScheduler → SchedulerEvent → V6LeaderScheduler → Prop :=
| StepStart s : scheduler_step s EvStart (start_scheduler s)
| StepStop s : scheduler_step s EvStop (stop_scheduler s)
| StepFire s h context now draw :
    h ∈ (sc_pending s).*1 → scheduler_step s (EvFire h context now draw) (fire h context now draw s)
| StepTick s context now draw : scheduler_step s (EvTick context now draw) (tick context now draw s)
| StepFinish s slot atMs finalized after afterMs before rest :
    sc_awaiting s = before ++ (slot, atMs) :: rest →
    scheduler_step s (EvFinish slot atMs finalized after afterMs)
      (finish_attempt slot atMs finalized after afterMs (set_running (sc_running s) (before ++ rest) s)).

Inductive scheduler_run : V6LeaderScheduler → list SchedulerEvent → V6LeaderScheduler → Prop :=
| RunNil s : scheduler_run s [] s
| RunSnoc s l s1 e s2 : scheduler_run s l s1 → scheduler_step s1 e s2 → scheduler_run s (l ++ [e]) s2.

(** The ticks of a trace that read a context. *)
Definition ticked (l : list SchedulerEvent) (c : V6WakeContext) (now : Z) : Prop :=
  ∃ e draw, e ∈ l ∧ (e = EvTick (Ok (Some c)) now draw ∨ ∃ h, e = EvFire h (Ok (Some c)) now draw).

(** A slot in which the validator was to act when it was ticked. *)
Definition due_slot (l : list SchedulerEvent) (slot : V6LeaderSlot) (now : Z) : Prop :=
  ∃ c jitter, ticked l c now ∧ 0 ≤ jitter ≤ V6_LEADER_JITTER_MAX_MS ∧ ls_height slot = wc_height c ∧
    leads c (ls_round slot) ∧ acts_at c (ls_round slot) jitter now.

(** A timer of the scheduler will fire within [d]. *)
Definition watched (d : Z) (s : V6LeaderScheduler) : Prop :=
  ∃ h delay, sc_timer s = Some h ∧ (h, delay) ∈ sc_pending s ∧ 0 ≤ delay ≤ d.

Record sched_ok (l : list SchedulerEvent) (s : V6LeaderScheduler) : Prop := {
  so_awaiting : if sc_running s then length (sc_awaiting s) = 1%nat else sc_awaiting s = [];
  so_watched : sc_stopped s = false → sc_running s = false → watched V6_FALLBACK_POLL_MS s;
  so_handles : ∀ t, t ∈ sc_pending s → (t.1 < sc_handles s)%nat ∧ 0 ≤ t.2 ≤ V6_FALLBACK_POLL_MS;
  so_awaited : ∀ slot now, (slot, now) ∈ sc_awaiting s → due_slot l slot now;
  so_attempts : ∀ a, a ∈ sc_attempts s → due_slot l (va_slot a) (va_atMs a) }.

Lemma clamp_bounds (j : Z) : 0 ≤ clamp j ≤ V6_LEADER_JITTER_MAX_MS.
Proof. unfold clamp, V6_LEADER_JITTER_MAX_MS. lia. Qed.

Lemma due_slot_mono (l : list SchedulerEvent) (e : SchedulerEvent) (slot : V6LeaderSlot) (now : Z) :
  due_slot l slot now → due_slot (l ++ [e]) slot now.
Proof.
  intros (c & j & (e' & draw & Hin & He) & Hrest). exists c, j. split; [|done]. exists e', draw. split; [|done].
  apply elem_of_app. by left.
Qed.

Lemma sched_ok_mono (l : list SchedulerEvent) (e : SchedulerEvent) (s : V6LeaderScheduler) : sched_ok l s → sched_ok (l ++ [e]) s.
Proof. intros [A B C D E]. split; eauto using due_slot_mono. Qed.

(** Arming sets the timer unless the scheduler is stopped. *)
Lemma arm_watched (delay d : Z) (s : V6LeaderScheduler) : 0 ≤ delay ≤ d → sc_stopped s = false → watched d (arm delay s).
Proof.
  intros Hd Hs. unfold arm. rewrite Hs. exists (sc_handles s), (Z.max 0 delay). cbn. split; [done|]. split; [|lia].
  apply elem_of_app. right. by apply list_elem_of_singleton.
Qed.

(** What ends a tick keeps the invariant: the awaited attempt is gone and the next
    timer is armed. *)
Lemma end_tick_ok (l : list SchedulerEvent) (delay : Z) (s : V6LeaderScheduler) :
  0 ≤ delay ≤ V6_FALLBACK_POLL_MS → sc_awaiting s = [] →
  (∀ t, t ∈ sc_pending s → (t.1 < sc_handles s)%nat ∧ 0 ≤ t.2 ≤ V6_FALLBACK_POLL_MS) →
  (∀ a, a ∈ sc_attempts s → due_slot l (va_slot a) (va_atMs a)) → sched_ok l (end_tick delay s).
Proof.
  intros Hd Haw Hh Ha. unfold end_tick. set (s1 := set_running false (sc_awaiting s) s). split.
  - unfold arm. by destruct (sc_stopped s1).
  - intros Hst _. apply arm_watched; [done|]. revert Hst. unfold arm. by destruct (sc_stopped s1) eqn:Hx; rewrite ?Hx.
  - unfold arm. destruct (sc_stopped s1); [done|]. cbn. intros t [Ht|Ht]%elem_of_app.
    + destruct (Hh t Ht). split; [lia|done].
    + apply list_elem_of_singleton in Ht as ->. cbn. split; [lia|]. lia.
  - unfold arm. destruct (sc_stopped s1); cbn; rewrite Haw; intros slot now Hin; by apply not_elem_of_nil in Hin.
  - unfold arm. by destruct (sc_stopped s1).
Qed.

(** The invariant without the timer, which a firing timer has just lost. *)
Definition sched_core (l : list SchedulerEvent) (s : V6LeaderScheduler) : Prop :=
  (if sc_running s then length (sc_awaiting s) = 1%nat else sc_awaiting s = []) ∧
  (∀ t, t ∈ sc_pending s → (t.1 < sc_handles s)%nat ∧ 0 ≤ t.2 ≤ V6_FALLBACK_POLL_MS) ∧
  (∀ slot now, (slot, now) ∈ sc_awaiting s → due_slot l slot now) ∧
  (∀ a, a ∈ sc_attempts s → due_slot l (va_slot a) (va_atMs a)).

Lemma sched_core_of (l : list SchedulerEvent) (s : V6LeaderScheduler) : sched_ok l s → sched_core l s.
Proof. by intros [A B C D E]. Qed.

Lemma tick_ok (l : list SchedulerEvent) (e : SchedulerEvent) (context : res (option V6WakeContext)) (now draw : Z) (s : V6LeaderScheduler) :
  (∀ c, context = Ok (Some c) → ticked (l ++ [e]) c now) → sched_core (l ++ [e]) s → sched_ok (l ++ [e]) (tick context now draw s).
Proof.
  intros Hc (A & C & D & E). unfold tick. destruct (sc_stopped s || sc_running s) eqn:Hbusy.
  { split; try done. intros Hs Hr. rewrite Hs, Hr in Hbusy. done. }
  apply orb_false_iff in Hbusy as [Hst Hrun]. rewrite Hrun in A.
  assert (∀ s1 delay, 0 ≤ delay ≤ V6_FALLBACK_POLL_MS → sc_awaiting s1 = sc_awaiting s → sc_pending s1 = sc_pending s → sc_handles s1 = sc_handles s →
    sc_attempts s1 = sc_attempts s → sched_ok (l ++ [e]) (end_tick delay s1)) as Hend.
  { intros s1 delay Hd E1 E2 E3 E4. apply end_tick_ok; [done|congruence|by rewrite E2, E3|by rewrite E4]. }
  destruct context as [[c|]|msg]; cbv zeta; [|apply Hend; try done; by vm_compute..].
  set (j := match sc_jitter (set_running true (sc_awaiting s) s) with Some _ => _ | None => _ end).
  destruct (planV6Wake c now j.2) as [plan|msg] eqn:Hplan; [|apply Hend; try done; by vm_compute].
  apply planV6Wake_sound in Hplan as [Hd Hact]. destruct (wp_act plan) as [slot|]; [|by apply Hend].
  destruct (Hact slot eq_refl) as (Hh & Hl & Ha).
  assert (due_slot (l ++ [e]) slot now) as Hdue.
  { exists c, (clamp j.2). split; [by apply Hc|]. split; [apply clamp_bounds|done]. }
  split; cbn; rewrite ?A; try done.
  intros slot' now' Hin%list_elem_of_singleton. by injection Hin as -> ->.
Qed.

Lemma finish_delay (slot : V6LeaderSlot) (atMs : Z) (finalized : bool) (after : res (option V6WakeContext)) (afterMs : Z) (s : V6LeaderScheduler) :
  ∃ delay, 0 ≤ delay ≤ V6_LEADER_RETRY_MS ∧
    finish_attempt slot atMs finalized after afterMs s = end_tick delay (push_attempt (mkAttempt slot atMs finalized) s).
Proof. eexists. split; [|reflexivity]. case_match; by vm_compute. Qed.

Lemma scheduler_step_ok (l : list SchedulerEvent) (s s' : V6LeaderScheduler) (e : SchedulerEvent) :
  sched_ok l s → scheduler_step s e s' → sched_ok (l ++ [e]) s'.
Proof.
  intros Hok%(sched_ok_mono l e) Hs. pose proof Hok as [A B C D E]. destruct Hs as [s|s|s h context now draw Hp|s context now draw|s slot atMs fin after afterMs before rest Haw].
  - unfold start_scheduler. destruct (sc_stopped s) eqn:Hst; cbn [negb]; [|done]. split; cbn; try done.
    + intros _ _. exists (sc_handles s), 0. cbn. split; [done|]. split; [|by vm_compute]. apply elem_of_app. right. by apply list_elem_of_singleton.
    + intros t [Ht|Ht]%elem_of_app; [destruct (C t Ht); split; [lia|done]|]. apply list_elem_of_singleton in Ht as ->. cbn. split; [lia|by vm_compute].
  - split; cbn; try done. intros t Ht. apply C. destruct (sc_timer s); [|done]. by apply list_elem_of_filter in Ht as [_ ?].
  - apply tick_ok.
    + intros c ->. exists (EvFire h (Ok (Some c)) now draw), draw. split; [apply elem_of_app; right; by apply list_elem_of_singleton|]. right. by exists h.
    + split_and!; cbn; try done. intros t [_ Ht]%list_elem_of_filter. by apply C.
  - apply tick_ok; [|by apply sched_core_of]. intros c ->. exists (EvTick (Ok (Some c)) now draw), draw.
    split; [apply elem_of_app; right; by apply list_elem_of_singleton|by left].
  - set (s1 := set_running (sc_running s) (before ++ rest) s).
    destruct (finish_delay slot atMs fin after afterMs s1) as (d & Hd & ->).
    assert (before = [] ∧ rest = []) as [-> ->].
    { rewrite Haw in A. destruct (sc_running s); [rewrite length_app in A; cbn [length] in A|by destruct before].
      destruct before, rest; cbn [length] in A; try done; lia. }
    apply end_tick_ok; try done.
    + unfold V6_LEADER_RETRY_MS in Hd. change V6_FALLBACK_POLL_MS with 3000. lia.
    + cbn. intros a [Ha|Ha%list_elem_of_singleton]%elem_of_app; [by apply E|]. subst a. cbn. apply D. rewrite Haw. by apply list_elem_of_singleton.
Qed.

Lemma scheduler_run_ok (l : list SchedulerEvent) (s : V6LeaderScheduler) : scheduler_run new_scheduler l s → sched_ok l s.
Proof.
  intros Hrun. remember new_scheduler as s0 eqn:E. induction Hrun as [s|s l s1 e s2 Hrun IH Hstep]; subst.
  - split; cbn; try done; intros; by match goal with Hin : _ ∈ [] |- _ => apply not_elem_of_nil in Hin end.
  - eapply scheduler_step_ok; [by apply IH|done].
Qed.

(** C20. Whatever order the event loop takes, with [start], [stop] and [tick] called at
    any time: at most one attempt is in progress, and exactly while the scheduler is
    running; a started scheduler that is not in an attempt has a timer that fires
    within the fallback poll, so it never falls asleep, and after an attempt within
    the retry delay; and every attempt was made at a time when the validator was the
    leader of that round and the round could not yet be timed out. *)
Theorem scheduler_watches (l : list SchedulerEvent) (s : V6LeaderScheduler) :
  scheduler_run new_scheduler l s →
  (length (sc_awaiting s) ≤ 1)%nat ∧ (sc_running s = true ↔ sc_awaiting s ≠ []) ∧
  (sc_stopped s = false → sc_running s = false → watched V6_FALLBACK_POLL_MS s) ∧
  (∀ slot atMs finalized after afterMs, sc_stopped s = false → watched V6_LEADER_RETRY_MS (finish_attempt slot atMs finalized after afterMs s)) ∧
  (∀ a, a ∈ sc_attempts s → due_slot l (va_slot a) (va_atMs a)).
Proof.
  intros [A B C D E]%scheduler_run_ok. split_and!; try done.
  - destruct (sc_running s); [lia|]. rewrite A. cbn. lia.
  - destruct (sc_running s), (sc_awaiting s); done.
  - intros slot atMs fin after afterMs Hst. destruct (finish_delay slot atMs fin after afterMs s) as (d & Hd & ->). by apply arm_watched.
Qed.

(** C19. A leader never oversleeps: a tick of a started, idle scheduler of a validator,
    at a height and a time that are safe integers, makes an attempt exactly when
    the validator leads a round whose time to act has come, and otherwise arms a
    timer that fires before any such time, for whatever round, clock and jitter. *)
Theorem leader_never_oversleeps (c : V6WakeContext) (now draw : Z) (s : V6LeaderScheduler) :
  member c → 1 ≤ wc_height c ≤ MAX_SAFE_INTEGER → isSafeInteger now = true → sc_stopped s = false → sc_running s = false →
  let s' := tick (Ok (Some c)) now draw s in
  ∃ jitter, 0 ≤ jitter ≤ V6_LEADER_JITTER_MAX_MS ∧
    ((∃ r, leads c r ∧ acts_at c r jitter now ∧ sc_awaiting s' = sc_awaiting s ++ [(mkSlot (wc_height c) r, now)]) ∨
     (sc_awaiting s' = sc_awaiting s ∧
      ∃ h delay, sc_timer s' = Some h ∧ (h, delay) ∈ sc_pending s' ∧ 1 ≤ delay ≤ V6_FALLBACK_POLL_MS ∧ quiet c jitter now delay)).
Proof.
  intros Hm Hh Hnow Hst Hrun. unfold tick. rewrite Hst, Hrun. cbn [orb]. cbv zeta.
  set (j := match sc_jitter (set_running true (sc_awaiting s) s) with Some _ => _ | None => _ end).
  exists (clamp j.2). split; [apply clamp_bounds|]. destruct (planV6Wake_ok c now j.2 Hm Hh Hnow) as (plan & -> & Hok).
  unfold plan_ok in Hok. destruct (wp_act plan) as [slot|].
  - destruct Hok as (Hs & Hl & Ha & _). left. exists (ls_round slot). split_and!; [done..|]. rewrite <-Hs. by destruct slot.
  - destruct Hok as [Hd Hq]. right. unfold end_tick, arm. cbn. rewrite Hst. cbn. split; [done|].
    exists (sc_handles s), (Z.max 0 (wp_delayMs plan)). rewrite Z.max_r by lia. split_and!; try done; try lia.
    apply elem_of_app. right. by apply list_elem_of_singleton.
Qed.

(** ** A validator of two at height 7 *)

Module SchedulerExample.
Definition validators : list Validator := [mkValidator "zyn1" "key1"; mkValidator "zyn2" "key2"].
Definition context : V6WakeContext := mkWakeContext 1700000000000 7 validators "key2".
Definition started : V6LeaderScheduler := start_scheduler new_scheduler.
(** The validator leads round 1, which it enters 28 seconds after the start of round 0 with a jitter of 100 ms. *)
Definition waiting : V6LeaderScheduler := fire 0 (Ok (Some context)) 1700000030000 100 started.
Definition acting : V6LeaderScheduler := fire 1 (Ok (Some context)) 1700000058100 17 waiting.
Definition finished : V6LeaderScheduler :=
  finish_attempt (mkSlot 7 1) 1700000058100 false (Ok (Some context)) 1700000058900 (set_running (sc_running acting) ([] ++ []) acting).
Definition trace : list SchedulerEvent :=
  [EvStart; EvFire 0 (Ok (Some context)) 1700000030000 100; EvFire 1 (Ok (Some context)) 1700000058100 17;
   EvFinish (mkSlot 7 1) 1700000058100 false (Ok (Some context)) 1700000058900].

Lemma runs : scheduler_run new_scheduler trace finished.
Proof.
  change trace with (((([] ++ [EvStart]) ++ [EvFire 0 (Ok (Some context)) 1700000030000 100]) ++ [EvFire 1 (Ok (Some context)) 1700000058100 17]) ++
    [EvFinish (mkSlot 7 1) 1700000058100 false (Ok (Some context)) 1700000058900]).
  apply (RunSnoc _ _ acting); [apply (RunSnoc _ _ waiting); [apply (RunSnoc _ _ started); [apply (RunSnoc _ _ new_scheduler); [constructor|]|]|]|].
  - constructor.
  - apply StepFire. vm_compute. left.
  - apply StepFire. vm_compute. left.
  - apply StepFinish. vm_compute. reflexivity.
Qed.
End SchedulerExample.

Lemma scheduler_watches_witness :
  sc_attempts SchedulerExample.finished = [mkAttempt (mkSlot 7 1) 1700000058100 false] ∧ sc_pending SchedulerExample.finished = [(2%nat, 1000)] ∧
  watched V6_FALLBACK_POLL_MS SchedulerExample.finished.
Proof.
  split_and!; [vm_compute; reflexivity..|].
  apply (proj1 (proj2 (proj2 (scheduler_watches SchedulerExample.trace SchedulerExample.finished SchedulerExample.runs)))); vm_compute; reflexivity.
Defined.

Lemma leader_never_oversleeps_witness :
  let s' := tick (Ok (Some SchedulerExample.context)) 1700000057000 100 SchedulerExample.started in
  sc_awaiting s' = [] ∧ sc_pending s' = [(0%nat, 0); (1%nat, 1100)] ∧
  ∃ jitter, 0 ≤ jitter ≤ V6_LEADER_JITTER_MAX_MS ∧
    ((∃ r, leads SchedulerExample.context r ∧ acts_at SchedulerExample.context r jitter 1700000057000 ∧ sc_awaiting s' = [(mkSlot 7 r, 1700000057000)]) ∨
     (sc_awaiting s' = [] ∧
      ∃ h delay, sc_timer s' = Some h ∧ (h, delay) ∈ sc_pending s' ∧ 1 ≤ delay ≤ V6_FALLBACK_POLL_MS ∧ quiet SchedulerExample.context jitter 1700000057000 delay)).
Proof.
  split_and!; [vm_compute; reflexivity..|].
  apply (leader_never_oversleeps SchedulerExample.context 1700000057000 100 SchedulerExample.started).
  - exists (mkValidator "zyn2" "key2"). split; [right; left|reflexivity].
  - vm_compute. split; discriminate.
  - vm_compute. reflexivity.
  - vm_compute. reflexivity.
  - vm_compute. reflexivity.
Defined.
