(* ===== verification/BlockEnvelope.v ===== *)
(** Block validation (l1/src/block.ts, lines 262-348 and 451-542): the structure
    of an untrusted block, the authentication gates of its envelope and the
    verification of its transactions. *)

From S2P Require Import Prelude Types Codec Crypto Activity Transaction TxShape Block ConsensusV6.

(** [Buffer.byteLength(canonicalJson(value), "utf8")] *)
Definition canonical_bytes (value : json) : res Z :=
  text ← canonicalJson (to_units value); Ok (zlen (utf8 (default [] text))).

(** ** Structure *)

Definition isV6Header (rawHeader : json) : bool :=
  match rawHeader with
  | JObj header => bool_decide (as_int (get header "version") = Some CONSENSUS_V6_PROTOCOL_VERSION)
  | _ => false
  end.

(** A hash property: [if (typeof item !== "string") throw ...; assertHex(item, 32, name)]. *)
Definition hash_field (v : json) (name : string) : res string :=
  s ← as_text v ("Invalid " +:+ name);
  assertHex s 32 name;;
  Ok s.

Definition header_structure (v : json) : res BlockHeader :=
  header ← assertPlainRecord v "block header";
  assertExactKeys header ["version"; "chainId"; "height"; "round"; "previousHash"; "timestampMs";
    "transactionRoot"; "stateRoot"; "proposer"] "block header";;
  version ← safe_int (get header "version") (λ z, (z <? 1) || (65535 <? z)) "Invalid block header";
  chainId ← as_text (get header "chainId") "Invalid block header";
  height ← safe_int (get header "height") (λ z, z <? 0) "Invalid block height";
  round ← safe_int (get header "round") (λ z, z <? 0) "Invalid block round";
  timestampMs ← safe_int (get header "timestampMs") (λ _, false) "Invalid block timestampMs";
  previousHash ← hash_field (get header "previousHash") "previousHash";
  transactionRoot ← hash_field (get header "transactionRoot") "transactionRoot";
  stateRoot ← hash_field (get header "stateRoot") "stateRoot";
  let proposer := match get header "proposer" with JStr s => s | _ => "" end in (* checked by proposer_structure *)
  Ok (mkHeader version chainId height round previousHash timestampMs transactionRoot stateRoot proposer).

(** [if (header.proposer !== "GENESIS") assertAddress(header.proposer)], after
    the block hash was checked. *)
Definition proposer_structure (v : json) : res unit :=
  match v with
  | JStr "GENESIS" => Ok ()
  | _ => assertAddressValue v;; Ok ()
  end.

(** [value.proposerPublicKey !== null && typeof value.proposerPublicKey !== "string"] *)
Definition nullable_text (v : json) (msg : string) : res (option string) :=
  match v with JNull => Ok None | JStr s => Ok (Some s) | _ => Throw msg end.

Definition attestation_structure (v : json) : res BlockAttestation :=
  item ← assertPlainRecord v "block attestation";
  assertExactKeys item ["validator"; "publicKey"; "signature"] "block attestation";;
  validator ← assertAddressValue (get item "validator");
  publicKey ← as_text (get item "publicKey") "Invalid block attestation";
  signature ← as_text (get item "signature") "Invalid block attestation";
  assertHex publicKey 64 "attestation publicKey";;
  assertHex signature 64 "attestation signature";;
  Ok (mkAttestation validator publicKey signature).

Definition skip_structure (v : json) : res RoundSkipVote :=
  item ← assertPlainRecord v "round skip vote";
  assertExactKeys item ["validator"; "publicKey"; "chainId"; "height"; "round"; "previousHash"; "signature"] "round skip vote";;
  validator ← assertAddressValue (get item "validator");
  publicKey ← as_text (get item "publicKey") "Invalid round skip vote";
  chainId ← as_text (get item "chainId") "Invalid round skip vote";
  previousHash ← as_text (get item "previousHash") "Invalid round skip vote";
  signature ← as_text (get item "signature") "Invalid round skip vote";
  height ← safe_int (get item "height") (λ z, z <? 1) "Invalid round skip vote";
  round ← safe_int (get item "round") (λ z, z <? 0) "Invalid round skip vote";
  assertHex publicKey 64 "round skip publicKey";;
  assertHex previousHash 32 "round skip previousHash";;
  assertHex signature 64 "round skip signature";;
  Ok (mkRoundSkipVote validator publicKey chainId height round previousHash signature).

Definition BLOCK_KEYS : list string :=
  ["header"; "transactions"; "hash"; "proposerPublicKey"; "signature"; "roundCertificate"; "attestations"].

Definition commit_round_structure (v6 : bool) (value : record) : res CommitRound :=
  if v6 then
    assertExactKeys value (BLOCK_KEYS ++ ["commitRound"]) "block";;
    match get value "commitRound" with
    | JNull => Ok NullCommitRound
    | v => r ← safe_int v (λ z, (z <? 0) || (V6_MAX_ROUND <? z)) "Invalid block commitRound"; Ok (CommitAt r)
    end
  else
    assertExactKeys value BLOCK_KEYS "block";;
    Ok NoCommitRound.

Definition validateBlockStructure (v : json) : res RawBlock :=
  value ← assertPlainRecord v "block";
  commitRound ← commit_round_structure (isV6Header (get value "header")) value;
  header ← header_structure (get value "header");
  hash ← hash_field (get value "hash") "hash";
  match get value "header" with JObj h => proposer_structure (get h "proposer") | _ => Ok () end;;
  transactions ← as_array (get value "transactions") (λ _, false) "Invalid block transactions";
  attestations ← as_array (get value "attestations") (λ _, false) "Invalid block attestations";
  roundCertificate ← as_array (get value "roundCertificate") (λ _, false) "Invalid round certificate";
  throw_if (MAX_BLOCK_TRANSACTIONS <? zlen transactions) "Too many transactions";;
  throw_if (MAX_VALIDATOR_COUNT <? zlen attestations) "Too many block attestations";;
  throw_if (MAX_VALIDATOR_COUNT <? zlen roundCertificate) "Too many round certificate entries";;
  proposerPublicKey ← nullable_text (get value "proposerPublicKey") "Invalid proposer public key";
  signature ← nullable_text (get value "signature") "Invalid block signature";
  bytes ← canonical_bytes v;
  throw_if (MAX_BLOCK_BYTES <? bytes) "Block exceeds byte limit";;
  res_forall (λ tx, assertPlainRecord tx "transaction";; Ok ()) transactions;;
  attestations ← each attestation_structure attestations;
  roundCertificate ← each skip_structure roundCertificate;
  Ok (mkBlock header transactions hash proposerPublicKey signature roundCertificate attestations commitRound).

Section envelope.
Context `{Crypto}.

(** [for (const tx of block.transactions) validateTransactionShape(tx)]: the
    block with its transactions verified. *)
Definition validateBlockTransactions (block : RawBlock) : res Block :=
  transactions ← each (λ tx, validateTransactionShape tx None) (b_transactions block);
  Ok (mkBlock (b_header block) transactions (b_hash block) (b_proposerPublicKey block) (b_signature block)
    (b_roundCertificate block) (b_attestations block) (b_commitRound block)).

Definition validateBlockShape (v : json) : res Block :=
  block ← validateBlockStructure v;
  validateBlockTransactions block.

(** [!text] for a nullable string. *)
Definition missing (o : option string) : bool := match o with Some s => String.eqb s "" | None => true end.

(** The checks of the header against the chain, lines 304-317. *)
Definition gate_header (block : RawBlock) (previous : Block) (nowMs expectedProtocolVersion : Z) : res unit :=
  let header := b_header block in
  throw_if (negb (h_version header =? expectedProtocolVersion)) "Unexpected protocol version";;
  throw_if (negb (String.eqb (h_chainId header) (h_chainId (b_header previous)))) "Wrong chain ID";;
  throw_if (negb (h_height header =? h_height (b_header previous) + 1)) "Wrong block height";;
  throw_if (negb (String.eqb (h_previousHash header) (b_hash previous))) "Wrong previous hash";;
  throw_if (negb (isSafeInteger (h_round header)) || (h_round header <? 0)) "Invalid round";;
  throw_if (negb (isSafeInteger (h_timestampMs header))) "Invalid block timestamp";;
  throw_if (h_timestampMs header <=? h_timestampMs (b_header previous)) "Block time must increase";;
  throw_if (nowMs + 120000 <? h_timestampMs header) "Block time too far in future";;
  throw_if (MAX_BLOCK_TRANSACTIONS <? zlen (b_transactions block)) "Too many transactions";;
  root ← txs_root (b_transactions block);
  throw_if (negb (String.eqb (h_transactionRoot header) root)) "Transaction Merkle root mismatch";;
  hash ← blockHash header;
  throw_if (negb (String.eqb (b_hash block) hash)) "Block hash mismatch";;
  assertHex (b_hash block) 32 "block hash".

(** The proposer binding and signature, lines 318-333. *)
Definition gate_proposer (block : RawBlock) (validators : list Validator) (requireProposerSignature : bool) : res unit :=
  let header := b_header block in
  throw_if (missing (b_proposerPublicKey block) || (requireProposerSignature && missing (b_signature block)))
    "Missing proposer signature";;
  let proposerPublicKey := default "" (b_proposerPublicKey block) in
  assertHex proposerPublicKey 64 "proposerPublicKey";;
  throw_if (negb requireProposerSignature && bool_decide (is_Some (b_signature block))) "Prepared block must be unsigned";;
  (if missing (b_signature block) then Ok () else assertHex (default "" (b_signature block)) 64 "block signature");;
  expected ← expectedValidator validators (h_height header) (h_round header);
  throw_if (negb (String.eqb (h_proposer header) (v_address expected))) "Unexpected proposer";;
  throw_if (negb (String.eqb proposerPublicKey (v_publicKey expected))) "Unexpected proposer public key";;
  throw_if (requireProposerSignature &&
    negb (verifyForProtocol (h_version header) BLOCK_PROPOSAL_DOMAIN (header_json header) (default "" (b_signature block))
      proposerPublicKey)) "Invalid proposer signature".

(** The certificates, lines 334-347. *)
Definition gate_certificates (block : RawBlock) (validators : list Validator) (requireFinality : bool) : res unit :=
  if h_version (b_header block) =? CONSENSUS_V6_PROTOCOL_VERSION then
    throw_if (negb (zlen (b_roundCertificate block) =? 0)) "Protocol v6 blocks must not carry a round skip certificate";;
    if requireFinality then validateCommitCertificate block validators
    else throw_if (negb (bool_decide (b_commitRound block = NullCommitRound)) || negb (zlen (b_attestations block) =? 0))
           "Protocol v6 proposals must not carry a commit certificate"
  else
    validateRoundCertificate block validators;;
    if requireFinality then validateAttestationQuorum block validators else Ok ().

Definition validateBlockEnvelopeGates (v : json) (previous : Block) (validators : list Validator) (nowMs : Z)
    (requireFinality : bool) (expectedProtocolVersion : Z) (requireProposerSignature : bool) : res RawBlock :=
  throw_if (negb (isSafeInteger expectedProtocolVersion) || (expectedProtocolVersion <? 1))
    "Block envelope validation requires an explicit protocol version";;
  block ← validateBlockStructure v;
  bytes ← canonical_bytes v;
  throw_if (MAX_BLOCK_BYTES <? bytes) "Block exceeds byte limit";;
  gate_header block previous nowMs expectedProtocolVersion;;
  gate_proposer block validators requireProposerSignature;;
  gate_certificates block validators requireFinality;;
  Ok block.

Definition validateBlockEnvelope (v : json) (previous : Block) (validators : list Validator) (nowMs : Z)
    (requireFinality : bool) (expectedProtocolVersion : Z) (requireProposerSignature : bool) : res Block :=
  block ← validateBlockEnvelopeGates v previous validators nowMs requireFinality expectedProtocolVersion requireProposerSignature;
  validateBlockTransactions block.

(** ** What a finalized block proves *)

Lemma gate_header_sound (block : RawBlock) (previous : Block) (nowMs version : Z) (u : unit) :
  gate_header block previous nowMs version = Ok u →
  h_version (b_header block) = version ∧ h_height (b_header block) = h_height (b_header previous) + 1 ∧
  h_previousHash (b_header block) = b_hash previous ∧ blockHash (b_header block) = Ok (b_hash block) ∧
  txs_root (b_transactions block) = Ok (h_transactionRoot (b_header block)) ∧
  h_timestampMs (b_header previous) < h_timestampMs (b_header block) ≤ nowMs + 120000.
Proof.
  unfold gate_header. intros Hg. res_split. breflect.
  match goal with Hr : txs_root _ = Ok ?r, E : _ = ?r |- _ => rewrite <-E in Hr end.
  match goal with Hh : blockHash _ = Ok ?r, E : b_hash block = ?r |- _ => rewrite <-E in Hh end.
  split_and!; try done; lia.
Qed.

Lemma gate_proposer_sound (block : RawBlock) (validators : list Validator) (u : unit) :
  gate_proposer block validators true = Ok u →
  ∃ leader signature, expectedValidator validators (h_height (b_header block)) (h_round (b_header block)) = Ok leader ∧
    h_proposer (b_header block) = v_address leader ∧ b_signature block = Some signature ∧
    verifyForProtocol (h_version (b_header block)) BLOCK_PROPOSAL_DOMAIN (header_json (b_header block)) signature
      (v_publicKey leader) = true.
Proof.
  unfold gate_proposer. intros Hg. apply res_bind_Ok in Hg as ([] & Hm & Hg). apply throw_if_Ok in Hm.
  destruct (b_signature block) as [s|]; [|by rewrite orb_true_r in Hm]. res_split. breflect. cbn [andb negb default from_option id] in *.
  match goal with Hl : expectedValidator _ _ _ = Ok ?l |- _ => exists l, s end.
  split_and!; try done. destruct Hg as [?|Hv]; [done|]. congruence.
Qed.

Lemma commit_certificate_sound {T} (block : BlockOf T) (validators : list Validator) (u : unit) :
  validateCommitCertificate block validators = Ok u →
  ∃ commitRound, b_commitRound block = CommitAt commitRound ∧ h_round (b_header block) ≤ commitRound ∧
    vote_certificate validators V6_COMMIT_VOTE_DOMAIN
      (votePayload (h_chainId (b_header block)) (h_height (b_header block)) commitRound (b_hash block)) (b_attestations block).
Proof.
  unfold validateCommitCertificate. intros E. apply res_bind_Ok in E as (r & Hr & E).
  destruct (b_commitRound block) as [| |cr]; try discriminate. res_split. subst. breflect.
  exists r. split_and!; try done. by eapply validateVoteSet_sound.
Qed.

(** C39. A block that the envelope accepts as final extends the tip by one, is bound
    to its body by the header hash, was signed by the leader of its round, and
    carries a quorum: of commit votes for this block at the commit round under
    protocol v6, of attestations before. *)
Theorem finalized_block_sound (v : json) (previous : Block) (validators : list Validator) (nowMs version : Z) (block : RawBlock) :
  validateBlockEnvelopeGates v previous validators nowMs true version true = Ok block →
  (h_height (b_header block) = h_height (b_header previous) + 1 ∧ h_previousHash (b_header block) = b_hash previous ∧
   blockHash (b_header block) = Ok (b_hash block) ∧
   txs_root (b_transactions block) = Ok (h_transactionRoot (b_header block)) ∧
   h_timestampMs (b_header previous) < h_timestampMs (b_header block) ≤ nowMs + 120000) ∧
  (∃ leader signature, expectedValidator validators (h_height (b_header block)) (h_round (b_header block)) = Ok leader ∧
    b_signature block = Some signature ∧
    verifyForProtocol version BLOCK_PROPOSAL_DOMAIN (header_json (b_header block)) signature (v_publicKey leader) = true) ∧
  (if version =? CONSENSUS_V6_PROTOCOL_VERSION then
    ∃ commitRound, b_commitRound block = CommitAt commitRound ∧ h_round (b_header block) ≤ commitRound ∧
      vote_certificate validators V6_COMMIT_VOTE_DOMAIN
        (votePayload (h_chainId (b_header block)) (h_height (b_header block)) commitRound (b_hash block)) (b_attestations block)
   else quorum_of validators (at_validator <$> b_attestations block) ∧
     Forall (attested block validators) (b_attestations block)).
Proof.
  unfold validateBlockEnvelopeGates. intros Hg. res_split. subst.
  match goal with Hh : gate_header _ _ _ _ = Ok _ |- _ => apply gate_header_sound in Hh as (Hv & ? & ? & ? & ? & ?) end.
  match goal with Hp : gate_proposer _ _ _ = Ok _ |- _ => apply gate_proposer_sound in Hp as (l & s & ? & _ & ? & Hsig) end.
  match goal with Hc : gate_certificates _ _ _ = Ok _ |- _ => rename Hc into Hcert end.
  rewrite Hv in Hsig. split; [done|]. split; [eauto|].
  unfold gate_certificates in Hcert. rewrite Hv in Hcert. case_if.
  - res_split. by eapply commit_certificate_sound.
  - res_split. by eapply attestation_quorum_sound.
Qed.

End envelope.

Lemma finalized_block_sound_witness :
  (h_height (b_header (raw_of V6Example.finalized)) = h_height (b_header V6Example.previous) + 1 ∧
   h_previousHash (b_header (raw_of V6Example.finalized)) = b_hash V6Example.previous ∧
   blockHash (H := ToyCrypto.toy) (b_header (raw_of V6Example.finalized)) = Ok (b_hash (raw_of V6Example.finalized)) ∧
   txs_root (H := ToyCrypto.toy) (b_transactions (raw_of V6Example.finalized)) =
     Ok (h_transactionRoot (b_header (raw_of V6Example.finalized))) ∧
   h_timestampMs (b_header V6Example.previous) < h_timestampMs (b_header (raw_of V6Example.finalized)) ≤ 1700000031000 + 120000) ∧
  (∃ leader signature, expectedValidator V6Example.validators (h_height (b_header (raw_of V6Example.finalized)))
      (h_round (b_header (raw_of V6Example.finalized))) = Ok leader ∧
    b_signature (raw_of V6Example.finalized) = Some signature ∧
    verifyForProtocol (H := ToyCrypto.toy) 6 BLOCK_PROPOSAL_DOMAIN (header_json (b_header (raw_of V6Example.finalized))) signature
      (v_publicKey leader) = true) ∧
  (if 6 =? CONSENSUS_V6_PROTOCOL_VERSION then
    ∃ commitRound, b_commitRound (raw_of V6Example.finalized) = CommitAt commitRound ∧
      h_round (b_header (raw_of V6Example.finalized)) ≤ commitRound ∧
      vote_certificate (H := ToyCrypto.toy) V6Example.validators V6_COMMIT_VOTE_DOMAIN
        (votePayload (h_chainId (b_header (raw_of V6Example.finalized))) (h_height (b_header (raw_of V6Example.finalized)))
          commitRound (b_hash (raw_of V6Example.finalized))) (b_attestations (raw_of V6Example.finalized))
   else quorum_of V6Example.validators (at_validator <$> b_attestations (raw_of V6Example.finalized)) ∧
     Forall (attested (H := ToyCrypto.toy) (raw_of V6Example.finalized) V6Example.validators)
       (b_attestations (raw_of V6Example.finalized))).
Proof.
  apply (finalized_block_sound (H := ToyCrypto.toy) (raw_block_json (raw_of V6Example.finalized)) V6Example.previous
    V6Example.validators 1700000031000 6 (raw_of V6Example.finalized)).
  vm_compute. reflexivity.
Defined.
