(* ===== verification/Mempool.v ===== *)
(** The pool of pending transactions (l1/src/mempool.ts): admission with fee
    rules, same-nonce replacement, eviction under count and byte limits, the
    reserve of protocol transactions, and the counters the node reads.

    [byId] and [admittedAtMs] are enumerated by the code, so their insertion order
    is kept; the other maps are only looked up. *)

From S2P Require Import Prelude JsMap Types Codec JsonText Crypto Activity Transaction TxShape Ledger SparseTree StateV2 StateV2Root Mining Portable Block ConsensusV6 BlockEnvelope.

(** [try { m } catch (error) { handler(error) }] *)
Definition m_catch {S A} (m : meth S A) (handler : string → meth S A) : meth S A := λ s,
  match m s with
  | (s', Throw e) => handler e s'
  | r => r
  end.

Definition REPLACEMENT_BUMP_NUMERATOR : Z := 11.
Definition REPLACEMENT_BUMP_DENOMINATOR : Z := 10.
Definition MAX_MINING_MEMPOOL_CLAIMS : Z := 256.
Definition DEFAULT_MEMPOOL_NON_MINING_CAPACITY : Z := 10000.
Definition DEFAULT_MEMPOOL_NON_MINING_MAX_BYTES : Z := 64 * 1024 * 1024.
Definition DEFAULT_MINING_MEMPOOL_MAX_BYTES : Z := 4 * 1024 * 1024.
Definition DEFAULT_MEMPOOL_PROTOCOL_RESERVE : Z := 256.
Definition DEFAULT_MEMPOOL_PROTOCOL_RESERVE_BYTES : Z := 1024 * 1024.

Definition FULL : string := "Mempool full".
Definition MINING_FULL : string := "Mining mempool full".
Definition BROKEN : string := "Mempool occupancy invariant violated".

Record MempoolOptions := mkMempoolOptions {
  mo_disableFeeReplacement : bool;
  mo_fixedTransferFeeAtoms : option Z;
  mo_minTransferFeeAtoms : option Z;
  mo_maxPendingPerSender : option Z;
  mo_protocolReserve : option Z;
  mo_protocolReserveBytes : option Z }.

(** The fields the constructor fixes. *)
Record Limits := mkLimits {
  lm_maxNonMiningSize : Z;
  lm_miningReserve : Z;
  lm_maxNonMiningBytes : Z;
  lm_maxMiningBytes : Z;
  lm_protocolReserve : Z;
  lm_protocolReserveBytes : Z;
  lm_disableFeeReplacement : bool;
  lm_fixedTransferFeeAtoms : option Z;
  lm_maxPendingPerSender : option Z;
  lm_minTransferFeeAtoms : Z }.

Record Occupancy := mkOccupancy {
  oc_miningSize : Z;
  oc_nonMiningSize : Z;
  oc_miningBytes : Z;
  oc_nonMiningBytes : Z;
  oc_transferSize : Z;
  oc_transferBytes : Z }.

(** [mp_evictionCache] is [nonMiningEvictionCache] when
    [nonMiningEvictionCacheValid], [None] when it is not valid. *)
Record Mempool := mkMempool {
  mp_limits : Limits;
  mp_byId : js_map Transaction;
  mp_nonceIds : gmap string string;
  mp_transferSpendBySender : gmap string Z;
  mp_occupancy : Occupancy;
  mp_evictionCache : option (option (string * Transaction));
  mp_pendingBySender : gmap string Z;
  mp_validatorUpdatesBySender : gmap string Z;
  mp_validatorUpdateIds : list string;
  mp_admittedAtMs : js_map Z }.

(** [this.field = f(this.field)] *)
Definition upd_byId (f : js_map Transaction → js_map Transaction) (m : Mempool) : Mempool :=
  mkMempool (mp_limits m) (f (mp_byId m)) (mp_nonceIds m) (mp_transferSpendBySender m) (mp_occupancy m) (mp_evictionCache m)
    (mp_pendingBySender m) (mp_validatorUpdatesBySender m) (mp_validatorUpdateIds m) (mp_admittedAtMs m).
Definition upd_nonceIds (f : gmap string string → gmap string string) (m : Mempool) : Mempool :=
  mkMempool (mp_limits m) (mp_byId m) (f (mp_nonceIds m)) (mp_transferSpendBySender m) (mp_occupancy m) (mp_evictionCache m)
    (mp_pendingBySender m) (mp_validatorUpdatesBySender m) (mp_validatorUpdateIds m) (mp_admittedAtMs m).
Definition upd_spend (f : gmap string Z → gmap string Z) (m : Mempool) : Mempool :=
  mkMempool (mp_limits m) (mp_byId m) (mp_nonceIds m) (f (mp_transferSpendBySender m)) (mp_occupancy m) (mp_evictionCache m)
    (mp_pendingBySender m) (mp_validatorUpdatesBySender m) (mp_validatorUpdateIds m) (mp_admittedAtMs m).
Definition upd_occupancy (f : Occupancy → Occupancy) (m : Mempool) : Mempool :=
  mkMempool (mp_limits m) (mp_byId m) (mp_nonceIds m) (mp_transferSpendBySender m) (f (mp_occupancy m)) (mp_evictionCache m)
    (mp_pendingBySender m) (mp_validatorUpdatesBySender m) (mp_validatorUpdateIds m) (mp_admittedAtMs m).
Definition set_cache (c : option (option (string * Transaction))) (m : Mempool) : Mempool :=
  mkMempool (mp_limits m) (mp_byId m) (mp_nonceIds m) (mp_transferSpendBySender m) (mp_occupancy m) c
    (mp_pendingBySender m) (mp_validatorUpdatesBySender m) (mp_validatorUpdateIds m) (mp_admittedAtMs m).
Definition upd_pending (f : gmap string Z → gmap string Z) (m : Mempool) : Mempool :=
  mkMempool (mp_limits m) (mp_byId m) (mp_nonceIds m) (mp_transferSpendBySender m) (mp_occupancy m) (mp_evictionCache m)
    (f (mp_pendingBySender m)) (mp_validatorUpdatesBySender m) (mp_validatorUpdateIds m) (mp_admittedAtMs m).
Definition upd_updateSenders (f : gmap string Z → gmap string Z) (m : Mempool) : Mempool :=
  mkMempool (mp_limits m) (mp_byId m) (mp_nonceIds m) (mp_transferSpendBySender m) (mp_occupancy m) (mp_evictionCache m)
    (mp_pendingBySender m) (f (mp_validatorUpdatesBySender m)) (mp_validatorUpdateIds m) (mp_admittedAtMs m).
Definition upd_updateIds (f : list string → list string) (m : Mempool) : Mempool :=
  mkMempool (mp_limits m) (mp_byId m) (mp_nonceIds m) (mp_transferSpendBySender m) (mp_occupancy m) (mp_evictionCache m)
    (mp_pendingBySender m) (mp_validatorUpdatesBySender m) (f (mp_validatorUpdateIds m)) (mp_admittedAtMs m).
Definition upd_admitted (f : js_map Z → js_map Z) (m : Mempool) : Mempool :=
  mkMempool (mp_limits m) (mp_byId m) (mp_nonceIds m) (mp_transferSpendBySender m) (mp_occupancy m) (mp_evictionCache m)
    (mp_pendingBySender m) (mp_validatorUpdatesBySender m) (mp_validatorUpdateIds m) (f (mp_admittedAtMs m)).

(** ** Configuration *)

Definition parseMempoolMinFeeAtoms (value : option string) (name : string) : res (option Z) :=
  match value with
  | None | Some "" => Ok None
  | Some text =>
    let bad := "Invalid " +:+ name +:+ ": expected a non-negative integer number of atoms" in
    throw_if (negb (isDecimal text)) bad;;
    let parsed := digits_value (lit text) in
    throw_if (negb (isSafeInteger parsed)) bad;;
    Ok (Some parsed)
  end.

Definition nodeTransferFeeAtoms (fixedTransferFeeAtoms minTransferFeeAtoms : option Z) : Z :=
  match fixedTransferFeeAtoms with Some f => f | None => default 0 minTransferFeeAtoms end.

Definition belowMinTransferFeeMessage (feeAtoms minTransferFeeAtoms : Z) : string :=
  "Transfer fee " +:+ pretty feeAtoms +:+ " atoms is below this node's minimum transfer fee of " +:+ pretty minTransferFeeAtoms +:+
  " atoms; resend with a fee of at least " +:+ pretty minTransferFeeAtoms +:+ " atoms (CLI: --fee-atoms " +:+ pretty minTransferFeeAtoms +:+ ")".

Definition bad_limit (bound : Z) (value : Z) : bool := negb (isSafeInteger value) || (value <? bound).

(** [new Mempool(...)]; [options] absent is every option absent. *)
Definition new_mempool (maxNonMiningSize miningReserve : option Z) (maxNonMiningBytes maxMiningBytes : Z) (options : MempoolOptions)
    : res Mempool :=
  let size := default DEFAULT_MEMPOOL_NON_MINING_CAPACITY maxNonMiningSize in
  let reserve := default (if bool_decide (maxNonMiningSize = None) then MAX_MINING_MEMPOOL_CLAIMS else 0) miningReserve in
  throw_if (bad_limit 1 size) "Invalid mempool capacity";;
  throw_if (bad_limit 0 reserve || (MAX_MINING_MEMPOOL_CLAIMS <? reserve)) "Invalid mining mempool reserve";;
  throw_if (bad_limit 1 maxNonMiningBytes) "Invalid non-mining mempool byte capacity";;
  throw_if (bad_limit 1 maxMiningBytes) "Invalid mining mempool byte capacity";;
  let protocolReserve := default (Z.min DEFAULT_MEMPOOL_PROTOCOL_RESERVE (math_floor_div size 8)) (mo_protocolReserve options) in
  let protocolReserveBytes := default (if maxNonMiningBytes =? DEFAULT_MEMPOOL_NON_MINING_MAX_BYTES then DEFAULT_MEMPOOL_PROTOCOL_RESERVE_BYTES else 0)
    (mo_protocolReserveBytes options) in
  throw_if (bad_limit 0 protocolReserve || (size <=? protocolReserve)) "Invalid protocol mempool reserve";;
  throw_if (bad_limit 0 protocolReserveBytes || (maxNonMiningBytes <=? protocolReserveBytes)) "Invalid protocol mempool byte reserve";;
  throw_if (from_option (bad_limit 1) false (mo_fixedTransferFeeAtoms options)) "Invalid fixed transfer fee";;
  throw_if (from_option (bad_limit 0) false (mo_minTransferFeeAtoms options)) "Invalid minimum transfer fee";;
  let minTransferFeeAtoms := if bool_decide (mo_fixedTransferFeeAtoms options = None) then default 0 (mo_minTransferFeeAtoms options) else 0 in
  throw_if (from_option (bad_limit 1) false (mo_maxPendingPerSender options)) "Invalid per-sender mempool cap";;
  Ok (mkMempool
    (mkLimits size reserve maxNonMiningBytes maxMiningBytes protocolReserve protocolReserveBytes (mo_disableFeeReplacement options)
      (mo_fixedTransferFeeAtoms options) (mo_maxPendingPerSender options) minTransferFeeAtoms)
    [] ∅ ∅ (mkOccupancy 0 0 0 0 0 0) None ∅ ∅ [] []).

Section mempool.
Context `{Crypto}.

(** ** Sizes and priorities *)

Definition transactionBytes (tx : Transaction) : res Z :=
  bytes ← canonical_bytes (tx_json tx);
  throw_if (negb (isSafeInteger bytes) || (bytes <? 1)) "Invalid mempool transaction byte size";;
  Ok bytes.

Definition hasRequiredFeeRateBump (existing incoming : Transaction) : res bool :=
  match existing, incoming with
  | Transfer e, Transfer i =>
    existingBytes ← transactionBytes existing;
    incomingBytes ← transactionBytes incoming;
    let incomingWeighted := tr_feeAtoms i * existingBytes * REPLACEMENT_BUMP_DENOMINATOR in
    let existingWeighted := tr_feeAtoms e * incomingBytes * REPLACEMENT_BUMP_NUMERATOR in
    Ok ((tr_feeAtoms e <? tr_feeAtoms i) && (existingWeighted <=? incomingWeighted))
  | _, _ => Ok false
  end.

Definition compareFeeRate (left right : Transaction) : res Z :=
  match left, right with
  | Transfer l, Transfer r =>
    leftBytes ← transactionBytes left;
    rightBytes ← transactionBytes right;
    Ok (Z.sgn (tr_feeAtoms l * rightBytes - tr_feeAtoms r * leftBytes))
  | _, _ => Ok 0
  end.

Definition compareMiningPriority (left right : MiningClaimTx) : res Z :=
  if negb (mc_height left =? mc_height right) then Ok (if mc_height right <? mc_height left then 1 else -1)
  else
    leftHash ← miningWorkHash left;
    rightHash ← miningWorkHash right;
    Ok (if negb (String.eqb leftHash rightHash) then (if negb (text_leb rightHash leftHash) then 1 else -1) else 0).

Definition isBetterMiningClaim (existing incoming : MiningClaimTx) : res bool :=
  c ← compareMiningPriority incoming existing; Ok (0 <? c).

Definition isValidReplacement (existing incoming : Transaction) (disableFeeReplacement : bool) : res bool :=
  match existing, incoming with
  | Transfer _, Transfer _ => if disableFeeReplacement then Ok false else hasRequiredFeeRateBump existing incoming
  | MiningClaim e, MiningClaim i => isBetterMiningClaim e i
  | _, _ => Ok false
  end.

Definition nonceKey (sender : string) (nonce : Z) : string := sender +:+ ":" +:+ pretty nonce.
Definition tx_key (tx : Transaction) : string := nonceKey (tx_sender tx) (tx_nonce tx).

Definition is_mining (tx : Transaction) : bool := match tx with MiningClaim _ => true | _ => false end.
Definition is_transfer (tx : Transaction) : bool := match tx with Transfer _ => true | _ => false end.
Definition is_update (tx : Transaction) : bool := match tx with ValidatorUpdate _ => true | _ => false end.

(** ** Counters *)

Definition occupy (tx : Transaction) (direction bytes : Z) (o : Occupancy) : Occupancy :=
  let '(mkOccupancy ms ns mb nb ts tb) := o in
  match tx with
  | MiningClaim _ => mkOccupancy (ms + direction) ns (mb + direction * bytes) nb ts tb
  | Transfer _ => mkOccupancy ms (ns + direction) mb (nb + direction * bytes) (ts + direction) (tb + direction * bytes)
  | _ => mkOccupancy ms (ns + direction) mb (nb + direction * bytes) ts tb
  end.

Definition occupancy_broken (m : Mempool) : bool :=
  let o := mp_occupancy m in
  (oc_miningSize o <? 0) || (oc_nonMiningSize o <? 0) || (oc_miningBytes o <? 0) || (oc_nonMiningBytes o <? 0) ||
  (lm_maxMiningBytes (mp_limits m) <? oc_miningBytes o) || (lm_maxNonMiningBytes (mp_limits m) <? oc_nonMiningBytes o) ||
  negb (oc_miningSize o + oc_nonMiningSize o =? zlen (mp_byId m)).

Definition adjustOccupancy (tx : Transaction) (direction bytes : Z) : meth Mempool unit :=
  m_modify (upd_occupancy (occupy tx direction bytes));;
  m ← m_get;
  m_throw_if (occupancy_broken m) BROKEN.

Definition transfer_spend (tx : Transaction) : Z := match tx with Transfer t => tr_amountAtoms t + tr_feeAtoms t | _ => 0 end.
Definition put_or_drop (k : string) (v : Z) (s : gmap string Z) : gmap string Z := if v =? 0 then delete k s else <[k := v]> s.

Definition adjustTransferSpend (tx : Transaction) (direction : Z) : meth Mempool unit :=
  match tx with
  | Transfer t =>
    m_modify (upd_spend (λ s, put_or_drop (tr_sender t) (default 0 (s !! tr_sender t) + direction * transfer_spend tx) s))
  | _ => mret ()
  end.

Definition adjustValidatorUpdateSender (sender : string) (direction : Z) : meth Mempool unit :=
  m ← m_get;
  let next := default 0 (mp_validatorUpdatesBySender m !! sender) + direction in
  m_throw_if (next <? 0) BROKEN;;
  m_modify (upd_updateSenders (put_or_drop sender next)).

Definition adjustSenderCount (sender : string) (direction : Z) : meth Mempool unit :=
  m ← m_get;
  let next := default 0 (mp_pendingBySender m !! sender) + direction in
  m_throw_if (next <? 0) BROKEN;;
  m_modify (upd_pending (put_or_drop sender next)).

Definition invalidateNonMiningEvictionCache : meth Mempool unit := m_modify (set_cache None).

(** ** Storing and deleting *)

Definition store (tx : Transaction) (txid key : string) (txBytes admittedAtMs : Z) : meth Mempool unit :=
  m_modify (upd_byId (jm_set txid tx));;
  m_modify (upd_nonceIds (<[key := txid]>));;
  m_modify (upd_admitted (λ a, jm_set key (default admittedAtMs (jm_get key a)) a));;
  adjustOccupancy tx 1 txBytes;;
  adjustTransferSpend tx 1;;
  adjustSenderCount (tx_sender tx) 1;;
  (if is_update tx then
     adjustValidatorUpdateSender (tx_sender tx) 1;;
     m_modify (upd_updateIds (λ ids, if bool_decide (tx_txid tx ∈ ids) then ids else ids ++ [tx_txid tx]))
   else mret ());;
  invalidateNonMiningEvictionCache.

Definition deleteTransaction (txid : string) (tx : Transaction) (keepAdmission : bool) : meth Mempool unit :=
  m_modify (upd_byId (jm_delete txid));;
  m_modify (upd_nonceIds (delete (tx_key tx)));;
  (if keepAdmission then mret () else m_modify (upd_admitted (jm_delete (tx_key tx))));;
  bytes ← m_lift (transactionBytes tx);
  adjustOccupancy tx (-1) bytes;;
  adjustTransferSpend tx (-1);;
  adjustSenderCount (tx_sender tx) (-1);;
  (if is_update tx then
     adjustValidatorUpdateSender (tx_sender tx) (-1);;
     m_modify (upd_updateIds (filter (λ id, id ≠ tx_txid tx)))
   else mret ());;
  invalidateNonMiningEvictionCache.

(** ** Eviction *)

Definition weakestMiningClaim (m : Mempool) : res (option (string * MiningClaimTx)) :=
  res_fold (λ selected e,
    match e.2 with
    | MiningClaim t =>
      match selected with
      | None => Ok (Some (e.1, t))
      | Some s => c ← compareMiningPriority t s.2; Ok (if c <? 0 then Some (e.1, t) else selected)
      end
    | _ => Ok selected
    end) None (mp_byId m).

Definition highestNonces (byId : js_map Transaction) : gmap string Z :=
  fold_left (λ h e, <[tx_sender e.2 := Z.max (default 0 (h !! tx_sender e.2)) (tx_nonce e.2)]> h) byId ∅.

(** One iteration of the search. *)
Definition eviction_step (highest : gmap string Z) (selected : option (string * Transaction)) (e : string * Transaction)
    : res (option (string * Transaction)) :=
  if negb (is_transfer e.2) || negb (bool_decide (highest !! tx_sender e.2 = Some (tx_nonce e.2))) then Ok selected
  else match selected with
  | None => Ok (Some e)
  | Some s =>
    c ← compareFeeRate e.2 s.2;
    Ok (if (c <? 0) || ((c =? 0) && (tx_timestampMs e.2 <? tx_timestampMs s.2)) then Some e else selected)
  end.

Definition computeLowestPriorityEvictableTransfer (byId : js_map Transaction) : res (option (string * Transaction)) :=
  res_fold (eviction_step (highestNonces byId)) None byId.

Definition lowestPriorityEvictableTransfer : meth Mempool (option (string * Transaction)) :=
  m ← m_get;
  match mp_evictionCache m with
  | Some selected => mret selected
  | None =>
    selected ← m_lift (computeLowestPriorityEvictableTransfer (mp_byId m));
    m_modify (set_cache (Some selected));;
    mret selected
  end.

(** ** Admission *)

(** Whether the non-mining limits refuse [tx] without an eviction. *)
Definition non_mining_full (m : Mempool) (tx : Transaction) (txBytes : Z) : bool :=
  let l := mp_limits m in let o := mp_occupancy m in
  (lm_maxNonMiningSize l <=? oc_nonMiningSize o) || (lm_maxNonMiningBytes l <? oc_nonMiningBytes o + txBytes) ||
  (is_transfer tx &&
    ((lm_maxNonMiningSize l - lm_protocolReserve l <=? oc_transferSize o) ||
     (lm_maxNonMiningBytes l - lm_protocolReserveBytes l <? oc_transferBytes o + txBytes))).

Definition mining_room (tx : MiningClaimTx) (txBytes : Z) : meth Mempool unit :=
  m ← m_get;
  let l := mp_limits m in let o := mp_occupancy m in
  let configured := if 0 <? lm_miningReserve l then lm_miningReserve l else MAX_MINING_MEMPOOL_CLAIMS in
  if (configured <=? oc_miningSize o) || (lm_maxNonMiningSize l + lm_miningReserve l <=? zlen (mp_byId m)) ||
     (lm_maxMiningBytes l <? oc_miningBytes o + txBytes) then
    weakest ← m_lift (weakestMiningClaim m);
    match weakest with
    | None => m_lift (Throw MINING_FULL)
    | Some (txid, t) =>
      better ← m_lift (isBetterMiningClaim t tx);
      m_throw_if (negb better) MINING_FULL;;
      bytes ← m_lift (transactionBytes (MiningClaim t));
      m_throw_if (lm_maxMiningBytes l <? oc_miningBytes o - bytes + txBytes) MINING_FULL;;
      deleteTransaction txid (MiningClaim t) false
    end
  else mret ().

Definition non_mining_room (tx : Transaction) (txBytes : Z) : meth Mempool unit :=
  m ← m_get;
  let l := mp_limits m in
  if non_mining_full m tx txBytes then
    m_throw_if (lm_disableFeeReplacement l && is_transfer tx) FULL;;
    eviction ← lowestPriorityEvictableTransfer;
    match eviction with
    | None => m_lift (Throw FULL)
    | Some (txid, evicted) =>
      bumped ← (if is_transfer tx then m_lift (hasRequiredFeeRateBump evicted tx) else mret true);
      m_throw_if (negb bumped) FULL;;
      bytes ← m_lift (transactionBytes evicted);
      m_throw_if (lm_maxNonMiningBytes l <? oc_nonMiningBytes (mp_occupancy m) - bytes + txBytes) FULL;;
      deleteTransaction txid evicted false
    end
  else mret ().

Definition insertAfterCapacity (tx : Transaction) (txBytes : Z) (key : string) (admittedAtMs : Z) : meth Mempool unit :=
  match tx with MiningClaim t => mining_room t txBytes | _ => non_mining_room tx txBytes end;;
  store tx (tx_txid tx) key txBytes admittedAtMs.

(** The fee rules and the first checks of [add]. *)
Definition add_checks (m : Mempool) (tx : Transaction) : res Z :=
  let l := mp_limits m in
  (if is_mining tx then assertMiningNotRetired else Ok ());;
  throw_if (from_option (λ fixed, is_transfer tx && negb (tx_feeAtoms tx =? fixed)) false (lm_fixedTransferFeeAtoms l)) FIXED_FEE_MISMATCH_MESSAGE;;
  throw_if (is_transfer tx && (tx_feeAtoms tx <? lm_minTransferFeeAtoms l)) (belowMinTransferFeeMessage (tx_feeAtoms tx) (lm_minTransferFeeAtoms l));;
  throw_if (bool_decide (is_Some (jm_get (tx_txid tx) (mp_byId m)))) "Transaction already in mempool";;
  txBytes ← transactionBytes tx;
  (if is_mining tx then throw_if (lm_maxMiningBytes l <? txBytes) MINING_FULL else throw_if (lm_maxNonMiningBytes l <? txBytes) FULL);;
  Ok txBytes.

(** Replacing the pending transaction of the same sender and nonce. *)
Definition replace (tx : Transaction) (txBytes : Z) (key conflictingId : string) (admittedAtMs : Z) : meth Mempool unit :=
  m ← m_get;
  conflicting ← m_lift (unwrap (jm_get conflictingId (mp_byId m)) "Cannot read properties of undefined (reading 'kind')");
  valid ← m_lift (isValidReplacement conflicting tx (lm_disableFeeReplacement (mp_limits m)));
  m_throw_if (negb valid) "Conflicting sender nonce";;
  conflictingBytes ← m_lift (transactionBytes conflicting);
  (if is_mining tx
   then m_throw_if (lm_maxMiningBytes (mp_limits m) <? oc_miningBytes (mp_occupancy m) - conflictingBytes + txBytes) MINING_FULL
   else m_throw_if (lm_maxNonMiningBytes (mp_limits m) <? oc_nonMiningBytes (mp_occupancy m) - conflictingBytes + txBytes) FULL);;
  deleteTransaction conflictingId conflicting true;;
  m_catch (insertAfterCapacity tx txBytes key admittedAtMs)
    (λ error,
      bytes ← m_lift (transactionBytes conflicting);
      store conflicting conflictingId key bytes admittedAtMs;;
      m_lift (Throw error)).

(** [const conflictingId = this.nonceIds.get(nonceKey); if (conflictingId) ...]:
    an empty text counts as absent. *)
Definition conflict_of (m : Mempool) (key : string) : option string :=
  match mp_nonceIds m !! key with Some id => if String.eqb id "" then None else Some id | None => None end.

Definition add (tx : Transaction) (admittedAtMs : Z) : meth Mempool unit :=
  m ← m_get;
  txBytes ← m_lift (add_checks m tx);
  let key := tx_key tx in
  match conflict_of m key with
  | Some conflictingId => replace tx txBytes key conflictingId admittedAtMs
  | None =>
    m_throw_if (from_option (λ cap, cap <=? default 0 (mp_pendingBySender m !! tx_sender tx)) false (lm_maxPendingPerSender (mp_limits m)))
      "Per-sender mempool cap exceeded";;
    insertAfterCapacity tx txBytes key admittedAtMs
  end.

(** ** Removal *)

Definition remove (txids : list string) : meth Mempool unit :=
  m_for (λ txid, m ← m_get; match jm_get txid (mp_byId m) with Some tx => deleteTransaction txid tx false | None => mret () end) txids.

(** Deleting while enumerating: the entries still in the map are visited in order. *)
Definition prune (predicate : Transaction → bool) : meth Mempool Z :=
  m ← m_get;
  let doomed := filter (λ e, predicate e.2 = true) (mp_byId m) in
  m_for (λ e, deleteTransaction e.1 e.2 false) doomed;;
  mret (zlen doomed).

(** ** Queries *)

Definition values (m : Mempool) : list Transaction := (mp_byId m).*2.
Definition validatorUpdates (m : Mempool) : list Transaction := omap (λ id, jm_get id (mp_byId m)) (mp_validatorUpdateIds m).
Definition hasValidatorUpdateFrom (m : Mempool) (sender : string) : bool := bool_decide (is_Some (mp_validatorUpdatesBySender m !! sender)).
Definition pendingTransferSpend (m : Mempool) (sender : string) : Z := default 0 (mp_transferSpendBySender m !! sender).
Definition conflictingTransaction (m : Mempool) (sender : string) (nonce : Z) : option Transaction :=
  txid ← conflict_of m (nonceKey sender nonce); jm_get txid (mp_byId m).
Definition hasSenderNonce (m : Mempool) (sender : string) (nonce : Z) : bool :=
  bool_decide (is_Some (mp_nonceIds m !! nonceKey sender nonce)).
Definition senderPendingCount (m : Mempool) (sender : string) : Z := default 0 (mp_pendingBySender m !! sender).

(** [for (let nonce = afterNonce + 1; nonce < beforeNonce; nonce += 1)] *)
Definition senderNonceRange (m : Mempool) (sender : string) (afterNonce beforeNonce : Z) : list Transaction :=
  omap (λ nonce, conflictingTransaction m sender nonce) (seqZ (afterNonce + 1) (beforeNonce - afterNonce - 1)).

(** The loop stops at the first slot that is younger. *)
Fixpoint admitted_scan (m : Mempool) (cutoffMs : Z) (slots : js_map Z) : list (string * string * Z) :=
  match slots with
  | [] => []
  | (key, admittedAtMs) :: rest =>
    if cutoffMs <? admittedAtMs then []
    else match mp_nonceIds m !! key with
      | Some txid =>
        match jm_get txid (mp_byId m) with
        | Some tx => (txid, tx_sender tx, tx_nonce tx) :: admitted_scan m cutoffMs rest
        | None => admitted_scan m cutoffMs rest
        end
      | None => admitted_scan m cutoffMs rest
      end
  end.
Definition admittedAtOrBefore (m : Mempool) (cutoffMs : Z) : list (string * string * Z) := admitted_scan m cutoffMs (mp_admittedAtMs m).

(** The plain accessors. *)
Definition has (m : Mempool) (txid : string) : bool := bool_decide (is_Some (jm_get txid (mp_byId m))).
Definition size (m : Mempool) : Z := zlen (mp_byId m).

(** ** What the counters count *)

Definition bytes_of (tx : Transaction) : Z := match transactionBytes tx with Ok b => b | Throw _ => 0 end.

(** What the chain's admission guarantees of a transaction it hands to the pool. *)
Record pool_tx (tx : Transaction) : Prop := {
  pt_sender : isAddress (tx_sender tx) = true;
  pt_nonce : 1 ≤ tx_nonce tx;
  pt_live : is_mining tx = false;
  pt_id : tx_txid tx ≠ "";
  pt_bytes : transactionBytes tx = Ok (bytes_of tx) }.

Definition total (f : Transaction → Z) (l : js_map Transaction) : Z := sumZ (λ e, f e.2) l.
Definition from_sender (s : string) (f : Transaction → Z) (tx : Transaction) : Z := if String.eqb (tx_sender tx) s then f tx else 0.
Definition one (P : Transaction → bool) (f : Transaction → Z) (tx : Transaction) : Z := if P tx then f tx else 0.

Definition tally (l : js_map Transaction) : Occupancy :=
  mkOccupancy 0 (total (λ _, 1) l) 0 (total bytes_of l) (total (one is_transfer (λ _, 1)) l) (total (one is_transfer bytes_of) l).

(** A map of totals by sender that stores no zero. *)
Definition counts (f : Transaction → Z) (l : js_map Transaction) (g : gmap string Z) : Prop :=
  ∀ s, g !! s = if total (from_sender s f) l =? 0 then None else Some (total (from_sender s f) l).

(** The indexes and counters agree with the pool; [extra] are the nonce slots
    whose admission time is kept although nothing is pending in them. *)
Record tracked (extra : list string) (m : Mempool) : Prop := {
  tk_entries : Forall (λ e, e.1 = tx_txid e.2 ∧ pool_tx e.2) (mp_byId m);
  tk_nodup : NoDup (jm_keys (mp_byId m));
  tk_nonce : ∀ key id, mp_nonceIds m !! key = Some id ↔ ∃ tx, (id, tx) ∈ mp_byId m ∧ tx_key tx = key;
  tk_spend : counts transfer_spend (mp_byId m) (mp_transferSpendBySender m);
  tk_pending : counts (λ _, 1) (mp_byId m) (mp_pendingBySender m);
  tk_updates : counts (one is_update (λ _, 1)) (mp_byId m) (mp_validatorUpdatesBySender m);
  tk_updateIds : ∀ id, id ∈ mp_validatorUpdateIds m ↔ ∃ tx, (id, tx) ∈ mp_byId m ∧ is_update tx = true;
  tk_occupancy : mp_occupancy m = tally (mp_byId m);
  tk_bytes : total bytes_of (mp_byId m) ≤ lm_maxNonMiningBytes (mp_limits m);
  tk_mining : 0 ≤ lm_maxMiningBytes (mp_limits m);
  tk_admitted : ∀ key, key ∈ jm_keys (mp_admittedAtMs m) ↔ is_Some (mp_nonceIds m !! key) ∨ key ∈ extra;
  tk_slots : NoDup (jm_keys (mp_admittedAtMs m));
  tk_cache : ∀ c, mp_evictionCache m = Some c → computeLowestPriorityEvictableTransfer (mp_byId m) = Ok c }.

Lemma total_cons f (e : string * Transaction) l : total f (e :: l) = f e.2 + total f l.
Proof. done. Qed.
Lemma total_snoc f (e : string * Transaction) l : total f (l ++ [e]) = total f l + f e.2.
Proof. unfold total. rewrite sumZ_app. cbn. lia. Qed.
Lemma total_perm f (l k : js_map Transaction) : l ≡ₚ k → total f l = total f k.
Proof. induction 1; rewrite ?total_cons; lia. Qed.
Lemma total_app f (l k : js_map Transaction) : total f (l ++ k) = total f l + total f k.
Proof. apply sumZ_app. Qed.
Lemma total_nonneg f (l : js_map Transaction) : (∀ e, e ∈ l → 0 ≤ f e.2) → 0 ≤ total f l.
Proof. apply sumZ_nonneg. Qed.
Lemma total_one (l : js_map Transaction) : total (λ _, 1) l = zlen l.
Proof. induction l as [|e l IH]; [done|]. rewrite total_cons, IH. unfold zlen. cbn [length]. lia. Qed.

Lemma pool_bytes (tx : Transaction) : pool_tx tx → 1 ≤ bytes_of tx.
Proof.
  intros [_ _ _ _ Hb]. unfold transactionBytes in Hb. apply res_bind_Ok in Hb as (b & _ & Hb). apply res_bind_Ok in Hb as (? & Ht%throw_if_Ok & Hb).
  apply Ok_inj in Hb as <-. breflect. lia.
Qed.

Lemma counts_change (f : Transaction → Z) (l l' : js_map Transaction) (g : gmap string Z) (sender : string) (d : Z) :
  counts f l g → (∀ s, total (from_sender s f) l' = total (from_sender s f) l + (if String.eqb sender s then d else 0)) →
  counts f l' (put_or_drop sender (default 0 (g !! sender) + d) g).
Proof.
  intros Hc Hl s. rewrite Hl. assert (default 0 (g !! sender) = total (from_sender sender f) l) as ->.
  { rewrite (Hc sender). destruct (Z.eqb_spec (total (from_sender sender f) l) 0); cbn; lia. }
  unfold put_or_drop. destruct (String.eqb_spec sender s) as [->|Hne].
  - destruct (Z.eqb_spec (total (from_sender s f) l + d) 0); [by rewrite lookup_delete_eq|by rewrite lookup_insert_eq].
  - rewrite Z.add_0_r. destruct (total (from_sender sender f) l + d =? 0); [rewrite lookup_delete_ne by done|rewrite lookup_insert_ne by done]; apply Hc.
Qed.
Lemma counts_same (f : Transaction → Z) (l l' : js_map Transaction) (g : gmap string Z) :
  counts f l g → (∀ s, total (from_sender s f) l' = total (from_sender s f) l) → counts f l' g.
Proof. intros Hc Hl s. rewrite Hl. apply Hc. Qed.
Lemma counts_default (f : Transaction → Z) (l : js_map Transaction) (g : gmap string Z) (s : string) :
  counts f l g → default 0 (g !! s) = total (from_sender s f) l.
Proof. intros Hc. rewrite (Hc s). destruct (Z.eqb_spec (total (from_sender s f) l) 0); cbn; lia. Qed.

Lemma from_sender_one (s : string) f (tx : Transaction) : from_sender s f tx = if String.eqb (tx_sender tx) s then f tx else 0.
Proof. done. Qed.

(** ** Running the setters *)

Lemma modify_run {S A} (f : S → S) (k : unit → meth S A) (s : S) : (m_modify f ≫= k) s = k () (f s).
Proof. done. Qed.
Lemma get_run {S A} (k : S → meth S A) (s : S) : (m_get ≫= k) s = k s s.
Proof. done. Qed.
Lemma lift_run {S A B} (r : res A) (a : A) (k : A → meth S B) (s : S) : r = Ok a → (m_lift r ≫= k) s = k a s.
Proof. by intros ->. Qed.
Lemma throw_run {S A} (b : bool) (e : string) (k : unit → meth S A) (s : S) : b = false → (m_throw_if b e ≫= k) s = k () s.
Proof. by intros ->. Qed.

Ltac mp_cbn :=
  cbn [upd_byId upd_nonceIds upd_spend upd_occupancy set_cache upd_pending upd_updateSenders upd_updateIds upd_admitted
    mp_limits mp_byId mp_nonceIds mp_transferSpendBySender mp_occupancy mp_evictionCache mp_pendingBySender
    mp_validatorUpdatesBySender mp_validatorUpdateIds mp_admittedAtMs].

(** What the counter methods do when no check fires. *)
Definition spend_after (tx : Transaction) (d : Z) (m : Mempool) : Mempool :=
  if is_transfer tx then upd_spend (λ s, put_or_drop (tx_sender tx) (default 0 (s !! tx_sender tx) + d * transfer_spend tx) s) m else m.
Definition updates_after (tx : Transaction) (d : Z) (ids : list string → list string) (m : Mempool) : Mempool :=
  if is_update tx then
    upd_updateIds ids (upd_updateSenders (λ g, put_or_drop (tx_sender tx) (default 0 (g !! tx_sender tx) + d) g) m)
  else m.

Lemma adjustTransferSpend_run (tx : Transaction) (d : Z) {A} (k : unit → meth Mempool A) (m : Mempool) :
  (adjustTransferSpend tx d ≫= k) m = k () (spend_after tx d m).
Proof. by destruct tx. Qed.
Lemma adjustSenderCount_run (s : string) (d : Z) {A} (k : unit → meth Mempool A) (m : Mempool) :
  0 ≤ default 0 (mp_pendingBySender m !! s) + d →
  (adjustSenderCount s d ≫= k) m = k () (upd_pending (λ g, put_or_drop s (default 0 (g !! s) + d) g) m).
Proof.
  intros Hn. unfold adjustSenderCount. rewrite meth_bind_run, get_run. cbv zeta. rewrite throw_run; [done|]. by apply Z.ltb_ge.
Qed.
Lemma adjustOccupancy_run (tx : Transaction) (d b : Z) {A} (k : unit → meth Mempool A) (m : Mempool) :
  occupancy_broken (upd_occupancy (occupy tx d b) m) = false →
  (adjustOccupancy tx d b ≫= k) m = k () (upd_occupancy (occupy tx d b) m).
Proof. intros Hb. unfold adjustOccupancy. rewrite meth_bind_run, modify_run, get_run. unfold m_throw_if, m_lift. by rewrite Hb. Qed.
Lemma updates_run (tx : Transaction) (d : Z) (ids : list string → list string) {A} (k : unit → meth Mempool A) (m : Mempool) :
  (is_update tx = true → 0 ≤ default 0 (mp_validatorUpdatesBySender m !! tx_sender tx) + d) →
  ((if is_update tx then adjustValidatorUpdateSender (tx_sender tx) d;; m_modify (upd_updateIds ids) else mret ()) ≫= k) m =
  k () (updates_after tx d ids m).
Proof.
  intros Hn. unfold updates_after. destruct (is_update tx); [|done]. rewrite !meth_bind_run. unfold adjustValidatorUpdateSender.
  rewrite get_run. cbv zeta. rewrite throw_run; [done|]. apply Z.ltb_ge. by apply Hn.
Qed.

(** The state after [store] and after [deleteTransaction]. *)
Definition stored (tx : Transaction) (t : Z) (m : Mempool) : Mempool :=
  set_cache None (updates_after tx 1 (λ ids, if bool_decide (tx_txid tx ∈ ids) then ids else ids ++ [tx_txid tx])
    (upd_pending (λ g, put_or_drop (tx_sender tx) (default 0 (g !! tx_sender tx) + 1) g)
    (spend_after tx 1
    (upd_occupancy (occupy tx 1 (bytes_of tx))
    (upd_admitted (λ a, jm_set (tx_key tx) (default t (jm_get (tx_key tx) a)) a)
    (upd_nonceIds (<[tx_key tx := tx_txid tx]>)
    (upd_byId (jm_set (tx_txid tx) tx) m))))))).
Definition deleted (tx : Transaction) (keep : bool) (m : Mempool) : Mempool :=
  set_cache None (updates_after tx (-1) (filter (λ id, id ≠ tx_txid tx))
    (upd_pending (λ g, put_or_drop (tx_sender tx) (default 0 (g !! tx_sender tx) + -1) g)
    (spend_after tx (-1)
    (upd_occupancy (occupy tx (-1) (bytes_of tx))
    ((if keep then id else upd_admitted (jm_delete (tx_key tx)))
    (upd_nonceIds (delete (tx_key tx))
    (upd_byId (jm_delete (tx_txid tx)) m))))))).

Lemma spend_limits (tx : Transaction) (d : Z) (m : Mempool) : mp_limits (spend_after tx d m) = mp_limits m.
Proof. unfold spend_after. by destruct (is_transfer tx). Qed.
Lemma spend_byId (tx : Transaction) (d : Z) (m : Mempool) : mp_byId (spend_after tx d m) = mp_byId m.
Proof. unfold spend_after. by destruct (is_transfer tx). Qed.
Lemma spend_nonceIds (tx : Transaction) (d : Z) (m : Mempool) : mp_nonceIds (spend_after tx d m) = mp_nonceIds m.
Proof. unfold spend_after. by destruct (is_transfer tx). Qed.
Lemma spend_occupancy (tx : Transaction) (d : Z) (m : Mempool) : mp_occupancy (spend_after tx d m) = mp_occupancy m.
Proof. unfold spend_after. by destruct (is_transfer tx). Qed.
Lemma spend_pendingBySender (tx : Transaction) (d : Z) (m : Mempool) : mp_pendingBySender (spend_after tx d m) = mp_pendingBySender m.
Proof. unfold spend_after. by destruct (is_transfer tx). Qed.
Lemma spend_validatorUpdatesBySender (tx : Transaction) (d : Z) (m : Mempool) : mp_validatorUpdatesBySender (spend_after tx d m) = mp_validatorUpdatesBySender m.
Proof. unfold spend_after. by destruct (is_transfer tx). Qed.
Lemma spend_validatorUpdateIds (tx : Transaction) (d : Z) (m : Mempool) : mp_validatorUpdateIds (spend_after tx d m) = mp_validatorUpdateIds m.
Proof. unfold spend_after. by destruct (is_transfer tx). Qed.
Lemma spend_admittedAtMs (tx : Transaction) (d : Z) (m : Mempool) : mp_admittedAtMs (spend_after tx d m) = mp_admittedAtMs m.
Proof. unfold spend_after. by destruct (is_transfer tx). Qed.
Lemma updates_limits (tx : Transaction) (d : Z) (ids : list string → list string) (m : Mempool) : mp_limits (updates_after tx d ids m) = mp_limits m.
Proof. unfold updates_after. by destruct (is_update tx). Qed.
Lemma updates_byId (tx : Transaction) (d : Z) (ids : list string → list string) (m : Mempool) : mp_byId (updates_after tx d ids m) = mp_byId m.
Proof. unfold updates_after. by destruct (is_update tx). Qed.
Lemma updates_nonceIds (tx : Transaction) (d : Z) (ids : list string → list string) (m : Mempool) : mp_nonceIds (updates_after tx d ids m) = mp_nonceIds m.
Proof. unfold updates_after. by destruct (is_update tx). Qed.
Lemma updates_occupancy (tx : Transaction) (d : Z) (ids : list string → list string) (m : Mempool) : mp_occupancy (updates_after tx d ids m) = mp_occupancy m.
Proof. unfold updates_after. by destruct (is_update tx). Qed.
Lemma updates_pendingBySender (tx : Transaction) (d : Z) (ids : list string → list string) (m : Mempool) : mp_pendingBySender (updates_after tx d ids m) = mp_pendingBySender m.
Proof. unfold updates_after. by destruct (is_update tx). Qed.
Lemma updates_transferSpendBySender (tx : Transaction) (d : Z) (ids : list string → list string) (m : Mempool) : mp_transferSpendBySender (updates_after tx d ids m) = mp_transferSpendBySender m.
Proof. unfold updates_after. by destruct (is_update tx). Qed.
Lemma updates_admittedAtMs (tx : Transaction) (d : Z) (ids : list string → list string) (m : Mempool) : mp_admittedAtMs (updates_after tx d ids m) = mp_admittedAtMs m.
Proof. unfold updates_after. by destruct (is_update tx). Qed.
#[local] Hint Rewrite spend_limits spend_byId spend_nonceIds spend_occupancy spend_pendingBySender spend_validatorUpdatesBySender spend_validatorUpdateIds spend_admittedAtMs updates_limits updates_byId updates_nonceIds updates_occupancy updates_pendingBySender updates_transferSpendBySender updates_admittedAtMs : mempool.
(** Reads a field of a state that the setters built. *)
Ltac mp_field := mp_cbn; repeat (progress (autorewrite with mempool; mp_cbn)).

Lemma spend_counts (tx : Transaction) (d : Z) (l l' : js_map Transaction) (m : Mempool) :
  counts transfer_spend l (mp_transferSpendBySender m) →
  (∀ s, total (from_sender s transfer_spend) l' = total (from_sender s transfer_spend) l + d * from_sender s transfer_spend tx) →
  counts transfer_spend l' (mp_transferSpendBySender (spend_after tx d m)).
Proof.
  intros Hc Hl. unfold spend_after. destruct (is_transfer tx) eqn:Et.
  - mp_cbn. eapply counts_change; [exact Hc|]. intros s. rewrite Hl, from_sender_one. destruct (String.eqb (tx_sender tx) s); lia.
  - eapply counts_same; [exact Hc|]. intros s. rewrite Hl, from_sender_one. assert (transfer_spend tx = 0) as -> by (by destruct tx).
    destruct (String.eqb (tx_sender tx) s); lia.
Qed.
Lemma updates_counts (tx : Transaction) (d : Z) (ids : list string → list string) (l l' : js_map Transaction) (m : Mempool) :
  let f := one is_update (λ _, 1) in
  counts f l (mp_validatorUpdatesBySender m) →
  (∀ s, total (from_sender s f) l' = total (from_sender s f) l + d * from_sender s f tx) →
  counts f l' (mp_validatorUpdatesBySender (updates_after tx d ids m)).
Proof.
  intros f Hc Hl. unfold updates_after. destruct (is_update tx) eqn:Et.
  - mp_cbn. eapply counts_change; [exact Hc|]. intros s. rewrite Hl, from_sender_one. unfold f, one. rewrite Et.
    destruct (String.eqb (tx_sender tx) s); lia.
  - eapply counts_same; [exact Hc|]. intros s. rewrite Hl, from_sender_one. unfold f, one. rewrite Et.
    destruct (String.eqb (tx_sender tx) s); lia.
Qed.

Lemma occupy_tally (tx : Transaction) (d : Z) (l l' : js_map Transaction) :
  is_mining tx = false → (∀ f, total f l' = total f l + d * f tx) → occupy tx d (bytes_of tx) (tally l) = tally l'.
Proof. intros Hm Hl. unfold tally. rewrite !Hl. unfold one. destruct tx; try discriminate; cbn [occupy is_transfer]; f_equal; lia. Qed.

Lemma tally_not_broken (m : Mempool) :
  mp_occupancy m = tally (mp_byId m) → Forall (λ e, pool_tx e.2) (mp_byId m) → 0 ≤ lm_maxMiningBytes (mp_limits m) →
  total bytes_of (mp_byId m) ≤ lm_maxNonMiningBytes (mp_limits m) → occupancy_broken m = false.
Proof.
  intros Ho Hp Hm Hb. unfold occupancy_broken. rewrite Ho. cbn [tally oc_miningSize oc_nonMiningSize oc_miningBytes oc_nonMiningBytes]. cbv zeta.
  assert (0 ≤ total bytes_of (mp_byId m)) as H0.
  { apply total_nonneg. rewrite Forall_forall in Hp. intros e He. pose proof (pool_bytes _ (Hp e He)). lia. }
  rewrite total_one. unfold zlen. repeat (apply orb_false_iff; split); try (apply Z.ltb_ge; lia).
  apply negb_false_iff, Z.eqb_eq. lia.
Qed.

(** A nonce slot determines sender and nonce. *)
Lemma string_app_inj (s s' t t' : string) : String.length s = String.length s' → s +:+ t = s' +:+ t' → s = s' ∧ t = t'.
Proof.
  revert s'. induction s as [|c s IH]; intros [|c' s'] Hl E; try discriminate Hl; [by cbn in E|]. cbn in *. injection E as -> E.
  injection Hl as Hl. by destruct (IH s' Hl E) as [-> ->].
Qed.
Lemma address_length (a : string) : isAddress a = true → String.length a = 43%nat.
Proof.
  intros (Ha & Hl & _)%isAddress_body. rewrite Ha.
  assert (∀ l, String.length (String.string_of_list_ascii l) = length l) as Hs by (induction l; cbn; congruence).
  revert Hl. generalize (addressBody a). intros l Hl. change (S (S (S (String.length (String.string_of_list_ascii l)))) = 43%nat). rewrite Hs. lia.
Qed.
Lemma tx_key_inj (tx tx' : Transaction) : pool_tx tx → pool_tx tx' → tx_key tx = tx_key tx' → tx_sender tx = tx_sender tx' ∧ tx_nonce tx = tx_nonce tx'.
Proof.
  intros Ht Ht' E. unfold tx_key, nonceKey in E. apply string_app_inj in E as [-> E].
  - apply (string_app_inj ":" ":") in E as [_ E]; [|done]. split; [done|]. by apply (inj pretty).
  - rewrite (address_length _ (pt_sender _ Ht)), (address_length _ (pt_sender _ Ht')). done.
Qed.

(** ** Storing *)

Section storing.
Context (extra : list string) (m : Mempool) (tx : Transaction) (t : Z).
Hypothesis Htr : tracked extra m.
Hypothesis Htx : pool_tx tx.
Hypothesis Hnew : jm_get (tx_txid tx) (mp_byId m) = None.
Hypothesis Hslot : mp_nonceIds m !! tx_key tx = None.
Hypothesis Hroom : total bytes_of (mp_byId m) + bytes_of tx ≤ lm_maxNonMiningBytes (mp_limits m).

Lemma stored_byId : mp_byId (stored tx t m) = mp_byId m ++ [(tx_txid tx, tx)].
Proof.
  unfold stored. mp_field. by apply jm_set_new.
Qed.

Lemma stored_total f : total f (mp_byId (stored tx t m)) = total f (mp_byId m) + 1 * f tx.
Proof. rewrite stored_byId, total_snoc. cbn. lia. Qed.

Lemma stored_nonce (key id : string) :
  mp_nonceIds (stored tx t m) !! key = Some id ↔ ∃ x, (id, x) ∈ mp_byId (stored tx t m) ∧ tx_key x = key.
Proof.
  rewrite stored_byId. unfold stored. mp_field. rewrite lookup_insert_Some, (tk_nonce _ _ Htr). setoid_rewrite elem_of_app.
  setoid_rewrite list_elem_of_singleton. split.
  - intros [[<- <-]|[Hne (x & Hx & E)]]; [exists tx; auto|exists x; auto].
  - intros (x & [Hx|[= -> ->]] & <-); [|by left]. right. split; [|by exists x]. intros E.
    assert (mp_nonceIds m !! tx_key tx = Some id) as Hs by (apply (tk_nonce _ _ Htr); by exists x). congruence.
Qed.

Lemma stored_updateIds (id : string) :
  id ∈ mp_validatorUpdateIds (stored tx t m) ↔ ∃ x, (id, x) ∈ mp_byId (stored tx t m) ∧ is_update x = true.
Proof.
  rewrite stored_byId. setoid_rewrite elem_of_app. setoid_rewrite list_elem_of_singleton. pose proof (tk_updateIds _ _ Htr id) as Hold.
  unfold stored, updates_after. destruct (is_update tx) eqn:Eu; mp_field.
  - assert (id ∈ (if bool_decide (tx_txid tx ∈ mp_validatorUpdateIds m) then mp_validatorUpdateIds m else mp_validatorUpdateIds m ++ [tx_txid tx]) ↔
      id ∈ mp_validatorUpdateIds m ∨ id = tx_txid tx) as ->.
    { case_bool_decide; [split; [auto|intros [? | ->]; auto]|]. by rewrite elem_of_app, list_elem_of_singleton. }
    rewrite Hold. split; [intros [(x & ? & ?) | ->]; [exists x; auto|exists tx; auto]|]. intros (x & [?|[= -> ->]] & ?); [left; by exists x|by right].
  - rewrite Hold. split; [intros (x & ? & ?); exists x; auto|]. intros (x & [?|[= -> ->]] & ?); [by exists x|congruence].
Qed.

Lemma stored_run :
  store tx (tx_txid tx) (tx_key tx) (bytes_of tx) t m = (stored tx t m, Ok ()).
Proof.
  unfold store. rewrite !modify_run. rewrite adjustOccupancy_run.
  - rewrite adjustTransferSpend_run, adjustSenderCount_run.
    + rewrite updates_run; [done|]. intros Hu. mp_field. rewrite (counts_default _ _ _ _ (tk_updates _ _ Htr)).
      assert (0 ≤ total (from_sender (tx_sender tx) (one is_update (λ _, 1))) (mp_byId m)); [|lia]. apply total_nonneg. intros e _.
      unfold from_sender, one. repeat case_match; lia.
    + mp_field. rewrite (counts_default _ _ _ _ (tk_pending _ _ Htr)).
      assert (0 ≤ total (from_sender (tx_sender tx) (λ _, 1)) (mp_byId m)); [|lia]. apply total_nonneg. intros e _.
      unfold from_sender. destruct (String.eqb _ _); lia.
  - apply tally_not_broken; mp_field; rewrite ?jm_set_new by done.
    + rewrite (tk_occupancy _ _ Htr). apply occupy_tally; [apply Htx|]. intros f. rewrite total_snoc. cbn. lia.
    + apply Forall_app. split; [eapply Forall_impl; [apply Htr|]; by intros e [_ ?]|]. by apply Forall_singleton.
    + apply Htr.
    + rewrite total_snoc. cbn. exact Hroom.
Qed.

Lemma stored_tracked : tracked (filter (λ k, k ≠ tx_key tx) extra) (stored tx t m).
Proof.
  split.
  - rewrite stored_byId. apply Forall_app. split; [apply Htr|]. by apply Forall_singleton.
  - rewrite stored_byId. unfold jm_keys. rewrite fmap_app. apply NoDup_app. split_and!; [apply Htr| |apply NoDup_singleton].
    intros x Hx Hx'. apply list_elem_of_singleton in Hx' as ->. apply jm_get_None in Hnew. by apply Hnew.
  - exact stored_nonce.
  - unfold stored. mp_field. eapply spend_counts; mp_field; [apply Htr|]. intros s. rewrite jm_set_new, total_snoc by done. cbn. lia.
  - unfold stored. mp_field. eapply counts_change; [apply Htr|]. intros s. rewrite jm_set_new, total_snoc by done.
    cbn [snd]. rewrite from_sender_one. destruct (String.eqb (tx_sender tx) s); lia.
  - unfold stored. mp_field. eapply updates_counts; mp_field; [apply Htr|]. intros s. rewrite jm_set_new, total_snoc by done. cbn [snd]. lia.
  - exact stored_updateIds.
  - unfold stored. mp_field. rewrite (tk_occupancy _ _ Htr). apply occupy_tally; [apply Htx|]. intros f. rewrite jm_set_new, total_snoc by done. cbn. lia.
  - rewrite stored_total. unfold stored. mp_field. lia.
  - unfold stored. mp_field. apply Htr.
  - intros key. unfold stored. mp_field. rewrite jm_set_keys, lookup_insert_is_Some, list_elem_of_filter.
    pose proof (tk_admitted _ _ Htr key) as Hk. destruct (decide (tx_key tx = key)) as [<-|Hne].
    + split; [intros _; by left; left|intros _]. case_bool_decide as Ha; [by apply jm_get_Some_keys|]. apply elem_of_app. right. by left.
    + assert (key ∈ (if bool_decide (is_Some (jm_get (tx_key tx) (mp_admittedAtMs m))) then jm_keys (mp_admittedAtMs m)
        else jm_keys (mp_admittedAtMs m) ++ [tx_key tx]) ↔ key ∈ jm_keys (mp_admittedAtMs m)) as ->; [|naive_solver].
      case_bool_decide; [done|]. rewrite elem_of_app, list_elem_of_singleton. naive_solver.
  - unfold stored. mp_field. rewrite jm_set_keys. case_bool_decide as Ha; [apply Htr|]. apply NoDup_app. split_and!; [apply Htr| |apply NoDup_singleton].
    intros x Hx Hx'. apply list_elem_of_singleton in Hx' as ->. apply Ha. by apply jm_get_Some_keys.
  - unfold stored. mp_field. intros c [=].
Qed.

End storing.

(** ** Deleting *)

Section deleting.
Context (extra : list string) (m : Mempool) (tx : Transaction) (keep : bool).
Hypothesis Htr : tracked extra m.
Hypothesis Hin : jm_get (tx_txid tx) (mp_byId m) = Some tx.

Lemma deleted_byId : mp_byId (deleted tx keep m) = jm_delete (tx_txid tx) (mp_byId m).
Proof. unfold deleted. mp_field. by destruct keep. Qed.
Lemma deleted_limits : mp_limits (deleted tx keep m) = mp_limits m.
Proof. unfold deleted. mp_field. by destruct keep. Qed.

Lemma pending_pool_tx : pool_tx tx.
Proof. pose proof (tk_entries _ _ Htr) as He. rewrite Forall_forall in He. apply jm_get_elem in Hin. by destruct (He _ Hin). Qed.

Lemma deleted_total f : total f (jm_delete (tx_txid tx) (mp_byId m)) = total f (mp_byId m) + -1 * f tx.
Proof. rewrite (total_perm f _ _ (jm_delete_perm _ _ _ (tk_nodup _ _ Htr) Hin)), total_cons. cbn. lia. Qed.

Lemma deleted_entries : Forall (λ e, e.1 = tx_txid e.2 ∧ pool_tx e.2) (jm_delete (tx_txid tx) (mp_byId m)).
Proof.
  pose proof (tk_entries _ _ Htr) as He. rewrite Forall_forall in *. intros e Hd. apply jm_delete_elem in Hd as [Hd _]. by apply He.
Qed.

(** An entry in the slot of [tx] is [tx]. *)
Lemma same_slot (id : string) (x : Transaction) : (id, x) ∈ mp_byId m → tx_key x = tx_key tx → id = tx_txid tx.
Proof.
  intros Hx E. assert (mp_nonceIds m !! tx_key tx = Some id) as H1 by (apply (tk_nonce _ _ Htr); by exists x).
  assert (mp_nonceIds m !! tx_key tx = Some (tx_txid tx)) as H2 by (apply (tk_nonce _ _ Htr); exists tx; split; [by apply jm_get_elem|done]). congruence.
Qed.

Lemma deleted_nonce (key id : string) :
  delete (tx_key tx) (mp_nonceIds m) !! key = Some id ↔ ∃ x, (id, x) ∈ jm_delete (tx_txid tx) (mp_byId m) ∧ tx_key x = key.
Proof.
  rewrite lookup_delete_Some, (tk_nonce _ _ Htr). setoid_rewrite jm_delete_elem. cbn. split.
  - intros (Hne & x & Hx & <-). exists x. split_and!; [done| |done]. intros ->. apply Hne.
    apply jm_elem_get in Hx; [|apply Htr]. rewrite Hin in Hx. by injection Hx as ->.
  - intros (x & [Hx Hne] & <-). split; [|by exists x]. intros E. apply Hne. by apply (same_slot id x).
Qed.

Lemma count_one (P : Transaction → bool) : P tx = true → 1 ≤ total (from_sender (tx_sender tx) (one P (λ _, 1))) (mp_byId m).
Proof.
  intros HP. rewrite (total_perm _ _ _ (jm_delete_perm _ _ _ (tk_nodup _ _ Htr) Hin)), total_cons. cbn [snd].
  rewrite from_sender_one, String.eqb_refl. unfold one at 1. rewrite HP.
  assert (0 ≤ total (from_sender (tx_sender tx) (one P (λ _, 1))) (jm_delete (tx_txid tx) (mp_byId m))); [|lia].
  apply total_nonneg. intros e _. unfold from_sender, one. repeat case_match; lia.
Qed.

Lemma deleted_run : deleteTransaction (tx_txid tx) tx keep m = (deleted tx keep m, Ok ()).
Proof.
  pose proof pending_pool_tx as Htx. unfold deleteTransaction. rewrite !modify_run.
  set (m1 := upd_nonceIds _ _). set (m2 := (if keep then id else upd_admitted (jm_delete (tx_key tx))) m1).
  assert (∀ A (k : unit → meth Mempool A), ((if keep then mret () else m_modify (upd_admitted (jm_delete (tx_key tx)))) ≫= k) m1 = k () m2) as ->
    by (intros; by destruct keep).
  assert (mp_limits m2 = mp_limits m ∧ mp_byId m2 = jm_delete (tx_txid tx) (mp_byId m) ∧ mp_occupancy m2 = mp_occupancy m ∧
    mp_pendingBySender m2 = mp_pendingBySender m ∧ mp_validatorUpdatesBySender m2 = mp_validatorUpdatesBySender m) as (F1 & F2 & F3 & F4 & F5)
    by (unfold m2; by destruct keep).
  rewrite (lift_run _ _ _ _ (pt_bytes _ Htx)), adjustOccupancy_run.
  - rewrite adjustTransferSpend_run, adjustSenderCount_run.
    + rewrite updates_run; [done|]. intros Hu. mp_field. rewrite F5, (counts_default _ _ _ _ (tk_updates _ _ Htr)).
      pose proof (count_one is_update Hu). lia.
    + mp_field. rewrite F4, (counts_default _ _ _ _ (tk_pending _ _ Htr)). pose proof (count_one (λ _, true) eq_refl). unfold one in *. lia.
  - pose proof (tk_bytes _ _ Htr). pose proof (pool_bytes _ Htx).
    apply tally_not_broken; mp_field; rewrite ?F1, ?F2, ?F3.
    + rewrite (tk_occupancy _ _ Htr). apply occupy_tally; [apply Htx|exact deleted_total].
    + eapply Forall_impl; [apply deleted_entries|]. by intros e [_ ?].
    + apply Htr.
    + rewrite deleted_total. lia.
Qed.

Lemma deleted_updateIds (id : string) :
  id ∈ mp_validatorUpdateIds (deleted tx keep m) ↔ ∃ x, (id, x) ∈ jm_delete (tx_txid tx) (mp_byId m) ∧ is_update x = true.
Proof.
  setoid_rewrite jm_delete_elem. cbn [fst]. pose proof (tk_updateIds _ _ Htr id) as Hold.
  assert (mp_validatorUpdateIds (deleted tx keep m) = if is_update tx then filter (λ id, id ≠ tx_txid tx) (mp_validatorUpdateIds m) else mp_validatorUpdateIds m) as ->.
  { unfold deleted, updates_after. destruct (is_update tx); mp_field; by destruct keep. }
  destruct (is_update tx) eqn:Eu.
  - rewrite list_elem_of_filter, Hold. naive_solver.
  - rewrite Hold. split; [|naive_solver]. intros (x & Hx & Hu). exists x. split_and!; [done| |done]. intros ->.
    apply jm_elem_get in Hx; [|apply Htr]. rewrite Hin in Hx. injection Hx as ->. congruence.
Qed.

Lemma deleted_tracked :
  (keep = false → tx_key tx ∉ extra) → tracked (if keep then tx_key tx :: extra else extra) (deleted tx keep m).
Proof.
  intros Hex. pose proof pending_pool_tx as Htx. pose proof (pool_bytes _ Htx). pose proof (tk_bytes _ _ Htr).
  assert (mp_nonceIds (deleted tx keep m) = delete (tx_key tx) (mp_nonceIds m)) as Hn by (unfold deleted; mp_field; by destruct keep).
  split; rewrite ?deleted_byId, ?deleted_limits, ?Hn.
  - apply deleted_entries.
  - apply jm_keys_delete_NoDup, Htr.
  - exact deleted_nonce.
  - unfold deleted. mp_field. eapply spend_counts; mp_field; [|intros s; apply deleted_total]. destruct keep; apply Htr.
  - unfold deleted. mp_field. eapply counts_change; [destruct keep; apply Htr|]. intros s. rewrite deleted_total, from_sender_one.
    destruct (String.eqb (tx_sender tx) s); lia.
  - unfold deleted. mp_field. eapply updates_counts; mp_field; [|intros s; apply deleted_total]. destruct keep; apply Htr.
  - exact deleted_updateIds.
  - unfold deleted. mp_field. assert (mp_occupancy ((if keep then id else upd_admitted (jm_delete (tx_key tx))) (upd_nonceIds (delete (tx_key tx))
      (upd_byId (jm_delete (tx_txid tx)) m))) = mp_occupancy m) as -> by (by destruct keep).
    rewrite (tk_occupancy _ _ Htr). apply occupy_tally; [apply Htx|exact deleted_total].
  - rewrite deleted_total. lia.
  - apply Htr.
  - intros key. rewrite lookup_delete_is_Some. pose proof (tk_admitted _ _ Htr key) as Hk.
    assert (mp_admittedAtMs (deleted tx keep m) = if keep then mp_admittedAtMs m else jm_delete (tx_key tx) (mp_admittedAtMs m)) as ->
      by (unfold deleted; mp_field; by destruct keep).
    assert (is_Some (mp_nonceIds m !! tx_key tx)) as Hs.
    { exists (tx_txid tx). apply (tk_nonce _ _ Htr). exists tx. split; [by apply jm_get_elem|done]. }
    destruct keep; [|rewrite jm_delete_keys; naive_solver]. rewrite elem_of_cons. destruct (decide (key = tx_key tx)) as [->|]; naive_solver.
  - assert (mp_admittedAtMs (deleted tx keep m) = if keep then mp_admittedAtMs m else jm_delete (tx_key tx) (mp_admittedAtMs m)) as ->
      by (unfold deleted; mp_field; by destruct keep).
    destruct keep; [|apply jm_keys_delete_NoDup]; apply Htr.
  - unfold deleted. mp_field. intros c [=].
Qed.

End deleting.

(** ** The candidate for eviction *)

Definition rate_le (x y : Transaction) : Prop := tx_feeAtoms x * bytes_of y ≤ tx_feeAtoms y * bytes_of x.

Lemma rate_le_trans (x y z : Transaction) :
  pool_tx x → pool_tx y → pool_tx z → rate_le x y → rate_le y z → rate_le x z.
Proof.
  unfold rate_le. intros Hx%pool_bytes Hy%pool_bytes Hz%pool_bytes H1 H2.
  assert (tx_feeAtoms x * bytes_of z * bytes_of y ≤ tx_feeAtoms z * bytes_of x * bytes_of y); nia.
Qed.

Lemma compareFeeRate_spec (x y : Transaction) :
  is_transfer x = true → is_transfer y = true → pool_tx x → pool_tx y →
  compareFeeRate x y = Ok (Z.sgn (tx_feeAtoms x * bytes_of y - tx_feeAtoms y * bytes_of x)).
Proof.
  intros Tx Ty Hx Hy. destruct x as [x|x|x|x|x|x]; try discriminate. destruct y as [y|y|y|y|y|y]; try discriminate.
  unfold compareFeeRate. rewrite (pt_bytes _ Hx), (pt_bytes _ Hy). done.
Qed.

(** The last pending transfer of its sender. *)
Definition last_transfer (h : gmap string Z) (e : string * Transaction) : Prop :=
  is_transfer e.2 = true ∧ h !! tx_sender e.2 = Some (tx_nonce e.2).

Lemma eviction_step_takes (h : gmap string Z) (sel : option (string * Transaction)) (x : string * Transaction) :
  pool_tx x.2 → last_transfer h x → (∀ e, sel = Some e → pool_tx e.2 ∧ is_transfer e.2 = true) →
  ∃ new, eviction_step h sel x = Ok (Some new) ∧ (new = x ∨ sel = Some new) ∧ rate_le new.2 x.2 ∧
    (∀ s, sel = Some s → rate_le new.2 s.2) ∧ pool_tx new.2 ∧ is_transfer new.2 = true.
Proof.
  intros Hx [Et Hh] Hsel. unfold eviction_step. rewrite Et, (bool_decide_true _ Hh). cbn [negb orb].
  destruct sel as [s0|]; [|exists x; unfold rate_le; split_and!; auto; [lia|by intros s [=]]]. destruct (Hsel s0 eq_refl) as [Hs Ts].
  rewrite compareFeeRate_spec by done. cbn [mbind res_bind]. unfold rate_le.
  set (d := tx_feeAtoms x.2 * bytes_of s0.2 - tx_feeAtoms s0.2 * bytes_of x.2).
  destruct ((Z.sgn d <? 0) || ((Z.sgn d =? 0) && (tx_timestampMs x.2 <? tx_timestampMs s0.2))) eqn:Ed.
  - exists x. split_and!; auto; [lia|]. intros s [= <-]. apply orb_true_iff in Ed as [Ed%Z.ltb_lt|[Ed%Z.eqb_eq _]%andb_true_iff]; lia.
  - exists s0. apply orb_false_iff in Ed as [Ed%Z.ltb_ge _]. split_and!; auto; [lia|]. intros s [= <-]. lia.
Qed.

Lemma eviction_fold (h : gmap string Z) (l : js_map Transaction) (sel : option (string * Transaction)) :
  Forall (λ e, pool_tx e.2) l → (∀ e, sel = Some e → pool_tx e.2 ∧ is_transfer e.2 = true) →
  ∃ c, res_fold (eviction_step h) sel l = Ok c ∧
    (∀ e, c = Some e → sel = Some e ∨ (e ∈ l ∧ last_transfer h e)) ∧
    (∀ e x, c = Some e → sel = Some x ∨ (x ∈ l ∧ last_transfer h x) → rate_le e.2 x.2) ∧
    (c = None → sel = None ∧ ∀ x, x ∈ l → ¬ last_transfer h x).
Proof.
  revert sel. induction l as [|x l IH]; intros sel Hl Hsel.
  - exists sel. cbn. split_and!; [done|auto| |intros ->; split; [done|]; intros x Hx; by apply not_elem_of_nil in Hx].
    intros e x -> [[= <-]|[Hx _]]; [unfold rate_le; lia|by apply not_elem_of_nil in Hx].
  - apply Forall_cons in Hl as [Hx Hl]. destruct (decide (is_transfer x.2 = true ∧ h !! tx_sender x.2 = Some (tx_nonce x.2))) as [[Et Hh]|Hno].
    2: { destruct (IH sel Hl Hsel) as (c & E & C1 & C2 & C3). exists c.
      assert (eviction_step h sel x = Ok sel) as Es.
      { unfold eviction_step. destruct (is_transfer x.2); [|done]. by rewrite bool_decide_false by naive_solver. }
      cbn [res_fold]. rewrite Es. split_and!; [exact E| | |].
      - intros e He. destruct (C1 e He) as [?|[? ?]]; [by left|right; split; [by right|done]].
      - intros e y He [Hy|[[-> | Hy]%elem_of_cons Hly]]; [apply (C2 e y He); by left|done|apply (C2 e y He); by right].
      - intros Hc. destruct (C3 Hc) as [? Hn]. split; [done|]. intros y [-> | Hy]%elem_of_cons; [done|by apply Hn]. }
    destruct (eviction_step_takes h sel x) as (new & Es & N1 & N2 & N3 & N4 & N5); [done|done|done|].
    cbn [res_fold]. rewrite Es. cbn [mbind res_bind]. destruct (IH (Some new) Hl) as (c & E & C1 & C2 & C3); [by intros e [= <-]|]. exists c. split_and!; [done| | |].
    + intros e He. destruct (C1 e He) as [[= <-]|[? ?]]; [|right; split; [by right|done]]. destruct N1 as [-> | ?]; [|by left].
      right. split; [by left|done].
    + intros e y He Hy. pose proof (C2 e new He (or_introl eq_refl)) as Hen.
      assert (pool_tx e.2) as Hpe. { destruct (C1 e He) as [[= <-]|[Hin _]]; [done|]. rewrite Forall_forall in Hl. by apply Hl. }
      destruct Hy as [Hy|[[-> | Hy]%elem_of_cons Hly]].
      * eapply rate_le_trans; [done|exact N4|by apply Hsel|done|by apply N3].
      * eapply rate_le_trans; [done|exact N4|done|done|done].
      * apply (C2 e y He). by right.
    + intros ->. by destruct (C3 eq_refl).
Qed.

Lemma highest_snoc (l : js_map Transaction) (x : string * Transaction) :
  highestNonces (l ++ [x]) = <[tx_sender x.2 := Z.max (default 0 (highestNonces l !! tx_sender x.2)) (tx_nonce x.2)]> (highestNonces l).
Proof. unfold highestNonces. by rewrite fold_left_app. Qed.
Lemma highest_bound (l : js_map Transaction) (e : string * Transaction) :
  e ∈ l → ∃ n, highestNonces l !! tx_sender e.2 = Some n ∧ tx_nonce e.2 ≤ n.
Proof.
  induction l as [|x l IH] using rev_ind; intros He; [by apply not_elem_of_nil in He|].
  rewrite highest_snoc. destruct (decide (tx_sender x.2 = tx_sender e.2)) as [Es|Es].
  - rewrite Es, lookup_insert_eq. eexists. split; [done|]. apply elem_of_app in He as [He|He%list_elem_of_singleton]; [|subst; lia].
    destruct (IH He) as (n & -> & ?). cbn. lia.
  - rewrite lookup_insert_ne by done. apply elem_of_app in He as [He|He%list_elem_of_singleton]; [by apply IH|by subst].
Qed.
Lemma highest_attained (l : js_map Transaction) (s : string) (n : Z) :
  Forall (λ e, pool_tx e.2) l → highestNonces l !! s = Some n → ∃ e, e ∈ l ∧ tx_sender e.2 = s ∧ tx_nonce e.2 = n.
Proof.
  intros Hp. revert n. induction l as [|x l IH] using rev_ind; intros n Hn; [by apply (lookup_empty_Some s n) in Hn|].
  apply Forall_app in Hp as [Hp Hx]. apply Forall_cons in Hx as [Hx _]. rewrite highest_snoc in Hn.
  apply lookup_insert_Some in Hn as [[Es Hn]|[Hne Hn]]; [|destruct (IH Hp n Hn) as (e & ? & ?); exists e; split; [by apply elem_of_app; left|done]].
  destruct (highestNonces l !! tx_sender x.2) as [n0|] eqn:E0; cbn in Hn.
  - destruct (Z.max_spec n0 (tx_nonce x.2)) as [[_ Em]|[_ Em]]; rewrite Em in Hn; [exists x; split_and!; [apply elem_of_app; right; by left|done|done]|].
    rewrite Es in E0. destruct (IH Hp n0 E0) as (e & ? & ? & ?). exists e. split; [by apply elem_of_app; left|split; congruence].
  - pose proof (pt_nonce _ Hx). rewrite Z.max_r in Hn by lia. exists x. split_and!; [apply elem_of_app; right; by left|done|done].
Qed.

(** The entry an incoming transaction may push out: a transfer that no pending
    transaction of its sender follows, with the lowest fee rate of those. *)
Record evictable (l : js_map Transaction) (e : string * Transaction) : Prop := {
  ev_in : e ∈ l;
  ev_transfer : is_transfer e.2 = true;
  ev_last : ∀ x, x ∈ l → tx_sender x.2 = tx_sender e.2 → tx_nonce x.2 ≤ tx_nonce e.2;
  ev_cheapest : ∀ x, x ∈ l → is_transfer x.2 = true → (∀ y, y ∈ l → tx_sender y.2 = tx_sender x.2 → tx_nonce y.2 ≤ tx_nonce x.2) → rate_le e.2 x.2 }.

Lemma compute_evictable (l : js_map Transaction) :
  Forall (λ e, pool_tx e.2) l →
  ∃ c, computeLowestPriorityEvictableTransfer l = Ok c ∧ (∀ e, c = Some e → evictable l e).
Proof.
  intros Hp. destruct (eviction_fold (highestNonces l) l None Hp) as (c & E & C1 & C2 & _); [by intros e [=]|].
  exists c. split; [exact E|]. intros e He. destruct (C1 e He) as [[=]|[Hin [Ht Hh]]]. split; [done|done| |].
  - intros x Hx Es. destruct (highest_bound l x Hx) as (n & Hn & ?). rewrite Es in Hn. rewrite Hh in Hn. injection Hn as <-. done.
  - intros x Hx Htx Hlast. apply (C2 e x He). right. split; [done|]. split; [done|]. destruct (highest_bound l x Hx) as (n & Hn & Hle).
    rewrite Hn. f_equal. destruct (highest_attained l _ n Hp Hn) as (y & Hy & Ey & Ny). specialize (Hlast y Hy Ey). lia.
Qed.

(** ** Making room *)

(** The same pool with another cache. *)
Definition recached (c : option (option (string * Transaction))) (m m' : Mempool) : Prop := m' = set_cache c m.

Lemma tracked_cache (extra : list string) (m : Mempool) (c : option (string * Transaction)) :
  tracked extra m → computeLowestPriorityEvictableTransfer (mp_byId m) = Ok c → tracked extra (set_cache (Some c) m).
Proof. intros [] Hc. split; try done. mp_cbn. by intros ? [= <-]. Qed.

Lemma tracked_pool (extra : list string) (m : Mempool) : tracked extra m → Forall (λ e, pool_tx e.2) (mp_byId m).
Proof. intros Htr. eapply Forall_impl; [apply Htr|]. by intros e [_ ?]. Qed.

Lemma lowest_run (extra : list string) (m : Mempool) :
  tracked extra m → ∃ c, lowestPriorityEvictableTransfer m = (set_cache (Some c) m, Ok c) ∧
    computeLowestPriorityEvictableTransfer (mp_byId m) = Ok c ∧ (∀ e, c = Some e → evictable (mp_byId m) e).
Proof.
  intros Htr. destruct (compute_evictable (mp_byId m) (tracked_pool _ _ Htr)) as (c & Hc & He). exists c. split; [|done].
  unfold lowestPriorityEvictableTransfer. rewrite get_run. destruct (mp_evictionCache m) as [c'|] eqn:E.
  - pose proof (tk_cache _ _ Htr c' E) as E'. rewrite Hc in E'. apply Ok_inj in E' as <-. destruct m. cbn in E. by rewrite E.
  - by rewrite (lift_run _ _ _ _ Hc).
Qed.

Definition outbids (incoming existing : Transaction) : Prop :=
  is_transfer incoming = true ∧ is_transfer existing = true ∧ tx_feeAtoms existing < tx_feeAtoms incoming ∧
  tx_feeAtoms existing * bytes_of incoming * 11 ≤ tx_feeAtoms incoming * bytes_of existing * 10.

Lemma bump_spec (existing incoming : Transaction) :
  pool_tx existing → pool_tx incoming →
  ∃ b, hasRequiredFeeRateBump existing incoming = Ok b ∧ (b = true → outbids incoming existing).
Proof.
  intros He Hi. unfold hasRequiredFeeRateBump. destruct existing as [e|e|e|e|e|e]; try by (exists false).
  destruct incoming as [i|i|i|i|i|i]; try by (exists false). rewrite (pt_bytes _ He), (pt_bytes _ Hi). cbn [mbind res_bind].
  eexists. split; [done|]. intros [H1%Z.ltb_lt H2%Z.leb_le]%andb_true_iff. unfold outbids. cbn [tx_feeAtoms is_transfer]. done.
Qed.

(** What happened to make room for [tx]: nothing, or one eviction. *)
Inductive made_room (m : Mempool) (tx : Transaction) : list (string * Transaction) → Mempool → Prop :=
| room_free : non_mining_full m tx (bytes_of tx) = false → made_room m tx [] m
| room_evict c e : non_mining_full m tx (bytes_of tx) = true → lm_disableFeeReplacement (mp_limits m) && is_transfer tx = false → evictable (mp_byId m) e → (is_transfer tx = true → outbids tx e.2) →
    total bytes_of (mp_byId m) - bytes_of e.2 + bytes_of tx ≤ lm_maxNonMiningBytes (mp_limits m) →
    computeLowestPriorityEvictableTransfer (mp_byId m) = Ok c →
    made_room m tx [e] (deleted e.2 false (set_cache (Some c) m)).

Lemma room_run (extra : list string) (m : Mempool) (tx : Transaction) :
  tracked extra m → pool_tx tx →
  (∃ c e, non_mining_room tx (bytes_of tx) m = (set_cache c m, Throw e) ∧ tracked extra (set_cache c m)) ∨
  (∃ gone m', non_mining_room tx (bytes_of tx) m = (m', Ok ()) ∧ made_room m tx gone m').
Proof.
  intros Htr Htx. unfold non_mining_room. rewrite get_run. cbv zeta. destruct (non_mining_full m tx (bytes_of tx)) eqn:Ef.
  2: { right. exists [], m. split; [done|]. by constructor. }
  assert (∀ m0, m0 = set_cache (mp_evictionCache m0) m0) as Hself by (by intros []).
  destruct (lm_disableFeeReplacement (mp_limits m) && is_transfer tx) eqn:Ed.
  { left. exists (mp_evictionCache m), FULL. rewrite <-Hself. done. }
  rewrite throw_run by done. destruct (lowest_run extra m Htr) as (c & Hrun & Hc & Hev). rewrite meth_bind_run, Hrun.
  pose proof (tracked_cache _ _ _ Htr Hc) as Htr'. destruct c as [[txid e]|]; [|left; by exists (Some None), FULL].
  specialize (Hev _ eq_refl). pose proof (ev_in _ _ Hev) as Hin. pose proof (tk_entries _ _ Htr) as He. rewrite Forall_forall in He.
  destruct (He _ Hin) as [Hid Hpe]. cbn [fst snd] in Hid, Hpe. subst txid.
  set (m1 := set_cache (Some (Some (tx_txid e, e))) m) in *.
  assert (∃ b, (if is_transfer tx then m_lift (hasRequiredFeeRateBump e tx) else mret true) m1 = (m1, Ok b) ∧
    (b = true → is_transfer tx = true → outbids tx e)) as (b & Hb & Hbump).
  { destruct (is_transfer tx); [|by exists true]. destruct (bump_spec e tx Hpe Htx) as (b & Hb & Ho). exists b. unfold m_lift. rewrite Hb. split; [done|]. auto. }
  rewrite meth_bind_run, Hb. destruct b; [|left; exists (Some (Some (tx_txid e, e))), FULL; done].
  rewrite throw_run by done. rewrite (lift_run _ _ _ _ (pt_bytes _ Hpe)).
  destruct (Z.ltb_spec (lm_maxNonMiningBytes (mp_limits m)) (oc_nonMiningBytes (mp_occupancy m) - bytes_of e + bytes_of tx)) as [Hlt|Hle].
  { left. exists (Some (Some (tx_txid e, e))), FULL. done. }
  rewrite throw_run by done. right. eexists [(tx_txid e, e)], _. split.
  - apply (deleted_run extra m1 e false Htr'). by apply jm_elem_get; [apply Htr|].
  - rewrite (tk_occupancy _ _ Htr) in Hle. cbn in Hle. eapply (room_evict m tx _ (tx_txid e, e)); auto.
Qed.

Lemma stored_limits (tx : Transaction) (t : Z) (m : Mempool) : mp_limits (stored tx t m) = mp_limits m.
Proof. unfold stored. by mp_field. Qed.

(** The counts stay within the limits, those of transfers within the slots that are
    not reserved.  The bytes that are reserved are not kept free: a transfer that
    evicts another is only held to the total ([reserved_bytes_taken] below). *)
Record fits (m : Mempool) : Prop := {
  ft_size : zlen (mp_byId m) ≤ lm_maxNonMiningSize (mp_limits m);
  ft_transfers : total (one is_transfer (λ _, 1)) (mp_byId m) ≤ lm_maxNonMiningSize (mp_limits m) - lm_protocolReserve (mp_limits m) }.

(** An entry leaves, the rest stays. *)
Lemma deleted_split (extra : list string) (m : Mempool) (tx : Transaction) (keep : bool) :
  tracked extra m → jm_get (tx_txid tx) (mp_byId m) = Some tx → mp_byId m ≡ₚ (tx_txid tx, tx) :: mp_byId (deleted tx keep m).
Proof. intros Htr Hin. rewrite deleted_byId. by apply jm_delete_perm; [apply Htr|]. Qed.

Lemma made_room_split (extra : list string) (m m1 : Mempool) (tx : Transaction) (gone : list (string * Transaction)) :
  tracked extra m → (∀ k, k ∈ extra → mp_nonceIds m !! k = None) → made_room m tx gone m1 →
  mp_byId m ≡ₚ gone ++ mp_byId m1 ∧ tracked extra m1 ∧ mp_limits m1 = mp_limits m ∧
  (∀ id, jm_get id (mp_byId m) = None → jm_get id (mp_byId m1) = None) ∧ (∀ k, mp_nonceIds m !! k = None → mp_nonceIds m1 !! k = None).
Proof.
  intros Htr Hex Hr. destruct Hr as [_|c e _ _ Hev _ _ Hc]; [by split_and!|].
  pose proof (tracked_cache _ _ _ Htr Hc) as Htr'. pose proof (ev_in _ _ Hev) as Hin. pose proof (tk_entries _ _ Htr) as He. rewrite Forall_forall in He.
  destruct (He _ Hin) as [Hid _]. destruct e as [id e]. cbn [fst snd] in *. subst id.
  assert (jm_get (tx_txid e) (mp_byId (set_cache (Some c) m)) = Some e) as Hg by (by apply jm_elem_get; [apply Htr|]).
  split_and!.
  - exact (deleted_split extra (set_cache (Some c) m) e false Htr' Hg).
  - apply (deleted_tracked extra (set_cache (Some c) m) e false Htr' Hg). intros _ Hk. specialize (Hex _ Hk).
    assert (mp_nonceIds m !! tx_key e = Some (tx_txid e)) as Hs by (apply (tk_nonce _ _ Htr); by exists e). congruence.
  - by rewrite deleted_limits.
  - intros id Hn. rewrite deleted_byId. mp_cbn. rewrite jm_get_delete. destruct (String.eqb (tx_txid e) id); [done|]. exact Hn.
  - intros k Hk. unfold deleted. mp_field. rewrite lookup_delete_None. by right.
Qed.

Lemma insert_run (extra : list string) (m : Mempool) (tx : Transaction) (t : Z) :
  tracked extra m → pool_tx tx → jm_get (tx_txid tx) (mp_byId m) = None → mp_nonceIds m !! tx_key tx = None →
  (∀ k, k ∈ extra → mp_nonceIds m !! k = None) →
  (∃ c e, insertAfterCapacity tx (bytes_of tx) (tx_key tx) t m = (set_cache c m, Throw e) ∧ tracked extra (set_cache c m)) ∨
  (∃ gone m1, insertAfterCapacity tx (bytes_of tx) (tx_key tx) t m = (stored tx t m1, Ok ()) ∧ made_room m tx gone m1 ∧
    tracked (filter (λ k, k ≠ tx_key tx) extra) (stored tx t m1) ∧ mp_byId (stored tx t m1) = mp_byId m1 ++ [(tx_txid tx, tx)]).
Proof.
  intros Htr Htx Hnew Hslot Hex. unfold insertAfterCapacity.
  assert (match tx with MiningClaim x => mining_room x (bytes_of tx) | _ => non_mining_room tx (bytes_of tx) end = non_mining_room tx (bytes_of tx)) as ->.
  { pose proof (pt_live _ Htx). by destruct tx. }
  rewrite meth_bind_run. destruct (room_run extra m tx Htr Htx) as [(c & e & -> & Hc)|(gone & m1 & -> & Hr)]; [left; by exists c, e|right].
  destruct (made_room_split extra m m1 tx gone Htr Hex Hr) as (Hsplit & Htr1 & Hlim & Hid & Hk).
  assert (total bytes_of (mp_byId m1) + bytes_of tx ≤ lm_maxNonMiningBytes (mp_limits m1)) as Hroom.
  { rewrite Hlim. pose proof (total_perm bytes_of _ _ Hsplit) as Hb. destruct Hr as [Hf|c e _ _ _ _ Hf _].
    - unfold non_mining_full in Hf. rewrite (tk_occupancy _ _ Htr) in Hf. cbn in Hf. breflect. lia.
    - cbn [app] in Hb. rewrite total_cons in Hb. lia. }
  exists gone, m1. split_and!.
  - by eapply stored_run; [exact Htr1|..]; auto.
  - done.
  - by apply stored_tracked; auto.
  - apply stored_byId. auto.
Qed.

Lemma insert_fits (extra : list string) (m m1 : Mempool) (tx : Transaction) (t : Z) (gone : list (string * Transaction)) :
  tracked extra m → (∀ k, k ∈ extra → mp_nonceIds m !! k = None) → fits m → 0 ≤ lm_protocolReserve (mp_limits m) → made_room m tx gone m1 →
  mp_byId (stored tx t m1) = mp_byId m1 ++ [(tx_txid tx, tx)] → fits (stored tx t m1).
Proof.
  intros Htr Hex [F1 F2] Hres Hr Hb. destruct (made_room_split extra m m1 tx gone Htr Hex Hr) as (Hsplit & _ & Hlim & _).
  pose proof (total_perm (λ _, 1) _ _ Hsplit) as Hs. pose proof (total_perm (one is_transfer (λ _, 1)) _ _ Hsplit) as Ht.
  rewrite <-total_one in F1. split; rewrite stored_limits, Hlim, Hb, <-?total_one, total_snoc; cbn [snd]; destruct Hr as [Hf|c e Hf _ Hev _ _ _].
  - unfold non_mining_full in Hf. rewrite (tk_occupancy _ _ Htr) in Hf. cbn in Hf. breflect. lia.
  - cbn [app] in Hs. rewrite total_cons in Hs. lia.
  - unfold one at 2. destruct (is_transfer tx) eqn:Et; [|lia].
    unfold non_mining_full in Hf. rewrite (tk_occupancy _ _ Htr), Et in Hf. cbn in Hf. breflect. lia.
  - cbn [app] in Ht. rewrite total_cons in Ht. unfold one at 2 in Ht. rewrite (ev_transfer _ _ Hev) in Ht. unfold one at 2. destruct (is_transfer tx); lia.
Qed.

(** ** The invariant *)

(** The fee rules of the pool. *)
Definition fee_ok (l : Limits) (tx : Transaction) : Prop :=
  is_transfer tx = true → lm_minTransferFeeAtoms l ≤ tx_feeAtoms tx ∧ ∀ fixed, lm_fixedTransferFeeAtoms l = Some fixed → tx_feeAtoms tx = fixed.

Record mempool_wf (m : Mempool) : Prop := {
  mw_tracked : tracked [] m;
  mw_fits : fits m;
  mw_reserve : 0 ≤ lm_protocolReserve (mp_limits m) < lm_maxNonMiningSize (mp_limits m);
  mw_senders : ∀ cap s, lm_maxPendingPerSender (mp_limits m) = Some cap → total (from_sender s (λ _, 1)) (mp_byId m) ≤ cap;
  mw_fees : Forall (λ e, fee_ok (mp_limits m) e.2) (mp_byId m) }.

Lemma new_mempool_wf (maxNonMiningSize miningReserve : option Z) (maxNonMiningBytes maxMiningBytes : Z) (options : MempoolOptions) (m : Mempool) :
  new_mempool maxNonMiningSize miningReserve maxNonMiningBytes maxMiningBytes options = Ok m → mempool_wf m ∧ mp_byId m = [].
Proof.
  unfold new_mempool, bad_limit. cbv zeta. generalize (default DEFAULT_MEMPOOL_NON_MINING_CAPACITY maxNonMiningSize). intros capacity.
  generalize (default (Z.min DEFAULT_MEMPOOL_PROTOCOL_RESERVE (math_floor_div capacity 8)) (mo_protocolReserve options)). intros reserve.
  intros E. res_split. subst m. split; [|done]. breflect.
  assert (∀ k v, (∅ : gmap string string) !! k = Some v ↔ False) as He by (intros k v; rewrite lookup_empty; naive_solver).
  split; cbn [mp_limits mp_byId]; [|split; cbn [mp_limits mp_byId lm_maxNonMiningSize lm_protocolReserve]; unfold total, zlen; cbn [sumZ foldr length]; lia
    |cbn [lm_maxNonMiningSize lm_protocolReserve]; lia| |constructor].
  - split; cbn [mp_limits mp_byId mp_nonceIds mp_transferSpendBySender mp_occupancy mp_evictionCache mp_pendingBySender mp_validatorUpdatesBySender
      mp_validatorUpdateIds mp_admittedAtMs lm_maxNonMiningBytes lm_maxMiningBytes]; try done; try (unfold total; cbn [sumZ foldr]; lia); try constructor.
    + intros Hs. by apply He in Hs.
    + intros (tx & Hin & _). by apply not_elem_of_nil in Hin.
    + intros Hin. by apply not_elem_of_nil in Hin.
    + intros (tx & Hin & _). by apply not_elem_of_nil in Hin.
    + intros Hin. by apply not_elem_of_nil in Hin.
    + intros [[x Hs]|Hin]; [by apply He in Hs|by apply not_elem_of_nil in Hin].
  - intros cap s Hc. cbn in Hc |- *. destruct (mo_maxPendingPerSender options); simplify_eq. cbn in *. breflect. lia.
Qed.

(** A smaller pool is well formed. *)
Lemma sub_wf (m m1 : Mempool) (gone : js_map Transaction) :
  mempool_wf m → tracked [] m1 → mp_limits m1 = mp_limits m → mp_byId m ≡ₚ gone ++ mp_byId m1 → mempool_wf m1.
Proof.
  intros [Htr [F1 F2] Hres Hsend Hfee] Htr1 Hlim Hsplit.
  assert (∀ f, (∀ tx, 0 ≤ f tx) → total f (mp_byId m1) ≤ total f (mp_byId m)) as Hle.
  { intros f Hf. rewrite (total_perm f _ _ Hsplit). unfold total. rewrite sumZ_app. assert (0 ≤ sumZ (λ e : string * Transaction, f e.2) gone) by (by apply sumZ_nonneg). lia. }
  split; rewrite ?Hlim; [done| |done| |].
  - split; rewrite Hlim; [|etransitivity; [apply Hle|exact F2]; intros tx; unfold one; case_match; lia].
    rewrite <-total_one in *. etransitivity; [by apply Hle|exact F1].
  - intros cap s Hc. etransitivity; [apply Hle|by eapply Hsend]. intros tx. unfold from_sender. case_match; lia.
  - rewrite Hsplit in Hfee. by apply Forall_app in Hfee as [_ ?].
Qed.

Lemma remove_wf (m : Mempool) (tx : Transaction) :
  mempool_wf m → jm_get (tx_txid tx) (mp_byId m) = Some tx →
  ∃ m1, deleteTransaction (tx_txid tx) tx false m = (m1, Ok ()) ∧ mempool_wf m1 ∧ mp_limits m1 = mp_limits m ∧ mp_byId m1 = jm_delete (tx_txid tx) (mp_byId m).
Proof.
  intros Hwf Hg. pose proof (mw_tracked _ Hwf) as Htr. exists (deleted tx false m). split; [by eapply deleted_run|].
  split_and!; [|by rewrite deleted_limits|by rewrite deleted_byId]. eapply (sub_wf m _ [(tx_txid tx, tx)]); [done| |by rewrite deleted_limits|by eapply deleted_split].
  apply (deleted_tracked [] m tx false Htr Hg). intros _ Hk. by apply not_elem_of_nil in Hk.
Qed.

Lemma sender_count (l : js_map Transaction) (s : string) : 0 ≤ total (from_sender s (λ _, 1)) l.
Proof. apply total_nonneg. intros e _. unfold from_sender. case_match; lia. Qed.
Lemma sender_in (l : js_map Transaction) (e : string * Transaction) (s : string) :
  e ∈ l → tx_sender e.2 = s → 1 ≤ total (from_sender s (λ _, 1)) l.
Proof.
  intros (k & Hk)%elem_of_Permutation <-. rewrite (total_perm _ _ _ Hk), total_cons, from_sender_one, String.eqb_refl.
  pose proof (sender_count k (tx_sender e.2)). lia.
Qed.

(** The pool after [tx] came in and [gone] went out. *)
Lemma inserted_wf (m m' : Mempool) (kept gone : js_map Transaction) (tx : Transaction) :
  mempool_wf m → tracked [] m' → fits m' → mp_limits m' = mp_limits m → mp_byId m ≡ₚ gone ++ kept → mp_byId m' ≡ₚ (tx_txid tx, tx) :: kept →
  fee_ok (mp_limits m) tx →
  ((∃ e, e ∈ gone ∧ tx_sender e.2 = tx_sender tx) ∨
   ∀ cap, lm_maxPendingPerSender (mp_limits m) = Some cap → total (from_sender (tx_sender tx) (λ _, 1)) (mp_byId m) < cap) →
  mempool_wf m'.
Proof.
  intros [Htr _ Hres Hsend Hfee] Htr' Hfits Hlim Hsplit Hperm Hf Hcap. split; rewrite ?Hlim; [done|done|done| |].
  - intros cap s Hc. specialize (Hsend cap s Hc). rewrite (total_perm _ _ _ Hperm), total_cons. cbn [snd]. rewrite from_sender_one.
    rewrite (total_perm _ _ _ Hsplit), total_app in Hsend. pose proof (sender_count gone s).
    destruct (String.eqb_spec (tx_sender tx) s) as [<-|]; [|lia]. destruct Hcap as [(e & He & Es)|Hcap].
    + pose proof (sender_in gone e _ He Es). lia.
    + specialize (Hcap cap Hc). rewrite (total_perm _ _ _ Hsplit), total_app in Hcap. lia.
  - rewrite Hperm. apply Forall_cons. split; [done|]. rewrite Hsplit in Hfee. by apply Forall_app in Hfee as [_ ?].
Qed.

(** ** Admission *)

Lemma add_checks_Ok (m : Mempool) (tx : Transaction) (b : Z) :
  pool_tx tx → add_checks m tx = Ok b → b = bytes_of tx ∧ fee_ok (mp_limits m) tx ∧ jm_get (tx_txid tx) (mp_byId m) = None.
Proof.
  intros Htx. unfold add_checks. cbv zeta. rewrite (pt_live _ Htx). intros E. cbn [mbind res_bind] in E.
  apply res_bind_Ok in E as (? & Hfix%throw_if_Ok & E). apply res_bind_Ok in E as (? & Hmin%throw_if_Ok & E).
  apply res_bind_Ok in E as (? & Hnew%throw_if_Ok & E). rewrite (pt_bytes _ Htx) in E. cbn [mbind res_bind] in E.
  apply res_bind_Ok in E as (? & _ & E). apply Ok_inj in E as <-. split; [done|]. split.
  - intros Ht. rewrite Ht in Hfix, Hmin. cbn [andb] in Hmin. split; [by apply Z.ltb_ge in Hmin|]. intros fixed Hf. rewrite Hf in Hfix. cbn in Hfix.
    by apply negb_false_iff, Z.eqb_eq in Hfix.
  - apply bool_decide_eq_false in Hnew. by apply eq_None_not_Some.
Qed.

Lemma conflict_slot (m : Mempool) (key : string) :
  tracked [] m →
  match conflict_of m key with
  | Some id => ∃ tx, jm_get id (mp_byId m) = Some tx ∧ id = tx_txid tx ∧ tx_key tx = key ∧ pool_tx tx
  | None => mp_nonceIds m !! key = None
  end.
Proof.
  intros Htr. unfold conflict_of. destruct (mp_nonceIds m !! key) as [id|] eqn:E; [|done].
  apply (tk_nonce _ _ Htr) in E as (tx & Hin & Hk). pose proof (tk_entries _ _ Htr) as He. rewrite Forall_forall in He.
  destruct (He _ Hin) as [Hid Htx]. cbn [fst snd] in *. destruct (String.eqb_spec id "") as [->|_]; [by destruct (pt_id _ Htx)|].
  exists tx. split_and!; try done. by apply jm_elem_get; [apply Htr|].
Qed.

(** Room for [tx] beside [entries] within every limit, the slots and the bytes
    reserved for protocol transactions among them if [tx] is a transfer. *)
Definition has_room (l : Limits) (entries : js_map Transaction) (tx : Transaction) : Prop :=
  zlen entries < lm_maxNonMiningSize l ∧ total bytes_of entries + bytes_of tx ≤ lm_maxNonMiningBytes l ∧
  (is_transfer tx = true →
    total (one is_transfer (λ _, 1)) entries < lm_maxNonMiningSize l - lm_protocolReserve l ∧
    total (one is_transfer bytes_of) entries + bytes_of tx ≤ lm_maxNonMiningBytes l - lm_protocolReserveBytes l).

(** What an admission did to the rest of the pool: the transfer in the same nonce
    slot goes if it is outbid; then, only if there is no room beside the others,
    the cheapest transfer that no other entry of its sender follows. *)
Record displaced (l : Limits) (tx : Transaction) (replaced evicted kept : js_map Transaction) : Prop := {
  dp_replaced : replaced = [] ∨ ∃ e, replaced = [e] ∧ tx_key e.2 = tx_key tx ∧ outbids tx e.2;
  dp_evicted : (evicted = [] ∧ has_room l kept tx) ∨
    ∃ e, evicted = [e] ∧ ¬ has_room l (e :: kept) tx ∧ evictable (e :: kept) e ∧ (is_transfer tx = true → outbids tx e.2);
  dp_disabled : lm_disableFeeReplacement l = true → is_transfer tx = true → replaced = [] ∧ evicted = [] }.

(** The same pool after a refusal: nothing but the order of the entries moves. *)
Record unchanged (m m' : Mempool) : Prop := {
  un_entries : mp_byId m' ≡ₚ mp_byId m;
  un_slots : mp_nonceIds m' = mp_nonceIds m;
  un_admitted : mp_admittedAtMs m' = mp_admittedAtMs m }.

Definition admission (m : Mempool) (tx : Transaction) (m' : Mempool) (r : res unit) : Prop :=
  mempool_wf m' ∧ mp_limits m' = mp_limits m ∧
  match r with
  | Ok _ => ∃ replaced evicted kept, mp_byId m ≡ₚ (replaced ++ evicted) ++ kept ∧ mp_byId m' ≡ₚ (tx_txid tx, tx) :: kept ∧
      displaced (mp_limits m) tx replaced evicted kept
  | Throw _ => unchanged m m'
  end.

Lemma cached_unchanged (m : Mempool) (c : option (option (string * Transaction))) : unchanged m (set_cache c m).
Proof. done. Qed.
Lemma cached_wf (m : Mempool) (c : option (option (string * Transaction))) :
  mempool_wf m → tracked [] (set_cache c m) → mempool_wf (set_cache c m).
Proof. intros [_ [F1 F2] ? ? ?] Htr. by split. Qed.
Lemma refused (m : Mempool) (tx : Transaction) (e : string) : mempool_wf m → admission m tx m (Throw e).
Proof. done. Qed.

Lemma has_room_perm (l : Limits) (x y : js_map Transaction) (tx : Transaction) : x ≡ₚ y → has_room l x tx → has_room l y tx.
Proof. intros Hp. unfold has_room. rewrite <-!total_one, !(total_perm _ _ _ Hp). done. Qed.

Lemma evictable_perm (x y : js_map Transaction) (e : string * Transaction) : x ≡ₚ y → evictable x e → evictable y e.
Proof.
  intros Hp [Hin Ht Hl Hc]. assert (∀ z, z ∈ y → z ∈ x) as Hyx by (intros z; by rewrite Hp). split; [by rewrite <-Hp|done|auto|].
  intros z Hz Htz Hlz. apply Hc; [auto|done|]. intros w Hw. apply Hlz. by rewrite <-Hp.
Qed.

Lemma full_no_room (extra : list string) (m : Mempool) (tx : Transaction) :
  tracked extra m → non_mining_full m tx (bytes_of tx) = false ↔ has_room (mp_limits m) (mp_byId m) tx.
Proof.
  intros Htr. unfold non_mining_full, has_room. rewrite (tk_occupancy _ _ Htr).
  cbn [tally oc_nonMiningSize oc_nonMiningBytes oc_transferSize oc_transferBytes]. cbv zeta. rewrite total_one.
  destruct (is_transfer tx); cbn [andb]; rewrite ?orb_false_iff, ?Z.leb_gt, ?Z.ltb_ge; naive_solver.
Qed.

Lemma slots_apart (extra : list string) (m : Mempool) (x y : string * Transaction) :
  tracked extra m → x ∈ mp_byId m → y ∈ mp_byId m → tx_key x.2 = tx_key y.2 → x.1 = y.1.
Proof.
  intros Htr Hx Hy E. destruct x as [i x], y as [k y]. cbn in *.
  assert (mp_nonceIds m !! tx_key y = Some i) by (apply (tk_nonce _ _ Htr); by exists x).
  assert (mp_nonceIds m !! tx_key y = Some k) by (apply (tk_nonce _ _ Htr); by exists y). congruence.
Qed.

Lemma made_room_displaced (extra : list string) (m m1 : Mempool) (tx : Transaction) (replaced gone : list (string * Transaction)) :
  tracked extra m → made_room m tx gone m1 → mp_byId m ≡ₚ gone ++ mp_byId m1 →
  (replaced = [] ∨ (lm_disableFeeReplacement (mp_limits m) && is_transfer tx = false ∧ ∃ e, replaced = [e] ∧ tx_key e.2 = tx_key tx ∧ outbids tx e.2)) →
  displaced (mp_limits m) tx replaced gone (mp_byId m1).
Proof.
  intros Htr Hr Hp Hrep. pose proof (full_no_room _ _ tx Htr) as Hfull. split.
  - destruct Hrep as [?|[_ ?]]; auto.
  - destruct Hr as [Hf|c e Hf _ Hev Hout _ _]; [left; by rewrite <-Hfull|right]. exists e. split_and!; [done| |by eapply evictable_perm|done].
    intros Hroom. apply (has_room_perm _ _ (mp_byId m)) in Hroom; [|by rewrite Hp]. apply Hfull in Hroom. congruence.
  - intros Hd Ht. rewrite Hd, Ht in Hrep. split; [destruct Hrep as [?|[? _]]; done|]. destruct Hr as [_|c e _ Hno _ _ _ _]; [done|by rewrite Hd, Ht in Hno].
Qed.

Lemma insert_admission (m : Mempool) (tx : Transaction) (t : Z) :
  mempool_wf m → pool_tx tx → fee_ok (mp_limits m) tx → jm_get (tx_txid tx) (mp_byId m) = None → mp_nonceIds m !! tx_key tx = None →
  (∀ cap, lm_maxPendingPerSender (mp_limits m) = Some cap → total (from_sender (tx_sender tx) (λ _, 1)) (mp_byId m) < cap) →
  let '(m', r) := insertAfterCapacity tx (bytes_of tx) (tx_key tx) t m in admission m tx m' r.
Proof.
  intros Hwf Htx Hfee Hnew Hslot Hcap. pose proof (mw_tracked _ Hwf) as Htr.
  assert (∀ k, k ∈ [] → mp_nonceIds m !! k = None) as Hex by (intros k Hk; by apply not_elem_of_nil in Hk).
  destruct (insert_run [] m tx t Htr Htx Hnew Hslot Hex) as [(c & e & -> & Hc)|(gone & m1 & -> & Hr & Htr' & Hb)].
  - split_and!; [by apply cached_wf|done|done].
  - destruct (made_room_split [] m m1 tx gone Htr Hex Hr) as (Hsplit & _ & Hlim & _).
    pose proof (made_room_displaced [] m m1 tx [] gone Htr Hr Hsplit (or_introl eq_refl)) as Hd.
    assert (mp_byId (stored tx t m1) ≡ₚ (tx_txid tx, tx) :: mp_byId m1) as Hp by (rewrite Hb; by rewrite Permutation_app_comm).
    split_and!; [|by rewrite stored_limits|by exists [], gone, (mp_byId m1)].
    eapply (inserted_wf m _ (mp_byId m1) gone tx Hwf); [exact Htr'| |by rewrite stored_limits|done|done|done|by right].
    eapply (insert_fits [] m m1 tx t gone); [done|done|apply Hwf|apply Hwf|done|done].
Qed.

(** After the failed insertion the replaced transaction is back in its slot. *)
Lemma restored (m : Mempool) (old : Transaction) (c : option (option (string * Transaction))) (t : Z) :
  mempool_wf m → jm_get (tx_txid old) (mp_byId m) = Some old → tracked [tx_key old] (set_cache c (deleted old true m)) →
  let m1 := set_cache c (deleted old true m) in
  store old (tx_txid old) (tx_key old) (bytes_of old) t m1 = (stored old t m1, Ok ()) ∧ mempool_wf (stored old t m1) ∧
  mp_limits (stored old t m1) = mp_limits m ∧ unchanged m (stored old t m1).
Proof.
  intros Hwf Hg Htr1 m1. pose proof (mw_tracked _ Hwf) as Htr. pose proof (pending_pool_tx [] m old Htr Hg) as Hold.
  assert (mp_byId m1 = jm_delete (tx_txid old) (mp_byId m)) as Hb1 by (unfold m1; mp_cbn; apply deleted_byId).
  assert (mp_limits m1 = mp_limits m) as Hl1 by (unfold m1; mp_cbn; apply deleted_limits).
  assert (mp_nonceIds m1 = delete (tx_key old) (mp_nonceIds m)) as Hn1 by (unfold m1, deleted; by mp_field).
  assert (mp_admittedAtMs m1 = mp_admittedAtMs m) as Ha1 by (unfold m1, deleted; by mp_field).
  assert (mp_nonceIds m !! tx_key old = Some (tx_txid old)) as Hslot
    by (apply (tk_nonce _ _ Htr); exists old; split; [by apply jm_get_elem|done]).
  assert (jm_get (tx_txid old) (mp_byId m1) = None) as Hnew by (by rewrite Hb1, jm_get_delete, String.eqb_refl).
  assert (mp_nonceIds m1 !! tx_key old = None) as Hfree by (rewrite Hn1; by rewrite lookup_delete_eq).
  assert (total bytes_of (mp_byId m1) + bytes_of old ≤ lm_maxNonMiningBytes (mp_limits m1)) as Hroom.
  { rewrite Hb1, Hl1, (deleted_total [] m old Htr Hg). pose proof (tk_bytes _ _ Htr). lia. }
  pose proof (stored_byId m1 old t Hnew) as Hb. fold m1 in Htr1.
  assert (mp_byId m ≡ₚ [] ++ mp_byId (stored old t m1)) as Hp.
  { rewrite Hb, Hb1. rewrite (jm_delete_perm _ _ _ (tk_nodup _ _ Htr) Hg) at 1. cbn [app]. by rewrite Permutation_app_comm. }
  assert (filter (λ k, k ≠ tx_key old) [tx_key old] = []) as Hf by (rewrite filter_cons, decide_False by naive_solver; done).
  pose proof (stored_tracked [tx_key old] m1 old t Htr1 Hold Hnew Hfree Hroom) as Htr'. rewrite Hf in Htr'.
  split_and!; [by eapply stored_run| |by rewrite stored_limits|].
  - eapply (sub_wf m _ [] Hwf Htr'); [by rewrite stored_limits|done].
  - split; [by rewrite Hp| |].
    + unfold stored. mp_field. rewrite Hn1. rewrite insert_delete_eq. by apply insert_id.
    + unfold stored. mp_field. rewrite Ha1. assert (is_Some (jm_get (tx_key old) (mp_admittedAtMs m))) as [v Hv].
      { apply jm_get_Some_keys, (tk_admitted _ _ Htr). left. by eexists. }
      rewrite Hv. by apply jm_set_same.
Qed.

Lemma replacement_spec (old tx : Transaction) (disable b : bool) :
  pool_tx old → pool_tx tx → isValidReplacement old tx disable = Ok b → b = true → outbids tx old ∧ disable && is_transfer tx = false.
Proof.
  intros Hold Htx E Hb. subst b. destruct (bump_spec old tx Hold Htx) as (b & Hb & Hout). pose proof (pt_live _ Hold).
  unfold isValidReplacement in E. destruct old; try discriminate; destruct tx; try discriminate. destruct disable; [discriminate|].
  split; [|done]. apply Hout. congruence.
Qed.

(** Taking the replaced transaction out and inserting the new one. *)
Lemma replace_admission (m : Mempool) (tx old : Transaction) (t : Z) :
  mempool_wf m → pool_tx tx → fee_ok (mp_limits m) tx → jm_get (tx_txid tx) (mp_byId m) = None →
  jm_get (tx_txid old) (mp_byId m) = Some old → tx_key old = tx_key tx → outbids tx old → lm_disableFeeReplacement (mp_limits m) && is_transfer tx = false →
  let '(m', r) := (deleteTransaction (tx_txid old) old true;;
    m_catch (insertAfterCapacity tx (bytes_of tx) (tx_key tx) t)
      (λ error, bytes ← m_lift (transactionBytes old); store old (tx_txid old) (tx_key tx) bytes t;; m_lift (Throw error))) m in
  admission m tx m' r.
Proof.
  intros Hwf Htx Hfee Hnew Hg Hkey Hout Hdis. pose proof (mw_tracked _ Hwf) as Htr. pose proof (pending_pool_tx [] m old Htr Hg) as Hold.
  rewrite meth_bind_run, (deleted_run [] m old true Htr Hg). set (m1 := deleted old true m).
  assert (tracked [tx_key tx] m1) as Htr1 by (rewrite <-Hkey; apply (deleted_tracked [] m old true Htr Hg); done).
  assert (mp_nonceIds m1 !! tx_key tx = None) as Hslot by (rewrite <-Hkey; unfold m1, deleted; mp_field; apply lookup_delete_eq).
  assert (mp_byId m ≡ₚ (tx_txid old, old) :: mp_byId m1) as Hsp by (by eapply deleted_split).
  assert (jm_get (tx_txid tx) (mp_byId m1) = None) as Hnew1 by (unfold m1; rewrite deleted_byId, jm_get_delete; by case_match).
  assert (∀ k, k ∈ [tx_key tx] → mp_nonceIds m1 !! k = None) as Hex by (intros k ->%list_elem_of_singleton; done).
  assert (fits m1) as Hfit.
  { pose proof (mw_fits _ Hwf) as [F1 F2]. rewrite <-total_one in F1. rewrite (total_perm _ _ _ Hsp), total_cons in F1. rewrite (total_perm _ _ _ Hsp), total_cons in F2.
    split; unfold m1; rewrite deleted_limits; fold m1; rewrite <-?total_one; [lia|]. unfold one at 1 in F2. cbn [snd] in F2. case_match; lia. }
  assert (0 ≤ lm_protocolReserve (mp_limits m1)) as Hres by (unfold m1; rewrite deleted_limits; apply Hwf).
  unfold m_catch. destruct (insert_run [tx_key tx] m1 tx t Htr1 Htx Hnew1 Hslot Hex) as [(c & e & -> & Hc)|(gone & m2 & -> & Hr & Htr' & Hb)].
  - rewrite (lift_run _ _ _ _ (pt_bytes _ Hold)), meth_bind_run. rewrite <-Hkey in Hc |- *.
    destruct (restored m old c t Hwf Hg Hc) as (Hst & Hwf' & Hlim & Hun). fold m1 in Hst. rewrite Hst. done.
  - destruct (made_room_split _ m1 m2 tx gone Htr1 Hex Hr) as (Hsplit & _ & Hlim & _).
    assert (mp_limits m1 = mp_limits m) as Hlim1 by apply deleted_limits.
    assert (displaced (mp_limits m) tx [(tx_txid old, old)] gone (mp_byId m2)) as Hd.
    { rewrite <-Hlim1. apply (made_room_displaced _ m1 m2 tx _ gone Htr1 Hr Hsplit). right. rewrite Hlim1. split; [done|]. by exists (tx_txid old, old). }
    assert (filter (λ k, k ≠ tx_key tx) [tx_key tx] = []) as Hf by (rewrite filter_cons, decide_False by naive_solver; done). rewrite Hf in Htr'.
    assert (mp_byId (stored tx t m2) ≡ₚ (tx_txid tx, tx) :: mp_byId m2) as Hp by (rewrite Hb; by rewrite Permutation_app_comm).
    assert (mp_byId m ≡ₚ ((tx_txid old, old) :: gone) ++ mp_byId m2) as Hall by (rewrite Hsp, Hsplit; done).
    assert (mp_limits (stored tx t m2) = mp_limits m) as Hlim' by (rewrite stored_limits, Hlim; unfold m1; apply deleted_limits).
    split_and!; [|done|].
    + eapply (inserted_wf m _ (mp_byId m2) _ tx Hwf); [exact Htr'| |done|exact Hall|done|done|].
      * eapply (insert_fits _ m1 m2 tx t gone); done.
      * left. exists (tx_txid old, old). split; [by left|]. apply (tx_key_inj old tx Hold Htx Hkey).
    + by exists [(tx_txid old, old)], gone, (mp_byId m2).
Qed.

Lemma add_admission (m : Mempool) (tx : Transaction) (t : Z) :
  mempool_wf m → pool_tx tx → let '(m', r) := add tx t m in admission m tx m' r.
Proof.
  intros Hwf Htx. pose proof (mw_tracked _ Hwf) as Htr. unfold add. rewrite get_run. destruct (add_checks m tx) as [b|e] eqn:Ec; [|by apply refused].
  apply add_checks_Ok in Ec as (-> & Hfee & Hnew); [|done]. rewrite (lift_run _ (bytes_of tx)) by done. cbv zeta.
  pose proof (conflict_slot m (tx_key tx) Htr) as Hc. destruct (conflict_of m (tx_key tx)) as [id|].
  - destruct Hc as (old & Hg & -> & Hkey & Hold). unfold replace. rewrite get_run, (lift_run _ old) by (by rewrite Hg).
    destruct (isValidReplacement old tx (lm_disableFeeReplacement (mp_limits m))) as [[]|e] eqn:Ev; [|by apply refused|by apply refused].
    rewrite (lift_run _ true) by done. rewrite throw_run by done. rewrite (lift_run _ _ _ _ (pt_bytes _ Hold)).
    destruct (replacement_spec _ _ _ _ Hold Htx Ev eq_refl) as [Hout Hdis]. rewrite (pt_live _ Htx).
    destruct (lm_maxNonMiningBytes (mp_limits m) <? _); [by apply refused|]. rewrite throw_run by done. by apply replace_admission.
  - destruct (from_option _ false (lm_maxPendingPerSender (mp_limits m))) eqn:Ecap; [by apply refused|]. rewrite throw_run by done.
    apply insert_admission; try done. intros cap Hcap. rewrite Hcap in Ecap. cbn in Ecap. apply Z.leb_gt in Ecap.
    by rewrite (counts_default _ _ _ _ (tk_pending _ _ Htr)) in Ecap.
Qed.

(** C4. The mempool keeps its books: whatever is offered to a well-formed pool (a
    transaction of a live kind with its size and nonce in range), the pool stays
    well formed: indexes, byte and spend counters and admission times agree with
    the entries; the number of entries and their bytes stay within the limits;
    transfers leave the slots reserved for protocol transactions free (the reserved
    bytes are respected by a transfer that comes in without an eviction, and are not
    an invariant); no sender exceeds its cap and the fee rules hold.  An admitted
    transaction takes the place of the transfer of the same sender and nonce if it
    outbids it by a tenth; beyond that nothing leaves when there is room within all
    limits, and otherwise exactly one entry leaves: among the transfers that no
    entry of their sender follows, one with the lowest fee rate, outbid by a tenth
    if the new one is a transfer.  With fee replacement disabled no transfer
    displaces anything.  A refused transaction changes nothing but the order of the
    entries. *)
Theorem mempool_add (m : Mempool) (tx : Transaction) (t : Z) :
  mempool_wf m → pool_tx tx → let '(m', r) := add tx t m in admission m tx m' r.
Proof. apply add_admission. Qed.

(** ** Removal *)

Lemma remove_keeps (m : Mempool) (txids : list string) :
  mempool_wf m → ∃ m', remove txids m = (m', Ok ()) ∧ mempool_wf m' ∧ mp_limits m' = mp_limits m ∧
    ∀ id, jm_get id (mp_byId m') = if bool_decide (id ∈ txids) then None else jm_get id (mp_byId m).
Proof.
  unfold remove. revert m. induction txids as [|x txids IH]; intros m Hwf.
  - by exists m.
  - cbn [m_for]. rewrite meth_bind_run, get_run.
    assert (∃ m1, match jm_get x (mp_byId m) with Some tx => deleteTransaction x tx false | None => mret () end m = (m1, Ok ()) ∧
      mempool_wf m1 ∧ mp_limits m1 = mp_limits m ∧ ∀ id, jm_get id (mp_byId m1) = if String.eqb x id then None else jm_get id (mp_byId m))
      as (m1 & -> & Hwf1 & Hl1 & Hg1).
    { destruct (jm_get x (mp_byId m)) as [tx|] eqn:Eg.
      - pose proof (tk_entries _ _ (mw_tracked _ Hwf)) as He. rewrite Forall_forall in He. destruct (He _ (jm_get_elem _ _ _ Eg)) as [Hid _].
        cbn in Hid. subst x. destruct (remove_wf m tx Hwf Eg) as (m1 & -> & ? & ? & Hb). exists m1. split_and!; try done. intros id. by rewrite Hb, jm_get_delete.
      - exists m. split_and!; try done. intros id. destruct (String.eqb_spec x id) as [<-|]; [done|done]. }
    destruct (IH m1 Hwf1) as (m' & Hrun & Hwf' & Hl & Hg). exists m'. split_and!; [done|done|congruence|]. intros id. rewrite Hg, Hg1.
    destruct (String.eqb_spec x id) as [<-|Hne]; [rewrite (bool_decide_true (x ∈ x :: txids)) by (by left); by case_bool_decide|].
    assert (id ∈ x :: txids ↔ id ∈ txids) as Hx by (rewrite elem_of_cons; naive_solver). case_bool_decide as H1; case_bool_decide as H2; naive_solver.
Qed.

Lemma delete_all (m : Mempool) (gone kept : js_map Transaction) :
  mempool_wf m → mp_byId m ≡ₚ gone ++ kept →
  ∃ m', m_for (λ e, deleteTransaction e.1 e.2 false) gone m = (m', Ok ()) ∧ mempool_wf m' ∧ mp_limits m' = mp_limits m ∧ mp_byId m' ≡ₚ kept.
Proof.
  revert m. induction gone as [|[id tx] gone IH]; intros m Hwf Hp; [by exists m|]. pose proof (mw_tracked _ Hwf) as Htr.
  pose proof (tk_entries _ _ Htr) as He. assert ((id, tx) ∈ mp_byId m) as Hin by (rewrite Hp; by left).
  rewrite Forall_forall in He. destruct (He _ Hin) as [Hid _]. cbn [fst snd] in Hid. subst id.
  apply jm_elem_get in Hin; [|apply Htr]. cbn [m_for fst snd]. rewrite meth_bind_run.
  destruct (remove_wf m tx Hwf Hin) as (m1 & -> & Hwf1 & Hl1 & Hb1). destruct (IH m1 Hwf1) as (m' & Hrun & Hwf' & Hl & Hb).
  - rewrite Hb1. apply (Permutation_cons_inv (a := (tx_txid tx, tx))). rewrite <-(jm_delete_perm _ _ _ (tk_nodup _ _ Htr) Hin). exact Hp.
  - exists m'. split_and!; [done|done|congruence|done].
Qed.

(** Pruning removes exactly the entries of the predicate and counts them. *)
Lemma prune_keeps (m : Mempool) (predicate : Transaction → bool) :
  mempool_wf m → ∃ m' n, prune predicate m = (m', Ok n) ∧ mempool_wf m' ∧ mp_limits m' = mp_limits m ∧
    mp_byId m' ≡ₚ filter (λ e, ¬ predicate e.2 = true) (mp_byId m) ∧ n + zlen (mp_byId m') = zlen (mp_byId m).
Proof.
  intros Hwf. unfold prune. rewrite get_run. cbv zeta. set (doomed := filter _ _).
  assert (mp_byId m ≡ₚ doomed ++ filter (λ e, ¬ predicate e.2 = true) (mp_byId m)) as Hp by (symmetry; apply filter_app_complement).
  destruct (delete_all m doomed _ Hwf Hp) as (m' & Hrun & Hwf' & Hl & Hb). exists m', (zlen doomed). rewrite meth_bind_run, Hrun.
  split_and!; try done. unfold zlen. rewrite (Permutation_length Hb), (Permutation_length Hp), length_app. lia.
Qed.

(** ** The protocol reserve *)

Definition protocol_count (m : Mempool) : Z := total (one (λ tx, negb (is_transfer tx)) (λ _, 1)) (mp_byId m).

Lemma pool_split (m : Mempool) : zlen (mp_byId m) = total (one is_transfer (λ _, 1)) (mp_byId m) + protocol_count m.
Proof.
  unfold protocol_count. rewrite <-total_one. generalize (mp_byId m). intros l. induction l as [|e l IH]; [done|]. rewrite !total_cons, IH.
  unfold one at 3 5. destruct (is_transfer e.2); cbn [negb]; lia.
Qed.

(** Transfers cannot starve the protocol: as long as fewer protocol
    transactions are pending than slots are reserved for them and the bytes fit, a
    new protocol transaction whose nonce slot is free and whose sender is below
    its cap is admitted, and no entry is displaced. *)
Theorem protocol_reserve_admits (m : Mempool) (tx : Transaction) (t : Z) :
  mempool_wf m → pool_tx tx → is_transfer tx = false → has m (tx_txid tx) = false → hasSenderNonce m (tx_sender tx) (tx_nonce tx) = false →
  (∀ cap, lm_maxPendingPerSender (mp_limits m) = Some cap → senderPendingCount m (tx_sender tx) < cap) →
  protocol_count m < lm_protocolReserve (mp_limits m) →
  oc_nonMiningBytes (mp_occupancy m) + bytes_of tx ≤ lm_maxNonMiningBytes (mp_limits m) →
  ∃ m', add tx t m = (m', Ok ()) ∧ mp_byId m' = mp_byId m ++ [(tx_txid tx, tx)].
Proof.
  intros Hwf Htx Ht Hnew%bool_decide_eq_false Hslot%bool_decide_eq_false Hcap Hres Hbytes. pose proof (mw_tracked _ Hwf) as Htr.
  apply eq_None_not_Some in Hnew. apply eq_None_not_Some in Hslot. rewrite (tk_occupancy _ _ Htr) in Hbytes. cbn [tally oc_nonMiningBytes] in Hbytes.
  assert (0 ≤ total bytes_of (mp_byId m)) as H0.
  { apply total_nonneg. intros e He. pose proof (tracked_pool _ _ Htr) as Hp. rewrite Forall_forall in Hp. pose proof (pool_bytes _ (Hp e He)). lia. }
  unfold add. rewrite get_run. assert (add_checks m tx = Ok (bytes_of tx)) as Hchk.
  { unfold add_checks. cbv zeta. rewrite (pt_live _ Htx), Ht, Hnew, (pt_bytes _ Htx). cbn [andb mbind res_bind].
    assert (from_option (λ _ : Z, false) false (lm_fixedTransferFeeAtoms (mp_limits m)) = false) as -> by (by destruct (lm_fixedTransferFeeAtoms _)).
    rewrite (proj2 (Z.ltb_ge _ _)) by lia. done. }
  rewrite (lift_run _ _ _ _ Hchk). cbv zeta. unfold conflict_of. fold (tx_key tx) in Hslot. rewrite Hslot.
  rewrite throw_run. 2: { destruct (lm_maxPendingPerSender (mp_limits m)) as [cap|] eqn:Ec; [|done]. cbn. apply Z.leb_gt. by apply Hcap. }
  unfold insertAfterCapacity. assert (non_mining_full m tx (bytes_of tx) = false) as Hfull.
  { unfold non_mining_full. rewrite (tk_occupancy _ _ Htr), Ht. cbn [tally oc_nonMiningBytes oc_nonMiningSize andb]. cbv zeta. rewrite total_one, orb_false_r.
    pose proof (ft_transfers _ (mw_fits _ Hwf)). pose proof (pool_split m). apply orb_false_iff. split; [apply Z.leb_gt|apply Z.ltb_ge]; lia. }
  assert (match tx with MiningClaim x => mining_room x (bytes_of tx) | _ => non_mining_room tx (bytes_of tx) end m = (m, Ok ())) as Hroom.
  { assert (non_mining_room tx (bytes_of tx) m = (m, Ok ())) as Hn by (unfold non_mining_room; rewrite get_run; by rewrite Hfull).
    pose proof (pt_live _ Htx). by destruct tx. }
  rewrite meth_bind_run, Hroom. eexists. split; [by eapply stored_run|]. by apply stored_byId.
Qed.

End mempool.

(** ** A small pool *)

Module MempoolExample.
Import BlockExample.
#[local] Existing Instance ToyCrypto.toy.

Definition key1 : string := Eval vm_compute in nth 0 keys "".
Definition key2 : string := Eval vm_compute in nth 1 keys "".
Definition bob : Address := "ZYN1234567890123456789012345678901234567890".
Definition transfer_from (key : string) (nonce amount fee : Z) : Transaction :=
  match createTransfer "zyron-test" nonce (addressFromPublicKey (pk key)) bob amount fee 1700000000000 key (pk key) 1 with
  | Ok t => Transfer t
  | Throw _ => Transfer (mkTransfer 0 "" 0 "" "" 0 0 0 "" "" "")
  end.
Definition cheap : Transaction := Eval vm_compute in transfer_from key1 1 500 100.
Definition better : Transaction := Eval vm_compute in transfer_from key2 1 500 200.
Definition options (reserve bytes : Z) : MempoolOptions := mkMempoolOptions false None (Some 50) (Some 4) (Some reserve) (Some bytes).
Definition pool_of (r : res Mempool) : Mempool :=
  match r with Ok m => m | Throw _ => mkMempool (mkLimits 0 0 0 0 0 0 false None None 0) [] ∅ ∅ (mkOccupancy 0 0 0 0 0 0) None ∅ ∅ [] [] end.

(** Two slots, one of them reserved: the second transfer takes the place of the first. *)
Definition start : Mempool := Eval vm_compute in pool_of (new_mempool (Some 2) None 100000 1000 (options 1 10)).
Definition one_pending : Mempool := Eval vm_compute in (add cheap 7 start).1.

Lemma pool_tx_by (tx : Transaction) :
  isAddress (tx_sender tx) && (1 <=? tx_nonce tx) && negb (is_mining tx) && negb (String.eqb (tx_txid tx) "") &&
    match transactionBytes tx with Ok _ => true | Throw _ => false end = true → pool_tx tx.
Proof.
  intros Hb. repeat (apply andb_true_iff in Hb as [Hb ?]). breflect. split; try done. unfold bytes_of. by destruct (transactionBytes tx).
Qed.
Lemma pools : mempool_wf start ∧ mempool_wf one_pending.
Proof.
  assert (mempool_wf start) as Hs.
  { refine (proj1 (new_mempool_wf (Some 2) None 100000 1000 (options 1 10) start _)). vm_compute. reflexivity. }
  split; [exact Hs|]. pose proof (add_admission start cheap 7 Hs) as Ha.
  assert (add cheap 7 start = (one_pending, Ok ())) as E by (vm_compute; reflexivity). rewrite E in Ha. apply Ha.
  apply pool_tx_by. vm_compute. reflexivity.
Qed.

Definition upgrade : Transaction := Eval vm_compute in
  ProtocolUpgrade (mkProtocolUpgrade 1 "zyron-test" 1 (addressFromPublicKey (pk key2)) 500 6 [] 0 1700000000000 (pk key2) "00" "01").

(** The byte reserve is not kept: the limit of transfers here is exactly the size
    of the first one, and a longer transfer that outbids it takes more. *)
Definition longer : Transaction := Eval vm_compute in transfer_from key2 1 50000 200.
Definition tight : Mempool := Eval vm_compute in
  (add cheap 7 (pool_of (new_mempool (Some 4) None 1000 1000 (options 1 (1000 - bytes_of cheap))))).1.
Lemma reserved_bytes_taken :
  oc_transferBytes (mp_occupancy tight) = lm_maxNonMiningBytes (mp_limits tight) - lm_protocolReserveBytes (mp_limits tight) ∧
  ∃ m, add longer 8 tight = (m, Ok ()) ∧ lm_maxNonMiningBytes (mp_limits m) - lm_protocolReserveBytes (mp_limits m) < oc_transferBytes (mp_occupancy m).
Proof.
  split; [vm_compute; reflexivity|]. exists (add longer 8 tight).1. split; [vm_compute; reflexivity|]. vm_compute. reflexivity.
Qed.
End MempoolExample.

Lemma mempool_add_witness :
  let '(m, r) := add (H := ToyCrypto.toy) MempoolExample.better 8 MempoolExample.one_pending in
  r = Ok () ∧ mempool_wf m ∧ (mp_byId m).*2 = [MempoolExample.better].
Proof.
  pose proof (mempool_add (H := ToyCrypto.toy) MempoolExample.one_pending MempoolExample.better 8 (proj2 MempoolExample.pools)) as Ha.
  assert (((add MempoolExample.better 8 MempoolExample.one_pending).2, (mp_byId (add MempoolExample.better 8 MempoolExample.one_pending).1).*2)
    = (Ok (), [MempoolExample.better])) as E by (vm_compute; reflexivity).
  destruct (add MempoolExample.better 8 MempoolExample.one_pending) as [m r]. cbn [fst snd] in E. injection E as -> Hb.
  split_and!; [done| |done]. apply Ha. apply MempoolExample.pool_tx_by. vm_compute. reflexivity.
Defined.

Lemma protocol_reserve_admits_witness :
  ∃ m, add (H := ToyCrypto.toy) MempoolExample.upgrade 8 MempoolExample.one_pending = (m, Ok ()) ∧
    (mp_byId m).*2 = [MempoolExample.cheap; MempoolExample.upgrade].
Proof.
  destruct (protocol_reserve_admits (H := ToyCrypto.toy) MempoolExample.one_pending MempoolExample.upgrade 8 (proj2 MempoolExample.pools))
    as (m & Hm & Hb).
  - apply MempoolExample.pool_tx_by. vm_compute. reflexivity.
  - reflexivity.
  - vm_compute. reflexivity.
  - vm_compute. reflexivity.
  - intros cap Hc. vm_compute in Hc. injection Hc as <-. vm_compute. reflexivity.
  - vm_compute. reflexivity.
  - vm_compute. discriminate.
  - exists m. split; [exact Hm|]. rewrite Hb. vm_compute. reflexivity.
Defined.
