(* ===== verification/Chain.v ===== *)
(** The chain (l1/src/chain.ts, class [ZyronChain]): its state, the replay of a
    list of transactions, block preparation and acceptance, mempool admission and
    the selection of pending transactions.

    A method that can change the object is a [meth ZyronChain]; one that only
    reads it takes it as an argument and returns a [res].  [structuredClone] of
    immutable values is the identity.  The clock ([Date.now()]) is an argument. *)

From S2P Require Import Prelude Types Codec JsonText Crypto Vesting Activity Transaction TxShape Oracle Ledger LedgerHistory SparseTree StateV2 StateV2Root Mining Portable Block Genesis Governance Priority ConsensusV6 BlockEnvelope.

Definition MAX_BLOCK_TRANSACTION_BYTES : Z := 1500000.

Record AppliedTransition := mkApplied {
  at_ledger : option LedgerState;
  at_sparse : option SparseMerkleState }.

(** The semantic keys are a [Set]: a list without duplicates, in insertion order. *)
Record ZyronChain := mkChain {
  ch_genesis : GenesisConfig;
  ch_genesisBlock : Block;
  ch_genesisSupplyAtoms : Z;
  ch_tip : Block;
  ch_height : Z;
  ch_validatorSchedule : ValidatorSchedule;
  ch_protocolSchedule : ProtocolSchedule;
  ch_oracleGovernance : OracleSchedule;
  ch_state : option LedgerState;
  ch_stateV2 : option SparseMerkleState;
  ch_semanticKeys : option (list string) }.

(** [set.add(key)] and [new Set(keys)] *)
Definition set_add (keys : list string) (key : string) : list string := if bool_decide (key ∈ keys) then keys else keys ++ [key].
Definition set_of (keys : list string) : list string := fold_left set_add keys [].

(** The genesis read as an oracle set: what [activity.ts] takes of it. *)
Definition genesis_set (genesis : GenesisConfig) : ActivityOracleSet := oracleSetAt genesis ∅ 0.

Section chain.
Context `{Crypto}.

(** [new ZyronChain(genesis)] *)
Definition new_chain (genesis : GenesisConfig) : res ZyronChain :=
  validateGenesis genesis false;;
  state ← fromGenesis genesis;
  supply ← totalSupplyAtoms state;
  stateRoot ← root state;
  genesisBlock ← createGenesisBlock genesis stateRoot;
  Ok (mkChain genesis genesisBlock supply genesisBlock 0 {[0 := g_validators genesis]} {[0 := 1]} ∅ (Some state) None None).

Definition genesisHash (ch : ZyronChain) : string := b_hash (ch_genesisBlock ch).

(** ** Schedules *)

Definition validatorsAt (ch : ZyronChain) (height : Z) : res (list Validator) :=
  throw_if (negb (isSafeInteger height) || (height <? 0)) "Invalid validator height";;
  Ok (entry_at (g_validators (ch_genesis ch)) (ch_validatorSchedule ch) height).

Definition protocolVersionAt (ch : ZyronChain) (height : Z) : res Z :=
  throw_if (negb (isSafeInteger height) || (height <? 0)) "Invalid protocol height";;
  Ok (entry_at 1 (ch_protocolSchedule ch) height).

Definition scheduledProtocolVersionsAbove (ch : ZyronChain) (height : Z) : res (list (Z * Z)) :=
  throw_if (negb (isSafeInteger height) || (height <? 0)) "Invalid protocol height";;
  Ok (js_sort (λ a b, a.1 <=? b.1) (filter (λ e, height < e.1) (map_to_list (ch_protocolSchedule ch)))).

(** Both schedules hold an entry for height 0, so the maximum exists. *)
Definition lastValidatorActivationHeight (ch : ZyronChain) : Z := default 0 (max_key (ch_validatorSchedule ch)).
Definition lastScheduledValidators (ch : ZyronChain) : list Validator :=
  default [] (ch_validatorSchedule ch !! lastValidatorActivationHeight ch).
Definition lastProtocolActivationHeight (ch : ZyronChain) : Z := default 0 (max_key (ch_protocolSchedule ch)).
Definition lastScheduledProtocolVersion (ch : ZyronChain) : Z :=
  default 1 (ch_protocolSchedule ch !! lastProtocolActivationHeight ch).
Definition lastActivityOracleGovernanceHeight (ch : ZyronChain) : Z := default 0 (max_key (ch_oracleGovernance ch)).

Definition validatorAdmissionContext (ch : ZyronChain) (replacedValidators : list Validator) : ValidatorUpdateAdmissionContext :=
  mkAdmissionContext (hasValidatorAdmission (ch_genesis ch)) (g_chainId (ch_genesis ch)) (genesisHash ch) replacedValidators.

Definition governanceSnapshot (ch : ZyronChain) : StateV2GovernanceSnapshot :=
  let activityOracleGovernance := map (λ e, (e.1, e.2.1, e.2.2)) (sorted_entries (ch_oracleGovernance ch)) in
  mkGovernance (sorted_entries (ch_validatorSchedule ch)) (sorted_entries (ch_protocolSchedule ch))
    (if bool_decide (activityOracleGovernance = []) then None else Some activityOracleGovernance).

(** One iteration of [recordGovernanceUpdates]. *)
Definition record_update (ch : ZyronChain) (tx : Transaction) : ZyronChain :=
  let '(mkChain g gb s tip height validators protocols oracles st s2 keys) := ch in
  match tx with
  | ValidatorUpdate t => mkChain g gb s tip height (<[vu_activationHeight t := vu_validators t]> validators) protocols oracles st s2 keys
  | ActivityOracleGovernance t =>
    mkChain g gb s tip height validators protocols (<[og_activationHeight t := (og_action t, og_publicKeys t)]> oracles) st s2 keys
  | ProtocolUpgrade t => mkChain g gb s tip height validators (<[pu_activationHeight t := pu_protocolVersion t]> protocols) oracles st s2 keys
  | _ => ch
  end.
Definition recordGovernanceUpdates (transactions : list Transaction) (ch : ZyronChain) : ZyronChain :=
  fold_left record_update transactions ch.

(** ** Reading the state *)

Definition requireLegacyState (ch : ZyronChain) : res LedgerState :=
  unwrap (ch_state ch) "Legacy ledger is unavailable after State v2 activation".

Definition stateV2PortableView (ch : ZyronChain) : res StateV2PortableView :=
  match ch_stateV2 ch, ch_semanticKeys ch with
  | Some s, Some keys => reconstructStateV2PortableView s keys
  | _, _ => Throw "State v2 semantic view is unavailable"
  end.

Definition legacyStateForTransition (ch : ZyronChain) (preferred : option LedgerState) : res LedgerState :=
  match preferred, ch_state ch, ch_stateV2 ch with
  | Some st, _, _ => Ok st
  | None, Some st, _ => Ok st
  | None, None, None => Throw "No authenticated state is available for legacy transition"
  | None, None, Some _ => view ← stateV2PortableView ch; fromSnapshot (snapshot_json (pv_ledger view))
  end.

(** [this.stateV2 && protocolUsesStateV2(this.protocolVersionAt(this.height)) ? ... : ...] *)
Definition read_state {A} (ch : ZyronChain) (sparse : SparseMerkleState → res A) (legacy : LedgerState → res A) : res A :=
  match ch_stateV2 ch with
  | Some s =>
    version ← protocolVersionAt ch (ch_height ch);
    if protocolUsesStateV2 version then sparse s else st ← requireLegacyState ch; legacy st
  | None => st ← requireLegacyState ch; legacy st
  end.

Definition chainBalance (ch : ZyronChain) (address : Address) : res Z :=
  read_state ch (λ s, stateV2Balance s address) (λ st, Ok (balance st address)).
Definition chainNonce (ch : ZyronChain) (address : Address) : res Z :=
  read_state ch (λ s, stateV2Nonce s address) (λ st, Ok (nonceOf st address)).
Definition chainMiningClaimCount (ch : ZyronChain) : res Z :=
  read_state ch (λ s, stateV2Nonce s MINING_TRACKER_ADDRESS) (λ st, Ok (miningClaimCount st)).
Definition chainEpochSettled (ch : ZyronChain) (epoch : Z) : res bool :=
  read_state ch (λ s, stateV2ActivityEpochSettled s epoch) (λ st, Ok (isActivityEpochSettled st epoch)).

Definition getState (ch : ZyronChain) : res LedgerState :=
  match ch_state ch with
  | Some st => Ok st
  | None => view ← stateV2PortableView ch; fromSnapshot (snapshot_json (pv_ledger view))
  end.
Definition chainTotalSupplyAtoms (ch : ZyronChain) : res Z := st ← getState ch; totalSupplyAtoms st.
Definition nextMiningRewardAtoms (ch : ZyronChain) : res Z :=
  count ← chainMiningClaimCount ch; miningRewardAtoms count (ch_genesisSupplyAtoms ch).

(** [Math.max(nowMs, this.tip.header.timestampMs + 1)] *)
Definition nextBlockTimestampMs (ch : ZyronChain) (nowMs : Z) : Z := Z.max nowMs (h_timestampMs (b_header (ch_tip ch)) + 1).
Definition allocationLocksAt (ch : ZyronChain) (blockTimestampMs : Z) : res (option AllocationLockContext) :=
  allocationLockContext (ch_genesis ch) blockTimestampMs.
Definition spendableBalance (ch : ZyronChain) (address : Address) (nowMs : Z) : res Z :=
  locks ← allocationLocksAt ch (nextBlockTimestampMs ch nowMs);
  amount ← chainBalance ch address;
  spendableAtoms locks address amount.
Definition isActivitySettlementExpired (ch : ZyronChain) (tx : Transaction) : res bool :=
  match tx with
  | ActivitySettlement t =>
    activityEpochWindowExpired (as_epoch t) (g_timestampMs (ch_genesis ch)) (h_timestampMs (b_header (ch_tip ch)) + 1)
  | _ => Ok false
  end.

Definition stateRootForProtocol (protocolVersion : Z) (state : AppliedTransition) : res string :=
  match if protocolVersion =? 1 then at_ledger state else None with
  | Some ledger => root ledger
  | None =>
    match if protocolUsesStateV2 protocolVersion then at_sparse state else None with
    | Some sparse => Ok (sparse_root sparse)
    | None => Throw ("Missing state implementation for protocol version " +:+ pretty protocolVersion)
    end
  end.

(** ** Replaying transactions *)

(** [this.shape(tx)] *)
Definition shape (ch : ZyronChain) (tx : Transaction) : res unit :=
  validateTransactionShape (tx_json tx) (fp_fixedTransferFeeAtoms <$> readFeePolicy (ch_genesis ch));;
  Ok ().

Definition fixedFeeApplication (ch : ZyronChain) (blockHeight : Z) (producer : option Address) : res (option FixedFeeApplication) :=
  match readFeePolicy (ch_genesis ch) with
  | None => Ok None
  | Some policy =>
    resolved ←
      match producer with
      | Some p => Ok p
      | None =>
        validators ← validatorsAt ch blockHeight;
        expected ← expectedValidator validators blockHeight 0;
        Ok (v_address expected)
      end;
    Ok (Some (mkFixedFee resolved (fp_fixedTransferFeeAtoms policy)))
  end.

(** The constants of a block. *)
Record BlockContext := mkBlockContext {
  bc_height : Z;
  bc_timestampMs : Z;
  bc_version : Z;
  bc_fee : option FixedFeeApplication;
  bc_validators : list Validator;
  bc_oracles : ActivityOracleSet;
  bc_locks : option AllocationLockContext }.

(** The working schedule of a block: its [let] variables. *)
Record Cursors := mkCursors {
  cu_lastActivation : Z;
  cu_lastScheduledValidators : list Validator;
  cu_lastProtocolActivation : Z;
  cu_lastProtocolVersion : Z;
  cu_lastOracleGovernance : Z;
  cu_scheduledRevoked : list string;
  cu_pauseScheduled : bool;
  cu_miningClaimSeen : bool;
  cu_miningClaimCount : Z }.

(** The state during the loop. *)
Record Work := mkWork {
  wk_seen : list string;
  wk_cursors : Cursors;
  wk_next : option LedgerState;
  wk_sparse : option SparseMerkleState }.

Definition start_cursors (ch : ZyronChain) (miningClaimCount : Z) : Cursors :=
  mkCursors (lastValidatorActivationHeight ch) (lastScheduledValidators ch) (lastProtocolActivationHeight ch)
    (lastScheduledProtocolVersion ch) (lastActivityOracleGovernanceHeight ch)
    (scheduledOracleRevocations (ch_oracleGovernance ch)) (oraclePauseScheduled (ch_oracleGovernance ch)) false miningClaimCount.

(** The initial [sparse] of both loops. *)
Definition start_sparse (ch : ZyronChain) (protocolVersion : Z) : res (option SparseMerkleState) :=
  if protocolUsesStateV2 protocolVersion then
    match ch_stateV2 ch with
    | Some s => Ok (Some s)
    | None =>
      st ← requireLegacyState ch;
      s ← stateV2FromLedgerSnapshot (snapshot st) (Some (governanceSnapshot ch));
      Ok (Some s)
    end
  else Ok None.

(** The checks of one transaction against the block and the working schedule,
    up to the state transition. *)
Definition authorize (ch : ZyronChain) (ctx : BlockContext) (cu : Cursors) (tx : Transaction) : res unit :=
  let genesis := ch_genesis ch in
  shape ch tx;;
  assertTransactionVersionForProtocol tx (bc_version ctx);;
  match tx with
  | Transfer _ => Ok ()
  | ActivitySettlement t =>
    assertActivitySettlementAuthorized t (bc_oracles ctx)
      (mkAuthContext (Some (g_chainId genesis)) (Some (bc_timestampMs ctx)) (Some (g_timestampMs genesis)));;
    assertActivityEpochWindow (as_epoch t) (g_timestampMs genesis) (bc_timestampMs ctx)
  | MiningClaim t =>
    throw_if (cu_miningClaimSeen cu) "Block contains more than one mining claim";;
    assertMiningClaimContext t (bc_height ctx) (b_hash (ch_tip ch)) (cu_miningClaimCount cu) (ch_genesisSupplyAtoms ch)
  | ValidatorUpdate t =>
    minimum ← minimumValidatorCount genesis;
    validateValidatorUpdateAuthorization t (bc_validators ctx) (bc_height ctx) (cu_lastActivation cu) minimum
      (validatorAdmissionContext ch (cu_lastScheduledValidators cu))
  | ActivityOracleGovernance t =>
    validateActivityOracleGovernanceAuthorization t (bc_validators ctx) (bc_height ctx) (cu_lastOracleGovernance cu) genesis
      (cu_scheduledRevoked cu) (cu_pauseScheduled cu)
  | ProtocolUpgrade t =>
    validateProtocolUpgradeAuthorization t (bc_validators ctx) (bc_height ctx) (cu_lastProtocolActivation cu) (cu_lastProtocolVersion cu)
  end.

(** The governance cursors after a transaction. *)
Definition advance_cursors (cu : Cursors) (tx : Transaction) : Cursors :=
  let '(mkCursors la lv lp lpv lo revoked paused ms mc) := cu in
  match tx with
  | ValidatorUpdate t => mkCursors (vu_activationHeight t) (vu_validators t) lp lpv lo revoked paused ms mc
  | ActivityOracleGovernance t =>
    match og_action t with
    | Pause => mkCursors la lv lp lpv (og_activationHeight t) revoked true ms mc
    | Resume => mkCursors la lv lp lpv (og_activationHeight t) revoked false ms mc
    | Revoke => mkCursors la lv lp lpv (og_activationHeight t) (revoked ++ og_publicKeys t) paused ms mc
    end
  | ProtocolUpgrade t => mkCursors la lv (pu_activationHeight t) (pu_protocolVersion t) lo revoked paused ms mc
  | _ => cu
  end.

(** The mining variables after a transaction that applied. *)
Definition count_mining (cu : Cursors) (tx : Transaction) : Cursors :=
  let '(mkCursors la lv lp lpv lo revoked paused ms mc) := cu in
  match tx with MiningClaim _ => mkCursors la lv lp lpv lo revoked paused true (mc + 1) | _ => cu end.

Definition applyMiningClaimStateV2 (state : SparseMerkleState) (tx : MiningClaimTx) : res SparseMerkleState := rejectRetiredMiningClaim.

(** [if (sparse) sparse = ...; else next!.apply(...)] *)
Definition apply_transaction (ch : ZyronChain) (ctx : BlockContext) (tx : Transaction) : meth Work unit := λ w,
  let '(mkWork seen cu next sparse) := w in
  let pool := g_activityPool (ch_genesis ch) in
  match sparse with
  | Some s =>
    match match tx with
          | MiningClaim t => applyMiningClaimStateV2 s t
          | _ => applyStateV2Transaction s tx pool (bc_locks ctx) (Some (bc_oracles ctx)) (bc_fee ctx)
          end with
    | Ok s' => (mkWork seen cu next (Some s'), Ok ())
    | Throw e => (w, Throw e)
    end
  | None =>
    match next with
    | Some st =>
      let '(st', r) := apply tx pool (bc_locks ctx) (Some (bc_oracles ctx)) (bc_fee ctx) st in
      (mkWork seen cu (Some st') sparse, r)
    | None => (w, Throw "Cannot read properties of undefined (reading 'apply')")
    end
  end.

Definition map_cursors (f : Cursors → Cursors) (w : Work) : Work := mkWork (wk_seen w) (f (wk_cursors w)) (wk_next w) (wk_sparse w).
Definition see_txid (txid : string) (w : Work) : Work := mkWork (set_add (wk_seen w) txid) (wk_cursors w) (wk_next w) (wk_sparse w).

(** One iteration of the loop of [validateAndApply]. *)
Definition replay_step (ch : ZyronChain) (ctx : BlockContext) (tx : Transaction) : meth Work unit :=
  m_throw_if (negb (String.eqb (tx_chainId tx) (g_chainId (ch_genesis ch)))) "Wrong transaction chain ID";;
  w ← m_get;
  m_throw_if (bool_decide (tx_txid tx ∈ wk_seen w)) "Duplicate transaction in block";;
  m_modify (see_txid (tx_txid tx));;
  m_lift (authorize ch ctx (wk_cursors w) tx);;
  m_modify (map_cursors (λ cu, advance_cursors cu tx));;
  apply_transaction ch ctx tx;;
  m_modify (map_cursors (λ cu, count_mining cu tx)).

(** What is computed before the loop. *)
Definition replay_start (ch : ZyronChain) (blockHeight blockTimestampMs : Z) (producer : option Address) : res (BlockContext * Work) :=
  protocolVersion ← protocolVersionAt ch blockHeight;
  fee ← fixedFeeApplication ch blockHeight producer;
  next ← (if protocolVersion =? 1 then st ← legacyStateForTransition ch (ch_state ch); Ok (Some st) else Ok (ch_state ch));
  sparse ← start_sparse ch protocolVersion;
  currentValidators ← validatorsAt ch blockHeight;
  miningClaimCount ← chainMiningClaimCount ch;
  locks ← allocationLocksAt ch blockTimestampMs;
  Ok (mkBlockContext blockHeight blockTimestampMs protocolVersion fee currentValidators
        (oracleSetAt (ch_genesis ch) (ch_oracleGovernance ch) blockHeight) locks,
      mkWork [] (start_cursors ch miningClaimCount) next sparse).

Definition set_state (st : option LedgerState) (ch : ZyronChain) : ZyronChain :=
  let '(mkChain g gb s tip height validators protocols oracles _ s2 keys) := ch in
  mkChain g gb s tip height validators protocols oracles st s2 keys.

(** [validateAndApply(transactions, this.state, ...)]: unless the protocol
    version is 1, [next] is [this.state] itself and not a clone of it, so what
    the loop does to it is done to the chain. *)
Definition validateAndApply (transactions : list Transaction) (blockHeight blockTimestampMs : Z) (producer : option Address)
    : meth ZyronChain AppliedTransition := λ ch,
  match replay_start ch blockHeight blockTimestampMs producer with
  | Throw e => (ch, Throw e)
  | Ok (ctx, w) =>
    let '(w', r) := m_for (replay_step ch ctx) transactions w in
    (if bc_version ctx =? 1 then ch else set_state (wk_next w') ch,
     r;; Ok (mkApplied (wk_next w') (wk_sparse w')))
  end.

Definition validatePending (transactions : list Transaction) (blockTimestampMs : Z) : meth ZyronChain unit :=
  ch ← m_get;
  validateAndApply transactions (ch_height ch + 1) blockTimestampMs None;;
  mret ().

(** ** Blocks

    A block that is validated is a [RawBlock]: its transactions are values that
    were not checked yet. *)

Definition feeProducerOf {T} (block : BlockOf T) : option Address :=
  if String.eqb (h_proposer (b_header block)) "GENESIS" then None else Some (h_proposer (b_header block)).

(** The last steps of every validation: replay the body and compare the roots. *)
Definition replay_block (block : Block) (protocolVersion : Z) : meth ZyronChain AppliedTransition :=
  next ← validateAndApply (b_transactions block) (h_height (b_header block)) (h_timestampMs (b_header block)) (feeProducerOf block);
  stateRoot ← m_lift (stateRootForProtocol protocolVersion next);
  m_throw_if (negb (String.eqb (h_stateRoot (b_header block)) stateRoot)) "State root mismatch";;
  mret next.

Definition assert_block_bytes (block : RawBlock) : res unit :=
  bytes ← canonical_bytes (raw_block_json block); throw_if (MAX_BLOCK_BYTES <? bytes) "Block exceeds byte limit".

Definition validateFinalizedTransition (block : RawBlock) (nowMs : Z) : meth ZyronChain (Block * AppliedTransition) :=
  ch ← m_get;
  checked ← m_lift (
    protocolVersion ← protocolVersionAt ch (h_height (b_header block));
    assertSupportedProtocolVersion protocolVersion;;
    validators ← validatorsAt ch (h_height (b_header block));
    checked ← validateBlockEnvelope (raw_block_json block) (ch_tip ch) validators nowMs true protocolVersion true;
    assert_block_bytes block;;
    Ok (checked, protocolVersion));
  next ← replay_block checked.1 checked.2;
  mret (checked.1, next).

Definition validateFinalizedBlock (block : RawBlock) (nowMs : Z) : meth ZyronChain (option LedgerState) :=
  next ← validateFinalizedTransition block nowMs; mret (at_ledger next.2).
Definition validatedStateV2ForBlock (block : RawBlock) (nowMs : Z) : meth ZyronChain (option SparseMerkleState) :=
  next ← validateFinalizedTransition block nowMs; mret (at_sparse next.2).

Definition stateV2KeysForTransactionBody (tx : Transaction) (genesis : GenesisConfig) : list string :=
  match tx with
  | MiningClaim t => sort_texts [accountKey (mc_sender t); accountKey MINING_TRACKER_ADDRESS]
  | ActivitySettlement _ =>
    if activityRollingWindowEnforced (Some (genesis_set genesis)) then
      sort_texts (stateV2TransactionKeyPreimages tx ++ [accountKey ACTIVITY_WINDOW_TIME_ADDRESS; accountKey ACTIVITY_WINDOW_AMOUNT_ADDRESS])
    else stateV2TransactionKeyPreimages tx
  | _ => stateV2TransactionKeyPreimages tx
  end.

Definition stateV2KeysForTransaction (tx : Transaction) (genesis : GenesisConfig) (producer : string) : res (list string) :=
  let keys := stateV2KeysForTransactionBody tx genesis in
  match tx, readFeePolicy genesis with
  | Transfer t, Some _ =>
    if String.eqb producer "GENESIS" then Ok keys else
    split ← splitFixedFee (tr_feeAtoms t);
    if split.2 <=? 0 then Ok keys
    else if bool_decide (accountKey producer ∈ keys) then Ok keys
    else Ok (sort_texts (keys ++ [accountKey producer]))
  | _, _ => Ok keys
  end.

(** The key set after a block: what [acceptBlock] and
    [stateV2SemanticKeyPreimagesForBlock] compute. *)
Definition keys_after (ch : ZyronChain) (transactions : list Transaction) (proposer : string) : res (list string) :=
  keys ←
    match ch_semanticKeys ch with
    | Some keys => Ok keys
    | None => st ← requireLegacyState ch; Ok (stateV2KeyPreimages (snapshot st) (governanceSnapshot ch))
    end;
  res_fold (λ keys tx,
    more ← stateV2KeysForTransaction tx (ch_genesis ch) proposer;
    Ok (fold_left set_add more keys)) (set_of keys) transactions.

Definition stateV2SemanticKeyPreimagesForBlock (ch : ZyronChain) (block : Block) : res (list string) :=
  keys ← keys_after ch (b_transactions block) (h_proposer (b_header block)); Ok (sort_texts keys).
Definition stateV2SemanticKeyPreimages (ch : ZyronChain) : res (option (list string)) :=
  version ← protocolVersionAt ch (ch_height ch);
  Ok (if protocolUsesStateV2 version then
        match ch_stateV2 ch, ch_semanticKeys ch with Some _, Some keys => Some (sort_texts keys) | _, _ => None end
      else None).

(** [this.tipBlock = ...; this.currentHeight = ...] *)
Definition set_tip (block : Block) (ch : ZyronChain) : ZyronChain :=
  let '(mkChain g gb s _ _ validators protocols oracles st s2 keys) := ch in
  mkChain g gb s block (h_height (b_header block)) validators protocols oracles st s2 keys.
Definition set_states (st : option LedgerState) (s2 : option SparseMerkleState) (keys : option (list string)) (ch : ZyronChain) : ZyronChain :=
  let '(mkChain g gb s tip height validators protocols oracles _ _ _) := ch in
  mkChain g gb s tip height validators protocols oracles st s2 keys.

Definition acceptBlock (raw : RawBlock) (nowMs : Z) : meth ZyronChain unit :=
  accepted ← validateFinalizedTransition raw nowMs;
  let '(block, next) := accepted in
  m_modify (set_tip block);;
  (if h_version (b_header block) =? 1 then m_modify (set_states (at_ledger next) None None)
   else
     ch ← m_get;
     keys ← m_lift (keys_after ch (b_transactions block) (h_proposer (b_header block)));
     m_modify (set_states None (persistenceCheckpoint <$> at_sparse next) (Some keys)));;
  m_modify (recordGovernanceUpdates (b_transactions block)).

(** [validateProposal(block, nowMs, onAuthenticated)]: [alreadyValidated] is what
    the callback answers, [proposal_gates] what runs before it. *)
Definition proposal_gates (ch : ZyronChain) (block : RawBlock) (nowMs : Z) : res (RawBlock * Z) :=
  protocolVersion ← protocolVersionAt ch (h_height (b_header block));
  assertSupportedProtocolVersion protocolVersion;;
  validators ← validatorsAt ch (h_height (b_header block));
  gated ← validateBlockEnvelopeGates (raw_block_json block) (ch_tip ch) validators nowMs false protocolVersion true;
  Ok (gated, protocolVersion).
Definition validateProposal (block : RawBlock) (nowMs : Z) (alreadyValidated : bool) : meth ZyronChain unit :=
  ch ← m_get;
  gated ← m_lift (proposal_gates ch block nowMs);
  if alreadyValidated then m_lift (assert_block_bytes block)
  else
    checked ← m_lift (validateBlockTransactions gated.1);
    m_lift (assert_block_bytes block);;
    replay_block checked gated.2;;
    mret ().

Definition validatePreparedUnsignedBlock (block : Block) (nowMs : Z) : meth ZyronChain unit :=
  ch ← m_get;
  checked ← m_lift (
    protocolVersion ← protocolVersionAt ch (h_height (b_header block));
    assertSupportedProtocolVersion protocolVersion;;
    validators ← validatorsAt ch (h_height (b_header block));
    checked ← validateBlockEnvelope (raw_block_json (raw_of block)) (ch_tip ch) validators nowMs false protocolVersion false;
    assert_block_bytes (raw_of block);;
    Ok (checked, protocolVersion));
  replay_block checked.1 checked.2;;
  mret ().

Definition validatePreparedBlock (ch : ZyronChain) (block : Block) (nowMs : Z) : res unit :=
  protocolVersion ← protocolVersionAt ch (h_height (b_header block));
  validators ← validatorsAt ch (h_height (b_header block));
  validateBlockEnvelope (raw_block_json (raw_of block)) (ch_tip ch) validators nowMs false protocolVersion true;;
  assert_block_bytes (raw_of block).

(** [prepareBlock(transactions, proposerPublicKey, options)] with the options
    filled in: round 0, the clock and no certificate are the defaults. *)
Definition prepareBlock (transactions : list Transaction) (proposerPublicKey : string) (round timestampMs : Z)
    (roundCertificate : list RoundSkipVote) : meth ZyronChain Block :=
  ch ← m_get;
  let height := ch_height ch + 1 in
  protocolVersion ← m_lift (
    protocolVersion ← protocolVersionAt ch height;
    assertSupportedProtocolVersion protocolVersion;;
    validators ← validatorsAt ch height;
    expected ← expectedValidator validators height round;
    throw_if (negb (String.eqb proposerPublicKey (v_publicKey expected)) ||
        negb (String.eqb (addressFromPublicKey proposerPublicKey) (v_address expected)))
      "Public key is not the expected proposer";;
    Ok protocolVersion);
  next ← validateAndApply transactions height timestampMs (Some (addressFromPublicKey proposerPublicKey));
  block ← m_lift (
    stateRoot ← stateRootForProtocol protocolVersion next;
    createUnsignedBlock protocolVersion (g_chainId (ch_genesis ch)) height round (b_hash (ch_tip ch)) timestampMs transactions
      stateRoot proposerPublicKey roundCertificate);
  validatePreparedUnsignedBlock block timestampMs;;
  mret block.

Definition produceBlock (transactions : list Transaction) (proposerPrivateKey : string) (round timestampMs : Z)
    (roundCertificate : list RoundSkipVote) : meth ZyronChain Block :=
  publicKey ← m_lift (publicKeyFromPrivate proposerPrivateKey);
  unsigned ← prepareBlock transactions publicKey round timestampMs roundCertificate;
  let header := b_header unsigned in
  block ← m_lift (createSignedBlock (h_version header) (h_chainId header) (h_height header) (h_round header) (h_previousHash header)
    (h_timestampMs header) (b_transactions unsigned) (h_stateRoot header) proposerPrivateKey publicKey (b_roundCertificate unsigned));
  ch ← m_get;
  m_lift (validatePreparedBlock ch block (h_timestampMs header));;
  mret block.

Definition attestBlock (ch : ZyronChain) (block : Block) (validatorPrivateKey : string) : res Block :=
  publicKey ← publicKeyFromPrivate validatorPrivateKey;
  validators ← validatorsAt ch (h_height (b_header block));
  validator ← unwrap (List.find (λ item, String.eqb (v_publicKey item) publicKey) validators) "Attestor is not in validator set";
  throw_if (existsb (λ item, String.eqb (at_validator item) (v_address validator)) (b_attestations block)) "Validator already attested block";;
  attestation ← createBlockAttestation block validatorPrivateKey publicKey;
  Ok (mkBlock (b_header block) (b_transactions block) (b_hash block) (b_proposerPublicKey block) (b_signature block)
    (b_roundCertificate block) (b_attestations block ++ [attestation]) (b_commitRound block)).

(** ** Pending transactions *)

(** The checks of a governance or settlement transaction against the chain as it
    is, which admission and the selection hint share. *)
Definition authorize_update (ch : ZyronChain) (tx : ValidatorSetUpdateTx) (validators : list Validator) : res unit :=
  minimum ← minimumValidatorCount (ch_genesis ch);
  validateValidatorUpdateAuthorization tx validators (ch_height ch + 1) (lastValidatorActivationHeight ch) minimum
    (validatorAdmissionContext ch (lastScheduledValidators ch)).
Definition authorize_oracle (ch : ZyronChain) (tx : ActivityOracleGovernanceTx) (validators : list Validator) : res unit :=
  validateActivityOracleGovernanceAuthorization tx validators (ch_height ch + 1) (lastActivityOracleGovernanceHeight ch)
    (ch_genesis ch) (scheduledOracleRevocations (ch_oracleGovernance ch)) (oraclePauseScheduled (ch_oracleGovernance ch)).
Definition authorize_upgrade (ch : ZyronChain) (tx : ProtocolUpgradeTx) (validators : list Validator) : res unit :=
  validateProtocolUpgradeAuthorization tx validators (ch_height ch + 1) (lastProtocolActivationHeight ch) (lastScheduledProtocolVersion ch).
Definition settlement_context (ch : ZyronChain) (blockTimestampMs : Z) : ActivityOracleAuthContext :=
  mkAuthContext (Some (g_chainId (ch_genesis ch))) (Some blockTimestampMs) (Some (g_timestampMs (ch_genesis ch))).

(** Whether a pending update is a usable predecessor: the body of the [try]. *)
Definition predecessor_ok (ch : ZyronChain) (tx candidate : ValidatorSetUpdateTx) (validators : list Validator) (protocolVersion : Z)
    : res unit :=
  shape ch (ValidatorUpdate candidate);;
  assertTransactionVersionForProtocol (ValidatorUpdate candidate) protocolVersion;;
  authorize_update ch candidate validators;;
  minimum ← minimumValidatorCount (ch_genesis ch);
  validateValidatorUpdateAuthorization tx validators (ch_height ch + 1) (vu_activationHeight candidate) minimum
    (validatorAdmissionContext ch (vu_validators candidate)).

Definition is_ok {A} (r : res A) : bool := match r with Ok _ => true | Throw _ => false end.

Definition validatorUpdateAdmissionPredecessors (ch : ZyronChain) (tx : ValidatorSetUpdateTx) (validators : list Validator)
    (pending : list Transaction) : res (list ValidatorSetUpdateTx) :=
  if negb (hasValidatorAdmission (ch_genesis ch)) then Ok [] else
  protocolVersion ← protocolVersionAt ch (ch_height ch + 1);
  minimumValidatorCount (ch_genesis ch);;
  Ok (omap (λ candidate,
    match candidate with
    | ValidatorUpdate c =>
      if String.eqb (vu_txid c) (vu_txid tx) || negb (String.eqb (vu_chainId c) (g_chainId (ch_genesis ch))) then None
      else if (vu_activationHeight c <=? lastValidatorActivationHeight ch) || (vu_activationHeight tx <=? vu_activationHeight c) then None
      else if String.eqb (vu_sender c) (vu_sender tx) && (vu_nonce tx <=? vu_nonce c) then None
      else if is_ok (predecessor_ok ch tx c validators protocolVersion) then Some c else None
    | _ => None
    end) pending).

(** The checks of a settlement at the earliest time of the next block. *)
Definition admit_settlement (ch : ZyronChain) (tx : ActivitySettlementTx) (nowMs : Z) : res unit :=
  let genesis := ch_genesis ch in
  let oracles := oracleSetAt genesis (ch_oracleGovernance ch) (ch_height ch + 1) in
  let blockTimestampMs := nextBlockTimestampMs ch nowMs in
  assertActivitySettlementAuthorized tx oracles (settlement_context ch blockTimestampMs);;
  throw_if (negb (String.eqb (as_sender tx) (g_activityPool genesis))) "Invalid activity pool sender";;
  res_forall (λ entry, assertNoActivityPoolInflow (e_receiver entry) (g_activityPool genesis)) (as_entries tx);;
  total ← assertActivitySettlementWithinCap (as_entries tx) (activitySettlementCapAtoms (Some oracles));
  assertActivityEpochWindow (as_epoch tx) (g_timestampMs genesis) blockTimestampMs;;
  settled ← chainEpochSettled ch (as_epoch tx);
  throw_if settled "Activity epoch already settled";;
  nextSettled ← chainEpochSettled ch (as_epoch tx + 1);
  throw_if nextSettled ACTIVITY_ORDER_MESSAGE;;
  (if activityRollingWindowEnforced (Some (genesis_set genesis)) then
     throw_if (existsb (λ entry, isActivityWindowAddress (e_receiver entry)) (as_entries tx)) ACTIVITY_WINDOW_RESERVED_MESSAGE;;
     windowTime ← chainNonce ch ACTIVITY_WINDOW_TIME_ADDRESS;
     windowAmount ← chainNonce ch ACTIVITY_WINDOW_AMOUNT_ADDRESS;
     assertActivityRollingWindow (mkWindowRecord windowTime windowAmount) (Some blockTimestampMs) total (activitySettlementCapAtoms (Some oracles))
   else Ok ());;
  pool ← chainBalance ch (g_activityPool genesis);
  throw_if (pool <? total) "Activity pool exhausted";;
  locks ← allocationLocksAt ch blockTimestampMs;
  assertAllocationLockOutflow locks (as_sender tx) pool total.

Definition admit_transfer (ch : ZyronChain) (tx : TransferTx) (nowMs : Z) : res unit :=
  let genesis := ch_genesis ch in
  assertNoActivityPoolInflow (tr_receiver tx) (g_activityPool genesis);;
  assertNoActivityPoolDirectDebit (tr_sender tx) (g_activityPool genesis) (Some (genesis_set genesis));;
  throw_if (activityRollingWindowEnforced (Some (genesis_set genesis)) && isActivityWindowAddress (tr_receiver tx)) ACTIVITY_WINDOW_RESERVED_MESSAGE;;
  let total := tr_amountAtoms tx + tr_feeAtoms tx in
  throw_if (negb (isSafeInteger total)) "Insufficient balance";;
  available ← chainBalance ch (tr_sender tx);
  throw_if (available <? total) "Insufficient balance";;
  locks ← allocationLocksAt ch (nextBlockTimestampMs ch nowMs);
  assertAllocationLockOutflow locks (tr_sender tx) available total.

Definition validateMempoolAdmission (ch : ZyronChain) (tx : Transaction) (nowMs : Z) (pending : list Transaction)
    : res (list ValidatorSetUpdateTx) :=
  throw_if (negb (String.eqb (tx_chainId tx) (g_chainId (ch_genesis ch)))) "Wrong transaction chain ID";;
  shape ch tx;;
  protocolVersion ← protocolVersionAt ch (ch_height ch + 1);
  assertTransactionVersionForProtocol tx protocolVersion;;
  match tx with
  | Transfer t => admit_transfer ch t nowMs;; Ok []
  | ActivitySettlement t => admit_settlement ch t nowMs;; Ok []
  | MiningClaim t =>
    assertMiningNotRetired;;
    nonce ← chainNonce ch (mc_sender t);
    throw_if (negb (mc_nonce t =? nonce + 1)) "Mining claim nonce must be next confirmed nonce";;
    count ← chainMiningClaimCount ch;
    assertMiningClaimContext t (ch_height ch + 1) (b_hash (ch_tip ch)) count (ch_genesisSupplyAtoms ch);;
    Ok []
  | ValidatorUpdate t =>
    validators ← validatorsAt ch (ch_height ch + 1);
    match authorize_update ch t validators with
    | Ok _ => Ok []
    | Throw error =>
      predecessors ← validatorUpdateAdmissionPredecessors ch t validators pending;
      if bool_decide (predecessors = []) then Throw error else Ok predecessors
    end
  | ActivityOracleGovernance t =>
    validators ← validatorsAt ch (ch_height ch + 1);
    authorize_oracle ch t validators;;
    Ok []
  | ProtocolUpgrade t =>
    validators ← validatorsAt ch (ch_height ch + 1);
    authorize_upgrade ch t validators;;
    Ok []
  end.

Definition assertValidatorUpdateAuthorizedExceptProofs (ch : ZyronChain) (tx : ValidatorSetUpdateTx) : res unit :=
  throw_if (negb (String.eqb (vu_chainId tx) (g_chainId (ch_genesis ch)))) "Wrong transaction chain ID";;
  shape ch (ValidatorUpdate tx);;
  protocolVersion ← protocolVersionAt ch (ch_height ch + 1);
  assertTransactionVersionForProtocol (ValidatorUpdate tx) protocolVersion;;
  validators ← validatorsAt ch (ch_height ch + 1);
  minimum ← minimumValidatorCount (ch_genesis ch);
  validateValidatorUpdateQuorum tx validators (ch_height ch + 1) (lastValidatorActivationHeight ch) minimum.

(** The body of the [try] of [isAuthorizedProtocolCandidate]. *)
Definition authorized_candidate (ch : ZyronChain) (tx : Transaction) (protocolVersion blockTimestampMs : Z) : res unit :=
  shape ch tx;;
  assertTransactionVersionForProtocol tx protocolVersion;;
  match tx with
  | ActivitySettlement t =>
    assertActivitySettlementAuthorized t (oracleSetAt (ch_genesis ch) (ch_oracleGovernance ch) (ch_height ch + 1))
      (settlement_context ch blockTimestampMs);;
    assertActivityEpochWindow (as_epoch t) (g_timestampMs (ch_genesis ch)) blockTimestampMs
  | ValidatorUpdate t => validators ← validatorsAt ch (ch_height ch + 1); authorize_update ch t validators
  | ActivityOracleGovernance t => validators ← validatorsAt ch (ch_height ch + 1); authorize_oracle ch t validators
  | ProtocolUpgrade t => validators ← validatorsAt ch (ch_height ch + 1); authorize_upgrade ch t validators
  | _ => Ok ()
  end.
Definition isAuthorizedProtocolCandidate (ch : ZyronChain) (tx : Transaction) (protocolVersion blockTimestampMs : Z) : bool :=
  if negb (String.eqb (tx_chainId tx) (g_chainId (ch_genesis ch))) then false else
  match tx with
  | Transfer _ | MiningClaim _ => false
  | _ => is_ok (authorized_candidate ch tx protocolVersion blockTimestampMs)
  end.

(** ** Selection *)

(** The variables of the selection loop; [se_selected] in order. *)
Record Selection := mkSelection {
  se_selected : list Transaction;
  se_bytes : Z;
  se_work : Work }.

Definition set_work (w : Work) (s : Selection) : Selection := mkSelection (se_selected s) (se_bytes s) w.
(** Running a method of the working state inside the loop. *)
Definition on_work {A} (m : meth Work A) : meth Selection A := λ s,
  let '(w, r) := m (se_work s) in (set_work w s, r).

(** [selected.push(tx); selectedBytes += ...; seen.add(tx.txid)] *)
Definition push_selected (tx : Transaction) (transactionBytes : Z) (s : Selection) : Selection :=
  mkSelection (se_selected s ++ [tx]) (se_bytes s + transactionBytes) (see_txid (tx_txid tx) (se_work s)).

(** The body of the [try]: [continue] is a throw, which the [catch] turns into
    the next iteration. *)
Definition select_try (ch : ZyronChain) (ctx : BlockContext) (maxTransactionBytes : Z) (tx : Transaction) : meth Selection unit :=
  s ← m_get;
  m_throw_if (negb (String.eqb (tx_chainId tx) (g_chainId (ch_genesis ch))) || bool_decide (tx_txid tx ∈ wk_seen (se_work s))) "continue";;
  m_lift (authorize ch ctx (wk_cursors (se_work s)) tx);;
  bytes ← m_lift (canonical_bytes (tx_json tx));
  let transactionBytes := bytes + (if bool_decide (se_selected s = []) then 0 else 1) in
  m_throw_if (maxTransactionBytes <? se_bytes s + transactionBytes) "continue";;
  on_work (apply_transaction ch ctx tx);;
  on_work (m_modify (map_cursors (λ cu, advance_cursors (count_mining cu tx) tx)));;
  m_modify (push_selected tx transactionBytes).

(** The loop with its [break] at the limit. *)
Fixpoint select_loop (ch : ZyronChain) (ctx : BlockContext) (limit maxTransactionBytes : Z) (ordered : list Transaction) (s : Selection)
    : Selection :=
  match ordered with
  | [] => s
  | tx :: rest =>
    if limit <=? zlen (se_selected s) then s
    else select_loop ch ctx limit maxTransactionBytes rest (select_try ch ctx maxTransactionBytes tx s).1
  end.

Definition selectValidPending (ch : ZyronChain) (transactions : list Transaction) (limit maxTransactionBytes blockTimestampMs : Z)
    (producerAddress : option Address) : res (list Transaction) :=
  throw_if (negb (isSafeInteger limit) || (limit <? 0) || (10000 <? limit)) "Invalid pending selection limit";;
  throw_if (negb (isSafeInteger maxTransactionBytes) || (maxTransactionBytes <? 0) || (MAX_BLOCK_TRANSACTION_BYTES <? maxTransactionBytes))
    "Invalid pending byte limit";;
  let height := ch_height ch + 1 in
  protocolVersion ← protocolVersionAt ch height;
  assertSupportedProtocolVersion protocolVersion;;
  let ordered := orderPendingByFeePriority (negb (bool_decide (is_Some (readFeePolicy (ch_genesis ch)))))
    (λ tx, isAuthorizedProtocolCandidate ch tx protocolVersion blockTimestampMs) transactions in
  fee ← fixedFeeApplication ch height producerAddress;
  next ← (if protocolVersion =? 1 then st ← legacyStateForTransition ch None; Ok (Some st) else Ok None);
  sparse ← start_sparse ch protocolVersion;
  currentValidators ← validatorsAt ch height;
  miningClaimCount ← chainMiningClaimCount ch;
  locks ← allocationLocksAt ch blockTimestampMs;
  let ctx := mkBlockContext height blockTimestampMs protocolVersion fee currentValidators
    (oracleSetAt (ch_genesis ch) (ch_oracleGovernance ch) height) locks in
  Ok (se_selected (select_loop ch ctx limit maxTransactionBytes ordered
    (mkSelection [] 0 (mkWork [] (start_cursors ch miningClaimCount) next sparse)))).

End chain.

(** ** A small chain *)

Module ChainExample.
Import ToyCrypto BlockExample.
#[local] Existing Instance ToyCrypto.toy.

Definition key1 : string := Eval vm_compute in default "" (head keys).
Definition alice : Address := Eval vm_compute in addressFromPublicKey (pk key1).
Definition bob : Address := "ZYN1234567890123456789012345678901234567890".
Definition pool : Address := "ZYNcccccccccccccccccccccccccccccccccccccccc".
Definition config : GenesisConfig :=
  mkGenesis "zyron-test" 1700000000000 validators [pk key1] pool [mkAllocation alice 1000000; mkAllocation pool 5000]
    None None None None None None None None None.
Definition genesis : GenesisConfig := Eval vm_compute in
  match signGenesisPossessionProofs config keys with Ok g => g | Throw _ => config end.
Definition start_of (r : res ZyronChain) (g : GenesisConfig) : ZyronChain :=
  match r with Ok ch => ch | Throw _ => mkChain g BlockExample.first 0 BlockExample.first 0 ∅ ∅ ∅ None None None end.
Definition chain : ZyronChain := Eval vm_compute in start_of (new_chain genesis) genesis.

Definition transfer_of (sealed : res TransferTx) : TransferTx :=
  match sealed with Ok t => t | Throw _ => mkTransfer 0 "" 0 "" "" 0 0 0 "" "" "" end.
(** A valid transfer, and one whose nonce is stale. *)
Definition pay : Transaction :=
  Eval vm_compute in Transfer (transfer_of (createTransfer "zyron-test" 1 alice bob 500 100 1700000000000 key1 (pk key1) 1)).
Definition stale : Transaction :=
  Eval vm_compute in Transfer (transfer_of (createTransfer "zyron-test" 7 alice bob 500 100 1700000000000 key1 (pk key1) 1)).

(** The upgrade to protocol version 6 at height 101, approved by three of the
    four validators. *)
Definition approvals : list ValidatorApproval := Eval vm_compute in
  omap (λ k, match createProtocolUpgradeApproval "zyron-test" 2 alice 101 6 k (pk k) 1 with Ok a => Some a | Throw _ => None end) (take 3 keys).
Definition upgrade_of (sealed : res ProtocolUpgradeTx) : ProtocolUpgradeTx :=
  match sealed with Ok t => t | Throw _ => mkProtocolUpgrade 0 "" 0 "" 0 0 [] 0 0 "" "" "" end.
Definition upgrade : Transaction :=
  Eval vm_compute in ProtocolUpgrade (upgrade_of (createProtocolUpgrade "zyron-test" 2 alice 101 6 approvals 1700000000000 key1 (pk key1) 1)).

(** The first block: the leader produces it and three validators attest it. *)
Definition attest_with (ch : ZyronChain) (block : Block) (k : string) : Block :=
  match attestBlock ch block k with Ok b => b | Throw _ => block end.
Definition block1 : RawBlock := Eval vm_compute in
  match (produceBlock [pay; upgrade] key1 0 1700000000001 [] chain).2 with
  | Ok b => raw_of (fold_left (attest_with chain) (take 3 keys) b)
  | Throw _ => raw_of BlockExample.first
  end.
Definition chain1 : ZyronChain := Eval vm_compute in (acceptBlock block1 1700000000001 chain).1.

End ChainExample.
