(* ===== verification/Selection.v ===== *)
(** Block selection against block validation (l1/src/chain.ts,
    [selectValidPending] and [validateAndApply]): what a proposer selects is a
    body that replays, within its limits. *)

From S2P Require Import Prelude Types Codec Crypto Vesting Activity Transaction TxShape ShapeRead Oracle Ledger LedgerHistory SparseTree StateV2 Mining Portable Block Genesis Governance Priority BlockEnvelope Chain.

Lemma m_for_snoc {S A} (body : A → meth S unit) (l : list A) (x : A) (s : S) :
  m_for body (l ++ [x]) s = match m_for body l s with (s', Ok _) => body x s' | (s', Throw e) => (s', Throw e) end.
Proof.
  revert s. induction l as [|y l IH]; intros s; cbn [app m_for].
  - rewrite meth_bind_run. unfold mret, meth_ret. by destruct (body x s) as [s1 [[]|e]].
  - rewrite !meth_bind_run. destruct (body y s) as [s' [[]|e]]; [apply IH|done].
Qed.

Lemma set_add_fresh (keys : list string) (k : string) : k ∉ keys → set_add keys k = keys ++ [k].
Proof. intros Hk. unfold set_add. by rewrite bool_decide_false. Qed.

Section selection.
Context `{Crypto}.
Implicit Types (ch : ZyronChain) (ctx : BlockContext) (w : Work) (tx : Transaction).

(** What [this.shape(tx)] establishes. *)
Lemma shape_Ok ch tx (u : unit) :
  shape ch tx = Ok u → tx_wf tx ∧ fee_matches (fp_fixedTransferFeeAtoms <$> readFeePolicy (ch_genesis ch)) tx.
Proof.
  unfold shape. intros E. apply res_bind_Ok in E as (tx' & E & _). pose proof (shape_reads_back _ _ _ E) as ->.
  apply shape_gate in E as (Hw & Hf & _). done.
Qed.

Lemma authorize_shape ch ctx (cu : Cursors) tx (u : unit) : authorize ch ctx cu tx = Ok u → shape ch tx = Ok ().
Proof. unfold authorize. cbv zeta. intros E. by apply res_bind_Ok in E as ([] & E & _). Qed.

(** The fee of a block may be paid to its producer. *)
Definition fee_payable ch (fee : option FixedFeeApplication) : Prop :=
  ∀ f, fee = Some f → ff_producer f ≠ MINING_TRACKER_ADDRESS ∧ ff_producer f ≠ g_activityPool (ch_genesis ch).

Lemma authorized_fee_ok ch ctx (cu : Cursors) (t : TransferTx) (u : unit) (producer : option Address) (height : Z) :
  fixedFeeApplication ch height producer = Ok (bc_fee ctx) → fee_payable ch (bc_fee ctx) →
  authorize ch ctx cu (Transfer t) = Ok u → fee_ok (bc_fee ctx) (tr_feeAtoms t) (g_activityPool (ch_genesis ch)).
Proof.
  intros Hfee Hpay Ha%authorize_shape. apply shape_Ok in Ha as [[_ Hw] Hf]. unfold fixedFeeApplication in Hfee.
  destruct (readFeePolicy (ch_genesis ch)) as [policy|]; [|by apply Ok_inj in Hfee as <-].
  apply res_bind_Ok in Hfee as (p & _ & Hfee). apply Ok_inj in Hfee. rewrite <-Hfee in *. unfold fee_ok. cbn [ff_fixedTransferFeeAtoms ff_producer].
  cbn in Hf. destruct Hw as (_ & _ & _ & Hfees & _). split; [done|]. split.
  - apply isSafeInteger_spec. assert (MAX_SUPPLY_ATOMS ≤ MAX_SAFE_INTEGER) by (by apply Z.leb_le). lia.
  - split; [lia|]. intros _. apply (Hpay _ eq_refl).
Qed.

(** ** The state transition inside both loops *)

(** Equal up to a ledger that is never used. *)
Record same_work w w' : Prop := {
  sw_seen : wk_seen w = wk_seen w';
  sw_cursors : wk_cursors w = wk_cursors w';
  sw_sparse : wk_sparse w = wk_sparse w';
  sw_next : wk_sparse w = None → wk_next w = wk_next w' }.

(** In legacy mode the working ledger exists and is sound. *)
Definition work_wf w : Prop := wk_sparse w = None → ∃ st, wk_next w = Some st ∧ ledger_wf st.

Lemma apply_transaction_same ch ctx tx w w1 w' :
  same_work w w' → apply_transaction ch ctx tx w = (w1, Ok ()) →
  ∃ w1', apply_transaction ch ctx tx w' = (w1', Ok ()) ∧ same_work w1 w1' ∧ wk_seen w1 = wk_seen w ∧ wk_cursors w1 = wk_cursors w ∧
    (wk_sparse w1 = None ↔ wk_sparse w = None).
Proof.
  destruct w as [seen cu next sp], w' as [seen' cu' next' sp']. intros [Hs Hc Hp Hn]. cbn in Hs, Hc, Hp, Hn. subst seen' cu' sp'.
  unfold apply_transaction. cbv zeta. destruct sp as [s|].
  - destruct (match tx with MiningClaim _ => _ | _ => _ end) as [s'|e]; [|congruence]. intros [= <-].
    eexists. split; [done|]. split; [by split|done].
  - specialize (Hn eq_refl) as ->. destruct next' as [st|]; [|congruence]. destruct (apply _ _ _ _ _ st) as [st' r]. intros [= <- ->].
    eexists. split; [done|]. split; [by split|done].
Qed.

Lemma apply_transaction_wf ch ctx tx w w1 :
  work_wf w → tx_wf tx → apply_transaction ch ctx tx w = (w1, Ok ()) → work_wf w1.
Proof.
  destruct w as [seen cu next sp]. intros Hw Ht. unfold apply_transaction, work_wf in *. cbv zeta. cbn in Hw. destruct sp as [s|].
  - destruct (match tx with MiningClaim _ => _ | _ => _ end) as [s'|e]; [|congruence]. by intros [= <-].
  - destruct (Hw eq_refl) as (st & -> & Hwf). destruct (apply _ _ _ _ _ st) as [st' r] eqn:Ea. intros [= <- ->] _. exists st'.
    split; [done|]. by eapply apply_supply_wf.
Qed.

Lemma apply_transaction_throw ch ctx tx w w1 (e : string) :
  work_wf w → tx_wf tx → (∀ t, tx = Transfer t → fee_ok (bc_fee ctx) (tr_feeAtoms t) (g_activityPool (ch_genesis ch))) →
  apply_transaction ch ctx tx w = (w1, Throw e) → w1 = w.
Proof.
  destruct w as [seen cu next sp]. intros Hw Ht Hfee. unfold apply_transaction, work_wf in *. cbv zeta. cbn in Hw. destruct sp as [s|].
  - destruct (match tx with MiningClaim _ => _ | _ => _ end) as [s'|e']; [congruence|]. by intros [= <- _].
  - destruct (Hw eq_refl) as (st & -> & Hwf). destruct (apply _ _ _ _ _ st) as [st' r] eqn:Ea. intros [= <- ->].
    by rewrite (apply_throw_keeps _ _ _ _ _ _ _ _ Hwf Ht Hfee Ea).
Qed.

Lemma cursors_commute (cu : Cursors) tx : advance_cursors (count_mining cu tx) tx = count_mining (advance_cursors cu tx) tx.
Proof. destruct cu, tx as [t|t|t|t|t|t]; try done. cbn. by destruct (og_action t). Qed.

(** ** One selected transaction *)

(** The bytes of a body: its transactions and the commas between them. *)
Definition body_bytes (sizes : list Z) : Z := fold_right Z.add 0 sizes + (if bool_decide (sizes = []) then 0 else zlen sizes - 1).

Lemma body_bytes_snoc (sizes : list Z) (n : Z) :
  body_bytes (sizes ++ [n]) = body_bytes sizes + n + (if bool_decide (sizes = []) then 0 else 1).
Proof.
  unfold body_bytes. rewrite fold_right_app. rewrite bool_decide_false by (by destruct sizes). unfold zlen. rewrite length_app. cbn [fold_right length].
  assert (∀ z, fold_right Z.add z sizes = fold_right Z.add 0 sizes + z) as Hz by (intros z; induction sizes as [|y l IH]; cbn [fold_right]; lia).
  rewrite (Hz (n + 0)). destruct sizes as [|y l]; [cbn; lia|]. rewrite !bool_decide_false by done. cbn [length]. lia.
Qed.

(** The selection so far replays from [w0], is within the limits and is what the
    working state has seen. *)
Record select_inv ch ctx (w0 : Work) (maxBytes : Z) (s : Selection) : Prop := {
  si_replay : ∃ w, m_for (replay_step ch ctx) (se_selected s) w0 = (w, Ok ()) ∧ same_work (se_work s) w;
  si_wf : work_wf (se_work s);
  si_seen : wk_seen (se_work s) = tx_txid <$> se_selected s;
  si_nodup : NoDup (tx_txid <$> se_selected s);
  si_sparse : wk_sparse (se_work s) = None ↔ wk_sparse w0 = None;
  si_bytes : ∃ sizes, Forall2 (λ tx n, canonical_bytes (tx_json tx) = Ok n) (se_selected s) sizes ∧
    se_bytes s = body_bytes sizes ∧ body_bytes sizes ≤ maxBytes }.

Lemma replay_step_run ch ctx tx w w1 :
  tx_chainId tx = g_chainId (ch_genesis ch) → tx_txid tx ∉ wk_seen w → authorize ch ctx (wk_cursors w) tx = Ok () →
  apply_transaction ch ctx tx (map_cursors (λ cu, advance_cursors cu tx) (see_txid (tx_txid tx) w)) = (w1, Ok ()) →
  replay_step ch ctx tx w = (map_cursors (λ cu, count_mining cu tx) w1, Ok ()).
Proof.
  intros Hc Hs Ha Hp. unfold replay_step. rewrite meth_bind_run, Hc, String.eqb_refl. cbn [negb m_throw_if throw_if m_lift].
  rewrite meth_bind_run. cbn [m_get]. rewrite meth_bind_run, bool_decide_false by done. cbn [m_throw_if throw_if m_lift].
  rewrite meth_bind_run. cbn [m_modify]. rewrite meth_bind_run, Ha. cbn [m_lift]. rewrite meth_bind_run. cbn [m_modify].
  by rewrite meth_bind_run, Hp.
Qed.

Lemma select_try_Ok ch ctx (maxBytes : Z) tx s s' (u : unit) :
  select_try ch ctx maxBytes tx s = (s', Ok u) →
  ∃ bytes w1, tx_chainId tx = g_chainId (ch_genesis ch) ∧ tx_txid tx ∉ wk_seen (se_work s) ∧
    authorize ch ctx (wk_cursors (se_work s)) tx = Ok () ∧ canonical_bytes (tx_json tx) = Ok bytes ∧
    let n := bytes + (if bool_decide (se_selected s = []) then 0 else 1) in
    se_bytes s + n ≤ maxBytes ∧ apply_transaction ch ctx tx (se_work s) = (w1, Ok ()) ∧
    s' = mkSelection (se_selected s ++ [tx]) (se_bytes s + n)
      (see_txid (tx_txid tx) (map_cursors (λ cu, advance_cursors (count_mining cu tx) tx) w1)).
Proof.
  unfold select_try. intros E. apply meth_bind_Ok in E as (s0 & ? & Eg & E). injection Eg as <- <-.
  apply meth_bind_Ok in E as (s1 & [] & [-> Hc]%m_throw_if_Ok & E). apply orb_false_iff in Hc as [Hc Hn].
  apply negb_false_iff, String.eqb_eq in Hc. apply bool_decide_eq_false in Hn.
  apply meth_bind_Ok in E as (s1 & [] & [-> Ha]%m_lift_Ok & E). apply meth_bind_Ok in E as (s1 & bytes & [-> Hb]%m_lift_Ok & E). cbv zeta in E.
  apply meth_bind_Ok in E as (s1 & [] & [-> Hm]%m_throw_if_Ok & E). apply Z.ltb_ge in Hm.
  apply meth_bind_Ok in E as (s1 & [] & Hp & E). unfold on_work in Hp. destruct (apply_transaction ch ctx tx (se_work s)) as [w1 r] eqn:Ea.
  injection Hp as <- ->. apply meth_bind_Ok in E as (s2 & [] & Hq & E). injection Hq as <-. injection E as <-.
  exists bytes, w1. split_and!; done.
Qed.

Lemma select_try_inv ch ctx (w0 : Work) (maxBytes : Z) tx s s' (u : unit) :
  select_inv ch ctx w0 maxBytes s → select_try ch ctx maxBytes tx s = (s', Ok u) → select_inv ch ctx w0 maxBytes s'.
Proof.
  intros [(w & Hrun & Hsame) Hwf Hseen Hnd Hsp (sizes & Hsizes & Hbytes & Hmax)] E.
  apply select_try_Ok in E as (bytes & w1 & Hc & Hn & Ha & Hb & Hm & Hp & ->). rewrite Hseen in Hn.
  set (adv := map_cursors (λ cu, advance_cursors cu tx) (see_txid (tx_txid tx) w)).
  assert (wk_next adv = wk_next w ∧ wk_sparse adv = wk_sparse w) as [Hn1 Hn2] by done.
  (* the replay's transition starts from the advanced cursors *)
  destruct (apply_transaction_same ch ctx tx (se_work s) w1 (mkWork (wk_seen (se_work s)) (wk_cursors (se_work s)) (wk_next w) (wk_sparse w))
    ltac:(destruct Hsame; split; done) Hp) as (w1' & Hp' & Hs1 & Hs2 & Hs3 & Hs4).
  assert (∃ w2, apply_transaction ch ctx tx adv = (w2, Ok ()) ∧ wk_next w2 = wk_next w1' ∧ wk_sparse w2 = wk_sparse w1' ∧
    wk_seen w2 = wk_seen adv ∧ wk_cursors w2 = wk_cursors adv) as (w2 & Hp2 & Hw2).
  { revert Hp'. destruct w as [seen cu next sp]. unfold apply_transaction, adv, map_cursors, see_txid. cbn [wk_seen wk_cursors wk_next wk_sparse].
    cbv zeta. destruct sp as [sp|].
    - destruct (match tx with MiningClaim _ => _ | _ => _ end) as [sp'|e]; [|congruence]. intros [= <-]. by eexists.
    - destruct next as [st|]; [|congruence]. destruct (apply _ _ _ _ _ st) as [st' r]. intros [= <- ->]. by eexists. }
  destruct Hw2 as (E1 & E2 & E3 & E4). destruct Hsame as [S1 S2 S3 S4]. destruct Hs1 as [T1 T2 T3 T4].
  assert (tx_txid tx ∉ wk_seen w) as Hn3 by (by rewrite <-S1, Hseen).
  split; cbn [se_selected se_work se_bytes].
  - eexists. rewrite m_for_snoc, Hrun, (replay_step_run ch ctx tx w w2 Hc Hn3 ltac:(by rewrite <-S2) Hp2). split; [done|].
    unfold see_txid, map_cursors. split; cbn [wk_seen wk_cursors wk_next wk_sparse].
    + rewrite E3, Hs2. unfold adv, see_txid, map_cursors. cbn. by rewrite S1.
    + rewrite E4, Hs3. unfold adv, see_txid, map_cursors. cbn. by rewrite S2, cursors_commute.
    + by rewrite E2.
    + intros Hnone. rewrite E1. by apply T4.
  - apply authorize_shape, shape_Ok in Ha as [Htx _]. exact (apply_transaction_wf _ _ _ _ _ Hwf Htx Hp).
  - unfold see_txid. cbn. rewrite Hs2, Hseen, set_add_fresh by done. by rewrite fmap_app.
  - rewrite fmap_app. apply NoDup_app. split_and!; [done| |apply NoDup_singleton]. intros x Hx ->%list_elem_of_singleton. done.
  - cbn. by rewrite Hs4.
  - exists (sizes ++ [bytes]). split; [by apply Forall2_app; [|repeat constructor]|].
    assert (bool_decide (sizes = []) = bool_decide (se_selected s = [])) as Heq.
    { apply bool_decide_ext. by destruct Hsizes. }
    rewrite body_bytes_snoc, Heq. cbv zeta in Hm. rewrite Hbytes in *. split; lia.
Qed.
(** ** The loop *)

Lemma set_work_same s : set_work (se_work s) s = s.
Proof. by destruct s. Qed.

(** A pending transaction that is skipped leaves the selection as it was. *)
Lemma select_try_throw ch ctx (maxBytes : Z) (producer : option Address) (height : Z) tx s s' (e : string) :
  fixedFeeApplication ch height producer = Ok (bc_fee ctx) → fee_payable ch (bc_fee ctx) → work_wf (se_work s) →
  select_try ch ctx maxBytes tx s = (s', Throw e) → s' = s.
Proof.
  intros Hfee Hpay Hwf. unfold select_try. revert e s'.
  apply meth_throw_keeps; [done|]. intros s0 Eg. injection Eg as <-.
  apply meth_throw_keeps; [done|]. intros [] _.
  apply meth_throw_keeps; [done|]. intros [] [_ Ha]%m_lift_Ok.
  apply meth_throw_keeps; [done|]. intros bytes _. cbv zeta. apply meth_throw_keeps; [done|]. intros [] _ e s' E.
  rewrite meth_bind_run in E. unfold on_work at 1 in E. destruct (apply_transaction ch ctx tx (se_work s)) as [w1 [[]|e1]] eqn:Ep.
  - rewrite meth_bind_run in E. unfold on_work in E. cbn [m_modify] in E. discriminate E.
  - injection E as <- _. apply authorize_shape in Ha as Hs. apply shape_Ok in Hs as [Htx _].
    rewrite (apply_transaction_throw ch ctx tx (se_work s) w1 e1 Hwf Htx); [apply set_work_same| |done].
    intros t ->. by eapply authorized_fee_ok.
Qed.

Lemma select_loop_inv ch ctx (w0 : Work) (limit maxBytes : Z) (producer : option Address) (height : Z) (ordered : list Transaction) s :
  fixedFeeApplication ch height producer = Ok (bc_fee ctx) → fee_payable ch (bc_fee ctx) →
  select_inv ch ctx w0 maxBytes s → zlen (se_selected s) ≤ limit →
  let s' := select_loop ch ctx limit maxBytes ordered s in
  select_inv ch ctx w0 maxBytes s' ∧ zlen (se_selected s') ≤ limit ∧
  ∃ l, se_selected s' = se_selected s ++ l ∧ l `sublist_of` ordered.
Proof.
  intros Hfee Hpay. revert s. induction ordered as [|tx rest IH]; intros s Hs Hl; cbn [select_loop].
  { split_and!; [done|done|]. exists []. by rewrite app_nil_r. }
  destruct (Z.leb_spec limit (zlen (se_selected s))) as [Hle|Hlt].
  { split_and!; [done|done|]. exists []. rewrite app_nil_r. split; [done|apply sublist_nil_l]. }
  destruct (select_try ch ctx maxBytes tx s) as [s1 [u|e]] eqn:Et; cbn [fst].
  - assert (se_selected s1 = se_selected s ++ [tx]) as Hsel.
    { apply select_try_Ok in Et as (? & ? & _ & _ & _ & _ & _ & _ & ->). done. }
    destruct (IH s1) as (H1 & H2 & l & H3 & H4).
    + by eapply select_try_inv.
    + rewrite Hsel. unfold zlen in *. rewrite length_app. cbn [length]. lia.
    + split_and!; [done|done|]. exists (tx :: l). rewrite H3, Hsel, <-app_assoc. split; [done|by constructor].
  - rewrite (select_try_throw ch ctx maxBytes producer height tx s s1 e Hfee Hpay (si_wf _ _ _ _ _ Hs) Et).
    destruct (IH s Hs Hl) as (H1 & H2 & l & H3 & H4). split_and!; [done|done|]. exists l. split; [done|by constructor].
Qed.

(** ** Selection and replay start from the same state *)

Lemma assertSupported_cases (version : Z) (u : unit) :
  assertSupportedProtocolVersion version = Ok u → version = 1 ∨ protocolUsesStateV2 version = true.
Proof.
  unfold assertSupportedProtocolVersion. intros E%throw_if_Ok. apply negb_false_iff, bool_decide_eq_true in E.
  unfold SUPPORTED_PROTOCOL_VERSIONS in E. set_unfold. destruct E as [-> | [-> | [-> | [-> | [-> | []]]]]]; auto.
Qed.

Lemma start_sparse_Some ch (version : Z) (sp : option SparseMerkleState) :
  start_sparse ch version = Ok sp → (protocolUsesStateV2 version = true ↔ is_Some sp).
Proof.
  unfold start_sparse. destruct (protocolUsesStateV2 version).
  - destruct (ch_stateV2 ch); [intros <-%Ok_inj; by eauto|]. intros E. apply res_bind_Ok in E as (st & _ & E).
    apply res_bind_Ok in E as (s & _ & E). apply Ok_inj in E as <-. by eauto.
  - intros <-%Ok_inj. split; [done|]. by intros [].
Qed.

Lemma legacy_preferred ch : legacyStateForTransition ch (ch_state ch) = legacyStateForTransition ch None.
Proof. unfold legacyStateForTransition. by destruct (ch_state ch). Qed.

Lemma set_state_same ch : set_state (ch_state ch) ch = ch.
Proof. by destruct ch. Qed.

Lemma replay_step_keeps_next ch ctx tx w w1 (r : res unit) :
  is_Some (wk_sparse w) → replay_step ch ctx tx w = (w1, r) → wk_next w1 = wk_next w ∧ is_Some (wk_sparse w1).
Proof.
  intros [sp Hsp] E. destruct w as [seen cu next sparse]. cbn in Hsp. subst sparse. revert E. unfold replay_step.
  rewrite meth_bind_run. destruct (m_throw_if _ _ _) as [w2 [[]|e]] eqn:E1; [|intros [= <- <-]; injection E1 as <-; by eauto].
  apply m_throw_if_Ok in E1 as [-> _]. rewrite meth_bind_run. cbn [m_get]. rewrite meth_bind_run.
  destruct (m_throw_if _ _ _) as [w2 [[]|e]] eqn:E1; [|intros [= <- <-]; injection E1 as <-; by eauto].
  apply m_throw_if_Ok in E1 as [-> _]. rewrite meth_bind_run. cbn [m_modify]. rewrite meth_bind_run.
  unfold m_lift. destruct (authorize _ _ _ _) as [[]|e]; [|intros [= <- <-]; by eauto]. rewrite meth_bind_run. cbn [m_modify].
  rewrite meth_bind_run. unfold apply_transaction, see_txid, map_cursors. cbn [wk_seen wk_cursors wk_next wk_sparse]. cbv zeta.
  destruct (match tx with MiningClaim _ => _ | _ => _ end) as [s'|e]; intros [= <- <-]; cbn; eauto.
Qed.

Lemma replay_keeps_next ch ctx (txs : list Transaction) w w1 (r : res unit) :
  is_Some (wk_sparse w) → m_for (replay_step ch ctx) txs w = (w1, r) → wk_next w1 = wk_next w ∧ is_Some (wk_sparse w1).
Proof.
  revert w. induction txs as [|tx txs IH]; intros w Hw; cbn [m_for].
  - intros [= <- <-]. done.
  - rewrite meth_bind_run. destruct (replay_step ch ctx tx w) as [w2 [[]|e]] eqn:E; apply replay_step_keeps_next in E as [E1 E2]; try done.
    + intros Hr. destruct (IH w2 E2 Hr) as [-> ?]. done.
    + by intros [= <- <-].
Qed.
(** Under a supported protocol version a replay does not change the chain. *)
Lemma validateAndApply_pure ch (txs : list Transaction) (height time : Z) (producer : option Address) (version : Z) :
  protocolVersionAt ch height = Ok version → assertSupportedProtocolVersion version = Ok () →
  (validateAndApply txs height time producer ch).1 = ch.
Proof.
  intros Hv Hsup. unfold validateAndApply. destruct (replay_start ch height time producer) as [[ctx w]|e] eqn:Es; [|done].
  destruct (m_for (replay_step ch ctx) txs w) as [w1 r] eqn:Er. cbn [fst].
  unfold replay_start in Es. rewrite Hv in Es. cbn [mbind res_bind] in Es.
  apply res_bind_Ok in Es as (fee & _ & Es). apply res_bind_Ok in Es as (next & Hnext & Es). apply res_bind_Ok in Es as (sp & Hsp & Es).
  do 3 (apply res_bind_Ok in Es as (? & _ & Es)). apply Ok_inj in Es as [= <- <-]. cbn [bc_version].
  destruct (Z.eqb_spec version 1); [done|]. apply Ok_inj in Hnext as <-.
  apply assertSupported_cases in Hsup as [?|Hsup]; [done|]. apply (start_sparse_Some _ _ _ Hsp) in Hsup.
  apply replay_keeps_next in Er as [-> _]; [|done]. apply set_state_same.
Qed.

(** C5. What a proposer selects is a valid body: on a chain whose ledger is well
    formed, and where the fixed fee of the next height, if there is one, can be
    paid to this producer, the selection replays on the chain, which stays as it
    is; it holds pending transactions, each at most once; and it respects the
    limits on its length and its bytes. *)
Theorem selection_replays ch (txs sel : list Transaction) (limit maxBytes time : Z) (producer : option Address) :
  selectValidPending ch txs limit maxBytes time producer = Ok sel →
  (∀ st, legacyStateForTransition ch (ch_state ch) = Ok st → ledger_wf st) →
  (∀ fee, fixedFeeApplication ch (ch_height ch + 1) producer = Ok fee → fee_payable ch fee) →
  (∃ next, validateAndApply sel (ch_height ch + 1) time producer ch = (ch, Ok next)) ∧
  sel ⊆+ txs ∧ NoDup (tx_txid <$> sel) ∧ zlen sel ≤ limit ∧
  ∃ sizes, Forall2 (λ tx n, canonical_bytes (tx_json tx) = Ok n) sel sizes ∧ body_bytes sizes ≤ maxBytes.
Proof.
  unfold selectValidPending. intros E Hled Hpay.
  apply res_bind_Ok in E as ([] & Hlim%throw_if_Ok & E). apply res_bind_Ok in E as ([] & Hmax%throw_if_Ok & E). cbv zeta in E.
  apply res_bind_Ok in E as (version & Hv & E). apply res_bind_Ok in E as ([] & Hsup & E).
  apply res_bind_Ok in E as (fee & Hfee & E). apply res_bind_Ok in E as (next & Hnext & E). apply res_bind_Ok in E as (sp & Hsp & E).
  apply res_bind_Ok in E as (vals & Hvals & E). apply res_bind_Ok in E as (count & Hcount & E). apply res_bind_Ok in E as (locks & Hlocks & E).
  apply Ok_inj in E. set (ctx := mkBlockContext _ _ _ _ _ _ _) in E. set (ordered := orderPendingByFeePriority _ _ _) in E.
  pose proof (start_sparse_Some _ _ _ Hsp) as Hspv.
  pose (next0 := if version =? 1 then next else ch_state ch). pose (w0 := mkWork [] (start_cursors ch count) next0 sp).
  assert (replay_start ch (ch_height ch + 1) time producer = Ok (ctx, w0)) as Hstart.
  { unfold replay_start. rewrite Hv. cbn [mbind res_bind]. rewrite Hfee. cbn [mbind res_bind].
    assert ((if version =? 1 then st ← legacyStateForTransition ch (ch_state ch); Ok (Some st) else Ok (ch_state ch)) = Ok next0) as ->.
    { unfold next0. destruct (version =? 1); [|done]. by rewrite legacy_preferred. }
    cbn [mbind res_bind]. rewrite Hsp. cbn [mbind res_bind]. rewrite Hvals. cbn [mbind res_bind]. rewrite Hcount. cbn [mbind res_bind].
    rewrite Hlocks. done. }
  assert (sp = None → ∃ st, next = Some st ∧ next0 = Some st ∧ ledger_wf st) as Hwf0.
  { intros ->. apply assertSupported_cases in Hsup as [-> | Hs2]; [|by apply Hspv in Hs2 as []].
    unfold next0. cbn [Z.eqb Pos.eqb] in Hnext |- *. apply res_bind_Ok in Hnext as (st & Hst & Hnext). apply Ok_inj in Hnext as <-.
    exists st. split_and!; [done|done|]. apply Hled. by rewrite legacy_preferred. }
  destruct (select_loop_inv ch ctx w0 limit maxBytes producer (ch_height ch + 1) ordered
    (mkSelection [] 0 (mkWork [] (start_cursors ch count) next sp))) as (Hinv & Hlen & l & Hl & Hsub); [done|by apply Hpay| | |].
  { split; cbn.
    - exists w0. split; [done|]. split; cbn; try done. intros Hn. destruct (Hwf0 Hn) as (st & -> & -> & _). done.
    - intros Hn. cbn in Hn |- *. destruct (Hwf0 Hn) as (st & -> & _ & ?). by exists st.
    - done.
    - constructor.
    - done.
    - exists []. split_and!; [constructor|done|]. breflect. unfold body_bytes; cbn. lia. }
  { cbn. breflect. unfold zlen; cbn. lia. }
  rewrite E in *. cbn [se_selected app] in Hl. destruct Hinv as [(w & Hrun & _) _ _ Hnd _ (sizes & Hs1 & _ & Hs3)].
  rewrite E in Hrun, Hnd, Hs1. split_and!; [| |done|done|by exists sizes].
  - pose proof (validateAndApply_pure ch sel (ch_height ch + 1) time producer version Hv Hsup) as Hpure.
    unfold validateAndApply in *. rewrite Hstart, Hrun in *. cbn [fst mbind res_bind] in *. rewrite Hpure. by eexists.
  - rewrite Hl, <-(order_perm _ _ txs : ordered ≡ₚ txs). by apply sublist_submseteq.
Qed.
End selection.

Lemma selection_replays_witness :
  selectValidPending (H := ToyCrypto.toy) ChainExample.chain [ChainExample.stale; ChainExample.pay] 10 1000000 1700000000001 None
    = Ok [ChainExample.pay] ∧
  ∃ next, validateAndApply (H := ToyCrypto.toy) [ChainExample.pay] 1 1700000000001 None ChainExample.chain = (ChainExample.chain, Ok next).
Proof.
  assert (selectValidPending (H := ToyCrypto.toy) ChainExample.chain [ChainExample.stale; ChainExample.pay] 10 1000000 1700000000001 None
    = Ok [ChainExample.pay]) as Hs by (vm_compute; reflexivity).
  split; [exact Hs|]. refine (proj1 (selection_replays _ _ _ _ _ _ _ Hs _ _)).
  - intros st Hst. apply Ok_inj in Hst as <-. split.
    + apply (bool_decide_unpack (map_Forall (λ _ acc, 0 ≤ balanceAtoms acc ∧ 0 ≤ nonce acc) _)). vm_compute. exact I.
    + apply Z.leb_le. vm_compute. reflexivity.
  - intros fee Hfee. apply Ok_inj in Hfee as <-. by intros f [=].
Defined.

(** ** A version this binary does not know

    [validatePending] does not ask whether the version is supported, and
    [validateAndApply] clones the ledger only under version 1: once the validators
    have scheduled another version for the next height, checking a pending
    transaction spends it in the confirmed ledger. *)

Module UnknownVersion.
Import BlockExample ChainExample.
#[local] Existing Instance ToyCrypto.toy.

Definition scheduled : ZyronChain := Eval vm_compute in
  let '(mkChain g gb s tip _ vs _ os st s2 keys) := chain in mkChain g gb s tip 100 vs {[0 := 1; 101 := 4]} os st s2 keys.
Definition payment : Transaction :=
  Eval vm_compute in Transfer (transfer_of (createTransfer "zyron-test" 1 alice bob 500 100 1700000000000 key1 (pk key1) 2)).

Lemma pending_check_spends :
  chainBalance scheduled bob = Ok 0 ∧
  ∃ ch, validatePending [payment] 1700000000001 scheduled = (ch, Ok ()) ∧ chainBalance ch bob = Ok 500.
Proof.
  split; [vm_compute; reflexivity|]. exists (validatePending [payment] 1700000000001 scheduled).1.
  split; vm_compute; reflexivity.
Qed.
End UnknownVersion.
