(* ===== verification/ChainGovernance.v ===== *)
(** Governance over the life of a chain (l1/src/chain.ts, [acceptBlock],
    [recordGovernanceUpdates], [validatorsAt], [protocolVersionAt]): what an
    accepted block can change in the schedules, and what holds of the schedules
    of every chain that grew from its genesis. *)

From S2P Require Import Prelude Types Codec Crypto Vesting Activity Transaction TxShape ShapeRead Oracle Ledger LedgerHistory SparseTree StateV2 Mining Portable Block Genesis Governance Priority ConsensusV6 BlockEnvelope Chain Selection.

Lemma hash_field_back (s t name : string) : hash_field (JStr s) name = Ok t → t = s.
Proof. unfold hash_field. intros E. by read_back. Qed.

Lemma header_back (h h' : BlockHeader) : header_structure (header_json h) = Ok h' → h' = h.
Proof.
  destruct h. unfold header_structure, header_json. intros E. read_back.
  repeat match goal with E : hash_field (JStr _) _ = Ok _ |- _ => apply hash_field_back in E; subst end. done.
Qed.

(** The gates read the header and the transactions of the block they are given. *)
Lemma structure_back (b b' : RawBlock) :
  validateBlockStructure (raw_block_json b) = Ok b' → b_header b' = b_header b ∧ b_transactions b' = b_transactions b.
Proof.
  unfold validateBlockStructure, raw_block_json. intros E. apply res_bind_Ok in E as (value & Hv & E). apply Ok_inj in Hv as <-.
  set (value := _ ++ _) in E. assert (get value "header" = header_json (b_header b)) as Hh by done.
  assert (get value "transactions" = JArr (b_transactions b)) as Ht by done. rewrite Hh, Ht in E. clearbody value. clear Hh Ht.
  apply res_bind_Ok in E as (cr & _ & E). apply res_bind_Ok in E as (h & Hh%header_back & E). apply res_bind_Ok in E as (hash & _ & E).
  apply res_bind_Ok in E as (u1 & _ & E). apply res_bind_Ok in E as (txs & Htxs%array_back & E).
  do 12 (apply res_bind_Ok in E as (? & _ & E)). apply Ok_inj in E as <-. by subst.
Qed.

Section accept.
Context `{Crypto}.
Implicit Types (ch : ZyronChain) (ctx : BlockContext) (w : Work) (tx : Transaction).

(** What an accepted block went through: the gates against the tip, the replay
    from the chain's state, the comparison of roots. *)
Record accepted ch (raw : RawBlock) (nowMs : Z) (block : Block) ctx (w0 w1 : Work) : Prop := {
  ac_header : b_header block = b_header raw;
  ac_supported : assertSupportedProtocolVersion (bc_version ctx) = Ok ();
  ac_envelope : validateBlockEnvelope (raw_block_json raw) (ch_tip ch) (bc_validators ctx) nowMs true (bc_version ctx) true = Ok block;
  ac_start : replay_start ch (h_height (b_header block)) (h_timestampMs (b_header block)) (feeProducerOf block) = Ok (ctx, w0);
  ac_replay : m_for (replay_step ch ctx) (b_transactions block) w0 = (w1, Ok ());
  ac_root : stateRootForProtocol (bc_version ctx) (mkApplied (wk_next w1) (wk_sparse w1)) = Ok (h_stateRoot (b_header block)) }.

(** The chain after the block. *)
Definition extended ch (block : Block) (w1 : Work) (keys : list string) : ZyronChain :=
  recordGovernanceUpdates (b_transactions block)
    (if h_version (b_header block) =? 1 then set_states (wk_next w1) None None (set_tip block ch)
     else set_states None (persistenceCheckpoint <$> wk_sparse w1) (Some keys) (set_tip block ch)).

Lemma replay_start_ctx ch (height time : Z) (producer : option Address) ctx w :
  replay_start ch height time producer = Ok (ctx, w) →
  protocolVersionAt ch height = Ok (bc_version ctx) ∧ validatorsAt ch height = Ok (bc_validators ctx) ∧
  fixedFeeApplication ch height producer = Ok (bc_fee ctx) ∧ allocationLocksAt ch time = Ok (bc_locks ctx) ∧
  bc_height ctx = height ∧ bc_timestampMs ctx = time ∧ bc_oracles ctx = oracleSetAt (ch_genesis ch) (ch_oracleGovernance ch) height ∧
  wk_seen w = [] ∧ (∃ count, wk_cursors w = start_cursors ch count) ∧ start_sparse ch (bc_version ctx) = Ok (wk_sparse w) ∧
  (if bc_version ctx =? 1 then legacyStateForTransition ch (ch_state ch) = Ok (default emptyLedger (wk_next w)) ∧ is_Some (wk_next w)
   else wk_next w = ch_state ch).
Proof.
  unfold replay_start. intros E. apply res_bind_Ok in E as (version & Hv & E). apply res_bind_Ok in E as (fee & Hfee & E).
  apply res_bind_Ok in E as (next & Hnext & E). apply res_bind_Ok in E as (sp & Hsp & E). apply res_bind_Ok in E as (vals & Hvals & E).
  apply res_bind_Ok in E as (count & Hcount & E). apply res_bind_Ok in E as (locks & Hlocks & E). apply Ok_inj in E as [= <- <-].
  cbn [bc_version bc_validators bc_fee bc_locks bc_height bc_timestampMs bc_oracles wk_seen wk_cursors wk_sparse wk_next].
  split_and!; try done; [by eexists|]. destruct (version =? 1).
  - apply res_bind_Ok in Hnext as (st & Hst & Hnext). apply Ok_inj in Hnext as <-. cbn. by eauto.
  - by apply Ok_inj in Hnext.
Qed.

Lemma validateFinalizedTransition_Ok ch (raw : RawBlock) (nowMs : Z) ch' (block : Block) (next : AppliedTransition) :
  validateFinalizedTransition raw nowMs ch = (ch', Ok (block, next)) →
  ch' = ch ∧ ∃ ctx w0 w1, accepted ch raw nowMs block ctx w0 w1 ∧ next = mkApplied (wk_next w1) (wk_sparse w1).
Proof.
  unfold validateFinalizedTransition. intros E. apply meth_bind_Ok in E as (c & ? & Eg & E). injection Eg as <- <-.
  apply meth_bind_Ok in E as (c & [blk version] & [-> Hc]%m_lift_Ok & E). cbn [fst snd] in E.
  apply res_bind_Ok in Hc as (v & Hv & Hc). apply res_bind_Ok in Hc as ([] & Hsup & Hc). apply res_bind_Ok in Hc as (vals & Hvals & Hc).
  apply res_bind_Ok in Hc as (blk' & Henv & Hc). apply res_bind_Ok in Hc as ([] & _ & Hc). apply Ok_inj in Hc as [= Ec1 Ec2]. subst blk' v.
  assert (b_header blk = b_header raw) as Hh.
  { unfold validateBlockEnvelope, validateBlockEnvelopeGates in Henv. apply res_bind_Ok in Henv as (rb & Hg & Ht).
    apply res_bind_Ok in Hg as (? & _ & Hg). apply res_bind_Ok in Hg as (rb' & [Hs _]%structure_back & Hg).
    do 5 (apply res_bind_Ok in Hg as (? & _ & Hg)). apply Ok_inj in Hg as <-.
    unfold validateBlockTransactions in Ht. apply res_bind_Ok in Ht as (txs & _ & Ht). apply Ok_inj in Ht as <-. done. }
  apply meth_bind_Ok in E as (c & nx & Hr & E). apply mret_Ok in E as [-> [= -> ->]].
  unfold replay_block in Hr. apply meth_bind_Ok in Hr as (c1 & nx1 & Ha & Hr).
  apply meth_bind_Ok in Hr as (c2 & root & [-> Hroot]%m_lift_Ok & Hr). apply meth_bind_Ok in Hr as (c2 & [] & [-> Heq]%m_throw_if_Ok & Hr).
  apply mret_Ok in Hr as [-> ->]. apply negb_false_iff, String.eqb_eq in Heq.
  pose proof (validateAndApply_pure ch (b_transactions block) (h_height (b_header block)) (h_timestampMs (b_header block)) (feeProducerOf block) version
    ltac:(by rewrite Hh) Hsup) as Hpure. rewrite Ha in Hpure. cbn [fst] in Hpure. subst c1. split; [done|].
  unfold validateAndApply in Ha. destruct (replay_start _ _ _ _) as [[ctx w0]|e] eqn:Es; [|done].
  destruct (m_for (replay_step ch ctx) (b_transactions block) w0) as [w1 [[]|e]] eqn:Er; injection Ha as _ Ha; [|done]. subst next.
  exists ctx, w0, w1. split; [|done]. apply replay_start_ctx in Es as Hctx. destruct Hctx as (Hv' & Hvals' & _).
  rewrite Hh, Hv in Hv'. rewrite Hh, Hvals in Hvals'. apply Ok_inj in Hv'. apply Ok_inj in Hvals'. subst version vals.
  split; try done. by rewrite Hroot, Heq.
Qed.

Lemma acceptBlock_Ok ch (raw : RawBlock) (nowMs : Z) ch' (u : unit) :
  acceptBlock raw nowMs ch = (ch', Ok u) →
  ∃ block ctx w0 w1 keys, accepted ch raw nowMs block ctx w0 w1 ∧ ch' = extended ch block w1 keys ∧
    (h_version (b_header block) ≠ 1 → keys_after (set_tip block ch) (b_transactions block) (h_proposer (b_header block)) = Ok keys).
Proof.
  unfold acceptBlock. intros E. apply meth_bind_Ok in E as (c & [block next] & Hv & E).
  apply validateFinalizedTransition_Ok in Hv as (-> & ctx & w0 & w1 & Hacc & ->).
  apply meth_bind_Ok in E as (c & [] & Et & E). injection Et as <-. apply meth_bind_Ok in E as (c & [] & Es & E). injection E as <- _.
  destruct (Z.eqb_spec (h_version (b_header block)) 1) as [Hv|Hv].
  - injection Es as <-. exists block, ctx, w0, w1, []. split; [done|]. unfold extended. by rewrite Hv.
  - apply meth_bind_Ok in Es as (c1 & ? & Eg & Es). injection Eg as <- <-. apply meth_bind_Ok in Es as (c1 & keys & [-> Hk]%m_lift_Ok & Es).
    injection Es as <-. exists block, ctx, w0, w1, keys. split; [done|]. split; [|done]. unfold extended.
    apply Z.eqb_neq in Hv. by rewrite Hv.
Qed.

End accept.

(** ** The schedules along a block *)

Lemma last_insert {A} (s : gmap Z A) (k : Z) (v : A) : default 0 (max_key s) < k → default 0 (max_key (<[k:=v]> s)) = k.
Proof.
  intros Hk. destruct (max_key_spec (<[k:=v]> s) k v (lookup_insert_eq _ _ _)) as (m & -> & [x Hx] & Hmax). cbn.
  pose proof (Hmax k ltac:(rewrite lookup_insert_eq; by eauto)) as Hkm. destruct (decide (k = m)) as [->|Hne]; [done|].
  rewrite lookup_insert_ne in Hx by done. destruct (max_key_spec s m x Hx) as (m' & Hm' & _ & Hmax'). rewrite Hm' in Hk. cbn in Hk.
  specialize (Hmax' m (mk_is_Some _ _ Hx)). lia.
Qed.

Lemma last_max {A} (s : gmap Z A) (k : Z) (v : A) : s !! k = Some v → k ≤ default 0 (max_key s) ∧ is_Some (s !! default 0 (max_key s)).
Proof. intros Hk. destruct (max_key_spec s k v Hk) as (m & -> & Hm & Hmax). split; [apply Hmax; by eauto|done]. Qed.

(** No entry of the protocol schedule goes back below an entry of version 6 or later. *)
Definition no_downgrade (s : gmap Z Z) : Prop :=
  ∀ k1 k2 v1 v2, s !! k1 = Some v1 → s !! k2 = Some v2 → k1 < k2 → 6 ≤ v1 → v1 ≤ v2.

(** The schedules start at genesis. *)
Record schedules_wf (ch : ZyronChain) : Prop := {
  sc_validators : ch_validatorSchedule ch !! 0 = Some (g_validators (ch_genesis ch));
  sc_protocol : ch_protocolSchedule ch !! 0 = Some 1;
  sc_v6 : no_downgrade (ch_protocolSchedule ch) }.

(** The cursors of the loop are the last entries of the schedules. *)
Record cursors_at (cu : Cursors) (ch : ZyronChain) : Prop := {
  ca_validators : cu_lastActivation cu = lastValidatorActivationHeight ch;
  ca_protocol : cu_lastProtocolActivation cu = lastProtocolActivationHeight ch;
  ca_version : cu_lastProtocolVersion cu = lastScheduledProtocolVersion ch;
  ca_oracle : cu_lastOracleGovernance cu = lastActivityOracleGovernanceHeight ch }.

Lemma start_cursors_at (ch : ZyronChain) (count : Z) : cursors_at (start_cursors ch count) ch.
Proof. done. Qed.

Lemma no_downgrade_insert (s : gmap Z Z) (k v : Z) :
  no_downgrade s → s !! 0 = Some 1 → default 0 (max_key s) < k →
  (6 ≤ default 1 (s !! default 0 (max_key s)) → default 1 (s !! default 0 (max_key s)) ≤ v) → no_downgrade (<[k:=v]> s).
Proof.
  intros Hs H0 Hk Hv k1 k2 v1 v2 H1 H2 Hlt H6. destruct (last_max s 0 1 H0) as [_ [lv Hlv]]. rewrite Hlv in Hv. cbn in Hv.
  apply lookup_insert_Some in H1 as [[<- <-]|[Hne1 H1]]; apply lookup_insert_Some in H2 as [[<- <-]|[Hne2 H2]]; [lia| | |by eapply Hs].
  - destruct (last_max s k2 v2 H2) as [? _]. lia.
  - destruct (decide (k1 = default 0 (max_key s))) as [->|Hne]; [rewrite H1 in Hlv; injection Hlv as ->; by apply Hv|].
    destruct (last_max s k1 v1 H1) as [? _]. assert (v1 ≤ lv) by (eapply Hs; [exact H1|exact Hlv|lia|done]). lia.
Qed.

(** The effect of one authorized transaction on the schedules. *)
Record schedules_step (height : Z) (ch ch' : ZyronChain) : Prop := {
  ss_wf : schedules_wf ch';
  ss_genesis : ch_genesis ch' = ch_genesis ch ∧ ch_genesisBlock ch' = ch_genesisBlock ch;
  ss_validators : agree_to (height + 99) (ch_validatorSchedule ch) (ch_validatorSchedule ch');
  ss_protocol : agree_to (height + 99) (ch_protocolSchedule ch) (ch_protocolSchedule ch');
  ss_oracle : agree_to (height + 99) (ch_oracleGovernance ch) (ch_oracleGovernance ch') }.

Lemma agree_insert {A} (s : gmap Z A) (h k : Z) (v : A) : h < k → agree_to h s (<[k:=v]> s).
Proof. intros Hk k' Hk'. rewrite lookup_insert_ne by lia. done. Qed.
Lemma agree_trans {A} (h : Z) (s1 s2 s3 : gmap Z A) : agree_to h s1 s2 → agree_to h s2 s3 → agree_to h s1 s3.
Proof. intros H1 H2 k Hk. by rewrite H1, H2. Qed.
Lemma agree_refl {A} (h : Z) (s : gmap Z A) : agree_to h s s.
Proof. done. Qed.

Section governance.
Context `{Crypto}.

Ltac read_schedules :=
  unfold lastValidatorActivationHeight, lastScheduledProtocolVersion, lastProtocolActivationHeight, lastActivityOracleGovernanceHeight in *;
  cbn [ch_genesis ch_validatorSchedule ch_protocolSchedule ch_oracleGovernance cu_lastActivation cu_lastProtocolActivation
    cu_lastProtocolVersion cu_lastOracleGovernance] in *.

Lemma record_update_step (ch c : ZyronChain) (ctx : BlockContext) (cu : Cursors) (tx : Transaction) (u : unit) :
  0 ≤ bc_height ctx → schedules_wf c → cursors_at cu c → authorize ch ctx cu tx = Ok u →
  schedules_step (bc_height ctx) c (record_update c tx) ∧ cursors_at (count_mining (advance_cursors cu tx) tx) (record_update c tx).
Proof.
  intros Hh Hwf Hcu Ha. unfold authorize in Ha. cbv zeta in Ha. apply res_bind_Ok in Ha as (? & _ & Ha). apply res_bind_Ok in Ha as (? & _ & Ha).
  destruct c as [g gb s tip hh vs ps os st s2 keys]. destruct cu as [la lv lp lpv lo rv pa ms mc].
  destruct Hwf as [W1 W2 W3]. destruct Hcu as [C1 C2 C3 C4].
  read_schedules.
  destruct tx as [t|t|t|t|t|t]; cbn [record_update advance_cursors count_mining].
  - by repeat split.
  - by repeat split.
  - by repeat split.
  - apply res_bind_Ok in Ha as (minimum & _ & Ha). apply update_authorized in Ha as (_ & Hd & Hl & _).
    cbn [bc_height cu_lastActivation] in *. destruct (last_max vs 0 _ W1) as [Hl0 _]. rewrite C1 in Hl.
    split; [split; cbn; [split; cbn; [rewrite lookup_insert_ne by lia; done|done|done]|done|apply agree_insert; lia|done|done]|].
    split; read_schedules; [by rewrite last_insert|done|done|done].
  - apply oracle_authorized in Ha as (Hd & Hl & _). cbn [bc_height cu_lastOracleGovernance] in *. rewrite C4 in Hl.
    split; [split; cbn; [by split|done|done|done|apply agree_insert; lia]|].
    destruct (og_action t); split; read_schedules; try done; by rewrite last_insert.
  - apply upgrade_authorized in Ha as (Hd & Hl & Hv & _). cbn [bc_height cu_lastProtocolActivation cu_lastProtocolVersion] in *.
    rewrite C2 in Hl. rewrite C3 in Hv. destruct (last_max ps 0 _ W2) as [Hl0 _].
    split; [split; cbn; [split; cbn; [done|rewrite lookup_insert_ne by lia; done|by apply no_downgrade_insert]|done|done|apply agree_insert; lia|done]|].
    split; read_schedules; [done|by rewrite last_insert| |done]. rewrite last_insert by done. by rewrite lookup_insert_eq.
Qed.

(** The replay authorized every transaction against the cursors it had reached. *)
Fixpoint authorized_run (ch : ZyronChain) (ctx : BlockContext) (cu : Cursors) (txs : list Transaction) : Prop :=
  match txs with
  | [] => True
  | tx :: rest => authorize ch ctx cu tx = Ok () ∧ authorized_run ch ctx (count_mining (advance_cursors cu tx) tx) rest
  end.

Lemma apply_transaction_keeps (ch : ZyronChain) (ctx : BlockContext) (tx : Transaction) (w w1 : Work) (r : res unit) :
  apply_transaction ch ctx tx w = (w1, r) → wk_seen w1 = wk_seen w ∧ wk_cursors w1 = wk_cursors w.
Proof.
  destruct w as [seen cu next sp]. unfold apply_transaction. cbv zeta. destruct sp as [s|].
  - destruct (match tx with MiningClaim _ => _ | _ => _ end); by intros [= <- <-].
  - destruct next as [st|]; [|by intros [= <- <-]]. destruct (apply _ _ _ _ _ st). by intros [= <- <-].
Qed.

Lemma replay_step_Ok (ch : ZyronChain) (ctx : BlockContext) (tx : Transaction) (w w1 : Work) (u : unit) :
  replay_step ch ctx tx w = (w1, Ok u) →
  ∃ w2, tx_chainId tx = g_chainId (ch_genesis ch) ∧ tx_txid tx ∉ wk_seen w ∧ authorize ch ctx (wk_cursors w) tx = Ok () ∧
    apply_transaction ch ctx tx (map_cursors (λ cu, advance_cursors cu tx) (see_txid (tx_txid tx) w)) = (w2, Ok ()) ∧
    w1 = map_cursors (λ cu, count_mining cu tx) w2.
Proof.
  unfold replay_step. intros E. apply meth_bind_Ok in E as (w2 & [] & [-> Hc]%m_throw_if_Ok & E).
  apply meth_bind_Ok in E as (w2 & ? & Eg & E). injection Eg as <- <-. apply meth_bind_Ok in E as (w2 & [] & [-> Hn]%m_throw_if_Ok & E).
  apply meth_bind_Ok in E as (w2 & [] & Es & E). injection Es as <-. apply meth_bind_Ok in E as (w2 & [] & [-> Ha]%m_lift_Ok & E).
  apply meth_bind_Ok in E as (w2 & [] & Es & E). injection Es as <-. apply meth_bind_Ok in E as (w2 & [] & Ep & E). injection E as <- _.
  exists w2. apply negb_false_iff, String.eqb_eq in Hc. apply bool_decide_eq_false in Hn. done.
Qed.

Lemma replay_authorized (ch : ZyronChain) (ctx : BlockContext) (txs : list Transaction) (w w1 : Work) (u : unit) :
  m_for (replay_step ch ctx) txs w = (w1, Ok u) → authorized_run ch ctx (wk_cursors w) txs.
Proof.
  revert w. induction txs as [|tx txs IH]; intros w E; [done|]. cbn [m_for] in E.
  apply meth_bind_Ok in E as (w2 & [] & Es & E). apply replay_step_Ok in Es as (w3 & _ & _ & Ha & Hp & ->).
  apply apply_transaction_keeps in Hp as [_ Hcu]. split; [done|]. apply IH in E. unfold map_cursors in E. cbn [wk_cursors] in E.
  rewrite Hcu in E. exact E.
Qed.

Lemma schedules_step_refl (h : Z) (ch : ZyronChain) : schedules_wf ch → schedules_step h ch ch.
Proof. done. Qed.
Lemma schedules_step_trans (h : Z) (c1 c2 c3 : ZyronChain) : schedules_step h c1 c2 → schedules_step h c2 c3 → schedules_step h c1 c3.
Proof.
  intros [A1 [A2 A3] A4 A5 A6] [B1 [B2 B3] B4 B5 B6]. split; [done|split; congruence| | |]; by eapply agree_trans.
Qed.

Lemma record_updates_step (ch c : ZyronChain) (ctx : BlockContext) (cu : Cursors) (txs : list Transaction) :
  0 ≤ bc_height ctx → schedules_wf c → cursors_at cu c → authorized_run ch ctx cu txs →
  schedules_step (bc_height ctx) c (recordGovernanceUpdates txs c).
Proof.
  intros Hh. revert c cu. induction txs as [|tx txs IH]; intros c cu Hwf Hcu Hrun; [by apply schedules_step_refl|].
  destruct Hrun as [Ha Hrun]. destruct (record_update_step ch c ctx cu tx () Hh Hwf Hcu Ha) as [Hs Hcu'].
  eapply schedules_step_trans; [exact Hs|]. by apply (IH (record_update c tx) _ (ss_wf _ _ _ Hs) Hcu').
Qed.
(** ** A chain that grows *)

Lemma record_updates_keep (txs : list Transaction) (c : ZyronChain) :
  let c' := recordGovernanceUpdates txs c in
  ch_tip c' = ch_tip c ∧ ch_height c' = ch_height c ∧ ch_state c' = ch_state c ∧ ch_stateV2 c' = ch_stateV2 c ∧ ch_semanticKeys c' = ch_semanticKeys c.
Proof.
  unfold recordGovernanceUpdates. revert c. induction txs as [|tx txs IH]; intros c; [done|]. cbn [fold_left].
  destruct (IH (record_update c tx)) as (-> & -> & -> & -> & ->). by destruct c, tx.
Qed.

Record chain_inv (ch : ZyronChain) : Prop := {
  ci_schedules : schedules_wf ch;
  ci_height : ch_height ch = h_height (b_header (ch_tip ch));
  ci_nonneg : 0 ≤ ch_height ch }.

Lemma new_chain_inv (genesis : GenesisConfig) (ch : ZyronChain) : new_chain genesis = Ok ch → chain_inv ch ∧ ch_genesis ch = genesis.
Proof.
  unfold new_chain. intros E. apply res_bind_Ok in E as ([] & _ & E). apply res_bind_Ok in E as (st & _ & E).
  apply res_bind_Ok in E as (supply & _ & E). apply res_bind_Ok in E as (rt & _ & E). apply res_bind_Ok in E as (gb & Hgb & E).
  apply Ok_inj in E as <-. split; [|done]. split; cbn; [|unfold createGenesisBlock in Hgb|done].
  - split; cbn; [done|done|]. intros k1 k2 v1 v2 [<- <-]%lookup_singleton_Some [<- <-]%lookup_singleton_Some Hlt. lia.
  - apply res_bind_Ok in Hgb as (tr & _ & Hgb). cbv zeta in Hgb. apply res_bind_Ok in Hgb as (? & _ & Hgb).
    apply res_bind_Ok in Hgb as (? & _ & Hgb). by apply Ok_inj in Hgb as <-.
Qed.

(** The block follows the tip. *)
Lemma accepted_header (ch : ZyronChain) (raw : RawBlock) (nowMs : Z) (block : Block) (ctx : BlockContext) (w0 w1 : Work) :
  accepted ch raw nowMs block ctx w0 w1 →
  h_version (b_header block) = bc_version ctx ∧ h_height (b_header block) = h_height (b_header (ch_tip ch)) + 1 ∧
  h_previousHash (b_header block) = b_hash (ch_tip ch) ∧ blockHash (b_header block) = Ok (b_hash block) ∧
  h_timestampMs (b_header (ch_tip ch)) < h_timestampMs (b_header block) ≤ nowMs + 120000.
Proof.
  intros [Hh _ Henv _ _ _]. unfold validateBlockEnvelope, validateBlockEnvelopeGates in Henv. apply res_bind_Ok in Henv as (rb & Hg & Ht).
  apply res_bind_Ok in Hg as (? & _ & Hg). apply res_bind_Ok in Hg as (rb' & [Hs _]%structure_back & Hg).
  do 2 (apply res_bind_Ok in Hg as (? & _ & Hg)). apply res_bind_Ok in Hg as (? & Hgh & Hg). do 2 (apply res_bind_Ok in Hg as (? & _ & Hg)).
  apply Ok_inj in Hg as <-. apply gate_header_sound in Hgh as (Hv & Hhe & Hp & Hb & _ & Hti).
  unfold validateBlockTransactions in Ht. apply res_bind_Ok in Ht as (txs & _ & Ht). apply Ok_inj in Ht as <-. cbn [b_header b_hash]. done.
Qed.

Lemma accepted_height (ch : ZyronChain) (raw : RawBlock) (nowMs : Z) (block : Block) (ctx : BlockContext) (w0 w1 : Work) :
  chain_inv ch → accepted ch raw nowMs block ctx w0 w1 →
  bc_height ctx = ch_height ch + 1 ∧ h_height (b_header block) = ch_height ch + 1 ∧ h_version (b_header block) = bc_version ctx.
Proof.
  intros Hi Hacc. destruct (accepted_header _ _ _ _ _ _ _ Hacc) as (Hv & Hh & _).
  destruct (replay_start_ctx _ _ _ _ _ _ (ac_start _ _ _ _ _ _ _ Hacc)) as (_ & _ & _ & _ & -> & _). rewrite Hh, (ci_height _ Hi). done.
Qed.

(** The schedules of the chain whose replay just ended. *)
Lemma set_states_schedules (ch : ZyronChain) (block : Block) (st : option LedgerState) (s2 : option SparseMerkleState) (keys : option (list string)) :
  let c := set_states st s2 keys (set_tip block ch) in
  (schedules_wf ch → schedules_wf c) ∧ (∀ cu, cursors_at cu ch → cursors_at cu c) ∧
  (∀ h c', schedules_step h c c' → schedules_step h ch c') ∧ ch_tip c = block ∧ ch_height c = h_height (b_header block).
Proof. destruct ch. cbn. split_and!; try done; [intros []; by split|intros cu []; by split|intros h c' []; by split]. Qed.

Lemma accepted_step (ch : ZyronChain) (raw : RawBlock) (nowMs : Z) (block : Block) (ctx : BlockContext) (w0 w1 : Work) (keys : list string) :
  chain_inv ch → accepted ch raw nowMs block ctx w0 w1 →
  let ch' := extended ch block w1 keys in
  chain_inv ch' ∧ schedules_step (ch_height ch + 1) ch ch' ∧ ch_height ch' = ch_height ch + 1 ∧ ch_tip ch' = block.
Proof.
  intros Hi Hacc ch'. destruct (accepted_height _ _ _ _ _ _ _ Hi Hacc) as (Hb & Hh & _). pose proof (ci_nonneg _ Hi).
  destruct (replay_start_ctx _ _ _ _ _ _ (ac_start _ _ _ _ _ _ _ Hacc)) as (_ & _ & _ & _ & _ & _ & _ & _ & (count & Hcu) & _).
  pose proof (replay_authorized _ _ _ _ _ _ (ac_replay _ _ _ _ _ _ _ Hacc)) as Hrun. rewrite Hcu in Hrun.
  assert (∀ st s2 ks, let c := set_states st s2 ks (set_tip block ch) in let c' := recordGovernanceUpdates (b_transactions block) c in
    chain_inv c' ∧ schedules_step (ch_height ch + 1) ch c' ∧ ch_height c' = ch_height ch + 1 ∧ ch_tip c' = block) as G.
  { intros st s2 ks c c'. destruct (set_states_schedules ch block st s2 ks) as (G1 & G2 & G3 & G4 & G5). fold c in G1, G2, G3, G4, G5.
    assert (schedules_step (bc_height ctx) c c') as Hs.
    { eapply record_updates_step; [lia|apply G1, Hi|apply G2, start_cursors_at|exact Hrun]. }
    destruct (record_updates_keep (b_transactions block) c) as (K1 & K2 & _). fold c' in K1, K2. rewrite Hb in Hs.
    split_and!; [split; [apply (ss_wf _ _ _ Hs)|by rewrite K1, K2, G4, G5|rewrite K2, G5; lia]|by apply G3|by rewrite K2, G5|by rewrite K1, G4]. }
  unfold ch', extended. destruct (_ =? 1); apply G.
Qed.

Lemma acceptBlock_step (ch ch' : ZyronChain) (raw : RawBlock) (nowMs : Z) (u : unit) :
  chain_inv ch → acceptBlock raw nowMs ch = (ch', Ok u) →
  chain_inv ch' ∧ schedules_step (ch_height ch + 1) ch ch' ∧ ch_height ch' = ch_height ch + 1.
Proof.
  intros Hi E. apply acceptBlock_Ok in E as (block & ctx & w0 & w1 & keys & Hacc & -> & _).
  destruct (accepted_step ch raw nowMs block ctx w0 w1 keys Hi Hacc) as (? & ? & ? & _). done.
Qed.

(** [grows ch ch']: [ch'] is [ch] after some accepted blocks. *)
Inductive grows (ch : ZyronChain) : ZyronChain → Prop :=
| grows_refl : grows ch ch
| grows_accept ch1 ch2 raw nowMs : grows ch ch1 → acceptBlock raw nowMs ch1 = (ch2, Ok ()) → grows ch ch2.

Lemma grows_inv (ch ch' : ZyronChain) :
  chain_inv ch → grows ch ch' → chain_inv ch' ∧ schedules_step (ch_height ch + 1) ch ch' ∧ ch_height ch ≤ ch_height ch'.
Proof.
  intros Hi Hg. induction Hg as [|ch1 ch2 raw nowMs Hg (I1 & I2 & I3) Ha].
  - split_and!; [done|apply schedules_step_refl, Hi|lia].
  - destruct (acceptBlock_step ch1 ch2 raw nowMs () I1 Ha) as (J1 & J2 & J3). split_and!; [done| |lia].
    eapply schedules_step_trans; [exact I2|]. destruct J2 as [B1 B2 B3 B4 B5]. split; try done; intros k Hk; [apply B3|apply B4|apply B5]; lia.
Qed.

(** What a schedule says depends on its entries up to the height. *)
Lemma validatorsAt_agree (ch ch' : ZyronChain) (n h : Z) :
  schedules_wf ch → schedules_step n ch ch' → h ≤ n + 99 → validatorsAt ch' h = validatorsAt ch h.
Proof.
  intros Hw [_ [Hg _] Hv _ _] Hh. unfold validatorsAt. rewrite Hg. destruct (Z.ltb_spec h 0); [by rewrite !orb_true_r|].
  destruct (negb (isSafeInteger h) || false); [done|]. cbn [throw_if mbind res_bind]. f_equal. symmetry.
  apply entry_at_agree; [apply Hw|lia|]. intros k Hk. apply Hv. lia.
Qed.
Lemma protocolVersionAt_agree (ch ch' : ZyronChain) (n h : Z) :
  schedules_wf ch → schedules_step n ch ch' → h ≤ n + 99 → protocolVersionAt ch' h = protocolVersionAt ch h.
Proof.
  intros Hw [_ _ _ Hv _] Hh. unfold protocolVersionAt. destruct (Z.ltb_spec h 0); [by rewrite !orb_true_r|].
  destruct (negb (isSafeInteger h) || false); [done|]. cbn [throw_if mbind res_bind]. f_equal. symmetry.
  apply entry_at_agree; [apply Hw|lia|]. intros k Hk. apply Hv. lia.
Qed.
(** C7. Governance cannot surprise: on a chain grown from its genesis, whoever
    must sign a block, the protocol version and the oracle controls of every height
    up to 100 above the tip are already fixed; no later block changes them. *)
Theorem schedules_fixed_ahead (genesis : GenesisConfig) (ch0 ch ch' : ZyronChain) (h : Z) :
  new_chain genesis = Ok ch0 → grows ch0 ch → grows ch ch' → h ≤ ch_height ch + 100 →
  validatorsAt ch' h = validatorsAt ch h ∧ protocolVersionAt ch' h = protocolVersionAt ch h ∧
  oracleSetAt genesis (ch_oracleGovernance ch') h = oracleSetAt genesis (ch_oracleGovernance ch) h.
Proof.
  intros [Hi _]%new_chain_inv Hg Hg' Hh. destruct (grows_inv _ _ Hi Hg) as (Hi1 & _ & _).
  destruct (grows_inv _ _ Hi1 Hg') as (_ & Hs & _). split_and!.
  - eapply validatorsAt_agree; [apply Hi1|exact Hs|lia].
  - eapply protocolVersionAt_agree; [apply Hi1|exact Hs|lia].
  - symmetry. apply oracleSetAt_agree. intros k Hk. apply (ss_oracle _ _ _ Hs). lia.
Qed.

Lemma protocolVersionAt_mono (ch : ZyronChain) (h1 h2 v1 v2 : Z) :
  schedules_wf ch → h1 ≤ h2 → protocolVersionAt ch h1 = Ok v1 → 6 ≤ v1 → protocolVersionAt ch h2 = Ok v2 → v1 ≤ v2.
Proof.
  intros Hw Hh H1 H6 H2. unfold protocolVersionAt in *. apply res_bind_Ok in H1 as ([] & L1%throw_if_Ok & H1).
  apply res_bind_Ok in H2 as ([] & _ & H2). apply Ok_inj in H1, H2. breflect.
  destruct (entry_at_in_force 1 (ch_protocolSchedule ch) h1) as (k1 & F1 & F2 & F3); [apply Hw|lia|].
  destruct (entry_at_in_force 1 (ch_protocolSchedule ch) h2) as (k2 & G1 & G2 & G3); [apply Hw|lia|]. rewrite H1 in F1. rewrite H2 in G1.
  assert (k1 ≤ k2) as Hk by (apply G3; [by eauto|lia]). destruct (decide (k1 = k2)) as [->|Hne]; [rewrite F1 in G1; injection G1; lia|].
  eapply (sc_v6 _ Hw k1 k2); [done|done|lia|done].
Qed.

(** Protocol version 6 is final: when a height up to 100 above the tip is
    governed by version 6 or later, no chain that grows from there ever runs an
    earlier version at that or at any later height. *)
Theorem no_downgrade_from_v6 (genesis : GenesisConfig) (ch0 ch ch' : ZyronChain) (h1 h2 v1 v2 : Z) :
  new_chain genesis = Ok ch0 → grows ch0 ch → grows ch ch' → h1 ≤ ch_height ch + 100 → h1 ≤ h2 →
  protocolVersionAt ch h1 = Ok v1 → 6 ≤ v1 → protocolVersionAt ch' h2 = Ok v2 → v1 ≤ v2.
Proof.
  intros [Hi _]%new_chain_inv Hg Hg' Hh Hle H1 H6 H2. destruct (grows_inv _ _ Hi Hg) as (Hi1 & _ & _).
  destruct (grows_inv _ _ Hi1 Hg') as (Hi2 & Hs & _). eapply (protocolVersionAt_mono ch' h1 h2); [apply Hi2|done| |done|done].
  rewrite <-H1. eapply protocolVersionAt_agree; [apply Hi1|exact Hs|lia].
Qed.
(** ** Where the entries come from *)

Lemma authorized_run_each (ch : ZyronChain) (ctx : BlockContext) (cu : Cursors) (txs : list Transaction) (tx : Transaction) :
  authorized_run ch ctx cu txs → tx ∈ txs → ∃ cu', authorize ch ctx cu' tx = Ok ().
Proof.
  revert cu. induction txs as [|x txs IH]; intros cu Hr Hin; [by apply not_elem_of_nil in Hin|]. destruct Hr as [Ha Hr].
  apply elem_of_cons in Hin as [->|Hin]; [by eexists|by eapply IH].
Qed.

Lemma record_updates_entries (txs : list Transaction) (c : ZyronChain) :
  let c' := recordGovernanceUpdates txs c in
  (∀ k vs, ch_validatorSchedule c' !! k = Some vs → ch_validatorSchedule c !! k = Some vs ∨
    ∃ t, ValidatorUpdate t ∈ txs ∧ vu_activationHeight t = k ∧ vu_validators t = vs) ∧
  (∀ k v, ch_protocolSchedule c' !! k = Some v → ch_protocolSchedule c !! k = Some v ∨
    ∃ t, ProtocolUpgrade t ∈ txs ∧ pu_activationHeight t = k ∧ pu_protocolVersion t = v) ∧
  (∀ k e, ch_oracleGovernance c' !! k = Some e → ch_oracleGovernance c !! k = Some e ∨
    ∃ t, ActivityOracleGovernance t ∈ txs ∧ og_activationHeight t = k ∧ (og_action t, og_publicKeys t) = e).
Proof.
  unfold recordGovernanceUpdates. revert c. induction txs as [|tx txs IH]; intros c; cbn [fold_left]; [by split_and!; auto|].
  destruct (IH (record_update c tx)) as (I1 & I2 & I3). cbv zeta. split_and!.
  - intros k vs [Hk|(t & Ht & E)]%I1; [|right; exists t; split; [by right|done]].
    destruct c, tx as [t|t|t|t|t|t]; cbn in *; auto. apply lookup_insert_Some in Hk as [[<- <-]|[_ Hk]]; [|by left].
    right. exists t. split; [by left|done].
  - intros k v [Hk|(t & Ht & E)]%I2; [|right; exists t; split; [by right|done]].
    destruct c, tx as [t|t|t|t|t|t]; cbn in *; auto. apply lookup_insert_Some in Hk as [[<- <-]|[_ Hk]]; [|by left].
    right. exists t. split; [by left|done].
  - intros k v [Hk|(t & Ht & E)]%I3; [|right; exists t; split; [by right|done]].
    destruct c, tx as [t|t|t|t|t|t]; cbn in *; auto. apply lookup_insert_Some in Hk as [[<- <-]|[_ Hk]]; [|by left].
    right. exists t. split; [by left|done].
Qed.

Lemma extended_schedules (ch : ZyronChain) (block : Block) (w1 : Work) (keys : list string) :
  let c := recordGovernanceUpdates (b_transactions block) ch in let ch' := extended ch block w1 keys in
  ch_validatorSchedule ch' = ch_validatorSchedule c ∧ ch_protocolSchedule ch' = ch_protocolSchedule c ∧
  ch_oracleGovernance ch' = ch_oracleGovernance c.
Proof.
  assert (∀ txs c1 c2, ch_validatorSchedule c1 = ch_validatorSchedule c2 → ch_protocolSchedule c1 = ch_protocolSchedule c2 →
    ch_oracleGovernance c1 = ch_oracleGovernance c2 →
    let d1 := recordGovernanceUpdates txs c1 in let d2 := recordGovernanceUpdates txs c2 in
    ch_validatorSchedule d1 = ch_validatorSchedule d2 ∧ ch_protocolSchedule d1 = ch_protocolSchedule d2 ∧
    ch_oracleGovernance d1 = ch_oracleGovernance d2) as G.
  { induction txs as [|tx txs IH]; intros c1 c2 E1 E2 E3; [done|]. unfold recordGovernanceUpdates. cbn [fold_left].
    apply IH; destruct c1, c2, tx; cbn in *; congruence. }
  unfold extended. destruct (_ =? 1); apply G; by destruct ch.
Qed.

(** C6. Nothing enters a schedule without a quorum: every entry that an accepted
    block adds comes from a transaction of that block that an active validator
    sent and a quorum of the validators of that height signed, and it takes effect
    at least 100 blocks later. *)
Theorem governance_needs_quorum (genesis : GenesisConfig) (ch0 ch ch' : ZyronChain) (raw : RawBlock) (nowMs : Z) :
  new_chain genesis = Ok ch0 → grows ch0 ch → acceptBlock raw nowMs ch = (ch', Ok ()) →
  ∃ validators, validatorsAt ch (ch_height ch') = Ok validators ∧
  (∀ k vs, ch_validatorSchedule ch' !! k = Some vs → ch_validatorSchedule ch !! k = Some vs ∨
    ∃ t, ValidatorUpdate t ∈ b_transactions (ch_tip ch') ∧ vu_activationHeight t = k ∧ vu_validators t = vs ∧
      ch_height ch' + 100 ≤ k ∧ validator_set_wf vs ∧
      approved validators (vu_sender t) (vu_approvals t) (verifyValidatorUpdateApprovalSignature t)) ∧
  (∀ k v, ch_protocolSchedule ch' !! k = Some v → ch_protocolSchedule ch !! k = Some v ∨
    ∃ t, ProtocolUpgrade t ∈ b_transactions (ch_tip ch') ∧ pu_activationHeight t = k ∧ pu_protocolVersion t = v ∧
      ch_height ch' + 100 ≤ k ∧ approved validators (pu_sender t) (pu_approvals t) (verifyProtocolUpgradeApprovalSignature t)) ∧
  (∀ k e, ch_oracleGovernance ch' !! k = Some e → ch_oracleGovernance ch !! k = Some e ∨
    ∃ t, ActivityOracleGovernance t ∈ b_transactions (ch_tip ch') ∧ og_activationHeight t = k ∧ (og_action t, og_publicKeys t) = e ∧
      ch_height ch' + 100 ≤ k ∧
      approved validators (og_sender t) (og_approvals t) (verifyActivityOracleGovernanceApprovalSignature t)).
Proof.
  intros [Hi _]%new_chain_inv Hg E. destruct (grows_inv _ _ Hi Hg) as (Hi1 & _ & _).
  apply acceptBlock_Ok in E as (block & ctx & w0 & w1 & keys & Hacc & -> & _).
  destruct (accepted_step ch raw nowMs block ctx w0 w1 keys Hi1 Hacc) as (_ & _ & -> & ->).
  destruct (accepted_height _ _ _ _ _ _ _ Hi1 Hacc) as (Hb & Hh & _).
  destruct (replay_start_ctx _ _ _ _ _ _ (ac_start _ _ _ _ _ _ _ Hacc)) as (_ & Hv & _). rewrite Hh in Hv.
  pose proof (replay_authorized _ _ _ _ _ _ (ac_replay _ _ _ _ _ _ _ Hacc)) as Hrun.
  exists (bc_validators ctx). split; [done|]. destruct (extended_schedules ch block w1 keys) as (-> & -> & ->).
  destruct (record_updates_entries (b_transactions block) ch) as (R1 & R2 & R3). split_and!.
  - intros k vs [?|(t & Ht & <- & <-)]%R1; [by left|]. right. exists t. destruct (authorized_run_each _ _ _ _ _ Hrun Ht) as [cu Ha].
    pose proof (shape_Ok _ _ _ (authorize_shape _ _ _ _ _ Ha)) as [[_ Hw] _]. unfold authorize in Ha. cbv zeta in Ha.
    do 2 (apply res_bind_Ok in Ha as (? & _ & Ha)). apply res_bind_Ok in Ha as (? & _ & Ha). apply update_authorized in Ha as (_ & ? & _ & ? & _).
    rewrite <-Hb. split_and!; try done. apply Hw.
  - intros k vs [?|(t & Ht & <- & <-)]%R2; [by left|]. right. exists t. destruct (authorized_run_each _ _ _ _ _ Hrun Ht) as [cu Ha].
    unfold authorize in Ha. cbv zeta in Ha. do 2 (apply res_bind_Ok in Ha as (? & _ & Ha)).
    apply upgrade_authorized in Ha as (? & _ & _ & ?). rewrite <-Hb. done.
  - intros k vs [?|(t & Ht & <- & <-)]%R3; [by left|]. right. exists t. destruct (authorized_run_each _ _ _ _ _ Hrun Ht) as [cu Ha].
    unfold authorize in Ha. cbv zeta in Ha. do 2 (apply res_bind_Ok in Ha as (? & _ & Ha)).
    apply oracle_authorized in Ha as (? & _ & ?). rewrite <-Hb. done.
Qed.
(** ** Possession proofs *)

(** [v] signed its slot of chain [ch]: at genesis over the configuration, later
    over the genesis hash and the height at which it enters. *)
Definition possesses (ch : ZyronChain) (v : Validator) : Prop :=
  ∃ binding height signature,
    (genesisConfigCommitment (ch_genesis ch) = Ok binding ∧ height = 0 ∨ binding = genesisHash ch) ∧
    verifyPossessionProof (slot_statement (g_chainId (ch_genesis ch)) binding height v) signature = true.

Record possession_inv (ch c : ZyronChain) : Prop := {
  pi_last : is_Some (ch_validatorSchedule c !! lastValidatorActivationHeight c);
  pi_sets : ∀ k vs, ch_validatorSchedule c !! k = Some vs → Forall (λ v, isAddress (v_address v) = true ∧ possesses ch v) vs }.

Lemma append_inj (s s' t t' : string) : String.length s = String.length s' → s +:+ t = s' +:+ t' → s = s' ∧ t = t'.
Proof.
  revert s'. induction s as [|c s IH]; intros [|c' s'] Hl E; try discriminate Hl; [by cbn in E|]. cbn in *. injection E as -> E.
  injection Hl as Hl. by destruct (IH s' Hl E) as [-> ->].
Qed.

Lemma isAddress_length (a : string) : isAddress a = true → String.length a = 43%nat.
Proof.
  intros (Ha & Hl & _)%isAddress_body. rewrite Ha.
  assert (∀ l, String.length (String.string_of_list_ascii l) = length l) as Hs by (induction l; cbn; congruence).
  revert Hl. generalize (addressBody a). intros l Hl. change (S (S (S (String.length (String.string_of_list_ascii l)))) = 43%nat). rewrite Hs. lia.
Qed.

Lemma validator_slot_inj (v v' : Validator) :
  isAddress (v_address v) = true → isAddress (v_address v') = true → validator_slot v = validator_slot v' → v = v'.
Proof.
  unfold validator_slot. intros Ha%isAddress_length Ha'%isAddress_length E. apply append_inj in E as [E1 E2]; [|congruence].
  apply (append_inj ":" ":") in E2 as [_ E2]; [|done]. destruct v as [a1 k1], v' as [a2 k2]. cbn [v_address v_publicKey] in E1, E2. by rewrite E1, E2.
Qed.

Lemma update_possession (ch c : ZyronChain) (tx : ValidatorSetUpdateTx) (replaced : list Validator) :
  g_validatorAdmission (ch_genesis ch) ≠ None → Forall (λ v, isAddress (v_address v) = true ∧ possesses ch v) replaced →
  Forall validator_wf (vu_validators tx) →
  assertValidatorUpdatePossessionProofs tx (validatorAdmissionContext ch replaced) = Ok () →
  Forall (λ v, isAddress (v_address v) = true ∧ possesses ch v) (vu_validators tx).
Proof.
  intros Hadm Hrep Hwf. unfold assertValidatorUpdatePossessionProofs, validatorAdmissionContext, hasValidatorAdmission.
  cbn [ac_optedIn ac_replacedValidators ac_chainId ac_genesisHash]. destruct (g_validatorAdmission _) as [adm|] eqn:Eadm; [|done].
  rewrite bool_decide_true by by eauto. cbn [negb]. intros E. apply res_bind_Ok in E as (proofs & _ & E). cbv zeta in E.
  apply res_bind_Ok in E as ([] & Hlen%throw_if_Ok & E). apply negb_false_iff, Z.eqb_eq in Hlen. apply check_slots_sound in E; [|done].
  rewrite Forall_forall in Hrep, Hwf |- *. intros v Hv. destruct (Hwf v Hv) as [Haddr _]. split; [done|].
  destruct (decide (validator_slot v ∈ map validator_slot replaced)) as [Hin|Hout].
  - apply list_elem_of_fmap in Hin as (v' & Heq & Hv'). destruct (Hrep v' Hv') as [Ha' Hp'].
    by rewrite (validator_slot_inj v v' Haddr Ha' Heq).
  - assert (v ∈ incoming replaced (vu_validators tx)) as Hi by (apply list_elem_of_filter; done).
    apply list_elem_of_lookup in Hi as [i Hi]. destruct (Forall2_lookup_r _ _ _ _ _ E Hi) as (p & _ & _ & Hp).
    exists (genesisHash ch), (vu_activationHeight tx), (pp_signature p). split; [by right|done].
Qed.

Lemma possession_step (ch c : ZyronChain) (ctx : BlockContext) (cu : Cursors) (tx : Transaction) :
  g_validatorAdmission (ch_genesis ch) ≠ None → possession_inv ch c → cu_lastActivation cu = lastValidatorActivationHeight c →
  cu_lastScheduledValidators cu = lastScheduledValidators c → authorize ch ctx cu tx = Ok () →
  let c' := record_update c tx in let cu' := count_mining (advance_cursors cu tx) tx in
  possession_inv ch c' ∧ cu_lastActivation cu' = lastValidatorActivationHeight c' ∧ cu_lastScheduledValidators cu' = lastScheduledValidators c'.
Proof.
  intros Hadm [Hl Hsets] Hcu1 Hcu2 Ha. pose proof (shape_Ok _ _ _ (authorize_shape _ _ _ _ _ Ha)) as [[_ Hw] _].
  destruct tx as [t|t|t|t|t|t].
  4: { unfold authorize in Ha. cbv zeta in Ha. do 3 (apply res_bind_Ok in Ha as (? & _ & Ha)). apply update_authorized in Ha as (_ & _ & Hd & _ & Hp).
    rewrite Hcu1 in Hd. rewrite Hcu2 in Hp. destruct Hw as (_ & _ & _ & _ & [Hvs _] & _).
    destruct c as [g gb s tip hh vs ps os st s2 keys]. unfold lastScheduledValidators, lastValidatorActivationHeight in *.
    cbn [record_update ch_validatorSchedule] in *. destruct Hl as [last Hlast]. rewrite Hlast in Hp. cbn [default] in Hp.
    destruct cu as [la lv lp lpv lo rv pa ms mc]. cbn [count_mining advance_cursors cu_lastActivation cu_lastScheduledValidators].
    rewrite last_insert by done. rewrite lookup_insert_eq. split_and!; [|done|done]. split; cbn [ch_validatorSchedule].
    - unfold lastValidatorActivationHeight. cbn [ch_validatorSchedule]. rewrite last_insert by done. rewrite lookup_insert_eq. by eauto.
    - intros k vs' [[<- <-]|[_ Hk]]%lookup_insert_Some; [|by eapply Hsets].
      exact (update_possession ch ch t last Hadm (Hsets _ _ Hlast) Hvs Hp). }
  all: destruct c, cu; cbn [count_mining advance_cursors record_update]; try (destruct (og_action t)); done.
Qed.
Lemma possession_run (ch c : ZyronChain) (ctx : BlockContext) (cu : Cursors) (txs : list Transaction) :
  g_validatorAdmission (ch_genesis ch) ≠ None → possession_inv ch c → cu_lastActivation cu = lastValidatorActivationHeight c →
  cu_lastScheduledValidators cu = lastScheduledValidators c → authorized_run ch ctx cu txs →
  possession_inv ch (recordGovernanceUpdates txs c).
Proof.
  intros Hadm. revert c cu. induction txs as [|tx txs IH]; intros c cu Hi H1 H2 Hr; [done|]. destruct Hr as [Ha Hr].
  destruct (possession_step ch c ctx cu tx Hadm Hi H1 H2 Ha) as (Hi' & H1' & H2'). by eapply (IH (record_update c tx)).
Qed.

Lemma possession_schedule (ch c c' : ZyronChain) :
  ch_validatorSchedule c = ch_validatorSchedule c' → possession_inv ch c → possession_inv ch c'.
Proof. intros E [Hl Hs]. unfold lastValidatorActivationHeight in *. rewrite E in *. by split. Qed.

Lemma possession_genesis (genesis : GenesisConfig) (ch : ZyronChain) :
  new_chain genesis = Ok ch → g_validatorAdmission genesis ≠ None → possession_inv ch ch.
Proof.
  unfold new_chain. intros E Hadm. apply res_bind_Ok in E as ([] & Hg & E). do 4 (apply res_bind_Ok in E as (? & _ & E)).
  apply Ok_inj in E as <-. destruct (g_validatorAdmission genesis) as [adm|] eqn:Eadm; [|done].
  destruct (validateGenesis_valid genesis false () Hg) as [Hv Hp]. specialize (Hp eq_refl).
  destruct (genesis_proofs_of genesis adm Eadm Hp) as (binding & Hb & Hpr). split; cbn [ch_validatorSchedule].
  - unfold lastValidatorActivationHeight. cbn [ch_validatorSchedule]. eapply (last_max {[0 := g_validators genesis]} 0). apply lookup_singleton_eq.
  - intros k vs [<- <-]%lookup_singleton_Some. apply Forall_forall. intros v Hin. split.
    + pose proof (gv_validators _ Hv) as Hok. rewrite Forall_forall in Hok. apply (Hok v Hin).
    + apply list_elem_of_lookup in Hin as [i Hi]. destruct (Forall2_lookup_r _ _ _ _ _ Hpr Hi) as (p & _ & _ & Hs).
      exists binding, 0, (pp_signature p). split; [by left|done].
Qed.

Lemma possession_grows (ch0 ch : ZyronChain) :
  chain_inv ch0 → possession_inv ch0 ch0 → g_validatorAdmission (ch_genesis ch0) ≠ None → grows ch0 ch → possession_inv ch0 ch.
Proof.
  intros Hi Hp Hadm Hg. induction Hg as [|ch1 ch2 raw nowMs Hg IH Ha]; [done|]. destruct (grows_inv _ _ Hi Hg) as (Hi1 & Hs & _).
  destruct (ss_genesis _ _ _ Hs) as [G1 G2].
  assert (∀ v, possesses ch0 v ↔ possesses ch1 v) as Heq by (intros v; unfold possesses, genesisHash; by rewrite G1, G2).
  assert (∀ c, possession_inv ch0 c ↔ possession_inv ch1 c) as Heq'.
  { intros c. split; intros [Hl HF]; (split; [done|]); intros k vs Hk; eapply Forall_impl; [exact (HF k vs Hk)| |exact (HF k vs Hk)|];
      intros v [? Hv]; (split; [done|]); by apply Heq. }
  apply acceptBlock_Ok in Ha as (block & ctx & w0 & w1 & keys & Hacc & -> & _). destruct (extended_schedules ch1 block w1 keys) as (E & _ & _).
  apply (possession_schedule _ _ _ (eq_sym E)). apply Heq'.
  destruct (replay_start_ctx _ _ _ _ _ _ (ac_start _ _ _ _ _ _ _ Hacc)) as (_ & _ & _ & _ & _ & _ & _ & _ & (count & Hcu) & _).
  pose proof (replay_authorized _ _ _ _ _ _ (ac_replay _ _ _ _ _ _ _ Hacc)) as Hrun. rewrite Hcu in Hrun.
  eapply possession_run; [by rewrite G1|by apply Heq'| | |exact Hrun]; done.
Qed.

(** Every validator holds its key: on a chain whose genesis demands possession
    proofs, each validator of each set in force at any height signed its own slot,
    either in the launch ceremony or when it entered the set. *)
Theorem validators_hold_their_keys (genesis : GenesisConfig) (ch0 ch : ZyronChain) (h : Z) (validators : list Validator) :
  new_chain genesis = Ok ch0 → g_validatorAdmission genesis ≠ None → grows ch0 ch → validatorsAt ch h = Ok validators →
  Forall (possesses ch0) validators.
Proof.
  intros E Hadm Hg Hv. pose proof (possession_genesis _ _ E Hadm) as Hp. destruct (new_chain_inv _ _ E) as [Hi Hgen].
  destruct (grows_inv _ _ Hi Hg) as (Hi1 & _ & _). rewrite <-Hgen in Hadm. pose proof (possession_grows ch0 ch Hi Hp Hadm Hg) as [_ HF].
  unfold validatorsAt in Hv. apply res_bind_Ok in Hv as ([] & L%throw_if_Ok & Hv). apply Ok_inj in Hv as <-. breflect.
  destruct (entry_at_in_force (g_validators (ch_genesis ch)) (ch_validatorSchedule ch) h) as (k & Hk & _); [apply Hi1|lia|].
  eapply Forall_impl; [exact (HF _ _ Hk)|]. by intros v [_ ?].
Qed.
End governance.

(** ** A chain with one block *)

Module GovernanceExample.
Import ChainExample.
#[local] Existing Instance ToyCrypto.toy.

Lemma starts : new_chain genesis = Ok chain.
Proof. vm_compute. reflexivity. Qed.
Lemma accepts : acceptBlock block1 1700000000001 chain = (chain1, Ok ()).
Proof. vm_compute. reflexivity. Qed.
Lemma grown : grows chain chain1.
Proof. exact (grows_accept chain chain chain1 block1 1700000000001 (grows_refl chain) accepts). Qed.

Lemma schedules_fixed_ahead_witness : ch_height chain = 0 ∧ validatorsAt chain1 100 = validatorsAt chain 100.
Proof.
  split; [reflexivity|].
  refine (proj1 (schedules_fixed_ahead genesis chain chain chain1 100 starts (grows_refl chain) grown _)).
  vm_compute. discriminate.
Defined.

Lemma no_downgrade_from_v6_witness : protocolVersionAt chain1 101 = Ok 6 ∧ 6 ≤ 6.
Proof.
  split; [vm_compute; reflexivity|].
  apply (no_downgrade_from_v6 genesis chain chain1 chain1 101 5000 6 6 starts grown (grows_refl chain1)); vm_compute; (reflexivity || discriminate).
Defined.

Lemma governance_needs_quorum_witness :
  ch_protocolSchedule chain1 !! 101 = Some 6 ∧ ∃ validators, validatorsAt chain 1 = Ok validators.
Proof.
  split; [vm_compute; reflexivity|].
  destruct (governance_needs_quorum genesis chain chain chain1 block1 1700000000001 starts (grows_refl chain) accepts) as (vs & Hvs & _).
  exists vs. exact Hvs.
Defined.

Lemma validators_hold_their_keys_witness : Forall (possesses chain) (g_validators genesis).
Proof.
  apply (validators_hold_their_keys genesis chain chain1 50 (g_validators genesis) starts); [discriminate|exact grown|vm_compute; reflexivity].
Defined.

End GovernanceExample.
