(* ===== verification/ChainHistory.v ===== *)
(** The ledger behind a chain (l1/src/chain.ts with state.ts and state-v2.ts):
    every chain that grew from its genesis stands for the ledger that
    [LedgerState.apply] computes from the genesis allocations, whichever state
    implementation the protocol version selected for each block. *)

From S2P Require Import Prelude Types Codec JsonText Crypto Vesting Activity Transaction TxShape ShapeRead Oracle Ledger LedgerHistory SparseTree StateV2 StateV2Root Mining Portable Block Genesis Governance Priority ConsensusV6 BlockEnvelope Chain Selection ChainGovernance.

(** ** The ledger as a map of texts

    A finite map is a store too; the simulation of [StateV2.v] run on it says
    which keys a ledger uses and keeps its numbers in range. *)

#[local] Instance map_store : StateStore values := {| store_get s key := Ok (s !! key); store_set s key v := Ok (<[key := v]> s) |}.

Definition map_stands (K : gset string) (s m : values) : Prop := s = m ∧ dom m ⊆ K ∧ map_Forall (λ _ v, tidy v 0 = true) m.

#[local] Program Instance map_laws (K : gset string) : StateStoreLaws values K := {| stands_for := map_stands K |}.
Next Obligation. by intros K s m key (-> & _) _. Qed.
Next Obligation.
  intros K s m key v (-> & Hd & Ht) Hk Hv. eexists. split; [done|]. split; [done|]. split.
  - rewrite dom_insert. set_solver.
  - by apply map_Forall_insert_2.
Qed.

(** The accounts, epochs and schedule entries of [st] and [g] have keys in [K]. *)
Definition ledger_in (K : gset string) (st : LedgerState) (g : values) : Prop :=
  in_range st ∧ ∃ m, dom m ⊆ K ∧ map_Forall (λ _ v, tidy v 0 = true) m ∧ mirrors st g m.

Lemma ledger_in_step `{Crypto} (K : gset string) (st st' : LedgerState) (g : values) (tx : Transaction) (pool : Address)
    (locks : option AllocationLockContext) (oracles : option ActivityOracleSet) (fee : option FixedFeeApplication) (u : unit) :
  ledger_in K st g → (∀ key, key ∈ used_keys tx pool fee → key ∈ K) → fields_ok tx →
  apply tx pool locks oracles fee st = (st', Ok u) → ledger_in K st' (governed tx g).
Proof.
  intros (Hr & m & Hd & Ht & Hm) HK Hf Ha.
  pose proof (apply_sim K st g (m : values) tx pool locks oracles fee) as Hs. rewrite Ha in Hs.
  destruct Hs as (s' & _ & Hr' & m' & (-> & Hd' & Ht') & Hm'); [|done|done|].
  - split; [done|]. exists m. done.
  - split; [done|]. by exists m'.
Qed.

(** ** The schedule entries of the tree *)

Lemma insert_each_lookup {A} (key : A → string) (value : A → jsval units) (items : list A) (m : values) (k : string) (v : jsval units) :
  (∀ i j, i ∈ items → j ∈ items → key i = key j → value i = value j) →
  insert_each key value m items !! k = Some v ↔
    (∃ i, i ∈ items ∧ key i = k ∧ value i = v) ∨ ((∀ i, i ∈ items → key i ≠ k) ∧ m !! k = Some v).
Proof.
  unfold insert_each. revert m. induction items as [|i items IH] using rev_ind; intros m Hinj.
  - cbn [foldl]. split; [intros Hm; right; split; [|done]; intros i Hi; by apply not_elem_of_nil in Hi|].
    intros [(i & Hi & _)|[_ Hm]]; [by apply not_elem_of_nil in Hi|done].
  - rewrite foldl_app. cbn [foldl]. rewrite lookup_insert_Some, IH by (intros x y Hx Hy; apply Hinj; set_solver). split.
    + intros [[Hk Hv]|[Hk [(j & Hj & Ej)|[Hn Hm]]]].
      * left. exists i. set_solver.
      * left. exists j. set_solver.
      * right. split; [|done]. intros j [Hj|Hj%list_elem_of_singleton]%elem_of_app; [auto|by subst j].
    + intros [(j & Hj & Ej & Ev)|[Hn Hm]].
      * destruct (decide (key i = k)) as [Ek|Ek].
        -- left. split; [done|]. rewrite <-Ev. apply Hinj; [set_solver|done|congruence].
        -- right. split; [done|]. apply elem_of_app in Hj as [Hj|Hj%list_elem_of_singleton]; [|by subst j]. left. by exists j.
      * right. split; [apply Hn; set_solver|]. right. split; [|done]. intros j Hj. apply Hn. set_solver.
Qed.

(** The entries the tree holds for the schedules of a chain. *)
Definition chain_map (ch : ZyronChain) : values := governance_map (governanceSnapshot ch).

Inductive schedule_entry (ch : ZyronChain) : string → jsval units → Prop :=
| entry_validators h vs : ch_validatorSchedule ch !! h = Some vs → schedule_entry ch (validatorScheduleKey h) (validators_value vs)
| entry_protocol h v : ch_protocolSchedule ch !! h = Some v → schedule_entry ch (protocolScheduleKey h) (protocol_value v)
| entry_oracle h e : ch_oracleGovernance ch !! h = Some e →
    schedule_entry ch (activityOracleGovernanceKey h) (oracle_governance_value e.1 e.2).

Lemma validatorScheduleKey_inj (x y : Z) : validatorScheduleKey x = validatorScheduleKey y → x = y.
Proof. intros E. injection E as E. by apply (inj pretty). Qed.
Lemma protocolScheduleKey_inj (x y : Z) : protocolScheduleKey x = protocolScheduleKey y → x = y.
Proof. intros E. injection E as E. by apply (inj pretty). Qed.
Lemma oracleGovernanceKey_inj (x y : Z) : activityOracleGovernanceKey x = activityOracleGovernanceKey y → x = y.
Proof. intros E. injection E as E. by apply (inj pretty). Qed.

Lemma sorted_entries_elem {A} (s : gmap Z A) (e : Z * A) : e ∈ js_sort (λ a b, a.1 <=? b.1) (sorted_entries s) ↔ s !! e.1 = Some e.2.
Proof. rewrite js_sort_perm. rewrite (proj1 (sorted_entries_facts s)). apply elem_of_map_to_list'. Qed.

Lemma oracle_entries_elem (ch : ZyronChain) (e : Z * ActivityOracleGovernanceAction * list string) :
  e ∈ js_sort (λ a b, a.1.1 <=? b.1.1) (default [] (gs_activityOracleGovernance (governanceSnapshot ch))) ↔
  ch_oracleGovernance ch !! e.1.1 = Some (e.1.2, e.2).
Proof.
  rewrite js_sort_perm. unfold governanceSnapshot. cbv zeta. cbn [gs_activityOracleGovernance].
  assert (default [] (if bool_decide (map (λ e, (e.1, e.2.1, e.2.2)) (sorted_entries (ch_oracleGovernance ch)) = []) then None
    else Some (map (λ e, (e.1, e.2.1, e.2.2)) (sorted_entries (ch_oracleGovernance ch)))) =
    (λ e, (e.1, e.2.1, e.2.2)) <$> sorted_entries (ch_oracleGovernance ch)) as ->.
  { destruct (bool_decide_reflect (map (λ e, (e.1, e.2.1, e.2.2)) (sorted_entries (ch_oracleGovernance ch)) = [])) as [E|E]; [by symmetry|done]. }
  rewrite list_elem_of_fmap. destruct e as [[k a] ks]. cbn. split.
  - intros ([k' [a' ks']] & [= -> -> ->] & Hin). destruct (sorted_entries_facts (ch_oracleGovernance ch)) as [Hp _]. rewrite Hp in Hin.
    by apply elem_of_map_to_list in Hin.
  - intros Hin. exists (k, (a, ks)). split; [done|]. destruct (sorted_entries_facts (ch_oracleGovernance ch)) as [Hp _]. rewrite Hp.
    by apply elem_of_map_to_list.
Qed.

Lemma chain_map_lookup (ch : ZyronChain) (k : string) (v : jsval units) : chain_map ch !! k = Some v ↔ schedule_entry ch k v.
Proof.
  unfold chain_map, governance_map. rewrite !insert_each_lookup.
  - setoid_rewrite oracle_entries_elem. cbn [governanceSnapshot gs_validatorSchedule gs_protocolSchedule].
    setoid_rewrite sorted_entries_elem. split.
    + intros [(e & He & <- & <-)|[_ [(e & He & <- & <-)|[_ [(e & He & <- & <-)|[_ He]]]]]].
      * exact (entry_oracle ch e.1.1 (e.1.2, e.2) He).
      * exact (entry_protocol ch e.1 e.2 He).
      * exact (entry_validators ch e.1 e.2 He).
      * by rewrite lookup_empty in He.
    + intros [h vs Hh|h x Hh|h [a ks] Hh].
      * right. split; [intros; discriminate|]. right. split; [intros; discriminate|]. left. by exists (h, vs).
      * right. split; [intros; discriminate|]. left. by exists (h, x).
      * left. by exists (h, a, ks).
  - intros i j Hi Hj E%validatorScheduleKey_inj. cbn [governanceSnapshot gs_validatorSchedule] in *. rewrite sorted_entries_elem in Hi, Hj. congruence.
  - intros i j Hi Hj E%protocolScheduleKey_inj. cbn [governanceSnapshot gs_protocolSchedule] in *. rewrite sorted_entries_elem in Hi, Hj. congruence.
  - intros i j Hi Hj E%oracleGovernanceKey_inj. rewrite oracle_entries_elem in Hi, Hj. congruence.
Qed.

(** A governance transaction adds to the schedules what it adds to the tree. *)
Lemma chain_map_record (ch : ZyronChain) (tx : Transaction) : chain_map (record_update ch tx) = governed tx (chain_map ch).
Proof.
  assert (∀ m m' : values, (∀ k v, m !! k = Some v ↔ m' !! k = Some v) → m = m') as Hext by (intros m m' Hm; apply map_eq; intros k; by apply option_eq).
  destruct tx as [t|t|t|t|t|t]; cbn [governed]; try (by destruct ch); apply Hext; intros k v; rewrite lookup_insert_Some, !chain_map_lookup;
    destruct ch as [g gb s tip hh vs ps os st s2 keys]; cbn [record_update].
  - split.
    + intros [h x Hx|h x Hx|h e Hx]; cbn in Hx.
      * apply lookup_insert_Some in Hx as [[<- <-]|[Hne Hx]]; [by left|]. right. split; [by intros ?%validatorScheduleKey_inj|by constructor].
      * right. split; [discriminate|by constructor].
      * right. split; [discriminate|by constructor].
    + intros [[<- <-]|[Hne Hx]].
      * constructor. cbn. by rewrite lookup_insert_eq.
      * destruct Hx as [h x Hx|h x Hx|h e Hx]; constructor; cbn in *; [|done|done]. rewrite lookup_insert_ne; [done|]. intros Eh. apply Hne. by rewrite Eh.
  - split.
    + intros [h x Hx|h x Hx|h e Hx]; cbn in Hx.
      * right. split; [discriminate|by constructor].
      * right. split; [discriminate|by constructor].
      * apply lookup_insert_Some in Hx as [[<- <-]|[Hne Hx]]; [by left|]. right. split; [by intros ?%oracleGovernanceKey_inj|by constructor].
    + intros [[<- <-]|[Hne Hx]].
      * refine (entry_oracle _ _ (og_action t, og_publicKeys t) _). cbn. by rewrite lookup_insert_eq.
      * destruct Hx as [h x Hx|h x Hx|h e Hx]; constructor; cbn in *; [done|done|]. rewrite lookup_insert_ne; [done|]. intros Eh. apply Hne. by rewrite Eh.
  - split.
    + intros [h x Hx|h x Hx|h e Hx]; cbn in Hx.
      * right. split; [discriminate|by constructor].
      * apply lookup_insert_Some in Hx as [[<- <-]|[Hne Hx]]; [by left|]. right. split; [by intros ?%protocolScheduleKey_inj|by constructor].
      * right. split; [discriminate|by constructor].
    + intros [[<- <-]|[Hne Hx]].
      * constructor. cbn. by rewrite lookup_insert_eq.
      * destruct Hx as [h x Hx|h x Hx|h e Hx]; constructor; cbn in *; [done| |done]. rewrite lookup_insert_ne; [done|]. intros Eh. apply Hne. by rewrite Eh.
Qed.

Lemma tx_wf_fields `{Crypto} (tx : Transaction) : tx_wf tx → fields_ok tx.
Proof.
  intros [(_ & _ & _ & Hn & _) Hk]. split; [apply isSafeInteger_spec; lia|].
  destruct tx as [t|t|t|t|t|t]; try done; cbn in Hk.
  - destruct Hk as (_ & _ & ? & ? & _). lia.
  - destruct Hk as (_ & _ & _ & ? & _). apply isSafeInteger_spec. unfold MAX_SAFE_INTEGER. lia.
Qed.

(** ** The replay as a run of the ledger *)

Section history.
Context `{CryptoLaws} (K : gset string) (Hapart : hashes_apart K).
Implicit Types (ch : ZyronChain) (ctx : BlockContext) (w : Work) (tx : Transaction) (st : LedgerState).

(** The transactions of a history, each under the locks of its block's time. *)
Definition run_step (genesis : GenesisConfig) (s : Step) : meth LedgerState unit :=
  locks ← m_lift (allocationLockContext genesis (sp_time s));
  apply (sp_tx s) (g_activityPool genesis) locks (sp_oracles s) (sp_fee s).
Definition run_steps (genesis : GenesisConfig) (steps : list Step) : meth LedgerState unit := m_for (run_step genesis) steps.

Definition steps_of ctx (txs : list Transaction) : list Step :=
  map (λ tx, mkStep (bc_timestampMs ctx) tx (Some (bc_oracles ctx)) (bc_fee ctx)) txs.

(** The working state stands for the ledger [st] with the schedule entries [g]. *)
Record work_is w st (g : values) : Prop := {
  wi_in : ledger_in K st g;
  wi_wf : ledger_wf st;
  wi_next : wk_sparse w = None → wk_next w = Some st;
  wi_sparse : ∀ s, wk_sparse w = Some s → refines K st g s }.

Lemma replay_step_ledger ch ctx tx w w1 st (g : values) (u : unit) :
  (∀ key, key ∈ used_keys tx (g_activityPool (ch_genesis ch)) (bc_fee ctx) → key ∈ K) → work_is w st g → replay_step ch ctx tx w = (w1, Ok u) →
  ∃ st', apply tx (g_activityPool (ch_genesis ch)) (bc_locks ctx) (Some (bc_oracles ctx)) (bc_fee ctx) st = (st', Ok ()) ∧
    work_is w1 st' (governed tx g) ∧ tx_wf tx.
Proof.
  intros HK [Hin Hwf Hn Hs] E. apply replay_step_Ok in E as (w2 & _ & _ & Ha & Hp & ->).
  pose proof (shape_Ok _ _ _ (authorize_shape _ _ _ _ _ Ha)) as [Htx _]. pose proof (tx_wf_fields tx Htx) as Hf.
  assert (∃ st', apply tx (g_activityPool (ch_genesis ch)) (bc_locks ctx) (Some (bc_oracles ctx)) (bc_fee ctx) st = (st', Ok ()) ∧
    (wk_sparse w2 = None → wk_next w2 = Some st') ∧ ∀ s, wk_sparse w2 = Some s → refines K st' (governed tx g) s) as (st' & Hap & H1 & H2).
  { destruct w as [seen cu next sp]. cbn [wk_sparse wk_next] in Hn, Hs. revert Hp.
    unfold apply_transaction, map_cursors, see_txid. cbn [wk_seen wk_cursors wk_next wk_sparse]. cbv zeta. destruct sp as [s|].
    - assert (∀ t, tx ≠ MiningClaim t) as Hnm by (intros t ->; by destruct Htx as [_ []]).
      assert (match tx with MiningClaim t => applyMiningClaimStateV2 s t
        | _ => applyStateV2Transaction s tx (g_activityPool (ch_genesis ch)) (bc_locks ctx) (Some (bc_oracles ctx)) (bc_fee ctx) end =
        applyStateV2Transaction s tx (g_activityPool (ch_genesis ch)) (bc_locks ctx) (Some (bc_oracles ctx)) (bc_fee ctx)) as ->.
      { by destruct tx; try by edestruct Hnm. }
      pose proof (refines_step K Hapart st g s tx (g_activityPool (ch_genesis ch)) (bc_locks ctx) (Some (bc_oracles ctx)) (bc_fee ctx)
        (Hs s eq_refl) HK Hf) as Hsim. destruct (apply tx _ _ _ _ st) as [st' [[]|e]].
      + destruct Hsim as (s' & -> & Hr). intros [= <-]. exists st'. cbn. split; [done|]. split; [done|]. by intros s0 [= <-].
      + destruct Hsim as (e' & -> & _). by intros [=].
    - rewrite (Hn eq_refl). destruct (apply tx _ _ _ _ st) as [st' r]. intros [= <- ->]. exists st'. cbn. by split. }
  exists st'. split; [done|]. split; [|done]. unfold map_cursors. split; cbn [wk_sparse wk_next]; [by eapply ledger_in_step| |done|done].
  by eapply apply_supply_wf.
Qed.

(** The schedule entries after the transactions of a block. *)
Definition governed_all (txs : list Transaction) (g : values) : values := fold_left (λ g tx, governed tx g) txs g.

Lemma replay_ledger ch ctx (txs : list Transaction) w w1 st (g : values) (u : unit) :
  allocationLockContext (ch_genesis ch) (bc_timestampMs ctx) = Ok (bc_locks ctx) →
  (∀ tx, tx ∈ txs → ∀ key, key ∈ used_keys tx (g_activityPool (ch_genesis ch)) (bc_fee ctx) → key ∈ K) →
  work_is w st g → m_for (replay_step ch ctx) txs w = (w1, Ok u) →
  ∃ st', run_steps (ch_genesis ch) (steps_of ctx txs) st = (st', Ok ()) ∧ work_is w1 st' (governed_all txs g) ∧ Forall tx_wf txs.
Proof.
  intros Hlocks. revert w st g. induction txs as [|tx txs IH]; intros w st g HK Hw E.
  - apply mret_Ok in E as [-> _]. exists st. by split_and!.
  - cbn [m_for] in E. apply meth_bind_Ok in E as (w2 & [] & Es & E).
    destruct (replay_step_ledger ch ctx tx w w2 st g ()) as (st1 & Hap & Hw1 & Htx); [apply HK; by left|done|done|].
    destruct (IH w2 st1 (governed tx g)) as (st' & Hrun & Hw' & Hall); [intros x Hx; apply HK; by right|done|done|].
    exists st'. split_and!; [|done|by constructor]. unfold run_steps, steps_of. cbn [map m_for]. rewrite meth_bind_run.
    unfold run_step at 1. rewrite meth_bind_run. cbn [sp_time sp_tx sp_oracles sp_fee]. unfold m_lift. rewrite Hlocks, Hap. exact Hrun.
Qed.

(** ** A chain stands for a ledger *)

Record chain_is ch st : Prop := {
  cl_in : ledger_in K st (chain_map ch);
  cl_wf : ledger_wf st;
  cl_versions : map_Forall (λ _ v, isSafeInteger v = true) (ch_protocolSchedule ch);
  cl_state : (ch_state ch = Some st ∧ ch_stateV2 ch = None) ∨
    (ch_state ch = None ∧ ∃ s, ch_stateV2 ch = Some s ∧ refines K st (chain_map ch) s) }.

Lemma ledger_in_keys st (g : values) :
  ledger_in K st g → (∀ key, is_Some (g !! key) → other_key key) →
  (∀ a, is_Some (accounts st !! a) → accountKey a ∈ K) ∧ (∀ e, e ∈ settledActivityEpochs st → activityEpochKey e ∈ K) ∧ dom g ⊆ K.
Proof.
  intros (_ & m & Hd & _ & [Ma Me Mo]) Hg.
  assert (∀ key v, m !! key = Some v → key ∈ K) as HK by (intros key v Hv; apply Hd; by eapply elem_of_dom_2). split_and!.
  - intros a [acc Hacc]. specialize (Ma a). rewrite Hacc in Ma. by eapply HK.
  - intros e Hin. specialize (Me e). rewrite decide_True in Me by done. by eapply HK.
  - intros key [v Hv]%elem_of_dom. eapply HK. rewrite Mo by (apply Hg; by eauto). exact Hv.
Qed.

Lemma chain_map_other ch (key : string) : is_Some (chain_map ch !! key) → other_key key.
Proof. intros [v Hv%chain_map_lookup]. destruct Hv; split; discriminate. Qed.

Lemma chain_governance_ok ch : map_Forall (λ _ v, isSafeInteger v = true) (ch_protocolSchedule ch) → governance_ok (governanceSnapshot ch).
Proof.
  intros Hv [k v] He. unfold governanceSnapshot in He. cbn [gs_protocolSchedule] in He. rewrite (proj1 (sorted_entries_facts _)) in He.
  apply elem_of_map_to_list in He. by apply (Hv k).
Qed.

(** The tree rebuilt from the ledger of a chain stands for it. *)
Lemma rebuilt_refines ch st (s : SparseMerkleState) :
  ledger_in K st (chain_map ch) → map_Forall (λ _ v, isSafeInteger v = true) (ch_protocolSchedule ch) →
  stateV2FromLedgerSnapshot (snapshot st) (Some (governanceSnapshot ch)) = Ok s → refines K st (chain_map ch) s.
Proof.
  intros Hin Hver Hs. destruct (ledger_in_keys st (chain_map ch) Hin (chain_map_other ch)) as (Ka & Ke & Kg).
  destruct (rebuild_refines K Hapart st (governanceSnapshot ch)) as (s' & Hs' & Hr); [apply Hin|by apply chain_governance_ok|done|done|done|].
  rewrite Hs in Hs'. by apply Ok_inj in Hs' as <-.
Qed.

Lemma start_work ch ctx (height time : Z) (producer : option Address) w st :
  chain_is ch st → replay_start ch height time producer = Ok (ctx, w) → assertSupportedProtocolVersion (bc_version ctx) = Ok () →
  (bc_version ctx = 1 → ch_state ch ≠ None) → work_is w st (chain_map ch).
Proof.
  intros [Hin Hwf Hver Hst] E Hsup Hleg. apply replay_start_ctx in E as (_ & _ & _ & _ & _ & _ & _ & _ & _ & Hsp & Hnext).
  apply assertSupported_cases in Hsup as [Hv | Hv].
  - rewrite Hv in Hsp, Hnext. destruct Hst as [[E1 E2]|[E1 _]]; [|by destruct (Hleg Hv)]. rewrite E1 in Hnext. cbn in Hsp, Hnext.
    apply Ok_inj in Hsp. destruct Hnext as [Hn [x Hx]]. apply Ok_inj in Hn. rewrite Hx in Hn. cbn in Hn. subst x.
    split; [done|done|done|]. intros s. rewrite <-Hsp. intros [=].
  - assert (∃ s, wk_sparse w = Some s ∧ refines K st (chain_map ch) s) as (s & Hs & Hr).
    { unfold start_sparse in Hsp. rewrite Hv in Hsp. destruct Hst as [[E1 E2]|[_ (s & E2 & Hr)]]; rewrite E2 in Hsp.
      - unfold requireLegacyState in Hsp. rewrite E1 in Hsp. cbn [unwrap mbind res_bind] in Hsp. apply res_bind_Ok in Hsp as (s & Hs & Hsp).
        apply Ok_inj in Hsp as <-. exists s. split; [done|]. by apply rebuilt_refines.
      - apply Ok_inj in Hsp as <-. by exists s. }
    split; [done|done| |]; rewrite Hs; [done|]. by intros s' [= <-].
Qed.

(** ** One block *)

(** The loop keeps the kind of state it started with. *)
Lemma replay_kind ch ctx (txs : list Transaction) w w1 (u : unit) :
  m_for (replay_step ch ctx) txs w = (w1, Ok u) → (wk_sparse w1 = None ↔ wk_sparse w = None).
Proof.
  revert w. induction txs as [|tx txs IH]; intros w E; [by apply mret_Ok in E as [-> _]|]. cbn [m_for] in E.
  apply meth_bind_Ok in E as (w2 & [] & Es & E). rewrite (IH _ E). apply replay_step_Ok in Es as (w3 & _ & _ & _ & Hp & ->).
  destruct w as [seen cu next sp]. revert Hp. unfold apply_transaction, map_cursors, see_txid. cbn [wk_seen wk_cursors wk_next wk_sparse].
  cbv zeta. destruct sp as [s|].
  - destruct (match tx with MiningClaim _ => _ | _ => _ end); by intros [= <-].
  - destruct next as [st|]; [|by intros [=]]. destruct (apply _ _ _ _ _ st). by intros [= <- _].
Qed.

Lemma start_kind ch ctx (height time : Z) (producer : option Address) w :
  replay_start ch height time producer = Ok (ctx, w) → wk_sparse w = None ↔ protocolUsesStateV2 (bc_version ctx) = false.
Proof.
  intros E. apply replay_start_ctx in E as (_ & _ & _ & _ & _ & _ & _ & _ & _ & Hsp & _). unfold start_sparse in Hsp.
  destruct (protocolUsesStateV2 (bc_version ctx)); [|by apply Ok_inj in Hsp as <-]. destruct (ch_stateV2 ch) as [s|].
  - by apply Ok_inj in Hsp as <-.
  - apply res_bind_Ok in Hsp as (st & _ & Hsp). apply res_bind_Ok in Hsp as (s & _ & Hsp). by apply Ok_inj in Hsp as <-.
Qed.

Lemma refines_checkpoint st (g : values) (s : SparseMerkleState) : refines K st g s → refines K st g (persistenceCheckpoint s).
Proof. done. Qed.

Lemma chain_map_states ch (block : Block) (st : option LedgerState) (s2 : option SparseMerkleState) (keys : option (list string)) :
  chain_map (set_states st s2 keys (set_tip block ch)) = chain_map ch.
Proof. by destruct ch. Qed.

Lemma chain_map_records (txs : list Transaction) ch : chain_map (recordGovernanceUpdates txs ch) = governed_all txs (chain_map ch).
Proof.
  unfold recordGovernanceUpdates, governed_all. revert ch. induction txs as [|tx txs IH]; intros ch; [done|]. cbn [fold_left].
  by rewrite IH, chain_map_record.
Qed.

Lemma versions_safe (txs : list Transaction) ch :
  Forall tx_wf txs → map_Forall (λ _ v, isSafeInteger v = true) (ch_protocolSchedule ch) →
  map_Forall (λ _ v, isSafeInteger v = true) (ch_protocolSchedule (recordGovernanceUpdates txs ch)).
Proof.
  intros Htx Hs k v Hk. apply record_updates_entries in Hk as [Hk|(t & Ht & _ & <-)]; [by apply (Hs k)|].
  rewrite Forall_forall in Htx. by destruct (tx_wf_fields _ (Htx _ Ht)) as [_ ?].
Qed.

(** The root a header carries is the root of the ledger: the sorted-account root
    under version 1, the root of the tree rebuilt from its snapshot later on. *)
Definition root_of ch (version : Z) st (stateRoot : string) : Prop :=
  if version =? 1 then root st = Ok stateRoot
  else ∃ s, stateV2FromLedgerSnapshot (snapshot st) (Some (governanceSnapshot ch)) = Ok s ∧ sparse_root s = stateRoot.

(** What a block may touch: its keys are in [K], and a version-1 block is not
    replayed on a chain that has left the legacy ledger. *)
Definition block_in ch ctx (txs : list Transaction) : Prop :=
  (∀ tx, tx ∈ txs → ∀ key, key ∈ used_keys tx (g_activityPool (ch_genesis ch)) (bc_fee ctx) → key ∈ K) ∧
  (bc_version ctx = 1 → ch_state ch ≠ None).

Lemma recorded_is ch (block : Block) st st' (s1 : option LedgerState) (s2 : option SparseMerkleState) (ks : option (list string)) :
  let txs := b_transactions block in
  let c := recordGovernanceUpdates txs (set_states s1 s2 ks (set_tip block ch)) in
  chain_is ch st → Forall tx_wf txs → ledger_in K st' (governed_all txs (chain_map ch)) → ledger_wf st' →
  (s1 = Some st' ∧ s2 = None) ∨ (s1 = None ∧ ∃ s, s2 = Some s ∧ refines K st' (governed_all txs (chain_map ch)) s) →
  chain_is c st' ∧ chain_map c = governed_all txs (chain_map ch).
Proof.
  intros txs c Hc Htx Hin Hwf Hs. assert (chain_map c = governed_all txs (chain_map ch)) as Hm.
  { unfold c. by rewrite chain_map_records, chain_map_states. }
  destruct (record_updates_keep txs (set_states s1 s2 ks (set_tip block ch))) as (_ & _ & E1 & E2 & _). fold c in E1, E2.
  assert (map_Forall (λ _ v, isSafeInteger v = true) (ch_protocolSchedule c)) as Hv.
  { apply versions_safe; [done|]. pose proof (cl_versions _ _ Hc). by destruct ch. }
  clearbody c. split; [|done]. split; rewrite ?Hm; [done|done|done|]. rewrite E1, E2. by destruct ch.
Qed.

Lemma accepted_ledger ch (raw : RawBlock) (nowMs : Z) (block : Block) ctx w0 w1 (keys : list string) st :
  chain_is ch st → accepted ch raw nowMs block ctx w0 w1 → block_in ch ctx (b_transactions block) →
  let ch' := extended ch block w1 keys in
  ∃ st', run_steps (ch_genesis ch) (steps_of ctx (b_transactions block)) st = (st', Ok ()) ∧ chain_is ch' st' ∧
    root_of ch' (h_version (b_header block)) st' (h_stateRoot (b_header block)) ∧ Forall tx_wf (b_transactions block).
Proof.
  intros Hc Hacc [HK Hleg] ch'. pose proof Hacc as [_ Hsup _ Hstart Hreplay Hroot].
  pose proof (replay_start_ctx _ _ _ _ _ _ Hstart) as (_ & _ & _ & Hlocks & _ & Htime & _). unfold allocationLocksAt in Hlocks.
  destruct (replay_ledger ch ctx (b_transactions block) w0 w1 st (chain_map ch) ()) as (st' & Hrun & Hw & Htx); [by rewrite Htime|done|by eapply start_work|done|].
  exists st'. split; [done|]. destruct (accepted_header _ _ _ _ _ _ _ Hacc) as (Hv & _).
  destruct Hw as [Hin Hwf Hn Hs]. pose proof (replay_kind _ _ _ _ _ _ Hreplay) as Hk1. pose proof (start_kind _ _ _ _ _ _ Hstart) as Hk2.
  unfold root_of. unfold ch', extended. rewrite Hv. unfold stateRootForProtocol in Hroot. cbn [at_ledger at_sparse] in Hroot.
  apply assertSupported_cases in Hsup as [Ev | Ev].
  - rewrite Ev in Hk2, Hroot |- *. cbn [Z.eqb Pos.eqb] in *. specialize (Hn (proj2 Hk1 (proj2 Hk2 eq_refl))). rewrite Hn in Hroot |- *.
    split; [|by split]. by eapply (recorded_is ch block st); [..|left].
  - assert (bc_version ctx =? 1 = false) as Ene by (apply Z.eqb_neq; intros E; by rewrite E in Ev). rewrite Ene, Ev in *.
    destruct (wk_sparse w1) as [s|] eqn:Es; [|by rewrite (proj1 Hk2 (proj1 Hk1 eq_refl)) in Ev]. specialize (Hs s eq_refl).
    destruct (recorded_is ch block st st' None (Some (persistenceCheckpoint s)) (Some keys)) as [Hc' Hm]; [done|done|done|done|by right; eauto|].
    split; [done|]. split; [|done]. apply Ok_inj in Hroot. rewrite <-Hm in Hs.
    destruct (refines_rebuild K Hapart st' _ s Hs) as (s' & Hs' & Hr'); [apply chain_governance_ok, (cl_versions _ _ Hc')|].
    exists s'. split; [done|]. congruence.
Qed.

(** ** Reading a chain *)

(** The version of the tip selects the tree exactly when the chain holds one. *)
Definition version_fits ch : Prop :=
  ∃ v, protocolVersionAt ch (ch_height ch) = Ok v ∧ (ch_stateV2 ch ≠ None → protocolUsesStateV2 v = true).

Lemma read_chain {A} ch st (sparse : SparseMerkleState → res A) (legacy : LedgerState → res A) (a : A) :
  chain_is ch st → version_fits ch → legacy st = Ok a → (∀ s, refines K st (chain_map ch) s → sparse s = Ok a) →
  read_state ch sparse legacy = Ok a.
Proof.
  intros [_ _ _ [[E1 E2]|(E1 & s & E2 & Hr)]] (v & Hv & Hs) Hl Hsp; unfold read_state, requireLegacyState; rewrite E2.
  - by rewrite E1.
  - rewrite Hv. cbn [mbind res_bind]. rewrite Hs by (by rewrite E2). by apply Hsp.
Qed.

(** What every query of the chain answers. *)
Record answers ch st : Prop := {
  an_balance a : accountKey a ∈ K → chainBalance ch a = Ok (balance st a);
  an_nonce a : accountKey a ∈ K → chainNonce ch a = Ok (nonceOf st a);
  an_epoch e : activityEpochKey e ∈ K → 0 ≤ e ≤ MAX_SAFE_INTEGER → chainEpochSettled ch e = Ok (isActivityEpochSettled st e) }.

Lemma chain_answers ch st : chain_is ch st → version_fits ch → answers ch st.
Proof.
  intros Hc Hv. split.
  - intros a Ha. apply (read_chain ch st); [done|done|done|]. intros s Hs.
    exact (balance_sim (StateStoreLaws0 := sparse_laws K Hapart) K st (chain_map ch) s a Hs Ha).
  - intros a Ha. apply (read_chain ch st); [done|done|done|]. intros s Hs.
    exact (nonce_sim (StateStoreLaws0 := sparse_laws K Hapart) K st (chain_map ch) s a Hs Ha).
  - intros e Ha He. apply (read_chain ch st); [done|done|done|]. intros s (_ & m & Hm & Hmi). unfold stateV2ActivityEpochSettled.
    rewrite (proj2 (isSafeInteger_spec e)) by (unfold MAX_SAFE_INTEGER in *; lia). rewrite (proj2 (Z.ltb_ge e 0)) by lia. cbn [negb orb throw_if mbind res_bind].
    rewrite (store_get_law (StateStoreLaws := sparse_laws K Hapart) s m _ Hm Ha), (mi_epoch _ _ _ Hmi). unfold isActivityEpochSettled.
    cbn [mbind res_bind]. destruct (decide (e ∈ settledActivityEpochs st)); [by rewrite bool_decide_true|by rewrite bool_decide_false].
Qed.

(** ** Histories *)

(** The keys a genesis starts with. *)
Definition genesis_keys_of (genesis : GenesisConfig) : list string :=
  validatorScheduleKey 0 :: protocolScheduleKey 0 :: (accountKey <$> (al_address <$> g_allocations genesis)).

(** [history ch0 ch steps]: [ch] is [ch0] after some accepted blocks, whose
    transactions and block times are [steps]. *)
Inductive history ch0 : ZyronChain → list Step → Prop :=
| history_start : history ch0 ch0 []
| history_block ch ch' steps raw nowMs ctx w :
    history ch0 ch steps → acceptBlock raw nowMs ch = (ch', Ok ()) →
    replay_start ch (h_height (b_header raw)) (h_timestampMs (b_header raw)) (feeProducerOf raw) = Ok (ctx, w) →
    block_in ch ctx (b_transactions (ch_tip ch')) →
    history ch0 ch' (steps ++ steps_of ctx (b_transactions (ch_tip ch'))).

Lemma history_grows ch0 ch steps : history ch0 ch steps → grows ch0 ch.
Proof. induction 1; by econstructor. Qed.

Lemma run_steps_app (genesis : GenesisConfig) (l1 l2 : list Step) st st1 st2 :
  run_steps genesis l1 st = (st1, Ok ()) → run_steps genesis l2 st1 = (st2, Ok ()) → run_steps genesis (l1 ++ l2) st = (st2, Ok ()).
Proof.
  unfold run_steps. revert st. induction l1 as [|s l1 IH]; intros st E1 E2; [by apply mret_Ok in E1 as [-> _]|].
  cbn [m_for app] in *. apply meth_bind_Ok in E1 as (st0 & [] & Es & E1). rewrite meth_bind_run, Es. by apply IH.
Qed.

(** The part of the fees that nobody receives is burned; nothing is ever minted. *)
Definition burned_in (steps : list Step) : Z := sumZ (λ s, burned (sp_fee s) (sp_tx s)) steps.

Lemma run_supply (genesis : GenesisConfig) (steps : list Step) st st' :
  ledger_wf st → Forall (λ s, tx_wf (sp_tx s)) steps → run_steps genesis steps st = (st', Ok ()) →
  supply st' = supply st - burned_in steps.
Proof.
  intros Hw Htx. revert st Hw. induction Htx as [|s steps Hs Htx IH]; intros st Hw E; [apply mret_Ok in E as [-> _]; unfold burned_in; cbn; lia|].
  unfold run_steps in E. cbn [m_for] in E. apply meth_bind_Ok in E as (st1 & [] & Es & E). unfold run_step in Es.
  apply meth_bind_Ok in Es as (st2 & locks & [-> _]%m_lift_Ok & Es). destruct (apply_supply_wf _ _ _ _ _ _ _ _ Hw Hs Es) as (Hw1 & Hs1 & _).
  specialize (IH st1 Hw1 E). change (burned_in (s :: steps)) with (burned (sp_fee s) (sp_tx s) + burned_in steps). lia.
Qed.

(** The tip's state root commits to the ledger, under the version in force at the tip. *)
Definition rooted ch st : Prop :=
  ∃ version, protocolVersionAt ch (ch_height ch) = Ok version ∧ root_of ch version st (h_stateRoot (b_header (ch_tip ch))).

(** A ledger in range whose keys are in [K], with the schedules of a chain. *)
Lemma ledger_in_of ch st :
  in_range st → map_Forall (λ _ v, isSafeInteger v = true) (ch_protocolSchedule ch) →
  (∀ a, is_Some (accounts st !! a) → accountKey a ∈ K) → (∀ e, e ∈ settledActivityEpochs st → activityEpochKey e ∈ K) →
  (∀ key v, schedule_entry ch key v → key ∈ K) → ledger_in K st (chain_map ch).
Proof.
  intros Hr Hv Ha He Hg. split; [done|].
  destruct (rebuild_stands (StateStoreLaws0 := map_laws K) K (∅ : values) st (governanceSnapshot ch)) as (m & _ & -> & Hd & Ht);
    [|done|by apply chain_governance_ok|done|done| |].
  - split; [done|]. split; [set_solver|]. apply map_Forall_empty.
  - intros key [v Hkv]%elem_of_dom. by apply chain_map_lookup in Hkv; eapply Hg.
  - exists (snapshot_map st (governanceSnapshot ch)). split; [done|]. split; [done|]. apply snapshot_map_mirrors.
Qed.

Lemma new_chain_is (genesis : GenesisConfig) ch :
  new_chain genesis = Ok ch → (∀ key, key ∈ genesis_keys_of genesis → key ∈ K) →
  ∃ st, fromGenesis genesis = Ok st ∧ chain_is ch st ∧ version_fits ch ∧ rooted ch st.
Proof.
  intros E HK. pose proof (new_chain_inv _ _ E) as [Hi _]. unfold new_chain in E. apply res_bind_Ok in E as ([] & _ & E).
  apply res_bind_Ok in E as (st & Hst & E).
  apply res_bind_Ok in E as (supply & _ & E). apply res_bind_Ok in E as (rt & Hrt & E). apply res_bind_Ok in E as (gb & Hgb & E).
  apply Ok_inj in E as <-. exists st. split; [done|]. destruct (fromGenesis_facts _ _ Hst) as (Hwf & _ & He & Hn & _ & Hk).
  set (ch := mkChain _ _ _ _ _ _ _ _ _ _ _) in *.
  assert (map_Forall (λ _ v, isSafeInteger v = true) (ch_protocolSchedule ch)) as Hv by (intros k v Hkv; cbn in Hkv; by apply lookup_singleton_Some in Hkv as [<- <-]).
  assert (in_range st) as Hr.
  { intros a acc Ha. pose proof (balance_le_supply st a Hwf) as Hb. specialize (Hn a). destruct (lw_accounts _ Hwf a acc Ha).
    pose proof (lw_supply _ Hwf). unfold balance, nonceOf, accountOf in *. rewrite Ha in Hb, Hn. cbn in *. unfold MAX_SAFE_INTEGER. lia. }
  split; [|split].
  - split; [|done|done|by left]. apply ledger_in_of; [done|done|..].
    + intros a Ha. apply HK. unfold genesis_keys_of. do 2 right. by apply list_elem_of_fmap_2, Hk.
    + rewrite He. set_solver.
    + intros key v Hkv. apply HK. unfold genesis_keys_of. destruct Hkv as [h x Hx|h x Hx|h x Hx]; cbn in Hx.
      * apply lookup_singleton_Some in Hx as [<- _]. by left.
      * apply lookup_singleton_Some in Hx as [<- _]. right. by left.
      * by rewrite lookup_empty in Hx.
  - exists 1. split; [|done]. unfold protocolVersionAt. cbn. done.
  - exists 1. split; [by unfold protocolVersionAt|]. unfold createGenesisBlock in Hgb. apply res_bind_Ok in Hgb as (tr & _ & Hgb). cbv zeta in Hgb. apply res_bind_Ok in Hgb as (? & _ & Hgb).
    apply res_bind_Ok in Hgb as (? & _ & Hgb). apply Ok_inj in Hgb as <-. exact Hrt.
Qed.

(** The tip of an extended chain, and the version its schedule gives it. *)
Lemma accepted_version ch (raw : RawBlock) (nowMs : Z) (block : Block) ctx w0 w1 (keys : list string) :
  chain_inv ch → accepted ch raw nowMs block ctx w0 w1 → let ch' := extended ch block w1 keys in
  protocolVersionAt ch' (ch_height ch') = Ok (bc_version ctx) ∧ (ch_stateV2 ch' ≠ None → protocolUsesStateV2 (bc_version ctx) = true).
Proof.
  intros Hi Hacc ch'. destruct (accepted_step ch raw nowMs block ctx w0 w1 keys Hi Hacc) as (_ & Hs & Hh & _). fold ch' in Hs, Hh.
  destruct (accepted_height _ _ _ _ _ _ _ Hi Hacc) as (_ & Hhb & Hv).
  destruct (replay_start_ctx _ _ _ _ _ _ (ac_start _ _ _ _ _ _ _ Hacc)) as (Hpv & _). rewrite Hhb in Hpv. split.
  - rewrite Hh. rewrite (protocolVersionAt_agree ch ch' (ch_height ch + 1)); [done|apply Hi|done|lia].
  - unfold ch', extended. rewrite Hv. destruct (Z.eqb_spec (bc_version ctx) 1) as [E|Hne].
    + destruct (record_updates_keep (b_transactions block) (set_states (wk_next w1) None None (set_tip block ch))) as (_ & _ & _ & -> & _).
      by destruct ch.
    + intros _. pose proof (ac_supported _ _ _ _ _ _ _ Hacc) as Hsup. by apply assertSupported_cases in Hsup as [? | ?].
Qed.

(** A chain and the ledger it stands for. *)
Record chain_at (genesis : GenesisConfig) ch st : Prop := {
  at_inv : chain_inv ch;
  at_genesis : ch_genesis ch = genesis;
  at_is : chain_is ch st;
  at_version : version_fits ch;
  at_root : rooted ch st }.

(** The ledger at the end of a history is the first one run through its steps. *)
Lemma history_from (genesis : GenesisConfig) ch0 ch st0 (steps : list Step) :
  chain_at genesis ch0 st0 → history ch0 ch steps →
  ∃ st, run_steps genesis steps st0 = (st, Ok ()) ∧ chain_at genesis ch st ∧ Forall (λ s, tx_wf (sp_tx s)) steps.
Proof.
  intros Hat0 Hh. induction Hh as [|ch ch' steps raw nowMs ctx w Hh IH Ha Hs Hb]; [by exists st0|].
  destruct IH as (st & Hrun & [Hi Hg Hc Hv _] & Htx).
  apply acceptBlock_Ok in Ha as (block & ctx' & w0 & w1 & keys & Hacc & -> & _).
  destruct (accepted_step ch raw nowMs block ctx' w0 w1 keys Hi Hacc) as (Hi' & Hss & _ & Htip).
  destruct (accepted_height _ _ _ _ _ _ _ Hi Hacc) as (_ & _ & Hver).
  pose proof (ac_start _ _ _ _ _ _ _ Hacc) as Hs'. unfold feeProducerOf in Hs, Hs'. rewrite (ac_header _ _ _ _ _ _ _ Hacc) in Hs'.
  rewrite Hs in Hs'. apply Ok_inj in Hs' as [= <- <-]. rewrite Htip in *.
  destruct (accepted_ledger ch raw nowMs block ctx w w1 keys st Hc Hacc Hb) as (st' & Hrun' & Hc' & Hr' & Htx').
  destruct (accepted_version ch raw nowMs block ctx w w1 keys Hi Hacc) as [Hpv Hst2].
  exists st'. split; [rewrite Hg in Hrun'; by eapply run_steps_app|]. split; [split|].
  - done.
  - by rewrite (proj1 (ss_genesis _ _ _ Hss)).
  - done.
  - by eexists.
  - eexists. split; [exact Hpv|]. by rewrite Htip, <-Hver.
  - apply Forall_app. split; [done|]. unfold steps_of. by apply Forall_map.
Qed.

Lemma history_ledger (genesis : GenesisConfig) ch0 ch (steps : list Step) :
  new_chain genesis = Ok ch0 → (∀ key, key ∈ genesis_keys_of genesis → key ∈ K) → history ch0 ch steps →
  ∃ st0 st, fromGenesis genesis = Ok st0 ∧ run_steps genesis steps st0 = (st, Ok ()) ∧ chain_at genesis ch st ∧
    Forall (λ s, tx_wf (sp_tx s)) steps.
Proof.
  intros Hnew HK Hh. pose proof (new_chain_inv _ _ Hnew) as [Hi0 Hg0]. destruct (new_chain_is _ _ Hnew HK) as (st0 & Hst & Hc & Hv & Hr).
  exists st0. destruct (history_from genesis ch0 ch st0 steps) as (st & Hrun & Hat & Htx); [|done|by exists st].
  by split.
Qed.

End history.

(** C2. A chain is a ledger: whatever blocks a node accepted since its genesis, across
    protocol upgrades and both state implementations, there is a ledger that
    [LedgerState.apply] computes from the genesis allocations by running the
    transactions of those blocks in order, under the locks of their block times;
    every balance, nonce and epoch query answers from it, the tip's state root
    commits to it, and its supply is what genesis allocated less the burned fees.
    The keys in use must have different hashes. *)
Theorem chain_refines_ledger `{CryptoLaws} (K : gset string) (genesis : GenesisConfig) (ch0 ch : ZyronChain) (steps : list Step) :
  hashes_apart K → (∀ key, key ∈ genesis_keys_of genesis → key ∈ K) →
  new_chain genesis = Ok ch0 → history K ch0 ch steps →
  ∃ st0 st, fromGenesis genesis = Ok st0 ∧ run_steps genesis steps st0 = (st, Ok ()) ∧ ledger_wf st ∧
    supply st = sumZ al_amountAtoms (g_allocations genesis) - burned_in steps ∧
    answers K ch st ∧ rooted ch st.
Proof.
  intros Hap HK Hnew Hh. destruct (history_ledger K Hap genesis ch0 ch steps Hnew HK Hh) as (st0 & st & Hst0 & Hrun & [Hi Hg Hc Hv Hr] & Htx).
  exists st0, st. split_and!; [done|done|apply Hc| |by apply chain_answers|done].
  destruct (fromGenesis_facts _ _ Hst0) as (Hwf & <- & _). by eapply run_supply.
Qed.

(** ** The first block of a small chain *)

Module HistoryExample.
Import ChainExample.
#[local] Existing Instance ToyCrypto.toy.

Definition keys : list string := Eval vm_compute in
  remove_dups (genesis_keys_of genesis ++ used_keys pay pool None ++ used_keys upgrade pool None).
Definition K : gset string := list_to_set keys.

Lemma history_apart : hashes_apart K.
Proof. apply list_apart; apply (bool_decide_unpack _); vm_compute; exact I. Qed.
Lemma in_keys (l : list string) : bool_decide (Forall (λ key, key ∈ keys) l) = true → ∀ key, key ∈ l → key ∈ K.
Proof. intros Hl%bool_decide_eq_true key Hk. rewrite Forall_forall in Hl. unfold K. apply elem_of_list_to_set. by apply Hl. Qed.

Definition steps : list Step := [mkStep 1700000000001 pay (Some (oracleSetAt genesis ∅ 1)) None; mkStep 1700000000001 upgrade (Some (oracleSetAt genesis ∅ 1)) None].

Lemma small_history : history K chain chain1 steps.
Proof.
  destruct (replay_start chain (h_height (b_header block1)) (h_timestampMs (b_header block1)) (feeProducerOf block1)) as [[ctx w]|e] eqn:E;
    [|exfalso; apply (f_equal isOk) in E; vm_compute in E; discriminate].
  pose proof (history_block K chain chain chain1 [] block1 1700000000001 ctx w (history_start K chain) GovernanceExample.accepts E) as Hh.
  assert (b_transactions (ch_tip chain1) = [pay; upgrade]) as Htx by (vm_compute; reflexivity). rewrite Htx in Hh.
  apply replay_start_ctx in E as (_ & _ & Hfee & _ & _ & Ht & Ho & _). change (Ok None = Ok (bc_fee ctx)) in Hfee. apply Ok_inj in Hfee as Hf. symmetry in Hf.
  unfold steps_of, block_in in Hh. cbn [map app] in Hh. rewrite Ht, Ho, Hf in Hh. apply Hh. split; [|done].
  intros tx Hin. set_unfold in Hin. destruct Hin as [-> | [-> | []]]; apply in_keys; vm_compute; reflexivity.
Qed.

End HistoryExample.

Lemma chain_refines_ledger_witness :
  ∃ st, run_steps (H := ToyCrypto.toy) ChainExample.genesis HistoryExample.steps
      (mkLedger {[ChainExample.alice := mkAccount 1000000 0; ChainExample.pool := mkAccount 5000 0]} ∅) = (st, Ok ()) ∧
    chainBalance (H := ToyCrypto.toy) ChainExample.chain1 ChainExample.bob = Ok 500.
Proof.
  destruct (chain_refines_ledger (H := ToyCrypto.toy) HistoryExample.K ChainExample.genesis ChainExample.chain ChainExample.chain1 HistoryExample.steps
    HistoryExample.history_apart) as (st0 & st & H0 & Hrun & _ & _ & Han & _).
  - apply HistoryExample.in_keys. vm_compute. reflexivity.
  - exact GovernanceExample.starts.
  - exact HistoryExample.small_history.
  - exists st. vm_compute in H0. injection H0 as <-. split; [exact Hrun|].
    rewrite (an_balance _ _ _ Han) by (apply (HistoryExample.in_keys [accountKey ChainExample.bob]); [vm_compute; reflexivity|by left]).
    apply (f_equal (λ r, balance r.1 ChainExample.bob)) in Hrun. cbn [fst] in Hrun. rewrite <-Hrun. vm_compute. reflexivity.
Defined.
