(* ===== verification/LaunchChain.v ===== *)
(** A launched chain (l1/src/chain.ts with allocation-locks.ts, activity.ts and
    tokenomics.ts): what the rules of genesis become on a chain that a node built
    from accepted blocks. *)

From S2P Require Import Prelude Types Codec JsonText Crypto Vesting Activity Transaction TxShape ShapeRead Oracle Ledger LedgerHistory SparseTree StateV2 StateV2Root Mining Portable Block Genesis Governance Priority ConsensusV6 BlockEnvelope Chain Selection ChainGovernance ChainHistory.

(** ** Locks along a history *)

Lemma lock_context_at (g : GenesisConfig) (t t' : Z) (ctx ctx' : AllocationLockContext) :
  allocationLockContext g t = Ok (Some ctx) → allocationLockContext g t' = Ok (Some ctx') → ctx' = at_time ctx t' ∧ lc_blockTimestampMs ctx = t.
Proof.
  unfold allocationLockContext. destruct (_ && _); [done|]. intros E E'.
  apply res_bind_Ok in E as (? & _ & E). apply res_bind_Ok in E as (? & _ & E). apply res_bind_Ok in E as (f & Hf & E).
  apply res_bind_Ok in E as (p & Hp & E). apply Ok_inj in E as [= <-].
  apply res_bind_Ok in E' as (? & _ & E'). apply res_bind_Ok in E' as (? & _ & E'). apply res_bind_Ok in E' as (f' & Hf' & E').
  apply res_bind_Ok in E' as (p' & Hp' & E'). apply Ok_inj in E' as [= <-]. rewrite Hf in Hf'. rewrite Hp in Hp'.
  apply Ok_inj in Hf' as <-. apply Ok_inj in Hp' as <-. done.
Qed.

Lemma lock_context_time (g : GenesisConfig) (t : Z) (locks : option AllocationLockContext) :
  g_allocationLocks g ≠ None → allocationLockContext g t = Ok locks → is_Some locks ∧ 0 ≤ t ≤ MAX_SAFE_INTEGER.
Proof.
  intros Hl. unfold allocationLockContext. rewrite bool_decide_false by done. cbn [andb]. intros E.
  apply res_bind_Ok in E as (? & Ht%throw_if_Ok & E). do 3 (apply res_bind_Ok in E as (? & _ & E)). apply Ok_inj in E as <-.
  apply orb_false_iff in Ht as [Hs%negb_false_iff%isSafeInteger_spec Hp%Z.ltb_ge]. split; [by eexists|]. unfold MAX_SAFE_INTEGER in *. lia.
Qed.

Section launch.
Context `{CryptoLaws} (K : gset string).
Implicit Types (ch : ZyronChain) (ctx : BlockContext) (w : Work) (tx : Transaction) (st : LedgerState).

(** The run of the chain is the run of [Ledger.applySteps]. *)
Lemma run_steps_locks (g : GenesisConfig) (t : Z) (locks : AllocationLockContext) (steps : list Step) st st' :
  g_allocationLocks g ≠ None → allocationLockContext g t = Ok (Some locks) →
  run_steps g steps st = (st', Ok ()) → applySteps (g_activityPool g) locks steps st = (st', Ok ()).
Proof.
  intros Hl Hc. unfold run_steps, applySteps. revert st. induction steps as [|s steps IH]; intros st E; [done|].
  cbn [m_for] in *. apply meth_bind_Ok in E as (st1 & [] & Es & E). unfold run_step in Es.
  apply meth_bind_Ok in Es as (st2 & ls & [-> Hls]%m_lift_Ok & Es). destruct (lock_context_time _ _ _ Hl Hls) as [[l ->] _].
  destruct (lock_context_at g t (sp_time s) locks l Hc Hls) as [-> _]. rewrite meth_bind_run, Es. by apply IH.
Qed.

(** What the replay guarantees of each step beyond the ledger. *)
Definition step_checked (g : GenesisConfig) (s : Step) : Prop :=
  (∃ schedule h, sp_oracles s = Some (oracleSetAt g schedule h)) ∧
  (∀ t, sp_tx s = ActivitySettlement t → assertActivityEpochWindow (as_epoch t) (g_timestampMs g) (sp_time s) = Ok ()).

Lemma steps_checked ch (raw : RawBlock) (nowMs : Z) (block : Block) ctx w0 w1 :
  accepted ch raw nowMs block ctx w0 w1 → Forall (step_checked (ch_genesis ch)) (steps_of ctx (b_transactions block)).
Proof.
  intros Hacc. pose proof (replay_start_ctx _ _ _ _ _ _ (ac_start _ _ _ _ _ _ _ Hacc)) as (_ & _ & _ & _ & _ & _ & Ho & _).
  pose proof (replay_authorized _ _ _ _ _ _ (ac_replay _ _ _ _ _ _ _ Hacc)) as Hrun. unfold steps_of. apply Forall_map, Forall_forall.
  intros tx Hin. split; [exists (ch_oracleGovernance ch), (h_height (b_header block)); cbn; by rewrite Ho|].
  cbn [sp_tx sp_time]. intros t ->. destruct (authorized_run_each _ _ _ _ _ Hrun Hin) as [cu Ha].
  unfold authorize in Ha. cbv zeta in Ha. do 3 (apply res_bind_Ok in Ha as (? & _ & Ha)). exact Ha.
Qed.

Lemma times_from_app (t t' : Z) (l1 l2 : list Step) :
  times_from t l1 → Forall (λ s, sp_time s ≤ t') l1 → t ≤ t' → times_from t' l2 → times_from t (l1 ++ l2).
Proof.
  revert t. induction l1 as [|s l1 IH]; intros t H1 Hle Ht H2; cbn [app].
  - destruct l2 as [|s l2]; [done|]. destruct H2 as [? ?]. split; [lia|done].
  - destruct H1 as [H1 H1']. apply Forall_cons in Hle as [Hs Hle]. split; [done|]. by apply IH.
Qed.
Lemma times_from_const (t time : Z) (l : list Step) :
  Forall (λ s, sp_time s = time) l → t ≤ time ≤ MAX_SAFE_INTEGER → times_from t l.
Proof. intros Hl. revert t. induction Hl as [|s l Hs Hl IH]; intros t Ht; [done|]. split; [by rewrite Hs|]. rewrite Hs. apply IH. lia. Qed.

Record history_times (g : GenesisConfig) ch (steps : list Step) : Prop := {
  ht_checked : Forall (step_checked g) steps;
  ht_from : times_from (g_timestampMs g) steps;
  ht_until : Forall (λ s, sp_time s ≤ h_timestampMs (b_header (ch_tip ch))) steps;
  ht_tip : g_timestampMs g ≤ h_timestampMs (b_header (ch_tip ch)) ≤ MAX_SAFE_INTEGER }.

Lemma new_chain_time (g : GenesisConfig) ch : new_chain g = Ok ch → h_timestampMs (b_header (ch_tip ch)) = g_timestampMs g.
Proof.
  unfold new_chain. intros E. do 4 (apply res_bind_Ok in E as (? & _ & E)). apply res_bind_Ok in E as (gb & Hgb & E).
  apply Ok_inj in E as <-. unfold createGenesisBlock in Hgb. apply res_bind_Ok in Hgb as (tr & _ & Hgb). cbv zeta in Hgb.
  do 2 (apply res_bind_Ok in Hgb as (? & _ & Hgb)). by apply Ok_inj in Hgb as <-.
Qed.

Lemma history_checked (g : GenesisConfig) ch0 ch (steps : list Step) :
  new_chain g = Ok ch0 → g_allocationLocks g ≠ None → 0 ≤ g_timestampMs g ≤ MAX_SAFE_INTEGER → history K ch0 ch steps →
  history_times g ch steps.
Proof.
  intros Hnew Hl Hg Hh. pose proof (new_chain_inv _ _ Hnew) as [Hi0 Hg0]. induction Hh as [|ch ch' steps raw nowMs ctx w Hh IH Ha Hs Hb].
  - split; [done|done|done|]. rewrite (new_chain_time _ _ Hnew). lia.
  - destruct IH as [I1 I2 I3 I4]. destruct (grows_inv _ _ Hi0 (history_grows _ _ _ _ Hh)) as (Hi & Hss & _).
    pose proof (proj1 (ss_genesis _ _ _ Hss)) as Hgen. rewrite Hg0 in Hgen.
    apply acceptBlock_Ok in Ha as (block & ctx' & w0 & w1 & keys & Hacc & -> & _).
    destruct (accepted_step ch raw nowMs block ctx' w0 w1 keys Hi Hacc) as (_ & _ & _ & Htip). rewrite Htip in *.
    pose proof (ac_start _ _ _ _ _ _ _ Hacc) as Hs'. unfold feeProducerOf in Hs, Hs'. rewrite (ac_header _ _ _ _ _ _ _ Hacc) in Hs'.
    rewrite Hs in Hs'. apply Ok_inj in Hs' as [= <- <-]. destruct (accepted_header _ _ _ _ _ _ _ Hacc) as (_ & _ & _ & _ & Ht & _).
    pose proof (replay_start_ctx _ _ _ _ _ _ (ac_start _ _ _ _ _ _ _ Hacc)) as (_ & _ & _ & Hlo & _ & Hbt & _).
    unfold allocationLocksAt in Hlo. rewrite Hgen in Hlo. destruct (lock_context_time _ _ _ Hl Hlo) as [_ Hmax].
    assert (Forall (λ s, sp_time s = h_timestampMs (b_header block)) (steps_of ctx (b_transactions block))) as Hconst.
    { unfold steps_of. apply Forall_map, Forall_forall. intros tx _. exact Hbt. }
    split; rewrite ?Htip.
    + apply Forall_app. split; [done|]. rewrite <-Hgen. by eapply steps_checked.
    + eapply times_from_app; [done|exact I3|lia|]. eapply times_from_const; [exact Hconst|lia].
    + apply Forall_app. split; [eapply Forall_impl; [exact I3|]; intros s; cbn; lia|]. eapply Forall_impl; [exact Hconst|]. intros s; cbn; lia.
    + lia.
Qed.

(** A checked step of a launch chain is a step of the rolling-window history. *)
Lemma checked_launch (g : GenesisConfig) (s : Step) :
  g_launchProfile g = Some FIXED_SUPPLY_LAUNCH_PROFILE → step_checked g s → isActivityWindowAddress (tx_sender (sp_tx s)) = false →
  launch_step (g_timestampMs g) (activitySettlementCapAtoms (Some (genesis_set g))) s.
Proof.
  intros Hp [(sch & h & Ho) Hw] Hs. split; [|done]. exists (oracleSetAt g sch h). split; [done|]. unfold genesis_set, oracleSetAt.
  destruct (activityOracleControlAt sch h), (activityOracleControlAt ∅ 0). by cbn.
Qed.

Lemma launch_cap (g : GenesisConfig) :
  genesis_valid g → g_launchProfile g = Some FIXED_SUPPLY_LAUNCH_PROFILE →
  0 ≤ activitySettlementCapAtoms (Some (genesis_set g)) ≤ PUBLIC_LAUNCH_ACTIVITY_CAP_ATOMS.
Proof.
  intros Hg HL. pose proof (launch_policy g Hg HL) as Hpol. pose proof (gv_policy g Hg) as E. unfold validateActivityOraclePolicy, genesisOracles in E.
  unfold activitySettlementCapAtoms, genesis_set, oracleSetAt, hasPolicy. destruct (activityOracleControlAt ∅ 0).
  cbn [os_activitySettlementCapAtoms os_activityOraclePolicy mbind option_bind] in *. rewrite Hpol in *.
  rewrite bool_decide_true by done. destruct (g_activitySettlementCapAtoms g) as [cap|]; [|done].
  do 2 (apply res_bind_Ok in E as (? & _ & E)). cbv zeta in E. apply res_bind_Ok in E as (? & _ & E).
  apply res_bind_Ok in E as (? & Hc%throw_if_Ok & _).
  change (negb (isSafeInteger cap) || (cap <? 1) || (PUBLIC_LAUNCH_ACTIVITY_CAP_ATOMS <? cap) = false) in Hc. breflect.
  change (0 ≤ cap ≤ PUBLIC_LAUNCH_ACTIVITY_CAP_ATOMS). lia.
Qed.

(** C3. The promises of a launch hold for the life of the chain. On every chain grown
    from a genesis with the launch profile by accepted blocks (the keys in use
    have different hashes, and nobody sent from the two reserved addresses of the
    activity window), the ledger behind the chain is well formed and its supply is
    50,000,000 ZYN less the burned fees; at the time of the tip the founder and
    the public-distribution accounts still hold what their schedules lock, the
    permanent-liquidity account never lost an atom, and the activity pool paid at
    most its cap in every window of 24 hours. *)
Theorem launch_chain_safe (Hapart : hashes_apart K) (genesis : GenesisConfig) ch0 ch (steps : list Step) :
  (∀ key, key ∈ genesis_keys_of genesis → key ∈ K) → new_chain genesis = Ok ch0 →
  g_launchProfile genesis = Some FIXED_SUPPLY_LAUNCH_PROFILE → history K ch0 ch steps →
  Forall (λ s, isActivityWindowAddress (tx_sender (sp_tx s)) = false) steps →
  ∃ st locks, answers K ch st ∧ ledger_wf st ∧ supply st = MAX_SUPPLY_ATOMS - burned_in steps ∧
    allocationLockContext genesis (h_timestampMs (b_header (ch_tip ch))) = Ok (Some locks) ∧ locks_held locks st ∧
    (∀ a, lc_permanentLiquidity locks = Some a → LIQUIDITY_RESERVE_ATOMS ≤ balance st a) ∧
    ∀ t, paid_in_window t (settlements steps) ≤ activitySettlementCapAtoms (Some (genesis_set genesis)).
Proof.
  intros HK Hnew HL Hh Hwin.
  assert (validateGenesis genesis false = Ok ()) as Hv by (unfold new_chain in Hnew; by apply res_bind_Ok in Hnew as ([] & ? & _)).
  apply validateGenesis_valid in Hv as [Hg _]. destruct (launch_profile_plan genesis ()) as [a Hp]; [apply gv_launch; [done|by rewrite HL]|].
  assert (g_allocationLocks genesis ≠ None) as Hl by (rewrite (lp_locks _ _ Hp); done). pose proof (gv_time _ Hg) as Hgt.
  pose proof (launch_cap _ Hg HL) as Hcap.
  destruct (history_ledger K Hapart genesis ch0 ch steps Hnew HK Hh) as (st0 & st & Hst0 & Hrun & [Hi Hgen Hc Hver _] & Htx).
  destruct (history_checked genesis ch0 ch steps Hnew Hl) as [C1 C2 C3 C4]; [lia|done|].
  destruct (launch_locks genesis a st0 (g_timestampMs genesis) Hg Hp Hst0) as (l0 & Hl0 & Hw0 & Hh0 & _ & Hliq); [lia|].
  destruct (launch_locks genesis a st0 (h_timestampMs (b_header (ch_tip ch))) Hg Hp Hst0) as (l1 & Hl1 & _); [lia|].
  destruct (lock_context_at _ _ _ _ _ Hl0 Hl1) as [-> Hbt]. destruct (fromGenesis_facts _ _ Hst0) as (Hwf0 & Hsup0 & _).
  destruct (plan_balances genesis a st0 Hg Hp Hst0) as (Hs & _ & _ & Hlb & _).
  pose proof (run_steps_locks genesis _ l0 steps st0 st Hl Hl0 Hrun) as Happ.
  destruct (steps_keep_locks (g_activityPool genesis) steps l0 st0 st (h_timestampMs (b_header (ch_tip ch))) ()) as [Hheld Hnever]; try done; rewrite ?Hbt; try done.
  eexists st, _. split_and!; [by apply chain_answers|apply Hc| |exact Hl1|done| |].
  - rewrite (run_supply genesis steps st0 st Hwf0 Htx Hrun). lia.
  - intros x Hx. specialize (Hnever x Hx). cbn in Hx. rewrite Hliq in Hx. injection Hx as <-. lia.
  - intros t. eapply linked_window; [lia|].
    eapply (run_linked _ _ (g_activityPool genesis) l0 steps st0 st None); [lia| |done|exact Happ].
    apply Forall_forall. intros s Hin. rewrite Forall_forall in C1, Hwin. apply checked_launch; auto.
Qed.

End launch.

(** ** A launched chain *)

Module LaunchExample.
Import ToyCrypto BlockExample ChainExample.
#[local] Existing Instance ToyCrypto.toy.

(** The public distribution belongs to a key of the example, which spends some of
    it half a year after genesis. *)
Definition roles : FixedSupplyAddresses :=
  mkFixedSupplyAddresses "ZYNaaaaaaaaaaaaaaaaaaaaaaaaaaaaaaaaaaaaaaaa" alice "ZYNcccccccccccccccccccccccccccccccccccccccc" "ZYNdddddddddddddddddddddddddddddddddddddddd".
Definition config : GenesisConfig :=
  mkGenesis "zyron-test" 1700000000000 validators (pk <$> take 3 keys) (fs_ecosystemReserve roles) (plan roles)
    (Some (mkAllocationLocks (fs_founder roles) (fs_liquidityReserve roles))) (Some 2) (Some "threshold-v1") (Some 100000000)
    (Some "fixed-supply-v1") (Some "mainnet")
    (Some (mkPublicDistributionRelease (fs_publicDistribution roles) 0 (365 * MS_PER_DAY)))
    (Some (mkFeePolicyV1 "fixed-fee-v1" 100000)) None.
Definition genesis : GenesisConfig := Eval vm_compute in
  match signGenesisPossessionProofs config keys with Ok g => g | Throw _ => config end.
Definition chain : ZyronChain := Eval vm_compute in start_of (new_chain genesis) genesis.
Definition now : Z := 1715768000000.
Definition spend : Transaction := Eval vm_compute in
  Transfer (transfer_of (createTransfer "zyron-test" 1 alice bob 500000000 100000 now key1 (pk key1) 1)).
Definition block1 : RawBlock := Eval vm_compute in
  match (produceBlock [spend] key1 0 now [] chain).2 with
  | Ok b => raw_of (fold_left (attest_with chain) (take 3 keys) b)
  | Throw _ => raw_of BlockExample.first
  end.
Definition chain1 : ZyronChain := Eval vm_compute in (acceptBlock block1 now chain).1.

Lemma launch_starts : new_chain genesis = Ok chain.
Proof. vm_compute. reflexivity. Qed.
Lemma launch_accepts : acceptBlock block1 now chain = (chain1, Ok ()).
Proof. vm_compute. reflexivity. Qed.

Definition producer : Address := Eval vm_compute in h_proposer (b_header block1).
Definition fee : option FixedFeeApplication := Some (mkFixedFee producer 100000).
Definition used : list string := Eval vm_compute in
  remove_dups (genesis_keys_of genesis ++ used_keys spend (g_activityPool genesis) fee).
Definition K : gset string := list_to_set used.
Definition steps : list Step := [mkStep now spend (Some (oracleSetAt genesis ∅ 1)) fee].

Lemma launch_apart : hashes_apart K.
Proof. apply list_apart; apply (bool_decide_unpack _); vm_compute; exact I. Qed.
Lemma in_used (l : list string) : bool_decide (Forall (λ key, key ∈ used) l) = true → ∀ key, key ∈ l → key ∈ K.
Proof. intros Hl%bool_decide_eq_true key Hk. rewrite Forall_forall in Hl. unfold K. apply elem_of_list_to_set. by apply Hl. Qed.

Lemma launch_history : history K chain chain1 steps.
Proof.
  destruct (replay_start chain (h_height (b_header block1)) (h_timestampMs (b_header block1)) (feeProducerOf block1)) as [[ctx w]|e] eqn:E;
    [|exfalso; apply (f_equal isOk) in E; vm_compute in E; discriminate].
  pose proof (history_block K chain chain chain1 [] block1 now ctx w (history_start K chain) launch_accepts E) as Hh.
  assert (b_transactions (ch_tip chain1) = [spend]) as Htx by (vm_compute; reflexivity). rewrite Htx in Hh.
  apply replay_start_ctx in E as (_ & _ & Hfee & _ & _ & Ht & Ho & _). change (Ok fee = Ok (bc_fee ctx)) in Hfee. apply Ok_inj in Hfee as Hf.
  unfold steps_of, block_in in Hh. cbn [map app] in Hh. rewrite Ht, Ho, <-Hf in Hh. apply Hh. split; [|done].
  intros tx Hin. set_unfold in Hin. destruct Hin as [-> | []]. apply in_used; vm_compute; reflexivity.
Qed.

End LaunchExample.

Lemma launch_chain_safe_witness :
  ∃ st, answers (H := ToyCrypto.toy) LaunchExample.K LaunchExample.chain1 st ∧ supply st = MAX_SUPPLY_ATOMS - 50000.
Proof.
  destruct (launch_chain_safe (H := ToyCrypto.toy) LaunchExample.K LaunchExample.launch_apart LaunchExample.genesis LaunchExample.chain
    LaunchExample.chain1 LaunchExample.steps) as (st & locks & Han & _ & Hs & _).
  - apply LaunchExample.in_used. vm_compute. reflexivity.
  - exact LaunchExample.launch_starts.
  - reflexivity.
  - exact LaunchExample.launch_history.
  - apply (bool_decide_unpack _). vm_compute. exact I.
  - exists st. split; [exact Han|]. rewrite Hs. vm_compute. reflexivity.
Defined.
