(* ===== verification/TrustedSnapshot.v ===== *)
(** Checkpoints of the chain (l1/src/chain.ts): [snapshot], the schedules of a
    checkpoint and [fromTrustedSnapshot], which builds a chain from an untrusted
    value and a pinned anchor.

    The generator [trustedSnapshotSteps] yields to the event loop and changes
    nothing between two steps, so it is run to its end, and the promise of
    [fromTrustedSnapshotInSteps] has the same outcome. *)

From S2P Require Import Prelude Types Codec Crypto Transaction TxShape ShapeRead Oracle Ledger LedgerHistory SparseTree StateV2 StateV2Root Portable Block Genesis Governance ConsensusV6 BlockEnvelope Chain ChainGovernance ChainHistory.

(** ** [Number(value)]

    The safe integer that [Number] makes of a JSON value, if it makes one. *)

Definition isStrWhiteSpace (c : Ascii.ascii) : bool := bool_decide (Ascii.N_of_ascii c ∈ [9; 10; 11; 12; 13; 32; 160]%N).
Fixpoint trim_left (l : list Ascii.ascii) : list Ascii.ascii :=
  match l with c :: rest => if isStrWhiteSpace c then trim_left rest else l | [] => [] end.
Definition trimmed (text : string) : list Ascii.ascii := rev (trim_left (rev (trim_left (String.list_ascii_of_string text)))).

(** The value of a digit in bases up to 16. *)
Definition digit_of (c : Ascii.ascii) : option Z :=
  let n := Z.of_N (Ascii.N_of_ascii c) in
  if (48 <=? n) && (n <=? 57) then Some (n - 48)
  else if (97 <=? n) && (n <=? 102) then Some (n - 87)
  else if (65 <=? n) && (n <=? 70) then Some (n - 55) else None.
Definition digit_in (base : Z) (c : Ascii.ascii) : option Z := d ← digit_of c; if d <? base then Some d else None.

(** The longest run of digits: its value, its length and the rest. *)
Fixpoint digit_run (base : Z) (value : Z) (count : Z) (l : list Ascii.ascii) : Z * Z * list Ascii.ascii :=
  match l with
  | c :: rest =>
    match digit_in base c with
    | Some d => digit_run base (value * base + d) (count + 1) rest
    | None => (value, count, l)
    end
  | [] => (value, count, [])
  end.

(** The integer that the double nearest to [n / d] is, if it is one, for
    [0 ≤ n] and [0 < d]: the quotient is rounded to 53 significant bits, ties to
    even, and below half of the least subnormal to 0; a quotient from [2 ^ 53] on is
    no safe integer and is not read. *)
Definition nearest_integer (n d : Z) : option Z :=
  if n mod d =? 0 then Some (n / d)
  else if n * 2 ^ 1075 <=? d then Some 0
  else
    let s := if n / d =? 0 then 53 else 52 - Z.log2 (n / d) in
    if s <? 0 then None else
    let scaled := n * 2 ^ s in
    let q := scaled / d in
    let r := scaled mod d in
    let rounded := if (d <? 2 * r) || ((2 * r =? d) && Z.odd q) then q + 1 else q in
    if rounded mod 2 ^ s =? 0 then Some (rounded / 2 ^ s) else None.

(** [ExponentPart]: what follows the digits, to the end of the text. *)
Definition exponent_of (l : list Ascii.ascii) : option Z :=
  match l with
  | [] => Some 0
  | c :: rest =>
    if Ascii.eqb c "e"%char || Ascii.eqb c "E"%char then
      let '(sign, rest) :=
        match rest with
        | s :: rest' => if Ascii.eqb s "-"%char then (-1, rest') else if Ascii.eqb s "+"%char then (1, rest') else (1, rest)
        | [] => (1, rest)
        end in
      let '(value, count, rest) := digit_run 10 0 0 rest in
      if (0 <? count) && bool_decide (rest = []) then Some (sign * value) else None
    else None
  end.

(** [StrUnsignedDecimalLiteral] without [Infinity], which is no integer. *)
Definition unsigned_decimal (l : list Ascii.ascii) : option Z :=
  let '(whole, wholeCount, rest) := digit_run 10 0 0 l in
  let '(value, fracCount, rest) :=
    match rest with
    | c :: rest' => if Ascii.eqb c "."%char then digit_run 10 whole 0 rest' else (whole, 0, rest)
    | [] => (whole, 0, rest)
    end in
  if wholeCount + fracCount =? 0 then None else
  e ← exponent_of rest;
  let e := e - fracCount in
  if 0 <=? e then Some (value * 10 ^ e) else nearest_integer value (10 ^ (- e)).

Definition based_literal (base : Z) (l : list Ascii.ascii) : option Z :=
  let '(value, count, rest) := digit_run base 0 0 l in
  if (0 <? count) && bool_decide (rest = []) then Some value else None.

Definition number_of_text (text : string) : option Z :=
  match trimmed text with
  | [] => Some 0
  | "0"%char :: ("x"%char | "X"%char) :: rest => based_literal 16 rest
  | "0"%char :: ("o"%char | "O"%char) :: rest => based_literal 8 rest
  | "0"%char :: ("b"%char | "B"%char) :: rest => based_literal 2 rest
  | "-"%char :: rest => Z.opp <$> unsigned_decimal rest
  | "+"%char :: rest => unsigned_decimal rest
  | l => unsigned_decimal l
  end.

(** The number of [String(value)], which is how an array turns its element into
    a number; a second element puts a comma into the text. *)
Fixpoint number_of_element (v : jsval string) : option Z :=
  match v with
  | JNull | JUndefined => Some 0
  | JNum (JInt z) => Some z
  | JNum JNegZero => Some 0
  | JStr s => number_of_text s
  | JArr [] => Some 0
  | JArr [x] => number_of_element x
  | _ => None
  end.
Definition js_Number (v : jsval string) : option Z :=
  match v with
  | JNull => Some 0
  | JUndefined => None
  | JBool b => Some (if b then 1 else 0)
  | _ => number_of_element v
  end.

(** ** The schedules of a checkpoint *)

Record ChainSnapshot := mkChainSnapshot {
  cs_chainId : string;
  cs_genesisHash : string;
  cs_height : Z;
  cs_tip : Block;
  cs_state : LedgerSnapshot;
  cs_validatorSchedule : list (Z * list Validator);
  cs_protocolSchedule : list (Z * Z);
  cs_activityOracleGovernance : list (Z * ActivityOracleGovernanceAction * list string) }.

Definition validator_entry_json (e : Z * list Validator) : json :=
  JObj [("activationHeight", jint e.1); ("validators", JArr (map validator_json e.2))].
Definition protocol_entry_json (e : Z * Z) : json :=
  JObj [("activationHeight", jint e.1); ("protocolVersion", jint e.2)].
Definition oracle_entry_json (e : Z * ActivityOracleGovernanceAction * list string) : json :=
  JObj [("activationHeight", jint e.1.1); ("action", JStr (action_text e.1.2)); ("publicKeys", JArr (map JStr e.2))].

(** The snapshot as a value: version 2 when a pause, resume or revocation is
    scheduled. *)
Definition chain_snapshot_json (s : ChainSnapshot) : json :=
  let common :=
    [("chainId", JStr (cs_chainId s)); ("genesisHash", JStr (cs_genesisHash s)); ("height", jint (cs_height s));
     ("tip", raw_block_json (raw_of (cs_tip s))); ("state", snapshot_json (cs_state s));
     ("validatorSchedule", JArr (map validator_entry_json (cs_validatorSchedule s)));
     ("protocolSchedule", JArr (map protocol_entry_json (cs_protocolSchedule s)))] in
  if bool_decide (cs_activityOracleGovernance s = []) then JObj (("version", jint 1) :: common)
  else JObj (("version", jint 2) :: common ++
    [("activityOracleGovernance", JArr (map oracle_entry_json (cs_activityOracleGovernance s)))]).

(** [v === text] *)
Definition is_text (v : json) (text : string) : bool := match v with JStr s => String.eqb s text | _ => false end.

(** The anchor an operator pins. *)
Record TrustedAnchor := mkAnchor { ta_tipHash : string; ta_snapshotSha256 : string }.

Definition INVALID_VALIDATOR_SCHEDULE : string := "Invalid checkpoint validator schedule".
Definition INVALID_PROTOCOL_SCHEDULE : string := "Invalid checkpoint protocol schedule".
Definition INVALID_ORACLE_SCHEDULE : string := "Invalid activity oracle governance schedule".

(** One iteration over [value] in [validateProtocolSchedule]: [result],
    [previousHeight] and [previousVersion]. *)
Definition protocol_schedule_step (acc : ProtocolSchedule * Z * Z) (v : json) : res (ProtocolSchedule * Z * Z) :=
  let '(result, previousHeight, previousVersion) := acc in
  candidate ← assertPlainRecord v "checkpoint protocol schedule entry";
  assertExactKeys candidate ["activationHeight"; "protocolVersion"] "checkpoint protocol schedule entry";;
  activationHeight ← safe_int (get candidate "activationHeight") (λ z, z <=? previousHeight) INVALID_PROTOCOL_SCHEDULE;
  protocolVersion ← safe_int (get candidate "protocolVersion") (λ z, (z <? 1) || (65535 <? z)) INVALID_PROTOCOL_SCHEDULE;
  assertNoProtocolDowngradeFromV6 previousVersion protocolVersion "Invalid checkpoint protocol schedule: downgrade from protocol v6";;
  Ok (<[activationHeight := protocolVersion]> result, activationHeight, protocolVersion).

Definition validateProtocolSchedule (value : json) : res ProtocolSchedule :=
  entries ← as_array value (λ l, zlen l <? 1) INVALID_PROTOCOL_SCHEDULE;
  acc ← res_fold protocol_schedule_step (∅, -1, 0) entries;
  throw_if (negb (bool_decide (acc.1.1 !! 0 = Some 1))) "Checkpoint protocol schedule does not start at genesis";;
  Ok acc.1.1.

(** The [canonicalJson] text of a list of validators. *)
Definition validators_text (l : list Validator) : res (option units) := canonicalJson (to_units (JArr (map validator_json l))).

(** An oracle action of a schedule entry. *)
Definition schedule_action (v : json) : res ActivityOracleGovernanceAction :=
  match v with
  | JStr s =>
    if String.eqb s "pause" then Ok Pause else if String.eqb s "resume" then Ok Resume
    else if String.eqb s "revoke" then Ok Revoke else Throw INVALID_ORACLE_SCHEDULE
  | _ => Throw INVALID_ORACLE_SCHEDULE
  end.

Section checkpoint.
Context `{Crypto}.

(** One iteration over [candidate.validators]: the validators before this one
    hold both sets. *)
Definition checkpoint_validator (validators : list Validator) (v : json) : res (list Validator) :=
  item ← assertPlainRecord v "checkpoint validator";
  assertExactKeys item ["address"; "publicKey"] "checkpoint validator";;
  address ← as_text (get item "address") "Invalid checkpoint validator";
  publicKey ← as_text (get item "publicKey") "Invalid checkpoint validator";
  assertAddress address;;
  assertHex publicKey 64 "checkpoint validator public key";;
  throw_if (negb (String.eqb (addressFromPublicKey publicKey) address)) "Invalid checkpoint validator";;
  throw_if (bool_decide (publicKey ∈ v_publicKey <$> validators)) "Duplicate validator public key";;
  throw_if (bool_decide (address ∈ v_address <$> validators)) "Duplicate validator address";;
  assertValidPublicKey publicKey "Checkpoint validator public key";;
  Ok (validators ++ [mkValidator address publicKey]).

Definition validator_schedule_step (minimumValidators : Z) (acc : ValidatorSchedule * Z) (v : json) : res (ValidatorSchedule * Z) :=
  let '(result, previousHeight) := acc in
  candidate ← assertPlainRecord v "checkpoint validator schedule entry";
  assertExactKeys candidate ["activationHeight"; "validators"] "checkpoint validator schedule entry";;
  activationHeight ← safe_int (get candidate "activationHeight") (λ z, z <=? previousHeight) INVALID_VALIDATOR_SCHEDULE;
  items ← as_array (get candidate "validators") (λ _, false) INVALID_VALIDATOR_SCHEDULE;
  throw_if ((zlen items <? minimumValidators) || (100 <? zlen items))
    (if 1 <? minimumValidators
     then "fixed-supply-v1, public-launch, value-bearing, and mainnet chains require at least 4 and at most 100 distinct validators"
     else INVALID_VALIDATOR_SCHEDULE);;
  validators ← res_fold checkpoint_validator [] items;
  Ok (<[activationHeight := validators]> result, activationHeight).

Definition validateValidatorSchedule (value : json) (genesisValidators : list Validator) (minimumValidators : Z) : res ValidatorSchedule :=
  entries ← as_array value (λ l, zlen l <? 1) INVALID_VALIDATOR_SCHEDULE;
  acc ← res_fold (validator_schedule_step minimumValidators) (∅, -1) entries;
  first ← unwrap (acc.1 !! 0) "Checkpoint validator schedule does not start at genesis";
  text ← validators_text first;
  genesisText ← validators_text genesisValidators;
  throw_if (negb (bool_decide (text = genesisText))) "Checkpoint validator schedule does not start at genesis";;
  Ok acc.1.

Definition schedule_key (v : json) : res string :=
  publicKey ← as_text v INVALID_ORACLE_SCHEDULE;
  assertHex publicKey 64 "activity oracle governance publicKey";;
  Ok publicKey.

(** [result], newest last, with [revoked], [paused] and [previousHeight]. *)
Record OracleRead := mkOracleRead {
  or_result : list (Z * ActivityOracleGovernanceAction * list string);
  or_revoked : list string;
  or_paused : bool;
  or_previousHeight : Z }.

(** The branch on the action: [revoked] and [paused] after it. *)
Definition oracle_action_step (registered revoked : list string) (paused : bool) (action : ActivityOracleGovernanceAction)
    (publicKeys : list string) : res (list string * bool) :=
  match action with
  | Pause => throw_if (paused || negb (zlen publicKeys =? 0)) INVALID_ORACLE_SCHEDULE;; Ok (revoked, true)
  | Resume => throw_if (negb paused || negb (zlen publicKeys =? 0)) INVALID_ORACLE_SCHEDULE;; Ok (revoked, false)
  | Revoke =>
    activityOracleGovernancePublicKeysValid Revoke publicKeys registered revoked;;
    Ok (revoked ++ publicKeys, paused)
  end.

Definition oracle_schedule_step (registered : list string) (acc : OracleRead) (v : json) : res OracleRead :=
  candidate ← assertPlainRecord v "activity oracle governance entry";
  assertExactKeys candidate ["activationHeight"; "action"; "publicKeys"] "activity oracle governance entry";;
  activationHeight ← unwrap (js_Number (get candidate "activationHeight")) INVALID_ORACLE_SCHEDULE;
  throw_if (negb (isSafeInteger activationHeight) || (activationHeight <=? or_previousHeight acc) || (activationHeight <? 1))
    INVALID_ORACLE_SCHEDULE;;
  action ← schedule_action (get candidate "action");
  items ← as_array (get candidate "publicKeys") (λ _, false) INVALID_ORACLE_SCHEDULE;
  publicKeys ← each schedule_key items;
  next ← oracle_action_step registered (or_revoked acc) (or_paused acc) action publicKeys;
  Ok (mkOracleRead (or_result acc ++ [(activationHeight, action, publicKeys)]) next.1 next.2 activationHeight).

Definition validateActivityOracleGovernanceSchedule (value : json) (genesis : GenesisConfig)
    : res (list (Z * ActivityOracleGovernanceAction * list string)) :=
  entries ← as_array value (λ l, zlen l =? 0) INVALID_ORACLE_SCHEDULE;
  acc ← res_fold (oracle_schedule_step (g_activityOracles genesis)) (mkOracleRead [] [] false 0) entries;
  Ok (or_result acc).

(** ** [fromTrustedSnapshot] *)

(** The version and the fields of the value. *)
Definition SNAPSHOT_KEYS : list string :=
  ["version"; "chainId"; "genesisHash"; "height"; "tip"; "state"; "validatorSchedule"; "protocolSchedule"].
Definition snapshot_fields (value : json) : res (record * Z) :=
  snapshot ← assertPlainRecord value "chain snapshot";
  version ←
    match as_int (get snapshot "version") with
    | Some v => throw_if (negb (v =? 1) && negb (v =? 2)) "Invalid checkpoint version";; Ok v
    | None => Throw "Invalid checkpoint version"
    end;
  assertExactKeys snapshot (SNAPSHOT_KEYS ++ (if version =? 2 then ["activityOracleGovernance"] else [])) "chain snapshot";;
  Ok (snapshot, version).

(** The identity of the chain, the height and the tip with its body. *)
Definition checkpoint_tip (base : ZyronChain) (snapshot : record) (anchor : TrustedAnchor) : res Block :=
  let chainId := g_chainId (ch_genesis base) in
  throw_if (negb (is_text (get snapshot "chainId") chainId) || negb (is_text (get snapshot "genesisHash") (genesisHash base)))
    "Trusted checkpoint chain identity mismatch";;
  height ← safe_int (get snapshot "height") (λ z, z <? 0) "Invalid checkpoint height";
  raw ← validateBlockStructure (get snapshot "tip");
  tip ← validateBlockTransactions raw;
  hash ← blockHash (b_header tip);
  throw_if (negb (String.eqb (h_chainId (b_header tip)) chainId) || negb (h_height (b_header tip) =? height) ||
            negb (String.eqb (b_hash tip) (ta_tipHash anchor)) || negb (String.eqb hash (b_hash tip)))
    "Trusted checkpoint tip mismatch";;
  transactionRoot ← txs_root (b_transactions raw);
  throw_if (negb (String.eqb (h_transactionRoot (b_header tip)) transactionRoot)) "Trusted checkpoint tip transaction root mismatch";;
  res_fold (λ (tipTxids : list string) tx,
    throw_if (bool_decide (tx_txid tx ∈ tipTxids)) "Trusted checkpoint tip contains a duplicate transaction";;
    Ok (set_add tipTxids (tx_txid tx))) [] (b_transactions tip);;
  Ok tip.

Definition set_schedules (validators : ValidatorSchedule) (protocols : ProtocolSchedule) (oracles : OracleSchedule) (ch : ZyronChain) : ZyronChain :=
  let '(mkChain g gb s tip height _ _ _ st s2 keys) := ch in
  mkChain g gb s tip height validators protocols oracles st s2 keys.

Definition checkpoint_schedules (base : ZyronChain) (snapshot : record) (version : Z) : res ZyronChain :=
  let genesis := ch_genesis base in
  minimum ← minimumValidatorCount genesis;
  validatorSchedule ← validateValidatorSchedule (get snapshot "validatorSchedule") (g_validators genesis) minimum;
  protocolSchedule ← validateProtocolSchedule (get snapshot "protocolSchedule");
  activityOracleGovernance ←
    (if version =? 2 then validateActivityOracleGovernanceSchedule (get snapshot "activityOracleGovernance") genesis else Ok []);
  Ok (set_schedules validatorSchedule protocolSchedule
        (list_to_map (map (λ e, (e.1.1, (e.1.2, e.2))) activityOracleGovernance)) base).

(** The signature of the proposer of the tip. *)
Definition checkpoint_proposer (tip : Block) (validators : list Validator) (protocolVersion : Z) : res unit :=
  let header := b_header tip in
  expected ← expectedValidator validators (h_height header) (h_round header);
  let proposerSignatureValid :=
    negb (missing (b_signature tip)) &&
    verifyForProtocol protocolVersion BLOCK_PROPOSAL_DOMAIN (header_json header) (default "" (b_signature tip)) (v_publicKey expected) in
  throw_if (negb (String.eqb (h_proposer header) (v_address expected)) ||
            negb (bool_decide (b_proposerPublicKey tip = Some (v_publicKey expected))) || negb proposerSignatureValid)
    "Invalid checkpoint proposer signature".

(** The certificate of the tip, by the rule of the governed version. *)
Definition checkpoint_finality (ch : ZyronChain) (tip : Block) (protocolVersion : Z) : res unit :=
  if h_height (b_header tip) =? 0 then
    text ← canonicalJson (to_units (raw_block_json (raw_of tip)));
    genesisText ← canonicalJson (to_units (raw_block_json (raw_of (ch_genesisBlock ch))));
    throw_if (negb (bool_decide (text = genesisText))) "Invalid genesis checkpoint tip"
  else
    validators ← validatorsAt ch (h_height (b_header tip));
    checkpoint_proposer tip validators protocolVersion;;
    if isConsensusV6 protocolVersion then
      throw_if (negb (zlen (b_roundCertificate tip) =? 0)) "Protocol v6 blocks must not carry a round skip certificate";;
      validateCommitCertificate tip validators
    else
      validateRoundCertificate tip validators;;
      validateAttestationQuorum tip validators.

(** The governed version at the tip and the state it commits to; the schedules
    of [ch] are read in the order of their heights, which is the order they were
    read in. *)
Definition checkpoint_state (ch : ZyronChain) (tip : Block) (state : LedgerState) : res (Z * option SparseMerkleState) :=
  protocolVersion ← protocolVersionAt ch (h_height (b_header tip));
  assertSupportedProtocolVersion protocolVersion;;
  throw_if (negb (Bool.eqb (h_version (b_header tip) =? CONSENSUS_V6_PROTOCOL_VERSION) (isConsensusV6 protocolVersion)))
    "Trusted checkpoint tip protocol version mismatch";;
  sparse ←
    (if protocolUsesStateV2 protocolVersion then
       s ← stateV2FromLedgerSnapshot (snapshot state) (Some (governanceSnapshot ch)); Ok (Some s)
     else Ok None);
  stateRoot ←
    match protocolVersion =? 1, sparse with
    | true, _ => root state
    | false, Some s => Ok (sparse_root s)
    | false, None => Throw "Cannot read properties of undefined (reading 'root')"
    end;
  throw_if (negb (String.eqb (h_stateRoot (b_header tip)) stateRoot)) "Trusted checkpoint state root mismatch";;
  Ok (protocolVersion, sparse).

(** The digest that the operator pins. *)
Definition snapshot_digest (value : json) : res string := txid_of value.

Definition fromTrustedSnapshot (genesis : GenesisConfig) (value : json) (anchor : TrustedAnchor) : res ZyronChain :=
  assertHex (ta_tipHash anchor) 32 "trusted checkpoint tip hash";;
  assertHex (ta_snapshotSha256 anchor) 32 "trusted checkpoint snapshot digest";;
  digest ← snapshot_digest value;
  throw_if (negb (String.eqb digest (ta_snapshotSha256 anchor))) "Trusted checkpoint snapshot digest mismatch";;
  fields ← snapshot_fields value;
  let '(snapshot_value, version) := fields in
  base ← new_chain genesis;
  tip ← checkpoint_tip base snapshot_value anchor;
  ch ← checkpoint_schedules base snapshot_value version;
  state ← fromSnapshot (get snapshot_value "state");
  committed ← checkpoint_state ch tip state;
  let '(protocolVersion, sparse) := committed in
  checkpoint_finality ch tip protocolVersion;;
  Ok (set_states (if protocolUsesStateV2 protocolVersion then None else Some state) sparse
        (if sparse then Some (set_of (stateV2KeyPreimages (snapshot state) (governanceSnapshot ch))) else None)
        (set_tip tip ch)).

(** ** [snapshot()] *)

(** The validators of a portable view are values that were not checked; those of
    the chain's own view are the ones its schedule holds. *)
Definition chain_snapshot (ch : ZyronChain) : res ChainSnapshot :=
  ledger ← match ch_state ch with
           | Some st => Ok (snapshot st)
           | None => view ← stateV2PortableView ch; Ok (pv_ledger view)
           end;
  Ok (mkChainSnapshot (g_chainId (ch_genesis ch)) (genesisHash ch) (ch_height ch) (ch_tip ch) ledger
        (sorted_entries (ch_validatorSchedule ch)) (sorted_entries (ch_protocolSchedule ch))
        (map (λ e, (e.1, e.2.1, e.2.2)) (sorted_entries (ch_oracleGovernance ch)))).

End checkpoint.
