(* ===== verification/Checkpoint.v ===== *)
(** What a chain built from a checkpoint is (l1/src/chain.ts,
    [fromTrustedSnapshot]): bound to the pinned anchor, certified by the
    validators of its own schedule, and a ledger from which the chain goes on. *)

From S2P Require Import Prelude Types Codec JsonText Crypto Transaction TxShape ShapeRead Oracle Ledger LedgerHistory SparseTree StateV2 StateV2Root Portable Block Genesis Governance ConsensusV6 BlockEnvelope Chain Selection ChainGovernance ChainHistory TrustedSnapshot.

(** ** Ledgers read from a snapshot *)

Record accounts_read (m : gmap Address AccountState) (sup : Z) (prev : string) : Prop := {
  rd_accounts : ∀ a acc, m !! a = Some acc → isAddress a = true ∧ 0 ≤ balanceAtoms acc ∧ 0 ≤ nonce acc ≤ MAX_SAFE_INTEGER ∧ text_leb a prev = true;
  rd_supply : map_sum balanceAtoms m = sup;
  rd_max : sup ≤ MAX_SUPPLY_ATOMS }.

Lemma text_leb_refl (a : string) : text_leb a a = true.
Proof. apply units_le_refl. Qed.

Lemma snapshot_account_read (m m' : gmap Address AccountState) (sup sup' : Z) (prev prev' : string) (v : jsval string) :
  accounts_read m sup prev → snapshot_account (m, sup, prev) v = Ok (m', sup', prev') → accounts_read m' sup' prev'.
Proof.
  intros [Ha Hs Hm] E. unfold snapshot_account in E. shape_inv. breflect. injection E as <- <- <-.
  match goal with Hp : text_leb ?a prev = false |- _ => rename Hp into Hlt; rename a into addr end.
  assert (m !! addr = None) as Hnew.
  { destruct (m !! addr) eqn:El; [|done]. apply Ha in El as (_ & _ & _ & El). congruence. }
  split.
  - intros b acc Hb. apply lookup_insert_Some in Hb as [[<- <-]|[_ Hb]].
    + match goal with Hv : assertAddress addr = Ok _ |- _ => apply throw_if_Ok, negb_false_iff in Hv end.
      split_and!; cbn; [done|lia..|apply text_leb_refl].
    + apply Ha in Hb as (? & ? & ? & Hle). split_and!; try done; try lia. unfold text_leb in *.
      eapply units_le_trans; [exact Hle|]. by apply units_le_total.
  - rewrite map_sum_insert_None by done. cbn. lia.
  - lia.
Qed.

Lemma fromSnapshot_wf (v : jsval string) (st : LedgerState) : fromSnapshot v = Ok st → snapshot_wf st.
Proof.
  unfold fromSnapshot. intros E. apply res_bind_Ok in E as (value & _ & E). apply res_bind_Ok in E as ([] & _ & E).
  apply res_bind_Ok in E as (accs & _ & E). apply res_bind_Ok in E as (eps & _ & E).
  apply res_bind_Ok in E as ([[m sup] prev] & Hacc & E). apply res_bind_Ok in E as ([es last] & Hep & E). apply Ok_inj in E as <-.
  assert (accounts_read m sup prev) as [Ha Hs Hm].
  { refine (res_fold_inv (λ _ s, accounts_read s.1.1 s.1.2 s.2) _ _ _ _ Hacc _ _).
    - split; [intros a acc Hl; cbn in Hl; by rewrite lookup_empty in Hl|apply map_sum_empty|done].
    - intros pre x [[m1 s1] p1] [[m2 s2] p2] Hi _ Hx. by eapply snapshot_account_read. }
  assert (∀ e, e ∈ es → 0 ≤ e ≤ MAX_SAFE_INTEGER) as He.
  { refine (res_fold_inv (λ _ s, ∀ e, e ∈ s.1 → 0 ≤ e ≤ MAX_SAFE_INTEGER) _ _ _ _ Hep _ _).
    - cbn. set_solver.
    - intros pre x [s1 l1] [s2 l2] Hi _ Hx e. unfold snapshot_epoch in Hx. shape_inv. breflect. injection Hx as <- <-.
      cbn [fst]. intros [-> %elem_of_singleton|Hin]%elem_of_union; [lia|by apply Hi]. }
  split; cbn; [split; cbn|..].
  - intros a acc Hl. apply Ha in Hl as (_ & ? & ? & _). lia.
  - unfold supply. cbn. lia.
  - intros a acc Hl. apply Ha in Hl as (? & _ & ? & _). split; [done|lia].
  - done.
Qed.

(** ** The schedules read from a checkpoint *)

Record protocols_read (m : gmap Z Z) (prevHeight prevVersion : Z) : Prop := {
  pr_bounds : map_Forall (λ k v, 0 ≤ k ≤ prevHeight ∧ 1 ≤ v ≤ 65535) m;
  pr_last : m ≠ ∅ → m !! prevHeight = Some prevVersion;
  pr_monotone : no_downgrade m }.

Lemma protocol_schedule_step_read (m m' : gmap Z Z) (h h' v v' : Z) (x : json) :
  -1 ≤ h → protocols_read m h v → protocol_schedule_step (m, h, v) x = Ok (m', h', v') → -1 ≤ h' ∧ protocols_read m' h' v'.
Proof.
  intros Hh [Hb Hl Hd] E. unfold protocol_schedule_step, assertNoProtocolDowngradeFromV6, CONSENSUS_V6_PROTOCOL_VERSION in E.
  shape_inv. breflect. injection E as <- <- <-.
  match goal with E : h < ?k |- _ => rename k into k0, E into Hk end.
  split; [lia|]. split.
  - intros k w Hw. apply lookup_insert_Some in Hw as [[<- <-]|[_ Hw]]; [lia|]. destruct (Hb k w Hw). lia.
  - intros _. apply lookup_insert_eq.
  - intros k1 k2 v1 v2 L1 L2 Hlt Hv. apply lookup_insert_Some in L1 as [[<- <-]|[Hn1 L1]]; apply lookup_insert_Some in L2 as [[<- <-]|[Hn2 L2]].
    + lia.
    + destruct (Hb _ _ L2). lia.
    + destruct (Hb _ _ L1) as [Hb1 _]. assert (m !! h = Some v) as Hlast by (apply Hl; intros ->; by rewrite lookup_empty in L1).
      assert (v1 ≤ v) as Hle.
      { destruct (decide (k1 = h)) as [->|]; [rewrite Hlast in L1; injection L1; lia|]. by apply (Hd k1 h v1 v); [..|lia|]. }
      lia.
    + by apply (Hd k1 k2).
Qed.

Lemma protocol_schedule_sound (v : json) (m : ProtocolSchedule) :
  validateProtocolSchedule v = Ok m → m !! 0 = Some 1 ∧ no_downgrade m ∧ map_Forall (λ k v, 0 ≤ k ∧ 1 ≤ v ≤ 65535) m.
Proof.
  unfold validateProtocolSchedule. intros E. apply res_bind_Ok in E as (l & _ & E). apply res_bind_Ok in E as ([[m0 h] w] & Hf & E).
  cbn [fst] in E. apply res_bind_Ok in E as ([] & Hz & E). apply throw_if_Ok, negb_false_iff, bool_decide_eq_true in Hz. apply Ok_inj in E as <-.
  assert (-1 ≤ h ∧ protocols_read m0 h w) as [_ [Hb _ Hd]].
  { refine (res_fold_inv (λ _ s, -1 ≤ s.1.2 ∧ protocols_read s.1.1 s.1.2 s.2) _ _ _ _ Hf _ _).
    - split; [done|]. split; cbn; [apply map_Forall_empty|done|]. intros ???? Hl. by rewrite lookup_empty in Hl.
    - intros pre x [[m1 h1] v1] [[m2 h2] v2] [Hh Hi] _ Hx. by eapply protocol_schedule_step_read. }
  split; [done|]. split; [done|]. intros k x Hk. destruct (Hb k x Hk). lia.
Qed.

Lemma tidy_text_inj (v w : jsval units) (t : option units) :
  tidy v 0 = true → tidy w 0 = true → canonicalJson v = Ok t → canonicalJson w = Ok t → v = w.
Proof.
  intros Hv Hw Ev Ew. destruct (tidy_normalize v 0 Hv) as (Nv & Rv & Jv & Ov). destruct (tidy_normalize w 0 Hw) as (Nw & Rw & Jw & Ow).
  unfold canonicalJson in Ev, Ew. rewrite Nv in Ev. rewrite Nw in Ew. apply Ok_inj in Ev, Ew.
  destruct t as [t|]; [|by apply omitted_stringify in Ev; rewrite Ev in Ov].
  destruct (canonicalJson_parse v v t Jv Nv Ev) as [Pv _]. destruct (canonicalJson_parse w w t Jw Nw Ew) as [Pw _].
  rewrite Pv in Pw. apply Ok_inj in Pw. congruence.
Qed.

Lemma validators_units_inj (l k : list Validator) : to_units (JArr (map validator_json l)) = to_units (JArr (map validator_json k)) → l = k.
Proof.
  cbn [to_units]. intros [= E]. revert k E. induction l as [|v l IH]; intros [|w k] E; cbn [map] in E; try discriminate; [done|].
  injection E as Ea Ep Er. apply lit_inj in Ea, Ep. rewrite (IH k Er). destruct v, w. cbn in Ea, Ep. congruence.
Qed.

Lemma validators_text_inj (l k : list Validator) (t : option units) : validators_text l = Ok t → validators_text k = Ok t → l = k.
Proof.
  intros El Ek. apply validators_units_inj. apply (tidy_text_inj _ _ t); [..|exact El|exact Ek].
  all: cbn [to_units tidy]; apply andb_true_iff; split; [done|].
  all: rewrite forallb_forall; intros x Hx; rewrite in_map_iff in Hx; destruct Hx as (y & <- & Hy); rewrite in_map_iff in Hy; destruct Hy as (v & <- & _).
  all: cbn [validator_json to_units map tidy forallb fst snd]; by rewrite !lit_tidy.
Qed.

Section sound.
Context `{Crypto}.

Lemma validator_set_snoc (l : list Validator) (v : Validator) :
  validator_set_wf l → validator_wf v → v_publicKey v ∉ v_publicKey <$> l → v_address v ∉ v_address <$> l → validator_set_wf (l ++ [v]).
Proof.
  intros (Hw & Hk & Ha) Hv Hnk Hna. unfold validator_set_wf. rewrite !fmap_app, !NoDup_app, Forall_app. csimpl. split_and!; try done.
  - by constructor.
  - intros x Hx Hy. apply list_elem_of_singleton in Hy as ->. done.
  - apply NoDup_singleton.
  - intros x Hx Hy. apply list_elem_of_singleton in Hy as ->. done.
  - apply NoDup_singleton.
Qed.

Lemma checkpoint_validator_wf (l l' : list Validator) (v : json) :
  validator_set_wf l → checkpoint_validator l v = Ok l' → validator_set_wf l' ∧ length l' = S (length l).
Proof.
  intros Hl E. unfold checkpoint_validator, assertValidPublicKey in E. shape_inv. breflect.
  match goal with Hv : assertAddress _ = Ok _ |- _ => apply throw_if_Ok, negb_false_iff in Hv end.
  split; [|rewrite length_app; simpl; lia]. by apply validator_set_snoc.
Qed.

(** Every set of a schedule that a checkpoint carries. *)
Definition set_ok (minimum : Z) (l : list Validator) : Prop := validator_set_wf l ∧ minimum ≤ zlen l ≤ 100.

Lemma validator_schedule_step_read (minimum h h' : Z) (m m' : ValidatorSchedule) (x : json) :
  map_Forall (λ k l, 0 ≤ k ∧ set_ok minimum l) m → -1 ≤ h → validator_schedule_step minimum (m, h) x = Ok (m', h') →
  map_Forall (λ k l, 0 ≤ k ∧ set_ok minimum l) m' ∧ -1 ≤ h'.
Proof.
  intros Hm Hh E. unfold validator_schedule_step in E. shape_inv. breflect. injection E as <- <-. split; [|lia].
  match goal with Hf : res_fold checkpoint_validator [] ?items = Ok ?vs |- _ => rename Hf into Hloop; rename vs into l; rename items into js end.
  apply map_Forall_insert_2; [|done]. split; [lia|].
  apply (res_fold_inv (λ pre s, validator_set_wf s ∧ zlen s = zlen pre)) in Hloop as [Hw Hz].
  - split; [done|]. rewrite Hz. lia.
  - split; [|done]. repeat split; constructor.
  - intros pre v s s' [Hw Hz] _ Hv. apply checkpoint_validator_wf in Hv as [Hw' Hl']; [|done].
    split; [done|]. unfold zlen in *. rewrite length_app. simpl. lia.
Qed.

Lemma validator_schedule_sound (v : json) (genesisValidators : list Validator) (minimum : Z) (m : ValidatorSchedule) :
  validateValidatorSchedule v genesisValidators minimum = Ok m →
  m !! 0 = Some genesisValidators ∧ map_Forall (λ k l, 0 ≤ k ∧ set_ok minimum l) m.
Proof.
  unfold validateValidatorSchedule. intros E. apply res_bind_Ok in E as (l & _ & E). apply res_bind_Ok in E as ([m0 h] & Hf & E).
  cbn [fst] in E. apply res_bind_Ok in E as (vs & Hfirst & E). apply res_bind_Ok in E as (t & Ht & E). apply res_bind_Ok in E as (t' & Ht' & E).
  apply res_bind_Ok in E as ([] & Heq & E). apply throw_if_Ok, negb_false_iff, bool_decide_eq_true in Heq. apply Ok_inj in E as <-. subst t'.
  rewrite (validators_text_inj _ _ t Ht Ht') in Hfirst. split; [by destruct (m0 !! 0); [apply Ok_inj in Hfirst as ->|]|].
  apply (res_fold_inv (λ _ s, map_Forall (λ k l, 0 ≤ k ∧ set_ok minimum l) s.1 ∧ -1 ≤ s.2)) in Hf as [Hm _]; [done| |].
  - split; [apply map_Forall_empty|done].
  - intros pre x [m1 h1] [m2 h2] [Hm Hh] _ Hx. by eapply validator_schedule_step_read.
Qed.

(** ** The chain that was built *)

(** The tip carries the signature of its leader and a quorum of [validators]. *)
Definition certified (validators : list Validator) (version : Z) (tip : Block) : Prop :=
  (∃ leader signature, expectedValidator validators (h_height (b_header tip)) (h_round (b_header tip)) = Ok leader ∧
    h_proposer (b_header tip) = v_address leader ∧ b_signature tip = Some signature ∧
    verifyForProtocol version BLOCK_PROPOSAL_DOMAIN (header_json (b_header tip)) signature (v_publicKey leader) = true) ∧
  (if isConsensusV6 version then
    ∃ commitRound, b_commitRound tip = CommitAt commitRound ∧ h_round (b_header tip) ≤ commitRound ∧
      vote_certificate validators V6_COMMIT_VOTE_DOMAIN
        (votePayload (h_chainId (b_header tip)) (h_height (b_header tip)) commitRound (b_hash tip)) (b_attestations tip)
   else quorum_of validators (at_validator <$> b_attestations tip) ∧ Forall (attested tip validators) (b_attestations tip)).

Lemma checkpoint_finality_sound (ch : ZyronChain) (tip : Block) (version : Z) (u : unit) :
  checkpoint_finality ch tip version = Ok u → 0 < h_height (b_header tip) →
  ∃ validators, validatorsAt ch (h_height (b_header tip)) = Ok validators ∧ certified validators version tip.
Proof.
  intros E Hh. unfold checkpoint_finality in E. destruct (Z.eqb_spec (h_height (b_header tip)) 0); [lia|].
  apply res_bind_Ok in E as (validators & Hv & E). apply res_bind_Ok in E as ([] & Hp & E). exists validators. split; [done|]. split.
  - unfold checkpoint_proposer in Hp. apply res_bind_Ok in Hp as (leader & Hl & Hp). cbv zeta in Hp. apply throw_if_Ok in Hp.
    breflect. destruct Hp as [[Ha _] [Hm Hs]]. destruct (b_signature tip) as [s|]; [|done]. by exists leader, s.
  - destruct (isConsensusV6 version).
    + res_split. by eapply commit_certificate_sound.
    + res_split. by eapply attestation_quorum_sound.
Qed.

(** The ledger in the value. *)
Definition checkpoint_ledger (value : json) : res LedgerState :=
  fields ← snapshot_fields value; fromSnapshot (get fields.1 "state").

(** What is known of the pieces once the chain is built. *)
Record loaded (genesis : GenesisConfig) (value : json) (anchor : TrustedAnchor) (ch : ZyronChain) (st : LedgerState) (version : Z) : Prop := {
  ld_digest : snapshot_digest value = Ok (ta_snapshotSha256 anchor);
  ld_hash : blockHash (b_header (ch_tip ch)) = Ok (ta_tipHash anchor) ∧ b_hash (ch_tip ch) = ta_tipHash anchor;
  ld_txids : NoDup (tx_txid <$> b_transactions (ch_tip ch));
  ld_genesis : ch_genesis ch = genesis;
  ld_inv : chain_inv ch;
  ld_sets : ∃ minimum, minimumValidatorCount genesis = Ok minimum ∧ map_Forall (λ k l, 0 ≤ k ∧ set_ok minimum l) (ch_validatorSchedule ch);
  ld_versions : map_Forall (λ _ v, isSafeInteger v = true) (ch_protocolSchedule ch);
  ld_version : protocolVersionAt ch (ch_height ch) = Ok version ∧ assertSupportedProtocolVersion version = Ok ();
  ld_ledger : checkpoint_ledger value = Ok st;
  ld_root : root_of ch version st (h_stateRoot (b_header (ch_tip ch)));
  ld_state : if version =? 1 then ch_state ch = Some st ∧ ch_stateV2 ch = None
    else ch_state ch = None ∧ ∃ s, ch_stateV2 ch = Some s ∧ stateV2FromLedgerSnapshot (snapshot st) (Some (governanceSnapshot ch)) = Ok s;
  ld_finality : 0 < ch_height ch → ∃ validators, validatorsAt ch (ch_height ch) = Ok validators ∧ certified validators version (ch_tip ch) }.

Lemma set_schedules_keeps (validators : ValidatorSchedule) (protocols : ProtocolSchedule) (oracles : OracleSchedule) (ch : ZyronChain) :
  let c := set_schedules validators protocols oracles ch in
  ch_genesis c = ch_genesis ch ∧ ch_genesisBlock c = ch_genesisBlock ch ∧ ch_validatorSchedule c = validators ∧
  ch_protocolSchedule c = protocols ∧ ch_oracleGovernance c = oracles ∧ ch_genesisSupplyAtoms c = ch_genesisSupplyAtoms ch.
Proof. by destruct ch. Qed.

Lemma distinct_txids (txs : list Transaction) (seen : list string) :
  res_fold (λ (tipTxids : list string) tx,
    throw_if (bool_decide (tx_txid tx ∈ tipTxids)) "Trusted checkpoint tip contains a duplicate transaction";;
    Ok (set_add tipTxids (tx_txid tx))) [] txs = Ok seen → NoDup (tx_txid <$> txs).
Proof.
  intros Hf. apply (res_fold_inv (λ pre s, s = tx_txid <$> pre ∧ NoDup s)) in Hf as [<- Hnd]; [done|by split; [|constructor]|].
  intros pre tx s s' [-> Hnd] _ E. apply res_bind_Ok in E as ([] & Hn & E).
  apply throw_if_Ok, bool_decide_eq_false in Hn. apply Ok_inj in E as <-. unfold set_add. rewrite bool_decide_false by done. rewrite fmap_app. split; [done|].
  apply NoDup_app. split; [done|]. csimpl. split; [|apply NoDup_singleton]. intros x Hx ->%list_elem_of_singleton. done.
Qed.

Lemma checkpoint_tip_sound (base : ZyronChain) (snapshot_value : list (string * jsval string)) (anchor : TrustedAnchor) (tip : Block) :
  checkpoint_tip base snapshot_value anchor = Ok tip →
  blockHash (b_header tip) = Ok (ta_tipHash anchor) ∧ b_hash tip = ta_tipHash anchor ∧ 0 ≤ h_height (b_header tip) ∧
  NoDup (tx_txid <$> b_transactions tip).
Proof.
  unfold checkpoint_tip. cbv zeta. intros E. apply res_bind_Ok in E as ([] & _ & E). apply res_bind_Ok in E as (height & Hh & E).
  apply res_bind_Ok in E as (raw & _ & E). apply res_bind_Ok in E as (tip' & _ & E). apply res_bind_Ok in E as (hash & Hhash & E).
  apply res_bind_Ok in E as ([] & Hm & E). apply res_bind_Ok in E as (r & _ & E). apply res_bind_Ok in E as ([] & _ & E).
  apply res_bind_Ok in E as (seen & Hseen & E). apply Ok_inj in E as ->. apply safe_int_Ok in Hh as (_ & _ & Hh). apply throw_if_Ok in Hm.
  apply distinct_txids in Hseen. breflect. destruct Hm as [[[_ ->] Hb] ->]. rewrite <-Hb. split_and!; try done; lia.
Qed.

Lemma checkpoint_schedules_sound (base ch : ZyronChain) (snapshot_value : list (string * jsval string)) (version : Z) :
  checkpoint_schedules base snapshot_value version = Ok ch →
  ch_genesis ch = ch_genesis base ∧ schedules_wf ch ∧
  (∃ minimum, minimumValidatorCount (ch_genesis base) = Ok minimum ∧ map_Forall (λ k l, 0 ≤ k ∧ set_ok minimum l) (ch_validatorSchedule ch)) ∧
  map_Forall (λ _ v, isSafeInteger v = true) (ch_protocolSchedule ch).
Proof.
  unfold checkpoint_schedules. cbv zeta. intros E. apply res_bind_Ok in E as (minimum & Hmin & E). apply res_bind_Ok in E as (vs & Hvs & E).
  apply res_bind_Ok in E as (ps & Hps & E). apply res_bind_Ok in E as (os & _ & E). apply Ok_inj in E as <-.
  apply validator_schedule_sound in Hvs as [Hv0 Hvs]. apply protocol_schedule_sound in Hps as (Hp0 & Hd & Hps).
  match goal with |- context [set_schedules vs ps ?o base] => destruct (set_schedules_keeps vs ps o base) as (Eg & _ & Ev & Ep & _) end.
  rewrite Eg. split_and!; [done| |by exists minimum; rewrite Ev|].
  - split; [by rewrite Ev, Eg|by rewrite Ep|by rewrite Ep].
  - rewrite Ep. intros k x Hx. destruct (Hps k x Hx). apply isSafeInteger_spec. unfold MAX_SAFE_INTEGER. lia.
Qed.

Lemma checkpoint_state_sound (ch : ZyronChain) (tip : Block) (st : LedgerState) (version : Z) (sparse : option SparseMerkleState) :
  checkpoint_state ch tip st = Ok (version, sparse) →
  protocolVersionAt ch (h_height (b_header tip)) = Ok version ∧ assertSupportedProtocolVersion version = Ok () ∧
  root_of ch version st (h_stateRoot (b_header tip)) ∧
  (if version =? 1 then sparse = None ∧ protocolUsesStateV2 version = false
   else protocolUsesStateV2 version = true ∧
     ∃ s, sparse = Some s ∧ stateV2FromLedgerSnapshot (snapshot st) (Some (governanceSnapshot ch)) = Ok s).
Proof.
  unfold checkpoint_state. intros E. apply res_bind_Ok in E as (v & Hv & E). apply res_bind_Ok in E as ([] & Hsup & E).
  apply res_bind_Ok in E as ([] & _ & E). apply res_bind_Ok in E as (sp & Hsp & E). apply res_bind_Ok in E as (rt & Hrt & E).
  apply res_bind_Ok in E as ([] & Heq & E). apply Ok_inj in E as [= -> ->]. apply throw_if_Ok, negb_false_iff, String.eqb_eq in Heq as <-.
  split; [done|]. split; [done|]. unfold root_of. destruct (Z.eqb_spec version 1) as [-> | Hne]; [by apply Ok_inj in Hsp as <-|].
  apply assertSupported_cases in Hsup as [? | Hu]; [done|]. rewrite Hu in Hsp. apply res_bind_Ok in Hsp as (s & Hs & Hsp). apply Ok_inj in Hsp as <-.
  apply Ok_inj in Hrt. split; by eauto.
Qed.

Lemma load_sound (genesis : GenesisConfig) (value : json) (anchor : TrustedAnchor) (ch : ZyronChain) :
  fromTrustedSnapshot genesis value anchor = Ok ch → ∃ st version, loaded genesis value anchor ch st version.
Proof.
  unfold fromTrustedSnapshot. intros E. do 2 (apply res_bind_Ok in E as ([] & _ & E)). apply res_bind_Ok in E as (digest & Hd & E).
  apply res_bind_Ok in E as ([] & Heq & E). apply throw_if_Ok, negb_false_iff, String.eqb_eq in Heq as ->.
  apply res_bind_Ok in E as ([fields sv] & Hfields & E). apply res_bind_Ok in E as (base & Hbase & E). apply res_bind_Ok in E as (tip & Htip & E).
  apply res_bind_Ok in E as (c & Hc & E). apply res_bind_Ok in E as (st & Hst & E). apply res_bind_Ok in E as ([version sparse] & Hcs & E).
  apply res_bind_Ok in E as ([] & Hfin & E). apply Ok_inj in E as <-. exists st, version.
  apply new_chain_inv in Hbase as [_ Hg]. apply checkpoint_tip_sound in Htip as (Hh1 & Hh2 & Hh3 & Hnd).
  apply checkpoint_schedules_sound in Hc as (Eg & Hw & Hsets & Hvers). rewrite Hg in Eg, Hsets.
  apply checkpoint_state_sound in Hcs as (Hv & Hsup & Hroot & Hs).
  match goal with |- loaded _ _ _ (set_states ?a ?b ?k _) _ _ => set (keys := k) end. clearbody keys.
  destruct c as [g gb sup t0 h0 vs ps os st0 s20 k0]. cbn [set_tip set_states]. cbn in Eg. subst g.
  split; cbn [ch_tip ch_genesis ch_height ch_validatorSchedule ch_protocolSchedule ch_state ch_stateV2]; try done.
  - split; cbn; [|done|done]. destruct Hw. by split.
  - unfold checkpoint_ledger. by rewrite Hfields.
  - destruct (version =? 1).
    + destruct Hs as [-> ->]. done.
    + destruct Hs as (-> & s & -> & Hb). split; [done|]. by exists s.
  - intros Hpos. by destruct (checkpoint_finality_sound _ _ _ _ Hfin Hpos) as (validators & Hval & Hcert); exists validators.
Qed.
End sound.

(** ** From the checkpoint on *)

Lemma checkpoint_ledger_wf (value : json) (st : LedgerState) : checkpoint_ledger value = Ok st → snapshot_wf st.
Proof. unfold checkpoint_ledger. intros (fields & _ & Hs)%res_bind_Ok. by eapply fromSnapshot_wf. Qed.

Lemma snapshot_in_range (st : LedgerState) : snapshot_wf st → in_range st.
Proof.
  intros [Hw Ha _] a acc Hacc. destruct (lw_accounts _ Hw a acc Hacc) as [Hb Hn]. pose proof (balance_le_supply st a Hw) as Hs.
  pose proof (lw_supply _ Hw). unfold balance, accountOf in Hs. rewrite Hacc in Hs. cbn in Hs. destruct (Ha a acc Hacc). lia.
Qed.

Lemma elem_of_map_2 {A B} (f : A → B) (l : list A) (x : A) (y : B) : x ∈ l → y = f x → y ∈ map f l.
Proof. intros Hx ->. by apply list_elem_of_In, in_map, list_elem_of_In. Qed.

(** The keys of a checkpoint: those of its ledger and of its schedules. *)
Lemma preimages_account (st : LedgerState) (g : StateV2GovernanceSnapshot) (a : Address) :
  is_Some (accounts st !! a) → accountKey a ∈ stateV2KeyPreimages (snapshot st) g.
Proof.
  intros [acc Ha]. unfold stateV2KeyPreimages, sort_texts. rewrite js_sort_perm. apply elem_of_app. left.
  unfold snapshot. cbn [sn_accounts]. apply (elem_of_map_2 _ _ (mkAccountRecord a (balanceAtoms acc) (nonce acc))); [|done].
  apply (list_elem_of_fmap_2' _ _ (a, acc)); [|done]. rewrite js_sort_perm. by apply elem_of_map_to_list.
Qed.
Lemma preimages_epoch (st : LedgerState) (g : StateV2GovernanceSnapshot) (e : Z) :
  e ∈ settledActivityEpochs st → activityEpochKey e ∈ stateV2KeyPreimages (snapshot st) g.
Proof.
  intros He. unfold stateV2KeyPreimages, sort_texts. rewrite js_sort_perm. apply elem_of_app. right. apply elem_of_app. left.
  unfold snapshot. cbn [sn_settledActivityEpochs]. apply (elem_of_map_2 _ _ e); [|done]. rewrite js_sort_perm. by apply elem_of_elements.
Qed.
Lemma preimages_schedule (st : LedgerState) (ch : ZyronChain) (key : string) (v : jsval units) :
  schedule_entry ch key v → key ∈ stateV2KeyPreimages (snapshot st) (governanceSnapshot ch).
Proof.
  intros Hk. unfold stateV2KeyPreimages, sort_texts. rewrite js_sort_perm, !elem_of_app. right. right. destruct Hk as [h vs Hl|h w Hl|h e Hl].
  - left. apply (elem_of_map_2 _ _ (h, vs)); [|done]. rewrite <-(js_sort_perm (λ a b, a.1 <=? b.1)). by apply sorted_entries_elem.
  - right. left. apply (elem_of_map_2 _ _ (h, w)); [|done]. rewrite <-(js_sort_perm (λ a b, a.1 <=? b.1)). by apply sorted_entries_elem.
  - right. right. apply (elem_of_map_2 _ _ (h, e.1, e.2)); [|done]. pose proof (oracle_entries_elem ch (h, e.1, e.2)) as Ho.
    rewrite js_sort_perm in Ho. apply Ho. cbn. by destruct e.
Qed.

Section continues.
Context `{CryptoLaws} (K : gset string) (Hapart : hashes_apart K).

Lemma loaded_at (genesis : GenesisConfig) (value : json) (anchor : TrustedAnchor) (ch : ZyronChain) (st : LedgerState) (version : Z) :
  loaded genesis value anchor ch st version → (∀ key, key ∈ stateV2KeyPreimages (snapshot st) (governanceSnapshot ch) → key ∈ K) →
  chain_at K genesis ch st.
Proof.
  intros [_ _ _ Hg Hi _ Hvers [Hv Hsup] Hw%checkpoint_ledger_wf Hroot Hst _] HK. pose proof (snapshot_in_range st Hw) as Hr.
  assert (ledger_in K st (chain_map ch)) as Hin.
  { apply ledger_in_of; [exact Hapart|done|done|..].
    - intros a Ha. by apply HK, preimages_account.
    - intros e He. by apply HK, preimages_epoch.
    - intros key v Hk. by eapply HK, preimages_schedule. }
  split; [done|done| | |by exists version].
  - split; [done|apply Hw|done|]. destruct (version =? 1); [by left|right]. destruct Hst as (Hn & s & Hs & Hb). split; [done|].
    exists s. split; [done|]. by apply rebuilt_refines.
  - exists version. split; [done|]. destruct (Z.eqb_spec version 1) as [-> | Hne].
    + destruct Hst as [_ ->]. done.
    + intros _. by apply assertSupported_cases in Hsup as [? | ?].
Qed.
End continues.

(** C13. A checkpoint is only as good as its anchor, and no better: a chain that
    [fromTrustedSnapshot] builds carries the pinned tip, whose header hashes to the
    pinned hash and whose body repeats no transaction; its schedules start at the
    genesis sets and never go back below protocol v6, every set in them is as large
    as this genesis demands; the state root of the tip is the root of a well-formed
    ledger, recomputed under the version in force; and above genesis the tip carries
    the signature of its leader and a quorum of the validators in force at its height. *)
Theorem checkpoint_sound `{Crypto} (genesis : GenesisConfig) (value : json) (anchor : TrustedAnchor) (ch : ZyronChain) :
  fromTrustedSnapshot genesis value anchor = Ok ch →
  snapshot_digest value = Ok (ta_snapshotSha256 anchor) ∧ blockHash (b_header (ch_tip ch)) = Ok (ta_tipHash anchor) ∧
  NoDup (tx_txid <$> b_transactions (ch_tip ch)) ∧ ch_genesis ch = genesis ∧ chain_inv ch ∧
  (∃ minimum, minimumValidatorCount genesis = Ok minimum ∧
    map_Forall (λ _ l, validator_set_wf l ∧ minimum ≤ zlen l ≤ 100) (ch_validatorSchedule ch)) ∧
  ∃ version st, protocolVersionAt ch (ch_height ch) = Ok version ∧ checkpoint_ledger value = Ok st ∧ ledger_wf st ∧
    root_of ch version st (h_stateRoot (b_header (ch_tip ch))) ∧
    (0 < ch_height ch → ∃ validators, validatorsAt ch (ch_height ch) = Ok validators ∧ certified validators version (ch_tip ch)).
Proof.
  intros (st & version & Hl)%load_sound. destruct Hl as [Hd [Hb _] Hnd Hg Hi (minimum & Hm & Hsets) _ [Hv _] Hw Hr _ Hf].
  split_and!; try done.
  - exists minimum. split; [done|]. intros k l Hk. by destruct (Hsets k l Hk) as [_ ?].
  - exists version, st. split_and!; try done. by eapply sw_ledger, checkpoint_ledger_wf.
Qed.

(** C14. A node that starts from a checkpoint agrees with the ledger from there on (the
    keys in use have different hashes): the checkpoint's tip commits to the ledger
    in the value, and after any blocks the node accepts on top, running their
    transactions from that ledger gives the ledger that every query answers from
    and that the new tip commits to. *)
Theorem checkpoint_continues `{CryptoLaws} (K : gset string) (genesis : GenesisConfig) (value : json) (anchor : TrustedAnchor)
    (ch ch' : ZyronChain) (st : LedgerState) (steps : list Step) :
  hashes_apart K → fromTrustedSnapshot genesis value anchor = Ok ch → checkpoint_ledger value = Ok st →
  (∀ key, key ∈ stateV2KeyPreimages (snapshot st) (governanceSnapshot ch) → key ∈ K) → history K ch ch' steps →
  rooted ch st ∧
  ∃ st', run_steps genesis steps st = (st', Ok ()) ∧ ledger_wf st' ∧ supply st' = supply st - burned_in steps ∧
    answers K ch' st' ∧ rooted ch' st'.
Proof.
  intros Hap (st1 & version & Hl)%load_sound Hst HK Hh. pose proof (ld_ledger _ _ _ _ _ _ Hl) as E. rewrite Hst in E. apply Ok_inj in E as <-.
  pose proof (loaded_at K Hap _ _ _ _ _ _ Hl HK) as Hat. split; [apply Hat|].
  destruct (history_from K Hap genesis ch ch' st steps Hat Hh) as (st' & Hrun & [_ _ Hc Hver Hroot] & Htx).
  exists st'. split_and!; [done|apply Hc| |by apply chain_answers|done].
  eapply run_supply; [apply Hat|done|done].
Qed.

(** ** The checkpoints of a small chain *)

Module CheckpointExample.
Import ChainExample.
#[local] Existing Instance ToyCrypto.toy.

Definition value_of (ch : ZyronChain) : json := match chain_snapshot ch with Ok s => chain_snapshot_json s | Throw _ => JNull end.
Definition anchor_of (ch : ZyronChain) (value : json) : TrustedAnchor :=
  mkAnchor (b_hash (ch_tip ch)) (match snapshot_digest value with Ok d => d | Throw _ => "" end).

Definition value0 : json := Eval vm_compute in value_of chain.
Definition anchor0 : TrustedAnchor := Eval vm_compute in anchor_of chain value0.
Definition value1 : json := Eval vm_compute in value_of chain1.
Definition anchor1 : TrustedAnchor := Eval vm_compute in anchor_of chain1 value1.

(** The checkpoints give back the chains they were taken from. *)
Lemma loads0 : fromTrustedSnapshot genesis value0 anchor0 = Ok chain.
Proof. vm_compute. reflexivity. Qed.
Lemma loads1 : fromTrustedSnapshot genesis value1 anchor1 = Ok chain1.
Proof. vm_compute. reflexivity. Qed.

Definition ledger0 : LedgerState := mkLedger {[alice := mkAccount 1000000 0; pool := mkAccount 5000 0]} ∅.

End CheckpointExample.

Lemma checkpoint_sound_witness :
  ch_height ChainExample.chain1 = 1 ∧
  ∃ validators, validatorsAt ChainExample.chain1 1 = Ok validators ∧ certified (H := ToyCrypto.toy) validators 1 (ch_tip ChainExample.chain1).
Proof.
  split; [vm_compute; reflexivity|].
  destruct (checkpoint_sound (H := ToyCrypto.toy) _ _ _ _ CheckpointExample.loads1) as (_ & _ & _ & _ & _ & _ & version & st & Hv & _ & _ & _ & Hf).
  assert (Ok version = Ok 1) as Ev by (rewrite <-Hv; vm_compute; reflexivity). apply Ok_inj in Ev as ->.
  apply Hf. vm_compute. reflexivity.
Defined.

Lemma checkpoint_continues_witness :
  ∃ st, run_steps (H := ToyCrypto.toy) ChainExample.genesis HistoryExample.steps CheckpointExample.ledger0 = (st, Ok ()) ∧
    chainBalance (H := ToyCrypto.toy) ChainExample.chain1 ChainExample.bob = Ok (balance st ChainExample.bob).
Proof.
  destruct (checkpoint_continues (H := ToyCrypto.toy) HistoryExample.K ChainExample.genesis CheckpointExample.value0 CheckpointExample.anchor0
    ChainExample.chain ChainExample.chain1 CheckpointExample.ledger0 HistoryExample.steps HistoryExample.history_apart CheckpointExample.loads0)
    as (_ & st & Hrun & _ & _ & Han & _).
  - vm_compute. reflexivity.
  - apply HistoryExample.in_keys. vm_compute. reflexivity.
  - exact HistoryExample.small_history.
  - exists st. split; [exact Hrun|]. apply (an_balance _ _ _ Han), (HistoryExample.in_keys [accountKey ChainExample.bob]);
      [vm_compute; reflexivity|by left].
Defined.
