(* ===== verification/LightClient.v ===== *)
(** The light client (l1/src/light-client.ts): it follows finalized headers from
    an anchor it trusts, and learns of the next validator set and protocol version
    by proofs against the state root of the header it follows. *)

From S2P Require Import Prelude Types Codec JsonText Crypto Transaction TxShape ShapeRead ByteText Ledger LedgerHistory SparseTree StateV2 StateV2Root Portable Block Genesis Governance ConsensusV6 BlockEnvelope Chain Selection ChainGovernance ChainHistory TrustedSnapshot Checkpoint.

Definition LIGHT_CLIENT_SUPPORTED_PROTOCOL_VERSIONS : list Z := [1; 2; 3; 5; 6].

Record LightClientAnchor := mkLightAnchor {
  lc_chainId : string;
  lc_genesisHash : string;
  lc_height : Z;
  lc_blockHash : string;
  lc_stateRoot : string;
  lc_timestampMs : Z;
  lc_protocolVersion : Z;
  lc_validators : list Validator }.

(** The anchor as a value, with the validators of the second argument: what
    [{ ...anchor, validators }] is. *)
Definition anchor_json_with (a : LightClientAnchor) (validators : json) : json :=
  JObj [("version", jint 1); ("chainId", JStr (lc_chainId a)); ("genesisHash", JStr (lc_genesisHash a));
        ("height", jint (lc_height a)); ("blockHash", JStr (lc_blockHash a)); ("stateRoot", JStr (lc_stateRoot a));
        ("timestampMs", jint (lc_timestampMs a)); ("protocolVersion", jint (lc_protocolVersion a)); ("validators", validators)].
Definition anchor_json (a : LightClientAnchor) : json := anchor_json_with a (JArr (map validator_json (lc_validators a))).

Definition ANCHOR_KEYS : list string :=
  ["version"; "chainId"; "genesisHash"; "height"; "blockHash"; "stateRoot"; "timestampMs"; "protocolVersion"; "validators"].
Definition PROOF_KEYS : list string :=
  ["version"; "header"; "hash"; "proposerPublicKey"; "signature"; "roundCertificate"; "attestations"].

Definition INVALID_ANCHOR : string := "Invalid light-client anchor".
Definition INVALID_PROOF : string := "Invalid light finality proof".

(** [value !== z] for a number [z]. *)
Definition is_int (v : json) (z : Z) : bool := bool_decide (as_int v = Some z).

(** [assertHexField(value, label)] *)
Definition assertHexField (v : json) (label : string) : res string :=
  s ← as_text v ("Invalid " +:+ label);
  assertHex s 32 label;;
  Ok s.

Definition lightClientUsesStateV2 (protocolVersion : Z) : bool :=
  (protocolVersion =? 2) || (protocolVersion =? 3) || (protocolVersion =? 5) || (protocolVersion =? 6).

Definition nextLightClientHeight (anchor : LightClientAnchor) (label : string) : res Z :=
  let height := lc_height anchor + 1 in
  throw_if (negb (isSafeInteger height)) ("Invalid light-client " +:+ label +:+ " height");;
  Ok height.

Section light.
Context `{Crypto}.

(** One validator of the anchor; the validators before it hold [seen]. *)
Definition light_validator (validators : list Validator) (v : json) : res (list Validator) :=
  candidate ← assertPlainRecord v "light-client validator";
  assertExactKeys candidate ["address"; "publicKey"] "light-client validator";;
  address ← as_text (get candidate "address") "Invalid light-client validator";
  publicKey ← as_text (get candidate "publicKey") "Invalid light-client validator";
  assertHex publicKey 64 "light-client validator public key";;
  throw_if (negb (String.eqb (addressFromPublicKey publicKey) address) || bool_decide (address ∈ v_address <$> validators))
    "Invalid or duplicate light-client validator";;
  assertValidPublicKey publicKey "Light-client validator public key";;
  Ok (validators ++ [mkValidator address publicKey]).

Definition validateLightClientAnchor (v : json) : res LightClientAnchor :=
  value ← assertPlainRecord v "light-client anchor";
  assertExactKeys value ANCHOR_KEYS "light-client anchor";;
  throw_if (negb (is_int (get value "version") 1)) INVALID_ANCHOR;;
  chainId ← as_text (get value "chainId") INVALID_ANCHOR;
  throw_if (negb (isChainId chainId)) INVALID_ANCHOR;;
  height ← safe_int (get value "height") (λ z, z <? 0) INVALID_ANCHOR;
  timestampMs ← safe_int (get value "timestampMs") (λ z, z <? 0) INVALID_ANCHOR;
  protocolVersion ← safe_int (get value "protocolVersion")
    (λ z, negb (bool_decide (z ∈ LIGHT_CLIENT_SUPPORTED_PROTOCOL_VERSIONS))) INVALID_ANCHOR;
  items ← as_array (get value "validators") (λ l, (zlen l <? 1) || (100 <? zlen l)) INVALID_ANCHOR;
  genesisHash ← assertHexField (get value "genesisHash") "light-client genesis hash";
  blockHash ← assertHexField (get value "blockHash") "light-client block hash";
  stateRoot ← assertHexField (get value "stateRoot") "light-client state root";
  validators ← res_fold light_validator [] items;
  Ok (mkLightAnchor chainId genesisHash height blockHash stateRoot timestampMs protocolVersion validators).

(** The fields of a proof and the block made of them. *)
Definition light_block (anchor : LightClientAnchor) (v : json) : res json :=
  proof ← assertPlainRecord v "light finality proof";
  let v6 := lc_protocolVersion anchor =? CONSENSUS_V6_PROTOCOL_VERSION in
  assertExactKeys proof (PROOF_KEYS ++ (if v6 then ["commitRound"] else [])) "light finality proof";;
  throw_if (negb (is_int (get proof "version") (if v6 then 2 else 1))) INVALID_PROOF;;
  hash ← as_text (get proof "hash") INVALID_PROOF;
  proposerPublicKey ← as_text (get proof "proposerPublicKey") INVALID_PROOF;
  signature ← as_text (get proof "signature") INVALID_PROOF;
  roundCertificate ← as_array (get proof "roundCertificate") (λ l, zlen (lc_validators anchor) <? zlen l) INVALID_PROOF;
  attestations ← as_array (get proof "attestations") (λ l, zlen (lc_validators anchor) <? zlen l) INVALID_PROOF;
  Ok (JObj ([("header", get proof "header"); ("transactions", JArr []); ("hash", JStr hash);
             ("proposerPublicKey", JStr proposerPublicKey); ("signature", JStr signature);
             ("roundCertificate", JArr roundCertificate); ("attestations", JArr attestations)] ++
            (if v6 then [("commitRound", get proof "commitRound")] else []))).

Definition verifyNextFinalizedHeader (anchorValue proofValue : json) : res LightClientAnchor :=
  anchor ← validateLightClientAnchor anchorValue;
  blockValue ← light_block anchor proofValue;
  block ← validateBlockShape blockValue;
  let header := b_header block in
  throw_if (negb (String.eqb (h_chainId header) (lc_chainId anchor))) "Light-client chain ID mismatch";;
  throw_if (negb (h_height header =? lc_height anchor + 1)) "Light-client height discontinuity";;
  throw_if (negb (String.eqb (h_previousHash header) (lc_blockHash anchor))) "Light-client previous hash mismatch";;
  throw_if (h_timestampMs header <=? lc_timestampMs anchor) "Light-client timestamp did not advance";;
  throw_if (negb (h_version header =? lc_protocolVersion anchor)) "Light-client protocol version mismatch";;
  hash ← blockHash header;
  throw_if (negb (String.eqb (b_hash block) hash)) "Light-client block hash mismatch";;
  proposer ← expectedValidator (lc_validators anchor) (h_height header) (h_round header);
  throw_if (negb (String.eqb (h_proposer header) (v_address proposer)) ||
            negb (bool_decide (b_proposerPublicKey block = Some (v_publicKey proposer)))) "Unexpected light-client proposer";;
  throw_if (negb (verifyForProtocol (h_version header) BLOCK_PROPOSAL_DOMAIN (header_json header)
                    (default "" (b_signature block)) (default "" (b_proposerPublicKey block)))) "Invalid light-client proposer signature";;
  (if lc_protocolVersion anchor =? CONSENSUS_V6_PROTOCOL_VERSION then
     throw_if (negb (zlen (b_roundCertificate block) =? 0)) "Light-client v6 proof must not carry a round certificate";;
     validateCommitCertificate block (lc_validators anchor)
   else
     validateRoundCertificate block (lc_validators anchor);;
     validateAttestationQuorum block (lc_validators anchor));;
  Ok (mkLightAnchor (lc_chainId anchor) (lc_genesisHash anchor) (h_height header) (b_hash block) (h_stateRoot header)
        (h_timestampMs header) (lc_protocolVersion anchor) (lc_validators anchor)).

(** A throw is [false]. *)
Definition verifyLightClientStateProof (anchorValue : json) (key : string) (value : jsval units) (proof : SparseMerkleProof) : bool :=
  match validateLightClientAnchor anchorValue with
  | Ok anchor => lightClientUsesStateV2 (lc_protocolVersion anchor) && verifySparseMerkleProof (lc_stateRoot anchor) key value proof
  | Throw _ => false
  end.

Definition activateNextValidatorSet (anchorValue validatorsValue : json) (proof : SparseMerkleProof) : res LightClientAnchor :=
  anchor ← validateLightClientAnchor anchorValue;
  throw_if (negb (lightClientUsesStateV2 (lc_protocolVersion anchor))) "Validator transition proof requires authenticated State v2";;
  as_array validatorsValue (λ _, false) "Invalid light-client validator transition";;
  candidate ← validateLightClientAnchor (anchor_json_with anchor validatorsValue);
  activationHeight ← nextLightClientHeight anchor "validator activation";
  throw_if (negb (verifySparseMerkleProof (lc_stateRoot anchor) (validatorScheduleKey activationHeight)
                    (validators_value (lc_validators candidate)) proof)) "Invalid light-client validator transition proof";;
  Ok candidate.

Definition activateNextProtocolVersion (anchorValue protocolVersionValue : json) (proof : SparseMerkleProof) : res LightClientAnchor :=
  anchor ← validateLightClientAnchor anchorValue;
  throw_if (negb (lightClientUsesStateV2 (lc_protocolVersion anchor))) "Protocol transition proof requires authenticated State v2";;
  protocolVersion ← safe_int protocolVersionValue (λ z, negb (bool_decide (z ∈ LIGHT_CLIENT_SUPPORTED_PROTOCOL_VERSIONS)))
    "Unsupported light-client protocol transition";
  activationHeight ← nextLightClientHeight anchor "protocol activation";
  throw_if (negb (verifySparseMerkleProof (lc_stateRoot anchor) (protocolScheduleKey activationHeight) (protocol_value protocolVersion) proof))
    "Invalid light-client protocol transition proof";;
  Ok (mkLightAnchor (lc_chainId anchor) (lc_genesisHash anchor) (lc_height anchor) (lc_blockHash anchor) (lc_stateRoot anchor)
        (lc_timestampMs anchor) protocolVersion (lc_validators anchor)).

End light.

(** ** Proofs against the root of a chain *)

Lemma tidy_bytes_inj (v w : json) :
  tidy (to_units v) 0 = true → tidy (to_units w) 0 = true → utf8 (value_text (to_units v)) = utf8 (value_text (to_units w)) → to_units v = to_units w.
Proof.
  intros Hv Hw E. destruct (tidy_text _ Hv) as [Ev Pv]. destruct (tidy_text _ Hw) as [Ew Pw].
  assert (∀ x, tidy (to_units x) 0 = true → byte_units (value_text (to_units x))) as Hb.
  { intros x Hx. destruct (tidy_normalize _ 0 Hx) as (Hn & _ & _ & Ho). unfold value_text, canonicalJson. rewrite Hn. cbn [mbind res_bind].
    destruct (stringify (to_units x)) as [t|] eqn:Es; [by eapply stringify_byte|constructor]. }
  apply utf8_byte_inj in E; [|by apply Hb..]. rewrite E, Pw in Pv. by apply Ok_inj in Pv.
Qed.

Lemma protocol_units_inj (x y : Z) : protocol_value x = protocol_value y → x = y.
Proof. unfold protocol_value. cbn. by intros [= ->]. Qed.

Section tracked.
Context `{CryptoLaws} (K : gset string) (Hapart : hashes_apart K).

(** A proof of a schedule entry shows an entry of the chain's schedules. *)
Lemma schedule_proof (inputs : list (list Z)) (ch : ZyronChain) (st : LedgerState) (m : gmap string (jsval units)) (s : SparseMerkleState) (key : string)
    (v : json) (proof : SparseMerkleProof) :
  collision_free inputs → proof_inputs key (to_units v) proof ++ content_inputs (content_of m) ⊆ inputs → mirrors st (chain_map ch) m →
  refines K st (chain_map ch) s → key ∈ K → other_key key → tidy (to_units v) 0 = true → v ≠ JNull →
  verifySparseMerkleProof (sparse_root s) key (to_units v) proof = true →
  ∃ w, schedule_entry ch key w ∧ utf8 (value_text w) = utf8 (value_text (to_units v)).
Proof.
  intros Hfree Hin Hm0 (_ & m' & (Hd & Ht & c & Hh & Hc) & Hm) HK Ho Hv Hnull Hp. rewrite (mirrors_unique _ _ _ _ Hm0 Hm) in Hin. clear m Hm0. rename m' into m.
  rewrite <-(hashed_is K m c Hapart Hd Hc) in Hin.
  destruct (proof_content inputs s c key _ proof Hfree Hin Hh Hp) as [[Hn _]|(t & t' & Et & Hu & Hl)].
  { by destruct v. }
  rewrite (hashed_lookup K Hapart m c key Hd Hc HK) in Hl. rewrite (mi_other _ _ _ Hm key Ho) in Hl.
  destruct (chain_map ch !! key) as [w|] eqn:Ew; [|done]. cbn in Hl. injection Hl as <-.
  exists w. split; [by apply chain_map_lookup|]. rewrite Hu. destruct (tidy_text _ Hv) as [E _]. rewrite Et in E. by apply Ok_inj in E as ->.
Qed.

Lemma validators_proof (ch : ZyronChain) (st : LedgerState) (m : gmap string (jsval units)) (s : SparseMerkleState) (h : Z) (l : list Validator)
    (proof : SparseMerkleProof) :
  mirrors st (chain_map ch) m → refines K st (chain_map ch) s → validatorScheduleKey h ∈ K →
  verifySparseMerkleProof (sparse_root s) (validatorScheduleKey h) (validators_value l) proof = true →
  ch_validatorSchedule ch !! h = Some l ∨
  collision_among (proof_inputs (validatorScheduleKey h) (validators_value l) proof ++ content_inputs (content_of m)).
Proof.
  intros Hm Hr HK Hp. destruct (free_or_collision (proof_inputs (validatorScheduleKey h) (validators_value l) proof ++ content_inputs (content_of m))) as [Hfree|];
    [left|by right].
  destruct (schedule_proof _ ch st m s _ (JObj [("validators", JArr (map validator_json l))]) proof Hfree ltac:(done) Hm Hr HK) as (w & Hw & Hu);
    [by apply other_validator|apply (tidy_validators l)|done|exact Hp|].
  remember (validatorScheduleKey h) as key eqn:Ek. destruct Hw as [h' vs Hl|h' x Hl|h' e Hl]; [|discriminate Ek..].
  apply validatorScheduleKey_inj in Ek as ->. apply tidy_bytes_inj in Hu; [|apply (tidy_validators vs)|apply (tidy_validators l)].
  rewrite Hl. f_equal. apply validators_units_inj. cbn [to_units map] in Hu |- *. by injection Hu as ->.
Qed.

Lemma protocol_proof (ch : ZyronChain) (st : LedgerState) (m : gmap string (jsval units)) (s : SparseMerkleState) (h version : Z) (proof : SparseMerkleProof) :
  mirrors st (chain_map ch) m → refines K st (chain_map ch) s → protocolScheduleKey h ∈ K → isSafeInteger version = true →
  map_Forall (λ _ v, isSafeInteger v = true) (ch_protocolSchedule ch) →
  verifySparseMerkleProof (sparse_root s) (protocolScheduleKey h) (protocol_value version) proof = true →
  ch_protocolSchedule ch !! h = Some version ∨
  collision_among (proof_inputs (protocolScheduleKey h) (protocol_value version) proof ++ content_inputs (content_of m)).
Proof.
  intros Hm Hr HK Hs Hall Hp.
  destruct (free_or_collision (proof_inputs (protocolScheduleKey h) (protocol_value version) proof ++ content_inputs (content_of m))) as [Hfree|]; [left|by right].
  destruct (schedule_proof _ ch st m s _ (JObj [("protocolVersion", jint version)]) proof Hfree ltac:(done) Hm Hr HK) as (w & Hw & Hu);
    [by apply other_protocol|by apply (tidy_protocol version)|done|exact Hp|].
  remember (protocolScheduleKey h) as key eqn:Ek. destruct Hw as [h' vs Hl|h' x Hl|h' e Hl]; [discriminate Ek| |discriminate Ek].
  apply protocolScheduleKey_inj in Ek as ->. apply tidy_bytes_inj in Hu; [|apply tidy_protocol; by eapply Hall|by apply (tidy_protocol version)].
  rewrite Hl. f_equal. by apply protocol_units_inj.
Qed.
End tracked.

(** ** What the light client accepts *)

Lemma hex_field_back (s t label : string) : assertHexField (JStr s) label = Ok t → t = s.
Proof. unfold assertHexField. intros E. apply res_bind_Ok in E as (x & Hx & E). apply Ok_inj in Hx as <-. apply res_bind_Ok in E as ([] & _ & E). by apply Ok_inj in E. Qed.

(** The anchor with other validators or another version. *)
Definition with_next (a : LightClientAnchor) (version : Z) (validators : list Validator) : LightClientAnchor :=
  mkLightAnchor (lc_chainId a) (lc_genesisHash a) (lc_height a) (lc_blockHash a) (lc_stateRoot a) (lc_timestampMs a) version validators.

Lemma anchor_back `{Crypto} (a c : LightClientAnchor) (validators : json) :
  validateLightClientAnchor (anchor_json_with a validators) = Ok c → c = with_next a (lc_protocolVersion a) (lc_validators c).
Proof.
  destruct a as [chainId gh h bh sr ts pv vs]. unfold validateLightClientAnchor, anchor_json_with.
  cbn [lc_chainId lc_genesisHash lc_height lc_blockHash lc_stateRoot lc_timestampMs lc_protocolVersion lc_validators]. intros E.
  apply res_bind_Ok in E as (value & Hv & E). apply Ok_inj in Hv as <-. cbn [get String.eqb Ascii.eqb Bool.eqb] in E.
  do 2 (apply res_bind_Ok in E as ([] & _ & E)). apply res_bind_Ok in E as (x1 & H1 & E). apply Ok_inj in H1 as <-.
  apply res_bind_Ok in E as ([] & _ & E). apply res_bind_Ok in E as (x2 & ->%safe_int_back & E). apply res_bind_Ok in E as (x3 & ->%safe_int_back & E).
  apply res_bind_Ok in E as (x4 & ->%safe_int_back & E). apply res_bind_Ok in E as (items & _ & E).
  apply res_bind_Ok in E as (x5 & ->%hex_field_back & E). apply res_bind_Ok in E as (x6 & ->%hex_field_back & E).
  apply res_bind_Ok in E as (x7 & ->%hex_field_back & E). apply res_bind_Ok in E as (l & _ & E). by apply Ok_inj in E as <-.
Qed.

(** C17. A light client cannot be led astray about what comes next.  Let the anchor
    be the tip of a chain (its height, state root and protocol version; the keys in
    use, those of the two entries for the next height among them, have different
    hashes) and let [m] be the values of the chain's ledger and schedules by key.
    The client accepts a validator set for the next height only if that is the set
    in force there on the chain, and a protocol version only if that is the one in
    force; nothing else of the anchor changes.  The only way out is a collision
    among the byte strings hashed to check this proof and to build the chain's own
    tree. *)
Theorem light_transition_sound `{CryptoLaws} (K : gset string) (genesis : GenesisConfig) (ch : ZyronChain) (st : LedgerState)
    (m : gmap string (jsval units)) (anchorValue : json) (a : LightClientAnchor) :
  hashes_apart K → chain_at K genesis ch st → mirrors st (chain_map ch) m → validateLightClientAnchor anchorValue = Ok a →
  lc_height a = ch_height ch → lc_stateRoot a = h_stateRoot (b_header (ch_tip ch)) → protocolVersionAt ch (ch_height ch) = Ok (lc_protocolVersion a) →
  validatorScheduleKey (ch_height ch + 1) ∈ K → protocolScheduleKey (ch_height ch + 1) ∈ K →
  (∀ validatorsValue proof a', activateNextValidatorSet anchorValue validatorsValue proof = Ok a' →
     a' = with_next a (lc_protocolVersion a) (lc_validators a') ∧
     (validatorsAt ch (ch_height ch + 1) = Ok (lc_validators a') ∨
      collision_among (proof_inputs (validatorScheduleKey (ch_height ch + 1)) (validators_value (lc_validators a')) proof ++
        content_inputs (content_of m)))) ∧
  (∀ versionValue proof a', activateNextProtocolVersion anchorValue versionValue proof = Ok a' →
     a' = with_next a (lc_protocolVersion a') (lc_validators a) ∧
     (protocolVersionAt ch (ch_height ch + 1) = Ok (lc_protocolVersion a') ∨
      collision_among (proof_inputs (protocolScheduleKey (ch_height ch + 1)) (protocol_value (lc_protocolVersion a')) proof ++
        content_inputs (content_of m)))).
Proof.
  intros Hap [[Hsch _ Hpos] _ Hc _ (version & Hv & Hroot)] Hm Ha Hh Hs Hpv Kv Kp. rewrite Hv in Hpv. apply Ok_inj in Hpv as ->.
  assert (lightClientUsesStateV2 (lc_protocolVersion a) = true → ∃ s, refines K st (chain_map ch) s ∧ sparse_root s = lc_stateRoot a) as Htree.
  { intros Hu. unfold root_of in Hroot. destruct (Z.eqb_spec (lc_protocolVersion a) 1) as [E|]; [by rewrite E in Hu|].
    destruct Hroot as (s & Hb & Hr). exists s. split; [|by rewrite Hr, Hs]. eapply rebuilt_refines; [done|apply Hc|apply Hc|done]. }
  assert (∀ label h, nextLightClientHeight a label = Ok h → h = ch_height ch + 1 ∧ negb (isSafeInteger h) || (h <? 0) = false) as Hnext.
  { intros label h E. unfold nextLightClientHeight in E. apply res_bind_Ok in E as ([] & Hsafe%throw_if_Ok & E). apply Ok_inj in E as <-.
    rewrite Hsafe, Hh. split; [done|]. apply Z.ltb_ge. lia. }
  split; intros value proof a' E.
  - unfold activateNextValidatorSet in E. rewrite Ha in E. cbn [mbind res_bind] in E. apply res_bind_Ok in E as ([] & Hu%throw_if_Ok & E).
    apply negb_false_iff, Htree in Hu as (s & Hr & Hroot'). apply res_bind_Ok in E as (items & _ & E). apply res_bind_Ok in E as (c & Hb%anchor_back & E).
    apply res_bind_Ok in E as (h & (-> & Hsafe)%Hnext & E). apply res_bind_Ok in E as ([] & Hp%throw_if_Ok & E). apply Ok_inj in E as <-. split; [done|].
    apply negb_false_iff in Hp. rewrite <-Hroot' in Hp. destruct (validators_proof K Hap ch st m s _ _ proof Hm Hr Kv Hp) as [Hl|?]; [left|by right].
    unfold validatorsAt. rewrite Hsafe. cbn [throw_if mbind res_bind]. f_equal. eapply entry_at_eq; [apply Hsch|lia|]. split; [exact Hl|]. split; [lia|by intros].
  - unfold activateNextProtocolVersion in E. rewrite Ha in E. cbn [mbind res_bind] in E. apply res_bind_Ok in E as ([] & Hu%throw_if_Ok & E).
    apply negb_false_iff, Htree in Hu as (s & Hr & Hroot'). apply res_bind_Ok in E as (v & Hvv & E). apply safe_int_Ok in Hvv as (_ & Hvs & _).
    apply res_bind_Ok in E as (h & (-> & Hsafe)%Hnext & E). apply res_bind_Ok in E as ([] & Hp%throw_if_Ok & E). apply Ok_inj in E as <-. split; [done|].
    apply negb_false_iff in Hp. rewrite <-Hroot' in Hp.
    destruct (protocol_proof K Hap ch st m s _ _ proof Hm Hr Kp Hvs (cl_versions _ _ _ Hc) Hp) as [Hl|?]; [left|by right].
    unfold protocolVersionAt. rewrite Hsafe. cbn [throw_if mbind res_bind lc_protocolVersion]. f_equal. eapply entry_at_eq; [apply Hsch|lia|]. split; [exact Hl|]. split; [lia|by intros].
Qed.

(** The block of a proof carries the signature of the proof. *)
Lemma structure_signature (value : list (string * jsval string)) (raw : RawBlock) :
  validateBlockStructure (JObj value) = Ok raw → nullable_text (get value "signature") "Invalid block signature" = Ok (b_signature raw).
Proof.
  unfold validateBlockStructure. intros E. apply res_bind_Ok in E as (x & Hx & E). apply Ok_inj in Hx as <-.
  do 3 (apply res_bind_Ok in E as (? & _ & E)). apply res_bind_Ok in E as ([] & _ & E). do 3 (apply res_bind_Ok in E as (? & _ & E)).
  do 3 (apply res_bind_Ok in E as ([] & _ & E)). apply res_bind_Ok in E as (? & _ & E). apply res_bind_Ok in E as (sig & Hs & E).
  apply res_bind_Ok in E as (? & _ & E). do 2 (apply res_bind_Ok in E as ([] & _ & E)). do 2 (apply res_bind_Ok in E as (? & _ & E)).
  by apply Ok_inj in E as <-.
Qed.

Lemma light_block_signed `{Crypto} (a : LightClientAnchor) (proofValue v : json) (block : Block) :
  light_block a proofValue = Ok v → validateBlockShape v = Ok block → ∃ signature, b_signature block = Some signature.
Proof.
  intros Hv Hb. unfold light_block in Hv. apply res_bind_Ok in Hv as (proof & _ & Hv). cbv zeta in Hv. do 2 (apply res_bind_Ok in Hv as ([] & _ & Hv)).
  do 2 (apply res_bind_Ok in Hv as (? & _ & Hv)). apply res_bind_Ok in Hv as (signature & _ & Hv). do 2 (apply res_bind_Ok in Hv as (? & _ & Hv)).
  apply Ok_inj in Hv as <-. unfold validateBlockShape in Hb. apply res_bind_Ok in Hb as (raw & Hraw%structure_signature & Hb).
  apply Ok_inj in Hraw. unfold validateBlockTransactions in Hb. apply res_bind_Ok in Hb as (txs & _ & Hb). apply Ok_inj in Hb as <-. by exists signature.
Qed.

(** C25. A header the light client accepts is one the chain's validators finalized:
    it extends the anchor by one block, hashes to the hash the client moves to, was
    signed by the leader of its round, and carries a quorum of the anchor's
    validators: of commit votes under protocol v6, of attestations before. *)
Theorem light_header_sound `{Crypto} (anchorValue proofValue : json) (a' : LightClientAnchor) :
  verifyNextFinalizedHeader anchorValue proofValue = Ok a' →
  ∃ a block, validateLightClientAnchor anchorValue = Ok a ∧ let header := b_header block in
    h_chainId header = lc_chainId a ∧ h_height header = lc_height a + 1 ∧ h_previousHash header = lc_blockHash a ∧
    h_version header = lc_protocolVersion a ∧ lc_timestampMs a < h_timestampMs header ∧ blockHash header = Ok (b_hash block) ∧
    certified (lc_validators a) (lc_protocolVersion a) block ∧
    a' = mkLightAnchor (lc_chainId a) (lc_genesisHash a) (h_height header) (b_hash block) (h_stateRoot header) (h_timestampMs header)
           (lc_protocolVersion a) (lc_validators a).
Proof.
  unfold verifyNextFinalizedHeader. intros E. apply res_bind_Ok in E as (a & Ha & E). apply res_bind_Ok in E as (v & Hv & E).
  apply res_bind_Ok in E as (block & Hb & E). cbv zeta in E. do 5 (apply res_bind_Ok in E as ([] & ?%throw_if_Ok & E)).
  apply res_bind_Ok in E as (hash & Hhash & E). apply res_bind_Ok in E as ([] & ?%throw_if_Ok & E). apply res_bind_Ok in E as (leader & Hl & E).
  do 2 (apply res_bind_Ok in E as ([] & ?%throw_if_Ok & E)). apply res_bind_Ok in E as ([] & Hc & E). apply Ok_inj in E as <-.
  breflect. exists a, block. destruct_and!. split; [done|]. cbv zeta.
  match goal with Hh : b_hash block = hash |- _ => rewrite <-Hh in Hhash end.
  match goal with Hv6 : h_version _ = lc_protocolVersion a |- _ => rename Hv6 into Hver end.
  split_and!; try done. split.
  - destruct (light_block_signed a proofValue v block Hv Hb) as [signature Hs]. exists leader, signature. split_and!; try done.
    rewrite <-Hver. match goal with Hp : b_proposerPublicKey block = _, Hsig : verifyForProtocol _ _ _ _ _ = true |- _ => by rewrite Hp, Hs in Hsig end.
  - unfold isConsensusV6. case_if; res_split; [by eapply commit_certificate_sound|by eapply attestation_quorum_sound].
Qed.

(** An anchor in its own terms is accepted as it is. *)
Record anchor_wf (a : LightClientAnchor) : Prop := {
  aw_chainId : isChainId (lc_chainId a) = true;
  aw_height : 0 ≤ lc_height a ≤ MAX_SAFE_INTEGER;
  aw_time : 0 ≤ lc_timestampMs a ≤ MAX_SAFE_INTEGER;
  aw_version : lc_protocolVersion a ∈ LIGHT_CLIENT_SUPPORTED_PROTOCOL_VERSIONS;
  aw_hashes : Forall (λ h, isLowerHexOf 64 h = true) [lc_genesisHash a; lc_blockHash a; lc_stateRoot a] }.

Lemma hex_field_run (s label : string) : isLowerHexOf 64 s = true → assertHexField (JStr s) label = Ok s.
Proof. intros Hs. unfold assertHexField, assertHex. cbn [as_text mbind res_bind]. change (2 * 32)%nat with 64%nat. by rewrite Hs. Qed.

Lemma anchor_reads `{Crypto} (a : LightClientAnchor) (l : list Validator) :
  anchor_wf a → 1 ≤ zlen l ≤ 100 → res_fold light_validator [] (map validator_json l) = Ok l →
  validateLightClientAnchor (anchor_json_with a (JArr (map validator_json l))) = Ok (with_next a (lc_protocolVersion a) l).
Proof.
  intros [Hc Hh Ht Hv Hx] Hl Hf. destruct a as [chainId gh h bh sr ts pv vs]. unfold validateLightClientAnchor, anchor_json_with, with_next.
  cbn [lc_chainId lc_genesisHash lc_height lc_blockHash lc_stateRoot lc_timestampMs lc_protocolVersion lc_validators] in *.
  assert (∀ z bad msg, isSafeInteger z = true → bad z = false → safe_int (jint z) bad msg = Ok z) as Hsafe.
  { intros z bad msg Hz Hb. by apply safe_int_Ok. }
  inversion Hx as [|? ? Hx1 Hx2]; subst. inversion Hx2 as [|? ? Hx3 Hx4]; subst. inversion Hx4 as [|? ? Hx5 _]; subst.
  set (items := map validator_json l) in *. cbn [assertPlainRecord mbind res_bind].
  set (fields := [("version", jint 1); _; _; _; _; _; _; _; _]).
  assert (assertExactKeys fields ANCHOR_KEYS "light-client anchor" = Ok ()) as -> by (vm_compute; reflexivity).
  unfold fields. cbn [get String.eqb Ascii.eqb Bool.eqb mbind res_bind]. clear fields.
  assert (is_int (jint 1) 1 = true) as -> by reflexivity. cbn [negb throw_if mbind res_bind as_text]. rewrite Hc. cbn [negb throw_if mbind res_bind].
  rewrite (Hsafe h) by (first [apply isSafeInteger_spec; lia | apply Z.ltb_ge; lia]). cbn [mbind res_bind].
  rewrite (Hsafe ts) by (first [apply isSafeInteger_spec; lia | apply Z.ltb_ge; lia]). cbn [mbind res_bind].
  rewrite (Hsafe pv); [|apply isSafeInteger_spec; unfold LIGHT_CLIENT_SUPPORTED_PROTOCOL_VERSIONS, MAX_SAFE_INTEGER in *; set_unfold; lia|by rewrite bool_decide_true].
  cbn [mbind res_bind]. assert (as_array (JArr items) (λ l, (zlen l <? 1) || (100 <? zlen l)) INVALID_ANCHOR = Ok items) as ->.
  { apply as_array_Ok. split; [done|]. unfold items. rewrite zlen_map. apply orb_false_iff. split; apply Z.ltb_ge; lia. }
  cbn [mbind res_bind]. rewrite !hex_field_run by done. cbn [mbind res_bind]. by rewrite Hf.
Qed.

(** ** A light client of a small chain *)

Module LightExample.
Import ChainExample BlockExample.
#[local] Existing Instance ToyCrypto.toy.

(** A chain at height 1 under protocol version 2, with another order of the
    validators due at height 2; its state is the tree [s]. *)
Definition swapped : list Validator := Eval vm_compute in rev validators.
Definition tip_with (stateRoot : string) : Block :=
  mkBlock (mkHeader 2 (g_chainId genesis) 1 0 ZERO_HASH 1700000000001 ZERO_HASH stateRoot alice) [] ZERO_HASH None None [] [] NoCommitRound.
Definition tracked (s : SparseMerkleState) : ZyronChain :=
  mkChain genesis (ch_genesisBlock chain) 0 (tip_with (sparse_root s)) 1
    {[0 := g_validators genesis; 2 := swapped]} {[0 := 1; 1 := 2]} ∅ None (Some s) (Some []).
Definition light (s : SparseMerkleState) : LightClientAnchor :=
  mkLightAnchor (g_chainId genesis) ZERO_HASH 1 ZERO_HASH (sparse_root s) 1700000000001 2 (g_validators genesis).

Definition keys : list string := Eval vm_compute in [validatorScheduleKey 0; validatorScheduleKey 2; protocolScheduleKey 0; protocolScheduleKey 1; protocolScheduleKey 2].
Definition K : gset string := list_to_set keys.
Lemma keys_apart : hashes_apart K.
Proof. apply list_apart; apply (bool_decide_unpack _); vm_compute; exact I. Qed.

Lemma tracked_versions (s : SparseMerkleState) : map_Forall (λ _ v, isSafeInteger v = true) (ch_protocolSchedule (tracked s)).
Proof. intros k v Hk. cbn in Hk. apply lookup_insert_Some in Hk as [[_ <-]|[_ [_ <-]%lookup_singleton_Some]]; reflexivity. Qed.

Lemma old_versions : no_downgrade {[0 := 1; 1 := 2]}.
Proof.
  intros k1 k2 v1 v2 L1 _ _ Hv. exfalso. apply lookup_insert_Some in L1 as [[_ <-]|[_ [_ <-]%lookup_singleton_Some]]; lia.
Qed.

(** The tree of the empty ledger with these schedules. *)
Lemma tracked_is : ∃ s, refines K emptyLedger (chain_map (tracked s)) s ∧ chain_at K genesis (tracked s) emptyLedger.
Proof.
  set (dummy := sparse_empty). assert (∀ s, governanceSnapshot (tracked s) = governanceSnapshot (tracked dummy)) as Hgov by done.
  assert (ledger_in K emptyLedger (chain_map (tracked dummy))) as Hin.
  { apply ledger_in_of; [exact keys_apart|intros a acc Ha; cbn in Ha; by rewrite lookup_empty in Ha|apply tracked_versions| | |].
    - intros a [acc Ha]. cbn in Ha. by rewrite lookup_empty in Ha.
    - intros e He. cbn in He. set_solver.
    - intros key v Hk. apply elem_of_list_to_set. destruct Hk as [h vs Hl|h x Hl|h e Hl]; cbn in Hl.
      + apply lookup_insert_Some in Hl as [[<- _]|[_ [<- _]%lookup_singleton_Some]]; apply (bool_decide_unpack _); vm_compute; exact I.
      + apply lookup_insert_Some in Hl as [[<- _]|[_ [<- _]%lookup_singleton_Some]]; apply (bool_decide_unpack _); vm_compute; exact I.
      + by rewrite lookup_empty in Hl. }
  destruct (ledger_in_keys K emptyLedger (chain_map (tracked dummy)) Hin (chain_map_other _)) as (Ka & Ke & Kg).
  destruct (rebuild_refines K keys_apart emptyLedger (governanceSnapshot (tracked dummy)) (proj1 Hin)
    (chain_governance_ok _ (tracked_versions dummy)) Ka Ke Kg) as (s & Hs & Hr).
  change (governance_map (governanceSnapshot (tracked dummy))) with (chain_map (tracked dummy)) in Hr.
  assert (chain_map (tracked s) = chain_map (tracked dummy)) as Hm by (unfold chain_map; by rewrite Hgov).
  exists s. rewrite Hm. split; [exact Hr|]. split.
  - split; [|done|done]. split; [done|done|apply old_versions].
  - done.
  - split; [rewrite Hm; exact Hin| |apply tracked_versions|right; split; [reflexivity|exists s; split; [reflexivity|rewrite Hm; exact Hr]]].
    split; [intros a acc Ha; cbn in Ha; by rewrite lookup_empty in Ha|]. vm_compute. discriminate.
  - exists 2. split; [vm_compute; reflexivity|]. intros _. reflexivity.
  - exists 2. split; [vm_compute; reflexivity|]. exists s. split; [rewrite Hgov; exact Hs|reflexivity].
Qed.

Lemma light_wf (s : SparseMerkleState) : isLowerHexOf 64 (sparse_root s) = true → anchor_wf (light s).
Proof. intros Hs. split; [reflexivity|vm_compute; split; discriminate..|apply (bool_decide_unpack _); reflexivity|]. repeat constructor; try exact Hs; reflexivity. Qed.

Lemma light_reads (s : SparseMerkleState) : isLowerHexOf 64 (sparse_root s) = true →
  validateLightClientAnchor (anchor_json (light s)) = Ok (light s) ∧
  validateLightClientAnchor (anchor_json_with (light s) (JArr (map validator_json swapped))) = Ok (with_next (light s) 2 swapped).
Proof.
  intros Hs. split.
  - apply (anchor_reads (light s) (g_validators genesis) (light_wf s Hs)); [vm_compute; split; discriminate|vm_compute; reflexivity].
  - apply (anchor_reads (light s) swapped (light_wf s Hs)); [vm_compute; split; discriminate|vm_compute; reflexivity].
Qed.

(** The entry of the next set has a proof, and the light client takes it. *)
Lemma light_activates (s : SparseMerkleState) :
  refines K emptyLedger (chain_map (tracked s)) s →
  isLowerHexOf 64 (sparse_root s) = true ∧
  ∃ proof, activateNextValidatorSet (anchor_json (light s)) (JArr (map validator_json swapped)) proof = Ok (with_next (light s) 2 swapped).
Proof.
  intros (_ & m & Hst & Hm). pose proof Hst as (Hd & _ & c & Hh & _).
  assert (isLowerHexOf 64 (sparse_root s) = true) as Hs.
  { rewrite (holds_root _ _ Hh). apply reference_hex. }
  split; [exact Hs|].
  destruct (prove_verifies s c (validatorScheduleKey 2) Hh) as (proof & _ & Hp); [discriminate|]. exists proof.
  assert (sparse_get s (validatorScheduleKey 2) = Ok (Some (validators_value swapped))) as Hg.
  { change (store_get s (validatorScheduleKey 2) = Ok (Some (validators_value swapped))).
    rewrite (store_get_law (StateStoreLaws := sparse_laws K keys_apart) s m _ Hst); [|apply elem_of_list_to_set; apply (bool_decide_unpack _); vm_compute; exact I].
    rewrite (mi_other _ _ _ Hm) by apply other_validator.
    assert (chain_map (tracked s) !! validatorScheduleKey 2 = Some (validators_value swapped)) as -> by (apply chain_map_lookup; constructor; vm_compute; reflexivity).
    reflexivity. }
  rewrite Hg in Hp. destruct Hp as [[Hp _]|(w & Hw & Hp)]; [discriminate Hp|]. apply Ok_inj in Hw as [= <-].
  destruct (light_reads s Hs) as [E1 E2]. unfold activateNextValidatorSet. rewrite E1. cbn [mbind res_bind].
  change (throw_if _ "Validator transition proof requires authenticated State v2") with (Ok ()). cbn [as_array throw_if mbind res_bind].
  rewrite E2. cbn [mbind res_bind]. change (nextLightClientHeight (light s) "validator activation") with (Ok 2). cbn [mbind res_bind].
  change (lc_stateRoot (light s)) with (sparse_root s). change (lc_validators (with_next (light s) 2 swapped)) with swapped.
  rewrite Hp by discriminate. reflexivity.
Qed.

(** The first block of the small chain, as a finality proof for the client at genesis. *)
Definition at_genesis : LightClientAnchor := Eval vm_compute in
  mkLightAnchor (g_chainId genesis) (genesisHash chain) 0 (genesisHash chain) (h_stateRoot (b_header (ch_tip chain))) 1700000000000 1 validators.
Definition first_proof : json := Eval vm_compute in
  JObj [("version", jint 1); ("header", header_json (b_header block1)); ("hash", JStr (b_hash block1));
        ("proposerPublicKey", nullable (b_proposerPublicKey block1)); ("signature", nullable (b_signature block1));
        ("roundCertificate", JArr []); ("attestations", JArr (map attestation_json (b_attestations block1)))].
Definition at_one : LightClientAnchor := Eval vm_compute in
  mkLightAnchor (g_chainId genesis) (genesisHash chain) 1 (b_hash block1) (h_stateRoot (b_header block1)) 1700000000001 1 validators.
Lemma follows : verifyNextFinalizedHeader (anchor_json at_genesis) first_proof = Ok at_one.
Proof. vm_compute. reflexivity. Qed.
End LightExample.

Lemma light_transition_sound_witness :
  ∃ (ch : ZyronChain) m proof, ch_height ch = 1 ∧ mirrors emptyLedger (chain_map ch) m ∧
    (validatorsAt ch 2 = Ok LightExample.swapped ∨
     collision_among (H := ToyCrypto.toy) (proof_inputs (H := ToyCrypto.toy) (validatorScheduleKey 2) (validators_value LightExample.swapped) proof ++
       content_inputs (H := ToyCrypto.toy) (content_of (H := ToyCrypto.toy) m))).
Proof.
  destruct LightExample.tracked_is as (s & Hr & Hat). exists (LightExample.tracked s). pose proof Hr as (_ & m & _ & Hm). exists m.
  destruct (LightExample.light_activates s Hr) as (Hs & proof & Hact). exists proof. split; [reflexivity|]. split; [exact Hm|].
  destruct (LightExample.light_reads s Hs) as [Hread _].
  destruct (light_transition_sound (H := ToyCrypto.toy) LightExample.K ChainExample.genesis (LightExample.tracked s) emptyLedger
    m (anchor_json (LightExample.light s)) (LightExample.light s) LightExample.keys_apart Hat Hm Hread) as [Hv _].
  - reflexivity.
  - reflexivity.
  - vm_compute. reflexivity.
  - apply elem_of_list_to_set. apply (bool_decide_unpack _). vm_compute. exact I.
  - apply elem_of_list_to_set. apply (bool_decide_unpack _). vm_compute. exact I.
  - exact (proj2 (Hv _ _ _ Hact)).
Defined.

Lemma light_header_sound_witness :
  ∃ a block, validateLightClientAnchor (H := ToyCrypto.toy) (anchor_json LightExample.at_genesis) = Ok a ∧ h_height (b_header block) = lc_height a + 1 ∧
    certified (H := ToyCrypto.toy) (lc_validators a) (lc_protocolVersion a) block.
Proof.
  destruct (light_header_sound (H := ToyCrypto.toy) _ _ _ LightExample.follows) as (a & block & Ha & _ & Hh & _ & _ & _ & _ & Hc & _).
  exists a, block. exact (conj Ha (conj Hh Hc)).
Defined.
