(* ===== verification/AnchoredStream.v ===== *)
(** State transfer (l1/src/state-v2-portable.ts, the parsing of records and key
    preimages; l1/src/state-v2.ts, [StateV2AnchoredRecordStream] and
    [StateV2AnchoredKeyPreimageStream]; l1/src/p2p-state.ts, the two download
    loops): untrusted chunks checked against a state root as they arrive. *)

From S2P Require Import Prelude Types Codec JsonText Crypto SparseTree StateV2 Portable.

Definition MAX_PORTABLE_LEAF_VALUE_BYTES : Z := 64 * 1024.
Definition MAX_STATE_RECORDS_PER_CHUNK : Z := 128.
Definition MAX_STATE_KEYS_PER_CHUNK : Z := 1024.

(** ** Records and key preimages of a peer *)

(** [isHash(value)], with the text it narrows to. *)
Definition portable_hash (value : jsval units) : option string :=
  match value with JStr t => if isLowerHexUnits 64 t then Some (text_of_units t) else None | _ => None end.
Definition portable_nullable_hash (value : jsval units) : option (option string) :=
  match value with JNull => Some None | _ => Some <$> portable_hash value end.

(** [typeof value.valueJson === "string"] within the byte limit. *)
Definition portable_leaf_text (value : jsval units) : option units :=
  match value with JStr t => if MAX_PORTABLE_LEAF_VALUE_BYTES <? zlen (utf8 t) then None else Some t | _ => None end.

Definition is_word (value : jsval units) (word : string) : bool :=
  match value with JStr t => bool_decide (t = lit word) | _ => false end.

Definition parseNodeRecord (value : jsval units) : res StateV2NodeRecord :=
  match value with
  | JObj _ =>
    if is_word (member value "kind") "leaf" then
      assertExactPortableRecord value ["kind"; "hash"; "keyHash"; "valueHash"; "valueJson"] "portable State v2 leaf";;
      match portable_hash (member value "hash"), portable_hash (member value "keyHash"),
            portable_hash (member value "valueHash"), portable_leaf_text (member value "valueJson") with
      | Some hash, Some keyHash, Some valueHash, Some valueJson => Ok (LeafRecord hash keyHash valueHash valueJson)
      | _, _, _, _ => Throw "Invalid portable State v2 leaf"
      end
    else if is_word (member value "kind") "branch" then
      assertExactPortableRecord value ["kind"; "hash"; "leftHash"; "rightHash"] "portable State v2 branch";;
      match portable_hash (member value "hash"), portable_nullable_hash (member value "leftHash"),
            portable_nullable_hash (member value "rightHash") with
      | Some hash, Some leftHash, Some rightHash => Ok (BranchRecord hash leftHash rightHash)
      | _, _, _ => Throw "Invalid portable State v2 branch"
      end
    else Throw "Invalid portable State v2 node kind"
  | _ => Throw "Invalid portable State v2 node"
  end.

(** A failure of [JSON.parse] or of the canonical encoding has its own message. *)
Definition rename_error {A} (r : res A) (msg : string) : res A := match r with Ok a => Ok a | Throw _ => Throw msg end.

Definition parseCanonicalLeafValueJson (valueJson : units) : res (jsval units) :=
  parsed ← rename_error (JSON_parse valueJson) "Invalid portable State v2 leaf value";
  canonical ← rename_error (canonicalJson parsed) "Invalid portable State v2 leaf value";
  throw_if (negb (bool_decide (canonical = Some valueJson))) "Noncanonical portable State v2 leaf value";;
  Ok parsed.

(** [assertStateV2SemanticKeyShape] on any text.  It looks for prefixes and digits
    only, so that a character above a byte decides as a question mark does. *)
Definition shape_text (t : units) : string := text_of_units (map (λ u, if u <? 256 then u else 63) t).

Definition parsePortableStateKeyPreimage (key : jsval units) : res units :=
  match key with
  | JStr t =>
    throw_if (Nat.ltb (length t) 1 || Nat.ltb 256 (length t)) "Invalid portable State v2 key preimage";;
    assertStateV2SemanticKeyShape (shape_text t);;
    Ok t
  | _ => Throw "Invalid portable State v2 key preimage"
  end.

(** [items.map(parse)], or a loop of [parse] over [items]. *)
Fixpoint res_map {A B} (f : A → res B) (l : list A) : res (list B) :=
  match l with
  | [] => Ok []
  | x :: l' => y ← f x; rest ← res_map f l'; Ok (y :: rest)
  end.

Lemma res_map_Ok {A B} (f : A → res B) (l : list A) (k : list B) : res_map f l = Ok k → Forall2 (λ x y, f x = Ok y) l k.
Proof.
  revert k. induction l as [|x l IH]; intros k E; cbn [res_map] in E; res_split; subst; constructor; [done|by apply IH].
Qed.

Section stream.
Context `{Crypto}.

Definition assertStateV2NodeRecordSelfConsistent (record : StateV2NodeRecord) : res unit :=
  match record with
  | LeafRecord _ _ valueHash valueJson =>
    throw_if (negb (String.eqb (valueHashOf valueJson) valueHash)) "Portable State v2 leaf value hash mismatch"
  | BranchRecord hash (Some leftHash) (Some rightHash) =>
    throw_if (negb (String.eqb (branchHash leftHash rightHash) hash)) "Portable State v2 branch hash mismatch"
  | BranchRecord _ _ _ => Ok ()
  end.

Definition parsePortableStateNodeRecord (value : jsval units) : res StateV2NodeRecord :=
  record ← parseNodeRecord value;
  assertStateV2NodeRecordSelfConsistent record;;
  match record with
  | LeafRecord _ _ _ valueJson => parsed ← parseCanonicalLeafValueJson valueJson; assertStateV2LeafValueSchema parsed
  | BranchRecord _ _ _ => Ok ()
  end;;
  Ok record.

(** ** The anchored streams

    [expected] is the stack of hashes with their depths, the top first. *)
Record AnchoredRecordStream := mkAnchored {
  as_expected : list (string * nat);
  as_accepted : Z;
  as_leafKeyHashes : gset string;
  as_finished : bool }.

Definition new_record_stream (root : string) : res AnchoredRecordStream :=
  throw_if (negb (isLowerHexOf 64 root)) "Invalid State v2 root";;
  Ok (mkAnchored [(root, 0%nat)] 0 ∅ false).

Definition RECORD_MISMATCH : string := "Portable State v2 record does not match the anchored state root".

Definition push_child (link : NodeLink) (depth : nat) (stack : list (string * nat)) : list (string * nat) :=
  match linkHash link with Some h => (h, depth) :: stack | None => stack end.
(** [node.left && node.right && node.left.hash === node.right.hash] *)
Definition same_children (left right : NodeLink) : bool :=
  match linkHash left, linkHash right with Some l, Some r => String.eqb l r | _, _ => false end.

(** The body of [accept], inside [try]. *)
Definition accept_body (record : StateV2NodeRecord) : meth AnchoredRecordStream unit :=
  s ← m_get;
  match as_expected s with
  | [] => m_lift (Throw "record is not part of the anchored tree")
  | (hash, depth) :: rest =>
    m_modify (λ s, mkAnchored rest (as_accepted s) (as_leafKeyHashes s) (as_finished s));;
    m_throw_if (negb (String.eqb (recordHash record) hash)) "record is not the next node of the anchored tree in reverse post-order";;
    node ← m_lift (nodeFromRecord record depth);
    match node, record with
    | BranchNode _ l r, _ =>
      m_throw_if (bool_decide (linkHash l = None) && bool_decide (linkHash r = None)) "empty branch";;
      m_throw_if (same_children l r) "duplicate child hash";;
      m_modify (λ s, mkAnchored (push_child r (S depth) (push_child l (S depth) (as_expected s)))
        (as_accepted s) (as_leafKeyHashes s) (as_finished s))
    | _, LeafRecord _ keyHash _ _ =>
      s ← m_get;
      m_throw_if (bool_decide (keyHash ∈ as_leafKeyHashes s)) "duplicate leaf key hash";;
      m_modify (λ s, mkAnchored (as_expected s) (as_accepted s) ({[keyHash]} ∪ as_leafKeyHashes s) (as_finished s))
    | _, _ => mret ()
    end;;
    m_modify (λ s, mkAnchored (as_expected s) (as_accepted s + 1) (as_leafKeyHashes s) (as_finished s))
  end.

(** [accept(record)]: every failure is reported as the same mismatch. *)
Definition accept (record : StateV2NodeRecord) : meth AnchoredRecordStream unit := λ s,
  let '(s', r) := accept_body record s in (s', rename_error r RECORD_MISMATCH).

Definition outstandingCount (s : AnchoredRecordStream) : nat := length (as_expected s).

Definition finish_records (total : Z) : meth AnchoredRecordStream unit :=
  s ← m_get;
  m_throw_if (negb (Nat.eqb (outstandingCount s) 0) || negb (as_accepted s =? total)) RECORD_MISMATCH;;
  m_modify (λ s, mkAnchored (as_expected s) (as_accepted s) (as_leafKeyHashes s) true).

(** The key stream consumes the set of the record stream: its state is its own
    counters and the stream that made it. *)
Record KeyPreimageStream := mkKeyStream { ks_records : AnchoredRecordStream; ks_total : Z; ks_accepted : Z }.

Definition keyPreimageStream (s : AnchoredRecordStream) : res KeyPreimageStream :=
  throw_if (negb (as_finished s)) "Anchored State v2 records are incomplete";;
  Ok (mkKeyStream (mkAnchored (as_expected s) (as_accepted s) (as_leafKeyHashes s) false) (Z.of_nat (size (as_leafKeyHashes s))) 0).

(** [stateV2KeyHash] on any text. *)
Definition key_hash (key : units) : res string :=
  throw_if (Nat.ltb (length key) 1 || Nat.ltb 256 (length key)) "Invalid State v2 key";;
  Ok (hashWithDomain KEY_DOMAIN [utf8 key]).

Definition accept_key (key : units) : meth KeyPreimageStream unit :=
  s ← m_get;
  hash ← m_lift (key_hash key);
  let remaining := as_leafKeyHashes (ks_records s) in
  m_throw_if (negb (bool_decide (hash ∈ remaining))) "State v2 key preimage is not committed by the anchored state root (or is a duplicate)";;
  m_modify (λ s, let r := ks_records s in
    mkKeyStream (mkAnchored (as_expected r) (as_accepted r) (remaining ∖ {[hash]}) (as_finished r)) (ks_total s) (ks_accepted s + 1)).

Definition finish_keys : meth KeyPreimageStream unit :=
  s ← m_get;
  m_throw_if (negb (Nat.eqb (size (as_leafKeyHashes (ks_records s))) 0) || negb (ks_accepted s =? ks_total s))
    "State v2 key preimages missing for anchored leaves".

(** ** The download loops

    [replies] are the [items] of the chunks that arrive, each after its envelope was
    checked; [parseChunk] wants exactly the number of items asked for and parses
    each of them. *)

Definition chunk_items {A} (parse : jsval units → res A) (limit : Z) (items : list (jsval units)) : res (list A) :=
  throw_if (negb (zlen items =? limit)) "Invalid state chunk";;
  res_map parse items.

Definition acceptFromEnd (items : list StateV2NodeRecord) : meth AnchoredRecordStream unit := m_for accept (rev items).

Definition TRANSFER_FAILED : string := "State transfer failed after bounded retries".

(** [start] counts down from [manifest.recordCount]; [chunks] has the last one
    fetched first, which is the order the records are put together in. *)
Fixpoint fetch_records (replies : list (list (jsval units))) (start : Z) (chunks : list (list StateV2NodeRecord))
    : meth AnchoredRecordStream (list (list StateV2NodeRecord)) :=
  if start <=? 0 then mret chunks else
  match replies with
  | [] => m_lift (Throw TRANSFER_FAILED)
  | items :: replies' =>
    records ← m_lift (chunk_items parsePortableStateNodeRecord (Z.min MAX_STATE_RECORDS_PER_CHUNK start) items);
    acceptFromEnd records;;
    fetch_records replies' (start - zlen records) (records :: chunks)
  end.

Fixpoint fetch_keys (replies : list (list (jsval units))) (keyCount start : Z) (keys : list units) : meth KeyPreimageStream (list units) :=
  if keyCount <=? start then mret keys else
  match replies with
  | [] => m_lift (Throw TRANSFER_FAILED)
  | items :: replies' =>
    chunk ← m_lift (chunk_items parsePortableStateKeyPreimage (Z.min MAX_STATE_KEYS_PER_CHUNK (keyCount - start)) items);
    m_for accept_key chunk;;
    fetch_keys replies' keyCount (start + zlen chunk) (keys ++ chunk)
  end.

(** The records with the stream finished. *)
Definition download_records (replies : list (list (jsval units))) (recordCount : Z) : meth AnchoredRecordStream (list StateV2NodeRecord) :=
  chunks ← fetch_records replies recordCount [];
  finish_records recordCount;;
  mret (concat chunks).

(** The transfer of [fetchTrustedPortableStateWithinLimits], from the manifest to
    the records and keys it puts together, with nothing staged on disk. *)
Definition anchored_transfer (stateRoot : string) (recordCount keyCount : Z) (recordReplies keyReplies : list (list (jsval units)))
    : res (list StateV2NodeRecord * list units) :=
  s ← new_record_stream stateRoot;
  let '(s, fetched) := download_records recordReplies recordCount s in
  records ← fetched;
  ks ← keyPreimageStream s;
  throw_if (negb (keyCount =? ks_total ks)) "State manifest key count does not match the anchored state root";;
  let '(ks, fetched) := fetch_keys keyReplies keyCount 0 [] ks in
  keys ← fetched;
  throw_if (negb (zlen records =? recordCount) || negb (zlen keys =? keyCount)) "State transfer chunk counts changed during transfer";;
  (finish_keys ks).2;;
  Ok (records, keys).

(** ** One record *)

Definition pushed (child : option string) (depth : nat) (stack : list (string * nat)) : list (string * nat) :=
  match child with Some h => (h, depth) :: stack | None => stack end.

(** What an accepted record does: a leaf takes the top of the stack away, a branch
    replaces it by its children, the right one on top. *)
Inductive accepted_step : StateV2NodeRecord → AnchoredRecordStream → AnchoredRecordStream → Prop :=
| accepted_leaf h k t d rest n keys fin :
    hex64 k → h = leaf_climb (hexBytes k) (leafHash k (valueHashOf t)) (TREE_DEPTH - d) d → k ∉ keys →
    accepted_step (LeafRecord h k (valueHashOf t) t) (mkAnchored ((h, d) :: rest) n keys fin)
      (mkAnchored rest (n + 1) ({[k]} ∪ keys) fin)
| accepted_branch h l r d rest n keys fin :
    (d < TREE_DEPTH)%nat → h = branchHash (default (EMPTY_HASHES (S d)) l) (default (EMPTY_HASHES (S d)) r) →
    accepted_step (BranchRecord h l r) (mkAnchored ((h, d) :: rest) n keys fin)
      (mkAnchored (pushed r (S d) (pushed l (S d) rest)) (n + 1) keys fin).

Lemma leaf_record_node (h k v : string) (t : units) (d : nat) (node : NodeLink) :
  nodeFromRecord (LeafRecord h k v t) d = Ok node →
  hex64 k ∧ v = valueHashOf t ∧ node = leafNodeAtDepth k v t d ∧ linkHash node = Some h.
Proof.
  unfold nodeFromRecord. intros E. res_split. subst. breflect.
  repeat match goal with X : _ ∧ _ |- _ => destruct X end. split_and!; try done. by apply eq_sym, String.eqb_eq.
Qed.

Lemma branch_record_node (h : string) (l r : option string) (d : nat) (node : NodeLink) :
  nodeFromRecord (BranchRecord h l r) d = Ok node →
  (d < TREE_DEPTH)%nat ∧ node = branchNode (from_option NodeRef Undef l) (from_option NodeRef Undef r) d ∧ linkHash node = Some h.
Proof.
  unfold nodeFromRecord. intros E. res_split. subst. breflect. split_and!; [by apply Nat.leb_gt|done|done].
Qed.

Lemma link_of_hash (o : option string) : linkHash (from_option NodeRef Undef o) = o.
Proof. by destruct o. Qed.

Lemma rename_Ok {A} (r : res A) (msg : string) (a : A) : rename_error r msg = Ok a → r = Ok a.
Proof. by destruct r. Qed.

Lemma accept_Ok (record : StateV2NodeRecord) (s s' : AnchoredRecordStream) :
  accept record s = (s', Ok ()) → accepted_step record s s'.
Proof.
  unfold accept. destruct (accept_body record s) as [s1 r1] eqn:E. intros [= -> Hr]. apply rename_Ok in Hr as ->.
  destruct s as [[|[h d] rest] n keys fin]; [done|]. unfold accept_body in E. apply meth_bind_Ok in E as (s0 & s2 & [= <- <-] & E). cbn [as_expected] in E.
  apply meth_bind_Ok in E as (s1 & [] & [= <-] & E). cbn [as_accepted as_leafKeyHashes as_finished] in E.
  apply meth_bind_Ok in E as (s1 & [] & E1 & E). apply m_throw_if_Ok in E1 as [-> Hh]. apply negb_false_iff, String.eqb_eq in Hh.
  apply meth_bind_Ok in E as (s1 & node & E1 & E). apply m_lift_Ok in E1 as [-> Hn].
  destruct record as [h' k v t|h' l r]; cbn [recordHash] in Hh; subst h'.
  - apply leaf_record_node in Hn as (Hk & -> & -> & Hlink). cbn [leafNodeAtDepth] in E, Hlink.
    apply meth_bind_Ok in E as (s1 & [] & E1 & E). apply meth_bind_Ok in E1 as (s2 & s3 & [= <- <-] & E1).
    apply meth_bind_Ok in E1 as (s2 & [] & Ek & E1). apply m_throw_if_Ok in Ek as [-> Hnew]. apply bool_decide_eq_false in Hnew.
    injection E1 as <-. injection E as <-. apply Some_inj in Hlink. by constructor.
  - apply branch_record_node in Hn as (Hd & -> & Hlink). cbn [branchNode linkHash] in E, Hlink. rewrite !link_of_hash in Hlink.
    apply meth_bind_Ok in E as (s1 & [] & E1 & E). apply meth_bind_Ok in E1 as (s2 & [] & Ek & E1). apply m_throw_if_Ok in Ek as [-> _].
    apply meth_bind_Ok in E1 as (s2 & [] & Ek & E1). apply m_throw_if_Ok in Ek as [-> _]. injection E1 as <-. injection E as <-.
    apply Some_inj in Hlink. unfold push_child. cbn [as_expected as_accepted as_leafKeyHashes as_finished]. rewrite !link_of_hash. by constructor.
Qed.

Lemma accept_expected (record : StateV2NodeRecord) (s s' : AnchoredRecordStream) (e : string) :
  accept record s = (s', Throw e) → as_expected s' = tail (as_expected s).
Proof.
  unfold accept. destruct (accept_body record s) as [s1 r1] eqn:E. intros [= -> Hr]. destruct r1 as [|e1]; [done|]. clear Hr.
  destruct s as [[|[h d] rest] n keys fin]; [by injection E as <-|]. unfold accept_body in E. rewrite meth_bind_run in E. cbn [m_get as_expected] in E.
  rewrite !meth_bind_run in E. cbn [m_modify as_accepted as_leafKeyHashes as_finished] in E. unfold m_throw_if, m_lift in E.
  destruct (throw_if _ _) as [[]|]; [|by injection E as <-]. rewrite !meth_bind_run in E.
  destruct (nodeFromRecord record d) as [node|]; [|by injection E as <-].
  destruct node as [|? ? ? ?|? l r|?], record as [? k ? ?|? ? ?]; rewrite ?meth_bind_run in E; cbn [m_get m_modify] in E; try discriminate E;
    unfold m_throw_if, m_lift in E;
    repeat (destruct (throw_if _ _) as [[]|]; [rewrite ?meth_bind_run in E|by injection E as <-]); discriminate E.
Qed.

(** ** The stack stays below the depth of the tree *)

(** Every entry has at most as many below it as its depth. *)
Fixpoint descends (stack : list (string * nat)) : Prop :=
  match stack with
  | [] => True
  | (_, d) :: rest => (d ≤ TREE_DEPTH)%nat ∧ (length rest ≤ d)%nat ∧ descends rest
  end.

Lemma descends_length (stack : list (string * nat)) : descends stack → (length stack ≤ S TREE_DEPTH)%nat.
Proof. destruct stack as [|[h d] rest]; cbn [descends length]; lia. Qed.

Lemma descends_step (record : StateV2NodeRecord) (s s' : AnchoredRecordStream) :
  accepted_step record s s' → descends (as_expected s) → descends (as_expected s').
Proof.
  destruct 1 as [|h l r d rest n keys fin Hd _]; cbn [as_expected descends].
  - by intros (_ & _ & ?).
  - intros (_ & Hl & Hrest). destruct l, r; cbn [pushed descends length]; repeat split; try done; lia.
Qed.

Lemma descends_accept (record : StateV2NodeRecord) (s : AnchoredRecordStream) :
  descends (as_expected s) → descends (as_expected (accept record s).1).
Proof.
  intros Hd. destruct (accept record s) as [s' [[]|e]] eqn:E; cbn [fst].
  - apply accept_Ok in E. by eapply descends_step.
  - rewrite (accept_expected _ _ _ _ E). destruct (as_expected s) as [|[h d] rest]; [done|]. apply Hd.
Qed.

(** The stack of an anchored stream never grows beyond the depth of the tree:
    whatever records a peer sends, in whatever order, and however many of them are
    refused, at most 257 hashes are outstanding. *)
Theorem anchored_stack_bounded (root : string) (s : AnchoredRecordStream) (records : list StateV2NodeRecord) :
  new_record_stream root = Ok s →
  (outstandingCount (foldl (λ s record, (accept record s).1) s records) ≤ S TREE_DEPTH)%nat.
Proof.
  unfold new_record_stream. intros E. res_split. subst s. apply descends_length.
  assert (∀ s, descends (as_expected s) → descends (as_expected (foldl (λ s record, (accept record s).1) s records))) as Hall.
  { induction records as [|record records IH]; intros s Hs; [done|]. by apply IH, descends_accept. }
  apply Hall. split_and!; [apply Nat.le_0_l|done|done].
Qed.

End stream.

Section sound.
Context `{CryptoLaws}.

(** ** What the accepted records say

    The stack stands for the parts of the committed content that have not arrived:
    every entry is the hash of one part at its depth. *)

Definition bytes_at (m : content) (k : string) : option (list Z) := utf8 <$> m !! k.

(** The byte strings a record hashes to, at whatever depth it is taken. *)
Definition record_inputs (record : StateV2NodeRecord) : list (list Z) :=
  match record with
  | LeafRecord _ k _ t => content_inputs {[k := t]}
  | BranchRecord _ l r => (λ d, branch_input (default (EMPTY_HASHES (S d)) l) (default (EMPTY_HASHES (S d)) r)) <$> seq 0 TREE_DEPTH
  end.

Section commit.
Context (inputs : list (list Z)) (Hfree : collision_free inputs).

Definition entry_stands (e : string * nat) (part : content) : Prop :=
  (e.2 ≤ TREE_DEPTH)%nat ∧ hex_keys part ∧ agree e.2 part ∧ covers inputs (TREE_DEPTH - e.2) e.2 part ∧
  e.1 = reference_root (TREE_DEPTH - e.2) e.2 part.

Definition leaf_in (records : list StateV2NodeRecord) (k : string) (b : list Z) : Prop :=
  ∃ h v t, LeafRecord h k v t ∈ records ∧ b = utf8 t.

Definition covered (m : content) (records : list StateV2NodeRecord) (s : AnchoredRecordStream) : Prop :=
  ∃ parts, Forall2 entry_stands (as_expected s) parts ∧
    (∀ k b, bytes_at m k = Some b ↔ leaf_in records k b ∨ ∃ part, part ∈ parts ∧ bytes_at part k = Some b) ∧
    (∀ k, k ∈ as_leafKeyHashes s ↔ ∃ b, leaf_in records k b).

(** The hashes of a parsed branch are hashes. *)
Definition record_hex (record : StateV2NodeRecord) : Prop :=
  match record with
  | LeafRecord _ _ _ _ => True
  | BranchRecord _ l r => (∀ h, l = Some h → hex64 h) ∧ (∀ h, r = Some h → hex64 h)
  end.

Lemma hex_empty : hex_keys (∅ : content).
Proof. intros k []%lookup_empty_is_Some. Qed.
Lemma agree_empty (d : nat) : agree d (∅ : content).
Proof. intros k1 k2 []%lookup_empty_is_Some. Qed.

Lemma covers_singleton (d : nat) (k : string) (t : units) :
  (d ≤ TREE_DEPTH)%nat → content_inputs {[k := t]} ⊆ inputs → covers inputs (TREE_DEPTH - d) d {[k := t]}.
Proof.
  intros Hd Hc%covers_content. induction d as [|d IH]; [by rewrite Nat.sub_0_r|].
  assert (TREE_DEPTH - d = S (TREE_DEPTH - S d))%nat as E by lia. specialize (IH ltac:(lia)). rewrite E in IH.
  apply (covers_pick _ _ _ _ k) in IH; [|lia]. by rewrite side_singleton, decide_True in IH.
Qed.

Lemma branch_inputs_in (h : string) (l r : option string) (d : nat) :
  (d < TREE_DEPTH)%nat → record_inputs (BranchRecord h l r) ⊆ inputs →
  branch_input (default (EMPTY_HASHES (S d)) l) (default (EMPTY_HASHES (S d)) r) ∈ inputs.
Proof. intros Hd Hi. apply Hi, list_elem_of_fmap. exists d. split; [done|]. apply elem_of_seq. lia. Qed.

(** The child of a branch, pushed or absent, stands for its side. *)
Lemma child_stands (child : option string) (d : nat) (b : Z) (part : content) :
  (d < TREE_DEPTH)%nat → hex_keys part → agree d part → covers inputs (TREE_DEPTH - S d) (S d) (side b d part) →
  default (EMPTY_HASHES (S d)) child = reference_root (TREE_DEPTH - S d) (S d) (side b d part) →
  ∃ parts, Forall2 entry_stands (pushed child (S d) []) parts ∧
    ∀ k x, (∃ q, q ∈ parts ∧ bytes_at q k = Some x) ↔ bytes_at (side b d part) k = Some x.
Proof using All.
  intros Hd Hk Ha Hcov E. destruct child as [h|]; cbn [default pushed] in *.
  - exists [side b d part]. split.
    + constructor; [|constructor]. split_and!; cbn; [lia|by apply hex_keys_side|by apply agree_side|done..].
    + intros k x. setoid_rewrite list_elem_of_singleton. naive_solver.
  - assert (EMPTY_HASHES (S d) = reference_root (TREE_DEPTH - S d) (S d) ∅) as Hempty by (by rewrite reference_empty).
    rewrite Hempty in E. pose proof (reference_binding inputs Hfree (TREE_DEPTH - S d) (S d) ∅ (side b d part) ltac:(lia) hex_empty (hex_keys_side _ _ _ Hk)
      (agree_empty _) (agree_side _ _ _ Ha) (covers_empty _ _ _ (proj1 Hcov)) Hcov E) as Hsame.
    exists []. split; [constructor|]. intros k x. unfold bytes_at. rewrite <-Hsame, lookup_empty. clear. set_solver.
Qed.

Lemma side_bytes (d : nat) (part : content) (k : string) (b : list Z) :
  bytes_at part k = Some b ↔ bytes_at (side 0 d part) k = Some b ∨ bytes_at (side 1 d part) k = Some b.
Proof.
  unfold bytes_at. rewrite !side_lookup. destruct (bitAt_01 (hexBytes k) d) as [E|E]; fold (bitOf k d) in E; rewrite E;
    repeat case_decide; try done; cbn; naive_solver.
Qed.

Lemma pushed_app (child : option string) (d : nat) (stack : list (string * nat)) : pushed child d stack = pushed child d [] ++ stack.
Proof. by destruct child. Qed.

Lemma parts_cons (part : content) (parts : list content) (k : string) (b : list Z) :
  (∃ q, q ∈ part :: parts ∧ bytes_at q k = Some b) ↔ bytes_at part k = Some b ∨ ∃ q, q ∈ parts ∧ bytes_at q k = Some b.
Proof. setoid_rewrite elem_of_cons. naive_solver. Qed.

Lemma parts_app (parts parts' : list content) (k : string) (b : list Z) :
  (∃ q, q ∈ parts ++ parts' ∧ bytes_at q k = Some b) ↔ (∃ q, q ∈ parts ∧ bytes_at q k = Some b) ∨ ∃ q, q ∈ parts' ∧ bytes_at q k = Some b.
Proof. setoid_rewrite elem_of_app. naive_solver. Qed.

Lemma leaf_in_branch (h : string) (l r : option string) (records : list StateV2NodeRecord) (k : string) (b : list Z) :
  leaf_in (BranchRecord h l r :: records) k b ↔ leaf_in records k b.
Proof. unfold leaf_in. setoid_rewrite elem_of_cons. naive_solver. Qed.

Lemma leaf_in_cons (h k v : string) (t : units) (records : list StateV2NodeRecord) (k' : string) (b : list Z) :
  leaf_in (LeafRecord h k v t :: records) k' b ↔ (k' = k ∧ b = utf8 t) ∨ leaf_in records k' b.
Proof. unfold leaf_in. setoid_rewrite elem_of_cons. naive_solver. Qed.

Lemma covered_step (m : content) (records : list StateV2NodeRecord) (record : StateV2NodeRecord) (s s' : AnchoredRecordStream) :
  covered m records s → record_hex record → record_inputs record ⊆ inputs → accepted_step record s s' → covered m (record :: records) s'.
Proof using All.
  intros (parts & Hparts & Hm & Hkeys) Hhex Hin Hstep. destruct Hstep as [h k t d rest n keys fin Hk -> Hnew|h l r d rest n keys fin Hd ->]; cbn [as_expected as_leafKeyHashes] in *;
    apply Forall2_cons_inv_l in Hparts as (part & parts' & (Hle & Hhk & Hag & Hcov & E) & Hparts & ->); cbn [fst snd] in *.
  - rewrite <-reference_singleton in E by lia.
    assert (∀ k', utf8 <$> ({[k := t]} : content) !! k' = utf8 <$> part !! k') as Hsame.
    { apply (reference_binding inputs Hfree (TREE_DEPTH - d) d); [lia| |done| |done|by apply covers_singleton|done|done].
      - intros k' [? [<- _]%lookup_singleton_Some]. done.
      - intros k1 k2 [? [<- _]%lookup_singleton_Some] [? [<- _]%lookup_singleton_Some]. done. }
    clear Hin Hcov E. exists parts'. split; [done|]. split.
    + intros k' b. rewrite Hm.
      assert (bytes_at part k' = Some b ↔ k' = k ∧ b = utf8 t) as Hpart.
      { unfold bytes_at. rewrite <-Hsame. destruct (decide (k = k')) as [<-|]; [rewrite lookup_singleton_eq|rewrite lookup_singleton_ne by done]; cbn; naive_solver. }
      rewrite parts_cons, Hpart, leaf_in_cons. naive_solver.
    + intros k'. cbn [as_leafKeyHashes]. rewrite elem_of_union, elem_of_singleton, Hkeys. setoid_rewrite leaf_in_cons. naive_solver.
  - assert (hex64 (default (EMPTY_HASHES (S d)) l) ∧ hex64 (default (EMPTY_HASHES (S d)) r)) as [Hl Hr].
    { destruct Hhex. split; [destruct l|destruct r]; cbn; auto using emptyHash_hex. }
    assert (TREE_DEPTH - d = S (TREE_DEPTH - S d))%nat as Hn by lia. rewrite Hn in E, Hcov. cbn [reference_root] in E.
    destruct (covers_branch inputs (TREE_DEPTH - S d) d part ltac:(lia) Hcov) as (Hb & Hc0 & Hc1).
    apply (two_hashes_free inputs Hfree) in E as [El Er]; [|done|done|apply reference_hex|apply reference_hex|by eapply branch_inputs_in|exact Hb].
    apply child_stands in El as (lparts & Hlp & Hlb); [|done..]. apply child_stands in Er as (rparts & Hrp & Hrb); [|done..].
    clear Hin Hcov Hb Hc0 Hc1. exists (rparts ++ lparts ++ parts'). split; [|split].
    + cbn [as_expected]. rewrite pushed_app, (pushed_app l). by repeat apply Forall2_app.
    + intros k b. rewrite Hm, parts_cons, (side_bytes d), <-Hlb, <-Hrb, leaf_in_branch, !parts_app. tauto.
    + intros k. rewrite Hkeys. by setoid_rewrite leaf_in_branch.
Qed.

Lemma hex_text (t : units) : isLowerHexUnits 64 t = true → hex64 (text_of_units t).
Proof.
  unfold isLowerHexUnits, isLowerHexOf, text_of_units. rewrite !andb_true_iff. intros [Hl Hf].
  rewrite String.list_ascii_of_string_of_list_ascii. split.
  - assert (∀ l, String.length (String.string_of_list_ascii l) = length l) as Hlen by (induction l; cbn; congruence). by rewrite Hlen, length_map.
  - rewrite forallb_forall in Hf |- *. intros c (u & <- & Hu)%in_map_iff. specialize (Hf u Hu). unfold isLowerHex.
    rewrite orb_true_iff, !andb_true_iff, !Z.leb_le in Hf. rewrite Ascii.N_ascii_embedding by lia.
    rewrite orb_true_iff, !andb_true_iff, !N.leb_le. lia.
Qed.

Lemma portable_hash_hex (v : jsval units) (h : string) : portable_hash v = Some h → hex64 h.
Proof. destruct v; try done. cbn. destruct (isLowerHexUnits 64 _) eqn:E; [|done]. intros [= <-]. by apply hex_text. Qed.
Lemma portable_nullable_hex (v : jsval units) (o : option string) (h : string) : portable_nullable_hash v = Some o → o = Some h → hex64 h.
Proof.
  intros E ->. assert (portable_hash v = Some h) as Hv; [|by apply portable_hash_hex in Hv]. unfold portable_nullable_hash in E.
  destruct v; try done; apply fmap_Some in E as (x & E & [= <-]); exact E.
Qed.

Lemma parsed_hex (value : jsval units) (record : StateV2NodeRecord) : parsePortableStateNodeRecord value = Ok record → record_hex record.
Proof.
  unfold parsePortableStateNodeRecord. intros (r & Hp & E)%res_bind_Ok. res_split. subst r. clear -Hp. unfold parseNodeRecord in Hp.
  destruct value; try done. destruct (is_word _ "leaf").
  - res_split. repeat case_match; try done. by apply Ok_inj in Hp as <-.
  - destruct (is_word _ "branch"); [|done]. res_split.
    destruct (portable_hash _); [|done]. destruct (portable_nullable_hash (member _ "leftHash")) eqn:El; [|done].
    destruct (portable_nullable_hash (member _ "rightHash")) eqn:Er; [|done]. apply Ok_inj in Hp as <-.
    split; intros h; by eapply portable_nullable_hex.
Qed.

Lemma accept_all_covered (m : content) (l records : list StateV2NodeRecord) (s s' : AnchoredRecordStream) :
  Forall record_hex l → Forall (λ r, record_inputs r ⊆ inputs) l → m_for accept l s = (s', Ok ()) → covered m records s → covered m (rev l ++ records) s'.
Proof using All.
  intros Hl Hin. revert s records. induction Hl as [|r l Hr Hl IH]; intros s records E Hc; cbn [m_for] in E.
  - by apply mret_Ok in E as [-> _].
  - apply meth_bind_Ok in E as (s1 & [] & E1 & E). apply accept_Ok in E1.
    apply Forall_cons in Hin as [Hin1 Hin]. pose proof (covered_step _ _ _ _ _ Hc Hr Hin1 E1) as Hc1. cbn [rev]. rewrite <-app_assoc. by apply (IH Hin s1).
Qed.

(** A download only adds to the records. *)
Lemma fetch_records_grows (replies : list (list (jsval units))) (start : Z) (chunks chunks' : list (list StateV2NodeRecord)) (s s' : AnchoredRecordStream) :
  fetch_records replies start chunks s = (s', Ok chunks') → chunks ⊆ chunks'.
Proof.
  revert start chunks s. induction replies as [|items replies IH]; intros start chunks s E; cbn [fetch_records] in E.
  - destruct (start <=? 0); [|done]. by apply mret_Ok in E as [_ <-].
  - destruct (start <=? 0); [by apply mret_Ok in E as [_ <-]|].
    apply meth_bind_Ok in E as (s1 & records & _ & E). apply meth_bind_Ok in E as (s2 & [] & _ & E). apply IH in E. by apply sub_cons_r in E.
Qed.

Lemma fetch_records_covered (m : content) (replies : list (list (jsval units))) (start : Z) (chunks chunks' : list (list StateV2NodeRecord))
    (s s' : AnchoredRecordStream) :
  fetch_records replies start chunks s = (s', Ok chunks') → Forall (λ r, record_inputs r ⊆ inputs) (concat chunks') →
  covered m (concat chunks) s → covered m (concat chunks') s'.
Proof using All.
  intros E Hin. revert start chunks s E. induction replies as [|items replies IH]; intros start chunks s E Hc; cbn [fetch_records] in E.
  - destruct (start <=? 0); [|done]. by apply mret_Ok in E as [-> <-].
  - destruct (start <=? 0); [by apply mret_Ok in E as [-> <-]|].
    apply meth_bind_Ok in E as (s1 & records & E1 & E). apply m_lift_Ok in E1 as [-> Hp]. apply meth_bind_Ok in E as (s1 & [] & E1 & E).
    unfold chunk_items in Hp. res_split. apply res_map_Ok in Hp.
    assert (Forall record_hex records) as Hhex.
    { clear -Hp. induction Hp; constructor; [by eapply parsed_hex|done]. }
    assert (Forall (λ r, record_inputs r ⊆ inputs) records) as Hrec.
    { apply Forall_forall. intros r Hr. rewrite Forall_forall in Hin. apply Hin. apply list_elem_of_In, in_concat. exists records.
      split; [|by apply list_elem_of_In]. apply list_elem_of_In. apply (fetch_records_grows _ _ _ _ _ _ E). left. }
    pose proof (accept_all_covered m (rev records) (concat chunks) s s1 (Forall_rev Hhex) (Forall_rev Hrec) E1 Hc) as Hc1.
    rewrite rev_involutive in Hc1. by apply (IH _ (records :: chunks) s1 E).
Qed.

End commit.

(** ** The key preimages *)

Definition key_digest (key : units) : string := hashWithDomain KEY_DOMAIN [utf8 key].

(** The keys accepted so far and those that remain make up the set. *)
Definition claimed (all : gset string) (keys : list units) (ks : KeyPreimageStream) : Prop :=
  NoDup (key_digest <$> keys) ∧ (∀ k, k ∈ all ↔ k ∈ key_digest <$> keys ∨ k ∈ as_leafKeyHashes (ks_records ks)) ∧
  (∀ k, k ∈ key_digest <$> keys → k ∉ as_leafKeyHashes (ks_records ks)).

Lemma claimed_step (all : gset string) (keys : list units) (key : units) (ks ks' : KeyPreimageStream) :
  accept_key key ks = (ks', Ok ()) → claimed all keys ks → claimed all (keys ++ [key]) ks'.
Proof.
  intros E (Hnd & Hall & Hdis). unfold accept_key in E. apply meth_bind_Ok in E as (s1 & s2 & [= <- <-] & E).
  apply meth_bind_Ok in E as (s1 & hash & E1 & E). apply m_lift_Ok in E1 as [-> Hh]. unfold key_hash in Hh. res_split. subst hash.
  apply meth_bind_Ok in E as (s1 & [] & E1 & E). apply m_throw_if_Ok in E1 as [-> Hin]. apply negb_false_iff, bool_decide_eq_true in Hin.
  injection E as <-. unfold claimed. cbn [ks_records as_leafKeyHashes]. rewrite fmap_app. cbn [fmap list_fmap]. fold (key_digest key) in *. split_and!.
  - apply NoDup_app. split_and!; [done|set_solver|apply NoDup_singleton].
  - intros k. rewrite Hall, elem_of_app, list_elem_of_singleton, elem_of_difference, elem_of_singleton.
    destruct (decide (k = key_digest key)) as [->|]; naive_solver.
  - intros k. rewrite elem_of_app, list_elem_of_singleton, elem_of_difference, elem_of_singleton. naive_solver.
Qed.

Lemma fetch_keys_claimed (all : gset string) (replies : list (list (jsval units))) (keyCount start : Z) (keys keys' : list units) (ks ks' : KeyPreimageStream) :
  fetch_keys replies keyCount start keys ks = (ks', Ok keys') → claimed all keys ks → claimed all keys' ks'.
Proof.
  assert (∀ chunk keys ks ks', m_for accept_key chunk ks = (ks', Ok ()) → claimed all keys ks → claimed all (keys ++ chunk) ks') as Hfor.
  { induction chunk as [|key chunk IH]; intros ks0 s1 s2 E Hc; cbn [m_for] in E.
    - apply mret_Ok in E as [-> _]. by rewrite app_nil_r.
    - apply meth_bind_Ok in E as (s3 & [] & E1 & E). rewrite cons_middle, app_assoc. eapply IH; [exact E|]. by eapply claimed_step. }
  revert start keys ks. induction replies as [|items replies IH]; intros start keys ks E Hc; cbn [fetch_keys] in E;
    (destruct (keyCount <=? start); [apply mret_Ok in E as [-> <-]; done|]); [done|].
  apply meth_bind_Ok in E as (s1 & chunk & E1 & E). apply m_lift_Ok in E1 as [-> _]. apply meth_bind_Ok in E as (s1 & [] & E1 & E).
  eapply IH; [exact E|]. by eapply Hfor.
Qed.

(** ** The transfer *)

Lemma new_covered (inputs : list (list Z)) (st : SparseMerkleState) (m : content) (s : AnchoredRecordStream) :
  content_inputs m ⊆ inputs → holds st m → new_record_stream (sparse_root st) = Ok s → covered inputs m [] s.
Proof.
  intros Hin Hh E. unfold new_record_stream in E. res_split. subst s. exists [m]. split_and!.
  - constructor; [|constructor]. split_and!; cbn [fst snd]; [apply Nat.le_0_l|apply Hh|apply agree_0|rewrite Nat.sub_0_r; by apply covers_content|
      rewrite Nat.sub_0_r; by apply holds_root].
  - intros k b. rewrite parts_cons. unfold leaf_in. clear. set_solver.
  - intros k. cbn. unfold leaf_in. clear. set_solver.
Qed.

(** C16. A peer cannot make a client assemble anything but the committed state: when
    the transfer against the root of a tree completes, the leaves among the records
    are exactly the entries of the tree, no more, no fewer and with the same value
    bytes, and the key preimages are distinct and hash to exactly the keys of the
    tree, as many of both as announced, whatever the chunks were.  The only way out
    is a collision among the byte strings that the tree and the received records
    hash to. *)
Theorem anchored_transfer_sound (st : SparseMerkleState) (m : content) (recordCount keyCount : Z)
    (recordReplies keyReplies : list (list (jsval units))) (records : list StateV2NodeRecord) (keys : list units) :
  holds st m → anchored_transfer (sparse_root st) recordCount keyCount recordReplies keyReplies = Ok (records, keys) →
  ((∀ k b, bytes_at m k = Some b ↔ leaf_in records k b) ∧
   NoDup (key_digest <$> keys) ∧ (∀ k, k ∈ key_digest <$> keys ↔ is_Some (m !! k)) ∧ zlen records = recordCount ∧ zlen keys = keyCount)
  ∨ collision_among (content_inputs m ++ concat (record_inputs <$> records)).
Proof.
  intros Hh E. destruct (free_or_collision (content_inputs m ++ concat (record_inputs <$> records))) as [Hfree|]; [left|by right].
  set (inputs := content_inputs m ++ concat (record_inputs <$> records)) in Hfree.
  assert (content_inputs m ⊆ inputs) as Hm0 by (intros x Hx; apply elem_of_app; by left).
  assert (Forall (λ r, record_inputs r ⊆ inputs) records) as Hin.
  { apply Forall_forall. intros r Hr x Hx. apply elem_of_app. right. apply list_elem_of_In, in_concat. exists (record_inputs r).
    split; [apply list_elem_of_In, list_elem_of_fmap; by exists r|by apply list_elem_of_In]. }
  clearbody inputs.
  unfold anchored_transfer in E. apply res_bind_Ok in E as (s & Hnew & E). pose proof (new_covered inputs _ _ _ Hm0 Hh Hnew) as Hc. clear Hm0.
  destruct (download_records _ _ s) as [s1 fetched] eqn:Ef. apply res_bind_Ok in E as (records' & -> & E).
  apply meth_bind_Ok in Ef as (s2 & chunks & E1 & Ef). apply meth_bind_Ok in Ef as (s3 & [] & E2 & Ef). apply mret_Ok in Ef as [-> <-].
  unfold finish_records in E2. apply meth_bind_Ok in E2 as (s4 & s5 & [= <- <-] & E2). apply meth_bind_Ok in E2 as (s4 & [] & E3 & [= <-]).
  apply m_throw_if_Ok in E3 as [-> Hf]. apply orb_false_iff in Hf as [Hf _]. apply negb_false_iff, Nat.eqb_eq in Hf.
  unfold outstandingCount in Hf. destruct (as_expected s2) eqn:Ex; [|done].
  apply res_bind_Ok in E as (ks & Eks & E). unfold keyPreimageStream in Eks. apply res_bind_Ok in Eks as ([] & _ & Eks). apply Ok_inj in Eks as <-.
  apply res_bind_Ok in E as ([] & Hcount & E). cbn [as_leafKeyHashes as_expected as_accepted] in E.
  destruct (fetch_keys _ _ _ _ _) as [ks' fetched'] eqn:Ek. apply res_bind_Ok in E as (keys' & -> & E).
  apply res_bind_Ok in E as ([] & Hlens & E). apply res_bind_Ok in E as ([] & Hfin & E). apply Ok_inj in E as [= <- ->].
  destruct (fetch_records_covered inputs Hfree m _ _ _ _ _ _ E1 Hin Hc) as (parts & Hparts & Hm & Hkeys). clear Hin.
  rewrite Ex in Hparts. apply Forall2_nil_inv_l in Hparts as ->.
  assert (claimed (as_leafKeyHashes s2) keys ks') as (Hnd & Hall & _).
  { eapply fetch_keys_claimed; [exact Ek|]. split_and!; [constructor|cbn; set_solver|cbn; set_solver]. }
  assert (as_leafKeyHashes (ks_records ks') = ∅) as Hrest.
  { destruct (finish_keys ks') as [s6 r6] eqn:E6. cbn [snd] in Hfin. subst r6. unfold finish_keys in E6.
    apply meth_bind_Ok in E6 as (s7 & s8 & [= <- <-] & E6). apply m_throw_if_Ok in E6 as [_ E6]. apply orb_false_iff in E6 as [E6 _].
    by apply negb_false_iff, Nat.eqb_eq, size_empty_inv, leibniz_equiv in E6. }
  assert (∀ k b, bytes_at m k = Some b ↔ leaf_in (concat chunks) k b) as Hleaves by (intros k b; rewrite Hm; set_solver).
  apply throw_if_Ok, orb_false_iff in Hlens as [Hl1%negb_false_iff%Z.eqb_eq Hl2%negb_false_iff%Z.eqb_eq]. split_and!; try done.
  intros k. rewrite Hrest in Hall. transitivity (k ∈ as_leafKeyHashes s2); [set_solver|]. rewrite Hkeys. setoid_rewrite <-Hleaves. unfold bytes_at.
  destruct (m !! k); cbn; naive_solver.
Qed.

(** A genuine leaf at its place is accepted. *)
Lemma leaf_record_accepted (h k : string) (t : units) (w : jsval units) (d : nat) (rest : list (string * nat)) (n : Z) (keys : gset string) (fin : bool) :
  hex64 k → JSON_parse t = Ok w → canonicalJson w = Ok (Some t) → linkHash (leafNodeAtDepth k (valueHashOf t) t d) = Some h → k ∉ keys →
  accept (LeafRecord h k (valueHashOf t) t) (mkAnchored ((h, d) :: rest) n keys fin) = (mkAnchored rest (n + 1) ({[k]} ∪ keys) fin, Ok ()).
Proof.
  intros Hk Hp Hc Hl Hnew.
  assert (nodeFromRecord (LeafRecord h k (valueHashOf t) t) d = Ok (leafNodeAtDepth k (valueHashOf t) t d)) as Hn.
  { unfold nodeFromRecord. assert (hex64 (valueHashOf t)) as Hv by apply hashWithDomain_hex. rewrite Hk, Hv, Hp. cbn [negb orb throw_if mbind res_bind].
    rewrite Hc. cbn [mbind res_bind]. rewrite String.eqb_refl, bool_decide_eq_true_2 by done. cbn [negb orb throw_if mbind res_bind recordHash].
    rewrite Hl, bool_decide_eq_true_2 by done. done. }
  unfold accept, accept_body. rewrite meth_bind_run. cbn [m_get as_expected]. rewrite !meth_bind_run.
  cbn [m_modify as_expected as_accepted as_leafKeyHashes as_finished recordHash]. unfold m_throw_if, m_lift.
  rewrite String.eqb_refl. cbn [negb throw_if]. rewrite meth_bind_run, Hn. unfold leafNodeAtDepth. rewrite !meth_bind_run. cbn [m_get]. rewrite meth_bind_run.
  cbn [as_expected as_accepted as_leafKeyHashes as_finished]. rewrite bool_decide_eq_false_2 by done. done.
Qed.

(** A transfer of one record and one key, each in its own chunk. *)
Lemma one_leaf_transfer (h k : string) (t : units) (w record : jsval units) (key : units) :
  hex64 h → hex64 k → JSON_parse t = Ok w → canonicalJson w = Ok (Some t) → linkHash (leafNodeAtDepth k (valueHashOf t) t 0) = Some h →
  parsePortableStateNodeRecord record = Ok (LeafRecord h k (valueHashOf t) t) → parsePortableStateKeyPreimage (JStr key) = Ok key → key_hash key = Ok k →
  anchored_transfer h 1 1 [[record]] [[JStr key]] = Ok ([LeafRecord h k (valueHashOf t) t], [key]).
Proof.
  intros Hh Hk Hp Hc Hl Hr Hkey Hkh. unfold anchored_transfer, new_record_stream. rewrite Hh. cbn [negb throw_if mbind res_bind].
  assert (download_records [[record]] 1 (mkAnchored [(h, 0%nat)] 0 ∅ false) =
    (mkAnchored [] 1 {[k]} true, Ok [LeafRecord h k (valueHashOf t) t])) as ->.
  { unfold download_records. rewrite meth_bind_run. cbn [fetch_records]. change (1 <=? 0) with false. cbv beta iota. rewrite meth_bind_run.
    unfold m_lift, chunk_items. change (negb (zlen [record] =? Z.min MAX_STATE_RECORDS_PER_CHUNK 1)) with false. cbn [throw_if mbind res_bind res_map].
    rewrite Hr. cbn [mbind res_bind]. rewrite meth_bind_run. unfold acceptFromEnd. cbn [rev app m_for].
    rewrite meth_bind_run, (leaf_record_accepted h k t w); [|exact Hk|exact Hp|exact Hc|exact Hl|apply not_elem_of_empty]. rewrite union_empty_r_L. reflexivity. }
  cbn [mbind res_bind]. unfold keyPreimageStream. cbn [as_finished as_leafKeyHashes as_expected as_accepted negb throw_if mbind res_bind].
  rewrite size_singleton. cbn [ks_total]. change (1 =? Z.of_nat 1) with true. cbn [negb throw_if mbind res_bind].
  assert (fetch_keys [[JStr key]] 1 0 [] (mkKeyStream (mkAnchored [] 1 {[k]} false) (Z.of_nat 1) 0) =
    (mkKeyStream (mkAnchored [] 1 ∅ false) 1 1, Ok [key])) as ->.
  { cbn [fetch_keys]. change (1 <=? 0) with false. cbv beta iota. rewrite meth_bind_run. unfold m_lift, chunk_items.
    change (negb (zlen [JStr key] =? Z.min MAX_STATE_KEYS_PER_CHUNK (1 - 0))) with false. cbn [throw_if mbind res_bind res_map]. rewrite Hkey. cbn [mbind res_bind].
    rewrite meth_bind_run. cbn [m_for]. rewrite meth_bind_run. unfold accept_key. rewrite meth_bind_run. cbn [m_get]. rewrite meth_bind_run. unfold m_lift. rewrite Hkh.
    cbn [ks_records as_leafKeyHashes]. rewrite meth_bind_run, bool_decide_eq_true_2 by (by apply elem_of_singleton). cbn [negb m_throw_if m_lift throw_if m_modify ks_records as_expected as_accepted as_finished ks_total ks_accepted].
    rewrite difference_diag_L. done. }
  done.
Qed.

End sound.

(** ** A transfer of one entry *)

Module TransferExample.
Import ToyCrypto.

Definition key : string := "activity-epoch:7".
Definition text : units := value_text settled_value.
Definition K : string := Eval vm_compute in keyHashOf (H := toy) key.
Definition V : string := Eval vm_compute in valueHashOf (H := toy) text.
Definition m : content := {[ K := text ]}.
Definition root : string := leaf_climb (hexBytes K) (leafHash (H := toy) K V) TREE_DEPTH 0.

Lemma text_computed : js_value settled_value ∧ valueText settled_value = Ok text.
Proof. split; [|vm_compute; reflexivity]. split; [repeat (constructor; [set_solver|]); constructor|]. repeat split; repeat constructor; done. Qed.

Lemma sent_tree : ∃ st, holds (H := toy) st m ∧ sparse_root (H := toy) st = root.
Proof.
  destruct text_computed as [Hj Ht]. destruct (holds_set (H := toy) sparse_empty ∅ key settled_value text holds_empty ltac:(done) Hj Ht) as (st & _ & Hst).
  exists st. split; [exact Hst|]. rewrite (holds_root _ _ Hst). change (reference_root (H := toy) TREE_DEPTH 0 {[K := text]} = root).
  rewrite reference_singleton by done. unfold root. f_equal.
Qed.

Definition record : jsval units :=
  JObj [(lit "kind", JStr (lit "leaf")); (lit "hash", JStr (lit root)); (lit "keyHash", JStr (lit K)); (lit "valueHash", JStr (lit V));
        (lit "valueJson", JStr text)].

Lemma lit_hash (h : string) : hex64 h → portable_hash (JStr (lit h)) = Some h.
Proof.
  intros Hh. cbn [portable_hash]. unfold isLowerHexOf in Hh. apply andb_true_iff in Hh as [Hl Hf]. apply Nat.eqb_eq in Hl.
  assert (isLowerHexUnits 64 (lit h) = true) as ->.
  { unfold isLowerHexUnits, lit. apply andb_true_iff. split.
    - assert (∀ x, length (String.list_ascii_of_string x) = String.length x) as Hlen by (induction x; cbn; congruence).
      rewrite length_fmap, Hlen, Hl. done.
    - rewrite forallb_forall in Hf |- *. intros u (c & -> & Hc)%list_elem_of_In%list_elem_of_fmap. apply list_elem_of_In, Hf in Hc.
      unfold isLowerHex in Hc. rewrite orb_true_iff, !andb_true_iff, !N.leb_le in Hc. rewrite orb_true_iff, !andb_true_iff, !Z.leb_le. lia. }
  f_equal. unfold text_of_units, lit. rewrite <-(String.string_of_list_ascii_of_string h) at 2. f_equal.
  clear Hf. induction (String.list_ascii_of_string h) as [|c l IH]; [done|].
  cbn [fmap list_fmap map]. rewrite N2Z.id, Ascii.ascii_N_embedding. f_equal. apply IH.
Qed.

Lemma root_hex : hex64 root.
Proof. unfold root. destruct TREE_DEPTH eqn:E; [discriminate E|]. cbn [leaf_climb]. case_match; apply hashWithDomain_hex. Qed.

Lemma parsed : parsePortableStateNodeRecord (H := toy) record = Ok (LeafRecord root K V text).
Proof.
  unfold parsePortableStateNodeRecord. assert (parseNodeRecord record = Ok (LeafRecord root K V text)) as ->.
  { unfold parseNodeRecord, record. set (v := JObj _).
    change (is_word (member v "kind") "leaf") with true. cbv beta iota.
    assert (assertExactPortableRecord v ["kind"; "hash"; "keyHash"; "valueHash"; "valueJson"] "portable State v2 leaf" = Ok ()) as ->.
    { unfold v. generalize (lit root). intros r. vm_compute. reflexivity. }
    change (member v "hash") with (JStr (lit root)). rewrite (lit_hash root root_hex). reflexivity. }
  cbn [mbind res_bind assertStateV2NodeRecordSelfConsistent].
  assert (throw_if (negb (String.eqb (valueHashOf (H := toy) text) V)) "Portable State v2 leaf value hash mismatch" = Ok ()) as -> by (vm_compute; reflexivity).
  assert ((parsed ← parseCanonicalLeafValueJson text; assertStateV2LeafValueSchema (H := toy) parsed) = Ok ()) as Hs by (vm_compute; reflexivity).
  cbn [mbind res_bind]. rewrite Hs. reflexivity.
Qed.

Definition start : AnchoredRecordStream := mkAnchored [(root, 0%nat)] 0 ∅ false.

Lemma transfers : anchored_transfer (H := toy) root 1 1 [[record]] [[JStr (lit key)]] = Ok ([LeafRecord root K V text], [lit key]).
Proof.
  assert (valueHashOf (H := toy) text = V) as EV by (vm_compute; reflexivity). rewrite <-EV.
  apply (one_leaf_transfer root K text settled_value record (lit key)); [exact root_hex|vm_compute; reflexivity|vm_compute; reflexivity|vm_compute; reflexivity| | | |].
  - rewrite EV. unfold leafNodeAtDepth, root. cbn [linkHash]. by rewrite Nat.sub_0_r.
  - rewrite EV. exact parsed.
  - vm_compute. reflexivity.
  - vm_compute. reflexivity.
Qed.

End TransferExample.

Lemma anchored_transfer_sound_witness :
  anchored_transfer (H := ToyCrypto.toy) TransferExample.root 1 1 [[TransferExample.record]] [[JStr (lit TransferExample.key)]] =
    Ok ([LeafRecord TransferExample.root TransferExample.K TransferExample.V TransferExample.text], [lit TransferExample.key]) ∧
  ((NoDup (key_digest (H := ToyCrypto.toy) <$> [lit TransferExample.key]) ∧
    leaf_in [LeafRecord TransferExample.root TransferExample.K TransferExample.V TransferExample.text] TransferExample.K (utf8 TransferExample.text))
   ∨ collision_among (H := ToyCrypto.toy) (content_inputs (H := ToyCrypto.toy) TransferExample.m ++
       concat (record_inputs (H := ToyCrypto.toy) <$> [LeafRecord TransferExample.root TransferExample.K TransferExample.V TransferExample.text]))).
Proof.
  split; [exact TransferExample.transfers|]. destruct TransferExample.sent_tree as (st & Hst & Hroot). pose proof TransferExample.transfers as Ht. rewrite <-Hroot in Ht at 1.
  destruct (anchored_transfer_sound (H := ToyCrypto.toy) st TransferExample.m _ _ _ _ _ _ Hst Ht) as [(Hl & Hnd & _)|Hc]; [left|by right].
  split; [exact Hnd|]. apply Hl. unfold bytes_at, TransferExample.m. by rewrite lookup_singleton_eq.
Defined.

Lemma anchored_stack_bounded_witness :
  (outstandingCount (foldl (λ s record, (accept (H := ToyCrypto.toy) record s).1) TransferExample.start
    [LeafRecord TransferExample.root TransferExample.K TransferExample.V TransferExample.text]) ≤ S TREE_DEPTH)%nat.
Proof.
  apply (anchored_stack_bounded (H := ToyCrypto.toy) TransferExample.root). unfold new_record_stream. rewrite TransferExample.root_hex. reflexivity.
Defined.
