(* ===== verification/PortableView.v ===== *)
(** What the portable view of a protocol-v2 state says (l1/src/state-v2.ts,
    [reconstructStateV2PortableView]): it ends by rebuilding the tree from the view
    and comparing roots, which makes the view the ledger the root commits to. *)

From S2P Require Import Prelude Types Codec JsonText Crypto Transaction ByteText Ledger LedgerHistory SparseTree StateV2 StateV2Root Portable Checkpoint.

Section texts.
Context `{CryptoLaws}.

(** No two keys have the same hash if no two of their preimages collide. *)
Lemma apart_of_free (inputs : list (list Z)) (K : gset string) :
  "" ∉ K → collision_free inputs → key_inputs K ⊆ inputs → hashes_apart K.
Proof.
  intros Hne Hfree Hin. split; [done|]. intros k1 k2 H1 H2 E.
  assert (∀ k, k ∈ K → preimage KEY_DOMAIN [utf8 (lit k)] ∈ inputs) as Hk.
  { intros k Hk. apply Hin, list_elem_of_fmap. exists k. split; [done|by apply elem_of_elements]. }
  apply (domain_free inputs Hfree) in E; [|by apply Hk..]. unfold preimage in E. apply app_inv_head in E.
  cbn [concat] in E. rewrite !app_nil_r in E. apply lit_inj. apply utf8_byte_inj; [apply lit_byte_units..|done].
Qed.

(** The tree holds the texts of the values [m], whatever the values are. *)
Definition texted (K : gset string) (s : SparseMerkleState) (m : gmap string (jsval units)) : Prop :=
  dom m ⊆ K ∧ ∃ c, view (nodeResolver s) 0 (rootNode s) c ∧ hex_keys c ∧ hashed m c.

Lemma stands_texted (K K' : gset string) (s : SparseMerkleState) (m : gmap string (jsval units)) :
  sparse_stands K s m → dom m ⊆ K' → texted K' s m.
Proof. intros (_ & _ & c & (Hv & Hk & _) & Hh) Hd. split; [done|]. by exists c. Qed.

Lemma texted_set (K : gset string) (s s' : SparseMerkleState) (m : gmap string (jsval units)) (key : string) (v : jsval units) :
  hashes_apart K → texted K s m → key ∈ K → sparse_set s key v = Ok s' → texted K s' (<[key := v]> m).
Proof.
  intros Hap (Hd & c & Hv & Hk & Hh) Hin E. assert (key ≠ "") as Hne by (intros ->; by destruct Hap).
  destruct (valueText v) as [t|e] eqn:Ht.
  2: { unfold sparse_set in E. rewrite Ht in E. by destruct (throw_if _ _). }
  destruct (view_set s c key v t Hv Hk Hne Ht) as (s1 & E1 & Hv' & Hk'). rewrite E in E1. apply Ok_inj in E1 as <-.
  assert (t = value_text v) as ->.
  { unfold valueText in Ht. apply res_bind_Ok in Ht as (o & Ho & Ht). apply unwrap_Ok in Ht as ->. unfold value_text. by rewrite Ho. }
  split; [rewrite dom_insert; set_solver|]. exists (<[keyHashOf key := value_text v]> c). split_and!; [exact Hv'|exact Hk'|].
  by apply (hashed_insert K).
Qed.

Lemma texted_set_each {A} (K : gset string) (key : A → string) (value : A → jsval units) (items : list A) (s s' : SparseMerkleState)
    (m : gmap string (jsval units)) :
  hashes_apart K → (∀ i, i ∈ items → key i ∈ K) → texted K s m → set_each key value s items = Ok s' →
  texted K s' (insert_each key value m items).
Proof.
  intros Hap. unfold set_each, insert_each. revert s m. induction items as [|i items IH]; intros s m Hi Hs E; cbn [res_fold foldl] in *.
  - by apply Ok_inj in E as <-.
  - apply res_bind_Ok in E as (s1 & E1 & E). apply (IH s1); [|by eapply texted_set; [..|apply Hi; left|exact E1]|exact E].
    intros j Hj. apply Hi. by right.
Qed.

(** Trees with one root hold the same texts. *)
Lemma texted_same (inputs : list (list Z)) (K : gset string) (s1 s2 : SparseMerkleState) (m1 m2 : gmap string (jsval units)) :
  collision_free inputs → content_inputs (content_of m1) ⊆ inputs → content_inputs (content_of m2) ⊆ inputs →
  hashes_apart K → texted K s1 m1 → texted K s2 m2 → sparse_root s1 = sparse_root s2 →
  ∀ key, key ∈ K → utf8 <$> (value_text <$> m1 !! key) = utf8 <$> (value_text <$> m2 !! key).
Proof.
  intros Hfree I1 I2 Hap (Hd1 & c1 & Hv1 & Hk1 & Hh1) (Hd2 & c2 & Hv2 & Hk2 & Hh2) E.
  unfold sparse_root in E. pose proof (view_hash _ 0 _ _ Hv1 ltac:(lia)) as R1. pose proof (view_hash _ 0 _ _ Hv2 ltac:(lia)) as R2.
  rewrite E, R2 in R1. rewrite !Nat.sub_0_r in R1.
  rewrite <-(hashed_is K m1 c1 Hap Hd1 Hh1) in I1. rewrite <-(hashed_is K m2 c2 Hap Hd2 Hh2) in I2.
  assert (∀ k, utf8 <$> c2 !! k = utf8 <$> c1 !! k) as R.
  { eapply (reference_binding inputs Hfree TREE_DEPTH 0); [lia|done|done|apply agree_0|apply agree_0|by apply covers_content..|exact R1]. }
  intros key Hkey. by rewrite <-(hashed_lookup K Hap m1 c1 key Hd1 Hh1 Hkey), <-(hashed_lookup K Hap m2 c2 key Hd2 Hh2 Hkey), R.
Qed.

(** ** The ledger a view rebuilds *)

Lemma account_text_inj (b n b' n' : Z) :
  isSafeInteger b = true → isSafeInteger n = true → isSafeInteger b' = true → isSafeInteger n' = true →
  utf8 (value_text (account_value b n)) = utf8 (value_text (account_value b' n')) → b = b' ∧ n = n'.
Proof.
  intros Hb Hn Hb' Hn' E. assert (∀ x y, isSafeInteger x = true → isSafeInteger y = true → byte_units (value_text (account_value x y))) as Hbytes.
  { intros x y Hx Hy. destruct (tidy_normalize _ 0 (tidy_account x y Hx Hy)) as (Hno & _ & _ & Ho). unfold value_text, canonicalJson. rewrite Hno.
    cbn [fmap res_fmap mbind res_bind]. destruct (stringify (account_value x y)) as [t|] eqn:Et; [|constructor]. by eapply stringify_byte. }
  apply utf8_byte_inj in E; [|by apply Hbytes|by apply Hbytes].
  destruct (tidy_text _ (tidy_account b n Hb Hn)) as [_ P1]. destruct (tidy_text _ (tidy_account b' n' Hb' Hn')) as [_ P2].
  rewrite E, P2 in P1. apply Ok_inj in P1. by injection P1 as -> ->.
Qed.

Lemma mirrors_texts (st st' : LedgerState) (g g' m m' : gmap string (jsval units)) :
  in_range st → in_range st' → mirrors st g m → mirrors st' g' m' →
  (∀ key, utf8 <$> (value_text <$> m !! key) = utf8 <$> (value_text <$> m' !! key)) → st = st'.
Proof.
  intros Hr Hr' [Ma Me _] [Ma' Me' _] E. destruct st as [acc ep], st' as [acc' ep']. f_equal.
  - apply map_eq. intros a. specialize (E (accountKey a)). rewrite Ma, Ma' in E. cbn [accounts] in E.
    destruct (acc !! a) as [x|] eqn:Ex, (acc' !! a) as [y|] eqn:Ey; cbn in E; try done. injection E as E.
    destruct (Hr _ _ Ex) as [Hb Hn], (Hr' _ _ Ey) as [Hb' Hn'].
    apply account_text_inj in E as [E1 E2]; [|by apply supply_safe| |by apply supply_safe|].
    + destruct x, y. cbn in *. by subst.
    + apply isSafeInteger_spec. lia.
    + apply isSafeInteger_spec. lia.
  - apply set_eq. intros e. specialize (E (activityEpochKey e)). rewrite Me, Me' in E. cbn [settledActivityEpochs] in E.
    repeat case_decide; done.
Qed.

(** The values of a view, with its schedules unchecked. *)
Definition view_map (st : LedgerState) (g : GovernanceOf (jsval units)) : gmap string (jsval units) :=
  insert_each (λ e, activityOracleGovernanceKey e.1.1) (λ e, oracle_governance_value e.1.2 e.2)
    (insert_each (λ e, protocolScheduleKey e.1) (λ e, protocol_value e.2)
      (insert_each (λ e, validatorScheduleKey e.1) (λ e, raw_validators_value e.2)
        (insert_each activityEpochKey (λ _, settled_value)
          (insert_each (λ a, accountKey (ar_address a)) (λ a, account_value (ar_balanceAtoms a) (ar_nonce a)) ∅
            (js_sort (λ a b, text_le (ar_address a) (ar_address b)) (sn_accounts (snapshot st))))
          (js_sort Z.leb (sn_settledActivityEpochs (snapshot st))))
        (js_sort (λ a b, a.1 <=? b.1) (gs_validatorSchedule g)))
      (js_sort (λ a b, a.1 <=? b.1) (gs_protocolSchedule g)))
    (js_sort (λ a b, a.1.1 <=? b.1.1) (default [] (gs_activityOracleGovernance g))).

Lemma view_map_mirrors (st : LedgerState) (g : GovernanceOf (jsval units)) : ∃ g', mirrors st g' (view_map st g).
Proof.
  unfold view_map. eexists.
  do 3 (apply mirrors_entries; [|intros i; first [apply other_oracle|apply other_protocol|apply other_validator]]).
  pose proof (mirrors_epochs (js_sort Z.leb (sn_settledActivityEpochs (snapshot st))) _ ∅ _
    (mirrors_accounts (js_sort (λ a b, text_le (ar_address a) (ar_address b)) (sn_accounts (snapshot st))) emptyLedger ∅ ∅ mirrors_empty)) as Hm.
  cbn [accounts settledActivityEpochs emptyLedger] in Hm. rewrite snapshot_accounts_map, snapshot_epochs_set in Hm.
  by destruct st.
Qed.

Lemma rebuilt_texted (K : gset string) (st : LedgerState) (g : GovernanceOf (jsval units)) (s : SparseMerkleState) :
  hashes_apart K → dom (view_map st g) ⊆ K →
  stateV2FromLedgerSnapshotSteps raw_validators_value sparse_empty (snapshot st) (Some g) = Ok s → texted K s (view_map st g).
Proof.
  intros Hap Hd E. unfold stateV2FromLedgerSnapshotSteps in E.
  apply res_bind_Ok in E as (s1 & E1 & E). apply res_bind_Ok in E as (s2 & E2 & E). apply res_bind_Ok in E as (s3 & E3 & E). apply res_bind_Ok in E as (s4 & E4 & E).
  assert (∀ key, key ∈ dom (view_map st g) → key ∈ K) as HK by set_solver. unfold view_map in HK. 
  assert (texted K sparse_empty ∅) as Hempty by (apply (stands_texted K K); [by apply empty_stands|set_solver]).
  unfold view_map. eapply texted_set_each; [done| | |exact E].
  2: eapply texted_set_each; [done| | |exact E4]. 3: eapply texted_set_each; [done| | |exact E3].
  4: eapply texted_set_each; [done| | |exact E2]. 5: eapply texted_set_each; [done| |exact Hempty|exact E1].
  all: intros i Hi; apply HK; rewrite !insert_each_dom; eauto 10.
Qed.

(** The keys of a view are not empty. *)
Lemma view_map_nonempty (st : LedgerState) (g : GovernanceOf (jsval units)) : "" ∉ dom (view_map st g).
Proof.
  unfold view_map. rewrite !insert_each_dom. intros Hin. repeat destruct Hin as [Hin|Hin]; try (destruct Hin as (i & _ & [=]); done).
  by rewrite dom_empty, elem_of_empty in Hin.
Qed.

(** The values of the tree that [reconstructStateV2PortableView] rebuilds from a
    view to compare roots. *)
Definition view_values (v : StateV2PortableView) : gmap string (jsval units) :=
  match fromSnapshot (snapshot_json (pv_ledger v)) with
  | Ok st => view_map st (pv_governance v)
  | Throw _ => ∅
  end.

(** A view with the root of a tree that refines a ledger is that ledger. *)
Lemma view_exact (K : gset string) (st : LedgerState) (g m : gmap string (jsval units)) (s : SparseMerkleState) (acc : Collected) (v : StateV2PortableView) :
  hashes_apart K → refines K st g s → mirrors st g m → portable_view_of acc (sparse_root s) = Ok v →
  pv_ledger v = snapshot st ∨ collision_among (values_inputs (view_values v) ++ values_inputs m).
Proof.
  intros [HK _] (Hr & m' & Hs & Hm) Hm0 E. rewrite (mirrors_unique _ _ _ _ Hm0 Hm). clear m Hm0. rename m' into m.
  unfold portable_view_of in E. cbv zeta in E.
  do 5 apply res_bind_Ok in E as ([] & _ & E). apply res_bind_Ok in E as (st' & Hst' & E). apply res_bind_Ok in E as (rebuilt & Hrebuilt & E).
  apply res_bind_Ok in E as ([] & Hroot & E). apply Ok_inj in E as <-. unfold view_values. cbn [pv_ledger pv_governance].
  apply throw_if_Ok, negb_false_iff, String.eqb_eq in Hroot. set (gov := mkGovernance _ _ _) in *.
  rewrite (snapshot_roundtrip st' (fromSnapshot_wf _ _ Hst')).
  set (inputs := values_inputs (view_map st' gov) ++ values_inputs m).
  destruct (free_or_collision inputs) as [Hfree|]; [left|by right].
  assert (key_inputs (dom (view_map st' gov)) ⊆ inputs ∧ content_inputs (content_of (view_map st' gov)) ⊆ inputs ∧
    key_inputs (dom m) ⊆ inputs ∧ content_inputs (content_of m) ⊆ inputs) as (I1 & I2 & I3 & I4).
  { unfold inputs, values_inputs. split_and!; intros x Hx; rewrite !elem_of_app; tauto. }
  assert (hashes_apart (dom m ∪ dom (view_map st' gov))) as Hap.
  { apply (apart_of_free inputs); [|done|].
    - rewrite elem_of_union. intros [Hin|Hin]; [|by apply view_map_nonempty in Hin]. apply HK. by apply (proj1 Hs).
    - intros x (k & -> & Hk)%list_elem_of_fmap. apply elem_of_elements, elem_of_union in Hk as [Hk|Hk]; [apply I3|apply I1];
        apply list_elem_of_fmap; exists k; (split; [done|by apply elem_of_elements]). }
  assert (texted (dom m ∪ dom (view_map st' gov)) s m) as T1 by (eapply stands_texted; [exact Hs|apply union_subseteq_l]).
  assert (texted (dom m ∪ dom (view_map st' gov)) rebuilt (view_map st' gov)) as T2 by (apply rebuilt_texted; [done|apply union_subseteq_r|exact Hrebuilt]).
  clearbody inputs. pose proof (texted_same inputs (dom m ∪ dom (view_map st' gov)) s rebuilt m (view_map st' gov) Hfree I4 I2 Hap T1 T2 (eq_sym Hroot)) as Hsame.
  clear Hfree I1 I2 I3 I4.
  destruct (view_map_mirrors st' gov) as [g' Hm']. f_equal. symmetry. eapply mirrors_texts; [done| |done|done|].
  - by eapply snapshot_in_range, fromSnapshot_wf.
  - intros key. destruct (decide (key ∈ dom m ∪ dom (view_map st' gov))) as [Hin|Hout]; [by apply Hsame|].
    apply not_elem_of_union in Hout as [Ho1%not_elem_of_dom Ho2%not_elem_of_dom]. by rewrite Ho1, Ho2.
Qed.

End texts.
