(* ===== verification/PortableBundle.v ===== *)
(** Portable state (l1/src/state-v2.ts, [nodeRecordBatches];
    l1/src/state-v2-portable.ts; l1/src/chain.ts, [fromTrustedPortableState]): the
    records of a tree in batches, a self-contained bundle of records and key
    preimages, its validation against a root, and the chain built from one. *)

From S2P Require Import Prelude Types Codec JsonText Crypto Transaction TxShape Ledger LedgerHistory SparseTree StateV2 StateV2Root Portable AnchoredStream Block Genesis Governance BlockEnvelope Chain ChainGovernance ChainHistory TrustedSnapshot Checkpoint PortableView.

(** ** The records of a tree

    The traversal keeps an explicit stack of branches, each with the number of
    children entered so far. *)

Record Frame := mkFrame { fr_hash : string; fr_left : NodeLink; fr_right : NodeLink; fr_depth : nat; fr_next : nat }.

(** [seen], [stack] (top first), [batch] and the batches yielded so far. *)
Record Batching := mkBatching {
  bt_seen : gset string;
  bt_stack : list Frame;
  bt_batch : list StateV2NodeRecord;
  bt_yielded : list (list StateV2NodeRecord) }.

Definition branch_record (f : Frame) : StateV2NodeRecord := BranchRecord (fr_hash f) (linkHash (fr_left f)) (linkHash (fr_right f)).

(** [if (batch.length >= batchSize) { yield batch; batch = []; }] *)
Definition flush (batchSize : Z) (b : Batching) : Batching :=
  if batchSize <=? zlen (bt_batch b) then mkBatching (bt_seen b) (bt_stack b) [] (bt_yielded b ++ [bt_batch b]) else b.

Section records.
Context `{Crypto}.

(** [enter(link, depth)] *)
Definition enter (resolver : option StateV2NodeResolver) (link : NodeLink) (depth : nat) (b : Batching) : res Batching :=
  match linkHash link with
  | None => Ok b
  | Some hash =>
    if bool_decide (hash ∈ bt_seen b) then Ok b
    else
      node ← resolveNode resolver link depth;
      let seen := {[default "" (linkHash node)]} ∪ bt_seen b in
      match node with
      | LeafNode h keyHash valueHash valueJson =>
        Ok (mkBatching seen (bt_stack b) (bt_batch b ++ [LeafRecord h keyHash valueHash valueJson]) (bt_yielded b))
      | BranchNode h l r => Ok (mkBatching seen (mkFrame h l r depth 0 :: bt_stack b) (bt_batch b) (bt_yielded b))
      | _ => Ok (mkBatching seen (bt_stack b) (bt_batch b) (bt_yielded b))
      end
  end.

(** One iteration of [while (stack.length > 0)] on the frame on top. *)
Definition batch_step (resolver : option StateV2NodeResolver) (batchSize : Z) (f : Frame) (rest : list Frame) (b : Batching) : res Batching :=
  let again n := mkBatching (bt_seen b) (mkFrame (fr_hash f) (fr_left f) (fr_right f) (fr_depth f) n :: rest) (bt_batch b) (bt_yielded b) in
  b' ← match fr_next f with
       | O => enter resolver (fr_left f) (S (fr_depth f)) (again 1%nat)
       | S O => enter resolver (fr_right f) (S (fr_depth f)) (again 2%nat)
       | _ => Ok (mkBatching (bt_seen b) rest (bt_batch b ++ [branch_record f]) (bt_yielded b))
       end;
  Ok (flush batchSize b').

Fixpoint batch_loop (fuel : nat) (resolver : option StateV2NodeResolver) (batchSize : Z) (b : Batching) : res Batching :=
  match bt_stack b with
  | [] => Ok b
  | f :: rest =>
    match fuel with
    | O => Throw "out of fuel"
    | S fuel' => b' ← batch_step resolver batchSize f rest b; batch_loop fuel' resolver batchSize b'
    end
  end.

(** The batches of a state, when the consumer takes all of them. *)
Definition nodeRecordBatches (fuel : nat) (batchSize : Z) (s : SparseMerkleState) : res (list (list StateV2NodeRecord)) :=
  throw_if (negb (isSafeInteger batchSize) || (batchSize <? 1)) "Invalid State v2 node record batch size";;
  b ← enter (nodeResolver s) (rootNode s) 0 (mkBatching ∅ [] [] []);
  b ← batch_loop fuel (nodeResolver s) batchSize b;
  Ok (bt_yielded b ++ (if 0 <? zlen (bt_batch b) then [bt_batch b] else [])).

Definition nodeRecords (fuel : nat) (s : SparseMerkleState) : res (list StateV2NodeRecord) :=
  batches ← nodeRecordBatches fuel 4096 s; Ok (concat batches).

(** The same traversal by recursion: children before their branch, every hash
    once.  It is bounded by the depth of the tree. *)
Fixpoint visit_records (resolver : option StateV2NodeResolver) (n : nat) (link : NodeLink) (depth : nat)
    (acc : gset string * list StateV2NodeRecord) : res (gset string * list StateV2NodeRecord) :=
  match linkHash link with
  | None => Ok acc
  | Some hash =>
    if bool_decide (hash ∈ acc.1) then Ok acc
    else
      node ← resolveNode resolver link depth;
      let seen := {[default "" (linkHash node)]} ∪ acc.1 in
      match node with
      | LeafNode h keyHash valueHash valueJson => Ok (seen, acc.2 ++ [LeafRecord h keyHash valueHash valueJson])
      | BranchNode h l r =>
        match n with
        | O => Throw "State v2 branch below tree depth"
        | S n' =>
          acc1 ← visit_records resolver n' l (S depth) (seen, acc.2);
          acc2 ← visit_records resolver n' r (S depth) acc1;
          Ok (acc2.1, acc2.2 ++ [BranchRecord h (linkHash l) (linkHash r)])
        end
      | _ => Ok (seen, acc.2)
      end
  end.
Definition records_within (n : nat) (s : SparseMerkleState) : res (list StateV2NodeRecord) :=
  acc ← visit_records (nodeResolver s) n (rootNode s) 0 (∅, []); Ok acc.2.
Definition post_order (s : SparseMerkleState) : res (list StateV2NodeRecord) := records_within TREE_DEPTH s.

(** ** Batches against the recursion *)

(** What the traversal has produced, in order. *)
Definition produced (b : Batching) : list StateV2NodeRecord := concat (bt_yielded b) ++ bt_batch b.

(** Between two iterations the batch is short and every yielded one is full. *)
Definition ready (batchSize : Z) (b : Batching) : Prop :=
  zlen (bt_batch b) < batchSize ∧ Forall (λ batch, zlen batch = batchSize) (bt_yielded b).

Lemma flush_push (batchSize : Z) (seen : gset string) (stack : list Frame) (batch : list StateV2NodeRecord) (yielded : list (list StateV2NodeRecord))
    (r : StateV2NodeRecord) :
  1 ≤ batchSize → ready batchSize (mkBatching seen stack batch yielded) →
  let b := flush batchSize (mkBatching seen stack (batch ++ [r]) yielded) in
  bt_seen b = seen ∧ bt_stack b = stack ∧ produced b = produced (mkBatching seen stack batch yielded) ++ [r] ∧ ready batchSize b.
Proof.
  intros Hb [Hl Hy]. cbn in Hl, Hy. unfold flush, produced, ready. cbn [bt_batch bt_yielded bt_seen bt_stack].
  assert (zlen (batch ++ [r]) = zlen batch + 1) as Hz by (unfold zlen; rewrite length_app; cbn; lia).
  destruct (Z.leb_spec batchSize (zlen (batch ++ [r]))); cbn [bt_batch bt_yielded bt_seen bt_stack].
  - rewrite concat_app. cbn [concat]. rewrite !app_nil_r, <-app_assoc. split_and!; [done|done|done|unfold zlen; cbn; lia|].
    apply Forall_app. split; [done|]. constructor; [lia|constructor].
  - rewrite <-app_assoc. split_and!; done || lia.
Qed.

Lemma flush_ready (batchSize : Z) (b : Batching) : ready batchSize b → flush batchSize b = b.
Proof. intros [Hl _]. unfold flush. by destruct (Z.leb_spec batchSize (zlen (bt_batch b))); [lia|]. Qed.

Lemma loop_step (fuel : nat) (resolver : option StateV2NodeResolver) (batchSize : Z) (f : Frame) (rest : list Frame) (b b' : Batching) :
  bt_stack b = f :: rest → batch_step resolver batchSize f rest b = Ok b' →
  batch_loop (S fuel) resolver batchSize b = batch_loop fuel resolver batchSize b'.
Proof. intros Hs Hb. cbn [batch_loop]. rewrite Hs, Hb. done. Qed.

(** The state with the frame on top replaced, as an iteration leaves it. *)
Definition on_top (b : Batching) (f : Frame) (rest : list Frame) (next : nat) : Batching :=
  mkBatching (bt_seen b) (mkFrame (fr_hash f) (fr_left f) (fr_right f) (fr_depth f) next :: rest) (bt_batch b) (bt_yielded b).

(** Entering a link and looping until the stack is as before has done what the
    recursion does, in at most three iterations per record. *)
Definition simulated (resolver : option StateV2NodeResolver) (batchSize : Z) (link : NodeLink) (depth : nat) (b : Batching)
    (seen' : gset string) (new : list StateV2NodeRecord) : Prop :=
  ∃ b1 k b2, enter resolver link depth b = Ok b1 ∧ (k ≤ 3 * length new)%nat ∧
    (∀ fuel, batch_loop (k + fuel) resolver batchSize (flush batchSize b1) = batch_loop fuel resolver batchSize b2) ∧
    bt_seen b2 = seen' ∧ bt_stack b2 = bt_stack b ∧ produced b2 = produced b ++ new ∧ ready batchSize b2.

Lemma branch_simulates (resolver : option StateV2NodeResolver) (batchSize : Z) (h : string) (l r : NodeLink) (depth : nat) (b : Batching)
    (seen1 seen2 : gset string) (new1 new2 : list StateV2NodeRecord) :
  1 ≤ batchSize → ready batchSize b →
  (∀ b', ready batchSize b' → bt_seen b' = bt_seen b → simulated resolver batchSize l (S depth) b' seen1 new1) →
  (∀ b', ready batchSize b' → bt_seen b' = seen1 → simulated resolver batchSize r (S depth) b' seen2 new2) →
  let f := mkFrame h l r depth 0 in
  ∃ k b3, (k ≤ 3 * length (new1 ++ new2 ++ [branch_record f]))%nat ∧
    (∀ fuel, batch_loop (k + fuel) resolver batchSize (on_top b f (bt_stack b) 0) = batch_loop fuel resolver batchSize b3) ∧
    bt_seen b3 = seen2 ∧ bt_stack b3 = bt_stack b ∧ produced b3 = produced b ++ new1 ++ new2 ++ [branch_record f] ∧ ready batchSize b3.
Proof.
  intros Hb Hr Hl Hrt f. set (rest := bt_stack b).
  destruct (Hl (on_top b f rest 1)) as (b1 & k1 & c1 & E1 & Hk1 & L1 & S1 & T1 & P1 & R1); [exact Hr|done|]. cbn [bt_stack on_top] in T1.
  destruct (Hrt (on_top c1 f rest 2)) as (b2 & k2 & c2 & E2 & Hk2 & L2 & S2 & T2 & P2 & R2); [exact R1|exact S1|]. cbn [bt_stack on_top] in T2.
  destruct (flush_push batchSize (bt_seen c2) rest (bt_batch c2) (bt_yielded c2) (branch_record f)) as (S3 & T3 & P3 & R3); [done|exact R2|].
  set (b3 := flush batchSize (mkBatching (bt_seen c2) rest (bt_batch c2 ++ [branch_record f]) (bt_yielded c2))) in *.
  exists (S (k1 + S (k2 + 1)))%nat, b3. split_and!; [rewrite !length_app; cbn; lia| |congruence|done| |done].
  - intros fuel. cbn [Nat.add]. erewrite loop_step; [|reflexivity|unfold batch_step, on_top; cbn; unfold on_top in E1; cbn in E1; rewrite E1; reflexivity].
    rewrite <-Nat.add_assoc, L1. cbn [Nat.add].
    erewrite loop_step; [|exact T1|unfold batch_step; cbn; unfold on_top in E2; cbn in E2; rewrite E2; reflexivity].
    rewrite <-Nat.add_assoc, L2. cbn [Nat.add]. erewrite loop_step; [|exact T2|reflexivity]. done.
  - rewrite P3. unfold produced in *. cbn [bt_batch bt_yielded on_top] in *. rewrite P2, P1, <-!app_assoc. done.
Qed.

Lemma visit_unfold (resolver : option StateV2NodeResolver) (n : nat) (link : NodeLink) (depth : nat) (acc : gset string * list StateV2NodeRecord) :
  visit_records resolver n link depth acc =
  match linkHash link with
  | None => Ok acc
  | Some hash =>
    if bool_decide (hash ∈ acc.1) then Ok acc
    else
      node ← resolveNode resolver link depth;
      let seen := {[default "" (linkHash node)]} ∪ acc.1 in
      match node with
      | LeafNode h keyHash valueHash valueJson => Ok (seen, acc.2 ++ [LeafRecord h keyHash valueHash valueJson])
      | BranchNode h l r =>
        match n with
        | O => Throw "State v2 branch below tree depth"
        | S n' =>
          acc1 ← visit_records resolver n' l (S depth) (seen, acc.2);
          acc2 ← visit_records resolver n' r (S depth) acc1;
          Ok (acc2.1, acc2.2 ++ [BranchRecord h (linkHash l) (linkHash r)])
        end
      | _ => Ok (seen, acc.2)
      end
  end.
Proof. by destruct n. Qed.

Lemma visit_simulated (resolver : option StateV2NodeResolver) (batchSize : Z) (n : nat) (link : NodeLink) (depth : nat)
    (seen seen' : gset string) (l l' : list StateV2NodeRecord) :
  1 ≤ batchSize → visit_records resolver n link depth (seen, l) = Ok (seen', l') →
  ∃ new, l' = l ++ new ∧ ∀ b, ready batchSize b → bt_seen b = seen → simulated resolver batchSize link depth b seen' new.
Proof.
  intros Hb. revert link depth seen seen' l l'. induction n as [n IH] using lt_wf_ind; intros link depth seen seen' l l' E.
  assert (∀ b seen', ready batchSize b → enter resolver link depth b = Ok (mkBatching seen' (bt_stack b) (bt_batch b) (bt_yielded b)) →
    simulated resolver batchSize link depth b seen' []) as Hnone.
  { intros b s' Hr He. eexists _, 0%nat, _. split; [exact He|]. rewrite flush_ready by exact Hr. rewrite app_nil_r. by split_and!. }
  rewrite visit_unfold in E. cbn [fst snd] in E.
  destruct (linkHash link) as [hash|] eqn:El.
  2: { apply Ok_inj in E as [= <- <-]. exists []. rewrite app_nil_r. split; [done|]. intros b Hr <-. apply Hnone; [done|]. unfold enter. rewrite El. by destruct b. }
  destruct (bool_decide (hash ∈ seen)) eqn:Ed.
  { apply Ok_inj in E as [= <- <-]. exists []. rewrite app_nil_r. split; [done|]. intros b Hr <-. apply Hnone; [done|]. unfold enter. rewrite El, Ed. by destruct b. }
  apply res_bind_Ok in E as (node & Hnode & E). cbv zeta in E.
  assert (∀ b, bt_seen b = seen → enter resolver link depth b = (let seen := {[default "" (linkHash node)]} ∪ bt_seen b in
      match node with
      | LeafNode h keyHash valueHash valueJson =>
        Ok (mkBatching seen (bt_stack b) (bt_batch b ++ [LeafRecord h keyHash valueHash valueJson]) (bt_yielded b))
      | BranchNode h l r => Ok (mkBatching seen (mkFrame h l r depth 0 :: bt_stack b) (bt_batch b) (bt_yielded b))
      | _ => Ok (mkBatching seen (bt_stack b) (bt_batch b) (bt_yielded b))
      end)) as Henter.
  { intros b <-. unfold enter. by rewrite El, Ed, Hnode. }
  destruct node as [|h k v x|h left right|h].
  - apply Ok_inj in E as [= <- <-]. exists []. rewrite app_nil_r. split; [done|]. intros b Hr Hs. apply Hnone; [done|]. by rewrite Henter, Hs.
  - apply Ok_inj in E as [= <- <-]. exists [LeafRecord h k v x]. split; [done|]. intros b Hr Hs.
    destruct (flush_push batchSize ({[h]} ∪ seen) (bt_stack b) (bt_batch b) (bt_yielded b) (LeafRecord h k v x)) as (S3 & T3 & P3 & R3); [done|exact Hr|].
    eexists _, 0%nat, _. split; [by apply Henter|]. cbn [linkHash default]. rewrite Hs. split; [lia|]. split; [done|]. done.
  - destruct n as [|n]; [done|]. apply res_bind_Ok in E as ([s1 l1] & E1 & E). apply res_bind_Ok in E as ([s2 l2] & E2 & E). apply Ok_inj in E as [= <- <-].
    destruct (IH n (Nat.lt_succ_diag_r n) _ _ _ _ _ _ E1) as (new1 & -> & H1). destruct (IH n (Nat.lt_succ_diag_r n) _ _ _ _ _ _ E2) as (new2 & -> & H2).
    exists (new1 ++ new2 ++ [BranchRecord h (linkHash left) (linkHash right)]). rewrite !app_assoc. split; [done|]. rewrite <-!app_assoc. intros b Hr Hs.
    set (b0 := mkBatching ({[h]} ∪ seen) (bt_stack b) (bt_batch b) (bt_yielded b)).
    destruct (branch_simulates resolver batchSize h left right depth b0 s1 s2 new1 new2 Hb Hr H1 H2) as (k & b3 & Hk & L & S3 & T3 & P3 & R3).
    eexists _, k, b3. split; [by apply Henter|]. cbn [linkHash default]. rewrite Hs, flush_ready by exact Hr. by split_and!.
  - apply Ok_inj in E as [= <- <-]. exists []. rewrite app_nil_r. split; [done|]. intros b Hr Hs. apply Hnone; [done|]. by rewrite Henter, Hs.
Qed.

(** Entering the root pushes a branch or a single leaf. *)
Lemma enter_root (resolver : option StateV2NodeResolver) (link : NodeLink) (b : Batching) :
  enter resolver link 0 (mkBatching ∅ [] [] []) = Ok b →
  bt_yielded b = [] ∧ (bt_batch b = [] ∨ (bt_stack b = [] ∧ ∃ r, bt_batch b = [r])).
Proof.
  unfold enter. destruct (linkHash link); [|intros <-%Ok_inj; auto]. cbn [bt_seen]. destruct (bool_decide _); [intros <-%Ok_inj; auto|].
  intros (node & _ & E)%res_bind_Ok. cbv zeta in E. destruct node; apply Ok_inj in E as <-; cbn; eauto.
Qed.

(** The batches at the end of the loop. *)
Lemma batches_shape (batchSize : Z) (b : Batching) :
  1 ≤ batchSize → ready batchSize b →
  let batches := bt_yielded b ++ (if 0 <? zlen (bt_batch b) then [bt_batch b] else []) in
  concat batches = produced b ∧
  (∀ i batch, batches !! i = Some batch → 1 ≤ zlen batch ≤ batchSize ∧ ((S i < length batches)%nat → zlen batch = batchSize)).
Proof.
  intros Hb [Hl Hy]. cbv zeta. split.
  - rewrite concat_app. unfold produced. f_equal. destruct (Z.ltb_spec 0 (zlen (bt_batch b))); [cbn; by rewrite app_nil_r|].
    destruct (bt_batch b); [done|]. unfold zlen in *. cbn [length] in *. lia.
  - intros i batch Hi. rewrite Forall_forall in Hy. apply lookup_app_Some in Hi as [Hi|[Hge Hi]].
    + apply list_elem_of_lookup_2, Hy in Hi as Hz. lia.
    + destruct (Z.ltb_spec 0 (zlen (bt_batch b))); [|done]. apply list_lookup_singleton_Some in Hi as [Hi <-]. split; [lia|].
      rewrite length_app. cbn. lia.
Qed.

Lemma visit_batches (s : SparseMerkleState) (batchSize : Z) (n : nat) (records : list StateV2NodeRecord) (fuel : nat) :
  1 ≤ batchSize ≤ MAX_SAFE_INTEGER → records_within n s = Ok records → (3 * length records ≤ fuel)%nat →
  ∃ batches, nodeRecordBatches fuel batchSize s = Ok batches ∧ concat batches = records ∧
    (∀ i batch, batches !! i = Some batch → 1 ≤ zlen batch ≤ batchSize ∧ ((S i < length batches)%nat → zlen batch = batchSize)).
Proof.
  intros Hb ([seen l] & E & El)%res_bind_Ok Hf. apply Ok_inj in El as <-. cbn [snd] in Hf |- *.
  destruct (visit_simulated _ batchSize _ _ _ _ _ _ _ (proj1 Hb) E) as (new & -> & Hsim). cbn [app] in Hf |- *.
  assert (ready batchSize (mkBatching ∅ [] [] [])) as Hr0 by (split; [unfold zlen; cbn; lia|constructor]).
  destruct (Hsim _ Hr0 eq_refl) as (b1 & k & b2 & He & Hk & L & _ & T2 & P2 & R2).
  assert (nodeRecordBatches fuel batchSize s = b ← batch_loop fuel (nodeResolver s) batchSize b1;
    Ok (bt_yielded b ++ (if 0 <? zlen (bt_batch b) then [bt_batch b] else []))) as ->.
  { unfold nodeRecordBatches. rewrite He. rewrite (proj2 (throw_if_Ok _ _ ())); [done|]. apply orb_false_iff. split; [|apply Z.ltb_ge; lia].
    apply negb_false_iff, isSafeInteger_spec. lia. }
  destruct (enter_root _ _ _ He) as [Hy Hcases]. destruct (batches_shape batchSize b2 (proj1 Hb) R2) as [Hcat Hshape].
  destruct (Z.leb_spec batchSize (zlen (bt_batch b1))) as [Hfull|Hshort].
  - (* the root is a leaf and fills the only batch *)
    destruct Hcases as [Hn|[Hst [r Hbatch]]]; [rewrite Hn in Hfull; unfold zlen in Hfull; cbn in Hfull; lia|].
    assert (batch_loop fuel (nodeResolver s) batchSize b1 = Ok b1) as -> by (destruct fuel; cbn; by rewrite Hst). cbn [mbind res_bind].
    specialize (L 0%nat). unfold flush in L. rewrite (proj2 (Z.leb_le _ _) Hfull) in L. cbn [bt_stack] in L.
    assert (b2 = mkBatching (bt_seen b1) (bt_stack b1) [] (bt_yielded b1 ++ [bt_batch b1])) as ->.
    { rewrite Hst in L |- *. assert (∀ m c, bt_stack c = [] → batch_loop m (nodeResolver s) batchSize c = Ok c) as Hdone by (intros [|m] c Hc; cbn; by rewrite Hc).
      rewrite !Hdone in L by done. by apply Ok_inj in L. }
    eexists. split; [reflexivity|]. rewrite Hbatch, Hy. cbn. unfold produced in P2. rewrite Hbatch, Hy in P2. cbn in P2. split; [done|].
    intros [|i] batch Hi; [|done]. injection Hi as <-. rewrite Hbatch in Hfull. clear -Hfull Hb. unfold zlen in *. cbn [length] in *. lia.
  - rewrite (flush_ready _ b1) in L; [|split; [done|rewrite Hy; constructor]].
    assert (fuel = k + (fuel - k))%nat as -> by lia. rewrite L.
    assert (batch_loop (fuel - k) (nodeResolver s) batchSize b2 = Ok b2) as -> by (destruct (fuel - k)%nat; cbn; by rewrite T2).
    eexists. split; [reflexivity|]. split; [rewrite Hcat; exact P2|exact Hshape].
Qed.

(** The records of a tree come out in batches exactly as the recursive
    post-order walk lists them: the iterative traversal with its explicit stack ends
    within three iterations per record, every batch but the last has the size asked
    for, none is empty, and together they are the list, children before their branch
    and every node once. *)
Theorem node_record_batches (s : SparseMerkleState) (batchSize : Z) (records : list StateV2NodeRecord) (fuel : nat) :
  1 ≤ batchSize ≤ MAX_SAFE_INTEGER → post_order s = Ok records → (3 * length records ≤ fuel)%nat →
  ∃ batches, nodeRecordBatches fuel batchSize s = Ok batches ∧ concat batches = records ∧
    (∀ i batch, batches !! i = Some batch → 1 ≤ zlen batch ≤ batchSize ∧ ((S i < length batches)%nat → zlen batch = batchSize)).
Proof. exact (visit_batches s batchSize TREE_DEPTH records fuel). Qed.
End records.

(** ** Bundles *)

Definition MAX_PORTABLE_STATE_NODES : Z := 2000000.
Definition MAX_PORTABLE_STATE_KEYS : Z := 1000000.

Record StateV2PortableBundle := mkBundle {
  pb_root : string;
  pb_records : list StateV2NodeRecord;
  pb_keyPreimages : list string }.
Record ValidatedPortableBundle := mkValidated {
  vb_bundle : StateV2PortableBundle;
  vb_state : SparseMerkleState;
  vb_view : StateV2PortableView }.

(** A governance snapshot as a value, with the validators as values. *)
Definition governance_value (g : GovernanceOf (jsval units)) : jsval units :=
  let entry h fields := JObj ((lit "activationHeight", JNum (JInt h)) :: fields) in
  JObj ([(lit "validatorSchedule", JArr (map (λ e, entry e.1 [(lit "validators", JArr e.2)]) (gs_validatorSchedule g)));
         (lit "protocolSchedule", JArr (map (λ e, entry e.1 [(lit "protocolVersion", JNum (JInt e.2))]) (gs_protocolSchedule g)))] ++
        match gs_activityOracleGovernance g with
        | None => []
        | Some l => [(lit "activityOracleGovernance", JArr (map (λ e, entry e.1.1
            [(lit "action", JStr (lit (action_text e.1.2))); (lit "publicKeys", JArr (map (λ k, JStr (lit k)) e.2))]) l))]
        end).
Definition raw_governance (g : StateV2GovernanceSnapshot) : GovernanceOf (jsval units) :=
  mkGovernance (map (λ e, (e.1, map (λ v, to_units (validator_json v)) e.2)) (gs_validatorSchedule g)) (gs_protocolSchedule g)
    (gs_activityOracleGovernance g).

(** A text whose characters are bytes is a [string]. *)
Definition byte_text (t : units) : option string := if forallb (λ u, u <? 256) t then Some (text_of_units t) else None.

(** A value of such texts. *)
Fixpoint byte_value (v : jsval units) : option json :=
  let values := fix values (l : list (jsval units)) : option (list json) :=
    match l with [] => Some [] | x :: l' => y ← byte_value x; rest ← values l'; Some (y :: rest) end in
  let members := fix members (l : list (units * jsval units)) : option (list (string * json)) :=
    match l with [] => Some [] | (k, x) :: l' => key ← byte_text k; y ← byte_value x; rest ← members l'; Some ((key, y) :: rest) end in
  match v with
  | JUndefined => Some JUndefined | JFunction => Some JFunction | JNull => Some JNull
  | JBool b => Some (JBool b) | JNum n => Some (JNum n) | JStr t => JStr <$> byte_text t
  | JArr items => JArr <$> values items
  | JObj entries => JObj <$> members entries
  end.

Section bundle.
Context `{Crypto}.

(** The traversal of [nodeRecords] runs on [fuel]. *)
Definition createStateV2PortableBundle (fuel : nat) (state : SparseMerkleState) (ledger : LedgerSnapshot) (governance : StateV2GovernanceSnapshot)
    : res StateV2PortableBundle :=
  source ← stateV2FromLedgerSnapshot ledger (Some governance);
  throw_if (negb (String.eqb (sparse_root source) (sparse_root state))) "Portable State v2 source view does not match state root";;
  let keyPreimages := stateV2KeyPreimages ledger governance in
  reconstructed ← reconstructStateV2PortableView state keyPreimages;
  l1 ← canonicalJson (to_units (snapshot_json (pv_ledger reconstructed)));
  l2 ← canonicalJson (to_units (snapshot_json ledger));
  g1 ← canonicalJson (governance_value (pv_governance reconstructed));
  g2 ← canonicalJson (governance_value (raw_governance governance));
  throw_if (negb (bool_decide (l1 = l2)) || negb (bool_decide (g1 = g2))) "Portable State v2 source view is not canonical";;
  records ← nodeRecords fuel state;
  throw_if ((MAX_PORTABLE_STATE_NODES <? zlen records) || (MAX_PORTABLE_STATE_KEYS <? zlen keyPreimages))
    "Portable State v2 bundle exceeds record limits";;
  Ok (mkBundle (sparse_root state) records keyPreimages).

(** A key preimage with a character above a byte is an account key; the address it
    stands for is refused when the view builds the ledger. *)
Definition byte_key (key : units) : res string := unwrap (byte_text key) "Invalid account address in ledger snapshot".

(** [Array.isArray(value) && 1 <= value.length <= limit] *)
Definition bounded_array (value : jsval units) (limit : Z) : option (list (jsval units)) :=
  match value with JArr items => if (zlen items <? 1) || (limit <? zlen items) then None else Some items | _ => None end.

Definition validateStateV2PortableBundle (value : jsval units) (expectedRoot : string) : res ValidatedPortableBundle :=
  throw_if (negb (isLowerHexOf 64 expectedRoot)) "Invalid expected State v2 root";;
  assertExactPortableRecord value ["version"; "root"; "records"; "keyPreimages"] "portable State v2 bundle";;
  throw_if (negb (bool_decide (safe_member (member value "version") = Some 1)) || negb (is_word (member value "root") expectedRoot))
    "Invalid portable State v2 bundle";;
  recordItems ← unwrap (bounded_array (member value "records") MAX_PORTABLE_STATE_NODES) "Invalid portable State v2 bundle";
  keyItems ← unwrap (bounded_array (member value "keyPreimages") MAX_PORTABLE_STATE_KEYS) "Invalid portable State v2 bundle";
  records ← res_map parseNodeRecord recordItems;
  keys ← res_map parsePortableStateKeyPreimage keyItems;
  state ← fromNodeRecords expectedRoot records;
  reachableHashes ← reachableNodeHashes state;
  throw_if (negb (Z.of_nat (size reachableHashes) =? zlen records)) "Portable State v2 bundle contains unreachable nodes";;
  throw_if (existsb (λ record, negb (bool_decide (recordHash record ∈ reachableHashes))) records)
    "Portable State v2 bundle contains uncommitted nodes";;
  keyPreimages ← res_map byte_key keys;
  view ← reconstructStateV2PortableView state keyPreimages;
  Ok (mkValidated (mkBundle expectedRoot records keyPreimages) state view).

(** ** A chain from a bundle *)

(** [schedule.filter((entry) => entry.activationHeight <= height).at(-1)] *)
Definition active_entry {A} (schedule : list (Z * A)) (height : Z) : option (Z * A) :=
  last (filter (λ e, e.1 ≤ height) schedule).

(** The snapshot put together from the tip and the view.  Validators with other
    texts than bytes are refused with the schedule. *)
Definition portable_snapshot (chainId genesisHash : string) (tip : Block) (v : StateV2PortableView) : res json :=
  let g := pv_governance v in
  validators ← res_map (λ e : Z * list (jsval units),
    items ← res_map (λ i, unwrap (byte_value i) INVALID_VALIDATOR_SCHEDULE) e.2;
    Ok (JObj [("activationHeight", jint e.1); ("validators", JArr items)])) (gs_validatorSchedule g);
  let common :=
    [("chainId", JStr chainId); ("genesisHash", JStr genesisHash); ("height", jint (h_height (b_header tip)));
     ("tip", raw_block_json (raw_of tip)); ("state", snapshot_json (pv_ledger v));
     ("validatorSchedule", JArr validators);
     ("protocolSchedule", JArr (map protocol_entry_json (gs_protocolSchedule g)))] in
  match gs_activityOracleGovernance g with
  | Some ((_ :: _) as oracles) =>
    Ok (JObj (("version", jint 2) :: common ++ [("activityOracleGovernance", JArr (map oracle_entry_json oracles))]))
  | _ => Ok (JObj (("version", jint 1) :: common))
  end.

Definition fromTrustedPortableState (genesis : GenesisConfig) (tipValue : json) (bundle : jsval units) (anchor : TrustedAnchor) : res ZyronChain :=
  tip ← validateBlockShape tipValue;
  validated ← validateStateV2PortableBundle bundle (h_stateRoot (b_header tip));
  let activeProtocol := active_entry (gs_protocolSchedule (pv_governance (vb_view validated))) (h_height (b_header tip)) in
  throw_if (negb (from_option (λ e, protocolUsesStateV2 e.2) false activeProtocol))
    "Portable State v2 checkpoint requires an active State-v2 protocol";;
  base ← new_chain genesis;
  value ← portable_snapshot (g_chainId genesis) (genesisHash base) tip (vb_view validated);
  fromTrustedSnapshot genesis value anchor.

End bundle.

Section exact.
Context `{CryptoLaws}.

Lemma resolver_root (root : string) (resolver : StateV2NodeResolver) (s : SparseMerkleState) :
  fromNodeResolver root resolver = Ok s → sparse_root s = root.
Proof.
  unfold fromNodeResolver. intros ([] & _ & E)%res_bind_Ok. destruct (String.eqb_spec root (EMPTY_HASHES 0)) as [->|]; [by apply Ok_inj in E as <-|].
  apply res_bind_Ok in E as (node & _ & E). by apply Ok_inj in E as <-.
Qed.

Lemma records_root (root : string) (records : list StateV2NodeRecord) (s : SparseMerkleState) :
  fromNodeRecords root records = Ok s → sparse_root s = root.
Proof.
  unfold fromNodeRecords. intros ([] & _ & E)%res_bind_Ok. destruct (String.eqb_spec root (EMPTY_HASHES 0)) as [->|]; [by apply Ok_inj in E as <-|].
  apply res_bind_Ok in E as (m & _ & E). apply res_bind_Ok in E as (s1 & Hs1 & E). apply res_bind_Ok in E as (r & _ & E). apply Ok_inj in E as <-.
  by apply resolver_root in Hs1.
Qed.
Lemma portable_fields (chainId hash : string) (tip : Block) (v : StateV2PortableView) (value : json) (st : LedgerState) :
  portable_snapshot chainId hash tip v = Ok value → checkpoint_ledger value = Ok st → fromSnapshot (snapshot_json (pv_ledger v)) = Ok st.
Proof.
  unfold portable_snapshot. intros (validators & _ & E)%res_bind_Ok (fields & Hf & Hs)%res_bind_Ok.
  unfold snapshot_fields in Hf. apply res_bind_Ok in Hf as (fs & Hfs & Hf). apply res_bind_Ok in Hf as (version & _ & Hf).
  apply res_bind_Ok in Hf as ([] & _ & Hf). apply Ok_inj in Hf as <-. cbn [fst] in Hs.
  destruct (gs_activityOracleGovernance (pv_governance v)) as [[|o os]|]; apply Ok_inj in E as <-; apply Ok_inj in Hfs as <-; exact Hs.
Qed.

Lemma reconstruct_view (s : SparseMerkleState) (keys : list string) (v : StateV2PortableView) :
  reconstructStateV2PortableView s keys = Ok v → ∃ acc, portable_view_of acc (sparse_root s) = Ok v.
Proof.
  unfold reconstructStateV2PortableView. intros (leaves & _ & E)%res_bind_Ok. apply res_bind_Ok in E as ([] & _ & E).
  apply res_bind_Ok in E as (acc & _ & E). apply res_bind_Ok in E as ([] & _ & E). by exists acc.
Qed.

Lemma validated_parts (value : jsval units) (root : string) (b : ValidatedPortableBundle) :
  validateStateV2PortableBundle value root = Ok b →
  sparse_root (vb_state b) = root ∧ ∃ keys, reconstructStateV2PortableView (vb_state b) keys = Ok (vb_view b).
Proof.
  unfold validateStateV2PortableBundle. intros ([] & _ & E)%res_bind_Ok. apply res_bind_Ok in E as ([] & _ & E). apply res_bind_Ok in E as ([] & _ & E).
  apply res_bind_Ok in E as (recordItems & _ & E). apply res_bind_Ok in E as (keyItems & _ & E). apply res_bind_Ok in E as (records & _ & E).
  apply res_bind_Ok in E as (keys & _ & E). apply res_bind_Ok in E as (state & Hstate & E). apply res_bind_Ok in E as (reachable & _ & E).
  apply res_bind_Ok in E as ([] & _ & E). apply res_bind_Ok in E as ([] & _ & E). apply res_bind_Ok in E as (keyPreimages & _ & E).
  apply res_bind_Ok in E as (v & Hv & E). apply Ok_inj in E as <-. cbn [vb_state vb_view]. split; [by eapply records_root|by eexists].
Qed.

Lemma portable_parts (genesis : GenesisConfig) (tipValue : json) (bundle : jsval units) (anchor : TrustedAnchor) (ch : ZyronChain) (tip : Block) :
  fromTrustedPortableState genesis tipValue bundle anchor = Ok ch → validateBlockShape tipValue = Ok tip →
  ∃ b chainId hash value, validateStateV2PortableBundle bundle (h_stateRoot (b_header tip)) = Ok b ∧
    portable_snapshot chainId hash tip (vb_view b) = Ok value ∧ fromTrustedSnapshot genesis value anchor = Ok ch.
Proof.
  intros (tip' & Htip' & E)%res_bind_Ok Htip. rewrite Htip in Htip'. apply Ok_inj in Htip' as <-.
  apply res_bind_Ok in E as (b & Hb & E). apply res_bind_Ok in E as ([] & _ & E). apply res_bind_Ok in E as (base & _ & E).
  apply res_bind_Ok in E as (value & Hvalue & E). by exists b, (g_chainId genesis), (genesisHash base), value.
Qed.

(** C15. Nobody can pass a different ledger off as the committed one: let [s] be a
    tree that holds the ledger [st] and the governance entries [g] ([m] being the
    values of both by key), where the keys in use have different hashes.  The view
    of the tree itself, every portable bundle that validates against its root, and
    the ledger every chain built from a bundle under a tip with that root starts from
    are the snapshot of [st], whatever records, key preimages and schedules were
    supplied.  The only way out is a collision among the byte strings hashed when
    the tree of this view and the tree of [m] are built. *)
Theorem portable_bundle_exact (K : gset string) (st : LedgerState) (g m : gmap string (jsval units)) (s : SparseMerkleState) :
  hashes_apart K → refines K st g s → mirrors st g m →
  let exact v := pv_ledger v = snapshot st ∨ collision_among (values_inputs (view_values v) ++ values_inputs m) in
  (∀ keys v, reconstructStateV2PortableView s keys = Ok v → exact v) ∧
  (∀ value b, validateStateV2PortableBundle value (sparse_root s) = Ok b →
    sparse_root (vb_state b) = sparse_root s ∧ exact (vb_view b)) ∧
  (∀ genesis tipValue tip bundle anchor ch, fromTrustedPortableState genesis tipValue bundle anchor = Ok ch →
    validateBlockShape tipValue = Ok tip → h_stateRoot (b_header tip) = sparse_root s →
    ∃ b value, validateStateV2PortableBundle bundle (sparse_root s) = Ok b ∧ fromTrustedSnapshot genesis value anchor = Ok ch ∧
      (checkpoint_ledger value = fromSnapshot (snapshot_json (snapshot st)) ∨
       collision_among (values_inputs (view_values (vb_view b)) ++ values_inputs m))).
Proof.
  intros Hap Hr Hm exact.
  assert (∀ s' keys v, sparse_root s' = sparse_root s → reconstructStateV2PortableView s' keys = Ok v →
    exact v) as Hview.
  { intros s' keys v Hs' (acc & E)%reconstruct_view. rewrite Hs' in E. by eapply view_exact. }
  assert (∀ value b, validateStateV2PortableBundle value (sparse_root s) = Ok b →
    sparse_root (vb_state b) = sparse_root s ∧ exact (vb_view b)) as Hbundle.
  { intros value b (Hroot & keys & Hv)%validated_parts. split; [done|]. by eapply Hview. }
  split; [intros keys v; by apply Hview|]. split; [done|].
  intros genesis tipValue tip bundle anchor ch E Htip Hroot. destruct (portable_parts _ _ _ _ _ _ E Htip) as (b & chainId & hash & value & Hb & Hvalue & Hload).
  rewrite Hroot in Hb. exists b, value. split; [done|]. split; [done|]. destruct (Hbundle _ _ Hb) as [_ [Hl|]]; [left|by right].
  destruct (load_sound _ _ _ _ Hload) as (st' & version & Hloaded). pose proof (ld_ledger _ _ _ _ _ _ Hloaded) as Hst.
  rewrite Hst, <-Hl. symmetry. by eapply portable_fields.
Qed.

End exact.

Lemma portable_bundle_exact_witness :
  ∃ s m, refines (H := ToyCrypto.toy) StateExample.K StateExample.ledger (governance_map StateExample.gov) s ∧
    ∀ value b, validateStateV2PortableBundle (H := ToyCrypto.toy) value (sparse_root (H := ToyCrypto.toy) s) = Ok b →
      pv_ledger (vb_view b) = snapshot StateExample.ledger ∨
      collision_among (H := ToyCrypto.toy) (values_inputs (H := ToyCrypto.toy) (view_values (vb_view b)) ++ values_inputs (H := ToyCrypto.toy) m).
Proof.
  destruct StateExample.tree as (s & Hs). pose proof Hs as (_ & m & _ & Hm). exists s, m. split; [exact Hs|]. intros value b Hb.
  destruct (portable_bundle_exact (H := ToyCrypto.toy) StateExample.K _ _ m s StateExample.apart Hs Hm) as (_ & Hv & _). exact (proj2 (Hv value b Hb)).
Defined.

(** A tree of three nodes. *)
Module RecordsExample.
Definition left_leaf : NodeLink := LeafNode "a1" "k1" "v1" [].
Definition right_leaf : NodeLink := LeafNode "a2" "k2" "v2" [].
Definition tree3 : SparseMerkleState := mkSparse (BranchNode "b" left_leaf right_leaf) [] None.
Definition records3 : list StateV2NodeRecord :=
  [LeafRecord "a1" "k1" "v1" []; LeafRecord "a2" "k2" "v2" []; BranchRecord "b" (Some "a1") (Some "a2")].
End RecordsExample.

Lemma node_record_batches_witness :
  post_order (H := ToyCrypto.toy) RecordsExample.tree3 = Ok RecordsExample.records3 ∧
  ∃ batches, nodeRecordBatches (H := ToyCrypto.toy) 9 2 RecordsExample.tree3 = Ok batches ∧ concat batches = RecordsExample.records3.
Proof.
  assert (post_order (H := ToyCrypto.toy) RecordsExample.tree3 = Ok RecordsExample.records3) as Hp by (vm_compute; reflexivity).
  split; [exact Hp|].
  destruct (node_record_batches (H := ToyCrypto.toy) RecordsExample.tree3 2 RecordsExample.records3 9) as (batches & Hb & Hc & _);
    [unfold MAX_SAFE_INTEGER; lia|exact Hp|cbn; lia|]. exists batches. split; [exact Hb|exact Hc].
Defined.
