(* ===== verification/PeerAuth.v ===== *)
(** Authenticated peer requests (l1/src/peer-identity.ts): node identities, the
    signing of a request, and [PeerRequestAuthenticator] with its replay cache.

    Times are milliseconds; [Number.POSITIVE_INFINITY] is [None]. *)

From S2P Require Import Prelude JsMap Types Codec JsonText Crypto Transaction TxShape Portable.

Definition PEER_REQUEST_DOMAIN : string := "ZyronChain/peer-request/v1".
Definition PEER_REQUEST_MAX_SKEW_MS : Z := 60000.
Definition MAX_PEER_REQUEST_NONCES : Z := 10000.
Definition MAX_PEER_REQUEST_NONCES_PER_IDENTITY : Z := 2500.

Record NodeIdentity := mkIdentity { ni_nodeId : string; ni_publicKey : string; ni_privateKey : string }.

(** A header is absent, a text or a list of texts. *)
Inductive HeaderValue := HeaderAbsent | HeaderText (text : string) | HeaderList (texts : list string).
Record PeerRequestHeaders := mkHeaders {
  ph_nodeId : HeaderValue; ph_publicKey : HeaderValue; ph_timestamp : HeaderValue;
  ph_nonce : HeaderValue; ph_bodySha256 : HeaderValue; ph_signature : HeaderValue }.

(** What a request is about. *)
Record PeerRequestInput := mkInput { pi_method : string; pi_path : string; pi_bodySha256 : string }.

Inductive ReplayState := Reserved | Consumed.
#[global] Instance ReplayState_eq_dec : EqDecision ReplayState.
Proof. solve_decision. Defined.
Record PeerRequestReplayEntry := mkReplay { re_timestampMs : Z; re_state : ReplayState; re_requestDigest : string }.

Record PeerFields := mkFields {
  pf_nodeId : string; pf_publicKey : string; pf_timestampMs : Z; pf_nonce : string; pf_bodySha256 : string; pf_signature : string }.

Record PeerRequestAuthenticator := mkAuth {
  pa_trustedPublicKeys : list string;
  pa_chainId : string;
  pa_genesisHash : string;
  pa_maxSeenNonces : Z;
  pa_maxSeenNoncesPerIdentity : Z;
  pa_seenNonces : js_map PeerRequestReplayEntry;
  pa_seenNonceCountsByNodeId : js_map Z;
  pa_nextReplaySweepAtMs : option Z;
  pa_replaySweepCount : Z }.

(** [text === text.toUpperCase()] on a text of bytes: no letter that has another
    upper case, in ASCII or in Latin-1. *)
Definition isUpperCased (s : string) : bool :=
  forallb (λ u, negb (((97 <=? u) && (u <=? 122)) || (u =? 181) || ((223 <=? u) && negb (u =? 247)))) (lit s).

Definition singleHeader (value : HeaderValue) (name : string) : res string :=
  match value with
  | HeaderText text => throw_if (String.eqb text "") ("Missing peer request " +:+ name);; Ok text
  | _ => Throw ("Missing peer request " +:+ name)
  end.

(** [key.slice(0, key.indexOf(":"))], or the whole key when there is none. *)
Fixpoint before_colon (s : string) : string :=
  match s with
  | EmptyString => EmptyString
  | String c rest => if Ascii.eqb c ":" then EmptyString else String c (before_colon rest)
  end.

Definition replayKey (nodeId nonce : string) : string := nodeId +:+ ":" +:+ nonce.

Definition replayExpiryAtMs (timestampMs : Z) : option Z :=
  let delta := PEER_REQUEST_MAX_SKEW_MS + 1 in
  if MAX_SAFE_INTEGER - delta <? timestampMs then None else Some (timestampMs + delta).

(** [Math.min], and [now < t] and [now >= t] with an infinite [t]. *)
Definition min_time (a b : option Z) : option Z :=
  match a, b with Some x, Some y => Some (Z.min x y) | None, t | t, None => t end.
Definition before_time (now : Z) (t : option Z) : bool := match t with Some x => now <? x | None => true end.

Section auth.
Context `{Crypto}.

Definition nodeIdFromPublicKey (publicKey : string) : res string :=
  assertHex publicKey 64 "node identity public key";;
  Ok (sha256Hex_bytes (hexBytes publicKey)).

Definition validateNodeIdentity (identity : NodeIdentity) : res unit :=
  assertHex (ni_nodeId identity) 32 "node ID";;
  assertHex (ni_publicKey identity) 64 "node identity public key";;
  assertHex (ni_privateKey identity) 32 "node identity private key";;
  derived ← match publicKeyFromPrivate (ni_privateKey identity) with Ok k => Ok k | Throw _ => Throw "Invalid node identity private key" end;
  nodeId ← nodeIdFromPublicKey (ni_publicKey identity);
  throw_if (negb (String.eqb derived (ni_publicKey identity)) || negb (String.eqb nodeId (ni_nodeId identity))) "Node identity key mismatch".

Definition peerRequestPayload (nodeId publicKey chainId genesisHash : string) (input : PeerRequestInput) (timestampMs : Z) (nonce : string) : res (jsval units) :=
  throw_if (negb (isUpperCased (pi_method input)) || negb (String.prefix "/" (pi_path input))) "Invalid peer request target";;
  Ok (to_units (JObj [("domain", JStr PEER_REQUEST_DOMAIN); ("nodeId", JStr nodeId); ("publicKey", JStr publicKey); ("chainId", JStr chainId);
    ("genesisHash", JStr genesisHash); ("method", JStr (pi_method input)); ("path", JStr (pi_path input));
    ("bodySha256", JStr (pi_bodySha256 input)); ("timestampMs", jint timestampMs); ("nonce", JStr nonce)])).

Definition peerRequestDigest (payload : jsval units) : res string :=
  bytes ← canonicalBytes payload; Ok (sha256Hex_bytes bytes).

(** [timestampMs] and [nonce] are arguments: the clock and random bytes when the
    caller gives none. *)
Definition signPeerRequest (identity : NodeIdentity) (chainId genesisHash : string) (input : PeerRequestInput) (timestampMs : Z) (nonce : string)
    : res PeerRequestHeaders :=
  validateNodeIdentity identity;;
  payload ← peerRequestPayload (ni_nodeId identity) (ni_publicKey identity) chainId genesisHash input timestampMs nonce;
  signature ← signCanonical payload (ni_privateKey identity);
  Ok (mkHeaders (HeaderText (ni_nodeId identity)) (HeaderText (ni_publicKey identity)) (HeaderText (pretty timestampMs))
    (HeaderText nonce) (HeaderText (pi_bodySha256 input)) (HeaderText signature)).

Definition new_authenticator (trustedPublicKeys : list string) (chainId genesisHash : string) (maxSeenNonces : Z) (maxPerIdentity : option Z)
    : res PeerRequestAuthenticator :=
  throw_if (bool_decide (trustedPublicKeys = [])) "At least one trusted peer identity is required";;
  throw_if (negb (isSafeInteger maxSeenNonces) || (maxSeenNonces <? 1) || (MAX_PEER_REQUEST_NONCES <? maxSeenNonces))
    "Invalid peer request replay cache capacity";;
  let perIdentity := default (Z.min MAX_PEER_REQUEST_NONCES_PER_IDENTITY maxSeenNonces) maxPerIdentity in
  throw_if (negb (isSafeInteger perIdentity) || (perIdentity <? 1) || (maxSeenNonces <? perIdentity) || (MAX_PEER_REQUEST_NONCES_PER_IDENTITY <? perIdentity))
    "Invalid peer request per-identity replay cache capacity";;
  res_forall (λ publicKey, assertHex publicKey 64 "trusted peer public key";; nodeIdFromPublicKey publicKey;; Ok ()) trustedPublicKeys;;
  Ok (mkAuth trustedPublicKeys chainId genesisHash maxSeenNonces perIdentity [] [] None 0).

Definition validateHeaders (s : PeerRequestAuthenticator) (headers : PeerRequestHeaders) (nowMs : Z) : res PeerFields :=
  nodeId ← singleHeader (ph_nodeId headers) "node ID";
  publicKey ← singleHeader (ph_publicKey headers) "public key";
  timestampText ← singleHeader (ph_timestamp headers) "timestamp";
  nonce ← singleHeader (ph_nonce headers) "nonce";
  bodySha256 ← singleHeader (ph_bodySha256 headers) "body hash";
  signature ← singleHeader (ph_signature headers) "signature";
  assertHex nodeId 32 "peer request node ID";;
  assertHex publicKey 64 "peer request public key";;
  assertHex nonce 16 "peer request nonce";;
  assertHex bodySha256 32 "peer request body hash";;
  assertHex signature 64 "peer request signature";;
  throw_if (negb (bool_decide (publicKey ∈ pa_trustedPublicKeys s))) "Untrusted peer identity";;
  derived ← nodeIdFromPublicKey publicKey;
  throw_if (negb (String.eqb derived nodeId)) "Peer request node ID mismatch";;
  throw_if (negb (isDecimal timestampText)) "Invalid peer request timestamp";;
  let timestampMs := digits_value (lit timestampText) in
  throw_if (negb (isSafeInteger timestampMs) || (PEER_REQUEST_MAX_SKEW_MS <? Z.abs (nowMs - timestampMs)))
    "Peer request timestamp outside allowed window";;
  Ok (mkFields nodeId publicKey timestampMs nonce bodySha256 signature).

Definition set_cache (seen : js_map PeerRequestReplayEntry) (counts : js_map Z) (next : option Z) (sweeps : Z) (s : PeerRequestAuthenticator)
    : PeerRequestAuthenticator :=
  mkAuth (pa_trustedPublicKeys s) (pa_chainId s) (pa_genesisHash s) (pa_maxSeenNonces s) (pa_maxSeenNoncesPerIdentity s) seen counts next sweeps.

(** One iteration of the sweep; deleting the entry the iteration is at does not
    disturb it. *)
Definition sweep_entry (nowMs : Z) (acc : js_map PeerRequestReplayEntry * js_map Z * option Z) (e : string * PeerRequestReplayEntry)
    : js_map PeerRequestReplayEntry * js_map Z * option Z :=
  let '(seen, counts, next) := acc in
  let expiresAtMs := replayExpiryAtMs (re_timestampMs e.2) in
  if before_time nowMs expiresAtMs then (seen, counts, min_time next expiresAtMs)
  else
    let nodeId := before_colon e.1 in
    let remaining := default 1 (jm_get nodeId counts) - 1 in
    (jm_delete e.1 seen, if remaining <=? 0 then jm_delete nodeId counts else jm_set nodeId remaining counts, next).

Definition sweepIfDue (nowMs : Z) (s : PeerRequestAuthenticator) : PeerRequestAuthenticator :=
  if before_time nowMs (pa_nextReplaySweepAtMs s) then s
  else
    let '(seen, counts, next) := foldl (sweep_entry nowMs) (pa_seenNonces s, pa_seenNonceCountsByNodeId s, None) (pa_seenNonces s) in
    set_cache seen counts next (pa_replaySweepCount s + 1) s.

Definition assertReplayCapacity (nodeId : string) (s : PeerRequestAuthenticator) : res unit :=
  throw_if (pa_maxSeenNoncesPerIdentity s <=? default 0 (jm_get nodeId (pa_seenNonceCountsByNodeId s)))
    "Peer request replay cache per-identity capacity exceeded";;
  throw_if (pa_maxSeenNonces s <=? zlen (pa_seenNonces s)) "Peer request replay cache capacity exceeded".

(** The entry both methods add, with its count and the time of the next sweep. *)
Definition remember (fields : PeerFields) (state : ReplayState) (digest : string) (s : PeerRequestAuthenticator) : PeerRequestAuthenticator :=
  set_cache (jm_set (replayKey (pf_nodeId fields) (pf_nonce fields)) (mkReplay (pf_timestampMs fields) state digest) (pa_seenNonces s))
    (jm_set (pf_nodeId fields) (default 0 (jm_get (pf_nodeId fields) (pa_seenNonceCountsByNodeId s)) + 1) (pa_seenNonceCountsByNodeId s))
    (min_time (pa_nextReplaySweepAtMs s) (replayExpiryAtMs (pf_timestampMs fields))) (pa_replaySweepCount s) s.

Definition preflight (headers : PeerRequestHeaders) (method path : string) (nowMs : Z) : meth PeerRequestAuthenticator unit :=
  s ← m_get;
  fields ← m_lift (validateHeaders s headers nowMs);
  m_modify (sweepIfDue nowMs);;
  s ← m_get;
  let key := replayKey (pf_nodeId fields) (pf_nonce fields) in
  m_throw_if (bool_decide (is_Some (jm_get key (pa_seenNonces s)))) "Replayed peer request";;
  payload ← m_lift (peerRequestPayload (pf_nodeId fields) (pf_publicKey fields) (pa_chainId s) (pa_genesisHash s)
    (mkInput method path (pf_bodySha256 fields)) (pf_timestampMs fields) (pf_nonce fields));
  m_throw_if (negb (verifyCanonical payload (pf_signature fields) (pf_publicKey fields))) "Invalid peer request signature";;
  m_lift (assertReplayCapacity (pf_nodeId fields) s);;
  digest ← m_lift (peerRequestDigest payload);
  m_modify (remember fields Reserved digest).

Definition verify_request (headers : PeerRequestHeaders) (input : PeerRequestInput) (nowMs : Z) : meth PeerRequestAuthenticator string :=
  s ← m_get;
  fields ← m_lift (validateHeaders s headers nowMs);
  m_lift (assertHex (pi_bodySha256 input) 32 "peer request body hash");;
  m_throw_if (negb (String.eqb (pi_bodySha256 input) (pf_bodySha256 fields))) "Peer request body hash mismatch";;
  m_modify (sweepIfDue nowMs);;
  s ← m_get;
  let key := replayKey (pf_nodeId fields) (pf_nonce fields) in
  payload ← m_lift (peerRequestPayload (pf_nodeId fields) (pf_publicKey fields) (pa_chainId s) (pa_genesisHash s)
    input (pf_timestampMs fields) (pf_nonce fields));
  m_throw_if (negb (verifyCanonical payload (pf_signature fields) (pf_publicKey fields))) "Invalid peer request signature";;
  match jm_get key (pa_seenNonces s) with
  | Some existing =>
    m_throw_if (negb (bool_decide (re_state existing = Reserved))) "Replayed peer request";;
    digest ← m_lift (peerRequestDigest payload);
    m_throw_if (negb (String.eqb (re_requestDigest existing) digest) || negb (re_timestampMs existing =? pf_timestampMs fields))
      "Peer request nonce reservation mismatch";;
    m_modify (λ s, set_cache (jm_set key (mkReplay (re_timestampMs existing) Consumed (re_requestDigest existing)) (pa_seenNonces s))
      (pa_seenNonceCountsByNodeId s) (pa_nextReplaySweepAtMs s) (pa_replaySweepCount s) s);;
    mret (pf_nodeId fields)
  | None =>
    m_lift (assertReplayCapacity (pf_nodeId fields) s);;
    digest ← m_lift (peerRequestDigest payload);
    m_modify (remember fields Consumed digest);;
    mret (pf_nodeId fields)
  end.

(** [replayCacheMetrics()] *)
Definition replayCacheMetrics (s : PeerRequestAuthenticator) : Z * Z * option Z :=
  (zlen (pa_seenNonces s), pa_replaySweepCount s, pa_nextReplaySweepAtMs s).


(** ** The replay cache *)

(** The entries of a node. *)
Definition of_node (n : string) (seen : list (string * PeerRequestReplayEntry)) : list (string * PeerRequestReplayEntry) :=
  filter (λ e, before_colon e.1 = n) seen.

(** The counts are those of the entries; an absent count is zero. *)
Definition counted (seen : js_map PeerRequestReplayEntry) (counts : js_map Z) : Prop :=
  ∀ n, jm_get n counts = if decide (of_node n seen = []) then None else Some (zlen (of_node n seen)).

Record cache_ok (s : PeerRequestAuthenticator) : Prop := {
  ck_keys : NoDup (jm_keys (pa_seenNonces s));
  ck_counts : counted (pa_seenNonces s) (pa_seenNonceCountsByNodeId s);
  ck_total : zlen (pa_seenNonces s) ≤ pa_maxSeenNonces s;
  ck_each : ∀ n, zlen (of_node n (pa_seenNonces s)) ≤ pa_maxSeenNoncesPerIdentity s;
  ck_sweep : ∀ now e, e ∈ pa_seenNonces s → before_time now (pa_nextReplaySweepAtMs s) = true →
    before_time now (replayExpiryAtMs (re_timestampMs e.2)) = true }.

Lemma before_min (now : Z) (a b : option Z) : before_time now (min_time a b) = before_time now a && before_time now b.
Proof.
  destruct a as [x|], b as [y|]; cbn; try done; [|by rewrite andb_true_r].
  destruct (Z.ltb_spec now (Z.min x y)), (Z.ltb_spec now x), (Z.ltb_spec now y); cbn; done || lia.
Qed.

(** Taking an entry out lowers the count of its node. *)
Lemma counted_delete (seen : js_map PeerRequestReplayEntry) (counts : js_map Z) (e : string * PeerRequestReplayEntry) :
  NoDup (jm_keys seen) → e ∈ seen → counted seen counts →
  let remaining := default 1 (jm_get (before_colon e.1) counts) - 1 in
  counted (jm_delete e.1 seen) (if remaining <=? 0 then jm_delete (before_colon e.1) counts else jm_set (before_colon e.1) remaining counts).
Proof.
  intros Hnd He Hc remaining n. destruct e as [k v]. cbn [fst] in *. pose proof (jm_elem_get seen k v Hnd He) as Hg.
  pose proof (jm_delete_perm seen k v Hnd Hg) as Hp.
  assert (∀ n, of_node n seen ≡ₚ (if decide (before_colon k = n) then [(k, v)] else []) ++ of_node n (jm_delete k seen)) as Hn.
  { intros n'. unfold of_node. etrans; [eapply filter_Permutation; exact Hp|]. rewrite filter_cons. cbn [fst]. by case_decide. }
  assert (remaining = zlen (of_node (before_colon k) (jm_delete k seen))) as Hrem.
  { unfold remaining. rewrite Hc. pose proof (Hn (before_colon k)) as Hk. rewrite decide_True in Hk by done.
    destruct (decide (of_node (before_colon k) seen = [])) as [E|_]; [rewrite E in Hk; by apply Permutation_nil_l in Hk|].
    unfold zlen. rewrite Hk. rewrite length_app. cbn. lia. }
  destruct (decide (before_colon k = n)) as [<-|Hne].
  - destruct (Z.leb_spec remaining 0) as [Hz|Hz]; [rewrite jm_get_delete|rewrite jm_get_set]; rewrite String.eqb_refl;
      rewrite Hrem in *; unfold zlen in *; case_decide as Hd; try done.
    + destruct (of_node (before_colon k) (jm_delete k seen)); [done|cbn [length] in Hz; lia].
    + rewrite Hd in Hz. cbn in Hz. lia.
  - assert (∀ (c : js_map Z), jm_get n (if remaining <=? 0 then jm_delete (before_colon k) c else jm_set (before_colon k) remaining c) = jm_get n c) as ->.
    { intros c. destruct (remaining <=? 0); [rewrite jm_get_delete|rewrite jm_get_set]; by destruct (String.eqb_spec (before_colon k) n). }
    rewrite Hc. pose proof (Hn n) as Hnn. rewrite decide_False in Hnn by done. cbn [app] in Hnn.
    destruct (decide (of_node n seen = [])) as [E|E].
    + rewrite E in Hnn. symmetry in Hnn. apply Permutation_nil_r in Hnn. by rewrite decide_True.
    + rewrite decide_False; [unfold zlen; by rewrite Hnn|]. intros E'. rewrite E' in Hnn. by apply Permutation_nil_r in Hnn.
Qed.

(** What the sweep leaves. *)
Lemma sweep_spec (now : Z) (l : list (string * PeerRequestReplayEntry)) (seen : js_map PeerRequestReplayEntry) (counts : js_map Z) (next : option Z) :
  NoDup (l.*1) → (∀ e, e ∈ l → e ∈ seen) → NoDup (jm_keys seen) → counted seen counts →
  let '(seen', counts', next') := foldl (sweep_entry now) (seen, counts, next) l in
  NoDup (jm_keys seen') ∧ counted seen' counts' ∧
  (∀ e, e ∈ seen' ↔ e ∈ seen ∧ (e ∈ l → before_time now (replayExpiryAtMs (re_timestampMs e.2)) = true)) ∧
  (∀ t, before_time t next' = true → before_time t next = true ∧
    ∀ e, e ∈ l → before_time now (replayExpiryAtMs (re_timestampMs e.2)) = true → before_time t (replayExpiryAtMs (re_timestampMs e.2)) = true) ∧
  (∃ gone, seen ≡ₚ gone ++ seen').
Proof.
  revert seen counts next. induction l as [|e l IH]; intros seen counts next Hl Hin Hnd Hc; cbn [foldl].
  { split_and!; [done|done|set_solver|set_solver|by exists []]. }
  apply NoDup_cons in Hl as [He Hl]. cbn [sweep_entry]. destruct (before_time now (replayExpiryAtMs (re_timestampMs e.2))) eqn:Eb.
  - specialize (IH seen counts (min_time next (replayExpiryAtMs (re_timestampMs e.2))) Hl ltac:(set_solver) Hnd Hc).
    destruct (foldl _ _ _) as [[seen' counts'] next']. destruct IH as (I1 & I2 & I3 & I4 & I5). split_and!; [done|done| | |done].
    + intros x. rewrite I3, elem_of_cons. naive_solver.
    + intros t Ht. destruct (I4 t Ht) as [J1 J2]. rewrite before_min in J1. apply andb_true_iff in J1 as [J1 J3]. split; [done|].
      intros x [->|Hx]%elem_of_cons Hb; [done|by apply J2].
  - set (remaining := default 1 _ - 1).
    assert (e ∈ seen) as Hes by (apply Hin; left). pose proof (counted_delete seen counts e Hnd Hes Hc) as Hc'. cbv zeta in Hc'. fold remaining in Hc'.
    specialize (IH (jm_delete e.1 seen) _ next Hl ltac:(intros x Hx; apply jm_delete_elem; split; [set_solver|]; intros E; apply He; rewrite <-E; by apply list_elem_of_fmap_2)
      (jm_keys_delete_NoDup _ _ Hnd) Hc').
    destruct (foldl _ _ _) as [[seen' counts'] next']. destruct IH as (I1 & I2 & I3 & I4 & (gone & I5)). split_and!; [done|done| | |].
    + intros x. rewrite I3, jm_delete_elem, elem_of_cons. split.
      * intros [[Hx Hne] Hb]. split; [done|]. intros [->|Hxl]; [done|by apply Hb].
      * intros [Hx Hb]. assert (x ≠ e) as Hne by (intros ->; rewrite Hb in Eb by (by left); done). split; [|by auto]. split; [done|].
        intros E. apply Hne. destruct e as [k v], x as [k' v']. cbn in E. subst k'. f_equal.
        pose proof (jm_elem_get seen k v Hnd Hes) as G1. rewrite (jm_elem_get seen k v' Hnd Hx) in G1. by injection G1.
    + intros t Ht. destruct (I4 t Ht) as [J1 J2]. split; [done|]. intros x [->|Hx]%elem_of_cons Hb; [by rewrite Eb in Hb|by apply J2].
    + exists (e :: gone). destruct e as [k v]. rewrite (jm_delete_perm seen k v Hnd) by (by apply jm_elem_get). cbn [fst app]. cbn [fst] in I5. by rewrite I5.
Qed.

(** A sweep leaves exactly the entries that have not expired. *)
Lemma sweep_entries (now : Z) (s : PeerRequestAuthenticator) (e : string * PeerRequestReplayEntry) :
  cache_ok s → e ∈ pa_seenNonces (sweepIfDue now s) ↔ e ∈ pa_seenNonces s ∧ before_time now (replayExpiryAtMs (re_timestampMs e.2)) = true.
Proof.
  intros [Hk Hc _ _ Hs]. unfold sweepIfDue. destruct (before_time now (pa_nextReplaySweepAtMs s)) eqn:Eb.
  - split; [intros He; split; [done|by eapply Hs]|by intros []].
  - pose proof (sweep_spec now _ _ _ None Hk (λ _ He, He) Hk Hc) as Hsw. destruct (foldl _ _ _) as [[seen' counts'] next'].
    destruct Hsw as (_ & _ & H3 & _). cbn [set_cache pa_seenNonces]. rewrite H3. naive_solver.
Qed.

Lemma sweep_ok (now : Z) (s : PeerRequestAuthenticator) : cache_ok s → cache_ok (sweepIfDue now s).
Proof.
  intros Hok. pose proof (λ e, sweep_entries now s e Hok) as Hent. destruct Hok as [Hk Hc Ht He Hs]. revert Hent.
  unfold sweepIfDue. destruct (before_time now (pa_nextReplaySweepAtMs s)) eqn:Eb; [done|].
  pose proof (sweep_spec now _ _ _ None Hk (λ _ He, He) Hk Hc) as Hsw. destruct (foldl _ _ _) as [[seen' counts'] next'].
  destruct Hsw as (I1 & I2 & I3 & I4 & (gone & I5)). intros Hent.
  split; cbn [set_cache pa_seenNonces pa_seenNonceCountsByNodeId pa_maxSeenNonces pa_maxSeenNoncesPerIdentity pa_nextReplaySweepAtMs] in *.
  - done.
  - done.
  - unfold zlen in *. rewrite I5, length_app in Ht. lia.
  - intros n. specialize (He n). unfold zlen in *. assert (of_node n (pa_seenNonces s) ≡ₚ of_node n gone ++ of_node n seen') as Hp.
    { unfold of_node. etrans; [eapply filter_Permutation; exact I5|]. by rewrite filter_app. }
    rewrite Hp, length_app in He. lia.
  - intros t e Hin Hb. destruct (I4 t Hb) as [_ J]. destruct (proj1 (Hent e) Hin). by apply J.
Qed.

Lemma before_colon_key (nodeId nonce : string) : isLowerHexOf 64 nodeId = true → before_colon (replayKey nodeId nonce) = nodeId.
Proof.
  unfold isLowerHexOf. intros [_ Hf]%andb_true_iff. unfold replayKey. induction nodeId as [|c r IH]; [done|]. cbn in Hf. apply andb_true_iff in Hf as [Hc Hf].
  change ((String c r +:+ ":" +:+ nonce)) with (String c (r +:+ ":" +:+ nonce)). cbn [before_colon]. rewrite IH by done.
  destruct (Ascii.eqb_spec c ":"%char) as [->|]; [|done]. vm_compute in Hc. discriminate Hc.
Qed.

(** A node can be counted once more when the capacity check passed. *)
Lemma remember_ok (fields : PeerFields) (state : ReplayState) (digest : string) (s : PeerRequestAuthenticator) :
  cache_ok s → isLowerHexOf 64 (pf_nodeId fields) = true → jm_get (replayKey (pf_nodeId fields) (pf_nonce fields)) (pa_seenNonces s) = None →
  assertReplayCapacity (pf_nodeId fields) s = Ok () → cache_ok (remember fields state digest s).
Proof.
  intros [Hk Hc Ht He Hs] Hhex Hnew Hcap. unfold assertReplayCapacity in Hcap. apply res_bind_Ok in Hcap as ([] & Hcap1 & Hcap2).
  apply throw_if_Ok, Z.leb_gt in Hcap1, Hcap2. unfold remember. rewrite (jm_set_new _ _ _ Hnew).
  set (key := replayKey _ _) in *. set (entry := mkReplay _ _ _).
  assert (∀ n, of_node n (pa_seenNonces s ++ [(key, entry)]) = of_node n (pa_seenNonces s) ++ if decide (pf_nodeId fields = n) then [(key, entry)] else []) as Hnode.
  { intros n. unfold of_node. rewrite (filter_app _ (pa_seenNonces s) [(key, entry)]). f_equal. rewrite filter_cons, filter_nil. cbn [fst]. unfold key. rewrite before_colon_key by done. done. }
  assert (default 0 (jm_get (pf_nodeId fields) (pa_seenNonceCountsByNodeId s)) = zlen (of_node (pf_nodeId fields) (pa_seenNonces s))) as Hcount.
  { rewrite Hc. case_decide as E; [by rewrite E|done]. }
  split; cbn [set_cache pa_seenNonces pa_seenNonceCountsByNodeId pa_maxSeenNonces pa_maxSeenNoncesPerIdentity pa_nextReplaySweepAtMs].
  - unfold jm_keys. rewrite fmap_app. apply NoDup_app. split_and!; [done| |apply NoDup_singleton].
    intros x Hx ->%list_elem_of_singleton. by apply jm_get_None in Hnew.
  - intros n. rewrite jm_get_set, Hnode, Hcount. destruct (String.eqb_spec (pf_nodeId fields) n) as [<-|Hne].
    + rewrite !(decide_True (P := pf_nodeId fields = pf_nodeId fields)) by done. rewrite decide_False by (by destruct (of_node _ _)). unfold zlen. rewrite length_app. cbn [length]. f_equal. lia.
    + rewrite !(decide_False (P := pf_nodeId fields = n)) by done. rewrite app_nil_r. apply Hc.
  - unfold zlen in *. rewrite length_app. cbn [length]. lia.
  - intros n. rewrite Hnode. specialize (He n). destruct (decide (pf_nodeId fields = n)) as [<-|]; [|by rewrite app_nil_r].
    rewrite Hcount in Hcap1. unfold zlen in *. rewrite length_app. cbn [length]. lia.
  - intros t e. rewrite before_min, elem_of_app, list_elem_of_singleton. intros [Hin| ->] [Hb1 Hb2]%andb_true_iff; [by eapply Hs|done].
Qed.

Lemma consume_ok (s : PeerRequestAuthenticator) (key digest : string) (e : PeerRequestReplayEntry) :
  cache_ok s → jm_get key (pa_seenNonces s) = Some e →
  cache_ok (set_cache (jm_set key (mkReplay (re_timestampMs e) Consumed digest) (pa_seenNonces s)) (pa_seenNonceCountsByNodeId s)
    (pa_nextReplaySweepAtMs s) (pa_replaySweepCount s) s).
Proof.
  intros [Hk Hc Ht He Hs] Hg. set (e' := mkReplay _ _ _).
  assert (jm_keys (jm_set key e' (pa_seenNonces s)) = jm_keys (pa_seenNonces s)) as Hkeys by (rewrite jm_set_keys, bool_decide_eq_true_2; [done|by eexists]).
  assert (∀ n, zlen (of_node n (jm_set key e' (pa_seenNonces s))) = zlen (of_node n (pa_seenNonces s))) as Hlen.
  { intros n. unfold of_node. clear -Hkeys. revert Hkeys. unfold jm_keys. generalize (jm_set key e' (pa_seenNonces s)) as l'. generalize (pa_seenNonces s) as l.
    induction l as [|x l IH]; intros [|y l'] E; try done. rewrite !fmap_cons in E. injection E as E1 E. unfold zlen in *. rewrite !filter_cons, E1. case_decide; cbn [length]; rewrite ?Nat2Z.inj_succ; rewrite IH by exact E; done. }
  split; cbn [set_cache pa_seenNonces pa_seenNonceCountsByNodeId pa_maxSeenNonces pa_maxSeenNoncesPerIdentity pa_nextReplaySweepAtMs].
  - by rewrite Hkeys.
  - intros n. rewrite Hc, Hlen. specialize (Hlen n). unfold zlen in Hlen.
    assert (of_node n (pa_seenNonces s) = [] ↔ of_node n (jm_set key e' (pa_seenNonces s)) = []) as Hiff.
    { split; intros E; rewrite E in Hlen; [destruct (of_node n (jm_set _ _ _))|destruct (of_node n (pa_seenNonces s))]; done. }
    destruct (decide (of_node n (pa_seenNonces s) = [])) as [E|E]; [rewrite decide_True by tauto|rewrite decide_False by tauto]; done.
  - unfold zlen in *. apply (f_equal length) in Hkeys. unfold jm_keys in Hkeys. rewrite !length_fmap in Hkeys. lia.
  - intros n. by rewrite Hlen.
  - intros t x Hx Hb. assert (NoDup (jm_keys (jm_set key e' (pa_seenNonces s)))) as Hnd by (by rewrite Hkeys). destruct x as [k v].
    pose proof (jm_elem_get _ _ _ Hnd Hx) as Hgx. rewrite jm_get_set in Hgx. destruct (String.eqb_spec key k) as [<-|].
    + injection Hgx as <-. cbn. apply (Hs t (key, e)); [by apply jm_get_elem|done].
    + apply (Hs t (k, v)); [by apply jm_get_elem|done].
Qed.

(** ** One call *)

Lemma fields_facts (s : PeerRequestAuthenticator) (headers : PeerRequestHeaders) (now : Z) (f : PeerFields) :
  validateHeaders s headers now = Ok f →
  isLowerHexOf 64 (pf_nodeId f) = true ∧ Z.abs (now - pf_timestampMs f) ≤ PEER_REQUEST_MAX_SKEW_MS.
Proof.
  unfold validateHeaders. intros E. do 6 (apply res_bind_Ok in E as (? & _ & E)). apply res_bind_Ok in E as ([] & Hn & E).
  do 5 (apply res_bind_Ok in E as ([] & _ & E)). apply res_bind_Ok in E as (derived & _ & E). do 2 (apply res_bind_Ok in E as ([] & _ & E)).
  cbv zeta in E. apply res_bind_Ok in E as ([] & Hw & E). apply Ok_inj in E as <-. cbn [pf_nodeId pf_timestampMs].
  apply throw_if_Ok, negb_false_iff in Hn. apply throw_if_Ok, orb_false_iff in Hw as [_ Hw%Z.ltb_ge]. split; [exact Hn|exact Hw].
Qed.

(** A call that does not get through changes nothing but the sweep. *)
Lemma preflight_state (headers : PeerRequestHeaders) (method path : string) (now : Z) (s s' : PeerRequestAuthenticator) (r : res unit) :
  preflight headers method path now s = (s', r) →
  ((s' = s ∨ s' = sweepIfDue now s) ∧ ∃ e, r = Throw e) ∨
  ∃ f payload digest, validateHeaders s headers now = Ok f ∧ s' = remember f Reserved digest (sweepIfDue now s) ∧
    peerRequestPayload (pf_nodeId f) (pf_publicKey f) (pa_chainId (sweepIfDue now s)) (pa_genesisHash (sweepIfDue now s))
      (mkInput method path (pf_bodySha256 f)) (pf_timestampMs f) (pf_nonce f) = Ok payload ∧ peerRequestDigest payload = Ok digest ∧
    jm_get (replayKey (pf_nodeId f) (pf_nonce f)) (pa_seenNonces (sweepIfDue now s)) = None ∧ assertReplayCapacity (pf_nodeId f) (sweepIfDue now s) = Ok ().
Proof.
  unfold preflight. rewrite meth_bind_run. cbn [m_get]. rewrite meth_bind_run. unfold m_lift at 1.
  destruct (validateHeaders s headers now) as [f|e] eqn:Hf; [|intros [= <- <-]; left; eauto].
  rewrite meth_bind_run. cbn [m_modify]. rewrite meth_bind_run. cbn [m_get]. set (s1 := sweepIfDue now s). rewrite meth_bind_run. unfold m_throw_if at 1, m_lift at 1.
  destruct (jm_get _ (pa_seenNonces s1)) as [x|] eqn:Hg; [rewrite bool_decide_eq_true_2 by (by eexists); intros [= <- <-]; left; eauto|].
  rewrite bool_decide_eq_false_2 by (by intros []). cbn [throw_if]. rewrite meth_bind_run. unfold m_lift at 1.
  destruct (peerRequestPayload _ _ _ _ _ _ _) as [payload|e] eqn:Hpay; [|intros [= <- <-]; left; eauto].
  rewrite meth_bind_run. unfold m_throw_if at 1, m_lift at 1. destruct (verifyCanonical _ _ _); cbn [negb throw_if]; [|intros [= <- <-]; left; eauto].
  rewrite meth_bind_run. unfold m_lift at 1. destruct (assertReplayCapacity _ s1) as [[]|e] eqn:Hcap; [|intros [= <- <-]; left; eauto].
  rewrite meth_bind_run. unfold m_lift at 1. destruct (peerRequestDigest payload) as [digest|e] eqn:Hdig; [|intros [= <- <-]; left; eauto].
  cbn [m_modify]. intros [= <- <-]. right. by exists f, payload, digest.
Qed.

Lemma verify_state (headers : PeerRequestHeaders) (input : PeerRequestInput) (now : Z) (s s' : PeerRequestAuthenticator) (r : res string) :
  verify_request headers input now s = (s', r) →
  ((s' = s ∨ s' = sweepIfDue now s) ∧ ∃ e, r = Throw e) ∨
  ∃ f digest, validateHeaders s headers now = Ok f ∧ r = Ok (pf_nodeId f) ∧ let s1 := sweepIfDue now s in
    let key := replayKey (pf_nodeId f) (pf_nonce f) in
    (jm_get key (pa_seenNonces s1) = None ∧ assertReplayCapacity (pf_nodeId f) s1 = Ok () ∧ s' = remember f Consumed digest s1) ∨
    (∃ e, jm_get key (pa_seenNonces s1) = Some e ∧ re_state e = Reserved ∧ re_timestampMs e = pf_timestampMs f ∧
      s' = set_cache (jm_set key (mkReplay (re_timestampMs e) Consumed (re_requestDigest e)) (pa_seenNonces s1)) (pa_seenNonceCountsByNodeId s1)
        (pa_nextReplaySweepAtMs s1) (pa_replaySweepCount s1) s1).
Proof.
  unfold verify_request. rewrite meth_bind_run. cbn [m_get]. rewrite meth_bind_run. unfold m_lift at 1.
  destruct (validateHeaders s headers now) as [f|e] eqn:Hf; [|intros [= <- <-]; left; eauto].
  rewrite meth_bind_run. unfold m_lift at 1. destruct (assertHex _ _ _) as [[]|]; [|intros [= <- <-]; left; eauto].
  rewrite meth_bind_run. unfold m_throw_if at 1, m_lift at 1. destruct (String.eqb _ _); cbn [negb throw_if]; [|intros [= <- <-]; left; eauto].
  rewrite meth_bind_run. cbn [m_modify]. rewrite meth_bind_run. cbn [m_get]. set (s1 := sweepIfDue now s). rewrite meth_bind_run. unfold m_lift at 1.
  destruct (peerRequestPayload _ _ _ _ _ _ _) as [payload|e]; [|intros [= <- <-]; left; eauto].
  rewrite meth_bind_run. unfold m_throw_if at 1, m_lift at 1. destruct (verifyCanonical _ _ _); cbn [negb throw_if]; [|intros [= <- <-]; left; eauto].
  destruct (jm_get _ (pa_seenNonces s1)) as [x|] eqn:Hg; rewrite meth_bind_run.
  - unfold m_throw_if at 1, m_lift at 1. destruct (re_state x) eqn:Hst; [rewrite bool_decide_eq_true_2 by done|rewrite bool_decide_eq_false_2 by done; intros [= <- <-]; left; eauto].
    cbn [negb throw_if]. rewrite meth_bind_run. unfold m_lift at 1. destruct (peerRequestDigest payload) as [digest|e]; [|intros [= <- <-]; left; eauto].
    rewrite meth_bind_run. unfold m_throw_if at 1, m_lift at 1. destruct (negb (String.eqb _ _) || _) eqn:Hm; cbn [throw_if]; [intros [= <- <-]; left; eauto|].
    rewrite meth_bind_run. cbn [m_modify]. intros [= <- <-]. right. exists f, digest. split_and!; [done|done|]. right. exists x.
    apply orb_false_iff in Hm as [_ Hm%negb_false_iff%Z.eqb_eq]. done.
  - unfold m_lift at 1. destruct (assertReplayCapacity _ s1) as [[]|e] eqn:Hcap; [|intros [= <- <-]; left; eauto].
    rewrite meth_bind_run. unfold m_lift at 1. destruct (peerRequestDigest payload) as [digest|e]; [|intros [= <- <-]; left; eauto].
    rewrite meth_bind_run. cbn [m_modify]. intros [= <- <-]. right. exists f, digest. split_and!; [done|done|]. by left.
Qed.

(** ** Sequences of calls *)

Inductive AuthCall :=
| CallPreflight (headers : PeerRequestHeaders) (method path : string) (nowMs : Z)
| CallVerify (headers : PeerRequestHeaders) (input : PeerRequestInput) (nowMs : Z).

Definition call_time (c : AuthCall) : Z := match c with CallPreflight _ _ _ now | CallVerify _ _ now => now end.

(** The state after a call, and the request it accepted: the node, the nonce and the
    timestamp it was signed with. *)
Definition call (c : AuthCall) (s : PeerRequestAuthenticator) : PeerRequestAuthenticator * list (string * string * Z) :=
  match c with
  | CallPreflight headers method path now => ((preflight headers method path now s).1, [])
  | CallVerify headers input now =>
    match verify_request headers input now s, validateHeaders s headers now with
    | (s', Ok _), Ok f => (s', [(pf_nodeId f, pf_nonce f, pf_timestampMs f)])
    | (s', _), _ => (s', [])
    end
  end.

Fixpoint calls (l : list AuthCall) (s : PeerRequestAuthenticator) : PeerRequestAuthenticator * list (string * string * Z) :=
  match l with
  | [] => (s, [])
  | c :: l' => let '(s1, accepted) := call c s in let '(s2, rest) := calls l' s1 in (s2, accepted ++ rest)
  end.

Lemma call_ok (c : AuthCall) (s : PeerRequestAuthenticator) : cache_ok s → cache_ok (call c s).1.
Proof.
  intros Hok. pose proof (sweep_ok (call_time c) s Hok) as Hsw. destruct c as [headers method path now|headers input now]; cbn [call call_time] in *.
  - destruct (preflight headers method path now s) as [s' r] eqn:E. cbn [fst].
    apply preflight_state in E as [[[-> | ->] _]|(f & payload & digest & Hf & -> & _ & _ & Hg & Hcap)]; [done|done|].
    apply remember_ok; [done|by eapply fields_facts|done|done].
  - destruct (verify_request headers input now s) as [s' r] eqn:E.
    assert (cache_ok s') as Hok'; [|by destruct r, (validateHeaders s headers now)].
    apply verify_state in E as [[[-> | ->] _]|(f & digest & Hf & _ & [(Hg & Hcap & ->)|(e & Hg & _ & _ & ->)])]; [done|done| |by apply consume_ok].
    apply remember_ok; [done|by eapply fields_facts|done|done].
Qed.

(** A request that was accepted is in the cache, or too old to be accepted again. *)
Definition spent_ok (now : Z) (s : PeerRequestAuthenticator) (spent : list (string * string * Z)) : Prop :=
  ∀ n c t, (n, c, t) ∈ spent →
    (∃ digest, jm_get (replayKey n c) (pa_seenNonces s) = Some (mkReplay t Consumed digest)) ∨ before_time now (replayExpiryAtMs t) = false.

Lemma before_later (now now' : Z) (t : option Z) : now ≤ now' → before_time now t = false → before_time now' t = false.
Proof. destruct t; cbn; [|done]. intros ? ?%Z.ltb_ge. apply Z.ltb_ge. lia. Qed.

Lemma window_open (now t : Z) : Z.abs (now - t) ≤ PEER_REQUEST_MAX_SKEW_MS → before_time now (replayExpiryAtMs t) = true.
Proof. unfold replayExpiryAtMs, PEER_REQUEST_MAX_SKEW_MS. intros Hw. case_match; cbn; [done|]. apply Z.ltb_lt. lia. Qed.

Lemma spent_later (now now' : Z) (s : PeerRequestAuthenticator) (spent : list (string * string * Z)) :
  now ≤ now' → spent_ok now s spent → spent_ok now' s spent.
Proof. intros Hle Hs n c t Hin. destruct (Hs n c t Hin) as [?|Hb]; [by left|right]. by eapply before_later. Qed.

Lemma spent_sweep (now : Z) (s : PeerRequestAuthenticator) (spent : list (string * string * Z)) :
  cache_ok s → spent_ok now s spent → spent_ok now (sweepIfDue now s) spent.
Proof.
  intros Hok Hs n c t Hin. destruct (Hs n c t Hin) as [(digest & Hg)|Hb]; [|by right].
  destruct (before_time now (replayExpiryAtMs t)) eqn:Eb; [left|by right]. exists digest. apply jm_elem_get; [apply (sweep_ok now s Hok)|].
  apply sweep_entries; [done|]. split; [by apply jm_get_elem|done].
Qed.

(** Writing an entry that is not consumed keeps what is spent. *)
Lemma spent_set (now : Z) (s s' : PeerRequestAuthenticator) (spent : list (string * string * Z)) (key : string) (e : PeerRequestReplayEntry) :
  spent_ok now s spent → pa_seenNonces s' = jm_set key e (pa_seenNonces s) → (∀ e', jm_get key (pa_seenNonces s) = Some e' → re_state e' = Reserved) →
  spent_ok now s' spent.
Proof.
  intros Hs Hset Hold n c t Hin. destruct (Hs n c t Hin) as [(digest & Hg)|Hb]; [left|by right]. exists digest. rewrite Hset, jm_get_set.
  destruct (String.eqb_spec key (replayKey n c)) as [->|]; [|done]. by apply Hold in Hg.
Qed.

Lemma call_spent (c : AuthCall) (s s' : PeerRequestAuthenticator) (now : Z) (spent accepted : list (string * string * Z)) :
  cache_ok s → spent_ok now s spent → now ≤ call_time c → call c s = (s', accepted) →
  spent_ok (call_time c) s' (accepted ++ spent) ∧ NoDup accepted ∧ (∀ x, x ∈ accepted → x ∉ spent).
Proof.
  intros Hok Hs Hle E. apply (spent_later now (call_time c)) in Hs; [|done]. pose proof (spent_sweep _ _ _ Hok Hs) as Hsw.
  destruct c as [headers method path t|headers input t]; cbn [call call_time] in *.
  - injection E as <- <-. split_and!; [|constructor|by intros x ?%not_elem_of_nil]. cbn [app].
    destruct (preflight headers method path t s) as [s1 r] eqn:E. cbn [fst].
    apply preflight_state in E as [[[-> | ->] _]|(f & payload & digest & Hf & -> & _ & _ & Hg & Hcap)]; [done|done|].
    eapply spent_set; [exact Hsw|reflexivity|by rewrite Hg].
  - destruct (verify_request headers input t s) as [s1 r] eqn:Ev.
    apply verify_state in Ev as [[Hs1 (e & ->)]|(f & digest & Hf & -> & Hcases)].
    + assert (s' = s1 ∧ accepted = []) as [-> ->] by (destruct (validateHeaders s headers t); by injection E). split_and!; [|constructor|by intros x ?%not_elem_of_nil].
      cbn [app]. by destruct Hs1 as [-> | ->].
    + rewrite Hf in E. injection E as <- <-. destruct (fields_facts _ _ _ _ Hf) as [Hhex Hwin]. apply window_open in Hwin.
      set (key := replayKey (pf_nodeId f) (pf_nonce f)) in *.
      assert (∃ e, pa_seenNonces s1 = jm_set key e (pa_seenNonces (sweepIfDue t s)) ∧ re_state e = Consumed ∧ re_timestampMs e = pf_timestampMs f ∧
        ∀ e', jm_get key (pa_seenNonces (sweepIfDue t s)) = Some e' → re_state e' = Reserved) as (e & Hset & Hst & Hts & Hold).
      { destruct Hcases as [(Hg & _ & ->)|(e & Hg & Hst & Hts & ->)]; eexists; (split; [reflexivity|]); split_and!; cbn; try done; intros e' He'; rewrite Hg in He'; [done|by injection He' as <-]. }
      split_and!; [|apply NoDup_singleton|].
      * intros n c x [Hx|Hx]%elem_of_app; [|by eapply (spent_set t (sweepIfDue t s))]. apply list_elem_of_singleton in Hx as [= -> -> ->].
        left. exists (re_requestDigest e). rewrite Hset, jm_get_set. fold key. rewrite String.eqb_refl. destruct e. cbn in *. by subst.
      * intros x Hx%list_elem_of_singleton Hin. subst x. destruct (Hsw _ _ _ Hin) as [(d & Hg)|Hb]; [|by rewrite Hwin in Hb].
        fold key in Hg. by apply Hold in Hg.
Qed.

Lemma calls_spent (l : list AuthCall) (s s' : PeerRequestAuthenticator) (now : Z) (spent accepted : list (string * string * Z)) :
  cache_ok s → spent_ok now s spent → Sorted Z.le (now :: (call_time <$> l)) → calls l s = (s', accepted) →
  NoDup accepted ∧ ∀ x, x ∈ accepted → x ∉ spent.
Proof.
  revert s now spent accepted. induction l as [|c l IH]; intros s now spent accepted Hok Hs Hsort E; cbn [calls] in E.
  { injection E as <- <-. split; [constructor|by intros x ?%not_elem_of_nil]. }
  destruct (call c s) as [s1 a1] eqn:E1. destruct (calls l s1) as [s2 a2] eqn:E2. injection E as <- <-.
  rewrite fmap_cons in Hsort. apply Sorted_inv in Hsort as [Hsort Hle]. apply HdRel_inv in Hle.
  destruct (call_spent c s s1 now spent a1 Hok Hs Hle E1) as (Hs1 & Hnd1 & Hnew1).
  pose proof (call_ok c s Hok) as Hok1. rewrite E1 in Hok1. cbn [fst] in Hok1.
  destruct (IH s1 (call_time c) (a1 ++ spent) a2 Hok1 Hs1 Hsort E2) as [Hnd2 Hnew2]. split.
  - apply NoDup_app. split_and!; [done| |done]. intros x Hx1 Hx2. apply (Hnew2 x Hx2). apply elem_of_app. by left.
  - intros x [Hx|Hx]%elem_of_app; [by apply Hnew1|]. intros Hin. apply (Hnew2 x Hx). apply elem_of_app. by right.
Qed.

Lemma new_ok (keys : list string) (chainId genesisHash : string) (total : Z) (each : option Z) (s : PeerRequestAuthenticator) :
  new_authenticator keys chainId genesisHash total each = Ok s → cache_ok s ∧ pa_seenNonces s = [].
Proof.
  unfold new_authenticator. intros E. cbv zeta in E. apply res_bind_Ok in E as ([] & _ & E). apply res_bind_Ok in E as ([] & Ht & E).
  apply res_bind_Ok in E as ([] & He & E). apply res_bind_Ok in E as ([] & _ & E). apply Ok_inj in E as <-.
  apply throw_if_Ok, orb_false_iff in Ht as [[_ Ht%Z.ltb_ge]%orb_false_iff _].
  apply throw_if_Ok, orb_false_iff in He as [[[_ He%Z.ltb_ge]%orb_false_iff _]%orb_false_iff _].
  split; [|done]. split; cbn [pa_seenNonces pa_seenNonceCountsByNodeId pa_maxSeenNonces pa_maxSeenNoncesPerIdentity pa_nextReplaySweepAtMs].
  - constructor.
  - done.
  - unfold zlen. cbn [length]. lia.
  - intros n. unfold zlen, of_node. rewrite filter_nil. cbn [length]. lia.
  - intros now e He'. by apply not_elem_of_nil in He'.
Qed.

(** C18. A signed peer request is accepted at most once: over any sequence of
    preflights and verifications on a new authenticator whose clock does not run
    backwards, with whatever headers, in whatever order and through every sweep of
    the cache, no two verifications accept the same node, nonce and timestamp. *)
Theorem request_accepted_once (keys : list string) (chainId genesisHash : string) (total : Z) (each : option Z)
    (s s' : PeerRequestAuthenticator) (l : list AuthCall) (accepted : list (string * string * Z)) :
  new_authenticator keys chainId genesisHash total each = Ok s → Sorted Z.le (call_time <$> l) → calls l s = (s', accepted) → NoDup accepted.
Proof.
  intros [Hok _]%new_ok Hsort E. destruct l as [|c l]; [injection E as <- <-; constructor|].
  apply (calls_spent (c :: l) s s' (call_time c) [] accepted); [done| | |done].
  - intros n x t Hin. by apply not_elem_of_nil in Hin.
  - rewrite fmap_cons in *. constructor; [done|]. constructor. done.
Qed.

(** The replay cache stays within its limits whatever is called: no more
    entries than its capacity, no more of one identity than its share, the counts
    kept beside it exact, and a call at any time first drops every entry whose
    window has passed, so that the places come free again. *)
Theorem replay_cache_bounded (keys : list string) (chainId genesisHash : string) (total : Z) (each : option Z)
    (s : PeerRequestAuthenticator) (l : list AuthCall) :
  new_authenticator keys chainId genesisHash total each = Ok s →
  let s' := (calls l s).1 in
  zlen (pa_seenNonces s') ≤ pa_maxSeenNonces s' ∧
  (∀ n, default 0 (jm_get n (pa_seenNonceCountsByNodeId s')) = zlen (of_node n (pa_seenNonces s')) ∧
        zlen (of_node n (pa_seenNonces s')) ≤ pa_maxSeenNoncesPerIdentity s') ∧
  (∀ now e, e ∈ pa_seenNonces (sweepIfDue now s') ↔
     e ∈ pa_seenNonces s' ∧ before_time now (replayExpiryAtMs (re_timestampMs e.2)) = true).
Proof.
  intros [Hok _]%new_ok s'. assert (cache_ok s') as Hs.
  { unfold s'. clear s'. revert s Hok. induction l as [|c l IH]; intros s Hok; cbn [calls]; [done|]. pose proof (call_ok c s Hok) as Hc.
    destruct (call c s) as [s1 a1]. specialize (IH s1 Hc). by destruct (calls l s1). }
  split_and!; [apply Hs| |intros now e; by apply sweep_entries].
  intros n. split; [|apply Hs]. rewrite (ck_counts s' Hs n). case_decide as E; [by rewrite E|done].
Qed.

End auth.

(** ** Honest requests *)

Lemma pretty_decimal (z : Z) : 0 ≤ z → isDecimal (pretty z) = true ∧ digits_value (lit (pretty z)) = z.
Proof.
  intros Hz. destruct z as [|p|p]; [by vm_compute| |lia].
  assert (pretty (Z.pos p) = pretty_N_go (N.pos p) "") as -> by done.
  destruct (pretty_go_decimal (N.pos p) "") as (t & Ht & Hv & Hall & d & t' & -> & Hd); [lia|]. rewrite app_nil_r in Ht. unfold isDecimal. rewrite Ht.
  split; [|done]. apply andb_true_iff. split.
  - apply forallb_forall. intros u Hu. rewrite Forall_forall in Hall. apply Hall. by apply list_elem_of_In.
  - by rewrite (proj2 (Z.eqb_neq d 48)).
Qed.

Section honest.
Context `{CryptoLaws}.

(** A request an authenticator with the same chain and a trusted key can read. *)
Record addressed (s : PeerRequestAuthenticator) (identity : NodeIdentity) (chainId genesisHash : string) (input : PeerRequestInput) (timestampMs : Z)
    (nonce : string) : Prop := {
  ad_chain : pa_chainId s = chainId;
  ad_genesis : pa_genesisHash s = genesisHash;
  ad_trusted : ni_publicKey identity ∈ pa_trustedPublicKeys s;
  ad_nonce : isLowerHexOf 32 nonce = true;
  ad_body : isLowerHexOf 64 (pi_bodySha256 input) = true;
  ad_time : 0 ≤ timestampMs ≤ MAX_SAFE_INTEGER }.

Definition fields_of (identity : NodeIdentity) (input : PeerRequestInput) (timestampMs : Z) (nonce signature : string) : PeerFields :=
  mkFields (ni_nodeId identity) (ni_publicKey identity) timestampMs nonce (pi_bodySha256 input) signature.

Lemma single_text (text name : string) : text ≠ "" → singleHeader (HeaderText text) name = Ok text.
Proof. intros Hne. cbn. by rewrite (proj2 (String.eqb_neq _ _)). Qed.

Lemma hex_nonempty (n : nat) (s : string) : isLowerHexOf (S n) s = true → s ≠ "".
Proof. by intros Hh ->. Qed.

(** What signing gives. *)
Lemma signed_fields (identity : NodeIdentity) (chainId genesisHash : string) (input : PeerRequestInput) (timestampMs : Z) (nonce : string)
    (headers : PeerRequestHeaders) :
  signPeerRequest identity chainId genesisHash input timestampMs nonce = Ok headers →
  ∃ payload message signature,
    headers = mkHeaders (HeaderText (ni_nodeId identity)) (HeaderText (ni_publicKey identity)) (HeaderText (pretty timestampMs))
      (HeaderText nonce) (HeaderText (pi_bodySha256 input)) (HeaderText signature) ∧
    peerRequestPayload (ni_nodeId identity) (ni_publicKey identity) chainId genesisHash input timestampMs nonce = Ok payload ∧
    canonicalBytes payload = Ok message ∧ verifyCanonical payload signature (ni_publicKey identity) = true ∧
    isLowerHexOf 128 signature = true ∧ isLowerHexOf 64 (ni_nodeId identity) = true ∧ isLowerHexOf 128 (ni_publicKey identity) = true ∧
    nodeIdFromPublicKey (ni_publicKey identity) = Ok (ni_nodeId identity).
Proof.
  unfold signPeerRequest. intros ([] & Hid & E)%res_bind_Ok. apply res_bind_Ok in E as (payload & Hpay & E). apply res_bind_Ok in E as (signature & Hsig & E).
  apply Ok_inj in E as <-. unfold validateNodeIdentity in Hid. apply res_bind_Ok in Hid as ([] & Hn & Hid). apply res_bind_Ok in Hid as ([] & Hp & Hid).
  apply res_bind_Ok in Hid as ([] & _ & Hid). apply res_bind_Ok in Hid as (derived & Hder & Hid). apply res_bind_Ok in Hid as (nodeId & Hnode & Hid).
  apply throw_if_Ok, orb_false_iff in Hid as [Hd1%negb_false_iff%String.eqb_eq Hd2%negb_false_iff%String.eqb_eq]. subst derived nodeId.
  unfold signCanonical in Hsig. apply res_bind_Ok in Hsig as (message & Hm & Hsig).
  exists payload, message, signature. split_and!; try done.
  - unfold verifyCanonical. rewrite Hm. eapply secp_sign_verify; [exact Hsig|]. unfold publicKeyFromPrivate in Hder. by destruct (secp_getPublicKey _).
  - by eapply secp_sign_hex.
  - by apply throw_if_Ok, negb_false_iff in Hn.
  - by apply throw_if_Ok, negb_false_iff in Hp.
Qed.

Lemma honest_headers (s : PeerRequestAuthenticator) (identity : NodeIdentity) (chainId genesisHash : string) (input : PeerRequestInput)
    (timestampMs now : Z) (nonce signature : string) :
  addressed s identity chainId genesisHash input timestampMs nonce → Z.abs (now - timestampMs) ≤ PEER_REQUEST_MAX_SKEW_MS →
  isLowerHexOf 128 signature = true → isLowerHexOf 64 (ni_nodeId identity) = true → isLowerHexOf 128 (ni_publicKey identity) = true →
  nodeIdFromPublicKey (ni_publicKey identity) = Ok (ni_nodeId identity) →
  validateHeaders s (mkHeaders (HeaderText (ni_nodeId identity)) (HeaderText (ni_publicKey identity)) (HeaderText (pretty timestampMs))
      (HeaderText nonce) (HeaderText (pi_bodySha256 input)) (HeaderText signature)) now = Ok (fields_of identity input timestampMs nonce signature).
Proof.
  intros [_ _ Htr Hno Hbo Hti] Hw Hs Hn Hp Hnode. destruct (pretty_decimal timestampMs (proj1 Hti)) as [Hdec Hval].
  assert (pretty timestampMs ≠ "") as Hne by (intros E; rewrite E in Hdec; done).
  unfold validateHeaders. cbn [ph_nodeId ph_publicKey ph_timestamp ph_nonce ph_bodySha256 ph_signature].
  rewrite (single_text (ni_nodeId identity)) by (by eapply hex_nonempty). cbn [mbind res_bind].
  rewrite (single_text (ni_publicKey identity)) by (by eapply hex_nonempty). cbn [mbind res_bind].
  rewrite (single_text (pretty timestampMs)) by done. cbn [mbind res_bind].
  rewrite (single_text nonce) by (by eapply hex_nonempty). cbn [mbind res_bind].
  rewrite (single_text (pi_bodySha256 input)) by (by eapply hex_nonempty). cbn [mbind res_bind].
  rewrite (single_text signature) by (by eapply hex_nonempty). cbn [mbind res_bind].
  unfold assertHex. change (2 * 32)%nat with 64%nat. change (2 * 64)%nat with 128%nat. change (2 * 16)%nat with 32%nat.
  rewrite Hn, Hp, Hno, Hbo, Hs. cbn [negb throw_if mbind res_bind]. rewrite bool_decide_eq_true_2 by done. cbn [negb throw_if mbind res_bind].
  rewrite Hnode. cbn [mbind res_bind]. rewrite String.eqb_refl, Hdec. cbn [negb throw_if mbind res_bind]. rewrite Hval.
  rewrite (proj2 (isSafeInteger_spec timestampMs)) by (unfold MAX_SAFE_INTEGER in *; lia). rewrite (proj2 (Z.ltb_ge _ _)) by done. done.
Qed.

Lemma headers_read (s : PeerRequestAuthenticator) (a b t n h x : string) (now : Z) (f : PeerFields) :
  validateHeaders s (mkHeaders (HeaderText a) (HeaderText b) (HeaderText t) (HeaderText n) (HeaderText h) (HeaderText x)) now = Ok f →
  f = mkFields a b (digits_value (lit t)) n h x.
Proof.
  assert (∀ text name r, singleHeader (HeaderText text) name = Ok r → r = text) as Hone.
  { intros text name r. cbn. intros (? & _ & Hr)%res_bind_Ok. by apply Ok_inj in Hr. }
  unfold validateHeaders. cbn [ph_nodeId ph_publicKey ph_timestamp ph_nonce ph_bodySha256 ph_signature]. intros E.
  do 6 (apply res_bind_Ok in E as (? & ?%Hone & E); subst). do 6 (apply res_bind_Ok in E as ([] & _ & E)). apply res_bind_Ok in E as (derived & _ & E).
  do 2 (apply res_bind_Ok in E as ([] & _ & E)). cbv zeta in E. apply res_bind_Ok in E as ([] & _ & E). by apply Ok_inj in E as <-.
Qed.

(** The configuration never changes. *)
Definition same_config (s s' : PeerRequestAuthenticator) : Prop :=
  pa_trustedPublicKeys s' = pa_trustedPublicKeys s ∧ pa_chainId s' = pa_chainId s ∧ pa_genesisHash s' = pa_genesisHash s.

Lemma sweep_config (now : Z) (s : PeerRequestAuthenticator) : same_config s (sweepIfDue now s).
Proof. unfold sweepIfDue. destruct (before_time _ _); [done|]. by destruct (foldl _ _ _) as [[? ?] ?]. Qed.

Lemma call_config (c : AuthCall) (s : PeerRequestAuthenticator) : same_config s (call c s).1.
Proof.
  pose proof (sweep_config (call_time c) s) as Hsw. destruct c as [headers method path now|headers input now]; cbn [call call_time] in *.
  - destruct (preflight headers method path now s) as [s' r] eqn:E. cbn [fst].
    by apply preflight_state in E as [[[-> | ->] _]|(f & payload & digest & _ & -> & _)].
  - destruct (verify_request headers input now s) as [s' r] eqn:E. assert (same_config s s') as Hc; [|by destruct r, (validateHeaders s headers now)].
    by apply verify_state in E as [[[-> | ->] _]|(f & digest & _ & _ & [(_ & _ & ->)|(e & _ & _ & _ & ->)])].
Qed.

Lemma calls_config (l : list AuthCall) (s : PeerRequestAuthenticator) : cache_ok s → same_config s (calls l s).1 ∧ cache_ok (calls l s).1.
Proof.
  revert s. induction l as [|c l IH]; intros s Hok; cbn [calls]; [done|]. pose proof (call_config c s) as (C1 & C2 & C3). pose proof (call_ok c s Hok) as Hok1.
  destruct (call c s) as [s1 a1]. cbn [fst] in *. destruct (IH s1 Hok1) as [(D1 & D2 & D3) Hok2]. destruct (calls l s1) as [s2 a2]. cbn [fst] in *.
  split; [|done]. split_and!; congruence.
Qed.

(** Verification of readable headers, down to the look at the cache. *)
Lemma verify_run (s : PeerRequestAuthenticator) (headers : PeerRequestHeaders) (input : PeerRequestInput) (now : Z) (f : PeerFields) (payload : jsval units)
    (digest : string) :
  validateHeaders s headers now = Ok f → isLowerHexOf 64 (pi_bodySha256 input) = true → pi_bodySha256 input = pf_bodySha256 f →
  peerRequestPayload (pf_nodeId f) (pf_publicKey f) (pa_chainId s) (pa_genesisHash s) input (pf_timestampMs f) (pf_nonce f) = Ok payload →
  verifyCanonical payload (pf_signature f) (pf_publicKey f) = true → peerRequestDigest payload = Ok digest →
  (jm_get (replayKey (pf_nodeId f) (pf_nonce f)) (pa_seenNonces (sweepIfDue now s)) = None ∧ assertReplayCapacity (pf_nodeId f) (sweepIfDue now s) = Ok ()) ∨
  jm_get (replayKey (pf_nodeId f) (pf_nonce f)) (pa_seenNonces (sweepIfDue now s)) = Some (mkReplay (pf_timestampMs f) Reserved digest) →
  ∃ s', verify_request headers input now s = (s', Ok (pf_nodeId f)).
Proof.
  intros Hf Hhex Hbody Hpay Hver Hdig Hcache. destruct (sweep_config now s) as (_ & C2 & C3).
  unfold verify_request. rewrite meth_bind_run. cbn [m_get]. rewrite meth_bind_run. unfold m_lift at 1. rewrite Hf.
  rewrite meth_bind_run. unfold m_lift at 1, assertHex at 1. change (2 * 32)%nat with 64%nat. rewrite Hhex. cbn [negb throw_if].
  rewrite meth_bind_run. unfold m_throw_if at 1, m_lift at 1. rewrite Hbody, String.eqb_refl. cbn [negb throw_if].
  rewrite meth_bind_run. cbn [m_modify]. rewrite meth_bind_run. cbn [m_get]. rewrite meth_bind_run. unfold m_lift at 1. rewrite C2, C3, Hpay.
  rewrite meth_bind_run. unfold m_throw_if at 1, m_lift at 1. rewrite Hver. cbn [negb throw_if].
  destruct Hcache as [[Hg Hcap]|Hg]; rewrite Hg, meth_bind_run.
  - unfold m_lift at 1. rewrite Hcap, meth_bind_run. unfold m_lift at 1. rewrite Hdig. by eexists.
  - unfold m_throw_if at 1, m_lift at 1. cbn [re_state]. rewrite bool_decide_eq_true_2 by done. cbn [negb throw_if]. rewrite meth_bind_run. unfold m_lift at 1.
    rewrite Hdig, meth_bind_run. unfold m_throw_if at 1, m_lift at 1. cbn [re_requestDigest re_timestampMs]. rewrite String.eqb_refl, Z.eqb_refl. by eexists.
Qed.

(** An honest peer gets through: whatever was called before, a request signed
    with a trusted key for this chain is accepted within a minute of its timestamp
    when its nonce is new and the cache has room for its node, and a request whose
    preflight passed is accepted after it without asking for room again. *)
Theorem honest_request_accepted (keys : list string) (chainId genesisHash : string) (total : Z) (each : option Z) (s0 : PeerRequestAuthenticator)
    (l : list AuthCall) (identity : NodeIdentity) (input : PeerRequestInput) (timestampMs now : Z) (nonce : string) (headers : PeerRequestHeaders) :
  new_authenticator keys chainId genesisHash total each = Ok s0 →
  signPeerRequest identity chainId genesisHash input timestampMs nonce = Ok headers → ni_publicKey identity ∈ keys →
  isLowerHexOf 32 nonce = true → isLowerHexOf 64 (pi_bodySha256 input) = true → 0 ≤ timestampMs ≤ MAX_SAFE_INTEGER →
  Z.abs (now - timestampMs) ≤ PEER_REQUEST_MAX_SKEW_MS →
  let s := (calls l s0).1 in let swept := sweepIfDue now s in
  (jm_get (replayKey (ni_nodeId identity) nonce) (pa_seenNonces swept) = None → assertReplayCapacity (ni_nodeId identity) swept = Ok () →
    ∃ s', verify_request headers input now s = (s', Ok (ni_nodeId identity))) ∧
  (∀ s1 before, preflight headers (pi_method input) (pi_path input) before s = (s1, Ok ()) →
    ∃ s', verify_request headers input now s1 = (s', Ok (ni_nodeId identity))).
Proof.
  intros Hnew Hsign Htrust Hnonce Hbody Htime Hwin s swept. destruct (new_ok _ _ _ _ _ _ Hnew) as [Hok0 _].
  assert (pa_trustedPublicKeys s0 = keys ∧ pa_chainId s0 = chainId ∧ pa_genesisHash s0 = genesisHash) as (K1 & K2 & K3).
  { unfold new_authenticator in Hnew. cbv zeta in Hnew. do 4 (apply res_bind_Ok in Hnew as ([] & _ & Hnew)). by apply Ok_inj in Hnew as <-. }
  destruct (calls_config l s0 Hok0) as [(C1 & C2 & C3) Hok]. fold s in C1, C2, C3, Hok.
  destruct (signed_fields _ _ _ _ _ _ _ Hsign) as (payload & message & signature & -> & Hpay & Hmsg & Hver & Hsig & Hn & Hp & Hnode).
  assert (addressed s identity chainId genesisHash input timestampMs nonce) as Hadd by (split; try done; congruence).
  assert (peerRequestDigest payload = Ok (sha256Hex_bytes message)) as Hdig by (unfold peerRequestDigest; by rewrite Hmsg).
  pose proof (honest_headers s identity chainId genesisHash input timestampMs now nonce signature Hadd Hwin Hsig Hn Hp Hnode) as Hf. split.
  - intros Hfresh Hcap. eapply (verify_run s _ input now (fields_of identity input timestampMs nonce signature) payload);
      [exact Hf|done|done|rewrite <-Hpay; cbn; congruence|exact Hver|exact Hdig|by left].
  - intros s1 before E. match type of E with preflight ?hs ?m ?p ?b _ = _ => pose (c := CallPreflight hs m p b) end.
    pose proof (call_ok c s Hok) as Hok1. pose proof (call_config c s) as (D1 & D2 & D3). unfold c in *. clear c. cbn [call] in Hok1, D1, D2, D3. rewrite E in Hok1, D1, D2, D3. cbn [fst] in *.
    apply preflight_state in E as [[_ [e [=]]]|(f & payload' & digest & Hf' & -> & Hpay' & Hdig' & Hg & _)].
    apply headers_read in Hf'. rewrite (proj2 (pretty_decimal timestampMs (proj1 Htime))) in Hf'. change (f = fields_of identity input timestampMs nonce signature) in Hf'. subst f.
    destruct (sweep_config before s) as (_ & S2 & S3).
    assert (payload' = payload) as ->.
    { apply Ok_inj. rewrite <-Hpay', <-Hpay, S2, S3, C2, C3, K2, K3. by destruct input. }
    rewrite Hdig in Hdig'. apply Ok_inj in Hdig' as <-. set (s1 := remember _ _ _ _) in *.
    assert (addressed s1 identity chainId genesisHash input timestampMs nonce) as Hadd1 by (split; try done; congruence).
    pose proof (honest_headers s1 identity chainId genesisHash input timestampMs now nonce signature Hadd1 Hwin Hsig Hn Hp Hnode) as Hf1.
    eapply (verify_run s1 _ input now (fields_of identity input timestampMs nonce signature) payload (sha256Hex_bytes message));
      [exact Hf1|done|done|rewrite <-Hpay; cbn; congruence|exact Hver|exact Hdig|]. right.
    apply jm_elem_get; [apply (sweep_ok now s1 Hok1)|]. apply sweep_entries; [done|]. split; [|by apply window_open].
    apply jm_get_elem. unfold s1, remember. cbn [set_cache pa_seenNonces fields_of pf_nodeId pf_nonce pf_timestampMs]. by rewrite jm_get_set, String.eqb_refl.
Qed.
End honest.

(** ** A peer that repeats its request *)

Module PeerExample.
Import ToyCrypto.

Definition publicKey : string := key +:+ key.
Definition identity : NodeIdentity := mkIdentity (sha256Hex_bytes (H := toy) (hexBytes publicKey)) publicKey key.
Definition genesis : string := digest [1].
Definition input : PeerRequestInput := mkInput "POST" "/blocks" (digest [2]).
Definition nonce : string := "000102030405060708090a0b0c0d0e0f".
Definition fresh : PeerRequestAuthenticator := mkAuth [publicKey] "zyron" genesis 10 10 [] [] None 0.
Definition headers : PeerRequestHeaders :=
  match signPeerRequest (H := toy) identity "zyron" genesis input 1700000000000 nonce with
  | Ok h => h
  | Throw _ => mkHeaders HeaderAbsent HeaderAbsent HeaderAbsent HeaderAbsent HeaderAbsent HeaderAbsent
  end.
Definition repeated : list AuthCall :=
  [CallPreflight headers "POST" "/blocks" 1700000000100; CallVerify headers input 1700000000200; CallVerify headers input 1700000000300;
   CallVerify headers input 1700000070000].
Definition result : PeerRequestAuthenticator * list (string * string * Z) := Eval vm_compute in calls (H := toy) repeated fresh.

Lemma made : new_authenticator (H := toy) [publicKey] "zyron" genesis 10 (Some 10) = Ok fresh.
Proof. vm_compute. reflexivity. Qed.
Lemma ran : calls (H := toy) repeated fresh = result.
Proof. vm_compute. reflexivity. Qed.
End PeerExample.

Lemma request_accepted_once_witness :
  PeerExample.result.2 = [(ni_nodeId PeerExample.identity, PeerExample.nonce, 1700000000000)] ∧ NoDup PeerExample.result.2.
Proof.
  split; [vm_compute; reflexivity|].
  apply (request_accepted_once (H := ToyCrypto.toy) [PeerExample.publicKey] "zyron" PeerExample.genesis 10 (Some 10) PeerExample.fresh PeerExample.result.1
    PeerExample.repeated).
  - exact PeerExample.made.
  - change (Sorted Z.le [1700000000100; 1700000000200; 1700000000300; 1700000070000]). repeat constructor; lia.
  - rewrite PeerExample.ran. apply surjective_pairing.
Defined.

Lemma replay_cache_bounded_witness :
  zlen (pa_seenNonces (calls (H := ToyCrypto.toy) PeerExample.repeated PeerExample.fresh).1) ≤
    pa_maxSeenNonces (calls (H := ToyCrypto.toy) PeerExample.repeated PeerExample.fresh).1.
Proof. exact (proj1 (replay_cache_bounded (H := ToyCrypto.toy) _ _ _ _ _ _ PeerExample.repeated PeerExample.made)). Defined.

Lemma honest_request_accepted_witness :
  ∃ s', verify_request (H := ToyCrypto.toy) PeerExample.headers PeerExample.input 1700000000200 PeerExample.fresh = (s', Ok (ni_nodeId PeerExample.identity)).
Proof.
  apply (proj1 (honest_request_accepted (H := ToyCrypto.toy) [PeerExample.publicKey] "zyron" PeerExample.genesis 10 (Some 10) PeerExample.fresh []
    PeerExample.identity PeerExample.input 1700000000000 1700000000200 PeerExample.nonce PeerExample.headers PeerExample.made
    ltac:(vm_compute; reflexivity) ltac:(apply list_elem_of_singleton; reflexivity) ltac:(vm_compute; reflexivity) ltac:(vm_compute; reflexivity)
    ltac:(unfold MAX_SAFE_INTEGER; lia) ltac:(vm_compute; discriminate))); vm_compute; reflexivity.
Defined.
