(* ===== verification/FrameText.v ===== *)
(** The text inside a peer-to-peer frame (l1/src/p2p-frame.ts): the scan that bounds
    the JSON before it is parsed, and the UTF-8 decoding in front of [JSON.parse]. *)

From S2P Require Import Prelude Codec JsonText.

Definition MAX_P2P_JSON_NESTING_DEPTH : Z := 64.
Definition MAX_P2P_JSON_STRUCTURAL_TOKENS : Z := 250000.
Definition COMPLEXITY_EXCEEDED : string := "P2P frame JSON complexity exceeded".

(** ** Bounded JSON *)

Record JsonScan := mkScan { js_inString : bool; js_escaped : bool; js_depth : Z; js_tokens : Z }.

(** One byte of [assertBoundedJsonStructure]. *)
Definition scan_byte (s : JsonScan) (byte : Z) : res JsonScan :=
  if js_inString s then
    if js_escaped s then Ok (mkScan true false (js_depth s) (js_tokens s))
    else if byte =? 92 then Ok (mkScan true true (js_depth s) (js_tokens s))
    else Ok (mkScan (negb (byte =? 34)) false (js_depth s) (js_tokens s))
  else if byte =? 34 then Ok (mkScan true (js_escaped s) (js_depth s) (js_tokens s))
  else
    next ← (if (byte =? 123) || (byte =? 91) then
              throw_if (MAX_P2P_JSON_NESTING_DEPTH <? js_depth s + 1) COMPLEXITY_EXCEEDED;;
              Ok (mkScan false (js_escaped s) (js_depth s + 1) (js_tokens s + 1))
            else if (byte =? 125) || (byte =? 93) then Ok (mkScan false (js_escaped s) (Z.max 0 (js_depth s - 1)) (js_tokens s + 1))
            else if (byte =? 44) || (byte =? 58) then Ok (mkScan false (js_escaped s) (js_depth s) (js_tokens s + 1))
            else Ok s);
    throw_if (MAX_P2P_JSON_STRUCTURAL_TOKENS <? js_tokens next) COMPLEXITY_EXCEEDED;;
    Ok next.

Definition assertBoundedJsonStructure (body : list Z) : res unit :=
  res_fold scan_byte (mkScan false false 0 0) body;; Ok ().

(** ** [buffer.toString("utf8")] (the WHATWG decoder, every maximal invalid part
    replaced by U+FFFD) *)

(** The bytes still needed, the bounds of the next one and the code point so far. *)
Record Utf8State := mkUtf8 { u8_needed : nat; u8_lower : Z; u8_upper : Z; u8_point : Z }.
Definition utf8_start : Utf8State := mkUtf8 0 128 191 0.

Definition point_units (c : Z) : units :=
  if c <? 65536 then [c] else [55296 + (c - 65536) / 1024; 56320 + (c - 65536) mod 1024].

Definition utf8_first (b : Z) : Utf8State * units :=
  if b <? 128 then (utf8_start, [b])
  else if (194 <=? b) && (b <=? 223) then (mkUtf8 1 128 191 (b - 192), [])
  else if (224 <=? b) && (b <=? 239) then
    (mkUtf8 2 (if b =? 224 then 160 else 128) (if b =? 237 then 159 else 191) (b - 224), [])
  else if (240 <=? b) && (b <=? 244) then
    (mkUtf8 3 (if b =? 240 then 144 else 128) (if b =? 244 then 143 else 191) (b - 240), [])
  else (utf8_start, [65533]).

Definition utf8_byte (s : Utf8State) (b : Z) : Utf8State * units :=
  match u8_needed s with
  | O => utf8_first b
  | S n =>
    if (u8_lower s <=? b) && (b <=? u8_upper s) then
      let point := u8_point s * 64 + (b - 128) in
      match n with O => (utf8_start, point_units point) | _ => (mkUtf8 n 128 191 point, []) end
    else let next := utf8_first b in (next.1, 65533 :: next.2)
  end.

Fixpoint utf8_decode_from (s : Utf8State) (bytes : list Z) : units :=
  match bytes with
  | [] => match u8_needed s with O => [] | S _ => [65533] end
  | b :: bytes' => let next := utf8_byte s b in next.2 ++ utf8_decode_from next.1 bytes'
  end.
Definition utf8_decode (bytes : list Z) : units := utf8_decode_from utf8_start bytes.

(** ** Scanning *)

Definition scans (s : JsonScan) (t : list Z) (s' : JsonScan) : Prop := res_fold scan_byte s t = Ok s'.

Lemma scans_app (s s' : JsonScan) (a b : list Z) : scans s (a ++ b) s' ↔ ∃ m, scans s a m ∧ scans m b s'.
Proof.
  unfold scans. revert s. induction a as [|x a IH]; intros s; cbn [app res_fold].
  - split; [eauto|]. by intros (m & <-%Ok_inj & ?).
  - destruct (scan_byte s x) as [m|e]; cbn [mbind res_bind]; [apply IH|]. split; [done|]. by intros (m & ? & _).
Qed.

Lemma scans_nil (s s' : JsonScan) : scans s [] s' ↔ s' = s.
Proof. unfold scans. cbn. split; [by intros <-%Ok_inj|by intros ->]. Qed.

Lemma scans_cons (s s' : JsonScan) (x : Z) (t : list Z) : scans s (x :: t) s' ↔ ∃ m, scan_byte s x = Ok m ∧ scans m t s'.
Proof. unfold scans. cbn [res_fold]. apply res_bind_Ok. Qed.

(** The state outside strings. *)
Definition out (depth tokens : Z) : JsonScan := mkScan false false depth tokens.
Definition few (tokens : Z) : Prop := tokens ≤ MAX_P2P_JSON_STRUCTURAL_TOKENS.

(** A byte without meaning outside strings. *)
Definition plain (u : Z) : Prop := u ≠ 34 ∧ u ≠ 123 ∧ u ≠ 91 ∧ u ≠ 125 ∧ u ≠ 93 ∧ u ≠ 44 ∧ u ≠ 58.

Ltac eqb_false := repeat (rewrite (proj2 (Z.eqb_neq _ _)) by lia).

Lemma scan_plain (d k : Z) (u : Z) : few k → plain u → scan_byte (out d k) u = Ok (out d k).
Proof.
  unfold few, plain, scan_byte, out. cbn [js_inString js_escaped js_depth js_tokens]. intros Hk Hu. eqb_false. cbn [orb mbind res_bind].
  by rewrite (proj2 (Z.ltb_ge _ _)) by done.
Qed.

Lemma scans_plain (d k : Z) (t : list Z) : few k → Forall plain t → scans (out d k) t (out d k).
Proof. intros Hk. induction 1 as [|u t Hu _ IH]; [done|]. apply scans_cons. eexists. split; [by apply scan_plain|done]. Qed.

Lemma scan_open (d k u : Z) (s' : JsonScan) :
  u = 123 ∨ u = 91 → scan_byte (out d k) u = Ok s' → s' = out (d + 1) (k + 1) ∧ d + 1 ≤ 64 ∧ few (k + 1).
Proof.
  intros Hu E. assert (scan_byte (out d k) u =
    (next ← (throw_if (MAX_P2P_JSON_NESTING_DEPTH <? d + 1) COMPLEXITY_EXCEEDED;; Ok (out (d + 1) (k + 1)));
     throw_if (MAX_P2P_JSON_STRUCTURAL_TOKENS <? js_tokens next) COMPLEXITY_EXCEEDED;; Ok next)) as E'.
  { destruct Hu as [-> | ->]; reflexivity. }
  rewrite E' in E. apply res_bind_Ok in E as (n & E1 & E). apply res_bind_Ok in E1 as ([] & Hd%throw_if_Ok%Z.ltb_ge & <-%Ok_inj).
  apply res_bind_Ok in E as ([] & Hk%throw_if_Ok%Z.ltb_ge & <-%Ok_inj). split; [done|]. split; [done|]. done.
Qed.

(** Closing brackets and separators count a token. *)
Lemma scan_close (d k u : Z) (s' : JsonScan) :
  u = 125 ∨ u = 93 → 1 ≤ d → scan_byte (out d k) u = Ok s' → s' = out (d - 1) (k + 1) ∧ few (k + 1).
Proof.
  intros Hu Hd E. assert (scan_byte (out d k) u =
    (throw_if (MAX_P2P_JSON_STRUCTURAL_TOKENS <? k + 1) COMPLEXITY_EXCEEDED;; Ok (out (Z.max 0 (d - 1)) (k + 1)))) as E'.
  { destruct Hu as [-> | ->]; reflexivity. }
  rewrite E' in E. apply res_bind_Ok in E as ([] & Hk%throw_if_Ok%Z.ltb_ge & <-%Ok_inj). rewrite Z.max_r by lia. done.
Qed.

Lemma scan_separator (d k u : Z) (s' : JsonScan) :
  u = 44 ∨ u = 58 → scan_byte (out d k) u = Ok s' → s' = out d (k + 1) ∧ few (k + 1).
Proof.
  intros Hu E. assert (scan_byte (out d k) u =
    (throw_if (MAX_P2P_JSON_STRUCTURAL_TOKENS <? k + 1) COMPLEXITY_EXCEEDED;; Ok (out d (k + 1)))) as E'.
  { destruct Hu as [-> | ->]; reflexivity. }
  rewrite E' in E. by apply res_bind_Ok in E as ([] & Hk%throw_if_Ok%Z.ltb_ge & <-%Ok_inj).
Qed.

(** ** What the parser consumes *)

Lemma skip_space_split (t : units) : ∃ c, t = c ++ skip_space t ∧ Forall plain c.
Proof.
  induction t as [|u t (c & E & Hc)]; [by exists []|]. cbn [skip_space]. destruct (isJsonSpace u) eqn:Hu; [|by exists []].
  exists (u :: c). cbn [app]. rewrite <-E. split; [done|]. constructor; [|done]. unfold isJsonSpace in Hu. breflect. unfold plain. lia.
Qed.

Lemma strip_split (p t r : units) : strip p t = Some r → t = p ++ r.
Proof.
  revert t. induction p as [|a p IH]; intros [|b t]; cbn; try done; [by intros [= ->]..|].
  destruct (Z.eqb_spec a b) as [-> |]; [|done]. intros E%IH. by rewrite E.
Qed.

Lemma digit_plain (u : Z) : isDigit u = true → plain u.
Proof. unfold isDigit, plain. intros E. breflect. lia. Qed.

Lemma span_digits_split (t : units) : t = (span_digits t).1 ++ (span_digits t).2 ∧ Forall plain (span_digits t).1.
Proof.
  induction t as [|u t [E Hp]]; [done|]. cbn [span_digits]. destruct (isDigit u) eqn:Hu; [|done].
  destruct (span_digits t) as [ds r]. cbn in *. split; [by rewrite E at 1|]. constructor; [by apply digit_plain|done].
Qed.

(** [t] is read up to [r], and what is read means nothing to the scan. *)
Definition plain_prefix (t r : units) : Prop := ∃ c, t = c ++ r ∧ Forall plain c.

Lemma plain_prefix_refl (t : units) : plain_prefix t t.
Proof. by exists []. Qed.
Lemma plain_prefix_trans (a b c : units) : plain_prefix a b → plain_prefix b c → plain_prefix a c.
Proof. intros (x & -> & Hx) (y & -> & Hy). exists (x ++ y). rewrite app_assoc. split; [done|]. by apply Forall_app. Qed.
Lemma plain_prefix_cons (u : Z) (t r : units) : plain u → plain_prefix t r → plain_prefix (u :: t) r.
Proof. intros Hu (c & -> & Hc). exists (u :: c). split; [done|]. by constructor. Qed.

Lemma digits_prefix (t ds r : units) : span_digits t = (ds, r) → plain_prefix t r.
Proof. intros E. pose proof (span_digits_split t) as [E1 Hp]. rewrite E in E1, Hp. by exists ds. Qed.

Lemma int_part_prefix (t ds r : units) : int_part t = Some (ds, r) → plain_prefix t r.
Proof.
  unfold int_part. pose proof (span_digits_split t) as [E Hp]. destruct (span_digits t) as [[|x xs] rest]; [done|]. cbn [fst snd] in *.
  destruct (x =? 48); intros [= <- <-]; [exists [x]|exists (x :: xs)]; (split; [done|]); [|done].
  apply Forall_cons in Hp as [? _]. by constructor.
Qed.

Lemma frac_part_prefix (t ds r : units) : frac_part t = Some (ds, r) → plain_prefix t r.
Proof.
  unfold frac_part. assert (Some ([] : units, t) = Some (ds, r) → plain_prefix t r) as Hd by (intros [= <- <-]; apply plain_prefix_refl).
  destruct t as [|u t]; [done|]. destruct (decide (u = 46)) as [-> |Hu].
  - destruct (span_digits t) as [[|x xs] rest] eqn:E; [done|]. intros [= <- <-]. apply plain_prefix_cons; [by unfold plain|]. by eapply digits_prefix.
  - destruct u as [|p|p]; try done. do 6 (destruct p as [p|p|]; try done).
Qed.

Lemma exp_part_prefix (t : units) (z : Z) (r : units) : exp_part t = Some (z, r) → plain_prefix t r.
Proof.
  unfold exp_part. destruct t as [|u t1]; [by intros [= <- <-]; apply plain_prefix_refl|].
  destruct ((u =? 101) || (u =? 69)) eqn:Hu; [|by intros [= <- <-]; apply plain_prefix_refl].
  assert (plain u) as Hpu by (breflect; unfold plain; lia).
  set (st := match t1 with 43 :: t2 => (1, t2) | 45 :: t2 => (-1, t2) | _ => (1, t1) end).
  assert (plain_prefix t1 st.2) as Hst.
  { unfold st. destruct t1 as [|x t2]; [apply plain_prefix_refl|]. destruct (decide (x = 43)) as [-> |H1].
    - apply plain_prefix_cons; [by unfold plain|apply plain_prefix_refl].
    - destruct (decide (x = 45)) as [-> |H2]; [apply plain_prefix_cons; [by unfold plain|apply plain_prefix_refl]|].
      destruct x as [|p|p]; try apply plain_prefix_refl. do 6 (destruct p as [p|p|]; try apply plain_prefix_refl; try done). }
  destruct st as [sign t2]. cbn [snd] in Hst. destruct (span_digits t2) as [[|x xs] rest] eqn:E; [done|]. intros [= _ <-].
  apply plain_prefix_cons; [done|]. eapply plain_prefix_trans; [done|]. by eapply digits_prefix.
Qed.

Lemma parse_number_prefix (t : units) (n : jsnum) (r : units) : parse_number t = Some (n, r) → plain_prefix t r.
Proof.
  unfold parse_number. set (st := match t with 45 :: t' => (true, t') | _ => (false, t) end).
  assert (plain_prefix t st.2) as Hst.
  { unfold st. destruct t as [|x t2]; [apply plain_prefix_refl|].
    destruct (decide (x = 45)) as [-> |H2]; [apply plain_prefix_cons; [by unfold plain|apply plain_prefix_refl]|].
    destruct x as [|p|p]; try apply plain_prefix_refl. do 6 (destruct p as [p|p|]; try apply plain_prefix_refl; try done). }
  destruct st as [neg t1]. cbn [snd] in Hst.
  destruct (int_part t1) as [[ds t2]|] eqn:E1; [|done]. cbn [mbind option_bind].
  destruct (frac_part t2) as [[fs t3]|] eqn:E2; [|done]. cbn [mbind option_bind].
  destruct (exp_part t3) as [[e t4]|] eqn:E3; [|done]. cbn [mbind option_bind]. intros [= _ <-].
  apply int_part_prefix in E1. apply frac_part_prefix in E2. apply exp_part_prefix in E3.
  eauto using plain_prefix_trans.
Qed.

(** The rest of a string literal takes the scan out of the string. *)
Lemma string_body_scans (n : nat) (t s r : units) (d k : Z) :
  (length t ≤ n)%nat → string_body t = Some (s, r) → ∃ c, t = c ++ r ∧ scans (mkScan true false d k) c (out d k).
Proof.
  revert t s. induction n as [|n IH]; intros t s Hn E; (destruct t as [|u t1]; [done|]); [cbn in Hn; lia|]. cbn [string_body] in E. cbn [length] in Hn.
  assert (∀ (x : Z) (o : option (units * units)), prod_map (cons x) id <$> o = Some (s, r) → ∃ s', o = Some (s', r)) as Hinv.
  { intros x [[s' r']|]; cbn; [|done]. intros [= _ ->]. eauto. }
  destruct (Z.eqb_spec u 34) as [-> |H34].
  { injection E as <- <-. exists [34]. split; [done|]. by apply scans_cons; eexists; split; [reflexivity|]. }
  destruct (Z.eqb_spec u 92) as [-> |H92].
  - destruct t1 as [|e t2]; [done|]. cbn [length] in Hn.
    assert (scans (mkScan true false d k) [92; e] (mkScan true false d k)) as Hesc.
    { apply scans_cons. eexists. split; [reflexivity|]. apply scans_cons. eexists. split; [reflexivity|]. done. }
    destruct (Z.eqb_spec e 117) as [-> |He].
    + destruct t2 as [|a [|b [|c [|x t3]]]]; try done. destruct (hexUnit a) as [a'|] eqn:Ha; [|done]. destruct (hexUnit b) as [b'|] eqn:Hb; [|done].
      destruct (hexUnit c) as [c'|] eqn:Hc; [|done]. destruct (hexUnit x) as [x'|] eqn:Hx; [|done].
      apply Hinv in E as (s' & E). cbn [length] in Hn. destruct (IH t3 s') as (w & -> & Hw); [lia|done|].
      exists ([92; 117] ++ [a; b; c; x] ++ w). split; [done|]. apply scans_app. eexists. split; [exact Hesc|]. apply scans_app.
      exists (mkScan true false d k). split; [|done].
      assert (∀ y z, hexUnit y = Some z → y ≠ 34 ∧ y ≠ 92) as Hh.
      { intros y z. unfold hexUnit. intros Hy. repeat case_match; breflect; try done; lia. }
      apply Hh in Ha, Hb, Hc, Hx. unfold scans. cbn [res_fold].
      assert (∀ y, y ≠ 34 ∧ y ≠ 92 → scan_byte (mkScan true false d k) y = Ok (mkScan true false d k)) as Hs.
      { intros y [H1 H2]. unfold scan_byte. cbn. by rewrite (proj2 (Z.eqb_neq y 92) H2), (proj2 (Z.eqb_neq y 34) H1). }
      rewrite Hs by done. cbn [mbind res_bind]. rewrite Hs by done. cbn [mbind res_bind]. rewrite Hs by done. cbn [mbind res_bind]. by rewrite Hs.
    + destruct (escape_unit e); [|done]. apply Hinv in E as (s' & E). destruct (IH t2 s') as (w & -> & Hw); [lia|done|].
      exists ([92; e] ++ w). split; [done|]. apply scans_app. eexists. split; [exact Hesc|done].
  - destruct (u <? 32); [done|]. apply Hinv in E as (s' & E). destruct (IH t1 s') as (w & -> & Hw); [lia|done|].
    exists (u :: w). split; [done|]. apply scans_cons. exists (mkScan true false d k). split; [|done].
    unfold scan_byte. cbn. by rewrite (proj2 (Z.eqb_neq u 92) H92), (proj2 (Z.eqb_neq u 34) H34).
Qed.

(** ** The size of what is parsed *)

Fixpoint json_depth {S} (v : jsval S) : Z :=
  match v with
  | JArr items => 1 + foldr Z.max 0 (map json_depth items)
  | JObj entries => 1 + foldr Z.max 0 (map (λ e, json_depth e.2) entries)
  | _ => 0
  end.

(** The number of values in a value. *)
Fixpoint json_size {S} (v : jsval S) : Z :=
  match v with
  | JArr items => 1 + foldr Z.add 0 (map json_size items)
  | JObj entries => 1 + foldr Z.add 0 (map (λ e, json_size e.2) entries)
  | _ => 1
  end.

Lemma json_depth_nonneg {S} (v : jsval S) : 0 ≤ json_depth v.
Proof.
  assert (∀ l, 0 ≤ foldr Z.max 0 l) as Hl by (intros l; induction l; cbn; lia).
  destruct v; cbn; try lia; [pose proof (Hl (map json_depth items))|pose proof (Hl (map (λ e, json_depth e.2) entries))]; lia.
Qed.

Lemma json_size_nonneg {S} (v : jsval S) : 0 ≤ json_size v.
Proof.
  induction v as [| | |b|n|s|items IH|entries IH] using jsval_ind'; cbn; try lia.
  - assert (0 ≤ foldr Z.add 0 (map json_size items)); [|lia]. induction IH; cbn; lia.
  - assert (0 ≤ foldr Z.add 0 (map (λ e, json_size e.2) entries)); [|lia]. induction IH; cbn in *; lia.
Qed.

(** The object of a list of members: repeated names only lose values. *)
Lemma set_member_measure (f : jsval units → Z) (o : list (units * jsval units)) (k : units) (v : jsval units) :
  (∀ v, 0 ≤ f v) →
  foldr Z.add 0 (map (λ e, f e.2) (set_member o k v)) ≤ foldr Z.add 0 (map (λ e, f e.2) o) + f v ∧
  foldr Z.max 0 (map (λ e, f e.2) (set_member o k v)) ≤ Z.max (foldr Z.max 0 (map (λ e, f e.2) o)) (f v).
Proof.
  intros Hf. induction o as [|e o [IH1 IH2]]; cbn [set_member].
  - cbn. pose proof (Hf v). lia.
  - pose proof (Hf e.2). case_bool_decide; cbn in *; lia.
Qed.

Lemma foldr_perm (f : Z → Z → Z) (l l' : list Z) : (∀ a b c, f a (f b c) = f b (f a c)) → l ≡ₚ l' → foldr f 0 l = foldr f 0 l'.
Proof. intros Hf. induction 1; cbn; congruence. Qed.

Lemma make_object_measure (f : jsval units → Z) (members : list (units * jsval units)) :
  (∀ v, 0 ≤ f v) →
  let entries := fromEntries (foldl (λ o m, set_member o m.1 m.2) [] members) in
  foldr Z.add 0 (map (λ e, f e.2) entries) ≤ foldr Z.add 0 (map (λ e, f e.2) members) ∧
  foldr Z.max 0 (map (λ e, f e.2) entries) ≤ foldr Z.max 0 (map (λ e, f e.2) members).
Proof.
  intros Hf entries. unfold entries.
  rewrite (foldr_perm Z.add _ (map (λ e, f e.2) (foldl (λ o m, set_member o m.1 m.2) [] members))),
    (foldr_perm Z.max _ (map (λ e, f e.2) (foldl (λ o m, set_member o m.1 m.2) [] members)));
    [|intros; lia|apply (fmap_Permutation (λ e, f e.2)), fromEntries_perm|intros; lia|apply (fmap_Permutation (λ e, f e.2)), fromEntries_perm].
  assert (∀ o, foldr Z.add 0 (map (λ e, f e.2) (foldl (λ o m, set_member o m.1 m.2) o members)) ≤
      foldr Z.add 0 (map (λ e, f e.2) o) + foldr Z.add 0 (map (λ e, f e.2) members) ∧
    foldr Z.max 0 (map (λ e, f e.2) (foldl (λ o m, set_member o m.1 m.2) o members)) ≤
      Z.max (foldr Z.max 0 (map (λ e, f e.2) o)) (foldr Z.max 0 (map (λ e, f e.2) members))) as G.
  { induction members as [|m members IH]; intros o; [cbn; lia|]. cbn [foldl]. destruct (IH (set_member o m.1 m.2)) as [IH1 IH2].
    destruct (set_member_measure f o m.1 m.2 Hf) as [H1 H2]. cbn [map foldr]. lia. }
  destruct (G []) as [G1 G2]. cbn [map foldr] in G1, G2. split; [lia|].
  assert (0 ≤ foldr Z.max 0 (map (λ e, f e.2) members)) by (clear; induction members; cbn; lia). lia.
Qed.

(** What scanning the text [c] of a value from depth [d] and [k] tokens on shows. *)
Definition bounded (c : units) (v : jsval units) : Prop :=
  ∀ d k s', 0 ≤ d ≤ 64 → few k → scans (out d k) c s' →
    ∃ k', s' = out d k' ∧ few k' ∧ json_size v ≤ k' - k + 1 ∧ d + json_depth v ≤ 64.

(** The same for the values of a container behind its opening bracket. *)
Definition bounded_list (c : units) (vs : list (jsval units)) : Prop :=
  ∀ d k s', 1 ≤ d ≤ 64 → few k → scans (out d k) c s' →
    ∃ k', s' = out (d - 1) k' ∧ few k' ∧ foldr Z.add 0 (map json_size vs) ≤ k' - k ∧ d + foldr Z.max 0 (map json_depth vs) ≤ 64.

Lemma bounded_plain (c : units) (v : jsval units) : Forall plain c → json_size v = 1 → json_depth v = 0 → bounded c v.
Proof.
  intros Hc Hs Hd d k s' Hr Hk Hscan. pose proof (scans_plain d k c Hk Hc) as E. unfold scans in *. rewrite E in Hscan.
  apply Ok_inj in Hscan as <-. exists k. split; [done|]. split; [done|]. lia.
Qed.

Lemma bounded_spaces (sp c : units) (v : jsval units) : Forall plain sp → bounded c v → bounded (sp ++ c) v.
Proof.
  intros Hsp Hc d k s' Hr Hk (m & Hm & Hs)%scans_app. pose proof (scans_plain d k sp Hk Hsp) as E. unfold scans in Hm, E. rewrite E in Hm.
  apply Ok_inj in Hm as <-. by apply Hc.
Qed.

Lemma bounded_list_spaces (sp c : units) (vs : list (jsval units)) : Forall plain sp → bounded_list c vs → bounded_list (sp ++ c) vs.
Proof.
  intros Hsp Hc d k s' Hr Hk (m & Hm & Hs)%scans_app. pose proof (scans_plain d k sp Hk Hsp) as E. unfold scans in Hm, E. rewrite E in Hm.
  apply Ok_inj in Hm as <-. by apply Hc.
Qed.

(** A container: its bracket and the list behind it. *)
Lemma bounded_container (u : Z) (c : units) (vs : list (jsval units)) (v : jsval units) :
  u = 123 ∨ u = 91 → bounded_list c vs → json_size v ≤ 1 + foldr Z.add 0 (map json_size vs) →
  json_depth v ≤ 1 + foldr Z.max 0 (map json_depth vs) → bounded (u :: c) v.
Proof.
  intros Hu Hc Hs Hd d k s' Hr Hk (m & Hm & Hscan)%scans_cons. apply scan_open in Hm as (-> & Hd1 & Hk1); [|done].
  destruct (Hc (d + 1) (k + 1) s') as (k' & -> & Hk' & ? & ?); [lia|done|done|]. exists k'. split; [f_equal; lia|]. split; [done|]. lia.
Qed.

(** The last value of a list and its closing bracket. *)
Lemma bounded_last (u : Z) (c sp : units) (v : jsval units) :
  u = 125 ∨ u = 93 → Forall plain sp → bounded c v → bounded_list (c ++ sp ++ [u]) [v].
Proof.
  intros Hu Hsp Hc d k s' Hr Hk (m & Hm & Hs)%scans_app. apply Hc in Hm as (k1 & -> & Hk1 & Hz & Hd); [|lia|done].
  apply scans_app in Hs as (m & Hm & Hs). pose proof (scans_plain d k1 sp Hk1 Hsp) as E. unfold scans in Hm, E. rewrite E in Hm. apply Ok_inj in Hm as <-.
  apply scans_cons in Hs as (m & Hm & ->%scans_nil). apply scan_close in Hm as [-> Hk2]; [|done|lia].
  exists (k1 + 1). split; [done|]. split; [done|]. cbn. pose proof (json_depth_nonneg v). lia.
Qed.

(** A value, a comma and the values that follow. *)
Lemma bounded_more (c sp c' : units) (v : jsval units) (vs : list (jsval units)) :
  Forall plain sp → bounded c v → bounded_list c' vs → bounded_list (c ++ sp ++ 44 :: c') (v :: vs).
Proof.
  intros Hsp Hc Hc' d k s' Hr Hk (m & Hm & Hs)%scans_app. apply Hc in Hm as (k1 & -> & Hk1 & Hz & Hd); [|lia|done].
  apply scans_app in Hs as (m & Hm & Hs). pose proof (scans_plain d k1 sp Hk1 Hsp) as E. unfold scans in Hm, E. rewrite E in Hm. apply Ok_inj in Hm as <-.
  apply scans_cons in Hs as (m & Hm & Hs). apply scan_separator in Hm as [-> Hk2]; [|by left].
  destruct (Hc' d (k1 + 1) s') as (k' & -> & Hk' & ? & ?); [lia|done|done|]. exists k'. split; [done|]. split; [done|]. cbn. lia.
Qed.

(** A string, outside of which the scan is where it was. *)
Lemma string_scans (t s r : units) :
  string_body t = Some (s, r) → ∃ name, t = name ++ r ∧ ∀ d k, scans (out d k) (34 :: name) (out d k).
Proof.
  intros E. destruct (string_body_scans (length t) t s r 0 0 ltac:(lia) E) as (name & Hname & _).
  exists name. split; [done|]. intros d k. destruct (string_body_scans (length t) t s r d k ltac:(lia) E) as (name' & Hname' & Hn).
  assert (name' = name) as -> by (rewrite Hname in Hname'; by apply app_inv_tail in Hname').
  apply scans_cons. by eexists.
Qed.

Lemma bounded_string (t s r : units) : string_body t = Some (s, r) → ∃ name, t = name ++ r ∧ bounded (34 :: name) (JStr s).
Proof.
  intros (name & -> & Hn)%string_scans. exists name. split; [done|]. intros d k s' Hr Hk Hs. unfold scans in Hn, Hs. rewrite Hn in Hs.
  apply Ok_inj in Hs as <-. exists k. split; [done|]. split; [done|]. cbn. lia.
Qed.

(** A member name, a colon and the member's value: the colon only adds a token. *)
Lemma bounded_name (t s r : units) :
  string_body t = Some (s, r) →
  ∃ name, t = name ++ r ∧ ∀ sp c v, Forall plain sp → bounded c v → bounded ((34 :: name) ++ sp ++ 58 :: c) v.
Proof.
  intros (name & -> & Hn)%string_scans. exists name. split; [done|]. intros sp c v Hsp Hc d k s' Hr Hk (m & Hm & Hs)%scans_app.
  specialize (Hn d k). unfold scans in Hn, Hm. rewrite Hn in Hm. apply Ok_inj in Hm as <-.
  apply scans_app in Hs as (m & Hm & Hs). pose proof (scans_plain d k sp Hk Hsp) as E. unfold scans in Hm, E. rewrite E in Hm. apply Ok_inj in Hm as <-.
  apply scans_cons in Hs as (m & Hm & Hs). apply scan_separator in Hm as [-> Hk2]; [|by right].
  destruct (Hc d (k + 1) s') as (k' & -> & Hk' & ? & ?); [done|done|done|]. exists k'. split; [done|]. split; [done|]. lia.
Qed.

(** What each parser consumes bounds what it returns. *)
Definition value_bounded (f : nat) : Prop := ∀ t v r, parse_value f t = Some (v, r) → ∃ c, t = c ++ r ∧ bounded c v.
Definition items_bounded (f : nat) : Prop := ∀ t vs r, parse_items f t = Some (vs, r) → ∃ c, t = c ++ r ∧ bounded_list c vs.
Definition members_bounded (f : nat) : Prop := ∀ t ms r, parse_members f t = Some (ms, r) → ∃ c, t = c ++ r ∧ bounded_list c ms.*2.

(** What stands behind a value in a list: a closing bracket or a comma. *)
Lemma item_end {A} (r : units) (one more : units → option A) (x : A) :
  match skip_space r with 93 :: r' => one r' | 44 :: r' => more r' | _ => None end = Some x →
  ∃ sp r', Forall plain sp ∧ ((r = sp ++ 93 :: r' ∧ one r' = Some x) ∨ (r = sp ++ 44 :: r' ∧ more r' = Some x)).
Proof.
  intros E. destruct (skip_space_split r) as (sp & Er & Hsp). destruct (skip_space r) as [|u r']; [done|]. exists sp, r'. split; [done|].
  destruct (decide (u = 93)) as [-> |H1]; [by left|]. destruct (decide (u = 44)) as [-> |H2]; [by right|].
  exfalso. destruct u as [|p|p]; try done. do 7 (destruct p as [p|p|]; try done).
Qed.

Lemma member_end {A} (r : units) (one more : units → option A) (x : A) :
  match skip_space r with 125 :: r' => one r' | 44 :: r' => more r' | _ => None end = Some x →
  ∃ sp r', Forall plain sp ∧ ((r = sp ++ 125 :: r' ∧ one r' = Some x) ∨ (r = sp ++ 44 :: r' ∧ more r' = Some x)).
Proof.
  intros E. destruct (skip_space_split r) as (sp & Er & Hsp). destruct (skip_space r) as [|u r']; [done|]. exists sp, r'. split; [done|].
  destruct (decide (u = 125)) as [-> |H1]; [by left|]. destruct (decide (u = 44)) as [-> |H2]; [by right|].
  exfalso. destruct u as [|p|p]; try done. do 7 (destruct p as [p|p|]; try done).
Qed.

Lemma items_step (f : nat) : value_bounded f → items_bounded f → items_bounded (S f).
Proof.
  intros Hv Hi t vs r E. cbn [parse_items] in E. destruct (parse_value f t) as [[v r0]|] eqn:Ev; [|done]. cbn [mbind option_bind] in E.
  apply Hv in Ev as (c & -> & Hc). apply item_end in E as (sp & r' & Hsp & [[-> E]|[-> E]]).
  - injection E as <- <-. exists (c ++ sp ++ [93]). split; [by rewrite <-!app_assoc|]. apply bounded_last; auto.
  - destruct (parse_items f r') as [[vs' r'']|] eqn:Ei; [|done]. injection E as <- <-. apply Hi in Ei as (c' & -> & Hc').
    exists (c ++ sp ++ 44 :: c'). split; [by rewrite <-!app_assoc|]. by apply bounded_more.
Qed.

Ltac app_norm := repeat (progress (rewrite <-?app_assoc; cbn [app])); reflexivity.

Lemma members_step (f : nat) : value_bounded f → members_bounded f → members_bounded (S f).
Proof.
  intros Hv Hm t ms r E. cbn [parse_members] in E. destruct (skip_space_split t) as (sp0 & Et & Hsp0).
  destruct (skip_space t) as [|u t1]; [done|]. destruct (decide (u = 34)) as [-> |Hu].
  2:{ exfalso. destruct u as [|p|p]; try done. do 6 (destruct p as [p|p|]; try done). }
  destruct (string_body t1) as [[key r1]|] eqn:Ek; [|done]. cbn [mbind option_bind] in E.
  destruct (skip_space_split r1) as (sp1 & Er1 & Hsp1). destruct (skip_space r1) as [|x r2]; [done|]. destruct (decide (x = 58)) as [-> |Hx].
  2:{ exfalso. destruct x as [|p|p]; try done. do 6 (destruct p as [p|p|]; try done). }
  destruct (parse_value f r2) as [[v r3]|] eqn:Ev; [|done]. cbn [mbind option_bind] in E. apply Hv in Ev as (c & -> & Hc).
  apply bounded_name in Ek as (name & -> & Hname). specialize (Hname sp1 c v Hsp1 Hc).
  apply member_end in E as (sp & r' & Hsp & [[-> E]|[-> E]]).
  - injection E as <- <-. exists (sp0 ++ (((34 :: name) ++ sp1 ++ 58 :: c) ++ sp ++ [125])).
    split; [rewrite Et, Er1; app_norm|]. apply bounded_list_spaces; [done|]. apply bounded_last; auto.
  - destruct (parse_members f r') as [[ms' r'']|] eqn:Ei; [|done]. injection E as <- <-. apply Hm in Ei as (c' & -> & Hc').
    exists (sp0 ++ (((34 :: name) ++ sp1 ++ 58 :: c) ++ sp ++ 44 :: c')).
    split; [rewrite Et, Er1; app_norm|]. apply bounded_list_spaces; [done|]. by apply bounded_more.
Qed.

(** An empty container. *)
Lemma bounded_list_nil (u : Z) (sp : units) : u = 125 ∨ u = 93 → Forall plain sp → bounded_list (sp ++ [u]) [].
Proof.
  intros Hu Hsp d k s' Hr Hk (m & Hm & Hs)%scans_app. pose proof (scans_plain d k sp Hk Hsp) as E. unfold scans in Hm, E. rewrite E in Hm.
  apply Ok_inj in Hm as <-. apply scans_cons in Hs as (m & Hm & ->%scans_nil). apply scan_close in Hm as [-> Hk2]; [|done|lia].
  exists (k + 1). split; [done|]. split; [done|]. cbn. lia.
Qed.

Lemma make_object_bounded (c : units) (ms : list (units * jsval units)) : bounded_list c ms.*2 → bounded (123 :: c) (make_object ms).
Proof.
  intros Hc. pose proof (make_object_measure json_size ms json_size_nonneg) as [Hs _]. pose proof (make_object_measure json_depth ms json_depth_nonneg) as [_ Hd].
  cbv zeta in Hs, Hd. assert (∀ (f : jsval units → Z), map f ms.*2 = map (λ e, f e.2) ms) as Em by (intros g; change (map g (map snd ms) = map (λ e, g e.2) ms); by rewrite map_map).
  eapply bounded_container; [by left|exact Hc| |]; unfold make_object; cbn [json_size json_depth]; rewrite Em; lia.
Qed.

(** A literal or a number. *)
Definition parse_scalar (t : units) : option (jsval units * units) :=
  match strip (lit "null") t, strip (lit "true") t, strip (lit "false") t with
  | Some r, _, _ => Some (JNull, r)
  | _, Some r, _ => Some (JBool true, r)
  | _, _, Some r => Some (JBool false, r)
  | _, _, _ => '(n, r) ← parse_number t; Some (JNum n, r)
  end.

Lemma scalar_bounded (t : units) (v : jsval units) (r : units) : parse_scalar t = Some (v, r) → ∃ c, t = c ++ r ∧ bounded c v.
Proof.
  assert (∀ s, s ∈ [lit "null"; lit "true"; lit "false"] → Forall plain s) as Hp.
  { intros s Hs. repeat (apply elem_of_cons in Hs as [-> |Hs]; [repeat (constructor; [by unfold plain|]); constructor|]). by apply not_elem_of_nil in Hs. }
  unfold parse_scalar. destruct (strip (lit "null") t) as [r1|] eqn:E1; [intros [= <- <-]; apply strip_split in E1 as ->; eexists; split; [done|]; apply bounded_plain; [apply Hp; set_solver|done..]|].
  destruct (strip (lit "true") t) as [r1|] eqn:E2; [intros [= <- <-]; apply strip_split in E2 as ->; eexists; split; [done|]; apply bounded_plain; [apply Hp; set_solver|done..]|].
  destruct (strip (lit "false") t) as [r1|] eqn:E3; [intros [= <- <-]; apply strip_split in E3 as ->; eexists; split; [done|]; apply bounded_plain; [apply Hp; set_solver|done..]|].
  destruct (parse_number t) as [[n r1]|] eqn:E4; [|done]. intros [= <- <-]. apply parse_number_prefix in E4 as (c & -> & Hc). exists c. split; [done|].
  by apply bounded_plain.
Qed.

Lemma value_step (f : nat) : items_bounded f → members_bounded f → value_bounded (S f).
Proof.
  intros Hi Hm t v r E. destruct (skip_space_split t) as (sp & Et & Hsp).
  assert (∀ c, skip_space t = c ++ r → bounded c v → ∃ c, t = c ++ r ∧ bounded c v) as Hwrap.
  { intros c Ec Hc. exists (sp ++ c). split; [by rewrite Et, Ec, app_assoc|]. by apply bounded_spaces. }
  cbn [parse_value] in E. destruct (skip_space t) as [|u t1]; [done|]. destruct (decide (u = 34)) as [-> |H34].
  { destruct (string_body t1) as [[s r1]|] eqn:Es; [|done]. injection E as <- <-. apply bounded_string in Es as (name & -> & Hn).
    by apply (Hwrap (34 :: name)). }
  destruct (decide (u = 91)) as [-> |H91].
  { destruct (skip_space_split t1) as (sp1 & Et1 & Hsp1). destruct (skip_space t1) as [|x t2].
    { destruct (parse_items f []) as [[vs r1]|] eqn:Ei; [|done]. injection E as <- <-. apply Hi in Ei as (c & Ec & Hc).
      apply (Hwrap (91 :: sp1 ++ c)); [rewrite Et1, Ec; app_norm|]. eapply bounded_container; [by right|by apply bounded_list_spaces|done|done]. }
    destruct (decide (x = 93)) as [-> |Hx].
    { injection E as <- <-. apply (Hwrap (91 :: sp1 ++ [93])); [rewrite Et1; app_norm|].
      eapply (bounded_container 91 _ []); [by right|by apply bounded_list_nil; [right|]|done|done]. }
    assert (('(vs, r1) ← parse_items f (x :: t2); Some (JArr vs, r1)) = Some (v, r)) as E'.
    { destruct x as [|p|p]; try exact E. do 7 (destruct p as [p|p|]; try exact E; try done). }
    destruct (parse_items f (x :: t2)) as [[vs r1]|] eqn:Ei; [|done]. injection E' as <- <-. apply Hi in Ei as (c & Ec & Hc).
    apply (Hwrap (91 :: sp1 ++ c)); [rewrite Et1, Ec; app_norm|]. eapply bounded_container; [by right|by apply bounded_list_spaces|done|done]. }
  destruct (decide (u = 123)) as [-> |H123].
  { destruct (skip_space_split t1) as (sp1 & Et1 & Hsp1). destruct (skip_space t1) as [|x t2].
    { destruct (parse_members f []) as [[ms r1]|] eqn:Ei; [|done]. injection E as <- <-. apply Hm in Ei as (c & Ec & Hc).
      apply (Hwrap (123 :: sp1 ++ c)); [rewrite Et1, Ec; app_norm|]. by apply make_object_bounded, bounded_list_spaces. }
    destruct (decide (x = 125)) as [-> |Hx].
    { injection E as <- <-. apply (Hwrap (123 :: sp1 ++ [125])); [rewrite Et1; app_norm|].
      apply make_object_bounded. by apply bounded_list_nil; [left|]. }
    assert (('(ms, r1) ← parse_members f (x :: t2); Some (make_object ms, r1)) = Some (v, r)) as E'.
    { destruct x as [|p|p]; try exact E. do 7 (destruct p as [p|p|]; try exact E; try done). }
    destruct (parse_members f (x :: t2)) as [[ms r1]|] eqn:Ei; [|done]. injection E' as <- <-. apply Hm in Ei as (c & Ec & Hc).
    apply (Hwrap (123 :: sp1 ++ c)); [rewrite Et1, Ec; app_norm|]. by apply make_object_bounded, bounded_list_spaces. }
  assert (parse_scalar (u :: t1) = Some (v, r)) as E'.
  { unfold parse_scalar. destruct u as [|p|p]; try exact E. do 7 (destruct p as [p|p|]; try exact E; try done). }
  apply scalar_bounded in E' as (c & Ec & Hc). by apply (Hwrap c).
Qed.

Lemma parse_bounded (f : nat) : value_bounded f ∧ items_bounded f ∧ members_bounded f.
Proof.
  induction f as [|f (Hv & Hi & Hm)]; [done|]. split; [by apply value_step|]. split; [by apply items_step|by apply members_step].
Qed.

(** ** Bytes and the text they decode to mean the same to the scan *)

(** The effect of a byte or code unit above ASCII. *)
Definition above (s : JsonScan) : JsonScan := if js_inString s then mkScan true false (js_depth s) (js_tokens s) else s.

Lemma scan_above (s : JsonScan) (b : Z) : 128 ≤ b → few (js_tokens s) → scan_byte s b = Ok (above s).
Proof.
  intros Hb Hk. unfold scan_byte, above, few in *. destruct s as [[] e d k]; cbn [js_inString js_escaped js_depth js_tokens] in *.
  - destruct e; [done|]. by eqb_false.
  - eqb_false. cbn [orb mbind res_bind]. cbn [js_tokens]. by rewrite (proj2 (Z.ltb_ge _ _)).
Qed.

Lemma above_above (s : JsonScan) : above (above s) = above s.
Proof. by destruct s as [[] e d k]. Qed.
Lemma above_tokens (s : JsonScan) : js_tokens (above s) = js_tokens s.
Proof. by destruct s as [[] e d k]. Qed.

Lemma scan_few (s s' : JsonScan) (b : Z) : few (js_tokens s) → scan_byte s b = Ok s' → few (js_tokens s').
Proof.
  intros Hk. unfold scan_byte. destruct (js_inString s).
  - destruct (js_escaped s); [|destruct (b =? 92)]; by intros <-%Ok_inj.
  - destruct (b =? 34); [by intros <-%Ok_inj|]. intros (n & _ & ([] & Hn%throw_if_Ok%Z.ltb_ge & <-%Ok_inj)%res_bind_Ok)%res_bind_Ok. done.
Qed.

(** The code point so far and the bounds of the next byte never make an ASCII
    character. *)
Definition u8_ok (s : Utf8State) : Prop :=
  match u8_needed s with
  | O => True
  | S n => 0 ≤ u8_point s ∧ 128 ≤ u8_lower s ∧ 128 ≤ (u8_point s * 64 + (u8_lower s - 128)) * 64 ^ Z.of_nat n
  end.

(** The scan of the text is behind the scan of the bytes by an unfinished character. *)
Definition in_step (s : Utf8State) (sb su : JsonScan) : Prop := if Nat.eqb (u8_needed s) 0 then sb = su else sb = above su.

Lemma point_units_above (c : Z) : 128 ≤ c → point_units c ≠ [] ∧ Forall (λ u, 128 ≤ u) (point_units c).
Proof.
  intros Hc. unfold point_units. destruct (Z.ltb_spec c 65536); [by repeat constructor|]. split; [done|].
  pose proof (Z.div_pos (c - 65536) 1024). pose proof (Z.mod_pos_bound (c - 65536) 1024). repeat constructor; lia.
Qed.

Lemma scans_above (s : JsonScan) (t : units) : few (js_tokens s) → t ≠ [] → Forall (λ u, 128 ≤ u) t → scans s t (above s).
Proof.
  intros Hk Hne Ht. revert s Hk Hne. induction Ht as [|u t Hu Ht IH]; intros s Hk Hne; [done|]. apply scans_cons. exists (above s).
  split; [by apply scan_above|]. destruct t as [|x t]; [done|]. rewrite <-(above_above s) at 2. apply IH; [by rewrite above_tokens|done].
Qed.

Lemma utf8_first_in_step (b : Z) (s s' : JsonScan) :
  few (js_tokens s) → scan_byte s b = Ok s' → let next := utf8_first b in
  u8_ok next.1 ∧ ∃ su, scans s next.2 su ∧ few (js_tokens su) ∧ in_step next.1 s' su.
Proof.
  intros Hk E. unfold utf8_first. destruct (Z.ltb_spec b 128) as [Hb|Hb].
  { split; [done|]. exists s'. split; [apply scans_cons; by exists s'|]. split; [by eapply scan_few|done]. }
  rewrite scan_above in E by done. apply Ok_inj in E as <-.
  assert (∀ n lower upper point, 0 ≤ point → 128 ≤ lower → 128 ≤ (point * 64 + (lower - 128)) * 64 ^ Z.of_nat n →
    u8_ok (mkUtf8 (S n) lower upper point) ∧ ∃ su, scans s [] su ∧ few (js_tokens su) ∧ in_step (mkUtf8 (S n) lower upper point) (above s) su) as Hpend.
  { intros n lower upper point H1 H2 H3. split; [done|]. exists s. done. }
  destruct ((194 <=? b) && (b <=? 223)) eqn:H2; [breflect; apply (Hpend 0%nat); cbn [Z.of_nat]; lia|].
  destruct ((224 <=? b) && (b <=? 239)) eqn:H3.
  { breflect. apply (Hpend 1%nat); [lia|destruct (b =? 224); lia|]. change (64 ^ Z.of_nat 1) with 64. destruct (Z.eqb_spec b 224); lia. }
  destruct ((240 <=? b) && (b <=? 244)) eqn:H4.
  { breflect. apply (Hpend 2%nat); [lia|destruct (b =? 240); lia|]. change (64 ^ Z.of_nat 2) with 4096. destruct (Z.eqb_spec b 240); lia. }
  split; [done|]. exists (above s). split; [by apply scans_above; repeat constructor|]. split; [by rewrite above_tokens|done].
Qed.

Lemma utf8_byte_in_step (u : Utf8State) (b : Z) (sb sb' su : JsonScan) :
  u8_ok u → few (js_tokens su) → in_step u sb su → scan_byte sb b = Ok sb' → let next := utf8_byte u b in
  u8_ok next.1 ∧ ∃ su', scans su next.2 su' ∧ few (js_tokens su') ∧ in_step next.1 sb' su'.
Proof.
  intros Hu Hk Hin E. unfold utf8_byte. unfold u8_ok in Hu. unfold in_step in Hin. destruct (u8_needed u) as [|n]; cbn [Nat.eqb] in Hin; subst sb.
  - by apply utf8_first_in_step.
  - destruct Hu as (Hp & Hl & Hm). destruct ((u8_lower u <=? b) && (b <=? u8_upper u)) eqn:Hb.
    + breflect. rewrite scan_above in E by (rewrite ?above_tokens; done || lia). apply Ok_inj in E as <-. rewrite above_above.
      set (point := u8_point u * 64 + (b - 128)). assert (u8_point u * 64 + (u8_lower u - 128) ≤ point) as Hge by (unfold point; lia).
      destruct n as [|n].
      * cbn [Z.of_nat] in Hm. rewrite Z.mul_1_r in Hm. destruct (point_units_above point ltac:(lia)) as [Hne Hall].
        split; [done|]. exists (above su). split; [by apply scans_above|]. split; [by rewrite above_tokens|done].
      * split; [|by exists su]. cbn. split; [unfold point; lia|]. split; [lia|]. rewrite Nat2Z.inj_succ, Z.pow_succ_r in Hm by lia.
        assert (0 < 64 ^ Z.of_nat n) by (apply Z.pow_pos_nonneg; lia). nia.
    + destruct (utf8_first_in_step b (above su) sb') as [H1 (su' & H2 & H3 & H4)]; [by rewrite above_tokens|done|].
      split; [done|]. exists su'. split; [|done]. apply scans_cons. exists (above su). split; [apply scan_above; [lia|done]|done].
Qed.

Lemma decode_scans (bytes : list Z) (u : Utf8State) (sb sb' su : JsonScan) :
  u8_ok u → few (js_tokens su) → in_step u sb su → scans sb bytes sb' → scans su (utf8_decode_from u bytes) sb'.
Proof.
  revert u sb su. induction bytes as [|b bytes IH]; intros u sb su Hu Hk Hin Hs; cbn [utf8_decode_from].
  - apply scans_nil in Hs as ->. unfold in_step in Hin. destruct (u8_needed u); cbn in Hin; subst sb; [done|]. apply scans_above; repeat constructor; done.
  - apply scans_cons in Hs as (m & Hm & Hs). destruct (utf8_byte_in_step u b sb m su Hu Hk Hin Hm) as (Hu' & su' & H1 & H2 & H3).
    apply scans_app. exists su'. split; [done|]. by eapply IH.
Qed.

(** A body that passes the scan parses, if it does, to a value of bounded depth and
    size. *)
Lemma scanned_json_bounded (body : list Z) (v : jsval units) :
  assertBoundedJsonStructure body = Ok () → JSON_parse (utf8_decode body) = Ok v →
  json_depth v ≤ MAX_P2P_JSON_NESTING_DEPTH ∧ json_size v ≤ MAX_P2P_JSON_STRUCTURAL_TOKENS + 1.
Proof.
  intros (s & Hs & _)%res_bind_Ok Hp. assert (scans (out 0 0) (utf8_decode body) s) as Hscan by (by apply (decode_scans body utf8_start (out 0 0))).
  unfold JSON_parse in Hp. destruct (parse_value _ (utf8_decode body)) as [[v' r]|] eqn:Ev; [|done]. destruct (skip_space r); [|done]. apply Ok_inj in Hp as ->.
  apply (proj1 (parse_bounded _)) in Ev as (c & Ec & Hc). rewrite Ec in Hscan. apply scans_app in Hscan as (m & Hm & _).
  destruct (Hc 0 0 m) as (k' & _ & Hk & Hz & Hd); [lia|by vm_compute|done|]. unfold few, MAX_P2P_JSON_NESTING_DEPTH in *. lia.
Qed.

(** ** Text that survives the encoding *)

(** Code units without lone surrogates. *)
Inductive wf16 : units → Prop :=
| wf_nil : wf16 []
| wf_single u s : unit_range u → isLead u = false → isTrail u = false → wf16 s → wf16 (u :: s)
| wf_pair u v s : isLead u = true → isTrail v = true → wf16 s → wf16 (u :: v :: s).

Lemma wf16_app (a b : units) : wf16 a → wf16 b → wf16 (a ++ b).
Proof. induction 1; intros Hb; cbn [app]; [done|by apply wf_single; auto|by apply wf_pair; auto]. Qed.

Lemma lit_wf16 (s : string) : wf16 (lit s).
Proof.
  assert (∀ l : list Ascii.ascii, wf16 ((λ c, Z.of_N (Ascii.N_of_ascii c)) <$> l)) as G; [|apply G].
  intros l. induction l as [|c l IH]; [constructor|]. pose proof (Ascii.N_ascii_bounded c) as Hc. rewrite fmap_cons.
  apply wf_single; [unfold unit_range; lia|unfold isLead; lia|unfold isTrail; lia|done].
Qed.

Lemma join_wf16 (parts : list units) : Forall wf16 parts → wf16 (join (lit ",") parts).
Proof.
  induction 1 as [|p parts Hp Hps IH]; [constructor|]. destruct parts as [|q parts]; [done|].
  change (wf16 (p ++ lit "," ++ join (lit ",") (q :: parts))). repeat apply wf16_app; [done|apply lit_wf16|done].
Qed.

Lemma ascii_wf16 (s : units) : Forall (λ u, 0 ≤ u < 128) s → wf16 s.
Proof. induction 1; [constructor|]. apply wf_single; [unfold unit_range; lia|unfold isLead; lia|unfold isTrail; lia|done]. Qed.

Lemma quote_unit_wf16 (u : Z) : unit_range u → wf16 (quote_unit u).
Proof.
  intros Hu. unfold quote_unit. repeat (match goal with |- context [?a =? ?b] => destruct (a =? b); [first [apply lit_wf16|apply ascii_wf16; by repeat constructor]|] end).
  assert (wf16 (unicode_escape u)) as He.
  { apply ascii_wf16. unfold unicode_escape. apply Forall_app. split; [by repeat constructor|]. assert (∀ d, 0 ≤ d < 16 → 0 ≤ hex_digit d < 128) as Hd.
    { intros d Hd. unfold hex_digit. destruct (d <? 10); lia. }
    repeat constructor; try (apply Hd, Z.mod_pos_bound; lia). all: apply Hd, Z.mod_pos_bound; lia. }
  destruct (u <? 32); [done|]. destruct (isLead u) eqn:E1; [done|]. destruct (isTrail u) eqn:E2; [done|]. apply wf_single; [done..|constructor].
Qed.

Lemma quote_body_wf16 (n : nat) (s : units) : (length s ≤ n)%nat → Forall unit_range s → wf16 (quote_body s).
Proof.
  revert s. induction n as [|n IH]; intros s Hn Hs; (destruct Hs as [|u s Hu Hs]; [constructor|]); [cbn in Hn; lia|]. cbn [length] in Hn.
  unfold quote_body. cbn [per_char]. destruct Hs as [|v s Hv Hs]; [by apply quote_unit_wf16|]. cbn [length] in Hn.
  destruct (isLead u && isTrail v) eqn:E.
  - apply andb_true_iff in E as [E1 E2]. cbn [app]. apply wf_pair; [done..|]. apply IH; [lia|done].
  - apply wf16_app; [by apply quote_unit_wf16|]. apply (IH (v :: s)); [cbn; lia|by constructor].
Qed.

Lemma json_quote_wf16 (s : units) : Forall unit_range s → wf16 (json_quote s).
Proof.
  intros Hs. unfold json_quote. apply wf16_app; [by apply ascii_wf16; repeat constructor|]. apply wf16_app; [by apply (quote_body_wf16 (length s))|].
  by apply ascii_wf16; repeat constructor.
Qed.

Lemma stringify_wf16 (v : jsval units) (t : units) : js_value v → stringify v = Some t → wf16 t.
Proof.
  revert t. induction v as [| | |b|n|s|items IH|entries IH] using jsval_ind'; intros t Hn Ht; try discriminate Ht.
  - injection Ht as <-. apply lit_wf16.
  - injection Ht as <-. apply lit_wf16.
  - injection Ht as <-. destruct n; apply lit_wf16.
  - injection Ht as <-. by apply json_quote_wf16.
  - cbn [stringify] in Ht. apply Some_inj in Ht as <-. apply wf16_app; [apply lit_wf16|]. apply wf16_app; [|apply lit_wf16]. apply join_wf16.
    apply js_value_items in Hn. clear -IH Hn. induction IH as [|i items Hi _ IHl]; [constructor|]. apply Forall_cons in Hn as [H1 H2].
    cbn [map]. constructor; [|by apply IHl]. destruct (stringify i) as [t|] eqn:E; cbn [default]; [by apply Hi|apply lit_wf16].
  - cbn [stringify] in Ht. apply Some_inj in Ht as <-. apply wf16_app; [apply lit_wf16|]. apply wf16_app; [|apply lit_wf16]. apply join_wf16.
    apply js_value_entries in Hn as [_ Hn]. clear -IH Hn. induction IH as [|[k v] entries Hi _ IHl]; [constructor|]. apply Forall_cons in Hn as [[H1 H2] H3].
    csimpl. destruct (stringify v) as [t|] eqn:E; csimpl; [|by apply IHl]. constructor; [|by apply IHl].
    change (wf16 (json_quote k ++ lit ":" ++ t)). apply wf16_app; [by apply json_quote_wf16|]. apply wf16_app; [apply lit_wf16|]. by apply (Hi t).
Qed.

(** One character. *)
Lemma decode_first (b : Z) (rest : list Z) : utf8_decode (b :: rest) = (utf8_first b).2 ++ utf8_decode_from (utf8_first b).1 rest.
Proof. done. Qed.

Lemma decode_next (n : nat) (lower upper point b : Z) (rest : list Z) :
  lower ≤ b ≤ upper → utf8_decode_from (mkUtf8 (S n) lower upper point) (b :: rest) =
    match n with O => point_units (point * 64 + (b - 128)) ++ utf8_decode rest | _ => utf8_decode_from (mkUtf8 n 128 191 (point * 64 + (b - 128))) rest end.
Proof.
  intros Hb. cbn [utf8_decode_from]. unfold utf8_byte. cbn [u8_needed u8_lower u8_upper u8_point].
  rewrite (proj2 (Z.leb_le lower b)), (proj2 (Z.leb_le b upper)) by lia. cbn [andb]. by destruct n.
Qed.

Lemma decode_unit (u : Z) (rest : list Z) :
  unit_range u → isLead u = false → isTrail u = false → utf8_decode (utf8_unit u ++ rest) = u :: utf8_decode rest.
Proof.
  unfold unit_range. intros Hu Hlead Htrail. unfold utf8_unit. rewrite Hlead, Htrail. cbn [orb].
  destruct (Z.ltb_spec u 128) as [H1|H1]; [cbn [app]; rewrite decode_first; unfold utf8_first; by rewrite (proj2 (Z.ltb_lt u 128))|].
  assert (∀ c, c = u → point_units c = [u]) as Hpt by (intros c ->; unfold point_units; by rewrite (proj2 (Z.ltb_lt u 65536)) by lia).
  destruct (Z.ltb_spec u 2048) as [H2|H2]; cbn [app].
  - assert (2 ≤ u / 64 ≤ 31) as Hq by (Z.div_mod_to_equations; lia). pose proof (Z.mod_pos_bound u 64 ltac:(lia)) as Hm.
    rewrite decode_first. unfold utf8_first. rewrite (proj2 (Z.ltb_ge _ 128)), (proj2 (Z.leb_le 194 _)), (proj2 (Z.leb_le _ 223)) by lia. cbn [andb fst snd app].
    rewrite decode_next by lia. rewrite Hpt; [done|]. pose proof (Z.div_mod u 64). lia.
  - assert (0 ≤ u / 4096 ≤ 15) as Hq by (Z.div_mod_to_equations; lia). pose proof (Z.mod_pos_bound u 64 ltac:(lia)) as Hm.
    pose proof (Z.mod_pos_bound (u / 64) 64 ltac:(lia)) as Hm2.
    assert (u / 64 = 64 * (u / 4096) + (u / 64) mod 64) as E64 by (replace (u / 4096) with (u / 64 / 64) by (rewrite Z.div_div; [done|lia..]); apply Z.div_mod; lia).
    pose proof (Z.div_mod u 64 ltac:(lia)) as Eu.
    rewrite decode_first. unfold utf8_first. rewrite (proj2 (Z.ltb_ge _ 128)), (proj2 (Z.leb_gt _ 223)), andb_false_r, (proj2 (Z.leb_le 224 _)), (proj2 (Z.leb_le _ 239)) by lia.
    cbn [andb fst snd app]. rewrite decode_next.
    + rewrite decode_next by lia. rewrite Hpt; [done|]. lia.
    + unfold isLead, isTrail in *. destruct (Z.eqb_spec (224 + u / 4096) 224), (Z.eqb_spec (224 + u / 4096) 237); lia.
Qed.

Lemma decode_pair (u v : Z) (rest : list Z) :
  isLead u = true → isTrail v = true → utf8_decode (utf8_pair u v ++ rest) = u :: v :: utf8_decode rest.
Proof.
  unfold isLead, isTrail. intros Hu Hv. breflect. unfold utf8_pair. set (c := 65536 + (u - 55296) * 1024 + (v - 56320)).
  assert (65536 ≤ c ≤ 1114111) as Hc by (unfold c; lia). cbn [app].
  pose proof (Z.mod_pos_bound c 64 ltac:(lia)) as M1. pose proof (Z.mod_pos_bound (c / 64) 64 ltac:(lia)) as M2.
  pose proof (Z.mod_pos_bound (c / 4096) 64 ltac:(lia)) as M3. pose proof (Z.div_mod c 64 ltac:(lia)) as D1.
  assert (c / 64 = 64 * (c / 4096) + (c / 64) mod 64) as D2 by (replace (c / 4096) with (c / 64 / 64) by (rewrite Z.div_div; [done|lia..]); apply Z.div_mod; lia).
  assert (c / 4096 = 64 * (c / 262144) + (c / 4096) mod 64) as D3 by (replace (c / 262144) with (c / 4096 / 64) by (rewrite Z.div_div; [done|lia..]); apply Z.div_mod; lia).
  assert (0 ≤ c / 262144 ≤ 4) as Hq by lia.
  rewrite decode_first. unfold utf8_first.
  rewrite (proj2 (Z.ltb_ge _ 128)), (proj2 (Z.leb_gt _ 223)), andb_false_r, (proj2 (Z.leb_gt _ 239)), andb_false_r, (proj2 (Z.leb_le 240 _)), (proj2 (Z.leb_le _ 244)) by lia.
  cbn [andb fst snd app]. rewrite decode_next by (destruct (Z.eqb_spec (240 + c / 262144) 240), (Z.eqb_spec (240 + c / 262144) 244); lia).
  rewrite decode_next by lia. rewrite decode_next by lia.
  replace (((240 + c / 262144 - 240) * 64 + (128 + c / 4096 mod 64 - 128)) * 64 + (128 + c / 64 mod 64 - 128)) with (c / 64) by lia.
  replace (c / 64 * 64 + (128 + c mod 64 - 128)) with c by lia. unfold point_units. rewrite (proj2 (Z.ltb_ge c 65536)) by lia. cbn [app].
  replace (c - 65536) with ((u - 55296) * 1024 + (v - 56320)) by (unfold c; lia).
  rewrite Z.div_add_l, Z.div_small by lia. rewrite (Z.add_comm (_ * _)), Z_mod_plus_full, Z.mod_small by lia. f_equal; [lia|]. f_equal. lia.
Qed.

Lemma utf8_decode_utf8 (t : units) : wf16 t → utf8_decode (utf8 t) = t.
Proof.
  induction 1 as [|u s Hu Hl Ht Hs IH|u v s Hu Hv Hs IH]; [done| |].
  - assert (utf8 (u :: s) = utf8_unit u ++ utf8 s) as ->.
    { unfold utf8. destruct s as [|x s]; cbn [per_char]; [by rewrite app_nil_r|]. by rewrite Hl. }
    rewrite decode_unit by done. by rewrite IH.
  - unfold utf8. cbn [per_char]. rewrite Hu, Hv. cbn [andb]. fold utf8. change (per_char utf8_unit utf8_pair s) with (utf8 s). rewrite decode_pair by done. by rewrite IH.
Qed.

Lemma normal_js_value (v : jsval units) : normal v → js_value v.
Proof.
  induction v as [| | |b|n|s|items IH|entries IH] using jsval_ind'; try done.
  - rewrite normal_items, js_value_items. intros Hn. clear -IH Hn. induction IH; [constructor|]. apply Forall_cons in Hn as [? ?]. constructor; auto.
  - rewrite normal_entries, js_value_entries. intros (Hnd & _ & Hn). split; [done|]. clear -IH Hn.
    induction IH; [constructor|]. apply Forall_cons in Hn as [[? ?] ?]. constructor; auto.
Qed.

(** The text of a value reads back after the trip through UTF-8. *)
Lemma stringify_decodes (v : jsval units) (t : units) :
  normal v → stringify v = Some t → JSON_parse (utf8_decode (utf8 t)) = Ok (erase v).
Proof.
  intros Hn Ht. rewrite utf8_decode_utf8 by (eapply stringify_wf16; [by apply normal_js_value|done]). apply stringify_reads in Ht as [_ Hr]; [|done].
  unfold JSON_parse. pose proof (Hr (2 * length t + 2)%nat [] ltac:(lia) ltac:(by left)) as E. rewrite app_nil_r in E. by rewrite E.
Qed.
