(* ===== verification/Frame.v ===== *)
(** Frames of the peer-to-peer protocols (l1/src/p2p-frame.ts): the shared byte
    budget, the writer, and the reader over whatever chunks the transport delivers.

    A frame is four bytes of length, big-endian, and that many bytes of JSON text.
    The transfer meter of a caller is left out (the reader without [meter]); the
    reader's timer aborts the stream, which is the chunk source throwing. *)

From S2P Require Import Prelude Codec JsonText FrameText.

Definition WRITE_CHUNK_BYTES : Z := 64 * 1024.
Definition DEFAULT_P2P_INBOUND_FRAME_BUDGET_BYTES : Z := 64 * 1024 * 1024.

Definition BUDGET_EXCEEDED : string := "P2P frame byte budget exceeded".

(** ** The byte budget *)

Record P2PFrameByteBudget := mkFrameBudget { fb_bytesInUse : Z; fb_maxBytes : Z; fb_peakBytesInUse : Z; fb_rejectedFrames : Z }.

Definition new_frame_budget (maxBytes : Z) : res P2PFrameByteBudget :=
  throw_if (negb (isSafeInteger maxBytes) || (maxBytes <? 1) || (512 * 1024 * 1024 <? maxBytes)) "Invalid P2P frame byte budget";;
  Ok (mkFrameBudget 0 maxBytes 0 0).

(** [reserve(bytes)]; what it returns releases [bytes] the first time it is called,
    so a holder keeps the number of bytes and forgets it when it releases. *)
Definition reserve (bytes : Z) : meth P2PFrameByteBudget unit := λ b,
  if negb (isSafeInteger bytes) || (bytes <? 1) || (fb_maxBytes b <? bytes) || (fb_maxBytes b - bytes <? fb_bytesInUse b)
  then (mkFrameBudget (fb_bytesInUse b) (fb_maxBytes b) (fb_peakBytesInUse b) (fb_rejectedFrames b + 1), Throw BUDGET_EXCEEDED)
  else
    let bytesInUse := fb_bytesInUse b + bytes in
    (mkFrameBudget bytesInUse (fb_maxBytes b) (Z.max (fb_peakBytesInUse b) bytesInUse) (fb_rejectedFrames b), Ok ()).

Definition release (bytes : Z) (b : P2PFrameByteBudget) : P2PFrameByteBudget :=
  mkFrameBudget (fb_bytesInUse b - bytes) (fb_maxBytes b) (fb_peakBytesInUse b) (fb_rejectedFrames b).

(** ** The length prefix *)

Definition writeUInt32BE (n : Z) : list Z := [Z.shiftr n 24 mod 256; Z.shiftr n 16 mod 256; Z.shiftr n 8 mod 256; n mod 256].
Definition readUInt32BE (bytes : list Z) : Z := foldl (λ acc b, acc * 256 + b) 0 bytes.

Definition assertFrameLimits (maxBytes timeoutMs : Z) : res unit :=
  throw_if (negb (isSafeInteger maxBytes) || (maxBytes <? 1) || (32000000 <? maxBytes) ||
            negb (isSafeInteger timeoutMs) || (timeoutMs <? 1) || (60000 <? timeoutMs)) "Invalid P2P frame limits".

(** ** The reader *)

(** The local variables of [readP2PFrameRetained]; a release function that is set is
    the number of bytes it holds. *)
Record FrameReader := mkReader {
  fr_header : list Z; fr_expectedBytes : option Z; fr_body : list Z; fr_decoded : option (jsval units);
  fr_bodyRelease : option Z; fr_decodedRelease : option Z }.
Definition new_reader : FrameReader := mkReader [] None [] None None None.

(** The reader beside the budget it shares. *)
Abbreviation FrameState := (P2PFrameByteBudget * FrameReader)%type (only parsing).
Definition on_budget {A} (m : meth P2PFrameByteBudget A) : meth FrameState A := λ s, let '(b, r) := m s.1 in ((b, s.2), r).
Definition m_reader (f : FrameReader → FrameReader) : meth FrameState unit := m_modify (λ s, (s.1, f s.2)).

(** [try { ... } catch (error) { ... }] around the decoding. *)
Definition decode_error {A} (m : meth FrameState A) : meth FrameState A := λ s,
  match m s with
  | (s', Ok a) => (s', Ok a)
  | (s', Throw e) => (s', Throw (if String.eqb e BUDGET_EXCEEDED || String.eqb e COMPLEXITY_EXCEEDED then e else "Invalid P2P frame encoding"))
  end.

Definition decode_body (expectedBytes : Z) (body : list Z) : meth FrameState unit :=
  m_lift (assertBoundedJsonStructure body);;
  on_budget (reserve expectedBytes);;
  m_reader (λ r, mkReader (fr_header r) (fr_expectedBytes r) (fr_body r) (fr_decoded r) (fr_bodyRelease r) (Some expectedBytes));;
  on_budget (reserve expectedBytes);;
  on_budget (m_modify (release expectedBytes));; (* in the finally of the parse, which touches no budget *)
  decoded ← m_lift (JSON_parse (utf8_decode body));
  m_reader (λ r, mkReader (fr_header r) (fr_expectedBytes r) (fr_body r) (Some decoded) (fr_bodyRelease r) (fr_decodedRelease r)).

(** The header part of a chunk; returns the offset behind it. *)
Definition read_header (maxBytes : Z) (bytes : list Z) : meth FrameState nat :=
  s ← m_get;
  match fr_expectedBytes s.2 with
  | Some _ => mret 0%nat
  | None =>
    let take_ := Nat.min (4 - length (fr_header s.2)) (length bytes) in
    let header := fr_header s.2 ++ take take_ bytes in
    m_reader (λ r, mkReader header (fr_expectedBytes r) (fr_body r) (fr_decoded r) (fr_bodyRelease r) (fr_decodedRelease r));;
    (if Nat.eqb (length header) 4 then
       let expectedBytes := readUInt32BE header in
       m_throw_if ((expectedBytes <? 1) || (maxBytes <? expectedBytes)) "Invalid P2P frame length";;
       on_budget (reserve expectedBytes);;
       m_reader (λ r, mkReader (fr_header r) (Some expectedBytes) (fr_body r) (fr_decoded r) (Some expectedBytes) (fr_decodedRelease r))
     else mret ());;
    mret take_
  end.

(** The rest of the chunk from [offset] on. *)
Definition read_body (bytes : list Z) (offset : nat) : meth FrameState unit :=
  s ← m_get;
  match fr_expectedBytes s.2 with
  | None => mret ()
  | Some expectedBytes =>
    let remaining := (Z.to_nat expectedBytes - length (fr_body s.2))%nat in
    let take_ := Nat.min remaining (length bytes - offset) in
    let body := fr_body s.2 ++ take take_ (drop offset bytes) in
    m_reader (λ r, mkReader (fr_header r) (fr_expectedBytes r) body (fr_decoded r) (fr_bodyRelease r) (fr_decodedRelease r));;
    (if Nat.eqb (length body) (Z.to_nat expectedBytes) then
       m_throw_if (negb (Nat.eqb (offset + take_) (length bytes))) "Trailing bytes in P2P frame";;
       decode_error (decode_body expectedBytes body)
     else mret ())
  end.

(** The body of the loop over the chunks. *)
Definition read_chunk (maxBytes : Z) (bytes : list Z) : meth FrameState unit :=
  m_throw_if (maxBytes + 4 <? zlen bytes) "P2P transport chunk exceeds frame limit";;
  s ← m_get;
  match fr_decoded s.2 with
  | Some _ => m_throw_if (0 <? zlen bytes) "Trailing bytes in P2P frame"
  | None => offset ← read_header maxBytes bytes; read_body bytes offset
  end.

(** The [finally] of a read that does not hand its frame over. *)
Definition abandon (s : FrameState) : FrameState :=
  (match fr_bodyRelease s.2 with Some n => release n | None => id end
     (match fr_decodedRelease s.2 with Some n => release n | None => id end s.1),
   mkReader (fr_header s.2) (fr_expectedBytes s.2) (fr_body s.2) (fr_decoded s.2) None None).

(** The value and the length of a frame that was handed over, with what it holds. *)
Record RetainedP2PFrame := mkRetained { rf_value : jsval units; rf_bytes : Z; rf_held : Z }.

(** What follows the loop. *)
Definition finish_read (s : FrameState) : res RetainedP2PFrame :=
  match fr_decoded s.2, fr_bodyRelease s.2, fr_decodedRelease s.2, fr_expectedBytes s.2 with
  | Some value, Some a, Some b, Some n => Ok (mkRetained value n (a + b))
  | _, _, _, _ => Throw "Truncated P2P frame"
  end.

(** [readP2PFrameRetained]: [chunks] are the chunks of the stream and [ending] whether
    it then ends or throws. *)
Definition readP2PFrameRetained (chunks : list (list Z)) (ending : res unit) (maxBytes timeoutMs : Z) (b : P2PFrameByteBudget)
    : P2PFrameByteBudget * res RetainedP2PFrame :=
  match assertFrameLimits maxBytes timeoutMs with
  | Throw e => (b, Throw e)
  | Ok _ =>
    let '(s, r) := (m_for (read_chunk maxBytes) chunks;; m_lift ending) (b, new_reader) in
    match (r ≫= λ _, finish_read s) with
    | Ok frame => (s.1, Ok frame)
    | Throw e => ((abandon s).1, Throw e)
    end
  end.

Definition readP2PFrame (chunks : list (list Z)) (ending : res unit) (maxBytes timeoutMs : Z) (b : P2PFrameByteBudget)
    : P2PFrameByteBudget * res (jsval units) :=
  match readP2PFrameRetained chunks ending maxBytes timeoutMs b with
  | (b', Ok frame) => (release (rf_held frame) b', Ok (rf_value frame))
  | (b', Throw e) => (b', Throw e)
  end.

(** ** The writer *)

(** The slices of the body; [fuel] is its length. *)
Fixpoint body_chunks (fuel : nat) (body : list Z) : list (list Z) :=
  match fuel with
  | O => []
  | S fuel' =>
    match body with
    | [] => []
    | _ => take (Z.to_nat WRITE_CHUNK_BYTES) body :: body_chunks fuel' (drop (Z.to_nat WRITE_CHUNK_BYTES) body)
    end
  end.

(** [sendChunk] for each chunk in turn: [drains] gives the outcome of waiting for the
    stream after the chunk; the result is what was sent. *)
Fixpoint send_chunks (chunks : list (list Z)) (drains : list (res unit)) : list (list Z) * res unit :=
  match chunks with
  | [] => ([], Ok ())
  | c :: chunks' =>
    match default (Ok ()) (head drains) with
    | Ok _ => let '(sent, r) := send_chunks chunks' (tail drains) in (c :: sent, r)
    | Throw e => ([c], Throw e)
    end
  end.

(** [writeP2PFrame]; [closing] is the outcome of closing the stream.  The release
    functions that are set when an error leaves the block are called by its
    [finally]; the reservation that fails between two of them finds none set that
    still holds bytes. *)
Definition writeP2PFrame (value : jsval units) (maxBytes timeoutMs : Z) (drains : list (res unit)) (closing : res unit) (b : P2PFrameByteBudget)
    : P2PFrameByteBudget * (list (list Z) * res unit) :=
  match assertFrameLimits maxBytes timeoutMs with
  | Throw e => (b, ([], Throw e))
  | Ok _ =>
    match reserve maxBytes b with
    | (b, Throw e) => (b, ([], Throw e))
    | (b, Ok _) =>
      match reserve maxBytes b with
      | (b, Throw e) => (release maxBytes b, ([], Throw e))
      | (b, Ok _) =>
        match (body ← unwrap (utf8 <$> stringify value) "TypeError";
               throw_if ((zlen body =? 0) || (maxBytes <? zlen body)) "P2P frame too large";; Ok body) with
        | Throw e => (release maxBytes (release maxBytes b), ([], Throw e))
        | Ok body =>
          match reserve (zlen body) (release maxBytes (release maxBytes b)) with
          | (b, Throw e) => (b, ([], Throw e))
          | (b, Ok _) =>
            let '(sent, r) := send_chunks (writeUInt32BE (zlen body) :: body_chunks (length body) body) drains in
            (release (zlen body) b, (sent, r;; closing))
          end
        end
      end
    end
  end.

(** ** The bytes of a frame *)

(** What a stream of bytes carries, whatever its chunks. *)
Definition frame_of (maxBytes : Z) (bytes : list Z) (n : Z) (value : jsval units) : Prop :=
  ∃ header body, bytes = header ++ body ∧ length header = 4%nat ∧ n = readUInt32BE header ∧ 1 ≤ n ≤ maxBytes ∧
    zlen body = n ∧ assertBoundedJsonStructure body = Ok () ∧ JSON_parse (utf8_decode body) = Ok value.

Definition held (r : FrameReader) : Z := default 0 (fr_bodyRelease r) + default 0 (fr_decodedRelease r).

(** The bytes others hold, which this reader does not change. *)
Definition others (s : FrameState) : Z := fb_bytesInUse s.1 - held s.2.

(** The reader after the bytes [p], in whatever chunks they came. *)
Inductive progress (maxBytes : Z) : list Z → FrameReader → Prop :=
| ProgressHeader p : (length p < 4)%nat → progress maxBytes p (mkReader p None [] None None None)
| ProgressBody header body n :
    length header = 4%nat → n = readUInt32BE header → 1 ≤ n ≤ maxBytes → zlen body < n →
    progress maxBytes (header ++ body) (mkReader header (Some n) body None (Some n) None)
| ProgressDone header body n value :
    length header = 4%nat → n = readUInt32BE header → 1 ≤ n ≤ maxBytes → zlen body = n →
    assertBoundedJsonStructure body = Ok () → JSON_parse (utf8_decode body) = Ok value →
    progress maxBytes (header ++ body) (mkReader header (Some n) body (Some value) (Some n) (Some n)).

(** Whatever a reservation does, its holder accounts for it. *)
Lemma reserve_run (n : Z) (b : P2PFrameByteBudget) :
  (∃ b', reserve n b = (b', Throw BUDGET_EXCEEDED) ∧ fb_bytesInUse b' = fb_bytesInUse b ∧ fb_maxBytes b' = fb_maxBytes b) ∨
  (∃ b', reserve n b = (b', Ok ()) ∧ fb_bytesInUse b' = fb_bytesInUse b + n ∧ fb_maxBytes b' = fb_maxBytes b ∧ 1 ≤ n ∧ fb_bytesInUse b' ≤ fb_maxBytes b).
Proof.
  unfold reserve. destruct (_ || _) eqn:E; [left; by eexists|]. right. apply orb_false_iff in E as [E H4%Z.ltb_ge].
  apply orb_false_iff in E as [E H3%Z.ltb_ge]. apply orb_false_iff in E as [_ H2%Z.ltb_ge].
  eexists. split; [reflexivity|]. cbn. split; [done|]. split; [done|]. lia.
Qed.

Lemma reserve_room (n : Z) (b : P2PFrameByteBudget) :
  1 ≤ n ≤ MAX_SAFE_INTEGER → n ≤ fb_maxBytes b → fb_bytesInUse b + n ≤ fb_maxBytes b → ∃ b', reserve n b = (b', Ok ()).
Proof.
  intros Hn Hm Hr. unfold reserve. rewrite (proj2 (isSafeInteger_spec n)) by lia.
  rewrite (proj2 (Z.ltb_ge n 1)), (proj2 (Z.ltb_ge (fb_maxBytes b) n)), (proj2 (Z.ltb_ge _ (fb_bytesInUse b))) by lia. by eexists.
Qed.

(** ** One chunk *)

(** A step of a reader leaves what others hold and keeps within the budget. *)
Definition accounts (s s' : FrameState) : Prop :=
  others s' = others s ∧ fb_maxBytes s'.1 = fb_maxBytes s.1 ∧ (fb_bytesInUse s.1 ≤ fb_maxBytes s.1 → fb_bytesInUse s'.1 ≤ fb_maxBytes s.1).

Lemma accounts_refl (s : FrameState) : accounts s s.
Proof. done. Qed.
Lemma accounts_trans (a b c : FrameState) : accounts a b → accounts b c → accounts a c.
Proof. intros (A1 & A2 & A3) (B1 & B2 & B3). split; [congruence|]. split; [congruence|]. intros Ha. rewrite <-A2. apply B3. rewrite A2. auto. Qed.
Lemma accounts_reader (b : P2PFrameByteBudget) (r r' : FrameReader) : held r' = held r → accounts (b, r) (b, r').
Proof. intros E. unfold accounts, others. cbn. by rewrite E. Qed.

(** [on_budget (reserve n)] and what the reader then remembers. *)
Lemma on_budget_run {A} (m : meth P2PFrameByteBudget A) (s : FrameState) : on_budget m s = ((m s.1).1, s.2, (m s.1).2).
Proof. unfold on_budget. by destruct (m s.1). Qed.

Lemma decode_body_run (n : Z) (header body : list Z) (b : P2PFrameByteBudget) (s' : FrameState) (r : res unit) :
  decode_body n body (b, mkReader header (Some n) body None (Some n) None) = (s', r) →
  accounts (b, mkReader header (Some n) body None (Some n) None) s' ∧
  (r = Ok () → ∃ value, assertBoundedJsonStructure body = Ok () ∧ JSON_parse (utf8_decode body) = Ok value ∧
     s'.2 = mkReader header (Some n) body (Some value) (Some n) (Some n)).
Proof.
  unfold decode_body. rewrite meth_bind_run. unfold m_lift at 1. destruct (assertBoundedJsonStructure body) as [[]|e]; [|intros [= <- <-]; by split].
  rewrite meth_bind_run, on_budget_run. cbn [fst snd].
  destruct (reserve_run n b) as [(b1 & -> & H1 & H2)|(b1 & -> & H1 & H2 & Hn & H3)]; cbn [fst snd].
  { intros [= <- <-]. split; [|done]. unfold accounts, others, held. cbn. split; [lia|]. split; [done|lia]. }
  rewrite meth_bind_run. cbn [m_reader m_modify fst snd fr_header fr_expectedBytes fr_body fr_decoded fr_bodyRelease].
  rewrite meth_bind_run, on_budget_run. cbn [fst snd].
  destruct (reserve_run n b1) as [(b2 & -> & H4 & H5)|(b2 & -> & H4 & H5 & _ & H6)]; cbn [fst snd].
  { intros [= <- <-]. split; [|done]. unfold accounts, others, held. cbn. split; [lia|]. split; [lia|lia]. }
  rewrite meth_bind_run, on_budget_run. cbn [m_modify fst snd]. rewrite meth_bind_run. unfold m_lift.
  assert (accounts (b, mkReader header (Some n) body None (Some n) None) (release n b2, mkReader header (Some n) body None (Some n) (Some n))) as Hacc.
  { unfold accounts, others, held, release. cbn. split; [lia|]. split; [lia|lia]. }
  destruct (JSON_parse (utf8_decode body)) as [value|e]; [|intros [= <- <-]; by split].
  cbn. intros [= <- <-]. split; [|by eexists]. eapply accounts_trans; [exact Hacc|]. by apply accounts_reader.
Qed.

Lemma decode_error_run {A} (m : meth FrameState A) (s s' : FrameState) (r : res A) :
  decode_error m s = (s', r) → ∃ r', m s = (s', r') ∧ ∀ a, r = Ok a ↔ r' = Ok a.
Proof. unfold decode_error. destruct (m s) as [s1 [a|e]]; intros [= <- <-]; by eexists. Qed.

(** The rest of a chunk behind the header. *)
Lemma read_body_run (maxBytes n : Z) (header body bytes : list Z) (offset : nat) (b : P2PFrameByteBudget) (s' : FrameState) (r : res unit) :
  length header = 4%nat → n = readUInt32BE header → 1 ≤ n ≤ maxBytes → zlen body < n → (offset ≤ length bytes)%nat →
  read_body bytes offset (b, mkReader header (Some n) body None (Some n) None) = (s', r) →
  accounts (b, mkReader header (Some n) body None (Some n) None) s' ∧
  (r = Ok () → progress maxBytes (header ++ body ++ drop offset bytes) s'.2).
Proof.
  intros Hh Hn Hb Hlen Hoff. unfold read_body. rewrite meth_bind_run. cbn [m_get fst snd fr_expectedBytes fr_body].
  set (take_ := Nat.min (Z.to_nat n - length body) (length bytes - offset)).
  assert (length (take take_ (drop offset bytes)) = take_) as Htake by (rewrite length_take, length_drop; lia).
  set (body' := body ++ take take_ (drop offset bytes)). assert (length body' = (length body + take_)%nat) as Hbl by (unfold body'; by rewrite length_app, Htake).
  rewrite meth_bind_run. cbn [m_reader m_modify fst snd fr_header fr_expectedBytes fr_body fr_decoded fr_bodyRelease fr_decodedRelease].
  unfold zlen in Hlen. destruct (Nat.eqb_spec (length body') (Z.to_nat n)) as [Hfull|Hpart].
  - rewrite meth_bind_run. unfold m_throw_if, m_lift.
    assert (accounts (b, mkReader header (Some n) body None (Some n) None) (b, mkReader header (Some n) body' None (Some n) None)) as Hacc by (by apply accounts_reader).
    destruct (Nat.eqb_spec (offset + take_) (length bytes)) as [Hend|]; cbn [negb throw_if]; [|intros [= <- <-]; by split].
    intros (r' & E & Hr)%decode_error_run. apply decode_body_run in E as [Hd Hok]. split; [by eapply accounts_trans|]. intros ->.
    destruct (Hok (proj1 (Hr ()) eq_refl)) as (value & H1 & H2 & E). rewrite E.
    replace (header ++ body ++ drop offset bytes) with (header ++ body')
      by (unfold body'; rewrite take_ge by (rewrite length_drop; lia); done).
    apply ProgressDone; try done. unfold zlen. lia.
  - intros [= <- <-]. split; [by apply accounts_reader|]. intros _. assert (take_ = (length bytes - offset)%nat) as Et by (unfold take_ in *; lia).
    unfold body'. rewrite take_ge by (rewrite length_drop; lia). apply ProgressBody; try done. unfold zlen. rewrite length_app, length_drop. lia.
Qed.

Lemma read_chunk_run (maxBytes : Z) (p bytes : list Z) (s s' : FrameState) (r : res unit) :
  progress maxBytes p s.2 → read_chunk maxBytes bytes s = (s', r) →
  accounts s s' ∧ (r = Ok () → progress maxBytes (p ++ bytes) s'.2).
Proof.
  intros Hp. destruct s as [b rd]. cbn [snd] in Hp. unfold read_chunk. rewrite meth_bind_run. unfold m_throw_if at 1, m_lift at 1.
  destruct (maxBytes + 4 <? zlen bytes); cbn [throw_if]; [intros [= <- <-]; by split|].
  rewrite meth_bind_run. cbn [m_get fst snd]. destruct Hp as [p Hp|header body n Hh Hn Hr Hb|header body n value Hh Hn Hr Hb Hs Hj]; cbn [fr_decoded].
  - rewrite meth_bind_run. unfold read_header. rewrite meth_bind_run. cbn [m_get fst snd fr_expectedBytes fr_header].
    set (take_ := Nat.min (4 - length p) (length bytes)). rewrite meth_bind_run. cbn [m_reader m_modify fst snd fr_header fr_expectedBytes fr_body fr_decoded fr_bodyRelease fr_decodedRelease].
    set (header := p ++ take take_ bytes). assert (length header = (length p + take_)%nat) as Hlen by (unfold header; rewrite length_app, length_take; lia).
    rewrite meth_bind_run. destruct (Nat.eqb_spec (length header) 4) as [H4|H4].
    + rewrite meth_bind_run. unfold m_throw_if at 1, m_lift at 1. destruct ((readUInt32BE header <? 1) || _) eqn:Hbad; cbn [throw_if].
      { intros [= <- <-]. split; [by apply accounts_reader|done]. }
      apply orb_false_iff in Hbad as [Hb1%Z.ltb_ge Hb2%Z.ltb_ge]. rewrite meth_bind_run, on_budget_run. cbn [fst snd].
      destruct (reserve_run (readUInt32BE header) b) as [(b1 & -> & H1 & H2)|(b1 & -> & H1 & H2 & Hn & H3)]; cbn [fst snd].
      { intros [= <- <-]. split; [|done]. unfold accounts, others, held. cbn. split; [lia|]. split; [done|lia]. }
      cbn [m_reader m_modify fst snd fr_header fr_expectedBytes fr_body fr_decoded fr_bodyRelease fr_decodedRelease mret meth_ret].
      intros E. apply (read_body_run maxBytes) in E as [Hacc Hok]; [|done|done|lia|unfold zlen; cbn [length]; lia|unfold take_; lia]. split.
      * eapply accounts_trans; [|exact Hacc]. unfold accounts, others, held. cbn. split; [lia|]. split; [done|lia].
      * intros Hx%Hok. replace (p ++ bytes) with (header ++ [] ++ drop take_ bytes); [done|]. unfold header. cbn [app]. by rewrite <-app_assoc, take_drop.
    + cbn [mret meth_ret]. unfold read_body. rewrite meth_bind_run. cbn [m_get fst snd fr_expectedBytes mret meth_ret]. intros [= <- <-].
      split; [by apply accounts_reader|]. intros _. cbn [snd]. assert (take_ = length bytes) as Et by (unfold take_ in *; lia).
      replace (p ++ bytes) with header by (unfold header; by rewrite take_ge by lia). constructor. lia.
  - rewrite meth_bind_run. unfold read_header. rewrite meth_bind_run. cbn [m_get fst snd fr_expectedBytes fr_header mret meth_ret].
    intros E. apply (read_body_run maxBytes) in E as [Hacc Hok]; [|done|done|lia|done|lia]. split; [done|]. intros Hx%Hok. by rewrite <-app_assoc.
  - unfold m_throw_if, m_lift. destruct (0 <? zlen bytes) eqn:Hz; cbn [throw_if]; intros [= <- <-]; [by split|]. split; [done|]. intros _.
    assert (bytes = []) as -> by (destruct bytes; [done|apply Z.ltb_ge in Hz; unfold zlen in Hz; cbn [length] in Hz; lia]). rewrite app_nil_r. by apply ProgressDone.
Qed.

(** ** Frames that are accepted *)

(** There is room for the body, the decoded value and the text between them. *)
Definition room (n : Z) (s : FrameState) : Prop := others s + 3 * n ≤ fb_maxBytes s.1 ∧ 0 ≤ others s.

Lemma room_accounts (n : Z) (s s' : FrameState) : accounts s s' → room n s → room n s'.
Proof. intros (E1 & E2 & _) [R1 R2]. unfold room. by rewrite E1, E2. Qed.

Lemma decode_body_ok (n : Z) (header body : list Z) (value : jsval units) (b : P2PFrameByteBudget) :
  1 ≤ n ≤ MAX_SAFE_INTEGER → assertBoundedJsonStructure body = Ok () → JSON_parse (utf8_decode body) = Ok value →
  room n (b, mkReader header (Some n) body None (Some n) None) →
  ∃ s', decode_error (decode_body n body) (b, mkReader header (Some n) body None (Some n) None) = (s', Ok ()).
Proof.
  intros Hn Hs Hj [R1 R2]. unfold others, held in R1, R2. cbn in R1, R2. unfold decode_error, decode_body.
  rewrite meth_bind_run. unfold m_lift at 1. rewrite Hs. rewrite meth_bind_run, on_budget_run. cbn [fst snd].
  destruct (reserve_room n b) as (b1 & E1); [done|lia..|]. rewrite E1. cbn [fst snd].
  destruct (reserve_run n b) as [(? & E & _)|(b1' & E & H1 & H2 & _)]; rewrite E1 in E; [done|]. injection E as <-.
  rewrite meth_bind_run. cbn [m_reader m_modify fst snd fr_header fr_expectedBytes fr_body fr_decoded fr_bodyRelease].
  rewrite meth_bind_run, on_budget_run. cbn [fst snd]. destruct (reserve_room n b1) as (b2 & E2); [done|lia..|]. rewrite E2. cbn [fst snd].
  rewrite meth_bind_run, on_budget_run. cbn [m_modify fst snd]. rewrite meth_bind_run. unfold m_lift. rewrite Hj. by eexists.
Qed.

Lemma read_body_ok (maxBytes n : Z) (header body bytes rest : list Z) (offset : nat) (value : jsval units) (b : P2PFrameByteBudget) :
  1 ≤ n ≤ MAX_SAFE_INTEGER → zlen body < n → (offset ≤ length bytes)%nat →
  let total := body ++ drop offset bytes ++ rest in
  zlen total = n → assertBoundedJsonStructure total = Ok () → JSON_parse (utf8_decode total) = Ok value →
  room n (b, mkReader header (Some n) body None (Some n) None) →
  ∃ s', read_body bytes offset (b, mkReader header (Some n) body None (Some n) None) = (s', Ok ()).
Proof.
  intros Hn Hlen Hoff total Htot Hs Hj Hroom. unfold read_body. rewrite meth_bind_run. cbn [m_get fst snd fr_expectedBytes fr_body].
  set (take_ := Nat.min (Z.to_nat n - length body) (length bytes - offset)).
  assert (length total = Z.to_nat n) as Hlt by (unfold zlen in Htot; lia). unfold total in Hlt. rewrite !length_app, length_drop in Hlt.
  assert (take_ = (length bytes - offset)%nat) as Et by (unfold take_; lia).
  rewrite (take_ge (drop offset bytes)) by (rewrite length_drop; lia).
  rewrite meth_bind_run. cbn [m_reader m_modify fst snd fr_header fr_expectedBytes fr_body fr_decoded fr_bodyRelease fr_decodedRelease].
  rewrite length_app, length_drop. destruct (Nat.eqb_spec (length body + (length bytes - offset)) (Z.to_nat n)) as [Hfull|]; [|by eexists].
  rewrite meth_bind_run. unfold m_throw_if, m_lift. rewrite (proj2 (Nat.eqb_eq (offset + take_) (length bytes))) by lia. cbn [negb throw_if].
  assert (rest = []) as -> by (apply length_zero_iff_nil; lia). unfold total in *. rewrite app_nil_r in *. by eapply decode_body_ok.
Qed.

Lemma frame_total (header body rest : list Z) (maxBytes n : Z) (value : jsval units) :
  length header = 4%nat → frame_of maxBytes (header ++ rest) n value →
  n = readUInt32BE header ∧ 1 ≤ n ≤ maxBytes ∧ zlen rest = n ∧ assertBoundedJsonStructure rest = Ok () ∧ JSON_parse (utf8_decode rest) = Ok value.
Proof. intros Hh (h & bd & E & Hl & Hf). apply app_inj_1 in E as [-> ->]; [done|lia]. Qed.

Lemma read_chunk_ok (maxBytes n : Z) (p bytes rest : list Z) (value : jsval units) (s : FrameState) :
  progress maxBytes p s.2 → frame_of maxBytes (p ++ bytes ++ rest) n value → zlen bytes ≤ maxBytes + 4 → maxBytes ≤ MAX_SAFE_INTEGER → room n s →
  ∃ s', read_chunk maxBytes bytes s = (s', Ok ()).
Proof.
  intros Hp Hf Hchunk Hmax Hroom. destruct s as [b rd]. cbn [snd] in Hp. unfold read_chunk. rewrite meth_bind_run. unfold m_throw_if at 1, m_lift at 1.
  rewrite (proj2 (Z.ltb_ge _ _)) by done. cbn [throw_if].
  rewrite meth_bind_run. cbn [m_get fst snd]. destruct Hp as [p Hp|header body m Hh Hn Hr Hb|header body m v Hh Hn Hr Hb Hs Hj]; cbn [fr_decoded].
  - rewrite meth_bind_run. unfold read_header. rewrite meth_bind_run. cbn [m_get fst snd fr_expectedBytes fr_header].
    set (take_ := Nat.min (4 - length p) (length bytes)). rewrite meth_bind_run. cbn [m_reader m_modify fst snd fr_header fr_expectedBytes fr_body fr_decoded fr_bodyRelease fr_decodedRelease].
    set (header := p ++ take take_ bytes). assert (length header = (length p + take_)%nat) as Hlen by (unfold header; rewrite length_app, length_take; lia).
    rewrite meth_bind_run. destruct (Nat.eqb_spec (length header) 4) as [H4|H4].
    + replace (p ++ bytes ++ rest) with (header ++ drop take_ bytes ++ rest) in Hf
        by (unfold header; rewrite <-app_assoc; f_equal; rewrite app_assoc, take_drop; done).
      apply frame_total in Hf as (Hn & Hb & Hz & Hs & Hj); [|exact []|done]. rewrite meth_bind_run. unfold m_throw_if at 1, m_lift at 1. rewrite <-Hn.
      rewrite (proj2 (Z.ltb_ge n 1)), (proj2 (Z.ltb_ge maxBytes n)) by lia. cbn [orb throw_if]. rewrite meth_bind_run, on_budget_run. cbn [fst snd].
      destruct Hroom as [R1 R2]. unfold others, held in R1, R2. cbn in R1, R2. destruct (reserve_room n b) as (b1 & E1); [lia..|]. rewrite E1. cbn [fst snd].
      destruct (reserve_run n b) as [(? & E & _)|(b1' & E & H1 & H2 & _)]; rewrite E1 in E; [done|]. injection E as <-.
      cbn [m_reader m_modify fst snd fr_header fr_expectedBytes fr_body fr_decoded fr_bodyRelease fr_decodedRelease mret meth_ret].
      eapply (read_body_ok maxBytes n header [] bytes rest take_ value); try done; [lia|unfold zlen; cbn [length]; lia|unfold take_; lia|].
      unfold room, others, held. cbn. lia.
    + cbn [mret meth_ret]. unfold read_body. rewrite meth_bind_run. cbn [m_get fst snd fr_expectedBytes mret meth_ret]. by eexists.
  - rewrite meth_bind_run. unfold read_header. rewrite meth_bind_run. cbn [m_get fst snd fr_expectedBytes fr_header mret meth_ret].
    rewrite <-app_assoc in Hf. apply frame_total in Hf as (Hn' & Hb' & Hz & Hs & Hj); [|exact []|done].
    assert (m = n) as -> by congruence. eapply (read_body_ok maxBytes n header body bytes rest 0 value); try done; lia.
  - rewrite <-app_assoc in Hf. apply frame_total in Hf as (Hn' & Hb' & Hz & _); [|exact []|done].
    assert (m = n) as -> by congruence. unfold zlen in Hz, Hb. rewrite !length_app in Hz.
    unfold m_throw_if, m_lift. rewrite (proj2 (Z.ltb_ge 0 (zlen bytes))) by (unfold zlen; lia). by eexists.
Qed.

(** ** Whole streams *)

Lemma read_chunks_run (maxBytes : Z) (chunks : list (list Z)) (p : list Z) (s s' : FrameState) (r : res unit) :
  progress maxBytes p s.2 → m_for (read_chunk maxBytes) chunks s = (s', r) →
  accounts s s' ∧ (r = Ok () → progress maxBytes (p ++ concat chunks) s'.2).
Proof.
  revert p s. induction chunks as [|c chunks IH]; intros p s Hp E; cbn [m_for concat] in *.
  - injection E as <- <-. split; [done|]. intros _. by rewrite app_nil_r.
  - rewrite meth_bind_run in E. destruct (read_chunk maxBytes c s) as [s1 r1] eqn:E1. apply (read_chunk_run maxBytes p) in E1 as [Ha Ho]; [|done].
    destruct r1 as [[]|e]; [|injection E as <- <-; by split].
    apply (IH (p ++ c)) in E as [Ha' Ho']; [|by apply Ho]. split; [by eapply accounts_trans|]. rewrite app_assoc. exact Ho'.
Qed.

Lemma read_chunks_ok (maxBytes n : Z) (chunks : list (list Z)) (p : list Z) (value : jsval units) (s : FrameState) :
  progress maxBytes p s.2 → frame_of maxBytes (p ++ concat chunks) n value → Forall (λ c, zlen c ≤ maxBytes + 4) chunks →
  maxBytes ≤ MAX_SAFE_INTEGER → room n s → ∃ s', m_for (read_chunk maxBytes) chunks s = (s', Ok ()).
Proof.
  intros Hp Hf Hc Hmax. revert p s Hp Hf. induction Hc as [|c chunks Hc Hcs IH]; intros p s Hp Hf Hroom; cbn [m_for concat] in *; [by eexists|].
  destruct (read_chunk_ok maxBytes n p c (concat chunks) value s) as (s1 & E1); [done..|]. rewrite meth_bind_run, E1.
  destruct (read_chunk_run maxBytes p c s s1 (Ok ()) Hp E1) as [Ha Ho].
  apply (IH (p ++ c)); [by apply Ho|by rewrite <-app_assoc|by eapply room_accounts].
Qed.

(** Reading without holding on to the frame changes nothing in the budget. *)
Lemma new_reader_progress (maxBytes : Z) : progress maxBytes [] new_reader.
Proof. constructor. cbn. lia. Qed.

Lemma abandon_others (s : FrameState) : fb_bytesInUse (abandon s).1 = others s.
Proof.
  unfold abandon, others, held. destruct s as [b [h e bd d [x|] [y|]]]; cbn; lia.
Qed.

Lemma retained_run (chunks : list (list Z)) (ending : res unit) (maxBytes timeoutMs : Z) (b b' : P2PFrameByteBudget) (r : res RetainedP2PFrame) :
  readP2PFrameRetained chunks ending maxBytes timeoutMs b = (b', r) →
  match r with
  | Ok frame => ending = Ok () ∧ frame_of maxBytes (concat chunks) (rf_bytes frame) (rf_value frame) ∧
      rf_held frame = 2 * rf_bytes frame ∧ fb_bytesInUse b' = fb_bytesInUse b + rf_held frame
  | Throw _ => fb_bytesInUse b' = fb_bytesInUse b
  end.
Proof.
  unfold readP2PFrameRetained. destruct (assertFrameLimits maxBytes timeoutMs) as [[]|e]; [|by intros [= <- <-]].
  rewrite meth_bind_run. destruct (m_for (read_chunk maxBytes) chunks (b, new_reader)) as [s r0] eqn:E.
  apply (read_chunks_run maxBytes chunks []) in E as [(Ha & _) Ho]; [|apply new_reader_progress].
  assert (others (b, new_reader) = fb_bytesInUse b) as Hb by (unfold others, held; cbn; lia).
  assert (fb_bytesInUse (abandon s).1 = fb_bytesInUse b) as Hab by (by rewrite abandon_others, Ha, Hb).
  destruct r0 as [[]|e]; cbn [mbind res_bind]; [|by intros [= <- <-]].
  unfold m_lift. destruct ending as [[]|e]; cbn [mbind res_bind]; [|by intros [= <- <-]].
  specialize (Ho eq_refl). cbn [app] in Ho. destruct s as [b1 rd]. cbn [fst snd] in *. inversion Ho as [q Hq E1 E2|h bd n Hh Hn Hr Hl E1 E2|h bd n v Hh Hn Hr Hl Hs Hj E1 E2]; subst rd;
    cbn [finish_read fr_decoded fr_bodyRelease fr_decodedRelease fr_expectedBytes snd fst]; intros [= <- <-].
  - done.
  - done.
  - cbn [rf_value rf_bytes rf_held]. split; [done|]. split; [by exists h, bd|]. split; [lia|]. unfold others, held in Ha, Hb. cbn in Ha. lia.
Qed.

(** C21. The reader of frames is right whatever the peer sends and however the
    transport cuts it: a value is returned only if the bytes of the whole stream are
    a length within the limit and that many bytes of bounded JSON text of that value,
    nothing more and nothing less; the value is nested at most 64 deep and has at
    most 250001 values in it; and on every path, errors and aborted streams included,
    the shared byte budget is as it was. *)
Theorem frame_read_sound (chunks : list (list Z)) (ending : res unit) (maxBytes timeoutMs : Z) (b b' : P2PFrameByteBudget) (r : res (jsval units)) :
  readP2PFrame chunks ending maxBytes timeoutMs b = (b', r) →
  fb_bytesInUse b' = fb_bytesInUse b ∧
  ∀ v, r = Ok v → ending = Ok () ∧ (∃ n, frame_of maxBytes (concat chunks) n v) ∧
    json_depth v ≤ MAX_P2P_JSON_NESTING_DEPTH ∧ json_size v ≤ MAX_P2P_JSON_STRUCTURAL_TOKENS + 1.
Proof.
  unfold readP2PFrame. destruct (readP2PFrameRetained chunks ending maxBytes timeoutMs b) as [b1 r1] eqn:E. apply retained_run in E.
  destruct r1 as [frame|e]; intros [= <- <-]; [|done]. destruct E as (He & Hf & Hh & Hb). split; [cbn; lia|]. intros v [= <-].
  split; [done|]. split; [by eexists|]. destruct Hf as (h & bd & _ & _ & _ & _ & _ & Hs & Hj). by eapply scanned_json_bounded.
Qed.

Lemma readP2PFrame_complete (chunks : list (list Z)) (maxBytes timeoutMs n : Z) (b : P2PFrameByteBudget) (v : jsval units) :
  assertFrameLimits maxBytes timeoutMs = Ok () → Forall (λ c, zlen c ≤ maxBytes + 4) chunks →
  0 ≤ fb_bytesInUse b → fb_bytesInUse b + 3 * n ≤ fb_maxBytes b → frame_of maxBytes (concat chunks) n v →
  ∃ b', readP2PFrame chunks (Ok ()) maxBytes timeoutMs b = (b', Ok v).
Proof.
  intros Hl Hc H0 Hroom Hf.
  assert (maxBytes ≤ MAX_SAFE_INTEGER) as Hmax.
  { unfold assertFrameLimits in Hl. apply throw_if_Ok in Hl. do 5 (apply orb_false_iff in Hl as [Hl _]). apply negb_false_iff, isSafeInteger_spec in Hl. lia. }
  destruct (read_chunks_ok maxBytes n chunks [] v (b, new_reader)) as (s & E); [apply new_reader_progress|done..| |].
  { unfold room, others, held. cbn. lia. }
  unfold readP2PFrame, readP2PFrameRetained. rewrite Hl, meth_bind_run, E. unfold m_lift. cbn [mbind res_bind].
  destruct (read_chunks_run maxBytes chunks [] (b, new_reader) s (Ok ()) (new_reader_progress maxBytes) E) as [_ Ho]. specialize (Ho eq_refl). cbn [app] in Ho.
  destruct s as [b1 rd]. cbn [fst snd] in *. destruct Hf as (h & bd & Ec & Hh & Hn & Hb & Hz & Hs & Hj). unfold zlen in Hz. rewrite Ec in Ho.
  inversion Ho as [q Hq E1 E2|h1 bd1 n1 Hh1 Hn1 Hr1 Hl1 E1 E2|h1 bd1 n1 v1 Hh1 Hn1 Hr1 Hl1 Hs1 Hj1 E1 E2]; subst rd.
  - rewrite length_app in Hq. lia.
  - apply app_inj_1 in E1 as [-> ->]; [|lia]. unfold zlen in Hl1. lia.
  - apply app_inj_1 in E1 as [-> ->]; [|lia]. rewrite Hj in Hj1. apply Ok_inj in Hj1 as ->. cbn. by eexists.
Qed.

(** ** Writing *)

Lemma body_chunks_concat (fuel : nat) (body : list Z) : (length body ≤ fuel)%nat → concat (body_chunks fuel body) = body.
Proof.
  revert body. induction fuel as [|f IH]; intros body Hf; [by destruct body; [|cbn in Hf; lia]|].
  destruct body as [|x body]; [done|]. cbn [body_chunks concat]. rewrite IH; [apply take_drop|].
  rewrite length_drop. cbn [length] in *. assert (0 < Z.to_nat WRITE_CHUNK_BYTES)%nat by (unfold WRITE_CHUNK_BYTES; lia). lia.
Qed.

Lemma send_chunks_prefix (chunks : list (list Z)) (drains : list (res unit)) (sent : list (list Z)) (r : res unit) :
  send_chunks chunks drains = (sent, r) → sent `prefix_of` chunks ∧ (r = Ok () → sent = chunks).
Proof.
  revert drains sent r. induction chunks as [|c chunks IH]; intros drains sent r E; cbn [send_chunks] in E; [by injection E as <- <-|].
  destruct (default (Ok ()) (head drains)) as [[]|e].
  - destruct (send_chunks chunks (tail drains)) as [sent' r'] eqn:E'. injection E as <- <-. apply IH in E' as [Hp Ho].
    split; [by apply prefix_cons|]. intros Hr. by rewrite Ho.
  - injection E as <- <-. split; [|done]. by exists chunks.
Qed.

Lemma readUInt32BE_write (n : Z) : 0 ≤ n < 2 ^ 32 → readUInt32BE (writeUInt32BE n) = n.
Proof.
  intros Hn. unfold readUInt32BE, writeUInt32BE. cbn [foldl]. rewrite !Z.shiftr_div_pow2 by lia.
  change (2 ^ 24) with 16777216. change (2 ^ 16) with 65536. change (2 ^ 8) with 256. change (2 ^ 32) with 4294967296 in Hn.
  Z.div_mod_to_equations. lia.
Qed.

Lemma assertFrameLimits_Ok (maxBytes timeoutMs : Z) (u : unit) : assertFrameLimits maxBytes timeoutMs = Ok u → 1 ≤ maxBytes ≤ 32000000.
Proof.
  unfold assertFrameLimits. intros E%throw_if_Ok. do 3 (apply orb_false_iff in E as [E _]). apply orb_false_iff in E as [E H2%Z.ltb_ge].
  apply orb_false_iff in E as [_ H1%Z.ltb_ge]. lia.
Qed.

(** Whatever happens to a write, the budget is as it was, and what was sent is a
    prefix of the frame, all of it when the write succeeds. *)
Lemma write_run (value : jsval units) (maxBytes timeoutMs : Z) (drains : list (res unit)) (closing : res unit) (b b' : P2PFrameByteBudget)
    (sent : list (list Z)) (r : res unit) :
  writeP2PFrame value maxBytes timeoutMs drains closing b = (b', (sent, r)) →
  fb_bytesInUse b' = fb_bytesInUse b ∧
  (r = Ok () → ∃ t, stringify value = Some t ∧ 1 ≤ zlen (utf8 t) ≤ maxBytes ∧ maxBytes ≤ 32000000 ∧ concat sent = writeUInt32BE (zlen (utf8 t)) ++ utf8 t).
Proof.
  unfold writeP2PFrame. destruct (assertFrameLimits maxBytes timeoutMs) as [[]|e] eqn:Hl; [|by intros [= <- <- <-]]. apply assertFrameLimits_Ok in Hl.
  destruct (reserve_run maxBytes b) as [(b1 & -> & H1 & _)|(b1 & -> & H1 & H1' & _)]; [by intros [= <- <- <-]|].
  destruct (reserve_run maxBytes b1) as [(b2 & -> & H2 & _)|(b2 & -> & H2 & H2' & _)]; [intros [= <- <- <-]; cbn; by split; [lia|]|].
  destruct (stringify value) as [t|]; cbn [fmap option_fmap option_map unwrap mbind res_bind]; [|intros [= <- <- <-]; cbn; by split; [lia|]].
  destruct ((zlen (utf8 t) =? 0) || (maxBytes <? zlen (utf8 t))) eqn:Hz; cbn [throw_if mbind res_bind]; [intros [= <- <- <-]; cbn; by split; [lia|]|].
  apply orb_false_iff in Hz as [Hz1%Z.eqb_neq Hz2%Z.ltb_ge].
  destruct (reserve_run (zlen (utf8 t)) (release maxBytes (release maxBytes b2))) as [(b3 & -> & H3 & _)|(b3 & -> & H3 & H3' & _)];
    [intros [= <- <- <-]; rewrite H3; cbn; by split; [lia|]|]. cbn [release fb_bytesInUse] in H3.
  destruct (send_chunks _ drains) as [sent' r'] eqn:Es. intros [= <- <- <-]. split; [cbn; lia|]. intros (u & Hr & _)%res_bind_Ok. destruct u.
  apply send_chunks_prefix in Es as [_ Ho]. rewrite (Ho Hr). exists t. split; [done|]. split; [unfold zlen in *; lia|]. split; [lia|].
  cbn [concat]. by rewrite body_chunks_concat.
Qed.

(** A stream whose body the structure scan refuses gives no value. *)
Lemma readP2PFrame_refused (chunks : list (list Z)) (maxBytes timeoutMs n : Z) (b : P2PFrameByteBudget) (body : list Z) (e : string) :
  concat chunks = writeUInt32BE n ++ body → assertBoundedJsonStructure body = Throw e →
  ∃ b' e', readP2PFrame chunks (Ok ()) maxBytes timeoutMs b = (b', Throw e').
Proof.
  intros Hc Hs. unfold readP2PFrame. destruct (readP2PFrameRetained chunks (Ok ()) maxBytes timeoutMs b) as [b1 [frame|e1]] eqn:E; [|eauto].
  apply retained_run in E as (_ & (h & bd & Ec & Hh & _ & _ & _ & Hb & _) & _). rewrite Hc in Ec.
  apply app_inj_1 in Ec as [_ ->]; [congruence|]. by rewrite Hh.
Qed.

(** C22. What is written is read back, or refused for its structure.  Let the write of
    a normal value (its numbers are safe integers, its objects hold their members once
    and in the order a JavaScript object lists them) succeed; then a reader with valid
    limits that are not smaller than the writer's, room for three times the limit in
    its budget, and a stream that cuts the bytes into chunks of at most the limit and
    a header each in any way, and then ends, gets the value, minus members that are
    undefined and the sign of zero, when the written text passes the scan of its
    structure (nesting and number of tokens), and an error when it does not: the
    writer does not scan what it writes.  And the writer's budget is as it was, also
    when the write fails. *)
Theorem frame_roundtrip (value : jsval units) (maxBytes timeoutMs maxBytes' timeoutMs' : Z) (drains : list (res unit)) (closing : res unit)
    (b b' b2 : P2PFrameByteBudget) (sent chunks : list (list Z)) (r : res unit) :
  writeP2PFrame value maxBytes timeoutMs drains closing b = (b', (sent, r)) →
  fb_bytesInUse b' = fb_bytesInUse b ∧
  (r = Ok () → normal value →
   assertFrameLimits maxBytes' timeoutMs' = Ok () → maxBytes ≤ maxBytes' → 0 ≤ fb_bytesInUse b2 → fb_bytesInUse b2 + 3 * maxBytes ≤ fb_maxBytes b2 →
   concat chunks = concat sent → Forall (λ c, zlen c ≤ maxBytes' + 4) chunks →
   ∃ t b2' x, stringify value = Some t ∧ readP2PFrame chunks (Ok ()) maxBytes' timeoutMs' b2 = (b2', x) ∧
     match assertBoundedJsonStructure (utf8 t) with Ok _ => x = Ok (erase value) | Throw _ => ∃ e, x = Throw e end).
Proof.
  intros Hw. apply write_run in Hw as [Hb Hok]. split; [done|]. intros Hr Hn Hl Hmax H0 Hroom Hcat Hch.
  destruct (Hok Hr) as (t & Ht & Hz & Hm & Hsent). exists t. destruct (assertBoundedJsonStructure (utf8 t)) as [[]|e] eqn:Hs.
  - destruct (readP2PFrame_complete chunks maxBytes' timeoutMs' (zlen (utf8 t)) b2 (erase value)) as [b2' E]; try done; [lia| |by eauto].
    rewrite Hcat, Hsent. exists (writeUInt32BE (zlen (utf8 t))), (utf8 t). split; [done|]. split; [done|].
    rewrite readUInt32BE_write by lia. split_and!; try done; try lia. by apply stringify_decodes.
  - destruct (readP2PFrame_refused chunks maxBytes' timeoutMs' (zlen (utf8 t)) b2 (utf8 t) e) as (b2' & e' & E); [by rewrite Hcat, Hsent|done|].
    exists b2', (Throw e'). eauto.
Qed.

(** ** Many readers on one budget *)

(** The reads in progress, each with its limit, and the bytes held by frames that were
    handed over and not yet released. *)
Record FrameSystem := mkFrameSystem { fs_budget : P2PFrameByteBudget; fs_readers : list (Z * FrameReader); fs_retained : list Z }.

(** The chunks of the streams arrive in any order; a read that throws gives up what
    it holds. *)
Inductive frame_step : FrameSystem → FrameSystem → Prop :=
| FrameOpen b l k maxBytes timeoutMs :
    assertFrameLimits maxBytes timeoutMs = Ok () → frame_step (mkFrameSystem b l k) (mkFrameSystem b (l ++ [(maxBytes, new_reader)]) k)
| FrameChunk b b' l1 l2 k maxBytes r r' bytes :
    read_chunk maxBytes bytes (b, r) = ((b', r'), Ok ()) →
    frame_step (mkFrameSystem b (l1 ++ (maxBytes, r) :: l2) k) (mkFrameSystem b' (l1 ++ (maxBytes, r') :: l2) k)
| FrameRefused b s' l1 l2 k maxBytes r bytes e :
    read_chunk maxBytes bytes (b, r) = (s', Throw e) →
    frame_step (mkFrameSystem b (l1 ++ (maxBytes, r) :: l2) k) (mkFrameSystem (abandon s').1 (l1 ++ l2) k)
| FrameAborted b l1 l2 k maxBytes r :
    frame_step (mkFrameSystem b (l1 ++ (maxBytes, r) :: l2) k) (mkFrameSystem (abandon (b, r)).1 (l1 ++ l2) k)
| FrameTruncated b l1 l2 k maxBytes r e :
    finish_read (b, r) = Throw e →
    frame_step (mkFrameSystem b (l1 ++ (maxBytes, r) :: l2) k) (mkFrameSystem (abandon (b, r)).1 (l1 ++ l2) k)
| FrameHanded b l1 l2 k maxBytes r frame :
    finish_read (b, r) = Ok frame →
    frame_step (mkFrameSystem b (l1 ++ (maxBytes, r) :: l2) k) (mkFrameSystem b (l1 ++ l2) (k ++ [rf_held frame]))
| FrameReleased b l k1 k2 n :
    frame_step (mkFrameSystem b l (k1 ++ n :: k2)) (mkFrameSystem (release n b) l (k1 ++ k2)).

Definition total (l : list Z) : Z := foldr Z.add 0 l.

Lemma chunks_total_app (a b : list Z) : total (a ++ b) = total a + total b.
Proof. unfold total. induction a; cbn in *; lia. Qed.
Lemma total_insert (x : Z) (a b : list Z) : total (a ++ x :: b) = total (a ++ b) + x.
Proof. rewrite !chunks_total_app. cbn. unfold total. lia. Qed.

(** What the readers hold and what they have buffered. *)
Definition holds_of (l : list (Z * FrameReader)) : list Z := map (λ r, held r.2) l.
Definition buffered (l : list (Z * FrameReader)) : list Z := map (λ r, zlen (fr_body r.2)) l.

Record frame_ok (maxBytes : Z) (s : FrameSystem) : Prop := {
  fo_max : fb_maxBytes (fs_budget s) = maxBytes;
  fo_used : fb_bytesInUse (fs_budget s) = total (holds_of (fs_readers s)) + total (fs_retained s);
  fo_bound : fb_bytesInUse (fs_budget s) ≤ maxBytes;
  fo_progress : Forall (λ r, ∃ p, progress r.1 p r.2) (fs_readers s);
  fo_retained : Forall (λ n, 0 ≤ n) (fs_retained s) }.

Lemma progress_held (maxBytes : Z) (p : list Z) (r : FrameReader) : progress maxBytes p r → 0 ≤ zlen (fr_body r) ≤ held r.
Proof. intros [q Hq|h bd n Hh Hn Hr Hl|h bd n v Hh Hn Hr Hl Hs Hj]; unfold held, zlen in *; cbn in *; lia. Qed.

Lemma held_insert (x : Z * FrameReader) (l1 l2 : list (Z * FrameReader)) :
  total (holds_of (l1 ++ x :: l2)) = total (holds_of (l1 ++ l2)) + held x.2.
Proof. unfold holds_of. rewrite !map_app. cbn [map]. apply total_insert. Qed.

(** A reader that leaves gives back what it holds. *)
Lemma frame_ok_leave (maxBytes : Z) (b b' : P2PFrameByteBudget) (l1 l2 : list (Z * FrameReader)) (x : Z * FrameReader) (k : list Z) (s' : FrameState) :
  frame_ok maxBytes (mkFrameSystem b (l1 ++ x :: l2) k) → accounts (b, x.2) s' → b' = (abandon s').1 → frame_ok maxBytes (mkFrameSystem b' (l1 ++ l2) k).
Proof.
  intros [H1 H2 H3 H4 H5] (A1 & A2 & A3) ->. cbn [fs_budget fs_readers fs_retained] in *. rewrite held_insert in H2.
  assert (fb_maxBytes (abandon s').1 = fb_maxBytes s'.1) as Em by (destruct s' as [b1 [h e bd d [y|] [z|]]]; done).
  apply Forall_app in H4 as [P1 [(p & Px) P2]%Forall_cons]. apply progress_held in Px.
  assert (fb_bytesInUse (abandon s').1 = fb_bytesInUse b - held x.2) as Eu by (rewrite abandon_others, A1; done).
  split; cbn [fs_budget fs_readers fs_retained]; [cbn in A2; congruence|lia|lia|by apply Forall_app|done].
Qed.

Lemma frame_step_ok (maxBytes : Z) (s s' : FrameSystem) : frame_ok maxBytes s → frame_step s s' → frame_ok maxBytes s'.
Proof.
  intros Hok Hs. destruct Hs as [b l k m t Hl|b b' l1 l2 k m r r' bytes E|b s' l1 l2 k m r bytes e E|b l1 l2 k m r|b l1 l2 k m r e E|b l1 l2 k m r frame E|b l k1 k2 n].
  - destruct Hok as [H1 H2 H3 H4 H5]. cbn [fs_budget fs_readers fs_retained] in *. split; cbn [fs_budget fs_readers fs_retained]; try done.
    + rewrite held_insert, app_nil_r. change (held (m, new_reader).2) with 0. lia.
    + apply Forall_app. split; [done|]. constructor; [|constructor]. exists []. apply new_reader_progress.
  - destruct Hok as [H1 H2 H3 H4 H5]. cbn [fs_budget fs_readers fs_retained] in *. apply Forall_app in H4 as [P1 [(p & Px) P2]%Forall_cons].
    apply (read_chunk_run m p) in E as [(A1 & A2 & A3) Ho]; [|done]. cbn in A1, A2, A3. unfold others in A1. cbn in A1. rewrite held_insert in H2. cbn in H2.
    split; cbn [fs_budget fs_readers fs_retained]; [congruence|rewrite held_insert; cbn; lia|lia| |done].
    apply Forall_app. split; [done|]. constructor; [|done]. exists (p ++ bytes). by apply Ho.
  - pose proof (fo_progress _ _ Hok) as H4. cbn in H4. apply Forall_app in H4 as [P1 [(p & Px) P2]%Forall_cons].
    apply (read_chunk_run m p) in E as [Ha _]; [|done]. by eapply (frame_ok_leave _ _ _ _ _ (m, r)).
  - by eapply (frame_ok_leave _ _ _ _ _ (m, r)).
  - by eapply (frame_ok_leave _ _ _ _ _ (m, r)).
  - destruct Hok as [H1 H2 H3 H4 H5]. cbn [fs_budget fs_readers fs_retained] in *. rewrite held_insert in H2. cbn in H2.
    apply Forall_app in H4 as [P1 [(p & Px) P2]%Forall_cons]. apply progress_held in Px. cbn in Px.
    assert (rf_held frame = held r) as Eh.
    { unfold finish_read in E. cbn in E. unfold held. destruct (fr_decoded r), (fr_bodyRelease r), (fr_decodedRelease r), (fr_expectedBytes r); try done. by injection E as <-. }
    split; cbn [fs_budget fs_readers fs_retained]; [done|rewrite total_insert, app_nil_r; lia|done|by apply Forall_app|apply Forall_app; split; [done|]; constructor; [lia|constructor]].
  - destruct Hok as [H1 H2 H3 H4 H5]. cbn [fs_budget fs_readers fs_retained] in *. rewrite total_insert in H2.
    apply Forall_app in H5 as [K1 [Kn K2]%Forall_cons]. cbn beta in Kn. split; cbn [fs_budget fs_readers fs_retained release fb_maxBytes fb_bytesInUse]; [done|lia|lia|done|by apply Forall_app].
Qed.

(** C23. The byte budget bounds the memory of all frames and never leaks: however the
    chunks of any number of streams interleave, with errors, aborts and frames that
    are handed over, the bytes in use are exactly what the reads in progress and the
    frames not yet released hold; the bytes buffered by all readers together never
    exceed it; it never exceeds the budget; and when the last frame is gone nothing
    is in use. *)
Theorem frames_share_budget (maxBytes : Z) (b : P2PFrameByteBudget) (s : FrameSystem) :
  new_frame_budget maxBytes = Ok b → rtc frame_step (mkFrameSystem b [] []) s →
  let used := fb_bytesInUse (fs_budget s) in
  used = total (holds_of (fs_readers s)) + total (fs_retained s) ∧
  total (buffered (fs_readers s)) ≤ used ≤ maxBytes ∧
  (fs_readers s = [] → fs_retained s = [] → used = 0).
Proof.
  intros ([] & Hm%throw_if_Ok & <-%Ok_inj)%res_bind_Ok Hs.
  assert (frame_ok maxBytes s) as [H1 H2 H3 H4 H5].
  { assert (frame_ok maxBytes (mkFrameSystem (mkFrameBudget 0 maxBytes 0 0) [] [])) as H0.
    { apply orb_false_iff in Hm as [Hm _]. apply orb_false_iff in Hm as [_ Hm%Z.ltb_ge]. split; cbn; try done; try constructor. lia. }
    revert H0. induction Hs as [s|s1 s2 s3 Hstep _ IH]; intros H0; [done|]. apply IH. by eapply frame_step_ok. }
  split; [done|]. split.
  - split; [|done]. rewrite H2. assert (0 ≤ total (fs_retained s)) as Hk by (clear -H5; unfold total; induction H5; cbn in *; lia).
    assert (total (buffered (fs_readers s)) ≤ total (holds_of (fs_readers s))) as Hb; [|lia].
    clear -H4. induction H4 as [|x l (p & Px) _ IH]; [done|]. apply progress_held in Px. unfold total, buffered, holds_of in *. cbn [map foldr]. lia.
  - intros E1 E2. rewrite H2, E1, E2. done.
Qed.

(** ** A frame with an array *)

Module FrameExample.
Definition value : jsval units := JArr [JNum (JInt 1); JObj [(lit "a", JStr (lit "b"))]; JNull].
Definition budget : P2PFrameByteBudget := mkFrameBudget 0 1000 0 0.
Definition sent : list (list Z) := Eval vm_compute in (writeP2PFrame value 100 1000 [] (Ok ()) budget).2.1.
Definition written : P2PFrameByteBudget := Eval vm_compute in (writeP2PFrame value 100 1000 [] (Ok ()) budget).1.
(** The same bytes cut in the header and in the body. *)
Definition cut : list (list Z) := Eval vm_compute in
  [take 3 (concat sent); []; take 6 (drop 3 (concat sent)); drop 9 (concat sent)].
Definition read : P2PFrameByteBudget := Eval vm_compute in (readP2PFrame cut (Ok ()) 100 1000 budget).1.

Lemma wrote : writeP2PFrame value 100 1000 [] (Ok ()) budget = (written, (sent, Ok ())).
Proof. vm_compute. reflexivity. Qed.
Lemma was_read : readP2PFrame cut (Ok ()) 100 1000 budget = (read, Ok value).
Proof. vm_compute. reflexivity. Qed.
Lemma value_normal : normal value.
Proof. vm_compute. repeat split; repeat constructor; discriminate || (intros E; inversion E). Qed.
End FrameExample.

Lemma frame_read_sound_witness :
  json_depth FrameExample.value = 2 ∧ json_depth FrameExample.value ≤ MAX_P2P_JSON_NESTING_DEPTH ∧
  ∃ n, frame_of 100 (concat FrameExample.cut) n FrameExample.value.
Proof.
  split; [reflexivity|].
  destruct (proj2 (frame_read_sound FrameExample.cut (Ok ()) 100 1000 FrameExample.budget FrameExample.read (Ok FrameExample.value) FrameExample.was_read)
    FrameExample.value eq_refl) as (_ & Hf & Hd & _).
  split; [exact Hd|exact Hf].
Defined.

Lemma frame_roundtrip_witness :
  ∃ t b2' x, stringify FrameExample.value = Some t ∧ readP2PFrame FrameExample.cut (Ok ()) 100 1000 FrameExample.budget = (b2', x) ∧
    match assertBoundedJsonStructure (utf8 t) with Ok _ => x = Ok (erase FrameExample.value) | Throw _ => ∃ e, x = Throw e end.
Proof.
  apply (proj2 (frame_roundtrip FrameExample.value 100 1000 100 1000 [] (Ok ()) FrameExample.budget FrameExample.written FrameExample.budget FrameExample.sent
    FrameExample.cut (Ok ()) FrameExample.wrote)).
  - reflexivity.
  - exact FrameExample.value_normal.
  - reflexivity.
  - lia.
  - cbn. lia.
  - cbn. lia.
  - reflexivity.
  - repeat constructor; vm_compute; discriminate.
Defined.

Lemma frames_share_budget_witness :
  ∃ s, fs_readers s ≠ [] ∧ total (buffered (fs_readers s)) ≤ fb_bytesInUse (fs_budget s) ≤ 1000.
Proof.
  exists (mkFrameSystem (mkFrameBudget 20 1000 20 0) [(100, mkReader [0; 0; 0; 20] (Some 20) [91] None (Some 20) None)] []). split; [discriminate|].
  apply (frames_share_budget 1000 FrameExample.budget); [reflexivity|].
  apply (rtc_l _ _ (mkFrameSystem FrameExample.budget [(100, new_reader)] [])).
  - apply (FrameOpen _ [] [] 100 1000). reflexivity.
  - apply rtc_once. apply (FrameChunk _ _ [] [] [] 100 new_reader _ [0; 0; 0; 20; 91]). vm_compute. reflexivity.
Defined.
