(* ===== verification/RateLimit.v ===== *)
(** Request rate limits: per peer (l1/src/p2p-rate.ts) and per RPC client
    (l1/src/rpc-rate-limit.ts).  Both count requests in fixed windows, keep a bounded
    number of identities and let the rest share one overflow window.

    Times are milliseconds; [Number.POSITIVE_INFINITY] is [None]. *)

From S2P Require Import Prelude JsMap.

(** A window: its first moment and the requests since. *)
Record WindowEntry := mkWindow { we_startedAtMs : Z; we_count : Z }.

Definition expired (windowMs nowMs : Z) (e : WindowEntry) : bool := windowMs <=? nowMs - we_startedAtMs e.
Definition one_more (e : WindowEntry) : WindowEntry := mkWindow (we_startedAtMs e) (we_count e + 1).

(** ** P2PPeerRateLimiter *)

Record P2PPeerRateLimiter := mkRateLimiter {
  rl_peers : js_map WindowEntry;
  rl_nextSweepAtMs : option Z;
  rl_overflowStartedAtMs : option Z;
  rl_overflowCount : Z;
  rl_requestsPerWindow : Z;
  rl_windowMs : Z;
  rl_maxTrackedPeers : Z;
  rl_overflowRequestsPerWindow : Z }.

Definition out_of (low high value : Z) : bool := negb (isSafeInteger value) || (value <? low) || (high <? value).

Definition new_rate_limiter (requestsPerWindow windowMs maxTrackedPeers overflowRequestsPerWindow : Z) : res P2PPeerRateLimiter :=
  throw_if (out_of 1 100000 requestsPerWindow || out_of 1000 (60 * 60 * 1000) windowMs || out_of 1 100000 maxTrackedPeers ||
            out_of 1 100000 overflowRequestsPerWindow) "Invalid P2P peer rate limits";;
  Ok (mkRateLimiter [] None None 0 requestsPerWindow windowMs maxTrackedPeers overflowRequestsPerWindow).

Definition set_peers (peers : js_map WindowEntry) (l : P2PPeerRateLimiter) : P2PPeerRateLimiter :=
  mkRateLimiter peers (rl_nextSweepAtMs l) (rl_overflowStartedAtMs l) (rl_overflowCount l) (rl_requestsPerWindow l) (rl_windowMs l)
    (rl_maxTrackedPeers l) (rl_overflowRequestsPerWindow l).
Definition set_nextSweep (next : option Z) (l : P2PPeerRateLimiter) : P2PPeerRateLimiter :=
  mkRateLimiter (rl_peers l) next (rl_overflowStartedAtMs l) (rl_overflowCount l) (rl_requestsPerWindow l) (rl_windowMs l)
    (rl_maxTrackedPeers l) (rl_overflowRequestsPerWindow l).
Definition set_overflow (startedAtMs : option Z) (count : Z) (l : P2PPeerRateLimiter) : P2PPeerRateLimiter :=
  mkRateLimiter (rl_peers l) (rl_nextSweepAtMs l) startedAtMs count (rl_requestsPerWindow l) (rl_windowMs l)
    (rl_maxTrackedPeers l) (rl_overflowRequestsPerWindow l).

(** [Math.min] with infinity *)
Definition min_with (t : Z) (other : option Z) : option Z := Some (match other with Some u => Z.min u t | None => t end).

Definition sweep (nowMs : Z) (l : P2PPeerRateLimiter) : P2PPeerRateLimiter :=
  let kept := filter (λ e, expired (rl_windowMs l) nowMs e.2 = false) (rl_peers l) in
  set_nextSweep (fold_left (λ next e, min_with (we_startedAtMs e.2 + rl_windowMs l) next) kept None) (set_peers kept l).

Definition consumeOverflow (nowMs : Z) : meth P2PPeerRateLimiter bool :=
  l ← m_get;
  (if from_option (λ t, rl_windowMs l <=? nowMs - t) true (rl_overflowStartedAtMs l) then m_modify (set_overflow (Some nowMs) 0) else mret ());;
  m_modify (λ l, set_overflow (rl_overflowStartedAtMs l) (rl_overflowCount l + 1) l);;
  l ← m_get;
  mret (rl_overflowCount l <=? rl_overflowRequestsPerWindow l).

(** [entry.count += 1; return entry.count <= this.requestsPerWindow] *)
Definition count_request (peerId : string) (entry : WindowEntry) : meth P2PPeerRateLimiter bool :=
  m_modify (λ l, set_peers (jm_set peerId (one_more entry) (rl_peers l)) l);;
  l ← m_get;
  mret (we_count entry + 1 <=? rl_requestsPerWindow l).

Definition consume (peerId : string) (nowMs : Z) : meth P2PPeerRateLimiter bool :=
  let length := Z.of_nat (String.length peerId) in
  m_throw_if ((length <? 1) || (256 <? length) || negb (isSafeInteger nowMs) || (nowMs <? 0)) "Invalid P2P peer rate-limit identity";;
  l ← m_get;
  let entry := jm_get peerId (rl_peers l) in
  let stale := from_option (expired (rl_windowMs l) nowMs) false entry in
  (if stale then m_modify (λ l, set_peers (jm_delete peerId (rl_peers l)) l) else mret ());;
  match (if stale then None else entry) with
  | Some entry => count_request peerId entry
  | None =>
    m_modify (λ l, if (rl_maxTrackedPeers l <=? zlen (rl_peers l)) && from_option (λ next, next <=? nowMs) false (rl_nextSweepAtMs l)
                   then sweep nowMs l else l);;
    l ← m_get;
    if rl_maxTrackedPeers l <=? zlen (rl_peers l) then consumeOverflow nowMs
    else
      let entry := mkWindow nowMs 0 in
      m_modify (λ l, set_nextSweep (min_with (nowMs + rl_windowMs l) (rl_nextSweepAtMs l)) (set_peers (jm_set peerId entry (rl_peers l)) l));;
      count_request peerId entry
  end.

(** ** FixedWindowLimiter *)

Definition DEFAULT_RPC_MAX_TRACKED_IDENTITIES : Z := 4096.

Record RpcRateLimitResult := mkRateResult { rr_allowed : bool; rr_remaining : Z; rr_retryAfterMs : Z }.

Record FixedWindowLimiter := mkFixedWindow {
  fw_clients : js_map WindowEntry;
  fw_overflow : option WindowEntry;
  fw_lastSweepMs : Z;
  fw_limit : Z;
  fw_windowMs : Z;
  fw_maxTrackedIdentities : Z }.

Definition new_fixed_window (limit windowMs maxTrackedIdentities : Z) : res FixedWindowLimiter :=
  throw_if (negb (isSafeInteger limit) || (limit <? 1)) "Invalid RPC rate-limit request cap";;
  throw_if (negb (isSafeInteger windowMs) || (windowMs <? 1)) "Invalid RPC rate-limit window";;
  throw_if (negb (isSafeInteger maxTrackedIdentities) || (maxTrackedIdentities <? 1)) "Invalid RPC rate-limit identity cap";;
  Ok (mkFixedWindow [] None 0 limit windowMs maxTrackedIdentities).

Definition set_clients (clients : js_map WindowEntry) (l : FixedWindowLimiter) : FixedWindowLimiter :=
  mkFixedWindow clients (fw_overflow l) (fw_lastSweepMs l) (fw_limit l) (fw_windowMs l) (fw_maxTrackedIdentities l).
Definition set_shared (overflow : option WindowEntry) (l : FixedWindowLimiter) : FixedWindowLimiter :=
  mkFixedWindow (fw_clients l) overflow (fw_lastSweepMs l) (fw_limit l) (fw_windowMs l) (fw_maxTrackedIdentities l).

(** The sweep in front: at most once per window. *)
Definition sweep_clients (nowMs : Z) (l : FixedWindowLimiter) : FixedWindowLimiter :=
  if fw_windowMs l <=? nowMs - fw_lastSweepMs l then
    mkFixedWindow (filter (λ e, expired (fw_windowMs l) nowMs e.2 = false) (fw_clients l))
      (match fw_overflow l with Some e => if expired (fw_windowMs l) nowMs e then None else Some e | None => None end)
      nowMs (fw_limit l) (fw_windowMs l) (fw_maxTrackedIdentities l)
  else l.

(** [entry.count += 1] and the answer; [put] writes the entry back. *)
Definition answer (put : WindowEntry → FixedWindowLimiter → FixedWindowLimiter) (entry : WindowEntry) (nowMs : Z) : meth FixedWindowLimiter RpcRateLimitResult :=
  m_modify (put (one_more entry));;
  l ← m_get;
  let count := we_count entry + 1 in
  mret (mkRateResult (count <=? fw_limit l) (Z.max 0 (fw_limit l - count)) (Z.max 0 (we_startedAtMs entry + fw_windowMs l - nowMs))).
Definition put_client (client : string) (e : WindowEntry) (l : FixedWindowLimiter) : FixedWindowLimiter := set_clients (jm_set client e (fw_clients l)) l.
Definition put_shared (e : WindowEntry) (l : FixedWindowLimiter) : FixedWindowLimiter := set_shared (Some e) l.

Definition consume_rpc (client : string) (nowMs : Z) : meth FixedWindowLimiter RpcRateLimitResult :=
  m_throw_if (negb (isSafeInteger nowMs) || (nowMs <? 0)) "Invalid RPC rate-limit clock";;
  m_modify (sweep_clients nowMs);;
  l ← m_get;
  let entry := jm_get client (fw_clients l) in
  let stale := from_option (expired (fw_windowMs l) nowMs) false entry in
  (if stale then m_modify (λ l, set_clients (jm_delete client (fw_clients l)) l) else mret ());;
  match (if stale then None else entry) with
  | Some entry => answer (put_client client) entry nowMs
  | None =>
    l ← m_get;
    if zlen (fw_clients l) <? fw_maxTrackedIdentities l then
      m_modify (put_client client (mkWindow nowMs 0));;
      answer (put_client client) (mkWindow nowMs 0) nowMs
    else
      let entry := match fw_overflow l with
                   | Some e => if expired (fw_windowMs l) nowMs e then mkWindow nowMs 0 else e
                   | None => mkWindow nowMs 0
                   end in
      m_modify (put_shared entry);;
      answer put_shared entry nowMs
  end.

(** ** One window after the other

    A lane is what counts the requests of one identity: a window or none.  [ts] are
    the times at which the lane let a request through. *)

Definition between (a b : Z) (ts : list Z) : Z := zlen (filter (λ t, a ≤ t < b) ts).
Definition since (a : Z) (ts : list Z) : Z := zlen (filter (λ t, a ≤ t) ts).

Lemma filter_le {A} (P Q : A → Prop) `{∀ x, Decision (P x)} `{∀ x, Decision (Q x)} (l : list A) :
  (∀ x, x ∈ l → P x → Q x) → zlen (filter P l) ≤ zlen (filter Q l).
Proof.
  unfold zlen. induction l as [|x l IH]; intros Hpq; [done|]. rewrite !filter_cons.
  assert (Z.of_nat (length (filter P l)) ≤ Z.of_nat (length (filter Q l))) as Hl by (apply IH; intros y Hy; apply Hpq; by right).
  pose proof (Hpq x ltac:(by left)). repeat case_decide; try tauto; cbn [length]; lia.
Qed.
Lemma filter_sum {A} (P Q R : A → Prop) `{∀ x, Decision (P x)} `{∀ x, Decision (Q x)} `{∀ x, Decision (R x)} (l : list A) :
  (∀ x, x ∈ l → P x → Q x ∨ R x) → zlen (filter P l) ≤ zlen (filter Q l) + zlen (filter R l).
Proof.
  unfold zlen. induction l as [|x l IH]; intros Hpq; [done|]. rewrite !filter_cons.
  assert (Z.of_nat (length (filter P l)) ≤ Z.of_nat (length (filter Q l)) + Z.of_nat (length (filter R l))) as Hl by (apply IH; intros y Hy; apply Hpq; by right).
  pose proof (Hpq x ltac:(by left)). repeat case_decide; try tauto; cbn [length]; lia.
Qed.
Lemma zlen_nonneg {A} (l : list A) : 0 ≤ zlen l.
Proof. unfold zlen. lia. Qed.

Record lane_inv (W L now : Z) (ts : list Z) (lane : option WindowEntry) : Prop := {
  li_past : ∀ t, t ∈ ts → t ≤ now;
  li_any : ∀ a, between a (a + W) ts ≤ 2 * L;
  li_lane : match lane with
            | Some e => we_startedAtMs e ≤ now ∧ 0 ≤ we_count e ∧ (∀ t, t ∈ ts → t < we_startedAtMs e + W) ∧
                since (we_startedAtMs e) ts ≤ Z.min (we_count e) L ∧
                ∀ a, we_startedAtMs e - W < a → between a (we_startedAtMs e) ts ≤ L
            | None => (∀ t, t ∈ ts → t < now) ∧ ∀ a, now - W < a → since a ts ≤ L
            end }.

Lemma lane_start (W L now : Z) : 0 ≤ L → lane_inv W L now [] None.
Proof. intros HL. split; [|intros a; change (0 ≤ 2 * L); lia|split]; try (intros t Ht; by apply not_elem_of_nil in Ht). intros a _. by change (0 ≤ L). Qed.

Lemma lane_later (W L now now' : Z) (ts : list Z) (lane : option WindowEntry) : now ≤ now' → lane_inv W L now ts lane → lane_inv W L now' ts lane.
Proof.
  intros Hle [Hp Ha Hl]. split; [|done|].
  - intros t Ht. specialize (Hp t Ht). lia.
  - destruct lane as [e|]; [destruct Hl as (? & ? & ? & ? & ?); split_and!; try done; lia|]. destruct Hl as [Hl1 Hl2].
    split; [intros t Ht; specialize (Hl1 t Ht); lia|]. intros a Haa. apply Hl2. lia.
Qed.

Lemma lane_expire (W L now : Z) (ts : list Z) (e : WindowEntry) : expired W now e = true → lane_inv W L now ts (Some e) → lane_inv W L now ts None.
Proof.
  intros He%Z.leb_le [Hp Ha (Hs & Hc & Ht & Hsince & _)]. split; [done|done|]. split; [intros t Hin; specialize (Ht t Hin); lia|].
  intros a Haa. etrans; [|etrans; [exact Hsince|apply Z.le_min_r]]. apply filter_le. intros x _. lia.
Qed.

Lemma lane_open (W L now : Z) (ts : list Z) : 0 < W → 0 ≤ L → lane_inv W L now ts None → lane_inv W L now ts (Some (mkWindow now 0)).
Proof.
  intros HW HL [Hp Ha [Ht Hs]]. split; [done|done|]. cbn [we_startedAtMs we_count]. split_and!; [lia|lia|intros t Hin; specialize (Hp t Hin); lia| |].
  - assert (filter (λ t, now ≤ t) ts = []) as E.
    { apply elem_of_nil_inv. intros t (Hge & Hin)%list_elem_of_filter. specialize (Ht t Hin). lia. }
    unfold since. rewrite E. change (0 ≤ Z.min 0 L). lia.
  - intros a Haa. etrans; [|exact (Hs a Haa)]. apply filter_le. intros x _. lia.
Qed.

(** A request in the window: let through while the count is within the limit. *)
Lemma lane_count (W L now : Z) (ts : list Z) (e : WindowEntry) :
  expired W now e = false → lane_inv W L now ts (Some e) →
  lane_inv W L now (if we_count e + 1 <=? L then now :: ts else ts) (Some (one_more e)).
Proof.
  intros He%Z.leb_gt [Hp Ha (Hs & Hc & Ht & Hsince & Hbefore)]. set (s := we_startedAtMs e) in *. destruct (Z.leb_spec (we_count e + 1) L) as [Hl|Hl].
  2:{ split; [done|done|]. cbn [one_more we_startedAtMs we_count]. fold s. split_and!; try done; lia. }
  assert (since s (now :: ts) = 1 + since s ts) as Es.
  { unfold since, zlen. rewrite filter_cons, decide_True by lia. cbn [length]. lia. }
  assert (∀ t, t ∈ now :: ts → t ≤ now) as Hp' by (intros t [-> | Hin]%elem_of_cons; [lia|by apply Hp]).
  split; [done| |].
  - intros a. destruct (decide (a ≤ now < a + W)) as [Hin|Hout].
    + etrans; [apply (filter_sum _ (λ t, a ≤ t < s) (λ t, s ≤ t)); intros x _ ?; lia|]. fold (between a s (now :: ts)) (since s (now :: ts)). rewrite Es.
      assert (between a s (now :: ts) = between a s ts) as ->; [unfold between; rewrite filter_cons, decide_False by lia; done|].
      pose proof (Hbefore a ltac:(lia)). lia.
    + assert (between a (a + W) (now :: ts) = between a (a + W) ts) as ->; [unfold between; rewrite filter_cons, decide_False by lia; done|done].
  - cbn [one_more we_startedAtMs we_count]. fold s. split_and!; [done|lia| | |].
    + intros t [-> | Hin]%elem_of_cons; [lia|by apply Ht].
    + rewrite Es. lia.
    + intros a Haa. assert (between a s (now :: ts) = between a s ts) as ->; [unfold between; rewrite filter_cons, decide_False by lia; done|]. by apply Hbefore.
Qed.

(** A lane that has no window that still runs counts in a new one. *)
Lemma lane_renew (W L now : Z) (ts : list Z) : 0 < W → 1 ≤ L → lane_inv W L now ts None → lane_inv W L now (now :: ts) (Some (mkWindow now 1)).
Proof.
  intros HW HL Hi. apply lane_open in Hi; [|done|lia]. apply lane_count in Hi; [|unfold expired; cbn; apply Z.leb_gt; lia].
  cbn [we_count] in Hi. by rewrite (proj2 (Z.leb_le (0 + 1) L)) in Hi by lia.
Qed.

(** ** What a limiter promises *)

(** A window may be dropped once it has expired. *)
Definition aged (W now : Z) (old new : option WindowEntry) : Prop := new = old ∨ (new = None ∧ from_option (expired W now) false old = true).
(** A request is charged to the window that runs, or to a new one. *)
Definition charged (W limit now : Z) (old new : option WindowEntry) (ok : bool) : Prop :=
  ∃ e, new = Some (one_more e) ∧ ok = (we_count e + 1 <=? limit) ∧
    ((old = Some e ∧ expired W now e = false) ∨ (aged W now old None ∧ e = mkWindow now 0)).

Class WindowLimiter (S : Type) := {
  wl_consume : string → Z → meth S bool;
  wl_table : S → js_map WindowEntry;
  wl_shared : S → option WindowEntry;
  wl_window : S → Z;
  wl_limit : S → Z;
  wl_sharedLimit : S → Z;
  wl_capacity : S → Z }.

(** The parameters stay, the table is a map within its capacity. *)
Record same_limits {S} `{WindowLimiter S} (s s' : S) : Prop := {
  sl_window : wl_window s' = wl_window s;
  sl_limit : wl_limit s' = wl_limit s;
  sl_sharedLimit : wl_sharedLimit s' = wl_sharedLimit s;
  sl_capacity : wl_capacity s' = wl_capacity s }.
Record table_ok {S} `{WindowLimiter S} (s : S) : Prop := {
  tb_keys : NoDup (jm_keys (wl_table s));
  tb_size : zlen (wl_table s) ≤ wl_capacity s }.

(** A request is charged to the identity's own window or, when the table is full,
    to the shared one; every other window stays unless it has expired. *)
Definition charges {S} `{WindowLimiter S} (who : string) (now : Z) (s s' : S) (ok : bool) : Prop :=
  (∀ q, q ≠ who → aged (wl_window s) now (jm_get q (wl_table s)) (jm_get q (wl_table s'))) ∧
  ((charged (wl_window s) (wl_limit s) now (jm_get who (wl_table s)) (jm_get who (wl_table s')) ok ∧ aged (wl_window s) now (wl_shared s) (wl_shared s')) ∨
   (aged (wl_window s) now (jm_get who (wl_table s)) None ∧ jm_get who (wl_table s') = None ∧
    charged (wl_window s) (wl_sharedLimit s) now (wl_shared s) (wl_shared s') ok)).

Class WindowLimiterLaws (S : Type) `{WindowLimiter S} (valid : string → Z → Prop) := {
  wl_charges : ∀ s who now, valid who now → table_ok s →
    ∃ s' ok, wl_consume who now s = (s', Ok ok) ∧ same_limits s s' ∧ table_ok s' ∧ charges who now s s' ok }.

(** A served request: whether it was charged to a window of its own, and whether
    it was let through. *)
Record Served := mkServed { gr_who : string; gr_time : Z; gr_own : bool; gr_allowed : bool }.

Fixpoint serve {S} `{WindowLimiter S} (calls : list (string * Z)) : meth S (list Served) :=
  match calls with
  | [] => mret []
  | (who, now) :: rest =>
    ok ← wl_consume who now;
    s ← m_get;
    more ← serve rest;
    mret (mkServed who now (bool_decide (is_Some (jm_get who (wl_table s)))) ok :: more)
  end.

(** The times at which a lane let requests through: [Some who] is the identity's
    own window, [None] the shared one. *)
Definition on_lane (lane : option string) (g : Served) : Prop := match lane with Some who => gr_own g = true ∧ gr_who g = who | None => gr_own g = false end.
#[global] Instance on_lane_dec (lane : option string) (g : Served) : Decision (on_lane lane g).
Proof. unfold on_lane. destruct lane; apply _. Defined.
Definition granted (lane : option string) (gs : list Served) : list Z := gr_time <$> filter (λ g, on_lane lane g ∧ gr_allowed g = true) gs.
Definition requested (lane : option string) (gs : list Served) : list Z := gr_time <$> filter (on_lane lane) gs.

(** The count of a window is at most the requests that were charged to it. *)
Definition lane_calls (now : Z) (cs : list Z) (lane : option WindowEntry) : Prop :=
  (∀ t, t ∈ cs → t ≤ now) ∧ match lane with Some e => we_startedAtMs e ≤ now ∧ we_count e ≤ since (we_startedAtMs e) cs | None => True end.

Lemma lane_aged (W L now : Z) (ts : list Z) (old new : option WindowEntry) : aged W now old new → lane_inv W L now ts old → lane_inv W L now ts new.
Proof. intros [-> | [-> He]]; [done|]. destruct old as [e|]; [|done]. by apply lane_expire. Qed.
Lemma calls_aged (W now : Z) (cs : list Z) (old new : option WindowEntry) : aged W now old new → lane_calls now cs old → lane_calls now cs new.
Proof. by intros [-> | [-> _]] [? ?]; split. Qed.
Lemma calls_later (now now' : Z) (cs : list Z) (lane : option WindowEntry) : now ≤ now' → lane_calls now cs lane → lane_calls now' cs lane.
Proof. intros Hle [Hp Hl]. split; [intros t Ht; specialize (Hp t Ht); lia|]. destruct lane; [lia|done]. Qed.

Lemma lane_charged (W L now : Z) (ts : list Z) (old new : option WindowEntry) (ok : bool) :
  0 < W → 1 ≤ L → charged W L now old new ok → lane_inv W L now ts old → lane_inv W L now (if ok then now :: ts else ts) new.
Proof.
  intros HW HL (e & -> & -> & [[-> He]|[Ha ->]]) Hi; [by apply lane_count|]. apply (lane_aged _ _ _ _ _ _ Ha) in Hi.
  apply lane_open in Hi; [|done|lia]. apply lane_count in Hi; [done|]. unfold expired. cbn. apply Z.leb_gt. lia.
Qed.
Lemma calls_charged (W L now : Z) (cs : list Z) (old new : option WindowEntry) (ok : bool) :
  charged W L now old new ok → lane_calls now cs old →
  lane_calls now (now :: cs) new ∧ (1 ≤ L → zlen (filter (λ t, now - W < t) cs) < L → ok = true).
Proof.
  intros (e & -> & -> & Hcase) [Hp Hl]. unfold lane_calls, since. cbn [one_more we_startedAtMs we_count].
  assert (∀ t, t ∈ now :: cs → t ≤ now) as Hp' by (intros t [-> | Hin]%elem_of_cons; [lia|by apply Hp]).
  destruct Hcase as [[-> He]|[Ha ->]].
  - destruct Hl as [Hs Hc]. apply Z.leb_gt in He. unfold since in Hc. split.
    + split; [done|]. split; [done|]. rewrite filter_cons, decide_True by done. unfold zlen in *. cbn [length]. lia.
    + intros _ Hfew. apply Z.leb_le. enough (zlen (filter (λ t, we_startedAtMs e ≤ t) cs) ≤ zlen (filter (λ t, now - W < t) cs)) by lia.
      apply filter_le. intros x _. lia.
  - cbn [we_startedAtMs we_count]. split; [|intros HL _; apply Z.leb_le; lia]. split; [done|]. split; [done|].
    rewrite filter_cons, decide_True by done. unfold zlen. cbn [length]. lia.
Qed.

Section served.
Context {S : Type} `{WindowLimiter S} (valid : string → Z → Prop) `{!WindowLimiterLaws S valid}.
Implicit Types (s : S) (log : list Served).

(** [log] is what was served so far, the latest first. *)
Record run_inv s (now : Z) log : Prop := {
  ri_table : table_ok s;
  ri_own : ∀ who, lane_inv (wl_window s) (wl_limit s) now (granted (Some who) log) (jm_get who (wl_table s)) ∧
                  lane_calls now (requested (Some who) log) (jm_get who (wl_table s));
  ri_shared : lane_inv (wl_window s) (wl_sharedLimit s) now (granted None log) (wl_shared s) }.

(** A request with a window of its own is let through while fewer than the limit
    were made in the time of one window before it. *)
Fixpoint fair (W L : Z) log : Prop :=
  match log with
  | [] => True
  | g :: before =>
    (gr_own g = true → zlen (filter (λ t, gr_time g - W < t) (requested (Some (gr_who g)) before)) < L → gr_allowed g = true) ∧ fair W L before
  end.

Lemma granted_cons (lane : option string) (g : Served) log :
  granted lane (g :: log) = if decide (on_lane lane g ∧ gr_allowed g = true) then gr_time g :: granted lane log else granted lane log.
Proof. unfold granted. rewrite filter_cons. by case_decide. Qed.
Lemma requested_cons (lane : option string) (g : Served) log :
  requested lane (g :: log) = if decide (on_lane lane g) then gr_time g :: requested lane log else requested lane log.
Proof. unfold requested. rewrite filter_cons. by case_decide. Qed.

Lemma serve_step s (now : Z) log (who : string) (now' : Z) :
  0 < wl_window s → 1 ≤ wl_limit s → 1 ≤ wl_sharedLimit s → run_inv s now log → now ≤ now' → valid who now' →
  ∃ s' ok, wl_consume who now' s = (s', Ok ok) ∧ same_limits s s' ∧
    let g := mkServed who now' (bool_decide (is_Some (jm_get who (wl_table s')))) ok in
    run_inv s' now' (g :: log) ∧
    (gr_own g = true → zlen (filter (λ t, now' - wl_window s < t) (requested (Some who) log)) < wl_limit s → ok = true).
Proof.
  intros HW HL HO [Htab Hown Hsh] Hle Hv. destruct (wl_charges s who now' Hv Htab) as (s' & ok & Hc & Hsame & Htab' & Hothers & Hcase).
  exists s', ok. split; [done|]. split; [done|]. destruct Hsame as [EW EL EO _].
  assert (∀ q, lane_inv (wl_window s) (wl_limit s) now' (granted (Some q) log) (jm_get q (wl_table s)) ∧
    lane_calls now' (requested (Some q) log) (jm_get q (wl_table s))) as Hown' by (intros q; destruct (Hown q); split; [by eapply lane_later|by eapply calls_later]).
  apply (lane_later _ _ _ _ _ _ Hle) in Hsh. destruct Hcase as [[Hch Hag]|(Hag & Hnone & Hch)].
  - assert (is_Some (jm_get who (wl_table s'))) as Hsome by (destruct Hch as (e & -> & _); by eexists). rewrite (bool_decide_true _ Hsome). cbv zeta.
    destruct (Hown' who) as [Hi Hcalls]. destruct (calls_charged _ _ _ _ _ _ _ Hch Hcalls) as [Hcalls' Hfair]. split; [|intros _; by apply Hfair].
    split; [done| |].
    + intros q. rewrite EW, EL, granted_cons, requested_cons. cbn [on_lane gr_own gr_who gr_allowed gr_time]. destruct (decide (who = q)) as [<-|Hne].
      * rewrite (decide_True (P := true = true ∧ who = who)) by done. split; [|done].
        apply (lane_charged _ _ _ _ _ _ _ HW HL Hch) in Hi. destruct ok; [by rewrite decide_True by done|by rewrite decide_False by naive_solver].
      * rewrite !decide_False by naive_solver. destruct (Hown' q). split; [eapply lane_aged|eapply calls_aged]; try done; apply Hothers; congruence.
    + rewrite EW, EO, granted_cons. rewrite decide_False by (cbn; naive_solver). by eapply lane_aged.
  - rewrite Hnone. rewrite (bool_decide_false (is_Some None)) by (by intros []). cbv zeta. split; [|by intros ?].
    split; [done| |].
    + intros q. rewrite EW, EL, granted_cons, requested_cons. cbn [on_lane gr_own gr_who gr_allowed gr_time]. rewrite !decide_False by naive_solver.
      destruct (Hown' q). destruct (decide (who = q)) as [<-|Hne]; [rewrite Hnone; split; [eapply lane_aged|eapply calls_aged]; done|].
      split; [eapply lane_aged|eapply calls_aged]; try done; apply Hothers; congruence.
    + rewrite EW, EO, granted_cons. cbn [on_lane gr_own gr_allowed gr_time]. apply (lane_charged _ _ _ _ _ _ _ HW HO Hch) in Hsh.
      destruct ok; [by rewrite decide_True by done|by rewrite decide_False by naive_solver].
Qed.

Lemma serve_spec (calls : list (string * Z)) s (now : Z) log :
  0 < wl_window s → 1 ≤ wl_limit s → 1 ≤ wl_sharedLimit s → run_inv s now log → fair (wl_window s) (wl_limit s) log →
  Forall (λ c, valid c.1 c.2) calls → StronglySorted Z.le (now :: calls.*2) →
  ∃ s' gs now', serve calls s = (s', Ok gs) ∧ same_limits s s' ∧ run_inv s' now' (reverse gs ++ log) ∧ fair (wl_window s) (wl_limit s) (reverse gs ++ log) ∧
    (λ g, (gr_who g, gr_time g)) <$> gs = calls.
Proof.
  revert s now log. induction calls as [|[who now1] calls IH]; intros s now log HW HL HO Hinv Hfair Hv Hs; cbn [serve].
  { exists s, [], now. by split_and!. }
  apply Forall_cons in Hv as [Hv Hvs]. cbn [fst snd] in Hv. rewrite fmap_cons in Hs. apply StronglySorted_inv in Hs as [Hs Hall]. apply Forall_cons in Hall as [Hle Hall].
  destruct (serve_step s now log who now1 HW HL HO Hinv Hle Hv) as (s1 & ok & Hc & Hsame & Hinv1 & Hok). cbv zeta in Hinv1, Hok.
  set (g := mkServed who now1 _ ok) in *. rewrite meth_bind_run, Hc, meth_bind_run. cbn [m_get].
  pose proof Hsame as [EW EL EO EC]. destruct (IH s1 now1 (g :: log)) as (s' & gs & now' & Hserve & Hsame' & Hinv' & Hfair' & Hcalls); rewrite ?EW, ?EL, ?EO; try done.
  exists s', (g :: gs), now'. rewrite meth_bind_run, Hserve. split_and!.
  - done.
  - destruct Hsame' as [? ? ? ?]. split; congruence.
  - rewrite reverse_cons, <-app_assoc. exact Hinv'.
  - rewrite reverse_cons, <-app_assoc. rewrite EW, EL in Hfair'. exact Hfair'.
  - rewrite fmap_cons, Hcalls. done.
Qed.
End served.

(** ** The table *)

Lemma aged_trans (W now : Z) (a b c : option WindowEntry) : aged W now a b → aged W now b c → aged W now a c.
Proof. intros [-> | [-> Ha]] [-> | [-> Hb]]; [by left|by right|by right|done]. Qed.

Lemma jm_get_kept (f : WindowEntry → bool) (m : js_map WindowEntry) (q : string) :
  NoDup (jm_keys m) → jm_get q (filter (λ e, f e.2 = false) m) = if from_option f false (jm_get q m) then None else jm_get q m.
Proof.
  unfold js_map in m. induction m as [|[x e] m IH]; intros Hnd; [done|]. apply NoDup_cons in Hnd as [Hx Hnd].
  rewrite (filter_cons (λ e : string * WindowEntry, f e.2 = false)). cbn [snd jm_get].
  specialize (IH Hnd). destruct (String.eqb_spec x q) as [->|Hne].
  - assert (jm_get q m = None) as Hn by (by apply jm_get_None). rewrite Hn in IH. cbn [from_option] in *. case_decide as Hf.
    + cbn [jm_get]. rewrite String.eqb_refl, Hf. done.
    + apply not_false_is_true in Hf. rewrite Hf. exact IH.
  - case_decide; [cbn [jm_get]; by rewrite (proj2 (String.eqb_neq _ _)) by done|done].
Qed.
Lemma kept_keys (f : WindowEntry → bool) (m : js_map WindowEntry) : NoDup (jm_keys m) → NoDup (jm_keys (filter (λ e, f e.2 = false) m)).
Proof.
  unfold js_map in m. induction m as [|[x e] m IH]; intros Hnd; [done|]. apply NoDup_cons in Hnd as [Hx Hnd].
  rewrite (filter_cons (λ e : string * WindowEntry, f e.2 = false)). case_decide; [|by apply IH].
  apply NoDup_cons. split; [|by apply IH]. intros Hin. apply Hx. unfold jm_keys in *. apply list_elem_of_fmap in Hin as (y & -> & Hy).
  apply list_elem_of_filter in Hy as [_ Hy]. by apply (list_elem_of_fmap_2 fst).
Qed.
Lemma kept_size (f : WindowEntry → bool) (m : js_map WindowEntry) : zlen (filter (λ e, f e.2 = false) m) ≤ zlen m.
Proof. unfold zlen. apply inj_le. apply length_filter. Qed.
Lemma kept_aged (W now : Z) (m : js_map WindowEntry) (q : string) :
  NoDup (jm_keys m) → aged W now (jm_get q m) (jm_get q (filter (λ e, expired W now e.2 = false) m)).
Proof. intros Hnd. rewrite (jm_get_kept (expired W now)) by done. destruct (from_option _ _ _) eqn:E; [by right|by left]. Qed.

Lemma jm_set_size {V} (m : js_map V) (k : string) (v : V) :
  zlen (jm_set k v m) = if bool_decide (is_Some (jm_get k m)) then zlen m else zlen m + 1.
Proof.
  assert (∀ l : js_map V, zlen l = zlen (jm_keys l)) as Hk by (intros l; unfold zlen, jm_keys; by rewrite length_fmap).
  rewrite !Hk, jm_set_keys. case_bool_decide; [done|]. unfold zlen. rewrite length_app. cbn [length]. lia.
Qed.
Lemma jm_set_NoDup {V} (m : js_map V) (k : string) (v : V) : NoDup (jm_keys m) → NoDup (jm_keys (jm_set k v m)).
Proof.
  intros Hnd. rewrite jm_set_keys. case_bool_decide as Hp; [done|]. apply NoDup_app. split_and!; [done| |apply NoDup_singleton].
  intros x Hx ->%list_elem_of_singleton. apply Hp. by apply jm_get_Some_keys.
Qed.
Lemma jm_delete_size {V} (m : js_map V) (k : string) : zlen (jm_delete k m) ≤ zlen m.
Proof. unfold zlen. apply inj_le. induction m as [|[x v] m IH]; [done|]. cbn [jm_delete]. destruct (String.eqb x k); cbn [length]; lia. Qed.

(** What is left of a table when the expired window of [who] is dropped. *)
Definition dropped (stale : bool) (who : string) (m : js_map WindowEntry) : js_map WindowEntry := if stale then jm_delete who m else m.

Lemma dropped_aged (W now : Z) (who q : string) (m : js_map WindowEntry) :
  aged W now (jm_get q m) (jm_get q (dropped (from_option (expired W now) false (jm_get who m)) who m)).
Proof.
  destruct (from_option _ _ _) eqn:E; [|by left]. cbn [dropped]. rewrite jm_get_delete. destruct (String.eqb_spec who q) as [<-|]; [by right|by left].
Qed.
Lemma dropped_who (W now : Z) (who : string) (m : js_map WindowEntry) :
  let stale := from_option (expired W now) false (jm_get who m) in jm_get who (dropped stale who m) = if stale then None else jm_get who m.
Proof. cbv zeta. destruct (from_option _ _ _); [|done]. cbn [dropped]. by rewrite jm_get_delete, String.eqb_refl. Qed.
Lemma dropped_ok (stale : bool) (who : string) (m : js_map WindowEntry) : NoDup (jm_keys m) → NoDup (jm_keys (dropped stale who m)) ∧ zlen (dropped stale who m) ≤ zlen m.
Proof. intros Hnd. destruct stale; [split; [by apply jm_keys_delete_NoDup|apply jm_delete_size]|done]. Qed.

(** ** The two limiters *)

#[global] Instance p2p_limiter : WindowLimiter P2PPeerRateLimiter := {|
  wl_consume := consume;
  wl_table := rl_peers;
  wl_shared l := (λ t, mkWindow t (rl_overflowCount l)) <$> rl_overflowStartedAtMs l;
  wl_window := rl_windowMs;
  wl_limit := rl_requestsPerWindow;
  wl_sharedLimit := rl_overflowRequestsPerWindow;
  wl_capacity := rl_maxTrackedPeers |}.
Definition p2p_valid (who : string) (now : Z) : Prop := 1 ≤ Z.of_nat (String.length who) ≤ 256 ∧ 0 ≤ now ≤ MAX_SAFE_INTEGER.

Lemma m_modify_run {S A} (b : bool) (f : S → S) (k : unit → meth S A) (s : S) :
  ((if b then m_modify f else mret ()) ≫= k) s = k () (if b then f s else s).
Proof. by destruct b. Qed.
Lemma modified {S A} (f : S → S) (k : unit → meth S A) (s : S) : (m_modify f ≫= k) s = k () (f s).
Proof. done. Qed.
Lemma got {S A} (k : S → meth S A) (s : S) : (m_get ≫= k) s = k s s.
Proof. done. Qed.

Lemma overflow_charges (now : Z) (l : P2PPeerRateLimiter) :
  ∃ l' ok, consumeOverflow now l = (l', Ok ok) ∧ same_limits l l' ∧ rl_peers l' = rl_peers l ∧
    charged (rl_windowMs l) (rl_overflowRequestsPerWindow l) now (wl_shared l) (wl_shared l') ok.
Proof.
  unfold consumeOverflow. rewrite got, m_modify_run, modified, got. eexists _, _. split; [done|].
  unfold charged. cbn [wl_shared p2p_limiter]. destruct (rl_overflowStartedAtMs l) as [t|] eqn:Et; cbn [from_option fmap option_fmap option_map].
  - destruct (Z.leb_spec (rl_windowMs l) (now - t)) as [Hle|Hlt].
    + split; [done|]. split; [done|]. exists (mkWindow now 0). split_and!; [done|done|]. right. split; [|done]. right. split; [done|]. by apply Z.leb_le.
    + split; [done|]. split; [done|]. exists (mkWindow t (rl_overflowCount l)). cbn [set_overflow rl_overflowStartedAtMs rl_overflowCount]. rewrite Et.
      split_and!; [done|done|]. left. split; [done|]. by apply Z.leb_gt.
  - split; [done|]. split; [done|]. exists (mkWindow now 0). split_and!; [done|done|]. right. split; [by left|done].
Qed.

(** The own window of [who] in a table that has no running one. *)
Lemma own_charged (W L now : Z) (old : option WindowEntry) (who : string) (m : js_map WindowEntry) :
  aged W now old None →
  charged W L now old (jm_get who (jm_set who (one_more (mkWindow now 0)) (jm_set who (mkWindow now 0) m))) (we_count (mkWindow now 0) + 1 <=? L).
Proof. intros Ha. exists (mkWindow now 0). rewrite jm_get_set, String.eqb_refl. split_and!; [done|done|]. by right. Qed.
Lemma own_table (who : string) (e e' : WindowEntry) (m : js_map WindowEntry) (cap : Z) :
  NoDup (jm_keys m) → zlen m < cap → NoDup (jm_keys (jm_set who e' (jm_set who e m))) ∧ zlen (jm_set who e' (jm_set who e m)) ≤ cap.
Proof.
  intros Hnd Hlt. split; [by do 2 apply jm_set_NoDup|]. rewrite jm_set_size. rewrite bool_decide_true by (rewrite jm_get_set, String.eqb_refl; by eexists).
  rewrite jm_set_size. case_bool_decide; lia.
Qed.

#[global] Instance p2p_laws : WindowLimiterLaws P2PPeerRateLimiter p2p_valid.
Proof.
  split. intros l who now [Hlen Hnow] [Hnd Hsize]. cbn [wl_table wl_capacity p2p_limiter] in Hnd, Hsize.
  cbn [wl_consume p2p_limiter]. unfold consume. cbv zeta. rewrite meth_bind_run. unfold m_throw_if, m_lift at 1.
  rewrite (proj2 (throw_if_Ok _ _ ())) by (breflect; unfold MAX_SAFE_INTEGER in *; lia). rewrite got, m_modify_run.
  set (W := rl_windowMs l). set (stale := from_option (expired W now) false (jm_get who (rl_peers l))).
  replace (if stale then set_peers (jm_delete who (rl_peers l)) l else l) with (set_peers (dropped stale who (rl_peers l)) l) by (by destruct stale, l).
  pose proof (dropped_who W now who (rl_peers l)) as Hwho. cbv zeta in Hwho. fold stale in Hwho.
  pose proof (λ q, dropped_aged W now who q (rl_peers l)) as Hold. fold stale in Hold.
  destruct (dropped_ok stale who (rl_peers l) Hnd) as [Hnd1 Hsize1]. revert Hwho Hold Hnd1 Hsize1. generalize (dropped stale who (rl_peers l)). intros m Hwho Hold Hnd1 Hsize1.
  rewrite <-Hwho. destruct (jm_get who m) as [e|] eqn:Ee.
  - unfold count_request. rewrite modified, got. eexists _, _. split; [done|]. cbn [set_peers rl_peers]. split; [done|]. split.
    + split; cbn [wl_table wl_capacity p2p_limiter set_peers rl_peers rl_maxTrackedPeers]; [by apply jm_set_NoDup|]. rewrite jm_set_size, Ee, bool_decide_true by (by eexists). lia.
    + assert (stale = false ∧ jm_get who (rl_peers l) = Some e) as [Es Eg] by (by destruct stale).
      split; [intros q Hq|left; split; [|by left]]; cbn [wl_table p2p_limiter set_peers rl_peers wl_window]; rewrite jm_get_set.
      * rewrite (proj2 (String.eqb_neq _ _)) by congruence. apply Hold.
      * rewrite String.eqb_refl, Eg. exists e. split_and!; [done|done|]. left. split; [done|]. unfold stale in Es. by rewrite Eg in Es.
  - rewrite modified, got. set (l1 := set_peers m l).
    assert (∃ m2 next, (if (rl_maxTrackedPeers l1 <=? zlen (rl_peers l1)) && from_option (λ next, next <=? now) false (rl_nextSweepAtMs l1) then sweep now l1 else l1)
      = set_nextSweep next (set_peers m2 l) ∧ NoDup (jm_keys m2) ∧ zlen m2 ≤ zlen m ∧ ∀ q, aged W now (jm_get q m) (jm_get q m2)) as (m2 & next & -> & Hnd2 & Hsize2 & Hm2).
    { destruct (_ && _).
      - eexists _, _. split; [unfold sweep; reflexivity|]. cbn [l1 set_peers rl_peers rl_windowMs]. split_and!; [by apply kept_keys|apply kept_size|intros q; by apply kept_aged].
      - exists m, (rl_nextSweepAtMs l1). split_and!; try done. intros q. by left. }
    assert (∀ q, aged W now (jm_get q (rl_peers l)) (jm_get q m2)) as Hall by (intros q; eapply aged_trans; [apply Hold|apply Hm2]).
    assert (jm_get who m2 = None) as Hwho2 by (specialize (Hm2 who); rewrite Ee in Hm2; by destruct Hm2 as [|[? ?]]).
    cbn [set_nextSweep set_peers rl_maxTrackedPeers rl_peers]. destruct (Z.leb_spec (rl_maxTrackedPeers l) (zlen m2)) as [Hfull|Hroom].
    + destruct (overflow_charges now (set_nextSweep next (set_peers m2 l))) as (l' & ok & Hc & Hsame & Hp & Hch). exists l', ok. split; [exact Hc|].
      assert (same_limits l l') as Hsame' by (by destruct Hsame; split). split; [done|]. cbn [set_nextSweep set_peers rl_peers] in Hp. split.
      { split; cbn [wl_table p2p_limiter]; rewrite Hp; [done|]. destruct Hsame' as [_ _ _ ->]. cbn [wl_capacity p2p_limiter]. lia. }
      split; [intros q _; cbn [wl_table p2p_limiter]; rewrite Hp; apply Hall|]. right. cbn [wl_table p2p_limiter]. rewrite Hp, Hwho2.
      split_and!; [|done|exact Hch]. rewrite <-Hwho2. apply Hall.
    + unfold count_request. rewrite !modified, got. eexists _, _. split; [done|]. split; [done|].
      destruct (own_table who (mkWindow now 0) (one_more (mkWindow now 0)) m2 (rl_maxTrackedPeers l) Hnd2 Hroom) as [Hnd3 Hsize3]. split; [done|].
      split; [intros q Hq|left; split; [|by left]]; cbn [wl_table p2p_limiter set_peers set_nextSweep rl_peers wl_window wl_limit rl_requestsPerWindow].
      * rewrite !jm_get_set, (proj2 (String.eqb_neq _ _)) by congruence. apply Hall.
      * apply own_charged. rewrite <-Hwho2. apply Hall.
Qed.

#[global] Instance rpc_limiter : WindowLimiter FixedWindowLimiter := {|
  wl_consume client now := result ← consume_rpc client now; mret (rr_allowed result);
  wl_table := fw_clients;
  wl_shared := fw_overflow;
  wl_window := fw_windowMs;
  wl_limit := fw_limit;
  wl_sharedLimit := fw_limit;
  wl_capacity := fw_maxTrackedIdentities |}.
Definition rpc_valid (client : string) (now : Z) : Prop := 0 ≤ now ≤ MAX_SAFE_INTEGER.

Lemma sweep_clients_aged (now : Z) (l : FixedWindowLimiter) :
  table_ok l → let l' := sweep_clients now l in same_limits l l' ∧ table_ok l' ∧ zlen (fw_clients l') ≤ zlen (fw_clients l) ∧
    (∀ q, aged (fw_windowMs l) now (jm_get q (fw_clients l)) (jm_get q (fw_clients l'))) ∧ aged (fw_windowMs l) now (fw_overflow l) (fw_overflow l').
Proof.
  intros [Hnd Hsize]. cbv zeta. unfold sweep_clients. destruct (_ <=? _); [|split_and!; [done|done|done|intros q; by left|by left]].
  cbn [fw_clients fw_overflow]. split_and!; [done| |apply kept_size|intros q; by apply kept_aged|].
  - split; [by apply kept_keys|]. cbn [wl_table wl_capacity rpc_limiter fw_clients fw_maxTrackedIdentities] in *. etrans; [apply kept_size|exact Hsize].
  - destruct (fw_overflow l) as [e|]; [|by left]. destruct (expired (fw_windowMs l) now e) eqn:E; [by right|by left].
Qed.

#[global] Instance rpc_laws : WindowLimiterLaws FixedWindowLimiter rpc_valid.
Proof.
  split. intros l who now Hnow Htab. cbn [wl_consume rpc_limiter]. rewrite meth_bind_run. unfold consume_rpc. rewrite meth_bind_run. unfold m_throw_if, m_lift at 1.
  rewrite (proj2 (throw_if_Ok _ _ ())) by (breflect; unfold rpc_valid, MAX_SAFE_INTEGER in *; lia). rewrite modified, got.
  destruct (sweep_clients_aged now l Htab) as (Hsame1 & [Hnd1 Hcap1] & Hsize1 & Hold1 & Hsh1). revert Hsame1 Hnd1 Hcap1 Hsize1 Hold1 Hsh1.
  generalize (sweep_clients now l). intros l1 Hsame1 Hnd1 Hcap1 Hsize1 Hold1 Hsh1. pose proof Hsame1 as [EW EL _ EC].
  cbn [wl_table wl_capacity wl_window wl_limit rpc_limiter] in EW, EL, EC, Hnd1, Hcap1. cbv zeta. rewrite m_modify_run.
  set (W := fw_windowMs l1). set (stale := from_option (expired W now) false (jm_get who (fw_clients l1))).
  replace (if stale then set_clients (jm_delete who (fw_clients l1)) l1 else l1) with (set_clients (dropped stale who (fw_clients l1)) l1) by (by destruct stale, l1).
  pose proof (dropped_who W now who (fw_clients l1)) as Hwho. cbv zeta in Hwho. fold stale in Hwho.
  assert (∀ q, aged (fw_windowMs l) now (jm_get q (fw_clients l)) (jm_get q (dropped stale who (fw_clients l1)))) as Hold.
  { intros q. eapply aged_trans; [apply Hold1|]. rewrite <-EW. apply dropped_aged. }
  destruct (dropped_ok stale who (fw_clients l1) Hnd1) as [Hnd2 Hsize2]. assert (∀ e, jm_get who (dropped stale who (fw_clients l1)) = Some e →
    jm_get who (fw_clients l) = Some e ∧ expired (fw_windowMs l) now e = false) as Hrun.
  { intros e He. rewrite Hwho in He. destruct stale eqn:Es; [done|]. specialize (Hold1 who). rewrite He in Hold1. destruct Hold1 as [Hk|[? _]]; [|done].
    split; [done|]. unfold stale in Es. rewrite He in Es. cbn in Es. by rewrite <-EW. }
  revert Hwho Hold Hnd2 Hsize2 Hrun. generalize (dropped stale who (fw_clients l1)). intros m Hwho Hold Hnd2 Hsize2 Hrun.
  rewrite <-Hwho. destruct (jm_get who m) as [e|] eqn:Ee.
  - unfold answer. rewrite modified, got. eexists _, _. split; [done|]. split; [by destruct Hsame1; split|]. destruct (Hrun e eq_refl) as [Eg He]. split.
    + split; cbn [wl_table wl_capacity rpc_limiter put_client set_clients fw_clients fw_maxTrackedIdentities]; [by apply jm_set_NoDup|].
      rewrite jm_set_size, Ee, bool_decide_true by (by eexists). lia.
    + split; [intros q Hq|left; split; [|exact Hsh1]]; cbn [wl_table rpc_limiter put_client set_clients fw_clients wl_window wl_limit rr_allowed fw_limit]; rewrite jm_get_set.
      * rewrite (proj2 (String.eqb_neq _ _)) by congruence. apply Hold.
      * rewrite String.eqb_refl, Eg. exists e. rewrite EL. split_and!; [done|done|by left].
  - rewrite got. cbn [set_clients fw_clients fw_maxTrackedIdentities fw_overflow fw_windowMs]. destruct (Z.ltb_spec (zlen m) (fw_maxTrackedIdentities l1)) as [Hroom|Hfull].
    + unfold answer. rewrite !modified, got. eexists _, _. split; [done|]. split; [by destruct Hsame1; split|].
      destruct (own_table who (mkWindow now 0) (one_more (mkWindow now 0)) m (fw_maxTrackedIdentities l1) Hnd2 Hroom) as [Hnd3 Hsize3]. split; [done|].
      split; [intros q Hq|left; split; [|exact Hsh1]]; cbn [wl_table rpc_limiter put_client set_clients fw_clients wl_window wl_limit rr_allowed fw_limit].
      * rewrite !jm_get_set, (proj2 (String.eqb_neq _ _)) by congruence. apply Hold.
      * rewrite <-EL. apply own_charged. rewrite <-Ee. apply Hold.
    + unfold answer. rewrite !modified, got. eexists _, _. split; [done|]. split; [by destruct Hsame1; split|]. split; [split; [done|]; cbn; lia|].
      split; [intros q _; apply Hold|]. right. cbn [wl_table rpc_limiter put_shared set_shared set_clients fw_clients wl_shared fw_overflow rr_allowed fw_limit wl_sharedLimit wl_window].
      split_and!; [rewrite <-Ee; apply Hold|done|]. unfold charged. eexists. split; [done|]. rewrite EL. split; [done|]. fold W. rewrite <-EW.
      destruct (fw_overflow l1) as [e|] eqn:Eo.
      * destruct (expired W now e) eqn:Ex; [right; split; [|done]|left; split; [|done]].
        -- eapply aged_trans; [rewrite EW; exact Hsh1|]. right. split; [done|exact Ex].
        -- destruct Hsh1 as [Hk|[? _]]; [by rewrite <-Hk|done].
      * right. split; [|done]. rewrite EW. exact Hsh1.
Qed.

(** ** What gets through *)

(** The requests of one identity that were let through, on whatever lane. *)
Definition let_through (who : string) (gs : list Served) : list Z := gr_time <$> filter (λ g, gr_who g = who ∧ gr_allowed g = true) gs.

(** In the time of any one window an identity gets at most twice the limit through
    its own windows, all identities together get at most twice the shared limit
    through the shared ones, and so an identity gets at most the sum of the two
    through altogether (it may be moved from one lane to the other).  An identity
    with a window of its own is refused only when it has used up the limit. *)
Record limited (W L O : Z) (gs : list Served) : Prop := {
  lm_own : ∀ who a, between a (a + W) (granted (Some who) gs) ≤ 2 * L;
  lm_shared : ∀ a, between a (a + W) (granted None gs) ≤ 2 * O;
  lm_all : ∀ who a, between a (a + W) (let_through who gs) ≤ 2 * L + 2 * O;
  lm_fair : ∀ before g after, gs = before ++ g :: after → gr_own g = true →
    zlen (filter (λ t, gr_time g - W < t) (requested (Some (gr_who g)) before)) < L → gr_allowed g = true }.

Lemma fair_at (W L : Z) (later : list Served) (g : Served) (before : list Served) :
  fair W L (later ++ g :: before) → gr_own g = true →
  zlen (filter (λ t, gr_time g - W < t) (requested (Some (gr_who g)) before)) < L → gr_allowed g = true.
Proof. induction later as [|x later IH]; cbn [fair app]; [intros [Hg _]; done|]. intros [_ Hf]. by apply IH. Qed.

Lemma between_reverse (a b : Z) (lane : option string) (gs : list Served) : between a b (granted lane (reverse gs)) = between a b (granted lane gs).
Proof. unfold between, granted, zlen. f_equal. apply Permutation_length. by rewrite reverse_Permutation. Qed.
Lemma requested_reverse (P : Z → Prop) `{∀ t, Decision (P t)} (lane : option string) (gs : list Served) :
  zlen (filter P (requested lane (reverse gs))) = zlen (filter P (requested lane gs)).
Proof. unfold requested, zlen. f_equal. apply Permutation_length. by rewrite reverse_Permutation. Qed.

Lemma between_times (a b : Z) (P : Served → Prop) `{∀ g, Decision (P g)} (gs : list Served) :
  between a b (gr_time <$> filter P gs) = zlen (filter (λ g, P g ∧ a ≤ gr_time g < b) gs).
Proof.
  unfold between, zlen. f_equal. induction gs as [|g gs IH]; [done|]. rewrite !filter_cons.
  destruct (decide (P g)); [csimpl; rewrite filter_cons|]; repeat case_decide; cbn [length]; try lia; tauto.
Qed.

Lemma between_lanes (a b : Z) (who : string) (gs : list Served) :
  between a b (let_through who gs) ≤ between a b (granted (Some who) gs) + between a b (granted None gs).
Proof.
  unfold let_through, granted. rewrite !between_times. apply filter_sum. intros g _ [[Hw Ha] Ht].
  destruct (gr_own g) eqn:E; [left|right]; (split; [split; [|exact Ha]|exact Ht]); [by split|done].
Qed.

Section limited.
Context {S : Type} `{WindowLimiter S} (valid : string → Z → Prop) `{!WindowLimiterLaws S valid}.

Lemma serve_limited (s : S) (calls : list (string * Z)) :
  0 < wl_window s → 1 ≤ wl_limit s → 1 ≤ wl_sharedLimit s → 0 ≤ wl_capacity s → wl_table s = [] → wl_shared s = None →
  Forall (λ c, valid c.1 c.2 ∧ 0 ≤ c.2) calls → StronglySorted Z.le calls.*2 →
  ∃ s' gs, serve calls s = (s', Ok gs) ∧ (λ g, (gr_who g, gr_time g)) <$> gs = calls ∧ zlen (wl_table s') ≤ wl_capacity s ∧
    limited (wl_window s) (wl_limit s) (wl_sharedLimit s) gs.
Proof.
  intros HW HL HO HC Et Es Hv Hs.
  assert (run_inv s 0 []) as Hinv.
  { split; [split; rewrite Et; [constructor|done]| |rewrite Es; apply lane_start; lia].
    intros who. rewrite Et. split; [apply lane_start; lia|]. split; [|done]. intros t Ht. by apply not_elem_of_nil in Ht. }
  destruct (serve_spec valid calls s 0 []) as (s' & gs & now & Hrun & [EW EL EO EC] & [[_ Hsize] Hown Hsh] & Hfair & Hcalls); try done.
  { eapply Forall_impl; [exact Hv|]. by intros c [? _]. }
  { constructor; [done|]. apply Forall_fmap. eapply Forall_impl; [exact Hv|]. by intros c [_ ?]. }
  rewrite app_nil_r in *. exists s', gs. split_and!; [done|done|by rewrite <-EC|].
  assert (∀ who a, between a (a + wl_window s) (granted (Some who) gs) ≤ 2 * wl_limit s) as H1.
  { intros who a. destruct (Hown who) as [[_ Hany _] _]. specialize (Hany a). by rewrite between_reverse, EW, EL in Hany. }
  assert (∀ a, between a (a + wl_window s) (granted None gs) ≤ 2 * wl_sharedLimit s) as H2.
  { intros a. destruct Hsh as [_ Hany _]. specialize (Hany a). by rewrite between_reverse, EW, EO in Hany. }
  split; [exact H1|exact H2| |].
  - intros who a. pose proof (between_lanes a (a + wl_window s) who gs). specialize (H1 who a). specialize (H2 a). lia.
  - intros before g after -> Hg Hfew. rewrite reverse_app, reverse_cons, <-app_assoc in Hfair. cbn [app] in Hfair.
    apply (fair_at _ _ _ _ _ Hfair Hg). by rewrite requested_reverse.
Qed.
End limited.

Lemma consume_invalid (who : string) (now : Z) (l : P2PPeerRateLimiter) :
  ¬ p2p_valid who now → consume who now l = (l, Throw "Invalid P2P peer rate-limit identity").
Proof.
  intros Hn. unfold consume. cbv zeta. rewrite meth_bind_run. unfold m_throw_if, m_lift, throw_if.
  destruct (_ || _) eqn:E; [done|]. exfalso. apply Hn. breflect. unfold p2p_valid, MAX_SAFE_INTEGER in *. lia.
Qed.

(** C24. The peer rate limit holds.  A request with an identity that is empty or over
    256 long, or with a time that is not a safe non-negative integer, throws and
    changes nothing.  Whatever other requests arrive on a new limiter, with times
    that do not go back, every one is answered, at most [maxTrackedPeers] peers are
    tracked, and in the time of any window: a peer gets at most twice the limit
    through the windows of its own, all peers together get at most twice the overflow
    limit through the overflow lane that those without a window share, and so one peer
    gets at most twice the sum of the two limits through in all.  A request that is
    charged to the peer's own window is refused only when the peer has made as many
    such requests as the limit in the time of one window. *)
Theorem peer_rate_limited (requestsPerWindow windowMs maxTrackedPeers overflowRequestsPerWindow : Z) (l0 : P2PPeerRateLimiter) (calls : list (string * Z)) :
  new_rate_limiter requestsPerWindow windowMs maxTrackedPeers overflowRequestsPerWindow = Ok l0 →
  (∀ who now l, ¬ p2p_valid who now → consume who now l = (l, Throw "Invalid P2P peer rate-limit identity")) ∧
  (Forall (λ c, p2p_valid c.1 c.2) calls → StronglySorted Z.le calls.*2 →
   ∃ l gs, serve calls l0 = (l, Ok gs) ∧ (λ g, (gr_who g, gr_time g)) <$> gs = calls ∧ zlen (rl_peers l) ≤ maxTrackedPeers ∧
     limited windowMs requestsPerWindow overflowRequestsPerWindow gs).
Proof.
  intros Hnew. split; [intros who now l; apply consume_invalid|]. intros Hv Hs. unfold new_rate_limiter in Hnew. apply res_bind_Ok in Hnew as (? & Hok%throw_if_Ok & <-%Ok_inj).
  unfold out_of in Hok. breflect. refine (serve_limited (S := P2PPeerRateLimiter) p2p_valid
    (mkRateLimiter [] None None 0 requestsPerWindow windowMs maxTrackedPeers overflowRequestsPerWindow) calls _ _ _ _ eq_refl eq_refl _ Hs); cbn; try lia.
  eapply Forall_impl; [exact Hv|]. intros c Hc. split; [done|]. apply Hc.
Qed.

(** The same for the clients of the RPC server, which share one limit. *)
Theorem rpc_rate_limited (limit windowMs maxTrackedIdentities : Z) (l0 : FixedWindowLimiter) (calls : list (string * Z)) :
  new_fixed_window limit windowMs maxTrackedIdentities = Ok l0 →
  Forall (λ c, rpc_valid c.1 c.2) calls → StronglySorted Z.le calls.*2 →
  ∃ l gs, serve calls l0 = (l, Ok gs) ∧ (λ g, (gr_who g, gr_time g)) <$> gs = calls ∧ zlen (fw_clients l) ≤ maxTrackedIdentities ∧
    limited windowMs limit limit gs.
Proof.
  intros Hnew Hv Hs. unfold new_fixed_window in Hnew. res_split. subst l0. breflect.
  refine (serve_limited (S := FixedWindowLimiter) rpc_valid (mkFixedWindow [] None 0 limit windowMs maxTrackedIdentities) calls _ _ _ _ eq_refl eq_refl _ Hs);
    cbn; try lia. eapply Forall_impl; [exact Hv|]. intros c Hc. split; [done|]. apply Hc.
Qed.

Module RateExample.
Definition limiter : P2PPeerRateLimiter := mkRateLimiter [] None None 0 2 1000 1 1.
Definition calls : list (string * Z) := [("alice", 5); ("alice", 6); ("alice", 7); ("bob", 8); ("carol", 9); ("bob", 1005)].
Definition answers : list (bool * bool) := [(true, true); (true, true); (true, false); (false, true); (false, false); (true, true)].
End RateExample.

Lemma peer_rate_limited_witness :
  ∃ l gs, serve RateExample.calls RateExample.limiter = (l, Ok gs) ∧ (λ g, (gr_own g, gr_allowed g)) <$> gs = RateExample.answers ∧ limited 1000 2 1 gs.
Proof.
  destruct (proj2 (peer_rate_limited 2 1000 1 1 RateExample.limiter RateExample.calls eq_refl)) as (l & gs & Hrun & _ & _ & Hlim).
  - repeat (apply Forall_cons; split; [split; vm_compute; split; discriminate|]). apply Forall_nil. done.
  - vm_compute. repeat (constructor; [|repeat (constructor; [discriminate|]); constructor]). constructor.
  - exists l, gs. split; [exact Hrun|]. split; [|exact Hlim].
    assert ((serve RateExample.calls RateExample.limiter).2 = Ok gs) as E by (by rewrite Hrun). vm_compute in E. injection E as <-. reflexivity.
Defined.
