(* ===== verification/Journal.v ===== *)
(** The validator's signing journal (l1/src/storage.ts, class SigningJournal):
    the durable record that a vote is reserved in before its signature is
    released.

    The object in memory is a [SigningJournal]; the journal file is the list of
    its complete lines, each as the value [JSON.parse] gives, and a method that
    appends works on both ([disk]).  An append either succeeds or fails with any number of its lines
    on disk ([Io]); a partly written last line is what
    [repairSigningJournalTail] removes when the file is opened again, so it is
    a line that is not there.  [compactThrough] replaces the file by a rename, with
    the old or the new file in place when it fails ([CompactIo]).  Blank lines, the
    file lease, directory syncs and the pruning of the consensus-state files, which
    holds no reservation and whose failure is ignored, are not modelled. *)

From S2P Require Import Prelude Types Codec Crypto Activity Transaction TxShape Block ConsensusV6.

Definition MAX_SIGNING_LINE_BYTES : Z := 1024.

Inductive V6JournalStep := StepBlockProposal | StepProposal | StepPrepare | StepLock | StepCommit | StepTimeout.
#[global] Instance V6JournalStep_eq_dec : EqDecision V6JournalStep.
Proof. solve_decision. Defined.

Definition step_text (step : V6JournalStep) : string :=
  match step with
  | StepBlockProposal => "block-proposal" | StepProposal => "proposal" | StepPrepare => "prepare"
  | StepLock => "lock" | StepCommit => "commit" | StepTimeout => "timeout"
  end.
(** [V6_JOURNAL_STEPS.has(step)], with the step the text names. *)
Definition V6_JOURNAL_STEPS (text : string) : option V6JournalStep :=
  if String.eqb text "block-proposal" then Some StepBlockProposal else if String.eqb text "proposal" then Some StepProposal
  else if String.eqb text "prepare" then Some StepPrepare else if String.eqb text "lock" then Some StepLock
  else if String.eqb text "commit" then Some StepCommit else if String.eqb text "timeout" then Some StepTimeout else None.

(** [lockRound] is the round of a lock row and absent from every other row. *)
Record V6JournalRow := mkRow { jr_height : Z; jr_round : Z; jr_step : V6JournalStep; jr_value : string }.
#[global] Instance V6JournalRow_eq_dec : EqDecision V6JournalRow.
Proof. solve_decision. Defined.

(** [rows] is keyed by [`${round}:${step}`]. *)
Record V6HeightJournal := mkHeightJournal {
  hj_rows : gmap (Z * string) string; hj_lock : option V6Lock; hj_maxVoteRound : Z; hj_maxTimeoutRound : Z }.
#[global] Instance V6HeightJournal_eq_dec : EqDecision V6HeightJournal.
Proof. solve_decision. Defined.

Record SigningJournal := mkSigningJournal {
  sj_reservations : gmap (Z * Z) string;
  sj_legacyHeights : gset Z;
  sj_legacyMarks : gset Z;
  sj_v6Heights : gmap Z V6HeightJournal;
  sj_v6Rows : list V6JournalRow;
  sj_persistenceFaulted : bool;
  sj_closed : bool }.

Definition row_fields (row : V6JournalRow) : record :=
  [("v", jint 2); ("height", jint (jr_height row)); ("round", jint (jr_round row));
   ("step", JStr (step_text (jr_step row))); ("value", JStr (jr_value row))]
  ++ if decide (jr_step row = StepLock) then [("lockRound", jint (jr_round row))] else [].
Definition row_json (row : V6JournalRow) : json := JObj (row_fields row).
(** [`${JSON.stringify(ordered)}\n`] *)
Definition v6RowLine (row : V6JournalRow) : units := default [] (stringify (to_units (row_json row))) ++ [10].
Definition legacy_json (height : Z) : json := JObj [("height", jint height); ("kind", JStr "legacy")].
Definition reservation_json (height round : Z) (kind value : string) : json :=
  JObj [("height", jint height); ("round", jint round); ("kind", JStr kind); ("value", JStr value)].

(** The outcome of an append: done and durable, or failed with the first
    [survived] lines on disk. *)
Inductive Io := IoOk | IoFail (survived : nat).

(** ** The object in memory *)

Definition set_v6Heights (f : gmap Z V6HeightJournal → gmap Z V6HeightJournal) (j : SigningJournal) : SigningJournal :=
  mkSigningJournal (sj_reservations j) (sj_legacyHeights j) (sj_legacyMarks j) (f (sj_v6Heights j))
    (sj_v6Rows j) (sj_persistenceFaulted j) (sj_closed j).
Definition push_v6Row (row : V6JournalRow) (j : SigningJournal) : SigningJournal :=
  mkSigningJournal (sj_reservations j) (sj_legacyHeights j) (sj_legacyMarks j) (sj_v6Heights j)
    (sj_v6Rows j ++ [row]) (sj_persistenceFaulted j) (sj_closed j).
Definition add_legacyHeight (height : Z) (j : SigningJournal) : SigningJournal :=
  mkSigningJournal (sj_reservations j) ({[height]} ∪ sj_legacyHeights j) (sj_legacyMarks j) (sj_v6Heights j)
    (sj_v6Rows j) (sj_persistenceFaulted j) (sj_closed j).
Definition add_legacyMark (height : Z) (j : SigningJournal) : SigningJournal :=
  mkSigningJournal (sj_reservations j) (sj_legacyHeights j) ({[height]} ∪ sj_legacyMarks j) (sj_v6Heights j)
    (sj_v6Rows j) (sj_persistenceFaulted j) (sj_closed j).
Definition set_reservation (height round : Z) (reservation : string) (j : SigningJournal) : SigningJournal :=
  mkSigningJournal (<[(height, round) := reservation]> (sj_reservations j)) (sj_legacyHeights j)
    (sj_legacyMarks j) (sj_v6Heights j) (sj_v6Rows j) (sj_persistenceFaulted j) (sj_closed j).
Definition set_faulted (j : SigningJournal) : SigningJournal :=
  mkSigningJournal (sj_reservations j) (sj_legacyHeights j) (sj_legacyMarks j) (sj_v6Heights j)
    (sj_v6Rows j) true (sj_closed j).

(** The object and the file it appends to. *)
Abbreviation disk := (SigningJournal * list json)%type (only parsing).
Definition mem {A} (m : meth SigningJournal A) : meth disk A := λ d, let (j, r) := m d.1 in ((j, d.2), r).
Definition write_file (lines : list json) (d : disk) : disk := (d.1, d.2 ++ lines).

Definition emptyHeight : V6HeightJournal := mkHeightJournal ∅ None (-1) (-1).

(** [v6HeightState(height, true)] creates the height when it is not there;
    [v6HeightState(height)] only reads. *)
Definition v6HeightState (height : Z) (create : bool) : meth SigningJournal (option V6HeightJournal) := λ j,
  match sj_v6Heights j !! height with
  | Some state => (j, Ok (Some state))
  | None => if create then (set_v6Heights (<[height := emptyHeight]>) j, Ok (Some emptyHeight)) else (j, Ok None)
  end.

(** What [applyV6Row] does to the row's height. *)
Definition apply_height (row : V6JournalRow) (state : V6HeightJournal) : V6HeightJournal :=
  match jr_step row with
  | StepLock => mkHeightJournal (hj_rows state) (Some (mkLock (jr_round row) (jr_value row)))
                  (hj_maxVoteRound state) (hj_maxTimeoutRound state)
  | step => mkHeightJournal (<[(jr_round row, step_text step) := jr_value row]> (hj_rows state)) (hj_lock state)
              (match step with StepPrepare | StepCommit => Z.max (hj_maxVoteRound state) (jr_round row)
                             | _ => hj_maxVoteRound state end)
              (match step with StepTimeout => Z.max (hj_maxTimeoutRound state) (jr_round row)
                             | _ => hj_maxTimeoutRound state end)
  end.

Definition applyV6Row (row : V6JournalRow) : meth SigningJournal unit :=
  state ← v6HeightState (jr_height row) true;
  m_modify (set_v6Heights (<[jr_height row := apply_height row (default emptyHeight state)]>));;
  m_modify (push_v6Row row).

(** ** Replay *)

Definition isHash (s : string) : bool := isLowerHexOf 64 s.

(** The row a parsed line holds, or the corruption error. *)
Definition parse_row (parsed : record) : res V6JournalRow :=
  let corrupt := "Corrupt signing journal entry" in
  let isLock := match get parsed "step" with JStr s => String.eqb s "lock" | _ => false end in
  let expectedKeys := ["v"; "height"; "round"; "step"; "value"] ++ (if isLock then ["lockRound"] else []) in
  throw_if (negb (zlen parsed =? zlen expectedKeys) || negb (forallb (has parsed) expectedKeys)) corrupt;;
  text ← as_text (get parsed "step") corrupt;
  step ← unwrap (V6_JOURNAL_STEPS text) corrupt;
  height ← safe_int (get parsed "height") (λ z, z <? 1) corrupt;
  round ← safe_int (get parsed "round") (λ z, (z <? 0) || (V6_MAX_ROUND <? z)) corrupt;
  value ← as_text (get parsed "value") corrupt;
  throw_if (negb (isHash value)) corrupt;;
  throw_if (isLock && negb (bool_decide (as_int (get parsed "lockRound") = Some round))) corrupt;;
  Ok (mkRow height round step value).

Definition TORN : string := "Torn protocol v6 lock/commit pair in signing journal".
Definition MIXED : string := "Mixed legacy and protocol v6 signing journal rows".

Definition replayV6Row (parsed : record) (pendingLock : option V6JournalRow) : meth SigningJournal (option V6JournalRow) :=
  row ← m_lift (parse_row parsed);
  match pendingLock with
  | Some pending =>
    m_throw_if (negb (bool_decide (jr_step row = StepCommit)) || negb (jr_height row =? jr_height pending) ||
      negb (jr_round row =? jr_round pending) || negb (String.eqb (jr_value row) (jr_value pending))) TORN
  | None => mret ()
  end;;
  j ← m_get;
  m_throw_if (bool_decide (jr_height row ∈ sj_legacyHeights j)) MIXED;;
  st ← v6HeightState (jr_height row) true;
  let state := default emptyHeight st in
  (if decide (jr_step row = StepLock) then
    m_throw_if match hj_lock state with
               | Some lock => (jr_round row <? lk_round lock) ||
                   ((lk_round lock =? jr_round row) && negb (String.eqb (lk_blockHash lock) (jr_value row)))
               | None => false
               end "Conflicting signing journal history";;
    let prepared := hj_rows state !! (jr_round row, "prepare") in
    m_throw_if ((jr_round row <=? hj_maxTimeoutRound state) || (jr_round row <? hj_maxVoteRound state) ||
      match prepared with Some p => negb (String.eqb p (jr_value row)) | None => false end) TORN
  else
    m_throw_if match hj_rows state !! (jr_round row, step_text (jr_step row)) with
               | Some previous => negb (String.eqb previous (jr_value row))
               | None => false
               end "Conflicting signing journal history");;
  applyV6Row row;;
  mret (if decide (jr_step row = StepLock) then Some row else None).

(** One line of [replayRows]. *)
Definition replay_line (pendingLock : option V6JournalRow) (line : json) : meth SigningJournal (option V6JournalRow) :=
  let corrupt := "Corrupt signing journal entry" in
  match line with
  | JObj parsed =>
    if bool_decide (as_int (get parsed "v") = Some 2) then replayV6Row parsed pendingLock else
    m_throw_if (bool_decide (is_Some pendingLock)) TORN;;
    kind ← m_lift (as_text (get parsed "kind") corrupt);
    if String.eqb kind "legacy" then
      m_throw_if (negb (bool_decide (sort_keys parsed.*1 = ["height"; "kind"]))) corrupt;;
      height ← m_lift (safe_int (get parsed "height") (λ z, z <? 1) corrupt);
      j ← m_get;
      m_throw_if (bool_decide (is_Some (sj_v6Heights j !! height))) MIXED;;
      m_modify (add_legacyMark height);; m_modify (add_legacyHeight height);;
      mret None
    else
      height ← m_lift (safe_int (get parsed "height") (λ _, false) corrupt);
      round ← m_lift (safe_int (get parsed "round") (λ _, false) corrupt);
      m_throw_if (negb (String.eqb kind "attest") && negb (String.eqb kind "skip")) corrupt;;
      value ← m_lift (as_text (get parsed "value") corrupt);
      m_throw_if (negb (isHash value)) corrupt;;
      let reservation := kind +:+ ":" +:+ value in
      j ← m_get;
      m_throw_if match sj_reservations j !! (height, round) with
                 | Some previous => negb (String.eqb previous reservation)
                 | None => false
                 end "Conflicting signing journal history";;
      m_throw_if (bool_decide (is_Some (sj_v6Heights j !! height))) MIXED;;
      m_modify (set_reservation height round reservation);; m_modify (add_legacyHeight height);;
      mret None
  | _ => m_throw_if (bool_decide (is_Some pendingLock)) TORN;; m_lift (Throw corrupt)
  end.

Fixpoint replay_lines (lines : list json) (pendingLock : option V6JournalRow) : meth SigningJournal (option V6JournalRow) :=
  match lines with
  | [] => mret pendingLock
  | line :: rest => pending ← replay_line pendingLock line; replay_lines rest pending
  end.
Definition replayRows (file : list json) : meth SigningJournal (option V6JournalRow) := replay_lines file None.

Definition assertTornAppendLock (pendingLock : V6JournalRow) : meth SigningJournal unit :=
  j ← m_get;
  let state := default emptyHeight (sj_v6Heights j !! jr_height pendingLock) in
  let prepared := hj_rows state !! (jr_round pendingLock, "prepare") in
  m_throw_if ((jr_round pendingLock <=? hj_maxTimeoutRound state) || (jr_round pendingLock <? hj_maxVoteRound state) ||
    match prepared with Some p => negb (String.eqb p (jr_value pendingLock)) | None => false end) TORN.

(** [new SigningJournal(path)] *)
Definition new_journal : SigningJournal := mkSigningJournal ∅ ∅ ∅ ∅ [] false false.

(** [SigningJournal.open] on the repaired file: replay it, then complete a lone
    trailing lock with its commit row.  A failure leaves the file, with the
    completed row on it or not, and no journal. *)
Definition open_journal (file : list json) (io : Io) : list json * res SigningJournal :=
  match replayRows file new_journal with
  | (_, Throw e) => (file, Throw e)
  | (j, Ok None) => (file, Ok j)
  | (j, Ok (Some pendingLock)) =>
    let commit := mkRow (jr_height pendingLock) (jr_round pendingLock) StepCommit (jr_value pendingLock) in
    match (assertTornAppendLock pendingLock;;
           replayV6Row (row_fields commit) (Some pendingLock)) j with
    | (_, Throw e) => (file, Throw e)
    | (_, Ok (Some _)) => (file, Throw TORN)
    | (j', Ok None) =>
      match io with
      | IoOk => (file ++ [row_json commit], Ok j')
      | IoFail survived => (file ++ take survived [row_json commit], Throw "EIO")
      end
    end
  end.

(** ** Reservations *)

Definition PERSISTENCE_FAULT : string := "Signing journal persistence fault requires validator restart".
Definition PERSISTENCE_FAILED : string := "Signing journal persistence failed; validator restart required".
Definition CONFLICT : string := "Conflicting validator action prevented for consensus round".

(** [open(path, "a"); writeFile; sync; close], where a failure stops the journal. *)
Definition append_lines (lines : list json) (io : Io) : meth disk unit :=
  match io with
  | IoOk => m_modify (write_file lines)
  | IoFail survived =>
    m_modify (write_file (take survived lines));; mem (m_modify set_faulted);; m_lift (Throw PERSISTENCE_FAILED)
  end.

Definition assertV6Writable (height round : Z) (value : string) : meth SigningJournal unit :=
  j ← m_get;
  m_throw_if (sj_closed j) "Signing journal is closed";;
  m_throw_if (sj_persistenceFaulted j) PERSISTENCE_FAULT;;
  m_throw_if (negb (isSafeInteger height) || (height <? 1) || negb (isSafeInteger round) || (round <? 0) ||
    (V6_MAX_ROUND <? round)) "Invalid signing slot";;
  m_throw_if (negb (isHash value)) "Invalid signing hash";;
  m_throw_if (bool_decide (height ∈ sj_legacyHeights j))
    "Protocol v6 validator action refused: legacy journal rows exist at this height".

Definition assertV6RoundOpen (state : option V6HeightJournal) (round : Z) : res unit :=
  match state with
  | None => Ok ()
  | Some state =>
    throw_if (round <=? hj_maxTimeoutRound state) "Protocol v6 validator action refused: round already timed out";;
    throw_if (round <? hj_maxVoteRound state) "Protocol v6 validator action refused: a later round was already voted"
  end.

Definition appendV6 (rows : list V6JournalRow) (io : Io) : meth disk unit :=
  m_throw_if (existsb (λ row, MAX_SIGNING_LINE_BYTES <? zlen (utf8 (v6RowLine row))) rows)
    "Signing journal entry exceeds line limit";;
  append_lines (map row_json rows) io;;
  mem (m_for applyV6Row rows).

(** [state?.rows.get(`${round}:${step}`)] *)
Definition row_of (state : option V6HeightJournal) (round : Z) (step : V6JournalStep) : option string :=
  state ≫= λ s, hj_rows s !! (round, step_text step).

(** The end of every reservation: an identical one is done already, a different
    one is refused, a new one runs its checks. *)
Definition reserve_new (existing : option string) (value : string) (fresh : meth disk unit) : meth disk unit :=
  match existing with
  | Some e => if String.eqb e value then mret () else m_lift (Throw CONFLICT)
  | None => fresh
  end.

Definition reserveV6 (height round : Z) (step : V6JournalStep) (value : string) (io : Io) : meth disk unit :=
  mem (assertV6Writable height round value);;
  state ← mem (v6HeightState height false);
  reserve_new (row_of state round step) value (
    (if decide (step = StepTimeout) then mret () else m_lift (assertV6RoundOpen state round));;
    appendV6 [mkRow height round step value] io).

Definition reserveV6Prepare (height round : Z) (blockHash : string) (justifyRound : Z) (io : Io) : meth disk unit :=
  mem (assertV6Writable height round blockHash);;
  m_throw_if (negb (isSafeInteger justifyRound) || (justifyRound <? -1) || (round <=? justifyRound)) "Invalid v6 justify round";;
  state ← mem (v6HeightState height false);
  reserve_new (row_of state round StepPrepare) blockHash (
    m_lift (assertV6RoundOpen state round);;
    m_throw_if (negb (safeVote (state ≫= hj_lock) blockHash justifyRound))
      "Protocol v6 prepare refused: conflicts with the validator's lock";;
    appendV6 [mkRow height round StepPrepare blockHash] io).

Definition reserveV6Commit (height round : Z) (blockHash : string) (io : Io) : meth disk unit :=
  mem (assertV6Writable height round blockHash);;
  state ← mem (v6HeightState height false);
  reserve_new (row_of state round StepCommit) blockHash (
    m_lift (assertV6RoundOpen state round);;
    m_throw_if match row_of state round StepPrepare with
               | Some prepared => negb (String.eqb prepared blockHash)
               | None => false
               end "Protocol v6 commit refused: differs from own prepare vote";;
    m_throw_if match state ≫= hj_lock with
               | Some lock => (round <? lk_round lock) || ((lk_round lock =? round) && negb (String.eqb (lk_blockHash lock) blockHash))
               | None => false
               end "Protocol v6 commit refused: lock may not move backwards";;
    appendV6 [mkRow height round StepLock blockHash; mkRow height round StepCommit blockHash] io).

Definition legacyReservation (j : SigningJournal) (height round : Z) : option string := sj_reservations j !! (height, round).
Definition v6Lock (j : SigningJournal) (height : Z) : option V6Lock := sj_v6Heights j !! height ≫= hj_lock.
Definition v6Row (j : SigningJournal) (height round : Z) (step : V6JournalStep) : option string :=
  row_of (sj_v6Heights j !! height) round step.
Definition v6Rounds (j : SigningJournal) (height : Z) : Z * Z :=
  match sj_v6Heights j !! height with Some s => (hj_maxVoteRound s, hj_maxTimeoutRound s) | None => (-1, -1) end.
Definition hasLegacyRows (j : SigningJournal) (height : Z) : bool := bool_decide (height ∈ sj_legacyHeights j).
Definition hasV6Rows (j : SigningJournal) (height : Z) : bool := bool_decide (is_Some (sj_v6Heights j !! height)).

Definition reserveLegacyHeight (height : Z) (io : Io) : meth disk unit :=
  j ← mem m_get;
  m_throw_if (sj_closed j) "Signing journal is closed";;
  m_throw_if (sj_persistenceFaulted j) PERSISTENCE_FAULT;;
  m_throw_if (negb (isSafeInteger height) || (height <? 1)) "Invalid signing slot";;
  m_throw_if (bool_decide (is_Some (sj_v6Heights j !! height)))
    "Legacy validator action refused: protocol v6 journal rows exist at this height";;
  if bool_decide (height ∈ sj_legacyHeights j) then mret () else
  append_lines [legacy_json height] io;;
  mem (m_modify (add_legacyMark height));; mem (m_modify (add_legacyHeight height)).

Definition reserveChoice (height round : Z) (kind value : string) (io : Io) : meth disk unit :=
  j ← mem m_get;
  m_throw_if (sj_closed j) "Signing journal is closed";;
  m_throw_if (sj_persistenceFaulted j) PERSISTENCE_FAULT;;
  m_throw_if (negb (isSafeInteger height) || (height <? 1) || negb (isSafeInteger round) || (round <? 0)) "Invalid signing slot";;
  m_throw_if (negb (isHash value)) "Invalid signing hash";;
  let reservation := kind +:+ ":" +:+ value in
  reserve_new (sj_reservations j !! (height, round)) reservation (
    m_throw_if (bool_decide (is_Some (sj_v6Heights j !! height)))
      "Legacy validator action refused: protocol v6 journal rows exist at this height";;
    append_lines [reservation_json height round kind value] io;;
    mem (m_modify (set_reservation height round reservation));; mem (m_modify (add_legacyHeight height))).
Definition reserveAttestation (height round : Z) (blockHash : string) (io : Io) : meth disk unit :=
  reserveChoice height round "attest" blockHash io.
Definition reserveSkip (height round : Z) (previousHash : string) (io : Io) : meth disk unit :=
  reserveChoice height round "skip" previousHash io.

(** ** Compaction *)

(** How replacing the file ends: done and durable, failed with the old file in
    place, or failed when the new one had been renamed over it. *)
Inductive CompactIo := CompactOk | CompactBeforeRename | CompactAfterRename.

Definition COMPACTION_FAILED : string := "Signing journal compaction failed; validator restart required".
Definition CORRUPT_MEMORY : string := "Signing journal in-memory state is corrupt; validator restart required".

(** [reservation.slice(0, separator)] and [reservation.slice(separator + 1)], where
    [separator] is [-1] when there is no colon. *)
Definition split_reservation (reservation : string) : string * string :=
  match String.index 0 ":" reservation with
  | Some n => (String.substring 0 n reservation, String.substring (S n) (String.length reservation - S n) reservation)
  | None => (String.substring 0 (String.length reservation - 1) reservation, reservation)
  end.

(** An entry of [reservations] that no reservation can have made. *)
Definition corrupt_reservation (e : Z * Z * string) : bool :=
  let '((height, round), (kind, value)) := (e.1, split_reservation e.2) in
  negb (isSafeInteger height) || (height <? 1) || negb (isSafeInteger round) || (round <? 0) ||
  (negb (String.eqb kind "attest") && negb (String.eqb kind "skip")) || negb (isHash value).
Definition reservation_line (e : Z * Z * string) : json :=
  reservation_json e.1.1 e.1.2 (split_reservation e.2).1 (split_reservation e.2).2.
(** [left.height - right.height || left.round - right.round]; no two keys are equal. *)
Definition slot_le (a b : Z * Z * string) : bool := (a.1.1 <? b.1.1) || ((a.1.1 =? b.1.1) && (a.1.2 <=? b.1.2)).

(** What is above the height: the object, and the lines of its file. *)
Definition compacted (finalizedHeight : Z) (j : SigningJournal) : SigningJournal :=
  mkSigningJournal (filter (λ e, finalizedHeight < e.1.1) (sj_reservations j)) (filter (λ h, finalizedHeight < h) (sj_legacyHeights j))
    (filter (λ h, finalizedHeight < h) (sj_legacyMarks j)) (filter (λ e, finalizedHeight < e.1) (sj_v6Heights j))
    (filter (λ row, finalizedHeight < jr_height row) (sj_v6Rows j)) (sj_persistenceFaulted j) (sj_closed j).
Definition retained (j : SigningJournal) : list (Z * Z * string) := js_sort slot_le (map_to_list (sj_reservations j)).
Definition journal_lines (j : SigningJournal) : list json :=
  map reservation_line (retained j) ++ map legacy_json (js_sort Z.leb (elements (sj_legacyMarks j))) ++ map row_json (sj_v6Rows j).
Definition json_line (line : json) : units := default [] (stringify (to_units line)) ++ [10].
Definition removed_count (finalizedHeight : Z) (j : SigningJournal) : Z :=
  let k := compacted finalizedHeight j in
  (Z.of_nat (size (sj_reservations j)) - Z.of_nat (size (sj_reservations k))) + (zlen (sj_v6Rows j) - zlen (sj_v6Rows k)) +
  (Z.of_nat (size (sj_legacyMarks j)) - Z.of_nat (size (sj_legacyMarks k))).

Definition compactThrough (finalizedHeight : Z) (io : CompactIo) : meth disk Z :=
  j ← mem m_get;
  m_throw_if (sj_closed j) "Signing journal is closed";;
  m_throw_if (sj_persistenceFaulted j) PERSISTENCE_FAULT;;
  m_throw_if (negb (isSafeInteger finalizedHeight) || (finalizedHeight <? 0)) "Invalid signing journal compaction height";;
  if existsb corrupt_reservation (map_to_list (sj_reservations j)) then mem (m_modify set_faulted);; m_lift (Throw CORRUPT_MEMORY) else
  let k := compacted finalizedHeight j in
  if removed_count finalizedHeight j =? 0 then mret 0 else
  let failed := mem (m_modify set_faulted);; m_lift (Throw COMPACTION_FAILED) in
  if existsb (λ line, MAX_SIGNING_LINE_BYTES <? zlen (utf8 (json_line line))) (map reservation_line (retained k) ++ map row_json (sj_v6Rows k)) then failed else
  match io with
  | CompactOk => m_modify (λ _, (k, journal_lines k));; mret (removed_count finalizedHeight j)
  | CompactBeforeRename => failed
  | CompactAfterRename => m_modify (λ d, (d.1, journal_lines k));; failed
  end.
