(* ===== verification/JournalReplay.v ===== *)
(** How the methods of the signing journal (l1/src/storage.ts) run: what a replayed
    row does, and what a reservation checks and appends. *)

From S2P Require Import Prelude Types Codec Crypto Activity Transaction TxShape Block ConsensusV6 Journal.

(** ** Running the methods *)

Definition row_valid (row : V6JournalRow) : Prop :=
  1 ≤ jr_height row ≤ MAX_SAFE_INTEGER ∧ 0 ≤ jr_round row ≤ V6_MAX_ROUND ∧ isHash (jr_value row) = true.

(** The heights after a row, and the whole object after it. *)
Definition add_row (m : gmap Z V6HeightJournal) (row : V6JournalRow) : gmap Z V6HeightJournal :=
  <[jr_height row := apply_height row (default emptyHeight (m !! jr_height row))]> m.
Definition row_effect (j : SigningJournal) (row : V6JournalRow) : SigningJournal :=
  push_v6Row row (set_v6Heights (λ m, add_row m row) j).

Lemma applyV6Row_run (row : V6JournalRow) (j : SigningJournal) : applyV6Row row j = (row_effect j row, Ok ()).
Proof.
  unfold applyV6Row, v6HeightState, row_effect, add_row, set_v6Heights, push_v6Row. rewrite !meth_bind_run.
  destruct (sj_v6Heights j !! jr_height row) as [s|] eqn:E; cbn.
  - done.
  - rewrite meth_bind_run. cbn. by rewrite insert_insert_eq.
Qed.

Lemma apply_rows_run (rows : list V6JournalRow) (j : SigningJournal) :
  m_for applyV6Row rows j = (fold_left row_effect rows j, Ok ()).
Proof.
  revert j. induction rows as [|row rows IH]; intros j; [done|].
  cbn [m_for fold_left]. by rewrite meth_bind_run, applyV6Row_run, IH.
Qed.

Lemma steps_text (s : V6JournalStep) : V6_JOURNAL_STEPS (step_text s) = Some s.
Proof. by destruct s. Qed.

Lemma parse_row_fields (row : V6JournalRow) : row_valid row → parse_row (row_fields row) = Ok row.
Proof.
  intros (Hh & Hr & Hv). destruct row as [h r s v]; cbn [jr_height jr_round jr_value] in *.
  assert (safe_int (jint h) (λ z, z <? 1) "Corrupt signing journal entry" = Ok h) as E1.
  { apply safe_int_Ok. split_and!; [done|apply isSafeInteger_spec; lia|lia]. }
  assert (safe_int (jint r) (λ z, (z <? 0) || (V6_MAX_ROUND <? z)) "Corrupt signing journal entry" = Ok r) as E2.
  { apply safe_int_Ok. split_and!; [done|apply isSafeInteger_spec; unfold V6_MAX_ROUND, MAX_SAFE_INTEGER in *; lia|lia]. }
  unfold parse_row. change (get (row_fields (mkRow h r s v)) "height") with (jint h).
  change (get (row_fields (mkRow h r s v)) "round") with (jint r).
  change (get (row_fields (mkRow h r s v)) "value") with (JStr v : json).
  change (get (row_fields (mkRow h r s v)) "step") with (JStr (step_text s) : json).
  cbn [as_text mbind res_bind]. rewrite steps_text, E1, E2, Hv.
  destruct s; cbn; try done. by rewrite bool_decide_eq_true_2.
Qed.

(** The state of a height as the reservations read it. *)
Definition height_state (j : SigningJournal) (height : Z) : V6HeightJournal := default emptyHeight (sj_v6Heights j !! height).

(** When a pending lock allows the next row. *)
Definition pairs_with (p : option V6JournalRow) (row : V6JournalRow) : Prop :=
  match p with
  | None => True
  | Some l => jr_step row = StepCommit ∧ jr_height row = jr_height l ∧ jr_round row = jr_round l ∧ jr_value row = jr_value l
  end.

Lemma replay_line_v6 (p : option V6JournalRow) (row : V6JournalRow) :
  replay_line p (row_json row) = replayV6Row (row_fields row) p.
Proof. destruct row as [h r [] v]; done. Qed.

Lemma pending_ok (p : option V6JournalRow) (row : V6JournalRow) (j : SigningJournal) :
  pairs_with p row →
  match p with
  | Some pending => m_throw_if (negb (bool_decide (jr_step row = StepCommit)) || negb (jr_height row =? jr_height pending) ||
      negb (jr_round row =? jr_round pending) || negb (String.eqb (jr_value row) (jr_value pending))) TORN
  | None => mret ()
  end j = (j, Ok ()).
Proof.
  destruct p as [l|]; [|done]. intros (E1 & E2 & E3 & E4).
  by rewrite E2, E3, E4, !Z.eqb_refl, String.eqb_refl, bool_decide_eq_true_2.
Qed.

(** Creating the height first changes nothing: the row's effect creates it. *)
Lemma row_effect_created (row : V6JournalRow) (j : SigningJournal) :
  sj_v6Heights j !! jr_height row = None →
  row_effect (set_v6Heights (<[jr_height row := emptyHeight]>) j) row = row_effect j row.
Proof.
  intros E. unfold row_effect, push_v6Row, set_v6Heights, add_row; cbn.
  by rewrite lookup_insert_eq, insert_insert_eq, E.
Qed.

Lemma run_throw_false {S} (b : bool) (msg : string) (s : S) : b = false → m_throw_if b msg s = (s, Ok ()).
Proof. by intros ->. Qed.

(** A row that is not a lock is replayed with its effect. *)
Lemma replay_plain (p : option V6JournalRow) (row : V6JournalRow) (j : SigningJournal) :
  row_valid row → jr_step row ≠ StepLock → pairs_with p row → jr_height row ∉ sj_legacyHeights j →
  hj_rows (height_state j (jr_height row)) !! (jr_round row, step_text (jr_step row)) = None →
  replay_line p (row_json row) j = (row_effect j row, Ok None).
Proof.
  intros Hv Hs Hp Hl Hn. rewrite replay_line_v6. unfold replayV6Row.
  rewrite meth_bind_run, (parse_row_fields row Hv). cbn [m_lift].
  rewrite meth_bind_run, pending_ok by done. rewrite meth_bind_run. cbn [m_get].
  rewrite meth_bind_run, run_throw_false by (by apply bool_decide_eq_false_2).
  rewrite meth_bind_run. unfold v6HeightState, height_state in *.
  destruct (sj_v6Heights j !! jr_height row) as [s|] eqn:E; cbn [from_option id] in *;
    rewrite !decide_False by done; rewrite meth_bind_run, run_throw_false by (by rewrite Hn);
    rewrite meth_bind_run, applyV6Row_run; [done|].
  by rewrite row_effect_created.
Qed.

(** When a lock row may be written: the round is open, it agrees with an own
    prepare, and the lock does not move back. *)
Definition lock_allowed (state : V6HeightJournal) (round : Z) (value : string) : Prop :=
  hj_maxTimeoutRound state < round ∧ hj_maxVoteRound state ≤ round ∧
  (∀ q, hj_rows state !! (round, "prepare") = Some q → q = value) ∧
  (∀ l, hj_lock state = Some l → lk_round l < round ∨ lk_round l = round ∧ lk_blockHash l = value).

Lemma replay_lock (row : V6JournalRow) (j : SigningJournal) :
  row_valid row → jr_step row = StepLock → jr_height row ∉ sj_legacyHeights j →
  lock_allowed (height_state j (jr_height row)) (jr_round row) (jr_value row) →
  replay_line None (row_json row) j = (row_effect j row, Ok (Some row)).
Proof.
  intros Hv Hs Hl (Ht & Hvr & Hq & Hlk). rewrite replay_line_v6. unfold replayV6Row.
  rewrite meth_bind_run, (parse_row_fields row Hv). cbn [m_lift].
  rewrite meth_bind_run, (pending_ok None row) by done. rewrite meth_bind_run. cbn [m_get].
  rewrite meth_bind_run, run_throw_false by (by apply bool_decide_eq_false_2).
  rewrite meth_bind_run. unfold v6HeightState, height_state in *.
  assert (∀ st, st = default emptyHeight (sj_v6Heights j !! jr_height row) →
    match hj_lock st with
    | Some lock => (jr_round row <? lk_round lock) ||
        ((lk_round lock =? jr_round row) && negb (String.eqb (lk_blockHash lock) (jr_value row)))
    | None => false end = false ∧
    (jr_round row <=? hj_maxTimeoutRound st) || (jr_round row <? hj_maxVoteRound st) ||
    match hj_rows st !! (jr_round row, "prepare") with Some q => negb (String.eqb q (jr_value row)) | None => false end = false) as G.
  { intros st ->. split.
    - destruct (hj_lock _) as [l|] eqn:E; [|done]. destruct (Hlk l eq_refl) as [?|[? ->]]; [lia|].
      rewrite String.eqb_refl. lia.
    - apply orb_false_iff. split; [lia|]. destruct (hj_rows _ !! _) as [q|]; [|done].
      by rewrite (Hq q eq_refl), String.eqb_refl. }
  destruct (sj_v6Heights j !! jr_height row) as [s|] eqn:E; cbn [from_option id] in *;
    destruct (G _ eq_refl) as [G1 G2]; rewrite !decide_True by done;
    rewrite meth_bind_run, meth_bind_run, (run_throw_false _ _ _ G1), (run_throw_false _ _ _ G2);
    rewrite meth_bind_run, applyV6Row_run; [done|].
  by rewrite row_effect_created.
Qed.

(** ** What a reservation does

    A reservation either changes nothing, or passes its checks and appends its
    rows. *)

Definition appended (rows : list V6JournalRow) (io : Io) (d d' : disk) (x : res unit) : Prop :=
  match io with
  | IoOk => d' = (fold_left row_effect rows d.1, d.2 ++ map row_json rows) ∧ x = Ok ()
  | IoFail survived => d' = (set_faulted d.1, d.2 ++ take survived (map row_json rows)) ∧ x = Throw PERSISTENCE_FAILED
  end.

Record writable (j : SigningJournal) (height round : Z) (value : string) : Prop := {
  wr_open : sj_closed j = false;
  wr_healthy : sj_persistenceFaulted j = false;
  wr_height : 1 ≤ height ≤ MAX_SAFE_INTEGER;
  wr_round : 0 ≤ round ≤ V6_MAX_ROUND;
  wr_value : isHash value = true;
  wr_legacy : height ∉ sj_legacyHeights j }.

Lemma writable_row (j : SigningJournal) (height round : Z) (step : V6JournalStep) (value : string) :
  writable j height round value → row_valid (mkRow height round step value).
Proof. by intros []. Qed.

(** No timeout at the round or above and no vote above it. *)
Definition round_open (state : V6HeightJournal) (round : Z) : Prop :=
  hj_maxTimeoutRound state < round ∧ hj_maxVoteRound state ≤ round.

Definition slot_free (state : V6HeightJournal) (round : Z) (step : V6JournalStep) : Prop :=
  hj_rows state !! (round, step_text step) = None.

Lemma assertV6Writable_run (height round : Z) (value : string) (j : SigningJournal) :
  ∃ x, assertV6Writable height round value j = (j, x) ∧ (∀ u, x = Ok u → writable j height round value).
Proof.
  unfold assertV6Writable, m_throw_if, m_lift. rewrite meth_bind_run. cbn [m_get]. rewrite meth_bind_run.
  destruct (sj_closed j) eqn:E1; cbn [throw_if]; [eexists; split; [reflexivity|discriminate]|]. rewrite meth_bind_run.
  destruct (sj_persistenceFaulted j) eqn:E2; cbn [throw_if]; [eexists; split; [reflexivity|discriminate]|]. rewrite meth_bind_run.
  destruct (negb (isSafeInteger height) || (height <? 1) || negb (isSafeInteger round) || (round <? 0) || (V6_MAX_ROUND <? round))
    eqn:E3; cbn [throw_if]; [eexists; split; [reflexivity|discriminate]|]. rewrite meth_bind_run.
  destruct (isHash value) eqn:E4; cbn [throw_if negb]; [|eexists; split; [reflexivity|discriminate]].
  destruct (decide (height ∈ sj_legacyHeights j)) as [Hl|Hl].
  - rewrite bool_decide_eq_true_2 by done. eexists; split; [reflexivity|discriminate].
  - rewrite bool_decide_eq_false_2 by done. eexists; split; [reflexivity|]. intros _ _. breflect.
    constructor; try done; lia.
Qed.

Lemma mem_run {A} (m : meth SigningJournal A) (d : disk) : mem m d = ((m d.1).1, d.2, (m d.1).2).
Proof. unfold mem. by destruct (m d.1). Qed.

Lemma v6HeightState_read (height : Z) (d : disk) :
  mem (v6HeightState height false) d = (d, Ok (sj_v6Heights d.1 !! height)).
Proof. destruct d as [j f]. rewrite mem_run. unfold v6HeightState. cbn. by destruct (sj_v6Heights j !! height). Qed.

Lemma appendV6_run (rows : list V6JournalRow) (io : Io) (d d' : disk) (x : res unit) :
  appendV6 rows io d = (d', x) → (d' = d ∧ ∃ e, x = Throw e) ∨ appended rows io d d' x.
Proof.
  unfold appendV6. rewrite meth_bind_run. unfold m_throw_if, m_lift.
  destruct (existsb _ rows); cbn [throw_if]; [intros [= <- <-]; left; eauto|].
  rewrite meth_bind_run. unfold append_lines. destruct io as [|k].
  - cbn [m_modify]. rewrite mem_run, apply_rows_run. intros [= <- <-]. by right.
  - rewrite meth_bind_run. cbn [m_modify]. rewrite meth_bind_run, mem_run. cbn. intros [= <- <-]. by right.
Qed.

(** Sequencing: the first part throws, or the rest runs from its state. *)
Lemma bind_cases {S A B} (m : meth S A) (f : A → meth S B) (s s' : S) (x : res B) :
  (m ≫= f) s = (s', x) →
  (∃ e, m s = (s', Throw e) ∧ x = Throw e) ∨ ∃ a s1, m s = (s1, Ok a) ∧ f a s1 = (s', x).
Proof.
  rewrite meth_bind_run. destruct (m s) as [s1 [a|e]]; intros H; [right; eauto|].
  injection H as <- <-. left. eauto.
Qed.

Lemma lift_cases {S A} (r : res A) (s s' : S) (x : res A) : m_lift r s = (s', x) → s' = s ∧ x = r.
Proof. by intros [= <- <-]. Qed.

Lemma ret_cases {S A} (a : A) (s s' : S) (x : res A) : mret (M := meth S) a s = (s', x) → s' = s ∧ x = Ok a.
Proof. by intros [= <- <-]. Qed.

(** Running a check that only reads: the state stays. *)
Ltac check_step H :=
  apply bind_cases in H as [(? & H & ->)|(? & ? & ? & H)];
  [first [apply lift_cases in H as [-> ?] | idtac]; left; split; [done|intros ? [=]] |];
  match goal with
  | E : m_lift _ _ = _ |- _ => apply lift_cases in E as [-> E]
  | E : m_throw_if _ _ _ = _ |- _ => apply lift_cases in E as [-> E]
  end.

Lemma writable_cases {B} (height round : Z) (value : string) (f : unit → meth disk B) (d d' : disk) (x : res B) :
  (mem (assertV6Writable height round value) ≫= f) d = (d', x) →
  (d' = d ∧ ∃ e, x = Throw e) ∨ writable d.1 height round value ∧ f () d = (d', x).
Proof.
  rewrite meth_bind_run, mem_run.
  destruct (assertV6Writable_run height round value d.1) as (r & -> & Hw). destruct d as [j file]. cbn [fst snd].
  destruct r as [[]|e]; intros H; [right; eauto|]. injection H as <- <-. left. eauto.
Qed.

(** The outcome of a reservation of [rows] for a slot: [held] is that the slot
    holds the value already, [allowed] that the checks of a new one passed. *)
Definition outcome (held allowed : Prop) (rows : list V6JournalRow) (io : Io) (d d' : disk) (x : res unit) : Prop :=
  (d' = d ∧ ∀ u, x = Ok u → held) ∨ (allowed ∧ appended rows io d d' x).

Lemma reserve_new_cases (existing : option string) (value : string) (fresh : meth disk unit) (d d' : disk) (x : res unit)
    (held allowed : Prop) (rows : list V6JournalRow) (io : Io) :
  reserve_new existing value fresh d = (d', x) →
  (existing = Some value → held) →
  (existing = None → fresh d = (d', x) → outcome held allowed rows io d d' x) →
  outcome held allowed rows io d d' x.
Proof.
  unfold reserve_new. destruct existing as [e|]; intros H Hh Hf; [|by apply Hf].
  destruct (String.eqb_spec e value) as [->|].
  - injection H as <- <-. left. auto.
  - injection H as <- <-. left. split; [done|]. discriminate.
Qed.

Lemma round_open_cases (state : option V6HeightJournal) (round : Z) (u : unit) :
  assertV6RoundOpen state round = Ok u → 0 ≤ round → round_open (default emptyHeight state) round.
Proof.
  unfold assertV6RoundOpen, round_open. destruct state as [s|]; intros H Hr; cbn; [|lia].
  res_split. breflect. lia.
Qed.

Lemma row_of_free (j : SigningJournal) (height round : Z) (step : V6JournalStep) :
  row_of (sj_v6Heights j !! height) round step = None → slot_free (height_state j height) round step.
Proof.
  unfold row_of, slot_free, height_state. destruct (sj_v6Heights j !! height); cbn; [done|]. intros _. apply lookup_empty.
Qed.

Lemma row_of_held (j : SigningJournal) (height round : Z) (step : V6JournalStep) (v : string) :
  row_of (sj_v6Heights j !! height) round step = Some v → hj_rows (height_state j height) !! (round, step_text step) = Some v.
Proof. unfold row_of, height_state. by destruct (sj_v6Heights j !! height). Qed.

Definition slot_held (j : SigningJournal) (height round : Z) (step : V6JournalStep) (value : string) : Prop :=
  writable j height round value ∧ hj_rows (height_state j height) !! (round, step_text step) = Some value.

Definition reserve_allowed (j : SigningJournal) (height round : Z) (step : V6JournalStep) (value : string) : Prop :=
  writable j height round value ∧ slot_free (height_state j height) round step ∧
  (step ≠ StepTimeout → round_open (height_state j height) round).

Lemma reserveV6_outcome (height round : Z) (step : V6JournalStep) (value : string) (io : Io) (d d' : disk) (x : res unit) :
  reserveV6 height round step value io d = (d', x) →
  outcome (slot_held d.1 height round step value) (reserve_allowed d.1 height round step value)
    [mkRow height round step value] io d d' x.
Proof.
  unfold reserveV6. intros H. apply writable_cases in H as [[-> [e ->]]|[Hw H]]; [left; split; [done|discriminate]|].
  rewrite meth_bind_run, v6HeightState_read in H.
  eapply reserve_new_cases; [exact H|intros E; by split; [|apply row_of_held]|clear H; intros Hfree H].
  assert (∀ u, (if decide (step = StepTimeout) then mret () else m_lift (assertV6RoundOpen (sj_v6Heights d.1 !! height) round)) d
    = (d, Ok u) → step ≠ StepTimeout → round_open (height_state d.1 height) round) as Hopen.
  { intros u. case_decide; [done|]. intros E _. apply lift_cases in E as [_ E].
    eapply round_open_cases; [by symmetry|]. apply Hw. }
  apply bind_cases in H as [(e & H & ->)|([] & d1 & H1 & H)].
  { left. split; [|discriminate]. case_decide; [done|]. by apply lift_cases in H as [-> _]. }
  assert (d1 = d) as -> by (case_decide; [by injection H1|by apply lift_cases in H1 as [-> _]]).
  apply appendV6_run in H as [[-> [e ->]]|Ha]; [left; split; [done|discriminate]|].
  right. split; [|done]. split_and!; [done|by apply row_of_free|eauto].
Qed.

Definition prepare_allowed (j : SigningJournal) (height round : Z) (hash : string) (justifyRound : Z) : Prop :=
  writable j height round hash ∧ slot_free (height_state j height) round StepPrepare ∧
  round_open (height_state j height) round ∧ -1 ≤ justifyRound < round ∧
  safeVote (hj_lock (height_state j height)) hash justifyRound = true.

Lemma lock_default (j : SigningJournal) (height : Z) : sj_v6Heights j !! height ≫= hj_lock = hj_lock (height_state j height).
Proof. unfold height_state. by destruct (sj_v6Heights j !! height). Qed.

Lemma reserveV6Prepare_outcome (height round : Z) (hash : string) (justifyRound : Z) (io : Io) (d d' : disk) (x : res unit) :
  reserveV6Prepare height round hash justifyRound io d = (d', x) →
  outcome (slot_held d.1 height round StepPrepare hash) (prepare_allowed d.1 height round hash justifyRound)
    [mkRow height round StepPrepare hash] io d d' x.
Proof.
  unfold reserveV6Prepare. intros H. apply writable_cases in H as [[-> [e ->]]|[Hw H]]; [left; split; [done|discriminate]|].
  check_step H. rewrite meth_bind_run, v6HeightState_read in H.
  eapply reserve_new_cases; [exact H|intros E; by split; [|apply row_of_held]|clear H; intros Hfree H].
  check_step H. check_step H.
  apply appendV6_run in H as [[-> [e ->]]|Ha]; [left; split; [done|discriminate]|].
  right. split; [|done].
  repeat match goal with E : Ok ?u = throw_if _ _ |- _ => symmetry in E; apply throw_if_Ok in E end. breflect.
  split_and!; [done|by apply row_of_free|eapply round_open_cases; [by symmetry|apply Hw]|lia..|by rewrite <-lock_default].
Qed.

Definition commit_allowed (j : SigningJournal) (height round : Z) (hash : string) : Prop :=
  writable j height round hash ∧ slot_free (height_state j height) round StepCommit ∧
  lock_allowed (height_state j height) round hash.

Lemma reserveV6Commit_outcome (height round : Z) (hash : string) (io : Io) (d d' : disk) (x : res unit) :
  reserveV6Commit height round hash io d = (d', x) →
  outcome (slot_held d.1 height round StepCommit hash) (commit_allowed d.1 height round hash)
    [mkRow height round StepLock hash; mkRow height round StepCommit hash] io d d' x.
Proof.
  unfold reserveV6Commit. intros H. apply writable_cases in H as [[-> [e ->]]|[Hw H]]; [left; split; [done|discriminate]|].
  rewrite meth_bind_run, v6HeightState_read in H.
  eapply reserve_new_cases; [exact H|intros E; by split; [|apply row_of_held]|clear H; intros Hfree H].
  check_step H. check_step H. check_step H.
  apply appendV6_run in H as [[-> [e ->]]|Ha]; [left; split; [done|discriminate]|].
  right. split; [|done]. rewrite lock_default in *.
  repeat match goal with E : Ok ?u = throw_if _ _ |- _ => symmetry in E; apply throw_if_Ok in E end.
  match goal with E : Ok _ = assertV6RoundOpen _ _ |- _ => symmetry in E; apply round_open_cases in E as [? ?]; [|apply Hw] end.
  split_and!; [done|by apply row_of_free|]. fold (height_state d.1 height) in *. split_and!; try done.
  - intros q Hq. match goal with E : context [row_of _ _ StepPrepare] |- _ => rename E into Hp end.
    destruct (row_of (sj_v6Heights d.1 !! height) round StepPrepare) as [q'|] eqn:E.
    + apply row_of_held in E. change (step_text StepPrepare) with "prepare" in E. rewrite Hq in E. injection E as <-.
      by apply negb_false_iff, String.eqb_eq in Hp.
    + apply row_of_free in E. unfold slot_free in E. change (step_text StepPrepare) with "prepare" in E. congruence.
  - intros l Hl. rewrite Hl in *. breflect. destruct (Z.eq_dec (lk_round l) round); [right|left]; [|lia]. split; [done|].
    naive_solver lia.
Qed.

(** ** The effect of rows on what later checks read *)

Lemma height_state_effect (j : SigningJournal) (row : V6JournalRow) (h : Z) :
  height_state (row_effect j row) h =
    if decide (h = jr_height row) then apply_height row (height_state j h) else height_state j h.
Proof.
  unfold height_state, row_effect, push_v6Row, set_v6Heights, add_row; cbn. case_decide as E.
  - subst. by rewrite lookup_insert_eq.
  - by rewrite lookup_insert_ne.
Qed.

Lemma replay_app (l k : list json) (p : option V6JournalRow) (j : SigningJournal) :
  replay_lines (l ++ k) p j =
    match replay_lines l p j with (j', Ok p') => replay_lines k p' j' | (j', Throw e) => (j', Throw e) end.
Proof.
  revert p j. induction l as [|line l IH]; intros p j; [done|]. cbn [app replay_lines].
  rewrite !meth_bind_run. destruct (replay_line p line j) as [j1 [p1|e]]; [by rewrite IH|done].
Qed.

(** A lone trailing lock that opening completes. *)
Definition completes (j : SigningJournal) (lock : V6JournalRow) : Prop :=
  row_valid lock ∧ jr_height lock ∉ sj_legacyHeights j ∧
  hj_maxTimeoutRound (height_state j (jr_height lock)) < jr_round lock ∧
  hj_maxVoteRound (height_state j (jr_height lock)) ≤ jr_round lock ∧
  (∀ q, hj_rows (height_state j (jr_height lock)) !! (jr_round lock, "prepare") = Some q → q = jr_value lock) ∧
  slot_free (height_state j (jr_height lock)) (jr_round lock) StepCommit ∧
  hj_lock (height_state j (jr_height lock)) = Some (mkLock (jr_round lock) (jr_value lock)).

Definition healthy (j : SigningJournal) : Prop := sj_closed j = false ∧ sj_persistenceFaulted j = false.

Lemma append_lines_run (lines : list json) (io : Io) (d : disk) :
  append_lines lines io d =
    match io with
    | IoOk => ((d.1, d.2 ++ lines), Ok ())
    | IoFail k => ((set_faulted d.1, d.2 ++ take k lines), Throw PERSISTENCE_FAILED)
    end.
Proof. unfold append_lines. destruct io; [done|]. by rewrite meth_bind_run. Qed.

Lemma replay_legacy (height : Z) (j : SigningJournal) :
  1 ≤ height ≤ MAX_SAFE_INTEGER → sj_v6Heights j !! height = None →
  replay_line None (legacy_json height) j = (add_legacyHeight height (add_legacyMark height j), Ok None).
Proof.
  intros Hh Hn. unfold replay_line, legacy_json. rewrite bool_decide_eq_false_2 by done.
  rewrite meth_bind_run, run_throw_false by done. rewrite meth_bind_run. cbn [m_lift].
  change (get _ "kind") with (JStr "legacy" : json). cbn [as_text String.eqb Ascii.eqb Bool.eqb].
  rewrite meth_bind_run, run_throw_false by done. rewrite meth_bind_run. cbn [m_lift].
  assert (safe_int (get [("height", jint height); ("kind", JStr "legacy")] "height") (λ z, z <? 1) "Corrupt signing journal entry"
    = Ok height) as ->.
  { apply safe_int_Ok. split_and!; [done|apply isSafeInteger_spec; lia|lia]. }
  rewrite meth_bind_run. cbn [m_get]. rewrite meth_bind_run, run_throw_false by (rewrite Hn; done). done.
Qed.

(** The two kinds of a legacy reservation. *)
Inductive ChoiceKind := Attest | Skip.
Definition choice_text (k : ChoiceKind) : string := match k with Attest => "attest" | Skip => "skip" end.

Lemma replay_choice (height round : Z) (kind : ChoiceKind) (value : string) (j : SigningJournal) :
  1 ≤ height ≤ MAX_SAFE_INTEGER → 0 ≤ round ≤ MAX_SAFE_INTEGER → isHash value = true →
  sj_reservations j !! (height, round) = None → sj_v6Heights j !! height = None →
  replay_line None (reservation_json height round (choice_text kind) value) j =
    (add_legacyHeight height (set_reservation height round (choice_text kind +:+ ":" +:+ value) j), Ok None).
Proof.
  intros Hh Hr Hv Hres Hn. unfold replay_line, reservation_json. rewrite bool_decide_eq_false_2 by done.
  rewrite meth_bind_run, run_throw_false by done. rewrite meth_bind_run. cbn [m_lift].
  change (get _ "kind") with (JStr (choice_text kind) : json). cbn [as_text].
  replace (String.eqb (choice_text kind) "legacy") with false by (by destruct kind).
  rewrite meth_bind_run. cbn [m_lift].
  assert (∀ z n, 0 ≤ z ≤ MAX_SAFE_INTEGER → get [("height", jint height); ("round", jint round); ("kind", JStr (choice_text kind));
    ("value", JStr value)] n = jint z → safe_int (get [("height", jint height); ("round", jint round); ("kind", JStr (choice_text kind));
    ("value", JStr value)] n) (λ _, false) "Corrupt signing journal entry" = Ok z) as Hint.
  { intros z n Hz ->. apply safe_int_Ok. split_and!; [done|apply isSafeInteger_spec; lia|done]. }
  rewrite (Hint height "height") by (try done; lia). rewrite meth_bind_run. cbn [m_lift].
  rewrite (Hint round "round") by (try done; lia). rewrite meth_bind_run, run_throw_false by (by destruct kind).
  rewrite meth_bind_run. cbn [m_lift]. change (get _ "value") with (JStr value : json). cbn [as_text].
  rewrite meth_bind_run, run_throw_false by (by rewrite Hv). rewrite meth_bind_run. cbn [m_get].
  rewrite meth_bind_run, run_throw_false by (by rewrite Hres).
  rewrite meth_bind_run, run_throw_false by (rewrite Hn; done). done.
Qed.
