(* ===== verification/Compaction.v ===== *)
(** Compaction of the signing journal (l1/src/storage.ts, [compactThrough]): the
    rows above the compacted height, written to a new file, replay to the object in
    memory less the heights at or below it. *)

From S2P Require Import Prelude Types Codec Crypto Activity Transaction TxShape Block ConsensusV6 Journal JournalReplay.

(** ** The rows of a journal as a run *)

Definition row_fits (state : V6HeightJournal) (row : V6JournalRow) : Prop :=
  if decide (jr_step row = StepLock) then lock_allowed state (jr_round row) (jr_value row)
  else slot_free state (jr_round row) (jr_step row).
Definition pending_after (row : V6JournalRow) : option V6JournalRow := if decide (jr_step row = StepLock) then Some row else None.

(** The rows fit one after the other, from the heights [m] with the lock [p] pending
    to the pending lock [p']. *)
Fixpoint rows_run (m : gmap Z V6HeightJournal) (p : option V6JournalRow) (rows : list V6JournalRow) (p' : option V6JournalRow) : Prop :=
  match rows with
  | [] => p' = p
  | row :: rest =>
    row_valid row ∧ pairs_with p row ∧ row_fits (default emptyHeight (m !! jr_height row)) row ∧
    rows_run (add_row m row) (pending_after row) rest p'
  end.

Lemma rows_run_snoc (m : gmap Z V6HeightJournal) (p p1 : option V6JournalRow) (rows : list V6JournalRow) (row : V6JournalRow) :
  rows_run m p rows p1 → row_valid row → pairs_with p1 row →
  row_fits (default emptyHeight (fold_left add_row rows m !! jr_height row)) row → rows_run m p (rows ++ [row]) (pending_after row).
Proof.
  revert m p. induction rows as [|r rows IH]; intros m p; cbn [rows_run app fold_left].
  - intros -> Hv Hp Hf. by split_and!.
  - intros (H1 & H2 & H3 & H4) Hv Hp Hf. split_and!; try done. by apply IH.
Qed.

Definition above (finalizedHeight : Z) (p : option V6JournalRow) : option V6JournalRow :=
  p ≫= λ l, if decide (finalizedHeight < jr_height l) then Some l else None.

Lemma above_after (F : Z) (row : V6JournalRow) :
  F < jr_height row → above F (pending_after row) = pending_after row.
Proof. intros Hk. unfold above, pending_after. case_decide; [|done]. cbn. by rewrite decide_True. Qed.
Lemma below_after (F : Z) (row : V6JournalRow) : ¬ F < jr_height row → above F (pending_after row) = None.
Proof. intros Hk. unfold above, pending_after. case_decide; [|done]. cbn. by rewrite decide_False. Qed.

(** Dropping the heights at or below [F] keeps a run a run. *)
Lemma rows_run_above (F : Z) (m m' : gmap Z V6HeightJournal) (p p' : option V6JournalRow) (rows : list V6JournalRow) :
  (∀ h, F < h → m' !! h = m !! h) → rows_run m p rows p' →
  rows_run m' (above F p) (filter (λ row, F < jr_height row) rows) (above F p').
Proof.
  revert m m' p. induction rows as [|row rows IH]; intros m m' p Hm; cbn [rows_run].
  - by intros ->.
  - intros (Hv & Hp & Hf & Hr). rewrite filter_cons. case_decide as Hk.
    + cbn [rows_run]. split_and!; [done| |by rewrite Hm|].
      * destruct p as [l|]; [|done]. cbn. by case_decide.
      * rewrite <-(above_after F row Hk). apply (IH (add_row m row)); [|done]. intros h Hh. unfold add_row.
        destruct (decide (h = jr_height row)) as [->|]; [by rewrite !lookup_insert_eq, Hm|]. rewrite !lookup_insert_ne by done. by apply Hm.
    + assert (above F p = None) as ->.
      { destruct p as [l|]; [|done]. cbn. destruct Hp as (_ & E & _). by rewrite <-E, decide_False. }
      rewrite <-(below_after F row Hk). apply (IH (add_row m row)); [|done]. intros h Hh. unfold add_row.
      rewrite lookup_insert_ne by lia. by apply Hm.
Qed.

Lemma heights_above (F : Z) (rows : list V6JournalRow) (m : gmap Z V6HeightJournal) :
  fold_left add_row (filter (λ row, F < jr_height row) rows) (filter (λ e, F < e.1) m) = filter (λ e, F < e.1) (fold_left add_row rows m).
Proof.
  revert m. induction rows as [|row rows IH]; intros m; [done|]. cbn [fold_left]. rewrite filter_cons, <-IH. unfold add_row.
  case_decide as Hk; cbn [fold_left]; f_equal.
  - unfold add_row. rewrite map_filter_insert_True by done. do 3 f_equal.
    destruct (m !! jr_height row) as [s|] eqn:E; [by rewrite (map_lookup_filter_Some_2 _ _ _ s)|].
    assert (filter (λ e, F < e.1) m !! jr_height row = None) as -> by (apply map_lookup_filter_None; by left). done.
  - by rewrite map_filter_insert_not by (intros ?; done).
Qed.

(** ** Replaying the lines of a journal *)

Lemma row_effects_are (rows : list V6JournalRow) (j : SigningJournal) :
  fold_left row_effect rows j = mkSigningJournal (sj_reservations j) (sj_legacyHeights j) (sj_legacyMarks j)
    (fold_left add_row rows (sj_v6Heights j)) (sj_v6Rows j ++ rows) (sj_persistenceFaulted j) (sj_closed j).
Proof.
  revert j. induction rows as [|row rows IH]; intros j; cbn [fold_left].
  - rewrite app_nil_r. by destruct j.
  - rewrite IH. cbn. by rewrite <-app_assoc.
Qed.

Lemma replay_run (rows : list V6JournalRow) (p p' : option V6JournalRow) (j : SigningJournal) :
  rows_run (sj_v6Heights j) p rows p' → Forall (λ row, jr_height row ∉ sj_legacyHeights j) rows →
  replay_lines (map row_json rows) p j = (fold_left row_effect rows j, Ok p').
Proof.
  revert p j. induction rows as [|row rows IH]; intros p j; cbn [rows_run map replay_lines fold_left].
  - by intros ->.
  - intros (Hv & Hp & Hf & Hr) [Hl Hall]%Forall_cons. rewrite meth_bind_run.
    assert (replay_line p (row_json row) j = (row_effect j row, Ok (pending_after row))) as ->; [|by apply IH].
    unfold row_fits, pending_after in *. case_decide as Es.
    + assert (p = None) as -> by (destruct p as [l|]; [destruct Hp; congruence|done]). by apply replay_lock.
    + by apply replay_plain.
Qed.

(** What a legacy reservation holds. *)
Definition valid_reservation (e : Z * Z * string) : Prop :=
  1 ≤ e.1.1 ≤ MAX_SAFE_INTEGER ∧ 0 ≤ e.1.2 ≤ MAX_SAFE_INTEGER ∧
  ∃ kind value, isHash value = true ∧ e.2 = choice_text kind +:+ ":" +:+ value.

Lemma substring_all (s : string) : String.substring 0 (String.length s) s = s.
Proof. induction s as [|c s IH]; [done|]. cbn. by rewrite IH. Qed.
Lemma split_choice (kind : ChoiceKind) (value : string) : split_reservation (choice_text kind +:+ ":" +:+ value) = (choice_text kind, value).
Proof.
  unfold split_reservation. assert (String.index 0 ":" (choice_text kind +:+ ":" +:+ value) = Some (String.length (choice_text kind))) as ->.
  { destruct kind; cbn; (destruct value; reflexivity). }
  f_equal; [by destruct kind, value|].
  destruct kind; change (String.substring 0 (String.length value - 0) value = value); by rewrite Nat.sub_0_r, substring_all.
Qed.

Lemma reservation_sound (e : Z * Z * string) : valid_reservation e → corrupt_reservation e = false.
Proof.
  destruct e as [[h r] t]. intros (Hh & Hr & kind & value & Hv & E). cbn in *. subst t. unfold corrupt_reservation. cbn [fst snd].
  rewrite split_choice. rewrite Hv, (proj2 (isSafeInteger_spec h)), (proj2 (isSafeInteger_spec r)) by lia.
  cbn [negb orb]. rewrite (proj2 (Z.ltb_ge h 1)), (proj2 (Z.ltb_ge r 0)) by lia. by destruct kind.
Qed.

Definition reserve_effect (j : SigningJournal) (e : Z * Z * string) : SigningJournal :=
  add_legacyHeight e.1.1 (set_reservation e.1.1 e.1.2 e.2 j).
Definition mark_effect (j : SigningJournal) (h : Z) : SigningJournal := add_legacyHeight h (add_legacyMark h j).

Lemma replay_reservations (l : list (Z * Z * string)) (j : SigningJournal) :
  Forall valid_reservation l → NoDup l.*1 → Forall (λ e, sj_reservations j !! e.1 = None) l → sj_v6Heights j = ∅ →
  replay_lines (map reservation_line l) None j = (fold_left reserve_effect l j, Ok None).
Proof.
  revert j. induction l as [|[[h r] t] l IH]; intros j Hv Hnd Hnew He; [done|].
  apply Forall_cons in Hv as [(Hh & Hr & kind & value & Hval & Et) Hv]. apply NoDup_cons in Hnd as [Hn Hnd]. apply Forall_cons in Hnew as [Hnew1 Hnew].
  cbn [fst snd] in *. subst t. cbn [map replay_lines fold_left]. 
  assert (reservation_line (h, r, choice_text kind +:+ ":" +:+ value) = reservation_json h r (choice_text kind) value) as ->
    by (unfold reservation_line; cbn [fst snd]; by rewrite split_choice).
  rewrite meth_bind_run, replay_choice; [|done|done|done|exact Hnew1|by rewrite He].
  unfold reserve_effect at 2. cbn [fst snd]. apply IH; [done|done| |done].
  apply Forall_forall. intros e Hin. cbn. rewrite lookup_insert_ne; [rewrite Forall_forall in Hnew; by apply Hnew|].
  intros E. apply Hn. rewrite E. by apply list_elem_of_fmap_2.
Qed.

Lemma reserve_effects_are (l : list (Z * Z * string)) (j : SigningJournal) :
  NoDup l.*1 → fold_left reserve_effect l j =
    mkSigningJournal (list_to_map l ∪ sj_reservations j) (list_to_set (fst <$> l.*1) ∪ sj_legacyHeights j) (sj_legacyMarks j) (sj_v6Heights j)
      (sj_v6Rows j) (sj_persistenceFaulted j) (sj_closed j).
Proof.
  revert j. induction l as [|[[h r] t] l IH]; intros j Hnd.
  - cbn. rewrite !(left_id_L ∅ (∪)). by destruct j.
  - apply NoDup_cons in Hnd as [Hn Hnd]. cbn [fold_left]. rewrite IH by done. unfold reserve_effect. cbn. f_equal.
    + rewrite <-insert_union_l, insert_union_r; [done|]. by apply not_elem_of_list_to_map_1.
    + set_solver.
Qed.

Lemma replay_marks (l : list Z) (j : SigningJournal) :
  Forall (λ h, 1 ≤ h ≤ MAX_SAFE_INTEGER) l → sj_v6Heights j = ∅ →
  replay_lines (map legacy_json l) None j = (fold_left mark_effect l j, Ok None).
Proof.
  revert j. induction l as [|h l IH]; intros j Hv He; [done|]. apply Forall_cons in Hv as [Hh Hv].
  cbn [map replay_lines fold_left]. rewrite meth_bind_run, replay_legacy; [|done|by rewrite He]. by apply IH.
Qed.

Lemma mark_effects_are (l : list Z) (j : SigningJournal) :
  fold_left mark_effect l j = mkSigningJournal (sj_reservations j) (list_to_set l ∪ sj_legacyHeights j) (list_to_set l ∪ sj_legacyMarks j)
    (sj_v6Heights j) (sj_v6Rows j) (sj_persistenceFaulted j) (sj_closed j).
Proof.
  revert j. induction l as [|h l IH]; intros j; cbn [fold_left].
  - cbn. rewrite !(left_id_L ∅ (∪)). by destruct j.
  - rewrite IH. cbn. f_equal; set_solver.
Qed.

(** ** Sound journals

    What every journal satisfies that came about by reservations, compactions and
    restarts. *)

Record sound (j : SigningJournal) (p : option V6JournalRow) : Prop := {
  so_rows : rows_run ∅ None (sj_v6Rows j) p;
  so_heights : sj_v6Heights j = fold_left add_row (sj_v6Rows j) ∅;
  so_legacy : ∀ h, h ∈ sj_legacyHeights j ↔ (∃ r, is_Some (sj_reservations j !! (h, r))) ∨ h ∈ sj_legacyMarks j;
  so_apart : ∀ row, row ∈ sj_v6Rows j → jr_height row ∉ sj_legacyHeights j;
  so_reservations : ∀ k t, sj_reservations j !! k = Some t → valid_reservation (k, t);
  so_marks : ∀ h, h ∈ sj_legacyMarks j → 1 ≤ h ≤ MAX_SAFE_INTEGER }.

Lemma sound_new : sound new_journal None.
Proof.
  split; cbn; try done; try set_solver.
  intros h. split; [set_solver|]. intros [[r [t Ht]]|Hm]; [|set_solver]. by rewrite lookup_empty in Ht.
Qed.

Lemma sound_row (j : SigningJournal) (p : option V6JournalRow) (row : V6JournalRow) :
  sound j p → row_valid row → pairs_with p row → row_fits (height_state j (jr_height row)) row → jr_height row ∉ sj_legacyHeights j →
  sound (row_effect j row) (pending_after row).
Proof.
  intros [Hr Hh Hl Ha Hres Hm] Hv Hp Hf Hn. split; cbn; try done.
  - eapply rows_run_snoc; [exact Hr|done|done|]. unfold height_state in Hf. by rewrite <-Hh.
  - by rewrite fold_left_app, <-Hh.
  - intros r. rewrite elem_of_app, list_elem_of_singleton. intros [?| ->]; auto.
Qed.

Lemma heights_of_rows (rows : list V6JournalRow) (m : gmap Z V6HeightJournal) (h : Z) :
  is_Some (fold_left add_row rows m !! h) ↔ is_Some (m !! h) ∨ ∃ row, row ∈ rows ∧ jr_height row = h.
Proof.
  revert m. induction rows as [|row rows IH]; intros m; cbn [fold_left].
  - split; [by left|]. intros [?|(row & Hrow & _)]; [done|by apply not_elem_of_nil in Hrow].
  - rewrite IH. unfold add_row. destruct (decide (h = jr_height row)) as [->|Hne].
    + rewrite lookup_insert_eq. split; [intros _; right; exists row; split; [by left|done]|intros _; left; by eexists].
    + rewrite lookup_insert_ne by done. setoid_rewrite elem_of_cons. naive_solver.
Qed.

Lemma sound_no_rows (j : SigningJournal) (p : option V6JournalRow) (h : Z) :
  sound j p → sj_v6Heights j !! h = None → ∀ row, row ∈ sj_v6Rows j → jr_height row ≠ h.
Proof.
  intros Hs Hn row Hin E. assert (is_Some (sj_v6Heights j !! h)) as [s Hss]; [|congruence].
  rewrite (so_heights _ _ Hs). apply heights_of_rows. right. by exists row.
Qed.

Lemma sound_reservation (j : SigningJournal) (e : Z * Z * string) :
  sound j None → valid_reservation e → sj_v6Heights j !! e.1.1 = None → sound (reserve_effect j e) None.
Proof.
  intros Hs Hv Hn. pose proof (sound_no_rows j None _ Hs Hn) as Hno. destruct e as [[h r] t]. cbn [fst snd] in *. destruct Hs as [Hr Hh Hl Ha Hres Hm].
  split; cbn; try done.
  - intros x. rewrite elem_of_union, elem_of_singleton, Hl. setoid_rewrite lookup_insert_is_Some. split.
    + intros [->|[[r' Hr']|?]]; [left; exists r; by left| |by right]. left. exists r'.
      destruct (decide ((h, r) = (x, r'))) as [E|E]; [by left|by right].
    + intros [[r' [E|[_ Hr']]]|?]; [left; by injection E|right; left; by exists r'|by right; right].
  - intros row Hin. rewrite not_elem_of_union, not_elem_of_singleton. split; [|by apply Ha]. by apply Hno.
  - intros k t'. intros [[<- <-]|[_ Hk]]%lookup_insert_Some; [done|by apply Hres].
Qed.

Lemma sound_mark (j : SigningJournal) (h : Z) :
  sound j None → 1 ≤ h ≤ MAX_SAFE_INTEGER → sj_v6Heights j !! h = None → sound (mark_effect j h) None.
Proof.
  intros Hs Hh Hn. pose proof (sound_no_rows j None _ Hs Hn) as Hno. destruct Hs as [Hr Hhe Hl Ha Hres Hm]. split; cbn; try done.
  - intros x. rewrite !elem_of_union, Hl. naive_solver.
  - intros row Hin. rewrite not_elem_of_union, not_elem_of_singleton. split; [|by apply Ha]. by apply Hno.
  - intros x. rewrite elem_of_union, elem_of_singleton. intros [->|?]; [done|by apply Hm].
Qed.

(** ** The compacted journal *)

Lemma above_set (F : Z) (X : gset Z) (h : Z) : h ∈ filter (λ h, F < h) X ↔ F < h ∧ h ∈ X.
Proof. by rewrite elem_of_filter. Qed.

Lemma sound_compacted (F : Z) (j : SigningJournal) : sound j None → sound (compacted F j) None.
Proof.
  intros [Hr Hh Hl Ha Hres Hm]. split; cbn [compacted sj_v6Rows sj_v6Heights sj_legacyHeights sj_legacyMarks sj_reservations].
  - apply (rows_run_above F ∅ ∅ None None (sj_v6Rows j)); [done|exact Hr].
  - pose proof (heights_above F (sj_v6Rows j) ∅) as E. rewrite map_filter_empty in E. by rewrite Hh, E.
  - intros h. rewrite !above_set, Hl. split.
    + intros [Hk [[r [t Ht]]|?]]; [left; exists r; exists t; by apply map_lookup_filter_Some_2|by right].
    + intros [[r [t Ht]]|[? ?]]; [|by split; [|right]]. apply map_lookup_filter_Some in Ht as [Ht Hk]. split; [done|]. left. exists r. by exists t.
  - intros row [_ Hin]%list_elem_of_filter. rewrite above_set. intros [_ Hx]. by apply (Ha row).
  - intros k t [Ht _]%map_lookup_filter_Some. by apply Hres.
  - intros h [_ Hx]%above_set. by apply Hm.
Qed.

(** The lines written from a sound journal replay to that journal. *)
Lemma replay_written (j : SigningJournal) :
  sound j None → sj_persistenceFaulted j = false → sj_closed j = false → replay_lines (journal_lines j) None new_journal = (j, Ok None).
Proof.
  intros [Hr Hh Hl Ha Hres Hm] Hf Hc. unfold journal_lines. set (l := retained j). set (ms := js_sort Z.leb _).
  assert (l ≡ₚ map_to_list (sj_reservations j)) as Hp by apply js_sort_perm.
  assert (∀ h, h ∈ ms ↔ h ∈ sj_legacyMarks j) as Hms by (intros h; unfold ms; rewrite (js_sort_perm Z.leb); apply elem_of_elements).
  assert (NoDup l.*1) as Hnd by (rewrite Hp; apply NoDup_fst_map_to_list).
  assert (list_to_map l = sj_reservations j) as Hmap by (rewrite (list_to_map_proper l _ Hnd Hp); apply list_to_map_to_list).
  rewrite replay_app, replay_reservations; [|..|done].
  2: { apply Forall_forall. intros [k t] Hin. apply Hres. rewrite Hp in Hin. by apply elem_of_map_to_list in Hin. }
  2: done. 2: { apply Forall_forall. intros e _. apply lookup_empty. }
  rewrite reserve_effects_are by done. rewrite replay_app, replay_marks; [|apply Forall_forall; intros h Hin; by apply Hm, Hms|done].
  rewrite mark_effects_are. cbn [sj_reservations sj_legacyHeights sj_legacyMarks sj_v6Heights sj_v6Rows sj_persistenceFaulted sj_closed new_journal].
  rewrite !(right_id_L ∅ (∪)), Hmap.
  assert (list_to_set ms = sj_legacyMarks j) as Hmarks by (apply set_eq; intros h; by rewrite elem_of_list_to_set).
  assert (list_to_set ms ∪ list_to_set (fst <$> l.*1) = sj_legacyHeights j) as Hlegacy.
  { apply set_eq. intros h. rewrite elem_of_union, Hmarks, Hl, elem_of_list_to_set. rewrite list_elem_of_fmap. split.
    - intros [?|([h' r] & -> & ([k t] & E & Hin)%list_elem_of_fmap)]; [by right|]. left. exists r. cbn in E |- *. subst k. exists t.
      rewrite Hp in Hin. by apply elem_of_map_to_list in Hin.
    - intros [[r [t Ht]]|?]; [right|by left]. exists (h, r). split; [done|]. apply list_elem_of_fmap. exists (h, r, t). split; [done|].
      rewrite Hp. by apply elem_of_map_to_list. }
  rewrite Hlegacy, Hmarks. rewrite (replay_run (sj_v6Rows j) None None); [|exact Hr|].
  - rewrite row_effects_are. cbn [sj_reservations sj_legacyHeights sj_legacyMarks sj_v6Heights sj_v6Rows sj_persistenceFaulted sj_closed].
    rewrite <-Hh. clear -Hf Hc. destruct j. cbn in *. by subst.
  - apply Forall_forall. intros row Hin. by apply Ha.
Qed.

(** When nothing is to be removed the compacted journal is the journal. *)
Lemma filter_all_length {A} (P : A → Prop) `{∀ x, Decision (P x)} (l : list A) : length l = length (filter P l) → filter P l = l.
Proof.
  induction l as [|x l IH]; [done|]. rewrite filter_cons. pose proof (length_filter P l). case_decide; cbn [length]; [|lia]. intros [= E]. by rewrite IH.
Qed.

Lemma compacted_nothing (F : Z) (j : SigningJournal) : sound j None → removed_count F j = 0 → compacted F j = j.
Proof.
  intros Hs E. pose proof (sound_compacted F j Hs) as Hk. unfold removed_count in E. cbn [compacted sj_reservations sj_v6Rows sj_legacyMarks] in E.
  pose proof (map_filter_subseteq (λ e : Z * Z * string, F < e.1.1) (sj_reservations j)) as S1. pose proof (map_subseteq_size _ _ S1) as L1.
  pose proof (length_filter (λ row, F < jr_height row) (sj_v6Rows j)) as L2. unfold zlen in E.
  assert (filter (λ h, F < h) (sj_legacyMarks j) ⊆ sj_legacyMarks j) as S3 by (intros h; rewrite above_set; tauto). pose proof (subseteq_size _ _ S3) as L3.
  assert (filter (λ e, F < e.1.1) (sj_reservations j) = sj_reservations j) as E1 by (apply map_subseteq_size_eq; [done|lia]).
  assert (filter (λ row, F < jr_height row) (sj_v6Rows j) = sj_v6Rows j) as E2 by (apply filter_all_length; lia).
  assert (filter (λ h, F < h) (sj_legacyMarks j) = sj_legacyMarks j) as E3 by (apply leibniz_equiv, set_subseteq_size_equiv; [done|lia]).
  assert (filter (λ h, F < h) (sj_legacyHeights j) = sj_legacyHeights j) as E4.
  { apply set_eq. intros h. pose proof (so_legacy _ _ Hk h) as K. cbn [compacted sj_reservations sj_legacyHeights sj_legacyMarks] in K.
    by rewrite K, E1, E3, (so_legacy _ _ Hs h). }
  assert (filter (λ e, F < e.1) (sj_v6Heights j) = sj_v6Heights j) as E5.
  { pose proof (so_heights _ _ Hk) as K. cbn [compacted sj_v6Heights sj_v6Rows] in K. by rewrite K, E2, <-(so_heights _ _ Hs). }
  unfold compacted. rewrite E1, E2, E3, E4, E5. by destruct j.
Qed.

(** ** Running [compactThrough] *)

(** The outcomes of a compaction. *)
Inductive compaction (F : Z) (d : SigningJournal * list json) : SigningJournal * list json → res Z → Prop :=
| compaction_refused e : compaction F d d (Throw e)
| compaction_done : healthy d.1 → compaction F d (compacted F d.1, journal_lines (compacted F d.1)) (Ok (removed_count F d.1))
| compaction_nothing : healthy d.1 → removed_count F d.1 = 0 → compaction F d d (Ok 0)
| compaction_old e : healthy d.1 → compaction F d (set_faulted d.1, d.2) (Throw e)
| compaction_new e : healthy d.1 → compaction F d (set_faulted d.1, journal_lines (compacted F d.1)) (Throw e).

Lemma compactThrough_cases (F : Z) (io : CompactIo) (d d' : SigningJournal * list json) (x : res Z) :
  compactThrough F io d = (d', x) → compaction F d d' x.
Proof.
  unfold compactThrough. rewrite meth_bind_run, mem_run. cbn [m_get fst snd]. destruct d as [j file]. cbn [fst snd]. rewrite meth_bind_run.
  unfold m_throw_if, m_lift. destruct (sj_closed j) eqn:E1; cbn [throw_if]; [intros [= <- <-]; constructor|]. rewrite meth_bind_run.
  destruct (sj_persistenceFaulted j) eqn:E2; cbn [throw_if]; [intros [= <- <-]; constructor|]. rewrite meth_bind_run.
  destruct (negb (isSafeInteger F) || (F <? 0)); cbn [throw_if]; [intros [= <- <-]; constructor|].
  assert (healthy j) as Hh by done.
  destruct (existsb corrupt_reservation _); [rewrite meth_bind_run, mem_run; cbn; intros [= <- <-]; by apply (compaction_old F (j, file))|]. cbv zeta.
  destruct (Z.eqb_spec (removed_count F j) 0) as [E3|E3]; [intros [= <- <-]; by apply (compaction_nothing F (j, file))|].
  destruct (existsb _ _); [rewrite meth_bind_run, mem_run; cbn; intros [= <- <-]; by apply (compaction_old F (j, file))|].
  destruct io; rewrite ?meth_bind_run, ?mem_run; cbn [m_modify fst snd]; rewrite ?meth_bind_run, ?mem_run; cbn [m_modify fst snd]; intros [= <- <-].
  - by apply (compaction_done F (j, file)).
  - by apply (compaction_old F (j, file)).
  - by apply (compaction_new F (j, file)).
Qed.
