(* ===== verification/Recovery.v ===== *)
(** Crash recovery of the signing journal: reopening the file after any sequence
    of reservations, failed appends, compactions and restarts succeeds, and restores
    exactly the reservations that were made above the compacted height. *)

From S2P Require Import Prelude Types Codec Crypto Activity Transaction TxShape Block ConsensusV6 Journal JournalReplay Compaction.

(** ** Operations and reachable journals *)

(** The steps [reserveV6] is called with. *)
Inductive ReservedStep := ReserveBlockProposal | ReserveProposal | ReserveTimeout.
Definition reserved_step (s : ReservedStep) : V6JournalStep :=
  match s with ReserveBlockProposal => StepBlockProposal | ReserveProposal => StepProposal | ReserveTimeout => StepTimeout end.

Inductive journal_op :=
| OpReserve (height round : Z) (step : ReservedStep) (value : string)
| OpPrepare (height round : Z) (hash : string) (justifyRound : Z)
| OpCommit (height round : Z) (hash : string)
| OpLegacyHeight (height : Z)
| OpChoice (height round : Z) (kind : ChoiceKind) (value : string).

Definition run_op (op : journal_op) (io : Io) : meth disk unit :=
  match op with
  | OpReserve height round step value => reserveV6 height round (reserved_step step) value io
  | OpPrepare height round hash justifyRound => reserveV6Prepare height round hash justifyRound io
  | OpCommit height round hash => reserveV6Commit height round hash io
  | OpLegacyHeight height => reserveLegacyHeight height io
  | OpChoice height round Attest value => reserveAttestation height round value io
  | OpChoice height round Skip value => reserveSkip height round value io
  end.

(** The life of a journal beside the durably finalized height of its node
    ([ChainStore.commitFinalizedBlock]): operations, with any outcome; finalized
    blocks, which never take the height back; compactions through that height, as
    [acceptFinalizedBlock] asks for them; and restarts at any point.  When opening
    fails there is no usable object. *)
Inductive journal_step : disk * Z → disk * Z → Prop :=
| step_op d F op io : journal_step (d, F) ((run_op op io d).1, F)
| step_finalize d F F' : F ≤ F' → journal_step (d, F) (d, F')
| step_compact d F io : journal_step (d, F) ((compactThrough F io d).1, F)
| step_restart d F io file j : open_journal d.2 io = (file, Ok j) → journal_step (d, F) ((j, file), F)
| step_failed_restart d F io file e : open_journal d.2 io = (file, Throw e) → journal_step (d, F) ((set_faulted d.1, file), F).
Definition reachable (d : disk) (F : Z) : Prop := ∃ F0, rtc journal_step ((new_journal, []), F0) (d, F).

(** Every prefix of [lines] replays from [j], and all of them give [j']. *)
Definition replayable (j : SigningJournal) (lines : list json) (j' : SigningJournal) : Prop :=
  ∀ k, ∃ j1 p, replay_lines (take k lines) None j = (j1, Ok p) ∧ healthy j1 ∧ (∀ l, p = Some l → completes j1 l) ∧
    (sound j None → sound j1 p) ∧ ((length lines ≤ k)%nat → j1 = j' ∧ p = None).

Lemma replay_none (j : SigningJournal) : healthy j → ∃ j1 p, replay_lines [] None j = (j1, Ok p) ∧ healthy j1 ∧
  (∀ l, p = Some l → completes j1 l) ∧ j1 = j.
Proof. intros Hh. exists j, None. split_and!; try done. Qed.

Lemma replayable_single (j j' : SigningJournal) (line : json) :
  healthy j → healthy j' → (sound j None → sound j' None) → replay_line None line j = (j', Ok None) → replayable j [line] j'.
Proof.
  intros Hh Hh' Hs Hr [|k].
  - exists j, None. split_and!; try done. cbn. lia.
  - exists j', None. cbn [take]. rewrite take_nil. cbn [replay_lines]. rewrite meth_bind_run, Hr.
    split_and!; try done; discriminate.
Qed.

Lemma replayable_pair (j : SigningJournal) (height round : Z) (hash : string) :
  commit_allowed j height round hash → healthy j →
  replayable j (map row_json [mkRow height round StepLock hash; mkRow height round StepCommit hash])
    (fold_left row_effect [mkRow height round StepLock hash; mkRow height round StepCommit hash] j).
Proof.
  intros (Hw & Hfree & Hlock) Hh.
  set (lock := mkRow height round StepLock hash). set (commit := mkRow height round StepCommit hash).
  assert (row_valid lock ∧ row_valid commit) as [Hvl Hvc] by (by split; eapply writable_row).
  assert (sound j None → sound (row_effect j lock) (Some lock)) as Hs1.
  { intros Hs. apply (sound_row j None lock Hs Hvl I); [exact Hlock|apply Hw]. }
  assert (replay_line None (row_json lock) j = (row_effect j lock, Ok (Some lock))) as Hl
    by (apply replay_lock; [done|done|apply Hw|done]).
  assert (height_state (row_effect j lock) height = apply_height lock (height_state j height)) as Hst
    by (rewrite height_state_effect; by rewrite decide_True).
  assert (replay_line (Some lock) (row_json commit) (row_effect j lock) = (row_effect (row_effect j lock) commit, Ok None)) as Hc.
  { apply replay_plain; [done|done|done|apply Hw|]. cbn [jr_height commit]. by rewrite Hst. }
  assert (sound j None → sound (row_effect (row_effect j lock) commit) None) as Hs2.
  { intros Hs. apply (sound_row _ (Some lock) commit (Hs1 Hs) Hvc); [done| |apply Hw]. cbn [jr_height commit]. rewrite Hst. exact Hfree. }
  intros [|[|k]]; cbn [take map].
  - exists j, None. split_and!; try done. cbn. lia.
  - exists (row_effect j lock), (Some lock). cbn [replay_lines]. rewrite meth_bind_run, Hl.
    split_and!; try done; [|cbn; lia]. intros l [= <-]. unfold completes. cbn [jr_height jr_round jr_value lock]. rewrite Hst.
    destruct Hlock as (? & ? & ? & ?). split_and!; try done. apply Hw.
  - rewrite take_nil. exists (row_effect (row_effect j lock) commit), None. cbn [replay_lines].
    rewrite meth_bind_run, Hl, meth_bind_run, Hc. split_and!; try done; discriminate.
Qed.

(** An operation changes nothing, or appends lines that replay to its effect. *)
Definition durable_step (d d' : disk) : Prop :=
  d' = d ∨ healthy d.1 ∧ ∃ lines j', replayable d.1 lines j' ∧
    (d' = (j', d.2 ++ lines) ∨ ∃ k, d' = (set_faulted d.1, d.2 ++ take k lines)).

Lemma outcome_durable (held allowed : Prop) (rows : list V6JournalRow) (io : Io) (d d' : disk) (x : res unit) :
  outcome held allowed rows io d d' x →
  (allowed → healthy d.1 ∧ replayable d.1 (map row_json rows) (fold_left row_effect rows d.1)) → durable_step d d'.
Proof.
  intros [[-> _]|[Ha Happ]] Hr; [by left|]. destruct (Hr Ha) as [Hh Hrep]. right. split; [done|].
  do 2 eexists. split; [exact Hrep|]. destruct io as [|k]; destruct Happ as [-> _]; [by left|right; eauto].
Qed.

Lemma writable_healthy (j : SigningJournal) (height round : Z) (value : string) : writable j height round value → healthy j.
Proof. intros [? ?]. by split. Qed.

Lemma reserved_not_lock (s : ReservedStep) : reserved_step s ≠ StepLock.
Proof. by destruct s. Qed.

Lemma v6_op_durable (op : journal_op) (io : Io) (d d' : disk) (x : res unit) :
  match op with OpLegacyHeight _ | OpChoice _ _ _ _ => False | _ => True end →
  run_op op io d = (d', x) → durable_step d d'.
Proof.
  destruct op as [h r s v|h r b jr|h r b| |]; intros Hop H; try done; cbn [run_op] in H.
  - apply reserveV6_outcome in H. eapply outcome_durable; [exact H|]. intros (Hw & Hf & _).
    pose proof (writable_healthy _ _ _ _ Hw). split; [done|]. apply replayable_single; [done|done| |].
    + intros Hs. pose proof (sound_row d.1 None (mkRow h r (reserved_step s) v) Hs ltac:(by eapply writable_row) I) as Hr.
      unfold row_fits, pending_after in Hr. cbn [jr_step jr_height jr_round jr_value] in Hr. rewrite !decide_False in Hr by apply reserved_not_lock.
      apply Hr; [done|apply Hw].
    + apply replay_plain; [by eapply writable_row|apply reserved_not_lock|done|apply Hw|done].
  - apply reserveV6Prepare_outcome in H. eapply outcome_durable; [exact H|]. intros (Hw & Hf & _).
    pose proof (writable_healthy _ _ _ _ Hw). split; [done|]. apply replayable_single; [done|done| |].
    + intros Hs. apply (sound_row d.1 None (mkRow h r StepPrepare b) Hs ltac:(by eapply writable_row) I); [exact Hf|apply Hw].
    + apply replay_plain; [by eapply writable_row|done|done|apply Hw|done].
  - apply reserveV6Commit_outcome in H. eapply outcome_durable; [exact H|]. intros Hc.
    assert (healthy d.1) as Hh by (destruct Hc as (Hw & _); by eapply writable_healthy). split; [done|].
    by apply replayable_pair.
Qed.

(** The same for a check inside an operation on the file. *)
Lemma check_cases {B} (b : bool) (msg : string) (f : unit → meth disk B) (d d' : disk) (x : res B) :
  (m_throw_if b msg ≫= f) d = (d', x) → d' = d ∨ b = false ∧ f () d = (d', x).
Proof.
  rewrite meth_bind_run. unfold m_throw_if, m_lift. destruct b; cbn [throw_if]; [|by right].
  intros [= <- <-]. by left.
Qed.

Lemma legacy_durable (height : Z) (io : Io) (d d' : disk) (x : res unit) :
  reserveLegacyHeight height io d = (d', x) → durable_step d d'.
Proof.
  unfold reserveLegacyHeight. rewrite meth_bind_run, mem_run. cbn [m_get fst snd]. destruct d as [j file]; cbn [fst snd].
  intros H.
  apply check_cases in H as [->|[E1 H]]; [by left|]. apply check_cases in H as [->|[E2 H]]; [by left|].
  apply check_cases in H as [->|[E3 H]]; [by left|]. apply check_cases in H as [->|[E4 H]]; [by left|].
  destruct (bool_decide (height ∈ sj_legacyHeights j)); [apply ret_cases in H as [-> _]; by left|].
  apply bool_decide_eq_false in E4. breflect.
  assert (sj_v6Heights j !! height = None) as Hn by (destruct (sj_v6Heights j !! height); [exfalso; eauto|done]).
  right. split; [by split|]. exists [legacy_json height], (add_legacyHeight height (add_legacyMark height j)). split.
  { apply replayable_single; [by split|by split| |apply replay_legacy; [lia|done]]. intros Hs. apply (sound_mark j height Hs); [lia|done]. }
  rewrite meth_bind_run, append_lines_run in H. destruct io as [|k]; [|injection H as <- <-; right; eauto].
  rewrite meth_bind_run, !mem_run in H. injection H as <- <-. by left.
Qed.

Lemma choice_durable (height round : Z) (kind : ChoiceKind) (value : string) (io : Io) (d d' : disk) (x : res unit) :
  reserveChoice height round (choice_text kind) value io d = (d', x) → durable_step d d'.
Proof.
  unfold reserveChoice. rewrite meth_bind_run, mem_run. cbn [m_get fst snd]. destruct d as [j file]; cbn [fst snd].
  intros H.
  apply check_cases in H as [->|[E1 H]]; [by left|]. apply check_cases in H as [->|[E2 H]]; [by left|].
  apply check_cases in H as [->|[E3 H]]; [by left|]. apply check_cases in H as [->|[E4 H]]; [by left|].
  unfold reserve_new in H. destruct (sj_reservations j !! (height, round)) eqn:Er.
  { destruct (String.eqb _ _); [apply ret_cases in H as [-> _]|apply lift_cases in H as [-> _]]; by left. }
  apply check_cases in H as [->|[E5 H]]; [by left|]. apply bool_decide_eq_false in E5. breflect.
  assert (sj_v6Heights j !! height = None) as Hn by (destruct (sj_v6Heights j !! height); [exfalso; eauto|done]).
  right. split; [by split|]. exists [reservation_json height round (choice_text kind) value],
    (add_legacyHeight height (set_reservation height round (choice_text kind +:+ ":" +:+ value) j)). split.
  { apply replayable_single; [by split|by split| |by apply replay_choice; [lia|lia|..]].
    intros Hs. apply (sound_reservation j (height, round, choice_text kind +:+ ":" +:+ value) Hs); [|done].
    split_and!; cbn; [lia|lia|lia|lia|]. by exists kind, value. }
  rewrite meth_bind_run, append_lines_run in H. destruct io as [|k]; [|injection H as <- <-; right; eauto].
  rewrite meth_bind_run, !mem_run in H. injection H as <- <-. by left.
Qed.

Lemma op_durable (op : journal_op) (io : Io) (d : disk) : durable_step d (run_op op io d).1.
Proof.
  destruct (run_op op io d) as [d' x] eqn:E. cbn [fst].
  destruct op as [| | |h|h r [] v]; try (by eapply v6_op_durable; [|exact E]; done);
    [by eapply legacy_durable|by eapply (choice_durable _ _ Attest)|by eapply (choice_durable _ _ Skip)].
Qed.

(** ** Recovery *)

(** The file replays; a healthy object is what the replay gives. *)
Definition recoverable (d : disk) : Prop :=
  ∃ j p, replay_lines d.2 None new_journal = (j, Ok p) ∧ (healthy j ∧ sound j p) ∧ (∀ l, p = Some l → completes j l) ∧
    (healthy d.1 → d.1 = j ∧ p = None).

Lemma durable_recoverable (d d' : disk) : recoverable d → durable_step d d' → recoverable d'.
Proof.
  intros (j & p & Hr & [Hh Hs] & Hp & Hd) [->|(Hhd & lines & j' & Hrep & Hd')]; [by exists j, p|].
  destruct (Hd Hhd) as [<- ->].
  destruct Hd' as [->|[k ->]]; unfold recoverable; cbn [fst snd]; rewrite replay_app, Hr.
  - destruct (Hrep (length lines)) as (j1 & p1 & Hl & Hh1 & Hp1 & Hs1 & Hfull). rewrite firstn_all in Hl.
    destruct (Hfull ltac:(lia)) as [-> ->]. exists j', None. rewrite Hl. split_and!; auto.
  - destruct (Hrep k) as (j1 & p1 & Hl & Hh1 & Hp1 & Hs1 & _). exists j1, p1. rewrite Hl. split_and!; auto.
    intros [_ Hf]. done.
Qed.

Lemma completes_run (j : SigningJournal) (lock : V6JournalRow) :
  completes j lock →
  let commit := mkRow (jr_height lock) (jr_round lock) StepCommit (jr_value lock) in
  (assertTornAppendLock lock;; replayV6Row (row_fields commit) (Some lock)) j = (row_effect j commit, Ok None).
Proof.
  intros (Hv & Hl & Ht & Hvr & Hq & Hf & _) commit. rewrite meth_bind_run. unfold assertTornAppendLock.
  rewrite meth_bind_run. cbn [m_get]. fold (height_state j (jr_height lock)).
  rewrite run_throw_false.
  - rewrite <-replay_line_v6. apply replay_plain; try done.
  - apply orb_false_iff. split; [lia|]. destruct (hj_rows _ !! _) as [q|]; [|done].
    by rewrite (Hq q eq_refl), String.eqb_refl.
Qed.

Lemma completes_sound (j : SigningJournal) (lock : V6JournalRow) :
  completes j lock → sound j (Some lock) → sound (row_effect j (mkRow (jr_height lock) (jr_round lock) StepCommit (jr_value lock))) None.
Proof.
  intros (Hv & Hl & _ & _ & _ & Hf & _) Hs.
  by apply (sound_row j (Some lock) (mkRow (jr_height lock) (jr_round lock) StepCommit (jr_value lock)) Hs).
Qed.

Lemma open_recoverable (d : disk) (io : Io) : recoverable d →
  ∃ j p, replay_lines d.2 None new_journal = (j, Ok p) ∧
    match p with
    | None => open_journal d.2 io = (d.2, Ok j) ∧ recoverable (j, d.2)
    | Some lock =>
      let commit := mkRow (jr_height lock) (jr_round lock) StepCommit (jr_value lock) in
      replay_lines (d.2 ++ [row_json commit]) None new_journal = (row_effect j commit, Ok None) ∧ completes j lock ∧
      open_journal d.2 io = match io with
                            | IoOk => (d.2 ++ [row_json commit], Ok (row_effect j commit))
                            | IoFail k => (d.2 ++ take k [row_json commit], Throw "EIO")
                            end ∧ healthy j
    end.
Proof.
  intros (j & p & Hr & [Hh Hs] & Hp & _). exists j, p. split; [done|]. unfold open_journal, replayRows. rewrite Hr.
  destruct p as [lock|].
  - specialize (Hp lock eq_refl). cbn zeta. rewrite completes_run by done. split_and!; try done.
    rewrite replay_app, Hr. cbn [replay_lines]. rewrite meth_bind_run.
    destruct Hp as (Hv & Hl & Ht & Hvr & Hq & Hf & _). by rewrite replay_plain.
  - split; [done|]. exists j, None. split_and!; try done.
Qed.

(** What happens to the file: an append, or a compaction of the object that is
    the file's replay. *)
Definition file_step (F : Z) (d d' : disk) : Prop :=
  (∃ extra, d'.2 = d.2 ++ extra) ∨ healthy d.1 ∧ d'.2 = journal_lines (compacted F d.1).

Lemma op_recoverable (d : disk) (op : journal_op) (io : Io) : recoverable d → recoverable (run_op op io d).1.
Proof. intros Hd. eapply durable_recoverable; [done|]. apply op_durable. Qed.

Lemma op_appends (d : disk) (op : journal_op) (io : Io) : ∃ extra, (run_op op io d).1.2 = d.2 ++ extra.
Proof. destruct (op_durable op io d) as [->|(_ & lines & j' & _ & [->|[k ->]])]; cbn [snd]; [exists []; by rewrite app_nil_r|eauto..]. Qed.

Lemma restart_recoverable (d : disk) (io : Io) (file : list json) (r : res SigningJournal) :
  recoverable d → open_journal d.2 io = (file, r) →
  recoverable (match r with Ok j => j | Throw _ => set_faulted d.1 end, file) ∧ ∃ extra, file = d.2 ++ extra.
Proof.
  intros IH Ho. destruct (open_recoverable d io IH) as (j1 & [lock|] & Hr & Hcase).
  - destruct Hcase as (Hrep & Hc & Ho' & Hh). rewrite Ho in Ho'.
    assert (sound j1 (Some lock)) as Hs by (destruct IH as (j2 & p2 & Hr2 & [_ Hs] & _); rewrite Hr in Hr2; by injection Hr2 as <- <-).
    destruct io as [|k]; injection Ho' as -> ->; (split; [|by eexists]); unfold recoverable; cbn [fst snd].
    + eexists _, None. rewrite Hrep. split_and!; try done. by apply completes_sound.
    + destruct k as [|k]; cbn [take].
      * rewrite app_nil_r. exists j1, (Some lock). split_and!; try done; [by intros ? [= <-]|by intros []].
      * rewrite take_nil. eexists _, None. rewrite Hrep. split_and!; try done; [by apply completes_sound|by intros []].
  - destruct Hcase as [Ho' Hrec]. rewrite Ho in Ho'. injection Ho' as -> ->. split; [done|]. exists []. by rewrite app_nil_r.
Qed.

(** The object in memory of a recoverable journal, while it is usable. *)
Lemma healthy_is (d : disk) : recoverable d → healthy d.1 → replay_lines d.2 None new_journal = (d.1, Ok None) ∧ sound d.1 None.
Proof. intros (j & p & Hr & [_ Hs] & _ & Hm) Hh. by destruct (Hm Hh) as [-> ->]. Qed.

Lemma compacted_replay (F : Z) (j : SigningJournal) :
  healthy j → sound j None → replay_lines (journal_lines (compacted F j)) None new_journal = (compacted F j, Ok None).
Proof. intros [Hc Hf] Hs. by apply replay_written; [apply sound_compacted| |]. Qed.

Lemma compact_recoverable (d d' : disk) (F : Z) (x : res Z) :
  recoverable d → compaction F d d' x → recoverable d' ∧ file_step F d d'.
Proof.
  intros Hd Hc. assert (∀ d0 : disk, d0.2 = d.2 → ∃ extra, d0.2 = d.2 ++ extra) as Hsame by (intros d0 ->; exists []; by rewrite app_nil_r).
  destruct Hc as [e|Hh|Hh _|e Hh|e Hh]; try (split; [done|left; by apply Hsame]).
  - destruct (healthy_is d Hd Hh) as [_ Hs]. split; [|by right]. exists (compacted F d.1), None. cbn [fst snd].
    split_and!; [by apply compacted_replay|done|by apply sound_compacted|done|done].
  - split; [|left; by apply Hsame]. destruct Hd as (j & p & Hr & Hj & Hp & _). exists j, p. split_and!; try done; try apply Hj. by intros [].
  - destruct (healthy_is d Hd Hh) as [_ Hs]. split; [|by right]. exists (compacted F d.1), None. cbn [fst snd].
    split_and!; [by apply compacted_replay|done|by apply sound_compacted|done|by intros []].
Qed.

(** A step keeps the file recoverable. *)
Lemma step_recoverable (d d' : disk) (F F' : Z) :
  recoverable d → journal_step (d, F) (d', F') → recoverable d' ∧ F ≤ F' ∧ file_step F d d'.
Proof.
  intros IH Hs. inversion Hs as [? ? op io|? ? ? HF|? ? io|? ? io file j Ho|? ? io file e Ho]; subst.
  - split; [by apply op_recoverable|]. split; [done|]. left. apply op_appends.
  - split; [done|]. split; [done|]. left. exists []. by rewrite app_nil_r.
  - destruct (compactThrough F' io d) as [d1 x] eqn:E. apply compactThrough_cases in E. destruct (compact_recoverable _ _ _ _ IH E). by split.
  - destruct (restart_recoverable d io file (Ok j) IH Ho). split; [done|]. split; [done|]. by left.
  - destruct (restart_recoverable d io file (Throw e) IH Ho). split; [done|]. split; [done|]. by left.
Qed.

Lemma life_recoverable (a b : disk * Z) : rtc journal_step a b → recoverable a.1 → recoverable b.1.
Proof.
  induction 1 as [a|[d F] [d1 F1] b Hs _ IH]; intros Hd; [done|]. apply IH. by eapply step_recoverable.
Qed.

Lemma reachable_recoverable (d : disk) (F : Z) : reachable d F → recoverable d.
Proof.
  intros [F0 Hd]. apply (life_recoverable _ _ Hd). exists new_journal, None. split_and!; try done. apply sound_new.
Qed.

(** C12. After any life of the journal - reservations, appends that fail at any line,
    compactions through the finalized height that fail before or after the file is
    replaced, restarts, failed restarts - opening the file again succeeds.  If the
    object in memory was still usable, the file is not touched and the restored
    object is exactly that object: every reservation, lock and round bound.  If
    not, at most the commit row that belongs to the restored lock is added.  And
    what a compaction takes away is exactly the heights at or below it: after one
    that returns, the object and the file are those of [compacted]; after one that
    fails, the file restores either the journal before it or the compacted one. *)
Theorem journal_recovers (d : disk) (F : Z) :
  reachable d F →
  (∃ file j, open_journal d.2 IoOk = (file, Ok j) ∧ healthy j ∧
    (file = d.2 ∨ ∃ height lock, v6Lock j height = Some lock ∧
      file = d.2 ++ [row_json (mkRow height (lk_round lock) StepCommit (lk_blockHash lock))]) ∧
    (healthy d.1 → file = d.2 ∧ j = d.1)) ∧
  (healthy d.1 → ∀ h io d' x, compactThrough h io d = (d', x) →
    ∃ j, open_journal d'.2 IoOk = (d'.2, Ok j) ∧
      match x with Ok _ => j = compacted h d.1 ∧ d'.1 = j | Throw _ => j = d.1 ∨ j = compacted h d.1 end).
Proof.
  intros Hd%reachable_recoverable. split.
  - pose proof Hd as (j0 & p0 & Hr0 & _ & _ & Hmem).
    destruct (open_recoverable d IoOk Hd) as (j & p & Hr & Hcase).
    rewrite Hr0 in Hr. injection Hr as -> ->. destruct p as [lock|].
    + destruct Hcase as (Hrep & Hc & -> & Hh). do 2 eexists. split; [done|]. split_and!; [done| |].
      * right. exists (jr_height lock), (mkLock (jr_round lock) (jr_value lock)). split; [|done].
        unfold v6Lock. rewrite lock_default, height_state_effect, decide_True by done.
        by destruct Hc as (_ & _ & _ & _ & _ & _ & Hlk).
      * intros Hhd. by destruct (Hmem Hhd).
    + destruct Hcase as [-> Hrec]. exists d.2, j. split_and!; auto.
      * by destruct Hrec as (j1 & p1 & Hr1 & [Hh1 _] & _); cbn [fst snd] in *; rewrite Hr0 in Hr1; injection Hr1 as <- <-.
      * intros Hhd. destruct (Hmem Hhd). auto.
  - intros Hh h io d' x Hc%compactThrough_cases. destruct (healthy_is d Hd Hh) as [Hr Hs].
    assert (open_journal d.2 IoOk = (d.2, Ok d.1)) as Hold by (unfold open_journal, replayRows; by rewrite Hr).
    assert (open_journal (journal_lines (compacted h d.1)) IoOk = (journal_lines (compacted h d.1), Ok (compacted h d.1))) as Hnew
      by (unfold open_journal, replayRows; by rewrite compacted_replay).
    destruct Hc as [e|_|_ Hz|e _|e _]; cbn [fst snd]; [exists d.1|exists (compacted h d.1)|exists d.1|exists d.1|exists (compacted h d.1)]; auto.
    by rewrite (compacted_nothing h d.1 Hs Hz).
Qed.

(** ** What replay does to the rows

    Replay is a function of the rows in the file, and never overwrites one. *)

Definition line_row (line : json) : option V6JournalRow :=
  match line with
  | JObj parsed => if bool_decide (as_int (get parsed "v") = Some 2)
                   then match parse_row parsed with Ok row => Some row | Throw _ => None end else None
  | _ => None
  end.

Lemma line_row_json (row : V6JournalRow) : row_valid row → line_row (row_json row) = Some row.
Proof. intros Hv. unfold line_row, row_json. rewrite parse_row_fields by done. by destruct row as [h r [] v]. Qed.

(** The checks of a replayed row. *)
Definition replay_checked (state : V6HeightJournal) (row : V6JournalRow) : Prop :=
  if decide (jr_step row = StepLock) then lock_allowed state (jr_round row) (jr_value row)
  else ∀ v, hj_rows state !! (jr_round row, step_text (jr_step row)) = Some v → v = jr_value row.

Lemma bind_Ok {S A B} (m : meth S A) (f : A → meth S B) (s s' : S) (b : B) :
  (m ≫= f) s = (s', Ok b) → ∃ a s1, m s = (s1, Ok a) ∧ f a s1 = (s', Ok b).
Proof. intros [(e & _ & [=])|H]%bind_cases. done. Qed.

Lemma throw_Ok {S} (b : bool) (msg : string) (s s' : S) (u : unit) : m_throw_if b msg s = (s', Ok u) → s' = s ∧ b = false.
Proof. unfold m_throw_if, m_lift. destruct b; cbn; [discriminate|]. by intros [= <- <-]. Qed.

Lemma replayV6Row_inv (parsed : record) (p p' : option V6JournalRow) (j j' : SigningJournal) :
  replayV6Row parsed p j = (j', Ok p') →
  ∃ row, parse_row parsed = Ok row ∧ sj_v6Heights j' = add_row (sj_v6Heights j) row ∧
    replay_checked (height_state j (jr_height row)) row ∧ pairs_with p row ∧
    p' = (if decide (jr_step row = StepLock) then Some row else None).
Proof.
  unfold replayV6Row. intros H. apply bind_Ok in H as (row & j1 & H1 & H). apply lift_cases in H1 as [-> H1].
  exists row. split; [done|].
  apply bind_Ok in H as ([] & j1 & H2 & H).
  assert (j1 = j ∧ pairs_with p row) as [-> Hpair].
  { destruct p as [l|]; [apply throw_Ok in H2 as [? E]|by apply ret_cases in H2 as [? _]]. split; [done|].
    rewrite !orb_false_iff, !negb_false_iff, bool_decide_eq_true, !Z.eqb_eq, String.eqb_eq in E. cbn. tauto. }
  apply bind_Ok in H as (j1 & j2 & [= <- <-] & H). apply bind_Ok in H as ([] & j1 & [-> _]%throw_Ok & H).
  apply bind_Ok in H as (st & j1 & H3 & H). apply bind_Ok in H as ([] & j2 & H4 & H).
  apply bind_Ok in H as ([] & j3 & H5 & [-> Hp']%ret_cases). apply Ok_inj in Hp'. rewrite applyV6Row_run in H5. injection H5 as <-.
  assert (default emptyHeight st = height_state j (jr_height row) ∧ row_effect j1 row = row_effect j row) as [Est Eeff].
  { unfold v6HeightState, height_state in *. destruct (sj_v6Heights j !! jr_height row) eqn:E; injection H3 as <- <-; [done|].
    split; [done|]. by apply row_effect_created. }
  rewrite Est in H4. unfold replay_checked. case_decide.
  - apply bind_Ok in H4 as ([] & j3 & [-> E1]%throw_Ok & [-> E2]%throw_Ok). rewrite Eeff. split; [done|].
    split; [|split; [done|congruence]]. apply orb_false_iff in E2 as [E2 E3]. split_and!; [lia|lia| |].
    + intros q Hq. rewrite Hq in E3. by apply negb_false_iff, String.eqb_eq in E3.
    + intros l Hl. rewrite Hl in E1. breflect. destruct E1 as [? [?|?]]; [left; lia|]. destruct (Z.eq_dec (lk_round l) (jr_round row)); [right; auto|left; lia].
  - apply throw_Ok in H4 as [-> E1]. rewrite Eeff. split; [done|].
    split; [|split; [done|congruence]]. intros v Hv. rewrite Hv in E1. by apply negb_false_iff, String.eqb_eq in E1.
Qed.

Lemma replay_line_inv (line : json) (p p' : option V6JournalRow) (j j' : SigningJournal) :
  replay_line p line j = (j', Ok p') →
  match line_row line with
  | None => sj_v6Heights j' = sj_v6Heights j ∧ p = None ∧ p' = None
  | Some row => sj_v6Heights j' = add_row (sj_v6Heights j) row ∧ replay_checked (height_state j (jr_height row)) row ∧
      pairs_with p row ∧ p' = (if decide (jr_step row = StepLock) then Some row else None)
  end.
Proof.
  unfold replay_line, line_row. intros H. destruct line as [| | | | | | |parsed];
    try (apply bind_Ok in H as (? & ? & _ & [=])).
  destruct (bool_decide _).
  - apply replayV6Row_inv in H as (row & -> & ? & ?). done.
  - apply bind_Ok in H as ([] & j1 & [-> Hp]%throw_Ok & H). apply bool_decide_eq_false in Hp.
    assert (p = None) as -> by (destruct p; [exfalso; eauto|done]). apply bind_Ok in H as (kind & j1 & [-> _]%lift_cases & H).
    destruct (String.eqb kind "legacy").
    + apply bind_Ok in H as ([] & j1 & [-> _]%throw_Ok & H). apply bind_Ok in H as (h & j1 & [-> _]%lift_cases & H).
      apply bind_Ok in H as (j1 & j2 & [= <- <-] & H). apply bind_Ok in H as ([] & j1 & [-> _]%throw_Ok & H).
      by injection H as <- <-.
    + apply bind_Ok in H as (h & j1 & [-> _]%lift_cases & H). apply bind_Ok in H as (r & j1 & [-> _]%lift_cases & H).
      apply bind_Ok in H as ([] & j1 & [-> _]%throw_Ok & H). apply bind_Ok in H as (v & j1 & [-> _]%lift_cases & H).
      apply bind_Ok in H as ([] & j1 & [-> _]%throw_Ok & H).
      apply bind_Ok in H as (j1 & j2 & [= <- <-] & H). apply bind_Ok in H as ([] & j1 & [-> _]%throw_Ok & H).
      apply bind_Ok in H as ([] & j1 & [-> _]%throw_Ok & H). by injection H as <- <-.
Qed.

(** The heights are a function of the rows in the file. *)
Definition file_rows (file : list json) : list V6JournalRow := omap line_row file.

Lemma replay_heights (file : list json) (p p' : option V6JournalRow) (j j' : SigningJournal) :
  replay_lines file p j = (j', Ok p') → sj_v6Heights j' = fold_left add_row (file_rows file) (sj_v6Heights j).
Proof.
  revert p j. induction file as [|line file IH]; intros p j H; [by injection H as <- <-|].
  cbn [replay_lines] in H. apply bind_Ok in H as (p1 & j1 & H1 & H). apply replay_line_inv in H1.
  rewrite (IH _ _ H). unfold file_rows. cbn [omap list_omap]. destruct (line_row line) as [row|].
  - destruct H1 as [-> _]. done.
  - by destruct H1 as [-> _].
Qed.

(** Every lock is followed by its commit row, except a trailing one. *)
Definition locks_covered (j : SigningJournal) (p : option V6JournalRow) : Prop := ∀ h l,
  hj_lock (height_state j h) = Some l →
  lk_round l ≤ hj_maxVoteRound (height_state j h) ∨ ∃ row, p = Some row ∧ jr_height row = h ∧ jr_round row = lk_round l.

Lemma height_state_heights (j j' : SigningJournal) (row : V6JournalRow) (h : Z) :
  sj_v6Heights j' = add_row (sj_v6Heights j) row →
  height_state j' h = if decide (h = jr_height row) then apply_height row (height_state j h) else height_state j h.
Proof. intros E. rewrite <-height_state_effect. unfold height_state. by rewrite E. Qed.

Lemma replay_line_covers (line : json) (p p' : option V6JournalRow) (j j' : SigningJournal) :
  replay_line p line j = (j', Ok p') → locks_covered j p → locks_covered j' p'.
Proof.
  intros H%replay_line_inv Hc h l Hl. destruct (line_row line) as [row|].
  - destruct H as (Hh & _ & Hp & ->). rewrite (height_state_heights _ _ _ h Hh) in *.
    destruct (decide (h = jr_height row)) as [->|Hne].
    + destruct (decide (jr_step row = StepLock)) as [El|El].
      * unfold apply_height in Hl. rewrite El in Hl. injection Hl as <-. right. exists row. done.
      * assert (hj_lock (height_state j (jr_height row)) = Some l) as Hl' by (unfold apply_height in Hl; by destruct (jr_step row)).
        left. destruct (Hc _ _ Hl') as [Hle|(pl & -> & E1 & E2)].
        -- unfold apply_height. destruct (jr_step row); cbn; lia.
        -- destruct Hp as (Es & _ & Er & _). unfold apply_height. rewrite Es. cbn. lia.
    + destruct (Hc _ _ Hl) as [?|(pl & -> & E1 & E2)]; [by left|]. destruct Hp as (_ & E3 & _). congruence.
  - destruct H as (Hh & -> & ->). unfold height_state in *. rewrite Hh in *. by apply Hc.
Qed.

Lemma replay_covers (lines : list json) (p p' : option V6JournalRow) (j j' : SigningJournal) :
  replay_lines lines p j = (j', Ok p') → locks_covered j p → locks_covered j' p'.
Proof.
  revert p j. induction lines as [|line lines IH]; intros p j H Hc; [by injection H as <- <-|].
  cbn [replay_lines] in H. apply bind_Ok in H as (p1 & j1 & H1 & H). eapply IH; [exact H|]. by eapply replay_line_covers.
Qed.

(** ** No equivocation *)

Definition slot (j : SigningJournal) (height round : Z) (step : V6JournalStep) : option string :=
  hj_rows (height_state j height) !! (round, step_text step).

Lemma step_text_inj (s1 s2 : V6JournalStep) : step_text s1 = step_text s2 → s1 = s2.
Proof. by destruct s1, s2. Qed.

Lemma replay_keeps_slot (line : json) (p p' : option V6JournalRow) (j j' : SigningJournal) (height round : Z)
    (step : V6JournalStep) (value : string) :
  replay_line p line j = (j', Ok p') → slot j height round step = Some value → slot j' height round step = Some value.
Proof.
  intros H%replay_line_inv. unfold slot. destruct (line_row line) as [row|]; [|destruct H as [H _]; unfold height_state; by rewrite H].
  destruct H as (H & Hc & _). rewrite (height_state_heights _ _ _ _ H). case_decide as E; [subst height|done].
  unfold replay_checked in Hc. intros Hs.
  destruct (decide (jr_step row = StepLock)) as [El|El]; [unfold apply_height; by rewrite El|].
  assert (hj_rows (apply_height row (height_state j (jr_height row))) =
    <[(jr_round row, step_text (jr_step row)) := jr_value row]> (hj_rows (height_state j (jr_height row)))) as ->
    by (unfold apply_height; by destruct (jr_step row)).
  destruct (decide ((jr_round row, step_text (jr_step row)) = (round, step_text step))) as [Ek|Ek].
  - rewrite Ek, lookup_insert_eq. rewrite Ek in Hc. by rewrite (Hc value Hs).
  - by rewrite lookup_insert_ne.
Qed.

Lemma replays_keep_slot (lines : list json) (p p' : option V6JournalRow) (j j' : SigningJournal) (height round : Z)
    (step : V6JournalStep) (value : string) :
  replay_lines lines p j = (j', Ok p') → slot j height round step = Some value → slot j' height round step = Some value.
Proof.
  revert p j. induction lines as [|line lines IH]; intros p j H Hs; [by injection H as <- <-|].
  cbn [replay_lines] in H. apply bind_Ok in H as (p1 & j1 & H1 & H). eapply IH; [exact H|]. by eapply replay_keeps_slot.
Qed.

(** What a journal held above the compacted heights, it holds after any
    continuation that leaves it usable. *)
Definition file_holds (d : disk) (height round : Z) (step : V6JournalStep) (value : string) : Prop :=
  ∀ j p, replay_lines d.2 None new_journal = (j, Ok p) → slot j height round step = Some value.

Lemma compacted_height (F : Z) (j : SigningJournal) (height : Z) :
  F < height → height_state (compacted F j) height = height_state j height.
Proof.
  intros Hk. unfold height_state. cbn [compacted sj_v6Heights]. destruct (sj_v6Heights j !! height) as [s|] eqn:E.
  - by rewrite (map_lookup_filter_Some_2 _ _ _ s).
  - assert (filter (λ e, F < e.1) (sj_v6Heights j) !! height = None) as -> by (apply map_lookup_filter_None; by left). done.
Qed.

Lemma compacted_slot (F : Z) (j : SigningJournal) (height round : Z) (step : V6JournalStep) :
  F < height → slot (compacted F j) height round step = slot j height round step.
Proof.
  intros Hk. unfold slot. by rewrite compacted_height.
Qed.

Lemma step_keeps_slot (d d' : disk) (F F' height round : Z) (step : V6JournalStep) (value : string) :
  recoverable d → file_holds d height round step value → journal_step (d, F) (d', F') → F' < height → file_holds d' height round step value.
Proof.
  intros Hd Hs Hstep Hk. destruct (step_recoverable _ _ _ _ Hd Hstep) as (_ & HF & Hf). intros j' p' Hr'.
  destruct Hf as [[extra E]|[Hh E]]; rewrite E in Hr'.
  - destruct Hd as (j & p & Hr & _). rewrite replay_app, Hr in Hr'. eapply replays_keep_slot; [exact Hr'|]. by eapply Hs.
  - destruct (healthy_is d Hd Hh) as [Hr Hso]. rewrite compacted_replay in Hr' by done. injection Hr' as <- <-.
    rewrite compacted_slot by lia. by eapply Hs.
Qed.

Lemma life_finalizes (a b : disk * Z) : rtc journal_step a b → recoverable a.1 → a.2 ≤ b.2.
Proof.
  induction 1 as [a|[d F] [d1 F1] b Hs _ IH]; intros Hd; [done|]. destruct (step_recoverable _ _ _ _ Hd Hs) as (Hd1 & HF & _).
  specialize (IH Hd1). cbn in *. lia.
Qed.

Lemma life_keeps_slot (a b : disk * Z) (height round : Z) (step : V6JournalStep) (value : string) :
  rtc journal_step a b → recoverable a.1 → file_holds a.1 height round step value → b.2 < height → file_holds b.1 height round step value.
Proof.
  induction 1 as [a|[d F] [d1 F1] b Hs Hl IH]; intros Hd Hh Hk; [done|]. destruct (step_recoverable _ _ _ _ Hd Hs) as (Hd1 & _).
  apply IH; [done| |done]. apply (step_keeps_slot d d1 F F1); [exact Hd|exact Hh|exact Hs|]. apply life_finalizes in Hl; [cbn in *; lia|done].
Qed.

(** The slot and value an operation reserves. *)
Definition op_slot (op : journal_op) : option (Z * Z * V6JournalStep * string) :=
  match op with
  | OpReserve height round step value => Some (height, round, reserved_step step, value)
  | OpPrepare height round hash _ => Some (height, round, StepPrepare, hash)
  | OpCommit height round hash => Some (height, round, StepCommit, hash)
  | _ => None
  end.

Lemma slot_set (j : SigningJournal) (row : V6JournalRow) :
  jr_step row ≠ StepLock → slot (row_effect j row) (jr_height row) (jr_round row) (jr_step row) = Some (jr_value row).
Proof.
  intros Hs. unfold slot. rewrite height_state_effect, decide_True by done. unfold apply_height.
  destruct (jr_step row); try done; apply lookup_insert_eq.
Qed.

(** An operation that returns holds its slot; before it, the slot was free or
    held the same value. *)
Lemma op_reserves (op : journal_op) (io : Io) (d d' : disk) (u : unit) (height round : Z) (step : V6JournalStep) (value : string) :
  op_slot op = Some (height, round, step, value) → run_op op io d = (d', Ok u) →
  healthy d.1 ∧ healthy d'.1 ∧ slot d'.1 height round step = Some value ∧
  (∀ v, slot d.1 height round step = Some v → v = value).
Proof.
  destruct op as [h r s v|h r b jr|h r b| |]; intros [= <- <- <- <-] H; cbn [run_op] in H.
  - apply reserveV6_outcome in H as [[-> Hh]|[(Hw & Hf & _) Ha]].
    + destruct (Hh u eq_refl) as [Hw Hs]. pose proof (writable_healthy _ _ _ _ Hw). unfold slot. split_and!; try done. congruence.
    + destruct io; destruct Ha as [-> Ex]; [|discriminate]. pose proof (writable_healthy _ _ _ _ Hw). split_and!; try done.
      * by apply (slot_set d.1 (mkRow h r (reserved_step s) v)), reserved_not_lock.
      * unfold slot, slot_free in *. congruence.
  - apply reserveV6Prepare_outcome in H as [[-> Hh]|[(Hw & Hf & _) Ha]].
    + destruct (Hh u eq_refl) as [Hw Hs]. pose proof (writable_healthy _ _ _ _ Hw). unfold slot. split_and!; try done. congruence.
    + destruct io; destruct Ha as [-> Ex]; [|discriminate]. pose proof (writable_healthy _ _ _ _ Hw). split_and!; try done.
      * by apply (slot_set d.1 (mkRow h r StepPrepare b)).
      * unfold slot, slot_free in *. congruence.
  - apply reserveV6Commit_outcome in H as [[-> Hh]|[(Hw & Hf & _) Ha]].
    + destruct (Hh u eq_refl) as [Hw Hs]. pose proof (writable_healthy _ _ _ _ Hw). unfold slot. split_and!; try done. congruence.
    + destruct io; destruct Ha as [-> Ex]; [|discriminate]. pose proof (writable_healthy _ _ _ _ Hw). split_and!; try done.
      * by apply (slot_set (row_effect d.1 (mkRow h r StepLock b)) (mkRow h r StepCommit b)).
      * unfold slot, slot_free in *. congruence.
Qed.

(** C11. No life of the journal releases two different values for one slot above
    the finalized height: if a reservation returns, and after any operations,
    failures, finalized blocks, compactions through the finalized height and
    restarts another reservation for the same height, round and step returns, made
    for a height that is still above the finalized one (the node signs for the next
    height only), their values are equal.  So a validator never signs two prepare
    votes, two commit votes, two timeouts, two proposals or two fresh blocks for one
    round.  (A height that was finalized may have been compacted away, and the
    journal alone no longer refuses it.) *)
Theorem journal_never_equivocates (d d1 d2 d3 : disk) (F F2 : Z) (op1 op2 : journal_op) (io1 io2 : Io) (u1 u2 : unit)
    (height round : Z) (step : V6JournalStep) (v1 v2 : string) :
  reachable d F →
  op_slot op1 = Some (height, round, step, v1) → run_op op1 io1 d = (d1, Ok u1) →
  rtc journal_step (d1, F) (d2, F2) → F2 < height →
  op_slot op2 = Some (height, round, step, v2) → run_op op2 io2 d2 = (d3, Ok u2) →
  v1 = v2.
Proof.
  intros Hd%reachable_recoverable E1 H1 Hl Hk E2 H2.
  destruct (op_reserves _ _ _ _ _ _ _ _ _ E1 H1) as (_ & Hh1 & Hs1 & _).
  destruct (op_reserves _ _ _ _ _ _ _ _ _ E2 H2) as (Hh2 & _ & _ & Hold).
  apply Hold. pose proof (op_recoverable d op1 io1 Hd) as Hd1. rewrite H1 in Hd1. cbn [fst] in Hd1.
  destruct (healthy_is d2 (life_recoverable _ _ Hl Hd1) Hh2) as [Hr2 _].
  refine (life_keeps_slot (d1, F) (d2, F2) height round step v1 Hl Hd1 _ Hk _ _ Hr2).
  intros j p Hr. cbn [fst] in Hr. destruct (healthy_is d1 Hd1 Hh1) as [Hr1 _]. rewrite Hr1 in Hr. by injection Hr as <- <-.
Qed.

Module JournalExample.
Definition hash : string := ToyCrypto.hexFixed 64 77.
Definition prepared : disk := (run_op (OpPrepare 5 0 hash (-1)) IoOk (new_journal, [])).1.
(** The commit append fails with only the lock row on disk. *)
Definition torn : disk := (run_op (OpCommit 5 0 hash) (IoFail 1) prepared).1.
(** Height 4 was signed for, too, and is compacted away with height 4 finalized. *)
Definition both : disk := (run_op (OpPrepare 5 0 hash (-1)) IoOk (run_op (OpCommit 4 1 hash) IoOk (run_op (OpChoice 3 0 Attest hash) IoOk (new_journal, [])).1).1).1.
Definition compact : disk := (compactThrough 4 CompactOk both).1.
Lemma compacts : (compactThrough 4 CompactOk both).2 = Ok 3 ∧ compact = prepared.
Proof. split; vm_compute; reflexivity. Qed.
End JournalExample.

Lemma journal_recovers_witness :
  (∃ file j, open_journal JournalExample.torn.2 IoOk = (file, Ok j) ∧ healthy j ∧
    (file = JournalExample.torn.2 ∨ ∃ height lock, v6Lock j height = Some lock ∧
      file = JournalExample.torn.2 ++ [row_json (mkRow height (lk_round lock) StepCommit (lk_blockHash lock))]) ∧
    (healthy JournalExample.torn.1 → file = JournalExample.torn.2 ∧ j = JournalExample.torn.1)) ∧
  ∃ j, open_journal JournalExample.compact.2 IoOk = (JournalExample.compact.2, Ok j) ∧ j = compacted 4 JournalExample.both.1 ∧ JournalExample.compact.1 = j.
Proof.
  split.
  - apply (journal_recovers JournalExample.torn 0). exists 0. unfold JournalExample.torn.
    apply (rtc_r _ (JournalExample.prepared, 0)); [|apply step_op].
    apply (rtc_r _ ((new_journal, []), 0)); [apply rtc_refl|apply (step_op (new_journal, []))].
  - refine (proj2 (journal_recovers JournalExample.both 4 _) _ 4 CompactOk JournalExample.compact (Ok 3) _).
    + exists 4. eapply rtc_r; [|apply step_op]. eapply rtc_r; [|apply step_op]. eapply rtc_r; [apply rtc_refl|apply step_op].
    + vm_compute. by split.
    + vm_compute. reflexivity.
Defined.

Lemma journal_never_equivocates_witness : JournalExample.hash = JournalExample.hash.
Proof.
  refine (journal_never_equivocates JournalExample.both JournalExample.both JournalExample.compact
    (run_op (OpPrepare 5 0 JournalExample.hash (-1)) IoOk JournalExample.compact).1 4 4
    (OpPrepare 5 0 JournalExample.hash (-1)) (OpPrepare 5 0 JournalExample.hash (-1)) IoOk IoOk () ()
    5 0 StepPrepare _ _ _ eq_refl _ _ _ eq_refl _).
  - exists 4. eapply rtc_r; [|apply step_op]. eapply rtc_r; [|apply step_op]. eapply rtc_r; [apply rtc_refl|apply step_op].
  - vm_compute. reflexivity.
  - eapply rtc_r; [apply rtc_refl|]. apply step_compact.
  - lia.
  - vm_compute. reflexivity.
Defined.
