(* ===== verification/Votes.v ===== *)
(** The bytes of a signed v6 vote determine the vote: within one chain, two
    prepare or commit votes with the same signed message have the same domain,
    height, round and block. *)

From S2P Require Import Prelude Types Codec Crypto Activity Transaction TxShape Block ConsensusV6.

(** ** Decimal numbers *)

Definition digit_unit (u : Z) : Prop := 48 ≤ u ≤ 57.

Lemma lit_cons (c : Ascii.ascii) (s : string) : lit (String c s) = Z.of_N (Ascii.N_of_ascii c) :: lit s.
Proof. reflexivity. Qed.

Lemma pretty_char_digit (x : N) : (x < 10)%N → digit_unit (Z.of_N (Ascii.N_of_ascii (pretty_N_char x))).
Proof.
  intros Hx. unfold digit_unit.
  assert (x = 0 ∨ x = 1 ∨ x = 2 ∨ x = 3 ∨ x = 4 ∨ x = 5 ∨ x = 6 ∨ x = 7 ∨ x = 8 ∨ x = 9)%N as Hc by lia.
  repeat (destruct Hc as [->|Hc]; [vm_compute; intuition congruence|]). subst. vm_compute. intuition congruence.
Qed.

Lemma pretty_go_digits (x : N) (s : string) : Forall digit_unit (lit s) → Forall digit_unit (lit (pretty_N_go x s)).
Proof.
  revert s. induction (N.lt_wf_0 x) as [x _ IH]; intros s Hs.
  destruct (decide (0 < x)%N) as [Hx|Hx].
  - rewrite pretty_N_go_step by done. apply IH; [apply N.div_lt; lia|]. rewrite lit_cons. constructor; [|done].
    apply pretty_char_digit, N.mod_lt. lia.
  - replace x with 0%N by lia. by rewrite pretty_N_go_0.
Qed.

Lemma pretty_digits (z : Z) : 0 ≤ z → Forall digit_unit (lit (pretty z)).
Proof.
  destruct z as [|p|p]; intros Hz; [| |lia].
  - repeat constructor; vm_compute; congruence.
  - change (pretty (Z.pos p)) with (if decide (N.pos p = 0)%N then "0" else pretty_N_go (N.pos p) "").
    case_decide; [lia|]. apply pretty_go_digits. constructor.
Qed.

(** Splitting at the first occurrence of a character. *)
Lemma split_at_unit (c : Z) (a b x y : list Z) : c ∉ a → c ∉ b → a ++ c :: x = b ++ c :: y → a = b ∧ x = y.
Proof.
  revert b. induction a as [|u a IH]; intros [|v b] Ha Hb E; simplify_eq/=; [done|set_solver|set_solver|].
  destruct (IH b) as [-> ->]; set_solver.
Qed.

Lemma digits_no (l : list Z) (c : Z) : Forall digit_unit l → (c < 48 ∨ 57 < c) → c ∉ l.
Proof. intros Hf Hc Hin. rewrite Forall_forall in Hf. apply Hf in Hin. unfold digit_unit in Hin. lia. Qed.

Lemma digits_ascii (l : list Z) : Forall digit_unit l → ascii_units l.
Proof. intros Hl. eapply Forall_impl; [exact Hl|]. unfold digit_unit. lia. Qed.

(** ** The text of a vote *)

Definition envelope_text (domain : string) (payload : units) : units :=
  lit "{" ++ json_quote (lit "domain") ++ lit ":" ++ json_quote (lit domain) ++ lit "," ++
  json_quote (lit "payload") ++ lit ":" ++ payload ++ lit "}".

Definition vote_text (chainId : string) (height round : Z) (hash : string) : units :=
  lit "{" ++ json_quote (lit "blockHash") ++ lit ":" ++ json_quote (lit hash) ++ lit "," ++
  json_quote (lit "chainId") ++ lit ":" ++ json_quote (lit chainId) ++ lit "," ++
  json_quote (lit "height") ++ lit ":" ++ lit (pretty height) ++ lit "," ++
  json_quote (lit "round") ++ lit ":" ++ lit (pretty round) ++ lit "}".

Lemma vote_normalized (chainId : string) (height round : Z) (hash : string) (d : Z) :
  isSafeInteger height = true → isSafeInteger round = true → d ≤ MAX_CANONICAL_JSON_DEPTH →
  normalize (to_units (votePayload chainId height round hash)) d =
    Ok (JObj [(lit "blockHash", JStr (lit hash)); (lit "chainId", JStr (lit chainId));
              (lit "height", JNum (JInt height)); (lit "round", JNum (JInt round))]).
Proof.
  intros Hh Hr Hd. cbn [votePayload to_units map fst snd normalize jint]. unfold assertCanonicalContainerBoundary.
  rewrite (proj2 (Z.ltb_ge _ _)) by lia. cbn [throw_if mbind res_bind].
  change (sortEntries _) with [(lit "blockHash", Ok (JStr (lit hash) : jsval units)); (lit "chainId", Ok (JStr (lit chainId)));
    (lit "height", throw_if (negb (num_isSafe (JInt height))) "Consensus numbers must be safe integers";; Ok (JNum (JInt height)));
    (lit "round", throw_if (negb (num_isSafe (JInt round))) "Consensus numbers must be safe integers";; Ok (JNum (JInt round)))].
  cbn [num_isSafe]. rewrite Hh, Hr. cbn [negb throw_if mbind res_bind]. rewrite !seq_entries_cons. cbn [mbind res_bind].
  change (seq_entries (V := jsval units) []) with (Ok ([] : list (units * jsval units))). cbn [mbind res_bind].
  rewrite fromEntries_id by (repeat constructor). reflexivity.
Qed.

Lemma vote_message (domain chainId : string) (height round : Z) (hash : string) :
  isSafeInteger height = true → isSafeInteger round = true →
  canonicalBytes (domainEnvelope domain (to_units (votePayload chainId height round hash))) =
    Ok (utf8 (envelope_text domain (vote_text chainId height round hash))).
Proof.
  intros Hh Hr. unfold canonicalBytes, canonicalJson, domainEnvelope.
  set (payload := to_units (votePayload chainId height round hash)).
  assert (normalize (JObj [(lit "domain", JStr (lit domain)); (lit "payload", payload)]) 0 =
    Ok (JObj [(lit "domain", JStr (lit domain));
      (lit "payload", JObj [(lit "blockHash", JStr (lit hash)); (lit "chainId", JStr (lit chainId));
              (lit "height", JNum (JInt height)); (lit "round", JNum (JInt round))])])) as ->.
  { cbn [normalize map fst snd]. unfold assertCanonicalContainerBoundary at 1.
    change (MAX_CANONICAL_JSON_DEPTH <? 0) with false. cbn [throw_if mbind res_bind].
    unfold payload. rewrite vote_normalized by (try done; vm_compute; congruence).
    change (sortEntries _) with [(lit "domain", Ok (JStr (lit domain) : jsval units));
      (lit "payload", Ok (JObj [(lit "blockHash", JStr (lit hash)); (lit "chainId", JStr (lit chainId));
              (lit "height", JNum (JInt height)); (lit "round", JNum (JInt round))]))].
    rewrite !seq_entries_cons. cbn [mbind res_bind].
    change (seq_entries (V := jsval units) []) with (Ok ([] : list (units * jsval units))). cbn [mbind res_bind].
    rewrite fromEntries_id by (repeat constructor). reflexivity. }
  cbn [mbind res_bind]. f_equal. f_equal. unfold envelope_text, vote_text.
  cbn [stringify map omap list_omap fst snd fmap option_fmap option_map join default from_option id number_units].
  rewrite <-!app_assoc. reflexivity.
Qed.

(** ** Injectivity *)

Lemma hash_units (hash : string) : hash_ok hash → Forall (λ u, 32 ≤ u < 128 ∧ u ≠ 34 ∧ u ≠ 92) (lit hash) ∧ length (lit hash) = 64%nat.
Proof.
  unfold hash_ok, isLowerHexOf. intros [Hl Hh]%andb_true_iff. apply Nat.eqb_eq in Hl. rewrite forallb_forall in Hh. split.
  - apply Forall_forall. intros u (c & -> & Hc)%list_elem_of_fmap. apply list_elem_of_In, Hh in Hc.
    unfold isLowerHex in Hc. cbv zeta in Hc. rewrite !orb_true_iff, !andb_true_iff, !N.leb_le in Hc. lia.
  - unfold lit. rewrite length_fmap. rewrite <-Hl. clear. induction hash as [|c s IH]; [done|]. cbn. by rewrite IH.
Qed.

Lemma plain_quote (s : units) : Forall (λ u, 32 ≤ u < 128 ∧ u ≠ 34 ∧ u ≠ 92) s → json_quote s = [34] ++ s ++ [34].
Proof. intros Hs. unfold json_quote. by rewrite quote_body_plain. Qed.

Lemma plain_ascii (s : units) : Forall (λ u, 32 ≤ u < 128 ∧ u ≠ 34 ∧ u ≠ 92) s → ascii_units s.
Proof. intros Hs. eapply Forall_impl; [exact Hs|]. cbn. lia. Qed.

(** The parts of the text around the domain, the hash and the numbers. *)
Definition part_domain : list Z := lit "{" ++ json_quote (lit "domain") ++ lit ":" ++ [34].
Definition part_hash : list Z :=
  [34] ++ lit "," ++ json_quote (lit "payload") ++ lit ":" ++ lit "{" ++ json_quote (lit "blockHash") ++ lit ":" ++ [34].
Definition part_chain : list Z := [34] ++ lit "," ++ json_quote (lit "chainId") ++ lit ":".
Definition part_height : list Z := lit "," ++ json_quote (lit "height") ++ lit ":".
Definition part_round : list Z := json_quote (lit "round") ++ lit ":".

Definition vote_tail (height round : Z) : list Z :=
  part_height ++ lit (pretty height) ++ lit "," ++ part_round ++ lit (pretty round) ++ lit "}" ++ lit "}".

Lemma vote_tail_ascii (height round : Z) : 0 ≤ height → 0 ≤ round → ascii_units (vote_tail height round).
Proof.
  intros Hh Hr. unfold vote_tail, ascii_units. rewrite !Forall_app. split_and!;
    try (by apply digits_ascii, pretty_digits); repeat constructor; vm_compute; congruence.
Qed.

Lemma vote_bytes (domain chainId : string) (height round : Z) (hash : string) :
  isSigningDomain domain = true → 0 ≤ height → 0 ≤ round → hash_ok hash →
  utf8 (envelope_text domain (vote_text chainId height round hash)) =
    part_domain ++ lit domain ++ part_hash ++ lit hash ++ part_chain ++ utf8 (json_quote (lit chainId)) ++ vote_tail height round.
Proof.
  intros Hd Hh Hr [Hu _]%hash_units. pose proof (domain_units domain Hd) as Hdu.
  assert (envelope_text domain (vote_text chainId height round hash) =
    (part_domain ++ lit domain ++ part_hash ++ lit hash ++ part_chain) ++ json_quote (lit chainId) ++ vote_tail height round) as ->.
  { unfold envelope_text, vote_text. rewrite (plain_quote (lit domain) Hdu), (plain_quote (lit hash) Hu).
    unfold part_domain, part_hash, part_chain, vote_tail, part_height, part_round. rewrite <-!app_assoc. reflexivity. }
  rewrite utf8_ascii_app.
  - rewrite <-!app_assoc. do 5 f_equal. unfold utf8. rewrite per_char_app.
    + f_equal. change (utf8 (vote_tail height round) = vote_tail height round).
      rewrite <-(app_nil_r (vote_tail height round)) at 1. rewrite utf8_ascii_app by (by apply vote_tail_ascii).
      by rewrite app_nil_r.
    + unfold splits. unfold json_quote. rewrite app_assoc, last_snoc. by destruct (head _).
  - unfold ascii_units. rewrite !Forall_app. split_and!; try (by apply plain_ascii);
      repeat constructor; vm_compute; congruence.
Qed.

(** Two votes of one chain with the same signed bytes are the same vote in the
    same domain. *)
Lemma vote_message_inj (d1 d2 chainId : string) (h1 h2 r1 r2 : Z) (b1 b2 : string) (m : list Z) :
  isSigningDomain d1 = true → isSigningDomain d2 = true →
  0 ≤ h1 ≤ MAX_SAFE_INTEGER → 0 ≤ h2 ≤ MAX_SAFE_INTEGER → 0 ≤ r1 ≤ MAX_SAFE_INTEGER → 0 ≤ r2 ≤ MAX_SAFE_INTEGER →
  hash_ok b1 → hash_ok b2 →
  canonicalBytes (domainEnvelope d1 (to_units (votePayload chainId h1 r1 b1))) = Ok m →
  canonicalBytes (domainEnvelope d2 (to_units (votePayload chainId h2 r2 b2))) = Ok m →
  d1 = d2 ∧ h1 = h2 ∧ r1 = r2 ∧ b1 = b2.
Proof.
  intros Hd1 Hd2 Hh1 Hh2 Hr1 Hr2 Hb1 Hb2 E1 E2.
  rewrite vote_message in E1, E2 by (apply isSafeInteger_spec; unfold MAX_SAFE_INTEGER in *; lia).
  rewrite vote_bytes in E1, E2 by (try done; lia). apply Ok_inj in E1 as <-. apply Ok_inj in E2.
  apply app_inv_head in E2.
  change (part_hash) with (34 :: tail part_hash) in E2. cbn [app] in E2.
  apply split_at_unit in E2 as [Ed E2]; [|intros Hin; by destruct (proj1 (Forall_forall _ _) (domain_units d2 Hd2) 34 Hin) as (_ & ? & _)
    |intros Hin; by destruct (proj1 (Forall_forall _ _) (domain_units d1 Hd1) 34 Hin) as (_ & ? & _)].
  apply app_inv_head in E2. destruct (hash_units b1 Hb1) as [_ L1]. destruct (hash_units b2 Hb2) as [_ L2].
  apply app_inj_1 in E2 as [Eb E2]; [|lia]. do 2 apply app_inv_head in E2. unfold vote_tail in E2. apply app_inv_head in E2.
  change (lit ",") with [44] in E2. cbn [app] in E2.
  apply split_at_unit in E2 as [Eh E2]; [|apply digits_no; [apply pretty_digits|]; lia..].
  apply app_inv_head in E2. change (lit "}") with [125] in E2. cbn [app] in E2.
  apply split_at_unit in E2 as [Er _]; [|apply digits_no; [apply pretty_digits|]; lia..].
  apply lit_inj in Ed, Eb, Eh, Er. apply (inj pretty) in Eh, Er. auto.
Qed.
