(* ===== verification/Budget.v ===== *)
(** The per-slot budget of expensive proposal validation
    (l1/src/proposal-validation-budget.ts).  A JavaScript [Map] enumerates in
    insertion order and the eviction depends on it, so the slots are a list. *)

From S2P Require Import Prelude.

Definition PROPOSAL_VALIDATION_BUDGET_MESSAGE : string := "Proposal validation budget exhausted for this proposer slot".
Definition DEFAULT_PROPOSAL_FAILURES_PER_SLOT : Z := 1.
Definition DEFAULT_PROPOSAL_BUDGET_MAX_SLOTS : Z := 1024.

Record SlotFailures := mkSlot { sf_height : Z; sf_hashes : gset string; sf_validated : gset string }.
Record ProposalValidationBudget := mkBudget {
  bg_slots : list (string * SlotFailures); bg_perSlot : Z; bg_maxSlots : Z }.

Definition new_budget (perSlot maxSlots : Z) : res ProposalValidationBudget :=
  throw_if (negb (isSafeInteger perSlot) || (perSlot <? 1)) "Invalid proposal validation budget";;
  throw_if (negb (isSafeInteger maxSlots) || (maxSlots <? 1)) "Invalid proposal validation budget slot limit";;
  Ok (mkBudget [] perSlot maxSlots).

Definition slotKey (height round : Z) (proposerPublicKey : string) : string :=
  pretty height +:+ ":" +:+ pretty round +:+ ":" +:+ proposerPublicKey.

Fixpoint find_slot (key : string) (slots : list (string * SlotFailures)) : option SlotFailures :=
  match slots with
  | [] => None
  | (k, s) :: rest => if String.eqb k key then Some s else find_slot key rest
  end.

Definition pruneThrough (finalizedHeight : Z) (b : ProposalValidationBudget) : ProposalValidationBudget :=
  mkBudget (filter (λ e, finalizedHeight < sf_height e.2) (bg_slots b)) (bg_perSlot b) (bg_maxSlots b).

Definition used (s : SlotFailures) : Z := Z.of_nat (size (sf_hashes s)) + Z.of_nat (size (sf_validated s)).

Definition assertAllowed (b : ProposalValidationBudget) (key blockHash : string) (journaled : bool) : res bool :=
  match find_slot key (bg_slots b) with
  | None => Ok false
  | Some slot =>
    if bool_decide (blockHash ∈ sf_validated slot) then Ok true
    else if journaled then Ok false
    else throw_if (bool_decide (blockHash ∈ sf_hashes slot) || (bg_perSlot b <=? used slot)) PROPOSAL_VALIDATION_BUDGET_MESSAGE;;
         Ok false
  end.

(** [while (this.slots.size >= this.maxSlots) delete the oldest] *)
Fixpoint evict (maxSlots : Z) (slots : list (string * SlotFailures)) : list (string * SlotFailures) :=
  match slots with
  | [] => []
  | _ :: rest => if maxSlots <=? zlen slots then evict maxSlots rest else slots
  end.

(** [this.slot(key, height)]: the slots with an entry for [key]. *)
Definition slot (key : string) (height : Z) (b : ProposalValidationBudget) : list (string * SlotFailures) :=
  match find_slot key (bg_slots b) with
  | Some _ => bg_slots b
  | None => evict (bg_maxSlots b) (bg_slots b) ++ [(key, mkSlot height ∅ ∅)]
  end.

Definition update_slot (key : string) (f : SlotFailures → SlotFailures) (slots : list (string * SlotFailures))
    : list (string * SlotFailures) :=
  map (λ e, if String.eqb e.1 key then (e.1, f e.2) else e) slots.

Definition recordFailure (key : string) (height : Z) (blockHash : string) (b : ProposalValidationBudget) : ProposalValidationBudget :=
  mkBudget (update_slot key (λ s, mkSlot (sf_height s) ({[blockHash]} ∪ sf_hashes s) (sf_validated s)) (slot key height b))
    (bg_perSlot b) (bg_maxSlots b).
Definition recordSuccess (key : string) (height : Z) (blockHash : string) (b : ProposalValidationBudget) : ProposalValidationBudget :=
  mkBudget (update_slot key (λ s, mkSlot (sf_height s) (sf_hashes s) ({[blockHash]} ∪ sf_validated s)) (slot key height b))
    (bg_perSlot b) (bg_maxSlots b).

(** ** The bounds *)

Lemma evict_bound (maxSlots : Z) (slots : list (string * SlotFailures)) :
  1 ≤ maxSlots → zlen (evict maxSlots slots) < maxSlots.
Proof.
  intros Hm. induction slots as [|e rest IH]; cbn [evict]; [unfold zlen; cbn; lia|].
  destruct (Z.leb_spec maxSlots (zlen (e :: rest))); [done|lia].
Qed.

Lemma evict_incl (maxSlots : Z) (slots : list (string * SlotFailures)) : evict maxSlots slots ⊆ slots.
Proof.
  induction slots as [|e rest IH]; cbn [evict]; [done|]. case_if; [|done]. set_solver.
Qed.

(** Within the limit of slots, and within the budget of every slot. *)
Record budget_ok (b : ProposalValidationBudget) : Prop := {
  bo_limits : 1 ≤ bg_perSlot b ∧ 1 ≤ bg_maxSlots b;
  bo_size : zlen (bg_slots b) ≤ bg_maxSlots b;
  bo_used : Forall (λ e, used e.2 ≤ bg_perSlot b) (bg_slots b);
  bo_keys : NoDup (bg_slots b).*1 }.

Lemma find_slot_elem (key : string) (slots : list (string * SlotFailures)) (s : SlotFailures) :
  find_slot key slots = Some s → (key, s) ∈ slots.
Proof.
  induction slots as [|[k s'] rest IH]; cbn [find_slot]; [done|].
  destruct (String.eqb_spec k key) as [->|]; [intros [= ->]; by left|]. intros H. right. auto.
Qed.

Lemma find_slot_None (key : string) (slots : list (string * SlotFailures)) : find_slot key slots = None → key ∉ slots.*1.
Proof.
  induction slots as [|[k s] rest IH]; cbn [find_slot]; csimpl; [set_solver|].
  destruct (String.eqb_spec k key); [done|]. intros H%IH. set_solver.
Qed.

Lemma evict_keys (maxSlots : Z) (slots : list (string * SlotFailures)) : NoDup slots.*1 → NoDup (evict maxSlots slots).*1.
Proof.
  induction slots as [|e rest IH]; cbn [evict]; [done|]. case_if; [|done]. csimpl. intros [_ H]%NoDup_cons. auto.
Qed.

Lemma slot_ok (key : string) (height : Z) (b : ProposalValidationBudget) :
  budget_ok b → NoDup (slot key height b).*1 ∧ zlen (slot key height b) ≤ bg_maxSlots b ∧
  Forall (λ e, used e.2 ≤ bg_perSlot b ∧ (e.1 = key → e.2 = default (mkSlot height ∅ ∅) (find_slot key (bg_slots b)))) (slot key height b).
Proof.
  intros [[Hp Hm] Hs Hu Hk]. unfold slot. destruct (find_slot key (bg_slots b)) as [s|] eqn:E.
  - split_and!; try done. apply Forall_forall. intros [k s'] Hin. rewrite Forall_forall in Hu. split; [by apply (Hu (k, s'))|].
    cbn [fst snd default from_option id]. intros ->. apply find_slot_elem in E.
    apply list_elem_of_lookup in E as [i1 E]. apply list_elem_of_lookup in Hin as [i2 Hin].
    assert (i1 = i2) as -> by (eapply (NoDup_lookup _ _ _ key Hk); rewrite list_lookup_fmap; by rewrite ?E, ?Hin). congruence.
  - apply find_slot_None in E. split_and!.
    + rewrite fmap_app. apply NoDup_app. split; [by apply evict_keys|]. split; [|apply NoDup_singleton].
      intros k Hin Hk'. csimpl in Hk'. apply list_elem_of_singleton in Hk'. subst k. apply E.
      apply list_elem_of_fmap in Hin as (e & -> & Hin). apply (evict_incl (bg_maxSlots b)) in Hin. by apply list_elem_of_fmap_2.
    + unfold zlen. rewrite length_app. pose proof (evict_bound (bg_maxSlots b) (bg_slots b) Hm). unfold zlen in *. cbn. lia.
    + apply Forall_app. split.
      * apply Forall_forall. intros e Hin. apply (evict_incl (bg_maxSlots b)) in Hin. rewrite Forall_forall in Hu.
        split; [by apply Hu|]. intros <-. exfalso. apply E. by apply list_elem_of_fmap_2.
      * constructor; [|constructor]. split; [|done]. unfold used. cbn [snd sf_hashes sf_validated]. rewrite !size_empty. lia.
Qed.

Lemma update_slot_ok (key : string) (f : SlotFailures → SlotFailures) (slots : list (string * SlotFailures)) (perSlot : Z) (s0 : SlotFailures) :
  Forall (λ e, used e.2 ≤ perSlot ∧ (e.1 = key → e.2 = s0)) slots → used (f s0) ≤ perSlot →
  Forall (λ e, used e.2 ≤ perSlot) (update_slot key f slots) ∧ (update_slot key f slots).*1 = slots.*1 ∧
  zlen (update_slot key f slots) = zlen slots.
Proof.
  intros Hf Hs. unfold update_slot. split_and!.
  - apply Forall_map. eapply Forall_impl; [exact Hf|]. intros [k s] [Hu Hk]; cbn [fst snd] in *.
    destruct (String.eqb_spec k key) as [->|]; [|done]. by rewrite (Hk eq_refl).
  - rewrite <-list_fmap_compose. apply list_fmap_ext. intros _ e _. cbn. by case_if.
  - unfold zlen. by rewrite length_map.
Qed.

(** A proposal that the budget lets into the expensive stage, recorded as failed
    or as validated, keeps every slot within [perSlot] distinct hashes and the
    number of slots within [maxSlots]: an authenticated proposer cannot make the
    node validate more distinct blocks for its slot than the budget allows. *)
Theorem budget_bounded (b : ProposalValidationBudget) (key hash : string) (height : Z) (fails : bool) :
  budget_ok b → assertAllowed b key hash false = Ok false →
  budget_ok (if fails then recordFailure key height hash b else recordSuccess key height hash b).
Proof.
  intros Hb Ha. destruct (slot_ok key height b Hb) as (Hk & Hn & Hu).
  pose proof Hb as [[Hp Hm] _ _ _].
  assert (∀ f, used (f (default (mkSlot height ∅ ∅) (find_slot key (bg_slots b)))) ≤ bg_perSlot b →
    budget_ok (mkBudget (update_slot key f (slot key height b)) (bg_perSlot b) (bg_maxSlots b))) as G.
  { intros f Hf. destruct (update_slot_ok key f _ _ _ Hu Hf) as (H1 & H2 & H3). constructor; cbn [bg_slots bg_perSlot bg_maxSlots];
      [done|lia|done|by rewrite H2]. }
  assert (∀ X Y : gset string, hash ∉ X → Z.of_nat (size ({[hash]} ∪ X)) = Z.of_nat (size X) + 1) as Hsz.
  { intros X _ Hx. rewrite size_union, size_singleton by set_solver. lia. }
  unfold assertAllowed in Ha.
  destruct (find_slot key (bg_slots b)) as [s|]; cbn [default from_option id] in *.
  - destruct (bool_decide (hash ∈ sf_validated s)) eqn:Ev; [discriminate|]. apply bool_decide_eq_false in Ev.
    res_split. breflect. unfold used in *.
    destruct fails; apply G; cbn [sf_hashes sf_validated]; rewrite (Hsz _ ∅) by tauto; lia.
  - destruct fails; apply G; unfold used; cbn [sf_hashes sf_validated]; rewrite (Hsz _ ∅), !size_empty by set_solver; lia.
Qed.

Lemma budget_bounded_witness :
  budget_ok (recordFailure "7:0:aa" 7 "h1" (mkBudget [("6:0:bb", mkSlot 6 {["x"]} ∅)] 1 2)).
Proof.
  apply (budget_bounded (mkBudget [("6:0:bb", mkSlot 6 {["x"]} ∅)] 1 2) "7:0:aa" "h1" 7 true); [|vm_compute; reflexivity].
  constructor; [cbn; lia|vm_compute; congruence|repeat constructor; vm_compute; congruence|].
  apply (bool_decide_unpack _). vm_compute. exact I.
Defined.
