(* ===== verification/Node.v ===== *)
(** The protocol-v6 request handlers of a validator node (l1/src/node-base.ts,
    lines 1247-1289 and 1407-1727), the signer they use
    (l1/src/validator-signer.ts) and the names of the consensus-state files
    (l1/src/consensus-state-store.ts).

    [exclusive] runs one handler at a time, so a handler is one function of the
    node's state.  What the handlers use of the chain is the record [ChainView],
    the result of a write to disk is part of [Env].  A file of the
    consensus-state store is the value that was written; a read of a missing or
    unreadable file is [undefined].  The signer is the local one. *)

From S2P Require Import Prelude Types Codec Crypto Activity Transaction TxShape Block ConsensusV6 BlockEnvelope Journal Budget.

Definition MAX_VALIDATOR_CLOCK_ROLLBACK_MS : Z := 1000.

(** What a node asks its chain. *)
Record ChainView := mkChainView {
  cv_height : Z;
  cv_chainId : string;
  cv_tipTimestampMs : Z;
  cv_protocolVersionAt : Z → Z;
  cv_validatorsAt : Z → list Validator;
  (** [validateProposal(block, nowMs, onAuthenticated)]: whether the block
      passed the gates and the callback ran, and the result; the flag is the
      callback's answer. *)
  cv_validateProposal : RawBlock → Z → bool → bool * res unit;
  cv_validatePreparedUnsignedBlock : Block → Z → res unit }.

Record ValidatorSigner := mkSigner { sg_privateKey : string; sg_publicKey : string }.

(** One call: the chain, the clock, the signer (if signing is enabled), and
    what the disk does. *)
Record Env := mkEnv {
  env_chain : ChainView;
  env_nowMs : Z;
  env_signer : option ValidatorSigner;
  env_journalIo : Io;
  env_storeWrites : string → bool }.

Record NodeState := mkNode {
  nd_disk : disk;
  nd_files : gmap string json;
  nd_lastValidatorClockMs : option Z;
  nd_validatorClockFaulted : bool;
  nd_budget : ProposalValidationBudget }.

(** ** File names (consensus-state-store.ts) *)

Definition file_height (height : Z) : res unit :=
  throw_if (negb (isSafeInteger height) || (height <? 1)) "Invalid consensus-state height".
Definition file_round (round : Z) : res unit :=
  throw_if (negb (isSafeInteger round) || (round <? 0) || (99999999 <? round)) "Invalid consensus-state round".
Definition heightFile (height : Z) : res string :=
  file_height height;; Ok ("H-" +:+ pretty height +:+ ".json").
Definition blockFile (height : Z) (hash : string) : res string :=
  file_height height;;
  throw_if (negb (isHash hash)) "Invalid consensus-state hash";;
  Ok ("H-" +:+ pretty height +:+ "-B-" +:+ hash +:+ ".json").
Definition proposalFile (height round : Z) : res string :=
  file_height height;; file_round round;; Ok ("H-" +:+ pretty height +:+ "-r-" +:+ pretty round +:+ ".proposal.json").
Definition timeoutFile (height round : Z) : res string :=
  file_height height;; file_round round;; Ok ("H-" +:+ pretty height +:+ "-r-" +:+ pretty round +:+ ".timeout.json").

(** ** State access *)

Definition on_disk {A} (m : meth disk A) : meth NodeState A := λ n,
  let (d, r) := m (nd_disk n) in
  (mkNode d (nd_files n) (nd_lastValidatorClockMs n) (nd_validatorClockFaulted n) (nd_budget n), r).
Definition set_files (f : gmap string json → gmap string json) (n : NodeState) : NodeState :=
  mkNode (nd_disk n) (f (nd_files n)) (nd_lastValidatorClockMs n) (nd_validatorClockFaulted n) (nd_budget n).
Definition set_clock (last : option Z) (faulted : bool) (n : NodeState) : NodeState :=
  mkNode (nd_disk n) (nd_files n) last faulted (nd_budget n).
Definition set_budget (f : ProposalValidationBudget → ProposalValidationBudget) (n : NodeState) : NodeState :=
  mkNode (nd_disk n) (nd_files n) (nd_lastValidatorClockMs n) (nd_validatorClockFaulted n) (f (nd_budget n)).

(** [ConsensusStateStore.read] and [write]. *)
Definition store_read (name : string) : meth NodeState json := λ n, (n, Ok (default JUndefined (nd_files n !! name))).
Definition store_write (env : Env) (name : string) (value : json) : meth NodeState unit :=
  if env_storeWrites env name then m_modify (set_files (<[name := value]>)) else m_lift (Throw "EIO").

(** [try { return f } catch { return null }] for a check that only reads. *)
Definition attempt {A} (r : res A) : option A := match r with Ok a => Some a | Throw _ => None end.

Definition assertValidatorClock (nowMs : Z) : meth NodeState unit :=
  m_throw_if (negb (isSafeInteger nowMs) || (nowMs <? 0)) "Invalid validator clock";;
  n ← m_get;
  m_throw_if (nd_validatorClockFaulted n) "Validator clock fault requires process restart";;
  if match nd_lastValidatorClockMs n with Some last => nowMs + MAX_VALIDATOR_CLOCK_ROLLBACK_MS <? last | None => false end then
    m_modify (set_clock (nd_lastValidatorClockMs n) true);;
    m_lift (Throw "Validator clock moved backwards beyond the safety tolerance")
  else m_modify (set_clock (Some (Z.max (default nowMs (nd_lastValidatorClockMs n)) nowMs)) (nd_validatorClockFaulted n)).

Definition requireV6Signing (env : Env) : res ValidatorSigner := unwrap (env_signer env) "Validator signing is disabled".

Record V6Context := mkContext { cx_height : Z; cx_chainId : string; cx_validators : list Validator }.

Definition v6Context (env : Env) : res V6Context :=
  let chain := env_chain env in
  let height := cv_height chain + 1 in
  throw_if (negb (isConsensusV6 (cv_protocolVersionAt chain height))) "Protocol v6 consensus is not active at the next height";;
  Ok (mkContext height (cv_chainId chain) (cv_validatorsAt chain height)).

Definition v6Member (validators : list Validator) (signer : ValidatorSigner) : res Validator :=
  unwrap (find (λ v, String.eqb (v_publicKey v) (sg_publicKey signer)) validators) "Configured validator key is not in genesis".

(** ** The signer *)

Inductive ValidatorSigningIntent :=
| IntentBlockProposal | IntentBlockAttestation | IntentRoundSkip
| IntentConsensusProposal | IntentPrepareVote | IntentCommitVote | IntentRoundTimeout.

Definition validatorSigningDomain (intent : ValidatorSigningIntent) : string :=
  match intent with
  | IntentBlockProposal => "zyronchain/block-proposal/v1"
  | IntentBlockAttestation => "zyronchain/finality-attestation/v1"
  | IntentRoundSkip => "zyronchain/round-skip/v1"
  | IntentConsensusProposal => "zyronchain/consensus-proposal/v1"
  | IntentPrepareVote => "zyronchain/prepare-vote/v1"
  | IntentCommitVote => "zyronchain/commit-vote/v1"
  | IntentRoundTimeout => "zyronchain/round-timeout/v1"
  end.

Definition CONSENSUS_V6_SIGNING_INTENTS (intent : ValidatorSigningIntent) : bool :=
  match intent with
  | IntentConsensusProposal | IntentPrepareVote | IntentCommitVote | IntentRoundTimeout => true
  | _ => false
  end.

Definition assertIntentProtocolVersion (intent : ValidatorSigningIntent) (protocolVersion : Z) : res unit :=
  throw_if (CONSENSUS_V6_SIGNING_INTENTS intent && negb (protocolVersion =? 6))
    "Protocol v6 consensus intents require protocol version 6".

Section node.
Context `{Crypto}.

(** [LocalValidatorSigner.signCanonical] *)
Definition local_signCanonical (signer : ValidatorSigner) (payload : json) (intent : ValidatorSigningIntent)
    (protocolVersion : Z) : res string :=
  assertIntentProtocolVersion intent protocolVersion;;
  if 3 <=? protocolVersion then signCanonicalDomain (validatorSigningDomain intent) (to_units payload) (sg_privateKey signer)
  else signCanonical (to_units payload) (sg_privateKey signer).

Definition signWithValidator (signer : ValidatorSigner) (payload : json) (intent : ValidatorSigningIntent)
    (protocolVersion : Z) : res string :=
  assertIntentProtocolVersion intent protocolVersion;;
  signature ← local_signCanonical signer payload intent protocolVersion;
  assertHex signature 64 "validator signature";;
  let valid := if 3 <=? protocolVersion
               then verifyCanonicalDomain (validatorSigningDomain intent) (to_units payload) signature (sg_publicKey signer)
               else verifyCanonical (to_units payload) signature (sg_publicKey signer) in
  throw_if (negb valid) "Validator signer returned a signature for the wrong key or payload";;
  Ok signature.

(** ** Consensus-state files *)

Definition v6HighQC (cx : V6Context) : meth NodeState (option PrepareQC) :=
  name ← m_lift (heightFile (cx_height cx));
  raw ← store_read name;
  mret match raw with
       | JObj fields =>
         match get fields "highQC" with
         | JNull | JUndefined => None
         | highQC => attempt (validatePrepareQC highQC (cx_validators cx) (cx_chainId cx) (cx_height cx))
         end
       | _ => None
       end.

Definition v6RecordQC (env : Env) (cx : V6Context) (qc : PrepareQC) : meth NodeState unit :=
  current ← v6HighQC cx;
  if match current with Some c => qc_round qc <=? qc_round c | None => false end then mret () else
  name ← m_lift (heightFile (cx_height cx));
  store_write env name (JObj [("highQC", qc_json qc)]).

Definition v6ReadBlock (env : Env) (height : Z) (hash : string) : meth NodeState (option Block) :=
  match env_signer env with
  | None => mret None
  | Some _ =>
    if negb (isHash hash) then mret None else
    name ← m_lift (blockFile height hash);
    raw ← store_read name;
    mret match raw with
         | JUndefined => None
         | _ => attempt (block ← validateBlockShape raw;
                         assertV6ProposalBlockIntegrity (raw_of block) height hash (Some (cv_validatorsAt (env_chain env) height));;
                         Ok block)
         end
  end.

Definition v6StoreBlock (env : Env) (height : Z) (block : RawBlock) : meth NodeState unit :=
  stored ← v6ReadBlock env height (b_hash block);
  match stored with
  | Some _ => mret ()
  | None => name ← m_lift (blockFile height (b_hash block)); store_write env name (raw_block_json block)
  end.

Definition v6FetchBlock (env : Env) (height : Z) (hash : string) : meth NodeState (option Block) :=
  if negb (isSafeInteger height) || negb (height =? cv_height (env_chain env) + 1) then mret None
  else if negb (isConsensusV6 (cv_protocolVersionAt (env_chain env) height)) then mret None
  else v6ReadBlock env height hash.

(** ** Proposal validation within the budget *)

(** The check before the expensive stage, and the expensive stage; returns the
    slot and [alreadyValidated], which the ticket's [reserve] uses. *)
Definition validateProposalWithinBudget (env : Env) (block : RawBlock) (round : Z) (reservation : option string)
    (expectedReservation : string) : meth NodeState (string * bool) :=
  m_modify (set_budget (pruneThrough (cv_height (env_chain env))));;
  let height := h_height (b_header block) in
  let slot := slotKey height round (default "null" (b_proposerPublicKey block)) in
  m_throw_if match reservation with Some r => negb (String.eqb r expectedReservation) | None => false end
    ("Conflicting validator action prevented for consensus round (" +:+ PROPOSAL_VALIDATION_BUDGET_MESSAGE +:+ ")");;
  n ← m_get;
  alreadyValidated ← m_lift (assertAllowed (nd_budget n) slot (b_hash block) (bool_decide (reservation = Some expectedReservation)));
  let '(authenticated, result) := cv_validateProposal (env_chain env) block (env_nowMs env) alreadyValidated in
  match result with
  | Throw e =>
    (if authenticated && negb alreadyValidated then m_modify (set_budget (recordFailure slot height (b_hash block))) else mret ());;
    m_lift (Throw e)
  | Ok _ => mret (slot, alreadyValidated)
  end.

(** [ticket.reserve(write)] *)
Definition ticket_reserve (block : RawBlock) (ticket : string * bool) (write : meth NodeState unit) : meth NodeState unit := λ n,
  let '(slot, alreadyValidated) := ticket in
  let height := h_height (b_header block) in
  match write n with
  | (n', Throw e) => ((if alreadyValidated then n' else set_budget (recordFailure slot height (b_hash block)) n'), Throw e)
  | (n', Ok _) => ((if alreadyValidated then n' else set_budget (recordSuccess slot height (b_hash block)) n'), Ok ())
  end.

(** ** Handlers *)

(** The checks of a prepare request up to its certificates. *)
Definition prepare_checked (env : Env) (signer : ValidatorSigner) (value : json)
    : res (V6Context * Validator * RawBlock * V6ProposalPayload * option PrepareQC) :=
  fields ← assertPlainRecord value "v6 prepare request";
  assertExactKeys fields ["proposal"; "block"; "tc"] "v6 prepare request";;
  block ← validateBlockStructure (get fields "block");
  cx ← v6Context env;
  member ← v6Member (cx_validators cx) signer;
  '(proposal, justify) ← validatePrepareRequestCertificates (mkPrepareRequest (get fields "proposal") block (get fields "tc"))
    (cx_validators cx) (cx_chainId cx) (cx_height cx) true;
  Ok (cx, member, block, pr_payload proposal, justify).

Definition v6Prepare (env : Env) (value : json) : meth NodeState V6Vote :=
  signer ← m_lift (requireV6Signing env);
  assertValidatorClock (env_nowMs env);;
  checked ← m_lift (prepare_checked env signer value);
  let '(cx, member, block, p, justify) := checked in
  n ← m_get;
  let reservation := v6Row (nd_disk n).1 (cx_height cx) (pr_round p) StepPrepare in
  ticket ← validateProposalWithinBudget env block (pr_round p) reservation (b_hash block);
  match justify with Some qc => v6RecordQC env cx qc | None => mret () end;;
  ticket_reserve block ticket
    (on_disk (reserveV6Prepare (cx_height cx) (pr_round p) (b_hash block) (pr_justifyRound p) (env_journalIo env)));;
  v6StoreBlock env (cx_height cx) block;;
  signature ← m_lift (signWithValidator signer
    (votePayload (cx_chainId cx) (cx_height cx) (pr_round p) (b_hash block)) IntentPrepareVote CONSENSUS_V6_PROTOCOL_VERSION);
  mret (mkAttestation (v_address member) (sg_publicKey signer) signature).

(** The checks of a commit request. *)
Definition commit_checked (env : Env) (signer : ValidatorSigner) (value : json)
    : res (V6Context * Validator * RawBlock * PrepareQC) :=
  fields ← assertPlainRecord value "v6 commit request";
  assertExactKeys fields ["qc"; "block"] "v6 commit request";;
  block ← validateBlockStructure (get fields "block");
  cx ← v6Context env;
  member ← v6Member (cx_validators cx) signer;
  qc ← validatePrepareQC (get fields "qc") (cx_validators cx) (cx_chainId cx) (cx_height cx);
  throw_if (negb (String.eqb (b_hash block) (qc_blockHash qc))) "v6 commit block does not match its prepare QC";;
  hash ← blockHash (b_header block);
  throw_if (negb (String.eqb hash (b_hash block)) || negb (h_height (b_header block) =? cx_height cx) ||
    negb (String.eqb (h_chainId (b_header block)) (cx_chainId cx)) ||
    negb (h_version (b_header block) =? CONSENSUS_V6_PROTOCOL_VERSION)) "v6 commit block does not match its prepare QC";;
  assertV6ProposalBlockIntegrity block (cx_height cx) (qc_blockHash qc) (Some (cx_validators cx));;
  validateBlockTransactions block;;
  Ok (cx, member, block, qc).

Definition v6Commit (env : Env) (value : json) : meth NodeState V6Vote :=
  signer ← m_lift (requireV6Signing env);
  assertValidatorClock (env_nowMs env);;
  checked ← m_lift (commit_checked env signer value);
  let '(cx, member, block, qc) := checked in
  v6StoreBlock env (cx_height cx) block;;
  v6RecordQC env cx qc;;
  on_disk (reserveV6Commit (cx_height cx) (qc_round qc) (qc_blockHash qc) (env_journalIo env));;
  signature ← m_lift (signWithValidator signer
    (votePayload (cx_chainId cx) (cx_height cx) (qc_round qc) (qc_blockHash qc)) IntentCommitVote CONSENSUS_V6_PROTOCOL_VERSION);
  mret (mkAttestation (v_address member) (sg_publicKey signer) signature).

(** The properties of a stored timeout payload, as [timeoutPayload] reads them. *)
Definition stored_payload (v : json) : res V6TimeoutPayload :=
  match v with
  | JObj f =>
    match get f "chainId", as_int (get f "height"), as_int (get f "round"), as_int (get f "highQCRound"), get f "highQCHash" with
    | JStr c, Some h, Some r, Some q, JStr b => Ok (mkTimeoutPayload c h r q b)
    | _, _, _, _, _ => Throw "stored timeout does not match the journal"
    end
  | _ => Throw "stored timeout does not match the journal"
  end.

(** The stored vote of a round that the journal already holds. *)
Definition stored_timeout (cx : V6Context) (existing : string) (stored : json) : res (V6TimeoutPayload * option PrepareQC) :=
  fields ← assertPlainRecord stored "stored timeout";
  assertExactKeys fields ["payload"; "highQC"] "stored timeout";;
  candidate ← stored_payload (get fields "payload");
  digest ← timeoutDigest candidate;
  throw_if (negb (String.eqb digest existing)) "stored timeout does not match the journal";;
  if 0 <=? to_highQCRound candidate then
    qc ← validatePrepareQC (get fields "highQC") (cx_validators cx) (cx_chainId cx) (cx_height cx);
    throw_if (negb (qc_round qc =? to_highQCRound candidate) || negb (String.eqb (qc_blockHash qc) (to_highQCHash candidate)))
      "stored timeout QC mismatch";;
    Ok (candidate, Some qc)
  else Ok (candidate, None).

Definition timeout_fields (p : V6TimeoutPayload) (highQC : option PrepareQC) : json :=
  JObj [("payload", timeoutPayload p); ("highQC", high_qc_json highQC)].

Definition v6Timeout (env : Env) (height round : Z) : meth NodeState V6TimeoutResponse :=
  signer ← m_lift (requireV6Signing env);
  assertValidatorClock (env_nowMs env);;
  m_throw_if (negb (isSafeInteger round) || (round <? 0) || (V6_MAX_ROUND <? round)) "Invalid v6 timeout request";;
  cx ← m_lift (v6Context env);
  m_throw_if (negb (height =? cx_height cx)) "Invalid v6 timeout request";;
  member ← m_lift (v6Member (cx_validators cx) signer);
  allowedAt ← m_lift (timeoutAllowedAt (cv_tipTimestampMs (env_chain env)) round);
  m_throw_if (env_nowMs env <? allowedAt) "Round timeout deadline has not elapsed";;
  name ← m_lift (timeoutFile height round);
  n ← m_get;
  result ←
    match v6Row (nd_disk n).1 height round StepTimeout with
    | Some existing =>
      stored ← store_read name;
      m_lift (unwrap (attempt (stored_timeout cx existing stored)) "Stored timeout vote is unavailable")
    | None =>
      let '(maxVoteRound, maxTimeoutRound) := v6Rounds (nd_disk n).1 height in
      m_throw_if ((round <? maxVoteRound) || (round <? maxTimeoutRound)) "Validator has already moved past this round";;
      highQC ← v6HighQC cx;
      m_throw_if match highQC with Some qc => round <? qc_round qc | None => false end "Validator holds a QC above the requested round";;
      let payload := mkTimeoutPayload (cx_chainId cx) height round
        match highQC with Some qc => qc_round qc | None => -1 end
        match highQC with Some qc => qc_blockHash qc | None => ZERO_HASH end in
      store_write env name (timeout_fields payload highQC);;
      digest ← m_lift (timeoutDigest payload);
      on_disk (reserveV6 height round StepTimeout digest (env_journalIo env));;
      mret (payload, highQC)
    end;
  let '(payload, highQC) := result in
  signature ← m_lift (signWithValidator signer (timeoutPayload payload) IntentRoundTimeout CONSENSUS_V6_PROTOCOL_VERSION);
  mret (mkTimeoutResponse (mkTimeoutVote payload (v_address member) (sg_publicKey signer) signature) highQC).

Definition v6SignFreshBlock (env : Env) (block : Block) : meth NodeState Block :=
  signer ← m_lift (requireV6Signing env);
  assertValidatorClock (env_nowMs env);;
  cx ← m_lift (v6Context env);
  m_throw_if (negb (h_height (b_header block) =? cx_height cx)) "v6 block is not for the next height";;
  m_lift (cv_validatePreparedUnsignedBlock (env_chain env) block (env_nowMs env));;
  m_throw_if (negb (bool_decide (b_proposerPublicKey block = Some (sg_publicKey signer)))) "Configured validator is not the block proposer";;
  on_disk (reserveV6 (cx_height cx) (h_round (b_header block)) StepBlockProposal (b_hash block) (env_journalIo env));;
  signature ← m_lift (signWithValidator signer (header_json (b_header block)) IntentBlockProposal CONSENSUS_V6_PROTOCOL_VERSION);
  signed ← m_lift (attachBlockSignature block signature);
  v6StoreBlock env (cx_height cx) (raw_of signed);;
  mret signed.

(** [input.tc] is a certificate or [null]. *)
Definition v6SignProposalLocked (env : Env) (round : Z) (block : Block) (tc : json) : meth NodeState (V6Proposal * RawBlock * json) :=
  signer ← m_lift (requireV6Signing env);
  assertValidatorClock (env_nowMs env);;
  cx ← m_lift (v6Context env);
  leader ← m_lift (expectedValidator (cx_validators cx) (cx_height cx) round);
  m_throw_if (negb (String.eqb (v_publicKey leader) (sg_publicKey signer))) "Configured validator is not the round leader";;
  justifyRound ← m_lift (if (round =? 0) || isNull tc then Ok (-1)
    else '(_, m) ← validateTimeoutCertificate tc (cx_validators cx) (cx_chainId cx) (cx_height cx) (round - 1); Ok m);
  let payload := mkProposalPayload (cx_chainId cx) (cx_height cx) round (b_hash block) justifyRound in
  let unsigned := mkProposal payload (ZERO_HASH +:+ ZERO_HASH) in
  m_lift (validatePrepareRequestCertificates (mkPrepareRequest (proposal_json unsigned) (raw_of block) tc)
    (cx_validators cx) (cx_chainId cx) (cx_height cx) false);;
  n ← m_get;
  m_throw_if ((justifyRound =? -1) &&
    negb (bool_decide (v6Row (nd_disk n).1 (cx_height cx) round StepBlockProposal = Some (b_hash block))))
    "Unjustified v6 proposal must carry this leader's own fresh block";;
  v6StoreBlock env (cx_height cx) (raw_of block);;
  name ← m_lift (proposalFile (cx_height cx) round);
  digest ← m_lift (proposalDigest payload);
  (match v6Row (nd_disk n).1 (cx_height cx) round StepProposal with
   | None => store_write env name (JObj [("payload", proposalPayload payload); ("tc", tc)])
   | Some _ => mret ()
   end);;
  on_disk (reserveV6 (cx_height cx) round StepProposal digest (env_journalIo env));;
  signature ← m_lift (signWithValidator signer (proposalPayload payload) IntentConsensusProposal CONSENSUS_V6_PROTOCOL_VERSION);
  mret (mkProposal payload signature, raw_of block, tc).
Definition v6SignProposal : Env → Z → Block → json → meth NodeState (V6Proposal * RawBlock * json) := v6SignProposalLocked.

(** The stored payload of a proposal, as [proposalPayload] reads it. *)
Definition stored_proposal_payload (v : json) : res V6ProposalPayload :=
  match v with
  | JObj f =>
    match get f "chainId", as_int (get f "height"), as_int (get f "round"), get f "blockHash", as_int (get f "justifyRound") with
    | JStr c, Some h, Some r, JStr b, Some j => Ok (mkProposalPayload c h r b j)
    | _, _, _, _, _ => Throw "unavailable"
    end
  | _ => Throw "unavailable"
  end.

Inductive V6StoredProposal := StoredNone | StoredUnavailable | StoredOk (request : V6Proposal * RawBlock * json).

(** [try { ... } catch { return { status: "unavailable" } }]: what the body did
    to the node stays. *)
Definition or_unavailable (m : meth NodeState V6StoredProposal) : meth NodeState V6StoredProposal := λ n,
  match m n with (n', Ok r) => (n', Ok r) | (n', Throw _) => (n', Ok StoredUnavailable) end.

Definition v6StoredProposal (env : Env) (round : Z) : meth NodeState V6StoredProposal :=
  m_lift (requireV6Signing env);;
  cx ← m_lift (v6Context env);
  n ← m_get;
  match v6Row (nd_disk n).1 (cx_height cx) round StepProposal with
  | None => mret StoredNone
  | Some digest =>
    or_unavailable (
      name ← m_lift (proposalFile (cx_height cx) round);
      stored ← store_read name;
      fields ← m_lift (assertPlainRecord stored "stored proposal");
      m_lift (assertExactKeys fields ["payload"; "tc"] "stored proposal");;
      payload ← m_lift (stored_proposal_payload (get fields "payload"));
      storedDigest ← m_lift (proposalDigest payload);
      if negb (String.eqb storedDigest digest) || negb (pr_height payload =? cx_height cx) || negb (pr_round payload =? round) ||
        negb (String.eqb (pr_chainId payload) (cx_chainId cx)) then mret StoredUnavailable else
      block ← v6ReadBlock env (cx_height cx) (pr_blockHash payload);
      match block with
      | None => mret StoredUnavailable
      | Some block =>
        let tc := get fields "tc" in
        (if isNull tc then mret () else
          m_lift (validateTimeoutCertificate tc (cx_validators cx) (cx_chainId cx) (cx_height cx) (round - 1));; mret ());;
        request ← v6SignProposalLocked env round block tc;
        mret (StoredOk request)
      end)
  end.

Definition v6Metrics (env : Env) (n : NodeState) : option (Z * Z * Z * Z) :=
  let height := cv_height (env_chain env) + 1 in
  if negb (isConsensusV6 (cv_protocolVersionAt (env_chain env) height)) || negb (bool_decide (is_Some (env_signer env))) then None
  else let '(maxVoteRound, maxTimeoutRound) := v6Rounds (nd_disk n).1 height in
       Some (height, match v6Lock (nd_disk n).1 height with Some l => lk_round l | None => -1 end, maxVoteRound, maxTimeoutRound).

Definition v6OwnBlockProposal (env : Env) (n : NodeState) (round : Z) : option string :=
  match env_signer env with
  | None => None
  | Some _ => v6Row (nd_disk n).1 (cv_height (env_chain env) + 1) round StepBlockProposal
  end.

End node.
