(* ===== verification/Handlers.v ===== *)
(** What the v6 handlers do to the signing journal: a vote is signed only after
    its reservation returned, and nothing else a handler does touches the
    journal. *)

From S2P Require Import Prelude Types Codec Crypto Activity Transaction TxShape Block ConsensusV6 BlockEnvelope Journal JournalReplay Compaction Recovery Budget Node.

(** ** Methods that leave the journal alone *)

Definition keeps_disk {A} (m : meth NodeState A) : Prop := ∀ n, nd_disk (m n).1 = nd_disk n.

Create HintDb disk discriminated.
#[export] Hint Constants Opaque : disk.

Lemma keeps_lift {A} (r : res A) : keeps_disk (m_lift r).
Proof. by intros n. Qed.
Lemma keeps_ret {A} (a : A) : keeps_disk (mret a).
Proof. by intros n. Qed.
Lemma keeps_get : keeps_disk m_get.
Proof. by intros n. Qed.
Lemma keeps_throw (b : bool) (msg : string) : keeps_disk (m_throw_if b msg).
Proof. by intros n. Qed.
Lemma keeps_bind {A B} (m : meth NodeState A) (f : A → meth NodeState B) :
  keeps_disk m → (∀ a, keeps_disk (f a)) → keeps_disk (m ≫= f).
Proof.
  intros Hm Hf n. rewrite meth_bind_run. specialize (Hm n). destruct (m n) as [n1 [a|e]]; cbn in *; [|done].
  by rewrite Hf.
Qed.
Lemma keeps_files (f : gmap string json → gmap string json) : keeps_disk (m_modify (set_files f)).
Proof. by intros n. Qed.
Lemma keeps_clock (last : option Z) (faulted : bool) : keeps_disk (m_modify (set_clock last faulted)).
Proof. by intros n. Qed.
Lemma keeps_budget (f : ProposalValidationBudget → ProposalValidationBudget) : keeps_disk (m_modify (set_budget f)).
Proof. by intros n. Qed.
Lemma keeps_read (name : string) : keeps_disk (store_read name).
Proof. by intros n. Qed.
#[export] Hint Resolve keeps_lift keeps_ret keeps_get keeps_throw keeps_files keeps_clock keeps_budget keeps_read : disk.

(** Splitting a method into its statements and branches. *)
Ltac keeps :=
  repeat match goal with
  | |- keeps_disk (_ ≫= _) => apply keeps_bind
  | |- ∀ _, _ => intros ?
  | |- keeps_disk (if ?b then _ else _) => destruct b
  | |- keeps_disk (match ?x with _ => _ end) => destruct x
  | |- keeps_disk (let _ := _ in _) => cbv zeta
  | _ => solve [auto with disk]
  end.

Lemma keeps_write (env : Env) (name : string) (v : json) : keeps_disk (store_write env name v).
Proof. unfold store_write. keeps. Qed.
#[export] Hint Resolve keeps_write : disk.

Lemma keeps_assertClock (nowMs : Z) : keeps_disk (assertValidatorClock nowMs).
Proof. unfold assertValidatorClock. keeps. Qed.
#[export] Hint Resolve keeps_assertClock : disk.

Section handlers.
Context `{Crypto}.

Lemma keeps_highQC (cx : V6Context) : keeps_disk (v6HighQC cx).
Proof. unfold v6HighQC. keeps. Qed.
#[local] Hint Resolve keeps_highQC : disk.
Lemma keeps_recordQC (env : Env) (cx : V6Context) (qc : PrepareQC) : keeps_disk (v6RecordQC env cx qc).
Proof. unfold v6RecordQC. keeps. Qed.
#[local] Hint Resolve keeps_recordQC : disk.
Lemma keeps_readBlock (env : Env) (height : Z) (hash : string) : keeps_disk (v6ReadBlock env height hash).
Proof. unfold v6ReadBlock. keeps. Qed.
#[local] Hint Resolve keeps_readBlock : disk.
Lemma keeps_storeBlock (env : Env) (height : Z) (block : RawBlock) : keeps_disk (v6StoreBlock env height block).
Proof. unfold v6StoreBlock. keeps. Qed.
#[local] Hint Resolve keeps_storeBlock : disk.
Lemma keeps_validate (env : Env) (block : RawBlock) (round : Z) (reservation : option string) (expected : string) :
  keeps_disk (validateProposalWithinBudget env block round reservation expected).
Proof. unfold validateProposalWithinBudget. keeps. Qed.
#[local] Hint Resolve keeps_validate : disk.

(** ** The one journal operation of each handler *)

(** [m] runs [op] on the journal at most once, and returns only if [op] did. *)
Definition runs_once {A} (m : meth NodeState A) (op : meth disk unit) : Prop := ∀ n n' x,
  m n = (n', x) → (nd_disk n' = nd_disk n ∧ ∃ e, x = Throw e) ∨
    ∃ y, op (nd_disk n) = (nd_disk n', y) ∧ (∀ a, x = Ok a → y = Ok ()).

Lemma runs_before {A B} (m : meth NodeState A) (f : A → meth NodeState B) (op : meth disk unit) :
  keeps_disk m → (∀ a, runs_once (f a) op) → runs_once (m ≫= f) op.
Proof.
  intros Hm Hf n n' x Hx. specialize (Hm n). apply bind_cases in Hx as [(e & Hx & ->)|(a & n1 & H1 & Hx)].
  - rewrite Hx in Hm. left. eauto.
  - rewrite H1 in Hm. cbn in Hm. apply Hf in Hx. by rewrite Hm in Hx.
Qed.

Lemma runs_after {B} (op : meth disk unit) (f : unit → meth NodeState B) :
  (∀ a, keeps_disk (f a)) → runs_once (on_disk op ≫= f) op.
Proof.
  intros Hf n n' x Hx. right. unfold on_disk in Hx. rewrite meth_bind_run in Hx.
  destruct (op (nd_disk n)) as [d r] eqn:E. cbn in Hx. destruct r as [[]|e].
  - specialize (Hf () (mkNode d (nd_files n) (nd_lastValidatorClockMs n) (nd_validatorClockFaulted n) (nd_budget n))).
    rewrite Hx in Hf. cbn in Hf. rewrite Hf. exists (Ok ()). auto.
  - injection Hx as <- <-. cbn. exists (Throw e). split; [done|]. discriminate.
Qed.

Lemma runs_ticket {B} (block : RawBlock) (ticket : string * bool) (op : meth disk unit) (f : unit → meth NodeState B) :
  (∀ a, keeps_disk (f a)) → runs_once (ticket_reserve block ticket (on_disk op) ≫= f) op.
Proof.
  intros Hf n n' x Hx. right. unfold ticket_reserve, on_disk in Hx. rewrite meth_bind_run in Hx.
  destruct ticket as [slot already]. destruct (op (nd_disk n)) as [d r] eqn:E. cbn in Hx. destruct r as [[]|e].
  - match type of Hx with f () ?n1 = _ => specialize (Hf () n1); rewrite Hx in Hf end. cbn in Hf.
    exists (Ok ()). split; [|done]. rewrite Hf. by destruct already.
  - injection Hx as <- <-. exists (Throw e). split; [|discriminate]. by destruct already.
Qed.

(** A prepare vote: the accepted request, and its reservation. *)
Lemma v6Prepare_effect (env : Env) (value : json) (n n' : NodeState) (x : res V6Vote) :
  v6Prepare env value n = (n', x) →
  (nd_disk n' = nd_disk n ∧ ∃ e, x = Throw e) ∨
  ∃ signer cx member block p justify y,
    env_signer env = Some signer ∧ prepare_checked env signer value = Ok (cx, member, block, p, justify) ∧
    reserveV6Prepare (cx_height cx) (pr_round p) (b_hash block) (pr_justifyRound p) (env_journalIo env) (nd_disk n) = (nd_disk n', y) ∧
    (∀ a, x = Ok a → y = Ok ()).
Proof.
  unfold v6Prepare. intros Hx. apply bind_cases in Hx as [(e & [-> _]%lift_cases & ->)|(signer & n1 & [-> Hs]%lift_cases & Hx)];
    [left; eauto|]. symmetry in Hs. apply unwrap_Ok in Hs.
  pose proof (keeps_assertClock (env_nowMs env) n) as Hk.
  apply bind_cases in Hx as [(e & H1 & ->)|([] & n1 & H1 & Hx)]; rewrite H1 in Hk; cbn in Hk; [left; eauto|].
  apply bind_cases in Hx as [(e & [-> _]%lift_cases & ->)|(checked & n2 & [-> Hc]%lift_cases & Hx)]; [left; eauto|].
  destruct checked as [[[[cx member] block] p] justify].
  assert (runs_once (n ← m_get;
    ticket ← validateProposalWithinBudget env block (pr_round p) (v6Row (nd_disk n).1 (cx_height cx) (pr_round p) StepPrepare) (b_hash block);
    match justify with Some qc => v6RecordQC env cx qc | None => mret () end;;
    ticket_reserve block ticket
      (on_disk (reserveV6Prepare (cx_height cx) (pr_round p) (b_hash block) (pr_justifyRound p) (env_journalIo env)));;
    v6StoreBlock env (cx_height cx) block;;
    signature ← m_lift (signWithValidator signer
      (votePayload (cx_chainId cx) (cx_height cx) (pr_round p) (b_hash block)) IntentPrepareVote CONSENSUS_V6_PROTOCOL_VERSION);
    mret (mkAttestation (v_address member) (sg_publicKey signer) signature))
    (reserveV6Prepare (cx_height cx) (pr_round p) (b_hash block) (pr_justifyRound p) (env_journalIo env))) as Hruns.
  { apply runs_before; [auto with disk|]. intros m. apply runs_before; [auto with disk|]. intros ticket.
    apply runs_before; [by keeps|]. intros []. apply runs_ticket. keeps. }
  apply Hruns in Hx. rewrite Hk in Hx. destruct Hx as [?|(y & Hy & Hok)]; [by left|]. right.
  exists signer, cx, member, block, p, justify, y. auto.
Qed.

(** A commit vote. *)
Lemma v6Commit_effect (env : Env) (value : json) (n n' : NodeState) (x : res V6Vote) :
  v6Commit env value n = (n', x) →
  (nd_disk n' = nd_disk n ∧ ∃ e, x = Throw e) ∨
  ∃ signer cx member block qc y,
    env_signer env = Some signer ∧ commit_checked env signer value = Ok (cx, member, block, qc) ∧
    reserveV6Commit (cx_height cx) (qc_round qc) (qc_blockHash qc) (env_journalIo env) (nd_disk n) = (nd_disk n', y) ∧
    (∀ a, x = Ok a → y = Ok ()).
Proof.
  unfold v6Commit. intros Hx. apply bind_cases in Hx as [(e & [-> _]%lift_cases & ->)|(signer & n1 & [-> Hs]%lift_cases & Hx)];
    [left; eauto|]. symmetry in Hs. apply unwrap_Ok in Hs.
  pose proof (keeps_assertClock (env_nowMs env) n) as Hk.
  apply bind_cases in Hx as [(e & H1 & ->)|([] & n1 & H1 & Hx)]; rewrite H1 in Hk; cbn in Hk; [left; eauto|].
  apply bind_cases in Hx as [(e & [-> _]%lift_cases & ->)|(checked & n2 & [-> Hc]%lift_cases & Hx)]; [left; eauto|].
  destruct checked as [[[cx member] block] qc].
  assert (runs_once (v6StoreBlock env (cx_height cx) block;;
    v6RecordQC env cx qc;;
    on_disk (reserveV6Commit (cx_height cx) (qc_round qc) (qc_blockHash qc) (env_journalIo env));;
    signature ← m_lift (signWithValidator signer
      (votePayload (cx_chainId cx) (cx_height cx) (qc_round qc) (qc_blockHash qc)) IntentCommitVote CONSENSUS_V6_PROTOCOL_VERSION);
    mret (mkAttestation (v_address member) (sg_publicKey signer) signature))
    (reserveV6Commit (cx_height cx) (qc_round qc) (qc_blockHash qc) (env_journalIo env))) as Hruns.
  { apply runs_before; [auto with disk|]. intros []. apply runs_before; [auto with disk|]. intros []. apply runs_after. keeps. }
  apply Hruns in Hx. rewrite Hk in Hx. destruct Hx as [?|(y & Hy & Hok)]; [by left|]. right.
  exists signer, cx, member, block, qc, y. auto.
Qed.

(** The other handlers run at most one reservation that is not a vote. *)
Definition reserves_other {A} (m : meth NodeState A) : Prop := ∀ n, ∃ op io,
  (nd_disk (m n).1 = nd_disk n) ∨
  (match op with OpPrepare _ _ _ _ | OpCommit _ _ _ => False | _ => True end ∧ nd_disk (m n).1 = (run_op op io (nd_disk n)).1).

Lemma other_keeps {A} (m : meth NodeState A) : keeps_disk m → reserves_other m.
Proof. intros Hm n. exists (OpLegacyHeight 1), IoOk. left. apply Hm. Qed.

Lemma other_before {A B} (m : meth NodeState A) (f : A → meth NodeState B) :
  keeps_disk m → (∀ a, reserves_other (f a)) → reserves_other (m ≫= f).
Proof.
  intros Hm Hf n. rewrite meth_bind_run. specialize (Hm n). destruct (m n) as [n1 [a|e]]; cbn in *.
  - destruct (Hf a n1) as (op & io & Hop). exists op, io. by rewrite Hm in Hop.
  - exists (OpLegacyHeight 1), IoOk. by left.
Qed.

Lemma other_op {B} (height round : Z) (step : ReservedStep) (value : string) (io : Io) (f : unit → meth NodeState B) :
  (∀ a, keeps_disk (f a)) → reserves_other (on_disk (reserveV6 height round (reserved_step step) value io) ≫= f).
Proof.
  intros Hf n. exists (OpReserve height round step value), io. right. split; [done|]. cbn [run_op].
  unfold on_disk. rewrite meth_bind_run. destruct (reserveV6 _ _ _ _ _ (nd_disk n)) as [d [[]|e]]; cbn; [|done].
  by rewrite Hf.
Qed.

Ltac other :=
  repeat match goal with
  | |- reserves_other (on_disk (reserveV6 _ _ StepTimeout _ _) ≫= _) => apply (other_op _ _ ReserveTimeout); solve [keeps]
  | |- reserves_other (on_disk (reserveV6 _ _ StepBlockProposal _ _) ≫= _) => apply (other_op _ _ ReserveBlockProposal); solve [keeps]
  | |- reserves_other (on_disk (reserveV6 _ _ StepProposal _ _) ≫= _) => apply (other_op _ _ ReserveProposal); solve [keeps]
  | |- reserves_other (_ ≫= _) => apply other_before; [solve [keeps]|intros ?]
  | |- reserves_other _ => apply other_keeps; solve [keeps]
  end.

Lemma other_bind {A B} (m : meth NodeState A) (f : A → meth NodeState B) :
  reserves_other m → (∀ a, keeps_disk (f a)) → reserves_other (m ≫= f).
Proof.
  intros Hm Hf n. rewrite meth_bind_run. destruct (Hm n) as (op & io & Hop). exists op, io.
  destruct (m n) as [n1 [a|e]]; cbn in *; [|done]. by rewrite Hf.
Qed.

Lemma v6Timeout_effect (env : Env) (height round : Z) : reserves_other (v6Timeout env height round).
Proof.
  unfold v6Timeout. do 10 (apply other_before; [by keeps|intros ?]).
  apply other_bind; [|by keeps].
  match goal with |- reserves_other (match ?x with _ => _ end) => destruct x end; [by other|].
  match goal with |- reserves_other (let '(_, _) := ?x in _) => destruct x end. cbv zeta. other.
Qed.

Lemma v6SignFreshBlock_effect (env : Env) (block : Block) : reserves_other (v6SignFreshBlock env block).
Proof. unfold v6SignFreshBlock. other. Qed.

Lemma v6SignProposal_effect (env : Env) (round : Z) (block : Block) (tc : json) : reserves_other (v6SignProposal env round block tc).
Proof. unfold v6SignProposal, v6SignProposalLocked. other. Qed.

End handlers.
