(* ===== verification/Admission.v ===== *)
(** Transactions entering a node (l1/src/node-base.ts, the transaction half of
    [NodeService]): admission against the chain and the mempool, parked transactions
    and their expiry, validator updates that wait for a predecessor, and what a
    finalized block leaves in the pool.

    [clockMs] is a reading of the node's clock ([this.clock()]) and [dateMs] one of
    [Date.now()], which the chain's checks default to. *)

From S2P Require Import Prelude JsMap Types Codec JsonText Crypto Activity Transaction TxShape Ledger SparseTree StateV2 StateV2Root Mining Portable Block Genesis Governance ConsensusV6 BlockEnvelope Mempool Chain Selection.

Definition DEFAULT_MEMPOOL_MAX_FUTURE_NONCE_PER_SENDER : Z := 16.
Definition DEFAULT_MEMPOOL_PARKED_TX_TTL_MS : Z := 10 * 60000.
Definition MAX_MEMPOOL_PARKED_TX_TTL_MS : Z := 24 * 60 * 60000.
Definition PARKED_TX_SWEEP_INTERVAL_MS : Z := 1000.
Definition SEEN_EXPIRED_CACHE_MAX_ENTRIES : Z := 10000.
Definition SEEN_EXPIRED_CACHE_TTL_MS : Z := 60 * 60000.
Definition MAX_DEFERRED_VALIDATOR_UPDATES : Z := 16.
Definition MAX_DEFERRED_VARIANTS_PER_VALIDATOR_UPDATE : Z := 2.
Definition V6_MIN_ACTIVATION_MARGIN_BLOCKS : Z := 2000.
Definition MAX_STORED_BLOCK_LINE_BYTES : Z := 2500000.

Record BlockRange := mkBlockRange { rg_height : Z; rg_offset : Z; rg_length : Z }.

(** The store of finalized blocks (storage.ts): the chain in memory and what is
    known of the block file. *)
Record ChainStore := mkChainStore {
  cs_chain : ZyronChain;
  cs_persistedHeight : Z;
  cs_persistedBytes : Z;
  cs_blockRanges : list BlockRange;
  cs_persistenceFaulted : bool;
  cs_pendingPruneThroughHeight : option Z;
  cs_appendNeedsDelimiter : bool }.

Definition store_chain (ch : ZyronChain) (c : ChainStore) : ChainStore :=
  mkChainStore ch (cs_persistedHeight c) (cs_persistedBytes c) (cs_blockRanges c) (cs_persistenceFaulted c) (cs_pendingPruneThroughHeight c)
    (cs_appendNeedsDelimiter c).
Definition store_faulted (c : ChainStore) : ChainStore :=
  mkChainStore (cs_chain c) (cs_persistedHeight c) (cs_persistedBytes c) (cs_blockRanges c) true (cs_pendingPruneThroughHeight c)
    (cs_appendNeedsDelimiter c).
Definition store_appended (height delimiterBytes lineBytes : Z) (c : ChainStore) : ChainStore :=
  mkChainStore (cs_chain c) height (cs_persistedBytes c + (delimiterBytes + lineBytes))
    (cs_blockRanges c ++ [mkBlockRange height (cs_persistedBytes c + delimiterBytes) (lineBytes - 1)]) (cs_persistenceFaulted c)
    (cs_pendingPruneThroughHeight c) false.
Definition on_stored_chain {A} (m : meth ZyronChain A) : meth ChainStore A := λ c,
  let '(ch, r) := m (cs_chain c) in (store_chain ch c, r).

(** The fields of the service the transactions use; [Number.NEGATIVE_INFINITY] is
    [None].  [ns_relay] is whether a relay is set and [ns_relayed] what was handed
    to it. *)
Record NodeTransactions := mkNodeTransactions {
  ns_store : ChainStore;
  ns_mempool : Mempool;
  ns_maxFutureNoncePerSender : Z;
  ns_parkedTxTtlMs : Z;
  ns_lastParkedSweepMs : option Z;
  ns_seenExpired : js_map Z;
  ns_deferred : js_map (list ValidatorSetUpdateTx);
  ns_readmitted : list ValidatorSetUpdateTx;
  ns_readmittedIds : list string;
  ns_relay : bool;
  ns_relayed : list ValidatorSetUpdateTx }.

(** [this.store.chain] *)
Definition ns_chain (s : NodeTransactions) : ZyronChain := cs_chain (ns_store s).

Definition set_store (c : ChainStore) (s : NodeTransactions) : NodeTransactions :=
  mkNodeTransactions c (ns_mempool s) (ns_maxFutureNoncePerSender s) (ns_parkedTxTtlMs s) (ns_lastParkedSweepMs s) (ns_seenExpired s)
    (ns_deferred s) (ns_readmitted s) (ns_readmittedIds s) (ns_relay s) (ns_relayed s).
Definition set_mempool (m : Mempool) (s : NodeTransactions) : NodeTransactions :=
  mkNodeTransactions (ns_store s) m (ns_maxFutureNoncePerSender s) (ns_parkedTxTtlMs s) (ns_lastParkedSweepMs s) (ns_seenExpired s)
    (ns_deferred s) (ns_readmitted s) (ns_readmittedIds s) (ns_relay s) (ns_relayed s).
Definition set_swept (last : option Z) (s : NodeTransactions) : NodeTransactions :=
  mkNodeTransactions (ns_store s) (ns_mempool s) (ns_maxFutureNoncePerSender s) (ns_parkedTxTtlMs s) last (ns_seenExpired s)
    (ns_deferred s) (ns_readmitted s) (ns_readmittedIds s) (ns_relay s) (ns_relayed s).
Definition upd_expired (f : js_map Z → js_map Z) (s : NodeTransactions) : NodeTransactions :=
  mkNodeTransactions (ns_store s) (ns_mempool s) (ns_maxFutureNoncePerSender s) (ns_parkedTxTtlMs s) (ns_lastParkedSweepMs s) (f (ns_seenExpired s))
    (ns_deferred s) (ns_readmitted s) (ns_readmittedIds s) (ns_relay s) (ns_relayed s).
Definition upd_deferred (f : js_map (list ValidatorSetUpdateTx) → js_map (list ValidatorSetUpdateTx)) (s : NodeTransactions) : NodeTransactions :=
  mkNodeTransactions (ns_store s) (ns_mempool s) (ns_maxFutureNoncePerSender s) (ns_parkedTxTtlMs s) (ns_lastParkedSweepMs s) (ns_seenExpired s)
    (f (ns_deferred s)) (ns_readmitted s) (ns_readmittedIds s) (ns_relay s) (ns_relayed s).
Definition set_readmitted (txs : list ValidatorSetUpdateTx) (ids : list string) (relayed : list ValidatorSetUpdateTx) (s : NodeTransactions)
    : NodeTransactions :=
  mkNodeTransactions (ns_store s) (ns_mempool s) (ns_maxFutureNoncePerSender s) (ns_parkedTxTtlMs s) (ns_lastParkedSweepMs s) (ns_seenExpired s)
    (ns_deferred s) txs ids (ns_relay s) relayed.

(** A call of a method of the store, of its chain or of the mempool. *)
Definition on_store {A} (m : meth ChainStore A) : meth NodeTransactions A := λ s,
  let '(c, r) := m (ns_store s) in (set_store c s, r).
Definition on_chain {A} (m : meth ZyronChain A) : meth NodeTransactions A := on_store (on_stored_chain m).
Definition on_pool {A} (m : meth Mempool A) : meth NodeTransactions A := λ s,
  let '(pool, r) := m (ns_mempool s) in (set_mempool pool s, r).

(** [isDeepStrictEqual] on plain values: the order of the members does not count. *)
Fixpoint deepStrictEqual (a b : jsval string) : bool :=
  match a, b with
  | JUndefined, JUndefined | JNull, JNull => true
  | JBool x, JBool y => Bool.eqb x y
  | JNum (JInt x), JNum (JInt y) => x =? y
  | JNum JNegZero, JNum JNegZero => true
  | JStr x, JStr y => String.eqb x y
  | JArr xs, JArr ys =>
    (fix all (xs ys : list (jsval string)) : bool :=
      match xs, ys with
      | [], [] => true
      | x :: xs, y :: ys => deepStrictEqual x y && all xs ys
      | _, _ => false
      end) xs ys
  | JObj xs, JObj ys =>
    Nat.eqb (length xs) (length ys) &&
    forallb (λ e, match jm_get e.1 ys with Some v => deepStrictEqual e.2 v | None => false end) xs
  | _, _ => false
  end.

Section admission.
Context `{Crypto}.

(** ** Nonce gaps *)

(** The loop of [firstNonceGap], which looks at [count] nonces at most. *)
Fixpoint gap_from (count : nat) (m : Mempool) (sender : string) (nonce : Z) : Z :=
  match count with
  | O => nonce
  | S count' => if hasSenderNonce m sender nonce then gap_from count' m sender (nonce + 1) else nonce
  end.
Definition firstNonceGap (m : Mempool) (sender : string) (stateNonce : Z) : Z :=
  gap_from (Z.to_nat MAX_MEMPOOL_PENDING_PER_SENDER) m sender (stateNonce + 1).

Definition assertFutureNonceCap (s : NodeTransactions) (tx : Transaction) (stateNonce : Z) : res unit :=
  let m := ns_mempool s in
  if hasSenderNonce m (tx_sender tx) (tx_nonce tx) then Ok ()
  else
    let gap := firstNonceGap m (tx_sender tx) stateNonce in
    if tx_nonce tx <=? gap then Ok ()
    else
      let ready := gap - stateNonce - 1 in
      let parked := senderPendingCount m (tx_sender tx) - ready in
      throw_if (ns_maxFutureNoncePerSender s <=? parked)
        ("Too many future-nonce transactions for sender (limit " +:+ pretty (ns_maxFutureNoncePerSender s) +:+ "); submit nonce " +:+ pretty gap +:+ " first").

(** One expired entry: the gaps of the senders are kept beside the list. *)
Definition sweep_expired (s : NodeTransactions) (acc : gmap string Z * list string) (entry : string * string * Z) : res (gmap string Z * list string) :=
  let '(gaps, evict) := acc in
  let '(txid, sender, nonce) := entry in
  found ← match gaps !! sender with
          | Some gap => Ok (gaps, gap)
          | None => n ← chainNonce (ns_chain s) sender; let gap := firstNonceGap (ns_mempool s) sender n in Ok (<[sender := gap]> gaps, gap)
          end;
  Ok (found.1, if found.2 <? nonce then evict ++ [txid] else evict).

(** [while (this.seenExpired.size > MAX) delete the first key] *)
Definition trim_expired (seen : js_map Z) : js_map Z := drop (length seen - Z.to_nat SEEN_EXPIRED_CACHE_MAX_ENTRIES) seen.

Definition sweepExpiredParked (nowMs : Z) (force : bool) : meth NodeTransactions Z :=
  s ← m_get;
  if negb force && from_option (λ last, nowMs - last <? PARKED_TX_SWEEP_INTERVAL_MS) false (ns_lastParkedSweepMs s) then mret 0
  else
    m_modify (set_swept (Some nowMs));;
    let expired := admittedAtOrBefore (ns_mempool s) (nowMs - ns_parkedTxTtlMs s) in
    if bool_decide (expired = []) then mret 0
    else
      acc ← m_lift (res_fold (sweep_expired s) (∅, []) expired);
      on_pool (remove acc.2);;
      m_modify (upd_expired (λ seen, trim_expired (fold_left (λ seen txid, jm_set txid nowMs (jm_delete txid seen)) acc.2 seen)));;
      mret (zlen acc.2).
Definition evictExpiredParkedTransactions (clockMs : Z) : meth NodeTransactions Z := sweepExpiredParked clockMs true.

Definition assertNotRecentlyExpired (tx : Transaction) (stateNonce nowMs : Z) : meth NodeTransactions unit :=
  s ← m_get;
  match jm_get (tx_txid tx) (ns_seenExpired s) with
  | None => mret ()
  | Some expiredAtMs =>
    if (SEEN_EXPIRED_CACHE_TTL_MS <=? nowMs - expiredAtMs) || (nowMs <? expiredAtMs) then m_modify (upd_expired (jm_delete (tx_txid tx)))
    else
      let gap := firstNonceGap (ns_mempool s) (tx_sender tx) stateNonce in
      if tx_nonce tx <=? gap then m_modify (upd_expired (jm_delete (tx_txid tx)))
      else m_lift (Throw ("Transaction expired from this node's mempool while parked (nonce " +:+ pretty (tx_nonce tx) +:+
                          "); it is refused until nonce " +:+ pretty gap +:+ " is submitted first"))
  end.

(** [None] is pending, [Some gap] parked until the nonce [gap] arrives. *)
Definition admissionStatus (s : NodeTransactions) (sender : Address) (nonce : Z) : res (option Z) :=
  n ← chainNonce (ns_chain s) sender;
  let gap := firstNonceGap (ns_mempool s) sender n in
  Ok (if gap <? nonce then Some gap else None).

(** ** Admission *)

(** The spend of a transfer with the sender's other pending transfers. *)
Definition assertAffordable (s : NodeTransactions) (tx : Transaction) (dateMs : Z) : res unit :=
  match tx with
  | Transfer t =>
    let replacedSpend := from_option transfer_spend 0 (conflictingTransaction (ns_mempool s) (tr_sender t) (tr_nonce t)) in
    let pendingSpend := pendingTransferSpend (ns_mempool s) (tr_sender t) - replacedSpend in
    let required := pendingSpend + tr_amountAtoms t + tr_feeAtoms t in
    balance ← chainBalance (ns_chain s) (tr_sender t);
    throw_if (balance <? required) "Pending transfers exceed confirmed balance";;
    spendable ← spendableBalance (ns_chain s) (tr_sender t) dateMs;
    throw_if (spendable <? required) "Pending transfers exceed unlocked balance"
  | _ => Ok ()
  end.

Definition check_pending (transactions : list Transaction) (dateMs : Z) : meth NodeTransactions unit :=
  s ← m_get; on_chain (validatePending transactions (nextBlockTimestampMs (ns_chain s) dateMs)).

(** [predecessors.some(...)]: whether one of them applies in front of [tx]; the last
    error when none does. *)
Fixpoint some_predecessor (tx : Transaction) (dateMs : Z) (predecessors : list ValidatorSetUpdateTx) (lastError : string) : meth NodeTransactions unit :=
  match predecessors with
  | [] => m_lift (Throw lastError)
  | p :: rest =>
    s ← m_get;
    n ← m_lift (chainNonce (ns_chain s) (vu_sender p));
    let prefix := senderNonceRange (ns_mempool s) (vu_sender p) n (vu_nonce p) in
    m_catch (check_pending (prefix ++ [ValidatorUpdate p; tx]) dateMs) (λ error, some_predecessor tx dateMs rest error)
  end.

(** The checks in front of the nonce window. *)
Definition admit_shape (s : NodeTransactions) (value : jsval string) : res Transaction :=
  let ch := ns_chain s in
  tx ← validateTransactionShape value (fp_fixedTransferFeeAtoms <$> readFeePolicy (ch_genesis ch));
  throw_if (negb (String.eqb (tx_chainId tx) (g_chainId (ch_genesis ch)))) "Wrong transaction chain ID";;
  throw_if (match tx with
            | ProtocolUpgrade t => isConsensusV6 (pu_protocolVersion t) && (pu_activationHeight t <? ch_height ch + 1 + V6_MIN_ACTIVATION_MARGIN_BLOCKS)
            | _ => false
            end)
    ("Protocol v6 upgrade activation must be at least " +:+ pretty V6_MIN_ACTIVATION_MARGIN_BLOCKS +:+ " blocks ahead (node policy)");;
  Ok tx.

(** [admitTransaction(value)]; the transaction is returned, whose [txid] the code
    returns. *)
Definition admitTransaction (value : jsval string) (clockMs dateMs : Z) : meth NodeTransactions Transaction :=
  s ← m_get;
  tx ← m_lift (admit_shape s value);
  stateNonce ← m_lift (chainNonce (ns_chain s) (tx_sender tx));
  m_lift (assertMempoolSenderNonce (tx_nonce tx) stateNonce);;
  sweepExpiredParked clockMs false;;
  assertNotRecentlyExpired tx stateNonce clockMs;;
  s ← m_get;
  m_lift (assertFutureNonceCap s tx stateNonce);;
  let pendingUpdates := if is_update tx then validatorUpdates (ns_mempool s) else [] in
  predecessors ← m_lift (validateMempoolAdmission (ns_chain s) tx dateMs pendingUpdates);
  m_lift (assertAffordable s tx dateMs);;
  (if tx_nonce tx =? stateNonce + 1 then
     match predecessors with
     | [] => check_pending [tx] dateMs
     | _ => some_predecessor tx dateMs predecessors "undefined"
     end
   else mret ());;
  on_pool (add tx clockMs);;
  mret tx.

(** ** Validator updates that wait for a predecessor *)

Definition deferredValidatorUpdateKey (tx : ValidatorSetUpdateTx) : res string :=
  bytes ← canonicalBytes (to_units (validatorUpdateApprovalPayload (vu_chainId tx) (vu_nonce tx) (vu_sender tx) (vu_activationHeight tx) (vu_validators tx)));
  Ok (sha256Hex_bytes bytes).

Definition canStillDeferValidatorUpdate (s : NodeTransactions) (tx : ValidatorSetUpdateTx) : res bool :=
  let ch := ns_chain s in
  if vu_activationHeight tx <=? ch_height ch + 1 then Ok false
  else
    n ← chainNonce ch (vu_sender tx);
    if vu_nonce tx <=? n then Ok false
    else Ok (is_ok (assertValidatorUpdateAuthorizedExceptProofs ch tx;;
                    assertValidatorUpdatePossessionProofSignatures tx (g_chainId (ch_genesis ch)) (genesisHash ch))).

(** [while (variants.length >= MAX) variants.shift()] and
    [while (map.size >= MAX) delete the first key]. *)
Definition keep_last {A} (bound : Z) (l : list A) : list A := drop (length l - Z.to_nat (bound - 1)) l.

Definition deferRefusedValidatorUpdate (value : jsval string) : meth NodeTransactions unit :=
  s ← m_get;
  let ch := ns_chain s in
  if negb (hasValidatorAdmission (ch_genesis ch)) then mret ()
  else match validateTransactionShape value (fp_fixedTransferFeeAtoms <$> readFeePolicy (ch_genesis ch)) with
  | Ok (ValidatorUpdate tx) =>
    if negb (String.eqb (vu_chainId tx) (g_chainId (ch_genesis ch))) || has (ns_mempool s) (vu_txid tx) then mret ()
    else
      key ← m_lift (deferredValidatorUpdateKey tx);
      let variants := jm_get key (ns_deferred s) in
      if existsb (λ item, String.eqb (vu_txid item) (vu_txid tx)) (default [] variants) then mret ()
      else
        usable ← m_lift (canStillDeferValidatorUpdate s tx);
        if negb usable then mret ()
        else match variants with
        | Some variants => m_modify (upd_deferred (jm_set key (keep_last MAX_DEFERRED_VARIANTS_PER_VALIDATOR_UPDATE variants ++ [tx])))
        | None => m_modify (upd_deferred (λ d, jm_set key [tx] (keep_last MAX_DEFERRED_VALIDATOR_UPDATES d)))
        end
  | _ => mret ()
  end.

(** A deferred update with its key. *)
Abbreviation Deferred := (string * ValidatorSetUpdateTx)%type (only parsing).

(** [entries.flatMap(...)]: every deferred update with its key, oldest key first. *)
Definition flatten (d : js_map (list ValidatorSetUpdateTx)) : list Deferred := concat (map (λ e, map (λ tx, (e.1, tx)) e.2) d).

(** One pass over the updates that remain: those refused and the keys admitted. *)
Fixpoint retry_pass (clockMs dateMs : Z) (remaining refused : list Deferred) (admittedKeys : list string)
    : meth NodeTransactions (list Deferred * list string) :=
  match remaining with
  | [] => mret (refused, admittedKeys)
  | entry :: rest =>
    if bool_decide (entry.1 ∈ admittedKeys) then retry_pass clockMs dateMs rest (refused ++ [entry]) admittedKeys
    else λ s,
      match admitTransaction (tx_json (ValidatorUpdate entry.2)) clockMs dateMs s with
      | (s', Ok _) =>
        retry_pass clockMs dateMs rest refused (admittedKeys ++ [entry.1])
          (set_readmitted (ns_readmitted s' ++ [entry.2]) (ns_readmittedIds s' ++ [vu_txid entry.2]) (ns_relayed s') s')
      | (s', Throw _) => retry_pass clockMs dateMs rest (refused ++ [entry]) admittedKeys s'
      end
  end.

(** The passes, until one admits nothing; [fuel] passes at most, [None] if they are
    not enough. *)
Fixpoint retry_loop (fuel : nat) (clockMs dateMs : Z) (kept remaining : list Deferred) : meth NodeTransactions (option (list Deferred)) :=
  match remaining with
  | [] => mret (Some kept)
  | _ =>
    match fuel with
    | O => mret None
    | S fuel' =>
      pass ← retry_pass clockMs dateMs remaining [] [];
      let '(refused, admittedKeys) := pass in
      let kept' := kept ++ filter (λ e, e.1 ∈ admittedKeys) refused in
      let remaining' := filter (λ e, e.1 ∉ admittedKeys) refused in
      if bool_decide (admittedKeys = []) then mret (Some (kept' ++ remaining')) else retry_loop fuel' clockMs dateMs kept' remaining'
    end
  end.

(** What stays deferred, in the original order. *)
Definition defer_again (entry : Deferred) : meth NodeTransactions unit :=
  s ← m_get;
  usable ← m_lift (canStillDeferValidatorUpdate s entry.2);
  if negb usable then mret ()
  else m_modify (upd_deferred (λ d, jm_set entry.1 (default [] (jm_get entry.1 d) ++ [entry.2]) d)).

(** [order.get(txid)]: the position of the update, the last one of a repeated txid. *)
Fixpoint last_position (txid : string) (entries : list Deferred) (index : nat) (found : nat) : nat :=
  match entries with
  | [] => found
  | e :: rest => last_position txid rest (S index) (if String.eqb (vu_txid e.2) txid then index else found)
  end.
Definition order_le (entries : list Deferred) (left right : Deferred) : bool :=
  (last_position (vu_txid left.2) entries 0 0 <=? last_position (vu_txid right.2) entries 0 0)%nat.

Definition flushReadmittedTransactions : meth NodeTransactions unit :=
  m_modify (λ s, if negb (ns_relay s) || bool_decide (ns_readmitted s = []) then s
                 else set_readmitted [] (ns_readmittedIds s) (ns_relayed s ++ ns_readmitted s) s).

Definition retryDeferredValidatorUpdates (clockMs dateMs : Z) : meth NodeTransactions unit :=
  s ← m_get;
  m_modify (upd_deferred (λ _, []));;
  let entries := flatten (ns_deferred s) in
  left ← retry_loop (S (length entries)) clockMs dateMs [] entries;
  left ← m_lift (unwrap left "fuel");
  m_for defer_again (js_sort (order_le entries) left);;
  s ← m_get;
  let ids := filter (λ id, has (ns_mempool s) id = true) (ns_readmittedIds s) in
  let txs := ns_readmitted s in
  m_modify (set_readmitted
    (if MAX_DEFERRED_VALIDATOR_UPDATES <? zlen txs then drop (length txs - Z.to_nat MAX_DEFERRED_VALIDATOR_UPDATES) txs else txs) ids (ns_relayed s));;
  flushReadmittedTransactions.

Definition readmittedValidatorUpdate (s : NodeTransactions) (value : jsval string) : option string :=
  match value with
  | JObj entries =>
    match jm_get "txid" entries with
    | Some (JStr txid) =>
      if negb (bool_decide (txid ∈ ns_readmittedIds s)) then None
      else match jm_get txid (mp_byId (ns_mempool s)) with
           | Some pending => if deepStrictEqual (tx_json pending) value then Some txid else None
           | None => None
           end
    | _ => None
    end
  | _ => None
  end.

Definition isValidatorUpdateSender (s : NodeTransactions) (sender : Address) : bool :=
  existsb (λ e, existsb (λ tx, String.eqb (vu_sender tx) sender) e.2) (ns_deferred s) || hasValidatorUpdateFrom (ns_mempool s) sender.

Definition submitTransaction (value : jsval string) (clockMs dateMs : Z) : meth NodeTransactions string := λ s,
  match admitTransaction value clockMs dateMs s with
  | (s', Throw error) =>
    match readmittedValidatorUpdate s' value with
    | Some txid => (s', Ok txid)
    | None => (deferRefusedValidatorUpdate value;; m_lift (Throw error)) s'
    end
  | (s', Ok tx) =>
    ((if negb (bool_decide (ns_deferred s' = [])) && (is_update tx || isValidatorUpdateSender s' (tx_sender tx))
      then retryDeferredValidatorUpdates clockMs dateMs else mret ());;
     mret (tx_txid tx)) s'
  end.

(** ** Finalized blocks *)

(** A write inside [try]: when it fails the store is faulted until a restart. *)
Definition durable (written : res unit) (msg : string) : meth ChainStore unit :=
  match written with
  | Ok _ => mret ()
  | Throw _ => m_modify store_faulted;; m_lift (Throw msg)
  end.

(** [store.commitFinalizedBlock(block)]: [appended] is the outcome of the append to
    the block file with its sync, [recorded] that of committing the state tree. *)
Definition commitFinalizedBlock (block : RawBlock) (dateMs : Z) (appended recorded : res unit) : meth ChainStore unit :=
  c ← m_get;
  let height := h_height (b_header block) in
  m_throw_if (cs_persistenceFaulted c) "Persistence fault requires node restart";;
  m_throw_if (bool_decide (is_Some (cs_pendingPruneThroughHeight c))) "Interrupted pruning must be completed before new finalized writes";;
  m_throw_if (negb (height =? cs_persistedHeight c + 1)) "Refusing non-sequential block persistence";;
  m_throw_if (negb (ch_height (cs_chain c) =? cs_persistedHeight c)) "In-memory chain and durable height diverged";;
  nextStateV2 ← on_stored_chain (validatedStateV2ForBlock block dateMs);
  textBytes ← m_lift (canonical_bytes (raw_block_json block));
  let lineBytes := textBytes + 1 in
  m_throw_if (MAX_STORED_BLOCK_LINE_BYTES <? lineBytes) "Block exceeds persistence limit";;
  let delimiterBytes := if cs_appendNeedsDelimiter c && (0 <? cs_persistedBytes c) then 1 else 0 in
  durable appended "Finalized block persistence failed; restart required";;
  (if bool_decide (is_Some nextStateV2)
   then durable recorded "State v2 persistence failed after durable block write; restart required" else mret ());;
  on_stored_chain (acceptBlock block dateMs);;
  m_modify (store_appended height delimiterBytes lineBytes).

(** Whether a finalized block leaves no place for a pending transaction. *)
Definition outdated (ch : ZyronChain) (tx : Transaction) : res bool :=
  n ← chainNonce ch (tx_sender tx);
  if tx_nonce tx <=? n then Ok true
  else match tx with
  | ActivitySettlement _ => isActivitySettlementExpired ch tx
  | MiningClaim t => Ok (negb (mc_height t =? ch_height ch + 1) || negb (String.eqb (mc_previousHash t) (b_hash (ch_tip ch))))
  | _ => Ok false
  end.

(** [this.mempool.prune(predicate)] with the predicate above, which may throw. *)
Definition prune_outdated (ch : ZyronChain) : meth Mempool unit :=
  m ← m_get;
  m_for (λ e, gone ← m_lift (outdated ch e.2); if gone : bool then deleteTransaction e.1 e.2 false else mret ()) (mp_byId m).

(** The pool and the deferred updates once the chain has moved. *)
Definition settle_pool (clockMs dateMs : Z) : meth NodeTransactions unit :=
  s ← m_get;
  on_pool (remove (tx_txid <$> b_transactions (ch_tip (ns_chain s))));;
  on_pool (prune_outdated (ns_chain s));;
  sweepExpiredParked clockMs true;;
  s ← m_get;
  if bool_decide (ns_deferred s = []) then mret () else retryDeferredValidatorUpdates clockMs dateMs.

(** [acceptFinalizedBlock(value)]; [compacted] is the outcome of compacting the
    signing journal. *)
Definition acceptFinalizedBlock (value : jsval string) (clockMs dateMs : Z) (appended recorded compacted : res unit) : meth NodeTransactions unit :=
  block ← m_lift (validateBlockStructure value);
  on_store (commitFinalizedBlock block dateMs appended recorded);;
  m_lift compacted;;
  settle_pool clockMs dateMs.

(** ** The pool beside the chain *)

(** The binary supports the protocol version of the next height, and the tip has
    a time. *)
Definition supported (ch : ZyronChain) : Prop :=
  0 ≤ h_timestampMs (b_header (ch_tip ch)) ∧
  ∃ version, protocolVersionAt ch (ch_height ch + 1) = Ok version ∧ assertSupportedProtocolVersion version = Ok ().

(** A pending transaction that the chain leaves a place for. *)
Definition current (ch : ZyronChain) (tx : Transaction) : Prop := outdated ch tx = Ok false.

(** The same spelled out: the nonce is above the confirmed one, and a settlement
    can still make its epoch. *)
Definition in_place (ch : ZyronChain) (tx : Transaction) : Prop :=
  (∃ n, chainNonce ch (tx_sender tx) = Ok n ∧ n < tx_nonce tx) ∧
  ∀ t, tx = ActivitySettlement t → isActivitySettlementExpired ch tx = Ok false.

Lemma current_in_place (ch : ZyronChain) (tx : Transaction) : current ch tx → in_place ch tx.
Proof.
  unfold current, outdated. intros Hc. apply res_bind_Ok in Hc as (n & Hn & Hc). destruct (Z.leb_spec (tx_nonce tx) n); [discriminate Hc|].
  split; [by exists n|]. intros t ->. exact Hc.
Qed.

(** What a sender has pending is covered by its confirmed balance. *)
Definition covers (ch : ZyronChain) (m : Mempool) (a : string) : Prop :=
  pendingTransferSpend m a = 0 ∨ ∃ balance, chainBalance ch a = Ok balance ∧ pendingTransferSpend m a ≤ balance.

(** The pool as admission keeps it: if [K] holds its entries are current, and the
    pending transfers of the senders in [C] are covered. *)
Record pool_inv (K : Prop) (C : string → Prop) (ch : ZyronChain) (m : Mempool) : Prop := {
  pi_wf : mempool_wf m;
  pi_entries : ∀ e, e ∈ mp_byId m → (K → current ch e.2) ∧ 0 ≤ transfer_spend e.2;
  pi_covered : ∀ a, C a → covers ch m a }.

Lemma spend_total (m : Mempool) (a : string) : mempool_wf m → pendingTransferSpend m a = total (from_sender a transfer_spend) (mp_byId m).
Proof. intros Hwf. unfold pendingTransferSpend. apply counts_default. exact (tk_spend _ _ (mw_tracked _ Hwf)). Qed.

Lemma total_sub (f : Transaction → Z) (l k : js_map Transaction) : (∀ e, e ∈ k → 0 ≤ f e.2) → l ⊆+ k → total f l ≤ total f k.
Proof.
  intros Hf (x & Hp)%submseteq_Permutation. rewrite (total_perm _ _ _ Hp), total_app.
  assert (0 ≤ total f x); [|lia]. apply total_nonneg. intros e He. apply Hf. rewrite Hp. apply elem_of_app. by right.
Qed.

(** A pool with fewer entries. *)
Lemma pool_inv_sub (K : Prop) (C : string → Prop) (ch : ZyronChain) (m m' : Mempool) :
  pool_inv K C ch m → mempool_wf m' → mp_byId m' ⊆+ mp_byId m → pool_inv K C ch m'.
Proof.
  intros [Hwf He Hc] Hwf' Hsub. split; [done| |].
  - intros e Hin. apply He. by eapply elem_of_submseteq.
  - intros a Ha. specialize (Hc a Ha). unfold covers in *. rewrite spend_total in Hc |- * by done.
    assert (∀ l : js_map Transaction, (∀ e, e ∈ l → e ∈ mp_byId m) → ∀ e, e ∈ l → 0 ≤ from_sender a transfer_spend e.2) as Hnn.
    { intros l Hl e Hin. unfold from_sender. case_match; [apply He, Hl, Hin|lia]. }
    pose proof (total_sub (from_sender a transfer_spend) _ _ (Hnn _ ltac:(done)) Hsub) as Hle.
    pose proof (total_nonneg (from_sender a transfer_spend) (mp_byId m') (Hnn _ (λ e Hin, elem_of_submseteq _ _ e Hin Hsub))) as H0.
    destruct Hc as [Hz|(balance & Hb & Hle')]; [left; lia|right; exists balance; split; [done|lia]].
Qed.

(** The entries that a removal leaves. *)
Lemma removed_sub (m m' : Mempool) (P : string → bool) :
  mempool_wf m → mempool_wf m' → (∀ id, jm_get id (mp_byId m') = if P id then None else jm_get id (mp_byId m)) → mp_byId m' ⊆+ mp_byId m.
Proof.
  intros Hwf Hwf' Hg. pose proof (tk_nodup _ _ (mw_tracked _ Hwf')) as Hnd'. apply NoDup_submseteq.
  - unfold jm_keys in Hnd'. by eapply NoDup_fmap_1.
  - intros [id tx] Hin. apply jm_elem_get in Hin; [|done]. rewrite Hg in Hin. destruct (P id); [done|]. by apply jm_get_elem.
Qed.

Lemma pool_inv_remove (K : Prop) (C : string → Prop) (ch : ZyronChain) (m : Mempool) (txids : list string) :
  pool_inv K C ch m → ∃ m', remove txids m = (m', Ok ()) ∧ pool_inv K C ch m' ∧
    ∀ id, jm_get id (mp_byId m') = if bool_decide (id ∈ txids) then None else jm_get id (mp_byId m).
Proof.
  intros Hinv. pose proof (pi_wf _ _ _ _ Hinv) as Hwf. destruct (remove_keeps m txids Hwf) as (m' & Hr & Hwf' & _ & Hg). exists m'. split; [done|]. split; [|done].
  eapply pool_inv_sub; [done|done|]. by eapply (removed_sub m m' (λ id, bool_decide (id ∈ txids))).
Qed.

(** What the checks in front of the pool give. *)
Lemma shaped_pool_tx (value : jsval string) (fee : option Z) (tx : Transaction) :
  validateTransactionShape value fee = Ok tx → 0 ≤ transfer_spend tx ∧ (transactionBytes tx = Ok (bytes_of tx) → pool_tx tx).
Proof.
  intros (Hwf & _ & Hid & _)%shape_gate. destruct Hwf as [Hc Hk]. split.
  - destruct tx as [t|t|t|t|t|t]; try done; cbn [kind_wf] in Hk; cbn [transfer_spend]; lia.
  - intros Hb. unfold common_wf in Hc. split; [naive_solver|naive_solver| | |done].
    + by destruct tx.
    + intros E. rewrite E in Hid. done.
Qed.

(** An admitted transaction takes the place of the one in its nonce slot. *)
Lemma conflict_gone (m m' : Mempool) (tx : Transaction) (gone kept : js_map Transaction) :
  mempool_wf m → mempool_wf m' → mp_byId m ≡ₚ gone ++ kept → mp_byId m' ≡ₚ (tx_txid tx, tx) :: kept →
  match conflictingTransaction m (tx_sender tx) (tx_nonce tx) with Some old => ∃ id, (id, old) ∈ gone ∧ tx_key old = tx_key tx | None => True end.
Proof.
  intros Hwf Hwf' Hm Hm'. unfold conflictingTransaction. fold (tx_key tx). pose proof (mw_tracked _ Hwf) as Htr. pose proof (mw_tracked _ Hwf') as Htr'.
  pose proof (conflict_slot m (tx_key tx) Htr) as Hc. destruct (conflict_of m (tx_key tx)) as [id|]; [|done]. destruct Hc as (old & Hg & _ & Hk & _).
  cbn [mbind option_bind]. rewrite Hg. apply jm_get_elem in Hg as Hin. exists id. split; [|done]. rewrite Hm in Hin. apply elem_of_app in Hin as [?|Hin]; [done|]. exfalso.
  assert (id = tx_txid tx) as ->.
  { apply (slots_apart [] m' (id, old) (tx_txid tx, tx) Htr'); [rewrite Hm'; by right|rewrite Hm'; by left|done]. }
  pose proof (tk_nodup _ _ Htr') as Hnd. rewrite (fmap_Permutation fst _ _ Hm' : jm_keys (mp_byId m') ≡ₚ _) in Hnd.
  apply NoDup_cons in Hnd as [Hn _]. apply Hn. apply (list_elem_of_fmap_2 fst _ _ Hin).
Qed.

(** The spend of the sender after an admission: the conflicting entry no longer
    counts. *)
Lemma added_spend (m m' : Mempool) (tx : Transaction) (gone kept : js_map Transaction) :
  mempool_wf m → mempool_wf m' → pool_tx tx → mp_byId m ≡ₚ gone ++ kept → mp_byId m' ≡ₚ (tx_txid tx, tx) :: kept →
  (∀ e, e ∈ gone ++ kept → 0 ≤ from_sender (tx_sender tx) transfer_spend e.2) →
  total (from_sender (tx_sender tx) transfer_spend) (mp_byId m') ≤
    total (from_sender (tx_sender tx) transfer_spend) (mp_byId m)
    - from_option transfer_spend 0 (conflictingTransaction m (tx_sender tx) (tx_nonce tx)) + transfer_spend tx.
Proof.
  intros Hwf Hwf' Hpool Hm Hm' Hnn. rewrite (total_perm _ _ _ Hm'), total_cons, (total_perm _ _ _ Hm), total_app. cbn [snd].
  unfold from_sender at 1. rewrite String.eqb_refl. set (f := from_sender (tx_sender tx) transfer_spend) in *.
  assert (∀ e, e ∈ gone → 0 ≤ f e.2) as Hg by (intros e Hin; apply Hnn, elem_of_app; by left).
  pose proof (conflict_gone m m' tx gone kept Hwf Hwf' Hm Hm') as Hcf. destruct (conflictingTransaction m _ _) as [old|]; cbn [from_option].
  2:{ pose proof (total_nonneg f gone Hg). lia. }
  destruct Hcf as (id & Hin & Hkey). assert (tx_sender old = tx_sender tx) as Es.
  { pose proof (tracked_pool _ _ (mw_tracked _ Hwf)) as Hp. rewrite Forall_forall in Hp.
    apply (tx_key_inj old tx); [|done..]. apply (Hp (id, old)). rewrite Hm. apply elem_of_app. by left. }
  pose proof (sumZ_elem_le (λ e : string * Transaction, f e.2) gone (id, old) Hg Hin) as Hone.
  cbn [snd] in Hone. unfold f at 1, from_sender in Hone. rewrite Es, String.eqb_refl in Hone. unfold total in *. lia.
Qed.

Lemma unweighed (m : Mempool) (tx : Transaction) (t : Z) (e : string) : transactionBytes tx = Throw e → ∃ e', add tx t m = (m, Throw e').
Proof.
  intros Hb. unfold add. rewrite get_run. assert (∃ e', add_checks m tx = Throw e') as (e' & ->); [|by exists e'].
  destruct (add_checks m tx) as [b|e'] eqn:E; [|by exists e']. unfold add_checks in E. cbv zeta in E. res_split. congruence.
Qed.

Lemma pool_inv_add (K : Prop) (C : string → Prop) (ch : ZyronChain) (m m' : Mempool) (tx : Transaction) (t : Z) (r : res unit) (value : jsval string) (fee : option Z) :
  let required := pendingTransferSpend m (tx_sender tx) - from_option transfer_spend 0 (conflictingTransaction m (tx_sender tx) (tx_nonce tx)) + transfer_spend tx in
  pool_inv K C ch m → validateTransactionShape value fee = Ok tx → current ch tx →
  (is_transfer tx = true → ∃ balance, chainBalance ch (tx_sender tx) = Ok balance ∧ required ≤ balance) →
  add tx t m = (m', r) →
  pool_inv K C ch m' ∧ (r = Ok () → (tx_txid tx, tx) ∈ mp_byId m' ∧ pendingTransferSpend m' (tx_sender tx) ≤ required).
Proof.
  intros required Hinv Hshape Hahead Hpay Hadd. pose proof (pi_wf _ _ _ _ Hinv) as Hwf. destruct (shaped_pool_tx _ _ _ Hshape) as [Hspend Hpool].
  destruct (transactionBytes tx) as [b|e] eqn:Eb.
  2:{ destruct (unweighed m tx t e Eb) as (e' & E). rewrite E in Hadd. injection Hadd as <- <-. by split. }
  assert (bytes_of tx = b) as <- by (unfold bytes_of; by rewrite Eb). specialize (Hpool eq_refl).
  pose proof (add_admission m tx t Hwf Hpool) as Ha. rewrite Hadd in Ha. destruct Ha as (Hwf' & _ & Ha). destruct r as [[]|e].
  2:{ split; [|done]. eapply pool_inv_sub; [done|done|]. by rewrite (un_entries _ _ Ha). }
  destruct Ha as (replaced & evicted & kept & Hm & Hm' & _). set (gone := replaced ++ evicted) in Hm.
  assert (∀ e, e ∈ gone ++ kept → e ∈ mp_byId m) as Hold by (intros e; by rewrite Hm). destruct Hinv as [_ He Hc].
  assert (∀ a e, e ∈ gone ++ kept → 0 ≤ from_sender a transfer_spend e.2) as Hnn.
  { intros a e Hin. unfold from_sender. case_match; [apply He, Hold, Hin|lia]. }
  assert (pendingTransferSpend m' (tx_sender tx) ≤ required) as Hreq.
  { unfold required. rewrite !spend_total by done. apply (added_spend m m' tx gone kept); auto. }
  split; [|intros _; split; [rewrite Hm'; by left|done]]. split; [done| |].
  - intros e. rewrite Hm'. intros [-> | Hin]%elem_of_cons; [by split|]. apply He, Hold. apply elem_of_app. by right.
  - intros a HC. specialize (Hc a HC). unfold covers in *. destruct (decide (a = tx_sender tx ∧ is_transfer tx = true)) as [[-> Ht]|Hno].
    { right. destruct (Hpay Ht) as (balance & Hb & Hle). exists balance. split; [done|]. by etrans. }
    rewrite spend_total in Hc |- * by done. rewrite (total_perm _ _ _ Hm'), total_cons. cbn [snd].
    rewrite (total_perm _ _ _ Hm), total_app in Hc.
    pose proof (total_nonneg (from_sender a transfer_spend) gone (λ e Hin, Hnn a e (proj2 (elem_of_app _ _ _) (or_introl Hin)))) as Hg.
    pose proof (total_nonneg (from_sender a transfer_spend) kept (λ e Hin, Hnn a e (proj2 (elem_of_app _ _ _) (or_intror Hin)))) as Hk.
    assert (from_sender a transfer_spend tx = 0) as ->.
    { unfold from_sender. destruct (String.eqb_spec (tx_sender tx) a) as [<-|]; [|done]. destruct tx; try done. by destruct Hno. }
    destruct Hc as [Hz|(balance & Hb & Hle)]; [left; lia|right; exists balance; split; [done|lia]].
Qed.

(** ** Methods beside a chain that stays *)

Definition preserves {A} (I : NodeTransactions → Prop) (m : meth NodeTransactions A) : Prop := ∀ s s' r, I s → m s = (s', r) → I s'.

Lemma preserves_bind {A B} (I : NodeTransactions → Prop) (m : meth NodeTransactions A) (k : A → meth NodeTransactions B) :
  preserves I m → (∀ a, preserves I (k a)) → preserves I (m ≫= k).
Proof.
  intros Hm Hk s s' r HI. rewrite meth_bind_run. destruct (m s) as [s1 [a|e]] eqn:Em; [apply (Hk a s1 s' r), (Hm _ _ _ HI Em)|].
  intros [= <- <-]. exact (Hm _ _ _ HI Em).
Qed.
Lemma preserves_id {A} (I : NodeTransactions → Prop) (f : NodeTransactions → res A) : preserves I (λ s, (s, f s)).
Proof. intros s s' r HI [= <- _]. exact HI. Qed.
Lemma preserves_lift {A} (I : NodeTransactions → Prop) (r : res A) : preserves I (m_lift r).
Proof. apply preserves_id. Qed.
Lemma preserves_ret {A} (I : NodeTransactions → Prop) (a : A) : preserves I (mret a).
Proof. apply (preserves_id I (λ _, Ok a)). Qed.
Lemma preserves_get (I : NodeTransactions → Prop) : preserves I m_get.
Proof. apply (preserves_id I Ok). Qed.
Lemma preserves_modify (I : NodeTransactions → Prop) (f : NodeTransactions → NodeTransactions) : (∀ s, I s → I (f s)) → preserves I (m_modify f).
Proof. intros Hf s s' r HI [= <- _]. by apply Hf. Qed.
Lemma preserves_for {A} (I : NodeTransactions → Prop) (body : A → meth NodeTransactions unit) (l : list A) :
  (∀ x, preserves I (body x)) → preserves I (m_for body l).
Proof. intros Hb. induction l as [|x l IH]; cbn [m_for]; [apply preserves_ret|]. apply preserves_bind; auto. Qed.

(** The chain and the deferred updates do not move, and the pool keeps its
    invariant. *)
Record at_chain (K : Prop) (C : string → Prop) (ch : ZyronChain) (d : js_map (list ValidatorSetUpdateTx)) (s : NodeTransactions) : Prop := {
  ac_chain : ns_chain s = ch;
  ac_deferred : ns_deferred s = d;
  ac_pool : pool_inv K C ch (ns_mempool s) }.

Lemma preserves_remove K C ch d (txids : list string) : preserves (at_chain K C ch d) (on_pool (remove txids)).
Proof.
  intros s s' r [Hc Hd Hp]. unfold on_pool. destruct (pool_inv_remove K C ch (ns_mempool s) txids Hp) as (m' & -> & Hp' & _).
  intros [= <- _]. by split.
Qed.

Lemma preserves_sweep K C ch d (nowMs : Z) (force : bool) : preserves (at_chain K C ch d) (sweepExpiredParked nowMs force).
Proof.
  unfold sweepExpiredParked. apply preserves_bind; [apply preserves_get|]. intros s0. destruct (_ && _); [apply preserves_ret|].
  apply preserves_bind; [apply preserves_modify; by intros s []|]. intros _. cbv zeta. case_bool_decide; [apply preserves_ret|].
  apply preserves_bind; [apply preserves_lift|]. intros acc. apply preserves_bind; [apply preserves_remove|]. intros _.
  apply preserves_bind; [apply preserves_modify; by intros s []|]. intros _. apply preserves_ret.
Qed.

Lemma preserves_expired K C ch d (tx : Transaction) (n nowMs : Z) : preserves (at_chain K C ch d) (assertNotRecentlyExpired tx n nowMs).
Proof.
  unfold assertNotRecentlyExpired. apply preserves_bind; [apply preserves_get|]. intros s0. destruct (jm_get _ _); [|apply preserves_ret].
  repeat case_match; try (apply preserves_modify; by intros s []). apply preserves_lift.
Qed.

(** [validatePending] is a check: the chain stays. *)
Lemma check_pending_pure (s : NodeTransactions) (txs : list Transaction) (dateMs : Z) : supported (ns_chain s) → (check_pending txs dateMs s).1 = s.
Proof.
  intros (_ & version & Hv & Hs). unfold check_pending, on_chain. rewrite get_run. unfold validatePending.
  pose proof (validateAndApply_pure (ns_chain s) txs (ch_height (ns_chain s) + 1) (nextBlockTimestampMs (ns_chain s) dateMs) None version Hv Hs) as Hp.
  unfold on_store, on_stored_chain.
  fold (ns_chain s). rewrite get_run, meth_bind_run.
  destruct (validateAndApply _ _ _ _ _) as [ch [a|e]]; cbn in Hp |- *; rewrite Hp; by destruct s as [[]].
Qed.
Lemma some_predecessor_pure (s : NodeTransactions) (tx : Transaction) (dateMs : Z) (ps : list ValidatorSetUpdateTx) (e : string) :
  supported (ns_chain s) → (some_predecessor tx dateMs ps e s).1 = s.
Proof.
  intros Hs. revert e. induction ps as [|p ps IH]; intros e; [done|]. cbn [some_predecessor]. rewrite get_run, meth_bind_run.
  destruct (m_lift _ s) as [s1 r] eqn:E. injection E as <- <-. destruct (chainNonce _ _) as [n|]; [|done]. cbv zeta. unfold m_catch.
  match goal with |- context [check_pending ?t ?d s] => pose proof (check_pending_pure s t d Hs) as Hp; destruct (check_pending t d s) as [s1 [[]|e']] end;
    cbn [fst] in Hp; subst s1; [done|apply IH].
Qed.

(** ** Admission *)

Lemma lift_stop {S A B} (e : string) (k : A → meth S B) (s : S) : (m_lift (Throw e) ≫= k) s = (s, Throw e).
Proof. done. Qed.

(** A settlement in its window is not expired for the earliest next block. *)
Lemma settlement_window_open (epoch genesis tip now : Z) :
  0 ≤ tip → assertActivityEpochWindow epoch genesis (Z.max now (tip + 1)) = Ok () → activityEpochWindowExpired epoch genesis (tip + 1) = Ok false.
Proof.
  intros Ht Hw. pose proof (epoch_window_spec _ _ _ _ Hw) as [Hr He]. unfold assertActivityEpochWindow in Hw.
  apply res_bind_Ok in Hw as (? & _ & Hw). apply res_bind_Ok in Hw as (cur & Hc & _). unfold activityEpochAt in Hc.
  apply res_bind_Ok in Hc as (? & Hs%throw_if_Ok & _). breflect. destruct Hs as [Hg Hs].
  unfold activityEpochWindowExpired, activityEpochAt. rewrite (proj2 (throw_if_Ok _ _ ())); cbn [mbind res_bind].
  2:{ breflect. split; [lia|]. unfold MAX_SAFE_INTEGER in *. lia. }
  unfold math_floor_div, ACTIVITY_EPOCH_MS in *. destruct (Z.ltb_spec (tip + 1) genesis); cbn [mbind res_bind]; f_equal; apply Z.ltb_ge; [lia|].
  Z.div_mod_to_equations. lia.
Qed.

(** An admitted transaction is one the chain leaves a place for. *)
Lemma admitted_current (ch : ZyronChain) (tx : Transaction) (n dateMs : Z) (pending : list Transaction) (ps : list ValidatorSetUpdateTx) :
  supported ch → chainNonce ch (tx_sender tx) = Ok n → assertMempoolSenderNonce (tx_nonce tx) n = Ok () →
  validateMempoolAdmission ch tx dateMs pending = Ok ps → current ch tx.
Proof.
  intros [Htip _] Hn Hw Hadm. unfold current, outdated. rewrite Hn. cbn [mbind res_bind].
  unfold assertMempoolSenderNonce in Hw. apply res_bind_Ok in Hw as (? & _ & Hw%throw_if_Ok). rewrite Hw.
  destruct tx as [t|t|t|t|t|t]; try done; unfold validateMempoolAdmission in Hadm; do 4 (apply res_bind_Ok in Hadm as (? & _ & Hadm)).
  all: try by (apply res_bind_Ok in Hadm as (? & Hm & _); discriminate Hm).
  apply res_bind_Ok in Hadm as (? & Hset & _). unfold admit_settlement in Hset. cbv zeta in Hset.
  do 4 (apply res_bind_Ok in Hset as (? & _ & Hset)). apply res_bind_Ok in Hset as ([] & Hwin & _).
  by apply (settlement_window_open _ _ _ dateMs).
Qed.

(** What the affordability check gives. *)
Lemma affordable_required (s : NodeTransactions) (tx : Transaction) (dateMs : Z) :
  assertAffordable s tx dateMs = Ok () → is_transfer tx = true →
  ∃ balance spendable, chainBalance (ns_chain s) (tx_sender tx) = Ok balance ∧ spendableBalance (ns_chain s) (tx_sender tx) dateMs = Ok spendable ∧
    pendingTransferSpend (ns_mempool s) (tx_sender tx)
      - from_option transfer_spend 0 (conflictingTransaction (ns_mempool s) (tx_sender tx) (tx_nonce tx)) + transfer_spend tx ≤ Z.min balance spendable.
Proof.
  destruct tx as [t|t|t|t|t|t]; try done. intros Ha _. unfold assertAffordable in Ha. cbv zeta in Ha.
  apply res_bind_Ok in Ha as (balance & Hb & Ha). apply res_bind_Ok in Ha as (? & H1%throw_if_Ok & Ha). apply res_bind_Ok in Ha as (spendable & Hs & Ha%throw_if_Ok).
  exists balance, spendable. cbn [tx_sender tx_nonce transfer_spend]. split_and!; [done|done|]. breflect. lia.
Qed.

Lemma admit_spec K C ch d (value : jsval string) (clockMs dateMs : Z) (s s' : NodeTransactions) (r : res Transaction) :
  supported ch → at_chain K C ch d s → admitTransaction value clockMs dateMs s = (s', r) →
  at_chain K C ch d s' ∧
  ∀ tx, r = Ok tx →
    validateTransactionShape value (fp_fixedTransferFeeAtoms <$> readFeePolicy (ch_genesis ch)) = Ok tx ∧ current ch tx ∧ (tx_txid tx, tx) ∈ mp_byId (ns_mempool s') ∧
    (is_transfer tx = true → ∃ balance spendable, chainBalance ch (tx_sender tx) = Ok balance ∧ spendableBalance ch (tx_sender tx) dateMs = Ok spendable ∧
       pendingTransferSpend (ns_mempool s') (tx_sender tx) ≤ Z.min balance spendable).
Proof.
  intros Hsup Hat. unfold admitTransaction. rewrite get_run. pose proof (ac_chain _ _ _ _ _ Hat) as Ech.
  destruct (admit_shape s value) as [tx|e] eqn:Eshape; [|intros [= <- <-]; by split]. rewrite (lift_run _ tx) by done.
  destruct (chainNonce (ns_chain s) (tx_sender tx)) as [n|e] eqn:En; [|intros [= <- <-]; by split]. rewrite (lift_run _ n) by done.
  destruct (assertMempoolSenderNonce (tx_nonce tx) n) as [[]|e] eqn:Ew; [|intros [= <- <-]; by split]. rewrite (lift_run _ ()) by done.
  rewrite meth_bind_run. destruct (sweepExpiredParked clockMs false s) as [s1 r1] eqn:E1. apply (preserves_sweep K C ch d) in E1 as Hat1; [|done].
  destruct r1 as [k|e]; [|intros [= <- <-]; by split].
  rewrite meth_bind_run. destruct (assertNotRecentlyExpired tx n clockMs s1) as [s2 r2] eqn:E2. apply (preserves_expired K C ch d) in E2 as Hat2; [|done].
  destruct r2 as [[]|e]; [|intros [= <- <-]; by split]. rewrite get_run. pose proof (ac_chain _ _ _ _ _ Hat2) as Ech2.
  destruct (assertFutureNonceCap s2 tx n) as [[]|e]; [|intros [= <- <-]; by split]. rewrite (lift_run _ ()) by done. cbv zeta.
  destruct (validateMempoolAdmission _ _ _ _) as [ps|e] eqn:Eadm; [|intros [= <- <-]; by split]. rewrite (lift_run _ ps) by done.
  destruct (assertAffordable s2 tx dateMs) as [[]|e] eqn:Eaff; [|intros [= <- <-]; by split]. rewrite (lift_run _ ()) by done.
  rewrite meth_bind_run.
  assert (∃ r3, (if tx_nonce tx =? n + 1 then match ps with [] => check_pending [tx] dateMs | _ => some_predecessor tx dateMs ps "undefined" end else mret ()) s2
    = (s2, r3)) as (r3 & ->).
  { assert (supported (ns_chain s2)) as Hs2 by congruence. destruct (tx_nonce tx =? n + 1); [|by eexists]. destruct ps as [|p ps].
    - pose proof (check_pending_pure s2 [tx] dateMs Hs2) as Hp. destruct (check_pending [tx] dateMs s2) as [? r3]. cbn in Hp. subst. by exists r3.
    - pose proof (some_predecessor_pure s2 tx dateMs (p :: ps) "undefined" Hs2) as Hp. destruct (some_predecessor _ _ _ _ s2) as [? r3]. cbn in Hp. subst. by exists r3. }
  destruct r3 as [[]|e]; [|intros [= <- <-]; by split]. rewrite meth_bind_run. unfold on_pool.
  destruct (add tx clockMs (ns_mempool s2)) as [m' r4] eqn:Eadd.
  rewrite Ech in *. rewrite Ech2 in *. apply res_bind_Ok in Eshape as (tx' & Hshape & Eshape). do 2 (apply res_bind_Ok in Eshape as (? & _ & Eshape)). apply Ok_inj in Eshape as ->.
  rewrite Ech in Hshape. pose proof (affordable_required s2 tx dateMs Eaff) as Hreq. rewrite Ech2 in Hreq.
  destruct (pool_inv_add K C ch (ns_mempool s2) m' tx clockMs r4 value _ (ac_pool _ _ _ _ _ Hat2) Hshape (admitted_current _ _ _ _ _ _ Hsup En Ew Eadm)) as [Hinv Hin].
  - intros Ht. destruct (Hreq Ht) as (balance & spendable & Hb & _ & Hle). exists balance. split; [done|lia].
  - done.
  - destruct r4 as [[]|e]; intros [= <- <-]; (split; [by split; [|apply Hat2|]|]); [|done]. intros ? [= <-]. destruct (Hin eq_refl) as [Hin1 Hin2].
    split_and!; [done|by eapply admitted_current|done|]. intros Ht. destruct (Hreq Ht) as (balance & spendable & Hb & Hs & Hle). exists balance, spendable. split_and!; [done|done|].
    cbn [ns_mempool set_mempool]. lia.
Qed.

(** ** The deferred updates *)

(** At most sixteen approved updates wait, with one or two variants each. *)
Record deferred_ok (d : js_map (list ValidatorSetUpdateTx)) : Prop := {
  df_keys : NoDup (jm_keys d);
  df_updates : zlen d ≤ MAX_DEFERRED_VALIDATOR_UPDATES;
  df_variants : Forall (λ e, 1 ≤ zlen e.2 ≤ MAX_DEFERRED_VARIANTS_PER_VALIDATOR_UPDATE) d }.

Lemma flatten_cons (e : string * list ValidatorSetUpdateTx) d : flatten (e :: d) = map (λ tx, (e.1, tx)) e.2 ++ flatten d.
Proof. done. Qed.

Lemma flatten_keys d (e : Deferred) : e ∈ flatten d → e.1 ∈ jm_keys d.
Proof.
  induction d as [|[k v] d IH]; [intros He; by apply not_elem_of_nil in He|]. rewrite flatten_cons. intros [He|He]%elem_of_app; [|right; auto].
  apply list_elem_of_fmap in He as (tx & -> & _). by left.
Qed.

Lemma flatten_put d (k : string) (tx : ValidatorSetUpdateTx) : flatten (jm_set k (default [] (jm_get k d) ++ [tx]) d) ≡ₚ flatten d ++ [(k, tx)].
Proof.
  induction d as [|[x v] d IH]; [done|]. cbn [jm_set jm_get]. destruct (String.eqb_spec x k) as [->|]; rewrite !flatten_cons; cbn [fst snd default].
  - rewrite map_app, <-!app_assoc. apply Permutation_app_head. cbn. apply Permutation_cons_append.
  - by rewrite IH, app_assoc.
Qed.

(** The variants of a key, counted. *)
Lemma flatten_count d (k : string) (v : list ValidatorSetUpdateTx) :
  NoDup (jm_keys d) → (k, v) ∈ d → length (filter (λ e : Deferred, e.1 = k) (flatten d)) = length v.
Proof.
  assert (∀ x (l : list ValidatorSetUpdateTx), filter (λ e : Deferred, e.1 = k) (map (λ tx, (x, tx)) l) = if decide (x = k) then map (λ tx, (x, tx)) l else []) as Hf.
  { intros x l. induction l as [|tx l IH]; [by case_decide|]. cbn [map]. rewrite filter_cons, IH. cbn [fst]. by repeat case_decide. }
  induction d as [|[x w] d IH]; intros Hnd Hin; [by apply not_elem_of_nil in Hin|]. apply NoDup_cons in Hnd as [Hx Hnd].
  rewrite flatten_cons, filter_app, Hf, length_app. cbn [fst snd] in *. apply elem_of_cons in Hin as [[= <- <-]|Hin].
  - rewrite decide_True, length_map by done. assert (filter (λ e : Deferred, e.1 = k) (flatten d) = []) as ->; [|cbn; lia].
    apply elem_of_nil_inv. intros e (Hk & He)%list_elem_of_filter. apply Hx. rewrite <-Hk. by apply flatten_keys.
  - rewrite decide_False, IH by (first [done | intros ->; apply Hx; by apply (list_elem_of_fmap_2 fst _ (k, v))]). done.
Qed.

Lemma filter_length_sub {A} (P : A → Prop) `{∀ x, Decision (P x)} (l k : list A) : l ⊆+ k → (length (filter P l) ≤ length (filter P k))%nat.
Proof. intros (x & ->)%submseteq_Permutation. rewrite filter_app, length_app. lia. Qed.

(** What is deferred again out of a bounded set is bounded. *)
Lemma deferred_ok_sub d d' :
  deferred_ok d → NoDup (jm_keys d') → Forall (λ e, e.2 ≠ []) d' → flatten d' ⊆+ flatten d → deferred_ok d'.
Proof.
  intros [Hnd Hu Hv] Hnd' Hne Hsub. rewrite Forall_forall in Hv, Hne.
  assert (∀ k v', (k, v') ∈ d' → ∃ v, (k, v) ∈ d ∧ (length v' ≤ length v)%nat) as Hof.
  { intros k v' Hin. assert (k ∈ jm_keys d) as Hk.
    { pose proof (Hne _ Hin) as Hn. destruct v' as [|tx v']; [done|]. apply (flatten_keys d (k, tx)). apply (elem_of_submseteq (flatten d')); [|done].
      clear -Hin. induction d' as [|x d' IH]; [by apply not_elem_of_nil in Hin|]. rewrite flatten_cons. apply elem_of_app.
      apply elem_of_cons in Hin as [<-|Hin]; [left; by left|right; auto]. }
    unfold jm_keys in Hk. apply list_elem_of_fmap in Hk as ([? v] & Ek & Hv'). cbn in Ek. subst. exists v. split; [done|].
    rewrite <-(flatten_count d' _ v' Hnd' Hin), <-(flatten_count d _ v Hnd Hv'). by apply filter_length_sub. }
  split; [done| |].
  - etrans; [|exact Hu]. unfold zlen. apply inj_le. rewrite <-(length_fmap fst d'), <-(length_fmap fst d). apply submseteq_length, NoDup_submseteq; [done|].
    intros k Hk. apply list_elem_of_fmap in Hk as ([? v'] & -> & Hin). destruct (Hof _ _ Hin) as (v & Hv' & _). apply (list_elem_of_fmap_2 fst _ _ Hv').
  - apply Forall_forall. intros [k v'] Hin. destruct (Hof _ _ Hin) as (v & Hv' & Hle). pose proof (Hv _ Hv') as Hb. pose proof (Hne _ Hin) as Hn.
    cbn [snd] in *. unfold zlen in *. destruct v'; [done|]. cbn [length] in *. lia.
Qed.

(** ** Trying the deferred updates again *)

Lemma retry_pass_spec K C ch d (clockMs dateMs : Z) (remaining refused : list Deferred) (admittedKeys : list string) (s : NodeTransactions) :
  supported ch → at_chain K C ch d s →
  ∃ s' more keys, retry_pass clockMs dateMs remaining refused admittedKeys s = (s', Ok (refused ++ more, keys)) ∧ at_chain K C ch d s' ∧
    more ⊆+ remaining ∧ (length more + length keys = length remaining + length admittedKeys)%nat.
Proof.
  intros Hsup. revert s refused admittedKeys. induction remaining as [|entry rest IH]; intros s refused keys Hat; cbn [retry_pass].
  - exists s, [], keys. rewrite app_nil_r. split_and!; try done.
  - assert (∀ s1, at_chain K C ch d s1 → ∃ s' more keys', retry_pass clockMs dateMs rest (refused ++ [entry]) keys s1 = (s', Ok (refused ++ more, keys')) ∧
      at_chain K C ch d s' ∧ more ⊆+ entry :: rest ∧ (length more + length keys' = length (entry :: rest) + length keys)%nat) as Hrefuse.
    { intros s1 Hat1. destruct (IH s1 (refused ++ [entry]) keys Hat1) as (s' & more & keys' & -> & Hat' & Hsub & Hlen). exists s', (entry :: more), keys'.
      rewrite <-app_assoc. split_and!; [done|done|by constructor|cbn [length]; lia]. }
    case_bool_decide; [by apply Hrefuse|]. destruct (admitTransaction _ clockMs dateMs s) as [s1 r] eqn:Ea.
    destruct (admit_spec K C ch d _ _ _ _ _ _ Hsup Hat Ea) as [Hat1 _]. destruct r as [tx|e]; [|by apply Hrefuse].
    match goal with |- context [retry_pass _ _ rest refused ?k ?s2] => destruct (IH s2 refused k) as (s' & more & keys' & -> & Hat' & Hsub & Hlen) end.
    { by destruct Hat1. }
    exists s', more, keys'. rewrite length_app in Hlen. split_and!; [done|done|by apply submseteq_cons|cbn [length] in *; lia].
Qed.

Lemma filter_split {A} (P : A → Prop) `{∀ x, Decision (P x)} (l : list A) : l ≡ₚ filter P l ++ filter (λ x, ¬ P x) l.
Proof.
  induction l as [|x l IH]; [done|]. rewrite !filter_cons. repeat case_decide; try done; cbn [app]; [by f_equiv|]. rewrite IH at 1. apply Permutation_middle.
Qed.

(** A pass for every update that waits, and one more, are enough: every pass but
    the last admits one. *)
Lemma retry_loop_spec K C ch d (fuel : nat) (clockMs dateMs : Z) (kept remaining : list Deferred) (s : NodeTransactions) :
  supported ch → at_chain K C ch d s → (length remaining < fuel)%nat →
  ∃ s' left, retry_loop fuel clockMs dateMs kept remaining s = (s', Ok (Some left)) ∧ at_chain K C ch d s' ∧ left ⊆+ kept ++ remaining.
Proof.
  intros Hsup. revert kept remaining s. induction fuel as [|fuel IH]; intros kept remaining s Hat Hf; [lia|].
  destruct remaining as [|e rest]; cbn [retry_loop]; [exists s, kept; rewrite app_nil_r; by split_and!|]. remember (e :: rest) as remaining eqn:Er.
  rewrite meth_bind_run. destruct (retry_pass_spec K C ch d clockMs dateMs remaining [] [] s Hsup Hat) as (s1 & more & keys & -> & Hat1 & Hsub & Hlen).
  cbn [app]. pose proof (filter_split (λ e : Deferred, e.1 ∈ keys) more) as Hsplit. case_bool_decide as Hk.
  - exists s1. eexists. split; [done|]. split; [done|]. rewrite <-app_assoc. apply submseteq_skips_l. by rewrite <-Hsplit.
  - destruct (IH (kept ++ filter (λ e, e.1 ∈ keys) more) (filter (λ e, e.1 ∉ keys) more) s1 Hat1) as (s' & left & -> & Hat' & Hl).
    { assert (0 < length keys)%nat by (destruct keys; [done|cbn; lia]). pose proof (Permutation_length Hsplit) as Hp. rewrite length_app in Hp.
      cbn [length] in Hlen. rewrite Nat.add_0_r in Hlen. lia. }
    exists s', left. split_and!; [done|done|]. etrans; [exact Hl|]. rewrite <-app_assoc. apply submseteq_skips_l. by rewrite <-Hsplit.
Qed.

(** The service beside its chain: the deferred updates may change within their
    bounds. *)
Record service_inv (K : Prop) (C : string → Prop) (ch : ZyronChain) (s : NodeTransactions) : Prop := {
  sv_chain : ns_chain s = ch;
  sv_deferred : deferred_ok (ns_deferred s);
  sv_pool : pool_inv K C ch (ns_mempool s) }.

Lemma service_at K C ch (s : NodeTransactions) : service_inv K C ch s ↔ deferred_ok (ns_deferred s) ∧ at_chain K C ch (ns_deferred s) s.
Proof. split; [intros []; by split|]. by intros [? []]. Qed.

Lemma service_of_chain K C ch d (s : NodeTransactions) : deferred_ok d → at_chain K C ch d s → service_inv K C ch s.
Proof. intros Hd [? <- ?]. by split. Qed.

(** The rebuilding of the deferred updates. *)
Record rebuilt (all : list Deferred) (d : js_map (list ValidatorSetUpdateTx)) : Prop := {
  rb_keys : NoDup (jm_keys d);
  rb_full : Forall (λ e, e.2 ≠ []) d;
  rb_from : flatten d ⊆+ all }.

Lemma rebuilt_put (all : list Deferred) (rest : list Deferred) d (e : Deferred) :
  rebuilt all d → flatten d ++ e :: rest ⊆+ all →
  let d' := jm_set e.1 (default [] (jm_get e.1 d) ++ [e.2]) d in rebuilt all d' ∧ flatten d' ++ rest ⊆+ all.
Proof.
  intros [Hk Hf _] Hsub d'. destruct e as [k tx]. cbn [fst snd] in *.
  assert (flatten d' ++ rest ⊆+ all) as Hsub'.
  { unfold d'. rewrite flatten_put, <-app_assoc. exact Hsub. }
  split; [|done]. split.
  - unfold d'. rewrite jm_set_keys. case_bool_decide as Hp; [done|]. apply NoDup_app. split_and!; [done| |apply NoDup_singleton].
    intros x Hx ->%list_elem_of_singleton. apply Hp. by apply jm_get_Some_keys.
  - unfold d'. clear -Hf. induction Hf as [|[x v] d Hv Hf IH]; [by repeat constructor|]. cbn [jm_set jm_get].
    destruct (String.eqb x k); constructor; try done. cbn. intros E. by apply app_eq_nil in E as [_ ?].
  - etrans; [|exact Hsub']. apply submseteq_inserts_r. done.
Qed.

Lemma defer_again_all K C ch (all rest : list Deferred) (s s' : NodeTransactions) (r : res unit) :
  at_chain K C ch (ns_deferred s) s → rebuilt all (ns_deferred s) → flatten (ns_deferred s) ++ rest ⊆+ all →
  m_for defer_again rest s = (s', r) → at_chain K C ch (ns_deferred s') s' ∧ rebuilt all (ns_deferred s').
Proof.
  revert s. induction rest as [|e rest IH]; intros s Hat Hre Hsub; cbn [m_for]; [intros [= <- _]; by split|].
  rewrite meth_bind_run. unfold defer_again at 1. rewrite get_run, meth_bind_run. unfold m_lift at 1.
  destruct (canStillDeferValidatorUpdate s e.2) as [[]|x]; cbn [negb]; [| |intros [= <- _]; by split].
  - destruct (rebuilt_put all rest (ns_deferred s) e Hre Hsub) as [Hre' Hsub']. intros Hr. refine (IH _ _ _ _ Hr); [by destruct Hat|done|done].
  - intros Hr. apply (IH s Hat Hre); [|done]. etrans; [|exact Hsub]. apply submseteq_skips_l. by apply submseteq_cons.
Qed.

Lemma preserves_retry K C ch (clockMs dateMs : Z) : supported ch → preserves (service_inv K C ch) (retryDeferredValidatorUpdates clockMs dateMs).
Proof.
  intros Hsup s s' r Hsv. pose proof (sv_deferred _ _ _ _ Hsv) as Hd. unfold retryDeferredValidatorUpdates. rewrite get_run, modify_run. cbv zeta.
  set (s0 := upd_deferred _ s). assert (at_chain K C ch [] s0) as Hat0 by (by destruct Hsv).
  rewrite meth_bind_run. destruct (retry_loop_spec K C ch [] (S (length (flatten (ns_deferred s)))) clockMs dateMs [] (flatten (ns_deferred s)) s0 Hsup Hat0 ltac:(lia))
    as (s1 & left & -> & Hat1 & Hleft). rewrite (lift_run _ left) by done. rewrite meth_bind_run.
  pose proof (ac_deferred _ _ _ _ _ Hat1) as E1. destruct (m_for defer_again _ s1) as [s2 r2] eqn:E2.
  eapply (defer_again_all K C ch (flatten (ns_deferred s))) in E2 as [Hat2 [Hk2 Hf2 Hs2]].
  2: by rewrite E1.
  2:{ rewrite E1. split; [constructor|constructor|apply submseteq_nil_l]. }
  2:{ rewrite E1. cbn [flatten concat map app]. by rewrite js_sort_perm. }
  pose proof (service_of_chain _ _ _ _ _ (deferred_ok_sub _ _ Hd Hk2 Hf2 Hs2) Hat2) as Hsv2. destruct r2 as [[]|e]; [|by intros [= <- _]].
  rewrite get_run, modify_run. unfold flushReadmittedTransactions. intros [= <- _]. destruct Hsv2. by destruct (_ || _); split.
Qed.

Lemma keep_last_length {A} (bound : Z) (l : list A) : 1 ≤ bound → zlen (keep_last bound l) ≤ bound - 1.
Proof. intros Hb. unfold keep_last, zlen. rewrite length_drop. lia. Qed.

(** A variant of an update that waits, and an update that is new. *)
Lemma deferred_ok_variant d (key : string) (variants : list ValidatorSetUpdateTx) (tx : ValidatorSetUpdateTx) :
  deferred_ok d → jm_get key d = Some variants → deferred_ok (jm_set key (keep_last MAX_DEFERRED_VARIANTS_PER_VALIDATOR_UPDATE variants ++ [tx]) d).
Proof.
  intros [Hk Hu Hv] Eg. set (l := keep_last _ _). assert (jm_keys (jm_set key (l ++ [tx]) d) = jm_keys d) as Ek.
  { rewrite jm_set_keys, Eg. by rewrite bool_decide_true by (by eexists). }
  split; [by rewrite Ek| |].
  - unfold zlen. rewrite <-(length_fmap fst). fold (jm_keys (jm_set key (l ++ [tx]) d)). rewrite Ek. unfold jm_keys. by rewrite length_fmap.
  - pose proof (keep_last_length MAX_DEFERRED_VARIANTS_PER_VALIDATOR_UPDATE variants ltac:(done)) as Hl. fold l in Hl.
    assert (1 ≤ zlen (l ++ [tx]) ≤ MAX_DEFERRED_VARIANTS_PER_VALIDATOR_UPDATE) as Hlen by (unfold zlen in *; rewrite length_app; cbn [length]; lia).
    clear -Hv Hlen. induction Hv as [|[x v] d Hx Hv IH]; cbn [jm_set]; [by apply Forall_singleton|]. destruct (String.eqb x key); by constructor.
Qed.
Lemma deferred_ok_new d (key : string) (tx : ValidatorSetUpdateTx) :
  deferred_ok d → jm_get key d = None → deferred_ok (jm_set key [tx] (keep_last MAX_DEFERRED_VALIDATOR_UPDATES d)).
Proof.
  intros [Hk Hu Hv] Eg. pose proof (keep_last_length MAX_DEFERRED_VALIDATOR_UPDATES d ltac:(done)) as Hl.
  assert (jm_keys (keep_last MAX_DEFERRED_VALIDATOR_UPDATES d) `sublist_of` jm_keys d) as Hks.
  { unfold keep_last, jm_keys. rewrite fmap_drop. apply sublist_drop. }
  apply (Forall_drop _ (length d - Z.to_nat (MAX_DEFERRED_VALIDATOR_UPDATES - 1))) in Hv. fold (keep_last MAX_DEFERRED_VALIDATOR_UPDATES d) in Hv.
  revert Hl Hks Hv. generalize (keep_last MAX_DEFERRED_VALIDATOR_UPDATES d). intros d1 Hl Hks Hv.
  assert (jm_get key d1 = None) as Egd.
  { apply jm_get_None. apply jm_get_None in Eg. intros Hin. apply Eg. eapply elem_of_submseteq; [exact Hin|]. by apply sublist_submseteq. }
  rewrite (jm_set_new _ _ _ Egd). split.
  - unfold jm_keys. rewrite fmap_app. apply NoDup_app. split_and!; [by eapply sublist_NoDup| |apply NoDup_singleton].
    intros x Hx ->%list_elem_of_singleton. by apply jm_get_None in Egd.
  - unfold zlen in *. rewrite length_app. cbn [length]. lia.
  - apply Forall_app. split; [done|]. by apply Forall_singleton.
Qed.

Lemma preserves_defer K C ch (value : jsval string) : preserves (service_inv K C ch) (deferRefusedValidatorUpdate value).
Proof.
  intros s s' r Hsv. unfold deferRefusedValidatorUpdate. rewrite get_run. destruct (negb (hasValidatorAdmission _)); [by intros [= <- _]|].
  destruct (validateTransactionShape _ _) as [[t|t|t|tx|t|t]|e]; try by intros [= <- _].
  destruct (_ || _); [by intros [= <- _]|]. rewrite meth_bind_run. unfold m_lift at 1. destruct (deferredValidatorUpdateKey tx) as [key|e]; [|by intros [= <- _]].
  cbv zeta. destruct (existsb _ _); [by intros [= <- _]|]. rewrite meth_bind_run. unfold m_lift at 1. destruct (canStillDeferValidatorUpdate s tx) as [[]|e];
    cbn [negb]; try by intros [= <- _]. destruct Hsv as [Hc Hd Hp].
  destruct (jm_get key (ns_deferred s)) as [variants|] eqn:Eg; intros [= <- _]; split; try done; cbn [upd_deferred ns_deferred];
    [by apply deferred_ok_variant|by apply deferred_ok_new].
Qed.

Lemma preserves_submit K C ch (value : jsval string) (clockMs dateMs : Z) : supported ch → preserves (service_inv K C ch) (submitTransaction value clockMs dateMs).
Proof.
  intros Hsup s s' r Hsv. pose proof (proj1 (service_at _ _ _ _) Hsv) as [Hd Hat]. unfold submitTransaction.
  destruct (admitTransaction value clockMs dateMs s) as [s1 r1] eqn:Ea. destruct (admit_spec _ _ _ _ _ _ _ _ _ _ Hsup Hat Ea) as [Hat1 _].
  apply (service_of_chain _ _ _ _ _ Hd) in Hat1 as Hsv1. destruct r1 as [tx|e].
  - apply (preserves_bind (service_inv K C ch)); [destruct (_ && _); [by apply preserves_retry|apply preserves_ret]|intros _; apply preserves_ret|done].
  - destruct (readmittedValidatorUpdate s1 value) as [txid|]; [by intros [= <- _]|].
    apply (preserves_bind (service_inv K C ch)); [apply preserves_defer|intros _; apply preserves_lift|done].
Qed.

(** ** Blocks *)

Lemma prune_loop (ch : ZyronChain) (rest : js_map Transaction) (m m' : Mempool) (r : res unit) :
  mempool_wf m → NoDup (jm_keys rest) → (∀ e, e ∈ rest → e ∈ mp_byId m) →
  m_for (λ e, gone ← m_lift (outdated ch e.2); if gone : bool then deleteTransaction e.1 e.2 false else mret ()) rest m = (m', r) →
  mempool_wf m' ∧ mp_byId m' ⊆+ mp_byId m ∧ (r = Ok () → ∀ e, e ∈ mp_byId m' → e ∈ rest → current ch e.2).
Proof.
  revert m. induction rest as [|[id tx] rest IH]; intros m Hwf Hnd Hin; cbn [m_for].
  { intros [= <- <-]. split_and!; [done|done|]. intros _ e _ He. by apply not_elem_of_nil in He. }
  rewrite !meth_bind_run. unfold m_lift at 1. cbn [fst snd]. destruct (outdated ch tx) as [[]|e] eqn:Eo; [| |intros [= <- <-]; by split_and!].
  - pose proof (Hin (id, tx) ltac:(by left)) as Htx. pose proof (mw_tracked _ Hwf) as Htr. pose proof (tk_entries _ _ Htr) as He. rewrite Forall_forall in He.
    destruct (He _ Htx) as [Hid _]. cbn in Hid. subst id. apply jm_elem_get in Htx; [|apply Htr]. destruct (remove_wf m tx Hwf Htx) as (m1 & -> & Hwf1 & _ & Hb).
    apply NoDup_cons in Hnd as [Hn Hnd]. intros Hr. destruct (IH m1 Hwf1 Hnd) with (2 := Hr) as (Hwf' & Hsub & Hcur).
    { intros x Hx. rewrite Hb. apply jm_delete_elem. split; [apply Hin; by right|]. intros E. apply Hn. cbn [fst]. rewrite <-E. by apply (list_elem_of_fmap_2 fst). }
    split_and!; [done| |].
    + etrans; [exact Hsub|]. rewrite Hb. rewrite (jm_delete_perm _ _ _ (tk_nodup _ _ Htr) Htx) at 2. by apply submseteq_cons.
    + intros Hok x Hx [-> | Hx']%elem_of_cons; [|by apply Hcur]. exfalso. apply (elem_of_submseteq _ _ _ Hx) in Hsub. rewrite Hb in Hsub.
      by apply jm_delete_elem in Hsub as [_ ?].
  - apply NoDup_cons in Hnd as [_ Hnd]. intros Hr. destruct (IH m Hwf Hnd) with (2 := Hr) as (Hwf' & Hsub & Hcur); [intros x Hx; apply Hin; by right|].
    split_and!; [done|done|]. intros Hok x Hx [-> | Hx']%elem_of_cons; [done|by apply Hcur].
Qed.

Lemma prune_outdated_spec (ch : ZyronChain) (m m' : Mempool) (r : res unit) :
  mempool_wf m → prune_outdated ch m = (m', r) → mempool_wf m' ∧ mp_byId m' ⊆+ mp_byId m ∧ (r = Ok () → ∀ e, e ∈ mp_byId m' → current ch e.2).
Proof.
  intros Hwf. unfold prune_outdated. rewrite get_run. intros Hr. apply prune_loop in Hr as (Hwf' & Hsub & Hcur); [|done|apply (mw_tracked _ Hwf)|done].
  split_and!; [done|done|]. intros Hok e He. apply (Hcur Hok e He). by eapply elem_of_submseteq.
Qed.

Lemma service_weaken (K K' : Prop) C ch (s : NodeTransactions) : (K' → K) → service_inv K C ch s → service_inv K' (λ _, False) ch s.
Proof. intros HK [Hc Hd [Hwf He _]]. split; [done|done|]. split; [done| |done]. intros e Hin. destruct (He e Hin). split; auto. Qed.

Lemma service_throw K C ch (e : string) (s : NodeTransactions) : service_inv K C ch s → service_inv (Throw (A := unit) e = Ok ()) (λ _, False) ch s.
Proof. by apply service_weaken. Qed.

(** Once the chain has moved the books are still in order, and when the pool is
    settled its entries are current again. *)
Lemma settle_spec ch (clockMs dateMs : Z) (s s' : NodeTransactions) (r : res unit) :
  supported ch → service_inv False (λ _, False) ch s → settle_pool clockMs dateMs s = (s', r) → service_inv (r = Ok ()) (λ _, False) ch s'.
Proof.
  intros Hsup Hsv. unfold settle_pool. rewrite get_run, meth_bind_run. destruct (on_pool (remove _) s) as [s1 r1] eqn:E1.
  assert (service_inv False (λ _, False) ch s1) as Hsv1.
  { apply service_at in Hsv as [Hd Hat]. apply (preserves_remove _ _ _ _ _ _ _ _ Hat) in E1. by eapply service_of_chain. }
  destruct r1 as [[]|e]; [|intros [= <- <-]; by eapply service_throw].
  rewrite meth_bind_run. unfold on_pool at 1. rewrite (sv_chain _ _ _ _ Hsv). destruct (prune_outdated ch (ns_mempool s1)) as [m2 r2] eqn:E2.
  assert (service_inv (r2 = Ok ()) (λ _, False) ch (set_mempool m2 s1)) as Hsv2.
  { destruct Hsv1 as [Hc Hd Hp]. destruct (prune_outdated_spec _ _ _ _ (pi_wf _ _ _ _ Hp) E2) as (Hwf & Hsub & Hcur). split; [done|done|].
    split; [done| |done]. intros x Hx. split; [intros Hok; by apply (Hcur Hok)|]. apply (pi_entries _ _ _ _ Hp). by eapply elem_of_submseteq. }
  destruct r2 as [[]|e]; [|intros [= <- <-]; by eapply service_throw].
  rewrite meth_bind_run. destruct (sweepExpiredParked clockMs true (set_mempool m2 s1)) as [s3 r3] eqn:E3.
  assert (service_inv True (λ _, False) ch s3) as Hsv3.
  { apply (service_weaken _ True) in Hsv2; [|done]. apply service_at in Hsv2 as [Hd Hat]. apply (preserves_sweep _ _ _ _ _ _ _ _ _ Hat) in E3. by eapply service_of_chain. }
  destruct r3 as [k|e]; [|intros [= <- <-]; by eapply service_throw]. rewrite get_run. case_bool_decide; [intros [= <- <-]; by apply (service_weaken True _ (λ _, False))|].
  intros Hr. by apply (service_weaken True _ (λ _, False)), (preserves_retry _ _ _ _ _ Hsup _ _ _ Hsv3 Hr).
Qed.

(** The chain a block leads to is one the binary supports. *)
Definition block_supported (c : ChainStore) (value : jsval string) (dateMs : Z) (appended recorded : res unit) : Prop :=
  ∀ block c', validateBlockStructure value = Ok block → commitFinalizedBlock block dateMs appended recorded c = (c', Ok ()) → supported (cs_chain c').

Lemma accept_spec K C ch (value : jsval string) (clockMs dateMs : Z) (appended recorded compacted : res unit) (s s' : NodeTransactions) (r : res unit) :
  service_inv K C ch s → block_supported (ns_store s) value dateMs appended recorded →
  acceptFinalizedBlock value clockMs dateMs appended recorded compacted s = (s', r) →
  service_inv (r = Ok ()) (λ _, False) (ns_chain s') s'.
Proof.
  intros Hsv Hsup. apply (service_weaken _ False) in Hsv; [|done].
  assert (∀ c', service_inv False (λ _, False) (cs_chain c') (set_store c' s)) as Hmoved.
  { intros c'. destruct Hsv as [_ Hd [Hwf He _]]. split; [done|done|]. split; [done| |done]. intros e Hin. split; [done|by apply He]. }
  unfold acceptFinalizedBlock. rewrite meth_bind_run. unfold m_lift at 1. destruct (validateBlockStructure value) as [block|e] eqn:Eb.
  2:{ intros [= <- <-]. rewrite (sv_chain _ _ _ _ Hsv). by eapply service_throw. }
  rewrite meth_bind_run. unfold on_store at 1. destruct (commitFinalizedBlock block dateMs appended recorded (ns_store s)) as [c' rc] eqn:Ec.
  destruct rc as [[]|e]; [|intros [= <- <-]; exact (service_throw _ _ _ _ _ (Hmoved c'))].
  rewrite meth_bind_run. unfold m_lift at 1. destruct compacted as [[]|e]; [|intros [= <- <-]; exact (service_throw _ _ _ _ _ (Hmoved c'))].
  intros Hr. apply settle_spec with (ch := cs_chain c') in Hr; [|by eapply Hsup|done]. by rewrite (sv_chain _ _ _ _ Hr).
Qed.

(** ** A node over time *)

(** A node that submits transactions and receives blocks.  The flag says that the
    pool was settled since the last block that moved the chain; a block that was
    committed and whose settling failed leaves it unset. *)
Inductive node_runs (s0 : NodeTransactions) : bool → NodeTransactions → Prop :=
| nr_start : node_runs s0 true s0
| nr_submit b s value clockMs dateMs s' r :
    node_runs s0 b s → supported (ns_chain s) → submitTransaction value clockMs dateMs s = (s', r) → node_runs s0 b s'
| nr_sweep b s clockMs s' r : node_runs s0 b s → evictExpiredParkedTransactions clockMs s = (s', r) → node_runs s0 b s'
| nr_block b s value clockMs dateMs appended recorded compacted s' :
    node_runs s0 b s → block_supported (ns_store s) value dateMs appended recorded →
    acceptFinalizedBlock value clockMs dateMs appended recorded compacted s = (s', Ok ()) → node_runs s0 true s'
| nr_failed b s value clockMs dateMs appended recorded compacted s' e :
    node_runs s0 b s → block_supported (ns_store s) value dateMs appended recorded →
    acceptFinalizedBlock value clockMs dateMs appended recorded compacted s = (s', Throw e) → node_runs s0 false s'.

(** A node that starts: nothing is pending or deferred. *)
Definition started (s : NodeTransactions) : Prop := mempool_wf (ns_mempool s) ∧ mp_byId (ns_mempool s) = [] ∧ ns_deferred s = [].

Lemma runs_service (s0 s : NodeTransactions) (b : bool) : started s0 → node_runs s0 b s → service_inv (b = true) (λ _, False) (ns_chain s) s.
Proof.
  intros (Hwf & Hempty & Hd) Hrun. induction Hrun as [|b s v c d s' r _ IH Hsup Hr|b s c s' r _ IH Hr|b s v c d p q k s' _ IH Hsup Hr|b s v c d p q k s' e _ IH Hsup Hr].
  - split; [done|rewrite Hd; by repeat constructor|]. split; [done| |done]. rewrite Hempty. intros e He. by apply not_elem_of_nil in He.
  - apply (preserves_submit _ _ _ _ _ _ Hsup _ _ _ IH) in Hr. by rewrite (sv_chain _ _ _ _ Hr).
  - apply service_at in IH as [Hdef Hat]. apply (preserves_sweep _ _ _ _ _ _ _ _ _ Hat) in Hr. apply (service_of_chain _ _ _ _ _ Hdef) in Hr. by rewrite (sv_chain _ _ _ _ Hr).
  - apply (accept_spec _ _ _ _ _ _ _ _ _ _ _ _ IH Hsup) in Hr. eapply service_weaken; [|exact Hr]; done.
  - apply (accept_spec _ _ _ _ _ _ _ _ _ _ _ _ IH Hsup) in Hr. eapply service_weaken; [|exact Hr]; done.
Qed.

(** C8. The pool follows the chain.  A node starts with nothing pending or deferred;
    submissions, expiry sweeps and finalized blocks then interleave in any order,
    blocks that fail at any point among them, under one condition: whenever a
    transaction is submitted or a block has been committed, the binary supports the
    protocol version scheduled for the next height (without it the check at admission
    moves the confirmed ledger itself: [pending_check_spends] of Selection.v).  Then
    the pool's books stay in order and the deferred validator updates within their
    bounds; and unless the last block was committed without settling the pool, every
    pending transaction has a nonce above its sender's confirmed nonce, and no
    pending settlement has missed its epoch. *)
Theorem pool_follows_chain (s0 s : NodeTransactions) (settled : bool) :
  started s0 → node_runs s0 settled s →
  mempool_wf (ns_mempool s) ∧ deferred_ok (ns_deferred s) ∧
  (settled = true → Forall (in_place (ns_chain s)) (values (ns_mempool s))).
Proof.
  intros Hs Hrun. destruct (runs_service _ _ _ Hs Hrun) as [_ Hd [Hwf He _]]. split_and!; [done|done|]. intros Hb.
  unfold values. apply Forall_fmap, Forall_forall. intros e Hin. by apply current_in_place, (He e Hin).
Qed.

(** C9. Admission covers what it promises.  On a node as in the previous theorem,
    while the binary supports the protocol version scheduled for the next height, a
    transaction that is admitted passed the shape gate, is pending afterwards, and
    has a place on the chain, which admission leaves as it was (with an unsupported
    version it does not: [pending_check_spends] of Selection.v).  If it is a
    transfer, the sender's pending transfers together fit the confirmed and the
    unlocked balance; and no sender whose pending transfers were covered loses
    that. *)
Theorem admission_covered (s0 s s' : NodeTransactions) (settled : bool) (value : jsval string) (clockMs dateMs : Z) (tx : Transaction) :
  started s0 → node_runs s0 settled s → supported (ns_chain s) →
  admitTransaction value clockMs dateMs s = (s', Ok tx) →
  ns_chain s' = ns_chain s ∧
  validateTransactionShape value (fp_fixedTransferFeeAtoms <$> readFeePolicy (ch_genesis (ns_chain s))) = Ok tx ∧
  tx ∈ values (ns_mempool s') ∧ in_place (ns_chain s) tx ∧
  (is_transfer tx = true → ∃ balance spendable,
     chainBalance (ns_chain s) (tx_sender tx) = Ok balance ∧ spendableBalance (ns_chain s) (tx_sender tx) dateMs = Ok spendable ∧
     pendingTransferSpend (ns_mempool s') (tx_sender tx) ≤ Z.min balance spendable) ∧
  ∀ a, covers (ns_chain s) (ns_mempool s) a → covers (ns_chain s) (ns_mempool s') a.
Proof.
  intros Hs Hrun Hsup Ha. pose proof (runs_service _ _ _ Hs Hrun) as [Hc Hd [Hwf He _]].
  assert (at_chain (settled = true) (covers (ns_chain s) (ns_mempool s)) (ns_chain s) (ns_deferred s) s) as Hat.
  { split; [done|done|]. split; [done|done|]. by intros a. }
  destruct (admit_spec _ _ _ _ _ _ _ _ _ _ Hsup Hat Ha) as [[Hc' _ [_ _ Hcov]] Hok]. destruct (Hok tx eq_refl) as (Hshape & Hcur & Hin & Hpay).
  split_and!; [done|done| |by apply current_in_place|done|done]. apply (list_elem_of_fmap_2 snd _ _ Hin).
Qed.

Lemma flatten_length d : deferred_ok d → (length (flatten d) ≤ 32)%nat.
Proof.
  intros [_ Hu Hv]. assert (length (flatten d) ≤ 2 * length d)%nat as Hl.
  { clear Hu. induction Hv as [|e d He Hv IH]; [done|]. rewrite flatten_cons, length_app, length_map. cbn [length].
    unfold zlen, MAX_DEFERRED_VARIANTS_PER_VALIDATOR_UPDATE in *. lia. }
  unfold zlen, MAX_DEFERRED_VALIDATOR_UPDATES in *. lia.
Qed.

(** C10. Trying the deferred updates again terminates, within 33 passes, on a node
    as above while the binary supports the protocol version scheduled for the next
    height: at most 32 updates wait, and every pass but the last admits one.  What is
    left was waiting before, and no update is duplicated. *)
Theorem retry_terminates (s0 s : NodeTransactions) (settled : bool) (clockMs dateMs : Z) :
  started s0 → node_runs s0 settled s → supported (ns_chain s) →
  ∃ s' left, retry_loop 33 clockMs dateMs [] (flatten (ns_deferred s)) (upd_deferred (λ _, []) s) = (s', Ok (Some left)) ∧
    left ⊆+ flatten (ns_deferred s) ∧ (length (flatten (ns_deferred s)) ≤ 32)%nat.
Proof.
  intros Hs Hrun Hsup. pose proof (runs_service _ _ _ Hs Hrun) as [Hc Hd Hp]. pose proof (flatten_length _ Hd) as Hl.
  destruct (retry_loop_spec (settled = true) (λ _, False) (ns_chain s) [] 33 clockMs dateMs [] (flatten (ns_deferred s)) (upd_deferred (λ _, []) s) Hsup)
    as (s' & left & Hr & _ & Hleft); [done|lia|]. by exists s', left.
Qed.
End admission.

(** ** A node at work *)

Module AdmissionExample.
Import ToyCrypto BlockExample ChainExample.
#[local] Existing Instance ToyCrypto.toy.

Definition pool : Mempool := Eval vm_compute in
  MempoolExample.pool_of (new_mempool None None DEFAULT_MEMPOOL_NON_MINING_MAX_BYTES DEFAULT_MINING_MEMPOOL_MAX_BYTES
    (mkMempoolOptions false None None (Some MAX_MEMPOOL_PENDING_PER_SENDER) None None)).
Definition node : NodeTransactions :=
  mkNodeTransactions (mkChainStore chain 0 0 [] false None false) pool DEFAULT_MEMPOOL_MAX_FUTURE_NONCE_PER_SENDER DEFAULT_MEMPOOL_PARKED_TX_TTL_MS None [] [] [] [] false [].
Definition now : Z := 1700000000001.

(** The transfer of the first block, one behind a nonce gap, and the block. *)
Definition third : Transaction := Eval vm_compute in
  Transfer (transfer_of (createTransfer "zyron-test" 3 alice bob 700 100 1700000000000 key1 (pk key1) 1)).
Definition node1 : NodeTransactions := Eval vm_compute in (submitTransaction (tx_json pay) now now node).1.
Definition node2 : NodeTransactions := Eval vm_compute in (submitTransaction (tx_json third) now now node1).1.
Definition node3 : NodeTransactions := Eval vm_compute in (acceptFinalizedBlock (raw_block_json block1) now now (Ok ()) (Ok ()) (Ok ()) node2).1.
(** An update with a fifth validator whose possession proof is missing: it is
    refused, and waits for one that carries the proof. *)
Definition newcomer : Validator := Eval vm_compute in
  mkValidator (addressFromPublicKey (pk (ToyCrypto.hexFixed 64 5))) (pk (ToyCrypto.hexFixed 64 5)).
Definition enlarged : list Validator := Eval vm_compute in js_sort (λ a b, String.leb (v_address a) (v_address b)) (newcomer :: validators).
Definition update_approvals : list ValidatorApproval := Eval vm_compute in
  omap (λ k, match createValidatorApproval "zyron-test" 1 alice 101 enlarged k (pk k) 1 with Ok a => Some a | Throw _ => None end) (take 3 keys).
Definition waiting_of (sealed : res ValidatorSetUpdateTx) : ValidatorSetUpdateTx :=
  match sealed with Ok t => t | Throw _ => mkValidatorUpdate 0 "" 0 "" 0 [] [] None 0 0 "" "" "" end.
Definition waiting : ValidatorSetUpdateTx := Eval vm_compute in
  waiting_of (createValidatorSetUpdate "zyron-test" 1 alice 101 enlarged update_approvals (Some []) 1700000000000 key1 (pk key1) 1).
Definition node4 : NodeTransactions := Eval vm_compute in (submitTransaction (tx_json (ValidatorUpdate waiting)) now now node).1.

Lemma node_started : started node.
Proof.
  refine ((λ Hp, conj (proj1 Hp) (conj (proj2 Hp) eq_refl)) (new_mempool_wf None None DEFAULT_MEMPOOL_NON_MINING_MAX_BYTES DEFAULT_MINING_MEMPOOL_MAX_BYTES
    (mkMempoolOptions false None None (Some MAX_MEMPOOL_PENDING_PER_SENDER) None None) pool _)). vm_compute. reflexivity.
Qed.
Lemma node_supported : supported chain.
Proof. split; [vm_compute; discriminate|]. exists 1. split; vm_compute; reflexivity. Qed.
Lemma admitted : admitTransaction (tx_json pay) now now node = (node1, Ok pay).
Proof. vm_compute. reflexivity. Qed.
Lemma paid : submitTransaction (tx_json pay) now now node = (node1, Ok (tx_txid pay)).
Proof. unfold submitTransaction. rewrite admitted. reflexivity. Qed.
Lemma parked : submitTransaction (tx_json third) now now node1 = (node2, Ok (tx_txid third)).
Proof. vm_compute. reflexivity. Qed.
Lemma committed : validateBlockStructure (raw_block_json block1) = Ok block1 ∧
  commitFinalizedBlock block1 now (Ok ()) (Ok ()) (ns_store node2) = (ns_store node3, Ok ()).
Proof. split; vm_compute; reflexivity. Qed.
Lemma settled : acceptFinalizedBlock (raw_block_json block1) now now (Ok ()) (Ok ()) (Ok ()) node2 = (node3, Ok ()).
Proof.
  unfold acceptFinalizedBlock. rewrite meth_bind_run. unfold m_lift at 1. destruct committed as [-> Ec]. rewrite meth_bind_run. unfold on_store at 1. rewrite Ec. vm_compute. reflexivity.
Qed.
(** A block whose journal compaction fails is committed and its transactions stay
    pending, below the confirmed nonce, until the next block. *)
Lemma unsettled_pool_stale :
  ∃ s, acceptFinalizedBlock (raw_block_json block1) now now (Ok ()) (Ok ()) (Throw "disk full") node2 = (s, Throw "disk full") ∧
    ns_chain s = chain1 ∧ pay ∈ values (ns_mempool s) ∧ chainNonce (ns_chain s) (tx_sender pay) = Ok 2 ∧ tx_nonce pay = 1.
Proof.
  exists (set_store (ns_store node3) node2). unfold acceptFinalizedBlock. rewrite meth_bind_run. unfold m_lift at 1. destruct committed as [-> Ec].
  rewrite meth_bind_run. unfold on_store at 1. rewrite Ec. split_and!; [reflexivity|reflexivity|vm_compute; left|vm_compute; reflexivity|reflexivity].
Qed.
Lemma block1_supported : block_supported (ns_store node2) (raw_block_json block1) now (Ok ()) (Ok ()).
Proof.
  intros block ch' Hb Hc. destruct committed as [Eb Ec]. rewrite Eb in Hb. apply Ok_inj in Hb as <-. rewrite Ec in Hc. injection Hc as <-.
  split; [vm_compute; discriminate|]. exists 1. split; vm_compute; reflexivity.
Qed.
Lemma runs2 : node_runs node true node2.
Proof. exact (nr_submit node true node1 _ now now node2 _ (nr_submit node true node _ now now node1 _ (nr_start node) node_supported paid) node_supported parked). Qed.
Lemma runs3 : node_runs node true node3.
Proof. exact (nr_block node true node2 _ now now (Ok ()) (Ok ()) (Ok ()) node3 runs2 block1_supported settled). Qed.

Lemma pool_follows_chain_witness : values (ns_mempool node3) = [third] ∧ in_place (ns_chain node3) third.
Proof.
  split; [vm_compute; reflexivity|]. destruct (pool_follows_chain node node3 true node_started runs3) as (_ & _ & Hall).
  specialize (Hall eq_refl). apply (proj1 (Forall_forall _ _) Hall). vm_compute. left.
Defined.

Lemma admission_covered_witness :
  ns_chain node1 = chain ∧ values (ns_mempool node1) = [pay] ∧ pendingTransferSpend (ns_mempool node1) alice ≤ 1000000.
Proof.
  destruct (admission_covered node node node1 true (tx_json pay) now now pay node_started (nr_start node) node_supported admitted) as (Hc & _ & _ & _ & Hpay & _).
  split_and!; [exact Hc|vm_compute; reflexivity|]. destruct (Hpay eq_refl) as (balance & spendable & Hb & _ & Hle).
  assert (chainBalance chain alice = Ok 1000000) as Eb by (vm_compute; reflexivity). etrans; [exact Hle|]. change (tx_sender pay) with alice in Hb.
  change (ns_chain node) with chain in Hb. rewrite Eb in Hb. apply Ok_inj in Hb as <-. apply Z.le_min_l.
Defined.

Lemma deferred : submitTransaction (tx_json (ValidatorUpdate waiting)) now now node =
  (node4, Throw "Validator update requires exactly one possession proof per incoming validator").
Proof. vm_compute. reflexivity. Qed.
Lemma retry_terminates_witness :
  (flatten (ns_deferred node4)).*2 = [waiting] ∧
  ∃ s' left, retry_loop 33 now now [] (flatten (ns_deferred node4)) (upd_deferred (λ _, []) node4) = (s', Ok (Some left)).
Proof.
  split; [vm_compute; reflexivity|].
  destruct (retry_terminates node node4 true now now node_started (nr_submit node true node _ now now node4 _ (nr_start node) node_supported deferred) node_supported)
    as (s' & left & Hr & _). exists s', left. exact Hr.
Defined.
End AdmissionExample.
