(* ===== verification/VotingLog.v ===== *)
(** The argument for agreement, on the order in which votes reach the journals.

    A log is the sequence of journal rows of one height, each with the validator
    that wrote it, in the order they were written.  [ok_log] is what the journal
    checks guarantee of every row given the rows before it; agreement follows
    from it for any number of rounds and any behaviour of fewer than a third of
    the validators. *)

From S2P Require Import Prelude Types Codec Block ConsensusV6 Journal JournalReplay Compaction Recovery.

Abbreviation entry := (string * V6JournalRow)%type (only parsing).
Abbreviation log := (list (string * V6JournalRow)) (only parsing).

(** The rows of one validator, in order, and the height's journal they make. *)
Definition rows_of (who : string) (l : log) : list V6JournalRow :=
  omap (λ e : entry, if decide (e.1 = who) then Some e.2 else None) l.
Definition state_after (rows : list V6JournalRow) : V6HeightJournal := fold_left (λ s row, apply_height row s) rows emptyHeight.

Lemma rows_of_app (who : string) (l k : log) : rows_of who (l ++ k) = rows_of who l ++ rows_of who k.
Proof. apply omap_app. Qed.

Lemma rows_of_elem (who : string) (row : V6JournalRow) (l : log) : (who, row) ∈ l ↔ row ∈ rows_of who l.
Proof.
  unfold rows_of. rewrite list_elem_of_omap. split.
  - intros Hin. exists (who, row). cbn. by rewrite decide_True.
  - intros ([w r] & Hin & E). cbn in E. case_decide; simplify_eq. done.
Qed.

Lemma state_after_snoc (rows : list V6JournalRow) (row : V6JournalRow) :
  state_after (rows ++ [row]) = apply_height row (state_after rows).
Proof. unfold state_after. by rewrite fold_left_app. Qed.

Lemma state_after_app (rows1 rows2 : list V6JournalRow) :
  state_after (rows1 ++ rows2) = fold_left (λ s row, apply_height row s) rows2 (state_after rows1).
Proof. apply fold_left_app. Qed.

(** ** What the state of a height remembers of its rows *)

Definition is_vote (row : V6JournalRow) : Prop := jr_step row = StepPrepare ∨ jr_step row = StepCommit.

Lemma state_votes (rows : list V6JournalRow) (row : V6JournalRow) :
  row ∈ rows → is_vote row → jr_round row ≤ hj_maxVoteRound (state_after rows).
Proof.
  intros Hin Hv. induction rows as [|r rows IH] using rev_ind; [by apply not_elem_of_nil in Hin|].
  rewrite state_after_snoc. apply elem_of_app in Hin as [Hin|Hin%list_elem_of_singleton].
  - specialize (IH Hin). unfold apply_height. destruct (jr_step r); cbn; lia.
  - subst r. unfold apply_height. destruct Hv as [-> | ->]; cbn; lia.
Qed.

Lemma state_slot (rows : list V6JournalRow) (row : V6JournalRow) :
  row ∈ rows → jr_step row ≠ StepLock → ∃ v, hj_rows (state_after rows) !! (jr_round row, step_text (jr_step row)) = Some v.
Proof.
  intros Hin Hs. induction rows as [|r rows IH] using rev_ind; [by apply not_elem_of_nil in Hin|].
  rewrite state_after_snoc. apply elem_of_app in Hin as [Hin|Hin%list_elem_of_singleton].
  - destruct (IH Hin) as [v Hv].
    destruct (decide (jr_step r = StepLock)) as [E|E]; [unfold apply_height; rewrite E; eauto|].
    assert (hj_rows (apply_height r (state_after rows)) = <[(jr_round r, step_text (jr_step r)) := jr_value r]> (hj_rows (state_after rows)))
      as -> by (unfold apply_height; by destruct (jr_step r)).
    destruct (decide ((jr_round r, step_text (jr_step r)) = (jr_round row, step_text (jr_step row)))) as [<-|];
      [rewrite lookup_insert_eq|rewrite lookup_insert_ne by done]; eauto.
  - subst r. unfold apply_height. destruct (jr_step row); try done; cbn; rewrite lookup_insert_eq; eauto.
Qed.

Lemma state_slot_row (rows : list V6JournalRow) (height round : Z) (step : V6JournalStep) (v : string) :
  Forall (λ r, jr_height r = height) rows →
  hj_rows (state_after rows) !! (round, step_text step) = Some v → mkRow height round step v ∈ rows.
Proof.
  intros Hh Hs. induction rows as [|r rows IH] using rev_ind; [done|].
  apply Forall_app in Hh as [Hh Hr]. apply Forall_cons in Hr as [Hr _]. rewrite state_after_snoc in Hs. apply elem_of_app.
  destruct (decide (jr_step r = StepLock)) as [E|E].
  - left. apply IH; [done|]. unfold apply_height in Hs. by rewrite E in Hs.
  - assert (hj_rows (apply_height r (state_after rows)) = <[(jr_round r, step_text (jr_step r)) := jr_value r]> (hj_rows (state_after rows)))
      as E' by (unfold apply_height; by destruct (jr_step r)).
    rewrite E' in Hs. apply lookup_insert_Some in Hs as [[[= E1 E2] E3]|[_ Hs]]; [|left; by apply IH].
    right. apply list_elem_of_singleton. apply step_text_inj in E2. destruct r; cbn in *. by subst.
Qed.

Lemma state_lock_row (rows : list V6JournalRow) (l : V6Lock) (height : Z) :
  Forall (λ r, jr_height r = height) rows → hj_lock (state_after rows) = Some l →
  mkRow height (lk_round l) StepLock (lk_blockHash l) ∈ rows.
Proof.
  intros Hh Hl. induction rows as [|r rows IH] using rev_ind; [done|].
  apply Forall_app in Hh as [Hh Hr]. apply Forall_cons in Hr as [Hr _].
  rewrite state_after_snoc in Hl. apply elem_of_app.
  destruct (decide (jr_step r = StepLock)) as [E|E].
  - right. apply list_elem_of_singleton. unfold apply_height in Hl. rewrite E in Hl. cbn in Hl. injection Hl as <-.
    destruct r as [h0 r0 s0 v0]; cbn in *. by subst.
  - left. apply IH; [done|]. unfold apply_height in Hl. by destruct (jr_step r).
Qed.

Lemma state_has_lock (rows : list V6JournalRow) (row : V6JournalRow) :
  row ∈ rows → jr_step row = StepLock → ∃ l, hj_lock (state_after rows) = Some l.
Proof.
  intros Hin Hs. induction rows as [|r rows IH] using rev_ind; [by apply not_elem_of_nil in Hin|].
  rewrite state_after_snoc. apply elem_of_app in Hin as [Hin|Hin%list_elem_of_singleton].
  - destruct (IH Hin) as [l Hl]. unfold apply_height. destruct (jr_step r); cbn; eauto.
  - subst r. unfold apply_height. rewrite Hs. cbn. eauto.
Qed.

Section voting.
(** The height, its validators and the validators that follow the protocol. *)
Context (height : Z) (validators : list Validator) (honest : list string).

Definition prepare_row (round : Z) (hash : string) : V6JournalRow := mkRow height round StepPrepare hash.
Definition lock_row (round : Z) (hash : string) : V6JournalRow := mkRow height round StepLock hash.
Definition commit_row (round : Z) (hash : string) : V6JournalRow := mkRow height round StepCommit hash.

(** A quorum prepared [hash] at [round]: its honest members have it on record. *)
Definition prepared_by_quorum (l : log) (round : Z) (hash : string) : Prop :=
  ∃ voters, quorum_of validators voters ∧ ∀ w, w ∈ voters → w ∈ honest → (w, prepare_row round hash) ∈ l.

(** What was checked before a row was written. *)
Definition entry_ok (pre : log) (e : entry) : Prop :=
  let st := state_after (rows_of e.1 pre) in
  let row := e.2 in
  jr_height row = height ∧ 0 ≤ jr_round row ∧
  match jr_step row with
  | StepPrepare =>
    slot_free st (jr_round row) StepPrepare ∧ (∀ lock, hj_lock st = Some lock → lk_round lock ≤ jr_round row) ∧
    ∃ justify, justify < jr_round row ∧ safeVote (hj_lock st) (jr_value row) justify = true ∧
      (0 ≤ justify → prepared_by_quorum pre justify (jr_value row))
  | StepLock => lock_allowed st (jr_round row) (jr_value row) ∧ prepared_by_quorum pre (jr_round row) (jr_value row)
  | StepCommit => (e.1, lock_row (jr_round row) (jr_value row)) ∈ pre
  | _ => True
  end.

Definition ok_log (l : log) : Prop := ∀ pre e post, l = pre ++ e :: post → e.1 ∈ honest → entry_ok pre e.

Lemma ok_log_nil : ok_log [].
Proof. intros pre e post E. by destruct pre. Qed.

Lemma ok_log_snoc (l : log) (e : entry) : ok_log l → (e.1 ∈ honest → entry_ok l e) → ok_log (l ++ [e]).
Proof.
  intros Hl He pre e' post E Hh. destruct post as [|e2 post] using rev_ind.
  - apply app_inj_tail in E as [-> ->]. auto.
  - rewrite app_comm_cons, app_assoc in E. apply app_inj_tail in E as [-> _]. by eapply Hl.
Qed.

Lemma prepared_mono (l k : log) (round : Z) (hash : string) :
  l `prefix_of` k → prepared_by_quorum l round hash → prepared_by_quorum k round hash.
Proof.
  intros [x ->] (voters & Hq & Hv). exists voters. split; [done|]. intros w Hw Hh. apply elem_of_app. left. auto.
Qed.

Section agreement.
Context (l : log) (Hok : ok_log l) (faulty : list string).
Context (Hthird : 3 * zlen faulty < zlen validators)
        (Hfaulty : ∀ w, w ∈ v_address <$> validators → w ∉ faulty → w ∈ honest).

Lemma honest_overlap (a b : list string) : quorum_of validators a → quorum_of validators b → ∃ w, w ∈ a ∧ w ∈ b ∧ w ∈ honest.
Proof using Hthird Hfaulty.
  intros Ha Hb. destruct (quorums_share _ _ _ _ Ha Hb Hthird) as (w & ? & ? & Hw). exists w. split_and!; try done.
  apply Hfaulty; [|done]. by apply Ha.
Qed.

(** An honest validator prepares one block per round. *)
Lemma one_prepare (w : string) (round : Z) (h1 h2 : string) :
  w ∈ honest → (w, prepare_row round h1) ∈ l → (w, prepare_row round h2) ∈ l → h1 = h2.
Proof using Hok.
  intros Hw H1 H2. apply list_elem_of_split in H1 as (p1 & q1 & E1).
  assert (∀ p q ha hb, l = p ++ (w, prepare_row round ha) :: q → (w, prepare_row round hb) ∈ p → False) as Hno.
  { intros p q ha hb E Hin. destruct (Hok _ _ _ E Hw) as (_ & _ & Hfree & _). apply rows_of_elem in Hin.
    apply state_slot in Hin as [v Hv]; [|done]. cbn in *. unfold slot_free in Hfree. cbn in Hfree. congruence. }
  rewrite E1 in H2. apply elem_of_app in H2 as [H2|[[= <-]|H2]%elem_of_cons]; [|done|].
  - exfalso. by eapply Hno.
  - exfalso. apply list_elem_of_split in H2 as (p2 & q2 & E2). rewrite E2 in E1.
    eapply (Hno (p1 ++ (w, prepare_row round h1) :: p2) q2 h2 h1); [by rewrite <-app_assoc|]. apply elem_of_app. right. by left.
Qed.

(** Two certificates of one round are for one block. *)
Lemma one_certificate (round : Z) (h1 h2 : string) :
  prepared_by_quorum l round h1 → prepared_by_quorum l round h2 → h1 = h2.
Proof using Hok Hthird Hfaulty.
  intros (v1 & Q1 & P1) (v2 & Q2 & P2). destruct (honest_overlap _ _ Q1 Q2) as (w & ? & ? & ?).
  eapply (one_prepare w round); auto.
Qed.

(** The locks of an honest validator only move up, and never change block at one
    round. *)
Lemma lock_upto (w : string) (pre post : log) (round : Z) (hash : string) :
  w ∈ honest → l = pre ++ post → (w, lock_row round hash) ∈ pre →
  ∃ lock, hj_lock (state_after (rows_of w pre)) = Some lock ∧ (round < lk_round lock ∨ round = lk_round lock ∧ hash = lk_blockHash lock).
Proof using Hok.
  intros Hw. revert post. induction pre as [|[w' row] pre IH] using rev_ind; intros post E Hin; [by apply not_elem_of_nil in Hin|].
  rewrite <-app_assoc in E. cbn [app] in E.
  rewrite rows_of_app. unfold rows_of at 2. cbn [omap list_omap fst snd]. destruct (decide (w' = w)) as [->|Hne].
  - rewrite state_after_snoc. pose proof (Hok _ _ _ E Hw) as (Hh & _ & Hrow). cbn [fst snd] in *.
    apply elem_of_app in Hin as [Hin|Hin%list_elem_of_singleton].
    + destruct (IH _ E Hin) as (lk & Hlk & Hcmp). destruct (decide (jr_step row = StepLock)) as [El|El].
      * unfold apply_height. rewrite El in *. cbn. eexists. split; [done|]. cbn.
        destruct Hrow as [(_ & _ & _ & Hup) _]. destruct (Hup lk Hlk) as [?|[? ?]]; [left; lia|].
        destruct Hcmp as [?|[-> ->]]; [left; lia|right; auto].
      * exists lk. split; [|done]. unfold apply_height. by destruct (jr_step row).
    + injection Hin as <-. eexists. split; [reflexivity|]. right. done.
  - rewrite app_nil_r. apply elem_of_app in Hin as [Hin|Hin%list_elem_of_singleton]; [by eapply IH|].
    by injection Hin as <- _.
Qed.

Lemma honest_rows_height (w : string) (pre post : log) : w ∈ honest → l = pre ++ post → Forall (λ r, jr_height r = height) (rows_of w pre).
Proof using Hok.
  intros Hw E. apply Forall_forall. intros r Hr%rows_of_elem. apply list_elem_of_split in Hr as (p & q & ->).
  rewrite <-app_assoc in E. by destruct (Hok _ _ _ E Hw) as [? _].
Qed.

(** A lock on record was backed by a certificate when it was written. *)
Lemma lock_certified (w : string) (pre post : log) (round : Z) (hash : string) :
  w ∈ honest → l = pre ++ post → (w, lock_row round hash) ∈ pre →
  ∃ p q, pre = p ++ (w, lock_row round hash) :: q ∧ prepared_by_quorum p round hash ∧ 0 ≤ round.
Proof using Hok.
  intros Hw E Hin. apply list_elem_of_split in Hin as (p & q & ->). exists p, q. split; [done|].
  rewrite <-app_assoc in E. by destruct (Hok _ _ _ E Hw) as (_ & ? & _ & ?).
Qed.

(** No lock of a round below a vote already on record. *)
Lemma no_lock_after (w : string) (pre post : log) (vote : V6JournalRow) (round : Z) (hash : string) :
  w ∈ honest → l = pre ++ post → (w, vote) ∈ pre → is_vote vote → (w, lock_row round hash) ∈ post → jr_round vote ≤ round.
Proof using Hok.
  intros Hw E Hin Hv Hpost. apply list_elem_of_split in Hpost as (p & q & ->). rewrite app_assoc in E.
  destruct (Hok _ _ _ E Hw) as (_ & _ & (_ & Hmax & _) & _). cbn in Hmax.
  assert (vote ∈ rows_of w (pre ++ p)) as Hr by (apply rows_of_elem, elem_of_app; by left).
  pose proof (state_votes _ _ Hr Hv). lia.
Qed.

(** A quorum of locks at [round]. *)
Definition locked_by_quorum (round : Z) (hash : string) : Prop :=
  ∃ voters, quorum_of validators voters ∧ ∀ w, w ∈ voters → w ∈ honest → (w, lock_row round hash) ∈ l.

(** Once a quorum locked a block, no later round certifies another one. *)
Lemma locked_forever (round : Z) (hash : string) :
  locked_by_quorum round hash →
  ∀ (k : nat) (n : nat) (pre post : log) (hash' : string), l = pre ++ post → length pre = n →
    prepared_by_quorum pre (round + Z.of_nat k) hash' → hash' = hash.
Proof using Hok Hthird Hfaulty.
  intros Hlocked k. destruct Hlocked as (committed & Qc & Hc).
  induction k as [k IHk] using lt_wf_ind. induction n as [n IHn] using lt_wf_ind.
  intros pre post hash' El Hn Hprep.
  assert (∀ p q j h, pre = p ++ q → round ≤ j < round + Z.of_nat k → prepared_by_quorum p j h → h = hash) as IHround.
  { intros p q j h -> Hj Hp. eapply (IHk (Z.to_nat (j - round)) ltac:(lia) (length p) p (q ++ post) h);
      [by rewrite El, app_assoc|done|]. by replace (round + Z.of_nat (Z.to_nat (j - round))) with j by lia. }
  assert (∀ p q h, pre = p ++ q → q ≠ [] → prepared_by_quorum p (round + Z.of_nat k) h → h = hash) as IHtime.
  { intros p q h -> Hq Hp. eapply (IHn (length p)); [|by rewrite <-app_assoc in El|done|exact Hp].
    rewrite <-Hn, length_app. destruct q; [done|cbn; lia]. }
  pose proof Hprep as (preparers & Qp & Hp).
  destruct (honest_overlap _ _ Qc Qp) as (w & Hwc & Hwp & Hw).
  pose proof (Hp w Hwp Hw) as Hpw. apply list_elem_of_split in Hpw as (p1 & p2 & ->).
  rewrite <-app_assoc in El. cbn [app] in El.
  destruct (Hok _ _ _ El Hw) as (_ & _ & Hfree & Hmax & justify & Hj & Hsafe & Hjust). cbn [fst snd jr_round jr_value prepare_row] in *.
  destruct k as [|k].
  { (* the round of the lock itself: its certificate is the certificate of that round *)
    replace (round + Z.of_nat 0) with round in * by lia.
    destruct (lock_certified w l [] round hash Hw (eq_sym (app_nil_r l)) (Hc w Hwc Hw)) as (p & q & Ep & Hcert & _).
    apply (one_certificate round).
    - eapply prepared_mono; [|exact Hprep]. exists post. rewrite El, <-app_assoc. done.
    - eapply prepared_mono; [|exact Hcert]. eexists. exact Ep. }
  (* the lock was written before the prepare *)
  assert ((w, lock_row round hash) ∈ p1) as Hlock.
  { pose proof (Hc w Hwc Hw) as Hin. rewrite El in Hin. apply elem_of_app in Hin as [?|[[=]|Hin]%elem_of_cons]; [done|].
    exfalso. pose proof (no_lock_after w (p1 ++ [(w, prepare_row (round + Z.of_nat (S k)) hash')]) (p2 ++ post)
      (prepare_row (round + Z.of_nat (S k)) hash') round hash Hw ltac:(by rewrite <-app_assoc) ltac:(apply elem_of_app; right; by left)
      (or_introl eq_refl) Hin) as Hle. cbn in Hle. lia. }
  destruct (lock_upto w p1 _ round hash Hw El Hlock) as (lk & Hlk & Hcmp).
  pose proof (state_lock_row _ _ _ (honest_rows_height w p1 _ Hw El) Hlk) as Hrow. apply rows_of_elem in Hrow.
  destruct (lock_certified w p1 _ _ _ Hw El Hrow) as (pa & pb & Ea & Hcert & Hnn).
  assert (round ≤ lk_round lk) as Hge by (destruct Hcmp as [?|[? _]]; lia).
  rewrite Hlk in Hsafe. cbn [safeVote] in Hsafe. apply orb_true_iff in Hsafe as [Hsame|Hhigher].
  - (* the prepared block is the locked one *)
    apply String.eqb_eq in Hsame. rewrite <-Hsame.
    destruct (Z.lt_trichotomy (lk_round lk) (round + Z.of_nat (S k))) as [Hlt|[Heq|Hgt]].
    + eapply (IHround pa); [by rewrite Ea, <-app_assoc| |exact Hcert]. lia.
    + eapply (IHtime pa ((w, lock_row (lk_round lk) (lk_blockHash lk)) :: pb ++ _)); [by rewrite Ea, <-app_assoc|done|].
      by rewrite <-Heq.
    + specialize (Hmax lk Hlk). lia.
  - apply Z.ltb_lt in Hhigher. eapply (IHround p1 _ justify); [done|lia|]. apply Hjust. lia.
Qed.

(** Agreement: two quorums of locks, at whatever rounds, are for one block. *)
Lemma locks_agree (r1 r2 : Z) (h1 h2 : string) : locked_by_quorum r1 h1 → locked_by_quorum r2 h2 → h1 = h2.
Proof using Hok Hthird Hfaulty.
  assert (∀ ra rb ha hb, ra ≤ rb → locked_by_quorum ra ha → locked_by_quorum rb hb → hb = ha) as G.
  { intros ra rb ha hb Hle La Lb. pose proof Lb as (vb & Qb & Hb).
    destruct (honest_overlap _ _ Qb Qb) as (w & Hw & _ & Hh).
    destruct (lock_certified w l [] rb hb Hh (eq_sym (app_nil_r l)) (Hb w Hw Hh)) as (p & q & E & Hcert & _).
    eapply (locked_forever ra ha La (Z.to_nat (rb - ra)) (length p)); [exact E|done|].
    by replace (ra + Z.of_nat (Z.to_nat (rb - ra))) with rb by lia. }
  intros L1 L2. destruct (Z.le_ge_cases r1 r2); [symmetry|]; eapply G; eauto.
Qed.

End agreement.
End voting.
