(* ===== verification/ConsensusSafety.v ===== *)
(** Agreement of protocol v6: a system of validator nodes that run the handlers
    of Node.v against their journals, with any number of restarts, failed
    appends, compactions of earlier heights and lost files, under a network and a minority of validators that
    send anything.

    The assumption about signatures is stated where a node relies on one
    ([genuine]): a valid signature of an honest validator in a certificate was
    made by that validator. *)

From S2P Require Import Prelude Types Codec Crypto Activity Transaction TxShape Block ConsensusV6 BlockEnvelope Journal JournalReplay Compaction Recovery Budget Node Handlers Votes VotingLog.

(** ** The rows of a file at one height *)

Section rows.
Context (height : Z).

Definition at_height (rows : list V6JournalRow) : list V6JournalRow := filter (λ r, jr_height r = height) rows.

Lemma heights_state (rows : list V6JournalRow) (m : gmap Z V6HeightJournal) :
  default emptyHeight (fold_left add_row rows m !! height) =
    fold_left (λ s row, apply_height row s) (at_height rows) (default emptyHeight (m !! height)).
Proof.
  revert m. induction rows as [|row rows IH]; intros m; [done|]. cbn [fold_left]. rewrite IH.
  unfold at_height. rewrite filter_cons. unfold add_row. case_decide as E.
  - rewrite E, lookup_insert_eq. done.
  - by rewrite lookup_insert_ne.
Qed.

Lemma new_journal_covered : locks_covered new_journal None.
Proof. intros h l Hl. unfold height_state in Hl. cbn [new_journal sj_v6Heights] in Hl. by rewrite lookup_empty in Hl. Qed.

Lemma recoverable_state (d : disk) :
  recoverable d → healthy d.1 →
  height_state d.1 height = state_after (at_height (file_rows d.2)) ∧
  ∀ l, hj_lock (height_state d.1 height) = Some l → lk_round l ≤ hj_maxVoteRound (height_state d.1 height).
Proof.
  intros Hd Hh. destruct (healthy_is d Hd Hh) as [Hr _]. split.
  - apply replay_heights in Hr. unfold height_state. rewrite Hr. apply heights_state.
  - intros l Hl. apply replay_covers in Hr; [|apply new_journal_covered].
    destruct (Hr _ _ Hl) as [?|(row & [=] & _)]. done.
Qed.

(** Compacting earlier heights leaves this one. *)
Lemma compacted_state (F : Z) (d d' : disk) (x : res Z) :
  recoverable d → compaction F d d' x → F < height →
  state_after (at_height (file_rows d'.2)) = state_after (at_height (file_rows d.2)).
Proof.
  intros Hd Hc Hk.
  assert (healthy d.1 → state_after (at_height (file_rows (journal_lines (compacted F d.1)))) = state_after (at_height (file_rows d.2))) as Hnew.
  { intros Hh. destruct (healthy_is d Hd Hh) as [Hr Hs].
    apply replay_heights in Hr as E1. pose proof (compacted_replay F d.1 Hh Hs) as Hr2. apply replay_heights in Hr2 as E2.
    assert (∀ f, state_after (at_height (file_rows f)) = default emptyHeight (fold_left add_row (file_rows f) (sj_v6Heights new_journal) !! height)) as E
      by (intros f; by rewrite heights_state).
    rewrite !E, <-E1, <-E2. apply compacted_height; done. }
  by destruct Hc; auto.
Qed.

Lemma file_rows_app (f g : list json) : file_rows (f ++ g) = file_rows f ++ file_rows g.
Proof. apply omap_app. Qed.

Lemma file_rows_json (rows : list V6JournalRow) (k : nat) :
  Forall row_valid rows → file_rows (take k (map row_json rows)) = take k rows.
Proof.
  intros Hv. revert k. induction Hv as [|row rows Hr Hv IH]; intros [|k]; try done.
  cbn [map take]. unfold file_rows. cbn [omap list_omap]. rewrite (line_row_json row Hr). f_equal. apply IH.
Qed.

(** The rows an append left on disk. *)
Lemma appended_rows (rows : list V6JournalRow) (io : Io) (d d' : disk) (x : res unit) :
  appended rows io d d' x → Forall row_valid rows →
  ∃ k, file_rows d'.2 = file_rows d.2 ++ take k rows ∧ (x = Ok () → take k rows = rows).
Proof.
  intros Ha Hv. destruct io as [|k]; destruct Ha as [-> ->]; cbn [snd]; rewrite file_rows_app.
  - exists (length rows). rewrite firstn_all. split; [|done]. f_equal.
    pose proof (file_rows_json rows (length rows) Hv) as E. rewrite firstn_all in E.
    by rewrite (take_ge (map row_json rows)) in E by (by rewrite length_map).
  - exists k. split; [|discriminate]. by rewrite file_rows_json.
Qed.

End rows.

Section system.
Context `{Crypto} (chainId : string) (height : Z) (validators : list Validator) (honest : list string).
Context (Hheight : 1 ≤ height ≤ MAX_SAFE_INTEGER).

(** The nodes of the honest validators, the messages they signed, and their
    journal rows for [height] in the order they were written. *)
Record Sys := mkSys {
  sy_nodes : gmap string NodeState;
  sy_signed : list (string * list Z);
  sy_log : list (string * V6JournalRow) }.

(** The nodes of one chain that agree on the validators of [height]. *)
Definition env_ok (env : Env) : Prop :=
  cv_chainId (env_chain env) = chainId ∧ (cv_height (env_chain env) + 1 = height → cv_validatorsAt (env_chain env) height = validators).

(** The bytes a vote signs. *)
Definition vote_message_bytes (domain : string) (h round : Z) (hash : string) : res (list Z) :=
  canonicalBytes (domainEnvelope domain (to_units (votePayload chainId h round hash))).

(** A certificate with only genuine votes of honest validators. *)
Definition genuine_votes (s : Sys) (domain : string) (round : Z) (hash : string) (votes : list V6Vote) : Prop :=
  ∀ v, v ∈ votes → at_validator v ∈ honest →
    verifyCanonicalDomain domain (to_units (votePayload chainId height round hash)) (at_signature v) (at_publicKey v) = true →
    ∃ m, vote_message_bytes domain height round hash = Ok m ∧ (at_validator v, m) ∈ sy_signed s.
Definition genuine (s : Sys) (qc : PrepareQC) : Prop :=
  genuine_votes s V6_PREPARE_VOTE_DOMAIN (qc_round qc) (qc_blockHash qc) (qc_votes qc).

(** The message a vote handler signs when it returns. *)
Definition prepare_message (env : Env) (value : json) : option (list Z) :=
  signer ← env_signer env;
  '(cx, member, block, p, justify) ← attempt (prepare_checked env signer value);
  attempt (vote_message_bytes V6_PREPARE_VOTE_DOMAIN (cx_height cx) (pr_round p) (b_hash block)).
Definition commit_message (env : Env) (value : json) : option (list Z) :=
  signer ← env_signer env;
  '(cx, member, block, qc) ← attempt (commit_checked env signer value);
  attempt (vote_message_bytes V6_COMMIT_VOTE_DOMAIN (cx_height cx) (qc_round qc) (qc_blockHash qc)).
Definition released {A} (who : string) (x : res A) (m : option (list Z)) : list (string * list Z) :=
  match x, m with Ok _, Some m => [(who, m)] | _, _ => [] end.

(** A message that is no vote for [height]: every other signing domain, and the
    legacy messages without one. *)
Definition other_message (m : list Z) : Prop := ∀ domain round hash,
  domain = V6_PREPARE_VOTE_DOMAIN ∨ domain = V6_COMMIT_VOTE_DOMAIN → 0 ≤ round ≤ V6_MAX_ROUND → hash_ok hash →
  vote_message_bytes domain height round hash ≠ Ok m.

(** The message a handler releases with its result. *)
Definition released_in (domain : string) (payload : res json) (ms : list (list Z)) : Prop :=
  match payload with
  | Ok p => ∃ m, canonicalBytes (domainEnvelope domain (to_units p)) = Ok m ∧ ms = [m]
  | Throw _ => ms = []
  end.

(** What a node does besides voting, with the messages it releases: timeouts,
    proposals, the reservations of older protocols, and the loss or change of
    consensus-state files. *)
Inductive quiet : NodeState → NodeState → list (list Z) → Prop :=
| quiet_timeout env h r n n' x ms :
    v6Timeout env h r n = (n', x) →
    released_in V6_TIMEOUT_DOMAIN (resp ← x; Ok (timeoutPayload (tv_payload (tr_vote resp)))) ms → quiet n n' ms
| quiet_fresh env block n n' x ms :
    v6SignFreshBlock env block n = (n', x) →
    released_in BLOCK_PROPOSAL_DOMAIN (b ← x; Ok (header_json (b_header b))) ms → quiet n n' ms
| quiet_proposal env round block tc n n' x ms :
    v6SignProposal env round block tc n = (n', x) →
    released_in V6_PROPOSAL_DOMAIN ('(p, _, _) ← x; Ok (proposalPayload (pr_payload p))) ms → quiet n n' ms
| quiet_legacy op io n n' ms :
    match op with OpLegacyHeight _ | OpChoice _ _ _ _ => True | _ => False end →
    nd_disk n' = (run_op op io (nd_disk n)).1 → Forall other_message ms → quiet n n' ms
| quiet_files f n : quiet n (set_files f n) [].

(** The rows that are new on the node's disk. *)
Definition new_rows (who : string) (n n' : NodeState) : list (string * V6JournalRow) :=
  pair who <$> at_height height (drop (length (file_rows (nd_disk n).2)) (file_rows (nd_disk n').2)).

(** A step of one validator.  The journal may be compacted through the heights
    that are final while the validators vote on [height]; a validator that goes on
    to compact [height] itself has finalized it, signs for later heights only,
    and retires from this system (as does one that stops). *)
Inductive sys_step : Sys → Sys → Prop :=
| sys_prepare s who n env value n' x :
    who ∈ honest → sy_nodes s !! who = Some n → env_ok env → v6Prepare env value n = (n', x) →
    (∀ signer cx member block p qc, env_signer env = Some signer → prepare_checked env signer value = Ok (cx, member, block, p, Some qc) →
      cx_height cx = height → genuine s qc) →
    sys_step s (mkSys (<[who := n']> (sy_nodes s)) (sy_signed s ++ released who x (prepare_message env value))
      (sy_log s ++ new_rows who n n'))
| sys_commit s who n env value n' x :
    who ∈ honest → sy_nodes s !! who = Some n → env_ok env → v6Commit env value n = (n', x) →
    (∀ signer cx member block qc, env_signer env = Some signer → commit_checked env signer value = Ok (cx, member, block, qc) →
      cx_height cx = height → genuine s qc) →
    sys_step s (mkSys (<[who := n']> (sy_nodes s)) (sy_signed s ++ released who x (commit_message env value))
      (sy_log s ++ new_rows who n n'))
| sys_quiet s who n n' ms :
    who ∈ honest → sy_nodes s !! who = Some n → quiet n n' ms →
    sys_step s (mkSys (<[who := n']> (sy_nodes s)) (sy_signed s ++ (pair who <$> ms)) (sy_log s ++ new_rows who n n'))
| sys_compact s who n h io n' x :
    who ∈ honest → sy_nodes s !! who = Some n → h < height → compactThrough h io (nd_disk n) = (nd_disk n', x) →
    sys_step s (mkSys (<[who := n']> (sy_nodes s)) (sy_signed s) (sy_log s))
| sys_retire s who :
    sys_step s (mkSys (delete who (sy_nodes s)) (sy_signed s) (sy_log s))
| sys_restart s who n io file r n' :
    who ∈ honest → sy_nodes s !! who = Some n → open_journal (nd_disk n).2 io = (file, r) →
    nd_disk n' = (match r with Ok j => j | Throw _ => set_faulted (nd_disk n).1 end, file) →
    sys_step s (mkSys (<[who := n']> (sy_nodes s)) (sy_signed s) (sy_log s ++ new_rows who n n')).

(** Every honest validator starts with an empty journal. *)
Definition sys_init (s : Sys) : Prop :=
  (∀ who n, sy_nodes s !! who = Some n → nd_disk n = (new_journal, [])) ∧ sy_signed s = [] ∧ sy_log s = [].
Definition sys_reachable (s : Sys) : Prop := ∃ s0, sys_init s0 ∧ rtc sys_step s0 s.

(** ** The invariant *)

Definition signed_ok (l : list (string * V6JournalRow)) (e : string * list Z) : Prop := ∀ round hash,
  0 ≤ round ≤ V6_MAX_ROUND → hash_ok hash →
  (vote_message_bytes V6_PREPARE_VOTE_DOMAIN height round hash = Ok e.2 → (e.1, prepare_row height round hash) ∈ l) ∧
  (vote_message_bytes V6_COMMIT_VOTE_DOMAIN height round hash = Ok e.2 → (e.1, lock_row height round hash) ∈ l).

Record sys_inv (s : Sys) : Prop := {
  inv_nodes : ∀ who n, sy_nodes s !! who = Some n →
    recoverable (nd_disk n) ∧ state_after (rows_of who (sy_log s)) = state_after (at_height height (file_rows (nd_disk n).2));
  inv_heights : Forall (λ e, jr_height e.2 = height) (sy_log s);
  inv_log : ok_log height validators honest (sy_log s);
  inv_signed : Forall (signed_ok (sy_log s)) (sy_signed s) }.

Lemma init_inv (s : Sys) : sys_init s → sys_inv s.
Proof.
  intros (Hn & Hs & Hl). constructor.
  - intros who n Hw. rewrite (Hn who n Hw), Hl. split; [|done]. exists new_journal, None. split_and!; try done. apply sound_new.
  - rewrite Hl. constructor.
  - rewrite Hl. apply ok_log_nil.
  - rewrite Hs. constructor.
Qed.

Lemma signed_mono (l k : list (string * V6JournalRow)) (e : string * list Z) : signed_ok l e → signed_ok (l ++ k) e.
Proof. intros Hs r h Hr Hh. destruct (Hs r h Hr Hh) as [H1 H2]. split; intros; apply elem_of_app; left; auto. Qed.

Lemma rows_of_same (who : string) (rows : list V6JournalRow) : rows_of who (pair who <$> rows) = rows.
Proof. induction rows as [|r rows IH]; [done|]. unfold rows_of in *. csimpl. rewrite decide_True by done. f_equal. exact IH. Qed.

Lemma rows_of_other (who w : string) (rows : list V6JournalRow) : w ≠ who → rows_of w (pair who <$> rows) = [].
Proof. intros Hne. induction rows as [|r rows IH]; [done|]. unfold rows_of in *. csimpl. by rewrite decide_False. Qed.

(** One node's move: its file grows by [rows], which pass the log's checks, and
    it signs messages that are on record. *)
Lemma move_inv (s : Sys) (who : string) (n n' : NodeState) (rows : list V6JournalRow) (signed : list (string * list Z)) :
  sys_inv s → sy_nodes s !! who = Some n → recoverable (nd_disk n') →
  file_rows (nd_disk n').2 = file_rows (nd_disk n).2 ++ rows →
  ok_log height validators honest (sy_log s ++ (pair who <$> at_height height rows)) →
  Forall (signed_ok (sy_log s ++ (pair who <$> at_height height rows))) signed →
  sys_inv (mkSys (<[who := n']> (sy_nodes s)) (sy_signed s ++ signed) (sy_log s ++ new_rows who n n')).
Proof.
  intros Hinv Hn Hrec Hfile Hlog Hsigned.
  assert (new_rows who n n' = pair who <$> at_height height rows) as E.
  { unfold new_rows. by rewrite Hfile, drop_app_length. }
  rewrite E. constructor; cbn [sy_nodes sy_log sy_signed].
  - intros w nw Hw. rewrite rows_of_app. destruct (decide (w = who)) as [->|Hne].
    + rewrite lookup_insert_eq in Hw. injection Hw as <-. split; [done|].
      rewrite rows_of_same, Hfile. destruct (inv_nodes _ Hinv who n Hn) as [_ E']. unfold at_height. rewrite filter_app.
      by rewrite !state_after_app, E'.
    + rewrite lookup_insert_ne in Hw by done. rewrite rows_of_other, app_nil_r by done. by apply inv_nodes.
  - apply Forall_app. split; [apply (inv_heights _ Hinv)|]. apply Forall_fmap, Forall_forall. intros r [Hr _]%list_elem_of_filter. done.
  - done.
  - apply Forall_app. split; [|done]. eapply Forall_impl; [apply (inv_signed _ Hinv)|]. intros e. apply signed_mono.
Qed.

(** A node whose disk did not change, signing messages on record already. *)
Lemma still_inv (s : Sys) (who : string) (n n' : NodeState) (signed : list (string * list Z)) :
  sys_inv s → sy_nodes s !! who = Some n → nd_disk n' = nd_disk n → Forall (signed_ok (sy_log s)) signed →
  sys_inv (mkSys (<[who := n']> (sy_nodes s)) (sy_signed s ++ signed) (sy_log s ++ new_rows who n n')).
Proof.
  intros Hinv Hn Hd Hs. eapply (move_inv s who n n' []); [done|done| | | |].
  - rewrite Hd. by apply (inv_nodes _ Hinv who n Hn).
  - by rewrite Hd, app_nil_r.
  - rewrite app_nil_r. apply (inv_log _ Hinv).
  - by rewrite app_nil_r.
Qed.

(** ** Steps *)

Lemma at_height_other (row : V6JournalRow) : jr_height row ≠ height → at_height height [row] = [].
Proof. intros Hne. unfold at_height. by rewrite filter_cons_False. Qed.

Lemma at_height_same (row : V6JournalRow) : jr_height row = height → at_height height [row] = [row].
Proof. intros E. unfold at_height. by rewrite filter_cons_True. Qed.

(** The state a healthy node's checks read, in terms of the log. *)
Lemma node_state (s : Sys) (who : string) (n : NodeState) :
  sys_inv s → sy_nodes s !! who = Some n → healthy (nd_disk n).1 →
  height_state (nd_disk n).1 height = state_after (rows_of who (sy_log s)) ∧
  (∀ l, hj_lock (height_state (nd_disk n).1 height) = Some l → lk_round l ≤ hj_maxVoteRound (height_state (nd_disk n).1 height)).
Proof.
  intros Hinv Hn Hh. destruct (inv_nodes _ Hinv who n Hn) as [Hrec ->]. by apply recoverable_state.
Qed.

Lemma log_heights (s : Sys) (who : string) : sys_inv s → Forall (λ r, jr_height r = height) (rows_of who (sy_log s)).
Proof.
  intros Hinv. apply Forall_forall. intros r Hr%rows_of_elem. pose proof (inv_heights _ Hinv) as Hh.
  rewrite Forall_forall in Hh. by apply (Hh (who, r)).
Qed.

(** A certificate whose honest votes are genuine stands for rows on record. *)
Lemma certificate_on_record (s : Sys) (domain : string) (round : Z) (hash : string) (votes : list V6Vote) :
  sys_inv s → 0 ≤ round ≤ V6_MAX_ROUND → hash_ok hash →
  vote_certificate validators domain (votePayload chainId height round hash) votes → genuine_votes s domain round hash votes →
  ∃ voters, quorum_of validators voters ∧ ∀ w, w ∈ voters → w ∈ honest →
    ∃ m, vote_message_bytes domain height round hash = Ok m ∧ signed_ok (sy_log s) (w, m).
Proof.
  intros Hinv Hr Hh [Hq Hs] Hg. exists (at_validator <$> votes). split; [done|].
  intros w (v & -> & Hv)%list_elem_of_fmap Hw. rewrite Forall_forall in Hs. destruct (Hs v Hv) as [_ Hver].
  destruct (Hg v Hv Hw Hver) as (m & Hm & Hin). exists m. split; [done|].
  pose proof (inv_signed _ Hinv) as Hall. rewrite Forall_forall in Hall. by apply Hall.
Qed.

Lemma prepared_on_record (s : Sys) (round : Z) (hash : string) (votes : list V6Vote) :
  sys_inv s → 0 ≤ round ≤ V6_MAX_ROUND → hash_ok hash →
  prepare_certificate validators chainId height round hash votes → genuine_votes s V6_PREPARE_VOTE_DOMAIN round hash votes →
  prepared_by_quorum height validators honest (sy_log s) round hash.
Proof.
  intros Hinv Hr Hh Hc Hg. destruct (certificate_on_record s _ _ _ _ Hinv Hr Hh Hc Hg) as (voters & Hq & Hv).
  exists voters. split; [done|]. intros w Hw Hhon. destruct (Hv w Hw Hhon) as (m & Hm & Hok). by apply (Hok round hash Hr Hh).
Qed.

(** A vote message that was just signed is on record: no other vote has its
    bytes. *)
Lemma released_ok (l : list (string * V6JournalRow)) (who domain : string) (h round : Z) (hash : string) (m : list Z) :
  domain = V6_PREPARE_VOTE_DOMAIN ∧ (h = height → (who, prepare_row height round hash) ∈ l) ∨
  domain = V6_COMMIT_VOTE_DOMAIN ∧ (h = height → (who, lock_row height round hash) ∈ l) →
  1 ≤ h ≤ MAX_SAFE_INTEGER → 0 ≤ round ≤ V6_MAX_ROUND → hash_ok hash →
  vote_message_bytes domain h round hash = Ok m → signed_ok l (who, m).
Proof using Hheight.
  intros Hd Hh Hr Hhash Hm r hash' Hr' Hh'. cbn [fst snd].
  assert (isSigningDomain domain = true) as Hdom by (destruct Hd as [[-> _]|[-> _]]; reflexivity).
  assert (∀ d, isSigningDomain d = true → vote_message_bytes d height r hash' = Ok m → domain = d ∧ h = height ∧ round = r ∧ hash = hash') as Hinj.
  { intros d Hd' Hm'. eapply vote_message_inj; [exact Hdom|exact Hd'|..|exact Hm|exact Hm'];
      try done; unfold V6_MAX_ROUND, MAX_SAFE_INTEGER in *; lia. }
  split; intros Hm'.
  - destruct (Hinj V6_PREPARE_VOTE_DOMAIN eq_refl Hm') as (Ed & Eh & -> & ->).
    destruct Hd as [[_ Hl]|[Ed' _]]; [by apply Hl|]. rewrite Ed' in Ed. discriminate.
  - destruct (Hinj V6_COMMIT_VOTE_DOMAIN eq_refl Hm') as (Ed & Eh & -> & ->).
    destruct Hd as [[Ed' _]|[_ Hl]]; [|by apply Hl]. rewrite Ed' in Ed. discriminate.
Qed.

Lemma v6Context_Ok (env : Env) (cx : V6Context) :
  v6Context env = Ok cx → env_ok env →
  cx_height cx = cv_height (env_chain env) + 1 ∧ cx_chainId cx = chainId ∧ (cx_height cx = height → cx_validators cx = validators).
Proof.
  unfold v6Context. intros Hc [Hchain Hvals]. apply res_bind_Ok in Hc as (u & _ & <-%Ok_inj). cbn [cx_height cx_chainId cx_validators].
  split_and!; try done. intros E. rewrite E. by apply Hvals.
Qed.

Lemma prepare_checked_sound (env : Env) (signer : ValidatorSigner) (value : json) (cx : V6Context) (member : Validator)
    (block : RawBlock) (p : V6ProposalPayload) (justify : option PrepareQC) :
  prepare_checked env signer value = Ok (cx, member, block, p, justify) → env_ok env →
  cx_height cx = cv_height (env_chain env) + 1 ∧ cx_chainId cx = chainId ∧ (cx_height cx = height → cx_validators cx = validators) ∧
  0 ≤ pr_round p ≤ V6_MAX_ROUND ∧ hash_ok (b_hash block) ∧ -1 ≤ pr_justifyRound p < pr_round p ∧
  (0 ≤ pr_justifyRound p → ∃ qc, justify = Some qc ∧ qc_round qc = pr_justifyRound p ∧ qc_blockHash qc = b_hash block ∧
    prepare_certificate (cx_validators cx) chainId (cx_height cx) (pr_justifyRound p) (b_hash block) (qc_votes qc)).
Proof.
  unfold prepare_checked. intros Hc Henv. res_split.
  match goal with pj : V6Proposal * option PrepareQC |- _ => destruct pj as [proposal j] end.
  res_split. injection Hc as <- <- <- <- <-.
  match goal with Hcx : v6Context _ = Ok _ |- _ => apply v6Context_Ok in Hcx as (? & Ec & ?); [|done] end.
  match goal with Hv : validatePrepareRequestCertificates _ _ _ _ _ = Ok _ |- _ =>
    apply prepare_request_sound in Hv as [(? & ? & ?) (Hb & ? & _) ? _ _ Hj _] end.
  cbn [pq_block] in *. rewrite Ec in Hj. rewrite Hb. split_and!; try done; try lia.
  intros Hge. destruct (Hj Hge) as (qc & ? & ? & ? & ? & _). exists qc. auto.
Qed.

Lemma commit_checked_sound (env : Env) (signer : ValidatorSigner) (value : json) (cx : V6Context) (member : Validator)
    (block : RawBlock) (qc : PrepareQC) :
  commit_checked env signer value = Ok (cx, member, block, qc) → env_ok env →
  cx_height cx = cv_height (env_chain env) + 1 ∧ cx_chainId cx = chainId ∧ (cx_height cx = height → cx_validators cx = validators) ∧
  0 ≤ qc_round qc ≤ V6_MAX_ROUND ∧ hash_ok (qc_blockHash qc) ∧
  prepare_certificate (cx_validators cx) chainId (cx_height cx) (qc_round qc) (qc_blockHash qc) (qc_votes qc).
Proof.
  unfold commit_checked. intros Hc Henv. res_split. injection Hc as <- <- <- <-.
  match goal with Hcx : v6Context _ = Ok _ |- _ => apply v6Context_Ok in Hcx as (? & Ec & ?); [|done] end.
  match goal with Hv : validatePrepareQC _ _ _ _ = Ok _ |- _ => apply validatePrepareQC_sound in Hv as (? & _ & _ & ? & ?) end.
  rewrite Ec in *. split_and!; try done; lia.
Qed.

(** A slot a healthy node holds is a row on record. *)
Lemma slot_on_record (s : Sys) (who : string) (n : NodeState) (round : Z) (step : V6JournalStep) (v : string) :
  sys_inv s → sy_nodes s !! who = Some n → healthy (nd_disk n).1 →
  hj_rows (height_state (nd_disk n).1 height) !! (round, step_text step) = Some v → (who, mkRow height round step v) ∈ sy_log s.
Proof.
  intros Hinv Hn Hh Hs. destruct (node_state s who n Hinv Hn Hh) as [Est _]. rewrite Est in Hs.
  apply rows_of_elem. eapply state_slot_row; [by apply log_heights|exact Hs].
Qed.

Lemma prepare_message_eq (env : Env) (signer : ValidatorSigner) (value : json) (cx : V6Context) (member : Validator)
    (block : RawBlock) (p : V6ProposalPayload) (justify : option PrepareQC) :
  env_signer env = Some signer → prepare_checked env signer value = Ok (cx, member, block, p, justify) →
  prepare_message env value = attempt (vote_message_bytes V6_PREPARE_VOTE_DOMAIN (cx_height cx) (pr_round p) (b_hash block)).
Proof. intros Hs Hc. unfold prepare_message. rewrite Hs. cbn [mbind option_bind]. by rewrite Hc. Qed.

Lemma commit_message_eq (env : Env) (signer : ValidatorSigner) (value : json) (cx : V6Context) (member : Validator)
    (block : RawBlock) (qc : PrepareQC) :
  env_signer env = Some signer → commit_checked env signer value = Ok (cx, member, block, qc) →
  commit_message env value = attempt (vote_message_bytes V6_COMMIT_VOTE_DOMAIN (cx_height cx) (qc_round qc) (qc_blockHash qc)).
Proof. intros Hs Hc. unfold commit_message. rewrite Hs. cbn [mbind option_bind]. by rewrite Hc. Qed.

Lemma released_signed {A} (l : list (string * V6JournalRow)) (who domain : string) (h round : Z) (hash : string) (x : res A) :
  (∀ a, x = Ok a → 1 ≤ h ≤ MAX_SAFE_INTEGER ∧
    (domain = V6_PREPARE_VOTE_DOMAIN ∧ (h = height → (who, prepare_row height round hash) ∈ l) ∨
     domain = V6_COMMIT_VOTE_DOMAIN ∧ (h = height → (who, lock_row height round hash) ∈ l))) →
  0 ≤ round ≤ V6_MAX_ROUND → hash_ok hash →
  Forall (signed_ok l) (released who x (attempt (vote_message_bytes domain h round hash))).
Proof using Hheight.
  intros Hx Hr Hh. unfold released. destruct x as [a|]; [|constructor]. destruct (Hx a eq_refl) as [Hhh Hd].
  destruct (vote_message_bytes domain h round hash) as [m|] eqn:E; cbn [attempt]; constructor; [|constructor].
  by eapply released_ok.
Qed.

(** The row a node writes for one vote, and what was checked before it. *)
Lemma at_height_take (row : V6JournalRow) (k : nat) :
  at_height height (take k [row]) = [] ∨ jr_height row = height ∧ at_height height (take k [row]) = [row].
Proof.
  destruct k as [|k]; [by left|]. cbn [take]. rewrite take_nil.
  destruct (decide (jr_height row = height)); [right; split; [done|by apply at_height_same]|left; by apply at_height_other].
Qed.

Lemma prepare_entry_ok (s : Sys) (who : string) (n : NodeState) (env : Env) (signer : ValidatorSigner) (value : json)
    (cx : V6Context) (member : Validator) (block : RawBlock) (p : V6ProposalPayload) (justify : option PrepareQC) :
  sys_inv s → sy_nodes s !! who = Some n → env_ok env →
  prepare_checked env signer value = Ok (cx, member, block, p, justify) → cx_height cx = height →
  (∀ qc, justify = Some qc → genuine s qc) →
  prepare_allowed (nd_disk n).1 height (pr_round p) (b_hash block) (pr_justifyRound p) →
  entry_ok height validators honest (sy_log s) (who, prepare_row height (pr_round p) (b_hash block)).
Proof.
  intros Hinv Hn Henv Hc Eh Hgen (Hwr & Hfree & [Ht Hvr] & Hj' & Hsafe).
  destruct (prepare_checked_sound _ _ _ _ _ _ _ _ Hc Henv) as (_ & _ & Ev & Hround & Hhash & Hj & Hjust).
  destruct (node_state s who n Hinv Hn (writable_healthy _ _ _ _ Hwr)) as [Est Hcov].
  unfold entry_ok. cbn [fst snd prepare_row jr_height jr_round jr_step jr_value]. rewrite Est in *.
  split_and!; [done|lia|done|intros l Hl; specialize (Hcov l Hl); lia|].
  exists (pr_justifyRound p). split_and!; [lia|done|]. intros Hge.
  destruct (Hjust Hge) as (qc & -> & Er & Eb & Hcert). rewrite (Ev Eh), Eh in Hcert.
  eapply prepared_on_record; [done|lia|done|exact Hcert|].
  pose proof (Hgen qc eq_refl) as Hg. unfold genuine in Hg. by rewrite Er, Eb in Hg.
Qed.

Lemma prepare_step_inv (s : Sys) (who : string) (n n' : NodeState) (env : Env) (value : json) (x : res V6Vote) :
  sys_inv s → sy_nodes s !! who = Some n → env_ok env → v6Prepare env value n = (n', x) →
  (∀ signer cx member block p qc, env_signer env = Some signer → prepare_checked env signer value = Ok (cx, member, block, p, Some qc) →
    cx_height cx = height → genuine s qc) →
  sys_inv (mkSys (<[who := n']> (sy_nodes s)) (sy_signed s ++ released who x (prepare_message env value))
    (sy_log s ++ new_rows who n n')).
Proof using Hheight.
  intros Hinv Hn Henv Hx Hgen. destruct (inv_nodes _ Hinv who n Hn) as [Hrec Hrows].
  apply v6Prepare_effect in Hx as [[Hd [e ->]]|(signer & cx & member & block & p & justify & y & Hs & Hc & Hres & Hok)].
  { by apply still_inv. }
  destruct (prepare_checked_sound _ _ _ _ _ _ _ _ Hc Henv) as (_ & _ & _ & Hround & Hhash & _).
  pose proof (op_recoverable _ (OpPrepare (cx_height cx) (pr_round p) (b_hash block) (pr_justifyRound p)) (env_journalIo env) Hrec) as Hrec'.
  cbn [run_op] in Hrec'. rewrite Hres in Hrec'. cbn [fst] in Hrec'.
  rewrite (prepare_message_eq _ _ _ _ _ _ _ _ Hs Hc).
  destruct (reserveV6Prepare_outcome _ _ _ _ _ _ _ _ Hres) as [[Hd Hheld]|[Hallow Happ]].
  - apply still_inv; try done. apply released_signed; [|done|done]. intros a Ea.
    destruct (Hheld () (Hok a Ea)) as [Hwr Hslot]. split; [apply Hwr|]. left. split; [done|]. intros Eh. rewrite Eh in *.
    apply (slot_on_record s who n); try done. by eapply writable_healthy.
  - pose proof Hallow as (Hwr & _). set (row := mkRow (cx_height cx) (pr_round p) StepPrepare (b_hash block)) in *.
    assert (row_valid row) as Hrv by (by eapply writable_row).
    destruct (appended_rows _ _ _ _ _ Happ (Forall_cons_2 _ _ _ Hrv (Forall_nil_2 _))) as (k & Hfile & Hfull).
    destruct (at_height_take row k) as [Hcase|[Eh Hcase]]; cbn [row jr_height] in *;
      (eapply (move_inv s who n n' (take k [row])); [done|done|done|done|rewrite Hcase..]);
      cbn [fmap list_fmap]; rewrite ?app_nil_r.
    + apply (inv_log _ Hinv).
    + apply released_signed; [|done|done]. intros a Ea. split; [apply Hwr|]. left. split; [done|]. intros Eh. exfalso.
      rewrite (Hfull (Hok a Ea)), at_height_same in Hcase; done.
    + apply ok_log_snoc; [apply (inv_log _ Hinv)|]. intros _. unfold row. rewrite Eh in *.
      eapply (prepare_entry_ok s who n); try done. intros qc ->. by eapply Hgen.
    + apply released_signed; [|done|done]. intros a Ea. split; [apply Hwr|]. left. split; [done|]. intros _.
      apply elem_of_app. right. unfold row, prepare_row. rewrite Eh. by left.
Qed.

(** A commit on record has its lock on record. *)
Lemma commit_has_lock (l : list (string * V6JournalRow)) (who : string) (round : Z) (hash : string) :
  ok_log height validators honest l → who ∈ honest → (who, commit_row height round hash) ∈ l → (who, lock_row height round hash) ∈ l.
Proof.
  intros Hl Hw (pre & post & E)%list_elem_of_split. destruct (Hl _ _ _ E Hw) as (_ & _ & Hin). cbn in Hin.
  rewrite E. apply elem_of_app. by left.
Qed.

(** The lock and commit rows, or the lock alone. *)
Lemma commit_rows_ok (s : Sys) (who : string) (n : NodeState) (round : Z) (hash : string) (k : nat) :
  sys_inv s → sy_nodes s !! who = Some n → commit_allowed (nd_disk n).1 height round hash →
  prepared_by_quorum height validators honest (sy_log s) round hash →
  ok_log height validators honest (sy_log s ++ (pair who <$> take k [lock_row height round hash; commit_row height round hash])).
Proof.
  intros Hinv Hn (Hwr & Hfree & Hlock) Hprep.
  destruct (node_state s who n Hinv Hn (writable_healthy _ _ _ _ Hwr)) as [Est _].
  assert (ok_log height validators honest (sy_log s ++ [(who, lock_row height round hash)])) as H1.
  { apply ok_log_snoc; [apply (inv_log _ Hinv)|]. intros _. unfold entry_ok. cbn [fst snd lock_row jr_height jr_round jr_step jr_value].
    rewrite <-Est. split_and!; try done. apply Hwr. }
  destruct k as [|[|k]]; cbn [take fmap list_fmap]; [rewrite app_nil_r; apply (inv_log _ Hinv)|done|].
  rewrite take_nil. cbn [fmap list_fmap]. change (?a :: [?b]) with ([a] ++ [b]). rewrite app_assoc.
  apply ok_log_snoc; [done|]. intros _. unfold entry_ok. cbn [fst snd commit_row jr_height jr_round jr_step jr_value].
  split_and!; [done|apply Hwr|]. apply elem_of_app. right. by left.
Qed.

Lemma at_height_all (rows : list V6JournalRow) : Forall (λ r, jr_height r = height) rows → at_height height rows = rows.
Proof. induction 1 as [|r rows E _ IH]; [done|]. unfold at_height in *. rewrite filter_cons_True by done. by rewrite IH. Qed.

Lemma at_height_none (rows : list V6JournalRow) : Forall (λ r, jr_height r ≠ height) rows → at_height height rows = [].
Proof. induction 1 as [|r rows E _ IH]; [done|]. unfold at_height in *. by rewrite filter_cons_False. Qed.

Lemma commit_step_inv (s : Sys) (who : string) (n n' : NodeState) (env : Env) (value : json) (x : res V6Vote) :
  sys_inv s → who ∈ honest → sy_nodes s !! who = Some n → env_ok env → v6Commit env value n = (n', x) →
  (∀ signer cx member block qc, env_signer env = Some signer → commit_checked env signer value = Ok (cx, member, block, qc) →
    cx_height cx = height → genuine s qc) →
  sys_inv (mkSys (<[who := n']> (sy_nodes s)) (sy_signed s ++ released who x (commit_message env value))
    (sy_log s ++ new_rows who n n')).
Proof using Hheight.
  intros Hinv Hw Hn Henv Hx Hgen. destruct (inv_nodes _ Hinv who n Hn) as [Hrec Hrows].
  apply v6Commit_effect in Hx as [[Hd [e ->]]|(signer & cx & member & block & qc & y & Hs & Hc & Hres & Hok)].
  { by apply still_inv. }
  destruct (commit_checked_sound _ _ _ _ _ _ _ Hc Henv) as (_ & _ & Ev & Hround & Hhash & Hcert).
  pose proof (op_recoverable _ (OpCommit (cx_height cx) (qc_round qc) (qc_blockHash qc)) (env_journalIo env) Hrec) as Hrec'.
  cbn [run_op] in Hrec'. rewrite Hres in Hrec'. cbn [fst] in Hrec'.
  rewrite (commit_message_eq _ _ _ _ _ _ _ Hs Hc).
  destruct (reserveV6Commit_outcome _ _ _ _ _ _ _ Hres) as [[Hd Hheld]|[Hallow Happ]].
  - apply still_inv; try done. apply released_signed; [|done|done]. intros a Ea.
    destruct (Hheld () (Hok a Ea)) as [Hwr Hslot]. split; [apply Hwr|]. right. split; [done|]. intros Eh. rewrite Eh in *.
    apply commit_has_lock; [apply (inv_log _ Hinv)|done|].
    apply (slot_on_record s who n); try done. by eapply writable_healthy.
  - pose proof Hallow as (Hwr & _).
    set (rows := [mkRow (cx_height cx) (qc_round qc) StepLock (qc_blockHash qc); mkRow (cx_height cx) (qc_round qc) StepCommit (qc_blockHash qc)]) in *.
    assert (Forall row_valid rows) as Hrv by (repeat constructor; cbn; by apply Hwr).
    destruct (appended_rows _ _ _ _ _ Happ Hrv) as (k & Hfile & Hfull).
    eapply (move_inv s who n n' (take k rows)); [done|done|done|done|..].
    + destruct (decide (cx_height cx = height)) as [Eh|Eh].
      * rewrite at_height_all by (apply Forall_take; by repeat constructor). unfold rows. rewrite Eh in *.
        apply (commit_rows_ok s who n); try done. rewrite (Ev eq_refl) in Hcert.
        eapply prepared_on_record; [done|lia|done|exact Hcert|]. by eapply Hgen.
      * rewrite at_height_none by (apply Forall_take; by repeat constructor).
        cbn [fmap list_fmap]. rewrite app_nil_r. apply (inv_log _ Hinv).
    + apply released_signed; [|done|done]. intros a Ea. split; [apply Hwr|]. right. split; [done|]. intros Eh.
      rewrite (Hfull (Hok a Ea)), at_height_all by (by repeat constructor).
      apply elem_of_app. right. unfold rows, lock_row. rewrite Eh. by left.
Qed.

(** ** Steps without a vote *)

Lemma released_other (domain : string) (payload : res json) (ms : list (list Z)) :
  isSigningDomain domain = true → domain ≠ V6_PREPARE_VOTE_DOMAIN → domain ≠ V6_COMMIT_VOTE_DOMAIN →
  released_in domain payload ms → Forall other_message ms.
Proof.
  intros Hd N1 N2 Hr. unfold released_in in Hr. destruct payload as [p|]; [|by subst]. destruct Hr as (m & Hm & ->).
  constructor; [|constructor]. intros d round hash Hvote _ _ Hm'.
  assert (isSigningDomain d = true) as Hd' by (destruct Hvote as [-> | ->]; reflexivity).
  apply (envelope_bytes _ _ _ Hd) in Hm as [r1 ->]. apply (envelope_bytes _ _ _ Hd') in Hm' as [r2 E].
  apply app_inv_head, split_at_quote in E; [apply lit_inj in E; by destruct Hvote as [-> | ->]|..].
  - intros Hin. by destruct (proj1 (Forall_forall _ _) (domain_units domain Hd) 34 Hin) as (_ & ? & _).
  - intros Hin. by destruct (proj1 (Forall_forall _ _) (domain_units d Hd') 34 Hin) as (_ & ? & _).
Qed.

Lemma quiet_other (n n' : NodeState) (ms : list (list Z)) : quiet n n' ms → Forall other_message ms.
Proof.
  destruct 1 as [? ? ? ? ? ? ? _ Hr|? ? ? ? ? ? _ Hr|? ? ? ? ? ? ? ? _ Hr| |]; try done;
    eapply released_other; try exact Hr; try done; discriminate.
Qed.

Lemma other_signed (l : list (string * V6JournalRow)) (who : string) (ms : list (list Z)) :
  Forall other_message ms → Forall (signed_ok l) (pair who <$> ms).
Proof.
  intros Hms. apply Forall_fmap. eapply Forall_impl; [exact Hms|]. intros m Hm r hash Hr Hh. cbn [fst snd].
  split; intros E; [by apply Hm in E; [|left|..]|by apply Hm in E; [|right|..]].
Qed.

(** A row that is neither a vote nor a lock passes the log's checks. *)
Definition quiet_row (r : V6JournalRow) : Prop :=
  0 ≤ jr_round r ∧ match jr_step r with StepPrepare | StepLock | StepCommit => False | _ => True end.

Lemma quiet_rows_ok (l : list (string * V6JournalRow)) (who : string) (rows : list V6JournalRow) :
  ok_log height validators honest l → Forall quiet_row rows →
  ok_log height validators honest (l ++ (pair who <$> at_height height rows)).
Proof.
  intros Hl. revert l Hl. induction rows as [|r rows IH]; intros l Hl Hq; [by rewrite app_nil_r|].
  apply Forall_cons in Hq as [[Hr Hstep] Hq]. unfold at_height. rewrite filter_cons. case_decide as E; [|by apply IH].
  cbn [fmap list_fmap]. change (?a :: ?b) with ([a] ++ b). rewrite app_assoc. apply IH; [|done].
  apply ok_log_snoc; [done|]. intros _. unfold entry_ok. cbn [fst snd]. split_and!; try done. by destruct (jr_step r).
Qed.

Lemma legacy_rows (lines : list json) (k : nat) : Forall (λ l, line_row l = None) lines → file_rows (take k lines) = [].
Proof.
  intros Hl. revert k. induction Hl as [|l lines E _ IH]; intros [|k]; try done.
  cbn [take]. unfold file_rows. cbn [omap list_omap]. rewrite E. apply IH.
Qed.

(** What the reservations of older protocols append. *)
Definition appends_only (line : json) (d d' : disk) : Prop := ∃ k, d'.2 = d.2 ++ take k [line].

Lemma appends_nothing (line : json) (d : disk) : appends_only line d d.
Proof. exists 0%nat. by rewrite app_nil_r. Qed.

Lemma appends_line {A} (line : json) (io : Io) (f : unit → meth disk A) (d d' : disk) (x : res A) :
  (∀ d, (f () d).1.2 = d.2) → (append_lines [line] io ≫= f) d = (d', x) → appends_only line d d'.
Proof.
  intros Hf. rewrite meth_bind_run, append_lines_run. destruct io as [|k]; [|intros [= <- <-]; by exists k].
  intros E. specialize (Hf (d.1, d.2 ++ [line])). rewrite E in Hf. exists 1%nat. done.
Qed.

Lemma legacy_appends (h : Z) (io : Io) (d d' : disk) (x : res unit) :
  reserveLegacyHeight h io d = (d', x) → appends_only (legacy_json h) d d'.
Proof.
  unfold reserveLegacyHeight. rewrite meth_bind_run, mem_run. cbn [m_get fst snd]. destruct d as [j file]; cbn [fst snd]. intros Hx.
  do 4 (apply check_cases in Hx as [->|[_ Hx]]; [apply appends_nothing|]).
  destruct (bool_decide _); [apply ret_cases in Hx as [-> _]; apply appends_nothing|]. by eapply appends_line; [|exact Hx].
Qed.

Lemma choice_appends (h round : Z) (kind value : string) (io : Io) (d d' : disk) (x : res unit) :
  reserveChoice h round kind value io d = (d', x) → appends_only (reservation_json h round kind value) d d'.
Proof.
  unfold reserveChoice. rewrite meth_bind_run, mem_run. cbn [m_get fst snd]. destruct d as [j file]; cbn [fst snd]. intros Hx.
  do 4 (apply check_cases in Hx as [->|[_ Hx]]; [apply appends_nothing|]). unfold reserve_new in Hx.
  destruct (sj_reservations j !! (h, round)).
  { destruct (String.eqb _ _); [apply ret_cases in Hx as [-> _]|apply lift_cases in Hx as [-> _]]; apply appends_nothing. }
  apply check_cases in Hx as [->|[_ Hx]]; [apply appends_nothing|]. by eapply appends_line; [|exact Hx].
Qed.

(** An operation that is no vote adds quiet rows only. *)
Lemma other_op_rows (op : journal_op) (io : Io) (d : disk) :
  match op with OpPrepare _ _ _ _ | OpCommit _ _ _ => False | _ => True end →
  ∃ rows, file_rows (run_op op io d).1.2 = file_rows d.2 ++ rows ∧ Forall quiet_row rows.
Proof.
  intros Hop.
  assert (∀ line d', line_row line = None → appends_only line d d' →
    ∃ rows, file_rows d'.2 = file_rows d.2 ++ rows ∧ Forall quiet_row rows) as Hleg.
  { intros line d' Hl (k & ->). exists []. rewrite file_rows_app, legacy_rows by (by repeat constructor). by split. }
  destruct (run_op op io d) as [d' x] eqn:E. cbn [fst]. destruct op as [h r st v| | |h|h r [] v]; try done; cbn [run_op] in E.
  - apply reserveV6_outcome in E as [[-> _]|[(Hw & _) Ha]]; [exists []; by rewrite app_nil_r|].
    destruct (appended_rows _ _ _ _ _ Ha ltac:(by repeat constructor; apply Hw)) as (k & -> & _). eexists. split; [done|].
    apply Forall_take. constructor; [|constructor]. split; [apply Hw|]. by destruct st.
  - by eapply Hleg, legacy_appends.
  - by eapply Hleg, choice_appends.
  - by eapply Hleg, choice_appends.
Qed.

Lemma quiet_effect (n n' : NodeState) (ms : list (list Z)) :
  quiet n n' ms → nd_disk n' = nd_disk n ∨ ∃ op io,
    match op with OpPrepare _ _ _ _ | OpCommit _ _ _ => False | _ => True end ∧ nd_disk n' = (run_op op io (nd_disk n)).1.
Proof.
  destruct 1 as [env h r n n' x ms Hx _|env block n n' x ms Hx _|env round block tc n n' x ms Hx _|op io n n' ms Hop Hd _|f n].
  - destruct (v6Timeout_effect env h r n) as (op & io & Ho). rewrite Hx in Ho. cbn [fst] in Ho. naive_solver.
  - destruct (v6SignFreshBlock_effect env block n) as (op & io & Ho). rewrite Hx in Ho. cbn [fst] in Ho. naive_solver.
  - destruct (v6SignProposal_effect env round block tc n) as (op & io & Ho). rewrite Hx in Ho. cbn [fst] in Ho. naive_solver.
  - right. exists op, io. split; [by destruct op|done].
  - by left.
Qed.

Lemma quiet_step_inv (s : Sys) (who : string) (n n' : NodeState) (ms : list (list Z)) :
  sys_inv s → sy_nodes s !! who = Some n → quiet n n' ms →
  sys_inv (mkSys (<[who := n']> (sy_nodes s)) (sy_signed s ++ (pair who <$> ms)) (sy_log s ++ new_rows who n n')).
Proof.
  intros Hinv Hn Hq. pose proof (quiet_other _ _ _ Hq) as Hms.
  destruct (quiet_effect _ _ _ Hq) as [Hd|(op & io & Hop & Hd)]; [apply still_inv; try done; by apply other_signed|].
  destruct (other_op_rows op io (nd_disk n) Hop) as (rows & Hfile & Hrows).
  eapply (move_inv s who n n' rows); [done|done| | | |by apply other_signed].
  - rewrite Hd. apply op_recoverable. by apply (inv_nodes _ Hinv who n Hn).
  - by rewrite Hd.
  - apply quiet_rows_ok; [apply (inv_log _ Hinv)|done].
Qed.

(** ** Restarts *)

Lemma restart_step_inv (s : Sys) (who : string) (n n' : NodeState) (io : Io) (file : list json) (r : res SigningJournal) :
  sys_inv s → sy_nodes s !! who = Some n → open_journal (nd_disk n).2 io = (file, r) →
  nd_disk n' = (match r with Ok j => j | Throw _ => set_faulted (nd_disk n).1 end, file) →
  sys_inv (mkSys (<[who := n']> (sy_nodes s)) (sy_signed s) (sy_log s ++ new_rows who n n')).
Proof.
  intros Hinv Hn Ho Hd. destruct (inv_nodes _ Hinv who n Hn) as [Hrec Hrows].
  assert (recoverable (nd_disk n')) as Hrec'.
  { rewrite Hd. by apply (restart_recoverable (nd_disk n) io). }
  rewrite <-(app_nil_r (sy_signed s)).
  destruct (open_recoverable (nd_disk n) io Hrec) as (j & [lock|] & Hr & Hcase).
  - destruct Hcase as (_ & Hc & Ho' & _). rewrite Ho in Ho'.
    set (commit := mkRow (jr_height lock) (jr_round lock) StepCommit (jr_value lock)) in *.
    destruct Hc as (Hv & _ & _ & _ & _ & _ & Hlk).
    assert (∃ k, file = (nd_disk n).2 ++ take k [row_json commit]) as [k Ef].
    { destruct io as [|k]; injection Ho' as -> _; [exists 1%nat|exists k]; done. }
    eapply (move_inv s who n n' (take k [commit])); [done|done|done| | |constructor].
    + rewrite Hd. cbn [snd]. rewrite Ef, file_rows_app. f_equal. apply (file_rows_json [commit]). apply Forall_cons_2; [exact Hv|constructor].
    + destruct (at_height_take commit k) as [->|[Eh ->]]; cbn [fmap list_fmap]; [rewrite app_nil_r; apply (inv_log _ Hinv)|].
      apply ok_log_snoc; [apply (inv_log _ Hinv)|]. intros _. unfold entry_ok. cbn [fst snd]. split_and!; [done|apply Hv|].
      cbn [jr_step jr_round jr_value commit]. apply rows_of_elem. cbn [jr_height commit] in Eh.
      assert (height_state j height = state_after (at_height height (file_rows (nd_disk n).2))) as Est.
      { apply replay_heights in Hr. unfold height_state. rewrite Hr. apply heights_state. }
      rewrite Eh, Est, <-Hrows in Hlk. eapply (state_lock_row _ _ height) in Hlk; [done|by apply log_heights].
  - destruct Hcase as [Ho' _]. rewrite Ho in Ho'. injection Ho' as -> ->.
    eapply (move_inv s who n n' []); [done|done|done| | |constructor].
    + by rewrite Hd, app_nil_r.
    + rewrite app_nil_r. apply (inv_log _ Hinv).
Qed.

(** ** Compactions *)

Lemma compact_step_inv (s : Sys) (who : string) (n n' : NodeState) (h : Z) (io : CompactIo) (x : res Z) :
  sys_inv s → sy_nodes s !! who = Some n → h < height → compactThrough h io (nd_disk n) = (nd_disk n', x) →
  sys_inv (mkSys (<[who := n']> (sy_nodes s)) (sy_signed s) (sy_log s)).
Proof.
  intros Hinv Hn Hh Hc%compactThrough_cases. destruct (inv_nodes _ Hinv who n Hn) as [Hrec Hrows].
  constructor; cbn [sy_nodes sy_log sy_signed]; [|apply Hinv..].
  intros w nw Hw. destruct (decide (w = who)) as [->|Hne].
  - rewrite lookup_insert_eq in Hw. injection Hw as <-. split; [by apply (compact_recoverable _ _ _ _ Hrec Hc)|].
    by rewrite (compacted_state _ _ _ _ _ Hrec Hc Hh).
  - rewrite lookup_insert_ne in Hw by done. by apply inv_nodes.
Qed.

Lemma retire_step_inv (s : Sys) (who : string) : sys_inv s → sys_inv (mkSys (delete who (sy_nodes s)) (sy_signed s) (sy_log s)).
Proof.
  intros Hinv. constructor; cbn [sy_nodes sy_log sy_signed]; [|apply Hinv..].
  intros w n [_ Hw]%lookup_delete_Some. by apply inv_nodes.
Qed.

Lemma step_inv (s s' : Sys) : sys_inv s → sys_step s s' → sys_inv s'.
Proof using Hheight.
  intros Hinv Hs. destruct Hs.
  - by eapply prepare_step_inv.
  - by eapply commit_step_inv.
  - by eapply quiet_step_inv.
  - by eapply compact_step_inv.
  - by apply retire_step_inv.
  - by eapply restart_step_inv.
Qed.

Lemma reachable_inv (s : Sys) : sys_reachable s → sys_inv s.
Proof using Hheight.
  intros (s0 & Hi%init_inv & Hr). induction Hr as [|s0 s1 s2 Hs _ IH]; [done|]. apply IH. by eapply step_inv.
Qed.

End system.
