(* ===== verification/Agreement.v ===== *)
(** The agreement theorem of protocol v6, and a run of four validators it
    applies to. *)

From S2P Require Import Prelude Types Codec Crypto Activity Transaction TxShape Block ConsensusV6 BlockEnvelope Journal JournalReplay Compaction Recovery Budget Node Handlers Votes VotingLog ConsensusSafety.

Section agreement.
Context `{Crypto} (chainId : string) (height : Z) (validators : list Validator) (honest faulty : list string).

(** A node accepted [block] as the final block of [height]; the signatures of
    honest validators in its certificate were made by them. *)
Definition accepted (s : Sys) (v : json) (previous : Block) (nowMs : Z) (requireProposerSignature : bool) (block : RawBlock) : Prop :=
  validateBlockEnvelopeGates v previous validators nowMs true CONSENSUS_V6_PROTOCOL_VERSION requireProposerSignature = Ok block ∧
  h_chainId (b_header previous) = chainId ∧ h_height (b_header previous) + 1 = height ∧
  ∀ r, b_commitRound block = CommitAt r →
    genuine_votes chainId height honest s V6_COMMIT_VOTE_DOMAIN r (b_hash block) (b_attestations block).

Lemma accepted_locked (s : Sys) (v : json) (previous : Block) (nowMs : Z) (sig : bool) (block : RawBlock) :
  sys_inv chainId height validators honest s → accepted s v previous nowMs sig block →
  ∃ round, locked_by_quorum height validators honest (sy_log s) round (b_hash block).
Proof.
  intros Hinv (Hg & Hchain & Hheight & Hgen). unfold validateBlockEnvelopeGates in Hg. res_split. subst.
  match goal with Hh : gate_header _ _ _ _ = Ok _ |- _ => unfold gate_header in Hh; rename Hh into Hhead end.
  match goal with Hc : gate_certificates _ _ _ = Ok _ |- _ => unfold gate_certificates in Hc; rename Hc into Hcert end.
  res_split. breflect.
  match goal with E : h_version (b_header block) = _ |- _ => rewrite E in Hcert end.
  change (CONSENSUS_V6_PROTOCOL_VERSION =? CONSENSUS_V6_PROTOCOL_VERSION) with true in Hcert. cbv iota in Hcert. res_split.
  unfold validateCommitCertificate in Hcert. apply res_bind_Ok in Hcert as (r & Hr & Hcert).
  destruct (b_commitRound block) as [| |cr] eqn:Ecr; try discriminate. res_split. subst. breflect.
  assert (hash_ok (b_hash block)) as Hash by (by eapply (assertHex_Ok _ 32)).
  assert (0 ≤ r ≤ V6_MAX_ROUND) as Hround by lia. apply validateVoteSet_sound in Hcert. exists r.
  match goal with E : h_chainId (b_header block) = _, E' : h_height (b_header block) = _ |- _ => rewrite E, E' in Hcert end.
  destruct (certificate_on_record _ _ _ _ s _ _ _ _ Hinv Hround Hash Hcert (Hgen r eq_refl)) as (voters & Hq & Hv).
  exists voters. split; [done|]. intros w Hw Hhon. destruct (Hv w Hw Hhon) as (m & Hm & Hok). by apply (Hok r (b_hash block)).
Qed.

(** C1. Agreement. Fewer than a third of the validators are faulty and do anything;
    the others start with empty journals and run the handlers of the node against
    them, with any schedule, any messages, failed appends, restarts and
    compactions of earlier heights. A valid signature of an honest validator in a
    certificate that is relied on was made by that validator. Then any two blocks
    that any nodes accept as final for one height, at whatever rounds and with
    whatever certificates, are the same block. *)
Theorem agreement (s : Sys) (v1 v2 : json) (previous1 previous2 : Block) (now1 now2 : Z) (sig1 sig2 : bool) (block1 block2 : RawBlock) :
  1 ≤ height ≤ MAX_SAFE_INTEGER →
  3 * zlen faulty < zlen validators → (∀ w, w ∈ v_address <$> validators → w ∉ faulty → w ∈ honest) →
  sys_reachable chainId height validators honest s →
  accepted s v1 previous1 now1 sig1 block1 → accepted s v2 previous2 now2 sig2 block2 →
  b_hash block1 = b_hash block2.
Proof.
  intros Hh Hthird Hfaulty Hr%reachable_inv H1 H2; [|done].
  destruct (accepted_locked _ _ _ _ _ _ Hr H1) as [r1 L1]. destruct (accepted_locked _ _ _ _ _ _ Hr H2) as [r2 L2].
  eapply (locks_agree height validators honest (sy_log s)); [by apply (inv_log _ _ _ _ s Hr)|exact Hthird|exact Hfaulty|exact L1|exact L2].
Qed.

(** Deciding [genuine_votes] on a concrete system. *)
Definition genuine_votesb (s : Sys) (domain : string) (round : Z) (hash : string) (votes : list V6Vote) : bool :=
  forallb (λ v, match vote_message_bytes chainId domain height round hash with
                | Ok m => bool_decide (at_validator v ∉ honest) || bool_decide ((at_validator v, m) ∈ sy_signed s)
                | Throw _ => false
                end) votes.

Lemma genuine_votesb_true (s : Sys) (domain : string) (round : Z) (hash : string) (votes : list V6Vote) :
  genuine_votesb s domain round hash votes = true → genuine_votes chainId height honest s domain round hash votes.
Proof.
  unfold genuine_votesb. rewrite forallb_forall. intros Hall v Hv%list_elem_of_In Hh _. apply Hall in Hv.
  destruct (vote_message_bytes _ _ _ _ _) as [m|]; [|done]. exists m. split; [done|].
  apply orb_true_iff in Hv as [Hv|Hv]; by apply bool_decide_eq_true in Hv.
Qed.

(** One step of the validator [who] with the given chain and request, where the
    step's conditions hold; the certificate of the request is [qc]. *)
Definition run_vote (who : string) (m : meth NodeState V6Vote) (message : option (list Z)) (qc : option PrepareQC) (s : Sys) : option Sys :=
  n ← sy_nodes s !! who;
  if bool_decide (who ∈ honest) &&
    match qc with
    | Some q => genuine_votesb s V6_PREPARE_VOTE_DOMAIN (qc_round q) (qc_blockHash q) (qc_votes q)
    | None => true
    end then
    let '(n', x) := m n in
    Some (mkSys (<[who := n']> (sy_nodes s)) (sy_signed s ++ released who x message) (sy_log s ++ new_rows height who n n'))
  else None.
Definition run_prepare (who : string) (env : Env) (value : json) (s : Sys) : option Sys :=
  let qc := signer ← env_signer env; '(_, _, _, _, q) ← attempt (prepare_checked env signer value); q in
  run_vote who (v6Prepare env value) (prepare_message chainId env value) qc s.
Definition run_commit (who : string) (env : Env) (value : json) (s : Sys) : option Sys :=
  let qc := signer ← env_signer env; '(_, _, _, q) ← attempt (commit_checked env signer value); Some q in
  run_vote who (v6Commit env value) (commit_message chainId env value) qc s.

Lemma run_vote_Some (who : string) (m : meth NodeState V6Vote) (message : option (list Z)) (qc : option PrepareQC) (s s' : Sys) :
  run_vote who m message qc s = Some s' →
  ∃ n n' x, sy_nodes s !! who = Some n ∧ who ∈ honest ∧ m n = (n', x) ∧ (∀ q, qc = Some q → genuine chainId height honest s q) ∧
    s' = mkSys (<[who := n']> (sy_nodes s)) (sy_signed s ++ released who x message) (sy_log s ++ new_rows height who n n').
Proof.
  unfold run_vote. intros (n & Hn & Hs)%bind_Some.
  destruct (bool_decide (who ∈ honest)) eqn:Hw; [|done]. apply bool_decide_eq_true in Hw. cbn [andb] in Hs.
  case_match eqn:Hq; [|done]. destruct (m n) as [n' x] eqn:Em. injection Hs as <-. exists n, n', x. split_and!; try done.
  intros q ->. by apply genuine_votesb_true.
Qed.

Lemma run_prepare_step (who : string) (env : Env) (value : json) (s s' : Sys) :
  env_ok chainId height validators env → run_prepare who env value s = Some s' → sys_step chainId height validators honest s s'.
Proof.
  intros He (n & n' & x & Hn & Hw & Hm & Hq & ->)%run_vote_Some. eapply sys_prepare; try done.
  intros signer cx member block p q Hs Hp _. apply Hq. rewrite Hs. cbn [mbind option_bind]. by rewrite Hp.
Qed.

Lemma run_commit_step (who : string) (env : Env) (value : json) (s s' : Sys) :
  env_ok chainId height validators env → run_commit who env value s = Some s' → sys_step chainId height validators honest s s'.
Proof.
  intros He (n & n' & x & Hn & Hw & Hm & Hq & ->)%run_vote_Some. eapply sys_commit; try done.
  intros signer cx member block q Hs Hp _. apply Hq. rewrite Hs. cbn [mbind option_bind]. by rewrite Hp.
Qed.

(** A sequence of steps. *)
Fixpoint run_all (fs : list (Sys → option Sys)) (s : Sys) : option Sys :=
  match fs with [] => Some s | f :: fs => f s ≫= run_all fs end.

Lemma run_all_steps (fs : list (Sys → option Sys)) (s s' : Sys) :
  Forall (λ f : Sys → option Sys, ∀ a b, f a = Some b → sys_step chainId height validators honest a b) fs →
  run_all fs s = Some s' → rtc (sys_step chainId height validators honest) s s'.
Proof.
  intros Hf. revert s. induction Hf as [|f fs Hf _ IH]; intros s Hr; [injection Hr as <-; apply rtc_refl|].
  cbn [run_all] in Hr. apply bind_Some in Hr as (s1 & H1 & Hr). eapply rtc_l; [by apply Hf|]. by apply IH.
Qed.

End agreement.

(** A run of four validators: the first three, one of them the leader, prepare
    and commit the proposed block; the fourth is faulty. *)
Module Run.
#[local] Existing Instance ToyCrypto.toy.
Import V6Example.

Definition address (k : string) : string := addressFromPublicKey (pk k).
Definition honestKeys : list string := Eval vm_compute in take 3 keys.
Definition honest : list string := Eval vm_compute in address <$> honestKeys.
Definition faulty : list string := Eval vm_compute in address <$> drop 3 keys.

Definition chain : ChainView :=
  mkChainView 6 "zyron-test" 1700000000000 (λ _, 6) (λ _, validators) (λ _ _ _, (true, Ok ())) (λ _ _, Ok ()).
Definition env (k : string) : Env := mkEnv chain 1700000031000 (Some (mkSigner k (pk k))) IoOk (λ _, true).
Definition node : NodeState := mkNode (new_journal, []) ∅ None false (mkBudget [] 1 1024).

Definition round0 : V6ProposalPayload := mkProposalPayload "zyron-test" 7 0 (b_hash proposed) (-1).
Definition proposal : V6Proposal := Eval vm_compute in
  mkProposal round0 (get_ok "" (signV6 V6_PROPOSAL_DOMAIN (proposalPayload round0) leaderKey)).
Definition open_block : RawBlock := Eval vm_compute in
  mkBlock (b_header proposed) [] (b_hash proposed) (b_proposerPublicKey proposed) (b_signature proposed) [] [] NullCommitRound.
Definition prepare_request : json := Eval vm_compute in
  JObj [("proposal", proposal_json proposal); ("block", raw_block_json open_block); ("tc", JNull)].
Definition qc : PrepareQC := Eval vm_compute in
  mkPrepareQC "zyron-test" 7 0 (b_hash proposed) (map (vote V6_PREPARE_VOTE_DOMAIN 0 (b_hash proposed)) honestKeys).
Definition commit_request : json := Eval vm_compute in JObj [("qc", qc_json qc); ("block", raw_block_json open_block)].

Definition start : Sys := mkSys (list_to_map ((λ a, (a, node)) <$> honest)) [] [].
Definition schedule : list (Sys → option Sys) :=
  ((λ k, run_prepare "zyron-test" 7 honest (address k) (env k) prepare_request) <$> honestKeys) ++
  ((λ k, run_commit "zyron-test" 7 honest (address k) (env k) commit_request) <$> honestKeys).

Lemma env_is_ok (k : string) : env_ok "zyron-test" 7 validators (env k).
Proof. by split. Qed.

Lemma run_reachable (s : Sys) : run_all schedule start = Some s → sys_reachable "zyron-test" 7 validators honest s.
Proof.
  intros Hr. exists start. split.
  - split; [|split; reflexivity]. intros who n Hn. apply elem_of_list_to_map_2, list_elem_of_fmap in Hn as (a & E & _).
    injection E as _ ->. reflexivity.
  - eapply run_all_steps; [|exact Hr]. unfold schedule. apply Forall_app. split; apply Forall_fmap, Forall_forall; intros k _ a b Hs.
    + eapply run_prepare_step; [apply env_is_ok|exact Hs].
    + eapply run_commit_step; [apply env_is_ok|exact Hs].
Qed.

Definition committed : Sys := default start (run_all schedule start).

Lemma committed_reachable : sys_reachable "zyron-test" 7 validators honest committed.
Proof.
  apply run_reachable. unfold committed.
  assert (match run_all schedule start with Some _ => true | None => false end = true) as Hr by (vm_compute; reflexivity).
  destruct (run_all schedule start); [reflexivity|discriminate].
Qed.

Lemma honest_or_faulty (w : string) : w ∈ v_address <$> validators → w ∉ faulty → w ∈ honest.
Proof.
  intros Hw Hf. assert (forallb (λ w, bool_decide (w ∈ faulty) || bool_decide (w ∈ honest)) (v_address <$> validators) = true) as Hall
    by (vm_compute; reflexivity).
  rewrite forallb_forall in Hall. apply list_elem_of_In, Hall, orb_true_iff in Hw as [Hw|Hw]; by apply bool_decide_eq_true in Hw.
Qed.

(** Two final blocks: with the certificate of the three honest validators, and
    with a vote of the faulty one instead of the third. *)
Definition final (signers : list string) : RawBlock :=
  mkBlock (b_header proposed) [] (b_hash proposed) (b_proposerPublicKey proposed) (b_signature proposed) []
    (map (vote V6_COMMIT_VOTE_DOMAIN 0 (b_hash proposed)) signers) (CommitAt 0).
Definition final1 : RawBlock := Eval vm_compute in final honestKeys.
Definition final2 : RawBlock := Eval vm_compute in final (take 2 keys ++ drop 3 keys).
End Run.

Lemma agreement_witness :
  b_attestations Run.final1 ≠ b_attestations Run.final2 ∧ b_hash Run.final1 = b_hash Run.final2.
Proof.
  split; [vm_compute; discriminate|].
  apply (agreement (H := ToyCrypto.toy) "zyron-test" 7 V6Example.validators Run.honest Run.faulty Run.committed
    (raw_block_json Run.final1) (raw_block_json Run.final2) V6Example.previous V6Example.previous 1700000031000 1700000031000
    true true Run.final1 Run.final2).
  - vm_compute. intuition congruence.
  - vm_compute. reflexivity.
  - exact Run.honest_or_faulty.
  - exact Run.committed_reachable.
  - split; [vm_compute; reflexivity|]. split; [reflexivity|]. split; [reflexivity|].
    intros r E. injection E as <-. apply genuine_votesb_true. vm_compute. reflexivity.
  - split; [vm_compute; reflexivity|]. split; [reflexivity|]. split; [reflexivity|].
    intros r E. injection E as <-. apply genuine_votesb_true. vm_compute. reflexivity.
Defined.
